(* ===== verification/_CoqProject ===== *)
-Q . S2P
Prelude.v
Telemetry.v
PstError.v
Crypt.v
Nid.v
Header.v
Btree.v
Block.v
BlockFacts.v
Streaming.v
Subnode.v
Heap.v
Bth.v
Utf.v
PropContext.v
PropContextFacts.v
TableContext.v
TableContextFacts.v
Folder.v
UnionFind.v
Text.v
CivilDate.v
Recipient.v
Grouping.v
Hasher.v
HasherFacts.v
Message.v
NamedProp.v
Attachment.v
AttachmentFacts.v
Embedded.v
EmbeddedFacts.v
WriterHeap.v
WriterPc.v
NamedPropMap.v
CloudRoundTrip.v
Layout.v
LayoutFacts.v
DataChain.v
DataChainFacts.v
StreamWrite.v
TreeWriter.v
NdbLayout.v
NdbPages.v
NdbTree.v
NdbFile.v
NdbRead.v
NdbStore.v
NdbRoundTrip.v
PagedHeap.v
PagedHeapFacts.v
WriterTable.v
TableRows.v
WriterTableFacts.v
TableTheorems.v
WriterMessage.v
WriterMessageFacts.v
MessageBuild.v
MessageAttach.v
MessageTheorems.v
MessageRoundTrip.v
DedupIndex.v
KeepGroup.v
GroupInv.v
Backfill.v
GroupTheorems.v
StreamGroup.v
GroupExamples.v
Rebuild.v
Rank.v
RankFacts.v
Integrity.v
Finalize.v
FinalizeTheorems.v
KeepSet.v
KeepSetFacts.v
KeepSetTheorems.v
AuditLog.v
Cull.v
LoadFile.v
