(* ===== verification/Prelude.v ===== *)
(** * Verification of pst-dedupe

    The repository finds duplicate e-mail messages in Outlook data files (PST),
    chooses the copies to keep and writes them to a new file.  This library models
    three of its crates down to the byte and the counter: the reader
    [src/crates/pst-reader], which turns an untrusted file into nodes, property
    contexts, tables, folders, messages and attachments; the engine
    [src/crates/dedup-engine], which hashes and groups the scanned messages, ranks
    the copies of each group, loads the winners and reports every decision; and, of
    the writer [src/crates/pst-writer], the heaps, property contexts, named properties,
    tables and messages, and the whole engine below them that lays out blocks and pages and
    writes the file, which the reader must be able to read.  Of
    [src/crates/pst-dedup-cli] it models the rebuilding of the duplicate report,
    which drives the streaming index.  Of the case-management crates it models
    three pure parts: the audit chain of [src/crates/matter-core], the culling rules of
    [src/crates/matter-cull], and the load files that [src/crates/matter-produce] writes and [src/crates/matter-gap] parses.

    ** How the parts interact

    A file is opened by [Header]; [Btree] builds the node index and the
    block index; [Block] reads data and subnode trees of blocks, decrypted by
    [Crypt]; [Heap] and [Bth] read the heap inside a node; [PropContext] and
    [TableContext] read properties and tables from it; [Folder] opens a file and
    lists its folders; [Message] reads messages and recipients, [NamedProp] the
    Name-to-ID map, [Attachment] the attachments and their data, [Embedded] the
    messages attached to messages.  Every read reports damage to [Telemetry].
    [Hasher] turns a message into the keys by which it is compared.  The scanner of
    the CLI makes one [KeepGroup.scan_item] of each message.  The items go two
    ways.  One is the streaming index [DedupIndex], which [Rebuild] feeds in scan
    order.  The other is the keep set: [KeepGroup] groups all items, [Rank]
    resolves the groups, [Finalize] loads the winners and promotes other copies
    where loading fails, [KeepSet] collects winners, statistics and decision rows.
    [StreamGroup] relates the two ways.  [WriterHeap] and [NamedPropMap] write the
    property contexts of the export; [WriterPc] and [CloudRoundTrip] relate them to the reader.  Their bytes go to [DataChain], which
    cuts a value into blocks that [Layout] places and spills to the temporary file; at the end [TreeWriter] plans the two B-trees, lets [Layout] place what is
    left and writes pages, blocks and header.  [NdbRoundTrip] reads that file back
    with the reader's own definitions.

    ** Files and sources

    - [Prelude]: the outcome type [res] of Rust results (a value, an error, a
      panic), the monad of reads that report events, byte slices and little-endian
      integers, loops, and the lemmas on them that all files share.
    - [Telemetry]: pst-reader/src/integrity_telemetry.rs.
    - [PstError]: error.rs.  [Crypt]: crypto.rs.  [Nid]: ndb/nid.rs.
      [Header]: header.rs and ndb/page.rs.  [Btree]: ndb/btree.rs.
    - [Block], [BlockFacts], [Streaming], [Subnode]: ndb/block.rs; [BlockFacts]
      opens with the block store of the witnesses.
    - [Heap]: ltp/hn.rs.  [Bth]: ltp/bth.rs.  [Utf], [PropContext],
      [PropContextFacts]: ltp/pc.rs.  [TableContext], [TableContextFacts]: ltp/tc.rs.
    - [Folder]: lib.rs, messaging/folder.rs, messaging/store.rs.
    - [Message]: messaging/message.rs and the table reader of
      messaging/recipient.rs.  [NamedProp]: messaging/named_prop.rs.
      [Attachment], [AttachmentFacts]: messaging/attachment.rs.  [Embedded],
      [EmbeddedFacts]: messaging/embedded.rs.
    - [Text]: the operations of Rust strings.  [CivilDate]: the dates of keepset.rs
      and message.rs.  [Recipient]: recipients of both crates.
    - [UnionFind]: the [find] and [unite] of dedup-engine/src/keepset.rs and of
      matter-neardup/src/cluster.rs.
    - [Grouping]: dedup-engine/src/grouping.rs and the eligibility of hasher.rs.
      [Hasher], [HasherFacts]: hasher.rs and embedded_hash.rs.  [DedupIndex]: index.rs.
    - [KeepGroup] (definitions), [GroupInv] (the loop as a step relation and its
      invariants), [Backfill] (the backfill pass), [GroupTheorems],
      [GroupExamples]: the grouping part of keepset.rs.
    - [StreamGroup], [Rebuild]: pst-dedup-cli/src/scan.rs over [DedupIndex].
    - [Rank], [RankFacts]: the ranking ladder and resolving in keepset.rs.
    - [Integrity]: integrity.rs.
    - [Finalize], [FinalizeTheorems]: [finalize_with_materialize_opts] of keepset.rs.
    - [KeepSet], [KeepSetFacts], [KeepSetTheorems]: [to_keep_set] and the decision rows of keepset.rs.
    - [WriterHeap], [WriterPc]:
      [HeapBuilder] of pst-writer/src/lib.rs, [build_bth_checked] and [build_pc_v2]
      of production.rs.  [NamedPropMap]: named_prop_map.rs and
      the pointer of a cloud link in production.rs.  [CloudRoundTrip]: that pointer
      against the reader's classification.
    - [Layout]: the temporary file, [Layout], [EagerWriteCtx] and the
      placement around AMap pages in pst-writer/src/lib.rs; [LayoutFacts] its
      invariant [ly_ok].  [DataChain]: data chains, streams, row matrices and subnode
      leaves of production.rs; [DataChainFacts] the trees they build, [StreamWrite] the
      streams and their rollback.  [TreeWriter]: tree planning, page and header
      writers and the finalization in production.rs.
    - [NdbLayout] (what planning and [calculate_offsets] do to a layout), [NdbPages]
      (pages and their readers), [NdbTree] (the tree writer against the tree walk of
      [Btree]), [NdbFile] (the finalized file), [NdbRead] (blocks and data trees in
      it), [NdbStore] (sequences of writer operations), [NdbRoundTrip]: the theorems on
      that engine.
    - [WriterMessage], [WriterMessageFacts]: messages, attachments and the ledger of
      production.rs.  [MessageBuild] (the properties of a message while
      it is built), [MessageAttach], [MessageTheorems], [MessageRoundTrip]: the written
      message against the reader.
    - [PagedHeap], [PagedHeapFacts]: [PagedHeapBuilder] of pst-writer/src/lib.rs.
      [WriterTable]: the tables of production.rs; [TableRows] (the reader on a written
      table), [WriterTableFacts] (what a table builder stores), [TableTheorems].
    - [AuditLog]: matter-core/src/audit.rs.  [Cull]: matter-cull/src/rules.rs, eval.rs,
      denist.rs and family.rs.  [LoadFile]: matter-produce/src/dat.rs, the field maps of
      matter-core/src/production_profile.rs, matter-gap/src/dat_parse.rs and column_map.rs.  They
      use of the files above only [Prelude], the text functions and the lemmas on hashing.

    State is passed explicitly.  A Rust [&mut] argument is a component of the
    state of a fold or of a [walk]; the two telemetry stores are the state of
    [Telemetry]; reads emit telemetry events, which [Telemetry] folds over its
    stores; the cached Name-to-ID map is the state of the attachment lists.  Machine
    integers are integers with their wrap-around ([wrap 64]) or saturation written
    out; an index out of range and an overflowing subtraction are [Panic].
    A Rust [String] is its list of UTF-8 bytes in the engine and in messages, and its
    list of Unicode scalar values in the reader's decoder and in the writer.

    ** What the theorems show

    - Reading is safe on any bytes: opening, building the indexes, reading blocks,
      subnodes, properties, tables, messages and attachments terminate without a
      panic and within the limits that the source sets ([open_total],
      [block_readers_total], [message_reads_total], [attachments_total],
      [nested_export_bounded], [body_budget_respected]).
    - Reading is right: each index is the record map of the page tree at its root
      ([index_build_refines]); the streaming and the assembling reader agree and an
      attachment is delivered whole ([attachment_delivers]); the two subnode lookups
      agree; the targeted subnode load changes no property; the two message readers
      agree ([readers_agree]); strict attachment lists omit nothing, and are the soft
      ones when those are complete, for a message node only if it has an attachment table
      ([strict_lists_exact]); a nested export marks exactly the children that its depth or
      a limit cut ([nested_export_bounded]); heaps, row matrices, headers and text are decoded as
      the format says; the folder listing is the preorder of the tree.
    - Writing is right: what the writer's property contexts hold the reader reads
      ([pc_round_trip]), the Name-to-ID map survives ([named_streams_round_trip],
      [named_props_resolve]), and so does a cloud link whose pointer fits its page; a
      longer one is an error ([cloud_link_survives_export]).
      A layout finalizes, and its file gives back every node, value and subnode table
      with no integrity event, after any sequence of operations in which no stream
      failed after it had registered an AMap slot, and with offsets and block IDs below
      2^64 ([written_file_reads_back]); pages and blocks never overlap nor touch an AMap
      slot ([layout_places_apart]).  A complete stream is the same as writing its bytes; a
      failed one leaves nodes, blocks, IDs and AMap pages as they were, but the slots of
      the pages it had registered stay in the book ([stream_writes_or_undoes]), and then
      the layout may not finalize ([rollback_forgets_amap_slot]).  The
      reader extracts the rows of a row matrix ([row_matrix_round_trip]) and the recipients of a recipient table
      ([recipient_table_round_trip]).  An exported message comes back as it was
      ([message_round_trip]): no length of its strings or bodies prevents that, since
      long values go to subnodes until the context fits its page.
    - Counting is right: telemetry loses no event under any interleaving with
      flushes, the damage flag of a message is what was counted ([crc_suspect_exact]),
      the counters of the index and of the keep set account for every message
      ([snapshot_counts], [index_counts], [keep_set_accounts]), and no attachment
      of an exported message disappears without an event ([attachments_accounted]).
    - Hashing is right: reply prefixes, white space and the order of attachments do
      not change a key ([dedup_keys_invariant]); at the levels body and body-recip equal
      strong preimages have equal plain preimages, body digests and body lengths, when
      digest and length come together and, at body-recip, the recipients hold equally
      many separators ([strong_refines_v1]; [equal_v2_unequal_v1] otherwise).
    - Grouping is right: the groups partition the messages, provenance is what it
      says, scopes are never mixed, Message-IDs are not mixed when that is
      forbidden, the backfill pass computes connected components whatever the
      order of the hash map.  The streaming index refines the grouping without the
      backfill pass, when CRC-suspect items are treated alike by both and, under body
      verification, one bind hash means one body fingerprint
      ([stream_matches_grouping]; [stream_binds_crc_suspects] and
      [adopted_mid_fingerprints_differ] otherwise).
    - Choosing is right: the rank order is total, each winner is the best of its
      group, and materialization settles each group by its first complete copy, else
      by its first incomplete one.
    - Case management is right: the audit log is a chain whose head fixes a log of
      one-line fields, collisions of SHA-256 aside ([audit_chain_evident];
      [line_feed_moves_between_fields] otherwise), the culling rules give the reasons that hold and never
      skip a validated date window ([evaluate_exact]), the family pass ends and settles
      the descendants it names and no one else ([family_policy_settles]), and what the
      gap analysis makes of a load file that a production wrote, under any field map and
      column map, is known exactly: its rows with the canonical columns, and a refusal
      with the built-in Relativity columns under the default column map
      ([load_file_round_trip]).

    Theorems named in the findings show where the code departs from its
    documentation; each is a run of the model on concrete input.

    ** Bounds and fuel

    The page walk and the subnode walks carry the depth check of the source at 32,
    so fuel 34 is never exhausted (proved).  The row matrix loop has fuel for one
    step per block, the attachment stream for one step per leaf.  [find] of the
    union-find has fuel for one step per element, which the forest invariant makes
    enough.  The family pass of the cull stage has fuel for one pass more than there are
    candidates, since each pass that is not the last settles one.  BTH walks recurse on the level byte, exports on the remaining depth.
    The folder walk of the source has no bound; its fuel is an argument, and
    [folders_preorder] says that some fuel suffices exactly when the folder tree is
    finite.  Decimal digits have fuel for one step per bit.

    In the writer, a free block ID is found within 8 steps and a node ID within 4
    (three indices are reserved); a region is placed within 4 rounds because it is
    smaller than the distance of two AMap slots, and the loop over the slots settles
    in its second round of 3; streams have fuel for one step per delivered byte and
    per event; a planned tree has at most one level per entry;
    the size probe of a message has fuel for one step per string that can still move
    to a subnode.  The invariant
    [ly_ok] makes each of them enough, and the theorems say that the operations
    return.  [written_file_reads_back] asks that offsets and block IDs stay below
    2^64, where the model's unbounded integers and the code's agree.

    ** Parameters

    Code outside the repository is a parameter: CRC-32 ([Header.Crc32]), MD5
    ([Finalize.Md5]), SHA-256 ([Hasher.Sha256]), the Unicode case mapping and the
    path functions of the platform ([Text.Platform], and an argument of
    [NamedPropMap.short_attach_filename]), the iteration order of hash maps
    ([KeepGroup.hash_order], [LoadFile.entry_order], any permutation), the timestamps of
    chrono ([Cull.Chrono]), the CSV reader (an argument of [LoadFile.parse_simple_csv]), the file that is reopened for an
    attachment stream (an argument of [Attachment.open_block_stream]), the reader
    that a value is streamed from (the list of the results of its calls of [read]:
    bytes, end, interruption or failure), and the
    materializer and the receiver of winners in [Finalize], which are given with
    their own state.

    ** Not modelled

    The planning and writing of the folder tree, the EML writer and the copies of
    fields from canonical messages in the writer, the rest of the case-management crates ([src/crates/matter-*]), the
    extractors, user interfaces and command drivers are not modelled: they are
    SQL, file and process I/O, rendering, or wrappers of external libraries, and
    their other pure parts (job states, production records) are left out.  In
    the modelled crates, log texts, CSV and JSON output, the preflight rates
    (floating point) and the clock are left out; the clock reading is an argument.
    Failures of the disk under the writer are not modelled: a write succeeds in full.
    Nor is the call stack: a recursion of the source is a recursion or a loop of the
    model at no cost, such as the one by which [AttachmentDataReader::read] skips empty
    leaf blocks ([attachments_total] says that it ends, not that the stack suffices). *)

From Stdlib Require Export ZArith Lia.
From stdpp Require Export base tactics option list gmap strings.
From coqutil Require Export Byte Word.LittleEndianList.

#[global] Open Scope Z_scope.

(** ** Outcomes of fallible Rust code *)

(** A Rust computation of type [Result<A, E>] returns a value, returns an
    error, or panics (an out-of-range index or slice).  [NoFuel] is the extra
    outcome of a model function whose recursion is bounded by fuel; the
    theorems below show which functions never reach it. *)
Inductive res (E A : Type) : Type :=
| Ok (a : A)
| Err (e : E)
| Panic
| NoFuel.

Arguments Ok {E A} a.
Arguments Err {E A} e.
Arguments Panic {E A}.
Arguments NoFuel {E A}.

#[export] Instance res_ret E : MRet (res E) := λ A, Ok.
#[export] Instance res_bind E : MBind (res E) := λ A B f m,
  match m with Ok a => f a | Err e => Err e | Panic => Panic | NoFuel => NoFuel end.
#[export] Instance res_fmap E : FMap (res E) := λ A B f m, m ≫= λ a, Ok (f a).

(** [Result::ok_or]: an absent value becomes the given error. *)
Definition ok_or {E A} (o : option A) (e : E) : res E A :=
  match o with Some a => Ok a | None => Err e end.

(** [holds m Q]: [m] neither panics nor runs out of fuel, and a value it
    returns satisfies [Q].  Errors are allowed. *)
Definition holds {E A} (m : res E A) (Q : A → Prop) : Prop :=
  match m with Ok a => Q a | Err _ => True | Panic => False | NoFuel => False end.

(** [never_panics m]: the two outcomes that are not [Result] values are excluded. *)
Definition never_panics {E A} (m : res E A) : Prop := holds m (λ _, True).

Section res_lemmas.
Context {E : Type}.

Lemma bind_ok {A B} (a : A) (f : A → res E B) : (Ok a ≫= f) = f a.
Proof. reflexivity. Qed.

Lemma bind_err {A B} (e : E) (f : A → res E B) : ((Err e : res E A) ≫= f) = Err e.
Proof. reflexivity. Qed.

Lemma bind_ok_inv {A B} (m : res E A) (f : A → res E B) b :
  (m ≫= f) = Ok b → ∃ a, m = Ok a ∧ f a = Ok b.
Proof. destruct m; simpl; naive_solver. Qed.

Lemma bind_assoc {A B C} (m : res E A) (f : A → res E B) (g : B → res E C) :
  ((m ≫= f) ≫= g) = (m ≫= λ a, f a ≫= g).
Proof. by destruct m. Qed.

Lemma bind_ext {A B} (m : res E A) (f g : A → res E B) :
  (∀ a, m = Ok a → f a = g a) → (m ≫= f) = (m ≫= g).
Proof. destruct m; simpl; auto. Qed.

Lemma holds_ret {A} (a : A) (Q : A → Prop) : Q a → holds (Ok a : res E A) Q.
Proof. done. Qed.

Lemma holds_err {A} (e : E) (Q : A → Prop) : holds (Err e) Q.
Proof. done. Qed.

Lemma holds_bind {A B} (m : res E A) (f : A → res E B) (Q : B → Prop) :
  holds m (λ a, holds (f a) Q) → holds (m ≫= f) Q.
Proof. by destruct m. Qed.

Lemma holds_mono {A} (m : res E A) (P Q : A → Prop) :
  holds m P → (∀ a, P a → Q a) → holds m Q.
Proof. destruct m; simpl; auto. Qed.

Lemma holds_ok_or {A} (o : option A) (e : E) (Q : A → Prop) :
  (∀ a, o = Some a → Q a) → holds (ok_or o e) Q.
Proof. destruct o; simpl; auto. Qed.

Lemma holds_ok {A} (m : res E A) (Q : A → Prop) a : holds m Q → m = Ok a → Q a.
Proof. intros H ->. exact H. Qed.

Lemma holds_and {A} (m : res E A) (P Q : A → Prop) :
  holds m P → holds m Q → holds m (λ a, P a ∧ Q a).
Proof. destruct m; simpl; auto. Qed.
End res_lemmas.

(** ** Computations that also report telemetry *)

(** [logged V E A] is a [res E A] with the telemetry events it reported, in
    order.  An error keeps the events reported before it. *)
Definition logged (V E A : Type) : Type := res E A * list V.

#[export] Instance logged_ret V E : MRet (logged V E) := λ A a, (Ok a, []).
#[export] Instance logged_bind V E : MBind (logged V E) := λ A B f m,
  match m with
  | (Ok a, l) => let r := f a in (r.1, l ++ r.2)
  | (Err e, l) => (Err e, l)
  | (Panic, l) => (Panic, l)
  | (NoFuel, l) => (NoFuel, l)
  end.

Definition outcome {V E A} (m : logged V E A) : res E A := m.1.
Definition events {V E A} (m : logged V E A) : list V := m.2.

(** A computation that reports nothing. *)
Definition quiet {V E A} (m : res E A) : logged V E A := (m, []).

(** Report one event. *)
Definition emit {V E} (v : V) : logged V E unit := (Ok (), [v]).

(** [match m { Ok(a) => .., Err(_) => .. }]: the error is dropped, its events stay. *)
Definition attempt {V E A} (m : logged V E A) : logged V E (option A) :=
  match m with
  | (Ok a, l) => (Ok (Some a), l)
  | (Err _, l) => (Ok None, l)
  | (Panic, l) => (Panic, l)
  | (NoFuel, l) => (NoFuel, l)
  end.

Section logged_lemmas.
Context {V E : Type}.

Lemma holds_attempt {A} (m : logged V E A) (Q : option A → Prop) :
  holds (outcome m) (λ a, Q (Some a)) → Q None → holds (outcome (attempt m)) Q.
Proof. by destruct m as [[] ?]. Qed.

Lemma outcome_bind {A B} (m : logged V E A) (f : A → logged V E B) :
  outcome (m ≫= f) = (outcome m ≫= λ a, outcome (f a)).
Proof. by destruct m as [[] ?]. Qed.

Lemma outcome_ret {A} (a : A) : outcome (mret a : logged V E A) = Ok a.
Proof. done. Qed.

Lemma outcome_quiet {A} (m : res E A) : outcome (quiet m : logged V E A) = m.
Proof. done. Qed.

Lemma outcome_emit (v : V) : outcome (emit v : logged V E unit) = Ok ().
Proof. done. Qed.

Lemma events_ret {A} (a : A) : events (mret a : logged V E A) = [].
Proof. done. Qed.

Lemma events_quiet {A} (m : res E A) : events (quiet m : logged V E A) = [].
Proof. done. Qed.

Lemma events_bind {A B} (m : logged V E A) (f : A → logged V E B) :
  events (m ≫= f) =
  events m ++ match outcome m with Ok a => events (f a) | _ => [] end.
Proof. destruct m as [[] l]; unfold events; cbn; by rewrite ?app_nil_r. Qed.
End logged_lemmas.

Create Rewrite HintDb outcome.
#[export] Hint Rewrite @outcome_bind @outcome_ret @outcome_quiet @outcome_emit : outcome.
#[export] Hint Rewrite @bind_ok @bind_err : outcome.

(** ** Walks: recursive reads that thread mutable state through [&mut]

    The state survives an error, as a [&mut] argument does in Rust. *)
Definition walk (S V E A : Type) : Type := S → (res E A * S) * list V.

#[export] Instance walk_ret S V E : MRet (walk S V E) := λ A a s, ((Ok a, s), []).
#[export] Instance walk_bind S V E : MBind (walk S V E) := λ A B f m s,
  match m s with
  | ((Ok a, s'), l) => let r := f a s' in (r.1, l ++ r.2)
  | ((Err e, s'), l) => ((Err e, s'), l)
  | ((Panic, s'), l) => ((Panic, s'), l)
  | ((NoFuel, s'), l) => ((NoFuel, s'), l)
  end.

(** A read that does not touch the walk's state. *)
Definition lift {S V E A} (m : logged V E A) : walk S V E A := λ s, ((m.1, s), m.2).

(** The outcome, with the state it leaves, and the events. *)
Definition wrun {S V E A} (m : walk S V E A) (s : S) : res E A * S := (m s).1.

(** Run a walk from a fresh state and drop the state ([let mut visited = ..]). *)
Definition run_fresh {S V E A} (s0 : S) (m : walk S V E A) : logged V E A :=
  ((m s0).1.1, (m s0).2).

Section walk_lemmas.
Context {S V E : Type}.

Lemma wrun_bind {A B} (m : walk S V E A) (f : A → walk S V E B) s :
  wrun (m ≫= f) s =
  match wrun m s with
  | (Ok a, s') => wrun (f a) s'
  | (Err e, s') => (Err e, s')
  | (Panic, s') => (Panic, s')
  | (NoFuel, s') => (NoFuel, s')
  end.
Proof. unfold wrun, mbind, walk_bind. by destruct (m s) as [[[] ?] ?]. Qed.

Lemma wrun_ret {A} (a : A) s : wrun (mret a : walk S V E A) s = (Ok a, s).
Proof. done. Qed.

Lemma wrun_lift {A} (m : logged V E A) s :
  wrun (lift m : walk S V E A) s = (outcome m, s).
Proof. done. Qed.

Lemma outcome_run_fresh {A} s0 (m : walk S V E A) :
  outcome (run_fresh s0 m) = (wrun m s0).1.
Proof. done. Qed.

Lemma wrun_bind_ok {A B} (m : walk S V E A) (f : A → walk S V E B) s a s' :
  wrun m s = (Ok a, s') → wrun (m ≫= f) s = wrun (f a) s'.
Proof. intros H. by rewrite wrun_bind, H. Qed.

Lemma wrun_bind_ok_inv {A B} (m : walk S V E A) (f : A → walk S V E B) s b s'' :
  wrun (m ≫= f) s = (Ok b, s'') →
  ∃ a s', wrun m s = (Ok a, s') ∧ wrun (f a) s' = (Ok b, s'').
Proof. rewrite wrun_bind. destruct (wrun m s) as [[] ?]; naive_solver. Qed.
End walk_lemmas.

#[export] Hint Rewrite @wrun_ret @wrun_lift @outcome_run_fresh : outcome.

(** ** Bytes, slices and little-endian integers *)


#[export] Instance byte_eq_decision : EqDecision byte := Byte.byte_eq_dec.

(** The value of a [u8]. *)
Definition u8 (b : byte) : Z := byte.unsigned b.

(** [l.len()] *)
Definition zlen {A} (l : list A) : Z := Z.of_nat (length l).

(** The [n] elements of [l] from offset [a] (fewer where [l] ends). *)
Definition sub {A} (l : list A) (a n : Z) : list A :=
  take (Z.to_nat n) (drop (Z.to_nat a) l).

(** [&l[a..b]]: panics unless [a <= b <= l.len()]. *)
Definition slice {E A} (l : list A) (a b : Z) : res E (list A) :=
  if (0 <=? a) && (a <=? b) && (b <=? zlen l) then Ok (sub l a (b - a)) else Panic.

(** [l[i]] on bytes: panics unless [i < l.len()]. *)
Definition index {E} (l : list byte) (i : Z) : res E Z :=
  if 0 <=? i then
    match l !! Z.to_nat i with Some b => Ok (u8 b) | None => Panic end
  else Panic.

(** [LittleEndian::read_uN(&l[a..a + w])]: a [w]-byte little-endian integer. *)
Definition le_at {E} (l : list byte) (a w : Z) : res E Z :=
  s ← slice l a (a + w); Ok (le_combine s).

(** The same integer as a total function, used where the range is known. *)
Definition le_val (l : list byte) (a w : Z) : Z := le_combine (sub l a w).

(** Truncating casts [x as u16], [x as u32], [x as u64]; [x as i16], [x as i32]. *)
Definition wrap (w x : Z) : Z := x mod 2 ^ w.
Definition swrap (w x : Z) : Z := (x + 2 ^ (w - 1)) mod 2 ^ w - 2 ^ (w - 1).

Lemma wrap_small w x : 0 <= x < 2 ^ w → wrap w x = x.
Proof. intros. by apply Z.mod_small. Qed.

(** The offsets visited by
    [for i in 0..n { let off = base + i*stride; if off + stride > len { break } .. }]. *)
Fixpoint entry_offsets (stride len off : Z) (n : nat) : list Z :=
  match n with
  | O => []
  | S n' => if len <? off + stride then [] else off :: entry_offsets stride len (off + stride) n'
  end.

Section bytes_lemmas.
Context {E : Type}.

Lemma zlen_nonneg {A} (l : list A) : 0 <= zlen l.
Proof. unfold zlen. lia. Qed.

Lemma zlen_app {A} (l k : list A) : zlen (l ++ k) = zlen l + zlen k.
Proof. unfold zlen. rewrite length_app. lia. Qed.

Lemma zlen_cons {A} (x : A) l : zlen (x :: l) = 1 + zlen l.
Proof. unfold zlen. simpl length. lia. Qed.

Lemma zlen_nil {A} : zlen (@nil A) = 0.
Proof. done. Qed.

Lemma zlen_sub {A} (l : list A) a n :
  0 <= a → 0 <= n → a + n <= zlen l → zlen (sub l a n) = n.
Proof. unfold zlen, sub. intros. rewrite length_take, length_drop. lia. Qed.

Lemma slice_ok {A} (l : list A) a b :
  0 <= a → a <= b → b <= zlen l → slice l a b = Ok (sub l a (b - a)) :> res E _.
Proof.
  intros. unfold slice.
  by rewrite (proj2 (Z.leb_le 0 a)), (proj2 (Z.leb_le a b)), (proj2 (Z.leb_le b _)).
Qed.

Lemma slice_panic {A} (l : list A) a b : zlen l < b → slice l a b = Panic :> res E _.
Proof. intros. unfold slice. by rewrite (proj2 (Z.leb_gt b _)), andb_false_r. Qed.

Lemma slice_inv {A} (l : list A) a b s :
  slice l a b = Ok s :> res E _ →
  0 <= a ∧ a <= b ∧ b <= zlen l ∧ s = sub l a (b - a).
Proof. unfold slice. repeat case_match; naive_solver (simplify_eq; lia). Qed.

Lemma index_ok (l : list byte) i :
  0 <= i < zlen l → ∃ b, l !! Z.to_nat i = Some b ∧ index l i = Ok (u8 b) :> res E _.
Proof.
  intros [H1 H2]. destruct (lookup_lt_is_Some_2 l (Z.to_nat i)) as [b Hb].
  { unfold zlen in H2. lia. }
  exists b. split; [done|]. unfold index. by rewrite (proj2 (Z.leb_le 0 i)), Hb.
Qed.

Lemma le_at_ok (l : list byte) a w :
  0 <= a → 0 <= w → a + w <= zlen l → le_at l a w = Ok (le_val l a w) :> res E _.
Proof.
  intros. unfold le_at. rewrite slice_ok by lia.
  simpl. unfold le_val. by replace (a + w - a) with w by lia.
Qed.

Lemma index_val (l : list byte) i : 0 <= i < zlen l → index l i = Ok (le_val l i 1) :> res E _.
Proof.
  intros Hi. destruct (index_ok l i Hi) as (b & Hb & ->). f_equal.
  unfold le_val, sub. rewrite (drop_S _ _ _ Hb). change (Z.to_nat 1) with 1%nat.
  symmetry. apply le_combine_1.
Qed.

Lemma sub_all {A} (l : list A) n : zlen l <= n → sub l 0 n = l.
Proof. intros H. unfold sub, zlen in *. rewrite drop_0. apply firstn_all2. lia. Qed.

Lemma sub_sub {A} (l : list A) a n b k :
  0 <= a → 0 <= b → 0 <= k → b + k <= n → sub (sub l a n) b k = sub l (a + b) k.
Proof.
  intros. unfold sub. rewrite skipn_firstn_comm, drop_drop, take_take.
  f_equal; [lia|]. f_equal. lia.
Qed.

Lemma le_val_sub (l : list byte) a n b w :
  0 <= a → 0 <= b → 0 <= w → b + w <= n → le_val (sub l a n) b w = le_val l (a + b) w.
Proof. intros. unfold le_val. by rewrite sub_sub. Qed.

Lemma le_combine_range (s : list byte) : 0 <= le_combine s < 2 ^ (8 * zlen s).
Proof. apply le_combine_bound. Qed.

Lemma le_val_range (l : list byte) a w : 0 <= w → 0 <= le_val l a w < 2 ^ (8 * w).
Proof.
  intros Hw. unfold le_val. pose proof (le_combine_range (sub l a w)) as [H1 H2].
  split; [done|]. eapply Z.lt_le_trans; [done|]. apply Z.pow_le_mono_r; [lia|].
  unfold zlen, sub. rewrite length_take. lia.
Qed.

Lemma u8_range b : 0 <= u8 b < 256.
Proof. apply byte.unsigned_range. Qed.

Lemma holds_slice {A} (l : list A) a b (Q : list A → Prop) :
  0 <= a → a <= b → b <= zlen l → Q (sub l a (b - a)) → holds (slice l a b : res E _) Q.
Proof. intros. by rewrite slice_ok. Qed.

Lemma holds_le_at (l : list byte) a w (Q : Z → Prop) :
  0 <= a → 0 <= w → a + w <= zlen l →
  (∀ v, v = le_val l a w → 0 <= v < 2 ^ (8 * w) → Q v) → holds (le_at l a w : res E _) Q.
Proof. intros ??? HQ. rewrite le_at_ok by done. apply HQ; [done|]. by apply le_val_range. Qed.

Lemma holds_index (l : list byte) i (Q : Z → Prop) :
  0 <= i < zlen l → (∀ v, 0 <= v < 256 → Q v) → holds (index l i : res E _) Q.
Proof. intros Hi HQ. destruct (index_ok l i Hi) as (b & _ & ->). apply HQ, u8_range. Qed.

Lemma entry_offsets_bound stride len off n o :
  0 <= stride → o ∈ entry_offsets stride len off n → off <= o ∧ o + stride <= len.
Proof.
  intros Hs. revert off. induction n as [|n IH]; intros off; simpl; [set_solver|].
  case_match eqn:Hc; [set_solver|]. apply Z.ltb_ge in Hc.
  rewrite elem_of_cons. intros [->|Ho]; [lia|]. apply IH in Ho. lia.
Qed.
End bytes_lemmas.

(** ** Automation *)

(** Step through a goal [holds m Q]: split binds, discharge slice and integer
    reads by arithmetic, and split conditionals. *)
Create HintDb reads.
#[export] Hint Resolve holds_ret holds_err : reads.

Ltac holds_step :=
  match goal with
  | |- holds (_ ≫= _) _ => apply holds_bind
  | |- holds (Ok _) _ => apply holds_ret
  | |- holds (mret _) _ => apply holds_ret
  | |- holds (Err _) _ => apply holds_err
  | |- holds (ok_or _ _) _ => apply holds_ok_or; intros ? ?
  | |- holds (slice _ _ _) _ => apply holds_slice; [lia|lia|lia|]
  | |- holds (le_at _ _ _) _ => apply holds_le_at; [lia|lia|lia|intros ? ? ?]
  | |- holds (index _ _) _ => apply holds_index; [lia|intros ? ?]
  | |- holds (if ?b then _ else _) _ => let H := fresh "Hc" in destruct b eqn:H
  end; cbv beta.

(** Turn boolean comparisons in the context into arithmetic. *)
Ltac bool_to_Z :=
  repeat match goal with
  | H : (_ <? _) = true |- _ => apply Z.ltb_lt in H
  | H : (_ <? _) = false |- _ => apply Z.ltb_ge in H
  | H : (_ <=? _) = true |- _ => apply Z.leb_le in H
  | H : (_ <=? _) = false |- _ => apply Z.leb_gt in H
  | H : (_ =? _) = true |- _ => apply Z.eqb_eq in H
  | H : (_ =? _) = false |- _ => apply Z.eqb_neq in H
  | H : andb _ _ = true |- _ => apply andb_true_iff in H; destruct H
  | H : orb _ _ = false |- _ => apply orb_false_iff in H; destruct H
  | H : negb _ = true |- _ => apply negb_true_iff in H
  | H : negb _ = false |- _ => apply negb_false_iff in H
  end.

(** Evaluate reads whose ranges are known. *)
Ltac run_reads :=
  repeat match goal with
  | |- context [index ?l ?i] => rewrite (index_val l i) by lia
  | |- context [le_at ?l ?a ?w] => rewrite (le_at_ok l a w) by lia
  | |- context [slice ?l ?a ?b] => rewrite (slice_ok l a b) by lia
  | |- _ => rewrite bind_ok
  end.

(** ** Loops *)

(** [for x in l { f(x)?; }] *)
Definition wfor {S V E A} (f : A → walk S V E unit) : list A → walk S V E unit :=
  fix go l := match l with [] => mret () | x :: l' => _ ← f x; go l' end.

(** [for x in l { .. f(x)? .. }] collecting the values. *)
Definition rmap {E A B} (f : A → res E B) : list A → res E (list B) :=
  fix go l := match l with [] => Ok [] | x :: l' => y ← f x; ys ← go l'; Ok (y :: ys) end.

(** [for x in l { b = f(b, x)?; }] in any of the monads. *)
Definition mfold {M : Type → Type} `{MRet M, MBind M} {A B} (f : B → A → M B) : list A → B → M B :=
  fix go l b := match l with [] => mret b | x :: l' => b' ← f b x; go l' b' end.

(** [match m { Err(e) if caught(e) => k, r => r }] *)
Definition catch {S V E A} (caught : E → bool) (m k : walk S V E A) : walk S V E A := λ s,
  match m s with
  | ((Err e, s'), l) => if caught e then let r := k s' in (r.1, l ++ r.2) else ((Err e, s'), l)
  | r => r
  end.

(** A pure step inside a walk, and an update of its state. *)
Definition pure {S V E A} (m : res E A) : walk S V E A := lift (quiet m).
Definition modify {S V E} (f : S → S) : walk S V E unit := λ s, ((Ok (), f s), []).

Definition gets {S V E A} (f : S → A) : walk S V E A := λ s, ((Ok (f s), s), []).

(** The model's recursion bound was reached. *)
Definition out_of_fuel {S V E A} : walk S V E A := λ s, ((NoFuel, s), []).

Section loop_lemmas.
Context {S V E : Type}.

Lemma wrun_pure {A} (m : res E A) s : wrun (pure m : walk S V E A) s = (m, s).
Proof. done. Qed.

Lemma wrun_modify f s : wrun (modify f : walk S V E unit) s = (Ok (), f s).
Proof. done. Qed.

Lemma wrun_gets {A} (f : S → A) s : wrun (gets f : walk S V E A) s = (Ok (f s), s).
Proof. done. Qed.

Lemma wrun_wfor_cons {A} (f : A → walk S V E unit) x l s :
  wrun (wfor f (x :: l)) s =
  match wrun (f x) s with (Ok _, s') => wrun (wfor f l) s' | (Err e, s') => (Err e, s')
  | (Panic, s') => (Panic, s') | (NoFuel, s') => (NoFuel, s') end.
Proof. apply wrun_bind. Qed.

(** An invariant of the state carries a panic-free body to a panic-free loop. *)
Lemma wfor_never_panics {A} (f : A → walk S V E unit) l :
  (∀ x s, x ∈ l → never_panics (wrun (f x) s).1) →
  ∀ s, never_panics (wrun (wfor f l) s).1.
Proof.
  induction l as [|x l IH]; intros Hf s; [done|]. rewrite wrun_wfor_cons.
  pose proof (Hf x s ltac:(set_solver)) as Hx.
  destruct (wrun (f x) s) as [[] s']; try done.
  apply IH. intros y s'' Hy. apply Hf. set_solver.
Qed.

(** A loop whose bodies only update the state. *)
Lemma wfor_modify {A} (f : A → walk S V E unit) (g : A → S → S) l :
  (∀ x s, x ∈ l → wrun (f x) s = (Ok (), g x s)) →
  ∀ s, wrun (wfor f l) s = (Ok (), foldl (λ s x, g x s) s l).
Proof.
  induction l as [|x l IH]; intros Hf s; [done|]. rewrite wrun_wfor_cons.
  rewrite Hf by set_solver. apply IH. intros. apply Hf. set_solver.
Qed.

(** A loop that parses each element and records it: exactly when every parse succeeds. *)
Lemma wfor_record {A B} (f : A → res E B) (g : B → S → S) l s s' :
  wrun (wfor (λ x, y ← pure (f x); modify (g y)) l : walk S V E unit) s = (Ok (), s') ↔
  ∃ ys, rmap f l = Ok ys ∧ s' = foldl (λ s y, g y s) s ys.
Proof.
  revert s. induction l as [|x l IH]; intros s.
  { simpl. rewrite wrun_ret. split; [intros [= <-]; by exists []|]. naive_solver. }
  rewrite wrun_wfor_cons, wrun_bind, wrun_pure.
  change (rmap f (x :: l)) with (y ← f x; ys ← rmap f l; Ok (y :: ys)).
  destruct (f x) as [y|e| |]; [|split; [discriminate|intros (? & [=] & _)]..].
  cbv beta iota. rewrite wrun_modify, bind_ok. cbv beta iota. rewrite IH.
  destruct (rmap f l) as [ys|e| |]; rewrite ?bind_ok, ?bind_err;
    (split; [intros (ys' & [= <-] & ->)|intros (ys' & [= <-] & ->)]); eexists; split; reflexivity.
Qed.

Lemma wrun_catch {A} caught (m k : walk S V E A) s :
  wrun (catch caught m k) s =
  match wrun m s with
  | (Err e, s') => if caught e then wrun k s' else (Err e, s')
  | r => r
  end.
Proof. unfold wrun, catch. destruct (m s) as [[[] ?] ?]; try done. simpl. by case_match. Qed.

Lemma wrun_bind_never_panics {A B} (m : walk S V E A) (f : A → walk S V E B) s :
  holds (wrun m s).1 (λ a, never_panics (wrun (f a) (wrun m s).2).1) →
  never_panics (wrun (m ≫= f) s).1.
Proof. rewrite wrun_bind. by destruct (wrun m s) as [[] ?]. Qed.
End loop_lemmas.

#[export] Hint Rewrite @wrun_pure @wrun_modify @wrun_gets : outcome.

(** ** Facts about [mfold] and [rmap] *)

Section fold_lemmas.
Context {E : Type}.

Lemma holds_mfold {A B} (f : B → A → res E B) (I : B → Prop) l b :
  I b → (∀ b x, x ∈ l → I b → holds (f b x) I) → holds (mfold f l b) I.
Proof.
  revert b. induction l as [|x l IH]; intros b Hb Hf; [done|].
  apply holds_bind. eapply holds_mono; [apply Hf; [set_solver|done]|].
  intros b' Hb'. apply IH; [done|]. intros. apply Hf; [set_solver|done].
Qed.

Lemma holds_rmap {A B} (f : A → res E B) (Q : B → Prop) l :
  (∀ x, x ∈ l → holds (f x) Q) → holds (rmap f l) (Forall Q).
Proof.
  induction l as [|x l IH]; intros Hf; [by constructor|].
  apply holds_bind. eapply holds_mono; [apply Hf; set_solver|]. intros y Hy.
  apply holds_bind. eapply holds_mono; [apply IH; intros; apply Hf; set_solver|].
  intros ys Hys. by constructor.
Qed.

Lemma outcome_mfold {V A B} (f : B → A → logged V E B) l b :
  outcome (mfold f l b) = mfold (λ b x, outcome (f b x)) l b.
Proof.
  revert b. induction l as [|x l IH]; intros b; [done|].
  simpl. rewrite outcome_bind. by apply bind_ext.
Qed.

Lemma rmap_cons {A B} (f : A → res E B) x l :
  rmap f (x :: l) = (y ← f x; ys ← rmap f l; Ok (y :: ys)).
Proof. done. Qed.

Lemma rmap_cons_ok {A B} (f : A → res E B) x l ys :
  rmap f (x :: l) = Ok ys ↔ ∃ y ys', f x = Ok y ∧ rmap f l = Ok ys' ∧ ys = y :: ys'.
Proof.
  rewrite rmap_cons. split.
  - intros (y & Hy & (ys' & Hys & [= <-])%bind_ok_inv)%bind_ok_inv. eauto.
  - intros (y & ys' & -> & H & ->). by rewrite bind_ok, H.
Qed.

Lemma rmap_ext {A B} (f g : A → res E B) l :
  (∀ x, x ∈ l → f x = g x) → rmap f l = rmap g l.
Proof.
  induction l as [|x l IH]; intros H; [done|].
  rewrite !rmap_cons, H by set_solver. apply bind_ext. intros y _.
  rewrite IH; [done|]. intros. apply H. set_solver.
Qed.

Lemma rmap_ok_map {A B} (f : A → res E B) (g : A → B) l :
  (∀ x, x ∈ l → f x = Ok (g x)) → rmap f l = Ok (map g l).
Proof.
  induction l as [|x l IH]; intros H; [done|].
  rewrite rmap_cons, H, bind_ok, IH by set_solver. done.
Qed.

Lemma rmap_app {A B} (f : A → res E B) l k :
  rmap f (l ++ k) = (xs ← rmap f l; ys ← rmap f k; Ok (xs ++ ys)).
Proof.
  induction l as [|x l IH].
  - simpl. by destruct (rmap f k).
  - simpl app. rewrite !rmap_cons, IH. destruct (f x); try done. rewrite !bind_ok.
    destruct (rmap f l); try done. rewrite !bind_ok. by destruct (rmap f k).
Qed.

Lemma rmap_bind_ok {A B C} (f : A → res E B) (g : B → res E C) l zs :
  rmap (λ x, f x ≫= g) l = Ok zs ↔ ∃ ys, rmap f l = Ok ys ∧ rmap g ys = Ok zs.
Proof.
  revert zs. induction l as [|x l IH]; intros zs.
  { split; [intros [= <-]; by exists []|intros (ys & [= <-] & [= <-]); done]. }
  rewrite rmap_cons_ok. split.
  - intros (z & zs' & (y & Hy & Hz)%bind_ok_inv & Hzs & ->).
    apply IH in Hzs as (ys & Hys & Hzs). exists (y :: ys).
    rewrite !rmap_cons_ok. eauto 10.
  - intros (ys & (y & ys' & Hy & Hys & ->)%rmap_cons_ok & Hzs).
    apply rmap_cons_ok in Hzs as (z & zs' & Hz & Hzs & ->).
    exists z, zs'. rewrite Hy, bind_ok, IH. eauto.
Qed.

Lemma rmap_forall {A B} (f : A → res E B) (P : B → Prop) l ys :
  (∀ x y, f x = Ok y → P y) → rmap f l = Ok ys → Forall P ys.
Proof.
  intros Hf. revert ys. induction l as [|x l IH]; intros ys; [intros [= <-]; constructor|].
  intros (y & ys' & Hy & Hys & ->)%rmap_cons_ok. constructor; eauto.
Qed.

(** A fold whose steps append: the result is the start and the pieces, in order. *)
Lemma mfold_append {A B} (f : list B → A → res E (list B)) (g : A → res E (list B)) l b r :
  (∀ b x b', f b x = Ok b' → ∃ y, g x = Ok y ∧ b' = b ++ y) →
  mfold f l b = Ok r → ∃ ys, rmap g l = Ok ys ∧ r = b ++ concat ys.
Proof.
  intros Hf. revert b. induction l as [|x l IH]; intros b.
  { intros [= <-]. exists []. by rewrite app_nil_r. }
  simpl. intros (b' & (y & Hy & ->)%Hf & Hr)%bind_ok_inv.
  apply IH in Hr as (ys & Hys & ->). exists (y :: ys).
  split; [apply rmap_cons_ok; eauto|]. simpl. by rewrite (assoc_L _).
Qed.
End fold_lemmas.

Section walk_fold_lemmas.
Context {S V E : Type}.

Lemma wrun_mfold_cons {A B} (f : B → A → walk S V E B) x l b s :
  wrun (mfold f (x :: l) b) s =
  match wrun (f b x) s with (Ok b', s') => wrun (mfold f l b') s' | (Err e, s') => (Err e, s')
  | (Panic, s') => (Panic, s') | (NoFuel, s') => (NoFuel, s') end.
Proof. apply wrun_bind. Qed.

Lemma mfold_walk_never_panics {A B} (f : B → A → walk S V E B) l :
  (∀ b x s, x ∈ l → never_panics (wrun (f b x) s).1) →
  ∀ b s, never_panics (wrun (mfold f l b) s).1.
Proof.
  induction l as [|x l IH]; intros Hf b s; [done|]. rewrite wrun_mfold_cons.
  pose proof (Hf b x s ltac:(set_solver)) as Hx.
  destruct (wrun (f b x) s) as [[] s']; try done.
  apply IH. intros. apply Hf. set_solver.
Qed.
End walk_fold_lemmas.

#[export] Hint Rewrite @outcome_mfold : outcome.

(** ** Integers and slices in concatenations

    What the writers lay out, the readers find: reading a slice or a little-endian
    integer at the offset where it was appended gives it back. *)

Section encode.
Context {E : Type}.

Lemma zlen_le_split w v : zlen (le_split w v) = Z.of_nat w.
Proof. unfold zlen. by rewrite length_le_split. Qed.

Lemma zlen_replicate {A} n (x : A) : zlen (replicate n x) = Z.of_nat n.
Proof. unfold zlen. by rewrite length_replicate. Qed.

Lemma le_combine_split_id w v : 0 <= v < 2 ^ (8 * Z.of_nat w) → le_combine (le_split w v) = v.
Proof. intros Hv. rewrite le_combine_split. apply Z.mod_small. replace (Z.of_nat w * 8) with (8 * Z.of_nat w) by lia. done. Qed.

Lemma sub_mid {A} (a b c : list A) o n : o = zlen a → n = zlen b → sub (a ++ b ++ c) o n = b.
Proof.
  intros -> ->. unfold sub, zlen. rewrite !Nat2Z.id, drop_app_length, take_app_length. done.
Qed.

Lemma slice_mid {A} (a b c : list A) o e : o = zlen a → e = o + zlen b → slice (a ++ b ++ c) o e = Ok b :> res E _.
Proof.
  intros Ho He. pose proof (zlen_nonneg a). pose proof (zlen_nonneg b). pose proof (zlen_nonneg c).
  rewrite slice_ok by (rewrite ?zlen_app; lia). f_equal. apply sub_mid; lia.
Qed.

(** An integer in the middle, at the front and at the end. *)
Lemma le_at_mid (a : list byte) w v c o w' :
  0 <= v < 2 ^ (8 * Z.of_nat w) → o = zlen a → w' = Z.of_nat w → le_at (a ++ le_split w v ++ c) o w' = Ok v :> res E _.
Proof.
  intros Hv Ho ->. unfold le_at. rewrite (slice_mid a (le_split w v) c) by (rewrite ?zlen_le_split; lia).
  by rewrite bind_ok, le_combine_split_id.
Qed.
Lemma le_at_front w v (c : list byte) w' :
  0 <= v < 2 ^ (8 * Z.of_nat w) → w' = Z.of_nat w → le_at (le_split w v ++ c) 0 w' = Ok v :> res E _.
Proof. intros. by apply (le_at_mid []). Qed.
Lemma le_at_end (a : list byte) w v o w' :
  0 <= v < 2 ^ (8 * Z.of_nat w) → o = zlen a → w' = Z.of_nat w → le_at (a ++ le_split w v) o w' = Ok v :> res E _.
Proof. intros. rewrite <- (app_nil_r (le_split w v)). by apply le_at_mid. Qed.

Lemma le_val_mid (a : list byte) w v c o w' :
  0 <= v < 2 ^ (8 * Z.of_nat w) → o = zlen a → w' = Z.of_nat w → le_val (a ++ le_split w v ++ c) o w' = v.
Proof.
  intros Hv Ho ->. unfold le_val. rewrite sub_mid by (rewrite ?zlen_le_split; lia). by apply le_combine_split_id.
Qed.

(** Reading inside the front part of a concatenation. *)
Lemma sub_app_l {A} (a c : list A) o n : 0 <= o → 0 <= n → o + n <= zlen a → sub (a ++ c) o n = sub a o n.
Proof.
  unfold sub, zlen. intros. rewrite drop_app_le by lia. apply take_app_le. rewrite length_drop. lia.
Qed.

Lemma le_val_app_l (a c : list byte) o w : 0 <= o → 0 <= w → o + w <= zlen a → le_val (a ++ c) o w = le_val a o w.
Proof. intros. unfold le_val. by rewrite sub_app_l. Qed.

Lemma slice_app_l {A} (a c : list A) o e : 0 <= o → o <= e → e <= zlen a → slice (a ++ c) o e = slice a o e :> res E _.
Proof.
  intros. pose proof (zlen_nonneg c). rewrite !slice_ok by (rewrite ?zlen_app; lia). by rewrite sub_app_l by lia.
Qed.

Lemma le_at_app_l (a c : list byte) o w :
  0 <= o → 0 <= w → o + w <= zlen a → le_at (a ++ c) o w = le_at a o w :> res E _.
Proof. intros. unfold le_at. by rewrite slice_app_l by lia. Qed.
End encode.

(** The side conditions of the lemmas above, at the widths that occur. *)
Ltac enc :=
  rewrite ?zlen_app, ?zlen_le_split, ?zlen_replicate, ?zlen_cons, ?zlen_nil;
  change (8 * Z.of_nat 1) with 8; change (8 * Z.of_nat 2) with 16;
  change (8 * Z.of_nat 4) with 32; change (8 * Z.of_nat 8) with 64;
  first [done | lia].
