(* ===== verification/Telemetry.v ===== *)
(** * Integrity telemetry (pst-reader/src/integrity_telemetry.rs)

    The counters that the NDB layer reports into: a thread-local part that the
    hot path increments and a process-global part that [flush_tls_to_global]
    adds it to.  The NDB functions of the other files report [tele_event]s; this
    file gives the state transition of each event and of the flush, and shows
    that flushing loses no count and that the distinct-BID sets are exact until
    their cap is reached. *)

From S2P Require Import Prelude.

Definition U64_MAX : Z := 2 ^ 64 - 1.
Definition DISTINCT_BAD_BIDS_CAP : nat := 1024.

(** [u64::saturating_add] and [u64::saturating_sub] *)
Definition sat_add (x y : Z) : Z := Z.min (x + y) U64_MAX.
Definition sat_sub (x y : Z) : Z := Z.max (x - y) 0.

(** The calls [note_*] of the data path, with their arguments. *)
Inductive tele_event :=
| NotePageRead
| NoteBlockRead
| NotePageCrc (bid computed stored : Z)
| NoteBlockCrc (bid computed stored : Z)
| NoteBlockBid (ib bbt_bid trailer_bid : Z).

Record log_config := { first_n : Z; summary_interval : Z }.

(** A capped set of BIDs with its exactness flag. *)
Record bid_set := { bids : gset Z; exact : bool }.

Definition empty_bids : bid_set := {| bids := ∅; exact := true |}.

(** [struct TlsState] (the two BID sets paired with their flags). *)
Record tls_state := {
  page_crc : Z; block_crc : Z; block_bid : Z; page_reads : Z; block_reads : Z;
  page_crc_emitted : Z; block_crc_emitted : Z; block_bid_emitted : Z;
  last_aggregate : option Z;
  bad_bids : bid_set; source_bad_bids : bid_set }.

(** The process globals [G_*]. *)
Record globals := {
  g_page_crc : Z; g_block_crc : Z; g_block_bid : Z; g_page_reads : Z; g_block_reads : Z;
  g_emissions : Z; g_bad_bids : bid_set }.

Record tele_state := { tls : tls_state; glob : globals }.

Record integrity_snapshot := {
  page_crc_mismatches : Z; block_crc_mismatches : Z; block_bid_mismatches : Z;
  distinct_bad_bids : Z; distinct_bad_bids_exact : bool;
  snap_page_reads : Z; snap_block_reads : Z }.

Definition tls_new : tls_state :=
  {| page_crc := 0; block_crc := 0; block_bid := 0; page_reads := 0; block_reads := 0;
     page_crc_emitted := 0; block_crc_emitted := 0; block_bid_emitted := 0;
     last_aggregate := None; bad_bids := empty_bids; source_bad_bids := empty_bids |}.

Definition globals_new : globals :=
  {| g_page_crc := 0; g_block_crc := 0; g_block_bid := 0; g_page_reads := 0; g_block_reads := 0;
     g_emissions := 0; g_bad_bids := empty_bids |}.

(** The state after [reset]. *)
Definition reset : tele_state := {| tls := tls_new; glob := globals_new |}.

(** Insertion into a capped BID set. *)
Definition insert_capped (bid : Z) (s : bid_set) : bid_set :=
  if decide (DISTINCT_BAD_BIDS_CAP <= size (bids s))%nat then
    if decide (bid ∈ bids s) then s else {| bids := bids s; exact := false |}
  else {| bids := {[bid]} ∪ bids s; exact := exact s |}.

Definition record_bad_bid (bid : Z) (t : tls_state) : tls_state :=
  {| page_crc := page_crc t; block_crc := block_crc t; block_bid := block_bid t;
     page_reads := page_reads t; block_reads := block_reads t;
     page_crc_emitted := page_crc_emitted t; block_crc_emitted := block_crc_emitted t;
     block_bid_emitted := block_bid_emitted t; last_aggregate := last_aggregate t;
     bad_bids := insert_capped bid (bad_bids t);
     source_bad_bids := insert_capped bid (source_bad_bids t) |}.

(** Counter updates of the thread-local state, one field each. *)
Definition bump_counters (dp db dbid dpr dbr : Z) (t : tls_state) : tls_state :=
  {| page_crc := sat_add (page_crc t) dp; block_crc := sat_add (block_crc t) db;
     block_bid := sat_add (block_bid t) dbid; page_reads := sat_add (page_reads t) dpr;
     block_reads := sat_add (block_reads t) dbr;
     page_crc_emitted := page_crc_emitted t; block_crc_emitted := block_crc_emitted t;
     block_bid_emitted := block_bid_emitted t; last_aggregate := last_aggregate t;
     bad_bids := bad_bids t; source_bad_bids := source_bad_bids t |}.

Definition bump_emitted (dp db dbid : Z) (t : tls_state) : tls_state :=
  {| page_crc := page_crc t; block_crc := block_crc t; block_bid := block_bid t;
     page_reads := page_reads t; block_reads := block_reads t;
     page_crc_emitted := sat_add (page_crc_emitted t) dp;
     block_crc_emitted := sat_add (block_crc_emitted t) db;
     block_bid_emitted := sat_add (block_bid_emitted t) dbid;
     last_aggregate := last_aggregate t;
     bad_bids := bad_bids t; source_bad_bids := source_bad_bids t |}.

Definition set_last_aggregate (now : Z) (t : tls_state) : tls_state :=
  {| page_crc := page_crc t; block_crc := block_crc t; block_bid := block_bid t;
     page_reads := page_reads t; block_reads := block_reads t;
     page_crc_emitted := page_crc_emitted t; block_crc_emitted := block_crc_emitted t;
     block_bid_emitted := block_bid_emitted t; last_aggregate := Some now;
     bad_bids := bad_bids t; source_bad_bids := source_bad_bids t |}.

(** [G_EMISSIONS.fetch_add(1)]: atomics wrap around. *)
Definition add_emission (g : globals) : globals :=
  {| g_page_crc := g_page_crc g; g_block_crc := g_block_crc g; g_block_bid := g_block_bid g;
     g_page_reads := g_page_reads g; g_block_reads := g_block_reads g;
     g_emissions := wrap 64 (g_emissions g + 1); g_bad_bids := g_bad_bids g |}.

Section with_config.
Context (cfg : log_config).

(** At most one aggregate line per interval; [now] is the clock reading. *)
Definition maybe_aggregate (now : Z) (s : tele_state) : tele_state :=
  let due := match last_aggregate (tls s) with
             | None => true
             | Some prev => summary_interval cfg <=? now - prev
             end in
  if due then {| tls := set_last_aggregate now (tls s); glob := add_emission (glob s) |} else s.

(** [maybe_emit] for the two CRC kinds and [maybe_emit_bid]: a detail line for
    the first [first_n] of a category, the aggregate path afterwards. *)
Definition maybe_emit (already : Z) (bump : tls_state → tls_state) (now : Z) (s : tele_state) : tele_state :=
  if already <? first_n cfg then {| tls := bump (tls s); glob := add_emission (glob s) |}
  else maybe_aggregate now s.

Definition note (now : Z) (e : tele_event) (s : tele_state) : tele_state :=
  let t := tls s in
  match e with
  | NotePageRead => {| tls := bump_counters 0 0 0 1 0 t; glob := glob s |}
  | NoteBlockRead => {| tls := bump_counters 0 0 0 0 1 t; glob := glob s |}
  | NotePageCrc bid _ _ =>
      let t := record_bad_bid bid (bump_counters 1 0 0 0 0 t) in
      maybe_emit (page_crc_emitted t) (bump_emitted 1 0 0) now {| tls := t; glob := glob s |}
  | NoteBlockCrc bid _ _ =>
      let t := record_bad_bid bid (bump_counters 0 1 0 0 0 t) in
      maybe_emit (block_crc_emitted t) (bump_emitted 0 1 0) now {| tls := t; glob := glob s |}
  | NoteBlockBid _ bbt_bid trailer_bid =>
      let t := record_bad_bid bbt_bid (bump_counters 0 0 1 0 0 t) in
      let t := if trailer_bid =? bbt_bid then t else record_bad_bid trailer_bid t in
      maybe_emit (block_bid_emitted t) (bump_emitted 0 0 1) now {| tls := t; glob := glob s |}
  end.

(** A run of the data path: events with the clock readings at which they happen. *)
Definition note_all (es : list (Z * tele_event)) (s : tele_state) : tele_state :=
  foldl (λ s e, note e.1 e.2 s) s es.
End with_config.

(** Merging the drained local set (in the set's iteration order) into the global one. *)
Definition merge_bids (local global : bid_set) : bid_set :=
  let g := foldr insert_capped global (elements (bids local)) in
  {| bids := bids g; exact := exact g && exact local |}.

Definition flush_tls_to_global (s : tele_state) : tele_state :=
  let t := tls s in let g := glob s in
  {| tls := {| page_crc := 0; block_crc := 0; block_bid := 0; page_reads := 0; block_reads := 0;
               page_crc_emitted := page_crc_emitted t; block_crc_emitted := block_crc_emitted t;
               block_bid_emitted := block_bid_emitted t; last_aggregate := last_aggregate t;
               bad_bids := empty_bids; source_bad_bids := source_bad_bids t |};
     glob := {| g_page_crc := wrap 64 (g_page_crc g + page_crc t);
                g_block_crc := wrap 64 (g_block_crc g + block_crc t);
                g_block_bid := wrap 64 (g_block_bid g + block_bid t);
                g_page_reads := wrap 64 (g_page_reads g + page_reads t);
                g_block_reads := wrap 64 (g_block_reads g + block_reads t);
                g_emissions := g_emissions g;
                g_bad_bids := merge_bids (bad_bids t) (g_bad_bids g) |} |}.

Definition read_global_snapshot (s : tele_state) : integrity_snapshot :=
  let g := glob s in
  {| page_crc_mismatches := g_page_crc g; block_crc_mismatches := g_block_crc g;
     block_bid_mismatches := g_block_bid g;
     distinct_bad_bids := Z.of_nat (size (bids (g_bad_bids g)));
     distinct_bad_bids_exact := exact (g_bad_bids g);
     snap_page_reads := g_page_reads g; snap_block_reads := g_block_reads g |}.

Definition snapshot (s : tele_state) : tele_state * integrity_snapshot :=
  let s' := flush_tls_to_global s in (s', read_global_snapshot s').

Definition begin_source (s : tele_state) : tele_state * integrity_snapshot :=
  let s' := flush_tls_to_global s in
  let t := tls s' in
  let s'' := {| tls := {| page_crc := page_crc t; block_crc := block_crc t; block_bid := block_bid t;
                          page_reads := page_reads t; block_reads := block_reads t;
                          page_crc_emitted := page_crc_emitted t;
                          block_crc_emitted := block_crc_emitted t;
                          block_bid_emitted := block_bid_emitted t;
                          last_aggregate := last_aggregate t;
                          bad_bids := bad_bids t; source_bad_bids := empty_bids |};
                glob := glob s' |} in
  (s'', read_global_snapshot s'').

Definition end_source_delta (before : integrity_snapshot) (s : tele_state) : tele_state * integrity_snapshot :=
  let s' := flush_tls_to_global s in
  let after := read_global_snapshot s' in
  (s', {| page_crc_mismatches := sat_sub (page_crc_mismatches after) (page_crc_mismatches before);
          block_crc_mismatches := sat_sub (block_crc_mismatches after) (block_crc_mismatches before);
          block_bid_mismatches := sat_sub (block_bid_mismatches after) (block_bid_mismatches before);
          distinct_bad_bids := Z.of_nat (size (bids (source_bad_bids (tls s'))));
          distinct_bad_bids_exact := exact (source_bad_bids (tls s'));
          snap_page_reads := sat_sub (snap_page_reads after) (snap_page_reads before);
          snap_block_reads := sat_sub (snap_block_reads after) (snap_block_reads before) |}).

(** [tls_block_mismatch_total], the value a [MessageScope] remembers, and its exit. *)
Definition tls_block_mismatch_total (s : tele_state) : Z := sat_add (block_crc (tls s)) (block_bid (tls s)).
Definition scope_exit (start : Z) (s : tele_state) : bool := start <? tls_block_mismatch_total s.

(** * Facts about the integrity telemetry

    Over any interleaving of events and flushes no event is lost or counted twice,
    and the set of damaged block IDs is exact unless the flag says otherwise. *)

(** The history of one thread: events with their clock readings, and flushes. *)
Inductive action := Event (now : Z) (e : tele_event) | Flush.

Definition act (cfg : log_config) (a : action) (s : tele_state) : tele_state :=
  match a with Event now e => note cfg now e s | Flush => flush_tls_to_global s end.
Definition run (cfg : log_config) (actions : list action) (s : tele_state) : tele_state :=
  foldl (λ s a, act cfg a s) s actions.

(** ** Counters *)

(** A counter: its thread-local and global parts and the events it counts. *)
Record counter := { local : tls_state → Z; global : globals → Z; hits : tele_event → bool }.

Definition page_crc_counter := {| local := page_crc; global := g_page_crc;
  hits := λ e, match e with NotePageCrc _ _ _ => true | _ => false end |}.
Definition block_crc_counter := {| local := block_crc; global := g_block_crc;
  hits := λ e, match e with NoteBlockCrc _ _ _ => true | _ => false end |}.
Definition block_bid_counter := {| local := block_bid; global := g_block_bid;
  hits := λ e, match e with NoteBlockBid _ _ _ => true | _ => false end |}.
Definition page_reads_counter := {| local := page_reads; global := g_page_reads;
  hits := λ e, match e with NotePageRead => true | _ => false end |}.
Definition block_reads_counter := {| local := block_reads; global := g_block_reads;
  hits := λ e, match e with NoteBlockRead => true | _ => false end |}.

Definition counters : list counter :=
  [page_crc_counter; block_crc_counter; block_bid_counter; page_reads_counter; block_reads_counter].

Definition one_if (b : bool) : Z := if b then 1 else 0.
Definition hit_count (c : counter) (actions : list action) : Z :=
  foldr (λ a n, match a with Event _ e => one_if (hits c e) + n | Flush => n end) 0 actions.

Lemma note_glob_counters cfg now e s c :
  c ∈ counters → global c (glob (note cfg now e s)) = global c (glob s).
Proof.
  intros Hc. unfold counters in Hc. repeat (apply elem_of_cons in Hc as [->|Hc]); try by apply elem_of_nil in Hc.
  all: destruct e; cbn; unfold maybe_emit, maybe_aggregate; repeat case_match; done.
Qed.

Lemma note_tls_counters cfg now e s c :
  c ∈ counters → 0 <= local c (tls s) < U64_MAX →
  local c (tls (note cfg now e s)) = local c (tls s) + one_if (hits c e).
Proof.
  intros Hc Hr. unfold counters in Hc. repeat (apply elem_of_cons in Hc as [->|Hc]); try by apply elem_of_nil in Hc.
  all: unfold U64_MAX in Hr; destruct e; cbn in *; unfold maybe_emit, maybe_aggregate;
    repeat case_match; cbn; unfold sat_add, U64_MAX; lia.
Qed.

Lemma flush_counters s c :
  c ∈ counters →
  local c (tls (flush_tls_to_global s)) = 0 ∧
  global c (glob (flush_tls_to_global s)) = wrap 64 (global c (glob s) + local c (tls s)).
Proof.
  intros Hc. unfold counters in Hc. repeat (apply elem_of_cons in Hc as [->|Hc]); try by apply elem_of_nil in Hc.
  all: done.
Qed.

Lemma hit_count_app c as1 as2 : hit_count c (as1 ++ as2) = hit_count c as1 + hit_count c as2.
Proof. unfold hit_count. induction as1 as [|[now e|] as1 IH]; cbn in *; lia. Qed.

Lemma hit_count_bound c actions : 0 <= hit_count c actions <= zlen actions.
Proof.
  unfold hit_count, zlen. induction actions as [|[now e|] actions IH]; cbn [foldr length] in *; [lia| |lia].
  destruct (hits c e); cbn [one_if]; lia.
Qed.

(** The two parts of a counter always add up to its count. *)
Lemma run_counters cfg actions c :
  c ∈ counters → zlen actions < U64_MAX →
  0 <= local c (tls (run cfg actions reset)) ∧ 0 <= global c (glob (run cfg actions reset)) ∧
  local c (tls (run cfg actions reset)) + global c (glob (run cfg actions reset)) = hit_count c actions.
Proof.
  intros Hc. induction actions as [|a actions IH] using rev_ind; intros Hlen.
  { unfold counters in Hc. repeat (apply elem_of_cons in Hc as [->|Hc]); try by apply elem_of_nil in Hc. all: done. }
  rewrite zlen_app in Hlen. change (zlen [a]) with 1 in Hlen. destruct IH as (Hl & Hg & Hsum); [lia|].
  pose proof (hit_count_bound c actions) as Hb. unfold run. rewrite foldl_app. cbn [foldl].
  fold (run cfg actions reset). set (s := run cfg actions reset) in *. rewrite hit_count_app.
  destruct a as [now e|]; cbn [act hit_count foldr].
  - rewrite note_glob_counters, note_tls_counters by (done || lia). destruct (hits c e); cbn; lia.
  - destruct (flush_counters s c Hc) as [-> ->]. unfold wrap. rewrite Z.mod_small by (unfold U64_MAX in *; lia). lia.
Qed.

(** ** The set of damaged block IDs *)

(** The block IDs that an event reports as damaged. *)
Definition reported (e : tele_event) : gset Z :=
  match e with
  | NotePageCrc bid _ _ | NoteBlockCrc bid _ _ => {[bid]}
  | NoteBlockBid _ bbt_bid trailer_bid => {[bbt_bid; trailer_bid]}
  | _ => ∅
  end.
Definition all_reported (actions : list action) : gset Z :=
  foldr (λ a B, match a with Event _ e => reported e ∪ B | Flush => B end) ∅ actions.

(** [s] stands for the set [B]: the same set while exact, a part of it that has
    reached the cap otherwise. *)
Record stands_for (s : bid_set) (B : gset Z) : Prop := {
  sf_sub : bids s ⊆ B;
  sf_exact : exact s = true → bids s = B;
  sf_inexact : exact s = false → (DISTINCT_BAD_BIDS_CAP < size B)%nat;
  sf_cap : (size (bids s) <= DISTINCT_BAD_BIDS_CAP)%nat }.

Lemma empty_stands_for : stands_for empty_bids ∅.
Proof. constructor; cbn; [set_solver|done|done|rewrite size_empty; lia]. Qed.

Lemma size_grows (X Y : gset Z) : X ⊆ Y → (size X <= size Y)%nat.
Proof. apply subseteq_size. Qed.

Lemma insert_capped_stands_for bid s B : stands_for s B → stands_for (insert_capped bid s) ({[bid]} ∪ B).
Proof.
  intros [Hsub Hex Hin Hcap]. unfold insert_capped.
  assert (HB : B ⊆ {[bid]} ∪ B) by apply union_subseteq_r.
  assert (Hsub' : bids s ⊆ {[bid]} ∪ B) by (by etrans). pose proof (size_grows _ _ HB) as Hgrow.
  assert (Hin' : exact s = false → (DISTINCT_BAD_BIDS_CAP < size ({[bid]} ∪ B))%nat).
  { intros He. eapply Nat.lt_le_trans; [by apply Hin|done]. }
  case_decide as Hfull; [case_decide as Hmem|].
  - constructor; [done| |done|done]. intros He. rewrite (Hex He) in *.
    symmetry. apply subseteq_union_1_L. by apply singleton_subseteq_l.
  - constructor. { exact Hsub'. } { intros He. discriminate He. } 2:{ exact Hcap. } intros _. cbn [bids].
    apply (Nat.le_lt_trans _ (size (bids s))); [done|].
    apply (Nat.lt_le_trans _ (size ({[bid]} ∪ bids s))).
    + rewrite size_union, size_singleton by (by apply disjoint_singleton_l). lia.
    + apply size_grows. by apply union_mono_l.
  - constructor; cbn [bids exact].
    + by apply union_mono_l.
    + intros He. by rewrite (Hex He).
    + done.
    + pose proof (size_union_alt {[bid]} (bids s)) as Hs. rewrite size_singleton in Hs.
      pose proof (size_grows (bids s ∖ {[bid]}) (bids s) ltac:(apply subseteq_difference_l; reflexivity)). lia.
Qed.

Lemma insert_all_stands_for (l : list Z) s B :
  stands_for s B → stands_for (foldr insert_capped s l) (list_to_set l ∪ B).
Proof.
  intros Hs. induction l as [|x l IH]; cbn; [by rewrite (left_id_L ∅ (∪))|].
  rewrite <-(assoc_L (∪)). by apply insert_capped_stands_for.
Qed.

Lemma merge_stands_for l g L G : stands_for l L → stands_for g G → stands_for (merge_bids l g) (L ∪ G).
Proof.
  intros [Hls Hle Hli Hlc] Hg. pose proof (insert_all_stands_for (elements (bids l)) g G Hg) as [Hs He Hi Hc].
  rewrite list_to_set_elements_L in *. unfold merge_bids. constructor; cbn [bids exact]; [etrans; [exact Hs|by apply union_mono_r]| | |exact Hc].
  - intros [H1 H2]%andb_true_iff. by rewrite He, (Hle H2) by done.
  - intros [H|H]%andb_false_iff.
    + eapply Nat.lt_le_trans; [by apply Hi|]. apply subseteq_size. set_solver.
    + eapply Nat.lt_le_trans; [by apply Hli|]. apply subseteq_size. set_solver.
Qed.

#[local] Opaque insert_capped.

(** The bad-BID sets of one event. *)
Lemma note_sets cfg now e s :
  g_bad_bids (glob (note cfg now e s)) = g_bad_bids (glob s) ∧
  bad_bids (tls (note cfg now e s)) =
  match e with
  | NotePageCrc bid _ _ | NoteBlockCrc bid _ _ => insert_capped bid (bad_bids (tls s))
  | NoteBlockBid _ b tb =>
      if tb =? b then insert_capped b (bad_bids (tls s))
      else insert_capped tb (insert_capped b (bad_bids (tls s)))
  | _ => bad_bids (tls s)
  end.
Proof.
  destruct e as [| |bid ? ?|bid ? ?|ib b tb]; [split; reflexivity|split; reflexivity|..].
  all: unfold note, maybe_emit, maybe_aggregate; repeat case_match; split; reflexivity.
Qed.

Lemma note_bad_bids cfg now e s B :
  stands_for (bad_bids (tls s)) B →
  stands_for (bad_bids (tls (note cfg now e s))) (reported e ∪ B).
Proof.
  intros Hs. destruct (note_sets cfg now e s) as [_ ->].
  destruct e as [| |bid ? ?|bid ? ?|ib b tb]; cbn [reported]; rewrite ?(left_id_L ∅ (∪)); [done|done|..].
  - by apply insert_capped_stands_for.
  - by apply insert_capped_stands_for.
  - destruct (Z.eqb_spec tb b) as [->|].
    + rewrite (idemp_L (∪)). by apply insert_capped_stands_for.
    + rewrite (comm_L (∪) {[b]} {[tb]}), <-(assoc_L (∪)). by do 2 apply insert_capped_stands_for.
Qed.

Lemma run_bad_bids cfg actions :
  ∃ L G, stands_for (bad_bids (tls (run cfg actions reset))) L ∧
    stands_for (g_bad_bids (glob (run cfg actions reset))) G ∧ L ∪ G = all_reported actions.
Proof.
  induction actions as [|a actions (L & G & HL & HG & HLG)] using rev_ind.
  { exists ∅, ∅. split_and!; [apply empty_stands_for..|set_solver]. }
  assert (Happ : all_reported (actions ++ [a]) =
            match a with Event _ e => reported e | Flush => ∅ end ∪ all_reported actions).
  { clear. unfold all_reported. induction actions as [|[now e|] as1 IH]; cbn [app foldr] in *;
      [by destruct a; rewrite ?(left_id_L ∅ (∪))|rewrite IH; set_solver|done]. }
  unfold run. rewrite foldl_app, Happ, <-HLG. cbn [foldl]. fold (run cfg actions reset).
  destruct a as [now e|]; cbn [act].
  - pose proof (note_bad_bids cfg now e _ L HL) as H1. exists (reported e ∪ L), G.
    rewrite (proj1 (note_sets cfg now e _)).
    split_and!; [done|done|set_solver].
  - exists ∅, (L ∪ G). split_and!; [apply empty_stands_for|by apply merge_stands_for|set_solver].
Qed.

(** C36 The telemetry counters are exact: after any sequence of fewer than 2^64 - 1
    events and flushes, a snapshot counts each kind of event exactly once.  (It
    reads the global part, to which [snapshot] first flushes the local part.) *)
Theorem snapshot_counts cfg actions (Hlen : zlen actions < U64_MAX) :
  let snap := (snapshot (run cfg actions reset)).2 in
  page_crc_mismatches snap = hit_count page_crc_counter actions ∧
  block_crc_mismatches snap = hit_count block_crc_counter actions ∧
  block_bid_mismatches snap = hit_count block_bid_counter actions ∧
  snap_page_reads snap = hit_count page_reads_counter actions ∧
  snap_block_reads snap = hit_count block_reads_counter actions.
Proof.
  intros snap.
  assert (H : ∀ c, c ∈ counters → global c (glob (flush_tls_to_global (run cfg actions reset))) = hit_count c actions).
  { intros c Hc. destruct (run_counters cfg actions c Hc Hlen) as (H1 & H2 & H3).
    destruct (flush_counters (run cfg actions reset) c Hc) as [_ ->]. pose proof (hit_count_bound c actions).
    unfold wrap. rewrite Z.mod_small by (unfold U64_MAX in *; lia). lia. }
  split_and!.
  - apply (H page_crc_counter); set_solver.
  - apply (H block_crc_counter); set_solver.
  - apply (H block_bid_counter); set_solver.
  - apply (H page_reads_counter); set_solver.
  - apply (H block_reads_counter); set_solver.
Qed.

Lemma snapshot_counts_witness :
  block_crc_mismatches (snapshot (run {| first_n := 1; summary_interval := 30 |}
    [Event 0 (NoteBlockCrc 5 1 2); Flush; Event 1 NoteBlockRead; Event 2 (NoteBlockCrc 6 1 2)] reset)).2 = 2.
Proof.
  exact (proj1 (proj2 (snapshot_counts {| first_n := 1; summary_interval := 30 |}
    [Event 0 (NoteBlockCrc 5 1 2); Flush; Event 1 NoteBlockRead; Event 2 (NoteBlockCrc 6 1 2)] eq_refl))).
Defined.

(** The damaged-block count never lies: whatever events and flushes happen, the
    snapshot's count is the number of distinct block IDs reported when it is
    flagged exact, and when it is flagged inexact more than 1024 were reported. *)
Theorem snapshot_distinct_bad_bids cfg actions :
  let snap := (snapshot (run cfg actions reset)).2 in
  (distinct_bad_bids_exact snap = true → distinct_bad_bids snap = Z.of_nat (size (all_reported actions))) ∧
  (distinct_bad_bids_exact snap = false → (DISTINCT_BAD_BIDS_CAP < size (all_reported actions))%nat) ∧
  distinct_bad_bids snap <= Z.of_nat DISTINCT_BAD_BIDS_CAP.
Proof.
  destruct (run_bad_bids cfg actions) as (L & G & HL & HG & <-). cbn zeta.
  pose proof (merge_stands_for _ _ _ _ HL HG) as [_ He Hi Hc].
  change (distinct_bad_bids_exact (snapshot (run cfg actions reset)).2)
    with (exact (merge_bids (bad_bids (tls (run cfg actions reset))) (g_bad_bids (glob (run cfg actions reset))))).
  change (distinct_bad_bids (snapshot (run cfg actions reset)).2)
    with (Z.of_nat (size (bids (merge_bids (bad_bids (tls (run cfg actions reset))) (g_bad_bids (glob (run cfg actions reset))))))).
  split_and!; [intros H; by rewrite (He H)|done|lia].
Qed.

(** When no flush happens between entry and exit, a message scope reports damage
    exactly when a block CRC or block ID mismatch was noted in it. *)
Lemma message_scope_detects cfg (es : list (Z * tele_event)) s
    (Hs : 0 <= block_crc (tls s) ∧ 0 <= block_bid (tls s))
    (Hroom : block_crc (tls s) + block_bid (tls s) + 2 * zlen es < U64_MAX) :
  scope_exit (tls_block_mismatch_total s) (note_all cfg es s) =
  existsb (λ e, hits block_crc_counter e.2 || hits block_bid_counter e.2) es.
Proof.
  assert (Hgen : ∀ s, 0 <= block_crc (tls s) ∧ 0 <= block_bid (tls s) →
    block_crc (tls s) + block_bid (tls s) + 2 * zlen es < U64_MAX →
    ∃ n, 0 <= n ∧ block_crc (tls (note_all cfg es s)) + block_bid (tls (note_all cfg es s)) =
      block_crc (tls s) + block_bid (tls s) + n ∧ n <= 2 * zlen es ∧
      (0 <? n) = existsb (λ e, hits block_crc_counter e.2 || hits block_bid_counter e.2) es).
  { clear. induction es as [|[now e] es IH]; intros s [H1 H2] Hr; [exists 0; cbn in *; split_and!; (done || lia)|].
    rewrite zlen_cons in *. pose proof (zlen_nonneg es).
    assert (Hc := note_tls_counters cfg now e s block_crc_counter ltac:(set_solver) ltac:(cbn; lia)).
    assert (Hb := note_tls_counters cfg now e s block_bid_counter ltac:(set_solver) ltac:(cbn; lia)).
    cbn [local block_crc_counter block_bid_counter] in Hc, Hb.
    destruct (IH (note cfg now e s)) as (n & Hn0 & Hn & Hle & Hn1).
    { rewrite Hc, Hb. destruct (hits _ e), (hits block_bid_counter e); cbn; lia. }
    { rewrite Hc, Hb. destruct (hits _ e), (hits block_bid_counter e); cbn; lia. }
    exists (n + one_if (hits block_crc_counter e) + one_if (hits block_bid_counter e)).
    cbn [note_all foldl]. change (foldl _ (note cfg (now, e).1 (now, e).2 s) es) with (note_all cfg es (note cfg now e s)).
    rewrite Hn, Hc, Hb. cbn [existsb snd]. rewrite <-Hn1.
    destruct (hits block_crc_counter e), (hits block_bid_counter e); cbn [one_if orb];
      split_and!; try lia; (apply Z.ltb_lt; lia) || (f_equal; lia). }
  destruct (Hgen s Hs Hroom) as (n & Hn0 & Hn & Hle & <-). unfold scope_exit, tls_block_mismatch_total, sat_add.
  rewrite Hn, !Z.min_l by lia. destruct (Z.ltb_spec 0 n); [apply Z.ltb_lt|apply Z.ltb_ge]; lia.
Qed.
