(* ===== verification/PstError.v ===== *)
(** * Errors and the read monad of pst-reader (pst-reader/src/error.rs) *)

From S2P Require Import Prelude Telemetry.

(** The messages of [PstError::ResourceLimit(String)]: each format string that
    the reader builds, with the values it formats. *)
Inductive limit_msg :=
| BtreeDepth (depth page_offset : Z)
| SubnodeDepth (depth : Z)
| XblockTreeDepth (depth : Z)
| XblockLcbTotal (lcb_total : Z)
| XblockAssembled
| XxblockAssembled
| TcRowWidthZero
| TcRowWidthTooBig (row_size : Z)
| BodyAggregate (aggregate_hint prop_id hint budget : Z)
| EmbeddedBodyRaw (raw_len budget : Z)
| EmbeddedBodyUtf8 (utf8_len budget : Z)
| ExportBodyRaw (raw_len : Z)
| ExportHtmlRaw (raw_len : Z)
| ExportBodyBudget
| NestedExport (what : string) (next budget : Z).

Inductive pst_error :=
| Io
| InvalidMagic (magic : Z)
| AnsiPstNotSupported (version : Z)
| InvalidClientMagic (magic : Z)
| InvalidPageType (expected actual : Z)
| PageTypeMismatch (ptype ptype_repeat : Z)
| CrcMismatch (computed stored : Z)
| NodeNotFound (nid : Z)
| BlockNotFound (bid : Z)
| NoSubnodeBTree (nid : Z)
| InvalidBlockType (expected actual : Z)
| InvalidHnSignature (sig : Z)
| InvalidBthType (ty : Z)
| InvalidHid (hid : Z)
| PropertyNotFound (tag : Z)
| PropertyTypeMismatch (tag : Z) (expected : string) (actual : Z)
| DataTruncated (needed available : Z)
| SubnodeNotFound (nid : Z)
| UnsupportedCryptMethod (b : Z)
| InvalidUtf16
| ResourceLimit (msg : limit_msg)
| BtreeCycle (page_offset : Z).

#[export] Instance limit_msg_eq_dec : EqDecision limit_msg.
Proof. solve_decision. Defined.
#[export] Instance pst_error_eq_dec : EqDecision pst_error.
Proof. solve_decision. Defined.

(** Pure parsing, reads that report telemetry, and walks over a [&mut] state. *)
Abbreviation pres := (res pst_error).
Abbreviation pio := (logged tele_event pst_error).
Abbreviation pwalk S := (walk S tele_event pst_error).

(** The random-access reader ([R: Read + Seek]) is the file's content: seeking
    past the end succeeds and the [read_exact] that follows fails with an I/O error. *)
Definition read_exact_at (file : list byte) (offset n : Z) : pres (list byte) :=
  if (0 <=? offset) && (offset + n <=? zlen file) then Ok (sub file offset n) else Err Io.
