(* ===== verification/Crypt.v ===== *)
(** * NDB-layer decryption (pst-reader/src/crypto.rs)

    Block payloads are stored in the clear, under a byte substitution, or under a
    4-byte XOR key derived from the block ID.  The two tables are the ones of the
    source; [encrypt_permute] is the encoder of its unit tests. *)

From Stdlib Require btauto.Btauto.
From S2P Require Import Prelude Telemetry PstError.

Inductive crypt_method := CryptNone | CryptPermute | CryptCyclic.

#[export] Instance crypt_method_eq_dec : EqDecision crypt_method.
Proof. solve_decision. Defined.

(** [CryptMethod::from_byte] *)
Definition crypt_from_byte (b : Z) : pres crypt_method :=
  if b =? 0 then Ok CryptNone
  else if b =? 1 then Ok CryptPermute
  else if b =? 2 then Ok CryptCyclic
  else Err (UnsupportedCryptMethod b).

Definition MPBB_ENCODE_raw : list Z :=
  [
   65; 54; 19; 98; 168; 33; 110; 187; 244; 22; 204; 4; 127; 100; 232; 93;
   30; 242; 203; 42; 116; 197; 94; 53; 210; 149; 71; 158; 150; 45; 154; 136;
   76; 125; 132; 63; 219; 172; 49; 182; 72; 95; 246; 196; 216; 57; 139; 231;
   35; 59; 56; 142; 200; 193; 223; 37; 177; 32; 165; 70; 96; 78; 156; 251;
   170; 211; 86; 81; 69; 124; 85; 0; 7; 201; 43; 157; 133; 155; 9; 160;
   143; 173; 179; 15; 99; 171; 137; 75; 215; 167; 21; 90; 113; 102; 66; 191;
   38; 74; 107; 152; 250; 234; 119; 83; 178; 112; 5; 44; 253; 89; 58; 134;
   126; 206; 6; 235; 130; 120; 87; 199; 141; 67; 175; 180; 28; 212; 91; 205;
   226; 233; 39; 79; 195; 8; 114; 128; 207; 176; 239; 245; 40; 109; 190; 48;
   77; 52; 146; 213; 14; 60; 34; 50; 229; 228; 249; 159; 194; 209; 10; 129;
   18; 225; 238; 145; 131; 118; 227; 151; 230; 97; 138; 23; 121; 164; 183; 220;
   144; 122; 92; 140; 2; 166; 202; 105; 222; 80; 26; 17; 147; 185; 82; 135;
   88; 252; 237; 29; 55; 73; 27; 106; 224; 41; 51; 153; 189; 108; 217; 148;
   243; 64; 84; 111; 240; 198; 115; 184; 214; 62; 101; 24; 68; 31; 221; 103;
   16; 241; 12; 25; 236; 174; 3; 161; 20; 123; 169; 11; 255; 248; 163; 192;
   162; 1; 247; 46; 188; 36; 104; 117; 13; 254; 186; 47; 181; 208; 218; 61].

Definition MPBB_DECODE_raw : list Z :=
  [
   71; 241; 180; 230; 11; 106; 114; 72; 133; 78; 158; 235; 226; 248; 148; 83;
   224; 187; 160; 2; 232; 90; 9; 171; 219; 227; 186; 198; 124; 195; 16; 221;
   57; 5; 150; 48; 245; 55; 96; 130; 140; 201; 19; 74; 107; 29; 243; 251;
   143; 38; 151; 202; 145; 23; 1; 196; 50; 45; 110; 49; 149; 255; 217; 35;
   209; 0; 94; 121; 220; 68; 59; 26; 40; 197; 97; 87; 32; 144; 61; 131;
   185; 67; 190; 103; 210; 70; 66; 118; 192; 109; 91; 126; 178; 15; 22; 41;
   60; 169; 3; 84; 13; 218; 93; 223; 246; 183; 199; 98; 205; 141; 6; 211;
   105; 92; 134; 214; 20; 247; 165; 102; 117; 172; 177; 233; 69; 33; 112; 12;
   135; 159; 116; 164; 34; 76; 111; 191; 31; 86; 170; 46; 179; 120; 51; 80;
   176; 163; 146; 188; 207; 25; 28; 167; 99; 203; 30; 77; 62; 75; 27; 155;
   79; 231; 240; 238; 173; 58; 181; 89; 4; 234; 64; 85; 37; 81; 229; 122;
   137; 56; 104; 82; 123; 252; 39; 174; 215; 189; 250; 7; 244; 204; 142; 95;
   239; 53; 156; 132; 43; 21; 213; 119; 52; 73; 182; 18; 10; 127; 113; 136;
   253; 157; 24; 65; 125; 147; 216; 88; 44; 206; 254; 36; 175; 222; 184; 54;
   200; 161; 128; 166; 153; 152; 168; 47; 14; 129; 101; 115; 228; 194; 162; 138;
   212; 225; 17; 208; 8; 139; 42; 242; 237; 154; 100; 63; 193; 108; 249; 236].

Definition MPBB_ENCODE : list byte := Eval vm_compute in map byte.of_Z MPBB_ENCODE_raw.
Definition MPBB_DECODE : list byte := Eval vm_compute in map byte.of_Z MPBB_DECODE_raw.

(** [TABLE[byte as usize]]: both tables have 256 entries, so the index is in range. *)
Definition table_get (table : list byte) (b : byte) : byte :=
  nth (Z.to_nat (u8 b)) table Byte.x00.

Definition encrypt_permute (data : list byte) : list byte := map (table_get MPBB_ENCODE) data.
Definition decrypt_permute (data : list byte) : list byte := map (table_get MPBB_DECODE) data.

(** [key = (bid as u32) ^ ((bid >> 16) as u32)], little-endian. *)
Definition cyclic_key (bid : Z) : list byte :=
  le_split 4 (Z.lxor (wrap 32 bid) (wrap 32 (Z.shiftr bid 16))).

Definition decrypt_cyclic (data : list byte) (bid : Z) : list byte :=
  imap (λ i b, byte.xor b (nth (i mod 4) (cyclic_key bid) Byte.x00)) data.

Definition decrypt_block (data : list byte) (method : crypt_method) (bid : Z) : list byte :=
  match method with
  | CryptNone => data
  | CryptPermute => decrypt_permute data
  | CryptCyclic => decrypt_cyclic data bid
  end.

(** The encoder: the inverse table, and the same XOR. *)
Definition encrypt_block (data : list byte) (method : crypt_method) (bid : Z) : list byte :=
  match method with
  | CryptNone => data
  | CryptPermute => encrypt_permute data
  | CryptCyclic => decrypt_cyclic data bid
  end.

(** ** The two tables are inverse permutations *)

Lemma decode_encode b : table_get MPBB_DECODE (table_get MPBB_ENCODE b) = b.
Proof. destruct b; vm_compute; reflexivity. Qed.

Lemma encode_decode b : table_get MPBB_ENCODE (table_get MPBB_DECODE b) = b.
Proof. destruct b; vm_compute; reflexivity. Qed.

Lemma map_inverse {A} (f g : A → A) (l : list A) : (∀ x, f (g x) = x) → map f (map g l) = l.
Proof. intros H. rewrite map_map. induction l as [|x l IH]; simpl; f_equal; auto. Qed.

Lemma byte_xor_involutive b k : byte.xor (byte.xor b k) k = b.
Proof.
  apply byte.unsigned_inj. unfold byte.xor. rewrite !byte.unsigned_of_Z.
  assert (Hw : byte.wrap (Z.lxor (byte.unsigned b) (byte.unsigned k))
               = Z.lxor (byte.unsigned b) (byte.unsigned k)).
  { unfold byte.wrap. rewrite <-Z.land_ones by lia.
    apply Z.bits_inj'. intros n Hn. rewrite Z.land_spec, Z.lxor_spec.
    pose proof (byte.wrap_unsigned b) as Hb. pose proof (byte.wrap_unsigned k) as Hk.
    unfold byte.wrap in Hb, Hk. rewrite <-Hb, <-Hk, <-!Z.land_ones by lia.
    rewrite !Z.land_spec. destruct (Z.testbit (Z.ones 8) n); btauto.Btauto.btauto. }
  rewrite Hw, Z.lxor_assoc, Z.lxor_nilpotent, Z.lxor_0_r. apply byte.wrap_unsigned.
Qed.

Lemma decrypt_cyclic_involutive data bid : decrypt_cyclic (decrypt_cyclic data bid) bid = data.
Proof.
  unfold decrypt_cyclic. apply list_eq. intros i.
  rewrite !list_lookup_imap. destruct (data !! i); simpl; [|done].
  by rewrite byte_xor_involutive.
Qed.

Lemma decrypt_block_length data method bid : length (decrypt_block data method bid) = length data.
Proof. destruct method; simpl; [done|apply length_map|apply length_imap]. Qed.

Lemma decrypt_block_zlen data method bid : zlen (decrypt_block data method bid) = zlen data.
Proof. unfold zlen. by rewrite decrypt_block_length. Qed.

(** Decryption is a length-preserving bijection for every method and block ID. *)
Theorem decrypt_block_bijective data method bid :
  decrypt_block (encrypt_block data method bid) method bid = data ∧
  encrypt_block (decrypt_block data method bid) method bid = data ∧
  length (decrypt_block data method bid) = length data.
Proof.
  split; [|split; [|apply decrypt_block_length]]; destruct method; simpl;
    first [done | apply map_inverse, decode_encode | apply map_inverse, encode_decode
          | apply decrypt_cyclic_involutive].
Qed.
