(* ===== verification/Nid.v ===== *)
(** * Node IDs (pst-reader/src/ndb/nid.rs)

    [NodeId(u64)] packs a 5-bit type and a 27-bit index. *)

From S2P Require Import Prelude Telemetry PstError.

Inductive nid_type_t :=
| Hid_type | Internal | NormalFolder | SearchFolder | NormalMessage | Attachment
| SearchUpdateQueue | SearchCriteria | AssocMessage | ContentsTableInternal
| ReceiveFolderTable | OutgoingQueueTable | HierarchyTable | ContentsTable
| AssocContentsTable | SearchContentsTable | AttachmentTable | RecipientTable
| SearchTableIndex | Ltp | UnknownType (raw : Z).

#[export] Instance nid_type_eq_dec : EqDecision nid_type_t.
Proof. solve_decision. Defined.

(** [NidType::from_raw] *)
Definition nid_type_from_raw (val : Z) : nid_type_t :=
  match val with
  | 0x00 => Hid_type | 0x01 => Internal | 0x02 => NormalFolder | 0x03 => SearchFolder
  | 0x04 => NormalMessage | 0x05 => Attachment | 0x06 => SearchUpdateQueue
  | 0x07 => SearchCriteria | 0x08 => AssocMessage | 0x0A => ContentsTableInternal
  | 0x0B => ReceiveFolderTable | 0x0C => OutgoingQueueTable | 0x0D => HierarchyTable
  | 0x0E => ContentsTable | 0x0F => AssocContentsTable | 0x10 => SearchContentsTable
  | 0x11 => AttachmentTable | 0x12 => RecipientTable | 0x13 => SearchTableIndex
  | 0x1F => Ltp | other => UnknownType other
  end.

(** The raw value a type stands for. *)
Definition nid_type_to_raw (t : nid_type_t) : Z :=
  match t with
  | Hid_type => 0x00 | Internal => 0x01 | NormalFolder => 0x02 | SearchFolder => 0x03
  | NormalMessage => 0x04 | Attachment => 0x05 | SearchUpdateQueue => 0x06
  | SearchCriteria => 0x07 | AssocMessage => 0x08 | ContentsTableInternal => 0x0A
  | ReceiveFolderTable => 0x0B | OutgoingQueueTable => 0x0C | HierarchyTable => 0x0D
  | ContentsTable => 0x0E | AssocContentsTable => 0x0F | SearchContentsTable => 0x10
  | AttachmentTable => 0x11 | RecipientTable => 0x12 | SearchTableIndex => 0x13
  | Ltp => 0x1F | UnknownType raw => raw
  end.

(** A NID is its 64-bit value. *)
Definition nid_type (nid : Z) : nid_type_t := nid_type_from_raw (Z.land nid 0x1F).
Definition nid_index (nid : Z) : Z := Z.land (Z.shiftr nid 5) 0x07FFFFFF.

(** [NodeId::new]: the index is widened to 64 bits before the shift. *)
Definition nid_new (nid_type nid_index : Z) : Z := Z.lor (Z.shiftl nid_index 5) nid_type.

(** [(self.0 & !0x1F) | ty] on 64 bits, for the three derived tables. *)
Definition with_type (nid ty : Z) : Z := Z.lor (Z.land nid (Z.ldiff (Z.ones 64) 0x1F)) ty.
Definition hierarchy_table (nid : Z) : Z := with_type nid 0x0D.
Definition contents_table (nid : Z) : Z := with_type nid 0x0E.
Definition associated_contents_table (nid : Z) : Z := with_type nid 0x0F.

Definition NID_MESSAGE_STORE : Z := 0x21.
Definition NID_NAME_TO_ID_MAP : Z := 0x61.
Definition NID_ROOT_FOLDER : Z := 0x122.

(** ** Properties *)

Lemma nid_type_from_to_raw v : nid_type_to_raw (nid_type_from_raw v) = v.
Proof. unfold nid_type_from_raw. by repeat case_match. Qed.

Lemma land_1F_range x : 0 <= Z.land x 0x1F < 32.
Proof. change 0x1F with (Z.ones 5). rewrite Z.land_ones by lia. apply Z.mod_pos_bound. lia. Qed.

Lemma lor_shift_add i t : 0 <= t < 32 → Z.lor (Z.shiftl i 5) t = 32 * i + t.
Proof.
  intros Ht. assert (Hland : Z.land (Z.shiftl i 5) t = 0).
  { replace t with (Z.land t (Z.ones 5))
      by (rewrite Z.land_ones by lia; apply Z.mod_small; done).
    apply Z.bits_inj'. intros n Hn. rewrite !Z.land_spec, Z.bits_0, Z.shiftl_spec by lia.
    destruct (decide (n < 5)).
    - by rewrite Z.testbit_neg_r by lia.
    - rewrite (Z.ones_spec_high 5 n) by lia. by rewrite !andb_false_r. }
  pose proof (Z.add_lor_land (Z.shiftl i 5) t) as H. rewrite Hland in H.
  rewrite Z.shiftl_mul_pow2 in * by lia. lia.
Qed.

Lemma nid_new_split nid :
  0 <= nid → nid = nid_new (Z.land nid 0x1F) (Z.shiftr nid 5).
Proof.
  intros H. unfold nid_new. rewrite lor_shift_add by apply land_1F_range.
  change 0x1F with (Z.ones 5). rewrite Z.land_ones, Z.shiftr_div_pow2 by lia.
  change (2 ^ 5) with 32. rewrite <-Z.div_mod by lia. done.
Qed.

Lemma nid_fields_new ty i :
  0 <= ty < 32 → 0 <= i < 2 ^ 27 →
  nid_type_to_raw (nid_type (nid_new ty i)) = ty ∧ nid_index (nid_new ty i) = i.
Proof.
  intros Ht Hi. unfold nid_type, nid_index, nid_new. rewrite nid_type_from_to_raw.
  rewrite lor_shift_add by done. change 0x1F with (Z.ones 5). change 0x07FFFFFF with (Z.ones 27).
  rewrite !Z.land_ones, Z.shiftr_div_pow2 by lia. change (2 ^ 5) with 32.
  split; [symmetry; apply Z.mod_unique with i; lia|].
  replace ((32 * i + ty) / 32) with i by (apply Z.div_unique with ty; lia).
  apply Z.mod_small. lia.
Qed.

Lemma with_type_new nid ty :
  0 <= nid < 2 ^ 64 → 0 <= ty < 32 → with_type nid ty = nid_new ty (Z.shiftr nid 5).
Proof.
  intros Hn Ht. unfold with_type, nid_new. f_equal.
  apply Z.bits_inj'. intros k Hk. rewrite Z.land_spec, Z.ldiff_spec, Z.shiftl_spec by lia.
  change 0x1F with (Z.ones 5).
  destruct (decide (k < 5)).
  - rewrite (Z.ones_spec_low 5 k), andb_false_r, andb_false_r by lia.
    by rewrite Z.testbit_neg_r by lia.
  - rewrite (Z.ones_spec_high 5 k) by lia. rewrite Z.shiftr_spec by lia.
    replace (k - 5 + 5) with k by lia.
    destruct (decide (k < 64)).
    + rewrite Z.ones_spec_low by lia. by rewrite andb_true_r.
    + rewrite Z.ones_spec_high by lia. rewrite andb_false_l, andb_false_r.
      destruct (decide (nid = 0)) as [->|]; [by rewrite Z.bits_0|].
      symmetry. apply Z.bits_above_log2; [lia|]. apply Z.log2_lt_pow2; [lia|].
      eapply Z.lt_le_trans; [apply Hn|]. apply Z.pow_le_mono_r; lia.
Qed.

(** A NID built from a type and an index below their widths gives both back,
    and the table NIDs derived from a folder keep its index and carry the type of
    the table. *)
Theorem nid_roundtrip ty i (Ht : 0 <= ty < 32) (Hi : 0 <= i < 2 ^ 27) :
  let nid := nid_new ty i in
  nid_type nid = nid_type_from_raw ty ∧ nid_index nid = i ∧
  (nid_type (hierarchy_table nid), nid_index (hierarchy_table nid)) = (HierarchyTable, i) ∧
  (nid_type (contents_table nid), nid_index (contents_table nid)) = (ContentsTable, i) ∧
  (nid_type (associated_contents_table nid), nid_index (associated_contents_table nid))
    = (AssocContentsTable, i).
Proof.
  intros nid.
  assert (Hr : ∀ t, 0 <= t < 32 → nid_type (nid_new t i) = nid_type_from_raw t ∧ nid_index (nid_new t i) = i).
  { intros t Ht'. destruct (nid_fields_new t i Ht' Hi) as [H1 H2]. split; [|done].
    unfold nid_type in *. rewrite nid_type_from_to_raw in H1. by rewrite H1. }
  assert (Hn : 0 <= nid < 2 ^ 64). { unfold nid, nid_new. rewrite lor_shift_add by done. lia. }
  assert (Hs : Z.shiftr nid 5 = i).
  { unfold nid, nid_new. rewrite lor_shift_add, Z.shiftr_div_pow2 by lia.
    change (2 ^ 5) with 32. symmetry. apply Z.div_unique with ty; lia. }
  unfold hierarchy_table, contents_table, associated_contents_table.
  rewrite !with_type_new, Hs by lia. subst nid.
  destruct (Hr ty) as [-> ->]; [done|].
  destruct (Hr 0x0D) as [-> ->]; [lia|].
  destruct (Hr 0x0E) as [-> ->]; [lia|].
  destruct (Hr 0x0F) as [-> ->]; [lia|]. done.
Qed.

Lemma nid_roundtrip_witness :
  nid_type (nid_new 2 9) = NormalFolder ∧ nid_index (hierarchy_table (nid_new 2 9)) = 9.
Proof.
  destruct (nid_roundtrip 2 9) as (H1 & _ & H2 & _); [lia|lia|].
  split; [exact H1 | exact (f_equal snd H2)].
Defined.
