(* ===== verification/Header.v ===== *)
(** * NDB pages (pst-reader/src/ndb/page.rs)

    512-byte pages with a 16-byte trailer.  The checksum is the [crc32fast]
    crate's, a parameter of the model ([Crc32]). *)

From S2P Require Import Prelude Telemetry PstError Crypt.

(** [crc32fast::hash] *)
Class Crc32 := crc32 : list byte → Z.

Definition PAGE_SIZE : Z := 512.
Definition PAGE_TRAILER_SIZE : Z := 16.
Definition PAGE_DATA_SIZE : Z := 496.

Definition PTYPE_BBT : Z := 0x80.
Definition PTYPE_NBT : Z := 0x81.

Record page_trailer := { ptype : Z; ptype_repeat : Z; w_sig : Z; dw_crc : Z; trailer_bid : Z }.

Record bt_page_header := { c_entries : Z; c_ent_max : Z; cb_ent_key : Z; c_level : Z }.

(** [RawPage::read_at]: the page is a 512-byte array. *)
Definition read_at (file : list byte) (offset : Z) : pres (list byte) :=
  read_exact_at file offset PAGE_SIZE.

(** [RawPage::trailer] *)
Definition trailer (data : list byte) : pres page_trailer :=
  t ← slice data PAGE_DATA_SIZE (zlen data);
  p ← index t 0;
  pr ← index t 1;
  sg ← le_at t 2 2;
  crc ← le_at t 4 4;
  bid ← le_at t 8 8;
  Ok {| ptype := p; ptype_repeat := pr; w_sig := sg; dw_crc := crc; trailer_bid := bid |}.

(** [RawPage::bt_header] *)
Definition bt_header (data : list byte) : pres bt_page_header :=
  n ← index data 488;
  mx ← index data 489;
  key ← index data 490;
  lv ← index data 491;
  Ok {| c_entries := n; c_ent_max := mx; cb_ent_key := key; c_level := lv |}.

(** [RawPage::entries_data] *)
Definition entries_data (data : list byte) : pres (list byte) := slice data 0 488.

Section page.
Context `{Crc : Crc32}.

(** [RawPage::validate]: a CRC mismatch is reported and is not an error. *)
Definition validate (data : list byte) (expected_ptype : Z) : pio unit :=
  t ← quiet (trailer data);
  if negb (ptype t =? expected_ptype) then quiet (Err (InvalidPageType expected_ptype (ptype t)))
  else if negb (ptype t =? ptype_repeat t) then quiet (Err (PageTypeMismatch (ptype t) (ptype_repeat t)))
  else
    _ ← emit NotePageRead;
    covered ← quiet (slice data 0 PAGE_DATA_SIZE);
    let computed := crc32 covered in
    if negb (computed =? dw_crc t) then emit (NotePageCrc (trailer_bid t) computed (dw_crc t))
    else mret ().
End page.

(** ** The page functions by field *)

Definition trailer_of (data : list byte) : page_trailer :=
  {| ptype := le_val data 496 1; ptype_repeat := le_val data 497 1; w_sig := le_val data 498 2;
     dw_crc := le_val data 500 4; trailer_bid := le_val data 504 8 |}.

Definition bt_header_of (data : list byte) : bt_page_header :=
  {| c_entries := le_val data 488 1; c_ent_max := le_val data 489 1;
     cb_ent_key := le_val data 490 1; c_level := le_val data 491 1 |}.

Lemma trailer_ok data : zlen data = 512 → trailer data = Ok (trailer_of data).
Proof.
  intros Hlen. unfold trailer. rewrite slice_ok by (rewrite ?Hlen; vm_compute; done).
  rewrite bind_ok, Hlen. change (512 - PAGE_DATA_SIZE) with 16.
  assert (Hz : zlen (sub data PAGE_DATA_SIZE 16) = 16) by (apply zlen_sub; rewrite ?Hlen; vm_compute; done).
  run_reads.
  unfold PAGE_DATA_SIZE. by rewrite !le_val_sub by lia.
Qed.

Lemma bt_header_ok data : zlen data = 512 → bt_header data = Ok (bt_header_of data).
Proof. intros Hlen. unfold bt_header. by run_reads. Qed.

Lemma entries_data_ok data : zlen data = 512 → entries_data data = Ok (sub data 0 488).
Proof. intros Hlen. unfold entries_data. by rewrite slice_ok by lia. Qed.

Lemma read_at_ok file offset data :
  read_at file offset = Ok data →
  zlen data = 512 ∧ data = sub file offset 512 ∧ 0 <= offset ∧ offset + 512 <= zlen file.
Proof.
  unfold read_at, read_exact_at, PAGE_SIZE. case_match; [|done]. bool_to_Z.
  intros [= <-]. split_and!; [apply zlen_sub; lia|done|lia|lia].
Qed.

Lemma read_at_never_panics file offset : never_panics (read_at file offset).
Proof. unfold read_at, read_exact_at. by case_match. Qed.

Section page_facts.
Context `{Crc : Crc32}.

(** On a 512-byte page, validation depends on the two type bytes only: the
    checksum never changes the outcome, and it is reported exactly when it
    differs from the stored one, after the page read itself. *)
Theorem validate_spec data expected (Hlen : zlen data = 512) :
  let p := le_val data 496 1 in let pr := le_val data 497 1 in
  outcome (validate data expected) =
    (if p =? expected then
       if p =? pr then Ok () else Err (PageTypeMismatch p pr)
     else Err (InvalidPageType expected p)) ∧
  events (validate data expected) =
    (if (p =? expected) && (p =? pr) then
       NotePageRead ::
       (if crc32 (sub data 0 496) =? le_val data 500 4 then []
        else [NotePageCrc (le_val data 504 8) (crc32 (sub data 0 496)) (le_val data 500 4)])
     else []).
Proof.
  intros p pr. unfold validate. rewrite (trailer_ok data Hlen).
  assert (Hs : slice data 0 PAGE_DATA_SIZE = Ok (sub data 0 496) :> pres _).
  { apply slice_ok; rewrite ?Hlen; vm_compute; done. }
  rewrite Hs. rewrite !outcome_bind, !events_bind. cbn. fold p pr.
  destruct (p =? expected), (p =? pr); cbn; try done.
  by destruct (crc32 _ =? _).
Qed.
End page_facts.

Lemma validate_spec_witness :
  outcome (validate (Crc := λ _, 7) (replicate 496 Byte.x00 ++ Byte.x81 :: Byte.x81 :: replicate 14 Byte.x00) 0x81)
  = Ok ().
Proof.
  destruct (validate_spec (Crc := λ _, 7)
    (replicate 496 Byte.x00 ++ Byte.x81 :: Byte.x81 :: replicate 14 Byte.x00) 0x81) as [H _];
    [vm_compute; reflexivity|].
  rewrite H. vm_compute. reflexivity.
Defined.

(** * The PST file header (pst-reader/src/header.rs)

    [PstHeader::read] consumes the header sequentially, skipping the fields it does
    not use.  The model threads the cursor the same way; the main theorem states
    the result at the absolute offsets of the format, which the source gives in
    its comments. *)

Definition PST_MAGIC : Z := 0x4E444221.
Definition CLIENT_MAGIC : Z := 0x4D53.
Definition MIN_UNICODE_VERSION : Z := 23.

Record bref := { bref_bid : Z; bref_ib : Z }.

Record root_structure := {
  ib_file_eof : Z; ib_amap_last : Z; cb_amap_free : Z;
  bref_nbt : bref; bref_bbt : bref; f_amap_valid : bool }.

Record pst_header := {
  version : Z; ver_client : Z; header_crypt : crypt_method;
  root : root_structure; bid_next_b : Z }.

(** A sequential reader: the rest of the file from the cursor. *)
Definition cursor (A : Type) : Type := list byte → pres (A * list byte).

#[export] Instance cursor_ret : MRet cursor := λ A a s, Ok (a, s).
#[export] Instance cursor_bind : MBind cursor := λ A B f m s, m s ≫= λ p, f p.1 p.2.

(** [read_u8/u16/u32/u64::<LittleEndian>] and [read_exact] into an [n]-byte buffer. *)
Definition read_exact (n : Z) : cursor (list byte) := λ s,
  if n <=? zlen s then Ok (sub s 0 n, sub s n (zlen s - n)) else Err Io.
Definition read_le (n : Z) : cursor Z := b ← read_exact n; mret (le_combine b).
Definition fail {A} (e : pst_error) : cursor A := λ _, Err e.
Definition of_res {A} (m : pres A) : cursor A := λ s, a ← m; Ok (a, s).

(** [Bref::read] *)
Definition bref_read : cursor bref :=
  bid ← read_le 8; ib ← read_le 8; mret {| bref_bid := bid; bref_ib := ib |}.

(** [PstHeader::read_root] *)
Definition read_root : cursor root_structure :=
  _ ← read_le 4;
  eof ← read_le 8;
  amap_last ← read_le 8;
  amap_free ← read_le 8;
  _ ← read_le 8;
  nbt ← bref_read;
  bbt ← bref_read;
  valid ← read_le 1;
  _ ← read_le 1;
  _ ← read_le 2;
  mret {| ib_file_eof := eof; ib_amap_last := amap_last; cb_amap_free := amap_free;
          bref_nbt := nbt; bref_bbt := bbt; f_amap_valid := negb (valid =? 0) |}.

(** [PstHeader::read], from the start of the file. *)
Definition header_cursor : cursor pst_header :=
  magic ← read_le 4;
  if negb (magic =? PST_MAGIC) then fail (InvalidMagic magic) else
  _ ← read_le 4;
  client_magic ← read_le 2;
  if negb (client_magic =? CLIENT_MAGIC) then fail (InvalidClientMagic client_magic) else
  ver ← read_le 2;
  if ver <? MIN_UNICODE_VERSION then fail (AnsiPstNotSupported ver) else
  verc ← read_le 2;
  _ ← read_exact 30;
  _ ← read_exact 128;
  _ ← read_le 8;
  rt ← read_root;
  _ ← read_le 4;
  _ ← read_exact 256;
  _ ← read_le 1;
  crypt_byte ← read_le 1;
  crypt ← of_res (crypt_from_byte crypt_byte);
  _ ← read_le 2;
  next_b ← read_le 8;
  mret {| version := ver; ver_client := verc; header_crypt := crypt; root := rt; bid_next_b := next_b |}.

Definition header_read (file : list byte) : pres pst_header := p ← header_cursor file; Ok p.1.

(** ** The header by absolute offsets *)

(** The fields at their MS-PST offsets, with the checks in the order of the reader. *)
Definition root_at (file : list byte) : root_structure :=
  {| ib_file_eof := le_val file 184 8; ib_amap_last := le_val file 192 8;
     cb_amap_free := le_val file 200 8;
     bref_nbt := {| bref_bid := le_val file 216 8; bref_ib := le_val file 224 8 |};
     bref_bbt := {| bref_bid := le_val file 232 8; bref_ib := le_val file 240 8 |};
     f_amap_valid := negb (le_val file 248 1 =? 0) |}.

Definition header_at (file : list byte) : pres pst_header :=
  if negb (le_val file 0 4 =? PST_MAGIC) then Err (InvalidMagic (le_val file 0 4))
  else if negb (le_val file 8 2 =? CLIENT_MAGIC) then Err (InvalidClientMagic (le_val file 8 2))
  else if le_val file 10 2 <? MIN_UNICODE_VERSION then Err (AnsiPstNotSupported (le_val file 10 2))
  else crypt ← crypt_from_byte (le_val file 0x201 1);
       Ok {| version := le_val file 10 2; ver_client := le_val file 12 2; header_crypt := crypt;
             root := root_at file; bid_next_b := le_val file 0x204 8 |}.

(** The cursor after [off] bytes of [file]. *)
Definition from_off (file : list byte) (off : Z) : list byte := sub file off (zlen file - off).

Lemma from_off_0 file : from_off file 0 = file.
Proof. unfold from_off, sub, zlen. change (Z.to_nat 0) with O. rewrite drop_0. apply firstn_all2. lia. Qed.

Lemma cursor_bind_ok {A B} (m : cursor A) (f : A → cursor B) s a s' :
  m s = Ok (a, s') → (m ≫= f) s = f a s'.
Proof. unfold mbind, cursor_bind. by intros ->. Qed.

Lemma read_exact_off n file off :
  0 <= n → 0 <= off → off + n <= zlen file →
  read_exact n (from_off file off) = Ok (sub file off n, from_off file (off + n)).
Proof.
  intros. unfold read_exact, from_off. rewrite zlen_sub by lia.
  rewrite (proj2 (Z.leb_le _ _)) by lia. unfold sub. do 2 f_equal.
  - rewrite drop_0, take_take. f_equal. lia.
  - rewrite skipn_firstn_comm, drop_drop, take_take. f_equal. { lia. } f_equal. lia.
Qed.

Lemma read_le_off n file off :
  0 <= n → 0 <= off → off + n <= zlen file →
  read_le n (from_off file off) = Ok (le_val file off n, from_off file (off + n)).
Proof.
  intros. unfold read_le. erewrite cursor_bind_ok by (apply read_exact_off; lia). done.
Qed.

Lemma bref_read_off file off :
  0 <= off → off + 16 <= zlen file →
  bref_read (from_off file off) =
  Ok ({| bref_bid := le_val file off 8; bref_ib := le_val file (off + 8) 8 |}, from_off file (off + 16)).
Proof.
  intros. unfold bref_read.
  do 2 (erewrite cursor_bind_ok by (apply read_le_off; lia)).
  replace (off + 8 + 8) with (off + 16) by lia. done.
Qed.

Ltac cursor_step :=
  first [ erewrite cursor_bind_ok by (apply read_le_off; lia)
        | erewrite cursor_bind_ok by (apply read_exact_off; lia)
        | erewrite cursor_bind_ok by (apply bref_read_off; lia) ];
  match goal with
  | |- context [from_off _ ?o] => let o' := eval vm_compute in o in change o with o'
  end.

Lemma read_root_off file :
  524 <= zlen file → read_root (from_off file 180) = Ok (root_at file, from_off file 252).
Proof. intros. unfold read_root. do 10 cursor_step. done. Qed.

Lemma cursor_bind_of_res {A B} (m : pres A) (f : A → cursor B) s :
  (of_res m ≫= f) s = (m ≫= λ a, f a s).
Proof. by destruct m. Qed.

Lemma header_read_long file : 524 <= zlen file → header_read file = header_at file.
Proof.
  intros Hlen. unfold header_read, header_at. rewrite <-(from_off_0 file) at 1.
  unfold header_cursor. cursor_step. destruct (negb (le_val file 0 4 =? PST_MAGIC)); [done|].
  do 2 cursor_step. destruct (negb (le_val file 8 2 =? CLIENT_MAGIC)); [done|].
  cursor_step. destruct (le_val file 10 2 <? MIN_UNICODE_VERSION); [done|].
  do 4 cursor_step. erewrite cursor_bind_ok by (by apply read_root_off).
  do 4 cursor_step. rewrite cursor_bind_of_res.
  destruct (crypt_from_byte _) eqn:Hc; try done.
  rewrite bind_ok. by do 2 cursor_step.
Qed.

(** [consumes m n]: [m] does not panic, and on success it has advanced by [n] bytes. *)
Definition consumes {A} (m : cursor A) (n : Z) : Prop :=
  ∀ s, holds (m s) (λ p, zlen s = n + zlen p.2).

Lemma consumes_ret {A} (a : A) : consumes (mret a) 0.
Proof. done. Qed.

Lemma consumes_bind {A B} (m : cursor A) (f : A → cursor B) n k :
  consumes m n → (∀ a, consumes (f a) k) → consumes (m ≫= f) (n + k).
Proof.
  intros Hm Hf s. apply holds_bind. eapply holds_mono; [apply Hm|].
  intros [a s'] Hs; simpl in *. eapply holds_mono; [apply Hf|].
  intros p Hp. simpl in Hp. lia.
Qed.

Lemma consumes_read_exact n : 0 <= n → consumes (read_exact n) n.
Proof.
  intros Hn s. unfold read_exact. case_match; [|done]. bool_to_Z. simpl.
  rewrite zlen_sub; lia.
Qed.

Lemma consumes_fail {A} e n : consumes (fail e : cursor A) n.
Proof. done. Qed.

Lemma consumes_if {A} (b : bool) (m k : cursor A) n :
  consumes m n → consumes k n → consumes (if b then m else k) n.
Proof. by destruct b. Qed.

Lemma consumes_of_res {A} (m : pres A) : never_panics m → consumes (of_res m) 0.
Proof. intros Hm s. by destruct m. Qed.

Lemma consumes_le {A} (m : cursor A) n k : n = k → consumes m n → consumes m k.
Proof. by intros ->. Qed.

Lemma crypt_from_byte_never_panics b : never_panics (crypt_from_byte b).
Proof. unfold crypt_from_byte. by repeat case_match. Qed.

Ltac consume :=
  lazymatch goal with
  | |- consumes (if _ then _ else _) _ => apply consumes_if
  | |- consumes (fail _) _ => apply consumes_fail
  | |- consumes (mret _) _ => apply consumes_ret
  | |- consumes (of_res _) _ => apply consumes_of_res, crypt_from_byte_never_panics
  | |- consumes (read_exact _) _ => apply consumes_read_exact; lia
  | |- consumes (_ ≫= _) _ => eapply consumes_bind; [|intros ?]
  end.

Lemma header_cursor_consumes : consumes header_cursor 524.
Proof.
  eapply consumes_le; [|unfold header_cursor, read_root, bref_read, read_le; repeat consume].
  done.
Qed.

Lemma header_read_never_panics file : never_panics (header_read file).
Proof.
  unfold header_read. pose proof (header_cursor_consumes file) as H.
  by destruct (header_cursor file) as [[h s']|e| |].
Qed.

(** The sequential reader computes the header that the absolute offsets of the
    format describe, with the same error in the same order, on every file of at
    least 524 bytes; on a shorter file it returns an error and does not panic. *)
Theorem header_read_spec file :
  (524 <= zlen file → header_read file = header_at file) ∧
  (zlen file < 524 → ∃ e, header_read file = Err e).
Proof.
  split; [apply header_read_long|]. intros Hlen. unfold header_read.
  pose proof (header_cursor_consumes file) as H. destruct (header_cursor file) as [[h s']|e| |];
    simpl in H; try done; [|by exists e].
  pose proof (zlen_nonneg s'). lia.
Qed.
