(* ===== verification/Btree.v ===== *)
(** * NBT and BBT traversal (pst-reader/src/ndb/btree.rs)

    Both indexes are built by a recursive walk over 512-byte pages that keeps the
    set of visited page offsets and the map filled so far in [&mut] arguments.
    The two walks of the source differ in the page type, the leaf stride and the
    leaf record, which are the parameters of [traverse]. *)

From S2P Require Import Prelude Telemetry PstError Crypt Header.

Definition MAX_BTREE_DEPTH : Z := 32.

Record nbt_entry := { nbt_nid : Z; bid_data : Z; bid_sub : Z; nid_parent : Z }.
Record bbt_entry := { bbt_bref : bref; cb : Z; c_ref : Z }.

(** The state of a walk: [visited] and the map under construction. *)
Record tree_state (R : Type) := { visited : gset Z; entries : gmap Z R }.
Arguments visited {R} _.
Arguments entries {R} _.
Arguments Build_tree_state {R} _ _.

Definition insert_entry {R} (ke : Z * R) (s : tree_state R) : tree_state R :=
  {| visited := visited s; entries := <[ke.1 := ke.2]> (entries s) |}.

(** [enter_btree_page] *)
Definition enter_btree_page {R} (page_offset depth : Z) : pwalk (tree_state R) unit := λ s,
  if MAX_BTREE_DEPTH <? depth then ((Err (ResourceLimit (BtreeDepth depth page_offset)), s), [])
  else if decide (page_offset ∈ visited s) then ((Err (BtreeCycle page_offset), s), [])
  else ((Ok (), {| visited := {[page_offset]} ∪ visited s; entries := entries s |}), []).

(** The kind of tree: its page type, leaf record size and leaf record parser. *)
Record tree_kind (R : Type) := {
  kind_ptype : Z; leaf_stride : Z; parse_leaf : list byte → pres (Z * R) }.
Arguments kind_ptype {R} _.
Arguments leaf_stride {R} _.
Arguments parse_leaf {R} _ _.

(** NBTENTRY, 32 bytes *)
Definition parse_nbt_leaf (entry_data : list byte) : pres (Z * nbt_entry) :=
  nid ← le_at entry_data 0 8;
  bd ← le_at entry_data 8 8;
  bs ← le_at entry_data 16 8;
  par ← le_at entry_data 24 4;
  Ok (nid, {| nbt_nid := nid; bid_data := bd; bid_sub := bs; nid_parent := par |}).

(** BBTENTRY, 24 bytes *)
Definition parse_bbt_leaf (entry_data : list byte) : pres (Z * bbt_entry) :=
  bid ← le_at entry_data 0 8;
  ib ← le_at entry_data 8 8;
  cb ← le_at entry_data 16 2;
  rc ← le_at entry_data 18 2;
  Ok (bid, {| bbt_bref := {| bref_bid := bid; bref_ib := ib |}; cb := cb; c_ref := rc |}).

Definition nbt_kind : tree_kind nbt_entry :=
  {| kind_ptype := PTYPE_NBT; leaf_stride := 32; parse_leaf := parse_nbt_leaf |}.
Definition bbt_kind : tree_kind bbt_entry :=
  {| kind_ptype := PTYPE_BBT; leaf_stride := 24; parse_leaf := parse_bbt_leaf |}.

Section traverse.
Context `{Crc : Crc32} {R : Type} (K : tree_kind R) (file : list byte).

(** The leaf record at an offset of the entries region. *)
Definition leaf_entry (data : list byte) (offset : Z) : pres (Z * R) :=
  ed ← slice data offset (offset + leaf_stride K); parse_leaf K ed.

(** The child page offset of an intermediate entry: key(8), bid(8), ib(8). *)
Definition child_ib (data : list byte) (offset : Z) : pres Z :=
  ed ← slice data offset (offset + 24);
  _ ← le_at ed 0 8;
  _ ← le_at ed 8 8;
  le_at ed 16 8.

(** [NbtIndex::traverse] and [BbtIndex::traverse] *)
Fixpoint traverse (fuel : nat) (page_offset depth : Z) : pwalk (tree_state R) unit :=
  match fuel with
  | O => out_of_fuel
  | S fuel =>
      _ ← enter_btree_page page_offset depth;
      page ← pure (read_at file page_offset);
      _ ← lift (validate page (kind_ptype K));
      hdr ← pure (bt_header page);
      data ← pure (entries_data page);
      if c_level hdr =? 0 then
        wfor (λ offset, ke ← pure (leaf_entry data offset); modify (insert_entry ke))
          (entry_offsets (leaf_stride K) (zlen data) 0 (Z.to_nat (c_entries hdr)))
      else
        wfor (λ offset, ib ← pure (child_ib data offset); traverse fuel ib (depth + 1))
          (entry_offsets 24 (zlen data) 0 (Z.to_nat (c_entries hdr)))
  end.

(** The depth check stops the recursion: [traverse_fuel] levels are enough. *)
Definition traverse_fuel : nat := 34.

(** [build]: a null root is an empty index. *)
Definition build (root_offset : Z) : pio (gmap Z R) :=
  if root_offset =? 0 then mret ∅
  else
    run_fresh {| visited := ∅; entries := ∅ |}
      ((_ ← traverse traverse_fuel root_offset 0; gets entries) : pwalk (tree_state R) (gmap Z R)).
End traverse.

Definition nbt_index := gmap Z nbt_entry.
Definition bbt_index := gmap Z bbt_entry.

(** [NbtIndex::build], [BbtIndex::build] and the two lookups *)
Definition nbt_build `{Crc32} (file : list byte) (header : pst_header) : pio nbt_index :=
  build nbt_kind file (bref_ib (bref_nbt (root header))).
Definition bbt_build `{Crc32} (file : list byte) (header : pst_header) : pio bbt_index :=
  build bbt_kind file (bref_ib (bref_bbt (root header))).

Definition nbt_get (idx : nbt_index) (nid : Z) : option nbt_entry := idx !! nid.
Definition bbt_get (idx : bbt_index) (bid : Z) : option bbt_entry := idx !! bid.

(** ** Panic freedom and termination *)

Lemma parse_nbt_leaf_never_panics ed : zlen ed = 32 → never_panics (parse_nbt_leaf ed).
Proof. intros H. unfold never_panics, parse_nbt_leaf. repeat holds_step. done. Qed.

Lemma parse_bbt_leaf_never_panics ed : zlen ed = 24 → never_panics (parse_bbt_leaf ed).
Proof. intros H. unfold never_panics, parse_bbt_leaf. repeat holds_step. done. Qed.

(** What the walk needs from a tree kind: a positive stride that the parser accepts. *)
Class TreeKindOk {R} (K : tree_kind R) := {
  leaf_stride_pos : 0 < leaf_stride K;
  parse_leaf_total ed : zlen ed = leaf_stride K → never_panics (parse_leaf K ed) }.

#[export] Instance nbt_kind_ok : TreeKindOk nbt_kind.
Proof. split; [done|apply parse_nbt_leaf_never_panics]. Qed.
#[export] Instance bbt_kind_ok : TreeKindOk bbt_kind.
Proof. split; [done|apply parse_bbt_leaf_never_panics]. Qed.

Section traverse_facts.
Context `{Crc : Crc32} {R : Type} (K : tree_kind R) `{!TreeKindOk K} (file : list byte).

Lemma leaf_entry_never_panics data o :
  0 <= o → o + leaf_stride K <= zlen data → never_panics (leaf_entry K data o).
Proof.
  intros. pose proof leaf_stride_pos. unfold never_panics, leaf_entry.
  apply holds_bind, holds_slice; [lia..|]. apply parse_leaf_total. rewrite zlen_sub; lia.
Qed.

Lemma child_ib_ok data o :
  0 <= o → o + 24 <= zlen data → child_ib data o = Ok (le_val data (o + 16) 8).
Proof.
  intros. unfold child_ib. run_reads.
  replace (o + 24 - o) with 24 by lia.
  assert (zlen (sub data o 24) = 24) by (apply zlen_sub; lia). run_reads.
  by rewrite le_val_sub by lia.
Qed.

(** A page that reads and validates, with its decoded header. *)
Definition valid_page (off : Z) (page : list byte) : Prop :=
  read_at file off = Ok page ∧ outcome (validate page (kind_ptype K)) = Ok ().

Lemma validate_never_panics page ty : zlen page = 512 → never_panics (outcome (validate page ty)).
Proof.
  intros H. destruct (validate_spec page ty H) as [-> _]. by repeat case_match.
Qed.

(** One level of the walk, unfolded once the page is known. *)
Definition visit_entries (rec : Z → pwalk (tree_state R) unit) (page : list byte) : pwalk (tree_state R) unit :=
  let data := sub page 0 488 in
  if le_val page 491 1 =? 0 then
    wfor (λ offset, ke ← pure (leaf_entry K data offset); modify (insert_entry ke))
      (entry_offsets (leaf_stride K) 488 0 (Z.to_nat (le_val page 488 1)))
  else
    wfor (λ offset, ib ← pure (child_ib data offset); rec ib)
      (entry_offsets 24 488 0 (Z.to_nat (le_val page 488 1))).

Lemma wrun_enter off depth (s : tree_state R) :
  wrun (enter_btree_page off depth) s =
  if MAX_BTREE_DEPTH <? depth then (Err (ResourceLimit (BtreeDepth depth off)), s)
  else if decide (off ∈ visited s) then (Err (BtreeCycle off), s)
  else (Ok (), {| visited := {[off]} ∪ visited s; entries := entries s |}).
Proof. unfold wrun, enter_btree_page. by repeat case_match. Qed.

Lemma traverse_S fuel off depth s :
  wrun (traverse K file (S fuel) off depth) s =
  match wrun (enter_btree_page off depth) s with
  | (Ok _, s') =>
      match read_at file off with
      | Ok page =>
          match outcome (validate page (kind_ptype K)) with
          | Ok _ => wrun (visit_entries (λ ib, traverse K file fuel ib (depth + 1)) page) s'
          | Err e => (Err e, s') | Panic => (Panic, s') | NoFuel => (NoFuel, s') end
      | Err e => (Err e, s') | Panic => (Panic, s') | NoFuel => (NoFuel, s') end
  | (Err e, s') => (Err e, s') | (Panic, s') => (Panic, s') | (NoFuel, s') => (NoFuel, s') end.
Proof.
  simpl. rewrite wrun_bind. destruct (wrun (enter_btree_page off depth) s) as [[] s']; try done.
  rewrite wrun_bind, wrun_pure. destruct (read_at file off) as [page| | |] eqn:Hr; try done.
  apply read_at_ok in Hr as (Hlen & _). rewrite wrun_bind, wrun_lift.
  destruct (outcome (validate page (kind_ptype K))); try done.
  rewrite wrun_bind, wrun_pure, bt_header_ok by done.
  rewrite wrun_bind, wrun_pure, entries_data_ok by done.
  unfold visit_entries. by rewrite zlen_sub by lia.
Qed.

Lemma visit_entries_never_panics rec page s :
  zlen page = 512 → (∀ ib s, never_panics (wrun (rec ib) s).1) →
  never_panics (wrun (visit_entries rec page) s).1.
Proof.
  intros Hlen Hrec. unfold visit_entries.
  assert (Hd : zlen (sub page 0 488) = 488) by (apply zlen_sub; lia).
  pose proof leaf_stride_pos as Hp.
  case_match; apply wfor_never_panics; intros o s' Ho;
    apply entry_offsets_bound in Ho as [??]; try lia;
    apply wrun_bind_never_panics; rewrite wrun_pure; cbn [fst snd].
  - eapply holds_mono; [apply leaf_entry_never_panics; lia|]. done.
  - rewrite child_ib_ok by lia. apply Hrec.
Qed.

Lemma traverse_never_panics fuel off depth s :
  depth <= MAX_BTREE_DEPTH + 1 → MAX_BTREE_DEPTH + 2 <= Z.of_nat fuel + depth →
  never_panics (wrun (traverse K file fuel off depth) s).1.
Proof.
  revert off depth s. induction fuel as [|fuel IH]; intros off depth s Hd Hf; [lia|].
  rewrite traverse_S, wrun_enter.
  destruct (MAX_BTREE_DEPTH <? depth) eqn:Hc; [done|]. bool_to_Z. case_decide; [done|].
  pose proof (read_at_never_panics file off) as Hr.
  destruct (read_at file off) as [page| | |] eqn:Hpage; try done.
  apply read_at_ok in Hpage as (Hlen & _).
  pose proof (validate_never_panics page (kind_ptype K) Hlen) as Hv.
  destruct (outcome (validate page (kind_ptype K))); try done.
  apply visit_entries_never_panics; [done|]. intros ib s'. apply IH; lia.
Qed.

(** *** The abstract tree below a page

    [page_tree d off os es]: the pages reachable from [off] at depth [d] form a
    tree whose page offsets in preorder are [os] and whose leaf records in
    order are [es]. *)
Definition entry_count (page : list byte) : nat := Z.to_nat (le_val page 488 1).
Definition child_offsets (page : list byte) : list Z :=
  map (λ o, le_val page (o + 16) 8) (entry_offsets 24 488 0 (entry_count page)).
Definition leaf_records (page : list byte) : pres (list (Z * R)) :=
  rmap (leaf_entry K (sub page 0 488)) (entry_offsets (leaf_stride K) 488 0 (entry_count page)).

Inductive page_tree : Z → Z → list Z → list (Z * R) → Prop :=
| page_leaf d off page es :
    d <= MAX_BTREE_DEPTH → valid_page off page → le_val page 491 1 = 0 →
    leaf_records page = Ok es → page_tree d off [off] es
| page_node d off page os es :
    d <= MAX_BTREE_DEPTH → valid_page off page → le_val page 491 1 ≠ 0 →
    page_forest (d + 1) (child_offsets page) os es → page_tree d off (off :: os) es
with page_forest : Z → list Z → list Z → list (Z * R) → Prop :=
| forest_nil d : page_forest d [] [] []
| forest_cons d off offs os1 es1 os2 es2 :
    page_tree d off os1 es1 → page_forest d offs os2 es2 →
    page_forest d (off :: offs) (os1 ++ os2) (es1 ++ es2).

Scheme page_tree_mut := Induction for page_tree Sort Prop
with page_forest_mut := Induction for page_forest Sort Prop.

(** The state after visiting pages [os] and recording [es]. *)
Definition after (os : list Z) (es : list (Z * R)) (s : tree_state R) : tree_state R :=
  {| visited := list_to_set os ∪ visited s;
     entries := foldl (λ m ke, <[ke.1 := ke.2]> m) (entries s) es |}.

Lemma after_app os1 os2 es1 es2 s :
  after (os1 ++ os2) (es1 ++ es2) s = after os2 es2 (after os1 es1 s).
Proof. unfold after; simpl. rewrite foldl_app, list_to_set_app_L. f_equal. set_solver. Qed.

Lemma foldl_insert_entry es s : foldl (λ s ke, insert_entry ke s) s es = after [] es s.
Proof.
  revert s. induction es as [|e es IH]; intros s; simpl.
  - unfold after. destruct s; simpl. f_equal. set_solver.
  - by rewrite IH.
Qed.

Lemma after_enter off os es s :
  after os es {| visited := {[off]} ∪ visited s; entries := entries s |} = after (off :: os) es s.
Proof. unfold after; simpl. f_equal. set_solver. Qed.

Lemma wfor_children rec page s :
  zlen page = 512 →
  wrun (wfor (λ offset, ib ← pure (child_ib (sub page 0 488) offset); rec ib)
          (entry_offsets 24 488 0 (entry_count page)) : pwalk (tree_state R) unit) s
  = wrun (wfor rec (child_offsets page)) s.
Proof.
  intros Hlen. assert (Hd : zlen (sub page 0 488) = 488) by (apply zlen_sub; lia).
  unfold child_offsets. generalize (entry_offsets_bound 24 488 0 (entry_count page)).
  generalize (entry_offsets 24 488 0 (entry_count page)). intros l Hb.
  revert s. induction l as [|o l IH]; intros s; [done|].
  destruct (Hb o ltac:(lia) ltac:(set_solver)) as [??].
  simpl map. rewrite !wrun_wfor_cons, wrun_bind, wrun_pure, child_ib_ok by lia.
  rewrite le_val_sub, Z.add_0_l by lia.
  destruct (wrun (rec (le_val page (o + 16) 8)) s) as [[] s']; try done.
  apply IH. intros x _ Hx. apply Hb; [lia|set_solver].
Qed.

Lemma traverse_sound fuel off depth s s' :
  wrun (traverse K file fuel off depth) s = (Ok (), s') →
  ∃ os es, page_tree depth off os es ∧ NoDup os ∧ (∀ o, o ∈ os → o ∉ visited s) ∧
    s' = after os es s.
Proof.
  revert off depth s s'. induction fuel as [|fuel IH]; intros off depth s s'; [done|].
  rewrite traverse_S, wrun_enter.
  destruct (MAX_BTREE_DEPTH <? depth) eqn:Hc; [done|]. bool_to_Z. case_decide as Hv; [done|].
  destruct (read_at file off) as [page| | |] eqn:Hpage; try done.
  pose proof (read_at_ok _ _ _ Hpage) as (Hlen & _).
  destruct (outcome (validate page (kind_ptype K))) as [[]| | |] eqn:Hval; try done.
  unfold visit_entries. destruct (le_val page 491 1 =? 0) eqn:Hlv; bool_to_Z.
  - rewrite wfor_record. intros (es & Hes & ->). exists [off], es.
    split_and!; [by eapply page_leaf|apply NoDup_singleton|set_solver|].
    by rewrite foldl_insert_entry, after_enter.
  - rewrite wfor_children by done.
    assert (Hforest : ∀ offs s0 s1,
      wrun (wfor (λ ib, traverse K file fuel ib (depth + 1)) offs) s0 = (Ok (), s1) →
      ∃ os es, page_forest (depth + 1) offs os es ∧ NoDup os ∧ (∀ o, o ∈ os → o ∉ visited s0) ∧
        s1 = after os es s0).
    { clear Hlv Hval Hpage Hlen page. induction offs as [|o offs IHo]; intros s0 s1.
      - intros [= <-]. exists [], []. split_and!; [constructor|constructor|set_solver|].
        by rewrite <-foldl_insert_entry.
      - rewrite wrun_wfor_cons.
        destruct (wrun (traverse K file fuel o (depth + 1)) s0) as [[[]| | |] s2] eqn:Ho; try done.
        apply IH in Ho as (os1 & es1 & Ht & Hn & Hd & ->). intros Hrest.
        apply IHo in Hrest as (os2 & es2 & Hf & Hn2 & Hd2 & ->).
        exists (os1 ++ os2), (es1 ++ es2).
        split_and!; [by constructor| | |by rewrite after_app].
        + apply NoDup_app. split_and!; [done| |done].
          intros x Hx1 Hx2. apply Hd2 in Hx2. simpl in Hx2. set_solver.
        + intros x. rewrite elem_of_app. intros [Hx|Hx]; [auto|]. apply Hd2 in Hx. simpl in Hx.
          set_solver. }
    intros Hrun. apply Hforest in Hrun as (os & es & Hf & Hn & Hd & ->). simpl in Hd.
    exists (off :: os), es. split_and!; [by eapply page_node| | |apply after_enter].
    + constructor; [|done]. intros Hin. apply Hd in Hin. set_solver.
    + intros x. rewrite elem_of_cons. intros [->|Hx]; [done|]. apply Hd in Hx. set_solver.
Qed.

Lemma traverse_complete depth off os es :
  page_tree depth off os es →
  ∀ fuel s, MAX_BTREE_DEPTH + 2 <= Z.of_nat fuel + depth → NoDup os →
    (∀ o, o ∈ os → o ∉ visited s) →
    wrun (traverse K file fuel off depth) s = (Ok (), after os es s).
Proof.
  intros Ht. induction Ht using page_tree_mut with
    (P0 := λ depth offs os es _, ∀ fuel s, MAX_BTREE_DEPTH + 2 <= Z.of_nat fuel + depth →
      NoDup os → (∀ o, o ∈ os → o ∉ visited s) →
      wrun (wfor (λ ib, traverse K file fuel ib depth) offs) s = (Ok (), after os es s)).
  - intros [|fuel] s Hf Hn Hd; [lia|].
    rewrite traverse_S, wrun_enter, (proj2 (Z.ltb_ge _ _)), decide_False by (lia || set_solver).
    destruct v as [Hr Hv]. rewrite Hr, Hv. unfold visit_entries.
    rewrite (proj2 (Z.eqb_eq _ _)) by done.
    rewrite <-after_enter. apply wfor_record. exists es. split; [done|].
    by rewrite foldl_insert_entry.
  - intros [|fuel] s Hf Hn Hd; [lia|]. apply NoDup_cons in Hn as [Hoff Hn].
    rewrite traverse_S, wrun_enter, (proj2 (Z.ltb_ge _ _)), decide_False by (lia || set_solver).
    destruct v as [Hr Hv]. pose proof (read_at_ok _ _ _ Hr) as (Hlen & _).
    rewrite Hr, Hv. unfold visit_entries. rewrite (proj2 (Z.eqb_neq _ _)) by done.
    rewrite <-after_enter, wfor_children by done. apply IHHt; [lia|done|].
    intros o Ho. simpl. set_solver.
  - intros fuel s _ _ _. rewrite <-foldl_insert_entry. done.
  - intros fuel s Hf Hn Hd. apply NoDup_app in Hn as (Hn1 & Hdis & Hn2).
    rewrite wrun_wfor_cons, IHHt by (done || set_solver). rewrite after_app.
    apply IHHt0; [done|done|]. intros o Ho. simpl. set_solver.
Qed.

Lemma page_tree_records (P : Z * R → Prop) d off os es :
  (∀ data o ke, leaf_entry K data o = Ok ke → P ke) → page_tree d off os es → Forall P es.
Proof.
  intros HP Ht. induction Ht using page_tree_mut with (P0 := λ _ _ _ es _, Forall P es);
    [|done|constructor|by apply Forall_app].
  match goal with H : leaf_records _ = Ok es |- _ => eapply rmap_forall; [|exact H] end. eauto.
Qed.

Lemma build_unfold root_offset :
  root_offset ≠ 0 →
  outcome (build K file root_offset) =
  match wrun (traverse K file traverse_fuel root_offset 0) {| visited := ∅; entries := ∅ |} with
  | (Ok _, s) => Ok (entries s) | (Err e, _) => Err e | (Panic, _) => Panic | (NoFuel, _) => NoFuel
  end.
Proof.
  intros Hr. unfold build. rewrite (proj2 (Z.eqb_neq _ _)) by done.
  rewrite outcome_run_fresh, wrun_bind.
  by destruct (wrun (traverse K file traverse_fuel root_offset 0) _) as [[] ?].
Qed.

Lemma build_never_panics root_offset : never_panics (outcome (build K file root_offset)).
Proof.
  destruct (decide (root_offset = 0)) as [->|Hr]; [done|]. rewrite build_unfold by done.
  pose proof (traverse_never_panics traverse_fuel root_offset 0 {| visited := ∅; entries := ∅ |}) as H.
  destruct (wrun _ _) as [[] ?]; apply H; unfold MAX_BTREE_DEPTH, traverse_fuel; lia.
Qed.

(** The index of a list of records: a later record replaces an earlier one. *)
Definition index_of (es : list (Z * R)) : gmap Z R := foldl (λ m ke, <[ke.1 := ke.2]> m) ∅ es.

(** The abstract specification of an index build: an empty tree, or the records
    of the page tree at the root, whose pages are pairwise distinct. *)
Definition build_spec (root_offset : Z) (idx : gmap Z R) : Prop :=
  (root_offset = 0 ∧ idx = ∅) ∨
  (root_offset ≠ 0 ∧ ∃ os es, page_tree 0 root_offset os es ∧ NoDup os ∧ idx = index_of es).

Lemma build_refines root_offset idx :
  outcome (build K file root_offset) = Ok idx ↔ build_spec root_offset idx.
Proof.
  unfold build_spec. destruct (decide (root_offset = 0)) as [->|Hr].
  { unfold build. rewrite Z.eqb_refl, outcome_ret. naive_solver. }
  rewrite build_unfold by done. split.
  - intros H. right. split; [done|].
    destruct (wrun _ _) as [[[]| | |] s'] eqn:Ht; try done. injection H as <-.
    apply traverse_sound in Ht as (os & es & Ht & Hn & _ & ->). by exists os, es.
  - intros [[? _]|(_ & os & es & Ht & Hn & ->)]; [done|].
    rewrite (traverse_complete _ _ _ _ Ht); [done| |done|set_solver].
    unfold MAX_BTREE_DEPTH, traverse_fuel. lia.
Qed.
End traverse_facts.

(** The last record with a key is the one that a lookup finds. *)
Lemma index_of_app {R} (es1 es2 : list (Z * R)) :
  index_of (es1 ++ es2) = index_of es2 ∪ index_of es1.
Proof.
  unfold index_of. rewrite foldl_app. generalize (foldl (λ m ke, <[ke.1:=ke.2]> m) ∅ es1 : gmap Z R).
  induction es2 as [|e es2 IH] using rev_ind; intros m; simpl; [by rewrite map_empty_union|].
  rewrite !foldl_app. simpl. rewrite IH. by rewrite insert_union_l.
Qed.

Section properties.
Context `{Crc : Crc32}.

(** Building the node or the block index of any file with any header returns
    an index or an error: it never panics, whatever the page bytes are, and the depth check
    bounds the recursion. *)
Theorem nbt_build_total file header :
  never_panics (outcome (nbt_build file header)) ∧ never_panics (outcome (bbt_build file header)).
Proof. split; apply build_never_panics; apply _. Qed.

(** C3 The node and block indexes are the indexes of the page trees at their
    roots: [build] succeeds exactly when the reachable pages form a tree of
    distinct valid pages of depth at most 32, and then holds the records of its
    leaves, the later of two records with one key.  (A page met twice is a
    [BtreeCycle] error.) *)
Theorem index_build_refines file header :
  (∀ idx, outcome (nbt_build file header) = Ok idx ↔
     build_spec nbt_kind file (bref_ib (bref_nbt (root header))) idx) ∧
  (∀ idx, outcome (bbt_build file header) = Ok idx ↔
     build_spec bbt_kind file (bref_ib (bref_bbt (root header))) idx).
Proof. split; intros idx; apply build_refines, _. Qed.
End properties.
