(* ===== verification/Block.v ===== *)
(** * Data blocks and subnode trees (pst-reader/src/ndb/block.rs)

    A block is looked up in the block index, read with its trailer and decrypted;
    data larger than a block hangs below XBLOCK / XXBLOCK internal blocks, and
    subnodes below SLBLOCK / SIBLOCK blocks. *)

From S2P Require Import Prelude Telemetry PstError Crypt Header Btree.

Definition MAX_XBLOCK_ASSEMBLE : Z := 64 * 1024 * 1024.
Definition MAX_SUBNODE_DEPTH : Z := 32.
Definition BLOCK_TRAILER_SIZE : Z := 16.

(** [BlockId::is_internal], [BlockId::is_null] *)
Definition is_internal (bid : Z) : bool := negb (Z.land bid 0x02 =? 0).
Definition is_null (bid : Z) : bool := bid =? 0.

(** [align64]: [(size + 63) & !63] *)
Definition align64 (size : Z) : Z := Z.ldiff (size + 63) 63.

(** [enter_subnode_block]: the set of visited block IDs is the walk's state. *)
Definition enter_subnode_block (block_id depth : Z) : pwalk (gset Z) unit := λ visited,
  if MAX_SUBNODE_DEPTH <? depth then ((Err (ResourceLimit (SubnodeDepth depth)), visited), [])
  else if decide (block_id ∈ visited) then ((Err (BtreeCycle block_id), visited), [])
  else ((Ok (), {[block_id]} ∪ visited), []).

(** [check_xblock_assemble_limit] *)
Definition check_xblock_assemble_limit (lcb_total : Z) : pres unit :=
  if MAX_XBLOCK_ASSEMBLE <? lcb_total then Err (ResourceLimit (XblockLcbTotal lcb_total)) else Ok ().

Record subnode_entry := { sub_nid : Z; sub_bid_data : Z; sub_bid_sub : Z }.

(** The recursion bound of the two depth-checked walks. *)
Definition subnode_fuel : nat := 34.

Definition is_subnode_not_found (e : pst_error) : bool :=
  match e with SubnodeNotFound _ => true | _ => false end.

Section block.
Context `{Crc : Crc32} (file : list byte) (bbt : bbt_index).

(** [validate_block_trailer] *)
Definition validate_block_trailer (raw : list byte) (data_len : Z) : pio Z :=
  let trailer_start := align64 data_len in
  if zlen raw <? trailer_start + BLOCK_TRAILER_SIZE then
    quiet (Err (DataTruncated (trailer_start + BLOCK_TRAILER_SIZE) (zlen raw)))
  else
    trailer ← quiet (slice raw trailer_start (trailer_start + BLOCK_TRAILER_SIZE));
    stored_crc ← quiet (le_at trailer 0 4);
    bid ← quiet (le_at trailer 4 8);
    covered ← quiet (slice raw 0 data_len);
    let computed := crc32 covered in
    _ ← (if negb (computed =? stored_crc) then emit (NoteBlockCrc bid computed stored_crc) else mret ());
    mret bid.

(** [read_raw_block] *)
Definition read_raw_block (bid : Z) : pio (list byte) :=
  e ← quiet (ok_or (bbt_get bbt bid) (BlockNotFound bid));
  let raw_size := align64 (cb e) + BLOCK_TRAILER_SIZE in
  raw ← quiet (read_exact_at file (bref_ib (bbt_bref e)) raw_size);
  _ ← emit NoteBlockRead;
  trailer_bid ← validate_block_trailer raw (cb e);
  _ ← (if negb (trailer_bid =? bid) then emit (NoteBlockBid (bref_ib (bbt_bref e)) bid trailer_bid)
       else mret ());
  mret raw.

(** The three lines that open every reader: the raw block, the second index
    lookup, and the payload slice [&raw[..cb]]. *)
Definition read_payload (bid : Z) : pio (list byte) :=
  raw ← read_raw_block bid;
  e ← quiet (ok_or (bbt_get bbt bid) (BlockNotFound bid));
  quiet (slice raw 0 (cb e)).

(** The child BIDs of an XBLOCK or XXBLOCK body, in order. *)
Definition child_bids (data : list byte) (c_entries : Z) : pres (list Z) :=
  rmap (λ off, le_at data off 8) (entry_offsets 8 (zlen data) 8 (Z.to_nat c_entries)).

(** One child of [read_xblock_data]: an external block, read and decrypted. *)
Definition xblock_step (data : list byte) (crypt : crypt_method) (result : list byte) (off : Z) : pio (list byte) :=
  child_bid ← quiet (le_at data off 8);
  payload ← read_payload child_bid;
  let payload := decrypt_block payload crypt child_bid in
  if MAX_XBLOCK_ASSEMBLE <? sat_add (zlen result) (zlen payload)
  then quiet (Err (ResourceLimit XblockAssembled))
  else mret (result ++ payload).

(** [read_xblock_data] *)
Definition read_xblock_data (data : list byte) (crypt : crypt_method) : pio (list byte) :=
  if zlen data <? 8 then quiet (Err (DataTruncated 8 (zlen data)))
  else
    c_entries ← quiet (le_at data 2 2);
    lcb_total ← quiet (le_at data 4 4);
    _ ← quiet (check_xblock_assemble_limit lcb_total);
    mfold (xblock_step data crypt) (entry_offsets 8 (zlen data) 8 (Z.to_nat c_entries)) [].

(** One child of [read_xxblock_data]: an XBLOCK (internal, not encrypted). *)
Definition xxblock_step (data : list byte) (crypt : crypt_method) (result : list byte) (off : Z) : pio (list byte) :=
  child_bid ← quiet (le_at data off 8);
  xblock_payload ← read_payload child_bid;
  chunk ← read_xblock_data xblock_payload crypt;
  if MAX_XBLOCK_ASSEMBLE <? sat_add (zlen result) (zlen chunk)
  then quiet (Err (ResourceLimit XxblockAssembled))
  else mret (result ++ chunk).

(** [read_xxblock_data] *)
Definition read_xxblock_data (data : list byte) (crypt : crypt_method) : pio (list byte) :=
  if zlen data <? 8 then quiet (Err (DataTruncated 8 (zlen data)))
  else
    c_entries ← quiet (le_at data 2 2);
    lcb_total ← quiet (le_at data 4 4);
    _ ← quiet (check_xblock_assemble_limit lcb_total);
    mfold (xxblock_step data crypt) (entry_offsets 8 (zlen data) 8 (Z.to_nat c_entries)) [].

(** [read_block_data] *)
Definition read_block_data (bid : Z) (crypt : crypt_method) : pio (list byte) :=
  if is_null bid then mret []
  else
    payload ← read_payload bid;
    if negb (is_internal bid) then mret (decrypt_block payload crypt bid)
    else if zlen payload <? 2 then quiet (Err (DataTruncated 2 (zlen payload)))
    else
      btype ← quiet (index payload 0);
      clevel ← quiet (index payload 1);
      if (btype =? 1) && (clevel =? 1) then read_xblock_data payload crypt
      else if (btype =? 1) && (clevel =? 2) then read_xxblock_data payload crypt
      else quiet (Err (InvalidBlockType 1 btype)).

(** [block_payload_len_hint] *)
Definition block_payload_len_hint (bid : Z) (_crypt : crypt_method) : pio Z :=
  if is_null bid then mret 0
  else
    raw ← read_raw_block bid;
    e ← quiet (ok_or (bbt_get bbt bid) (BlockNotFound bid));
    payload ← quiet (slice raw 0 (cb e));
    if negb (is_internal bid) then mret (cb e)
    else if zlen payload <? 8 then quiet (Err (DataTruncated 8 (zlen payload)))
    else
      btype ← quiet (index payload 0);
      clevel ← quiet (index payload 1);
      if (btype =? 1) && ((clevel =? 1) || (clevel =? 2)) then quiet (le_at payload 4 4)
      else quiet (Err (InvalidBlockType 1 btype)).

(** *** Streaming: the leaf block IDs and one leaf at a time *)

(** [collect_leaf_data_bids_at] *)
Fixpoint collect_leaf_data_bids_at (fuel : nat) (bid depth : Z) : pwalk (gset Z) (list Z) :=
  match fuel with
  | O => out_of_fuel
  | S fuel =>
      if is_null bid then mret []
      else if negb (is_internal bid) then mret [bid]
      else
        visited ← gets id;
        if MAX_SUBNODE_DEPTH <? depth then pure (Err (ResourceLimit (XblockTreeDepth depth)))
        else if decide (bid ∈ visited) then pure (Err (BtreeCycle bid))
        else
          _ ← modify (union {[bid]});
          payload ← lift (read_payload bid);
          if zlen payload <? 8 then mret []
          else
            btype ← pure (index payload 0);
            clevel ← pure (index payload 1);
            c_entries ← pure (le_at payload 2 2);
            if (btype =? 1) && (clevel =? 1) then pure (child_bids payload c_entries)
            else if (btype =? 1) && (clevel =? 2) then
              mfold (λ leaves off,
                child ← pure (le_at payload off 8);
                child_leaves ← collect_leaf_data_bids_at fuel child (depth + 1);
                mret (leaves ++ child_leaves))
                (entry_offsets 8 (zlen payload) 8 (Z.to_nat c_entries)) []
            else pure (Err (InvalidBlockType 1 btype))
  end.

(** [collect_leaf_data_bids] *)
Definition collect_leaf_data_bids (bid : Z) : pio (list Z) :=
  run_fresh ∅ (collect_leaf_data_bids_at subnode_fuel bid 0).

(** [read_leaf_block_data] *)
Definition read_leaf_block_data (bid : Z) (crypt : crypt_method) : pio (list byte) :=
  if is_null bid || is_internal bid
  then quiet (Err (InvalidBlockType 0 (if is_internal bid then 1 else 0)))
  else payload ← read_payload bid; mret (decrypt_block payload crypt bid).

(** *** Subnode trees *)

(** A SLENTRY: nid(8), bidData(8), bidSub(8). *)
Definition sl_entry (payload : list byte) (off : Z) : pres subnode_entry :=
  nid ← le_at payload off 8;
  bd ← le_at payload (off + 8) 8;
  bs ← le_at payload (off + 16) 8;
  Ok {| sub_nid := nid; sub_bid_data := bd; sub_bid_sub := bs |}.

(** The leaf loop of [read_subnode_data_at]: the first entry with the NID. *)
Fixpoint find_in_sl (payload : list byte) (target_nid : Z) (crypt : crypt_method) (offs : list Z) : pio (list byte) :=
  match offs with
  | [] => quiet (Err (SubnodeNotFound target_nid))
  | off :: offs' =>
      entry_nid ← quiet (le_at payload off 8);
      entry_bid_data ← quiet (le_at payload (off + 8) 8);
      if entry_nid =? target_nid then read_block_data entry_bid_data crypt
      else find_in_sl payload target_nid crypt offs'
  end.

(** The child loop of [read_subnode_data_at]: the first child that has the NID. *)
Fixpoint find_in_si (rec : Z → pwalk (gset Z) (list byte)) (payload : list byte) (target_nid : Z)
    (offs : list Z) : pwalk (gset Z) (list byte) :=
  match offs with
  | [] => pure (Err (SubnodeNotFound target_nid))
  | off :: offs' =>
      _ ← pure (le_at payload off 8);
      child_bid ← pure (le_at payload (off + 8) 8);
      catch is_subnode_not_found (rec child_bid) (find_in_si rec payload target_nid offs')
  end.

(** [read_subnode_data_at] *)
Fixpoint read_subnode_data_at (fuel : nat) (sub_bid target_nid : Z) (crypt : crypt_method) (depth : Z)
    : pwalk (gset Z) (list byte) :=
  match fuel with
  | O => out_of_fuel
  | S fuel =>
      if is_null sub_bid then pure (Err (SubnodeNotFound target_nid))
      else
        _ ← enter_subnode_block sub_bid depth;
        payload ← lift (read_payload sub_bid);
        if zlen payload <? 8 then pure (Err (DataTruncated 8 (zlen payload)))
        else
          btype ← pure (index payload 0);
          clevel ← pure (index payload 1);
          c_entries ← pure (le_at payload 2 2);
          if (btype =? 2) && (clevel =? 0) then
            lift (find_in_sl payload target_nid crypt (entry_offsets 24 (zlen payload) 8 (Z.to_nat c_entries)))
          else if (btype =? 2) && (clevel =? 1) then
            find_in_si (λ child, read_subnode_data_at fuel child target_nid crypt (depth + 1)) payload
              target_nid (entry_offsets 16 (zlen payload) 8 (Z.to_nat c_entries))
          else pure (Err (InvalidBlockType 2 btype))
  end.

(** [read_subnode_data] *)
Definition read_subnode_data (sub_bid target_nid : Z) (crypt : crypt_method) : pio (list byte) :=
  run_fresh ∅ (read_subnode_data_at subnode_fuel sub_bid target_nid crypt 0).

(** [list_subnode_entries_at] *)
Fixpoint list_subnode_entries_at (fuel : nat) (sub_bid depth : Z) : pwalk (gset Z) (list subnode_entry) :=
  match fuel with
  | O => out_of_fuel
  | S fuel =>
      if is_null sub_bid then mret []
      else
        _ ← enter_subnode_block sub_bid depth;
        payload ← lift (read_payload sub_bid);
        if zlen payload <? 8 then mret []
        else
          btype ← pure (index payload 0);
          clevel ← pure (index payload 1);
          c_entries ← pure (le_at payload 2 2);
          if (btype =? 2) && (clevel =? 0) then
            pure (rmap (sl_entry payload) (entry_offsets 24 (zlen payload) 8 (Z.to_nat c_entries)))
          else if (btype =? 2) && (clevel =? 1) then
            mfold (λ results off,
              child_bid ← pure (le_at payload (off + 8) 8);
              child_entries ← list_subnode_entries_at fuel child_bid (depth + 1);
              mret (results ++ child_entries))
              (entry_offsets 16 (zlen payload) 8 (Z.to_nat c_entries)) []
          else mret []
  end.

(** [list_subnode_entries] *)
Definition list_subnode_entries (sub_bid : Z) : pio (list subnode_entry) :=
  run_fresh ∅ (list_subnode_entries_at subnode_fuel sub_bid 0).

(** [find_subnode_entry] *)
Definition find_subnode_entry (sub_bid target_nid : Z) : pio (option subnode_entry) :=
  entries ← list_subnode_entries sub_bid;
  mret (find (λ e, sub_nid e =? target_nid) entries).
End block.
