(* ===== verification/BlockFacts.v ===== *)
(** * A small block store for the witnesses

    Data blocks 0x10 and 0x14, an XBLOCK 0x22 over both, an XXBLOCK 0x26 over the
    XBLOCK, an SLBLOCK 0x32 whose one entry is subnode 0x3F (data 0x26), and an
    SIBLOCK 0x36 over the SLBLOCK.  A message with the subnode tree 0x46 has two
    attachments: 0x8025, whose context 0x44 keeps its binary in the subnode 0x3F, and
    0x8045 of method 5, whose context 0x48 names the nested message 0x24 (data 0x44)
    of the tree 0x4A.  Each block is padded to 64 bytes and followed
    by a zero trailer, as in the unit tests of block.rs. *)

From S2P Require Import Prelude Telemetry PstError Crypt Header Btree Block.

#[export] Instance fixture_crc : Crc32 := λ data, zlen data.

Definition mk_block (payload : list byte) : list byte :=
  payload ++ replicate (80 - length payload) Byte.x00.

Definition zbytes (l : list Z) : list byte := map byte.of_Z l.

Definition leaf_a : list byte := zbytes [65; 66; 67].
Definition leaf_b : list byte := zbytes [68; 69].
Definition xblock : list byte := zbytes [1; 1; 2; 0; 5; 0; 0; 0] ++ le_split 8 0x10 ++ le_split 8 0x14.
Definition xxblock : list byte := zbytes [1; 2; 1; 0; 5; 0; 0; 0] ++ le_split 8 0x22.
Definition slblock : list byte :=
  zbytes [2; 0; 1; 0; 0; 0; 0; 0] ++ le_split 8 0x3F ++ le_split 8 0x26 ++ le_split 8 0.
Definition siblock : list byte := zbytes [2; 1; 1; 0; 0; 0; 0; 0] ++ le_split 8 0x3F ++ le_split 8 0x32.

Definition attach_pc : list byte :=
  zbytes ([28; 0; 0xEC; 0xBC; 0x20; 0; 0; 0; 0; 0; 0; 0] ++ [0xB5; 2; 6; 0; 0x40; 0; 0; 0] ++
          [0x01; 0x37; 0x02; 0x01; 0x3F; 0; 0; 0] ++ [2; 0; 0; 0; 12; 0; 20; 0; 28; 0]).
Definition embedded_pc : list byte :=
  zbytes ([44; 0; 0xEC; 0xBC; 0x20; 0; 0; 0; 0; 0; 0; 0] ++ [0xB5; 2; 6; 0; 0x40; 0; 0; 0] ++
          [0x01; 0x37; 0x0D; 0; 0x60; 0; 0; 0] ++ [0x05; 0x37; 0x03; 0; 5; 0; 0; 0] ++
          [0x24; 0; 0; 0; 3; 0; 0; 0] ++ [3; 0; 0; 0; 12; 0; 20; 0; 36; 0; 44; 0]).
Definition message_slblock : list byte :=
  zbytes [2; 0; 2; 0; 0; 0; 0; 0] ++ le_split 8 0x8025 ++ le_split 8 0x44 ++ le_split 8 0x32 ++
  le_split 8 0x8045 ++ le_split 8 0x48 ++ le_split 8 0x4A.
Definition nested_slblock : list byte :=
  zbytes [2; 0; 1; 0; 0; 0; 0; 0] ++ le_split 8 0x24 ++ le_split 8 0x44 ++ le_split 8 0.

Definition fixture_file : list byte :=
  Eval vm_compute in
  mk_block leaf_a ++ mk_block leaf_b ++ mk_block xblock ++ mk_block xxblock ++ mk_block slblock ++ mk_block siblock ++
  mk_block attach_pc ++ mk_block message_slblock ++ mk_block embedded_pc ++ mk_block nested_slblock.

Definition fixture_entry (bid ib size : Z) : Z * bbt_entry :=
  (bid, {| bbt_bref := {| bref_bid := bid; bref_ib := ib |}; cb := size; c_ref := 1 |}).

Definition fixture_bbt : bbt_index :=
  list_to_map [fixture_entry 0x10 0 3; fixture_entry 0x14 80 2; fixture_entry 0x22 160 24;
               fixture_entry 0x26 240 16; fixture_entry 0x32 320 32; fixture_entry 0x36 400 24;
               fixture_entry 0x44 480 38; fixture_entry 0x46 560 56; fixture_entry 0x48 640 56;
               fixture_entry 0x4A 720 32].

(** * Facts about block reads

    Every read of [Block] is reduced to [payload_of], the payload bytes that the
    block index and the file determine; panic freedom, the assembly bound and the
    agreement of the streaming and the assembling reader follow. *)

(** The sizes of a block index are [u16] values. *)
Definition bbt_wf (bbt : bbt_index) : Prop := map_Forall (λ _ e, 0 <= cb e < 2 ^ 16) bbt.

Lemma align64_div size : align64 size = (size + 63) / 64 * 64.
Proof.
  unfold align64. change 63 with (Z.ones 6) at 2. rewrite Z.ldiff_ones_r by lia.
  rewrite Z.shiftr_div_pow2, Z.shiftl_mul_pow2 by lia. done.
Qed.

Lemma align64_bounds size : size <= align64 size < size + 64.
Proof. rewrite align64_div. pose proof (Z.div_mod (size + 63) 64). pose proof (Z.mod_pos_bound (size + 63) 64). lia. Qed.

(** Every index that [BbtIndex::build] returns is well formed. *)
Lemma le_at_range {E} (l : list byte) a w v : 0 <= w → le_at l a w = Ok v :> res E _ → 0 <= v < 2 ^ (8 * w).
Proof.
  intros Hw. unfold le_at. intros (s & (H1 & H2 & H3 & ->)%slice_inv & [= <-])%bind_ok_inv.
  apply (le_val_range l a w) in Hw. unfold le_val in Hw. by replace (a + w - a) with w by lia.
Qed.

Lemma parse_bbt_leaf_range ed ke : parse_bbt_leaf ed = Ok ke → 0 <= cb ke.2 < 2 ^ 16.
Proof.
  unfold parse_bbt_leaf. intros (bid & _ & (ib & _ & (c & Hc & (rc & _ & [= <-])%bind_ok_inv)%bind_ok_inv)%bind_ok_inv)%bind_ok_inv.
  by apply le_at_range in Hc.
Qed.

Lemma index_of_forall {R} (P : R → Prop) (es : list (Z * R)) :
  Forall (λ ke, P ke.2) es → map_Forall (λ _ r, P r) (index_of es).
Proof.
  unfold index_of. intros Hes. assert (Hm : map_Forall (λ _ r, P r) (∅ : gmap Z R)) by apply map_Forall_empty.
  revert Hm. generalize (∅ : gmap Z R). induction Hes as [|ke es Hke Hes IH]; intros m Hm; [done|].
  apply IH. by apply map_Forall_insert_2.
Qed.

Lemma bbt_build_wf `{Crc32} file header : holds (outcome (bbt_build file header)) bbt_wf.
Proof.
  pose proof (build_never_panics bbt_kind file (bref_ib (bref_bbt (root header)))) as Hn.
  change (never_panics (outcome (bbt_build file header))) in Hn.
  destruct (outcome (bbt_build file header)) as [idx| | |] eqn:Hb; try done.
  apply build_refines in Hb; [|apply _]. destruct Hb as [[_ ->]|(_ & os & es & Ht & _ & ->)];
    [apply map_Forall_empty|].
  apply index_of_forall. eapply page_tree_records; [|done]. intros data o ke. unfold leaf_entry.
  intros (ed & _ & He)%bind_ok_inv. by apply parse_bbt_leaf_range in He.
Qed.

Section block_facts.
Context `{Crc : Crc32} (file : list byte) (bbt : bbt_index).

Abbreviation read_payload := (read_payload file bbt).
Abbreviation read_raw_block := (read_raw_block file bbt).

(** The payload of a block: the [cb] bytes at its offset, when the block with its
    padding and trailer lies inside the file. *)
Definition payload_of (bid : Z) : pres (list byte) :=
  match bbt !! bid with
  | None => Err (BlockNotFound bid)
  | Some e =>
      if (0 <=? bref_ib (bbt_bref e)) &&
         (bref_ib (bbt_bref e) + (align64 (cb e) + BLOCK_TRAILER_SIZE) <=? zlen file)
      then Ok (sub file (bref_ib (bbt_bref e)) (cb e))
      else Err Io
  end.

Lemma validate_block_trailer_ok raw n :
  0 <= n → zlen raw = align64 n + BLOCK_TRAILER_SIZE →
  outcome (validate_block_trailer raw n) = Ok (le_val raw (align64 n + 4) 8).
Proof.
  intros Hn Hlen. pose proof (align64_bounds n). unfold BLOCK_TRAILER_SIZE in *.
  unfold validate_block_trailer, BLOCK_TRAILER_SIZE. rewrite (proj2 (Z.ltb_ge _ _)) by lia.
  assert (Ht : zlen (sub raw (align64 n) (align64 n + 16 - align64 n)) = 16) by (rewrite zlen_sub; lia).
  autorewrite with outcome. run_reads. autorewrite with outcome. run_reads.
  autorewrite with outcome. rewrite le_val_sub by lia.
  by destruct (negb _).
Qed.

(** The block with its padding and trailer, as read from the file. *)
Definition raw_block_of (bid : Z) : pres (list byte) :=
  match bbt !! bid with
  | None => Err (BlockNotFound bid)
  | Some e =>
      if (0 <=? bref_ib (bbt_bref e)) &&
         (bref_ib (bbt_bref e) + (align64 (cb e) + BLOCK_TRAILER_SIZE) <=? zlen file)
      then Ok (sub file (bref_ib (bbt_bref e)) (align64 (cb e) + BLOCK_TRAILER_SIZE))
      else Err Io
  end.

Lemma outcome_read_raw_block bid : bbt_wf bbt → outcome (read_raw_block bid) = raw_block_of bid.
Proof.
  intros Hwf. unfold Block.read_raw_block, raw_block_of, bbt_get.
  autorewrite with outcome. destruct (bbt !! bid) as [e|] eqn:He; [|done]. simpl ok_or.
  pose proof (Hwf bid e He) as [Hcb _]. pose proof (align64_bounds (cb e)).
  autorewrite with outcome. unfold read_exact_at.
  destruct (_ && _) eqn:Hin; [|done]. bool_to_Z. rewrite bind_ok. autorewrite with outcome.
  rewrite (validate_block_trailer_ok _ _ Hcb) by (apply zlen_sub; unfold BLOCK_TRAILER_SIZE in *; lia).
  autorewrite with outcome. by destruct (negb _); autorewrite with outcome.
Qed.

(** Every reader looks the block up again and cuts its payload. *)
Lemma raw_block_payload {A} bid (f : bbt_entry → list byte → pres A) :
  bbt_wf bbt →
  (raw ← raw_block_of bid; e ← ok_or (bbt_get bbt bid) (BlockNotFound bid);
   payload ← slice raw 0 (cb e); f e payload) =
  match bbt !! bid with
  | Some e => payload ← payload_of bid; f e payload
  | None => Err (BlockNotFound bid)
  end.
Proof.
  intros Hwf. unfold raw_block_of, payload_of, bbt_get. destruct (bbt !! bid) as [e|] eqn:He; [|done].
  destruct (_ && _) eqn:Hin; [|done]. bool_to_Z. simpl ok_or.
  pose proof (Hwf bid e He) as [Hcb _]. pose proof (align64_bounds (cb e)). rewrite !bind_ok.
  unfold BLOCK_TRAILER_SIZE in *. rewrite slice_ok by (rewrite ?zlen_sub; lia).
  rewrite bind_ok, sub_sub by lia. do 2 f_equal; lia.
Qed.

Lemma outcome_read_payload bid : bbt_wf bbt → outcome (read_payload bid) = payload_of bid.
Proof.
  intros Hwf. unfold Block.read_payload. autorewrite with outcome. rewrite outcome_read_raw_block by done.
  transitivity (match bbt !! bid with
    | Some e => payload ← payload_of bid; Ok payload | None => Err (BlockNotFound bid) end : pres _).
  - rewrite <-(raw_block_payload bid (λ _ payload, Ok payload)) by done. apply bind_ext. intros raw _.
    rewrite outcome_bind, outcome_quiet. apply bind_ext. intros e _. rewrite outcome_quiet.
    by destruct (slice raw 0 (cb e)).
  - unfold payload_of. destruct (bbt !! bid); [|done]. by destruct (_ && _).
Qed.

Lemma payload_of_never_panics bid : never_panics (payload_of bid).
Proof. unfold payload_of. by repeat case_match. Qed.

Lemma payload_of_len bid payload :
  bbt_wf bbt → payload_of bid = Ok payload → zlen payload < 2 ^ 16.
Proof.
  intros Hwf. unfold payload_of. destruct (bbt !! bid) as [e|] eqn:He; [|done].
  pose proof (Hwf bid e He) as [??]. case_match eqn:Hc; [|done]. intros [= <-]. bool_to_Z.
  pose proof (align64_bounds (cb e)). unfold BLOCK_TRAILER_SIZE in *. rewrite zlen_sub; lia.
Qed.

Context (Hwf : bbt_wf bbt).

(** *** The assembling reader *)

Lemma xblock_step_bound data crypt result off :
  0 <= off → off + 8 <= zlen data →
  holds (outcome (xblock_step file bbt data crypt result off)) (λ r, zlen r <= MAX_XBLOCK_ASSEMBLE).
Proof.
  intros. unfold xblock_step. autorewrite with outcome. run_reads.
  autorewrite with outcome. rewrite outcome_read_payload by done. apply holds_bind.
  eapply holds_mono; [apply payload_of_never_panics|]. intros payload _.
  case_match eqn:Hc; [done|]. bool_to_Z. rewrite outcome_ret. simpl.
  rewrite zlen_app. unfold sat_add, U64_MAX, MAX_XBLOCK_ASSEMBLE in *. lia.
Qed.

Lemma read_xblock_data_bound data crypt :
  holds (outcome (read_xblock_data file bbt data crypt)) (λ r, zlen r <= MAX_XBLOCK_ASSEMBLE).
Proof.
  unfold read_xblock_data. case_match eqn:Hc; [done|]. bool_to_Z.
  autorewrite with outcome. run_reads. autorewrite with outcome.
  unfold check_xblock_assemble_limit. case_match; [done|]. rewrite bind_ok. autorewrite with outcome.
  apply holds_mfold; [done|]. intros b off Hoff _. apply entry_offsets_bound in Hoff as [??]; [|lia].
  apply xblock_step_bound; lia.
Qed.

Lemma read_xxblock_data_bound data crypt :
  holds (outcome (read_xxblock_data file bbt data crypt)) (λ r, zlen r <= MAX_XBLOCK_ASSEMBLE).
Proof.
  unfold read_xxblock_data. case_match eqn:Hc; [done|]. bool_to_Z.
  autorewrite with outcome. run_reads. autorewrite with outcome.
  unfold check_xblock_assemble_limit. case_match; [done|]. rewrite bind_ok. autorewrite with outcome.
  apply holds_mfold; [done|]. intros b off Hoff _. apply entry_offsets_bound in Hoff as [??]; [|lia].
  unfold xxblock_step. autorewrite with outcome. run_reads.
  autorewrite with outcome. rewrite outcome_read_payload by done. apply holds_bind.
  eapply holds_mono; [apply payload_of_never_panics|]. intros payload _.
  autorewrite with outcome. apply holds_bind. eapply holds_mono; [apply read_xblock_data_bound|].
  intros chunk _. case_match eqn:Hc2; [done|]. bool_to_Z. rewrite outcome_ret. simpl.
  rewrite zlen_app. unfold sat_add, U64_MAX, MAX_XBLOCK_ASSEMBLE in *. lia.
Qed.

Lemma read_block_data_bound bid crypt :
  holds (outcome (read_block_data file bbt bid crypt)) (λ r, zlen r <= MAX_XBLOCK_ASSEMBLE).
Proof.
  unfold read_block_data. case_match; [done|]. autorewrite with outcome.
  rewrite outcome_read_payload by done. pose proof (payload_of_never_panics bid) as Hp.
  destruct (payload_of bid) as [payload| | |] eqn:Hpay; try done. rewrite bind_ok.
  apply payload_of_len in Hpay; [|done]. case_match; simpl.
  { rewrite decrypt_block_zlen. unfold MAX_XBLOCK_ASSEMBLE. lia. }
  case_match eqn:Hc; [done|]. bool_to_Z. autorewrite with outcome. run_reads.
  autorewrite with outcome. run_reads.
  case_match; [apply read_xblock_data_bound|]. case_match; [apply read_xxblock_data_bound|done].
Qed.

(** The length hint: the payload length of an external block, the [lcbTotal]
    field of an XBLOCK or XXBLOCK. *)
Definition len_hint (bid : Z) : pres Z :=
  if is_null bid then Ok 0
  else
    payload ← payload_of bid;
    if negb (is_internal bid) then Ok (zlen payload)
    else if zlen payload <? 8 then Err (DataTruncated 8 (zlen payload))
    else if (le_val payload 0 1 =? 1) && ((le_val payload 1 1 =? 1) || (le_val payload 1 1 =? 2))
    then Ok (le_val payload 4 4)
    else Err (InvalidBlockType 1 (le_val payload 0 1)).

Lemma payload_of_zlen bid e payload : bbt !! bid = Some e → payload_of bid = Ok payload → zlen payload = cb e.
Proof.
  intros He. unfold payload_of. rewrite He. pose proof (Hwf bid e He) as [??].
  destruct (_ && _) eqn:Hin; [|done]. intros [= <-]. bool_to_Z. pose proof (align64_bounds (cb e)).
  unfold BLOCK_TRAILER_SIZE in *. rewrite zlen_sub; lia.
Qed.

Lemma outcome_len_hint bid crypt : outcome (block_payload_len_hint file bbt bid crypt) = len_hint bid.
Proof.
  unfold block_payload_len_hint, len_hint. destruct (is_null bid); [done|].
  rewrite outcome_bind, outcome_read_raw_block by done.
  transitivity (match bbt !! bid with
    | Some e => payload ← payload_of bid;
        if negb (is_internal bid) then Ok (cb e)
        else if zlen payload <? 8 then Err (DataTruncated 8 (zlen payload))
        else if (le_val payload 0 1 =? 1) && ((le_val payload 1 1 =? 1) || (le_val payload 1 1 =? 2))
        then Ok (le_val payload 4 4)
        else Err (InvalidBlockType 1 (le_val payload 0 1))
    | None => Err (BlockNotFound bid) end : pres Z).
  - rewrite <-raw_block_payload by done. apply bind_ext. intros raw _.
    rewrite outcome_bind, outcome_quiet. apply bind_ext. intros e _.
    rewrite outcome_bind, outcome_quiet. apply bind_ext. intros payload _.
    destruct (negb _); [done|]. destruct (zlen payload <? 8) eqn:Hl; [done|]. bool_to_Z.
    autorewrite with outcome. run_reads. autorewrite with outcome. run_reads.
    by destruct (_ && _); autorewrite with outcome; run_reads.
  - destruct (bbt !! bid) as [e|] eqn:He.
    + apply bind_ext. intros payload Hp. by rewrite (payload_of_zlen _ _ _ He Hp).
    + unfold payload_of. by rewrite He.
Qed.

Lemma len_hint_never_panics bid : never_panics (len_hint bid).
Proof.
  unfold len_hint. destruct (is_null bid); [done|]. apply holds_bind.
  eapply holds_mono; [apply payload_of_never_panics|]. intros p _.
  destruct (negb _); [done|]. destruct (_ <? 8); [done|]. by destruct (_ && _).
Qed.

(** The decrypted leaf of an external block ID. *)
Definition leaf_data (crypt : crypt_method) (bid : Z) : pres (list byte) :=
  p ← payload_of bid; Ok (decrypt_block p crypt bid).

(** The child block IDs of an internal payload of at least 8 bytes. *)
Definition children (payload : list byte) : list Z :=
  map (λ off, le_val payload off 8) (entry_offsets 8 (zlen payload) 8 (Z.to_nat (le_val payload 2 2))).

Lemma child_bids_ok payload :
  child_bids payload (le_val payload 2 2) = Ok (children payload).
Proof.
  unfold child_bids, children. apply rmap_ok_map. intros off Hoff.
  apply entry_offsets_bound in Hoff as [??]; [|lia]. by rewrite le_at_ok by lia.
Qed.

Lemma read_xblock_data_ok data crypt d :
  outcome (read_xblock_data file bbt data crypt) = Ok d →
  8 <= zlen data ∧ ∃ chunks, rmap (leaf_data crypt) (children data) = Ok chunks ∧ d = concat chunks.
Proof.
  unfold read_xblock_data. case_match eqn:Hc; [done|]. bool_to_Z. intros Hd. split; [done|].
  revert Hd. autorewrite with outcome. run_reads. autorewrite with outcome.
  unfold check_xblock_assemble_limit. case_match; [done|]. rewrite bind_ok. autorewrite with outcome.
  intros Hd. apply (mfold_append _ (λ off, le_at data off 8 ≫= leaf_data crypt)) in Hd.
  - destruct Hd as (ys & Hys & ->). apply rmap_bind_ok in Hys as (cs & Hcs & Hys).
    exists ys. split; [|done]. rewrite <-Hys. f_equal.
    pose proof (child_bids_ok data) as Hc2. unfold child_bids in Hc2. congruence.
  - intros b off b'. unfold xblock_step. autorewrite with outcome.
    intros (c & -> & Hb')%bind_ok_inv. rewrite bind_ok. revert Hb'. autorewrite with outcome.
    rewrite outcome_read_payload by done. unfold leaf_data.
    intros (p & -> & Hb')%bind_ok_inv. rewrite bind_ok. revert Hb'.
    case_match; [done|]. intros [= <-]. eauto.
Qed.
End block_facts.

(** The fixture's index is well formed. *)

Lemma fixture_bbt_wf : bbt_wf fixture_bbt.
Proof.
  unfold bbt_wf, fixture_bbt, fixture_entry. simpl.
  repeat (apply map_Forall_insert_2; [simpl; lia|]). apply map_Forall_empty.
Qed.
