(* ===== verification/Streaming.v ===== *)
(** * Streaming and assembling read the same bytes

    Attachments are streamed: [collect_leaf_data_bids] lists the leaf blocks of a
    data tree and [read_leaf_block_data] reads them one at a time.  Bodies are
    assembled at once by [read_block_data].  Both must give the same bytes. *)

From S2P Require Import Prelude Telemetry PstError Crypt Header Btree Block BlockFacts.

Section streaming.
Context `{Crc : Crc32} (file : list byte) (bbt : bbt_index) (Hwf : bbt_wf bbt).

Abbreviation payload_of := (payload_of file bbt).
Abbreviation leaf_data := (leaf_data file bbt).

(** What the format requires of an internal data block: the type bytes of its
    payload and, below an XBLOCK, external children. *)
Definition external (bid : Z) : Prop := is_null bid = false ∧ is_internal bid = false.
Definition block_header (payload : list byte) (level : Z) : Prop :=
  8 <= zlen payload ∧ le_val payload 0 1 = 1 ∧ le_val payload 1 1 = level.
Definition wf_xblock (bid : Z) : Prop :=
  is_internal bid = true ∧
  ∃ payload, payload_of bid = Ok payload ∧ block_header payload 1 ∧ Forall external (children payload).
Definition wf_xxblock (bid : Z) : Prop :=
  is_internal bid = true ∧
  ∃ payload, payload_of bid = Ok payload ∧ block_header payload 2 ∧
    Forall wf_xblock (children payload) ∧ NoDup (bid :: children payload).
Definition wf_data_tree (bid : Z) : Prop :=
  is_null bid = true ∨ external bid ∨ wf_xblock bid ∨ wf_xxblock bid.

Lemma internal_not_null bid : is_internal bid = true → is_null bid = false.
Proof. unfold is_internal, is_null. destruct (Z.eqb_spec bid 0) as [->|]; done. Qed.

Lemma read_leaf_external bid crypt :
  external bid → outcome (read_leaf_block_data file bbt bid crypt) = leaf_data crypt bid.
Proof.
  intros [Hn Hi]. unfold read_leaf_block_data, BlockFacts.leaf_data. rewrite Hn, Hi. simpl.
  autorewrite with outcome. by rewrite outcome_read_payload by done.
Qed.

(** The walk on an internal block that has not been visited. *)
Lemma collect_internal fuel bid depth visited payload :
  is_internal bid = true → depth <= MAX_SUBNODE_DEPTH → bid ∉ visited →
  payload_of bid = Ok payload → 8 <= zlen payload →
  wrun (collect_leaf_data_bids_at file bbt (S fuel) bid depth) visited =
  (let visited := {[bid]} ∪ visited in
   if (le_val payload 0 1 =? 1) && (le_val payload 1 1 =? 1) then (Ok (children payload), visited)
   else if (le_val payload 0 1 =? 1) && (le_val payload 1 1 =? 2) then
     wrun (mfold (λ leaves off,
             child ← pure (le_at payload off 8);
             child_leaves ← collect_leaf_data_bids_at file bbt fuel child (depth + 1);
             mret (leaves ++ child_leaves))
           (entry_offsets 8 (zlen payload) 8 (Z.to_nat (le_val payload 2 2))) []) visited
   else (Err (InvalidBlockType 1 (le_val payload 0 1)), visited)).
Proof.
  intros Hi Hd Hv Hp Hlen. simpl. rewrite internal_not_null, Hi by done. simpl.
  rewrite wrun_bind, wrun_gets, (proj2 (Z.ltb_ge _ _)), decide_False by done.
  rewrite wrun_bind, wrun_modify, wrun_bind, wrun_lift, outcome_read_payload, Hp by done.
  cbv beta iota. rewrite (proj2 (Z.ltb_ge _ _)) by done.
  rewrite !wrun_bind, !wrun_pure. run_reads. cbv beta iota.
  rewrite wrun_bind, wrun_pure. cbv beta iota. rewrite wrun_bind, wrun_pure. cbv beta iota.
  case_match; [by rewrite wrun_pure, child_bids_ok|]. by case_match.
Qed.

Lemma collect_xblock fuel bid depth visited payload :
  is_internal bid = true → depth <= MAX_SUBNODE_DEPTH → bid ∉ visited →
  payload_of bid = Ok payload → block_header payload 1 →
  wrun (collect_leaf_data_bids_at file bbt (S fuel) bid depth) visited =
  (Ok (children payload), {[bid]} ∪ visited).
Proof.
  intros Hi Hd Hv Hp (Hlen & H0 & H1).
  rewrite (collect_internal _ _ _ _ _ Hi Hd Hv Hp Hlen). by rewrite H0, H1.
Qed.

(** The leaves of the XBLOCKs below an XXBLOCK. *)
Definition xblock_leaves (bid : Z) : list Z :=
  match payload_of bid with Ok p => children p | _ => [] end.

Lemma collect_children fuel depth offs payload :
  depth <= MAX_SUBNODE_DEPTH →
  (∀ off, off ∈ offs → 0 <= off ∧ off + 8 <= zlen payload) →
  Forall wf_xblock (map (λ off, le_val payload off 8) offs) →
  ∀ visited leaves, NoDup (map (λ off, le_val payload off 8) offs) →
  (∀ b, b ∈ map (λ off, le_val payload off 8) offs → b ∉ visited) →
  ∃ visited', wrun (mfold (λ leaves off,
      child ← pure (le_at payload off 8);
      child_leaves ← collect_leaf_data_bids_at file bbt (S fuel) child depth;
      mret (leaves ++ child_leaves)) offs leaves) visited =
    (Ok (leaves ++ concat (map xblock_leaves (map (λ off, le_val payload off 8) offs))), visited').
Proof.
  intros Hd. induction offs as [|off offs IH]; intros Hb Hc visited leaves Hn Hv.
  { exists visited. simpl. by rewrite app_nil_r. }
  destruct (Hb off) as [??]; [set_solver|]. simpl map in *.
  apply Forall_cons in Hc as [(Hi & p & Hp & Hh & _) Hc]. apply NoDup_cons in Hn as [Hnin Hn].
  destruct (IH ltac:(intros; apply Hb; set_solver) Hc
    ({[le_val payload off 8]} ∪ visited) (leaves ++ children p) Hn) as [visited' Hrun].
  { intros b Hb'. rewrite elem_of_union, elem_of_singleton. intros [->|?]; [done|]. set_solver. }
  exists visited'. rewrite wrun_mfold_cons, wrun_bind, wrun_pure, le_at_ok by lia. cbv beta iota.
  rewrite wrun_bind, (collect_xblock _ _ _ _ p) by (done || set_solver). cbv beta iota.
  rewrite wrun_ret, Hrun. simpl. unfold xblock_leaves at 2. rewrite Hp. by rewrite (assoc_L _).
Qed.

(** The assembling reader on an XXBLOCK: the concatenation over its XBLOCKs. *)
Lemma read_xxblock_data_ok data crypt d :
  outcome (read_xxblock_data file bbt data crypt) = Ok d →
  8 <= zlen data ∧
  ∃ parts, rmap (λ c, rmap (leaf_data crypt) (xblock_leaves c)) (children data) = Ok parts ∧
    d = concat (concat parts).
Proof.
  unfold read_xxblock_data. case_match eqn:Hc; [done|]. bool_to_Z. intros Hd. split; [done|].
  revert Hd. autorewrite with outcome. run_reads. autorewrite with outcome.
  unfold check_xblock_assemble_limit. case_match; [done|]. rewrite bind_ok. autorewrite with outcome.
  intros Hd. apply (mfold_append _ (λ off, le_at data off 8 ≫= λ c,
    parts ← rmap (leaf_data crypt) (xblock_leaves c); Ok (concat parts))) in Hd.
  - destruct Hd as (ys & Hys & ->). apply rmap_bind_ok in Hys as (cs & Hcs & Hys).
    apply rmap_bind_ok in Hys as (parts & Hparts & Hys).
    exists parts. pose proof (child_bids_ok data) as Hc2. unfold child_bids in Hc2.
    rewrite Hc2 in Hcs. injection Hcs as <-. split; [done|].
    assert (ys = map (λ p, concat p) parts) as ->.
    { rewrite (rmap_ok_map _ (λ p, concat p)) in Hys by done. congruence. }
    rewrite app_nil_l. clear. induction parts as [|p ps IH]; simpl; [done|]. by rewrite concat_app, IH.
  - intros b off b'. unfold xxblock_step. autorewrite with outcome.
    intros (c & -> & Hb')%bind_ok_inv. rewrite bind_ok. revert Hb'. autorewrite with outcome.
    rewrite outcome_read_payload by done. unfold xblock_leaves.
    intros (p & -> & Hb')%bind_ok_inv. revert Hb'. autorewrite with outcome.
    intros (chunk & Hchunk & Hb')%bind_ok_inv.
    apply read_xblock_data_ok in Hchunk as (_ & chunks & Hchunks & ->); [|done].
    revert Hb'. case_match; [done|]. intros [= <-]. rewrite Hchunks. eauto.
Qed.

(** The two readers on a well-formed data tree. *)
Lemma stream_matches_assemble bid crypt data :
  wf_data_tree bid → outcome (read_block_data file bbt bid crypt) = Ok data →
  ∃ leaves chunks, outcome (collect_leaf_data_bids file bbt bid) = Ok leaves ∧
    rmap (λ b, outcome (read_leaf_block_data file bbt b crypt)) leaves = Ok chunks ∧
    concat chunks = data.
Proof.
  intros Htree. unfold read_block_data, collect_leaf_data_bids. rewrite outcome_run_fresh.
  destruct Htree as [Hn|[He|[(Hi & p & Hp & Hh & Hx)|(Hi & p & Hp & Hh & Hx & Hnd)]]].
  - simpl. rewrite Hn. intros [= <-]. by exists [], [].
  - pose proof He as [Hn Hi]. simpl. rewrite Hn, Hi. simpl. autorewrite with outcome.
    rewrite outcome_read_payload by done. intros (p & Hp & [= <-])%bind_ok_inv.
    exists [bid], [decrypt_block p crypt bid]. split; [done|]. simpl.
    rewrite read_leaf_external by done. unfold BlockFacts.leaf_data. rewrite Hp. by rewrite app_nil_r.
  - rewrite internal_not_null, Hi by done. autorewrite with outcome.
    rewrite outcome_read_payload, Hp, bind_ok by done. pose proof Hh as (Hlen & H0 & H1). simpl negb.
    cbv iota. rewrite (proj2 (Z.ltb_ge (zlen p) 2)) by lia. autorewrite with outcome. run_reads.
    autorewrite with outcome. run_reads. rewrite H0, H1. simpl andb. cbv iota.
    intros (_ & chunks & Hc & ->)%read_xblock_data_ok; [|done].
    exists (children p), chunks.
    unfold subnode_fuel. rewrite (collect_xblock _ _ _ _ p) by (done || set_solver).
    split_and!; [done| |done]. rewrite <-Hc. apply rmap_ext. intros x Hx'.
    apply read_leaf_external. by eapply Forall_forall in Hx.
  - rewrite internal_not_null, Hi by done. autorewrite with outcome.
    rewrite outcome_read_payload, Hp, bind_ok by done. pose proof Hh as (Hlen & H0 & H1). simpl negb.
    cbv iota. rewrite (proj2 (Z.ltb_ge (zlen p) 2)) by lia. autorewrite with outcome. run_reads.
    autorewrite with outcome. run_reads. rewrite H0, H1. simpl andb. cbv iota.
    intros (_ & parts & Hparts & ->)%read_xxblock_data_ok.
    apply NoDup_cons in Hnd as [Hnin Hnd].
    destruct (collect_children 32 1 (entry_offsets 8 (zlen p) 8 (Z.to_nat (le_val p 2 2))) p)
      with (visited := {[bid]} ∪ ∅ : gset Z) (leaves := @nil Z) as [visited' Hrun]; try done.
    { intros off Ho. apply entry_offsets_bound in Ho; lia. }
    { intros b Hb. rewrite elem_of_union, elem_of_singleton. intros [->|?]; [done|set_solver]. }
    exists (concat (map xblock_leaves (children p))), (concat parts).
    unfold subnode_fuel. rewrite (collect_internal _ _ _ _ p) by (done || set_solver).
    rewrite H0, H1. simpl andb. cbv iota zeta. change (0 + 1) with 1. rewrite Hrun.
    split; [done|]. split; [|done].
    clear Hrun Hnd Hnin. unfold children at 1 in Hx. fold (children p) in Hx.
    revert parts Hparts. induction Hx as [|c cs Hc Hcs IH]; intros parts.
    { by intros [= <-]. }
    intros (q & qs & Hq & Hqs & ->)%rmap_cons_ok. simpl. rewrite rmap_app.
    assert (Hl : rmap (λ b, outcome (read_leaf_block_data file bbt b crypt)) (xblock_leaves c) = Ok q).
    { rewrite <-Hq. apply rmap_ext. intros x Hx'. apply read_leaf_external.
      destruct Hc as (_ & pc & Hpc & _ & Hext). unfold xblock_leaves in Hx'. rewrite Hpc in Hx'.
      by eapply Forall_forall in Hext. }
    by rewrite Hl, bind_ok, (IH qs Hqs).
Qed.

(** *** The collecting walk terminates without panicking *)
Lemma collect_never_panics fuel bid depth visited :
  depth <= MAX_SUBNODE_DEPTH + 1 → MAX_SUBNODE_DEPTH + 2 <= Z.of_nat fuel + depth →
  never_panics (wrun (collect_leaf_data_bids_at file bbt fuel bid depth) visited).1.
Proof.
  revert bid depth visited. induction fuel as [|fuel IH]; intros bid depth visited Hd Hf; [lia|].
  destruct (is_null bid) eqn:Hn; [simpl; by rewrite Hn|].
  destruct (is_internal bid) eqn:Hi; [|simpl; by rewrite Hn, Hi].
  pose proof (payload_of_never_panics file bbt bid) as Hpan.
  simpl. rewrite Hn, Hi. simpl. rewrite wrun_bind, wrun_gets. cbv beta iota.
  case_match eqn:Hdep; [done|]. bool_to_Z. case_decide; [done|].
  rewrite wrun_bind, wrun_modify. cbv beta iota. rewrite wrun_bind, wrun_lift, outcome_read_payload by done.
  destruct (payload_of bid) as [p| | |]; try done. cbv beta iota.
  destruct (zlen p <? 8) eqn:Hl; [done|]. bool_to_Z.
  do 3 (rewrite wrun_bind, wrun_pure; run_reads; cbv beta iota).
  destruct (_ && _); [by rewrite wrun_pure, child_bids_ok|]. destruct (_ && _); [|done].
  apply mfold_walk_never_panics. intros b off v' Ho. apply entry_offsets_bound in Ho as [??]; [|lia].
  rewrite wrun_bind, wrun_pure, le_at_ok by lia. cbv beta iota.
  apply wrun_bind_never_panics. eapply holds_mono; [apply IH; lia|]. done.
Qed.
End streaming.

(** C1 Streaming and assembling give the same bytes: when the assembling reader
    returns the data of a well-formed data tree (a null or external block, an
    XBLOCK, or an XXBLOCK over distinct XBLOCKs), the leaf blocks can be collected
    and read one by one, and their concatenation is that data. *)
Theorem streaming_equals_assembling `{Crc : Crc32} file bbt bid crypt data
    (Hwf : bbt_wf bbt) (Htree : wf_data_tree file bbt bid)
    (Hread : outcome (read_block_data file bbt bid crypt) = Ok data) :
  ∃ leaves chunks, outcome (collect_leaf_data_bids file bbt bid) = Ok leaves ∧
    rmap (λ b, outcome (read_leaf_block_data file bbt b crypt)) leaves = Ok chunks ∧
    concat chunks = data.
Proof. by apply stream_matches_assemble. Qed.

(** ** A two-level data tree *)

Lemma fixture_xxblock_tree : wf_data_tree fixture_file fixture_bbt 0x26.
Proof.
  right; right; right. split; [done|]. eexists. split; [vm_compute; reflexivity|].
  split; [split_and!; [vm_compute; discriminate|vm_compute; reflexivity..]|]. split.
  - assert (Hx : wf_xblock fixture_file fixture_bbt 0x22).
    { split; [done|]. eexists. split; [vm_compute; reflexivity|].
      split; [split_and!; [vm_compute; discriminate|vm_compute; reflexivity..]|].
      vm_compute. repeat constructor. }
    replace (children _) with [0x22] by (vm_compute; reflexivity). apply Forall_singleton, Hx.
  - replace (children _) with [0x22] by (vm_compute; reflexivity).
    apply NoDup_cons. split; [|apply NoDup_singleton].
    by rewrite list_elem_of_singleton.
Qed.

Lemma streaming_equals_assembling_witness :
  ∃ leaves chunks, outcome (collect_leaf_data_bids fixture_file fixture_bbt 0x26) = Ok leaves ∧
    rmap (λ b, outcome (read_leaf_block_data fixture_file fixture_bbt b CryptNone)) leaves = Ok chunks ∧
    concat chunks = leaf_a ++ leaf_b.
Proof.
  apply streaming_equals_assembling; [apply fixture_bbt_wf|apply fixture_xxblock_tree|].
  vm_compute. reflexivity.
Defined.
