(* ===== verification/Subnode.v ===== *)
(** * Subnode trees: termination and agreement of the two lookups

    [read_subnode_data] searches the SL/SI tree and stops at the first entry with
    the NID; [find_subnode_entry] lists the whole tree first.  On a tree of
    well-formed blocks they find the same entry. *)

From S2P Require Import Prelude Telemetry PstError Crypt Header Btree Block BlockFacts Streaming.

Section subnode.
Context `{Crc : Crc32} (file : list byte) (bbt : bbt_index) (Hwf : bbt_wf bbt).

Abbreviation payload_of := (payload_of file bbt).

Lemma wrun_enter_subnode bid depth (v : gset Z) :
  wrun (enter_subnode_block bid depth) v =
  if MAX_SUBNODE_DEPTH <? depth then (Err (ResourceLimit (SubnodeDepth depth)), v)
  else if decide (bid ∈ v) then (Err (BtreeCycle bid), v) else (Ok (), {[bid]} ∪ v).
Proof. unfold wrun, enter_subnode_block. by repeat case_match. Qed.

(** The three walks share their opening: the block header of a visited block. *)
Definition sub_payload (bid depth : Z) (v : gset Z) : pres (list byte) :=
  if MAX_SUBNODE_DEPTH <? depth then Err (ResourceLimit (SubnodeDepth depth))
  else if decide (bid ∈ v) then Err (BtreeCycle bid) else payload_of bid.

Lemma sub_payload_never_panics bid depth v : never_panics (sub_payload bid depth v).
Proof. unfold sub_payload. repeat case_match; try done. apply payload_of_never_panics. Qed.

Definition entry_offs (stride : Z) (payload : list byte) : list Z :=
  entry_offsets stride (zlen payload) 8 (Z.to_nat (le_val payload 2 2)).

Lemma list_unfold fuel bid depth v payload :
  is_null bid = false → sub_payload bid depth v = Ok payload →
  wrun (list_subnode_entries_at file bbt (S fuel) bid depth) v =
  (let v := {[bid]} ∪ v in
   if zlen payload <? 8 then (Ok [], v)
   else if (le_val payload 0 1 =? 2) && (le_val payload 1 1 =? 0) then
     (rmap (sl_entry payload) (entry_offs 24 payload), v)
   else if (le_val payload 0 1 =? 2) && (le_val payload 1 1 =? 1) then
     wrun (mfold (λ results off,
              child_bid ← pure (le_at payload (off + 8) 8);
              child_entries ← list_subnode_entries_at file bbt fuel child_bid (depth + 1);
              mret (results ++ child_entries)) (entry_offs 16 payload) []) v
   else (Ok [], v)).
Proof.
  intros Hn. unfold sub_payload. destruct (MAX_SUBNODE_DEPTH <? depth) eqn:Hd; [done|].
  case_decide as Hv; [done|]. intros Hp. simpl. rewrite Hn.
  rewrite wrun_bind, wrun_enter_subnode, Hd, decide_False by done.
  rewrite wrun_bind, wrun_lift, outcome_read_payload, Hp by done. cbv beta iota zeta.
  destruct (zlen payload <? 8) eqn:Hl; [done|]. bool_to_Z.
  do 3 (rewrite wrun_bind, wrun_pure; run_reads; cbv beta iota).
  case_match; [done|]. by case_match.
Qed.

Lemma read_unfold fuel bid nid crypt depth v payload :
  is_null bid = false → sub_payload bid depth v = Ok payload →
  wrun (read_subnode_data_at file bbt (S fuel) bid nid crypt depth) v =
  (let v := {[bid]} ∪ v in
   if zlen payload <? 8 then (Err (DataTruncated 8 (zlen payload)), v)
   else if (le_val payload 0 1 =? 2) && (le_val payload 1 1 =? 0) then
     (outcome (find_in_sl file bbt payload nid crypt (entry_offs 24 payload)), v)
   else if (le_val payload 0 1 =? 2) && (le_val payload 1 1 =? 1) then
     wrun (find_in_si (λ child, read_subnode_data_at file bbt fuel child nid crypt (depth + 1))
             payload nid (entry_offs 16 payload)) v
   else (Err (InvalidBlockType 2 (le_val payload 0 1)), v)).
Proof.
  intros Hn. unfold sub_payload. destruct (MAX_SUBNODE_DEPTH <? depth) eqn:Hd; [done|].
  case_decide as Hv; [done|]. intros Hp. simpl. rewrite Hn.
  rewrite wrun_bind, wrun_enter_subnode, Hd, decide_False by done.
  rewrite wrun_bind, wrun_lift, outcome_read_payload, Hp by done. cbv beta iota zeta.
  destruct (zlen payload <? 8) eqn:Hl; [done|]. bool_to_Z.
  do 3 (rewrite wrun_bind, wrun_pure; run_reads; cbv beta iota).
  case_match; [done|]. by case_match.
Qed.

(** When the opening fails, both walks fail with its error. *)
Lemma list_fails fuel bid depth v :
  is_null bid = false → (∀ p, sub_payload bid depth v ≠ Ok p) →
  ∃ e v', wrun (list_subnode_entries_at file bbt (S fuel) bid depth) v = (Err e, v').
Proof.
  intros Hn Hf. pose proof (payload_of_never_panics file bbt bid) as Hpan.
  simpl. rewrite Hn, wrun_bind, wrun_enter_subnode. unfold sub_payload in Hf.
  destruct (MAX_SUBNODE_DEPTH <? depth); [eauto|]. case_decide; [eauto|].
  rewrite wrun_bind, wrun_lift, outcome_read_payload by done.
  destruct (payload_of bid) eqn:Hp; try done; [|eauto]. by destruct (Hf a).
Qed.

Lemma read_fails fuel bid nid crypt depth v :
  is_null bid = false → (∀ p, sub_payload bid depth v ≠ Ok p) →
  ∃ e v', wrun (read_subnode_data_at file bbt (S fuel) bid nid crypt depth) v = (Err e, v').
Proof.
  intros Hn Hf. pose proof (payload_of_never_panics file bbt bid) as Hpan.
  simpl. rewrite Hn, wrun_bind, wrun_enter_subnode. unfold sub_payload in Hf.
  destruct (MAX_SUBNODE_DEPTH <? depth); [eauto|]. case_decide; [eauto|].
  rewrite wrun_bind, wrun_lift, outcome_read_payload by done.
  destruct (payload_of bid) eqn:Hp; try done; [|eauto]. by destruct (Hf a).
Qed.

Lemma sub_payload_dec bid depth v :
  (∃ p, sub_payload bid depth v = Ok p) ∨ (∀ p, sub_payload bid depth v ≠ Ok p).
Proof. destruct (sub_payload bid depth v); [left; eauto|right; done..]. Qed.

Lemma sub_payload_depth bid depth v p : sub_payload bid depth v = Ok p → depth <= MAX_SUBNODE_DEPTH.
Proof. unfold sub_payload. case_match eqn:Hd; [done|]. bool_to_Z. done. Qed.

(** *** Panic freedom and termination *)

Lemma read_block_data_never_panics bid crypt : never_panics (outcome (read_block_data file bbt bid crypt)).
Proof. eapply holds_mono; [by apply read_block_data_bound|done]. Qed.

Lemma find_in_sl_never_panics payload nid crypt offs :
  (∀ off, off ∈ offs → 0 <= off ∧ off + 24 <= zlen payload) →
  never_panics (outcome (find_in_sl file bbt payload nid crypt offs)).
Proof.
  induction offs as [|off offs IH]; intros Hb; [done|]. simpl.
  destruct (Hb off) as [??]; [set_solver|].
  autorewrite with outcome. run_reads. autorewrite with outcome. run_reads.
  case_match; [apply read_block_data_never_panics|]. apply IH. intros. apply Hb. set_solver.
Qed.

Lemma find_in_si_never_panics rec payload nid offs :
  (∀ child v, never_panics (wrun (rec child) v).1) →
  (∀ off, off ∈ offs → 0 <= off ∧ off + 16 <= zlen payload) →
  ∀ v, never_panics (wrun (find_in_si rec payload nid offs) v).1.
Proof.
  intros Hrec. induction offs as [|off offs IH]; intros Hb v; [done|]. simpl.
  destruct (Hb off) as [??]; [set_solver|].
  do 2 (rewrite wrun_bind, wrun_pure; run_reads; cbv beta iota). rewrite wrun_catch.
  pose proof (Hrec (le_val payload (off + 8) 8) v) as Hr.
  destruct (wrun (rec _) v) as [[] v']; try done. case_match; [|done].
  apply IH. intros. apply Hb. set_solver.
Qed.

Lemma entry_offs_bound stride payload off :
  0 <= stride → off ∈ entry_offs stride payload → 0 <= off ∧ off + stride <= zlen payload.
Proof. intros Hs Ho. apply entry_offsets_bound in Ho; lia. Qed.

Lemma read_subnode_never_panics fuel bid nid crypt depth v :
  depth <= MAX_SUBNODE_DEPTH + 1 → MAX_SUBNODE_DEPTH + 2 <= Z.of_nat fuel + depth →
  never_panics (wrun (read_subnode_data_at file bbt fuel bid nid crypt depth) v).1.
Proof.
  revert bid depth v. induction fuel as [|fuel IH]; intros bid depth v Hd Hf; [lia|].
  destruct (is_null bid) eqn:Hn; [simpl; by rewrite Hn|].
  destruct (sub_payload_dec bid depth v) as [[p Hp]|Hp].
  - pose proof (sub_payload_depth _ _ _ _ Hp).
    rewrite (read_unfold _ _ _ _ _ _ _ Hn Hp). cbv zeta. repeat case_match; try done.
    + apply find_in_sl_never_panics. intros. by apply entry_offs_bound.
    + apply find_in_si_never_panics; [|intros; by apply entry_offs_bound].
      intros child v'. apply IH; lia.
  - destruct (read_fails fuel bid nid crypt depth v Hn Hp) as (e & v' & ->). done.
Qed.

Lemma sl_entry_ok payload off :
  0 <= off → off + 24 <= zlen payload →
  sl_entry payload off = Ok {| sub_nid := le_val payload off 8;
    sub_bid_data := le_val payload (off + 8) 8; sub_bid_sub := le_val payload (off + 16) 8 |}.
Proof. intros. unfold sl_entry. by run_reads. Qed.

Lemma list_subnode_never_panics fuel bid depth v :
  depth <= MAX_SUBNODE_DEPTH + 1 → MAX_SUBNODE_DEPTH + 2 <= Z.of_nat fuel + depth →
  never_panics (wrun (list_subnode_entries_at file bbt fuel bid depth) v).1.
Proof.
  revert bid depth v. induction fuel as [|fuel IH]; intros bid depth v Hd Hf; [lia|].
  destruct (is_null bid) eqn:Hn; [simpl; by rewrite Hn|].
  destruct (sub_payload_dec bid depth v) as [[p Hp]|Hp].
  - pose proof (sub_payload_depth _ _ _ _ Hp).
    rewrite (list_unfold _ _ _ _ _ Hn Hp). cbv zeta. repeat case_match; try done.
    + eapply holds_mono; [apply (holds_rmap _ (λ _, True))|done].
      intros off Ho. apply entry_offs_bound in Ho; [|lia]. by rewrite sl_entry_ok by lia.
    + apply mfold_walk_never_panics. intros b off v' Ho. apply entry_offs_bound in Ho; [|lia].
      rewrite wrun_bind, wrun_pure. run_reads. cbv beta iota.
      apply wrun_bind_never_panics. eapply holds_mono; [apply IH; lia|]. done.
  - destruct (list_fails fuel bid depth v Hn Hp) as (e & v' & ->). done.
Qed.

(** *** Listing and searching agree *)

(** Blocks that the format allows in a subnode tree, to the walk's depth: null,
    an SLBLOCK, or an SIBLOCK above such blocks. *)
Fixpoint strict_tree (fuel : nat) (bid : Z) : Prop :=
  match fuel with
  | O => True
  | S fuel =>
      is_null bid = true ∨
      ∀ p, payload_of bid = Ok p →
        8 <= zlen p ∧ le_val p 0 1 = 2 ∧
        (le_val p 1 1 = 0 ∨
         (le_val p 1 1 = 1 ∧
          Forall (λ off, strict_tree fuel (le_val p (off + 8) 8)) (entry_offs 16 p)))
  end.

Definition find_entry (nid : Z) (es : list subnode_entry) : option subnode_entry :=
  find (λ e, sub_nid e =? nid) es.

Lemma find_entry_app nid es1 es2 :
  find_entry nid (es1 ++ es2) =
  match find_entry nid es1 with Some e => Some e | None => find_entry nid es2 end.
Proof.
  unfold find_entry. induction es1 as [|e es1 IH]; simpl; [done|]. by destruct (sub_nid e =? nid).
Qed.

(** Only the search itself reports a missing subnode. *)
Lemma payload_not_missing bid nid : payload_of bid ≠ Err (SubnodeNotFound nid).
Proof. unfold BlockFacts.payload_of. by repeat case_match. Qed.

Lemma mfold_err {A B} (f : B → A → pres B) (P : pst_error → Prop) l b e :
  (∀ b x e, x ∈ l → f b x = Err e → P e) → mfold f l b = Err e → P e.
Proof.
  revert b. induction l as [|x l IH]; intros b Hf; [done|]. simpl.
  destruct (f b x) as [b'|e'| |] eqn:Hx; simpl; try done.
  - apply IH. intros. eapply Hf; [|done]. set_solver.
  - intros [= <-]. eapply Hf; [|done]. set_solver.
Qed.

Definition not_missing (e : pst_error) : Prop := is_subnode_not_found e = false.

Lemma payload_of_err bid e : payload_of bid = Err e → not_missing e.
Proof. unfold BlockFacts.payload_of. repeat case_match; by intros [= <-]. Qed.

Lemma xblock_step_err data crypt r off e :
  0 <= off → off + 8 <= zlen data →
  outcome (xblock_step file bbt data crypt r off) = Err e → not_missing e.
Proof.
  intros ??. unfold xblock_step. autorewrite with outcome. run_reads. autorewrite with outcome.
  rewrite outcome_read_payload by done.
  destruct (payload_of _) eqn:Hp; cbn; try done.
  - case_match; [|done]. by intros [= <-].
  - intros [= <-]. by eapply payload_of_err.
Qed.

Lemma read_xblock_data_err data crypt e :
  outcome (read_xblock_data file bbt data crypt) = Err e → not_missing e.
Proof.
  unfold read_xblock_data. case_match eqn:Hl; [by intros [= <-]|]. bool_to_Z.
  autorewrite with outcome. run_reads. autorewrite with outcome.
  unfold check_xblock_assemble_limit. case_match; [by intros [= <-]|]. rewrite bind_ok.
  autorewrite with outcome. apply mfold_err. intros b off e' Ho.
  apply entry_offsets_bound in Ho; [|lia]. apply xblock_step_err; lia.
Qed.

Lemma read_block_data_err bid crypt e :
  outcome (read_block_data file bbt bid crypt) = Err e → not_missing e.
Proof.
  unfold read_block_data. case_match; [done|]. autorewrite with outcome.
  rewrite outcome_read_payload by done.
  destruct (payload_of bid) as [p|e'| |] eqn:Hp;
    [rewrite bind_ok|rewrite bind_err; intros [= <-]; by eapply payload_of_err|discriminate..].
  destruct (negb _); [discriminate|].
  destruct (zlen p <? 2) eqn:Hl; [by intros [= <-]|]. bool_to_Z.
  autorewrite with outcome. run_reads. autorewrite with outcome. run_reads.
  case_match; [apply read_xblock_data_err|]. case_match; [|by intros [= <-]].
  unfold read_xxblock_data. case_match eqn:Hl2; [by intros [= <-]|]. bool_to_Z.
  autorewrite with outcome. run_reads. autorewrite with outcome.
  unfold check_xblock_assemble_limit. case_match; [by intros [= <-]|]. rewrite bind_ok.
  autorewrite with outcome. apply mfold_err. intros b off e' Ho.
  apply entry_offsets_bound in Ho; [|lia]. unfold xxblock_step. autorewrite with outcome.
  run_reads. autorewrite with outcome. rewrite outcome_read_payload by done.
  destruct (payload_of (le_val p off 8)) eqn:Hp';
    [rewrite bind_ok|rewrite bind_err; intros [= <-]; by eapply payload_of_err|discriminate..].
  autorewrite with outcome. destruct (outcome (read_xblock_data _ _ _ _)) eqn:Hx; cbn; try done.
  - case_match; [|done]. by intros [= <-].
  - intros [= <-]. by eapply read_xblock_data_err.
Qed.

(** What a search returns, given the listed entries. *)
Definition search_result (nid : Z) (crypt : crypt_method) (es : list subnode_entry) : pres (list byte) :=
  match find_entry nid es with
  | Some e => outcome (read_block_data file bbt (sub_bid_data e) crypt)
  | None => Err (SubnodeNotFound nid)
  end.

Lemma find_in_sl_spec payload nid crypt offs :
  (∀ off, off ∈ offs → 0 <= off ∧ off + 24 <= zlen payload) →
  ∃ es, rmap (sl_entry payload) offs = Ok es ∧
    outcome (find_in_sl file bbt payload nid crypt offs) = search_result nid crypt es.
Proof.
  induction offs as [|off offs IH]; intros Hb; [by exists []|].
  destruct (Hb off) as [??]; [set_solver|].
  destruct IH as (es & Hes & Hr); [intros; apply Hb; set_solver|].
  rewrite rmap_cons, sl_entry_ok, bind_ok, Hes, bind_ok by lia. eexists; split; [done|].
  simpl find_in_sl. autorewrite with outcome. run_reads. autorewrite with outcome. run_reads.
  unfold search_result, find_entry. simpl. by case_match.
Qed.

(** The agreement, for one walk state: a search either finds the entry, whatever
    the state it leaves, or misses and leaves the state of the listing. *)
Definition agrees (nid : Z) (crypt : crypt_method) (es : list subnode_entry)
    (run : pres (list byte) * gset Z) (v' : gset Z) : Prop :=
  match find_entry nid es with
  | Some e => run.1 = outcome (read_block_data file bbt (sub_bid_data e) crypt)
  | None => run = (Err (SubnodeNotFound nid), v')
  end.

Lemma find_in_si_spec (recl : Z → pwalk (gset Z) (list subnode_entry)) recr payload nid crypt offs :
  (∀ off, off ∈ offs → 0 <= off ∧ off + 16 <= zlen payload) →
  (∀ off v es v', off ∈ offs → wrun (recl (le_val payload (off + 8) 8)) v = (Ok es, v') →
     agrees nid crypt es (wrun (recr (le_val payload (off + 8) 8)) v) v') →
  ∀ acc v r v',
  wrun (mfold (λ results off,
      child_bid ← pure (le_at payload (off + 8) 8);
      child_entries ← recl child_bid;
      mret (results ++ child_entries)) offs acc : pwalk (gset Z) _) v = (Ok r, v') →
  ∃ es, r = acc ++ es ∧ agrees nid crypt es (wrun (find_in_si recr payload nid offs) v) v'.
Proof.
  induction offs as [|off offs IH]; intros Hb Hrec acc v r v'.
  { intros [= <- <-]. exists []. by rewrite app_nil_r. }
  destruct (Hb off) as [??]; [set_solver|].
  rewrite wrun_mfold_cons, wrun_bind, wrun_pure. run_reads. cbv beta iota. rewrite wrun_bind.
  destruct (wrun (recl _) v) as [[es1| | |] v1] eqn:Hl; try done. rewrite wrun_ret. intros Hrest.
  apply IH in Hrest as (es2 & -> & Hag); [|intros; apply Hb; set_solver|intros; eapply Hrec; [set_solver|done]].
  exists (es1 ++ es2). rewrite (assoc_L _). split; [done|].
  pose proof (Hrec off v es1 v1 ltac:(set_solver) Hl) as Hc.
  simpl find_in_si. do 2 (rewrite wrun_bind, wrun_pure; run_reads; cbv beta iota). rewrite wrun_catch.
  unfold agrees in *. rewrite find_entry_app.
  destruct (find_entry nid es1) as [e|].
  - destruct (wrun (recr _) v) as [o v2]. simpl in Hc. subst o.
    destruct (outcome (read_block_data file bbt (sub_bid_data e) crypt)) eqn:Hd; try done.
    apply read_block_data_err in Hd. unfold not_missing in Hd. by rewrite Hd.
  - rewrite Hc. simpl. done.
Qed.

Lemma list_read_agree fuel bid nid crypt depth v es v' :
  strict_tree fuel bid →
  wrun (list_subnode_entries_at file bbt fuel bid depth) v = (Ok es, v') →
  agrees nid crypt es (wrun (read_subnode_data_at file bbt fuel bid nid crypt depth) v) v'.
Proof.
  revert bid depth v es v'. induction fuel as [|fuel IH]; intros bid depth v es v' Hst; [done|].
  destruct (is_null bid) eqn:Hn.
  { simpl. rewrite Hn. by intros [= <- <-]. }
  destruct Hst as [?|Hst]; [congruence|].
  destruct (sub_payload_dec bid depth v) as [[p Hp]|Hp].
  2:{ destruct (list_fails fuel bid depth v Hn Hp) as (e & v'' & ->). done. }
  rewrite (list_unfold _ _ _ _ _ Hn Hp), (read_unfold _ _ _ _ _ _ _ Hn Hp). cbv zeta.
  assert (Hpay : payload_of bid = Ok p).
  { unfold sub_payload in Hp. by repeat (case_match; try done). }
  destruct (Hst p Hpay) as (Hlen & H0 & Hlv). rewrite (proj2 (Z.ltb_ge _ _)), H0 by done.
  destruct Hlv as [H1|[H1 Hch]]; rewrite H1; simpl andb; cbv iota.
  - destruct (find_in_sl_spec p nid crypt (entry_offs 24 p)) as (es' & Hes & Hr).
    { intros. by apply entry_offs_bound. }
    rewrite Hes, Hr. intros [= <- <-]. unfold agrees, search_result. by case_match.
  - intros Hrun. eapply find_in_si_spec in Hrun as (es' & -> & Hag); [exact Hag| |].
    + intros. by apply entry_offs_bound.
    + intros off v0 es0 v0' Ho. apply IH. by eapply Forall_forall in Hch.
Qed.

(** *** The public readers *)

Lemma list_subnode_entries_never_panics bid : never_panics (outcome (list_subnode_entries file bbt bid)).
Proof.
  unfold list_subnode_entries. rewrite outcome_run_fresh.
  apply list_subnode_never_panics; unfold MAX_SUBNODE_DEPTH, subnode_fuel; lia.
Qed.

Lemma read_subnode_data_never_panics bid nid crypt :
  never_panics (outcome (read_subnode_data file bbt bid nid crypt)).
Proof.
  unfold read_subnode_data. rewrite outcome_run_fresh.
  apply read_subnode_never_panics; unfold MAX_SUBNODE_DEPTH, subnode_fuel; lia.
Qed.

Lemma find_subnode_entry_never_panics bid nid : never_panics (outcome (find_subnode_entry file bbt bid nid)).
Proof.
  unfold find_subnode_entry. autorewrite with outcome. apply holds_bind.
  eapply holds_mono; [apply list_subnode_entries_never_panics|done].
Qed.

Lemma collect_leaf_data_bids_never_panics bid : never_panics (outcome (collect_leaf_data_bids file bbt bid)).
Proof.
  unfold collect_leaf_data_bids. rewrite outcome_run_fresh.
  apply collect_never_panics; unfold MAX_SUBNODE_DEPTH, subnode_fuel; try done; lia.
Qed.

Lemma read_leaf_block_data_never_panics bid crypt :
  never_panics (outcome (read_leaf_block_data file bbt bid crypt)).
Proof.
  unfold read_leaf_block_data. destruct (_ || _); [done|]. autorewrite with outcome.
  rewrite outcome_read_payload by done. apply holds_bind.
  eapply holds_mono; [apply payload_of_never_panics|done].
Qed.
End subnode.

Section properties.
Context `{Crc : Crc32}.

(** C37 The block readers are total: whatever the blocks contain, assembling a data
    tree returns at most 64 MiB or an error, and the length hint, the leaf listing,
    the leaf reader and the three subnode walks return a value or an error; none
    panics, and the depth bound ends every recursion. *)
Theorem block_readers_total file bbt bid nid crypt (Hwf : bbt_wf bbt) :
  holds (outcome (read_block_data file bbt bid crypt)) (λ d, zlen d <= MAX_XBLOCK_ASSEMBLE) ∧
  never_panics (outcome (block_payload_len_hint file bbt bid crypt)) ∧
  never_panics (outcome (collect_leaf_data_bids file bbt bid)) ∧
  never_panics (outcome (read_leaf_block_data file bbt bid crypt)) ∧
  never_panics (outcome (read_subnode_data file bbt bid nid crypt)) ∧
  never_panics (outcome (list_subnode_entries file bbt bid)) ∧
  never_panics (outcome (find_subnode_entry file bbt bid nid)).
Proof.
  split_and!; [by apply read_block_data_bound|rewrite outcome_len_hint by done; apply len_hint_never_panics|
    by apply collect_leaf_data_bids_never_panics|by apply read_leaf_block_data_never_panics|
    by apply read_subnode_data_never_panics|by apply list_subnode_entries_never_panics|
    by apply find_subnode_entry_never_panics].
Qed.

(** Looking a subnode up by listing the tree ([find_subnode_entry], the table
    loader's path) and by searching it ([read_subnode_data]) agree: when the
    listing succeeds on a tree of subnode blocks, the search returns the data of
    the entry the listing finds, or reports the NID missing. *)
Theorem find_agrees_with_search file bbt sub_bid nid crypt found
    (Hwf : bbt_wf bbt) (Htree : strict_tree file bbt subnode_fuel sub_bid)
    (Hfind : outcome (find_subnode_entry file bbt sub_bid nid) = Ok found) :
  outcome (read_subnode_data file bbt sub_bid nid crypt) =
  match found with
  | Some e => outcome (read_block_data file bbt (sub_bid_data e) crypt)
  | None => Err (SubnodeNotFound nid)
  end.
Proof.
  unfold find_subnode_entry, list_subnode_entries, read_subnode_data in *.
  rewrite outcome_run_fresh. autorewrite with outcome in Hfind.
  destruct (wrun (list_subnode_entries_at _ _ _ _ _) ∅) as [[es| | |] v'] eqn:Hl; try done.
  injection Hfind as <-. apply (list_read_agree _ _ Hwf _ _ nid crypt) in Hl; [|done].
  unfold agrees in Hl. change (find _ es) with (find_entry nid es). case_match; [done|]. by rewrite Hl.
Qed.
End properties.

Lemma find_agrees_with_search_witness :
  outcome (read_subnode_data fixture_file fixture_bbt 0x36 0x3F CryptNone) =
  outcome (read_block_data fixture_file fixture_bbt 0x26 CryptNone).
Proof.
  apply (find_agrees_with_search fixture_file fixture_bbt 0x36 0x3F CryptNone
           (Some {| sub_nid := 0x3F; sub_bid_data := 0x26; sub_bid_sub := 0 |})).
  - apply fixture_bbt_wf.
  - right. intros p [= <-]. split; [vm_compute; discriminate|]. split; [vm_compute; reflexivity|].
    right. split; [vm_compute; reflexivity|].
    replace (entry_offs 16 _) with [8] by (vm_compute; reflexivity). apply Forall_singleton.
    right. intros p. replace (le_val _ _ _) with 0x32 by (vm_compute; reflexivity).
    intros [= <-]. split; [vm_compute; discriminate|]. split; [vm_compute; reflexivity|].
    left. vm_compute. reflexivity.
  - vm_compute. reflexivity.
Defined.

Lemma block_readers_total_witness :
  holds (outcome (read_block_data fixture_file fixture_bbt 0x26 CryptPermute)) (λ d, zlen d <= MAX_XBLOCK_ASSEMBLE).
Proof. exact (proj1 (block_readers_total fixture_file fixture_bbt 0x26 0x3F CryptPermute fixture_bbt_wf)). Defined.
