(* ===== verification/Heap.v ===== *)
(** * Heap-on-Node (pst-reader/src/ltp/hn.rs)

    A node's data is a heap of pages of [block_size] bytes; an allocation is
    addressed by a 32-bit heap ID that names a page and a 1-based slot of the
    page's allocation map.  [get] is shown never to panic and to return exactly
    the slot of the map ([allocation]). *)

From S2P Require Import Prelude PstError.

(** [Hid::hid_type], [hid_index], [hid_block_index], [is_null] *)
Definition hid_type (hid : Z) : Z := Z.land hid 0x1F.
Definition hid_index (hid : Z) : Z := Z.land (Z.shiftr hid 5) 0x7FF.
Definition hid_block_index (hid : Z) : Z := Z.land (Z.shiftr hid 16) 0xFFFF.
Definition hid_is_null (hid : Z) : bool := hid =? 0.

Record hn_header := { ib_hnpm : Z; b_sig : Z; b_client_sig : Z; hid_user_root : Z; rgb_fill_level : Z }.
Record heap := { heap_data : list byte; block_size : Z; hn : hn_header }.

(** [Heap::parse] *)
Definition heap_parse (data : list byte) (bs : Z) : pres heap :=
  if zlen data <? 12 then Err (DataTruncated 12 (zlen data))
  else
    hnpm ← le_at data 0 2;
    sig ← index data 2;
    client ← index data 3;
    user_root ← le_at data 4 4;
    fill ← le_at data 8 4;
    if negb (sig =? 0xEC) then Err (InvalidHnSignature sig)
    else Ok {| heap_data := data; block_size := bs;
               hn := {| ib_hnpm := hnpm; b_sig := sig; b_client_sig := client;
                        hid_user_root := user_root; rgb_fill_level := fill |} |}.

(** The part of [Heap::get] after the page's bytes and page-map offset are known. *)
Definition get_in_block (hid : Z) (block_data : list byte) (hnpm_offset : Z) : pres (list byte) :=
  let alloc_index := hid_index hid in
  if zlen block_data <? hnpm_offset + 2 then Err (DataTruncated (hnpm_offset + 2) (zlen block_data))
  else if zlen block_data <? hnpm_offset + 4 then Err (DataTruncated (hnpm_offset + 4) (zlen block_data))
  else
    c_alloc ← le_at block_data hnpm_offset 2;
    _ ← le_at block_data (hnpm_offset + 2) 2;
    if c_alloc <? alloc_index then Err (InvalidHid hid)
    else
      let rgib_start := hnpm_offset + 4 in
      let offset_a := rgib_start + (alloc_index - 1) * 2 in
      let offset_b := rgib_start + alloc_index * 2 in
      if zlen block_data <? offset_b + 2 then Err (DataTruncated (offset_b + 2) (zlen block_data))
      else
        start ← le_at block_data offset_a 2;
        stop ← le_at block_data offset_b 2;
        if (stop <? start) || (zlen block_data <? stop)
        then Err (DataTruncated stop (zlen block_data))
        else slice block_data start stop.

(** [Heap::get] *)
Definition heap_get (h : heap) (hid : Z) : pres (list byte) :=
  if hid_is_null hid then Ok []
  else if negb (hid_type hid =? 0) then Err (InvalidHid hid)
  else if hid_index hid =? 0 then Err (InvalidHid hid)
  else
    let block_start := hid_block_index hid * block_size h in
    if zlen (heap_data h) <=? block_start then Err (InvalidHid hid)
    else
      let block_end := Z.min (block_start + block_size h) (zlen (heap_data h)) in
      block_data ← slice (heap_data h) block_start block_end;
      hnpm_offset ←
        (if hid_block_index hid =? 0 then Ok (ib_hnpm (hn h))
         else if zlen block_data <? 2 then Err (DataTruncated 2 (zlen block_data))
         else le_at block_data 0 2);
      get_in_block hid block_data hnpm_offset.

(** ** What a heap ID addresses *)

(** The page of a heap, and the offset of its allocation map. *)
Definition page_bytes (h : heap) (page : Z) : list byte :=
  sub (heap_data h) (page * block_size h)
    (Z.min (page * block_size h + block_size h) (zlen (heap_data h)) - page * block_size h).
Definition page_map (h : heap) (page : Z) : Z :=
  if page =? 0 then ib_hnpm (hn h) else le_val (page_bytes h page) 0 2.

(** The bytes of slot [i] of page [page]: between the map's entries [i-1] and [i]. *)
Definition slot_start (h : heap) (page i : Z) : Z := le_val (page_bytes h page) (page_map h page + 4 + i * 2) 2.
Definition allocation (h : heap) (page i : Z) : list byte :=
  sub (page_bytes h page) (slot_start h page (i - 1)) (slot_start h page i - slot_start h page (i - 1)).

(** A slot is allocated when the map lists it and its bytes lie inside the page. *)
Record allocated (h : heap) (page i : Z) : Prop := {
  al_page : page * block_size h < zlen (heap_data h);
  al_index : 1 <= i <= le_val (page_bytes h page) (page_map h page) 2;
  al_map : page_map h page + 4 + i * 2 + 2 <= zlen (page_bytes h page);
  al_order : slot_start h page (i - 1) <= slot_start h page i;
  al_end : slot_start h page i <= zlen (page_bytes h page) }.

Record heap_wf (h : heap) : Prop := {
  wf_block_size : 12 <= block_size h;
  wf_hnpm : 0 <= ib_hnpm (hn h) < 2 ^ 16 }.

Lemma hid_type_range hid : 0 <= hid_type hid < 32.
Proof. unfold hid_type. change 0x1F with (Z.ones 5). rewrite Z.land_ones by lia. apply Z.mod_pos_bound. lia. Qed.

Lemma hid_index_range hid : 0 <= hid_index hid < 2048.
Proof. unfold hid_index. change 0x7FF with (Z.ones 11). rewrite Z.land_ones by lia. apply Z.mod_pos_bound. lia. Qed.

Lemma hid_block_index_range hid : 0 <= hid_block_index hid < 65536.
Proof. unfold hid_block_index. change 0xFFFF with (Z.ones 16). rewrite Z.land_ones by lia. apply Z.mod_pos_bound. lia. Qed.

Lemma heap_parse_inv data bs h :
  heap_parse data bs = Ok h →
  12 <= zlen data ∧ heap_data h = data ∧ block_size h = bs ∧
  hid_user_root (hn h) = le_val data 4 4 ∧ ib_hnpm (hn h) = le_val data 0 2 ∧ b_sig (hn h) = 0xEC.
Proof.
  unfold heap_parse. case_match eqn:Hl; [done|]. bool_to_Z. run_reads.
  case_match eqn:Hs; [done|]. bool_to_Z. intros [= <-]. done.
Qed.

Lemma heap_parse_wf data bs h : 12 <= bs → heap_parse data bs = Ok h → heap_wf h.
Proof.
  intros Hbs (? & ? & Hb & ? & Hi & _)%heap_parse_inv.
  constructor; [lia|]. rewrite Hi. by apply le_val_range.
Qed.

Lemma heap_parse_never_panics data bs : never_panics (heap_parse data bs).
Proof. unfold heap_parse. case_match eqn:Hl; [done|]. bool_to_Z. run_reads. by case_match. Qed.

Section get.
Context (h : heap) (Hwf : heap_wf h).

Lemma zlen_page_bytes page :
  0 <= page → page * block_size h < zlen (heap_data h) →
  zlen (page_bytes h page) = Z.min (block_size h) (zlen (heap_data h) - page * block_size h).
Proof. intros. destruct Hwf. unfold page_bytes. rewrite zlen_sub; nia. Qed.

Lemma page_map_range page : 0 <= page_map h page < 2 ^ 16.
Proof. destruct Hwf. unfold page_map. case_match; [done|]. by apply le_val_range. Qed.

(** [get] on a heap ID whose page exists is the map lookup in that page. *)
Lemma heap_get_unfold hid :
  hid_is_null hid = false → hid_type hid = 0 → hid_index hid ≠ 0 →
  hid_block_index hid * block_size h < zlen (heap_data h) →
  heap_get h hid = (if negb (hid_block_index hid =? 0) && (zlen (page_bytes h (hid_block_index hid)) <? 2)
                    then Err (DataTruncated 2 (zlen (page_bytes h (hid_block_index hid))))
                    else get_in_block hid (page_bytes h (hid_block_index hid)) (page_map h (hid_block_index hid))).
Proof.
  intros Hn Ht Hi Hp. pose proof (hid_block_index_range hid). destruct Hwf.
  unfold heap_get. rewrite Hn, Ht, (proj2 (Z.eqb_neq (hid_index hid) 0) Hi), (proj2 (Z.leb_gt _ _) Hp). cbn [negb]. cbv iota zeta.
  rewrite slice_ok by nia. rewrite bind_ok. change (sub _ _ _) with (page_bytes h (hid_block_index hid)).
  unfold page_map. destruct (hid_block_index hid =? 0); [by rewrite bind_ok|]. cbn [negb andb].
  destruct (_ <? 2) eqn:Hl; [by rewrite bind_err|]. bool_to_Z. by run_reads.
Qed.

Lemma get_in_block_spec hid page :
  page = hid_block_index hid → hid_index hid ≠ 0 → page * block_size h < zlen (heap_data h) →
  holds (get_in_block hid (page_bytes h page) (page_map h page))
    (λ d, allocated h page (hid_index hid) ∧ d = allocation h page (hid_index hid)).
Proof.
  intros Hpage Hi Hp. pose proof (hid_index_range hid). pose proof (page_map_range page).
  unfold get_in_block. destruct (zlen (page_bytes h page) <? page_map h page + 2) eqn:Hc1; [done|].
  destruct (zlen (page_bytes h page) <? page_map h page + 4) eqn:Hc2; [done|]. bool_to_Z. run_reads.
  destruct (le_val (page_bytes h page) (page_map h page) 2 <? hid_index hid) eqn:Hc3; [done|]. cbv zeta.
  destruct (zlen (page_bytes h page) <? page_map h page + 4 + hid_index hid * 2 + 2) eqn:Hc4; [done|]. bool_to_Z. run_reads.
  assert (Ha : le_val (page_bytes h page) (page_map h page + 4 + (hid_index hid - 1) * 2) 2
               = slot_start h page (hid_index hid - 1)) by done.
  assert (Hb : le_val (page_bytes h page) (page_map h page + 4 + hid_index hid * 2) 2
               = slot_start h page (hid_index hid)) by done.
  assert (0 <= slot_start h page (hid_index hid - 1)) by apply (le_val_range _ _ 2 ltac:(lia)).
  rewrite Ha, Hb. destruct (_ || _) eqn:Hc; [done|]. bool_to_Z. run_reads. split; [|done].
  constructor; lia.
Qed.

Lemma get_in_block_complete hid page :
  page = hid_block_index hid → allocated h page (hid_index hid) →
  get_in_block hid (page_bytes h page) (page_map h page) = Ok (allocation h page (hid_index hid)).
Proof.
  intros Hpage [Hal Hidx Hmap Hord Hend]. pose proof (page_map_range page).
  unfold get_in_block. rewrite !(proj2 (Z.ltb_ge _ _)) by lia. run_reads.
  rewrite (proj2 (Z.ltb_ge _ _)) by lia.
  change (le_val (page_bytes h page) (page_map h page + 4 + (hid_index hid - 1) * 2) 2)
    with (slot_start h page (hid_index hid - 1)).
  change (le_val (page_bytes h page) (page_map h page + 4 + hid_index hid * 2) 2)
    with (slot_start h page (hid_index hid)).
  assert (0 <= slot_start h page (hid_index hid - 1)) by apply (le_val_range _ _ 2 ltac:(lia)).
  rewrite !(proj2 (Z.ltb_ge _ _)) by lia. cbn [orb]. cbv iota. run_reads. done.
Qed.

Lemma heap_get_never_panics hid : never_panics (heap_get h hid).
Proof.
  destruct (hid_is_null hid) eqn:Hn; [unfold heap_get; by rewrite Hn|].
  destruct (Z.eqb_spec (hid_type hid) 0) as [Ht|Ht];
    [|unfold heap_get; by rewrite Hn, (proj2 (Z.eqb_neq (hid_type hid) 0) Ht)].
  destruct (Z.eqb_spec (hid_index hid) 0) as [Hi|Hi];
    [unfold heap_get; by rewrite Hn, Ht, Hi|].
  destruct (Z.leb_spec (zlen (heap_data h)) (hid_block_index hid * block_size h)) as [Hp|Hp].
  { unfold heap_get. by rewrite Hn, Ht, (proj2 (Z.eqb_neq (hid_index hid) 0) Hi), (proj2 (Z.leb_le _ _) Hp). }
  rewrite heap_get_unfold by done. case_match; [done|].
  eapply holds_mono; [by apply get_in_block_spec|done].
Qed.

(** [get] returns exactly the allocated slots. *)
Lemma heap_get_ok hid d :
  heap_get h hid = Ok d ↔
  (hid = 0 ∧ d = []) ∨
  (hid ≠ 0 ∧ hid_type hid = 0 ∧ allocated h (hid_block_index hid) (hid_index hid) ∧
   d = allocation h (hid_block_index hid) (hid_index hid)).
Proof.
  destruct (Z.eqb_spec hid 0) as [->|Hn0]; [simpl; split; [intros [= <-]; auto|naive_solver]|].
  assert (Hn : hid_is_null hid = false) by (by apply Z.eqb_neq).
  destruct (Z.eqb_spec (hid_type hid) 0) as [Ht|Ht].
  2:{ unfold heap_get. rewrite Hn, (proj2 (Z.eqb_neq (hid_type hid) 0) Ht). naive_solver. }
  destruct (Z.eqb_spec (hid_index hid) 0) as [Hi|Hi].
  { unfold heap_get. rewrite Hn, Ht, Hi. simpl. split; [done|].
    intros [?|(_ & _ & [] & _)]; [naive_solver|lia]. }
  destruct (Z.leb_spec (zlen (heap_data h)) (hid_block_index hid * block_size h)) as [Hp|Hp].
  { unfold heap_get. rewrite Hn, Ht, (proj2 (Z.eqb_neq (hid_index hid) 0) Hi), (proj2 (Z.leb_le _ _) Hp).
    split; [done|]. intros [?|(_ & _ & [] & _)]; [naive_solver|lia]. }
  rewrite heap_get_unfold by done.
  pose proof (get_in_block_spec hid _ eq_refl Hi Hp) as Hs. split.
  - destruct (_ && _); [discriminate|]. intros Hd. rewrite Hd in Hs. right. naive_solver.
  - intros [?|(_ & _ & Hal & ->)]; [naive_solver|]. pose proof (get_in_block_complete hid _ eq_refl Hal) as Hg.
    rewrite Hg. destruct Hal as [_ _ Hmap _ _]. pose proof (page_map_range (hid_block_index hid)).
    pose proof (hid_index_range hid).
    by rewrite (proj2 (Z.ltb_ge _ _)), andb_false_r by lia.
Qed.
End get.

(** A parsed heap resolves heap IDs safely: [get] never panics on any bytes,
    and returns [d] exactly when the ID is null and [d] is empty, or the ID's slot
    is allocated in its page (inside the page's map, ordered and inside the page)
    and [d] is the slot's bytes. *)
Theorem heap_get_spec data bs h hid (Hbs : 12 <= bs) (Hparse : heap_parse data bs = Ok h) :
  never_panics (heap_get h hid) ∧
  ∀ d, heap_get h hid = Ok d ↔
    (hid = 0 ∧ d = []) ∨
    (hid ≠ 0 ∧ hid_type hid = 0 ∧ allocated h (hid_block_index hid) (hid_index hid) ∧
     d = allocation h (hid_block_index hid) (hid_index hid)).
Proof.
  apply heap_parse_wf in Hparse; [|done].
  split; [by apply heap_get_never_panics|intros d; by apply heap_get_ok].
Qed.

(** A one-page heap with the allocations "AB" and "C". *)
Definition sample_page : list byte :=
  map byte.of_Z [16; 0; 0xEC; 0x6C; 0x20; 0; 0; 0; 0; 0; 0; 0; 65; 66; 67; 0;
                 2; 0; 0; 0; 12; 0; 14; 0; 15; 0].
Definition sample_heap : heap :=
  {| heap_data := sample_page; block_size := 26;
     hn := {| ib_hnpm := 16; b_sig := 0xEC; b_client_sig := 0x6C; hid_user_root := 0x20; rgb_fill_level := 0 |} |}.

Lemma heap_get_spec_witness :
  heap_parse sample_page 26 = Ok sample_heap ∧
  allocated sample_heap 0 2 ∧ allocation sample_heap 0 2 = [Byte.x43].
Proof.
  assert (Hp : heap_parse sample_page 26 = Ok sample_heap) by (vm_compute; reflexivity).
  split; [exact Hp|].
  destruct (heap_get_spec sample_page 26 sample_heap 0x40 ltac:(lia) Hp) as [_ Hg].
  destruct (proj1 (Hg [Byte.x43]) ltac:(vm_compute; reflexivity)) as [[H0 _]|(_ & _ & Ha & Hd)].
  - discriminate H0.
  - split; [exact Ha|]. vm_compute. reflexivity.
Defined.
