(* ===== verification/Bth.v ===== *)
(** * BTree-on-Heap (pst-reader/src/ltp/bth.rs)

    A B-tree inside a heap: [collect_records] lists its leaf records, [lookup]
    descends to one leaf.  Both are structurally recursive on the level byte.
    On a tree of leaves only, [lookup] is the first match of the listing; below
    an index level it compares keys as byte strings, not as the little-endian
    integers they encode, and a key present in the listing can be missed. *)

From S2P Require Import Prelude PstError Heap.

Record bth_header := { b_type : Z; cb_key : Z; cb_ent : Z; b_idx_levels : Z; hid_root : Z }.
Record bth_record := { rec_key : list byte; rec_data : list byte }.

(** The lexicographic order of byte slices: [key <= search_key] on [&[u8]]. *)
Fixpoint bytes_leb (a b : list byte) : bool :=
  match a, b with
  | [], _ => true
  | _ :: _, [] => false
  | x :: a, y :: b => (u8 x <? u8 y) || ((u8 x =? u8 y) && bytes_leb a b)
  end.

(** The offsets of [for i in 0..count { let offset = i * record_size; .. }]. *)
Definition record_offsets (record_size : Z) (count : nat) : list Z :=
  map (λ i, Z.of_nat i * record_size) (seq 0 count).

(** [read_bth_header] *)
Definition read_bth_header (h : heap) (hid : Z) : pres bth_header :=
  data ← heap_get h hid;
  if zlen data <? 8 then Err (DataTruncated 8 (zlen data))
  else
    ty ← index data 0;
    if negb (ty =? 0xB5) then Err (InvalidBthType ty)
    else
      ck ← index data 1;
      ce ← index data 2;
      lv ← index data 3;
      rt ← le_at data 4 4;
      Ok {| b_type := ty; cb_key := ck; cb_ent := ce; b_idx_levels := lv; hid_root := rt |}.

Section bth.
Context (h : heap) (header : bth_header).

(** The leaf record at an offset of a leaf's bytes. *)
Definition leaf_record (data : list byte) (offset : Z) : pres bth_record :=
  key ← slice data offset (offset + cb_key header);
  value ← slice data (offset + cb_key header) (offset + (cb_key header + cb_ent header));
  Ok {| rec_key := key; rec_data := value |}.

(** [collect_level]; [level] is a [u8] that decreases to 0. *)
Fixpoint collect_level (level : nat) (hid : Z) (records : list bth_record) : pres (list bth_record) :=
  data ← heap_get h hid;
  match level with
  | O =>
      let record_size := cb_key header + cb_ent header in
      if record_size =? 0 then Ok records
      else
        mfold (λ records offset, r ← leaf_record data offset; Ok (records ++ [r]))
          (entry_offsets record_size (zlen data) 0 (Z.to_nat (zlen data / record_size))) records
  | S level =>
      let record_size := cb_key header + 4 in
      if record_size =? 0 then Ok records
      else
        mfold (λ records offset,
            hid_child ← le_at data (offset + cb_key header) 4;
            collect_level level hid_child records)
          (entry_offsets record_size (zlen data) 0 (Z.to_nat (zlen data / record_size))) records
  end.

(** [collect_records] *)
Definition collect_records : pres (list bth_record) :=
  if hid_is_null (hid_root header) then Ok []
  else collect_level (Z.to_nat (b_idx_levels header)) (hid_root header) [].

(** The linear scan of a leaf. *)
Fixpoint scan_leaf (data search_key : list byte) (offsets : list Z) : pres (option (list byte)) :=
  match offsets with
  | [] => Ok None
  | offset :: offsets' =>
      key ← slice data offset (offset + cb_key header);
      if decide (key = search_key) then
        let value_start := offset + cb_key header in
        v ← slice data value_start (value_start + cb_ent header); Ok (Some v)
      else scan_leaf data search_key offsets'
  end.

(** The scan of an index node: the last child whose key is at most the search key. *)
Fixpoint scan_index (data search_key : list byte) (offsets : list Z) (best_hid : option Z) : pres (option Z) :=
  match offsets with
  | [] => Ok best_hid
  | offset :: offsets' =>
      key ← slice data offset (offset + cb_key header);
      child_hid ← le_at data (offset + cb_key header) 4;
      if bytes_leb key search_key then scan_index data search_key offsets' (Some child_hid)
      else Ok best_hid
  end.

(** [lookup_level] *)
Fixpoint lookup_level (level : nat) (hid : Z) (search_key : list byte) : pres (option (list byte)) :=
  data ← heap_get h hid;
  match level with
  | O =>
      let record_size := cb_key header + cb_ent header in
      if record_size =? 0 then Ok None
      else scan_leaf data search_key (record_offsets record_size (Z.to_nat (zlen data / record_size)))
  | S level =>
      let record_size := cb_key header + 4 in
      if record_size =? 0 then Ok None
      else
        best_hid ← scan_index data search_key (record_offsets record_size (Z.to_nat (zlen data / record_size))) None;
        match best_hid with
        | Some child => lookup_level level child search_key
        | None => Ok None
        end
  end.

(** [lookup] *)
Definition bth_lookup (search_key : list byte) : pres (option (list byte)) :=
  if hid_is_null (hid_root header) then Ok None
  else lookup_level (Z.to_nat (b_idx_levels header)) (hid_root header) search_key.
End bth.

(** A header's fields are [u8] values. *)
Record bth_header_wf (hdr : bth_header) : Prop := {
  wf_cb_key : 0 <= cb_key hdr < 256;
  wf_cb_ent : 0 <= cb_ent hdr < 256;
  wf_levels : 0 <= b_idx_levels hdr < 256 }.

Lemma read_bth_header_spec h hid :
  heap_wf h → holds (read_bth_header h hid) bth_header_wf.
Proof.
  intros Hwf. unfold read_bth_header. apply holds_bind.
  eapply holds_mono; [by apply heap_get_never_panics|]. intros data _.
  case_match eqn:Hl; [done|]. bool_to_Z. repeat holds_step. constructor; cbn; lia.
Qed.

(** ** Offsets of the records *)

Lemma record_offsets_bound rs n len off :
  0 < rs → 0 <= len → off ∈ record_offsets rs n → Z.of_nat n <= len / rs → 0 <= off ∧ off + rs <= len.
Proof.
  intros Hrs Hlen Ho Hn. apply list_elem_of_In, in_map_iff in Ho as (i & <- & Hi%in_seq).
  pose proof (Z.mul_div_le len rs Hrs). nia.
Qed.

(** The [break] of the collecting loop is never taken: both loops visit the same offsets. *)
Lemma entry_offsets_full rs len off n :
  0 < rs → off + Z.of_nat n * rs <= len →
  entry_offsets rs len off n = map (λ i, off + Z.of_nat i * rs) (seq 0 n).
Proof.
  intros Hrs. revert off. induction n as [|n IH]; intros off Hlen; [done|].
  cbn [entry_offsets seq map]. rewrite (proj2 (Z.ltb_ge _ _)) by nia. f_equal; [lia|].
  rewrite IH by lia. rewrite <-seq_shift, map_map. apply map_ext. intros i. lia.
Qed.

Lemma entry_offsets_records rs len :
  0 < rs → 0 <= len →
  entry_offsets rs len 0 (Z.to_nat (len / rs)) = record_offsets rs (Z.to_nat (len / rs)).
Proof.
  intros Hrs Hlen. pose proof (Z.mul_div_le len rs Hrs). pose proof (Z.div_pos len rs Hlen Hrs).
  rewrite entry_offsets_full by nia. apply map_ext. intros i. lia.
Qed.

Section facts.
Context (h : heap) (header : bth_header) (Hh : heap_wf h) (Hhdr : bth_header_wf header).

Definition leaf_at (data : list byte) (offset : Z) : bth_record :=
  {| rec_key := sub data offset (cb_key header);
     rec_data := sub data (offset + cb_key header) (cb_ent header) |}.

Lemma leaf_record_ok data offset :
  0 <= offset → offset + (cb_key header + cb_ent header) <= zlen data →
  leaf_record header data offset = Ok (leaf_at data offset).
Proof using Hhdr.
  intros ??. destruct Hhdr. unfold leaf_record, leaf_at. run_reads. do 3 f_equal; f_equal; lia.
Qed.

Lemma collect_level_never_panics level hid records :
  never_panics (collect_level h header level hid records).
Proof.
  destruct Hhdr. revert hid records. induction level as [|level IH]; intros hid records;
    cbn [collect_level]; apply holds_bind; (eapply holds_mono; [by apply heap_get_never_panics|]);
    intros data _; destruct (_ =? 0) eqn:Hz; [done| |done|]; bool_to_Z; apply holds_mfold;
    try done; intros b off Ho _; apply entry_offsets_bound in Ho; try lia.
  - by rewrite leaf_record_ok by lia.
  - run_reads. apply IH.
Qed.

Lemma collect_records_never_panics : never_panics (collect_records h header).
Proof. unfold collect_records. case_match; [done|apply collect_level_never_panics]. Qed.

Lemma scan_leaf_ok data key offs :
  (∀ off, off ∈ offs → 0 <= off ∧ off + (cb_key header + cb_ent header) <= zlen data) →
  scan_leaf header data key offs =
  Ok (rec_data <$> find (λ r, bool_decide (rec_key r = key)) (map (leaf_at data) offs)).
Proof using Hhdr.
  clear Hh h. intros Hb. destruct Hhdr. induction offs as [|off offs IH]; [done|].
  destruct (Hb off ltac:(set_solver)). cbn [scan_leaf map find]. run_reads.
  replace (off + cb_key header - off) with (cb_key header) by lia. cbn [leaf_at rec_key].
  destruct (decide _) as [He|He].
  - rewrite bool_decide_true by done. run_reads. cbn. do 3 f_equal. lia.
  - rewrite bool_decide_false by done. apply IH. set_solver.
Qed.

Lemma scan_index_never_panics data key offs best :
  (∀ off, off ∈ offs → 0 <= off ∧ off + (cb_key header + 4) <= zlen data) →
  never_panics (scan_index header data key offs best).
Proof using Hhdr.
  clear Hh h. intros Hb. destruct Hhdr. revert best. induction offs as [|off offs IH]; intros best; [done|].
  destruct (Hb off ltac:(set_solver)). cbn [scan_index]. run_reads.
  case_match; [|done]. apply IH. set_solver.
Qed.

Lemma lookup_level_never_panics level hid key : never_panics (lookup_level h header level hid key).
Proof.
  destruct Hhdr. revert hid. induction level as [|level IH]; intros hid; cbn [lookup_level];
    apply holds_bind; (eapply holds_mono; [by apply heap_get_never_panics|]); intros data _;
    destruct (_ =? 0) eqn:Hz; try done; bool_to_Z; pose proof (zlen_nonneg data).
  - rewrite scan_leaf_ok; [done|]. intros off Ho. apply (record_offsets_bound _ _ (zlen data)) in Ho; try lia.
    pose proof (Z.div_pos (zlen data) (cb_key header + cb_ent header)). lia.
  - apply holds_bind. eapply holds_mono.
    + apply scan_index_never_panics. intros off Ho. apply (record_offsets_bound _ _ (zlen data)) in Ho; try lia.
      pose proof (Z.div_pos (zlen data) (cb_key header + 4)). lia.
    + intros [child|] _; [apply IH|done].
Qed.

(** A leaf's records, in order. *)
Definition leaf_listing (data : list byte) : list bth_record :=
  map (leaf_at data) (record_offsets (cb_key header + cb_ent header)
                        (Z.to_nat (zlen data / (cb_key header + cb_ent header)))).

Lemma collect_leaf hid data records :
  cb_key header + cb_ent header ≠ 0 → heap_get h hid = Ok data →
  collect_level h header 0 hid records = Ok (records ++ leaf_listing data).
Proof using Hhdr.
  clear Hh. intros Hz Hg. destruct Hhdr. pose proof (zlen_nonneg data). cbn [collect_level]. rewrite Hg, bind_ok, (proj2 (Z.eqb_neq _ _)) by lia.
  rewrite entry_offsets_records by lia. unfold leaf_listing.
  assert (Hb : ∀ off, off ∈ record_offsets (cb_key header + cb_ent header)
                (Z.to_nat (zlen data / (cb_key header + cb_ent header))) →
            0 <= off ∧ off + (cb_key header + cb_ent header) <= zlen data).
  { intros off Ho. apply (record_offsets_bound _ _ (zlen data)) in Ho; try lia.
    pose proof (Z.div_pos (zlen data) (cb_key header + cb_ent header)). lia. }
  revert records Hb. generalize (record_offsets (cb_key header + cb_ent header)
    (Z.to_nat (zlen data / (cb_key header + cb_ent header)))).
  intros offs. induction offs as [|off offs IH]; intros records Hb; [by rewrite app_nil_r|].
  destruct (Hb off ltac:(set_solver)). cbn [mfold map]. rewrite leaf_record_ok, !bind_ok by lia.
  rewrite IH by set_solver. by rewrite <-(assoc_L (++)).
Qed.
End facts.

Lemma lookup_leaf_agrees h header key recs :
  heap_wf h → bth_header_wf header → b_idx_levels header = 0 →
  collect_records h header = Ok recs →
  bth_lookup h header key = Ok (rec_data <$> find (λ r, bool_decide (rec_key r = key)) recs).
Proof.
  intros Hh Hhdr Hlv. unfold collect_records, bth_lookup. rewrite Hlv. change (Z.to_nat 0) with 0%nat.
  destruct (hid_is_null _); [by intros [= <-]|]. pose proof Hhdr as [? ? ?].
  destruct (heap_get h (hid_root header)) as [data|e| |] eqn:Hg;
    [|cbn [collect_level]; rewrite Hg; discriminate..].
  destruct (Z.eqb_spec (cb_key header + cb_ent header) 0) as [Hz|Hz].
  { cbn [collect_level lookup_level]. rewrite Hg, !bind_ok, Hz. by intros [= <-]. }
  rewrite (collect_leaf _ _ Hhdr _ _ _ Hz Hg). intros [= <-]. cbn [lookup_level].
  rewrite Hg, bind_ok, (proj2 (Z.eqb_neq _ _)) by done. rewrite scan_leaf_ok; [done..|].
  intros off Ho. pose proof (zlen_nonneg data). apply (record_offsets_bound _ _ (zlen data)) in Ho; try lia.
  pose proof (Z.div_pos (zlen data) (cb_key header + cb_ent header)). lia.
Qed.

(** ** Sample heaps

    Both have 16-bit keys and 4-byte leaf data.  [split_tree] has an index root
    over two leaves, with the keys 0x0001, 0x00FF and 0x0100 in integer order;
    [looping_tree] has an index root with two entries that name the root itself. *)

Definition split_tree : list byte :=
  map byte.of_Z
    ([58; 0; 0xEC; 0xB5; 0x20; 0; 0; 0; 0; 0; 0; 0] ++           (* HNHDR, root slot 1 *)
     [0xB5; 2; 4; 1; 0x40; 0; 0; 0] ++                            (* slot 1: BTHHEADER *)
     [0x01; 0x00; 0x60; 0; 0; 0; 0x00; 0x01; 0x80; 0; 0; 0] ++    (* slot 2: index root *)
     [0x01; 0x00; 7; 0; 0; 0; 0xFF; 0x00; 8; 0; 0; 0] ++          (* slot 3: keys 0x0001, 0x00FF *)
     [0x00; 0x01; 9; 0; 0; 0] ++ [0; 0; 0; 0; 0; 0; 0; 0] ++      (* slot 4: key 0x0100 *)
     [4; 0; 0; 0; 12; 0; 20; 0; 32; 0; 44; 0; 50; 0]).            (* HNPAGEMAP *)

Definition looping_tree : list byte :=
  map byte.of_Z
    ([32; 0; 0xEC; 0xB5; 0x20; 0; 0; 0; 0; 0; 0; 0] ++
     [0xB5; 2; 4; 255; 0x40; 0; 0; 0] ++
     [0x01; 0x00; 0x40; 0; 0; 0; 0x02; 0x00; 0x40; 0; 0; 0] ++
     [2; 0; 0; 0; 12; 0; 20; 0; 32; 0]).

Definition split_heap : heap :=
  {| heap_data := split_tree; block_size := 72;
     hn := {| ib_hnpm := 58; b_sig := 0xEC; b_client_sig := 0xB5; hid_user_root := 0x20; rgb_fill_level := 0 |} |}.
Definition split_header : bth_header :=
  {| b_type := 0xB5; cb_key := 2; cb_ent := 4; b_idx_levels := 1; hid_root := 0x40 |}.
Definition sample_record (key value : Z) : bth_record :=
  {| rec_key := le_split 2 key; rec_data := le_split 4 value |}.

(** What the loaders do before a BTH is read: parse the heap, read the header. *)
Definition open_bth (data : list byte) : pres (heap * bth_header) :=
  h ← heap_parse data (zlen data); hdr ← read_bth_header h (hid_user_root (hn h)); Ok (h, hdr).

Definition loop_heap : heap :=
  {| heap_data := looping_tree; block_size := 42;
     hn := {| ib_hnpm := 32; b_sig := 0xEC; b_client_sig := 0xB5; hid_user_root := 0x20; rgb_fill_level := 0 |} |}.
Definition loop_header : bth_header :=
  {| b_type := 0xB5; cb_key := 2; cb_ent := 4; b_idx_levels := 255; hid_root := 0x40 |}.
Definition loop_page : list byte := sub looping_tree 20 12.

Lemma loop_get : heap_get loop_heap 0x40 = Ok loop_page.
Proof. vm_compute. reflexivity. Qed.

Lemma loop_doubles level records :
  ∃ recs, collect_level loop_heap loop_header level 0x40 records = Ok (records ++ recs) ∧
    length recs = (2 ^ S level)%nat.
Proof.
  revert records. induction level as [|level IH]; intros records.
  - exists (leaf_listing loop_header loop_page). split; [|vm_compute; reflexivity].
    apply collect_leaf; [by constructor|done|apply loop_get].
  - destruct (IH records) as (r1 & H1 & L1). destruct (IH (records ++ r1)) as (r2 & H2 & L2).
    exists (r1 ++ r2). split.
    + cbn [collect_level]. rewrite loop_get, bind_ok. cbn [cb_key loop_header].
      change (2 + 4 =? 0) with false. cbv iota zeta.
      replace (entry_offsets _ _ _ _) with [0; 6] by (vm_compute; reflexivity). cbn [mfold].
      replace (le_at loop_page (0 + 2) 4) with (Ok 0x40 : pres Z) by (vm_compute; reflexivity).
      replace (le_at loop_page (6 + 2) 4) with (Ok 0x40 : pres Z) by (vm_compute; reflexivity).
      by rewrite bind_ok, H1, bind_ok, bind_ok, H2, bind_ok, (assoc_L (++)).
    + rewrite length_app, L1, L2. simpl. lia.
Qed.

(** Reading a BTH is total: on any heap, reading the header, collecting the
    records and looking a key up return a value or an error and never panic; the
    level byte bounds the recursion. *)
Theorem bth_reads_total data bs h hid (Hbs : 12 <= bs) (Hparse : heap_parse data bs = Ok h) :
  holds (read_bth_header h hid) (λ header,
    never_panics (collect_records h header) ∧ ∀ key, never_panics (bth_lookup h header key)).
Proof.
  apply heap_parse_wf in Hparse; [|done]. eapply holds_mono; [by apply read_bth_header_spec|].
  intros header Hhdr. split; [by apply collect_records_never_panics|]. intros key.
  unfold bth_lookup. case_match; [done|by apply lookup_level_never_panics].
Qed.

Lemma bth_reads_total_witness :
  holds (read_bth_header loop_heap 0x20) (λ header,
    never_panics (collect_records loop_heap header) ∧ ∀ key, never_panics (bth_lookup loop_heap header key)).
Proof. apply (bth_reads_total looping_tree 42); [lia|vm_compute; reflexivity]. Defined.

(** On a BTH without index levels, [lookup] is the first match of the listing:
    it returns the data of the first record with the key, or nothing. *)
Theorem bth_lookup_leaf data bs h header key recs (Hbs : 12 <= bs)
    (Hparse : heap_parse data bs = Ok h)
    (Hheader : read_bth_header h (hid_user_root (hn h)) = Ok header)
    (Hlevels : b_idx_levels header = 0) (Hrecs : collect_records h header = Ok recs) :
  bth_lookup h header key = Ok (rec_data <$> find (λ r, bool_decide (rec_key r = key)) recs).
Proof.
  apply heap_parse_wf in Hparse; [|done]. apply lookup_leaf_agrees; try done.
  eapply holds_ok; [by apply (read_bth_header_spec h)|done].
Qed.

(** The leaf form of [split_tree]: its slot 3 as the root of a tree without levels. *)
Definition leaf_tree : list byte :=
  map byte.of_Z
    ([32; 0; 0xEC; 0xB5; 0x20; 0; 0; 0; 0; 0; 0; 0] ++
     [0xB5; 2; 4; 0; 0x40; 0; 0; 0] ++
     [0x01; 0x00; 7; 0; 0; 0; 0xFF; 0x00; 8; 0; 0; 0] ++
     [2; 0; 0; 0; 12; 0; 20; 0; 32; 0]).
Definition leaf_heap : heap :=
  {| heap_data := leaf_tree; block_size := 42;
     hn := {| ib_hnpm := 32; b_sig := 0xEC; b_client_sig := 0xB5; hid_user_root := 0x20; rgb_fill_level := 0 |} |}.
Definition leaf_header : bth_header :=
  {| b_type := 0xB5; cb_key := 2; cb_ent := 4; b_idx_levels := 0; hid_root := 0x40 |}.

Lemma bth_lookup_leaf_witness :
  bth_lookup leaf_heap leaf_header [Byte.xff; Byte.x00] =
  Ok (Some (map byte.of_Z [8; 0; 0; 0])).
Proof.
  apply (bth_lookup_leaf leaf_tree 42 leaf_heap leaf_header [Byte.xff; Byte.x00]
    [{| rec_key := map byte.of_Z [1; 0]; rec_data := map byte.of_Z [7; 0; 0; 0] |};
     {| rec_key := map byte.of_Z [255; 0]; rec_data := map byte.of_Z [8; 0; 0; 0] |}]);
    [lia|vm_compute; reflexivity..].
Defined.

(** Below an index level [lookup] is not the listing's lookup: keys are compared
    as byte strings, so on a tree whose keys are in integer order (0x0001, 0x00FF,
    0x0100) the record of key 0x00FF is listed but not found. *)
Theorem bth_lookup_misses_listed_key :
  ∃ h header recs, open_bth split_tree = Ok (h, header) ∧ collect_records h header = Ok recs ∧
    map (λ r, le_combine (rec_key r)) recs = [0x0001; 0x00FF; 0x0100] ∧
    bth_lookup h header (le_split 2 0x00FF) = Ok None.
Proof.
  exists split_heap, split_header, [sample_record 0x0001 7; sample_record 0x00FF 8; sample_record 0x0100 9].
  split_and!; vm_compute; reflexivity.
Qed.

(** Collecting has no cycle or size guard: for every number of index levels
    there is the same 42-byte heap, whose index root names itself twice, on which
    [collect_level] visits the root and appends [2 ^ (levels + 1)] records. *)
Theorem bth_collect_is_exponential level :
  open_bth looping_tree = Ok (loop_heap, loop_header) ∧
  ∃ recs, collect_level loop_heap loop_header level (hid_root loop_header) [] = Ok recs ∧
    length recs = (2 ^ S level)%nat.
Proof. split; [vm_compute; reflexivity|]. destruct (loop_doubles level []) as (recs & H & L). by exists recs. Qed.
