(* ===== verification/Utf.v ===== *)
(** * Text decoding (pst-reader/src/ltp/pc.rs, [decode_utf16le])

    A Rust [String] is the list of its Unicode scalar values.  [decode_utf16le]
    is shown to succeed exactly on the UTF-16LE encodings of strings (with a
    trailing odd byte dropped), so decoding and encoding are inverse.  The lossy
    UTF-8 decoder is the standard library's [String::from_utf8_lossy]. *)

From Stdlib Require Import ZifyBool.
From S2P Require Import Prelude PstError.

Abbreviation rstring := (list Z).

(** [char]: a code point that is not a surrogate. *)
Definition scalar (c : Z) : bool :=
  (0 <=? c) && (c <=? 0x10FFFF) && negb ((0xD800 <=? c) && (c <=? 0xDFFF)).

Definition high_surrogate (u : Z) : bool := (0xD800 <=? u) && (u <=? 0xDBFF).
Definition low_surrogate (u : Z) : bool := (0xDC00 <=? u) && (u <=? 0xDFFF).

(** [String::from_utf16] *)
Fixpoint from_utf16 (units : list Z) : option rstring :=
  match units with
  | [] => Some []
  | u :: us =>
      if high_surrogate u then
        match us with
        | v :: us' =>
            if low_surrogate v
            then cons (0x10000 + (u - 0xD800) * 0x400 + (v - 0xDC00)) <$> from_utf16 us'
            else None
        | [] => None
        end
      else if low_surrogate u then None
      else cons u <$> from_utf16 us
  end.

(** [str::encode_utf16], one character. *)
Definition encode_char (c : Z) : list Z :=
  if c <? 0x10000 then [c]
  else [0xD800 + (c - 0x10000) / 0x400; 0xDC00 + (c - 0x10000) mod 0x400].
Definition encode_utf16 (s : rstring) : list Z := s ≫= encode_char.

(** [bytes.as_chunks::<2>()] mapped through [u16::from_le_bytes]. *)
Fixpoint u16_units (bytes : list byte) : list Z :=
  match bytes with
  | a :: b :: rest => le_combine [a; b] :: u16_units rest
  | _ => []
  end.

(** [s.encode_utf16().flat_map(|c| c.to_le_bytes())] *)
Definition utf16le_bytes (s : rstring) : list byte := encode_utf16 s ≫= le_split 2.

(** [decode_utf16le]: an odd length drops the last byte and decodes the rest. *)
Definition decode_utf16le (bytes : list byte) : pres rstring :=
  let bytes := if zlen bytes mod 2 =? 0 then bytes else sub bytes 0 (zlen bytes - 1) in
  ok_or (from_utf16 (u16_units bytes)) InvalidUtf16.

Definition REPLACEMENT : Z := 0xFFFD.

Definition in_range (lo hi b : Z) : bool := (lo <=? b) && (b <=? hi).

(** [String::from_utf8_lossy]: each maximal prefix of a well-formed sequence that
    is not completed becomes one U+FFFD. *)
Fixpoint from_utf8_lossy (bytes : list byte) : rstring :=
  match bytes with
  | [] => []
  | c0 :: r1 =>
      let b0 := u8 c0 in
      if b0 <? 0x80 then b0 :: from_utf8_lossy r1
      else if in_range 0xC2 0xDF b0 then
        match r1 with
        | c1 :: r2 =>
            if in_range 0x80 0xBF (u8 c1)
            then Z.lor (Z.shiftl (Z.land b0 0x1F) 6) (Z.land (u8 c1) 0x3F) :: from_utf8_lossy r2
            else REPLACEMENT :: from_utf8_lossy r1
        | [] => [REPLACEMENT]
        end
      else if in_range 0xE0 0xEF b0 then
        match r1 with
        | c1 :: r2 =>
            if in_range (if b0 =? 0xE0 then 0xA0 else 0x80) (if b0 =? 0xED then 0x9F else 0xBF) (u8 c1) then
              match r2 with
              | c2 :: r3 =>
                  if in_range 0x80 0xBF (u8 c2)
                  then Z.lor (Z.shiftl (Z.land b0 0x0F) 12)
                         (Z.lor (Z.shiftl (Z.land (u8 c1) 0x3F) 6) (Z.land (u8 c2) 0x3F)) :: from_utf8_lossy r3
                  else REPLACEMENT :: from_utf8_lossy r2
              | [] => [REPLACEMENT]
              end
            else REPLACEMENT :: from_utf8_lossy r1
        | [] => [REPLACEMENT]
        end
      else if in_range 0xF0 0xF4 b0 then
        match r1 with
        | c1 :: r2 =>
            if in_range (if b0 =? 0xF0 then 0x90 else 0x80) (if b0 =? 0xF4 then 0x8F else 0xBF) (u8 c1) then
              match r2 with
              | c2 :: r3 =>
                  if in_range 0x80 0xBF (u8 c2) then
                    match r3 with
                    | c3 :: r4 =>
                        if in_range 0x80 0xBF (u8 c3)
                        then Z.lor (Z.shiftl (Z.land b0 0x07) 18)
                               (Z.lor (Z.shiftl (Z.land (u8 c1) 0x3F) 12)
                                  (Z.lor (Z.shiftl (Z.land (u8 c2) 0x3F) 6) (Z.land (u8 c3) 0x3F)))
                             :: from_utf8_lossy r4
                        else REPLACEMENT :: from_utf8_lossy r3
                    | [] => [REPLACEMENT]
                    end
                  else REPLACEMENT :: from_utf8_lossy r2
              | [] => [REPLACEMENT]
              end
            else REPLACEMENT :: from_utf8_lossy r1
        | [] => [REPLACEMENT]
        end
      else REPLACEMENT :: from_utf8_lossy r1
  end.

(** ** The two UTF-16 directions are inverse *)

Definition unit16 (u : Z) : Prop := 0 <= u < 65536.

Lemma encode_char_units c : scalar c → Forall unit16 (encode_char c).
Proof.
  unfold scalar, encode_char, unit16. intros Hc. apply Is_true_true in Hc. bool_to_Z.
  pose proof (Z.div_lt_upper_bound (c - 0x10000) 0x400 0x400).
  pose proof (Z.mod_pos_bound (c - 0x10000) 0x400).
  case_match eqn:Hlt; bool_to_Z; repeat constructor; try lia.
  all: pose proof (Z.div_pos (c - 0x10000) 0x400); lia.
Qed.

Lemma from_encode_char c us :
  scalar c → from_utf16 (encode_char c ++ us) = cons c <$> from_utf16 us.
Proof.
  unfold scalar, encode_char. intros Hc. apply Is_true_true in Hc.
  apply andb_true_iff in Hc as [Hc Hs]. bool_to_Z.
  case_match eqn:Hlt; bool_to_Z; cbn [app from_utf16].
  - replace (high_surrogate c) with false by (unfold high_surrogate; lia).
    replace (low_surrogate c) with false by (unfold low_surrogate; lia). done.
  - pose proof (Z.div_lt_upper_bound (c - 0x10000) 0x400 0x400).
    pose proof (Z.div_pos (c - 0x10000) 0x400). pose proof (Z.mod_pos_bound (c - 0x10000) 0x400).
    pose proof (Z.div_mod (c - 0x10000) 0x400).
    replace (high_surrogate _) with true by (unfold high_surrogate; lia).
    replace (low_surrogate _) with true by (unfold low_surrogate; lia).
    f_equal. f_equal. lia.
Qed.

Lemma from_utf16_encode s us :
  Forall scalar s → from_utf16 (encode_utf16 s ++ us) = (app s) <$> from_utf16 us.
Proof.
  induction 1 as [|c s Hc Hs IH]; [change (from_utf16 us = app [] <$> from_utf16 us); by destruct (from_utf16 us)|].
  change (encode_utf16 (c :: s)) with (encode_char c ++ encode_utf16 s).
  rewrite <-(assoc_L (++)), from_encode_char, IH by done. by destruct (from_utf16 us).
Qed.

Lemma from_utf16_sound us s :
  Forall unit16 us → from_utf16 us = Some s → Forall scalar s ∧ us = encode_utf16 s.
Proof.
  remember (length us) as n eqn:Hn. revert us s Hn. induction n as [n IH] using lt_wf_ind.
  intros us s -> Hu. destruct us as [|u us]; [by intros [= <-]|]. cbn [from_utf16].
  inversion_clear Hu as [|?? Hu1 Hu2]. unfold unit16 in Hu1. case_match eqn:Hh.
  - destruct us as [|v us]; [done|]. case_match eqn:Hl; [|done].
    intros (s' & Hs' & ->)%fmap_Some. inversion_clear Hu2 as [|?? Hv Hus].
    unfold high_surrogate, low_surrogate in *. bool_to_Z.
    apply (IH (length us)) in Hs' as [Hall ->]; [|cbn; lia|done|done].
    set (x := (u - 0xD800) * 0x400 + (v - 0xDC00)).
    assert (Hq : x / 0x400 = u - 0xD800) by (symmetry; apply (Z.div_unique _ _ _ (v - 0xDC00)); unfold x; lia).
    assert (Hr : x mod 0x400 = v - 0xDC00) by (symmetry; apply (Z.mod_unique _ _ (u - 0xD800)); unfold x; lia).
    replace (0x10000 + (u - 0xD800) * 0x400 + (v - 0xDC00)) with (0x10000 + x) by (unfold x; lia).
    split; [constructor; [|done]; apply Is_true_true; unfold scalar, x; lia|].
    change (encode_utf16 (?c :: ?s)) with (encode_char c ++ encode_utf16 s). unfold encode_char.
    rewrite (proj2 (Z.ltb_ge _ _)) by (unfold x; lia).
    replace (0x10000 + x - 0x10000) with x by lia. rewrite Hq, Hr. cbn [app]. f_equal; [lia|f_equal; lia].
  - case_match eqn:Hl; [done|]. intros (s' & Hs' & ->)%fmap_Some.
    apply (IH (length us)) in Hs' as [Hall ->]; [|cbn; lia|done|done].
    unfold high_surrogate, low_surrogate in *.
    split; [constructor; [|done]; apply Is_true_true; unfold scalar; lia|].
    change (encode_utf16 (?c :: ?s)) with (encode_char c ++ encode_utf16 s). unfold encode_char.
    by rewrite (proj2 (Z.ltb_lt _ _)) by lia.
Qed.

Lemma u16_units_unit16 bytes : Forall unit16 (u16_units bytes).
Proof.
  remember (length bytes) as n eqn:Hn. revert bytes Hn. induction n as [n IH] using lt_wf_ind.
  intros bytes ->. destruct bytes as [|a [|b rest]]; [constructor..|]. cbn [u16_units].
  constructor; [|apply (IH (length rest)); [cbn; lia|done]].
  pose proof (le_combine_bound [a; b]). exact H.
Qed.

(** Splitting the units of an even-length byte string gives the bytes back. *)
Lemma u16_units_bytes bytes : zlen bytes mod 2 = 0 → u16_units bytes ≫= le_split 2 = bytes.
Proof.
  remember (length bytes) as n eqn:Hn. revert bytes Hn. induction n as [n IH] using lt_wf_ind.
  intros bytes ->. destruct bytes as [|a [|b rest]]; [done|done|]. intros Heven. cbn [u16_units].
  change (le_split 2 (le_combine [a; b]) ++ (u16_units rest ≫= le_split 2) = a :: b :: rest).
  rewrite (IH (length rest)); [|cbn; lia|done|].
  - change 2%nat with (length [a; b]) at 1. by rewrite split_le_combine.
  - rewrite !zlen_cons in Heven. replace (1 + (1 + zlen rest)) with (zlen rest + 1 * 2) in Heven by lia.
    by rewrite Z_mod_plus_full in Heven.
Qed.

Lemma u16_units_split us :
  Forall unit16 us → u16_units (us ≫= le_split 2) = us ∧ zlen (us ≫= le_split 2) mod 2 = 0.
Proof.
  induction 1 as [|u us Hu Hus [IH Hev]]; [done|].
  assert (Hl : length (le_split 2 u) = 2%nat) by apply length_le_split.
  assert (Hc : le_combine (le_split 2 u) = u).
  { rewrite le_combine_split. apply Z.mod_small. exact Hu. }
  change ((u :: us) ≫= le_split 2) with (le_split 2 u ++ (us ≫= le_split 2)).
  destruct (le_split 2 u) as [|a [|b []]]; try discriminate. cbn [app u16_units].
  rewrite Hc, IH. split; [done|]. rewrite !zlen_cons.
  replace (1 + (1 + zlen (us ≫= le_split 2))) with (zlen (us ≫= le_split 2) + 1 * 2) by lia.
  by rewrite Z_mod_plus_full.
Qed.

Lemma encode_utf16_units s : Forall scalar s → Forall unit16 (encode_utf16 s).
Proof.
  induction 1 as [|c s Hc Hs IH]; [constructor|].
  change (encode_utf16 (c :: s)) with (encode_char c ++ encode_utf16 s).
  apply Forall_app. split; [by apply encode_char_units|done].
Qed.

(** The bytes that are decoded: all of them, or all but the last odd one. *)
Definition even_prefix (bytes : list byte) : list byte :=
  if zlen bytes mod 2 =? 0 then bytes else sub bytes 0 (zlen bytes - 1).

Lemma even_prefix_even bytes : zlen (even_prefix bytes) mod 2 = 0.
Proof.
  unfold even_prefix. pose proof (zlen_nonneg bytes). pose proof (Z.mod_pos_bound (zlen bytes) 2).
  case_match eqn:Hm; bool_to_Z; [done|].
  assert (zlen bytes ≠ 0) by (intros Hz; rewrite Hz in Hm; done).
  rewrite zlen_sub by lia. rewrite Zminus_mod. replace (zlen bytes mod 2) with 1 by lia. done.
Qed.

Lemma decode_utf16le_encode s : Forall scalar s → decode_utf16le (utf16le_bytes s) = Ok s.
Proof.
  intros Hs. unfold decode_utf16le. destruct (u16_units_split (encode_utf16 s)) as [Hu Hev]; [by apply encode_utf16_units|].
  change (encode_utf16 s ≫= le_split 2) with (utf16le_bytes s) in Hu, Hev. rewrite Hev. cbn [Z.eqb]. rewrite Hu.
  rewrite <-(app_nil_r (encode_utf16 s)), from_utf16_encode by done. cbn. by rewrite app_nil_r.
Qed.

(** UTF-16LE decoding succeeds exactly on encodings: [decode_utf16le] returns
    [s] if and only if [s] is a string of Unicode scalar values whose UTF-16LE
    encoding is the input (without its last byte when the length is odd). *)
Theorem decode_utf16le_spec bytes s :
  decode_utf16le bytes = Ok s ↔ Forall scalar s ∧ even_prefix bytes = utf16le_bytes s.
Proof.
  unfold decode_utf16le. fold (even_prefix bytes). pose proof (even_prefix_even bytes) as Heven.
  generalize dependent (even_prefix bytes). clear bytes. intros bytes Heven. split.
  - destruct (from_utf16 _) as [s'|] eqn:Hf; [|done]. intros [= ->].
    apply from_utf16_sound in Hf as [Hall Hu]; [|apply u16_units_unit16].
    split; [done|]. unfold utf16le_bytes. by rewrite <-Hu, u16_units_bytes.
  - intros [Hall ->]. unfold utf16le_bytes.
    destruct (u16_units_split (encode_utf16 s)) as [-> _]; [by apply encode_utf16_units|].
    rewrite <-(app_nil_r (encode_utf16 s)), from_utf16_encode by done. cbn. by rewrite app_nil_r.
Qed.
