(* ===== verification/PropContext.v ===== *)
(** * Property contexts (pst-reader/src/ltp/pc.rs)

    A property context is a BTH with 2-byte keys and 6-byte values: the type and
    a 32-bit word that holds the value, a heap ID or a subnode ID.  The loader
    reads the subnodes that the records name and no others. *)

From S2P Require Import Prelude Telemetry PstError Crypt Header Btree Block Heap Bth Utf.

Definition MAX_BLOCK_DATA : Z := 8176.

Inductive property_value :=
| I16 (v : Z)
| I32 (v : Z)
| I64 (v : Z)
| PBool (v : bool)
| PString (s : rstring)
| PTime (v : Z)
| PBinary (b : list byte)
| MultiString (ss : list rstring)
| MultiBinary (bs : list (list byte)).

(** [PropertyValue::as_str], [as_i32], [as_i64], [as_time], [as_bool] *)
Definition as_str (v : property_value) : option rstring := match v with PString s => Some s | _ => None end.
Definition as_i32 (v : property_value) : option Z := match v with I32 v => Some v | _ => None end.
Definition as_i64 (v : property_value) : option Z := match v with I64 v => Some v | _ => None end.
Definition as_time (v : property_value) : option Z := match v with PTime v => Some v | _ => None end.
Definition as_bool (v : property_value) : option bool := match v with PBool v => Some v | _ => None end.
Definition as_binary (v : property_value) : option (list byte) := match v with PBinary b => Some b | _ => None end.

Record prop_context := { pc_heap : heap; pc_records : list bth_record; pc_subnodes : gmap Z (list byte) }.

(** The block size that both loaders pass to [Heap::parse]. *)
Definition node_block_size (data : list byte) : Z :=
  if zlen data <=? MAX_BLOCK_DATA then zlen data else MAX_BLOCK_DATA.

(** The heap and records of a node's data, as [load_with_subnodes],
    [referenced_subnode_nids] and [body_subnode_value_hnid] all read them. *)
Definition parse_pc (data : list byte) : pres (heap * list bth_record) :=
  h ← heap_parse data (node_block_size data);
  header ← read_bth_header h (hid_user_root (hn h));
  records ← collect_records h header;
  Ok (h, records).

(** [PropContext::load_with_subnodes], [PropContext::load] *)
Definition load_with_subnodes (data : list byte) (subnodes : gmap Z (list byte)) : pres prop_context :=
  hr ← parse_pc data; Ok {| pc_heap := hr.1; pc_records := hr.2; pc_subnodes := subnodes |}.
Definition pc_load (data : list byte) : pres prop_context := load_with_subnodes data ∅.

Definition find_record (records : list bth_record) (prop_id : Z) : option bth_record :=
  find (λ r, bool_decide (rec_key r = le_split 2 prop_id)) records.

(** The type and value word of a record of at least 6 data bytes. *)
Definition record_type (r : bth_record) : Z := le_val (rec_data r) 0 2.
Definition record_hnid (r : bth_record) : Z := le_val (rec_data r) 2 4.

Section prop_context.
Context (pc : prop_context).

(** [PropContext::get_raw_hnid] *)
Definition get_raw_hnid (prop_id : Z) : option (Z * Z) :=
  record ← find_record (pc_records pc) prop_id;
  if zlen (rec_data record) <? 6 then None else Some (record_type record, record_hnid record).

(** [PropContext::resolve_value] *)
Definition resolve_value (prop_type value_hnid : Z) : pres (option property_value) :=
  if prop_type =? 0x0002 then Ok (Some (I16 (swrap 16 value_hnid)))
  else if prop_type =? 0x0003 then Ok (Some (I32 (swrap 32 value_hnid)))
  else if prop_type =? 0x000B then Ok (Some (PBool (negb (value_hnid =? 0))))
  else if prop_type =? 0x001F then
    if hid_is_null value_hnid then Ok (Some (PString []))
    else if negb (hid_type value_hnid =? 0) then
      match pc_subnodes pc !! value_hnid with
      | Some bytes => s ← decode_utf16le bytes; Ok (Some (PString s))
      | None => Ok None
      end
    else bytes ← heap_get (pc_heap pc) value_hnid; s ← decode_utf16le bytes; Ok (Some (PString s))
  else if prop_type =? 0x0014 then
    bytes ← heap_get (pc_heap pc) value_hnid;
    if 8 <=? zlen bytes then v ← le_at bytes 0 8; Ok (Some (I64 (swrap 64 v)))
    else Ok (Some (I64 value_hnid))
  else if prop_type =? 0x0040 then
    bytes ← heap_get (pc_heap pc) value_hnid;
    if 8 <=? zlen bytes then v ← le_at bytes 0 8; Ok (Some (PTime (swrap 64 v)))
    else Ok None
  else if prop_type =? 0x0102 then
    if hid_is_null value_hnid then Ok (Some (PBinary []))
    else if negb (hid_type value_hnid =? 0) then Ok (PBinary <$> pc_subnodes pc !! value_hnid)
    else bytes ← heap_get (pc_heap pc) value_hnid; Ok (Some (PBinary bytes))
  else if prop_type =? 0x001E then
    if hid_is_null value_hnid then Ok (Some (PString []))
    else if negb (hid_type value_hnid =? 0) then Ok None
    else bytes ← heap_get (pc_heap pc) value_hnid; Ok (Some (PString (from_utf8_lossy bytes)))
  else Ok None.

(** [PropContext::get] *)
Definition pc_get (prop_id : Z) : pres (option property_value) :=
  match find_record (pc_records pc) prop_id with
  | None => Ok None
  | Some record =>
      if zlen (rec_data record) <? 6 then Ok None
      else
        prop_type ← le_at (rec_data record) 0 2;
        value_hnid ← le_at (rec_data record) 2 4;
        resolve_value prop_type value_hnid
  end.

(** [get_string], [get_i32], [get_bool], [get_time], [get_binary] *)
Definition get_as {A} (view : property_value → option A) (prop_id : Z) : pres (option A) :=
  v ← pc_get prop_id; Ok (v ≫= view).
Definition get_string := get_as as_str.
Definition get_i32 := get_as as_i32.
Definition get_bool := get_as as_bool.
Definition get_time := get_as as_time.
Definition get_binary := get_as as_binary.

(** [PropContext::get_object] *)
Definition get_object (prop_id : Z) : pres (option (Z * Z)) :=
  match get_raw_hnid prop_id with
  | None => Ok None
  | Some (prop_type, value_hnid) =>
      if negb (prop_type =? 0x000D) then Ok None
      else if hid_is_null value_hnid || negb (hid_type value_hnid =? 0) then Err (DataTruncated 8 0)
      else
        bytes ← heap_get (pc_heap pc) value_hnid;
        if zlen bytes <? 8 then Err (DataTruncated 8 (zlen bytes))
        else nid ← le_at bytes 0 4; size ← le_at bytes 4 4; Ok (Some (nid, size))
  end.

(** [PropContext::prop_value_byte_len] *)
Definition prop_value_byte_len (prop_id : Z) : pres (option Z) :=
  match get_raw_hnid prop_id with
  | None => Ok None
  | Some (prop_type, value_hnid) =>
      if (prop_type =? 0x001F) || (prop_type =? 0x001E) || (prop_type =? 0x0102) then
        if hid_is_null value_hnid then Ok (Some 0)
        else if negb (hid_type value_hnid =? 0) then Ok (zlen <$> pc_subnodes pc !! value_hnid)
        else bytes ← heap_get (pc_heap pc) value_hnid; Ok (Some (zlen bytes))
      else Ok None
  end.
End prop_context.

(** A record whose value lives in a subnode: [PtypString] or [PtypBinary] with a
    non-zero type in the low bits of the value word. *)
Definition subnode_typed (prop_type : Z) : bool := (prop_type =? 0x001F) || (prop_type =? 0x0102).
Definition refers_to_subnode (r : bth_record) : bool :=
  subnode_typed (record_type r) && negb (hid_type (record_hnid r) =? 0).

(** [referenced_subnode_nids] *)
Definition referenced_subnode_nids (data : list byte) : pres (gset Z) :=
  hr ← parse_pc data;
  Ok (foldl (λ needed r,
        if zlen (rec_data r) <? 6 then needed
        else if refers_to_subnode r then {[record_hnid r]} ∪ needed else needed) ∅ hr.2).

(** [body_subnode_value_hnid]: the first record with the key and 6 data bytes decides. *)
Fixpoint body_record_hnid (records : list bth_record) (body_prop_id : Z) : option Z :=
  match records with
  | [] => None
  | r :: records =>
      if bool_decide (rec_key r ≠ le_split 2 body_prop_id) || (zlen (rec_data r) <? 6)
      then body_record_hnid records body_prop_id
      else if refers_to_subnode r then Some (record_hnid r) else None
  end.
Definition body_subnode_value_hnid (data : list byte) (body_prop_id : Z) : pres (option Z) :=
  hr ← parse_pc data; Ok (body_record_hnid hr.2 body_prop_id).

Section load.
Context `{Crc : Crc32} (file : list byte) (bbt : bbt_index) (crypt : crypt_method).

(** The loop that reads the needed entries. *)
Definition read_needed (needed : gset Z) (entries : list subnode_entry) : pio (gmap Z (list byte)) :=
  mfold (λ subnodes entry,
      let raw_nid := wrap 32 (sub_nid entry) in
      if decide (raw_nid ∈ needed) then
        bytes ← read_block_data file bbt (sub_bid_data entry) crypt;
        mret (<[raw_nid := bytes]> subnodes)
      else mret subnodes) entries ∅.

(** [load_pc_from_bids] *)
Definition load_pc_from_bids (bid_data bid_sub : Z) : pio prop_context :=
  data ← read_block_data file bbt bid_data crypt;
  subnodes ← (if is_null bid_sub then mret ∅
              else
                needed ← quiet (referenced_subnode_nids data);
                if decide (needed = ∅) then mret ∅
                else entries ← list_subnode_entries file bbt bid_sub; read_needed needed entries);
  quiet (load_with_subnodes data subnodes).

(** [load_pc] *)
Definition load_pc (nbt : nbt_index) (nid : Z) : pio prop_context :=
  e ← quiet (ok_or (nbt_get nbt nid) (NodeNotFound nid));
  load_pc_from_bids (bid_data e) (bid_sub e).

(** The aggregate preflight over the budgeted values and the listed entries. *)
Definition preflight (needed : gset Z) (entries : list subnode_entry) (body_byte_budget : Z)
    (budgeted_hnids : list (Z * Z)) : pio Z :=
  mfold (λ aggregate_hint ph,
      mfold (λ aggregate_hint entry,
          let raw_nid := wrap 32 (sub_nid entry) in
          if negb (raw_nid =? ph.2) || bool_decide (raw_nid ∉ needed) then mret aggregate_hint
          else
            hint ← block_payload_len_hint file bbt (sub_bid_data entry) crypt;
            let aggregate_hint := sat_add aggregate_hint hint in
            if body_byte_budget <? aggregate_hint
            then quiet (Err (ResourceLimit (BodyAggregate aggregate_hint ph.1 hint body_byte_budget)))
            else mret aggregate_hint) entries aggregate_hint)
    budgeted_hnids 0.

(** The subnode-stored values among [body_prop_ids], with their properties. *)
Definition budgeted (data : list byte) (body_prop_ids : list Z) : pres (list (Z * Z)) :=
  mfold (λ acc prop_id,
      hnid ← body_subnode_value_hnid data prop_id;
      Ok (match hnid with Some hnid => acc ++ [(prop_id, hnid)] | None => acc end)) body_prop_ids [].

(** [load_pc_from_bids_with_body_budget] *)
Definition load_pc_from_bids_with_body_budget (bid_data bid_sub : Z) (body_prop_ids : list Z)
    (body_byte_budget : Z) : pio prop_context :=
  data ← read_block_data file bbt bid_data crypt;
  budgeted_hnids ← quiet (budgeted data body_prop_ids);
  subnodes ← (if is_null bid_sub then mret ∅
              else
                needed ← quiet (referenced_subnode_nids data);
                if decide (needed = ∅) then mret ∅
                else
                  entries ← list_subnode_entries file bbt bid_sub;
                  _ ← preflight needed entries body_byte_budget budgeted_hnids;
                  read_needed needed entries);
  quiet (load_with_subnodes data subnodes).
End load.
