(* ===== verification/PropContextFacts.v ===== *)
(** * Facts about property contexts

    Loading and reading a property context is total; the targeted subnode load
    gives the same property values as reading every subnode; the body budget
    only ever turns a load into an error. *)

From S2P Require Import Prelude Telemetry PstError Crypt Header Btree Block BlockFacts Streaming Subnode Heap Bth Utf PropContext.

Lemma parse_pc_wf data : holds (parse_pc data) (λ hr, heap_wf hr.1).
Proof.
  unfold parse_pc. destruct (heap_parse data (node_block_size data)) as [h| | |] eqn:Hp; try done.
  2,3: by (pose proof (heap_parse_never_panics data (node_block_size data)) as H; rewrite Hp in H).
  assert (Hwf : heap_wf h).
  { eapply heap_parse_wf; [|done]. apply heap_parse_inv in Hp as [Hlen _].
    unfold node_block_size, MAX_BLOCK_DATA. case_match; lia. }
  rewrite bind_ok. apply holds_bind. eapply holds_mono; [by apply read_bth_header_spec|].
  intros hdr Hhdr. apply holds_bind. eapply holds_mono; [by apply collect_records_never_panics|]. done.
Qed.

Lemma decode_utf16le_never_panics bytes : never_panics (decode_utf16le bytes).
Proof. unfold decode_utf16le. by destruct (from_utf16 _). Qed.

Section context_facts.
Context (pc : prop_context) (Hwf : heap_wf (pc_heap pc)).

Lemma resolve_value_never_panics ty hnid : never_panics (resolve_value pc ty hnid).
Proof.
  pose proof (heap_get_never_panics (pc_heap pc) Hwf hnid) as Hg. unfold never_panics, resolve_value.
  repeat match goal with
  | |- holds (Ok _) _ => exact I
  | |- holds (heap_get _ _ ≫= _) _ => apply holds_bind; eapply holds_mono; [exact Hg|intros ? _]
  | |- holds (decode_utf16le ?b ≫= _) _ =>
      apply holds_bind; eapply holds_mono; [apply (decode_utf16le_never_panics b)|intros ? _]
  | |- context [if 8 <=? ?x then _ else _] => destruct (Z.leb_spec 8 x); run_reads
  | |- context [if ?b then _ else _] => destruct b
  | |- context [pc_subnodes pc !! ?k] => destruct (pc_subnodes pc !! k)
  end.
Qed.

Lemma pc_get_never_panics prop_id : never_panics (pc_get pc prop_id).
Proof.
  unfold pc_get. destruct (find_record _ _) as [r|]; [|done].
  destruct (zlen (rec_data r) <? 6) eqn:Hl; [done|]. bool_to_Z. run_reads. apply resolve_value_never_panics.
Qed.

Lemma get_object_never_panics prop_id : never_panics (get_object pc prop_id).
Proof.
  unfold get_object. destruct (get_raw_hnid _ _) as [[ty hnid]|]; [|done].
  destruct (negb _); [done|]. destruct (_ || _); [done|].
  apply holds_bind. eapply holds_mono; [by apply heap_get_never_panics|]. intros bytes _.
  destruct (zlen bytes <? 8) eqn:Hl; [done|]. bool_to_Z. by run_reads.
Qed.

Lemma prop_value_byte_len_never_panics prop_id : never_panics (prop_value_byte_len pc prop_id).
Proof.
  unfold prop_value_byte_len. destruct (get_raw_hnid _ _) as [[ty hnid]|]; [|done].
  destruct (_ || _ || _); [|done]. destruct (hid_is_null hnid); [done|]. destruct (negb _); [done|].
  apply holds_bind. eapply holds_mono; [by apply heap_get_never_panics|done].
Qed.
End context_facts.

(** ** The subnodes that are read *)

Section load_facts.
Context `{Crc : Crc32} (file : list byte) (bbt : bbt_index) (crypt : crypt_method) (Hwf : bbt_wf bbt).

Lemma load_with_subnodes_wf data subs : holds (load_with_subnodes data subs) (λ pc, heap_wf (pc_heap pc)).
Proof.
  unfold load_with_subnodes. apply holds_bind. eapply holds_mono; [apply parse_pc_wf|]. by intros [h rs] ?.
Qed.

Lemma referenced_never_panics data : never_panics (referenced_subnode_nids data).
Proof. unfold referenced_subnode_nids. apply holds_bind. eapply holds_mono; [apply parse_pc_wf|done]. Qed.

Lemma read_needed_never_panics needed entries : never_panics (outcome (read_needed file bbt crypt needed entries)).
Proof.
  unfold read_needed. autorewrite with outcome. eapply holds_mono; [apply (holds_mfold _ (λ _, True))|done]; [done|].
  intros subs e _ _. case_decide; [|done]. autorewrite with outcome. apply holds_bind.
  eapply holds_mono; [by apply read_block_data_bound|done].
Qed.

Lemma load_pc_from_bids_wf bid_data bid_sub :
  holds (outcome (load_pc_from_bids file bbt crypt bid_data bid_sub)) (λ pc, heap_wf (pc_heap pc)).
Proof.
  unfold load_pc_from_bids. autorewrite with outcome. apply holds_bind.
  eapply holds_mono; [by apply read_block_data_bound|]. intros data _. autorewrite with outcome. apply holds_bind.
  eapply holds_mono; [|intros subs _; autorewrite with outcome; apply load_with_subnodes_wf].
  instantiate (1 := λ _, True). cbv beta. destruct (is_null bid_sub); [done|]. autorewrite with outcome.
  apply holds_bind. eapply holds_mono; [apply referenced_never_panics|]. intros needed _.
  case_decide; [done|]. autorewrite with outcome. apply holds_bind.
  eapply holds_mono; [by apply list_subnode_entries_never_panics|]. intros entries _.
  apply read_needed_never_panics.
Qed.

(** The subnodes of a list of entries, read in order; a later entry replaces an
    earlier one with the same 32-bit NID. *)
Definition read_all (entries : list subnode_entry) : pres (list (Z * list byte)) :=
  rmap (λ e, bytes ← outcome (read_block_data file bbt (sub_bid_data e) crypt);
             Ok (wrap 32 (sub_nid e), bytes)) entries.
Definition subnode_map (nbs : list (Z * list byte)) : gmap Z (list byte) :=
  foldl (λ m nb, <[nb.1 := nb.2]> m) ∅ nbs.

Lemma subnode_map_snoc nbs n b : subnode_map (nbs ++ [(n, b)]) = <[n := b]> (subnode_map nbs).
Proof. unfold subnode_map. by rewrite foldl_app. Qed.

(** When every subnode is readable, the targeted read is the full map restricted
    to the needed NIDs. *)
Lemma read_needed_restricts needed entries nbs :
  read_all entries = Ok nbs →
  ∃ subs, outcome (read_needed file bbt crypt needed entries) = Ok subs ∧
    ∀ n, n ∈ needed → subs !! n = subnode_map nbs !! n.
Proof.
  unfold read_needed. autorewrite with outcome.
  assert (Hgen : ∀ (acc full : gmap Z (list byte)), (∀ n, n ∈ needed → acc !! n = full !! n) →
    read_all entries = Ok nbs →
    ∃ subs, mfold (λ b x, outcome (let raw_nid := wrap 32 (sub_nid x) in
        if decide (raw_nid ∈ needed) then
          bytes ← read_block_data file bbt (sub_bid_data x) crypt; mret (<[raw_nid:=bytes]> b)
        else mret b)) entries acc = Ok subs ∧
      ∀ n, n ∈ needed → subs !! n = foldl (λ m nb, <[nb.1 := nb.2]> m) full nbs !! n).
  { revert nbs. induction entries as [|e entries IH]; intros nbs acc full Hacc.
    { intros [= <-]. by exists acc. }
    intros ([n b] & nbs' & (bytes & Hb & [= <- <-])%bind_ok_inv & Hrest & ->)%rmap_cons_ok. cbn [mfold foldl].
    cbv zeta. case_decide as Hn; autorewrite with outcome; rewrite ?Hb, ?bind_ok; autorewrite with outcome;
      rewrite ?bind_ok; apply IH; try done; intros n' Hn'; cbn [fst snd].
    - destruct (decide (wrap 32 (sub_nid e) = n')) as [->|];
        [by rewrite !lookup_insert_eq|rewrite !lookup_insert_ne by done; auto].
    - rewrite lookup_insert_ne by (intros Heq; apply Hn; by rewrite Heq). auto. }
  intros Hall. by apply Hgen.
Qed.

(** The needed NIDs are those of the records that refer to a subnode. *)
Lemma referenced_spec data h records :
  parse_pc data = Ok (h, records) →
  ∃ needed, referenced_subnode_nids data = Ok needed ∧
    ∀ r, r ∈ records → 6 <= zlen (rec_data r) → refers_to_subnode r = true → record_hnid r ∈ needed.
Proof.
  intros Hp. unfold referenced_subnode_nids. rewrite Hp, bind_ok. eexists. split; [done|]. cbn [snd].
  assert (Hgen : ∀ (s : gset Z) r, (r ∈ records ∧ 6 <= zlen (rec_data r) ∧ refers_to_subnode r = true) ∨
      record_hnid r ∈ s → record_hnid r ∈ foldl (λ needed r,
      if zlen (rec_data r) <? 6 then needed
      else if refers_to_subnode r then {[record_hnid r]} ∪ needed else needed) s records).
  { clear Hp. induction records as [|r' rs IH]; intros s r; cbn [foldl]; [intros [[? _]|?]; [set_solver|done]|].
    intros Hr. apply IH. destruct Hr as [(Hin & Hl & Href)|Hs].
    - apply elem_of_cons in Hin as [->|Hin]; [|auto]. right.
      rewrite (proj2 (Z.ltb_ge _ _)), Href by done. set_solver.
    - right. destruct (_ <? 6); [done|]. destruct (refers_to_subnode r'); set_solver. }
  intros r Hin Hl Href. apply Hgen. auto.
Qed.

Lemma find_record_elem records prop_id r : find_record records prop_id = Some r → r ∈ records.
Proof. intros [Hin _]%find_some. by apply list_elem_of_In. Qed.

(** Values read through two subnode maps agree when the maps agree on what the
    records refer to. *)
Lemma pc_get_agrees h records subs subs' prop_id :
  (∀ r, r ∈ records → 6 <= zlen (rec_data r) → refers_to_subnode r = true →
     subs !! record_hnid r = subs' !! record_hnid r) →
  pc_get {| pc_heap := h; pc_records := records; pc_subnodes := subs |} prop_id =
  pc_get {| pc_heap := h; pc_records := records; pc_subnodes := subs' |} prop_id.
Proof.
  intros Hsubs. unfold pc_get. cbn [pc_records]. destruct (find_record records prop_id) as [r|] eqn:Hf; [|done].
  destruct (zlen (rec_data r) <? 6) eqn:Hl; [done|]. bool_to_Z. run_reads.
  apply find_record_elem in Hf. specialize (Hsubs r Hf Hl). unfold refers_to_subnode, record_type, record_hnid, subnode_typed in Hsubs.
  unfold resolve_value. cbn [pc_heap pc_subnodes].
  destruct (Z.eqb_spec (le_val (rec_data r) 0 2) 0x001F) as [->|].
  { cbn [Z.eqb Pos.eqb orb andb] in *. destruct (hid_is_null _); [done|].
    destruct (negb _); [by rewrite Hsubs|done]. }
  destruct (Z.eqb_spec (le_val (rec_data r) 0 2) 0x0102) as [->|]; [|done].
  cbn [Z.eqb Pos.eqb orb andb] in *. destruct (hid_is_null _); [done|].
  destruct (negb _); [by rewrite Hsubs|done].
Qed.
End load_facts.

Section budget_facts.
Context `{Crc : Crc32} (file : list byte) (bbt : bbt_index) (crypt : crypt_method).

(** Loading with a budget does what loading without it does, or fails. *)
Lemma budget_transparent bid_data bid_sub ids budget pc :
  outcome (load_pc_from_bids_with_body_budget file bbt crypt bid_data bid_sub ids budget) = Ok pc →
  outcome (load_pc_from_bids file bbt crypt bid_data bid_sub) = Ok pc.
Proof.
  unfold load_pc_from_bids_with_body_budget, load_pc_from_bids. autorewrite with outcome.
  intros (data & -> & H)%bind_ok_inv. rewrite bind_ok. revert H. autorewrite with outcome.
  intros (bh & _ & H)%bind_ok_inv. revert H. autorewrite with outcome.
  intros (subs & Hsubs & H)%bind_ok_inv.
  destruct (is_null bid_sub); [by injection Hsubs as <-|]. autorewrite with outcome in Hsubs |- *.
  apply bind_ok_inv in Hsubs as (needed & -> & Hsubs). rewrite !bind_ok. case_decide; [by injection Hsubs as <-|].
  autorewrite with outcome in Hsubs |- *. apply bind_ok_inv in Hsubs as (entries & -> & Hsubs).
  rewrite !bind_ok. autorewrite with outcome in Hsubs. apply bind_ok_inv in Hsubs as (_ & _ & Hsubs).
  by rewrite Hsubs, bind_ok.
Qed.

Context (Hwf : bbt_wf bbt).

(** The block IDs whose sizes a preflight adds up: for each budgeted value, the
    listed entries with its NID. *)
Definition is_budgeted (needed : gset Z) (hnid : Z) (e : subnode_entry) : bool :=
  (wrap 32 (sub_nid e) =? hnid) && bool_decide (wrap 32 (sub_nid e) ∈ needed).
Definition budgeted_blocks (needed : gset Z) (entries : list subnode_entry) (bh : list (Z * Z)) : list Z :=
  concat (map (λ ph, map sub_bid_data (List.filter (is_budgeted needed ph.2) entries)) bh).

(** One entry of the preflight, once it is known to be budgeted. *)
Definition add_hint (prop_id budget a bid : Z) : pres Z :=
  n ← len_hint file bbt bid;
  if budget <? sat_add a n then Err (ResourceLimit (BodyAggregate (sat_add a n) prop_id n budget))
  else Ok (sat_add a n).

Lemma mfold_ext {A B} (f g : B → A → pres B) l b :
  (∀ b x, f b x = g b x) → mfold f l b = mfold g l b.
Proof. intros H. revert b. induction l as [|x l IH]; intros b; [done|]. cbn. rewrite H. by apply bind_ext. Qed.

Lemma mfold_app {A B} (f : B → A → pres B) l k b : mfold f (l ++ k) b = (b' ← mfold f l b; mfold f k b').
Proof.
  revert b. induction l as [|x l IH]; intros b; [done|]. cbn. rewrite bind_assoc.
  apply bind_ext. intros b' _. apply IH.
Qed.

Lemma preflight_inner needed entries budget ph agg :
  outcome (mfold (λ aggregate_hint entry,
      let raw_nid := wrap 32 (sub_nid entry) in
      if negb (raw_nid =? ph.2) || bool_decide (raw_nid ∉ needed) then mret aggregate_hint
      else
        hint ← block_payload_len_hint file bbt (sub_bid_data entry) crypt;
        let aggregate_hint := sat_add aggregate_hint hint in
        if budget <? aggregate_hint
        then quiet (Err (ResourceLimit (BodyAggregate aggregate_hint ph.1 hint budget)))
        else mret aggregate_hint) entries agg : pio Z) =
  mfold (add_hint ph.1 budget) (map sub_bid_data (List.filter (is_budgeted needed ph.2) entries)) agg.
Proof.
  autorewrite with outcome. revert agg. induction entries as [|e entries IH]; intros agg; [done|].
  cbn [mfold List.filter]. cbv zeta. unfold is_budgeted at 1.
  destruct (wrap 32 (sub_nid e) =? ph.2); cbn [negb orb andb].
  2:{ rewrite outcome_ret, bind_ok. apply IH. }
  destruct (decide (wrap 32 (sub_nid e) ∈ needed)) as [Hin|Hin].
  - rewrite bool_decide_false by tauto. rewrite bool_decide_true by done. cbn [map mfold].
    change (add_hint ph.1 budget agg (sub_bid_data e)) with
      (n ← len_hint file bbt (sub_bid_data e);
       if budget <? sat_add agg n then Err (ResourceLimit (BodyAggregate (sat_add agg n) ph.1 n budget))
       else Ok (sat_add agg n)).
    rewrite outcome_bind, outcome_len_hint, !bind_assoc by done.
    apply bind_ext. intros n _. destruct (budget <? _); [done|]. rewrite outcome_ret, !bind_ok. apply IH.
  - rewrite bool_decide_true by done. rewrite bool_decide_false by done.
    rewrite outcome_ret, bind_ok. apply IH.
Qed.

Lemma add_hints_ok prop_id budget bids agg agg' :
  mfold (add_hint prop_id budget) bids agg = Ok agg' →
  ∃ hints, rmap (len_hint file bbt) bids = Ok hints ∧ agg' = foldl sat_add agg hints ∧ (hints = [] ∨ agg' <= budget).
Proof.
  revert agg. induction bids as [|b bids IH]; intros agg; [intros [= <-]; exists []; auto|].
  cbn [mfold]. intros (a & (n & Hn & Ha)%bind_ok_inv & (hints & Hh & -> & Hb)%IH)%bind_ok_inv.
  destruct (budget <? sat_add agg n) eqn:Hc; [done|]. injection Ha as <-. bool_to_Z.
  exists (n :: hints). split; [by rewrite rmap_cons, Hn, bind_ok, Hh|]. split; [done|].
  right. destruct Hb as [->|?]; done.
Qed.

Lemma foldl_sat_add hints budget : Forall (Z.le 0) hints → budget < U64_MAX →
  ∀ agg, 0 <= agg → foldl sat_add agg hints <= budget → agg + foldr Z.add 0 hints <= budget.
Proof.
  intros Hh Hb. induction Hh as [|n hints Hn Hh IH]; intros agg Hagg; cbn [foldl foldr]; [lia|].
  intros Hf. assert (0 <= sat_add agg n) by (unfold sat_add, U64_MAX; lia).
  apply IH in Hf; [|done]. unfold sat_add in Hf.
  assert (0 <= foldr Z.add 0 hints) by (clear -Hh; induction Hh; cbn; lia). lia.
Qed.

Lemma preflight_ok needed entries budget bh agg agg' :
  outcome (mfold (λ aggregate_hint ph,
      mfold (λ aggregate_hint entry,
          let raw_nid := wrap 32 (sub_nid entry) in
          if negb (raw_nid =? ph.2) || bool_decide (raw_nid ∉ needed) then mret aggregate_hint
          else
            hint ← block_payload_len_hint file bbt (sub_bid_data entry) crypt;
            let aggregate_hint := sat_add aggregate_hint hint in
            if budget <? aggregate_hint
            then quiet (Err (ResourceLimit (BodyAggregate aggregate_hint ph.1 hint budget)))
            else mret aggregate_hint) entries aggregate_hint) bh agg : pio Z) = Ok agg' →
  ∃ hints, rmap (len_hint file bbt) (budgeted_blocks needed entries bh) = Ok hints ∧
    agg' = foldl sat_add agg hints ∧ (hints = [] ∨ agg' <= budget).
Proof.
  rewrite outcome_mfold. revert agg. induction bh as [|ph bh IH]; intros agg.
  { intros [= <-]. exists []. auto. }
  cbn [mfold]. rewrite preflight_inner.
  intros (a & (h1 & Hh1 & -> & Hb1)%add_hints_ok & (h2 & Hh2 & -> & Hb2)%IH)%bind_ok_inv.
  exists (h1 ++ h2). unfold budgeted_blocks. cbn [map concat]. rewrite rmap_app, Hh1, bind_ok.
  fold (budgeted_blocks needed entries bh). rewrite Hh2, bind_ok, foldl_app. split_and!; [done..|].
  destruct Hb2 as [->|?]; [|auto]. rewrite app_nil_r. cbn. destruct Hb1; auto.
Qed.

Lemma len_hint_nonneg bid n : len_hint file bbt bid = Ok n → 0 <= n.
Proof.
  unfold len_hint. destruct (is_null bid); [by intros [= <-]|]. intros (p & _ & H)%bind_ok_inv.
  destruct (negb _); [injection H as <-; apply zlen_nonneg|]. destruct (_ <? 8); [done|].
  destruct (_ && _); [|done]. injection H as <-. by apply le_val_range.
Qed.
End budget_facts.

(** ** A message node with its body in a subnode

    Block 0x14 holds a property context whose one record is the body (0x1000,
    PtypString) stored in subnode 0x3F; the subnode tree 0x32 maps it to XBLOCK
    0x22 over leaf 0x10 ("AB").  [lcb] is the length that the XBLOCK claims. *)
Definition body_pc : list byte :=
  zbytes ([28; 0; 0xEC; 0xBC; 0x20; 0; 0; 0; 0; 0; 0; 0] ++ [0xB5; 2; 6; 0; 0x40; 0; 0; 0] ++
          [0x00; 0x10; 0x1F; 0; 0x3F; 0; 0; 0] ++ [2; 0; 0; 0; 12; 0; 20; 0; 28; 0]).
Definition body_file (lcb : Z) : list byte :=
  mk_block (zbytes [65; 0; 66; 0]) ++
  mk_block (zbytes [1; 1; 1; 0] ++ le_split 4 lcb ++ le_split 8 0x10) ++
  mk_block (zbytes [2; 0; 1; 0; 0; 0; 0; 0] ++ le_split 8 0x3F ++ le_split 8 0x22 ++ le_split 8 0) ++
  mk_block body_pc.
Definition body_bbt : bbt_index :=
  list_to_map [fixture_entry 0x10 0 4; fixture_entry 0x22 80 16; fixture_entry 0x32 160 32; fixture_entry 0x14 240 38].

Lemma body_bbt_wf : bbt_wf body_bbt.
Proof.
  unfold bbt_wf, body_bbt, fixture_entry. simpl.
  repeat (apply map_Forall_insert_2; [simpl; lia|]). apply map_Forall_empty.
Qed.

Definition body_heap : heap :=
  {| heap_data := body_pc; block_size := 38;
     hn := {| ib_hnpm := 28; b_sig := 0xEC; b_client_sig := 0xBC; hid_user_root := 0x20; rgb_fill_level := 0 |} |}.
Definition body_record : bth_record :=
  {| rec_key := zbytes [0x00; 0x10]; rec_data := zbytes [0x1F; 0; 0x3F; 0; 0; 0] |}.
Definition body_context : prop_context :=
  {| pc_heap := body_heap; pc_records := [body_record]; pc_subnodes := {[ 0x3F := zbytes [65; 0; 66; 0] ]} |}.

Section properties.
Context `{Crc : Crc32}.

(** Property contexts are read safely: loading a context from any blocks, and
    reading any property of a loaded context, returns a value or an error and
    never panics, whatever bytes the heap, the records and the values hold. *)
Theorem property_reads_total file bbt crypt bid_data bid_sub (Hwf : bbt_wf bbt) :
  holds (outcome (load_pc_from_bids file bbt crypt bid_data bid_sub)) (λ pc, ∀ prop_id,
    never_panics (pc_get pc prop_id) ∧ never_panics (get_object pc prop_id) ∧
    never_panics (prop_value_byte_len pc prop_id)).
Proof.
  eapply holds_mono; [by apply load_pc_from_bids_wf|]. intros pc Hpc prop_id.
  split_and!; [by apply pc_get_never_panics|by apply get_object_never_panics|
    by apply prop_value_byte_len_never_panics].
Qed.

(** C35 Reading only the referenced subnodes loses nothing: when the node's data
    parses and every entry of its subnode tree is readable, the targeted load
    succeeds and every property has the value it has with all subnodes loaded. *)
Theorem targeted_load_transparent file bbt crypt bid_data bid_sub data entries nbs eager
    (Hwf : bbt_wf bbt) (Hsub : is_null bid_sub = false)
    (Hdata : outcome (read_block_data file bbt bid_data crypt) = Ok data)
    (Hentries : outcome (list_subnode_entries file bbt bid_sub) = Ok entries)
    (Hall : read_all file bbt crypt entries = Ok nbs)
    (Heager : load_with_subnodes data (subnode_map nbs) = Ok eager) :
  ∃ pc, outcome (load_pc_from_bids file bbt crypt bid_data bid_sub) = Ok pc ∧
    ∀ prop_id, pc_get pc prop_id = pc_get eager prop_id.
Proof.
  unfold load_with_subnodes in Heager. apply bind_ok_inv in Heager as ([h records] & Hp & [= <-]).
  destruct (referenced_spec bbt Hwf data h records Hp) as (needed & Href & Hneeded).
  assert (Hload : ∀ subs, load_with_subnodes data subs =
            Ok {| pc_heap := h; pc_records := records; pc_subnodes := subs |}).
  { intros subs. unfold load_with_subnodes. by rewrite Hp. }
  unfold load_pc_from_bids. autorewrite with outcome.
  rewrite Hdata, bind_ok, Hsub. autorewrite with outcome. rewrite Href, bind_ok.
  case_decide as He.
  - autorewrite with outcome. rewrite Hload. eexists; split; [done|].
    intros prop_id. apply pc_get_agrees. intros r Hin Hl Hr. pose proof (Hneeded r Hin Hl Hr) as Hn. rewrite He in Hn. by apply not_elem_of_empty in Hn.
  - autorewrite with outcome. rewrite Hentries, bind_ok.
    destruct (read_needed_restricts file bbt crypt needed entries nbs Hall) as (subs & -> & Hsubs).
    rewrite bind_ok. autorewrite with outcome. rewrite Hload. eexists; split; [done|].
    intros prop_id. apply pc_get_agrees. intros r Hin Hl Hr. by apply Hsubs, Hneeded.
Qed.

(** The body budget: a load that succeeds with a budget is the load without
    one, and the length hints of the budgeted body subnodes add up to no more
    than the budget. *)
Theorem body_budget_respected file bbt crypt bid_data bid_sub ids budget pc data needed entries bh
    (Hwf : bbt_wf bbt) (Hbudget : budget < U64_MAX) (Hsub : is_null bid_sub = false)
    (Hdata : outcome (read_block_data file bbt bid_data crypt) = Ok data)
    (Hneeded : referenced_subnode_nids data = Ok needed)
    (Hentries : outcome (list_subnode_entries file bbt bid_sub) = Ok entries)
    (Hbh : budgeted data ids = Ok bh)
    (Hload : outcome (load_pc_from_bids_with_body_budget file bbt crypt bid_data bid_sub ids budget) = Ok pc) :
  outcome (load_pc_from_bids file bbt crypt bid_data bid_sub) = Ok pc ∧
  ∃ hints, rmap (len_hint file bbt) (budgeted_blocks needed entries bh) = Ok hints ∧
    (hints = [] ∨ foldr Z.add 0 hints <= budget).
Proof.
  split; [by eapply budget_transparent|]. revert Hload. unfold load_pc_from_bids_with_body_budget.
  autorewrite with outcome. rewrite Hdata, bind_ok. autorewrite with outcome. rewrite Hbh, bind_ok, Hsub.
  autorewrite with outcome. rewrite Hneeded, bind_ok. case_decide as He.
  - intros _. exists []. split; [|auto]. subst needed. unfold budgeted_blocks.
    replace (concat _) with (@nil Z); [done|]. clear. induction bh as [|ph bh IH]; [done|]. cbn [map concat].
    rewrite <-IH, app_nil_r. clear. induction entries as [|e es IH]; [done|]. cbn [List.filter].
    unfold is_budgeted at 1. rewrite (bool_decide_false (wrap 32 (sub_nid e) ∈ ∅)), andb_false_r by set_solver.
    exact IH.
  - autorewrite with outcome. rewrite Hentries, bind_ok. autorewrite with outcome.
    intros (subs & (agg & Hpre & _)%bind_ok_inv & _)%bind_ok_inv.
    apply preflight_ok in Hpre as (hints & Hh & -> & Hb); [|done]. exists hints. split; [done|].
    destruct Hb as [?|Hb]; [auto|right]. apply (foldl_sat_add _ _) in Hb; [lia| |done|lia].
    clear -Hh Hwf. revert hints Hh. generalize (budgeted_blocks needed entries bh). intros bids.
    induction bids as [|b bids IH]; intros hints; [intros [= <-]; constructor|].
    intros (n & ns & Hn & Hns & ->)%rmap_cons_ok. constructor; [by eapply len_hint_nonneg|auto].
Qed.

End properties.

Lemma property_reads_total_witness :
  holds (outcome (load_pc_from_bids (body_file 4) body_bbt CryptNone 0x14 0x32)) (λ pc, ∀ prop_id,
    never_panics (pc_get pc prop_id) ∧ never_panics (get_object pc prop_id) ∧
    never_panics (prop_value_byte_len pc prop_id)).
Proof. exact (property_reads_total (body_file 4) body_bbt CryptNone 0x14 0x32 body_bbt_wf). Defined.

Definition body_entry : subnode_entry := {| sub_nid := 0x3F; sub_bid_data := 0x22; sub_bid_sub := 0 |}.

Lemma targeted_load_transparent_witness :
  ∃ pc, outcome (load_pc_from_bids (body_file 4) body_bbt CryptNone 0x14 0x32) = Ok pc ∧
    ∀ prop_id, pc_get pc prop_id = pc_get body_context prop_id.
Proof.
  apply (targeted_load_transparent (body_file 4) body_bbt CryptNone 0x14 0x32 body_pc
           [body_entry] [(0x3F, zbytes [65; 0; 66; 0])] body_context body_bbt_wf); vm_compute; reflexivity.
Defined.

Lemma body_budget_respected_witness :
  outcome (load_pc_from_bids (body_file 4) body_bbt CryptNone 0x14 0x32) = Ok body_context ∧
  ∃ hints, rmap (len_hint (body_file 4) body_bbt)
    (budgeted_blocks {[ 0x3F ]} [body_entry] [(0x1000, 0x3F)]) = Ok hints ∧ (hints = [] ∨ foldr Z.add 0 hints <= 4).
Proof.
  apply (body_budget_respected (body_file 4) body_bbt CryptNone 0x14 0x32 [0x1000] 4 body_context
           body_pc {[ 0x3F ]} [body_entry] [(0x1000, 0x3F)] body_bbt_wf); vm_compute; reflexivity.
Defined.

(** The budget bounds the claimed length, not the length read: when the XBLOCK
    of a body claims [lcbTotal = 0], a load with budget 0 succeeds, and the body
    it has read is not empty. *)
Theorem body_budget_trusts_lcb_total :
  outcome (load_pc_from_bids_with_body_budget (body_file 0) body_bbt CryptNone 0x14 0x32 [0x1000] 0) = Ok body_context ∧
  prop_value_byte_len body_context 0x1000 = Ok (Some 4).
Proof. split; vm_compute; reflexivity. Qed.
