(* ===== verification/TableContext.v ===== *)
(** * Table contexts (pst-reader/src/ltp/tc.rs)

    A table is a heap with column descriptors, a row matrix (inline in the heap or
    in a subnode) and a BTH that maps row IDs to matrix rows.  The loader reaches
    subnodes through the [SubnodeResolver] interface only: the theorems about the
    loader are proved for any lawful resolver, and the block-backed resolver that
    [load_tc] builds is shown to be lawful. *)

From S2P Require Import Prelude Telemetry PstError Crypt Header Btree Block BlockFacts Streaming Subnode Heap Bth Utf PropContext PropContextFacts.

(** ** The resolver interface *)

(** [trait SubnodeResolver] *)
Class SubnodeResolver (R : Type) := resolve_subnode : R → Z → pio (list byte).

(** What the loader relies on: a lookup returns bytes or an error. *)
Class LawfulResolver (R : Type) `{SubnodeResolver R} (r : R) : Prop :=
  resolve_never_panics : ∀ nid, never_panics (outcome (resolve_subnode r nid)).

(** [BlockSubnodeResolver] *)
Record block_resolver := {
  br_file : list byte; br_bbt : bbt_index; br_bid_sub : Z; br_crypt : crypt_method }.

#[export] Instance block_subnode_resolver `{Crc32} : SubnodeResolver block_resolver := λ r nid,
  if is_null (br_bid_sub r) then quiet (Err (SubnodeNotFound nid))
  else
    entry ← find_subnode_entry (br_file r) (br_bbt r) (br_bid_sub r) nid;
    match entry with
    | None => quiet (Err (SubnodeNotFound nid))
    | Some entry => read_block_data (br_file r) (br_bbt r) (sub_bid_data entry) (br_crypt r)
    end.

(** ** The table *)

Record tc_column := { prop_id : Z; prop_type : Z; ib_data : Z; cb_data : Z; i_bit : Z }.

Record tc_info := {
  c_cols : Z; rgib : Z * Z * Z * Z; hid_row_index : Z; hnid_rows : Z; columns : list tc_column }.

Record table_context := {
  tc_heap : heap; info : tc_info; row_data : list byte; row_size : Z; row_count : Z;
  row_ids : list Z; cell_subnodes : gmap Z (list byte) }.

(** A TCOLDESC. *)
Definition parse_column (data : list byte) (col_offset : Z) : pres tc_column :=
  col_data ← slice data col_offset (col_offset + 8);
  id ← le_at col_data 0 2;
  ty ← le_at col_data 2 2;
  ib ← le_at col_data 4 2;
  cb ← index col_data 6;
  bit ← index col_data 7;
  Ok {| prop_id := id; prop_type := ty; ib_data := ib; cb_data := cb; i_bit := bit |}.

(** [TableContext::parse_tc_info] *)
Definition parse_tc_info (data : list byte) : pres tc_info :=
  if zlen data <? 18 then Err (DataTruncated 18 (zlen data))
  else
    _ ← index data 0;
    cols ← index data 1;
    r0 ← le_at data 2 2; r1 ← le_at data 4 2; r2 ← le_at data 6 2; r3 ← le_at data 8 2;
    row_index ← le_at data 10 4;
    rows ← le_at data 14 4;
    cs ← rmap (parse_column data) (entry_offsets 8 (zlen data) 18 (Z.to_nat cols));
    Ok {| c_cols := cols; rgib := (r0, r1, r2, r3); hid_row_index := row_index; hnid_rows := rows;
          columns := cs |}.

(** The matrix index in a RowIndex record: 4, 2 or 1 bytes. *)
Definition row_index_of (data : list byte) : pres (option Z) :=
  if 4 <=? zlen data then v ← le_at data 0 4; Ok (Some v)
  else if zlen data =? 2 then v ← le_at data 0 2; Ok (Some v)
  else if zlen data =? 1 then v ← index data 0; Ok (Some v)
  else Ok None.

(** One record of [load_row_ids]. *)
Definition record_row_id (ids : list Z) (rec : bth_record) : pres (list Z) :=
  if zlen (rec_key rec) <? 4 then Ok ids
  else
    row_id ← le_at (rec_key rec) 0 4;
    row_index ← row_index_of (rec_data rec);
    match row_index with
    | None => Ok ids
    | Some row_index => if row_index <? zlen ids then Ok (<[Z.to_nat row_index := row_id]> ids) else Ok ids
    end.

(** [TableContext::load_row_ids]: an unreadable RowIndex leaves every ID unknown. *)
Definition load_row_ids (h : heap) (inf : tc_info) (count : Z) : pres (list Z) :=
  let ids := replicate (Z.to_nat count) 0 in
  if hid_is_null (hid_row_index inf) || (count =? 0) then Ok ids
  else
    match read_bth_header h (hid_row_index inf) with
    | Err _ => Ok ids
    | Panic => Panic
    | NoFuel => NoFuel
    | Ok header =>
        match collect_records h header with
        | Err _ => Ok ids
        | Panic => Panic
        | NoFuel => NoFuel
        | Ok records => mfold record_row_id records ids
        end
    end.

(** [usize::checked_div(..).unwrap_or(0)] *)
Definition div_or_zero (a b : Z) : Z := if b =? 0 then 0 else a / b.

(** The [while] loop of [extract_rows_per_block]; one iteration per 8176-byte block. *)
Fixpoint extract_loop (fuel : nat) (payload : list byte) (size row_bytes_per_block offset : Z)
    (out : list byte) : pres (list byte) :=
  match fuel with
  | O => NoFuel
  | S fuel =>
      if offset <? zlen payload then
        let remaining := zlen payload - offset in
        if MAX_BLOCK_DATA <? remaining then
          rows ← slice payload offset (offset + row_bytes_per_block);
          extract_loop fuel payload size row_bytes_per_block (offset + MAX_BLOCK_DATA) (out ++ rows)
        else
          let n := div_or_zero remaining size in
          rows ← slice payload offset (offset + n * size);
          Ok (out ++ rows)
      else Ok out
  end.

(** The blocks of a payload, and one iteration for the final test. *)
Definition extract_fuel (payload : list byte) : nat := S (Z.to_nat (zlen payload / MAX_BLOCK_DATA + 1)).

(** [extract_rows_per_block] *)
Definition extract_rows_per_block (payload : list byte) (size : Z) : pres (list byte * Z) :=
  if size =? 0 then Err (ResourceLimit TcRowWidthZero)
  else
    let rows_per_block := MAX_BLOCK_DATA / size in
    if rows_per_block =? 0 then Err (ResourceLimit (TcRowWidthTooBig size))
    else
      out ← extract_loop (extract_fuel payload) payload size (rows_per_block * size) 0 [];
      Ok (out, div_or_zero (zlen out) size).

(** The columns whose cells hold heap or subnode IDs. *)
Definition is_hnid_column (col : tc_column) : bool :=
  (cb_data col =? 4) && ((prop_type col =? 0x001F) || (prop_type col =? 0x001E) || (prop_type col =? 0x0102)).

Section load.
Context {R : Type} `{SubnodeResolver R}.

(** One cell of [collect_cell_subnodes]. *)
Definition collect_cell (resolver : R) (rows : list byte) (row_start : Z)
    (out : gmap Z (list byte)) (col : tc_column) : pio (gmap Z (list byte)) :=
  if negb (is_hnid_column col) then mret out
  else
    let data_offset := row_start + ib_data col in
    if zlen rows <? data_offset + 4 then mret out
    else
      hnid ← quiet (le_at rows data_offset 4);
      if hnid =? 0 then mret out
      else if (hid_type hnid =? 0) || bool_decide (is_Some (out !! hnid)) then mret out
      else
        match resolve_subnode resolver hnid with
        | (Ok bytes, l) => (Ok (<[hnid := bytes]> out), l)
        | (Err e, l) => if is_subnode_not_found e then (Ok out, l) else (Err e, l)
        | (Panic, l) => (Panic, l)
        | (NoFuel, l) => (NoFuel, l)
        end.

(** [collect_cell_subnodes] *)
Definition collect_cell_subnodes (inf : tc_info) (rows : list byte) (size count : Z) (resolver : R)
    : pio (gmap Z (list byte)) :=
  if (size =? 0) || (count =? 0) then mret ∅
  else
    mfold (λ out row_index,
        mfold (collect_cell resolver rows (Z.of_nat row_index * size)) (columns inf) out)
      (seq 0 (Z.to_nat count)) ∅.

(** The row matrix of [load_inner]. *)
Definition load_rows (h : heap) (inf : tc_info) (size : Z) (resolver : option R) : pio (list byte * Z) :=
  if hnid_rows inf =? 0 then mret ([], 0)
  else if hid_type (hnid_rows inf) =? 0 then
    inline_data ← quiet (heap_get h (hnid_rows inf));
    mret (inline_data, div_or_zero (zlen inline_data) size)
  else
    r ← quiet (ok_or resolver (SubnodeNotFound (hnid_rows inf)));
    payload ← resolve_subnode r (hnid_rows inf);
    quiet (extract_rows_per_block payload size).

(** [load_inner], [TableContext::load], [TableContext::load_with_resolver] *)
Definition load_inner (data : list byte) (resolver : option R) : pio table_context :=
  h ← quiet (heap_parse data (node_block_size data));
  tc_data ← quiet (heap_get h (hid_user_root (hn h)));
  inf ← quiet (parse_tc_info tc_data);
  let size := (rgib inf).2 in
  rc ← load_rows h inf size resolver;
  cells ← (match resolver with
           | Some r => collect_cell_subnodes inf rc.1 size rc.2 r
           | None => mret ∅
           end);
  ids ← quiet (load_row_ids h inf rc.2);
  mret {| tc_heap := h; info := inf; row_data := rc.1; row_size := size; row_count := rc.2;
          row_ids := ids; cell_subnodes := cells |}.
End load.

Section getters.
Context (t : table_context).

Definition find_column (id : Z) : option tc_column :=
  find (λ c, prop_id c =? id) (columns (info t)).

(** [TableContext::get_row_id] *)
Definition get_row_id (row_index : Z) : option Z :=
  id ← row_ids t !! Z.to_nat row_index; if id =? 0 then None else Some id.

(** [TableContext::get_row_u32]; the inner result is the outcome of the reads. *)
Definition get_row_u32 (row_index id : Z) : pres (option Z) :=
  match find_column id with
  | None => Ok None
  | Some col =>
      let data_offset := row_index * row_size t + ib_data col in
      let data_end := data_offset + cb_data col in
      if zlen (row_data t) <? data_end then Ok None
      else if cb_data col =? 4 then v ← le_at (row_data t) data_offset 4; Ok (Some v)
      else if cb_data col =? 2 then v ← le_at (row_data t) data_offset 2; Ok (Some v)
      else if cb_data col =? 1 then v ← index (row_data t) data_offset; Ok (Some v)
      else Ok None
  end.

(** [TableContext::get_row_u64] *)
Definition get_row_u64 (row_index id : Z) : pres (option Z) :=
  match find_column id with
  | None => Ok None
  | Some col =>
      let data_offset := row_index * row_size t + ib_data col in
      if negb (cb_data col =? 8) || (zlen (row_data t) <? data_offset + 8) then Ok None
      else v ← le_at (row_data t) data_offset 8; Ok (Some v)
  end.

(** [TableContext::get_row_string] *)
Definition get_row_string (row_index id : Z) : pres (option rstring) :=
  match find_column id with
  | None => Ok None
  | Some col =>
      if negb (prop_type col =? 0x001F) then Ok None
      else
        let data_offset := row_index * row_size t + ib_data col in
        if (cb_data col =? 4) && (data_offset + 4 <=? zlen (row_data t)) then
          hnid ← le_at (row_data t) data_offset 4;
          if hnid =? 0 then Ok (Some [])
          else
            bytes ← (if hid_type hnid =? 0 then heap_get (tc_heap t) hnid
                     else ok_or (cell_subnodes t !! hnid) (SubnodeNotFound hnid));
            s ← decode_utf16le bytes;
            Ok (Some s)
        else Ok None
  end.
End getters.

(** [load_from_table_bids] and [load_tc] *)
Definition load_from_table_bids `{Crc32} (data : list byte) (file : list byte) (bbt : bbt_index)
    (bid_sub : Z) (crypt : crypt_method) : pio table_context :=
  load_inner data (Some {| br_file := file; br_bbt := bbt; br_bid_sub := bid_sub; br_crypt := crypt |}).

Definition load_tc `{Crc32} (file : list byte) (nbt : nbt_index) (bbt : bbt_index) (nid : Z)
    (crypt : crypt_method) : pio table_context :=
  e ← quiet (ok_or (nbt_get nbt nid) (NodeNotFound nid));
  data ← read_block_data file bbt (bid_data e) crypt;
  load_inner data (Some {| br_file := file; br_bbt := bbt; br_bid_sub := bid_sub e; br_crypt := crypt |}).
