(* ===== verification/TableContextFacts.v ===== *)
(** * Facts about table contexts

    Unpacking a subnode row matrix gives exactly the rows of its blocks; loading a
    table through any lawful resolver and reading its cells is total; the
    block-backed resolver is lawful. *)

From S2P Require Import Prelude Telemetry PstError Crypt Header Btree Block BlockFacts Streaming Subnode Heap Bth Utf PropContext PropContextFacts TableContext.

(** ** Rows of a multi-block matrix *)

Definition rows_per_block (size : Z) : Z := MAX_BLOCK_DATA / size.

(** The bytes of row [i]: rows are packed from the start of each 8176-byte block
    and never cross into the next. *)
Definition row_at (payload : list byte) (size i : Z) : list byte :=
  sub payload (i / rows_per_block size * MAX_BLOCK_DATA + i mod rows_per_block size * size) size.

(** The number of rows: full blocks before the last one, and the rows of the last. *)
Definition row_total (payload : list byte) (size : Z) : Z :=
  if zlen payload =? 0 then 0
  else
    let full := (zlen payload - 1) / MAX_BLOCK_DATA in
    full * rows_per_block size + (zlen payload - full * MAX_BLOCK_DATA) / size.

Lemma sub_rows {A} (l : list A) a size n :
  0 <= a → 0 <= size → a + Z.of_nat n * size <= zlen l →
  sub l a (Z.of_nat n * size) = concat (map (λ j, sub l (a + Z.of_nat j * size) size) (seq 0 n)).
Proof.
  intros Ha Hs. revert a Ha. induction n as [|n IH]; intros a Ha Hlen; [done|].
  cbn [seq map concat]. rewrite <-seq_shift, map_map.
  replace (concat (map _ _)) with (sub l (a + size) (Z.of_nat n * size)).
  - replace (a + Z.of_nat 0 * size) with a by lia. unfold sub.
    replace (Z.to_nat (Z.of_nat (S n) * size)) with (Z.to_nat size + Z.to_nat (Z.of_nat n * size))%nat by lia.
    rewrite <-take_take_drop, drop_drop. do 2 f_equal. f_equal. lia.
  - rewrite IH by lia. f_equal. apply map_ext. intros j. f_equal. lia.
Qed.

Section extract.
Context (payload : list byte) (size : Z) (Hsize : 1 <= size <= MAX_BLOCK_DATA).

Abbreviation rpb := (rows_per_block size).
Definition rows_upto (n : nat) : list byte := concat (map (λ i, row_at payload size (Z.of_nat i)) (seq 0 n)).

Lemma rpb_pos : 1 <= rpb.
Proof. unfold rows_per_block. apply Z.div_le_lower_bound; lia. Qed.

Lemma rpb_bytes : rpb * size <= MAX_BLOCK_DATA.
Proof. unfold rows_per_block. pose proof (Z.mul_div_le MAX_BLOCK_DATA size). lia. Qed.

(** The rows of block [k] extend the rows before it. *)
Lemma rows_of_block k n :
  Z.of_nat n <= rpb → Z.of_nat k * MAX_BLOCK_DATA + Z.of_nat n * size <= zlen payload →
  rows_upto (k * Z.to_nat rpb + n) =
  rows_upto (k * Z.to_nat rpb) ++ sub payload (Z.of_nat k * MAX_BLOCK_DATA) (Z.of_nat n * size).
Proof.
  intros Hn Hlen. pose proof rpb_pos. unfold rows_upto. rewrite seq_app, map_app, concat_app. f_equal.
  rewrite sub_rows by (unfold MAX_BLOCK_DATA in *; lia). f_equal. rewrite Nat.add_0_l.
  rewrite <-(Nat.add_0_r (k * Z.to_nat rpb)) at 1. rewrite <-fmap_add_seq.
  change (fmap ?f ?l) with (map f l). rewrite map_map. apply map_ext_in. intros j [_ Hj]%in_seq.
  unfold row_at. f_equal.
  assert (Hq : Z.of_nat (k * Z.to_nat rpb + j) = rpb * Z.of_nat k + Z.of_nat j) by lia.
  rewrite <-(Z.div_unique _ rpb (Z.of_nat k) (Z.of_nat j)) by lia.
  rewrite <-(Z.mod_unique _ rpb (Z.of_nat k) (Z.of_nat j)) by lia. lia.
Qed.

Lemma extract_loop_spec fuel k :
  zlen payload / MAX_BLOCK_DATA + 1 < Z.of_nat fuel + Z.of_nat k →
  (k = 0%nat ∨ Z.of_nat k * MAX_BLOCK_DATA < zlen payload) →
  extract_loop fuel payload size (rpb * size) (Z.of_nat k * MAX_BLOCK_DATA) (rows_upto (k * Z.to_nat rpb)) =
  Ok (rows_upto (Z.to_nat (row_total payload size))).
Proof.
  pose proof rpb_pos. pose proof rpb_bytes. pose proof (zlen_nonneg payload) as Hpos.
  revert k. induction fuel as [|fuel IH]; intros k Hf Hk.
  { exfalso. destruct Hk as [->|Hk]; [pose proof (Z.div_pos (zlen payload) MAX_BLOCK_DATA); unfold MAX_BLOCK_DATA in *; lia|].
    assert (Z.of_nat k <= zlen payload / MAX_BLOCK_DATA); [|lia].
    apply Z.div_le_lower_bound; unfold MAX_BLOCK_DATA in *; lia. }
  cbn [extract_loop]. case_match eqn:Hoff; bool_to_Z.
  2:{ destruct Hk as [->|Hk]; [|lia]. unfold row_total. by rewrite (proj2 (Z.eqb_eq _ 0)) by lia. }
  cbv zeta. case_match eqn:Hrem; bool_to_Z.
  - rewrite slice_ok by (unfold MAX_BLOCK_DATA in *; lia). rewrite bind_ok.
    replace (Z.of_nat k * MAX_BLOCK_DATA + rpb * size - Z.of_nat k * MAX_BLOCK_DATA)
      with (Z.of_nat (Z.to_nat rpb) * size) by lia.
    rewrite <-rows_of_block by lia.
    replace (Z.of_nat k * MAX_BLOCK_DATA + MAX_BLOCK_DATA) with (Z.of_nat (S k) * MAX_BLOCK_DATA) by lia.
    replace (k * Z.to_nat rpb + Z.to_nat rpb)%nat with (S k * Z.to_nat rpb)%nat by lia.
    apply IH; [lia|right; lia].
  - unfold div_or_zero. rewrite (proj2 (Z.eqb_neq size 0)) by lia.
    set (rem := zlen payload - Z.of_nat k * MAX_BLOCK_DATA) in *.
    assert (0 <= Z.of_nat k * MAX_BLOCK_DATA) by (unfold MAX_BLOCK_DATA; lia).
    pose proof (Z.mul_div_le rem size ltac:(lia)). pose proof (Z.div_pos rem size ltac:(lia) ltac:(lia)).
    rewrite slice_ok by lia. rewrite bind_ok.
    replace (Z.of_nat k * MAX_BLOCK_DATA + rem / size * size - Z.of_nat k * MAX_BLOCK_DATA)
      with (Z.of_nat (Z.to_nat (rem / size)) * size) by lia.
    assert (rem / size <= rpb) by (unfold rows_per_block; apply Z.div_le_mono; lia).
    rewrite <-rows_of_block by lia. do 2 f_equal. unfold row_total.
    rewrite (proj2 (Z.eqb_neq (zlen payload) 0)) by lia.
    assert (Hq : (zlen payload - 1) / MAX_BLOCK_DATA = Z.of_nat k).
    { symmetry. apply (Z.div_unique _ _ _ (rem - 1)); unfold rem, MAX_BLOCK_DATA in *; lia. }
    rewrite Hq. fold rem. cbv zeta. nia.
Qed.

Lemma row_total_nonneg : 0 <= row_total payload size.
Proof.
  unfold row_total. destruct (Z.eqb_spec (zlen payload) 0); [lia|]. pose proof rpb_pos. pose proof (zlen_nonneg payload).
  pose proof (Z.mul_div_le (zlen payload - 1) MAX_BLOCK_DATA ltac:(unfold MAX_BLOCK_DATA; lia)).
  pose proof (Z.div_pos (zlen payload - 1) MAX_BLOCK_DATA ltac:(lia) ltac:(unfold MAX_BLOCK_DATA; lia)).
  cbv zeta. pose proof (Z.div_pos (zlen payload - (zlen payload - 1) / MAX_BLOCK_DATA * MAX_BLOCK_DATA) size).
  nia.
Qed.

(** Every row before the total lies inside the payload. *)
Lemma row_in_payload i :
  0 <= i < row_total payload size →
  i / rpb * MAX_BLOCK_DATA + i mod rpb * size + size <= zlen payload.
Proof.
  intros Hi. pose proof rpb_pos as Hr. pose proof rpb_bytes. pose proof (zlen_nonneg payload).
  unfold row_total in Hi. destruct (Z.eqb_spec (zlen payload) 0); [lia|]. cbv zeta in Hi.
  set (full := (zlen payload - 1) / MAX_BLOCK_DATA) in *.
  assert (Hfull : full * MAX_BLOCK_DATA <= zlen payload - 1).
  { unfold full. pose proof (Z.mul_div_le (zlen payload - 1) MAX_BLOCK_DATA ltac:(unfold MAX_BLOCK_DATA; lia)). lia. }
  set (last := (zlen payload - full * MAX_BLOCK_DATA) / size) in *.
  pose proof (Z.mul_div_le (zlen payload - full * MAX_BLOCK_DATA) size ltac:(lia)) as Hlast. fold last in Hlast.
  pose proof (Z.div_mod i rpb ltac:(lia)) as Hdm. pose proof (Z.mod_pos_bound i rpb ltac:(lia)).
  pose proof (Z.div_pos i rpb ltac:(lia) ltac:(lia)).
  destruct (Z.lt_ge_cases (i / rpb) full).
  - unfold MAX_BLOCK_DATA in *. nia.
  - assert (i / rpb = full ∨ full + 1 <= i / rpb) as [Hq|Hq] by lia; [rewrite Hq in *; nia|].
    assert (last <= rpb); [|nia].
    unfold last, rows_per_block. apply Z.div_le_mono; [lia|].
    pose proof (Z.mul_succ_div_gt (zlen payload - 1) MAX_BLOCK_DATA ltac:(unfold MAX_BLOCK_DATA; lia)). unfold full. lia.
Qed.

Lemma zlen_rows_upto n : Z.of_nat n <= row_total payload size → zlen (rows_upto n) = Z.of_nat n * size.
Proof.
  pose proof rpb_pos. unfold rows_upto. induction n as [|n IH]; intros Hn; [done|].
  rewrite seq_S, map_app, concat_app, zlen_app, IH by lia. cbn [map concat]. rewrite app_nil_r, Nat.add_0_l.
  unfold row_at. pose proof (row_in_payload (Z.of_nat n) ltac:(lia)).
  pose proof (Z.mod_pos_bound (Z.of_nat n) rpb ltac:(lia)). pose proof (Z.div_pos (Z.of_nat n) rpb ltac:(lia) ltac:(lia)).
  rewrite zlen_sub; [lia| |lia|lia]. unfold MAX_BLOCK_DATA in *. nia.
Qed.

Lemma extract_rows_ok :
  extract_rows_per_block payload size =
  Ok (rows_upto (Z.to_nat (row_total payload size)), row_total payload size).
Proof.
  pose proof rpb_pos as Hr. pose proof row_total_nonneg.
  unfold extract_rows_per_block. rewrite (proj2 (Z.eqb_neq size 0)) by lia.
  change (MAX_BLOCK_DATA / size) with rpb. cbv zeta. rewrite (proj2 (Z.eqb_neq rpb 0)) by lia.
  pose proof (extract_loop_spec (extract_fuel payload) 0) as Hl.
  change (Z.of_nat 0 * MAX_BLOCK_DATA) with 0 in Hl. change (rows_upto (0 * Z.to_nat rpb)) with (@nil byte) in Hl.
  rewrite Hl; [|unfold extract_fuel|auto].
  - rewrite bind_ok. do 2 f_equal. rewrite zlen_rows_upto by lia. unfold div_or_zero.
    rewrite (proj2 (Z.eqb_neq size 0)), Z.div_mul by lia. lia.
  - pose proof (Z.div_pos (zlen payload) MAX_BLOCK_DATA (zlen_nonneg _) ltac:(unfold MAX_BLOCK_DATA; lia)). lia.
Qed.
End extract.

(** ** Loading through a resolver *)

Record column_wf (c : tc_column) : Prop := {
  wf_ib : 0 <= ib_data c < 2 ^ 16;
  wf_cb : 0 <= cb_data c < 256 }.

Record info_wf (inf : tc_info) : Prop := {
  wf_row_size : 0 <= (rgib inf).2 < 2 ^ 16;
  wf_columns : Forall column_wf (columns inf) }.

(** What [load_inner] establishes for the getters. *)
Record table_wf (t : table_context) : Prop := {
  wf_heap : heap_wf (tc_heap t);
  wf_info : info_wf (info t);
  wf_size : row_size t = (rgib (info t)).2;
  wf_count : 0 <= row_count t;
  wf_rows : row_count t * row_size t <= zlen (row_data t);
  wf_ids : zlen (row_ids t) = row_count t }.

Lemma parse_column_wf data off :
  0 <= off → off + 8 <= zlen data → holds (parse_column data off) column_wf.
Proof.
  intros. unfold parse_column. run_reads.
  assert (zlen (sub data off (off + 8 - off)) = 8) by (rewrite zlen_sub; lia). run_reads.
  constructor; [apply (le_val_range _ _ 2); lia|apply (le_val_range _ _ 1); lia].
Qed.

Lemma parse_tc_info_wf data : holds (parse_tc_info data) info_wf.
Proof.
  unfold parse_tc_info. destruct (zlen data <? 18) eqn:Hl; [done|]. bool_to_Z. run_reads.
  apply holds_bind. eapply holds_mono.
  - apply (holds_rmap _ column_wf). intros off Ho. apply entry_offsets_bound in Ho; [|lia].
    apply parse_column_wf; lia.
  - intros cs Hcs. constructor; [apply (le_val_range _ _ 2); lia|done].
Qed.

Lemma row_index_of_never_panics data : never_panics (row_index_of data).
Proof.
  unfold row_index_of. destruct (Z.leb_spec 4 (zlen data)); [by run_reads|].
  destruct (Z.eqb_spec (zlen data) 2); [by run_reads|]. destruct (Z.eqb_spec (zlen data) 1); [by run_reads|done].
Qed.

Lemma load_row_ids_length h inf count :
  heap_wf h → 0 <= count → holds (load_row_ids h inf count) (λ ids, zlen ids = count).
Proof.
  intros Hh Hc. assert (Hlen : zlen (replicate (Z.to_nat count) 0) = count) by (unfold zlen; rewrite length_replicate; lia).
  unfold load_row_ids. destruct (_ || _); [done|].
  pose proof (read_bth_header_spec h (hid_row_index inf) Hh) as Hr.
  destruct (read_bth_header _ _) as [hdr| | |]; try done.
  pose proof (collect_records_never_panics h hdr Hh Hr) as Hcol.
  destruct (collect_records h hdr) as [records| | |]; try done.
  apply holds_mfold; [done|]. intros ids rec _ Hids. unfold record_row_id.
  destruct (zlen (rec_key rec) <? 4) eqn:Hk; [done|]. bool_to_Z. run_reads.
  apply holds_bind. eapply holds_mono; [apply row_index_of_never_panics|]. intros [i|] _; [|done].
  destruct (_ <? _); [|done]. unfold zlen in *. simpl. by rewrite length_insert.
Qed.

Lemma div_or_zero_bound len size : 0 <= len → 0 <= size → 0 <= div_or_zero len size ∧ div_or_zero len size * size <= len.
Proof.
  intros. unfold div_or_zero. destruct (Z.eqb_spec size 0) as [->|]; [lia|].
  pose proof (Z.mul_div_le len size ltac:(lia)). pose proof (Z.div_pos len size ltac:(lia) ltac:(lia)). lia.
Qed.

Lemma extract_rows_bound payload size :
  0 <= size → holds (extract_rows_per_block payload size) (λ rc, 0 <= rc.2 ∧ rc.2 * size <= zlen rc.1).
Proof.
  intros Hs. destruct (decide (1 <= size <= MAX_BLOCK_DATA)) as [Hok|Hno].
  - rewrite extract_rows_ok by done. cbn. pose proof (row_total_nonneg payload size Hok).
    rewrite zlen_rows_upto by lia. lia.
  - unfold extract_rows_per_block. destruct (Z.eqb_spec size 0); [done|].
    by rewrite (Z.div_small MAX_BLOCK_DATA size) by (unfold MAX_BLOCK_DATA in *; lia).
Qed.

Section loading.
Context {R : Type} `{SubnodeResolver R}.

Lemma load_rows_bound h inf size r :
  heap_wf h → 0 <= size → (∀ res, r = Some res → LawfulResolver R res) →
  holds (outcome (load_rows h inf size r)) (λ rc, 0 <= rc.2 ∧ rc.2 * size <= zlen rc.1).
Proof.
  intros Hh Hs Hr. unfold load_rows. destruct (_ =? 0); [done|]. destruct (_ =? 0).
  - autorewrite with outcome. apply holds_bind. eapply holds_mono; [by apply heap_get_never_panics|].
    intros d _. rewrite outcome_ret. apply div_or_zero_bound; [apply zlen_nonneg|done].
  - autorewrite with outcome. destruct r as [res|]; [|done]. simpl ok_or. rewrite bind_ok. autorewrite with outcome.
    apply holds_bind. eapply holds_mono; [apply (Hr res eq_refl)|]. intros p _. by apply extract_rows_bound.
Qed.

Lemma collect_cell_never_panics res `{!LawfulResolver R res} rows start out col :
  0 <= start → column_wf col → never_panics (outcome (collect_cell res rows start out col)).
Proof.
  intros Hs [Hib _]. unfold collect_cell. destruct (negb _); [done|].
  destruct (zlen rows <? _) eqn:Hl; [done|]. bool_to_Z. autorewrite with outcome. run_reads.
  destruct (_ =? 0); [done|]. destruct (_ || _); [done|].
  pose proof (resolve_never_panics (r := res) (le_val rows (start + ib_data col) 4)) as Hn.
  destruct (resolve_subnode res _) as [[] l]; cbn in *; try done. by destruct (is_subnode_not_found e).
Qed.

Lemma collect_cells_never_panics res `{!LawfulResolver R res} inf rows size count :
  info_wf inf → 0 <= size → never_panics (outcome (collect_cell_subnodes inf rows size count res)).
Proof.
  intros [_ Hcols] Hs. unfold collect_cell_subnodes. destruct (_ || _); [done|]. rewrite outcome_mfold.
  eapply holds_mono; [apply (holds_mfold _ (λ _, True))|done]; [done|]. intros out i _ _. rewrite outcome_mfold.
  apply holds_mfold; [done|]. intros out' col Hcol _.
  eapply collect_cell_never_panics; [apply _|nia|by eapply Forall_forall].
Qed.

Lemma load_inner_wf data r :
  (∀ res, r = Some res → LawfulResolver R res) → holds (outcome (load_inner data r)) table_wf.
Proof.
  intros Hr. unfold load_inner. autorewrite with outcome.
  destruct (heap_parse data (node_block_size data)) as [h| | |] eqn:Hp; try done.
  2,3: by (pose proof (heap_parse_never_panics data (node_block_size data)) as Hn; rewrite Hp in Hn).
  assert (Hwf : heap_wf h).
  { eapply heap_parse_wf; [|done]. apply heap_parse_inv in Hp as [Hlen _].
    unfold node_block_size, MAX_BLOCK_DATA. case_match; lia. }
  rewrite bind_ok. autorewrite with outcome. apply holds_bind.
  eapply holds_mono; [by apply heap_get_never_panics|]. intros tcd _. autorewrite with outcome.
  apply holds_bind. eapply holds_mono; [apply parse_tc_info_wf|]. intros inf Hinf. cbv zeta.
  pose proof (wf_row_size _ Hinf). autorewrite with outcome. apply holds_bind.
  eapply holds_mono; [apply load_rows_bound; [done|lia|done]|]. intros rc [Hc1 Hc2]. autorewrite with outcome.
  apply holds_bind. eapply holds_mono; [instantiate (1 := λ _, True)|intros cells _].
  { destruct r as [res|]; [|done]. pose proof (Hr res eq_refl). apply collect_cells_never_panics; [apply _|done|lia]. }
  autorewrite with outcome. apply holds_bind. eapply holds_mono; [by apply load_row_ids_length|].
  intros ids Hids. by constructor.
Qed.
End loading.

Section getters.
Context (t : table_context) (Hwf : table_wf t).

Lemma find_column_wf id col : find_column t id = Some col → column_wf col.
Proof.
  intros [Hin _]%find_some. destruct Hwf as [_ [_ Hc] _ _ _ _]. eapply Forall_forall; [done|].
  by apply list_elem_of_In.
Qed.

Lemma get_row_u32_never_panics i id : 0 <= i → never_panics (get_row_u32 t i id).
Proof.
  intros Hi. unfold get_row_u32. destruct (find_column t id) as [col|] eqn:Hc; [|done].
  apply find_column_wf in Hc as [? ?]. destruct Hwf as [_ [? _] Hs _ _ _]. rewrite Hs.
  destruct (zlen (row_data t) <? _) eqn:Hl; [done|]. bool_to_Z.
  assert (0 <= i * (rgib (info t)).2) by nia.
  destruct (Z.eqb_spec (cb_data col) 4); [by run_reads|]. destruct (Z.eqb_spec (cb_data col) 2); [by run_reads|].
  destruct (Z.eqb_spec (cb_data col) 1); [by run_reads|done].
Qed.

(** A cell whose column lies inside the row is present in every row. *)
Lemma get_row_u32_present i id col :
  0 <= i < row_count t → find_column t id = Some col → ib_data col + cb_data col <= row_size t →
  cb_data col = 4 → get_row_u32 t i id = Ok (Some (le_val (row_data t) (i * row_size t + ib_data col) 4)).
Proof.
  intros Hi Hc Hfit H4. unfold get_row_u32. rewrite Hc. pose proof (find_column_wf _ _ Hc) as [? ?].
  destruct Hwf as [_ [? _] Hs ? Hrows _]. cbv zeta.
  assert (i * row_size t + row_size t <= row_count t * row_size t) by nia.
  assert (0 <= i * row_size t) by nia.
  rewrite (proj2 (Z.ltb_ge _ _)), H4 by lia. cbn [Z.eqb Pos.eqb]. by run_reads.
Qed.

Lemma get_row_u64_never_panics i id : 0 <= i → never_panics (get_row_u64 t i id).
Proof.
  intros Hi. unfold get_row_u64. destruct (find_column t id) as [col|] eqn:Hc; [|done].
  apply find_column_wf in Hc as [? ?]. destruct Hwf as [_ [? _] Hs _ _ _]. rewrite Hs.
  destruct (_ || _) eqn:Hl; [done|]. bool_to_Z. assert (0 <= i * (rgib (info t)).2) by nia. by run_reads.
Qed.

Lemma get_row_string_never_panics i id : 0 <= i → never_panics (get_row_string t i id).
Proof.
  intros Hi. unfold get_row_string. destruct (find_column t id) as [col|] eqn:Hc; [|done].
  apply find_column_wf in Hc as [? ?]. destruct Hwf as [Hh [? _] Hs _ _ _]. rewrite Hs.
  destruct (negb _); [done|]. destruct (_ && _) eqn:Hl; [|done]. bool_to_Z.
  assert (0 <= i * (rgib (info t)).2) by nia. run_reads. destruct (_ =? 0); [done|].
  apply holds_bind. eapply holds_mono; [instantiate (1 := λ _, True)|intros bytes _].
  - destruct (_ =? 0); [by apply heap_get_never_panics|]. by destruct (cell_subnodes t !! _).
  - apply holds_bind. eapply holds_mono; [apply decode_utf16le_never_panics|done].
Qed.
End getters.

#[export] Instance block_resolver_lawful `{Crc : Crc32} (r : block_resolver) :
  bbt_wf (br_bbt r) → LawfulResolver block_resolver r.
Proof.
  intros Hwf nid. unfold resolve_subnode, block_subnode_resolver. destruct (is_null _); [done|].
  rewrite outcome_bind. apply holds_bind. eapply holds_mono; [by apply find_subnode_entry_never_panics|].
  intros [e|] _; [|done]. eapply holds_mono; [by apply read_block_data_bound|done].
Qed.

Lemma load_tc_wf `{Crc : Crc32} file nbt bbt nid crypt :
  bbt_wf bbt → holds (outcome (load_tc file nbt bbt nid crypt)) table_wf.
Proof.
  intros Hwf. unfold load_tc. autorewrite with outcome. destruct (nbt_get nbt nid) as [e|]; [|done].
  simpl ok_or. rewrite bind_ok. autorewrite with outcome. apply holds_bind.
  eapply holds_mono; [by apply read_block_data_bound|]. intros data _. apply load_inner_wf.
  intros res [= <-]. by apply block_resolver_lawful.
Qed.

(** Unpacking a row matrix: for a row width of 1 to 8176 bytes the loop ends and
    returns exactly the [row_total] rows that start at multiples of the width in
    each 8176-byte block, in order; no row spans two blocks and the dead space at
    the end of a block is skipped.  Any other width is an error. *)
Theorem extract_rows_spec payload size (Hsize : 0 <= size) :
  extract_rows_per_block payload size =
  (if size =? 0 then Err (ResourceLimit TcRowWidthZero)
   else if MAX_BLOCK_DATA <? size then Err (ResourceLimit (TcRowWidthTooBig size))
   else Ok (concat (map (λ i, row_at payload size (Z.of_nat i)) (seq 0 (Z.to_nat (row_total payload size)))),
            row_total payload size)) ∧
  ∀ i, 1 <= size <= MAX_BLOCK_DATA → 0 <= i < row_total payload size → zlen (row_at payload size i) = size.
Proof.
  split.
  - destruct (Z.eqb_spec size 0) as [->|Hz]; [done|]. destruct (Z.ltb_spec MAX_BLOCK_DATA size).
    + unfold extract_rows_per_block. rewrite (proj2 (Z.eqb_neq size 0)) by done.
      by rewrite (Z.div_small MAX_BLOCK_DATA size) by (unfold MAX_BLOCK_DATA in *; lia).
    + apply extract_rows_ok. lia.
  - intros i Hok Hi. unfold row_at. pose proof (row_in_payload payload size Hok i Hi).
    pose proof (rpb_pos size Hok). pose proof (Z.mod_pos_bound i (rows_per_block size) ltac:(lia)).
    pose proof (Z.div_pos i (rows_per_block size) ltac:(lia) ltac:(lia)).
    rewrite zlen_sub; [done| |lia|done]. unfold MAX_BLOCK_DATA in *. nia.
Qed.

(** Two blocks, the second with 24 bytes. *)
Definition long_payload : list byte := replicate (Z.to_nat 8200) Byte.x00.

Lemma long_payload_total : row_total long_payload 3000 = 2.
Proof. vm_compute. reflexivity. Qed.

Lemma extract_rows_spec_witness :
  (∃ rows, extract_rows_per_block long_payload 3000 = Ok (rows, row_total long_payload 3000)) ∧
  zlen (row_at long_payload 3000 1) = 3000.
Proof.
  split; [eexists; exact (proj1 (extract_rows_spec long_payload 3000 ltac:(lia)))|].
  apply (extract_rows_spec long_payload 3000 ltac:(lia)); [unfold MAX_BLOCK_DATA; lia|].
  rewrite long_payload_total. lia.
Defined.

(** Loading a table with any lawful resolver is total and gives a well-formed
    table (the rows it counts lie inside the row data, one row ID per row), whose
    getters never panic; [load_tc]'s block-backed resolver is lawful. *)
Theorem table_reads_total {R : Type} `{SubnodeResolver R} data (r : R) `{!LawfulResolver R r} :
  holds (outcome (load_inner data (Some r))) (λ t, table_wf t ∧ ∀ i id, 0 <= i →
    never_panics (get_row_u32 t i id) ∧ never_panics (get_row_u64 t i id) ∧ never_panics (get_row_string t i id)).
Proof.
  eapply holds_mono; [apply load_inner_wf; by intros res [= <-]|]. intros t Ht. split; [done|].
  intros i id Hi. split_and!; [by apply get_row_u32_never_panics|by apply get_row_u64_never_panics|
    by apply get_row_string_never_panics].
Qed.

(** A table of two 8-byte rows whose matrix is in subnode 0x3F, with a u32 column
    0x67F2 and a string column 0x3001, and a RowIndex BTH. *)
Definition table_heap : list byte :=
  zbytes ([84; 0; 0xEC; 0x7C; 0x20; 0; 0; 0; 0; 0; 0; 0] ++
          [0x7C; 2] ++ [8; 0; 8; 0; 8; 0; 8; 0] ++ [0x40; 0; 0; 0] ++ [0x3F; 0; 0; 0] ++
          [0xF2; 0x67; 0x03; 0; 0; 0; 4; 0] ++ [0x01; 0x30; 0x1F; 0; 4; 0; 4; 1] ++
          [0xB5; 4; 4; 0; 0x60; 0; 0; 0] ++
          [0x22; 0x80; 0; 0; 0; 0; 0; 0] ++ [0x42; 0x80; 0; 0; 1; 0; 0; 0] ++
          [0x41; 0; 0x42; 0; 0; 0; 0; 0; 0; 0; 0; 0; 0; 0] ++
          [4; 0; 0; 0; 12; 0; 46; 0; 54; 0; 70; 0; 74; 0]).
Definition table_rows : list byte :=
  zbytes ([1; 0; 0; 0; 0x80; 0; 0; 0] ++ [2; 0; 0; 0; 0; 0; 0; 0]).

(** The resolver of the unit tests: a map from NIDs to bytes. *)
Definition map_resolver := gmap Z (list byte).
#[export] Instance map_subnode_resolver : SubnodeResolver map_resolver := λ m nid,
  quiet (ok_or (m !! nid) (SubnodeNotFound nid)).
#[export] Instance map_resolver_lawful (m : map_resolver) : LawfulResolver map_resolver m.
Proof. intros nid. unfold resolve_subnode, map_subnode_resolver. rewrite outcome_quiet. by destruct (m !! nid). Qed.

Definition sample_table : pres table_context :=
  outcome (load_inner table_heap (Some ({[ 0x3F := table_rows ]} : map_resolver))).

Lemma sample_table_reads :
  (t ← sample_table; Ok (row_count t, row_ids t, get_row_u32 t 1 0x67F2, get_row_string t 0 0x3001)) =
  Ok (2, [0x8022; 0x8042], Ok (Some 2), Ok (Some [65; 66])).
Proof. vm_compute. reflexivity. Qed.

Lemma table_reads_total_witness :
  holds sample_table (λ t, table_wf t ∧ ∀ i id, 0 <= i →
    never_panics (get_row_u32 t i id) ∧ never_panics (get_row_u64 t i id) ∧ never_panics (get_row_string t i id)).
Proof. exact (table_reads_total table_heap ({[ 0x3F := table_rows ]} : map_resolver)). Defined.
