(* ===== verification/Folder.v ===== *)
(** * Opening a file and walking its folders (pst-reader/src/lib.rs, messaging/folder.rs, store.rs)

    [folders] lists the folder tree in preorder from the root folder.  It keeps no
    set of visited folders: on a hierarchy that is a finite tree it returns the
    preorder listing, on a hierarchy table that names its own folder it recurses
    without end. *)

From S2P Require Import Prelude Telemetry PstError Crypt Nid Header Btree Block BlockFacts Streaming Subnode Heap Bth Utf PropContext PropContextFacts TableContext TableContextFacts.

Definition PID_TAG_DISPLAY_NAME : Z := 0x3001.
Definition PID_TAG_LTP_ROW_ID : Z := 0x67F2.

(** [struct PstFile]: the file's bytes, the header and the two indexes. *)
Record pst_file := { reader : list byte; header : pst_header; nbt : nbt_index; bbt : bbt_index }.

Record folder_info := {
  folder_nid : Z; name : rstring; path : rstring; message_count : Z;
  child_folder_nids : list Z; message_nids : list Z }.

(** [format!("{:X}", n)] *)
Definition hex_digit (d : Z) : Z := if d <? 10 then 48 + d else 55 + d.
Fixpoint hex_upper_loop (fuel : nat) (n : Z) (acc : rstring) : rstring :=
  match fuel with
  | O => acc
  | S fuel => if n <? 16 then hex_digit n :: acc else hex_upper_loop fuel (n / 16) (hex_digit (n mod 16) :: acc)
  end.
Definition hex_upper (n : Z) : rstring := hex_upper_loop 16 n [].

(** The scalar values of an ASCII literal. *)
Definition lit (s : string) : rstring := map (λ a, Z.of_N (Ascii.N_of_ascii a)) (String.list_ascii_of_string s).

(** [format!("[Folder 0x{:X}]", folder_nid.0)] *)
Definition default_folder_name (nid : Z) : rstring := lit "[Folder 0x" ++ hex_upper nid ++ lit "]".

Section pst.
Context `{Crc : Crc32}.

(** [PstFile::open] on a file's content. *)
Definition pst_open (file : list byte) : pio pst_file :=
  h ← quiet (header_read file);
  n ← nbt_build file h;
  b ← bbt_build file h;
  mret {| reader := file; header := h; nbt := n; bbt := b |}.

Context (pst : pst_file).
Abbreviation crypt := (header_crypt (header pst)).

(** [PstFile::read_node_data] *)
Definition read_node_data (nid : Z) : pio (list byte) :=
  e ← quiet (ok_or (nbt_get (nbt pst) nid) (NodeNotFound nid));
  if bid_data e =? 0 then mret []
  else read_block_data (reader pst) (bbt pst) (bid_data e) crypt.

(** [PstFile::read_subnode_data] *)
Definition pst_read_subnode_data (nid sub_nid : Z) : pio (list byte) :=
  e ← quiet (ok_or (nbt_get (nbt pst) nid) (NodeNotFound nid));
  if bid_sub e =? 0 then quiet (Err (NoSubnodeBTree nid))
  else read_subnode_data (reader pst) (bbt pst) (bid_sub e) sub_nid crypt.

(** [PstFile::display_name] *)
Definition display_name : pio rstring :=
  pc ← load_pc (reader pst) (bbt pst) crypt (nbt pst) NID_MESSAGE_STORE;
  name ← quiet (get_string pc PID_TAG_DISPLAY_NAME);
  quiet (ok_or name (PropertyNotFound PID_TAG_DISPLAY_NAME)).

(** The folder's name: its display name, or a default when the property is
    missing or the folder's properties cannot be loaded. *)
Definition folder_name (nid : Z) : pio rstring :=
  pc ← attempt (load_pc (reader pst) (bbt pst) crypt (nbt pst) nid);
  match pc with
  | Some pc =>
      name ← quiet (get_string pc PID_TAG_DISPLAY_NAME);
      mret (default (default_folder_name nid) name)
  | None => mret (default_folder_name nid)
  end.

(** The row IDs of a table: RowIndex first, then the PidTagLtpRowId column. *)
Definition table_nids (t : table_context) : pres (list Z) :=
  mfold (λ nids row,
      nid_val ← match get_row_id t (Z.of_nat row) with
                | Some id => Ok (Some id)
                | None => get_row_u32 t (Z.of_nat row) PID_TAG_LTP_ROW_ID
                end;
      Ok (match nid_val with Some v => nids ++ [v] | None => nids end))
    (seq 0 (Z.to_nat (row_count t))) [].

(** The NIDs listed by a hierarchy or contents table; none if it cannot be loaded. *)
Definition listed_nids (table_nid : Z) : pio (list Z) :=
  match nbt_get (nbt pst) table_nid with
  | None => mret []
  | Some _ =>
      table ← attempt (load_tc (reader pst) (nbt pst) (bbt pst) table_nid crypt);
      match table with
      | Some table => quiet (table_nids table)
      | None => mret []
      end
  end.

Definition join_path (parent_path name : rstring) : rstring :=
  if decide (parent_path = []) then name else parent_path ++ lit "/" ++ name.

(** [PstFile::walk_folder]; the source has no bound on the recursion. *)
Fixpoint walk_folder (fuel : nat) (nid : Z) (parent_path : rstring) (results : list folder_info)
    : pio (list folder_info) :=
  match fuel with
  | O => quiet NoFuel
  | S fuel =>
      name ← folder_name nid;
      let path := join_path parent_path name in
      children ← listed_nids (hierarchy_table nid);
      messages ← listed_nids (contents_table nid);
      let info := {| folder_nid := nid; name := name; path := path;
                     message_count := wrap 32 (zlen messages);
                     child_folder_nids := children; message_nids := messages |} in
      mfold (λ results child_nid, walk_folder fuel child_nid path results) children (results ++ [info])
  end.

(** [PstFile::folders] *)
Definition folders (fuel : nat) : pio (list folder_info) := walk_folder fuel NID_ROOT_FOLDER [] [].

(** ** The folder tree *)

(** One folder as the walk sees it below a parent path. *)
Definition folder_at (nid : Z) (parent_path : rstring) (info : folder_info) : Prop :=
  ∃ nm children messages,
    outcome (folder_name nid) = Ok nm ∧
    outcome (listed_nids (hierarchy_table nid)) = Ok children ∧
    outcome (listed_nids (contents_table nid)) = Ok messages ∧
    info = {| folder_nid := nid; name := nm; path := join_path parent_path nm;
              message_count := wrap 32 (zlen messages);
              child_folder_nids := children; message_nids := messages |}.

(** [folder_tree nid parent infos]: the folders reachable from [nid] form a finite
    tree whose preorder is [infos]. *)
Inductive folder_tree : Z → rstring → list folder_info → Prop :=
| tree_node nid parent info infos :
    folder_at nid parent info →
    folder_forest (child_folder_nids info) (path info) infos →
    folder_tree nid parent (info :: infos)
with folder_forest : list Z → rstring → list folder_info → Prop :=
| forest_done p : folder_forest [] p []
| forest_more nid nids p infos1 infos2 :
    folder_tree nid p infos1 → folder_forest nids p infos2 →
    folder_forest (nid :: nids) p (infos1 ++ infos2).

Scheme folder_tree_mut := Induction for folder_tree Sort Prop
with folder_forest_mut := Induction for folder_forest Sort Prop.

Lemma walk_step fuel nid parent info results :
  folder_at nid parent info →
  outcome (walk_folder (S fuel) nid parent results) =
  mfold (λ results child, outcome (walk_folder fuel child (path info) results))
    (child_folder_nids info) (results ++ [info]).
Proof.
  intros (nm & children & messages & Hn & Hc & Hm & ->). cbn [walk_folder]. autorewrite with outcome.
  rewrite Hn, bind_ok. autorewrite with outcome. rewrite Hc, bind_ok. autorewrite with outcome.
  rewrite Hm, bind_ok. by rewrite outcome_mfold.
Qed.

Lemma walk_sound fuel nid parent results r :
  outcome (walk_folder fuel nid parent results) = Ok r →
  ∃ infos, folder_tree nid parent infos ∧ r = results ++ infos.
Proof.
  revert nid parent results r. induction fuel as [|fuel IH]; intros nid parent results r; [done|].
  intros H. assert (Hat : ∃ info, folder_at nid parent info).
  { revert H. cbn [walk_folder]. autorewrite with outcome. intros (nm & Hn & H)%bind_ok_inv. revert H.
    autorewrite with outcome. intros (children & Hc & H)%bind_ok_inv. revert H.
    autorewrite with outcome. intros (messages & Hm & H)%bind_ok_inv. eexists. unfold folder_at. eauto 10. }
  destruct Hat as [info Hat]. rewrite (walk_step _ _ _ _ _ Hat) in H.
  assert (Hforest : ∀ nids acc r, mfold (λ results child, outcome (walk_folder fuel child (path info) results)) nids acc = Ok r →
    ∃ infos, folder_forest nids (path info) infos ∧ r = acc ++ infos).
  { clear -IH. induction nids as [|n nids IHn]; intros acc r.
    - intros [= <-]. exists []. split; [constructor|by rewrite app_nil_r].
    - cbn [mfold]. intros (acc' & (i1 & H1 & ->)%IH & (i2 & H2 & ->)%IHn)%bind_ok_inv.
      exists (i1 ++ i2). split; [by constructor|by rewrite (assoc_L (++))]. }
  apply Hforest in H as (infos & Hf & ->). exists (info :: infos).
  split; [by constructor|by rewrite <-(assoc_L (++))].
Qed.

Lemma walk_complete nid parent infos :
  folder_tree nid parent infos →
  ∃ bound, ∀ fuel results, (bound <= fuel)%nat → outcome (walk_folder fuel nid parent results) = Ok (results ++ infos).
Proof.
  induction 1 using folder_tree_mut with (P0 := λ nids p infos _,
    ∃ bound, ∀ fuel results, (bound <= fuel)%nat →
      mfold (λ results child, outcome (walk_folder fuel child p results)) nids results = Ok (results ++ infos)).
  - destruct IHfolder_tree as [b Hb]. exists (S b). intros [|fuel] results Hf; [lia|].
    rewrite (walk_step _ _ _ _ _ f), Hb by lia. by rewrite <-(assoc_L (++)).
  - exists 0%nat. intros fuel results _. cbn. by rewrite app_nil_r.
  - destruct IHfolder_tree as [b1 Hb1], IHfolder_tree0 as [b2 Hb2]. exists (b1 `max` b2)%nat.
    intros fuel results Hf. cbn [mfold]. rewrite Hb1, bind_ok, Hb2 by lia. by rewrite (assoc_L (++)).
Qed.

(** A folder that is its own first child. *)
Lemma walk_diverges nid rest :
  (∀ p, ∃ info, folder_at nid p info ∧ child_folder_nids info = nid :: rest) →
  ∀ fuel results p, outcome (walk_folder fuel nid p results) = NoFuel.
Proof.
  intros Hself. induction fuel as [|fuel IH]; intros results p; [done|].
  destruct (Hself p) as (i & Hat & Hc). rewrite (walk_step _ _ _ _ _ Hat), Hc. cbn [mfold]. by rewrite IH.
Qed.
End pst.

(** ** A hierarchy table that lists its own folder

    Node 0x12D (the root folder's hierarchy table) is a one-row table whose
    RowIndex maps row 0 to 0x122, the root folder. *)
Definition cyclic_table : list byte :=
  zbytes ([50; 0; 0xEC; 0x7C; 0x20; 0; 0; 0; 0; 0; 0; 0] ++
          [0x7C; 0] ++ [4; 0; 4; 0; 4; 0; 4; 0] ++ [0x40; 0; 0; 0] ++ [0x80; 0; 0; 0] ++
          [0xB5; 4; 4; 0; 0x60; 0; 0; 0] ++
          [0x22; 0x01; 0; 0; 0; 0; 0; 0] ++ [0; 0; 0; 0] ++
          [4; 0; 0; 0; 12; 0; 30; 0; 38; 0; 46; 0; 50; 0]).
Definition null_bref : bref := {| bref_bid := 0; bref_ib := 0 |}.
Definition cyclic_pst : pst_file :=
  {| reader := mk_block cyclic_table;
     header := {| version := 23; ver_client := 19; header_crypt := CryptNone;
                  root := {| ib_file_eof := 80; ib_amap_last := 0; cb_amap_free := 0;
                             bref_nbt := null_bref; bref_bbt := null_bref; f_amap_valid := true |};
                  bid_next_b := 0x14 |};
     nbt := {[ 0x12D := {| nbt_nid := 0x12D; bid_data := 0x10; bid_sub := 0; nid_parent := 0 |} ]};
     bbt := list_to_map [fixture_entry 0x10 0 64] |}.

Definition cyclic_info (p : rstring) : folder_info :=
  {| folder_nid := 0x122; name := lit "[Folder 0x122]"; path := join_path p (lit "[Folder 0x122]");
     message_count := 0; child_folder_nids := [0x122]; message_nids := [] |}.

Lemma cyclic_folder_at p : folder_at cyclic_pst NID_ROOT_FOLDER p (cyclic_info p).
Proof.
  exists (lit "[Folder 0x122]"), [0x122], [].
  split_and!; [vm_compute; reflexivity..|]. reflexivity.
Qed.

Lemma pst_open_wf `{Crc : Crc32} file : holds (outcome (pst_open file)) (λ pst, bbt_wf (bbt pst)).
Proof.
  unfold pst_open. autorewrite with outcome. apply holds_bind.
  eapply holds_mono; [apply header_read_never_panics|]. intros h _. autorewrite with outcome. apply holds_bind.
  eapply holds_mono; [apply (build_never_panics nbt_kind)|]. intros n _. autorewrite with outcome. apply holds_bind.
  eapply holds_mono; [apply bbt_build_wf|]. done.
Qed.

(** Opening any file is total: [open] returns an error or a handle whose block
    index is well formed (so that the block readers' theorems apply to it), and
    reading a node or a subnode of that handle returns a value or an error. *)
Theorem open_total `{Crc : Crc32} file :
  holds (outcome (pst_open file)) (λ pst, bbt_wf (bbt pst) ∧ ∀ nid sub_nid,
    never_panics (outcome (read_node_data pst nid)) ∧
    never_panics (outcome (pst_read_subnode_data pst nid sub_nid)) ∧
    never_panics (outcome (display_name pst))).
Proof.
  eapply holds_mono; [apply pst_open_wf|]. intros pst Hwf. split; [done|]. intros nid sub. split_and!.
  - unfold read_node_data. autorewrite with outcome. apply holds_bind. destruct (nbt_get _ _); [cbn|done].
    destruct (_ =? 0); [done|]. eapply holds_mono; [by apply read_block_data_bound|done].
  - unfold pst_read_subnode_data. autorewrite with outcome. apply holds_bind. destruct (nbt_get _ _); [cbn|done].
    destruct (_ =? 0); [done|]. by apply read_subnode_data_never_panics.
  - unfold display_name, load_pc. autorewrite with outcome. destruct (nbt_get _ _); [|done]. simpl ok_or.
    rewrite bind_ok. apply holds_bind. eapply holds_mono; [by apply load_pc_from_bids_wf|]. intros pc Hpc.
    autorewrite with outcome. apply holds_bind. unfold get_string, get_as. apply holds_bind.
    eapply holds_mono; [by apply pc_get_never_panics|]. intros v _. cbn. by destruct (v ≫= as_str).
Qed.

(** C4 Walking the folders lists the folder tree in preorder: the walk returns a
    list exactly when the folders reachable from the root form a finite tree, and
    then the list is that tree's preorder; every large enough bound gives it. *)
Theorem folders_preorder `{Crc : Crc32} pst infos :
  ((∃ fuel, outcome (folders pst fuel) = Ok infos) ↔ folder_tree pst NID_ROOT_FOLDER [] infos) ∧
  (folder_tree pst NID_ROOT_FOLDER [] infos →
   ∃ bound, ∀ fuel, (bound <= fuel)%nat → outcome (folders pst fuel) = Ok infos).
Proof.
  assert (Hc : folder_tree pst NID_ROOT_FOLDER [] infos →
    ∃ bound, ∀ fuel, (bound <= fuel)%nat → outcome (folders pst fuel) = Ok infos).
  { intros (b & Hb)%walk_complete. exists b. intros fuel Hf. by apply Hb. }
  split; [split|done].
  - intros [fuel (infos' & Ht & ->)%walk_sound]. done.
  - intros (b & Hb)%Hc. exists b. by apply Hb.
Qed.

Lemma folders_preorder_witness :
  folder_tree {| reader := []; header := header cyclic_pst; nbt := ∅; bbt := ∅ |} NID_ROOT_FOLDER []
    [{| folder_nid := 0x122; name := lit "[Folder 0x122]"; path := lit "[Folder 0x122]";
        message_count := 0; child_folder_nids := []; message_nids := [] |}].
Proof.
  apply (proj1 (folders_preorder {| reader := []; header := header cyclic_pst; nbt := ∅; bbt := ∅ |} _)).
  exists 2%nat. vm_compute. reflexivity.
Defined.

(** The walk has no cycle guard: on a file whose root hierarchy table lists the
    root folder, the recursion of [folders] never ends (no bound is enough). *)
Theorem folders_cycle_diverges fuel : outcome (folders cyclic_pst fuel) = NoFuel.
Proof.
  apply (walk_diverges cyclic_pst NID_ROOT_FOLDER []). intros p. exists (cyclic_info p).
  split; [apply cyclic_folder_at|done].
Qed.
