(* ===== verification/UnionFind.v ===== *)
(** * Disjoint sets over dense indices (matter-neardup/src/cluster.rs; the local
    [find] and [unite] of apply_tier1_backfill_pass in dedup-engine/src/keepset.rs)

    A parent vector with path halving and union by rank.  The forest invariant
    makes the [while] loop of [find] terminate within as many steps as there are
    elements, and uniting along a list of edges computes exactly the connected
    components of those edges. *)

From stdpp Require Import relations.
From S2P Require Import Prelude.
#[local] Open Scope Z_scope.

(** [v[i]] and [v[i] = x] on a [Vec]: a panic out of range. *)
Definition get_at {E A} (l : list A) (i : nat) : res E A :=
  match l !! i with Some a => Ok a | None => Panic end.

(** [struct UnionFind] *)
Record union_find := { parent : list nat; rank : list Z }.

(** [UnionFind::new] *)
Definition uf_new (n : nat) : union_find := {| parent := seq 0 n; rank := replicate n 0 |}.

(** Rust code without [Result] errors: it returns or panics. *)
Abbreviation total_res := (res Empty_set) (only parsing).

(** [UnionFind::find]: [while parent[x] != x { parent[x] = parent[parent[x]]; x = parent[x] }] *)
Fixpoint find (fuel : nat) (parent : list nat) (x : nat) : total_res (nat * list nat) :=
  match fuel with
  | O => NoFuel
  | S fuel =>
      p ← get_at parent x;
      if decide (p = x) then Ok (x, parent)
      else gp ← get_at parent p; find fuel (<[x := gp]> parent) gp
  end.

(** [unite] of keepset.rs and [UnionFind::union] of cluster.rs, which drops the
    result; the rank is a [u8] with the given increment. *)
Definition unite (bump : Z → Z) (uf : union_find) (a b : nat) : total_res (bool * union_find) :=
  let fuel := S (length (parent uf)) in
  '(ra, par) ← find fuel (parent uf) a;
  '(rb, par) ← find fuel par b;
  if decide (ra = rb) then Ok (false, {| parent := par; rank := rank uf |})
  else
    rka ← get_at (rank uf) ra;
    rkb ← get_at (rank uf) rb;
    let '(ra, rb) := if rka <? rkb then (rb, ra) else (ra, rb) in
    let par := <[rb := ra]> par in
    rka ← get_at (rank uf) ra;
    rkb ← get_at (rank uf) rb;
    Ok (true, {| parent := par; rank := if rka =? rkb then <[ra := bump rka]> (rank uf) else rank uf |}).

(** [rank[ra].saturating_add(1)] (keepset.rs) and [rank[ra] += 1] (cluster.rs) *)
Definition bump_saturating (r : Z) : Z := Z.min (r + 1) 255.
Definition bump_wrapping (r : Z) : Z := wrap 8 (r + 1).

(** Unite along a list of edges, counting the unions that merged two sets. *)
Fixpoint unite_all (bump : Z → Z) (edges : list (nat * nat)) (uf : union_find) (merged : Z)
    : total_res (Z * union_find) :=
  match edges with
  | [] => Ok (merged, uf)
  | (a, b) :: edges =>
      '(ok, uf) ← unite bump uf a b;
      unite_all bump edges uf (if ok : bool then merged + 1 else merged)
  end.

(** ** The forest of a parent vector *)

(** [root_path p x r k]: [k] parent steps lead from [x] to the root [r]. *)
Inductive root_path (p : list nat) : nat → nat → nat → Prop :=
| path_root x : p !! x = Some x → root_path p x x 0
| path_step x y r k :
    p !! x = Some y → x ≠ y → root_path p y r k → root_path p x r (S k).

Definition root (p : list nat) (x r : nat) : Prop := ∃ k, root_path p x r k.
Definition forest (p : list nat) : Prop := ∀ x, (x < length p)%nat → ∃ r, root p x r.
Definition same (p : list nat) (x y : nat) : Prop := ∃ r, root p x r ∧ root p y r.
Definition is_root (p : list nat) (x : nat) : Prop := p !! x = Some x.
#[export] Instance is_root_dec p x : Decision (is_root p x).
Proof. unfold is_root. apply _. Defined.

Lemma root_path_det p x r k r' k' : root_path p x r k → root_path p x r' k' → r = r' ∧ k = k'.
Proof.
  intros H. revert r' k'. induction H as [x Hx|x y r k Hx Hn H IH]; intros r' k' H';
    inversion H'; simplify_eq; try done.
  edestruct IH; [done|]. by subst.
Qed.

Lemma root_det p x r r' : root p x r → root p x r' → r = r'.
Proof. intros [k H] [k' H']. by destruct (root_path_det _ _ _ _ _ _ H H'). Qed.

Lemma root_path_is_root p x r k : root_path p x r k → is_root p r.
Proof. by induction 1. Qed.

Lemma root_path_lt p x r k : root_path p x r k → (x < length p)%nat ∧ (r < length p)%nat.
Proof.
  induction 1 as [x Hx|x y r k Hx Hn H IH]; apply lookup_lt_Some in Hx; lia.
Qed.

(** The elements met on the way to the root, with strictly decreasing distance. *)
Lemma root_path_nodes p x r k :
  root_path p x r k →
  ∃ l, length l = S k ∧ NoDup l ∧ (∀ z, z ∈ l → ∃ j, (j <= k)%nat ∧ root_path p z r j).
Proof.
  induction 1 as [x Hx|x y r k Hx Hn H (l & Hl & Hnd & Hall)].
  - exists [x]. split; [done|]. split; [apply NoDup_singleton|].
    intros z ->%list_elem_of_singleton. exists 0%nat. split; [lia|]. by constructor.
  - exists (x :: l). split; [simpl; lia|]. split.
    + constructor; [|done]. intros (j & Hj & Hp)%Hall.
      destruct (root_path_det _ _ _ _ _ _ Hp (path_step _ _ _ _ _ Hx Hn H)). lia.
    + intros z [->|Hz]%elem_of_cons.
      * exists (S k). split; [lia|]. by econstructor.
      * destruct (Hall z Hz) as (j & ? & ?). exists j. split; [lia|done].
Qed.

Lemma root_path_bound p x r k : root_path p x r k → (k < length p)%nat.
Proof.
  intros H. destruct (root_path_nodes p x r k H) as (l & Hl & Hnd & Hall).
  assert (l ⊆+ seq 0 (length p)) as Hsub.
  { apply NoDup_submseteq; [done|]. intros z Hz. destruct (Hall z Hz) as (j & _ & Hp).
    apply elem_of_seq. apply root_path_lt in Hp. lia. }
  apply submseteq_length in Hsub. rewrite length_seq in Hsub. lia.
Qed.

Lemma forest_init n : forest (seq 0 n).
Proof.
  intros x Hx. rewrite length_seq in Hx. exists x, 0%nat. constructor.
  by apply lookup_seq.
Qed.

Lemma root_init n x r : root (seq 0 n) x r ↔ (x < n)%nat ∧ r = x.
Proof.
  split.
  - intros [k H]. inversion H as [? Hx|? y ? ? Hx]; simplify_eq; apply lookup_seq in Hx; lia.
  - intros [Hx ->]. exists 0%nat. constructor. by apply lookup_seq.
Qed.

(** *** Path halving *)
Lemma halve_path p x y g :
  p !! x = Some y → p !! y = Some g → x ≠ y →
  ∀ k z r, root_path p z r k → ∃ k', (k' <= k)%nat ∧ root_path (<[x := g]> p) z r k'.
Proof.
  intros Hx Hy Hn. assert (x < length p)%nat as Hlt by (by apply lookup_lt_Some in Hx).
  induction k as [k IH] using lt_wf_ind. intros z r H.
  inversion H as [? Hz|? z' ? j Hz Hnz H']; simplify_eq.
  - exists 0%nat. split; [lia|]. constructor.
    rewrite list_lookup_insert_ne; [done|]. intros ->. congruence.
  - destruct (decide (z = x)) as [->|Hzx].
    + simplify_eq. inversion H' as [? Hy'|? g' ? i Hy' Hng H'']; simplify_eq.
      * (* y is the root *) exists 1%nat. split; [lia|]. econstructor.
        { by apply list_lookup_insert_eq. } { done. }
        constructor. by rewrite list_lookup_insert_ne.
      * destruct (IH i ltac:(lia) g r H'') as (i' & Hi & Hp). exists (S i'). split; [lia|].
        econstructor; [by apply list_lookup_insert_eq| |done].
        intros ->. destruct (root_path_det _ _ _ _ _ _ H H''). lia.
    + destruct (IH j ltac:(lia) z' r H') as (j' & Hj & Hp). exists (S j'). split; [lia|].
      econstructor; [by rewrite list_lookup_insert_ne|done|done].
Qed.

(** [q] has the same size and the same roots as [p]. *)
Definition same_roots (p q : list nat) : Prop :=
  length p = length q ∧ ∀ x r, root p x r → root q x r.

#[export] Instance same_roots_preorder : PreOrder same_roots.
Proof.
  split; [by split|]. intros p q s [H1 H2] [H3 H4]. split; [congruence|]. eauto.
Qed.

Lemma same_roots_forest p q : same_roots p q → forest p → forest q.
Proof. intros [Hl Hr] Hf x Hx. rewrite <- Hl in Hx. destruct (Hf x Hx) as [r H]. eauto. Qed.

Lemma same_roots_iff p q x r : forest p → same_roots p q → root p x r ↔ root q x r.
Proof.
  intros Hf [Hl Hr]. split; [apply Hr|]. intros Hq.
  assert (x < length p)%nat as Hx.
  { destruct Hq as [k Hk]. apply root_path_lt in Hk. lia. }
  destruct (Hf x Hx) as [r' H']. by rewrite (root_det _ _ _ _ Hq (Hr _ _ H')).
Qed.

Lemma find_spec fuel p x r k :
  root_path p x r k → (k < fuel)%nat →
  ∃ q, find fuel p x = Ok (r, q) ∧ same_roots p q.
Proof.
  revert p x k. induction fuel as [|fuel IH]; intros p x k H Hk; [lia|].
  simpl. unfold get_at. inversion H as [? Hx|? y ? j Hx Hn H']; simplify_eq; rewrite Hx.
  - simpl. rewrite decide_True by done. by exists p.
  - rewrite bind_ok, decide_False by congruence.
    assert (∃ g, p !! y = Some g) as [g Hy].
    { inversion H'; simplify_eq; eauto. }
    rewrite Hy, bind_ok.
    assert (same_roots p (<[x := g]> p)) as Hsr.
    { split; [by rewrite length_insert|]. intros z s [i Hi].
      destruct (halve_path p x y g Hx Hy Hn i z s Hi) as (i' & _ & ?). by exists i'. }
    assert (∃ i, (i <= j)%nat ∧ root_path p g r i) as (i & Hi & Hg).
    { inversion H' as [? Hy'|? g' ? i' Hy' ? Hg]; simplify_eq.
      - exists 0%nat. split; [lia|]. by constructor.
      - exists i'. split; [lia|done]. }
    destruct (halve_path p x y g Hx Hy Hn i g r Hg) as (i' & Hi' & Hg').
    destruct (IH (<[x := g]> p) g i' Hg' ltac:(lia)) as (q & -> & Hq).
    exists q. split; [done|]. by transitivity (<[x := g]> p).
Qed.

Lemma find_ok p x fuel :
  forest p → (x < length p)%nat → (length p <= fuel)%nat →
  ∃ r q, find fuel p x = Ok (r, q) ∧ root p x r ∧ same_roots p q.
Proof.
  intros Hf Hx Hfu. destruct (Hf x Hx) as [r [k Hk]].
  pose proof (root_path_bound _ _ _ _ Hk).
  destruct (find_spec fuel p x r k Hk ltac:(lia)) as (q & Hq & Hs).
  exists r, q. split; [done|]. split; [by exists k|done].
Qed.

(** *** Linking two roots *)
Lemma link_root p ra rb x r :
  is_root p ra → is_root p rb → ra ≠ rb → root p x r →
  root (<[rb := ra]> p) x (if decide (r = rb) then ra else r).
Proof.
  intros Ha Hb Hn [k H]. assert (rb < length p)%nat by (by apply lookup_lt_Some in Hb).
  assert (root_path (<[rb := ra]> p) ra ra 0) as Hra.
  { constructor. by rewrite list_lookup_insert_ne. }
  induction H as [x Hx|x y r k Hx Hxy H IH].
  - destruct (decide (x = rb)) as [->|Hne].
    + exists 1%nat. econstructor; [by apply list_lookup_insert_eq|congruence|done].
    + exists 0%nat. constructor. by rewrite list_lookup_insert_ne.
  - destruct IH as [j Hj]. exists (S j). econstructor; [|done|done].
    rewrite list_lookup_insert_ne; [done|]. intros ->. unfold is_root in Hb. congruence.
Qed.

Lemma link_forest p ra rb :
  is_root p ra → is_root p rb → ra ≠ rb → forest p → forest (<[rb := ra]> p).
Proof.
  intros Ha Hb Hn Hf x Hx. rewrite length_insert in Hx. destruct (Hf x Hx) as [r Hr].
  eexists. by apply link_root.
Qed.

Lemma same_refl p x : forest p → (x < length p)%nat → same p x x.
Proof. intros Hf Hx. destruct (Hf x Hx) as [r Hr]. by exists r. Qed.

Lemma same_sym p x y : same p x y → same p y x.
Proof. intros (r & ? & ?). by exists r. Qed.

Lemma same_trans p x y z : same p x y → same p y z → same p x z.
Proof.
  intros (r & Hx & Hy) (r' & Hy' & Hz). rewrite (root_det _ _ _ _ Hy' Hy) in Hz. by exists r.
Qed.

Lemma same_same_roots p q x y : forest p → same_roots p q → same p x y ↔ same q x y.
Proof.
  intros Hf Hs. unfold same. by setoid_rewrite (same_roots_iff p q _ _ Hf Hs).
Qed.

Lemma link_same p a b ra rb x y :
  forest p → root p a ra → root p b rb → ra ≠ rb →
  same (<[rb := ra]> p) x y ↔
  same p x y ∨ (same p x a ∧ same p b y) ∨ (same p x b ∧ same p a y).
Proof.
  intros Hf Ha Hb Hn.
  assert (is_root p ra) as Hra by (destruct Ha as [? ?]; by eapply root_path_is_root).
  assert (is_root p rb) as Hrb by (destruct Hb as [? ?]; by eapply root_path_is_root).
  pose proof (link_root p ra rb) as HL.
  assert (∀ z s, root (<[rb := ra]> p) z s →
    ∃ r, root p z r ∧ s = if decide (r = rb) then ra else r) as HR.
  { intros z s Hs. assert (z < length p)%nat as Hz.
    { destruct Hs as [k Hk]. apply root_path_lt in Hk. rewrite length_insert in Hk. lia. }
    destruct (Hf z Hz) as [r Hr]. exists r. split; [done|].
    by eapply root_det, HL. }
  split.
  - intros (s & (rx & Hx & ->)%HR & (ry & Hy & E)%HR).
    destruct (decide (rx = rb)) as [->|], (decide (ry = rb)) as [->|]; simplify_eq.
    + left. by exists rb.
    + right. right. split; [by exists rb|by exists ry].
    + right. left. split; [by exists ra|by exists rb].
    + left. by exists ry.
  - intros [(r & Hx & Hy)|[[(r & Hx & Ha') (r' & Hb' & Hy)]|[(r & Hx & Hb') (r' & Ha' & Hy)]]].
    + eexists. split; [by apply HL|by apply HL].
    + rewrite (root_det _ _ _ _ Ha' Ha) in Hx. rewrite (root_det _ _ _ _ Hb' Hb) in Hy.
      apply (HL _ _ Hra Hrb Hn) in Hx, Hy. rewrite decide_False in Hx by done.
      rewrite decide_True in Hy by done. by exists ra.
    + rewrite (root_det _ _ _ _ Ha' Ha) in Hy. rewrite (root_det _ _ _ _ Hb' Hb) in Hx.
      apply (HL _ _ Hra Hrb Hn) in Hx, Hy. rewrite decide_False in Hy by done.
      rewrite decide_True in Hx by done. by exists ra.
Qed.

Definition uf_wf (n : nat) (uf : union_find) : Prop :=
  forest (parent uf) ∧ length (parent uf) = n ∧ length (rank uf) = n.

Lemma uf_new_wf n : uf_wf n (uf_new n).
Proof.
  split; [apply forest_init|]. split; [apply length_seq|apply length_replicate].
Qed.

Lemma unite_spec bump n uf a b :
  uf_wf n uf → (a < n)%nat → (b < n)%nat →
  ∃ ok uf', unite bump uf a b = Ok (ok, uf') ∧ uf_wf n uf' ∧
    (ok = false ↔ same (parent uf) a b) ∧
    ∀ x y, same (parent uf') x y ↔
      same (parent uf) x y ∨ (same (parent uf) x a ∧ same (parent uf) b y)
      ∨ (same (parent uf) x b ∧ same (parent uf) a y).
Proof.
  intros (Hf & Hlp & Hlr) Ha Hb. unfold unite.
  destruct (find_ok (parent uf) a (S (length (parent uf))) Hf ltac:(lia) ltac:(lia))
    as (ra & q & -> & Hra & Hq). rewrite bind_ok.
  pose proof (same_roots_forest _ _ Hq Hf) as Hfq.
  destruct (find_ok q b (S (length (parent uf))) Hfq) as (rb & q' & -> & Hrb & Hq').
  { destruct Hq as [<- _]. lia. } { destruct Hq as [<- _]. lia. }
  rewrite bind_ok.
  assert (same_roots (parent uf) q') as Hs by (by transitivity q).
  pose proof (same_roots_forest _ _ Hs Hf) as Hfq'.
  assert (root q' a ra) as Hra' by (by apply Hs).
  assert (root q' b rb) as Hrb' by (by apply Hq').
  assert (length q' = n) as Hl by (destruct Hs; congruence).
  pose proof (λ x y, same_same_roots _ _ x y Hf Hs) as Heq.
  destruct (decide (ra = rb)) as [<-|Hn].
  - eexists false, _. split; [done|]. split; [done|]. cbn [parent].
    assert (same (parent uf) a b) as Hab by (apply Heq; by exists ra).
    split; [done|]. intros x y. rewrite <- Heq. split; [by left|].
    intros [?|[[Hx Hy]|[Hx Hy]]]; [done| |].
    + eapply same_trans, Hy. by eapply same_trans.
    + eapply same_trans, Hy. eapply same_trans; [done|]. by apply same_sym.
  - assert (∀ r z, root q' z r → ∃ v, rank uf !! r = Some v) as Hrk.
    { intros r z [k Hk]. apply root_path_lt in Hk. apply lookup_lt_is_Some. lia. }
    destruct (Hrk _ _ Hra') as [ka Hka], (Hrk _ _ Hrb') as [kb Hkb].
    unfold get_at. rewrite Hka, Hkb, !bind_ok.
    assert (ra ≠ rb ∧ ¬ same (parent uf) a b) as [_ Hab].
    { split; [done|]. rewrite Heq. intros (r & H1 & H2).
      apply Hn. by rewrite (root_det _ _ _ _ Hra' H1), (root_det _ _ _ _ Hrb' H2). }
    assert (is_root q' ra) as Ira by (destruct Hra' as [? ?]; by eapply root_path_is_root).
    assert (is_root q' rb) as Irb by (destruct Hrb' as [? ?]; by eapply root_path_is_root).
    destruct (ka <? kb); rewrite ?Hka, ?Hkb, !bind_ok; eexists true, _; (split; [reflexivity|]).
    + split; [|split; [naive_solver|]].
      * split; [by apply link_forest|]. cbn [parent rank]. split; [by rewrite length_insert|].
        case_match; by rewrite ?length_insert.
      * intros x y. cbn [parent]. rewrite !Heq, (link_same q' b a rb ra); [|done..].
        tauto.
    + split; [|split; [naive_solver|]].
      * split; [by apply link_forest|]. cbn [parent rank]. split; [by rewrite length_insert|].
        case_match; by rewrite ?length_insert.
      * intros x y. cbn [parent]. rewrite !Heq. by rewrite (link_same q' a b ra rb).
Qed.

(** *** Counting the sets *)
Definition roots (p : list nat) : list nat :=
  filter (λ x, is_root p x) (seq 0 (length p)).

Lemma elem_of_roots p x : x ∈ roots p ↔ is_root p x.
Proof.
  unfold roots. rewrite list_elem_of_filter, elem_of_seq. split; [tauto|].
  intros H. split; [done|]. apply lookup_lt_Some in H. lia.
Qed.

Lemma roots_NoDup p : NoDup (roots p).
Proof. apply NoDup_filter, NoDup_seq. Qed.

(** A coarser partition has at most as many sets. *)
Lemma roots_le p q :
  forest q → length p = length q → (∀ x y, same q x y → same p x y) →
  (length (roots p) <= length (roots q))%nat.
Proof.
  intros Hf Hl Hs.
  assert (∀ x, is_root p x → root p x x) as Hself by (intros x ?; exists 0%nat; by constructor).
  assert (∀ l, NoDup l → (∀ x, x ∈ l → is_root p x) →
    ∃ l', length l' = length l ∧ NoDup l' ∧ ∀ y, y ∈ l' → is_root q y ∧ ∃ x, x ∈ l ∧ root q x y) as H.
  { induction l as [|x l IH]; intros Hnd Hr.
    - exists []. split; [done|]. split; [constructor|]. intros y Hy. by apply not_elem_of_nil in Hy.
    - apply NoDup_cons in Hnd as [Hx Hnd].
      destruct IH as (l' & Hl' & Hnd' & H'); [done|intros; apply Hr; by right|].
      assert (x < length q)%nat as Hlt.
      { pose proof (Hr x ltac:(by left)) as Hxr. apply lookup_lt_Some in Hxr. lia. }
      destruct (Hf x Hlt) as [y Hy]. exists (y :: l'). split; [simpl; congruence|]. split.
      + constructor; [|done]. intros (_ & z & Hz & Hzy)%H'.
        destruct (Hs x z) as (r & Hxr & Hzr); [by exists y|].
        rewrite (root_det _ _ _ _ Hxr (Hself x (Hr x ltac:(by left)))) in Hzr.
        rewrite (root_det _ _ _ _ Hzr (Hself z (Hr z ltac:(by right)))) in Hx. done.
      + intros z [->|Hz]%elem_of_cons.
        * split; [destruct Hy; by eapply root_path_is_root|]. exists x. split; [by left|done].
        * destruct (H' z Hz) as (? & w & ? & ?). split; [done|]. exists w. split; [by right|done]. }
  destruct (H (roots p) (roots_NoDup p)) as (l' & Hl' & Hnd' & H').
  { intros x. apply elem_of_roots. }
  rewrite <- Hl'. apply submseteq_length, NoDup_submseteq; [done|].
  intros y (Hy & _)%H'. by apply elem_of_roots.
Qed.

Lemma roots_same p q :
  forest p → forest q → length p = length q → (∀ x y, same p x y ↔ same q x y) →
  length (roots p) = length (roots q).
Proof. intros Hp Hq Hl H. apply Nat.le_antisymm; apply roots_le; naive_solver. Qed.

Lemma roots_link p ra rb :
  is_root p ra → is_root p rb → ra ≠ rb →
  length (roots p) = S (length (roots (<[rb := ra]> p))).
Proof.
  intros Ha Hb Hn. change (S ?n) with (length (rb :: roots (<[rb := ra]> p))).
  assert (rb < length p)%nat as Hlt by (by apply lookup_lt_Some in Hb).
  assert (¬ is_root (<[rb := ra]> p) rb) as Hnb.
  { unfold is_root. rewrite list_lookup_insert_eq by done. congruence. }
  apply Permutation_length, NoDup_Permutation.
  - apply roots_NoDup.
  - constructor; [|apply roots_NoDup]. by rewrite elem_of_roots.
  - intros x. rewrite elem_of_cons, !elem_of_roots.
    destruct (decide (x = rb)) as [->|Hx]; [tauto|]. unfold is_root.
    rewrite list_lookup_insert_ne by done. tauto.
Qed.

Lemma roots_init n : length (roots (seq 0 n)) = n.
Proof.
  transitivity (length (seq 0 n)); [|apply length_seq]. apply Permutation_length, NoDup_Permutation.
  - apply roots_NoDup.
  - apply NoDup_seq.
  - intros x. rewrite elem_of_roots, elem_of_seq. unfold is_root. rewrite lookup_seq. lia.
Qed.

(** A successful union merges exactly two sets, a failed one none. *)
Lemma unite_roots bump n uf a b ok uf' :
  uf_wf n uf → (a < n)%nat → (b < n)%nat → unite bump uf a b = Ok (ok, uf') →
  length (roots (parent uf)) = (length (roots (parent uf')) + if ok then 1 else 0)%nat.
Proof.
  intros (Hf & Hlp & Hlr) Ha Hb. unfold unite.
  destruct (find_ok (parent uf) a (S (length (parent uf))) Hf ltac:(lia) ltac:(lia))
    as (ra & q & -> & Hra & Hq). rewrite bind_ok.
  pose proof (same_roots_forest _ _ Hq Hf) as Hfq.
  destruct (find_ok q b (S (length (parent uf))) Hfq) as (rb & q' & -> & Hrb & Hq').
  { destruct Hq as [<- _]. lia. } { destruct Hq as [<- _]. lia. }
  rewrite bind_ok.
  assert (same_roots (parent uf) q') as Hs by (by transitivity q).
  assert (length (roots (parent uf)) = length (roots q')) as ->.
  { apply roots_same; [done|by eapply same_roots_forest|apply Hs|].
    intros. by apply same_same_roots. }
  assert (is_root q' ra) as Ira.
  { assert (root q' a ra) as [? ?] by (by apply Hs). by eapply root_path_is_root. }
  assert (is_root q' rb) as Irb.
  { assert (root q' b rb) as [? ?] by (by apply Hq'). by eapply root_path_is_root. }
  destruct (decide (ra = rb)) as [<-|Hn]; [intros [= <- <-]; simpl; lia|].
  intros H. apply bind_ok_inv in H as (rka & _ & H). apply bind_ok_inv in H as (rkb & _ & H).
  destruct (rka <? rkb).
  - apply bind_ok_inv in H as (? & _ & H). apply bind_ok_inv in H as (? & _ & [= <- <-]).
    rewrite (roots_link q' rb ra) by done. simpl. lia.
  - apply bind_ok_inv in H as (? & _ & H). apply bind_ok_inv in H as (? & _ & [= <- <-]).
    rewrite (roots_link q' ra rb) by done. simpl. lia.
Qed.

(** ** Connected components *)

(** The equivalence closure of [R] is below every equivalence that contains [R]. *)
Lemma rtsc_least {A} (R E : relation A) `{!Equivalence E} :
  (∀ x y, R x y → E x y) → ∀ x y, rtsc R x y → E x y.
Proof.
  intros H x y. induction 1 as [|x y z [Hs|Hs] _ IH]; [done| |].
  - by transitivity y; [apply H|].
  - transitivity y; [by symmetry; apply H|done].
Qed.

Definition connected (edges : list (nat * nat)) : relation nat :=
  rtsc (λ x y, (x, y) ∈ edges).

Lemma unite_all_same bump n edges uf merged :
  uf_wf n uf → Forall (λ e, (e.1 < n ∧ e.2 < n)%nat) edges →
  ∃ m uf', unite_all bump edges uf merged = Ok (m, uf') ∧ uf_wf n uf' ∧
    (∀ x y, same (parent uf) x y → same (parent uf') x y) ∧
    (∀ x y, (x, y) ∈ edges → same (parent uf') x y) ∧
    (∀ x y, same (parent uf') x y →
       rtsc (λ x y, same (parent uf) x y ∨ (x, y) ∈ edges) x y) ∧
    m = merged + Z.of_nat (length (roots (parent uf))) - Z.of_nat (length (roots (parent uf'))).
Proof.
  revert uf merged. induction edges as [|[a b] edges IH]; intros uf merged Hwf Hall.
  - exists merged, uf. split; [done|]. split; [done|]. split; [done|]. split; [set_solver|].
    split; [|lia]. intros x y H. apply rtsc_lr. by left.
  - apply Forall_cons in Hall as [[Ha Hb] Hall]. cbn [fst snd] in Ha, Hb.
    destruct (unite_spec bump n uf a b Hwf Ha Hb) as (ok & uf1 & E & Hwf1 & _ & Hs1).
    pose proof (unite_roots _ _ _ _ _ _ _ Hwf Ha Hb E) as Hr.
    destruct (IH uf1 (if ok then merged + 1 else merged) Hwf1 Hall)
      as (m & uf' & E' & Hwf' & Hmono & Hedges & Hsound & Hm).
    exists m, uf'. simpl. rewrite E, bind_ok. split; [done|]. split; [done|].
    split; [intros x y H; apply Hmono, Hs1; by left|].
    split; [|split; [|destruct ok; lia]].
    + intros x y [[= -> ->]|H]%elem_of_cons; [|by apply Hedges].
      apply Hmono, Hs1. right. left. destruct Hwf as (? & ? & _).
      split; (apply same_refl; [done|congruence]).
    + intros x y H%Hsound. revert H. apply rtsc_least; [apply _|]. intros x' y' [H|H].
      * apply Hs1 in H as [H|[[H1 H2]|[H1 H2]]].
        { apply rtsc_lr. by left. }
        { transitivity a; [apply rtsc_lr; by left|].
          transitivity b; apply rtsc_lr; [right; by left|by left]. }
        { transitivity b; [apply rtsc_lr; by left|].
          transitivity a; [apply rtsc_rl; right; by left|apply rtsc_lr; by left]. }
      * apply rtsc_lr. right. by right.
Qed.

(** Uniting along [edges] from singletons computes the connected components, and
    the number of merges is [n] minus the number of components. *)
Lemma unite_all_components bump n edges :
  Forall (λ e, (e.1 < n ∧ e.2 < n)%nat) edges →
  ∃ m uf, unite_all bump edges (uf_new n) 0 = Ok (m, uf) ∧ uf_wf n uf ∧
    m = Z.of_nat n - Z.of_nat (length (roots (parent uf))) ∧
    ∀ x y, (x < n)%nat → (y < n)%nat → same (parent uf) x y ↔ connected edges x y.
Proof.
  intros Hall. destruct (unite_all_same bump n edges (uf_new n) 0 (uf_new_wf n) Hall)
    as (m & uf & E & Hwf & Hmono & Hedges & Hsound & Hm).
  exists m, uf. split; [done|]. split; [done|]. split.
  { rewrite Hm. cbn [parent uf_new].
    by rewrite roots_init. }
  intros x y Hx Hy. destruct Hwf as (Hf & Hl & _). split.
  - intros H%Hsound. revert H. unfold connected. apply rtsc_least; [apply _|]. intros x' y' [H|H].
    + destruct H as (r & [_ ->]%root_init & [_ ->]%root_init). reflexivity.
    + by apply rtsc_lr.
  - intros H. destruct (decide (x = y)) as [->|Hxy]; [apply same_refl; [done|congruence]|].
    assert (∀ x y, connected edges x y → x = y ∨ same (parent uf) x y) as HC; [|naive_solver].
    intros x' y'. induction 1 as [|x' y' z H' _ IH]; [by left|]. right.
    assert (same (parent uf) x' y') as Hs.
    { destruct H'; [by apply Hedges|by apply same_sym, Hedges]. }
    destruct IH as [<-|?]; [done|by eapply same_trans].
Qed.
