(* ===== verification/Text.v ===== *)
(** * Rust strings as UTF-8 bytes

    The operations of [str] that the sources use, on the bytes of a string:
    searching, splitting, ASCII case, order, characters, white space and
    trimming.  Only the case mapping of Unicode is left to a parameter. *)

From stdpp Require Import sorting.
From S2P Require Import Prelude.
#[local] Open Scope Z_scope.

(** A Rust [String] or [&str] as its UTF-8 bytes; a 32-byte hash likewise. *)
Abbreviation bstring := (list byte) (only parsing).

(** The bytes of an ASCII literal. *)
Definition bytes_of (s : string) : bstring := map Ascii.byte_of_ascii (String.list_ascii_of_string s).

(** [cfg!(windows)], [str::to_lowercase], which depends on the Unicode tables,
    and [Path::file_name], whose separators depend on the system. *)
Class Platform := {
  windows : bool;
  str_to_lowercase : bstring → bstring;
  path_file_name : bstring → option bstring }.

(** ** Searching and splitting *)

(** [str::starts_with], [ends_with], [contains] *)
Fixpoint starts_with (pat s : bstring) : bool :=
  match pat, s with
  | [], _ => true
  | p :: pat, c :: s => bool_decide (p = c) && starts_with pat s
  | _ :: _, [] => false
  end.
Definition ends_with (pat s : bstring) : bool := starts_with (reverse pat) (reverse s).
Fixpoint contains (pat s : bstring) : bool :=
  starts_with pat s || match s with [] => false | _ :: s => contains pat s end.

(** [str::find] of an ASCII character *)
Fixpoint find_byte (c : byte) (s : bstring) : option nat :=
  match s with
  | [] => None
  | b :: s => if bool_decide (b = c) then Some 0%nat else S <$> find_byte c s
  end.

(** [s.split(c)] and [parts.join(c)] for one ASCII character *)
Fixpoint split_on (c : byte) (s : bstring) : list bstring :=
  match s with
  | [] => [[]]
  | b :: s =>
      match split_on c s with
      | [] => [[]]
      | p :: ps => if decide (b = c) then [] :: p :: ps else (b :: p) :: ps
      end
  end.
Fixpoint join_with (c : byte) (ps : list bstring) : bstring :=
  match ps with
  | [] => []
  | [p] => p
  | p :: ps => p ++ [c] ++ join_with c ps
  end.

(** [Option::is_some_and] *)
Definition is_some_and {A} (p : A → bool) (o : option A) : bool :=
  match o with Some a => p a | None => false end.

(** ** ASCII case and order *)

(** [to_ascii_uppercase] and [to_ascii_lowercase] of a byte *)
Definition ascii_upper (b : byte) : byte :=
  if (97 <=? u8 b) && (u8 b <=? 122) then byte.of_Z (u8 b - 32) else b.
Definition ascii_lower (b : byte) : byte :=
  if (65 <=? u8 b) && (u8 b <=? 90) then byte.of_Z (u8 b + 32) else b.

(** [str] ordering: lexicographic on the UTF-8 bytes. *)
Fixpoint str_cmp (a b : bstring) : comparison :=
  match a, b with
  | [], [] => Eq
  | [], _ :: _ => Lt
  | _ :: _, [] => Gt
  | x :: a, y :: b => match u8 x ?= u8 y with Eq => str_cmp a b | c => c end
  end.
Definition str_le (a b : bstring) : Prop := str_cmp a b ≠ Gt.
#[export] Instance str_le_dec : RelDecision str_le.
Proof. intros a b. unfold str_le. apply _. Defined.

(** ** Characters *)

(** A continuation byte of UTF-8, [10xxxxxx]. *)
Definition is_cont (b : byte) : bool := (128 <=? u8 b) && (u8 b <? 192).

(** [str::is_char_boundary] *)
Definition is_char_boundary (s : bstring) (i : nat) : bool :=
  (i =? 0)%nat || (i =? length s)%nat ||
  match s !! i with Some b => negb (is_cont b) | None => false end.

(** [str::chars], each character as its bytes. *)
Fixpoint chars (s : bstring) : list bstring :=
  match s with
  | [] => []
  | b :: s =>
      match chars s with
      | (c :: cs) :: rest => if is_cont c then (b :: c :: cs) :: rest else [b] :: (c :: cs) :: rest
      | rest => [b] :: rest
      end
  end.

(** The UTF-8 encoding of scalar values. *)
Definition utf8_char (c : Z) : bstring :=
  map byte.of_Z
    (if c <? 0x80 then [c]
     else if c <? 0x800 then [0xC0 + c / 64; 0x80 + c mod 64]
     else if c <? 0x10000 then [0xE0 + c / 4096; 0x80 + c / 64 mod 64; 0x80 + c mod 64]
     else [0xF0 + c / 262144; 0x80 + c / 4096 mod 64; 0x80 + c / 64 mod 64; 0x80 + c mod 64]).
Definition utf8 (s : list Z) : bstring := c ← s; utf8_char c.

(** [char::is_whitespace]: the code points with the property White_Space. *)
Definition WHITESPACE : list bstring :=
  [ [Byte.x09]; [Byte.x0a]; [Byte.x0b]; [Byte.x0c]; [Byte.x0d]; [Byte.x20];
    [Byte.xc2; Byte.x85]; [Byte.xc2; Byte.xa0]; [Byte.xe1; Byte.x9a; Byte.x80];
    [Byte.xe2; Byte.x80; Byte.x80]; [Byte.xe2; Byte.x80; Byte.x81]; [Byte.xe2; Byte.x80; Byte.x82];
    [Byte.xe2; Byte.x80; Byte.x83]; [Byte.xe2; Byte.x80; Byte.x84]; [Byte.xe2; Byte.x80; Byte.x85];
    [Byte.xe2; Byte.x80; Byte.x86]; [Byte.xe2; Byte.x80; Byte.x87]; [Byte.xe2; Byte.x80; Byte.x88];
    [Byte.xe2; Byte.x80; Byte.x89]; [Byte.xe2; Byte.x80; Byte.x8a]; [Byte.xe2; Byte.x80; Byte.xa8];
    [Byte.xe2; Byte.x80; Byte.xa9]; [Byte.xe2; Byte.x80; Byte.xaf]; [Byte.xe2; Byte.x81; Byte.x9f];
    [Byte.xe3; Byte.x80; Byte.x80] ].
Definition is_whitespace (c : bstring) : bool := bool_decide (c ∈ WHITESPACE).

(** ** Trimming *)

Fixpoint drop_while {A} (p : A → bool) (l : list A) : list A :=
  match l with x :: l' => if p x then drop_while p l' else l | [] => [] end.
Definition drop_while_end {A} (p : A → bool) (l : list A) : list A := reverse (drop_while p (reverse l)).

(** [str::trim] *)
Definition str_trim (s : bstring) : bstring :=
  concat (drop_while_end is_whitespace (drop_while is_whitespace (chars s))).

(** [trim_start_matches(c)], [trim_end_matches(c)] and [trim_matches(c)] of an
    ASCII character *)
Definition is_byte (c b : byte) : bool := bool_decide (b = c).
Definition trim_start_matches (c : byte) (s : bstring) : bstring := drop_while (is_byte c) s.
Definition trim_end_matches (c : byte) (s : bstring) : bstring := drop_while_end (is_byte c) s.
Definition trim_matches (c : byte) (s : bstring) : bstring := trim_end_matches c (trim_start_matches c s).

(** [str::lines]: a line ends at a line feed, which may follow a carriage return; a
    last line without one is given as it is. *)
Definition strip_cr {A} `{EqDecision A} (cr : A) (line : list A) : list A :=
  match reverse line with x :: l => if decide (x = cr) then reverse l else line | [] => line end.
Fixpoint lines_by {A} `{EqDecision A} (lf cr : A) (cur s : list A) : list (list A) :=
  match s with
  | [] => match cur with [] => [] | _ => [cur] end
  | c :: s => if decide (c = lf) then strip_cr cr cur :: lines_by lf cr [] s else lines_by lf cr (cur ++ [c]) s
  end.

(** [i64::to_string] and [u64::to_string] *)
Fixpoint digits_of (fuel : nat) (n : Z) (acc : bstring) : bstring :=
  let acc := byte.of_Z (48 + n mod 10) :: acc in
  match fuel with
  | O => acc
  | S fuel => if n <? 10 then acc else digits_of fuel (n / 10) acc
  end.
Definition to_decimal (n : Z) : bstring :=
  if n <? 0 then Byte.x2d :: digits_of (Z.to_nat (Z.log2 (- n))) (- n) []
  else digits_of (Z.to_nat (Z.log2 n)) n [].

Example to_decimal_ok : map to_decimal [0; 7; 10; 4096; -305] = map bytes_of ["0"; "7"; "10"; "4096"; "-305"]%string.
Proof. vm_compute. reflexivity. Qed.
Example str_trim_ok : str_trim (Byte.xc2 :: Byte.xa0 :: bytes_of "  a b ") = bytes_of "a b".
Proof. vm_compute. reflexivity. Qed.

(** A string starts a character. *)
Definition starts_char (s : bstring) : Prop := match s with b :: _ => is_cont b = false | [] => True end.

(** ** Lemmas *)

Lemma chars_concat s : concat (chars s) = s.
Proof.
  induction s as [|b s IH]; [done|]. cbn [chars]. destruct (chars s) as [|[|c cs] rest] eqn:E.
  - simpl in *. by rewrite <- IH.
  - simpl in *. by rewrite IH.
  - destruct (is_cont c); simpl in *; by rewrite IH.
Qed.

Lemma chars_nonempty s c : c ∈ chars s → c ≠ [].
Proof.
  revert c. induction s as [|b s IH]; intros c; cbn [chars]; [by intros ?%elem_of_nil|].
  destruct (chars s) as [|[|c0 cs] rest] eqn:E.
  - by intros ->%list_elem_of_singleton.
  - intros [->|Hc]%elem_of_cons; [done|]. by apply IH.
  - destruct (is_cont c0); intros [->|Hc]%elem_of_cons; try done.
    + apply IH. by right. + by apply IH.
Qed.

Lemma starts_with_inv pat s : starts_with pat s = true → ∃ t, s = pat ++ t.
Proof.
  revert s. induction pat as [|p pat IH]; intros [|b s]; simpl; try done; [by exists []|by exists (b :: s)|].
  intros [->%bool_decide_eq_true_1 [t ->]%IH]%andb_true_iff. by exists t.
Qed.
Lemma starts_with_app pat t : starts_with pat (pat ++ t) = true.
Proof. induction pat as [|p pat IH]; [by destruct t|]. simpl. by rewrite bool_decide_true, IH. Qed.

(** A character boundary splits the characters. *)
Lemma chars_app s t :
  match t with b :: _ => is_cont b = false | [] => True end → chars (s ++ t) = chars s ++ chars t.
Proof.
  intros Ht. induction s as [|b s IH]; [done|]. simpl. rewrite IH.
  destruct (chars s) as [|[|c cs] rest] eqn:Es; simpl.
  - destruct t as [|b' t]; [done|]. cbn [chars]. destruct (chars t) as [|[|c cs] rest]; [by rewrite Ht|by rewrite Ht|].
    destruct (is_cont c); by rewrite Ht.
  - done.
  - by destruct (is_cont c).
Qed.

Lemma drop_while_app {A} (p : A → bool) l l' :
  drop_while p (l ++ l') = if forallb p l then drop_while p l' else drop_while p l ++ l'.
Proof. induction l as [|x l IH]; [done|]. simpl. by destruct (p x). Qed.

Lemma drop_while_forallb {A} (p : A → bool) l : forallb p l = true → drop_while p l = [].
Proof. induction l as [|x l IH]; [done|]. simpl. destruct (p x); [done|discriminate]. Qed.

Lemma drop_while_suffix {A} (p : A → bool) l : ∃ k, l = k ++ drop_while p l ∧ forallb p k = true.
Proof.
  induction l as [|x l IH]; [by exists []|]. simpl. destruct (p x) eqn:E; [|by exists []].
  destruct IH as (k & Hk & Hp). exists (x :: k). simpl. rewrite E, <- Hk. done.
Qed.

(** ** UTF-8 *)

(** Each scalar value encodes as one character. *)
Lemma utf8_char_spec c :
  0 <= c < 0x110000 → ∃ b bs, utf8_char c = b :: bs ∧ is_cont b = false ∧ Forall (λ b, is_cont b = true) bs.
Proof.
  intros Hc.
  assert (∀ v, 0 <= v < 256 → u8 (byte.of_Z v) = v) as Hu.
  { intros v Hv. unfold u8. rewrite byte.unsigned_of_Z. unfold byte.wrap. by apply Z.mod_small. }
  assert (∀ v, 0 <= v < 64 → is_cont (byte.of_Z (0x80 + v)) = true) as Ht.
  { intros v Hv. unfold is_cont. rewrite Hu by lia. apply andb_true_iff. split; [apply Z.leb_le|apply Z.ltb_lt]; lia. }
  assert (∀ v, 0 <= v < 128 ∨ 192 <= v < 256 → is_cont (byte.of_Z v) = false) as Hh.
  { intros v Hv. unfold is_cont. rewrite Hu by lia. apply andb_false_iff.
    destruct Hv; [left; apply Z.leb_gt|right; apply Z.ltb_ge]; lia. }
  assert (∀ v, 0 <= v mod 64 < 64) as Hm by (intros; apply Z.mod_pos_bound; lia).
  unfold utf8_char. repeat (case_match; bool_to_Z); eexists _, _; (split; [reflexivity|]); split;
    try (apply Hh); repeat constructor; try (apply Ht, Hm);
    Z.to_euclidean_division_equations; lia.
Qed.

Lemma chars_one b bs : Forall (λ b, is_cont b = true) bs → chars (b :: bs) = [b :: bs].
Proof.
  intros Hbs. revert b. induction Hbs as [|b' bs Hb' _ IH]; intros b; [done|].
  change (chars (b :: b' :: bs)) with
    (match chars (b' :: bs) with
     | (c :: cs) :: rest => if is_cont c then (b :: c :: cs) :: rest else [b] :: (c :: cs) :: rest
     | rest => [b] :: rest end).
  by rewrite IH, Hb'.
Qed.

Lemma chars_utf8 s : Forall (λ c, 0 <= c < 0x110000) s → chars (utf8 s) = map utf8_char s.
Proof.
  induction 1 as [|c s Hc Hs IH]; [done|].
  change (utf8 (c :: s)) with (utf8_char c ++ utf8 s). rewrite chars_app.
  - rewrite IH. destruct (utf8_char_spec c Hc) as (b & bs & E & _ & Hbs). rewrite E, chars_one by done.
    cbn [map]. by rewrite E.
  - destruct Hs as [|c' s Hc' _]; [done|]. change (utf8 (c' :: s)) with (utf8_char c' ++ utf8 s).
    destruct (utf8_char_spec c' Hc') as (b & bs & -> & Hb & _). exact Hb.
Qed.

(** ** Order *)

(** A comparison that orders: swapping the arguments swaps the result, and equal
    results compose. *)
Class Ordering {A} (c : A → A → comparison) := {
  ord_opp : ∀ a b, c b a = CompOpp (c a b);
  ord_trans : ∀ a b d o, c a b = o → c b d = o → c a d = o }.

Section ordering.
Context {A : Type} (c : A → A → comparison) `{!Ordering c}.

Lemma ord_refl a : c a a = Eq.
Proof. pose proof (ord_opp a a) as H. destruct (c a a); done. Qed.

Lemma ord_eq_l a b d : c a b = Eq → c a d = c b d.
Proof.
  intros E. assert (c b a = Eq) as E' by (by rewrite ord_opp, E).
  destruct (c b d) eqn:Hbd; [by eapply ord_trans| |].
  - destruct (c a d) eqn:Had; [|done|].
    + pose proof (ord_trans b a d _ E' Had). congruence.
    + assert (c d b = Gt) as Hdb by (by rewrite ord_opp, Hbd).
      pose proof (ord_trans a d b _ Had Hdb). congruence.
  - destruct (c a d) eqn:Had; [| |done].
    + pose proof (ord_trans b a d _ E' Had). congruence.
    + assert (c d b = Lt) as Hdb by (by rewrite ord_opp, Hbd).
      pose proof (ord_trans a d b _ Had Hdb). congruence.
Qed.
End ordering.

#[export] Instance Z_compare_ordering : Ordering Z.compare.
Proof.
  split; [apply Z.compare_antisym|]. intros a b d []; rewrite ?Z.compare_eq_iff, ?Z.compare_lt_iff, ?Z.compare_gt_iff; lia.
Qed.

Lemma u8_inj (a b : byte) : u8 a = u8 b → a = b.
Proof. apply byte.unsigned_inj. Qed.

#[export] Instance str_cmp_ordering : Ordering str_cmp.
Proof.
  split.
  - induction a as [|x a IH]; intros [|y b]; try done. simpl.
    rewrite (Z.compare_antisym (u8 x) (u8 y)). destruct (u8 x ?= u8 y); simpl; auto.
  - induction a as [|x a IH]; intros [|y b] [|z d] o; simpl; try congruence; try done.
    destruct (u8 x ?= u8 y) eqn:Hxy.
    + rewrite (ord_eq_l Z.compare _ _ (u8 z) Hxy). destruct (u8 y ?= u8 z); [apply IH|congruence|congruence].
    + destruct (u8 y ?= u8 z) eqn:Hyz; intros <-.
      * apply Z.compare_eq in Hyz. rewrite <- Hyz, Hxy. done.
      * by rewrite (ord_trans _ _ _ _ Hxy Hyz).
      * done.
    + destruct (u8 y ?= u8 z) eqn:Hyz; intros <-.
      * apply Z.compare_eq in Hyz. rewrite <- Hyz, Hxy. done.
      * done.
      * by rewrite (ord_trans _ _ _ _ Hxy Hyz).
Qed.

Lemma str_cmp_eq a b : str_cmp a b = Eq ↔ a = b.
Proof.
  split; [|intros ->; apply (ord_refl str_cmp)]. revert b.
  induction a as [|x a IH]; intros [|y b]; simpl; try done.
  destruct (u8 x ?= u8 y) eqn:E; try done. apply Z.compare_eq, u8_inj in E as ->. intros ?%IH. by f_equal.
Qed.

#[export] Instance str_le_trans : Transitive str_le.
Proof.
  unfold str_le. intros a b d Hab Hbd Had. destruct (str_cmp a b) eqn:E1; [|clear Hab|done].
  - apply str_cmp_eq in E1 as ->. done.
  - destruct (str_cmp b d) eqn:E2; [|clear Hbd|done].
    + apply str_cmp_eq in E2 as ->. congruence.
    + pose proof (ord_trans (c := str_cmp) a b d _ E1 E2). congruence.
Qed.
#[export] Instance str_le_total : Total str_le.
Proof. intros a b. unfold str_le. rewrite (ord_opp (c := str_cmp) a b). destruct (str_cmp a b); [left|left|right]; done. Qed.
#[export] Instance str_le_anti_symm : AntiSymm (=) str_le.
Proof.
  intros a b. unfold str_le. rewrite (ord_opp (c := str_cmp) a b). destruct (str_cmp a b) eqn:E; [by apply str_cmp_eq in E|done|done].
Qed.

(** Sorting strings forgets their order. *)
Lemma sort_permutation l l' : l ≡ₚ l' → merge_sort str_le l = merge_sort str_le l'.
Proof.
  intros Hp. apply (StronglySorted_unique str_le).
  - apply (StronglySorted_merge_sort str_le).
  - apply (StronglySorted_merge_sort str_le).
  - by rewrite !merge_sort_Permutation.
Qed.

(** ** Trimming *)

Lemma drop_while_end_app {A} (p : A → bool) l l' :
  drop_while_end p (l ++ l') = if forallb p l' then drop_while_end p l else l ++ drop_while_end p l'.
Proof.
  unfold drop_while_end. rewrite reverse_app, drop_while_app.
  assert (forallb p (reverse l') = forallb p l') as ->.
  { rewrite eq_iff_eq_true, !forallb_forall. by setoid_rewrite <- list_elem_of_In; setoid_rewrite elem_of_reverse. }
  destruct (forallb p l'); [done|]. by rewrite reverse_app, reverse_involutive.
Qed.

Lemma drop_while_id {A} (p : A → bool) x l : p x = false → drop_while p (x :: l) = x :: l.
Proof. simpl. by intros ->. Qed.

(** The part that is kept starts, or ends, with an element that is not dropped. *)
Lemma drop_while_idemp {A} (p : A → bool) l : drop_while p (drop_while p l) = drop_while p l.
Proof. induction l as [|x l IH]; [done|]. simpl. destruct (p x) eqn:E; [done|]. simpl. by rewrite E. Qed.
Lemma drop_while_end_idemp {A} (p : A → bool) l : drop_while_end p (drop_while_end p l) = drop_while_end p l.
Proof. unfold drop_while_end. by rewrite reverse_involutive, drop_while_idemp. Qed.

Lemma drop_while_end_prefix {A} (p : A → bool) l : ∃ k, l = drop_while_end p l ++ k ∧ forallb p k = true.
Proof.
  destruct (drop_while_suffix p (reverse l)) as (k & Hk & Hp). exists (reverse k). unfold drop_while_end. split.
  - rewrite <- reverse_app, <- Hk. by rewrite reverse_involutive.
  - apply forallb_forall. intros x Hx. rewrite forallb_forall in Hp. apply Hp.
    by rewrite <- list_elem_of_In, elem_of_reverse, list_elem_of_In in Hx.
Qed.

(** Dropping at both ends commutes. *)
Lemma drop_while_both {A} (p : A → bool) l :
  drop_while_end p (drop_while p l) = drop_while p (drop_while_end p l).
Proof.
  destruct (drop_while_suffix p l) as (k & Hl & Hk). rewrite Hl at 2. rewrite drop_while_end_app.
  destruct (forallb p (drop_while p l)) eqn:E.
  - pose proof (drop_while_forallb p _ E) as Hn. rewrite drop_while_idemp in Hn. rewrite Hn.
    destruct (drop_while_end_prefix p k) as (k' & Hk' & _). change (drop_while_end p []) with (@nil A).
    symmetry. apply drop_while_forallb. rewrite Hk', forallb_app in Hk. by apply andb_true_iff in Hk as [? _].
  - rewrite drop_while_app, Hk. destruct (drop_while p l) as [|x m] eqn:Em; [done|].
    assert (p x = false) as Hx.
    { pose proof (drop_while_idemp p l) as Hi. rewrite Em in Hi. simpl in Hi.
      destruct (p x); [|done]. exfalso. apply (f_equal length) in Hi. simpl in Hi.
      destruct (drop_while_suffix p m) as (j & Hj & _). apply (f_equal length) in Hj. rewrite length_app in Hj. lia. }
    change (x :: m) with ([x] ++ m). rewrite drop_while_end_app. simpl in E. rewrite Hx in E. simpl in E.
    destruct (forallb p m) eqn:Em'.
    + unfold drop_while_end at 1 2. simpl. rewrite Hx. simpl. by rewrite Hx.
    + simpl. by rewrite Hx.
Qed.

Lemma chars_split s A B : chars s = A ++ B → chars (concat A) = A ∧ chars (concat B) = B.
Proof.
  revert A B. induction s as [|b s IH]; intros A B E.
  { symmetry in E. apply app_nil in E as [-> ->]. done. }
  cbn [chars] in E. pose proof (chars_concat s) as Hs. destruct (chars s) as [|[|c cs] rest] eqn:Ec.
  - destruct A as [|a A]; simpl in E; [by rewrite <- E|]. injection E as <- E.
    symmetry in E. apply app_nil in E as [-> ->]. done.
  - exfalso. eapply (chars_nonempty s []); [rewrite Ec; by left|done].
  - destruct (is_cont c) eqn:Ecc.
    + destruct A as [|a A]; simpl in E.
      { rewrite <- E. split; [done|]. change (concat _) with (b :: concat ((c :: cs) :: rest)).
        rewrite Hs. cbn [chars]. by rewrite Ec, Ecc. }
      injection E as <- ->. destruct (IH ((c :: cs) :: A) B eq_refl) as [H1 H2]. split; [|done].
      simpl in *. cbn [chars]. rewrite H1. by rewrite Ecc.
    + destruct A as [|a A]; simpl in E.
      { rewrite <- E. split; [done|]. change (concat _) with (b :: concat ((c :: cs) :: rest)).
        rewrite Hs. cbn [chars]. by rewrite Ec, Ecc. }
      injection E as <- E. destruct (IH A B E) as [H1 H2]. split; [|done]. cbn [concat app chars].
      rewrite H1. destruct A as [|[|c' cs'] A]; [done|done|]. simpl in E. injection E as <- _ _. by rewrite Ecc.
Qed.

(** The characters of a trimmed string. *)
Lemma chars_trim s : chars (str_trim s) = drop_while_end is_whitespace (drop_while is_whitespace (chars s)).
Proof.
  unfold str_trim. destruct (drop_while_suffix is_whitespace (chars s)) as (k & Hk & _).
  destruct (drop_while_end_prefix is_whitespace (drop_while is_whitespace (chars s))) as (k' & Hk' & _).
  apply chars_split in Hk as [_ Hk]. rewrite Hk' in Hk at 2. apply chars_split in Hk as [Hk _]. done.
Qed.

Lemma str_trim_idemp s : str_trim (str_trim s) = str_trim s.
Proof.
  unfold str_trim at 1. by rewrite chars_trim, <- drop_while_both, drop_while_idemp, drop_while_end_idemp.
Qed.

Lemma str_trim_length s : (length (str_trim s) <= length s)%nat.
Proof.
  rewrite <- (chars_concat s) at 2. unfold str_trim.
  destruct (drop_while_suffix is_whitespace (chars s)) as (k & Hk & _).
  destruct (drop_while_end_prefix is_whitespace (drop_while is_whitespace (chars s))) as (k' & Hk' & _).
  rewrite Hk at 2. rewrite concat_app, length_app. rewrite Hk' at 2. rewrite concat_app, length_app. lia.
Qed.
