(* ===== verification/CivilDate.v ===== *)
(** * Dates in decision rows (keepset.rs, format_date_filetime_utc)

    The civil date of signed Unix seconds by Hinnant's algorithm, checked against
    the calendar: each day's date is the successor of the day before. *)

From S2P Require Import Prelude Text.
#[local] Open Scope Z_scope.

(** The year, month and day of a day number since 1970-01-01.  Division rounds
    toward zero, as in Rust; [doe] and what follows are [u64]. *)
Definition civil_from_days (days : Z) : Z * Z * Z :=
  let z := days + 719468 in
  let era := Z.quot (if 0 <=? z then z else z - 146096) 146097 in
  let doe := z - era * 146097 in
  let yoe := (doe - doe / 1460 + doe / 36524 - doe / 146096) / 365 in
  let y := yoe + era * 400 in
  let doy := doe - (365 * yoe + yoe / 4 - yoe / 100) in
  let mp := (5 * doy + 2) / 153 in
  let d := doy - (153 * mp + 2) / 5 + 1 in
  let m := if mp <? 10 then mp + 3 else mp - 9 in
  let y := if m <=? 2 then y + 1 else y in
  (y, m, d).

(** The hour, minute and second of a second of the day. *)
Definition clock_of (tod : Z) : Z * Z * Z := (tod / 3600, tod mod 3600 / 60, tod mod 60).

(** Decimal digits, and the format [{n:0w}] with the sign before the zeros. *)
Fixpoint digits (fuel : nat) (n : Z) : string :=
  match fuel with
  | O => EmptyString
  | S fuel =>
      let d := String (Ascii.ascii_of_N (Z.to_N (48 + n mod 10))) EmptyString in
      if n <? 10 then d else String.append (digits fuel (n / 10)) d
  end.
Definition decimal (n : Z) : string := digits (S (Z.to_nat (Z.log2 n))) n.
Fixpoint zeros (n : nat) : string :=
  match n with O => EmptyString | S n => String (Ascii.ascii_of_nat 48) (zeros n) end.
Definition padded (w : nat) (n : Z) : string :=
  let s := decimal (Z.abs n) in
  let sign := if n <? 0 then "-"%string else EmptyString in
  String.append sign (String.append (zeros (w - String.length sign - String.length s)) s).

(** [format_unix_secs_rfc3339_i64] *)
Definition format_unix_secs_rfc3339_i64 (secs : Z) : string :=
  let '(y, m, d) := civil_from_days (secs / 86400) in
  let '(hh, mm, ss) := clock_of (secs mod 86400) in
  (padded 4 y ++ "-" ++ padded 2 m ++ "-" ++ padded 2 d ++ "T" ++
   padded 2 hh ++ ":" ++ padded 2 mm ++ ":" ++ padded 2 ss ++ "Z")%string.

(** [format_date_filetime_utc] *)
Definition format_date_filetime_utc (ft : option Z) : string :=
  match ft with
  | None => EmptyString
  | Some ft => if ft <=? 0 then EmptyString
               else format_unix_secs_rfc3339_i64 (Z.quot ft 10000000 - 11644473600)
  end.

Example filetime_epoch : format_date_filetime_utc (Some 10000000) = "1601-01-01T00:00:01Z"%string.
Proof. vm_compute. reflexivity. Qed.
Example unix_epoch : format_date_filetime_utc (Some 116444736000000000) = "1970-01-01T00:00:00Z"%string.
Proof. vm_compute. reflexivity. Qed.
Example leap_day : format_unix_secs_rfc3339_i64 951782399 = "2000-02-28T23:59:59Z"%string ∧
  format_unix_secs_rfc3339_i64 951782400 = "2000-02-29T00:00:00Z"%string.
Proof. vm_compute. by split. Qed.

(** ** The calendar *)

Definition leap (y : Z) : bool :=
  (y mod 4 =? 0) && (negb (y mod 100 =? 0) || (y mod 400 =? 0)).
Definition month_length (y m : Z) : Z :=
  if m =? 2 then (if leap y then 29 else 28)
  else if (m =? 4) || (m =? 6) || (m =? 9) || (m =? 11) then 30 else 31.

(** The day after a date. *)
Definition next_day (ymd : Z * Z * Z) : Z * Z * Z :=
  let '(y, m, d) := ymd in
  if d <? month_length y m then (y, m, d + 1)
  else if m <? 12 then (y, m + 1, 1) else (y + 1, 1, 1).

(** ** Correctness *)

(** The year of an era (from March) that holds its [doe]-th day, the days of the
    era before a year, and the month and day of the [doy]-th day of a year. *)
Definition yoe_of (doe : Z) : Z := (doe - doe / 1460 + doe / 36524 - doe / 146096) / 365.
Definition year_start (y : Z) : Z := 365 * y + y / 4 - y / 100 + y / 400.
Definition month_day (doy : Z) : Z * Z :=
  let mp := (5 * doy + 2) / 153 in
  (if mp <? 10 then mp + 3 else mp - 9, doy - (153 * mp + 2) / 5 + 1).

Definition date_in (era yoe doy : Z) : Z * Z * Z :=
  let '(m, d) := month_day doy in (yoe + era * 400 + (if m <=? 2 then 1 else 0), m, d).

Lemma yoe_bounds doe : 0 <= doe < 146097 → 0 <= yoe_of doe <= 399.
Proof. intros. unfold yoe_of. Z.to_euclidean_division_equations; lia. Qed.
Lemma yoe_spec doe :
  0 <= doe < 146097 → year_start (yoe_of doe) <= doe < year_start (yoe_of doe + 1).
Proof. intros. unfold yoe_of, year_start. Z.to_euclidean_division_equations; lia. Qed.

Lemma year_start_mono a b : a <= b → year_start a <= year_start b.
Proof. intros. unfold year_start. Z.to_euclidean_division_equations; lia. Qed.

Lemma yoe_unique doe y :
  0 <= doe < 146097 → year_start y <= doe < year_start (y + 1) → yoe_of doe = y.
Proof.
  intros Hd Hy. pose proof (yoe_spec doe Hd) as Hs.
  destruct (Z.lt_trichotomy (yoe_of doe) y) as [?|[?|?]]; [|done|].
  - pose proof (year_start_mono (yoe_of doe + 1) y ltac:(lia)). lia.
  - pose proof (year_start_mono (y + 1) (yoe_of doe) ltac:(lia)). lia.
Qed.

Lemma era_of (e doe : Z) : 0 <= doe < 146097 →
  Z.quot (if 0 <=? e * 146097 + doe then e * 146097 + doe else e * 146097 + doe - 146096) 146097 = e.
Proof.
  intros Hd. destruct (0 <=? _) eqn:E; bool_to_Z.
  - rewrite Z.quot_div_nonneg by lia. symmetry. apply (Z.div_unique _ _ _ doe); lia.
  - rewrite <- (Z.opp_involutive (_ - _)), Z.quot_opp_l, Z.quot_div_nonneg by lia.
    assert (- (e * 146097 + doe - 146096) / 146097 = - e) as ->; [|lia].
    symmetry. apply (Z.div_unique _ _ _ (146096 - doe)); lia.
Qed.

Lemma civil_in_era e doe :
  0 <= doe < 146097 →
  civil_from_days (e * 146097 + doe - 719468) = date_in e (yoe_of doe) (doe - year_start (yoe_of doe)).
Proof.
  intros Hd. unfold civil_from_days.
  replace (e * 146097 + doe - 719468 + 719468) with (e * 146097 + doe) by lia.
  rewrite era_of by done. cbv zeta.
  replace (e * 146097 + doe - e * 146097) with doe by lia.
  pose proof (yoe_bounds doe Hd) as Hy. change ((doe - doe / 1460 + doe / 36524 - doe / 146096) / 365) with (yoe_of doe).
  replace (365 * yoe_of doe + yoe_of doe / 4 - yoe_of doe / 100) with (year_start (yoe_of doe)).
  - unfold date_in, month_day. destruct (_ <=? 2); f_equal; f_equal; lia.
  - unfold year_start. rewrite (Z.div_small _ 400) by lia. lia.
Qed.

(** A year from March has the length of the calendar year in which it ends. *)
Lemma year_length y : year_start (y + 1) = year_start y + 365 + (if leap (y + 1) then 1 else 0).
Proof.
  unfold year_start, leap. destruct (_ =? 0) eqn:E4, ((_ mod 100) =? 0) eqn:E100, ((_ mod 400) =? 0) eqn:E400;
    bool_to_Z; simpl; Z.to_euclidean_division_equations; lia.
Qed.

Lemma leap_shift y k : leap (y + k * 400) = leap y.
Proof.
  unfold leap. assert (∀ b c, 400 = c * b → (y + k * 400) mod b = y mod b) as Hmod.
  { intros b c Hc. rewrite Hc, Z.mul_assoc, Z_mod_plus_full. done. }
  by rewrite (Hmod 4 100), (Hmod 100 4), (Hmod 400 1).
Qed.

(** The days of a common and of a leap year, by computation. *)
Definition month_days (lp : bool) (m : Z) : Z :=
  if m =? 2 then (if lp then 29 else 28)
  else if (m =? 4) || (m =? 6) || (m =? 9) || (m =? 11) then 30 else 31.
Definition year_day_ok (lp : bool) (doy : Z) : bool :=
  let '(m, d) := month_day doy in
  (1 <=? m) && (m <=? 12) && (1 <=? d) && (d <=? month_days lp m) &&
  if doy + 1 <? 365 + (if lp then 1 else 0) then
    let '(m', d') := month_day (doy + 1) in
    if d <? month_days lp m then (m' =? m) && (d' =? d + 1)
    else if m <? 12 then (m' =? m + 1) && (d' =? 1) && negb (m =? 2) else (m' =? 1) && (d' =? 1)
  else (m =? 2) && (d =? month_days lp m).

Lemma year_days_ok (lp : bool) doy : 0 <= doy < 365 + (if lp then 1 else 0) → year_day_ok lp doy = true.
Proof.
  intros Hd.
  assert (forallb (λ k : nat, year_day_ok lp (Z.of_nat k)) (seq 0 (if lp then 366 else 365)) = true) as Hall
    by (destruct lp; vm_compute; reflexivity).
  rewrite forallb_forall in Hall. rewrite <- (Z2Nat.id doy) by lia.
  apply Hall, in_seq. destruct lp; lia.
Qed.

(** A date of the calendar. *)
Definition valid_date (ymd : Z * Z * Z) : Prop :=
  let '(y, m, d) := ymd in 1 <= m <= 12 ∧ 1 <= d <= month_length y m.

Lemma month_length_in e yoe m :
  month_length (yoe + e * 400 + (if m <=? 2 then 1 else 0)) m = month_days (leap (yoe + 1)) m.
Proof.
  unfold month_length, month_days. destruct (Z.eqb_spec m 2) as [->|Hm]; [|done].
  simpl. replace (yoe + e * 400 + 1) with (yoe + 1 + e * 400) by lia. by rewrite leap_shift.
Qed.

(** One day further within a year from March, and at its end. *)
Lemma date_in_next e yoe doy :
  0 <= doy < 365 + (if leap (yoe + 1) then 1 else 0) →
  valid_date (date_in e yoe doy) ∧
  next_day (date_in e yoe doy) =
    if doy + 1 <? 365 + (if leap (yoe + 1) then 1 else 0) then date_in e yoe (doy + 1)
    else date_in e (yoe + 1) 0.
Proof.
  intros Hd. pose proof (year_days_ok _ _ Hd) as Hok. unfold year_day_ok in Hok. unfold date_in.
  change (month_day 0) with (3, 1). cbv zeta iota.
  destruct (month_day doy) as [m d]. destruct (month_day (doy + 1)) as [m' d'].
  rewrite !andb_true_iff, !Z.leb_le in Hok. destruct Hok as ((((H1 & H2) & H3) & H4) & Hn).
  split; [unfold valid_date; rewrite month_length_in; lia|].
  unfold next_day. rewrite month_length_in.
  destruct (doy + 1 <? _).
  - destruct (d <? month_days _ m).
    + apply andb_true_iff in Hn as [->%Z.eqb_eq ->%Z.eqb_eq]. done.
    + destruct (m <? 12) eqn:E12.
      * rewrite !andb_true_iff, negb_true_iff, Z.eqb_neq, !Z.eqb_eq in Hn. destruct Hn as [[-> ->] Hm2].
        f_equal. f_equal. destruct (Z.leb_spec m 2), (Z.leb_spec (m + 1) 2); lia.
      * apply andb_true_iff in Hn as [->%Z.eqb_eq ->%Z.eqb_eq]. bool_to_Z. assert (m = 12) as -> by lia.
        f_equal. f_equal. simpl. lia.
  - apply andb_true_iff in Hn as [->%Z.eqb_eq ->%Z.eqb_eq]. rewrite Z.ltb_irrefl. simpl.
    f_equal. f_equal. lia.
Qed.

(** Day zero is 1970-01-01, every day number has a date of the Gregorian
    calendar, and the date of the next day is its successor, before and after the
    epochs of Unix and of FILETIME. *)
Theorem civil_dates_advance days :
  civil_from_days 0 = (1970, 1, 1) ∧ valid_date (civil_from_days days) ∧
  civil_from_days (days + 1) = next_day (civil_from_days days).
Proof.
  split; [reflexivity|].
  set (e := (days + 719468) / 146097). set (doe := (days + 719468) mod 146097).
  pose proof (Z.mod_pos_bound (days + 719468) 146097 ltac:(lia)) as Hd. fold doe in Hd.
  assert (days = e * 146097 + doe - 719468) as Hdays.
  { pose proof (Z.div_mod (days + 719468) 146097 ltac:(lia)). unfold e, doe. lia. }
  clearbody e doe. subst days. rewrite civil_in_era by done.
  pose proof (yoe_spec doe Hd) as Hs. pose proof (yoe_bounds doe Hd) as Hb. pose proof (year_length (yoe_of doe)) as Hl.
  destruct (date_in_next e (yoe_of doe) (doe - year_start (yoe_of doe))) as [Hv ->]; [lia|]. split; [done|].
  replace (e * 146097 + doe - 719468 + 1) with (e * 146097 + (doe + 1) - 719468) by lia.
  destruct (_ <? _) eqn:Elt; bool_to_Z.
  - assert (doe + 1 < 146097) as Hd1.
    { pose proof (year_start_mono (yoe_of doe + 1) 400 ltac:(lia)). change (year_start 400) with 146097 in *. lia. }
    rewrite civil_in_era by lia. rewrite (yoe_unique (doe + 1) (yoe_of doe)) by lia. f_equal. lia.
  - destruct (decide (yoe_of doe = 399)) as [E399|Hne].
    + rewrite E399 in *. change (year_start (399 + 1)) with 146097 in *. assert (doe = 146096) as -> by lia.
      replace (e * 146097 + (146096 + 1) - 719468) with ((e + 1) * 146097 + 0 - 719468) by lia.
      rewrite civil_in_era by lia. change (yoe_of 0) with 0. change (0 - year_start 0) with 0.
      unfold date_in. change (month_day 0) with (3, 1). cbv iota zeta. f_equal. f_equal. simpl. lia.
    + assert (doe + 1 = year_start (yoe_of doe + 1)) as E1 by lia.
      pose proof (year_length (yoe_of doe + 1)) as Hl2.
      assert (doe + 1 < 146097) as Hd1.
      { pose proof (year_start_mono (yoe_of doe + 1) 399 ltac:(lia)). change (year_start 399) with 145731 in *. lia. }
      rewrite civil_in_era by lia.
      rewrite (yoe_unique (doe + 1) (yoe_of doe + 1)) by (destruct (leap (yoe_of doe + 1 + 1)); lia).
      f_equal. lia.
Qed.
