(* ===== verification/Recipient.v ===== *)
(** * Recipients (pst-reader/src/messaging/recipient.rs, dedup-engine/src/grouping.rs)

    The rows of a message's recipient table and the key by which a recipient is
    identified: the SMTP address, else an e-mail address of a known type, else the
    display name.  [CanonicalRecipient] of the engine delegates to these. *)

From stdpp Require Import sorting.
From S2P Require Import Prelude Text.
#[local] Open Scope Z_scope.

(** [RecipientType], [from_mapi], [to_mapi] *)
Inductive recipient_kind := KindTo | KindCc | KindBcc | KindOther (v : Z).
Definition from_mapi (value : Z) : recipient_kind :=
  if value =? 1 then KindTo else if value =? 2 then KindCc else if value =? 3 then KindBcc else KindOther value.
Definition to_mapi (k : recipient_kind) : Z :=
  match k with KindTo => 1 | KindCc => 2 | KindBcc => 3 | KindOther v => v end.

(** [Recipient] *)
Record recipient := {
  recipient_type : recipient_kind;
  display_name : option bstring; address_type : option bstring;
  email_address : option bstring; smtp_address : option bstring }.

(** [nonempty_str] *)
Definition nonempty_str (s : option bstring) : option bstring :=
  t ← str_trim <$> s; if bool_decide (t = []) then None else Some t.

Definition AT : byte := Byte.x40.
Definition DOT : byte := Byte.x2e.

(** [looks_like_smtp] *)
Definition looks_like_smtp (addr : bstring) : bool :=
  match find_byte AT addr with
  | Some i => (0 <? i)%nat && (i + 1 <? length addr)%nat && contains [DOT] (drop (i + 1) addr)
  | None => false
  end.

(** [looks_like_x500_dn] *)
Definition looks_like_x500_dn (s : bstring) : bool :=
  let u := map ascii_upper s in
  contains (bytes_of "/O=") u || contains (bytes_of "/OU=") u || contains (bytes_of "/CN=") u.

(** [is_ex_address] *)
Definition is_ex_address (type_upper : option bstring) (email : bstring) : bool :=
  if bool_decide (type_upper = Some (bytes_of "EX")) then true else looks_like_x500_dn email.

(** [Recipient::identity_key] *)
Definition identity_key (r : recipient) : option bstring :=
  match nonempty_str (smtp_address r) with
  | Some smtp => Some (map ascii_lower smtp)
  | None =>
      let fallback := map ascii_lower <$> nonempty_str (display_name r) in
      let type_upper := map ascii_upper <$> nonempty_str (address_type r) in
      match nonempty_str (email_address r) with
      | Some email =>
          if bool_decide (type_upper = Some (bytes_of "SMTP")) ||
             bool_decide (type_upper = None) && looks_like_smtp email
          then Some (map ascii_lower email)
          else if is_ex_address type_upper email then Some (map ascii_upper email)
          else fallback
      | None => fallback
      end
  end.

(** [eq_ignore_ascii_case] *)
Definition eq_ignore_ascii_case (a b : bstring) : bool := bool_decide (map ascii_lower a = map ascii_lower b).

(** [Recipient::identity_is_x500] *)
Definition identity_is_x500 (r : recipient) : bool :=
  if is_some_and (λ t, eq_ignore_ascii_case t (bytes_of "EX")) (nonempty_str (address_type r)) then true
  else if is_some_and looks_like_x500_dn (nonempty_str (email_address r)) then true
  else is_some_and looks_like_x500_dn (identity_key r).

(** [message_flags_is_unsent] *)
Definition MSGFLAG_UNSENT : Z := 0x8.
Definition message_flags_is_unsent (flags : Z) : bool := negb (Z.land flags MSGFLAG_UNSENT =? 0).

(** ** The engine's recipients *)

(** [CanonicalRecipientType] and [CanonicalRecipient] *)
Inductive canonical_recipient_type := RecTo | RecCc | RecBcc | RecOther (v : Z).
Record canonical_recipient := {
  rcp_type : canonical_recipient_type;
  rcp_display_name : option bstring; rcp_address_type : option bstring;
  rcp_email_address : option bstring; rcp_smtp_address : option bstring }.

(** [CanonicalRecipientType::from_reader], [to_mapi], [is_bcc] *)
Definition type_from_reader (k : recipient_kind) : canonical_recipient_type :=
  match k with KindTo => RecTo | KindCc => RecCc | KindBcc => RecBcc | KindOther v => RecOther v end.
Definition canonical_to_mapi (t : canonical_recipient_type) : Z :=
  match t with RecTo => 1 | RecCc => 2 | RecBcc => 3 | RecOther v => v end.
Definition is_bcc (t : canonical_recipient_type) : bool := match t with RecBcc => true | _ => false end.

(** [CanonicalRecipient::from_reader], and the row that the delegating methods build. *)
Definition from_reader (r : recipient) : canonical_recipient := {|
  rcp_type := type_from_reader (recipient_type r); rcp_display_name := display_name r;
  rcp_address_type := address_type r; rcp_email_address := email_address r;
  rcp_smtp_address := smtp_address r |}.
Definition to_reader (r : canonical_recipient) : recipient := {|
  recipient_type := match rcp_type r with
                    | RecTo => KindTo | RecCc => KindCc | RecBcc => KindBcc | RecOther v => KindOther v end;
  display_name := rcp_display_name r; address_type := rcp_address_type r;
  email_address := rcp_email_address r; smtp_address := rcp_smtp_address r |}.

(** [CanonicalRecipient::identity_key], [identity_is_x500] *)
Definition canonical_identity_key (r : canonical_recipient) : option bstring := identity_key (to_reader r).
Definition canonical_identity_is_x500 (r : canonical_recipient) : bool := identity_is_x500 (to_reader r).

Definition SEMICOLON : byte := Byte.x3b.

(** [normalize_recipients] *)
Definition normalize_recipients `{Platform} (s : bstring) : bstring :=
  join_with SEMICOLON (merge_sort str_le
    (filter (λ p, p ≠ []) (map (λ p, str_to_lowercase (str_trim p)) (split_on SEMICOLON s)))).

(** [normalize_recipient_identity_keys] *)
Definition normalize_recipient_identity_keys (keys : list bstring) : bstring :=
  join_with SEMICOLON (merge_sort str_le (filter (λ k, k ≠ []) (map str_trim keys))).

(** ** Lemmas *)

Lemma from_mapi_to_mapi v : to_mapi (from_mapi v) = v.
Proof. unfold from_mapi. repeat (case_match; [simpl; lia|]). done. Qed.

Lemma to_reader_from_reader r : to_reader (from_reader r) = r.
Proof. by destruct r as [[] ? ? ? ?]. Qed.

Lemma canonical_mapi k : canonical_to_mapi (type_from_reader k) = to_mapi k.
Proof. by destruct k. Qed.
