(* ===== verification/Grouping.v ===== *)
(** * Identity binding policy (dedup-engine/src/grouping.rs, eligibility of hasher.rs)

    The context that the streaming index (DedupIndex) and the collect-all
    grouping (KeepGroup) share: scope, guards, identity level, honesty counters,
    the table that says when a message may join a group by content, and the
    Tier-2 eligibility of a message.  Strings are their UTF-8 bytes. *)

From S2P Require Import Prelude Text.
From coqutil Require Export Datatypes.RecordSetters.
Export RecordSetters.DoubleBraceUpdate.

(** A setter is always derived from its getter, never found by unfolding its type. *)
#[global] Typeclasses Opaque Setter.

#[export] Instance byte_countable : Countable byte.
Proof.
  refine (inj_countable Byte.to_N Byte.of_N _). intros x. apply Byte.of_to_N.
Defined.

(** [u64] counters: [+= 1] and [saturating_add]. *)
Definition add_u64 (n x : Z) : Z := wrap 64 (x + n).

Inductive dedupe_scope := Global | PerSource.
#[export] Instance dedupe_scope_eq_dec : EqDecision dedupe_scope.
Proof. solve_decision. Defined.

Inductive identity_level := IdOff | IdV1 | IdBody | IdBodyRecip | IdBodyRecipAttach.
#[export] Instance identity_level_eq_dec : EqDecision identity_level.
Proof. solve_decision. Defined.

(** [IdentityLevel::is_strong], [includes_recipients], [includes_attach_content] *)
Definition is_strong (l : identity_level) : bool :=
  match l with IdOff | IdV1 => false | _ => true end.
Definition includes_recipients (l : identity_level) : bool :=
  match l with IdBodyRecip | IdBodyRecipAttach => true | _ => false end.
Definition includes_attach_content (l : identity_level) : bool :=
  match l with IdBodyRecipAttach => true | _ => false end.

Inductive tier1_verify := VerifyOff | VerifyContent | VerifyBody.
#[export] Instance tier1_verify_eq_dec : EqDecision tier1_verify.
Proof. solve_decision. Defined.

(** How an item was bound into its group. *)
Inductive bound_by := Seed | MessageId | ContentHash | StrongContentHash.
#[export] Instance bound_by_eq_dec : EqDecision bound_by.
Proof. solve_decision. Defined.

(** [BoundBy::tier_csv] *)
Definition tier_csv (b : bound_by) : option string :=
  match b with
  | Seed => None
  | MessageId => Some "message_id"%string
  | ContentHash => Some "content_hash"%string
  | StrongContentHash => Some "content_hash_strong"%string
  end.

Record grouping_context := {
  tier2_enabled : bool;
  scope : dedupe_scope;
  tier1_authority : bool;
  require_readable_body : bool;
  identity : identity_level;
  verify : tier1_verify;
  allow_degenerate_tier2 : bool;
  allow_crc_suspect_tier2 : bool;
  allow_cross_mid_tier2 : bool;
  tier1_backfill : bool;
  ignore_inline_attachments : bool }.

(** [GroupingContext::default] *)
Definition default_context : grouping_context := {|
  tier2_enabled := true; scope := Global; tier1_authority := true;
  require_readable_body := true; identity := IdOff; verify := VerifyOff;
  allow_degenerate_tier2 := false; allow_crc_suspect_tier2 := false;
  allow_cross_mid_tier2 := false; tier1_backfill := false;
  ignore_inline_attachments := false |}.

(** [GroupingContext::pre_0076] *)
Definition pre_0076 : grouping_context := {|
  tier2_enabled := true; scope := Global; tier1_authority := false;
  require_readable_body := false; identity := IdOff; verify := VerifyOff;
  allow_degenerate_tier2 := true; allow_crc_suspect_tier2 := false;
  allow_cross_mid_tier2 := true; tier1_backfill := false;
  ignore_inline_attachments := false |}.

(** [GroupingContext::with_tier2] *)
Definition with_tier2 (enabled : bool) : grouping_context := {|
  tier2_enabled := enabled; scope := Global; tier1_authority := true;
  require_readable_body := true; identity := IdOff; verify := VerifyOff;
  allow_degenerate_tier2 := false; allow_crc_suspect_tier2 := false;
  allow_cross_mid_tier2 := false; tier1_backfill := false;
  ignore_inline_attachments := false |}.

Definition block_cross_mid (c : grouping_context) : bool :=
  tier1_authority c && negb (allow_cross_mid_tier2 c).

Definition enforce_readable_body (c : grouping_context) : bool :=
  require_readable_body c && negb (allow_degenerate_tier2 c).

(** [GroupingContext::allow_crc_suspect_tier2_for]; the path key is unused. *)
Definition allow_crc_suspect_tier2_for (c : grouping_context) (path_key : bstring) : bool :=
  allow_crc_suspect_tier2 c.

Record grouping_stats := {
  tier2_blocked_unreadable_body : Z;
  tier2_blocked_degenerate : Z;
  tier2_blocked_crc_suspect : Z;
  cross_mid_blocked : Z;
  cross_mid_blocked_groups : Z;
  cross_mid_blocked_max_group : Z;
  tier1_divergent_body : Z;
  tier1_divergent_metadata : Z;
  tier1_divergent_recipients : Z;
  tier1_backfill_candidates : Z;
  tier2_5_splits : Z;
  tier2_5_splits_bcc_only : Z;
  tier2_5_splits_recipients_only : Z;
  x500_recipient_items : Z;
  inline_attachments_ignored : Z;
  strong_hash_attach_unread : Z;
  strong_hash_attach_digested : Z;
  strong_hash_attach_bytes : Z;
  strong_hash_attach_truncated : Z;
  strong_hash_embedded_parsed : Z;
  strong_hash_embedded_depth_limit : Z;
  strong_hash_embedded_unparsed : Z;
  tier2_preview_bytes_over_budget : Z }.

Definition default_stats : grouping_stats := {|
  tier2_blocked_unreadable_body := 0; tier2_blocked_degenerate := 0;
  tier2_blocked_crc_suspect := 0; cross_mid_blocked := 0; cross_mid_blocked_groups := 0;
  cross_mid_blocked_max_group := 0; tier1_divergent_body := 0; tier1_divergent_metadata := 0;
  tier1_divergent_recipients := 0; tier1_backfill_candidates := 0; tier2_5_splits := 0;
  tier2_5_splits_bcc_only := 0; tier2_5_splits_recipients_only := 0; x500_recipient_items := 0;
  inline_attachments_ignored := 0; strong_hash_attach_unread := 0;
  strong_hash_attach_digested := 0; strong_hash_attach_bytes := 0;
  strong_hash_attach_truncated := 0; strong_hash_embedded_parsed := 0;
  strong_hash_embedded_depth_limit := 0; strong_hash_embedded_unparsed := 0;
  tier2_preview_bytes_over_budget := 0 |}.

(** [GroupingStats::merge_from]: sums, and the larger of the two maxima. *)
Definition merge_from (s o : grouping_stats) : grouping_stats := {|
  tier2_blocked_unreadable_body := add_u64 (tier2_blocked_unreadable_body s) (tier2_blocked_unreadable_body o);
  tier2_blocked_degenerate := add_u64 (tier2_blocked_degenerate s) (tier2_blocked_degenerate o);
  tier2_blocked_crc_suspect := add_u64 (tier2_blocked_crc_suspect s) (tier2_blocked_crc_suspect o);
  cross_mid_blocked := add_u64 (cross_mid_blocked s) (cross_mid_blocked o);
  cross_mid_blocked_groups := add_u64 (cross_mid_blocked_groups s) (cross_mid_blocked_groups o);
  cross_mid_blocked_max_group := Z.max (cross_mid_blocked_max_group s) (cross_mid_blocked_max_group o);
  tier1_divergent_body := add_u64 (tier1_divergent_body s) (tier1_divergent_body o);
  tier1_divergent_metadata := add_u64 (tier1_divergent_metadata s) (tier1_divergent_metadata o);
  tier1_divergent_recipients := add_u64 (tier1_divergent_recipients s) (tier1_divergent_recipients o);
  tier1_backfill_candidates := add_u64 (tier1_backfill_candidates s) (tier1_backfill_candidates o);
  tier2_5_splits := add_u64 (tier2_5_splits s) (tier2_5_splits o);
  tier2_5_splits_bcc_only := add_u64 (tier2_5_splits_bcc_only s) (tier2_5_splits_bcc_only o);
  tier2_5_splits_recipients_only := add_u64 (tier2_5_splits_recipients_only s) (tier2_5_splits_recipients_only o);
  x500_recipient_items := add_u64 (x500_recipient_items s) (x500_recipient_items o);
  inline_attachments_ignored := add_u64 (inline_attachments_ignored s) (inline_attachments_ignored o);
  strong_hash_attach_unread := add_u64 (strong_hash_attach_unread s) (strong_hash_attach_unread o);
  strong_hash_attach_digested := add_u64 (strong_hash_attach_digested s) (strong_hash_attach_digested o);
  strong_hash_attach_bytes := add_u64 (strong_hash_attach_bytes s) (strong_hash_attach_bytes o);
  strong_hash_attach_truncated := add_u64 (strong_hash_attach_truncated s) (strong_hash_attach_truncated o);
  strong_hash_embedded_parsed := add_u64 (strong_hash_embedded_parsed s) (strong_hash_embedded_parsed o);
  strong_hash_embedded_depth_limit := add_u64 (strong_hash_embedded_depth_limit s) (strong_hash_embedded_depth_limit o);
  strong_hash_embedded_unparsed := add_u64 (strong_hash_embedded_unparsed s) (strong_hash_embedded_unparsed o);
  tier2_preview_bytes_over_budget := add_u64 (tier2_preview_bytes_over_budget s) (tier2_preview_bytes_over_budget o) |}.

(** [GroupingStats::any_guard_fired] *)
Definition any_guard_fired (s : grouping_stats) : bool :=
  (0 <? tier2_blocked_unreadable_body s) || (0 <? tier2_blocked_degenerate s)
  || (0 <? tier2_blocked_crc_suspect s) || (0 <? cross_mid_blocked s)
  || (0 <? tier2_preview_bytes_over_budget s) || (0 <? tier1_divergent_body s).

(** The component fingerprints [fp_body], [fp_header], [fp_recipients],
    [fp_attachments] that items, slots and groups carry. *)
Record fingerprints := {
  fp_body : Z; fp_header : Z; fp_recipients : Z; fp_attachments : Z }.
#[export] Instance fingerprints_eq_dec : EqDecision fingerprints.
Proof. solve_decision. Defined.

(** The divergence counters: at most one of the three is incremented. *)
Definition note_divergence (group item : fingerprints) (s : grouping_stats) : grouping_stats :=
  let body_diff := negb (fp_body item =? fp_body group) in
  let meta_diff := negb (fp_header item =? fp_header group)
                   || negb (fp_attachments item =? fp_attachments group) in
  let recip_diff := negb (fp_recipients item =? fp_recipients group) in
  if body_diff then s {{ tier1_divergent_body ::= add_u64 1 }}
  else if recip_diff && negb meta_diff then s {{ tier1_divergent_recipients ::= add_u64 1 }}
  else if meta_diff then s {{ tier1_divergent_metadata ::= add_u64 1 }}
  else s.

(** [mid_present]: the empty string counts as absent. *)
Definition mid_present (mid : option bstring) : option bstring :=
  match mid with Some [] => None | _ => mid end.

(** [mid_join_compatible]: whether the item may join, and the group's MID afterwards. *)
Definition mid_join_compatible (group_bound_mid item_mid : option bstring)
    (block_cross_mid : bool) : bool * option bstring :=
  match mid_present group_bound_mid, mid_present item_mid with
  | None, None => (true, None)
  | None, Some m => (true, Some m)
  | Some gm, None => (true, Some gm)
  | Some gm, Some im =>
      if decide (gm = im) then (true, Some gm)
      else if negb block_cross_mid then (true, Some gm)
      else (false, None)
  end.

(** The key of a message in a hash map: scope prefix, then Message-ID or hash. *)
Definition scope_prefix (s : dedupe_scope) (source_key : bstring) : bstring :=
  match s with Global => [] | PerSource => source_key ++ [Byte.x00] end.
Definition mid_key (s : dedupe_scope) (source_key mid : bstring) : bstring :=
  scope_prefix s source_key ++ mid.
Definition hash_map_key (s : dedupe_scope) (source_key hash : bstring) : bstring :=
  scope_prefix s source_key ++ hash.

(** [tier2_bind_hash] of the index and of the keep set. *)
Definition tier2_bind_hash (identity : identity_level) (content_hash : bstring)
    (strong_content_hash : option bstring) : bstring :=
  if is_strong identity then default content_hash strong_content_hash else content_hash.

Definition bound_by_for_tier2 (identity : identity_level) : bound_by :=
  if is_strong identity then StrongContentHash else ContentHash.

(** [enum Tier2IneligibleReason] *)
Inductive ineligible_reason := UnreadableBody | Degenerate | CrcSuspectBody.

(** [count_weak_fields] *)
Definition count_weak_fields (subject_nonempty submit_time_present sender_nonempty : bool)
    (attach_count : Z) : Z :=
  (if subject_nonempty then 1 else 0) + (if submit_time_present then 1 else 0)
  + (if sender_nonempty then 1 else 0) + (if 1 <=? attach_count then 1 else 0).

(** [tier2_eligibility]: [None] is [Ok(())]. *)
Definition tier2_eligibility (body_incomplete body_unavailable has_body_preview
    subject_nonempty submit_time_present sender_nonempty : bool) (attach_count : Z)
    : option ineligible_reason :=
  if body_incomplete || body_unavailable then Some UnreadableBody
  else if has_body_preview then None
  else if count_weak_fields subject_nonempty submit_time_present sender_nonempty attach_count <? 2
  then Some Degenerate
  else None.

(** ** Lemmas *)

Lemma mid_present_some mid m : mid_present mid = Some m ↔ mid = Some m ∧ m ≠ [].
Proof. destruct mid as [[|b l]|]; simpl; naive_solver. Qed.

Lemma mid_present_idemp mid : mid_present (mid_present mid) = mid_present mid.
Proof. by destruct mid as [[|b l]|]. Qed.

(** A join keeps a bound MID that the group has and never mixes two MIDs when
    cross-MID joins are blocked. *)
Lemma mid_join_spec g i block :
  mid_present g = g → mid_present i = i →
  mid_join_compatible g i block =
  match g, i with
  | Some gm, Some im =>
      if decide (gm = im) then (true, Some gm)
      else if block then (false, None) else (true, Some gm)
  | Some gm, None => (true, Some gm)
  | None, _ => (true, i)
  end.
Proof.
  intros Hg Hi. unfold mid_join_compatible. rewrite Hg, Hi.
  destruct g, i; try done. destruct (decide _); [done|]. by destruct block.
Qed.

(** Keys are decoded uniquely when source keys hold no NUL. *)
Lemma app_nul_inj (p q s t : bstring) :
  Byte.x00 ∉ p → Byte.x00 ∉ q → p ++ [Byte.x00] ++ s = q ++ [Byte.x00] ++ t → p = q ∧ s = t.
Proof.
  revert q. induction p as [|b p IH]; intros [|c q] Hp Hq; simpl; intros E.
  - by simplify_eq.
  - simplify_eq. set_solver.
  - simplify_eq. set_solver.
  - injection E as -> E. apply IH in E as [-> ->]; [done|set_solver..].
Qed.

Lemma mid_key_inj s p q m m' :
  (s = PerSource → (Byte.x00 ∉ p) ∧ (Byte.x00 ∉ q)) →
  mid_key s p m = mid_key s q m' → scope_prefix s p = scope_prefix s q ∧ m = m'.
Proof.
  unfold mid_key. destruct s; simpl; [done|]. intros [Hp Hq]; [done|].
  rewrite <- !app_assoc. intros E. apply app_nul_inj in E as [-> ->]; done.
Qed.

Lemma hash_map_key_inj s p q h h' :
  length h = length h' → hash_map_key s p h = hash_map_key s q h' →
  scope_prefix s p = scope_prefix s q ∧ h = h'.
Proof. unfold hash_map_key. intros Hl E. by apply app_inj_2 in E. Qed.
