(* ===== verification/Hasher.v ===== *)
(** * Content hashes (dedup-engine/src/hasher.rs, embedded_hash.rs)

    The keys by which messages are compared: the normalised Message-ID, the v1
    hash of subject, time, sender, body preview and attachment names, the v2 hash
    that adds the whole body, recipients and attachment contents, and the hash of
    an embedded message.  Each hash is SHA-256, a parameter, of a byte string that
    is built here exactly as the updates of the source concatenate it. *)

From stdpp Require Import sorting.
From S2P Require Import Prelude Text Recipient Grouping.
#[local] Open Scope Z_scope.

(** SHA-256 of the crate [sha2]: a digest has 32 bytes. *)
Class Sha256 := { sha256 : bstring → bstring; sha256_length s : length (sha256 s) = 32%nat }.

Definition PIPE : byte := Byte.x7c.
Definition COLON : byte := Byte.x3a.
Definition NUL : byte := Byte.x00.
Definition SPACE : byte := Byte.x20.
Definition LT : byte := Byte.x3c.
Definition GT : byte := Byte.x3e.

(** ** Normalisation *)

(** [normalize_message_id] *)
Definition normalize_message_id `{Platform} (mid : bstring) : bstring :=
  str_to_lowercase (str_trim (trim_end_matches GT (trim_start_matches LT (str_trim mid)))).

(** [normalize_body_text] *)
Definition normalize_body_text `{Platform} (body : bstring) : bstring :=
  str_to_lowercase (concat (filter (λ c, negb (is_whitespace c) || bool_decide (c = [SPACE])) (chars body))).

(** [hash_full_body] *)
Definition hash_full_body `{Platform, Sha256} (body : bstring) : bstring * Z :=
  let normalized := normalize_body_text body in
  (sha256 normalized, zlen (chars normalized)).

(** The length of a reply or forward prefix. *)
Definition reply_prefix_len (lower : bstring) : option nat :=
  if starts_with (bytes_of "re:") lower then Some 3%nat
  else if starts_with (bytes_of "fwd:") lower then Some 4%nat
  else if starts_with (bytes_of "fw:") lower then Some 3%nat
  else None.

(** The loop of [normalize_subject]; each iteration drops three bytes or more. *)
Fixpoint strip_replies `{Platform} (fuel : nat) (s : bstring) : bstring :=
  match fuel with
  | O => s
  | S fuel =>
      let trimmed := str_trim s in
      match reply_prefix_len (str_to_lowercase trimmed) with
      | None => s
      | Some n => if is_char_boundary trimmed n then strip_replies fuel (drop n trimmed) else s
      end
  end.

(** [normalize_subject] *)
Definition normalize_subject `{Platform} (subject : bstring) : bstring :=
  let s := str_trim subject in
  str_to_lowercase (str_trim (strip_replies (S (length s)) s)).

(** ** Attachments *)

(** [AttachmentInfo] *)
Record attachment_info := {
  filename : bstring; att_size : Z; is_inline : bool; content_sha256 : option bstring }.

Definition ATTACH_UNREAD_DOMAIN : bstring := bytes_of "pst-dedup/attach-unread/v1" ++ [NUL].

(** [attach_unread_sentinel] *)
Definition attach_unread_sentinel `{Platform, Sha256} (name : bstring) (size : Z) : bstring :=
  sha256 (ATTACH_UNREAD_DOMAIN ++ str_to_lowercase name ++ [NUL] ++ le_split 4 size).

(** [attach_content_slot] *)
Definition attach_content_slot `{Platform, Sha256} (name : bstring) (size : Z)
    (content : option bstring) (is_unread : bool) : bstring :=
  if is_unread then attach_unread_sentinel name size
  else default (attach_unread_sentinel name size) content.

(** The attachments that take part in identity. *)
Definition identity_attachments (atts : list attachment_info) (ignore_inline : bool) : list attachment_info :=
  filter (λ a, negb (ignore_inline && is_inline a)) atts.

(** [attachment_meta_strings] *)
Definition attachment_meta_strings `{Platform} (atts : list attachment_info) (ignore_inline : bool) : list bstring :=
  merge_sort str_le
    (map (λ a, str_to_lowercase (filename a) ++ [COLON] ++ to_decimal (att_size a))
         (identity_attachments atts ignore_inline)).

(** ** The v1 hash *)

(** The fields that all hash functions take: [subject], [submit_time],
    [sender_email], [body_preview], [attachments]. *)
Record content_fields := {
  cf_subject : option bstring; cf_submit_time : option Z; cf_sender : option bstring;
  cf_body_preview : option bstring; cf_attachments : list attachment_info }.

(** [if let Some(x) = o { hasher.update(f(x)) }] *)
Definition update_some {A} (f : A → bstring) (o : option A) : bstring :=
  match o with Some a => f a | None => [] end.

(** [fingerprint64] *)
Definition fingerprint64 (digest : bstring) : Z := le_combine (take 8 digest).

Section content.
Context `{Platform, Sha256}.

(** The updates for subject, time and sender. *)
Definition header_bytes (f : content_fields) : bstring :=
  update_some normalize_subject (cf_subject f) ++ [PIPE] ++
  update_some to_decimal (cf_submit_time f) ++ [PIPE] ++
  update_some (λ s, str_to_lowercase (str_trim s)) (cf_sender f) ++ [PIPE].

(** The first 4096 characters of the normalised body. *)
Definition preview_bytes (f : content_fields) : bstring :=
  update_some (λ b, concat (take 4096 (chars (normalize_body_text b)))) (cf_body_preview f).
Definition preview_over_budget (f : content_fields) : bool :=
  match cf_body_preview f with
  | Some b => (4096 <? length (normalize_body_text b))%nat | None => false end.

Definition attach_bytes (f : content_fields) (ignore_inline : bool) : bstring :=
  att ← attachment_meta_strings (cf_attachments f) ignore_inline; att ++ [SEMICOLON].

(** What the v1 hasher has been fed. *)
Definition v1_preimage (f : content_fields) (ignore_inline : bool) : bstring :=
  header_bytes f ++ preview_bytes f ++ [PIPE] ++ attach_bytes f ignore_inline.

(** [compute_content_hash_detailed] *)
Definition compute_content_hash_detailed (f : content_fields) (ignore_inline : bool)
    : bstring * bool * (Z * Z * Z * Z) :=
  (sha256 (v1_preimage f ignore_inline), preview_over_budget f,
   (fingerprint64 (sha256 (header_bytes f)), fingerprint64 (sha256 (preview_bytes f)), 0,
    fingerprint64 (sha256 (attach_bytes f ignore_inline)))).

(** [compute_content_hash] *)
Definition compute_content_hash (f : content_fields) : bstring :=
  (compute_content_hash_detailed f false).1.1.

(** ** Recipients *)

(** The identity keys of the rows, when there are any. *)
Definition structured_keys (rows : option (list canonical_recipient)) : option bstring :=
  match rows with
  | Some rows =>
      let keys := omap canonical_identity_key rows in
      if bool_decide (rows = []) || bool_decide (keys = []) then None
      else Some (normalize_recipient_identity_keys keys)
  | None => None
  end.

(** [normalize_recipients(to)|normalize_recipients(cc)|normalize_recipients(bcc)] *)
Definition display_recipients (to_ cc_ bcc_ : option bstring) : bstring :=
  normalize_recipients (default [] to_) ++ [PIPE] ++ normalize_recipients (default [] cc_) ++ [PIPE] ++
  normalize_recipients (default [] bcc_).

(** [recipients_fingerprint_ex] *)
Definition recipients_fingerprint_ex (to_ cc_ bcc_ : option bstring) (rows : option (list canonical_recipient)) : Z :=
  fingerprint64 (sha256 (default (display_recipients to_ cc_ bcc_) (structured_keys rows))).

(** ** The v2 hash *)

(** [StrongHashInput] *)
Record strong_hash_input := {
  sh_identity : identity_level; body_sha256 : option bstring; body_char_len : option Z;
  sh_display_to : option bstring; sh_display_cc : option bstring; sh_display_bcc : option bstring;
  sh_recipients : option (list canonical_recipient); sh_ignore_inline : bool }.

(** [recipient_strong_preimage] *)
Definition recipient_strong_preimage (s : strong_hash_input) : bstring :=
  default (display_recipients (sh_display_to s) (sh_display_cc s) (sh_display_bcc s))
    (structured_keys (sh_recipients s)).

Definition V2 : bstring := bytes_of "|v2|".

(** The layered extras of the v2 preimage. *)
Definition body_extras (s : strong_hash_input) : bstring :=
  update_some id (body_sha256 s) ++ [PIPE] ++ update_some to_decimal (body_char_len s) ++ [PIPE].
Definition attach_extras (f : content_fields) (s : strong_hash_input) : bstring :=
  d ← merge_sort str_le
        (map (λ a, attach_content_slot (filename a) (att_size a) (content_sha256 a) false)
             (identity_attachments (cf_attachments f) (sh_ignore_inline s)));
  d ++ [SEMICOLON].

(** What the v2 hasher has been fed. *)
Definition strong_preimage (f : content_fields) (s : strong_hash_input) : bstring :=
  v1_preimage f (sh_ignore_inline s) ++ V2 ++
  (if is_strong (sh_identity s) then body_extras s else []) ++
  (if includes_recipients (sh_identity s) then recipient_strong_preimage s ++ [PIPE] else []) ++
  (if includes_attach_content (sh_identity s) then attach_extras f s else []).

(** [compute_strong_content_hash] *)
Definition compute_strong_content_hash (f : content_fields) (s : strong_hash_input) : bstring :=
  sha256 (strong_preimage f s).

(** ** The keys of a message *)

(** [DedupKeys] *)
Record dedup_keys := {
  dk_message_id : option bstring; dk_content_hash : bstring; dk_preview_bytes_over_budget : bool;
  dk_fp_header : Z; dk_fp_body : Z; dk_fp_recipients : Z; dk_fp_attachments : Z;
  dk_strong_content_hash : option bstring }.

(** [compute_dedup_keys_ex] *)
Definition compute_dedup_keys_ex (message_id : option bstring) (f : content_fields)
    (s : strong_hash_input) : dedup_keys :=
  let '(content_hash, over, (fp_h, fp_b, _, fp_a)) :=
    compute_content_hash_detailed f (sh_ignore_inline s) in
  {| dk_message_id := normalize_message_id <$> message_id; dk_content_hash := content_hash;
     dk_preview_bytes_over_budget := over; dk_fp_header := fp_h; dk_fp_body := fp_b;
     dk_fp_recipients := recipients_fingerprint_ex (sh_display_to s) (sh_display_cc s)
                           (sh_display_bcc s) (sh_recipients s);
     dk_fp_attachments := fp_a;
     dk_strong_content_hash := if is_strong (sh_identity s)
                               then Some (compute_strong_content_hash f s) else None |}.

(** [compute_dedup_keys], with [StrongHashInput::default()] *)
Definition default_strong_input : strong_hash_input := {|
  sh_identity := IdOff; body_sha256 := None; body_char_len := None; sh_display_to := None;
  sh_display_cc := None; sh_display_bcc := None; sh_recipients := None; sh_ignore_inline := false |}.
Definition compute_dedup_keys (message_id : option bstring) (f : content_fields) : dedup_keys :=
  compute_dedup_keys_ex message_id f default_strong_input.

(** ** Embedded messages *)

Definition EMBEDDED_MSG_HASH_DOMAIN : bstring := bytes_of "pst-dedup/embedded-msg-hash/v1" ++ [NUL].
Definition ATTACH_DEPTH_LIMIT_DOMAIN : bstring := bytes_of "pst-dedup/attach-depth-limit/v1" ++ [NUL].
Definition EMBEDDED_BODY_MISSING_DOMAIN : bstring := bytes_of "pst-dedup/embedded-body-missing/v1" ++ [NUL].

(** [embedded_body_missing_hash], [attach_depth_limit_sentinel] *)
Definition embedded_body_missing_hash : bstring := sha256 EMBEDDED_BODY_MISSING_DOMAIN.
Definition attach_depth_limit_sentinel (name : bstring) (size : Z) : bstring :=
  sha256 (ATTACH_DEPTH_LIMIT_DOMAIN ++ str_to_lowercase name ++ [NUL] ++ le_split 4 size).

(** [embedded_header_hash] *)
Definition embedded_header_hash (subject : option bstring) (submit_time : option Z) (sender : option bstring) : bstring :=
  sha256 (update_some normalize_subject subject ++ [PIPE] ++ update_some to_decimal submit_time ++ [PIPE] ++
          update_some (λ s, str_to_lowercase (str_trim s)) sender).

(** [recipient_strong_preimage_bytes], [embedded_recipients_hash] *)
Definition recipient_strong_preimage_bytes (to_ cc_ bcc_ : option bstring)
    (rows : option (list canonical_recipient)) : bstring :=
  default (display_recipients to_ cc_ bcc_) (structured_keys rows).
Definition embedded_recipients_hash (to_ cc_ bcc_ : option bstring)
    (rows : option (list canonical_recipient)) : bstring :=
  sha256 (recipient_strong_preimage_bytes to_ cc_ bcc_ rows).

(** [embedded_attachments_hash] *)
Definition embedded_attachments_hash (digests : list bstring) : bstring :=
  sha256 (d ← digests; d ++ [SEMICOLON]).

(** [compute_embedded_msg_hash_v1] *)
Definition embedded_preimage (depth : byte) (header body recipients attachments : bstring) : bstring :=
  EMBEDDED_MSG_HASH_DOMAIN ++ [depth] ++ header ++ body ++ recipients ++ attachments.
Definition compute_embedded_msg_hash_v1 (depth : byte) (header body recipients attachments : bstring) : bstring :=
  sha256 (embedded_preimage depth header body recipients attachments).
End content.
