(* ===== verification/HasherFacts.v ===== *)
(** * What the content hashes identify (hasher.rs)

    Replies, forwards, white space and the order of attachments do not change the
    keys of a message; an equal v2 preimage means an equal v1 preimage as long as
    the recipients hold equally many separators; and two runs show that the separators of
    the preimages are not escaped. *)

From stdpp Require Import sorting relations.
From S2P Require Import Prelude Text Recipient Grouping Hasher.
#[local] Open Scope Z_scope.

(** ** Subjects *)

(** Lower-casing a string maps an ASCII prefix byte by byte. *)
Class LowercaseAscii `{Platform} := lower_prefix p s :
  Forall (λ b, u8 b < 128) p → starts_with (map ascii_lower p) (str_to_lowercase (p ++ s)) = true.

(** [Re:], [FW:] and the like, in any case. *)
Definition reply_prefix (p : bstring) : Prop :=
  map ascii_lower p = bytes_of "re:" ∨ map ascii_lower p = bytes_of "fwd:" ∨ map ascii_lower p = bytes_of "fw:".

Section subject.
Context `{Platform}.

(** Where the loop breaks by itself: no prefix is left, or its end is not on a
    character boundary. *)
Definition replies_stripped (s : bstring) : Prop :=
  match reply_prefix_len (str_to_lowercase (str_trim s)) with
  | Some n => is_char_boundary (str_trim s) n = false
  | None => True
  end.

(** An iteration shortens the string. *)
Lemma strip_shorter s n :
  reply_prefix_len (str_to_lowercase (str_trim s)) = Some n → is_char_boundary (str_trim s) n = true →
  (length (str_trim (drop n (str_trim s))) < length (str_trim s))%nat.
Proof.
  intros En Eb.
  assert (3 <= n)%nat as Hn by (unfold reply_prefix_len in En; repeat case_match; simplify_eq; lia).
  assert (n <= length (str_trim s))%nat as Hle.
  { unfold is_char_boundary in Eb. apply orb_true_iff in Eb as [Eb|Eb].
    - apply orb_true_iff in Eb as [Eb|Eb]; apply Nat.eqb_eq in Eb; lia.
    - destruct (str_trim s !! n) eqn:El; [|done]. apply lookup_lt_Some in El. lia. }
  pose proof (str_trim_length (drop n (str_trim s))) as Hl. rewrite length_drop in Hl. lia.
Qed.

Lemma strip_replies_ends fuel s : (length (str_trim s) < fuel)%nat → replies_stripped (strip_replies fuel s).
Proof.
  revert s. induction fuel as [|fuel IH]; intros s Hf; [lia|]. cbn [strip_replies].
  destruct (reply_prefix_len _) as [n|] eqn:En; [|unfold replies_stripped; by rewrite En].
  destruct (is_char_boundary (str_trim s) n) eqn:Eb; [|unfold replies_stripped; by rewrite En].
  pose proof (strip_shorter s n En Eb). apply IH. lia.
Qed.

(** The loop depends on the trimmed string only, and more fuel changes nothing. *)
Lemma strip_replies_ext fuel fuel' s s' :
  (length (str_trim s) < fuel)%nat → (length (str_trim s) < fuel')%nat → str_trim s = str_trim s' →
  str_trim (strip_replies fuel s) = str_trim (strip_replies fuel' s').
Proof.
  revert fuel' s s'. induction fuel as [|fuel IH]; intros [|fuel'] s s' Hf Hf' E; [lia..|].
  cbn [strip_replies]. rewrite <- E. destruct (reply_prefix_len _) as [n|] eqn:En; [|done].
  destruct (is_char_boundary (str_trim s) n) eqn:Eb; [|done]. pose proof (strip_shorter s n En Eb).
  apply IH; [lia|lia|done].
Qed.

Lemma strip_replies_step fuel s :
  strip_replies (S fuel) s =
  match reply_prefix_len (str_to_lowercase (str_trim s)) with
  | None => s
  | Some n => if is_char_boundary (str_trim s) n then strip_replies fuel (drop n (str_trim s)) else s
  end.
Proof. done. Qed.

Lemma normalize_subject_trim s s' : str_trim s = str_trim s' → normalize_subject s = normalize_subject s'.
Proof. unfold normalize_subject. by intros ->. Qed.

(** Enough fuel: the loop ends by itself. *)
Lemma normalize_subject_fuel s fuel :
  (length (str_trim s) < fuel)%nat → normalize_subject s = str_to_lowercase (str_trim (strip_replies fuel s)).
Proof.
  intros Hf. unfold normalize_subject. f_equal. apply strip_replies_ext; [|by rewrite str_trim_idemp|apply str_trim_idemp].
  rewrite str_trim_idemp. lia.
Qed.
End subject.

Lemma lower_byte_inv b c : ascii_lower b = c → b = c ∨ (97 <= u8 c <= 122 ∧ u8 b = u8 c - 32).
Proof.
  intros <-. unfold ascii_lower. destruct ((65 <=? u8 b) && (u8 b <=? 90)) eqn:E; [|by left]. right.
  apply andb_true_iff in E as [E1%Z.leb_le E2%Z.leb_le]. unfold u8. rewrite byte.unsigned_of_Z.
  unfold byte.wrap. fold (u8 b). rewrite Z.mod_small by lia. lia.
Qed.

Lemma ascii_no_space (b : byte) : 33 <= u8 b < 128 → is_whitespace [b] = false ∧ is_cont b = false.
Proof.
  intros Hb. split.
  - unfold is_whitespace. apply bool_decide_false. unfold WHITESPACE.
    rewrite !elem_of_cons, elem_of_nil. intros Hin.
    repeat destruct Hin as [Hin|Hin]; simplify_eq; vm_compute in Hb; destruct Hb as [Hb Hb']; by (apply Hb || apply Hb').
  - unfold is_cont. apply andb_false_iff. left. apply Z.leb_gt. lia.
Qed.

Lemma reply_prefix_bytes p : reply_prefix p → Forall (λ b, 33 <= u8 b < 128) p ∧ (p ≠ []).
Proof.
  assert (∀ q, map ascii_lower p = q → Forall (λ c, 58 <= u8 c < 128) q → Forall (λ b, 33 <= u8 b < 128) p) as Hall.
  { clear. intros q <-. rewrite !Forall_forall. intros Hq b Hb.
    specialize (Hq (ascii_lower b) ltac:(by apply list_elem_of_fmap_2)).
    destruct (lower_byte_inv b _ eq_refl) as [E|[? ?]]; [rewrite <- E in Hq; lia|lia]. }
  intros [E|[E|E]]; (split; [apply (Hall _ E), (bool_decide_eq_true_1 _); vm_compute; reflexivity|by intros ->]).
Qed.

(** Single-byte characters. *)
Lemma chars_ascii p : Forall (λ b, 33 <= u8 b < 128) p → chars p = map (λ b, [b]) p.
Proof.
  induction 1 as [|b p Hb Hp IH]; [done|]. cbn [chars map]. rewrite IH. destruct Hp as [|c p Hc _]; [done|].
  cbn [map]. by rewrite (proj2 (ascii_no_space c Hc)).
Qed.

Lemma ascii_spaces p : Forall (λ b, 33 <= u8 b < 128) p → p ≠ [] →
  drop_while is_whitespace (chars p) = chars p ∧ drop_while_end is_whitespace (chars p) = chars p.
Proof.
  intros Hp Hne. rewrite (chars_ascii p Hp). split.
  - destruct Hp as [|b p Hb _]; [done|]. apply drop_while_id, (ascii_no_space b Hb).
  - destruct p as [|b p _] using rev_ind; [done|]. apply Forall_app in Hp as [_ Hb]. apply Forall_cons in Hb as [Hb _].
    rewrite map_app, drop_while_end_app. cbn [map forallb].
    by rewrite (proj1 (ascii_no_space b Hb)); unfold drop_while_end; cbn; rewrite (proj1 (ascii_no_space b Hb)).
Qed.

(** Trimming leaves an ASCII prefix alone. *)
Lemma trim_prefix p s :
  Forall (λ b, 33 <= u8 b < 128) p → p ≠ [] → starts_char s →
  str_trim (p ++ s) = p ++ concat (drop_while_end is_whitespace (chars s)).
Proof.
  intros Hp Hne Hs. destruct (ascii_spaces p Hp Hne) as [H1 H2]. unfold str_trim.
  rewrite chars_app by done. rewrite drop_while_app, H1.
  destruct (forallb is_whitespace (chars p)) eqn:Ep.
  { apply drop_while_forallb in Ep. rewrite H1 in Ep. apply (f_equal (@concat byte)) in Ep. by rewrite chars_concat in Ep. }
  rewrite drop_while_end_app. destruct (forallb is_whitespace (chars s)) eqn:Es.
  - rewrite H2, chars_concat. unfold drop_while_end.
    rewrite (drop_while_forallb _ (reverse (chars s))); [by rewrite app_nil_r|].
    rewrite forallb_forall in Es |- *. intros x Hx. apply Es.
    by rewrite <- list_elem_of_In, elem_of_reverse, list_elem_of_In in Hx.
  - rewrite concat_app, chars_concat. done.
Qed.

(** The end of a string trimmed at its end only. *)
Lemma trim_end_facts s :
  let e := concat (drop_while_end is_whitespace (chars s)) in
  str_trim e = str_trim s ∧ (starts_char s → starts_char e).
Proof.
  intros e. destruct (drop_while_end_prefix is_whitespace (chars s)) as (k & Hk & _).
  pose proof (chars_split _ _ _ Hk) as [He _]. fold e in He. split.
  - unfold str_trim. by rewrite He, <- drop_while_both, drop_while_end_idemp, drop_while_both.
  - intros Hs. apply (f_equal (@concat byte)) in Hk. rewrite chars_concat, concat_app in Hk. fold e in Hk.
    destruct e as [|b e]; [done|]. rewrite Hk in Hs. exact Hs.
Qed.

Section replies.
Context `{Platform} `{!LowercaseAscii}.

Lemma reply_prefix_found p s : reply_prefix p → reply_prefix_len (str_to_lowercase (p ++ s)) = Some (length p).
Proof.
  intros Hp. destruct (reply_prefix_bytes p Hp) as [Hb _].
  assert (starts_with (map ascii_lower p) (str_to_lowercase (p ++ s)) = true) as Hl.
  { apply lower_prefix. eapply Forall_impl; [exact Hb|]. simpl. lia. }
  destruct Hp as [E|[E|E]]; rewrite E in Hl; apply (f_equal length) in E; rewrite length_map in E; rewrite E;
    apply starts_with_inv in Hl as [t ->]; reflexivity.
Qed.

(** A reply prefix does not change the normalised subject. *)
Lemma normalize_subject_reply p s :
  reply_prefix p → starts_char s → normalize_subject (p ++ s) = normalize_subject s.
Proof.
  intros Hp Hs. destruct (reply_prefix_bytes p Hp) as [Hb Hne].
  pose proof (trim_end_facts s) as [He Hes]. specialize (Hes Hs).
  pose proof (trim_prefix p s Hb Hne Hs) as Ht.
  set (e := concat (drop_while_end is_whitespace (chars s))) in *. clearbody e.
  rewrite (normalize_subject_fuel (p ++ s) (S (S (length (str_trim (p ++ s)))))) by lia.
  rewrite (normalize_subject_fuel s (S (length (str_trim (p ++ s))))).
  - f_equal. rewrite (strip_replies_step (S _) (p ++ s)), Ht, (reply_prefix_found p e Hp).
    assert (is_char_boundary (p ++ e) (length p) = true) as ->.
    { unfold is_char_boundary. rewrite !orb_true_iff. destruct e as [|b e].
      - left. right. rewrite app_nil_r. apply Nat.eqb_refl.
      - right. rewrite list_lookup_middle by done. simpl in Hes. by rewrite Hes. }
    rewrite drop_app_length. apply strip_replies_ext; [| |done]; rewrite He.
    + rewrite length_app, <- He. pose proof (str_trim_length e). lia.
    + rewrite length_app, <- He. pose proof (str_trim_length e). lia.
  - rewrite Ht, <- He, length_app. pose proof (str_trim_length e). lia.
Qed.
End replies.

(** ** Keys that copies share *)

(** One step between two forms of a message: a reply prefix or white space in the
    subject, or another order of the attachments. *)
Inductive same_message : content_fields → content_fields → Prop :=
| same_reply p s t b a atts :
    reply_prefix p → starts_char s →
    same_message {| cf_subject := Some (p ++ s); cf_submit_time := t; cf_sender := a; cf_body_preview := b; cf_attachments := atts |}
                 {| cf_subject := Some s; cf_submit_time := t; cf_sender := a; cf_body_preview := b; cf_attachments := atts |}
| same_space s s' t b a atts :
    str_trim s = str_trim s' →
    same_message {| cf_subject := Some s; cf_submit_time := t; cf_sender := a; cf_body_preview := b; cf_attachments := atts |}
                 {| cf_subject := Some s'; cf_submit_time := t; cf_sender := a; cf_body_preview := b; cf_attachments := atts |}
| same_attachments s t b a atts atts' :
    atts ≡ₚ atts' →
    same_message {| cf_subject := s; cf_submit_time := t; cf_sender := a; cf_body_preview := b; cf_attachments := atts |}
                 {| cf_subject := s; cf_submit_time := t; cf_sender := a; cf_body_preview := b; cf_attachments := atts' |}.

Section keys.
Context `{Platform, Sha256}.

Lemma identity_attachments_perm atts atts' ig :
  atts ≡ₚ atts' → identity_attachments atts ig ≡ₚ identity_attachments atts' ig.
Proof. intros Hp. unfold identity_attachments. by rewrite Hp. Qed.

Lemma attachment_order_preimages f f' ig s :
  cf_attachments f ≡ₚ cf_attachments f' →
  attach_bytes f ig = attach_bytes f' ig ∧ attach_extras f s = attach_extras f' s.
Proof.
  intros Hp. unfold attach_bytes, attachment_meta_strings, attach_extras. split; f_equal;
    apply sort_permutation; by rewrite (identity_attachments_perm _ _ _ Hp).
Qed.

(** The keys depend on the fields through these four byte strings. *)
Lemma keys_congruence mid f f' s :
  header_bytes f = header_bytes f' → cf_body_preview f = cf_body_preview f' →
  attach_bytes f (sh_ignore_inline s) = attach_bytes f' (sh_ignore_inline s) →
  attach_extras f s = attach_extras f' s →
  compute_dedup_keys_ex mid f s = compute_dedup_keys_ex mid f' s.
Proof.
  intros Hh Hb Ha Hx. assert (preview_bytes f = preview_bytes f') as Hp by (unfold preview_bytes; by rewrite Hb).
  unfold compute_dedup_keys_ex, compute_content_hash_detailed, compute_strong_content_hash, strong_preimage,
    v1_preimage, preview_over_budget. by rewrite Hh, Hp, Ha, Hx, Hb.
Qed.
End keys.

(** C21 Copies of a message have the same keys: adding reply or forward prefixes or
    white space around the subject, any number of times, and reordering the
    attachments changes neither the Message-ID, the v1 and v2 hashes, the
    fingerprints nor the flag of the preview.  The loop that strips the prefixes of a
    subject breaks by itself, after fewer rounds than the subject has bytes, and with
    more fuel the normalised subject is the same. *)
Theorem dedup_keys_invariant `{Platform, Sha256} `{!LowercaseAscii} mid f f' s :
  rtsc same_message f f' →
  compute_dedup_keys_ex mid f s = compute_dedup_keys_ex mid f' s ∧
  ∀ subject fuel, cf_subject f = Some subject → (length (str_trim subject) < fuel)%nat →
    replies_stripped (strip_replies fuel (str_trim subject)) ∧
    normalize_subject subject = str_to_lowercase (str_trim (strip_replies fuel (str_trim subject))).
Proof.
  intros Hff. split; [revert Hff|].
  2: { intros subject fuel _ Hf. pose proof (str_trim_idemp subject) as Hi. split.
       - apply strip_replies_ends. by rewrite Hi.
       - rewrite <- (normalize_subject_trim (str_trim subject) subject Hi). apply normalize_subject_fuel. by rewrite Hi. }
  assert (∀ f f', same_message f f' → compute_dedup_keys_ex mid f s = compute_dedup_keys_ex mid f' s) as Hstep.
  { intros ? ? [p x t b a atts Hp Hx|x x' t b a atts Hx|x t b a atts atts' Hp].
    - apply keys_congruence; [|done..]. unfold header_bytes. cbn. by rewrite normalize_subject_reply.
    - apply keys_congruence; [|done..]. unfold header_bytes. cbn. by rewrite (normalize_subject_trim _ _ Hx).
    - destruct (attachment_order_preimages
        {| cf_subject := x; cf_submit_time := t; cf_sender := a; cf_body_preview := b; cf_attachments := atts |}
        {| cf_subject := x; cf_submit_time := t; cf_sender := a; cf_body_preview := b; cf_attachments := atts' |}
        (sh_ignore_inline s) s Hp) as [Ha Hx]. by apply keys_congruence. }
  induction 1 as [x|x y z Hxy _ IH]; [done|]. rewrite <- IH. destruct Hxy as [Hxy|Hyx]; [by apply Hstep|].
  symmetry. by apply Hstep.
Qed.

(** ** Decimal numbers *)

Definition is_digit (b : byte) : Prop := 48 <= u8 b <= 57.
Definition decimal_value (s : bstring) : Z := foldl (λ v b, 10 * v + (u8 b - 48)) 0 s.

Lemma digit_byte d : 0 <= d < 10 → u8 (byte.of_Z (48 + d)) = 48 + d.
Proof. intros Hd. unfold u8. rewrite byte.unsigned_of_Z. unfold byte.wrap. apply Z.mod_small. lia. Qed.

Lemma digits_of_spec fuel n acc :
  0 <= n < 2 ^ (Z.of_nat fuel + 1) →
  ∃ d, digits_of fuel n acc = d ++ acc ∧ Forall is_digit d ∧ d ≠ [] ∧ decimal_value d = n.
Proof.
  revert n acc. induction fuel as [|fuel IH]; intros n acc Hn.
  - cbn [digits_of]. change (2 ^ (Z.of_nat 0 + 1)) with 2 in Hn. rewrite Z.mod_small by lia.
    exists [byte.of_Z (48 + n)]. split; [done|]. split; [|split; [done|]].
    + constructor; [|done]. unfold is_digit. rewrite digit_byte; lia.
    + unfold decimal_value. cbn [foldl]. rewrite digit_byte; lia.
  - cbn [digits_of]. pose proof (Z.mod_pos_bound n 10 ltac:(lia)) as Hm.
    destruct (Z.ltb_spec n 10).
    + exists [byte.of_Z (48 + n mod 10)]. split; [done|]. split; [|split; [done|]].
      * constructor; [|done]. unfold is_digit. rewrite digit_byte; lia.
      * unfold decimal_value. cbn [foldl]. rewrite digit_byte by lia. rewrite Z.mod_small; lia.
    + destruct (IH (n / 10) (byte.of_Z (48 + n mod 10) :: acc)) as (d & -> & Hd & Hne & Hv).
      { replace (Z.of_nat (S fuel) + 1) with (1 + (Z.of_nat fuel + 1)) in Hn by lia.
        rewrite Z.pow_add_r in Hn by lia. split; [apply Z.div_pos; lia|].
        apply Z.div_lt_upper_bound; lia. }
      exists (d ++ [byte.of_Z (48 + n mod 10)]). split; [by rewrite <- app_assoc|]. split; [|split].
      * apply Forall_app. split; [done|]. constructor; [|done]. unfold is_digit. rewrite digit_byte; lia.
      * by destruct d.
      * unfold decimal_value in *. rewrite foldl_app, Hv. cbn [foldl]. rewrite digit_byte by lia.
        pose proof (Z.div_mod n 10 ltac:(lia)). lia.
Qed.

Lemma to_decimal_spec n :
  0 <= n → Forall is_digit (to_decimal n) ∧ to_decimal n ≠ [] ∧ decimal_value (to_decimal n) = n.
Proof.
  intros Hn. unfold to_decimal. rewrite (proj2 (Z.ltb_ge n 0)) by done.
  destruct (digits_of_spec (Z.to_nat (Z.log2 n)) n []) as (d & -> & ? & ? & ?).
  - rewrite Z2Nat.id by apply Z.log2_nonneg. split; [done|].
    destruct (decide (n = 0)) as [->|Hne]; [done|]. apply Z.log2_spec. lia.
  - rewrite app_nil_r. done.
Qed.

Lemma to_decimal_inj n m : 0 <= n → 0 <= m → to_decimal n = to_decimal m → n = m.
Proof.
  intros Hn Hm E. destruct (to_decimal_spec n Hn) as (_ & _ & En), (to_decimal_spec m Hm) as (_ & _ & Em).
  congruence.
Qed.

Lemma digits_no_pipe d : Forall is_digit d → PIPE ∉ d.
Proof.
  rewrite Forall_forall. intros Hd Hin. specialize (Hd _ Hin). unfold is_digit in Hd. vm_compute in Hd.
  destruct Hd as [_ Hd]. by apply Hd.
Qed.

(** ** The v2 preimage *)

(** The number of separators in a string. *)
Definition separators (c : byte) (s : bstring) : nat := length (filter (λ b, b = c) s).

Lemma separators_snoc c s b : separators c (s ++ [b]) = (separators c s + if decide (b = c) then 1 else 0)%nat.
Proof. unfold separators. rewrite filter_app, length_app, filter_cons. by destruct (decide (b = c)). Qed.
Lemma separators_none c s : c ∉ s → separators c s = 0%nat.
Proof.
  induction s as [|b s IH]; [done|]. intros [Hb Hs]%not_elem_of_cons. unfold separators in *.
  rewrite filter_cons, decide_False by done. auto.
Qed.

(** A separator is found from the end by the separators after it. *)
Lemma app_last_inj (c : byte) x y p q :
  separators c p = separators c q → x ++ [c] ++ p = y ++ [c] ++ q → x = y ∧ p = q.
Proof.
  revert q. induction p as [|b p IH] using rev_ind; intros q Hpq E.
  - destruct q as [|b q _] using rev_ind; [by apply app_inj_tail in E as [-> _]|].
    rewrite app_nil_r, !app_assoc in E. apply app_inj_tail in E as [_ <-].
    rewrite separators_snoc, decide_True in Hpq by done. unfold separators in Hpq at 1. simpl in Hpq. lia.
  - destruct q as [|b' q _] using rev_ind.
    + rewrite app_nil_r, !app_assoc in E. apply app_inj_tail in E as [_ ->].
      rewrite separators_snoc, decide_True in Hpq by done. unfold separators in Hpq at 2. simpl in Hpq. lia.
    + rewrite !app_assoc in E. apply app_inj_tail in E as [E ->]. rewrite <- !app_assoc in E.
      rewrite !separators_snoc in Hpq. apply IH in E as [-> ->]; [done|lia].
Qed.

(** The digest and the length of the whole body come together. *)
Definition body_digested (s : strong_hash_input) : Prop :=
  match body_sha256 s, body_char_len s with
  | Some d, Some n => length d = 32%nat ∧ 0 <= n
  | None, None => True
  | _, _ => False
  end.

Lemma body_extras_inj x x' s s' :
  body_digested s → body_digested s' → x ++ V2 ++ body_extras s = x' ++ V2 ++ body_extras s' →
  x = x' ∧ body_sha256 s = body_sha256 s' ∧ body_char_len s = body_char_len s'.
Proof.
  unfold body_extras. intros Hs Hs' E.
  assert (((x ++ V2 ++ update_some id (body_sha256 s)) ++ [PIPE] ++ update_some to_decimal (body_char_len s)) ++ [PIPE] =
          ((x' ++ V2 ++ update_some id (body_sha256 s')) ++ [PIPE] ++ update_some to_decimal (body_char_len s')) ++ [PIPE])
    as E2 by (by rewrite <- !app_assoc).
  apply app_inj_tail in E2 as [E2 _]. clear E.
  unfold body_digested in *.
  assert (∀ o : option Z, match o with Some n => 0 <= n | None => True end → PIPE ∉ update_some to_decimal o) as Hno.
  { intros [n|] Hn; simpl; [|set_solver]. apply digits_no_pipe. by apply to_decimal_spec. }
  assert (PIPE ∉ update_some to_decimal (body_char_len s)) by (apply Hno; destruct (body_sha256 s), (body_char_len s); tauto).
  assert (PIPE ∉ update_some to_decimal (body_char_len s')) by (apply Hno; destruct (body_sha256 s'), (body_char_len s'); tauto).
  apply app_last_inj in E2 as [E El]; [|by rewrite !separators_none].
  destruct (body_sha256 s) as [d|], (body_char_len s) as [n|], (body_sha256 s') as [d'|], (body_char_len s') as [n'|];
    try done; cbn [update_some] in El, E.
  - apply to_decimal_inj in El as ->; [|tauto..].
    apply app_inj_2 in E as [-> E]; [|rewrite !length_app; unfold id; lia].
    apply app_inv_head in E. unfold id in E. by subst.
  - destruct (to_decimal_spec n) as (_ & ? & _); [tauto|]. done.
  - symmetry in El. destruct (to_decimal_spec n') as (_ & ? & _); [tauto|]. done.
  - rewrite !app_nil_r in E. by apply app_inv_tail in E as ->.
Qed.

(** C20 At the levels [body] and [body-recip] a v2 hash only subdivides v1: when, on
    both sides, the digest of the body, of 32 bytes, and its length come together or
    are both missing, and at [body-recip] the two recipient strings hold equally many
    separators, equal v2 preimages at one level have equal v1 preimages, equal body digests and
    equal body lengths, and at [body-recip] equal recipient strings.  Without the
    condition on the separators [equal_v2_unequal_v1] is a counterexample. *)
Theorem strong_refines_v1 `{Platform, Sha256} f f' s s' :
  sh_identity s = sh_identity s' → is_strong (sh_identity s) = true →
  includes_attach_content (sh_identity s) = false →
  body_digested s → body_digested s' →
  (includes_recipients (sh_identity s) = true →
     separators PIPE (recipient_strong_preimage s) = separators PIPE (recipient_strong_preimage s')) →
  strong_preimage f s = strong_preimage f' s' →
  v1_preimage f (sh_ignore_inline s) = v1_preimage f' (sh_ignore_inline s') ∧
  body_sha256 s = body_sha256 s' ∧ body_char_len s = body_char_len s' ∧
  (includes_recipients (sh_identity s) = true → recipient_strong_preimage s = recipient_strong_preimage s').
Proof.
  intros Hid Hst Hat Hb Hb' Hr E. unfold strong_preimage in E. rewrite <- Hid, Hst, Hat in E.
  destruct (includes_recipients (sh_identity s)).
  - specialize (Hr eq_refl). assert ((v1_preimage f (sh_ignore_inline s) ++ V2 ++ update_some id (body_sha256 s) ++ [PIPE] ++
       update_some to_decimal (body_char_len s)) ++ [PIPE] ++ recipient_strong_preimage s =
      (v1_preimage f' (sh_ignore_inline s') ++ V2 ++ update_some id (body_sha256 s') ++ [PIPE] ++
       update_some to_decimal (body_char_len s')) ++ [PIPE] ++ recipient_strong_preimage s') as E2.
    { eapply (proj1 (app_inj_tail _ _ PIPE PIPE _)). Unshelve. unfold body_extras in E. rewrite !app_nil_r in E.
      rewrite <- !app_assoc in E. rewrite <- !app_assoc. exact E. }
    apply app_last_inj in E2 as [E2 Er]; [|done].
    destruct (body_extras_inj (v1_preimage f (sh_ignore_inline s)) (v1_preimage f' (sh_ignore_inline s')) s s')
      as (-> & -> & ->); [done|done| |done].
    unfold body_extras. apply (f_equal (λ l, l ++ [PIPE])) in E2. rewrite <- !app_assoc in E2. exact E2.
  - rewrite !app_nil_r in E. apply body_extras_inj in E as (-> & -> & ->); done.
Qed.

(** The embedded-message preimage determines its parts. *)
Lemma embedded_preimage_inj d h b r a d' h' b' r' a' :
  length h = length h' → length b = length b' → length r = length r' →
  embedded_preimage d h b r a = embedded_preimage d' h' b' r' a' →
  d = d' ∧ h = h' ∧ b = b' ∧ r = r' ∧ a = a'.
Proof.
  intros Hh Hb Hr E. unfold embedded_preimage in E. apply app_inv_head in E. injection E as -> E.
  apply app_inj_1 in E as [-> E]; [|done]. apply app_inj_1 in E as [-> E]; [|done].
  apply app_inj_1 in E as [-> E]; done.
Qed.

(** ** Examples *)

(** ASCII text, and a digest that keeps the first 32 bytes. *)
#[local] Instance ascii : Platform := {|
  windows := false; str_to_lowercase := map ascii_lower; path_file_name := Some |}.
#[local] Instance ascii_lowercase : LowercaseAscii.
Proof. intros p s _. cbn. rewrite map_app. apply starts_with_app. Qed.

Definition first_32 (s : bstring) : bstring := take 32 (s ++ replicate 32 Byte.x00).
Lemma first_32_length s : length (first_32 s) = 32%nat.
Proof. unfold first_32. rewrite length_take, length_app, length_replicate. lia. Qed.
#[local] Instance prefix_digest : Sha256 := {| sha256 := first_32; sha256_length := first_32_length |}.

Definition fields (subject : string) (time : option Z) (sender body : option string) (atts : list attachment_info)
    : content_fields := {|
  cf_subject := Some (bytes_of subject); cf_submit_time := time; cf_sender := bytes_of <$> sender;
  cf_body_preview := bytes_of <$> body; cf_attachments := atts |}.
Definition attached (name : string) (size : Z) : attachment_info := {|
  filename := bytes_of name; att_size := size; is_inline := false; content_sha256 := None |}.
Definition strong_at (l : identity_level) (body : option (bstring * Z)) (to_ : option string) : strong_hash_input := {|
  sh_identity := l; body_sha256 := fst <$> body; body_char_len := snd <$> body;
  sh_display_to := bytes_of <$> to_; sh_display_cc := None; sh_display_bcc := None; sh_recipients := None;
  sh_ignore_inline := false |}.

Example normalize_subject_ok :
  map (λ s, normalize_subject (bytes_of s)) ["  RE: Fwd:re: Plan "; "Reply: Plan"; "FW:"]%string =
  map bytes_of ["plan"; "reply: plan"; ""]%string.
Proof. vm_compute. reflexivity. Qed.
Example normalize_message_id_ok : normalize_message_id (bytes_of " <A.1@X.com> ") = bytes_of "a.1@x.com".
Proof. vm_compute. reflexivity. Qed.

Definition original : content_fields := fields "Plan" (Some 5) None None [attached "b.doc" 2; attached "a.doc" 1].
Definition reply : content_fields := fields "RE:Plan" (Some 5) None None [attached "a.doc" 1; attached "b.doc" 2].

Lemma dedup_keys_invariant_witness :
  compute_dedup_keys_ex None reply (strong_at IdBody None None) =
  compute_dedup_keys_ex None original (strong_at IdBody None None) ∧
  replies_stripped (strip_replies 8 (bytes_of "RE:Plan")) ∧ strip_replies 8 (bytes_of "RE:Plan") = bytes_of "Plan".
Proof.
  destruct (dedup_keys_invariant None reply original (strong_at IdBody None None)) as [Hk Hl].
  2: { split; [exact Hk|]. split; [|vm_compute; reflexivity].
       apply (Hl (bytes_of "RE:Plan") 8%nat); [reflexivity|vm_compute; lia]. }
  eapply (rtc_l _ _ {| cf_subject := Some (bytes_of "Plan"); cf_submit_time := Some 5; cf_sender := None;
      cf_body_preview := None; cf_attachments := cf_attachments reply |}).
  - left. apply (same_reply (bytes_of "RE:") (bytes_of "Plan")); [left; reflexivity|reflexivity].
  - apply rtc_once. left. apply same_attachments. apply Permutation_swap.
Defined.

Lemma strong_refines_v1_witness :
  let s := strong_at IdBodyRecip (Some (first_32 (bytes_of "hello"), 5)) (Some "B; a"%string) in
  let s' := strong_at IdBodyRecip (Some (first_32 (bytes_of "hello"), 5)) (Some "a;b"%string) in
  v1_preimage original false = v1_preimage reply false ∧
  body_sha256 s = body_sha256 s' ∧ body_char_len s = body_char_len s' ∧
  (includes_recipients (sh_identity s) = true → recipient_strong_preimage s = recipient_strong_preimage s').
Proof.
  apply (strong_refines_v1 original reply
    (strong_at IdBodyRecip (Some (first_32 (bytes_of "hello"), 5)) (Some "B; a"%string))
    (strong_at IdBodyRecip (Some (first_32 (bytes_of "hello"), 5)) (Some "a;b"%string)));
    first [by vm_compute|vm_compute; split; [reflexivity|discriminate]].
Defined.

(** Fields are separated by [|], which is not escaped: a message without a submit
    time and one with the submit time 5 have one v1 preimage, whatever the digest. *)
Theorem submit_time_not_in_hash :
  let f := fields "a|5" None (Some "s"%string) None [] in
  let f' := fields "a" (Some 5) None (Some "s|"%string) [] in
  cf_submit_time f ≠ cf_submit_time f' ∧ v1_preimage f false = v1_preimage f' false ∧
  ∀ digest : Sha256, @compute_content_hash ascii digest f = @compute_content_hash ascii digest f'.
Proof. split; [done|]. split; [reflexivity|]. by intros digest. Qed.

(** Separators in the recipients: two messages with equal v2 preimages and
    different v1 preimages. *)
Theorem equal_v2_unequal_v1 :
  let f := fields "" None None None [] in
  let f' := fields "" None None None [attached "|v2|||z" 5] in
  let s := strong_at IdBodyRecip None (Some "z:5;|v2|||"%string) in
  let s' := strong_at IdBodyRecip None None in
  strong_preimage f s = strong_preimage f' s' ∧ v1_preimage f false ≠ v1_preimage f' false ∧
  ∀ digest : Sha256, @compute_strong_content_hash ascii digest f s = @compute_strong_content_hash ascii digest f' s'.
Proof.
  split; [reflexivity|]. split; [vm_compute; discriminate|]. by intros digest.
Qed.
