(* ===== verification/Message.v ===== *)
(** * Messages of the reader (pst-reader/src/messaging/message.rs, recipient.rs)

    Reading one message: the properties that the scanner needs
    ([read_message_properties_with_opts], with the body cut to a preview and the
    body errors turned into flags), the full extract ([read_message_extract]) and
    the rows of the recipient table ([list_recipients], which never fails).
    Strings leave the decoder as scalar values and are kept here as UTF-8. *)

From stdpp Require Import sorting.
From S2P Require Import Prelude Telemetry PstError Crypt Nid Header Btree Block BlockFacts Subnode Heap Bth Utf PropContext PropContextFacts TableContext TableContextFacts Folder Text CivilDate Recipient Hasher HasherFacts.
#[local] Open Scope Z_scope.

(** ** Property tags (ndb/nid.rs) *)

Definition PID_TAG_MESSAGE_CLASS : Z := 0x001A.
Definition PID_TAG_SUBJECT : Z := 0x0037.
Definition PID_TAG_START_DATE : Z := 0x0060.
Definition PID_TAG_END_DATE : Z := 0x0061.
Definition PID_TAG_LOCATION : Z := 0x3A0D.
Definition PID_TAG_CLIENT_SUBMIT_TIME : Z := 0x0039.
Definition PID_TAG_SENDER_EMAIL_ADDRESS : Z := 0x0C1F.
Definition PID_TAG_SENDER_SMTP_ADDRESS : Z := 0x5D01.
Definition PID_TAG_INTERNET_MESSAGE_ID : Z := 0x1035.
Definition PID_TAG_IN_REPLY_TO_ID : Z := 0x1042.
Definition PID_TAG_INTERNET_REFERENCES : Z := 0x1039.
Definition PID_TAG_CONVERSATION_TOPIC : Z := 0x0070.
Definition PID_TAG_CONVERSATION_INDEX : Z := 0x0071.
Definition PID_TAG_BODY : Z := 0x1000.
Definition PID_TAG_DISPLAY_TO : Z := 0x0E04.
Definition PID_TAG_DISPLAY_CC : Z := 0x0E03.
Definition PID_TAG_DISPLAY_BCC : Z := 0x0E02.
Definition PID_TAG_MESSAGE_FLAGS : Z := 0x0E07.
Definition PID_TAG_MESSAGE_DELIVERY_TIME : Z := 0x0E06.
Definition PID_TAG_MESSAGE_SIZE : Z := 0x0E08.
Definition PID_TAG_RECIPIENT_TYPE : Z := 0x0C15.
Definition PID_TAG_ADDRESS_TYPE : Z := 0x3002.
Definition PID_TAG_EMAIL_ADDRESS : Z := 0x3003.
Definition PID_TAG_SMTP_ADDRESS : Z := 0x39FE.
Definition PID_TAG_HAS_ATTACHMENTS : Z := 0x0E1B.
Definition PID_TAG_BODY_HTML : Z := 0x1013.

(** ** Times and classes *)

(** [filetime_to_unix]; the quotient of an [i64] by ten million does not overflow. *)
Definition filetime_to_unix (ft : Z) : Z := Z.quot ft 10000000 - 11644473600.

(** [format_unix_rfc3339] *)
Definition format_unix_rfc3339 (secs : Z) : string :=
  let '(y, m, d) := civil_from_days (secs / 86400) in
  let '(hh, mm, ss) := clock_of (secs mod 86400) in
  (padded 4 y ++ "-" ++ padded 2 m ++ "-" ++ padded 2 d ++ "T" ++
   padded 2 hh ++ ":" ++ padded 2 mm ++ ":" ++ padded 2 ss ++ "Z")%string.

(** [filetime_to_rfc3339]; the seconds of a FILETIME are in the range of [SystemTime]. *)
Definition filetime_to_rfc3339 (ft : Z) : option string :=
  let unix := filetime_to_unix ft in
  if unix <? 0 then None else Some (format_unix_rfc3339 unix).

(** [is_calendar_message_class] *)
Definition is_calendar_message_class (cls : bstring) : bool :=
  let c := str_trim cls in
  eq_ignore_ascii_case c (bytes_of "IPM.Appointment") ||
  eq_ignore_ascii_case c (bytes_of "IPM.Schedule.Meeting.Request") ||
  eq_ignore_ascii_case c (bytes_of "IPM.Schedule.Meeting.Canceled") ||
  starts_with (bytes_of "ipm.schedule.meeting.resp") (map ascii_lower c).

(** ** Fields of a message *)

(** [MessageReadOpts] *)
Record message_read_opts := { compute_body_digest : bool }.

(** [MessageProperties] *)
Record message_properties := {
  mp_nid : Z; mp_message_id : option bstring; mp_subject : option bstring;
  mp_submit_time : option Z; mp_delivery_time : option Z; mp_display_bcc : option bstring;
  mp_sender_email : option bstring; mp_body_preview : option bstring;
  mp_display_to : option bstring; mp_display_cc : option bstring;
  mp_message_size : option Z; mp_has_attachments : option bool;
  mp_body_incomplete : bool; mp_body_unavailable : bool;
  mp_body_sha256 : option bstring; mp_body_char_len : option Z;
  mp_crc_suspect : bool; mp_recipients : list recipient; mp_message_flags : option Z }.

(** [ExtractedMessage] *)
Record extracted_message := {
  em_nid : Z; em_message_id : option bstring; em_subject : option bstring;
  em_sender_email : option bstring; em_display_to : option bstring;
  em_display_cc : option bstring; em_display_bcc : option bstring;
  em_submit_time : option Z; em_delivery_time : option Z;
  em_body_text : option bstring; em_body_html : option (list byte);
  em_message_size : option Z; em_has_attachments : option bool;
  em_in_reply_to : option bstring; em_references : option bstring;
  em_conversation_topic : option bstring;
  em_conversation_index_bytes : option (list byte);
  em_conversation_index_string : option bstring;
  em_message_class : option bstring; em_start_date : option Z; em_end_date : option Z;
  em_location : option bstring; em_crc_suspect : bool;
  em_recipients : list recipient; em_message_flags : option Z }.

(** [MessageProperties::is_unsent], [ExtractedMessage::is_unsent] *)
Definition mp_is_unsent (m : message_properties) : bool := is_some_and message_flags_is_unsent (mp_message_flags m).
Definition em_is_unsent (m : extracted_message) : bool := is_some_and message_flags_is_unsent (em_message_flags m).

(** [is_truncation_or_crc] *)
Definition is_truncation_or_crc (err : pst_error) : bool :=
  match err with DataTruncated _ _ | CrcMismatch _ _ => true | _ => false end.

(** [unwrap_or_default] and [ok().flatten()] of a [Result<Option<_>>]: an error is absent. *)
Definition soft {A} (m : pres (option A)) : pres (option A) :=
  match m with Err _ => Ok None | _ => m end.

(** [Option::or] *)
Definition option_or {A} (a b : option A) : option A := match a with Some _ => a | None => b end.

(** [get_string] as a Rust [String]. *)
Definition get_str (pc : prop_context) (id : Z) : pres (option bstring) :=
  s ← (get_string pc id : pres _); Ok (option_map utf8 s).

(** The sender: both addresses are read before [or] chooses. *)
Definition sender_email (pc : prop_context) : pres (option bstring) :=
  a ← get_str pc PID_TAG_SENDER_EMAIL_ADDRESS;
  b ← get_str pc PID_TAG_SENDER_SMTP_ADDRESS;
  Ok (option_or a b).

(** The flags, read softly and cast to [u32]. *)
Definition message_flags (pc : prop_context) : pres (option Z) :=
  v ← soft (get_i32 pc PID_TAG_MESSAGE_FLAGS); Ok (option_map (wrap 32) v).

(** ** Recipients *)

(** [opt_row_string] *)
Definition opt_row_string (s : pres (option rstring)) : pres (option bstring) :=
  v ← soft s; Ok (nonempty_str (option_map utf8 v)).

(** One row of the recipient table. *)
Definition recipient_row (table : table_context) (row : Z) : pres recipient :=
  raw_type ← get_row_u32 table row PID_TAG_RECIPIENT_TYPE;
  name ← opt_row_string (get_row_string table row PID_TAG_DISPLAY_NAME);
  ty ← opt_row_string (get_row_string table row PID_TAG_ADDRESS_TYPE);
  email ← opt_row_string (get_row_string table row PID_TAG_EMAIL_ADDRESS);
  smtp ← opt_row_string (get_row_string table row PID_TAG_SMTP_ADDRESS);
  Ok {| recipient_type := from_mapi (default 0 raw_type); display_name := name;
        address_type := ty; email_address := email; smtp_address := smtp |}.
Definition table_recipients (table : table_context) : pres (list recipient) :=
  rmap (λ row, recipient_row table (Z.of_nat row)) (seq 0 (Z.to_nat (row_count table))).

Section reader.
Context `{Crc : Crc32} (pst : pst_file).
Abbreviation crypt := (header_crypt (header pst)).

(** [PstFile::list_recipients_inner] *)
Definition list_recipients_inner (message_nid : Z) : pio (list recipient) :=
  match nbt_get (nbt pst) message_nid with
  | None => mret []
  | Some e =>
      if is_null (bid_sub e) then mret []
      else
        sub_entries ← list_subnode_entries (reader pst) (bbt pst) (bid_sub e);
        match find (λ s, bool_decide (nid_type (sub_nid s) = RecipientTable)) sub_entries with
        | None => mret []
        | Some recip_entry =>
            if is_null (sub_bid_data recip_entry) then mret []
            else
              data ← read_block_data (reader pst) (bbt pst) (sub_bid_data recip_entry) crypt;
              table ← attempt (load_from_table_bids data (reader pst) (bbt pst) (sub_bid_sub recip_entry) crypt);
              match table with
              | Some table => quiet (table_recipients table)
              | None => mret []
              end
        end
  end.

(** [PstFile::list_recipients] *)
Definition list_recipients (message_nid : Z) : pio (list recipient) :=
  rows ← attempt (list_recipients_inner message_nid); mret (default [] rows).

(** ** Taint scopes *)

(** A block CRC or block ID mismatch among the events. *)
Definition block_mismatch (e : tele_event) : bool :=
  match e with NoteBlockCrc _ _ _ | NoteBlockBid _ _ _ => true | _ => false end.

(** [message_scope_enter() .. scope.exit()] around a read that succeeds: the flag
    says whether the counters of block mismatches grew. *)
Definition scoped {A} (m : pio (bool → A)) : pio A :=
  match m with
  | (Ok f, l) => (Ok (f (existsb block_mismatch l)), l)
  | (Err e, l) => (Err e, l)
  | (Panic, l) => (Panic, l)
  | (NoFuel, l) => (NoFuel, l)
  end.

(** ** Reading a message *)

Context `{Platform, Sha256}.

(** What the body read yields: preview, incomplete, unavailable, digest, length. *)
Record body_read := {
  br_preview : option bstring; br_incomplete : bool; br_unavailable : bool;
  br_sha256 : option bstring; br_char_len : option Z }.

(** The body without white space other than the space, in lower case. *)
Definition normalized_body (b : bstring) : bstring :=
  str_to_lowercase (concat (filter (λ c, negb (is_whitespace c) || bool_decide (c = [SPACE])) (chars b))).

(** The first 4096 characters. *)
Definition preview_of (b : bstring) : bstring :=
  if (4096 <? length (chars b))%nat then concat (take 4096 (chars b)) else b.

Definition read_body (opts : message_read_opts) (pc : prop_context) : pres body_read :=
  match get_str pc PID_TAG_BODY with
  | Ok (Some b) =>
      let normalized := normalized_body b in
      let digest := if compute_body_digest opts
                    then (Some (sha256 normalized), Some (zlen (chars normalized))) else (None, None) in
      Ok {| br_preview := Some (preview_of b); br_incomplete := false; br_unavailable := false;
            br_sha256 := digest.1; br_char_len := digest.2 |}
  | Ok None => Ok {| br_preview := None; br_incomplete := false; br_unavailable := false;
                     br_sha256 := None; br_char_len := None |}
  | Err e =>
      let truncated := is_truncation_or_crc e in
      Ok {| br_preview := None; br_incomplete := truncated; br_unavailable := negb truncated;
            br_sha256 := None; br_char_len := None |}
  | Panic => Panic
  | NoFuel => NoFuel
  end.

(** The reads from the property context, in order. *)
Definition message_fields (message_nid : Z) (opts : message_read_opts) (pc : prop_context)
    : pres (list recipient → bool → message_properties) :=
  message_id ← get_str pc PID_TAG_INTERNET_MESSAGE_ID;
  subject ← get_str pc PID_TAG_SUBJECT;
  submit_time ← get_time pc PID_TAG_CLIENT_SUBMIT_TIME;
  delivery_time ← soft (get_time pc PID_TAG_MESSAGE_DELIVERY_TIME);
  display_bcc ← soft (get_str pc PID_TAG_DISPLAY_BCC);
  display_cc ← soft (get_str pc PID_TAG_DISPLAY_CC);
  sender ← sender_email pc;
  body ← read_body opts pc;
  display_to ← get_str pc PID_TAG_DISPLAY_TO;
  message_size ← get_i32 pc PID_TAG_MESSAGE_SIZE;
  has_attachments ← get_bool pc PID_TAG_HAS_ATTACHMENTS;
  flags ← message_flags pc;
  Ok (λ recipients crc_suspect,
    {| mp_nid := message_nid; mp_message_id := message_id; mp_subject := subject;
       mp_submit_time := submit_time; mp_delivery_time := delivery_time;
       mp_display_bcc := display_bcc; mp_sender_email := sender;
       mp_body_preview := br_preview body; mp_display_to := display_to;
       mp_display_cc := display_cc; mp_message_size := message_size;
       mp_has_attachments := has_attachments; mp_body_incomplete := br_incomplete body;
       mp_body_unavailable := br_unavailable body; mp_body_sha256 := br_sha256 body;
       mp_body_char_len := br_char_len body; mp_crc_suspect := crc_suspect;
       mp_recipients := recipients; mp_message_flags := flags |}).

(** [PstFile::read_message_properties_with_opts] *)
Definition read_message_properties_with_opts (message_nid : Z) (opts : message_read_opts) : pio message_properties :=
  scoped (
    prop_ctx ← load_pc (reader pst) (bbt pst) crypt (nbt pst) message_nid;
    mk ← quiet (message_fields message_nid opts prop_ctx);
    recipients ← list_recipients message_nid;
    mret (mk recipients)).

(** [PstFile::read_message_properties] *)
Definition read_message_properties (message_nid : Z) : pio message_properties :=
  read_message_properties_with_opts message_nid {| compute_body_digest := false |}.

(** HTML: the string property, else the binary one. *)
Definition body_html (pc : prop_context) : pres (option (list byte)) :=
  s ← get_str pc PID_TAG_BODY_HTML;
  match s with Some s => Ok (Some s) | None => get_binary pc PID_TAG_BODY_HTML end.

(** The conversation index: the binary property, else the string one. *)
Definition conversation_index (pc : prop_context) : pres (option (list byte) * option bstring) :=
  bytes ← get_binary pc PID_TAG_CONVERSATION_INDEX;
  match bytes with
  | Some _ => Ok (bytes, None)
  | None => s ← get_str pc PID_TAG_CONVERSATION_INDEX; Ok (bytes, s)
  end.

Definition extract_fields (message_nid : Z) (pc : prop_context)
    : pres (list recipient → bool → extracted_message) :=
  message_id ← get_str pc PID_TAG_INTERNET_MESSAGE_ID;
  subject ← get_str pc PID_TAG_SUBJECT;
  submit_time ← get_time pc PID_TAG_CLIENT_SUBMIT_TIME;
  delivery_time ← get_time pc PID_TAG_MESSAGE_DELIVERY_TIME;
  sender ← sender_email pc;
  body_text ← get_str pc PID_TAG_BODY;
  display_to ← get_str pc PID_TAG_DISPLAY_TO;
  display_cc ← get_str pc PID_TAG_DISPLAY_CC;
  display_bcc ← get_str pc PID_TAG_DISPLAY_BCC;
  message_size ← get_i32 pc PID_TAG_MESSAGE_SIZE;
  has_attachments ← get_bool pc PID_TAG_HAS_ATTACHMENTS;
  html ← body_html pc;
  in_reply_to ← get_str pc PID_TAG_IN_REPLY_TO_ID;
  references ← get_str pc PID_TAG_INTERNET_REFERENCES;
  conversation_topic ← get_str pc PID_TAG_CONVERSATION_TOPIC;
  index ← conversation_index pc;
  message_class ← get_str pc PID_TAG_MESSAGE_CLASS;
  start_date ← get_time pc PID_TAG_START_DATE;
  end_date ← get_time pc PID_TAG_END_DATE;
  location ← get_str pc PID_TAG_LOCATION;
  flags ← message_flags pc;
  Ok (λ recipients crc_suspect,
    {| em_nid := message_nid; em_message_id := message_id; em_subject := subject;
       em_sender_email := sender; em_display_to := display_to; em_display_cc := display_cc;
       em_display_bcc := display_bcc; em_submit_time := submit_time;
       em_delivery_time := delivery_time; em_body_text := body_text; em_body_html := html;
       em_message_size := message_size; em_has_attachments := has_attachments;
       em_in_reply_to := in_reply_to; em_references := references;
       em_conversation_topic := conversation_topic;
       em_conversation_index_bytes := index.1; em_conversation_index_string := index.2;
       em_message_class := message_class; em_start_date := start_date; em_end_date := end_date;
       em_location := location; em_crc_suspect := crc_suspect; em_recipients := recipients;
       em_message_flags := flags |}).

(** [PstFile::read_message_extract] *)
Definition read_message_extract (message_nid : Z) : pio extracted_message :=
  scoped (
    prop_ctx ← load_pc (reader pst) (bbt pst) crypt (nbt pst) message_nid;
    mk ← quiet (extract_fields message_nid prop_ctx);
    recipients ← list_recipients message_nid;
    mret (mk recipients)).
End reader.

Example filetime_epoch_unix : filetime_to_rfc3339 116444736000000000 = Some "1970-01-01T00:00:00Z"%string.
Proof. vm_compute. reflexivity. Qed.
Example calendar_classes :
  map (λ s, is_calendar_message_class (bytes_of s))
    ["IPM.Note"; " ipm.appointment "; "IPM.Schedule.Meeting.Resp.Pos"; "IPM.Schedule.Meeting"]%string
  = [false; true; true; false].
Proof. vm_compute. reflexivity. Qed.

(** * Facts about reading messages

    Reading a message is total, the recipients never fail, the two readers agree,
    and the damage flag is what the telemetry counters say. *)

(** ** Scopes *)

Section scopes.
Context {A : Type}.

Lemma outcome_scoped (m : pio (bool → A)) :
  outcome (scoped m) = (f ← outcome m; Ok (f (existsb block_mismatch (events m)))).
Proof. by destruct m as [[] l]. Qed.

Lemma events_scoped (m : pio (bool → A)) : events (scoped m) = events m.
Proof. by destruct m as [[] l]. Qed.
End scopes.

Lemma block_mismatch_hits (l : list (Z * tele_event)) :
  existsb (λ e, hits block_crc_counter e.2 || hits block_bid_counter e.2) l = existsb block_mismatch l.*2.
Proof. induction l as [|[now e] l IH]; [done|]. cbn [existsb fmap list_fmap snd]. rewrite IH. by destruct e. Qed.

(** ** Totality *)

Lemma soft_never_panics {A} (m : pres (option A)) : never_panics m → never_panics (soft m).
Proof. by destruct m. Qed.

Section fields.
Context (pc : prop_context) (Hpc : heap_wf (pc_heap pc)).

Lemma get_as_never_panics {A} (view : property_value → option A) id : never_panics (get_as pc view id).
Proof. unfold get_as. apply holds_bind. eapply holds_mono; [by apply pc_get_never_panics|done]. Qed.

Lemma get_str_never_panics id : never_panics (get_str pc id).
Proof. unfold get_str. apply holds_bind. eapply holds_mono; [apply get_as_never_panics|done]. Qed.
End fields.

Create HintDb total.
#[export] Hint Resolve soft_never_panics get_as_never_panics get_str_never_panics : total.
#[export] Hint Extern 1 (never_panics (get_string _ _)) => apply get_as_never_panics : total.
#[export] Hint Extern 1 (never_panics (get_i32 _ _)) => apply get_as_never_panics : total.
#[export] Hint Extern 1 (never_panics (get_bool _ _)) => apply get_as_never_panics : total.
#[export] Hint Extern 1 (never_panics (get_time _ _)) => apply get_as_never_panics : total.
#[export] Hint Extern 1 (never_panics (get_binary _ _)) => apply get_as_never_panics : total.

Ltac change_never_panics := match goal with |- holds ?m _ => change (never_panics m) end.

(** One read of a sequence that cannot panic. *)
Ltac total_step :=
  apply holds_bind; apply (holds_mono _ (λ _, True)); [change_never_panics; solve [eauto with total]|intros ? _].

Section total.
Context (pc : prop_context) (Hpc : heap_wf (pc_heap pc)).

Lemma sender_never_panics : never_panics (sender_email pc).
Proof. unfold sender_email. by repeat total_step. Qed.
Lemma flags_never_panics : never_panics (message_flags pc).
Proof. unfold message_flags. by repeat total_step. Qed.
Lemma html_never_panics : never_panics (body_html pc).
Proof. unfold body_html. total_step. case_match; [done|change_never_panics; auto with total]. Qed.
Lemma conversation_index_never_panics : never_panics (conversation_index pc).
Proof. unfold conversation_index. total_step. case_match; [done|by total_step]. Qed.

(** The body flags exclude each other and a body that was read; the preview has at
    most 4096 characters; there is a digest only when it was asked for. *)
Record body_ok (opts : message_read_opts) (b : body_read) : Prop := {
  body_flags : (br_incomplete b && br_unavailable b) = false;
  body_flag_none : br_incomplete b || br_unavailable b = true → br_preview b = None;
  body_digest : is_Some (br_sha256 b) ↔ compute_body_digest opts = true ∧ is_Some (br_preview b);
  body_preview : ∀ p, br_preview b = Some p → (length (chars p) <= 4096)%nat }.

Lemma preview_length b : (length (chars (preview_of b)) <= 4096)%nat.
Proof.
  unfold preview_of. destruct (_ <? _)%nat eqn:E; [|apply Nat.ltb_ge in E; lia].
  pose proof (take_drop 4096 (chars b)) as Hd. symmetry in Hd. apply chars_split in Hd as [-> _].
  rewrite length_take. lia.
Qed.

Lemma read_body_ok `{Platform, Sha256} opts : holds (read_body opts pc) (body_ok opts).
Proof.
  unfold read_body. pose proof (get_str_never_panics pc Hpc PID_TAG_BODY) as Hn.
  destruct (get_str pc PID_TAG_BODY) as [[b|]|e| |]; simpl in *; try done.
  - constructor; simpl; [done|done| |intros p [= <-]; apply preview_length].
    destruct (compute_body_digest opts); simpl; split; try (intros [? ?]; done); intros [??]; done.
  - constructor; simpl; [done|done| |done]. split; [by intros []|by intros [_ []]].
  - constructor; simpl; [by destruct (is_truncation_or_crc e)|done| |done].
    split; [by intros []|by intros [_ []]].
Qed.
End total.
#[export] Hint Resolve sender_never_panics flags_never_panics html_never_panics conversation_index_never_panics : total.

(** ** Recipients *)

Section recipients.
Context `{Crc : Crc32} (pst : pst_file) (Hwf : bbt_wf (bbt pst)).

Lemma opt_row_string_never_panics s : never_panics s → never_panics (opt_row_string s).
Proof.
  intros Hs. unfold opt_row_string. apply holds_bind.
  eapply holds_mono; [by apply soft_never_panics|done].
Qed.

Lemma table_recipients_never_panics t : table_wf t → never_panics (table_recipients t).
Proof.
  intros Ht. unfold table_recipients. eapply holds_mono; [apply (holds_rmap _ (λ _, True))|done].
  intros row _. unfold recipient_row. apply holds_bind.
  eapply holds_mono; [apply get_row_u32_never_panics; [done|lia]|]. intros ty _.
  repeat (apply holds_bind; eapply holds_mono;
    [apply opt_row_string_never_panics, get_row_string_never_panics; [done|lia]|intros ? _]). done.
Qed.

Lemma list_recipients_inner_never_panics nid : never_panics (outcome (list_recipients_inner pst nid)).
Proof.
  unfold list_recipients_inner. destruct (nbt_get _ _) as [e|]; [|done]. destruct (is_null _); [done|].
  autorewrite with outcome. apply holds_bind.
  eapply holds_mono; [by apply list_subnode_entries_never_panics|]. intros entries _.
  destruct (find _ entries) as [r|]; [|done]. destruct (is_null _); [done|].
  autorewrite with outcome. apply holds_bind. eapply holds_mono; [by apply read_block_data_bound|]. intros data _.
  autorewrite with outcome. apply holds_bind. apply holds_attempt; [|done].
  eapply holds_mono; [apply load_inner_wf|].
  - intros res [= <-]. by apply block_resolver_lawful.
  - intros t Ht. by apply table_recipients_never_panics.
Qed.

(** Whatever the file holds, the recipients are a list. *)
Lemma list_recipients_ok nid : ∃ rows, outcome (list_recipients pst nid) = Ok rows.
Proof.
  unfold list_recipients. pose proof (list_recipients_inner_never_panics nid) as Hn.
  destruct (list_recipients_inner pst nid) as [[rows|e| |] l]; cbn in *; try done; eauto.
Qed.
End recipients.

(** ** The two readers *)

Section readers.
Context `{Platform, Sha256}.

(** What the scanner's reader returns for a message that the extracting reader
    can read in full. *)
Definition properties_of_extract (opts : message_read_opts) (x : extracted_message) : message_properties :=
  let digest := b ← em_body_text x; if compute_body_digest opts then Some (hash_full_body b) else None in
  {| mp_nid := em_nid x; mp_message_id := em_message_id x; mp_subject := em_subject x;
     mp_submit_time := em_submit_time x; mp_delivery_time := em_delivery_time x;
     mp_display_bcc := em_display_bcc x; mp_sender_email := em_sender_email x;
     mp_body_preview := preview_of <$> em_body_text x; mp_display_to := em_display_to x;
     mp_display_cc := em_display_cc x; mp_message_size := em_message_size x;
     mp_has_attachments := em_has_attachments x; mp_body_incomplete := false;
     mp_body_unavailable := false; mp_body_sha256 := fst <$> digest;
     mp_body_char_len := snd <$> digest; mp_crc_suspect := em_crc_suspect x;
     mp_recipients := em_recipients x; mp_message_flags := em_message_flags x |}.

Lemma soft_ok {A} (m : pres (option A)) a : m = Ok a → soft m = Ok a.
Proof. by intros ->. Qed.

Lemma read_body_full opts pc b :
  get_str pc PID_TAG_BODY = Ok b →
  ∃ r, read_body opts pc = Ok r ∧ br_preview r = preview_of <$> b ∧ br_incomplete r = false ∧
    br_unavailable r = false ∧
    (br_sha256 r, br_char_len r) =
      let digest := b ← b; if compute_body_digest opts then Some (hash_full_body b) else None in
      (fst <$> digest, snd <$> digest).
Proof.
  intros E. unfold read_body. rewrite E. destruct b as [b|]; eexists; (split; [reflexivity|]); split_and!; try done.
  by destruct opts as [[]].
Qed.

Lemma fields_agree opts nid pc mk :
  extract_fields nid pc = Ok mk →
  ∃ mk', message_fields nid opts pc = Ok mk' ∧
    ∀ rows c, mk' rows c = properties_of_extract opts (mk rows c).
Proof.
  unfold extract_fields.
  intros (mid & E1 & (sub & E2 & (st & E3 & (dt & E4 & (sd & E5 & (body & E6 & (to & E7 & (cc & E8 &
    (bcc & E9 & (sz & E10 & (att & E11 & Hrest)%bind_ok_inv)%bind_ok_inv)%bind_ok_inv)%bind_ok_inv)%bind_ok_inv)
    %bind_ok_inv)%bind_ok_inv)%bind_ok_inv)%bind_ok_inv)%bind_ok_inv)%bind_ok_inv.
  repeat (apply bind_ok_inv in Hrest as (? & ? & Hrest)). injection Hrest as <-.
  destruct (read_body_full opts pc body E6) as (r & Er & Hp & Hi & Hu & Hd).
  unfold message_fields. rewrite E1, bind_ok, E2, bind_ok, E3, bind_ok, (soft_ok _ _ E4), bind_ok,
    (soft_ok _ _ E9), bind_ok, (soft_ok _ _ E8), bind_ok, E5, bind_ok, Er, bind_ok, E7, bind_ok, E10, bind_ok, E11, bind_ok.
  match goal with Hf : message_flags pc = Ok _ |- _ => rewrite Hf, bind_ok end.
  eexists. split; [reflexivity|]. intros rows c. unfold properties_of_extract. cbn in Hd |- *.
  injection Hd as -> ->. by rewrite Hp, Hi, Hu.
Qed.
End readers.

(** ** Theorems *)

Section theorems.
Context `{Crc : Crc32, Platform, Sha256} (pst : pst_file) (Hwf : bbt_wf (bbt pst)).

Lemma load_pc_wf nid :
  holds (outcome (load_pc (reader pst) (bbt pst) (header_crypt (header pst)) (nbt pst) nid)) (λ pc, heap_wf (pc_heap pc)).
Proof.
  unfold load_pc. autorewrite with outcome. destruct (nbt_get _ _); [|done]. cbn [ok_or]. rewrite bind_ok.
  by apply load_pc_from_bids_wf.
Qed.

(** Both readers load the context, read its fields and then list the recipients. *)
Lemma read_holds {A} nid (fields : prop_context → pres (list recipient → bool → A)) (Q : A → Prop) :
  (∀ pc, heap_wf (pc_heap pc) → holds (fields pc) (λ mk, ∀ rows c, Q (mk rows c))) →
  holds (outcome (scoped (
    pc ← load_pc (reader pst) (bbt pst) (header_crypt (header pst)) (nbt pst) nid;
    mk ← quiet (fields pc); rows ← list_recipients pst nid; mret (mk rows)))) Q.
Proof.
  intros Hf. rewrite outcome_scoped. apply holds_bind.
  eapply (holds_mono _ (λ f : bool → A, ∀ c, Q (f c))); [|intros f Hq; apply Hq].
  autorewrite with outcome. apply holds_bind. eapply holds_mono; [apply load_pc_wf|]. intros pc Hpc.
  autorewrite with outcome. apply holds_bind. eapply holds_mono; [by apply Hf|]. intros mk Hmk.
  autorewrite with outcome. destruct (list_recipients_ok pst Hwf nid) as [rows ->]. intros c. apply Hmk.
Qed.

(** C31 Reading a message is total on any file: both readers return a message or an
    error, the recipients are always a list (an unreadable table is empty), the
    body is never both incomplete and unavailable and is absent when it is either,
    a digest is there exactly when it was asked for and the body was read, and the
    preview has at most 4096 characters. *)
Theorem message_reads_total nid opts :
  (∃ rows, outcome (list_recipients pst nid) = Ok rows) ∧
  never_panics (outcome (read_message_extract pst nid)) ∧
  holds (outcome (read_message_properties_with_opts pst nid opts)) (λ m,
    mp_body_incomplete m && mp_body_unavailable m = false ∧
    (mp_body_incomplete m || mp_body_unavailable m = true → mp_body_preview m = None) ∧
    (is_Some (mp_body_sha256 m) ↔ compute_body_digest opts = true ∧ is_Some (mp_body_preview m)) ∧
    (∀ p, mp_body_preview m = Some p → (length (chars p) <= 4096)%nat)).
Proof.
  split_and!; [by apply list_recipients_ok| |].
  - apply read_holds. intros pc Hpc. unfold extract_fields. repeat total_step. done.
  - apply read_holds. intros pc Hpc. unfold message_fields. do 7 total_step.
    apply holds_bind. eapply holds_mono; [by apply read_body_ok|]. intros body [].
    repeat total_step. intros rows c. by split_and!.
Qed.
End theorems.

Lemma outcome_read_inv `{Crc : Crc32} pst {A} nid (fields : prop_context → pres (list recipient → bool → A)) x :
  outcome (scoped (
    pc ← load_pc (reader pst) (bbt pst) (header_crypt (header pst)) (nbt pst) nid;
    mk ← quiet (fields pc); rows ← list_recipients pst nid; mret (mk rows))) = Ok x →
  ∃ pc mk rows c, fields pc = Ok mk ∧ x = mk rows c ∧
    ∀ B (fields' : prop_context → pres (list recipient → bool → B)) mk', fields' pc = Ok mk' →
      scoped (pc ← load_pc (reader pst) (bbt pst) (header_crypt (header pst)) (nbt pst) nid;
        mk ← quiet (fields' pc); rows ← list_recipients pst nid; mret (mk rows)) =
      (Ok (mk' rows c), events (scoped (
        pc ← load_pc (reader pst) (bbt pst) (header_crypt (header pst)) (nbt pst) nid;
        mk ← quiet (fields pc); rows ← list_recipients pst nid; mret (mk rows)))).
Proof.
  destruct (load_pc _ _ _ _ _) as [[pc|e| |] l1] eqn:E1; try done.
  destruct (fields pc) as [mk|e| |] eqn:E2; cbn; rewrite E2; cbn; try done.
  destruct (list_recipients pst nid) as [[rows|e| |] l2] eqn:E3; cbn; try done.
  intros [= <-]. eexists pc, mk, rows, _. split_and!; [done|reflexivity|].
  intros B fields' mk' E. rewrite E. done.
Qed.

(** C30 The scanner and the extractor read the same message: when the full extract
    succeeds, the scanner's read succeeds with the same fields, its preview is the
    first 4096 characters of the extracted body, its digest is the engine's hash of
    that whole body, no body flag is set, and both reads report the same events. *)
Theorem readers_agree `{Crc : Crc32, Platform, Sha256} pst nid opts x :
  outcome (read_message_extract pst nid) = Ok x →
  read_message_properties_with_opts pst nid opts =
    (Ok (properties_of_extract opts x), events (read_message_extract pst nid)).
Proof.
  intros Hx. unfold read_message_extract in Hx.
  apply outcome_read_inv in Hx as (pc & mk & rows & c & Hf & -> & Hsame).
  apply (fields_agree opts) in Hf as (mk' & Hf' & Heq). rewrite <- Heq.
  exact (Hsame _ (message_fields nid opts) mk' Hf').
Qed.

(** C40 The damage flag of a message is what telemetry counts: under any logging
    configuration, clock and starting counters with room, the flag that a reader
    returns is set exactly when the thread's block mismatch counters grew while it
    ran, and also exactly when the read reported a block CRC or block ID mismatch. *)
Theorem crc_suspect_exact `{Crc : Crc32, Platform, Sha256} pst nid opts cfg nows s
    (Hs : 0 <= block_crc (tls s) ∧ 0 <= block_bid (tls s)) :
  let after es := note_all cfg (zip nows es) s in
  let room (es : list tele_event) :=
    length nows = length es ∧ block_crc (tls s) + block_bid (tls s) + 2 * zlen es < U64_MAX in
  let flag es := scope_exit (tls_block_mismatch_total s) (after es) in
  (∀ m es, read_message_properties_with_opts pst nid opts = (Ok m, es) → room es →
     mp_crc_suspect m = flag es ∧ (mp_crc_suspect m = true ↔ ∃ e, e ∈ es ∧ block_mismatch e = true)) ∧
  (∀ x es, read_message_extract pst nid = (Ok x, es) → room es →
     em_crc_suspect x = flag es ∧ (em_crc_suspect x = true ↔ ∃ e, e ∈ es ∧ block_mismatch e = true)).
Proof.
  assert (Hflag : ∀ es : list tele_event, length nows = length es →
    block_crc (tls s) + block_bid (tls s) + 2 * zlen es < U64_MAX →
    existsb block_mismatch es = scope_exit (tls_block_mismatch_total s) (note_all cfg (zip nows es) s)).
  { intros es Hl Hr. rewrite message_scope_detects; [|done|].
    - rewrite block_mismatch_hits, snd_zip by lia. done.
    - unfold zlen in *. rewrite length_zip_with. lia. }
  assert (Hex : ∀ es, existsb block_mismatch es = true ↔ ∃ e, e ∈ es ∧ block_mismatch e = true).
  { intros es. rewrite existsb_exists. by setoid_rewrite list_elem_of_In. }
  cbv zeta. split; intros m es E [Hl Hr].
  - assert (mp_crc_suspect m = existsb block_mismatch es) as ->; [|by rewrite <- Hflag].
    unfold read_message_properties_with_opts, scoped in E.
    destruct (_ ≫= _) as [[f| | |] l] eqn:El in E; try done. injection E as <- ->.
    apply (f_equal outcome) in El. autorewrite with outcome in El.
    apply bind_ok_inv in El as (pc & _ & El). autorewrite with outcome in El.
    apply bind_ok_inv in El as (mk & Hmk & El). autorewrite with outcome in El.
    apply bind_ok_inv in El as (rows & _ & [= <-]). unfold message_fields in Hmk.
    repeat (apply bind_ok_inv in Hmk as (? & _ & Hmk)). by injection Hmk as <-.
  - assert (em_crc_suspect m = existsb block_mismatch es) as ->; [|by rewrite <- Hflag].
    unfold read_message_extract, scoped in E.
    destruct (_ ≫= _) as [[f| | |] l] eqn:El in E; try done. injection E as <- ->.
    apply (f_equal outcome) in El. autorewrite with outcome in El.
    apply bind_ok_inv in El as (pc & _ & El). autorewrite with outcome in El.
    apply bind_ok_inv in El as (mk & Hmk & El). autorewrite with outcome in El.
    apply bind_ok_inv in El as (rows & _ & [= <-]). unfold extract_fields in Hmk.
    repeat (apply bind_ok_inv in Hmk as (? & _ & Hmk)). by injection Hmk as <-.
Qed.

(** ** A message whose body is in a subnode *)

#[local] Existing Instances ascii prefix_digest.

Definition message_pst (lcb : Z) : pst_file :=
  {| reader := body_file lcb; header := header cyclic_pst;
     nbt := {[ 0x24 := {| nbt_nid := 0x24; bid_data := 0x14; bid_sub := 0x32; nid_parent := 0 |} ]};
     bbt := body_bbt |}.
Definition extracted_body (flag : bool) : extracted_message :=
  {| em_nid := 0x24; em_message_id := None; em_subject := None; em_sender_email := None;
     em_display_to := None; em_display_cc := None; em_display_bcc := None; em_submit_time := None;
     em_delivery_time := None; em_body_text := Some (bytes_of "AB"); em_body_html := None;
     em_message_size := None; em_has_attachments := None; em_in_reply_to := None; em_references := None;
     em_conversation_topic := None; em_conversation_index_bytes := None;
     em_conversation_index_string := None; em_message_class := None; em_start_date := None;
     em_end_date := None; em_location := None; em_crc_suspect := flag; em_recipients := [];
     em_message_flags := None |}.

Lemma message_reads_total_witness :
  ∃ rows, outcome (list_recipients (message_pst 4) 0x24) = Ok rows.
Proof. exact (proj1 (message_reads_total (message_pst 4) body_bbt_wf 0x24 {| compute_body_digest := true |})). Defined.

Lemma readers_agree_witness :
  outcome (read_message_properties_with_opts (message_pst 4) 0x24 {| compute_body_digest := true |}) =
  Ok (properties_of_extract {| compute_body_digest := true |} (extracted_body true)).
Proof.
  rewrite (readers_agree (message_pst 4) 0x24 {| compute_body_digest := true |} (extracted_body true));
    [reflexivity|vm_compute; reflexivity].
Defined.

Definition message_events : list tele_event := Eval vm_compute in events (read_message_extract (message_pst 4) 0x24).

Lemma crc_suspect_exact_witness :
  true = scope_exit (tls_block_mismatch_total reset)
    (note_all {| first_n := 0; summary_interval := 30 |} (zip (replicate (length message_events) 0) message_events) reset).
Proof.
  refine (proj1 (proj2 (crc_suspect_exact (message_pst 4) 0x24 {| compute_body_digest := true |}
    {| first_n := 0; summary_interval := 30 |} (replicate (length message_events) 0) reset _)
    (extracted_body true) message_events _ _)).
  - split; vm_compute; discriminate.
  - vm_compute. reflexivity.
  - split; [by rewrite length_replicate|vm_compute; reflexivity].
Defined.
