(* ===== verification/NamedProp.v ===== *)
(** * Named properties (pst-reader/src/messaging/named_prop.rs)

    The store's Name-to-ID map: three binary streams of the property context at
    node 0x61 hold the property-set GUIDs, one 8-byte NAMEID per named property
    and the names.  A map that is missing or damaged is empty or partial and
    flagged [degraded]; loading it never fails. *)

From stdpp Require Import countable.
From S2P Require Import Prelude Telemetry PstError Crypt Nid Header Btree Block BlockFacts Subnode Heap Bth Utf PropContext PropContextFacts Folder Message.
#[local] Open Scope Z_scope.

Definition PID_NAMEID_GUID_STREAM : Z := 0x0002.
Definition PID_NAMEID_ENTRY_STREAM : Z := 0x0003.
Definition PID_NAMEID_STRING_STREAM : Z := 0x0004.
Definition NPID_BASE : Z := 0x8000.

Definition PS_MAPI : list byte :=
  map byte.of_Z [0x28; 0x03; 0x02; 0x00; 0x00; 0x00; 0x00; 0x00; 0xC0; 0x00; 0x00; 0x00; 0x00; 0x00; 0x00; 0x46].
Definition PS_PUBLIC_STRINGS : list byte :=
  map byte.of_Z [0x29; 0x03; 0x02; 0x00; 0x00; 0x00; 0x00; 0x00; 0xC0; 0x00; 0x00; 0x00; 0x00; 0x00; 0x00; 0x46].
Definition PSETID_ATTACHMENT : list byte :=
  map byte.of_Z [0x7F; 0x5F; 0x35; 0x96; 0xE1; 0x59; 0xD0; 0x47; 0x99; 0xA7; 0x46; 0x51; 0x5C; 0x18; 0x3B; 0x54].

Definition NAME_ATTACHMENT_PROVIDER_TYPE : rstring := lit "AttachmentProviderType".
Definition NAME_ATTACHMENT_PERMISSION_TYPE : rstring := lit "AttachmentPermissionType".

(** ** Keys and the map *)

(** [NamedPropId], [NamedPropKey] *)
Inductive named_prop_id := Lid (lid : Z) | PropName (name : rstring).
Record named_prop_key := { key_guid : list byte; key_kind : named_prop_id }.

#[export] Instance named_prop_id_eq_dec : EqDecision named_prop_id.
Proof. solve_decision. Defined.
#[export] Instance named_prop_key_eq_dec : EqDecision named_prop_key.
Proof. solve_decision. Defined.
#[export] Instance named_prop_key_countable : Countable named_prop_key.
Proof.
  refine (inj_countable'
    (λ k, (map u8 (key_guid k), match key_kind k with Lid l => inl l | PropName n => inr n end))
    (λ p : list Z * (Z + rstring), {| key_guid := map byte.of_Z p.1;
            key_kind := match p.2 with inl l => Lid l | inr n => PropName n end |}) _).
  intros [g k]. cbn. f_equal.
  - rewrite map_map. rewrite <- (map_id g) at 2. apply map_ext. intros b. apply byte.of_Z_unsigned.
  - by destruct k.
Defined.

(** [NameIdMap]; a hash map is a finite map. *)
Record name_id_map := { forward : gmap named_prop_key Z; reverse_map : gmap Z named_prop_key; degraded : bool }.

(** [NameIdMap::empty_degraded], [empty], [len] *)
Definition empty_degraded : name_id_map := {| forward := ∅; reverse_map := ∅; degraded := true |}.
Definition empty_map : name_id_map := {| forward := ∅; reverse_map := ∅; degraded := false |}.
Definition nim_len (m : name_id_map) : Z := Z.of_nat (size (forward m)).

(** [NameIdMap::resolve], [resolve_name], [resolve_lid], [reverse] *)
Definition resolve (m : name_id_map) (key : named_prop_key) : option Z := forward m !! key.
Definition resolve_name (m : name_id_map) (guid : list byte) (name : rstring) : option Z :=
  resolve m {| key_guid := guid; key_kind := PropName name |}.
Definition resolve_lid (m : name_id_map) (guid : list byte) (lid : Z) : option Z :=
  resolve m {| key_guid := guid; key_kind := Lid lid |}.
Definition reverse_lookup (m : name_id_map) (npid : Z) : option named_prop_key := reverse_map m !! npid.

(** [attachment_provider_type_npid], [attachment_permission_type_npid] *)
Definition attachment_provider_type_npid (m : name_id_map) : option Z :=
  resolve_name m PSETID_ATTACHMENT NAME_ATTACHMENT_PROVIDER_TYPE.
Definition attachment_permission_type_npid (m : name_id_map) : option Z :=
  resolve_name m PSETID_ATTACHMENT NAME_ATTACHMENT_PERMISSION_TYPE.

(** ** Parsing *)

(** [resolve_guid_index] *)
Definition resolve_guid_index (w_guid : Z) (guid_stream : list byte) : pres (option (list byte)) :=
  if w_guid =? 0 then Ok None
  else if w_guid =? 1 then Ok (Some PS_MAPI)
  else if w_guid =? 2 then Ok (Some PS_PUBLIC_STRINGS)
  else
    let off := (w_guid - 3) * 16 in
    if zlen guid_stream <? off + 16 then Ok None
    else g ← slice guid_stream off (off + 16); Ok (Some g).

(** The units before the first NUL. *)
Fixpoint until_nul (units : list Z) : list Z :=
  match units with [] => [] | u :: us => if u =? 0 then [] else u :: until_nul us end.

(** [read_string_stream_name]; offsets are below 2^33 and do not overflow [usize]. *)
Definition read_string_stream_name (string_stream : list byte) (offset : Z) : pres (option rstring) :=
  if zlen string_stream <? offset + 4 then Ok None
  else
    len ← le_at string_stream offset 4;
    let data_start := offset + 4 in
    let data_end := data_start + len in
    if zlen string_stream <? data_end then Ok None
    else
      bytes ← slice string_stream data_start data_end;
      let even := zlen bytes - zlen bytes mod 2 in
      pairs ← slice bytes 0 even;
      Ok (from_utf16 (until_nul (u16_units pairs))).

(** [parse_nameid_entry] *)
Definition parse_nameid_entry (entry guid_stream string_stream : list byte) : pres (option (named_prop_key * Z)) :=
  if zlen entry <? 8 then Ok None
  else
    property_id ← le_at entry 0 4;
    guid_n ← le_at entry 4 2;
    prop_idx ← le_at entry 6 2;
    let is_string := negb (Z.land guid_n 1 =? 0) in
    let w_guid := Z.shiftr guid_n 1 in
    guid ← resolve_guid_index w_guid guid_stream;
    match guid with
    | None => Ok None
    | Some guid =>
        kind ← (if is_string
                then name ← read_string_stream_name string_stream property_id; Ok (option_map PropName name)
                else Ok (Some (Lid (wrap 16 property_id))));
        match kind with
        | None => Ok None
        | Some kind =>
            let npid := Z.min (NPID_BASE + prop_idx) 0xFFFF in
            Ok (Some ({| key_guid := guid; key_kind := kind |}, npid))
        end
    end.

Definition set_degraded (m : name_id_map) : name_id_map :=
  {| forward := forward m; reverse_map := reverse_map m; degraded := true |}.

(** One iteration of [from_streams]: a later entry replaces an earlier one. *)
Definition add_entry (guid_stream string_stream : list byte) (m : name_id_map) (chunk : list byte) : pres name_id_map :=
  match parse_nameid_entry chunk guid_stream string_stream with
  | Ok (Some (key, npid)) =>
      Ok {| forward := <[key := npid]> (forward m); reverse_map := <[npid := key]> (reverse_map m);
            degraded := degraded m |}
  | Ok None => Ok (set_degraded m)
  | Err _ => Ok (set_degraded m)
  | Panic => Panic
  | NoFuel => NoFuel
  end.

(** The [while] loop; [fuel] counts iterations. *)
Fixpoint streams_loop (fuel : nat) (guid_stream entry_stream string_stream : list byte) (offset : Z)
    (m : name_id_map) : pres (name_id_map * Z) :=
  match fuel with
  | O => NoFuel
  | S fuel =>
      if offset + 8 <=? zlen entry_stream then
        chunk ← slice entry_stream offset (offset + 8);
        m ← add_entry guid_stream string_stream m chunk;
        streams_loop fuel guid_stream entry_stream string_stream (offset + 8) m
      else Ok (m, offset)
  end.

(** [NameIdMap::from_streams] *)
Definition from_streams (guid_stream entry_stream string_stream : list byte) : pres name_id_map :=
  if bool_decide (entry_stream = []) then Ok empty_map
  else
    mo ← streams_loop (S (length entry_stream)) guid_stream entry_stream string_stream 0 empty_map;
    Ok (if mo.2 <? zlen entry_stream then set_degraded mo.1 else mo.1).

(** [NameIdMap::from_prop_context] *)
Definition from_prop_context (pc : prop_context) : pres name_id_map :=
  guid ← get_binary pc PID_NAMEID_GUID_STREAM;
  entry ← get_binary pc PID_NAMEID_ENTRY_STREAM;
  strings ← get_binary pc PID_NAMEID_STRING_STREAM;
  from_streams (default [] guid) (default [] entry) (default [] strings).

(** ** Encoding *)

(** Zeros up to a multiple of four bytes. *)
Definition pad4 (out : list byte) : list byte := out ++ replicate (Z.to_nat (- zlen out mod 4)) Byte.x00.

(** [encode_string_stream_entry] *)
Definition encode_string_stream_entry (name : rstring) : list byte :=
  let utf16 := utf16le_bytes name in
  pad4 (le_split 4 (wrap 32 (zlen utf16)) ++ utf16).

(** [encode_nameid_entry] *)
Definition encode_nameid_entry (property_id : Z) (is_string : bool) (w_guid prop_idx : Z) : list byte :=
  let guid_n := Z.lor (wrap 16 (Z.shiftl w_guid 1)) (if is_string then 1 else 0) in
  le_split 4 property_id ++ le_split 2 guid_n ++ le_split 2 prop_idx.

(** ** Loading, cached in the handle *)

Section load.
Context `{Crc : Crc32} (pst : pst_file).

(** [PstFile::load_name_id_map_uncached] *)
Definition load_name_id_map_uncached : pio name_id_map :=
  pc ← attempt (load_pc (reader pst) (bbt pst) (header_crypt (header pst)) (nbt pst) NID_NAME_TO_ID_MAP);
  match pc with
  | Some pc => m ← attempt (quiet (from_prop_context pc)); mret (default empty_degraded m)
  | None => mret empty_degraded
  end.

(** [PstFile::name_id_map]: the map and the cache that it leaves. *)
Definition load_name_id_map (cache : option name_id_map) : pio (name_id_map * option name_id_map) :=
  match cache with
  | Some m => mret (m, cache)
  | None => m ← load_name_id_map_uncached; mret (m, Some m)
  end.
End load.

(** * Facts about named properties

    Loading the Name-to-ID map never fails on any bytes, and parsing inverts
    encoding: streams that list names under one property set give back each name
    with its identifier. *)

(** ** Totality *)

Lemma read_name_never_panics strings off : 0 <= off → never_panics (read_string_stream_name strings off).
Proof.
  intros Ho. unfold read_string_stream_name. destruct (zlen strings <? off + 4) eqn:E; [done|]. bool_to_Z.
  rewrite le_at_ok by lia. rewrite bind_ok. pose proof (le_val_range strings off 4 ltac:(lia)) as Hr.
  cbv zeta. destruct (zlen strings <? _) eqn:E2; [done|]. bool_to_Z.
  rewrite slice_ok by lia. rewrite bind_ok.
  pose proof (Z.mod_pos_bound (zlen (sub strings (off + 4) (off + 4 + le_val strings off 4 - (off + 4)))) 2 ltac:(lia)).
  rewrite slice_ok; [done|lia| |]; rewrite zlen_sub in *; try lia.
  pose proof (Z.mod_le (off + 4 + le_val strings off 4 - (off + 4)) 2). lia.
Qed.

Lemma resolve_guid_never_panics w guids : 0 <= w → never_panics (resolve_guid_index w guids).
Proof.
  intros Hw. unfold resolve_guid_index. destruct (Z.eqb_spec w 0); [done|]. destruct (Z.eqb_spec w 1); [done|].
  destruct (Z.eqb_spec w 2); [done|]. cbv zeta. destruct (_ <? _) eqn:E; [done|]. bool_to_Z. by rewrite slice_ok by lia.
Qed.

(** An entry never fails and its identifier is a named property's. *)
Lemma parse_nameid_total entry guids strings :
  holds (parse_nameid_entry entry guids strings) (λ r, ∀ kn, r = Some kn → NPID_BASE <= kn.2 <= 0xFFFF).
Proof.
  unfold parse_nameid_entry. destruct (zlen entry <? 8) eqn:E; [done|]. bool_to_Z. run_reads.
  pose proof (le_val_range entry 0 4 ltac:(lia)). pose proof (le_val_range entry 4 2 ltac:(lia)).
  pose proof (le_val_range entry 6 2 ltac:(lia)).
  apply holds_bind. eapply holds_mono; [apply resolve_guid_never_panics; apply Z.shiftr_nonneg; lia|].
  intros [g|] _; [|done]. apply holds_bind. eapply (holds_mono _ (λ _, True)).
  - destruct (negb _); [|done]. apply holds_bind. eapply holds_mono; [apply read_name_never_panics; lia|done].
  - intros [k|] _; [|done]. intros kn [= <-]. unfold NPID_BASE in *. simpl. lia.
Qed.

Definition npids_ok (m : name_id_map) : Prop := map_Forall (λ _ npid, NPID_BASE <= npid <= 0xFFFF) (forward m).

Lemma add_entry_ok guids strings m chunk :
  npids_ok m → ∃ m', add_entry guids strings m chunk = Ok m' ∧ npids_ok m'.
Proof.
  intros Hm. unfold add_entry. pose proof (parse_nameid_total chunk guids strings) as Hp.
  destruct (parse_nameid_entry _ _ _) as [[[key npid]|]|e| |]; cbn in Hp; try done; eauto.
  eexists. split; [done|]. apply map_Forall_insert_2; [apply (Hp _ eq_refl)|done].
Qed.

Lemma streams_loop_ok fuel guids entries strings off m :
  0 <= off → (Z.to_nat (zlen entries - off) < fuel)%nat → npids_ok m →
  ∃ m' off', streams_loop fuel guids entries strings off m = Ok (m', off') ∧ npids_ok m'.
Proof.
  revert off m. induction fuel as [|fuel IH]; intros off m Ho Hf Hm; [lia|]. cbn [streams_loop].
  destruct (off + 8 <=? zlen entries) eqn:E; bool_to_Z; [|eauto].
  rewrite slice_ok, bind_ok by lia. destruct (add_entry_ok guids strings m (sub entries off (off + 8 - off)) Hm) as (m' & -> & Hm').
  rewrite bind_ok. apply IH; [lia|lia|done].
Qed.

Lemma from_streams_ok guids entries strings :
  ∃ m, from_streams guids entries strings = Ok m ∧ npids_ok m.
Proof.
  unfold from_streams. case_bool_decide; [eexists; split; [done|apply map_Forall_empty]|].
  destruct (streams_loop_ok (S (length entries)) guids entries strings 0 empty_map) as (m & off & -> & Hm);
    [lia|unfold zlen; lia|apply map_Forall_empty|].
  rewrite bind_ok. eexists. split; [done|]. by destruct (_ <? _).
Qed.

Lemma load_name_id_map_ok `{Crc : Crc32} pst cache :
  bbt_wf (bbt pst) → ∃ m, outcome (load_name_id_map pst cache) = Ok (m, Some m) ∧ (cache = None → npids_ok m).
Proof.
  intros Hwf. destruct cache as [m|]; [by exists m|].
  cut (∃ m, outcome (load_name_id_map_uncached pst) = Ok m ∧ npids_ok m).
  { intros (m & Hm & ?). exists m. unfold load_name_id_map. autorewrite with outcome. by rewrite Hm. }
  unfold load_name_id_map_uncached. autorewrite with outcome.
  pose proof (load_pc_wf pst Hwf NID_NAME_TO_ID_MAP) as Hpc.
  destruct (load_pc _ _ _ _ _) as [[pc|e| |] l]; cbn in Hpc |- *; try done.
  2: { eexists. split; [done|apply map_Forall_empty]. }
  pose proof (from_prop_context pc) as _.
  assert (holds (from_prop_context pc) npids_ok) as Hm.
  { unfold from_prop_context. repeat (apply holds_bind; eapply holds_mono; [by apply get_as_never_panics|intros ? _]).
    destruct (from_streams_ok (default [] a) (default [] a0) (default [] a1)) as (m & -> & ?). done. }
  destruct (from_prop_context pc) as [m|e| |]; cbn in *; try done; eauto.
  eexists. split; [done|apply map_Forall_empty].
Qed.

(** ** Reading what was encoded *)

(** A name that the string stream can hold. *)
Definition valid_name (n : rstring) : Prop := Forall scalar n ∧ (0 ∉ n) ∧ zlen (utf16le_bytes n) < 2 ^ 32.

Lemma encode_utf16_nonzero n : Forall scalar n → 0 ∉ n → Forall (λ u, u ≠ 0) (encode_utf16 n).
Proof.
  induction 1 as [|c n Hc Hn IH]; intros H0; [constructor|]. apply not_elem_of_cons in H0 as [Hc0 H0].
  change (encode_utf16 (c :: n)) with (encode_char c ++ encode_utf16 n). apply Forall_app. split; [|auto].
  unfold encode_char. destruct (c <? 0x10000) eqn:E; bool_to_Z; [repeat constructor; lia|].
  unfold scalar in Hc. apply Is_true_true in Hc. bool_to_Z.
  pose proof (Z.div_pos (c - 0x10000) 0x400). pose proof (Z.mod_pos_bound (c - 0x10000) 0x400).
  repeat constructor; lia.
Qed.

Lemma until_nul_id us : Forall (λ u, u ≠ 0) us → until_nul us = us.
Proof. induction 1 as [|u us Hu _ IH]; [done|]. cbn [until_nul]. by rewrite (proj2 (Z.eqb_neq _ _) Hu), IH. Qed.

Lemma pad4_app l : ∃ p, pad4 l = (l ++ p)%list.
Proof. by eexists. Qed.

Lemma read_name_mid pre n post :
  valid_name n →
  read_string_stream_name (pre ++ encode_string_stream_entry n ++ post) (zlen pre) = Ok (Some n).
Proof.
  intros (Hs & H0 & Hlen). unfold encode_string_stream_entry.
  destruct (pad4_app (le_split 4 (wrap 32 (zlen (utf16le_bytes n))) ++ utf16le_bytes n)) as [p ->].
  pose proof (zlen_nonneg (utf16le_bytes n)).
  assert (wrap 32 (zlen (utf16le_bytes n)) = zlen (utf16le_bytes n)) as -> by (apply Z.mod_small; lia).
  rewrite <- !(assoc_L (++)). unfold read_string_stream_name.
  pose proof (zlen_nonneg p). pose proof (zlen_nonneg post). pose proof (zlen_nonneg pre).
  rewrite (proj2 (Z.ltb_ge _ _)) by (rewrite !zlen_app, zlen_le_split; lia).
  rewrite le_at_mid, bind_ok by enc. cbv zeta.
  rewrite (proj2 (Z.ltb_ge _ _)) by (rewrite !zlen_app, zlen_le_split in *; lia).
  rewrite (assoc_L (++) pre), (slice_mid (pre ++ _) (utf16le_bytes n)), bind_ok by (rewrite ?zlen_app, ?zlen_le_split; lia).
  destruct (u16_units_split (encode_utf16 n)) as [Hu Hev]; [by apply encode_utf16_units|].
  change (encode_utf16 n ≫= le_split 2) with (utf16le_bytes n) in Hu, Hev.
  rewrite Hev, Z.sub_0_r, slice_ok, bind_ok by lia. unfold sub. rewrite Z.sub_0_r. change (Z.to_nat 0) with 0%nat. rewrite drop_0.
  rewrite take_ge by (unfold zlen; lia). rewrite Hu, until_nul_id by by apply encode_utf16_nonzero.
  rewrite <- (app_nil_r (encode_utf16 n)), from_utf16_encode by done. cbn. by rewrite app_nil_r.
Qed.

Lemma parse_encoded pid is_string w idx guids strings :
  0 <= pid < 2 ^ 32 → 0 <= w < 2 ^ 15 → 0 <= idx < 2 ^ 16 →
  parse_nameid_entry (encode_nameid_entry pid is_string w idx) guids strings =
  (guid ← resolve_guid_index w guids;
   match guid with
   | None => Ok None
   | Some guid =>
       kind ← (if is_string then name ← read_string_stream_name strings pid; Ok (option_map PropName name)
               else Ok (Some (Lid (wrap 16 pid))));
       match kind with
       | None => Ok None
       | Some kind => Ok (Some ({| key_guid := guid; key_kind := kind |}, Z.min (NPID_BASE + idx) 0xFFFF))
       end
   end).
Proof.
  intros Hp Hw Hi. unfold encode_nameid_entry.
  assert (Hg : Z.lor (wrap 16 (Z.shiftl w 1)) (if is_string then 1 else 0) = 2 * w + (if is_string then 1 else 0)).
  { rewrite Z.shiftl_mul_pow2 by lia. unfold wrap. rewrite Z.mod_small by lia. replace (w * 2 ^ 1) with (2 * w) by lia.
    destruct w, is_string; try lia; reflexivity. }
  rewrite Hg. set (g := 2 * w + _) in *.
  assert (0 <= g < 2 ^ 16) by (unfold g; destruct is_string; lia).
  unfold parse_nameid_entry. rewrite (proj2 (Z.ltb_ge _ _)) by (rewrite !zlen_app, !zlen_le_split; lia).
  rewrite le_at_front, bind_ok by enc. rewrite (le_at_mid (le_split 4 pid) 2 g _ 4), bind_ok by enc.
  rewrite (assoc_L (++)), le_at_end, bind_ok by enc.
  cbv zeta. assert (Z.shiftr g 1 = w) as ->.
  { rewrite Z.shiftr_div_pow2 by lia. unfold g. destruct is_string; Z.to_euclidean_division_equations; lia. }
  assert (negb (Z.land g 1 =? 0) = is_string) as ->; [|done].
  change 1 with (Z.ones 1) at 1. rewrite Z.land_ones by lia. unfold g.
  destruct is_string; [replace (_ mod _) with 1|replace (_ mod _) with 0]; try done; Z.to_euclidean_division_equations; lia.
Qed.

(** ** Streams of names under the property set in the first slot *)

Definition name_key (guid : list byte) (n : rstring) : named_prop_key := {| key_guid := guid; key_kind := PropName n |}.

(** The entry stream and the string stream of [names], the first entry at offset
    [off] of the strings with index [idx]. *)
Fixpoint encode_names (off idx : Z) (names : list rstring) : list byte * list byte :=
  match names with
  | [] => ([], [])
  | n :: names =>
      let s := encode_string_stream_entry n in
      let rest := encode_names (off + zlen s) (idx + 1) names in
      (encode_nameid_entry off true 3 idx ++ rest.1, s ++ rest.2)
  end.

(** The map that they stand for. *)
Fixpoint add_names (guid : list byte) (idx : Z) (names : list rstring) (m : name_id_map) : name_id_map :=
  match names with
  | [] => m
  | n :: names =>
      let npid := Z.min (NPID_BASE + idx) 0xFFFF in
      add_names guid (idx + 1) names
        {| forward := <[name_key guid n := npid]> (forward m);
           reverse_map := <[npid := name_key guid n]> (reverse_map m); degraded := degraded m |}
  end.

Lemma zlen_nameid pid b w idx : zlen (encode_nameid_entry pid b w idx) = 8.
Proof. unfold encode_nameid_entry. by rewrite !zlen_app, !zlen_le_split. Qed.

Lemma zlen_string_entry n : 4 <= zlen (encode_string_stream_entry n).
Proof.
  unfold encode_string_stream_entry. destruct (pad4_app (le_split 4 (wrap 32 (zlen (utf16le_bytes n))) ++ utf16le_bytes n)) as [p ->].
  rewrite !zlen_app, zlen_le_split. pose proof (zlen_nonneg (utf16le_bytes n)). pose proof (zlen_nonneg p). lia.
Qed.

(** One entry and its string add one name. *)
Lemma add_name_entry guid rest_g pre n post idx m :
  length guid = 16%nat → valid_name n → 0 <= idx < 2 ^ 16 → zlen pre < 2 ^ 32 →
  add_entry (guid ++ rest_g) (pre ++ encode_string_stream_entry n ++ post) m (encode_nameid_entry (zlen pre) true 3 idx) =
  let npid := Z.min (NPID_BASE + idx) 0xFFFF in
  Ok {| forward := <[name_key guid n := npid]> (forward m);
        reverse_map := <[npid := name_key guid n]> (reverse_map m); degraded := degraded m |}.
Proof.
  intros Hg Hn Hi Hp. pose proof (zlen_nonneg pre). unfold add_entry. rewrite parse_encoded by lia.
  assert (resolve_guid_index 3 (guid ++ rest_g) = Ok (Some guid)) as ->.
  { unfold resolve_guid_index. cbn [Z.eqb Pos.eqb]. cbv zeta.
    assert (zlen guid = 16) as Hg' by (unfold zlen; lia). pose proof (zlen_nonneg rest_g).
    rewrite (proj2 (Z.ltb_ge _ _)) by (rewrite zlen_app; lia).
    change (guid ++ rest_g) with ([] ++ guid ++ rest_g). by rewrite (slice_mid [] guid) by (unfold zlen in *; cbn [length]; lia). }
  rewrite bind_ok, read_name_mid by done. done.
Qed.

Lemma streams_loop_names guid rest_g names : ∀ pre_e pre_s idx m fuel,
  length guid = 16%nat → Forall valid_name names →
  0 <= idx → idx + zlen names < 2 ^ 16 →
  zlen (pre_s ++ (encode_names (zlen pre_s) idx names).2) < 2 ^ 32 →
  (length names < fuel)%nat →
  streams_loop fuel (guid ++ rest_g) (pre_e ++ (encode_names (zlen pre_s) idx names).1)
    (pre_s ++ (encode_names (zlen pre_s) idx names).2) (zlen pre_e) m =
  Ok (add_names guid idx names m, zlen (pre_e ++ (encode_names (zlen pre_s) idx names).1)).
Proof.
  induction names as [|n names IH]; intros pre_e pre_s idx m [|fuel] Hg Hv Hi Hn Hs Hf;
    cbn [length] in Hf; [lia| |lia|]; cbn [streams_loop encode_names fst snd add_names].
  - rewrite app_nil_r. by rewrite (proj2 (Z.leb_gt _ _)) by lia.
  - inversion_clear Hv as [|?? Hn0 Hv']. rewrite zlen_cons in Hn.
    cbn [encode_names snd] in Hs.
    set (s := encode_string_stream_entry n) in *. set (e := encode_nameid_entry (zlen pre_s) true 3 idx) in *.
    assert (He : zlen e = 8) by apply zlen_nameid.
    assert (4 <= zlen s) by apply zlen_string_entry.
    pose proof (zlen_nonneg pre_e). pose proof (zlen_nonneg pre_s). pose proof (zlen_nonneg names).
    rewrite <- (zlen_app pre_s s) in Hs |- *.
    set (r := encode_names (zlen (pre_s ++ s)) (idx + 1) names) in *.
    pose proof (zlen_nonneg r.1). pose proof (zlen_nonneg r.2).
    rewrite (proj2 (Z.leb_le _ _)) by (rewrite !zlen_app; lia).
    rewrite (slice_mid pre_e e), bind_ok by lia.
    rewrite (zlen_app pre_s), (zlen_app s) in Hs.
    pose proof (add_name_entry guid rest_g pre_s n r.2 idx m Hg Hn0 ltac:(lia) ltac:(lia)) as Ha.
    fold s e in Ha. rewrite Ha, bind_ok. clear Ha.
    replace (zlen pre_e + 8) with (zlen (pre_e ++ e)) by (rewrite zlen_app; lia).
    rewrite (assoc_L (++) pre_e e), (assoc_L (++) pre_s s).
    unfold r. apply IH; [done|done|lia|lia| |lia].
    rewrite !zlen_app. unfold r in Hs. rewrite zlen_app in Hs. lia.
Qed.

Lemma from_streams_names guid rest_g names :
  length guid = 16%nat → Forall valid_name names → zlen names < 2 ^ 16 →
  zlen (encode_names 0 0 names).2 < 2 ^ 32 →
  from_streams (guid ++ rest_g) (encode_names 0 0 names).1 (encode_names 0 0 names).2 = Ok (add_names guid 0 names empty_map).
Proof.
  intros Hg Hv Hn Hs. unfold from_streams. case_bool_decide as He.
  { destruct names as [|n names]; [done|]. cbn [encode_names fst] in He. apply app_nil in He as [He _].
    pose proof (zlen_nameid 0 true 3 0) as Hz. rewrite He in Hz. done. }
  assert (Hlen : (length names < S (length (encode_names 0 0 names).1))%nat).
  { clear. generalize 0 at 1. generalize 0. induction names as [|n names IH]; intros a b; [cbn; lia|].
    cbn [encode_names fst]. rewrite length_app. specialize (IH (a + 1) (b + zlen (encode_string_stream_entry n))).
    pose proof (zlen_nameid b true 3 a). unfold zlen in H. cbn [length]. lia. }
  pose proof (streams_loop_names guid rest_g names [] [] 0 empty_map _ Hg Hv ltac:(lia) ltac:(lia) Hs Hlen) as H.
  cbn [app] in H. change (zlen (@nil byte)) with 0 in H. rewrite H, bind_ok. cbn [fst snd].
  by rewrite Z.ltb_irrefl.
Qed.

(** The names are found under their identifiers, and nothing else is. *)
Lemma add_names_forward guid names : ∀ idx m,
  NoDup names → 0 <= idx → idx + zlen names <= 0x8000 →
  (∀ i n, names !! i = Some n →
     forward (add_names guid idx names m) !! name_key guid n = Some (NPID_BASE + idx + Z.of_nat i)) ∧
  (∀ k, (∀ n, n ∈ names → k ≠ name_key guid n) → forward (add_names guid idx names m) !! k = forward m !! k) ∧
  (∀ i n, names !! i = Some n →
     reverse_map (add_names guid idx names m) !! (NPID_BASE + idx + Z.of_nat i) = Some (name_key guid n)) ∧
  (∀ npid, npid < NPID_BASE + idx → reverse_map (add_names guid idx names m) !! npid = reverse_map m !! npid) ∧
  degraded (add_names guid idx names m) = degraded m.
Proof.
  induction names as [|n names IH]; intros idx m Hnd Hi Hlen; [done|].
  apply NoDup_cons in Hnd as [Hn Hnd]. rewrite zlen_cons in Hlen. cbn [add_names].
  pose proof (zlen_nonneg names). set (npid := Z.min _ _). assert (npid = NPID_BASE + idx) as Hp by (unfold npid, NPID_BASE; lia).
  set (m' := {| forward := _ |}). destruct (IH (idx + 1) m' Hnd ltac:(lia) ltac:(lia)) as (H1 & H2 & H3 & H4 & H5).
  assert (Hinj : ∀ a b, name_key guid a = name_key guid b → a = b) by (intros a b [= ->]; done).
  split_and!.
  - intros [|i] x; cbn [lookup list_lookup].
    + intros [= ->]. rewrite H2 by (intros y Hy <-%Hinj; done). unfold m'. cbn [forward]. rewrite lookup_insert_eq. f_equal. lia.
    + intros Hx. rewrite (H1 i x Hx). f_equal. lia.
  - intros k Hk. rewrite H2 by (intros y Hy; apply Hk; by right). unfold m'. cbn [forward].
    apply lookup_insert_ne. intros E. apply (Hk n); [by left|done].
  - intros [|i] x; cbn [lookup list_lookup].
    + intros [= ->]. rewrite H4 by lia. unfold m'. cbn [reverse_map]. rewrite Hp. replace (NPID_BASE + idx + Z.of_nat 0) with (NPID_BASE + idx) by lia.
      apply lookup_insert_eq.
    + intros Hx. rewrite <- (H3 i x Hx). f_equal. lia.
  - intros k Hk. rewrite H4 by lia. unfold m'. cbn [reverse_map]. apply lookup_insert_ne. lia.
  - done.
Qed.

(** C34 Parsing the Name-to-ID map inverts encoding it: streams that list distinct
    names, each the scalar values of a string without NUL, under one property set
    give a map that is not degraded, that finds each name under its position above
    0x8000 and each identifier under its name, and that knows nothing else. *)
Theorem named_streams_round_trip guid rest names
    (Hguid : length guid = 16%nat) (Hnames : Forall valid_name names) (Hnd : NoDup names)
    (Hcount : zlen names <= 0x8000) (Hsize : zlen (encode_names 0 0 names).2 < 2 ^ 32) :
  ∃ m, from_streams (guid ++ rest) (encode_names 0 0 names).1 (encode_names 0 0 names).2 = Ok m ∧
    degraded m = false ∧
    (∀ i n, names !! i = Some n →
       resolve_name m guid n = Some (NPID_BASE + Z.of_nat i) ∧
       reverse_lookup m (NPID_BASE + Z.of_nat i) = Some (name_key guid n)) ∧
    ∀ k, (∀ n, n ∈ names → k ≠ name_key guid n) → resolve m k = None.
Proof.
  exists (add_names guid 0 names empty_map). split; [by apply from_streams_names; try lia|].
  destruct (add_names_forward guid names 0 empty_map Hnd ltac:(lia) ltac:(lia)) as (H1 & H2 & H3 & _ & H5).
  split; [done|]. split; [intros i n Hi; split; [by apply (H1 i)|by apply (H3 i)]|].
  intros k Hk. unfold resolve. rewrite H2 by done. apply lookup_empty.
Qed.

Definition two_names : list rstring := [lit "Keywords"; lit "x-priority"].

Lemma named_streams_round_trip_witness :
  ∃ m, from_streams (PSETID_ATTACHMENT ++ []) (encode_names 0 0 two_names).1 (encode_names 0 0 two_names).2 = Ok m ∧
    resolve_name m PSETID_ATTACHMENT (lit "x-priority") = Some 0x8001.
Proof.
  destruct (named_streams_round_trip PSETID_ATTACHMENT [] two_names) as (m & Hm & _ & Hr & _).
  - reflexivity.
  - repeat (constructor; [split; [repeat constructor|split; [apply (bool_decide_unpack _); reflexivity|reflexivity]]|]). constructor.
  - apply (bool_decide_unpack _). reflexivity.
  - discriminate.
  - reflexivity.
  - exists m. split; [exact Hm|]. exact (proj1 (Hr 1%nat (lit "x-priority") eq_refl)).
Defined.

(** Loading the map never fails: with or without a cached map, the handle gets one. *)
Theorem name_id_map_total `{Crc : Crc32} pst cache (Hwf : bbt_wf (bbt pst)) :
  ∃ m, outcome (load_name_id_map pst cache) = Ok (m, Some m) ∧ (cache = None → npids_ok m).
Proof. by apply load_name_id_map_ok. Qed.

(** A name is cut at its first NUL, wherever it is, not only at a trailing one. *)
Theorem name_cut_at_first_nul :
  read_string_stream_name (encode_string_stream_entry [97; 0; 98]) 0 = Ok (Some [97]).
Proof. vm_compute. reflexivity. Qed.
