(* ===== verification/Attachment.v ===== *)
(** * Attachments of the reader (pst-reader/src/messaging/attachment.rs)

    Classifying an attachment as a cloud link by its properties, listing the
    attachments of a message (softly or failing on the first bad row), and opening
    the binary data as a stream that reads one leaf block at a time. *)

From stdpp Require Import sorting.
From S2P Require Import Prelude Telemetry PstError Crypt Nid Header Btree Block Heap Bth Utf PropContext Folder Text CivilDate Recipient Hasher Message NamedProp.
#[local] Open Scope Z_scope.

(** ** Property tags and methods (ndb/nid.rs) *)

Definition PID_TAG_ATTACH_DATA_BINARY : Z := 0x3701.
Definition PID_TAG_ATTACH_METHOD : Z := 0x3705.
Definition PID_TAG_ATTACH_MIME_TAG : Z := 0x370E.
Definition PID_TAG_ATTACH_FILENAME : Z := 0x3704.
Definition PID_TAG_ATTACH_LONG_FILENAME : Z := 0x3707.
Definition PID_TAG_ATTACH_SIZE : Z := 0x0E20.
Definition PID_TAG_ATTACH_CONTENT_ID : Z := 0x3712.
Definition PID_TAG_ATTACH_FLAGS : Z := 0x3714.
Definition PID_TAG_ATTACHMENT_HIDDEN : Z := 0x7FFE.
Definition PID_TAG_ATTACH_PATHNAME : Z := 0x3708.
Definition PID_TAG_ATTACH_LONG_PATHNAME : Z := 0x370D.
Definition ATTACH_EMBEDDED_MSG : Z := 5.
Definition ATTACH_BY_WEB_REFERENCE : Z := 7.
Definition ATT_RENDERED_IN_BODY : Z := 4.

(** ** Cloud hosts *)

Definition to_ascii_lowercase (s : bstring) : bstring := map ascii_lower s.

(** [looks_like_url] *)
Definition looks_like_url (s : bstring) : bool :=
  let lower := to_ascii_lowercase (str_trim s) in
  starts_with (bytes_of "http://") lower || starts_with (bytes_of "https://") lower ||
  starts_with (bytes_of "file://") lower || starts_with (bytes_of "onedrive:") lower.

Definition CLOUD_POINTER_HOST_SUFFIXES : list bstring :=
  map bytes_of ["sharepoint.com"; "sharepoint-df.com"; "onedrive.live.com"; "1drv.ms";
                "sharepoint.us"; "sharepoint-mil.us"; "dps.mil"]%string.
Definition CLOUD_POINTER_HOST_EXACT : list bstring := [bytes_of "admin.onedrive.us"].

(** [str::strip_prefix], [str::strip_suffix] *)
Definition strip_prefix (pat s : bstring) : option bstring :=
  if starts_with pat s then Some (drop (length pat) s) else None.
Definition strip_suffix (pat s : bstring) : option bstring :=
  if ends_with pat s then Some (take (length s - length pat) s) else None.

(** [host_matches_dns_suffix] *)
Definition host_matches_dns_suffix (host suffix : bstring) : bool :=
  if bool_decide (host = suffix) then true
  else match strip_suffix suffix host with
       | Some rest => ends_with (bytes_of ".") rest
       | None => false
       end.

(** [is_allowed_cloud_pointer_host] *)
Definition is_allowed_cloud_pointer_host (host : bstring) : bool :=
  bool_decide (host ∈ CLOUD_POINTER_HOST_EXACT) ||
  existsb (host_matches_dns_suffix host) CLOUD_POINTER_HOST_SUFFIXES.

(** [s.split([..]).next()]: the part before the first of the characters;
    [s.rsplit(c).next()]: the part after the last. *)
Fixpoint until_any (cs : bstring) (s : bstring) : bstring :=
  match s with
  | [] => []
  | b :: s => if bool_decide (b ∈ cs) then [] else b :: until_any cs s
  end.
Definition after_last (c : byte) (s : bstring) : bstring := reverse (until_any [c] (reverse s)).

(** [extract_url_host_lower] *)
Definition extract_url_host_lower (url_lower : bstring) : option bstring :=
  after ← option_or (strip_prefix (bytes_of "https://") url_lower)
            (option_or (strip_prefix (bytes_of "http://") url_lower)
                       (strip_prefix (bytes_of "file://") url_lower));
  let host_port := until_any (bytes_of "/?#") after in
  if bool_decide (host_port = []) then None
  else
    let host := until_any (bytes_of ":") (after_last Byte.x40 host_port) in
    if bool_decide (host = []) then None else Some host.

(** [str::match_indices]: the offsets of the matches from left to right, none
    overlapping another. *)
Fixpoint match_indices_from (needle : bstring) (skip pos : nat) (s : bstring) : list nat :=
  match s with
  | [] => []
  | _ :: t =>
      match skip with
      | S skip => match_indices_from needle skip (S pos) t
      | O => if starts_with needle s
             then pos :: match_indices_from needle (length needle - 1) (S pos) t
             else match_indices_from needle 0 (S pos) t
      end
  end.
Definition match_indices (needle s : bstring) : list nat := match_indices_from needle 0 0 s.

(** [u8::is_ascii_alphanumeric] *)
Definition is_ascii_alphanumeric (b : byte) : bool :=
  ((48 <=? u8 b) && (u8 b <=? 57)) || ((65 <=? u8 b) && (u8 b <=? 90)) || ((97 <=? u8 b) && (u8 b <=? 122)).

(** A match at [idx] that neither continues a label on the left nor a host on the right. *)
Definition mention_at (lower needle : bstring) (idx : nat) : bool :=
  let ok_left :=
    match idx with
    | O => true
    | S i => match lower !! i with
             | Some b => bool_decide (b ∈ bytes_of "./@") || negb (is_ascii_alphanumeric b)
             | None => false
             end
    end in
  let ok_right :=
    match lower !! (idx + length needle)%nat with
    | Some b => bool_decide (b ∈ bytes_of "/?:#' " ++ [Byte.x22])
    | None => true
    end in
  ok_left && ok_right.

(** [text_mentions_cloud_host] *)
Definition text_mentions_cloud_host (lower : bstring) : bool :=
  is_some_and is_allowed_cloud_pointer_host (extract_url_host_lower lower) ||
  existsb (λ needle, existsb (mention_at lower needle) (match_indices needle lower))
    (CLOUD_POINTER_HOST_EXACT ++ CLOUD_POINTER_HOST_SUFFIXES).

(** [looks_like_cloud_pointer] *)
Definition looks_like_cloud_pointer (s : bstring) : bool :=
  let t := str_trim s in
  if bool_decide (t = []) then false
  else looks_like_url t || text_mentions_cloud_host (to_ascii_lowercase t).

(** ** Classification *)

(** [AttachKind] *)
Inductive attach_kind :=
| Classic
| CloudLink (provider url : option bstring).

(** [Option::filter] *)
Definition keep_if {A} (p : A → bool) (o : option A) : option A :=
  a ← o; if p a then Some a else None.

(** A string trimmed, absent when it is blank. *)
Definition trimmed_str (s : option bstring) : option bstring :=
  keep_if (λ t, negb (bool_decide (t = []))) (option_map str_trim s).

(** [is_cloud_shaped_method] *)
Definition is_cloud_shaped_method (method : option Z) : bool :=
  bool_decide (method = Some ATTACH_BY_WEB_REFERENCE).

(** [has_usable_binary_payload] *)
Definition has_usable_binary_payload (pc : prop_context) : pres bool :=
  bytes ← soft (get_binary pc PID_TAG_ATTACH_DATA_BINARY);
  Ok (is_some_and (λ b, negb (bool_decide (b = []))) bytes ||
      is_some_and (λ h, negb (h.2 =? 0)) (get_raw_hnid pc PID_TAG_ATTACH_DATA_BINARY)).

(** [extract_cloud_url]; the two path names are read again by the fallback. *)
Definition extract_cloud_url (pc : prop_context) (filename : bstring) : pres (option bstring) :=
  long_path ← soft (get_str pc PID_TAG_ATTACH_LONG_PATHNAME);
  path ← soft (get_str pc PID_TAG_ATTACH_PATHNAME);
  long_name ← soft (get_str pc PID_TAG_ATTACH_LONG_FILENAME);
  short_name ← soft (get_str pc PID_TAG_ATTACH_FILENAME);
  let candidates :=
    [long_path; path; keep_if looks_like_url (Some filename);
     keep_if looks_like_url long_name; keep_if looks_like_url short_name] in
  match find looks_like_cloud_pointer (map str_trim (omap id candidates)) with
  | Some t => Ok (Some t)
  | None => Ok (option_or (trimmed_str long_path) (trimmed_str path))
  end.

(** [classify_attach_pc] *)
Definition classify_attach_pc (pc : prop_context) (provider_npid : option Z) (filename : bstring)
    : pres attach_kind :=
  attach_method ← soft (get_i32 pc PID_TAG_ATTACH_METHOD);
  has_payload ← has_usable_binary_payload pc;
  url ← extract_cloud_url pc filename;
  provider ← (match provider_npid with
              | Some npid => s ← soft (get_str pc npid); Ok (trimmed_str s)
              | None => Ok None
              end);
  let named_cloud := is_some_and (λ _, true) provider && negb has_payload in
  let method_cloud := is_cloud_shaped_method attach_method && negb has_payload in
  let url_fallback := negb has_payload && is_some_and looks_like_cloud_pointer url in
  Ok (if named_cloud || method_cloud || url_fallback then CloudLink provider url else Classic).

(** ** Listing *)

(** [AttachmentInfo] *)
Record attachment_info := {
  ai_nid : Z; ai_filename : bstring; ai_size : Z; ai_mime_tag : option bstring;
  ai_attach_method : option Z; ai_is_inline : bool; ai_is_cloud_link : bool;
  ai_cloud_provider : option bstring; ai_cloud_url : option bstring;
  ai_cloud_permission_type : option Z }.

(** The name, size, MIME tag, method and inline flag of an attachment's context,
    as [list_attachments_inner] and [read_embedded_child_from_entry] read them. *)
Definition attach_filename (pc : prop_context) : pres bstring :=
  long ← get_str pc PID_TAG_ATTACH_LONG_FILENAME;
  match long with
  | Some s => Ok s
  | None => short ← get_str pc PID_TAG_ATTACH_FILENAME; Ok (default [] short)
  end.
Definition attach_is_inline (pc : prop_context) : pres bool :=
  content_id ← soft (get_str pc PID_TAG_ATTACH_CONTENT_ID);
  attach_flags ← soft (get_i32 pc PID_TAG_ATTACH_FLAGS);
  hidden ← soft (get_bool pc PID_TAG_ATTACHMENT_HIDDEN);
  Ok (is_some_and (λ s, negb (bool_decide (str_trim s = []))) content_id ||
      is_some_and (λ f, negb (Z.land f ATT_RENDERED_IN_BODY =? 0)) attach_flags ||
      default false hidden).
Definition attach_size (pc : prop_context) : pres Z :=
  v ← get_i32 pc PID_TAG_ATTACH_SIZE; Ok (wrap 32 (default 0 v)).

(** The row of one attachment; every error in it is an error of the row. *)
Definition attach_row (provider_npid permission_npid : option Z) (nid : Z) (att_data : list byte)
    : pres attachment_info :=
  pc ← pc_load att_data;
  filename ← attach_filename pc;
  size ← attach_size pc;
  mime_tag ← get_str pc PID_TAG_ATTACH_MIME_TAG;
  attach_method ← get_i32 pc PID_TAG_ATTACH_METHOD;
  is_inline ← attach_is_inline pc;
  kind ← classify_attach_pc pc provider_npid filename;
  permission ← (match permission_npid with
                | Some npid => soft (get_i32 pc npid)
                | None => Ok None
                end);
  Ok {| ai_nid := nid; ai_filename := filename; ai_size := size; ai_mime_tag := mime_tag;
        ai_attach_method := attach_method; ai_is_inline := is_inline;
        ai_is_cloud_link := match kind with CloudLink _ _ => true | Classic => false end;
        ai_cloud_provider := match kind with CloudLink p _ => p | Classic => None end;
        ai_cloud_url := match kind with CloudLink _ u => u | Classic => None end;
        ai_cloud_permission_type := permission |}.

(** An error of a row fails the list or drops the row. *)
Definition keep_row {A} (fail_on_row_error : bool) (row : pres A) (rows : list A) : pres (list A) :=
  match row with
  | Ok a => Ok (rows ++ [a])
  | Err e => if fail_on_row_error then Err e else Ok rows
  | Panic => Panic
  | NoFuel => NoFuel
  end.

(** The cached Name-to-ID map of the handle. *)
Abbreviation map_cache := (option name_id_map) (only parsing).

Section list.
Context `{Crc : Crc32} (pst : pst_file).
Abbreviation crypt := (header_crypt (header pst)).

(** [PstFile::name_id_map] *)
Definition name_id_map_of : pwalk map_cache name_id_map := λ cache,
  match load_name_id_map pst cache with
  | (Ok (m, cache), l) => ((Ok m, cache), l)
  | (Err e, l) => ((Err e, cache), l)
  | (Panic, l) => ((Panic, cache), l)
  | (NoFuel, l) => ((NoFuel, cache), l)
  end.

(** [PstFile::list_attachments_inner] *)
Definition list_attachments_inner (message_nid : Z) (fail_on_row_error : bool)
    : pwalk map_cache (list attachment_info) :=
  match nbt_get (nbt pst) message_nid with
  | None => mret []
  | Some e =>
      if is_null (bid_sub e) then mret []
      else
        sub_entries ← lift (list_subnode_entries (reader pst) (bbt pst) (bid_sub e));
        m ← name_id_map_of;
        let provider_npid := attachment_provider_type_npid m in
        m ← name_id_map_of;
        let permission_npid := attachment_permission_type_npid m in
        mfold (λ attachments entry,
            if negb (bool_decide (nid_type (sub_nid entry) = Attachment)) then mret attachments
            else
              att_data ← lift (read_block_data (reader pst) (bbt pst) (sub_bid_data entry) crypt);
              pure (keep_row fail_on_row_error
                      (attach_row provider_npid permission_npid (sub_nid entry) att_data) attachments))
          sub_entries []
  end.

(** [list_attachments], [list_attachments_strict]: their scope is dropped. *)
Definition list_attachments (message_nid : Z) : pwalk map_cache (list attachment_info) :=
  list_attachments_inner message_nid false.
Definition list_attachments_strict (message_nid : Z) : pwalk map_cache (list attachment_info) :=
  list_attachments_inner message_nid true.

(** [AttachmentMeta], [PstFile::read_attachment_metadata] *)
Record attachment_meta := { am_filename : bstring; am_size : Z; am_is_inline : bool }.
Definition read_attachment_metadata (message_nid : Z) : pwalk map_cache (list attachment_meta) :=
  infos ← list_attachments message_nid;
  mret (map (λ i, {| am_filename := ai_filename i; am_size := ai_size i; am_is_inline := ai_is_inline i |}) infos).
End list.

(** ** The data stream *)

(** [AttachReaderInner::Blocks]: the reopened file with the copied index, the leaf
    blocks and the position in them. *)
Record block_stream := {
  bs_reader : list byte; bs_bbt : bbt_index; bs_crypt : crypt_method; bs_leaf_bids : list Z;
  bs_leaf_index : nat; bs_chunk : list byte; bs_chunk_pos : Z }.

(** [AttachReaderInner], [AttachmentDataReader] *)
Inductive attach_reader_inner :=
| Memory (data : list byte) (pos : Z)
| Blocks (stream : block_stream).
Record attachment_data_reader := { inner : attach_reader_inner; crc_suspect : bool }.

(** [from_memory], [is_buffered], [mark_crc_suspect] *)
Definition from_memory (data : list byte) : attachment_data_reader :=
  {| inner := Memory data 0; crc_suspect := false |}.
Definition is_buffered (r : attachment_data_reader) : bool :=
  match inner r with Memory _ _ => true | Blocks _ => false end.
Definition mark_crc_suspect (r : attachment_data_reader) : attachment_data_reader :=
  {| inner := inner r; crc_suspect := true |}.

(** [n = (data.len() - pos).min(buf.len())], the copied bytes and the new position,
    for a buffer of [len] bytes. *)
Definition copy_out (data : list byte) (pos len : Z) : pres (list byte) * Z :=
  let n := Z.min (zlen data - pos) len in (slice data pos (pos + n), pos + n).

Definition at_chunk (b : block_stream) (index : nat) (chunk : list byte) (pos : Z) : block_stream :=
  {| bs_reader := bs_reader b; bs_bbt := bs_bbt b; bs_crypt := bs_crypt b;
     bs_leaf_bids := bs_leaf_bids b; bs_leaf_index := index; bs_chunk := chunk; bs_chunk_pos := pos |}.

(** The [Blocks] arm of [AttachmentDataReader::read], on the stream and the damage
    flag; the recursion skips an empty leaf. *)
Fixpoint read_blocks `{Crc32} (fuel : nat) (len : Z) : pwalk (block_stream * bool) (list byte) := λ bs,
  let '(b, suspect) := bs in
  let serve (b : block_stream) (suspect : bool) :=
    let c := copy_out (bs_chunk b) (bs_chunk_pos b) len in
    ((c.1, (at_chunk b (bs_leaf_index b) (bs_chunk b) c.2, suspect)), []) in
  match fuel with
  | O => ((NoFuel, bs), [])
  | S fuel =>
      if bs_chunk_pos b <? zlen (bs_chunk b) then serve b suspect
      else
        match bs_leaf_bids b !! bs_leaf_index b with
        | None => ((Ok [], bs), [])
        | Some bid =>
            let b := at_chunk b (S (bs_leaf_index b)) (bs_chunk b) (bs_chunk_pos b) in
            match read_leaf_block_data (bs_reader b) (bs_bbt b) bid (bs_crypt b) with
            | (Ok chunk, l) =>
                let suspect := suspect || existsb block_mismatch l in
                let b := at_chunk b (bs_leaf_index b) chunk 0 in
                let r := if bool_decide (chunk = []) then read_blocks fuel len (b, suspect)
                         else serve b suspect in
                (r.1, l ++ r.2)
            | (Err e, l) => ((Err e, (b, suspect)), l)
            | (Panic, l) => ((Panic, (b, suspect)), l)
            | (NoFuel, l) => ((NoFuel, (b, suspect)), l)
            end
        end
  end.

(** [AttachmentDataReader::read] into a buffer of [len] bytes: the bytes copied. An
    I/O error carries the text of the reader's error. *)
Definition attach_read `{Crc32} (len : Z) : pwalk attachment_data_reader (list byte) := λ r,
  match inner r with
  | Memory data pos =>
      if zlen data <=? pos then ((Ok [], r), [])
      else
        let c := copy_out data pos len in
        ((c.1, {| inner := Memory data c.2; crc_suspect := crc_suspect r |}), [])
  | Blocks b =>
      let x := read_blocks (S (length (bs_leaf_bids b))) len (b, crc_suspect r) in
      ((x.1.1, {| inner := Blocks x.1.2.1; crc_suspect := x.1.2.2 |}), x.2)
  end.

(** ** Opening *)

Section open.
Context `{Crc : Crc32} (pst : pst_file).

(** What [File::open] on the stored path yields; absent without a path or when the
    file cannot be opened. *)
Context (reopened : option (list byte)).

Abbreviation crypt := (header_crypt (header pst)).

(** [PstFile::open_block_stream] *)
Definition open_block_stream (bid_data : Z) : pio attachment_data_reader :=
  leaf_bids ← collect_leaf_data_bids (reader pst) (bbt pst) bid_data;
  if bool_decide (leaf_bids = []) then mret (from_memory [])
  else
    small ← (match leaf_bids with
             | [bid] =>
                 data ← read_leaf_block_data (reader pst) (bbt pst) bid crypt;
                 mret (if zlen data <=? 1024 * 1024 then Some data else None)
             | _ => mret None
             end);
    match small with
    | Some data => mret (from_memory data)
    | None =>
        file ← quiet (ok_or reopened Io);
        mret {| inner := Blocks {| bs_reader := file; bs_bbt := bbt pst; bs_crypt := crypt;
                                   bs_leaf_bids := leaf_bids; bs_leaf_index := 0;
                                   bs_chunk := []; bs_chunk_pos := 0 |};
                crc_suspect := false |}
    end.

(** [PstFile::resolve_subnode_data_stream] *)
Definition resolve_subnode_data_stream (att_entry : subnode_entry) (data_nid : Z)
    : pio (option attachment_data_reader) :=
  if is_null (sub_bid_sub att_entry) then mret None
  else
    sub ← find_subnode_entry (reader pst) (bbt pst) (sub_bid_sub att_entry) data_nid;
    match sub with
    | None => mret None
    | Some sub => r ← open_block_stream (sub_bid_data sub); mret (Some r)
    end.

(** The value word of the binary property as a subnode: the stream of the subnode,
    else the data that a search of the subnode tree finds. *)
Definition open_subnode_value (att_entry : subnode_entry) (value_hnid : Z)
    : pio (option attachment_data_reader) :=
  src ← resolve_subnode_data_stream att_entry value_hnid;
  match src with
  | Some src => mret (Some src)
  | None =>
      if is_null (sub_bid_sub att_entry) then mret None
      else
        data ← attempt (read_subnode_data (reader pst) (bbt pst) (sub_bid_sub att_entry) value_hnid crypt);
        match data with
        | None => mret None
        | Some data =>
            if zlen data <=? 16 * 1024 * 1024 then mret (Some (from_memory data))
            else
              sub ← find_subnode_entry (reader pst) (bbt pst) (sub_bid_sub att_entry) value_hnid;
              match sub with
              | Some sub => r ← open_block_stream (sub_bid_data sub); mret (Some r)
              | None => mret None
              end
        end
  end.

(** The body that [open_attachment_data_inner] and its copy for message nodes share;
    the copy does not stream a nested message ([spare_messages]). *)
Definition open_attach_entry (spare_messages : bool) (att_entry : subnode_entry) : pio attachment_data_reader :=
  att_data ← read_block_data (reader pst) (bbt pst) (sub_bid_data att_entry) crypt;
  pc ← quiet (pc_load att_data);
  bytes ← quiet (get_binary pc PID_TAG_ATTACH_DATA_BINARY);
  match bytes with
  | Some bytes => mret (from_memory bytes)
  | None =>
      src ← (match get_raw_hnid pc PID_TAG_ATTACH_DATA_BINARY with
             | Some (_, value_hnid) =>
                 if value_hnid =? 0 then mret None else open_subnode_value att_entry value_hnid
             | None => mret None
             end);
      match src with
      | Some src => mret src
      | None =>
          first ← (if is_null (sub_bid_sub att_entry) then mret None
                   else subs ← list_subnode_entries (reader pst) (bbt pst) (sub_bid_sub att_entry);
                        mret (head subs));
          match first with
          | Some first =>
              if spare_messages && bool_decide (nid_type (sub_nid first) = NormalMessage)
              then quiet (Err (PropertyNotFound PID_TAG_ATTACH_DATA_BINARY))
              else open_block_stream (sub_bid_data first)
          | None => quiet (Err (PropertyNotFound PID_TAG_ATTACH_DATA_BINARY))
          end
      end
  end.

(** [PstFile::open_attachment_data_inner] *)
Definition open_attachment_data_inner (message_nid attach_nid : Z) : pio attachment_data_reader :=
  e ← quiet (ok_or (nbt_get (nbt pst) message_nid) (NodeNotFound message_nid));
  if is_null (bid_sub e) then quiet (Err (NoSubnodeBTree message_nid))
  else
    found ← find_subnode_entry (reader pst) (bbt pst) (bid_sub e) attach_nid;
    att_entry ← quiet (ok_or found (SubnodeNotFound attach_nid));
    open_attach_entry false att_entry.

(** A reader opened in a scope is marked when the scope saw a block mismatch. *)
Definition opened_in_scope (m : pio attachment_data_reader) : pio attachment_data_reader :=
  scoped (r ← m; mret (λ open_suspect : bool, if open_suspect then mark_crc_suspect r else r)).

(** [PstFile::open_attachment_data] *)
Definition open_attachment_data (message_nid attach_nid : Z) : pio attachment_data_reader :=
  opened_in_scope (open_attachment_data_inner message_nid attach_nid).
End open.

(** The tests of the source. *)
Example urls :
  map (λ s, looks_like_url (bytes_of s)) ["https://example.com/a"; "HTTP://X"; "report.xlsx"; " OneDrive:x "]%string
  = [true; true; false; true].
Proof. vm_compute. reflexivity. Qed.
Example cloud_pointers :
  map (λ s, looks_like_cloud_pointer (bytes_of s))
    ["notsharepoint.attacker.com/doc"; "evil1drv.ms.attacker.com/x"; "contoso.sharepoint.com/x";
     "contoso-my.sharepoint-mil.us/personal/u/Documents/a.docx"; "tenant.dps.mil/sites/L/a.xlsx"; ""]%string
  = [false; false; true; true; true; false].
Proof. vm_compute. reflexivity. Qed.

(** A host label may hold a hyphen, but the scan takes one for a boundary: a host
    that is no subdomain of an allowed one is taken for a cloud host. *)
Theorem hyphen_lookalike_accepted :
  let host := bytes_of "evil-sharepoint.com" in
  is_allowed_cloud_pointer_host host = false ∧
  looks_like_cloud_pointer (host ++ bytes_of "/doc") = true.
Proof. vm_compute. split; reflexivity. Qed.
