(* ===== verification/AttachmentFacts.v ===== *)
(** * Facts about attachments

    Reading an opened attachment to its end terminates and delivers the bytes of its
    data tree, whatever the sizes of the buffers; listing and opening are total. *)

From stdpp Require Import sorting.
From S2P Require Import Prelude Telemetry PstError Crypt Nid Header Btree Block BlockFacts Streaming Subnode Heap Bth Utf PropContext PropContextFacts Folder Text CivilDate Recipient Hasher Message NamedProp Attachment.
#[local] Open Scope Z_scope.

(** ** Reading to the end *)

(** Reads into buffers of the given sizes, one after another. *)
Definition drain `{Crc32} : list Z → pwalk attachment_data_reader (list byte) :=
  fix go lens := match lens with [] => mret [] | n :: lens => a ← attach_read n; b ← go lens; mret (a ++ b) end.

Section drain.
Context `{Crc : Crc32}.

Definition leaf (b : block_stream) (bid : Z) : pres (list byte) :=
  outcome (read_leaf_block_data (bs_reader b) (bs_bbt b) bid (bs_crypt b)).

(** What is left to read, and the positions the reader keeps. *)
Definition stream_rest (b : block_stream) (rest : list byte) : Prop :=
  0 <= bs_chunk_pos b <= zlen (bs_chunk b) ∧
  ∃ chunks, rmap (leaf b) (drop (bs_leaf_index b) (bs_leaf_bids b)) = Ok chunks ∧
    rest = sub (bs_chunk b) (bs_chunk_pos b) (zlen (bs_chunk b) - bs_chunk_pos b) ++ concat chunks.
Definition reader_rest (r : attachment_data_reader) (rest : list byte) : Prop :=
  match inner r with
  | Memory data pos => 0 <= pos <= zlen data ∧ rest = sub data pos (zlen data - pos)
  | Blocks b => stream_rest b rest
  end.

(** One copy takes a prefix of what the chunk still holds. *)
Lemma copy_out_spec data pos len : 0 <= pos <= zlen data → 0 < len →
  ∃ out, copy_out data pos len = (Ok out, pos + zlen out) ∧ pos + zlen out <= zlen data ∧
    sub data pos (zlen data - pos) = out ++ sub data (pos + zlen out) (zlen data - (pos + zlen out)) ∧
    (out = [] → pos = zlen data).
Proof.
  intros Hp Hl. set (n := Z.min (zlen data - pos) len). exists (sub data pos n).
  assert (zlen (sub data pos n) = n) as Hn by (apply zlen_sub; lia).
  split_and!.
  - unfold copy_out. fold n. rewrite slice_ok by lia. rewrite Hn. by replace (pos + n - pos) with n by lia.
  - lia.
  - rewrite Hn. unfold sub. replace (Z.to_nat (pos + n)) with (Z.to_nat pos + Z.to_nat n)%nat by lia.
    rewrite <- drop_drop, take_take_drop. f_equal. lia.
  - intros E. rewrite E in Hn. unfold zlen in Hn at 1. simpl in Hn. lia.
Qed.

(** A read of the stream: it copies a prefix of the rest, nothing only at the end. *)
Lemma read_blocks_step fuel len b suspect rest :
  stream_rest b rest → 0 < len → (length (bs_leaf_bids b) - bs_leaf_index b < fuel)%nat →
  ∃ out b' rest' l, read_blocks fuel len (b, suspect) = ((Ok out, (b', suspect || existsb block_mismatch l)), l) ∧
    stream_rest b' rest' ∧ rest = out ++ rest' ∧ (out = [] → rest = []).
Proof.
  revert b suspect rest. induction fuel as [|fuel IH]; intros b suspect rest (Hpos & chunks & Hchunks & ->) Hlen Hfuel; [lia|].
  assert (Hserve : ∀ b chunks, 0 <= bs_chunk_pos b < zlen (bs_chunk b) →
    rmap (leaf b) (drop (bs_leaf_index b) (bs_leaf_bids b)) = Ok chunks →
    ∃ out b' rest', copy_out (bs_chunk b) (bs_chunk_pos b) len = (Ok out, bs_chunk_pos b') ∧
      b' = at_chunk b (bs_leaf_index b) (bs_chunk b) (bs_chunk_pos b') ∧ stream_rest b' rest' ∧
      sub (bs_chunk b) (bs_chunk_pos b) (zlen (bs_chunk b) - bs_chunk_pos b) ++ concat chunks = out ++ rest' ∧ out ≠ []).
  { clear -Hlen. intros b chunks Hp Hc. destruct (copy_out_spec (bs_chunk b) (bs_chunk_pos b) len) as (out & Ho & Hle & Hs & Hne); [lia..|].
    pose proof (zlen_nonneg out).
    exists out, (at_chunk b (bs_leaf_index b) (bs_chunk b) (bs_chunk_pos b + zlen out)). eexists. split_and!; [done..| | |].
    - split; [cbn; lia|]. exists chunks. split; [done|reflexivity].
    - rewrite Hs, <- app_assoc. done.
    - intros ->. specialize (Hne eq_refl). lia. }
  cbn [read_blocks]. destruct (_ <? _) eqn:Ep; bool_to_Z.
  - destruct (Hserve b chunks ltac:(lia) Hchunks) as (out & b' & rest' & Hc & Hb' & Hr' & Heq & Hne).
    exists out, b', rest', []. rewrite Hc. cbn [fst snd existsb]. rewrite orb_false_r, <- Hb'. by split_and!.
  - assert (sub (bs_chunk b) (bs_chunk_pos b) (zlen (bs_chunk b) - bs_chunk_pos b) = []) as ->.
    { unfold sub. replace (Z.to_nat _) with 0%nat by lia. done. }
    cbn [app]. destruct (bs_leaf_bids b !! bs_leaf_index b) as [bid|] eqn:Eb.
    2: { apply lookup_ge_None in Eb. rewrite drop_ge in Hchunks by done. injection Hchunks as <-.
         exists [], b, [], []. cbn [existsb]. rewrite orb_false_r. split_and!; [done| |done..].
         split; [done|]. exists []. rewrite drop_ge by done. split; [done|]. unfold sub.
         replace (Z.to_nat (_ - _)) with 0%nat by lia. done. }
    rewrite (drop_S _ _ _ Eb) in Hchunks. apply rmap_cons_ok in Hchunks as (chunk & chunks' & Hchunk & Hrest & ->).
    unfold leaf in Hchunk. destruct (read_leaf_block_data _ _ _ _) as [o l] eqn:El. cbn in Hchunk. subst o.
    set (b1 := at_chunk b (S (bs_leaf_index b)) chunk 0). case_bool_decide as Ec.
    + assert (Hb1 : stream_rest b1 (concat chunks')).
      { split; [cbn; subst chunk; done|]. exists chunks'. split; [exact Hrest|]. by subst chunk. }
      apply lookup_lt_Some in Eb.
      destruct (IH b1 (suspect || existsb block_mismatch l) _ Hb1 Hlen) as (out & b' & rest' & l' & E & H1 & H2 & H3).
      { unfold b1. cbn. lia. }
      exists out, b', rest', (l ++ l'). cbn zeta. cbn [bs_leaf_index at_chunk bs_reader bs_bbt bs_crypt bs_leaf_bids] in E |- *.
      change (at_chunk _ _ chunk 0) with b1. rewrite E. cbn [fst snd]. rewrite existsb_app, orb_assoc.
      subst chunk. by split_and!.
    + assert (0 < zlen chunk) as Hz by (destruct chunk; [done|unfold zlen; simpl; lia]).
      destruct (Hserve b1 chunks') as (out & b' & rest' & Hc & Hb' & Hr' & Heq & Hne); [cbn; lia|exact Hrest|].
      exists out, b', rest', (l ++ []). cbn [bs_chunk bs_chunk_pos at_chunk b1] in Hc, Hb', Heq |- *. rewrite Hc. cbn [fst snd].
      rewrite app_nil_r. split_and!; [|done| |done].
      * do 3 f_equal. by rewrite Hb'.
      * rewrite <- Heq. change (bs_chunk_pos b1) with 0. change (bs_chunk b1) with chunk. rewrite Z.sub_0_r, sub_all by lia. done.
Qed.

Lemma attach_read_step len r rest :
  reader_rest r rest → 0 < len →
  ∃ out r' rest' l, attach_read len r = ((Ok out, r'), l) ∧ crc_suspect r' = crc_suspect r || existsb block_mismatch l ∧
    reader_rest r' rest' ∧ rest = out ++ rest' ∧ (out = [] → rest = []).
Proof.
  intros Hr Hlen. unfold attach_read, reader_rest in *. destruct (inner r) as [data pos|b] eqn:Ei.
  - destruct Hr as [Hp ->]. destruct (_ <=? _) eqn:E; bool_to_Z.
    + assert (sub data pos (zlen data - pos) = []) as ->.
      { unfold sub. replace (Z.to_nat (_ - _)) with 0%nat by lia. done. }
      exists [], r, [], []. cbn [existsb]. rewrite orb_false_r, Ei. split_and!; try done; [lia..|].
      unfold sub. replace (Z.to_nat (_ - _)) with 0%nat by lia. done.
    + destruct (copy_out_spec data pos len) as (out & Hc & Hle & Hs & Hne); [lia..|].
      pose proof (zlen_nonneg out). eexists out, _, _, []. rewrite Hc. split_and!; [reflexivity|by cbn; rewrite orb_false_r| |exact Hs|].
      * cbn. split; [lia|reflexivity].
      * intros ->. specialize (Hne eq_refl). lia.
  - destruct (read_blocks_step (S (length (bs_leaf_bids b))) len b (crc_suspect r) rest Hr Hlen ltac:(lia))
      as (out & b' & rest' & l & E & H1 & H2 & H3).
    rewrite E. exists out. eexists _, rest', l. cbn [fst snd]. split_and!; [reflexivity|done..].
Qed.

(** Reads into nonempty buffers deliver a prefix of the rest, and all of it when
    there are as many reads as bytes. *)
Lemma drain_delivers lens r rest :
  reader_rest r rest → Forall (Z.lt 0) lens →
  ∃ out r' rest' l, drain lens r = ((Ok out, r'), l) ∧ crc_suspect r' = crc_suspect r || existsb block_mismatch l ∧
    rest = out ++ rest' ∧ ((length rest <= length lens)%nat → rest' = []).
Proof.
  intros Hr Hl. revert r rest Hr. induction Hl as [|n lens Hn _ IH]; intros r rest Hr.
  { exists [], r, rest, []. cbn. rewrite orb_false_r. split_and!; try done. intros H. destruct rest; [done|simpl in H; lia]. }
  destruct (attach_read_step n r rest Hr Hn) as (a & r1 & rest1 & l1 & E1 & Hs1 & Hr1 & -> & Hend).
  destruct (IH r1 rest1 Hr1) as (b & r2 & rest2 & l2 & E2 & Hs2 & -> & Hall).
  exists (a ++ b), r2, rest2, (l1 ++ l2). split_and!.
  - change (drain (n :: lens)) with (a ← attach_read n; b ← drain lens; mret (a ++ b)).
    unfold mbind, walk_bind. rewrite E1. cbn. rewrite E2. cbn. by rewrite app_nil_r.
  - by rewrite Hs2, Hs1, existsb_app, orb_assoc.
  - by rewrite app_assoc.
  - intros Hle. apply Hall. destruct a as [|x a]; [|rewrite !length_app in *; simpl in *; lia].
    specialize (Hend eq_refl). cbn [app] in Hend. rewrite Hend. simpl. lia.
Qed.
End drain.

(** ** Opening *)

Section opening.
Context `{Crc : Crc32} (pst : pst_file) (Hwf : bbt_wf (bbt pst)).
Abbreviation crypt := (header_crypt (header pst)).
Abbreviation file := (reader pst).

Lemma from_memory_rest data : reader_rest (from_memory data) data.
Proof. split; [pose proof (zlen_nonneg data); lia|]. by rewrite Z.sub_0_r, sub_all by lia. Qed.

(** The stream of a well-formed data tree has the assembled data to deliver. *)
Lemma open_block_stream_rest bid data :
  wf_data_tree file (bbt pst) bid → outcome (read_block_data file (bbt pst) bid crypt) = Ok data →
  ∃ r, outcome (open_block_stream pst (Some file) bid) = Ok r ∧ reader_rest r data ∧ crc_suspect r = false.
Proof.
  intros Ht Hd. destruct (stream_matches_assemble file (bbt pst) Hwf bid crypt data Ht Hd) as (leaves & chunks & Hl & Hc & <-).
  unfold open_block_stream. autorewrite with outcome. rewrite Hl, bind_ok. case_bool_decide as El.
  { subst leaves. injection Hc as <-. exists (from_memory []). split_and!; [done|apply from_memory_rest|done]. }
  set (r := {| inner := Blocks {| bs_reader := file; bs_bbt := bbt pst; bs_crypt := crypt; bs_leaf_bids := leaves;
                                 bs_leaf_index := 0; bs_chunk := []; bs_chunk_pos := 0 |}; crc_suspect := false |}).
  assert (Hr : reader_rest r (concat chunks)).
  { split; [done|]. exists chunks. split; [exact Hc|reflexivity]. }
  destruct leaves as [|b1 [|b2 leaves]]; [done| |].
  - apply rmap_cons_ok in Hc as (d & ? & Hd1 & [= <-] & ->). cbn [concat] in *. rewrite app_nil_r in *. autorewrite with outcome.
    rewrite Hd1, bind_ok. autorewrite with outcome. destruct (_ <=? _).
    + exists (from_memory d). split_and!; [done|apply from_memory_rest|done].
    + by exists r.
  - autorewrite with outcome. by exists r.
Qed.

(** Where the data of an attachment is: in the heap of its context, or in the
    subnode that the binary property names. *)
Definition attach_source (e : subnode_entry) (pc : prop_context) (data : list byte) : Prop :=
  match get_binary pc PID_TAG_ATTACH_DATA_BINARY with
  | Ok (Some b) => data = b
  | Ok None => ∃ ty nid s,
      get_raw_hnid pc PID_TAG_ATTACH_DATA_BINARY = Some (ty, nid) ∧ nid ≠ 0 ∧ is_null (sub_bid_sub e) = false ∧
      outcome (find_subnode_entry file (bbt pst) (sub_bid_sub e) nid) = Ok (Some s) ∧
      wf_data_tree file (bbt pst) (sub_bid_data s) ∧
      outcome (read_block_data file (bbt pst) (sub_bid_data s) crypt) = Ok data
  | _ => False
  end.

Lemma open_attach_entry_rest spare e d pc data :
  outcome (read_block_data file (bbt pst) (sub_bid_data e) crypt) = Ok d → pc_load d = Ok pc →
  attach_source e pc data →
  ∃ r, outcome (open_attach_entry pst (Some file) spare e) = Ok r ∧ reader_rest r data ∧ crc_suspect r = false.
Proof.
  intros Hd Hpc Hsrc. unfold open_attach_entry, attach_source in *. autorewrite with outcome. rewrite Hd, bind_ok.
  autorewrite with outcome. rewrite Hpc, bind_ok. autorewrite with outcome.
  destruct (get_binary _ _) as [[b|]|e'| |]; try done; rewrite bind_ok.
  - subst b. exists (from_memory data). split_and!; [done|apply from_memory_rest|done].
  - destruct Hsrc as (ty & nid & s & -> & Hn & Hnull & Hf & Ht & Hr). apply Z.eqb_neq in Hn. rewrite Hn.
    destruct (open_block_stream_rest (sub_bid_data s) data Ht Hr) as (r & Ho & Hrest & Hflag).
    exists r. split; [|done]. unfold open_subnode_value, resolve_subnode_data_stream. rewrite Hnull.
    autorewrite with outcome. rewrite Hf, bind_ok. autorewrite with outcome. rewrite Ho, bind_ok. done.
Qed.

(** Opening in a scope: the reader is marked by the events of the opening. *)
Lemma opened_in_scope_ok m r :
  outcome m = Ok r → crc_suspect r = false →
  ∃ r', outcome (opened_in_scope m) = Ok r' ∧ inner r' = inner r ∧ crc_suspect r' = existsb block_mismatch (events m) ∧
    events (opened_in_scope m) = events m.
Proof.
  destruct m as [o l]. cbn. intros -> Hs. unfold opened_in_scope, scoped. cbn. rewrite app_nil_r. eexists.
  split; [reflexivity|]. destruct (existsb _ _); by split_and!.
Qed.
End opening.

(** C27 An attachment is delivered whole: when its data is in its heap or in a
    well-formed data tree under it, opening it succeeds, and reading it into any
    sequence of nonempty buffers never fails and gives a prefix of exactly that
    data, all of it once there were as many reads as bytes; the damage flag is then
    set exactly when opening or reading met a block mismatch. *)
Theorem attachment_delivers `{Crc : Crc32} pst message_nid attach_nid m e d pc data
    (Hwf : bbt_wf (bbt pst))
    (Hmsg : nbt_get (nbt pst) message_nid = Some m) (Hsub : is_null (bid_sub m) = false)
    (Hentry : outcome (find_subnode_entry (reader pst) (bbt pst) (bid_sub m) attach_nid) = Ok (Some e))
    (Hdata : outcome (read_block_data (reader pst) (bbt pst) (sub_bid_data e) (header_crypt (header pst))) = Ok d)
    (Hpc : pc_load d = Ok pc) (Hsrc : attach_source pst e pc data) :
  ∃ r opened, open_attachment_data pst (Some (reader pst)) message_nid attach_nid = (Ok r, opened) ∧
    ∀ lens, Forall (Z.lt 0) lens →
      ∃ out rest r' reads, drain lens r = ((Ok out, r'), reads) ∧ data = out ++ rest ∧
        ((length data <= length lens)%nat → rest = []) ∧
        (crc_suspect r' = true ↔ ∃ ev, ev ∈ opened ++ reads ∧ block_mismatch ev = true).
Proof.
  destruct (open_attach_entry_rest pst Hwf false e d pc data Hdata Hpc Hsrc) as (r0 & Ho & Hrest & Hflag).
  assert (Hopen : outcome (open_attachment_data_inner pst (Some (reader pst)) message_nid attach_nid) = Ok r0).
  { unfold open_attachment_data_inner. rewrite Hmsg. cbn [ok_or]. autorewrite with outcome. rewrite Hsub.
    autorewrite with outcome. rewrite Hentry, bind_ok. autorewrite with outcome. cbn [ok_or]. by rewrite bind_ok. }
  destruct (opened_in_scope_ok _ r0 Hopen Hflag) as (r & Hr & Hin & Hs & Hev).
  exists r, (events (open_attachment_data_inner pst (Some (reader pst)) message_nid attach_nid)). split.
  { rewrite <- Hev. unfold open_attachment_data. unfold outcome, events in *.
    destruct (opened_in_scope _) as [? ?]. cbn in *. by subst. }
  intros lens Hl. assert (reader_rest r data) as Hrest' by (unfold reader_rest; by rewrite Hin).
  destruct (drain_delivers lens r data Hrest' Hl) as (out & r' & rest & l & E & Hs' & Hd' & Hall).
  exists out, rest, r', l. split_and!; [done..|]. rewrite Hs', Hs, <- existsb_app, existsb_exists.
  by setoid_rewrite list_elem_of_In.
Qed.

(** ** A message with two attachments *)

Definition attach_pst : pst_file :=
  {| reader := fixture_file; header := header cyclic_pst;
     nbt := {[ 0x24 := {| nbt_nid := 0x24; bid_data := 0x10; bid_sub := 0x46; nid_parent := 0 |} ]};
     bbt := fixture_bbt |}.
Definition attach_entry : subnode_entry := {| sub_nid := 0x8025; sub_bid_data := 0x44; sub_bid_sub := 0x32 |}.
Definition attach_context : prop_context :=
  Eval vm_compute in match pc_load attach_pc with Ok pc => pc | _ => body_context end.

Lemma attachment_delivers_witness :
  ∃ r opened, open_attachment_data attach_pst (Some fixture_file) 0x24 0x8025 = (Ok r, opened) ∧
    ∀ lens, Forall (Z.lt 0) lens →
      ∃ out rest r' reads, drain lens r = ((Ok out, r'), reads) ∧ leaf_a ++ leaf_b = out ++ rest ∧
        ((length (leaf_a ++ leaf_b) <= length lens)%nat → rest = []) ∧
        (crc_suspect r' = true ↔ ∃ ev, ev ∈ opened ++ reads ∧ block_mismatch ev = true).
Proof.
  refine (attachment_delivers attach_pst 0x24 0x8025
    {| nbt_nid := 0x24; bid_data := 0x10; bid_sub := 0x46; nid_parent := 0 |} attach_entry attach_pc attach_context
    (leaf_a ++ leaf_b) fixture_bbt_wf _ _ _ _ _ _); [reflexivity..|].
  unfold attach_source. replace (get_binary _ _) with (Ok None : pres (option (list byte))) by (vm_compute; reflexivity).
  exists 0x102, 0x3F, {| sub_nid := 0x3F; sub_bid_data := 0x26; sub_bid_sub := 0 |}.
  split_and!; [vm_compute; reflexivity|done|done|vm_compute; reflexivity|exact fixture_xxblock_tree|vm_compute; reflexivity].
Defined.

(** The last resort of [open_attachment_data_inner] does not look at the attach
    method: an embedded message without binary is opened, and the property context of
    the nested message is streamed as the data of the attachment. *)
Theorem embedded_message_streams_its_node :
  outcome (open_attachment_data attach_pst (Some fixture_file) 0x24 0x8045) =
    Ok {| inner := Memory attach_pc 0; crc_suspect := true |} ∧
  outcome (open_attach_entry attach_pst (Some fixture_file) true
    {| sub_nid := 0x8045; sub_bid_data := 0x48; sub_bid_sub := 0x4A |}) = Err (PropertyNotFound PID_TAG_ATTACH_DATA_BINARY).
Proof. split; vm_compute; reflexivity. Qed.

(** A message whose subnode tree cannot be read has no attachment list, although
    [read_attachment_metadata] is documented to return an empty one. *)
Theorem unreadable_attachments_are_an_error :
  let pst := {| reader := fixture_file; header := header cyclic_pst;
                nbt := {[ 0x24 := {| nbt_nid := 0x24; bid_data := 0x10; bid_sub := 0x56; nid_parent := 0 |} ]};
                bbt := fixture_bbt |} in
  (wrun (read_attachment_metadata pst 0x24) None).1 = Err (BlockNotFound 0x56).
Proof. vm_compute. reflexivity. Qed.

(** ** Readers stay usable *)

Section usable.
Context `{Crc : Crc32}.

(** Positions in range and a well-formed copied index. *)
Definition reader_ok (r : attachment_data_reader) : Prop :=
  match inner r with
  | Memory data pos => 0 <= pos <= zlen data
  | Blocks b => bbt_wf (bs_bbt b) ∧ 0 <= bs_chunk_pos b <= zlen (bs_chunk b)
  end.

Lemma copy_out_total data pos len : 0 <= pos <= zlen data → 0 <= len →
  never_panics (copy_out data pos len).1 ∧ 0 <= (copy_out data pos len).2 <= zlen data.
Proof. intros Hp Hl. unfold copy_out. cbn [fst snd]. rewrite slice_ok by lia. split; [done|lia]. Qed.

Lemma read_blocks_total fuel len b suspect :
  bbt_wf (bs_bbt b) → 0 <= bs_chunk_pos b <= zlen (bs_chunk b) → 0 <= len →
  (length (bs_leaf_bids b) - bs_leaf_index b < fuel)%nat →
  let r := wrun (read_blocks fuel len) (b, suspect) in
  never_panics r.1 ∧ bbt_wf (bs_bbt r.2.1) ∧ 0 <= bs_chunk_pos r.2.1 <= zlen (bs_chunk r.2.1).
Proof.
  intros Hwf. revert b suspect Hwf. induction fuel as [|fuel IH]; intros b suspect Hwf Hp Hl Hf; [lia|].
  cbn zeta. unfold wrun. cbn [read_blocks]. destruct (_ <? _).
  { destruct (copy_out_total (bs_chunk b) (bs_chunk_pos b) len Hp Hl). by cbn. }
  destruct (bs_leaf_bids b !! bs_leaf_index b) as [bid|] eqn:Eb; [|by cbn]. apply lookup_lt_Some in Eb.
  pose proof (read_leaf_block_data_never_panics (bs_reader b) (bs_bbt b) Hwf bid (bs_crypt b)) as Hn.
  cbn [at_chunk bs_reader bs_bbt bs_crypt bs_leaf_index].
  destruct (read_leaf_block_data _ _ _ _) as [[chunk|e| |] l]; cbn in Hn; try done.
  case_bool_decide as Ec.
  - subst chunk. cbn [fst snd]. apply (IH (at_chunk b (S (bs_leaf_index b)) [] 0)); cbn; [done|done|done|lia].
  - cbn [fst snd at_chunk bs_chunk bs_chunk_pos bs_bbt].
    pose proof (zlen_nonneg chunk). destruct (copy_out_total chunk 0 len ltac:(lia) Hl) as [H1 H2]. by split; [|split].
Qed.

Lemma attach_read_total r len : reader_ok r → 0 <= len →
  never_panics (wrun (attach_read len) r).1 ∧ reader_ok (wrun (attach_read len) r).2.
Proof.
  intros Hr Hl. unfold wrun, attach_read, reader_ok in *. destruct (inner r) as [data pos|b] eqn:Ei.
  - destruct (_ <=? _); cbn [fst snd inner]; [by rewrite Ei|]. by apply copy_out_total.
  - destruct Hr as [Hwf Hp]. by apply (read_blocks_total (S (length (bs_leaf_bids b))) len b (crc_suspect r) Hwf Hp Hl); lia.
Qed.

Lemma from_memory_ok data : reader_ok (from_memory data).
Proof. split; [done|apply zlen_nonneg]. Qed.

Lemma open_block_stream_ok pst reopened bid :
  bbt_wf (bbt pst) → holds (outcome (open_block_stream pst reopened bid)) reader_ok.
Proof.
  intros Hwf. pose proof from_memory_ok as Hm. unfold open_block_stream. autorewrite with outcome. apply holds_bind.
  eapply holds_mono; [by apply collect_leaf_data_bids_never_panics|]. intros leaves _. case_bool_decide; [apply Hm|].
  autorewrite with outcome. apply holds_bind. eapply (holds_mono _ (λ _, True)).
  - destruct leaves as [|b1 [|]]; try done. autorewrite with outcome. apply holds_bind.
    eapply holds_mono; [by apply read_leaf_block_data_never_panics|done].
  - intros [d|] _; [apply Hm|]. autorewrite with outcome. destruct reopened; [|done]. by split.
Qed.

(** Any reads of an opened attachment return bytes or an error. *)
Lemma drain_total lens r : reader_ok r → Forall (Z.le 0) lens → never_panics (wrun (drain lens) r).1.
Proof.
  intros Hr Hl. revert r Hr. induction Hl as [|n lens Hn _ IH]; intros r Hr; [done|].
  change (drain (n :: lens)) with (a ← attach_read n; b ← drain lens; mret (a ++ b)).
  destruct (attach_read_total r n Hr Hn) as [H1 H2]. apply wrun_bind_never_panics. eapply holds_mono; [exact H1|].
  intros a _. apply wrun_bind_never_panics. eapply holds_mono; [by apply IH|done].
Qed.
End usable.
