(* ===== verification/Embedded.v ===== *)
(** * Embedded messages of the reader (pst-reader/src/messaging/embedded.rs)

    A message attached to a message is a subnode of its attachment.  It is found by
    the object property of the attachment or by its node type, and is read for its
    identity (failing on anything unreadable) or for export (with the nested
    messages under it, bounded in depth and in bytes). *)

From stdpp Require Import sorting.
From S2P Require Import Prelude Telemetry PstError Crypt Nid Header Btree Block Heap Bth Utf PropContext TableContext Folder Text CivilDate Recipient Hasher Message NamedProp Attachment.
#[local] Open Scope Z_scope.

Definition MAX_EMBEDDED_IDENTITY_DEPTH : Z := 3.
Definition MAX_NESTED_EXPORT_PAYLOAD_BYTES : Z := 32 * 1024 * 1024.

(** [MessageNodeRef] *)
Record message_node := { mn_nid : Z; mn_bid_data : Z; mn_bid_sub : Z }.

(** [EmbeddedChildAttach] *)
Record child_attach := {
  ca_nid : Z; ca_filename : bstring; ca_size : Z; ca_mime_tag : option bstring;
  ca_attach_method : option Z; ca_is_inline : bool; ca_is_cloud_link : bool }.

(** [EmbeddedChildAttach::is_embedded_email], [From<&AttachmentInfo>] *)
Definition is_embedded_email (c : child_attach) : bool :=
  bool_decide (ca_attach_method c = Some ATTACH_EMBEDDED_MSG) ||
  is_some_and (λ m, contains (bytes_of "message/rfc822") (to_ascii_lowercase m)) (ca_mime_tag c).
Definition child_of_info (a : attachment_info) : child_attach :=
  {| ca_nid := ai_nid a; ca_filename := ai_filename a; ca_size := ai_size a; ca_mime_tag := ai_mime_tag a;
     ca_attach_method := ai_attach_method a; ca_is_inline := ai_is_inline a;
     ca_is_cloud_link := ai_is_cloud_link a |}.

(** [EmbeddedIdentityFields] *)
Record identity_fields := {
  if_subject : option bstring; if_submit_time : option Z; if_sender_email : option bstring;
  if_display_to : option bstring; if_display_cc : option bstring; if_display_bcc : option bstring;
  if_body_plain : option bstring; if_body_sha256 : option bstring; if_body_char_len : option Z;
  if_recipients : list recipient; if_child_attachments : list child_attach; if_crc_suspect : bool }.

(** [EmbeddedExportFields] without its attachments. *)
Record export_core := {
  ef_subject : option bstring; ef_sender : option bstring; ef_display_to : option bstring;
  ef_display_cc : option bstring; ef_display_bcc : option bstring; ef_recipients : list recipient;
  ef_message_id : option bstring; ef_message_class : option bstring; ef_message_flags : option Z;
  ef_submit_time : option Z; ef_body_plain : option bstring; ef_body_html : option (list byte);
  ef_body_incomplete : bool; ef_body_unavailable : bool; ef_attachments_incomplete : bool;
  ef_source : message_node }.

(** [EmbeddedExportFields] and [EmbeddedExportAttach], which hold each other. *)
Inductive export_fields := ExportFields (core : export_core) (attachments : list export_attach)
with export_attach :=
  ExportAttach (child : child_attach) (stream_available : bool) (embedded : option export_fields)
    (embedded_depth_limited : bool).

(** ** Steps of a walk *)

(** A scope around a walk, as [scoped] around a read. *)
Definition wscoped {S A} (m : pwalk S (bool → A)) : pwalk S A := λ s,
  match m s with
  | ((Ok f, s), l) => ((Ok (f (existsb block_mismatch l)), s), l)
  | ((Err e, s), l) => ((Err e, s), l)
  | ((Panic, s), l) => ((Panic, s), l)
  | ((NoFuel, s), l) => ((NoFuel, s), l)
  end.

(** [match m { Ok(a) => .., Err(e) => .. }] *)
Definition try_walk {S A} (m : pwalk S A) : pwalk S (pst_error + A) := λ s,
  match m s with
  | ((Ok a, s), l) => ((Ok (inr a), s), l)
  | ((Err e, s), l) => ((Ok (inl e), s), l)
  | ((Panic, s), l) => ((Panic, s), l)
  | ((NoFuel, s), l) => ((NoFuel, s), l)
  end.

(** [require_present_table_data_bid] *)
Definition require_present_table_data_bid (entry : subnode_entry) : pres unit :=
  if is_null (sub_bid_data entry) then Err (BlockNotFound 0) else Ok ().

Definition has_type (ty : nid_type_t) (e : subnode_entry) : bool := bool_decide (nid_type (sub_nid e) = ty).

Section embedded.
Context `{Crc : Crc32} (pst : pst_file).
Abbreviation crypt := (header_crypt (header pst)).

(** ** Finding the nested message *)

(** [PstFile::message_node_from_nbt] *)
Definition message_node_from_nbt (message_nid : Z) : pres message_node :=
  e ← ok_or (nbt_get (nbt pst) message_nid) (NodeNotFound message_nid);
  Ok {| mn_nid := message_nid; mn_bid_data := bid_data e; mn_bid_sub := bid_sub e |}.

Definition node_of_entry (e : subnode_entry) : message_node :=
  {| mn_nid := sub_nid e; mn_bid_data := sub_bid_data e; mn_bid_sub := sub_bid_sub e |}.

(** The subnode that the object property of the attachment names; every error on
    the way leaves it unknown. *)
Definition embedded_by_object (att_entry : subnode_entry) : pio (option subnode_entry) :=
  if is_null (sub_bid_data att_entry) then mret None
  else
    att_data ← attempt (read_block_data (reader pst) (bbt pst) (sub_bid_data att_entry) crypt);
    match att_data with
    | None => mret None
    | Some att_data =>
        pc ← attempt (quiet (pc_load att_data));
        match pc with
        | None => mret None
        | Some pc =>
            obj ← quiet (soft (get_object pc PID_TAG_ATTACH_DATA_BINARY));
            match obj with
            | None => mret None
            | Some (obj_nid, _) =>
                nested ← attempt (find_subnode_entry (reader pst) (bbt pst) (sub_bid_sub att_entry) obj_nid);
                mret (default None nested)
            end
        end
    end.

(** [PstFile::resolve_embedded_from_attach_entry] *)
Definition resolve_embedded_from_attach_entry (att_entry : subnode_entry) : pio message_node :=
  if is_null (sub_bid_sub att_entry) then quiet (Err (NoSubnodeBTree (sub_nid att_entry)))
  else
    nested ← embedded_by_object att_entry;
    match nested with
    | Some nested => mret (node_of_entry nested)
    | None =>
        subs ← list_subnode_entries (reader pst) (bbt pst) (sub_bid_sub att_entry);
        nested ← quiet (ok_or (find (has_type NormalMessage) subs) (SubnodeNotFound (sub_nid att_entry)));
        mret (node_of_entry nested)
    end.

(** [PstFile::resolve_embedded_root], [resolve_embedded_root_nbt] *)
Definition resolve_embedded_root (parent : message_node) (attach_nid : Z) : pio message_node :=
  if is_null (mn_bid_sub parent) then quiet (Err (NoSubnodeBTree (mn_nid parent)))
  else
    found ← find_subnode_entry (reader pst) (bbt pst) (mn_bid_sub parent) attach_nid;
    att_entry ← quiet (ok_or found (SubnodeNotFound attach_nid));
    resolve_embedded_from_attach_entry att_entry.
Definition resolve_embedded_root_nbt (parent_msg_nid attach_nid : Z) : pio message_node :=
  parent ← quiet (message_node_from_nbt parent_msg_nid);
  resolve_embedded_root parent attach_nid.

(** ** Recipients and attachments of a message node *)

(** [PstFile::list_recipients_from_message_node] *)
Definition list_recipients_from_message_node (root : message_node) : pio (list recipient) :=
  if is_null (mn_bid_sub root) then mret []
  else
    sub_entries ← list_subnode_entries (reader pst) (bbt pst) (mn_bid_sub root);
    match find (has_type RecipientTable) sub_entries with
    | None => mret []
    | Some recip_entry =>
        _ ← quiet (require_present_table_data_bid recip_entry);
        data ← read_block_data (reader pst) (bbt pst) (sub_bid_data recip_entry) crypt;
        table ← load_from_table_bids data (reader pst) (bbt pst) (sub_bid_sub recip_entry) crypt;
        quiet (table_recipients table)
    end.

(** [PstFile::read_embedded_child_from_entry] *)
Definition child_row (provider_npid : option Z) (nid : Z) (att_data : list byte) : pres child_attach :=
  pc ← pc_load att_data;
  filename ← attach_filename pc;
  size ← attach_size pc;
  mime_tag ← get_str pc PID_TAG_ATTACH_MIME_TAG;
  attach_method ← get_i32 pc PID_TAG_ATTACH_METHOD;
  is_inline ← attach_is_inline pc;
  kind ← classify_attach_pc pc provider_npid filename;
  Ok {| ca_nid := nid; ca_filename := filename; ca_size := size; ca_mime_tag := mime_tag;
        ca_attach_method := attach_method; ca_is_inline := is_inline;
        ca_is_cloud_link := match kind with CloudLink _ _ => true | Classic => false end |}.
Definition read_embedded_child_from_entry (entry : subnode_entry) (provider_npid : option Z) : pio child_attach :=
  att_data ← read_block_data (reader pst) (bbt pst) (sub_bid_data entry) crypt;
  quiet (child_row provider_npid (sub_nid entry) att_data).

(** The rows kept and the rows skipped; an error fails the list or is counted. *)
Definition keep_child (fail_on_row_error : bool) (acc : list child_attach * Z) (row : pio child_attach)
    : pio (list child_attach * Z) :=
  match row with
  | (Ok child, l) => (Ok (acc.1 ++ [child], acc.2), l)
  | (Err e, l) => (if fail_on_row_error then Err e else Ok (acc.1, Z.min (acc.2 + 1) (2 ^ 32 - 1)), l)
  | (Panic, l) => (Panic, l)
  | (NoFuel, l) => (NoFuel, l)
  end.

(** [PstFile::list_attachments_via_attach_table]; of entries with one NID the hash
    map keeps the last. *)
Definition table_child (table : table_context) (attach_by_nid : gmap Z subnode_entry)
    (provider_npid : option Z) (row : nat) : pio child_attach :=
  nid ← quiet (ok_or (get_row_id table (Z.of_nat row)) (DataTruncated 4 0));
  entry ← quiet (ok_or (attach_by_nid !! nid) (SubnodeNotFound nid));
  read_embedded_child_from_entry entry provider_npid.
Definition attachments_by_nid (sub_entries : list subnode_entry) : gmap Z subnode_entry :=
  foldl (λ m e, <[sub_nid e := e]> m) ∅ (filter (λ e, has_type Attachment e = true) sub_entries).
Definition list_attachments_via_attach_table (table_entry : subnode_entry) (sub_entries : list subnode_entry)
    (provider_npid : option Z) (fail_on_row_error : bool) : pio (list child_attach * Z) :=
  _ ← quiet (require_present_table_data_bid table_entry);
  data ← read_block_data (reader pst) (bbt pst) (sub_bid_data table_entry) crypt;
  table ← load_from_table_bids data (reader pst) (bbt pst) (sub_bid_sub table_entry) crypt;
  mfold (λ acc row, keep_child fail_on_row_error acc
           (table_child table (attachments_by_nid sub_entries) provider_npid row))
    (seq 0 (Z.to_nat (row_count table))) ([], 0).

(** [PstFile::list_attachments_by_subnode_enum] *)
Definition list_attachments_by_subnode_enum (sub_entries : list subnode_entry) (provider_npid : option Z)
    (fail_on_row_error : bool) : pio (list child_attach * Z) :=
  mfold (λ acc entry,
      if negb (has_type Attachment entry) then mret acc
      else keep_child fail_on_row_error acc (read_embedded_child_from_entry entry provider_npid))
    sub_entries ([], 0).

(** [PstFile::list_attachments_from_message_node] *)
Definition list_attachments_from_message_node (root : message_node) (fail_on_row_error : bool)
    : pwalk map_cache (list child_attach * Z) :=
  if is_null (mn_bid_sub root) then mret ([], 0)
  else
    sub_entries ← lift (list_subnode_entries (reader pst) (bbt pst) (mn_bid_sub root));
    m ← name_id_map_of pst;
    let provider_npid := attachment_provider_type_npid m in
    match find (has_type AttachmentTable) sub_entries with
    | Some table_entry =>
        lift (list_attachments_via_attach_table table_entry sub_entries provider_npid fail_on_row_error)
    | None =>
        if existsb (has_type Attachment) sub_entries then
          if fail_on_row_error then pure (Err (SubnodeNotFound 0x671))
          else lift (list_attachments_by_subnode_enum sub_entries provider_npid fail_on_row_error)
        else mret ([], 0)
    end.

(** ** Identity *)

Context `{Platform, Sha256}.

Definition over_budget (len : option Z) (budget : Z) : bool := is_some_and (λ n, budget <? n) len.

(** The body of an embedded message with its digest; errors leave it absent. *)
Definition identity_body (pc : prop_context) (body_byte_budget : Z)
    : pres (option bstring * option bstring * option Z) :=
  match get_str pc PID_TAG_BODY with
  | Ok (Some b) =>
      if body_byte_budget <? zlen b then Err (ResourceLimit (EmbeddedBodyUtf8 (zlen b) body_byte_budget))
      else Ok (Some b, Some (sha256 (normalized_body b)), Some (zlen (chars (normalized_body b))))
  | Ok None => Ok (None, None, None)
  | Err _ => Ok (None, None, None)
  | Panic => Panic
  | NoFuel => NoFuel
  end.

(** The reads from the property context of [read_identity_from_message_node]. *)
Definition identity_of_pc (pc : prop_context) (body_byte_budget : Z)
    : pres (list recipient → list child_attach → bool → identity_fields) :=
  subject ← get_str pc PID_TAG_SUBJECT;
  submit_time ← get_time pc PID_TAG_CLIENT_SUBMIT_TIME;
  display_bcc ← soft (get_str pc PID_TAG_DISPLAY_BCC);
  display_cc ← soft (get_str pc PID_TAG_DISPLAY_CC);
  sender ← sender_email pc;
  display_to ← get_str pc PID_TAG_DISPLAY_TO;
  raw_len ← prop_value_byte_len pc PID_TAG_BODY;
  if over_budget raw_len body_byte_budget
  then Err (ResourceLimit (EmbeddedBodyRaw (default 0 raw_len) body_byte_budget))
  else
    body ← identity_body pc body_byte_budget;
    Ok (λ recipients children suspect,
      {| if_subject := subject; if_submit_time := submit_time; if_sender_email := sender;
         if_display_to := display_to; if_display_cc := display_cc; if_display_bcc := display_bcc;
         if_body_plain := body.1.1; if_body_sha256 := body.1.2; if_body_char_len := body.2;
         if_recipients := recipients; if_child_attachments := children; if_crc_suspect := suspect |}).

(** [PstFile::read_identity_from_message_node] *)
Definition read_identity_from_message_node (root : message_node) (body_byte_budget : Z)
    : pwalk map_cache identity_fields :=
  wscoped (
    prop_ctx ← lift (load_pc_from_bids_with_body_budget (reader pst) (bbt pst) crypt
                       (mn_bid_data root) (mn_bid_sub root) [PID_TAG_BODY] body_byte_budget);
    mk ← pure (identity_of_pc prop_ctx body_byte_budget);
    recipients ← lift (list_recipients_from_message_node root);
    children ← list_attachments_from_message_node root true;
    mret (mk recipients children.1)).

(** [PstFile::read_embedded_message_identity] *)
Definition read_embedded_message_identity (parent_msg_nid attach_nid body_byte_budget : Z)
    : pwalk map_cache identity_fields :=
  root ← lift (resolve_embedded_root_nbt parent_msg_nid attach_nid);
  read_identity_from_message_node root body_byte_budget.

(** ** Export *)

(** The closure [charge]. *)
Definition charge (used n budget : Z) (what : string) : pres Z :=
  let next := sat_add used n in
  if budget <? next then Err (ResourceLimit (NestedExport what next budget)) else Ok next.

(** A body part: what it holds, the bytes used so far, incomplete, unavailable. *)
Record part_read := { pr_data : option (list byte); pr_used : Z; pr_incomplete : bool; pr_unavailable : bool }.

Definition charged (used : Z) (b : list byte) (budget : Z) (what : string) : pres part_read :=
  next ← charge used (zlen b) budget what;
  Ok {| pr_data := Some b; pr_used := next; pr_incomplete := false; pr_unavailable := false |}.
Definition without (used : Z) (incomplete unavailable : bool) : part_read :=
  {| pr_data := None; pr_used := used; pr_incomplete := incomplete; pr_unavailable := unavailable |}.

Definition export_body (pc : prop_context) (used payload_budget : Z) : pres part_read :=
  raw_len ← prop_value_byte_len pc PID_TAG_BODY;
  if over_budget raw_len (Z.max 0 (payload_budget - used))
  then Err (ResourceLimit (ExportBodyRaw (default 0 raw_len)))
  else
    match get_str pc PID_TAG_BODY with
    | Ok (Some b) => charged used b payload_budget "body_plain"
    | Ok None => Ok (without used false false)
    | Err (ResourceLimit _) => Err (ResourceLimit ExportBodyBudget)
    | Err e => let truncated := is_truncation_or_crc e in Ok (without used truncated (negb truncated))
    | Panic => Panic
    | NoFuel => NoFuel
    end.

Definition export_html (pc : prop_context) (used payload_budget : Z) : pres part_read :=
  raw_len ← prop_value_byte_len pc PID_TAG_BODY_HTML;
  if over_budget raw_len (Z.max 0 (payload_budget - used))
  then Err (ResourceLimit (ExportHtmlRaw (default 0 raw_len)))
  else
    match get_str pc PID_TAG_BODY_HTML with
    | Ok (Some s) => charged used s payload_budget "body_html"
    | Ok None =>
        match get_binary pc PID_TAG_BODY_HTML with
        | Ok (Some b) => charged used b payload_budget "body_html"
        | Ok None => Ok (without used false false)
        | Err _ => Ok (without used true false)
        | Panic => Panic
        | NoFuel => NoFuel
        end
    | Err _ => Ok (without used true false)
    | Panic => Panic
    | NoFuel => NoFuel
    end.

(** The reads from the property context of [read_export_from_message_node], with
    the bytes they use. *)
Definition export_of_pc (root : message_node) (pc : prop_context) (payload_budget : Z)
    : pres (Z * (list recipient → bool → bool → export_core)) :=
  subject ← get_str pc PID_TAG_SUBJECT;
  submit_time ← get_time pc PID_TAG_CLIENT_SUBMIT_TIME;
  display_bcc ← soft (get_str pc PID_TAG_DISPLAY_BCC);
  display_cc ← soft (get_str pc PID_TAG_DISPLAY_CC);
  sender ← sender_email pc;
  display_to ← get_str pc PID_TAG_DISPLAY_TO;
  message_id ← get_str pc PID_TAG_INTERNET_MESSAGE_ID;
  message_class ← get_str pc PID_TAG_MESSAGE_CLASS;
  flags ← get_i32 pc PID_TAG_MESSAGE_FLAGS;
  body ← export_body pc 0 payload_budget;
  html ← export_html pc (pr_used body) payload_budget;
  Ok (pr_used html, λ recipients recipients_incomplete attachments_incomplete,
    {| ef_subject := subject; ef_sender := sender; ef_display_to := display_to;
       ef_display_cc := display_cc; ef_display_bcc := display_bcc; ef_recipients := recipients;
       ef_message_id := message_id; ef_message_class := message_class;
       ef_message_flags := option_map (wrap 32) flags; ef_submit_time := submit_time;
       ef_body_plain := pr_data body; ef_body_html := pr_data html;
       ef_body_incomplete := pr_incomplete body || pr_incomplete html || recipients_incomplete;
       ef_body_unavailable := pr_unavailable body;
       ef_attachments_incomplete := attachments_incomplete; ef_source := root |}).

(** The nested message of one child: its export, and whether depth or budget cut it. *)
Definition export_nested (read_nested : option (message_node → pwalk map_cache export_fields))
    (root : message_node) (child : child_attach) : pwalk map_cache (option export_fields * bool) :=
  match read_nested with
  | None => mret (None, true)
  | Some read_nested =>
      nested_root ← lift (attempt (resolve_embedded_root root (ca_nid child)));
      match nested_root with
      | None => mret (None, false)
      | Some nested_root =>
          r ← try_walk (read_nested nested_root);
          mret (match r with
                | inr fields => (Some fields, false)
                | inl (ResourceLimit _) => (None, true)
                | inl _ => (None, false)
                end)
      end
  end.

(** The loop over the children. *)
Definition export_child (read_nested : option (message_node → pwalk map_cache export_fields))
    (root : message_node) (payload_budget : Z) (acc : Z * list export_attach) (child : child_attach)
    : pwalk map_cache (Z * list export_attach) :=
  used ← pure (charge acc.1 (ca_size child) payload_budget "child_attach_size");
  let is_method5 := bool_decide (ca_attach_method child = Some ATTACH_EMBEDDED_MSG) in
  nested ← (if is_method5 then export_nested read_nested root child else mret (None, false));
  mret (used, acc.2 ++ [ExportAttach child (negb is_method5 && negb (ca_is_cloud_link child)) nested.1 nested.2]).

(** [PstFile::read_export_from_message_node]; [remaining_child_depth] is a [u32]. *)
Fixpoint read_export_from_message_node (remaining_child_depth : nat) (payload_budget : Z) (root : message_node)
    : pwalk map_cache export_fields :=
  prop_ctx ← lift (load_pc_from_bids_with_body_budget (reader pst) (bbt pst) crypt
                     (mn_bid_data root) (mn_bid_sub root) [PID_TAG_BODY; PID_TAG_BODY_HTML] payload_budget);
  um ← pure (export_of_pc root prop_ctx payload_budget);
  recipients ← lift (attempt (list_recipients_from_message_node root));
  children ← list_attachments_from_message_node root false;
  exported ← mfold (export_child
      (match remaining_child_depth with
       | O => None
       | S depth => Some (read_export_from_message_node depth payload_budget)
       end) root payload_budget) children.1 (um.1, []);
  mret (ExportFields (um.2 (default [] recipients) (negb (is_some_and (λ _, true) recipients)) (0 <? children.2))
          exported.2).

(** ** Attachment data *)

(** [PstFile::open_attach_data_from_message_node]; the scope marks the reader. *)
Definition open_attach_data_from_message_node_inner (reopened : option (list byte)) (root : message_node)
    (attach_nid : Z) : pio attachment_data_reader :=
  if is_null (mn_bid_sub root) then quiet (Err (NoSubnodeBTree (mn_nid root)))
  else
    found ← find_subnode_entry (reader pst) (bbt pst) (mn_bid_sub root) attach_nid;
    att_entry ← quiet (ok_or found (SubnodeNotFound attach_nid));
    open_attach_entry pst reopened true att_entry.
Definition open_attach_data_from_message_node (reopened : option (list byte)) (root : message_node)
    (attach_nid : Z) : pio attachment_data_reader :=
  opened_in_scope (open_attach_data_from_message_node_inner reopened root attach_nid).
End embedded.
