(* ===== verification/EmbeddedFacts.v ===== *)
(** * Facts about attachment lists and embedded messages

    Listing, opening, identity and export are total; the strict lists omit nothing and
    are the soft lists that omit nothing; an export respects its depth and its budget
    and marks exactly the children that they cut. *)

From stdpp Require Import sorting.
From S2P Require Import Prelude Telemetry PstError Crypt Nid Header Btree Block BlockFacts Streaming Subnode Heap Bth Utf PropContext PropContextFacts TableContext TableContextFacts Folder Text CivilDate Recipient Hasher HasherFacts Message NamedProp Attachment AttachmentFacts Embedded.
#[local] Open Scope Z_scope.

(** ** Totality *)

Section row_total.
Context (pc : prop_context) (Hpc : heap_wf (pc_heap pc)).

Lemma attach_filename_never_panics : never_panics (attach_filename pc).
Proof. unfold attach_filename. total_step. case_match; [done|by total_step]. Qed.
Lemma attach_size_never_panics : never_panics (attach_size pc).
Proof. unfold attach_size. by total_step. Qed.
Lemma attach_is_inline_never_panics : never_panics (attach_is_inline pc).
Proof. unfold attach_is_inline. by repeat total_step. Qed.

Lemma has_payload_never_panics : never_panics (has_usable_binary_payload pc).
Proof. unfold has_usable_binary_payload. by total_step. Qed.
Lemma cloud_url_never_panics filename : never_panics (extract_cloud_url pc filename).
Proof. unfold extract_cloud_url. do 4 total_step. by case_match. Qed.

Lemma classify_never_panics npid filename : never_panics (classify_attach_pc pc npid filename).
Proof.
  pose proof has_payload_never_panics. pose proof (cloud_url_never_panics filename).
  unfold classify_attach_pc. do 3 total_step. apply holds_bind.
  destruct npid; [by total_step|done].
Qed.
End row_total.

#[export] Hint Resolve attach_filename_never_panics attach_size_never_panics attach_is_inline_never_panics
  classify_never_panics : total.

Lemma attach_row_never_panics provider permission nid d : never_panics (attach_row provider permission nid d).
Proof.
  unfold attach_row. apply holds_bind. eapply holds_mono; [apply load_with_subnodes_wf|]. intros pc Hpc. cbn beta in Hpc.
  do 6 total_step. apply holds_bind. destruct permission; [|done].
  apply (holds_mono _ (λ _, True)); [change_never_panics; auto with total|done].
Qed.

Lemma child_row_never_panics npid nid d : never_panics (child_row npid nid d).
Proof.
  unfold child_row. apply holds_bind. eapply holds_mono; [apply load_with_subnodes_wf|]. intros pc Hpc. cbn beta in Hpc.
  by do 6 total_step.
Qed.

(** ** Walks that cannot panic *)

(** Whatever the state, the walk returns a value with [Q] or an error. *)
Definition wholds {S A} (m : pwalk S A) (Q : A → Prop) : Prop := ∀ s, holds (wrun m s).1 Q.

Definition wtotal {S A} (m : pwalk S A) : Prop := wholds m (λ _, True).

Section wholds.
Context {S : Type}.
Lemma wholds_ret {A} (a : A) (Q : A → Prop) : Q a → wholds (mret a : pwalk S A) Q.
Proof. by intros ? ?. Qed.
Lemma wholds_lift {A} (m : pio A) Q : holds (outcome m) Q → wholds (lift m : pwalk S A) Q.
Proof. intros H s. by rewrite wrun_lift. Qed.
Lemma wholds_pure {A} (m : pres A) Q : holds m Q → wholds (pure m : pwalk S A) Q.
Proof. intros H s. by rewrite wrun_pure. Qed.
Lemma wholds_bind {A B} (m : pwalk S A) (f : A → pwalk S B) P Q :
  wholds m P → (∀ a, P a → wholds (f a) Q) → wholds (m ≫= f) Q.
Proof.
  intros Hm Hf s. rewrite wrun_bind. specialize (Hm s). destruct (wrun m s) as [[a|e| |] s']; try done. by apply Hf.
Qed.
Lemma wholds_mono {A} (m : pwalk S A) (P Q : A → Prop) : wholds m P → (∀ a, P a → Q a) → wholds m Q.
Proof. intros Hm HQ s. eapply holds_mono; [apply Hm|done]. Qed.
Lemma wholds_mfold {A B} (f : B → A → pwalk S B) (I : B → Prop) l b :
  I b → (∀ b x, I b → wholds (f b x) I) → wholds (mfold f l b) I.
Proof.
  intros Hb Hf. revert b Hb. induction l as [|x l IH]; intros b Hb; [by apply wholds_ret|].
  apply (wholds_bind (f b x) _ I); [by apply Hf|]. intros b' Hb'. by apply IH.
Qed.

Lemma wtotal_ret {A} (a : A) : wtotal (mret a : pwalk S A).
Proof. done. Qed.
Lemma wtotal_pure {A} (m : pres A) : never_panics m → wtotal (pure m : pwalk S A).
Proof. apply wholds_pure. Qed.
Lemma wtotal_lift {A} (m : pio A) : never_panics (outcome m) → wtotal (lift m : pwalk S A).
Proof. apply wholds_lift. Qed.
Lemma wtotal_bind {A B} (m : pwalk S A) (f : A → pwalk S B) : wtotal m → (∀ a, wtotal (f a)) → wtotal (m ≫= f).
Proof. intros Hm Hf. apply (wholds_bind _ _ (λ _, True)); [done|]. intros a _. apply Hf. Qed.
Lemma wtotal_mfold {A B} (f : B → A → pwalk S B) l b : (∀ b x, wtotal (f b x)) → wtotal (mfold f l b).
Proof. intros Hf. apply wholds_mfold; [done|]. intros b' x _. apply Hf. Qed.
Lemma wtotal_scoped {A} (m : pwalk S (bool → A)) : wtotal m → wtotal (wscoped m).
Proof. intros Hm s. specialize (Hm s). unfold wrun, wscoped in *. by destruct (m s) as [[[] ?] ?]. Qed.
Lemma wholds_try {A} (m : pwalk S A) Q : wholds m Q → wholds (try_walk m) (λ r, match r with inr a => Q a | inl _ => True end).
Proof. intros Hm s. specialize (Hm s). unfold wrun, try_walk in *. by destruct (m s) as [[[] ?] ?]. Qed.
End wholds.

(** Where a walk ends from one state: a value with the state, or an error with the state. *)
Definition wends {S A} (m : pwalk S A) (s : S) (Q : A → S → Prop) (E : S → Prop) : Prop :=
  match wrun m s with (Ok a, s') => Q a s' | (Err _, s') => E s' | _ => False end.

Section wends.
Context {S : Type}.
Lemma wends_ret {A} (a : A) s (Q : A → S → Prop) E : Q a s → wends (mret a) s Q E.
Proof. done. Qed.
Lemma wends_lift {A} (m : pio A) (s : S) Q E : holds (outcome m) (λ a, Q a s) → E s → wends (lift m) s Q E.
Proof. intros H HE. unfold wends. rewrite wrun_lift. by destruct (outcome m). Qed.
Lemma wends_pure {A} (m : pres A) (s : S) Q E : holds m (λ a, Q a s) → E s → wends (pure m) s Q E.
Proof. intros H HE. unfold wends. rewrite wrun_pure. by destruct m. Qed.
Lemma wends_bind {A B} (m : pwalk S A) (f : A → pwalk S B) s P Q E :
  wends m s P E → (∀ a s', P a s' → wends (f a) s' Q E) → wends (m ≫= f) s Q E.
Proof.
  unfold wends. intros Hm Hf. rewrite wrun_bind. destruct (wrun m s) as [[a|e| |] s']; try done. by apply Hf.
Qed.
Lemma wends_mono {A} (m : pwalk S A) s (P Q : A → S → Prop) (E E' : S → Prop) :
  wends m s P E → (∀ a s', P a s' → Q a s') → (∀ s', E s' → E' s') → wends m s Q E'.
Proof. unfold wends. intros Hm HQ HE. destruct (wrun m s) as [[a|e| |] s']; auto. Qed.
Lemma wends_mfold {A B} (f : B → A → pwalk S B) (I : B → S → Prop) E l b s :
  I b s → (∀ b x s, I b s → wends (f b x) s I E) → wends (mfold f l b) s I E.
Proof.
  intros Hb Hf. revert b s Hb. induction l as [|x l IH]; intros b s Hb; [by apply wends_ret|].
  apply (wends_bind (f b x) _ s I); [by apply Hf|]. intros b' s' Hb'. by apply IH.
Qed.
Lemma wends_try {A} (m : pwalk S A) s Q E :
  wends m s (λ a s', ∀ r, wrun m s = (r, s') → Q (inr a) s') (λ s', ∀ e, wrun m s = (Err e, s') → Q (inl e) s') → wends (try_walk m) s Q E.
Proof. unfold wends, wrun, try_walk. destruct (m s) as [[[a|e| |] s'] l]; cbn; [intros H; by eapply H|intros H; by apply H|done..]. Qed.
End wends.

Lemma attempt_total {A} (m : pio A) : never_panics (outcome m) → never_panics (outcome (attempt m)).
Proof. intros H. apply holds_attempt; [|done]. eapply holds_mono; [exact H|done]. Qed.

Section total.
Context `{Crc : Crc32} (pst : pst_file) (Hwf : bbt_wf (bbt pst)).
Abbreviation file := (reader pst).
Abbreviation crypt := (header_crypt (header pst)).

Lemma read_block_total bid : never_panics (outcome (read_block_data file (bbt pst) bid crypt)).
Proof. eapply holds_mono; [by apply read_block_data_bound|done]. Qed.

Lemma budget_load_wf bid_data bid_sub ids budget :
  holds (outcome (load_pc_from_bids_with_body_budget file (bbt pst) crypt bid_data bid_sub ids budget))
    (λ pc, heap_wf (pc_heap pc)).
Proof.
  unfold load_pc_from_bids_with_body_budget. autorewrite with outcome. apply holds_bind.
  eapply holds_mono; [apply read_block_total|]. intros data _. autorewrite with outcome. apply holds_bind.
  eapply (holds_mono _ (λ _, True)).
  { unfold budgeted. apply holds_mfold; [done|]. intros b x _ _. apply holds_bind. unfold body_subnode_value_hnid.
    apply holds_bind. eapply holds_mono; [apply parse_pc_wf|done]. }
  intros bh _. autorewrite with outcome. apply holds_bind. eapply (holds_mono _ (λ _, True)).
  { destruct (is_null bid_sub); [done|]. autorewrite with outcome. apply holds_bind.
    eapply holds_mono; [apply referenced_never_panics|]. intros needed _. case_decide; [done|].
    autorewrite with outcome. apply holds_bind. eapply holds_mono; [by apply list_subnode_entries_never_panics|].
    intros entries _. autorewrite with outcome. apply holds_bind. eapply (holds_mono _ (λ _, True)).
    - unfold preflight. autorewrite with outcome. apply holds_mfold; [done|]. intros agg ph _ _.
      autorewrite with outcome. apply holds_mfold; [done|]. intros agg' e _ _. destruct (_ || _); [done|].
      autorewrite with outcome. apply holds_bind. rewrite outcome_len_hint by done.
      eapply holds_mono; [apply len_hint_never_panics|]. intros h _. by destruct (_ <? _).
    - intros _ _. by apply read_needed_never_panics. }
  intros subs _. apply load_with_subnodes_wf.
Qed.

Lemma name_id_map_total_walk : wtotal (name_id_map_of pst).
Proof.
  intros cache. destruct (load_name_id_map_ok pst cache Hwf) as (m & Hm & _). unfold wrun, name_id_map_of.
  destruct (load_name_id_map pst cache) as [o l]. cbn in Hm. by subst o.
Qed.

Lemma list_attachments_inner_total nid b : wtotal (list_attachments_inner pst nid b).
Proof.
  unfold list_attachments_inner. destruct (nbt_get _ _) as [e|]; [|apply wtotal_ret].
  destruct (is_null _); [apply wtotal_ret|].
  apply wtotal_bind; [by apply wtotal_lift, list_subnode_entries_never_panics|]. intros subs.
  do 2 (apply wtotal_bind; [apply name_id_map_total_walk|intros ?]).
  apply wtotal_mfold. intros infos x. destruct (negb _); [apply wtotal_ret|].
  apply wtotal_bind; [apply wtotal_lift, read_block_total|]. intros d. apply wtotal_pure.
  pose proof (attach_row_never_panics (attachment_provider_type_npid a) (attachment_permission_type_npid a0) (sub_nid x) d) as Hr.
  unfold keep_row. destruct (attach_row _ _ _ _); try done. by destruct b.
Qed.

Lemma open_attach_entry_ok reopened spare e : holds (outcome (open_attach_entry pst reopened spare e)) reader_ok.
Proof.
  pose proof (λ bid, open_block_stream_ok pst reopened bid Hwf) as Hopen. pose proof from_memory_ok as Hmem.
  assert (Hopen' : ∀ bid, holds (outcome (r ← open_block_stream pst reopened bid; mret (Some r))) (λ o, ∀ r, o = Some r → reader_ok r)).
  { intros bid. autorewrite with outcome. apply holds_bind. eapply holds_mono; [apply Hopen|]. by intros r Hr ? [= <-]. }
  unfold open_attach_entry. autorewrite with outcome. apply holds_bind.
  eapply holds_mono; [apply read_block_total|]. intros d _. autorewrite with outcome. apply holds_bind.
  eapply holds_mono; [apply load_with_subnodes_wf|]. intros pc Hpc. cbn beta in Hpc. autorewrite with outcome. total_step.
  destruct a as [b|]; [apply Hmem|]. autorewrite with outcome. apply holds_bind.
  eapply (holds_mono _ (λ o, ∀ r, o = Some r → reader_ok r)).
  - destruct (get_raw_hnid _ _) as [[ty h]|]; [|done]. destruct (h =? 0); [done|].
    unfold open_subnode_value, resolve_subnode_data_stream. rewrite outcome_bind. apply holds_bind.
    eapply (holds_mono _ (λ o, ∀ r, o = Some r → reader_ok r)).
    + destruct (is_null _); [done|]. rewrite outcome_bind. apply holds_bind.
      eapply holds_mono; [by apply find_subnode_entry_never_panics|]. intros [s|] _; [apply Hopen'|done].
    + intros [src|] Hsrc; [exact Hsrc|]. destruct (is_null _); [done|]. rewrite outcome_bind. apply holds_bind.
      eapply holds_mono; [by apply attempt_total, read_subnode_data_never_panics|]. intros [data|] _; [|done].
      destruct (_ <=? _); [by intros r [= <-]|]. rewrite outcome_bind. apply holds_bind.
      eapply holds_mono; [by apply find_subnode_entry_never_panics|]. intros [s|] _; [apply Hopen'|done].
  - intros [src|] Hsrc; [by apply Hsrc|]. autorewrite with outcome. apply holds_bind. eapply (holds_mono _ (λ _, True)).
    + destruct (is_null _); [done|]. autorewrite with outcome. apply holds_bind.
      eapply holds_mono; [by apply list_subnode_entries_never_panics|done].
    + intros [f|] _; [|done]. destruct (_ && _); [done|apply Hopen].
Qed.

Lemma opened_in_scope_holds m : holds (outcome m) reader_ok → holds (outcome (opened_in_scope m)) reader_ok.
Proof. destruct m as [[r| | |] l]; try done. cbn. by destruct (existsb _ _). Qed.

Lemma open_attachment_data_ok reopened nid attach : holds (outcome (open_attachment_data pst reopened nid attach)) reader_ok.
Proof.
  apply opened_in_scope_holds. unfold open_attachment_data_inner. autorewrite with outcome.
  destruct (nbt_get _ _) as [e|]; [|done]. cbn [ok_or]. rewrite bind_ok. destruct (is_null _); [done|].
  autorewrite with outcome. apply holds_bind. eapply holds_mono; [by apply find_subnode_entry_never_panics|].
  intros [s|] _; [|done]. autorewrite with outcome. cbn [ok_or]. rewrite bind_ok. apply open_attach_entry_ok.
Qed.
End total.

Section node_total.
Context `{Crc : Crc32} (pst : pst_file) (Hwf : bbt_wf (bbt pst)).
Abbreviation file := (reader pst).
Abbreviation crypt := (header_crypt (header pst)).

Lemma resolve_embedded_root_total parent attach : never_panics (outcome (resolve_embedded_root pst parent attach)).
Proof.
  unfold resolve_embedded_root. destruct (is_null _); [done|]. autorewrite with outcome. apply holds_bind.
  eapply holds_mono; [by apply find_subnode_entry_never_panics|]. intros [e|] _; [|done].
  autorewrite with outcome. cbn [ok_or]. rewrite bind_ok. unfold resolve_embedded_from_attach_entry.
  destruct (is_null _); [done|]. autorewrite with outcome. apply holds_bind. eapply (holds_mono _ (λ _, True)).
  - unfold embedded_by_object. destruct (is_null _); [done|]. autorewrite with outcome. apply holds_bind.
    eapply holds_mono; [by apply attempt_total, read_block_total|]. intros [d|] _; [|done].
    autorewrite with outcome. apply holds_bind. apply holds_attempt; [|done].
    eapply holds_mono; [apply load_with_subnodes_wf|]. intros pc Hpc. cbn beta in Hpc. autorewrite with outcome.
    apply holds_bind. eapply (holds_mono _ (λ _, True)); [by apply soft_never_panics, get_object_never_panics|].
    intros [[n sz]|] _; [|done]. autorewrite with outcome. apply holds_bind.
    eapply holds_mono; [by apply attempt_total, find_subnode_entry_never_panics|done].
  - intros [n|] _; [done|]. autorewrite with outcome. apply holds_bind.
    eapply holds_mono; [by apply list_subnode_entries_never_panics|]. intros subs _. autorewrite with outcome.
    by destruct (find _ subs).
Qed.

Lemma node_recipients_total root : never_panics (outcome (list_recipients_from_message_node pst root)).
Proof.
  unfold list_recipients_from_message_node. destruct (is_null _); [done|]. autorewrite with outcome. apply holds_bind.
  eapply holds_mono; [by apply list_subnode_entries_never_panics|]. intros subs _.
  destruct (find _ subs) as [r|]; [|done]. autorewrite with outcome. unfold require_present_table_data_bid.
  destruct (is_null _); [done|]. rewrite bind_ok. autorewrite with outcome. apply holds_bind.
  eapply holds_mono; [by apply read_block_total|]. intros d _. autorewrite with outcome. apply holds_bind.
  eapply holds_mono; [apply load_inner_wf|].
  - intros res [= <-]. by apply block_resolver_lawful.
  - intros t Ht. by apply table_recipients_never_panics.
Qed.

Lemma child_total entry npid : never_panics (outcome (read_embedded_child_from_entry pst entry npid)).
Proof.
  unfold read_embedded_child_from_entry. autorewrite with outcome. apply holds_bind.
  eapply holds_mono; [by apply read_block_total|]. intros d _. apply child_row_never_panics.
Qed.

Lemma keep_child_total b acc row : never_panics (outcome row) → never_panics (outcome (keep_child b acc row)).
Proof. destruct row as [[a|e| |] l]; try done; by destruct b. Qed.

Lemma table_child_total table m npid row : never_panics (outcome (table_child pst table m npid row)).
Proof.
  unfold table_child. autorewrite with outcome. destruct (get_row_id _ _) as [n|]; [|done]. cbn [ok_or]. rewrite bind_ok.
  autorewrite with outcome. destruct (m !! n); [|done]. cbn [ok_or]. rewrite bind_ok. apply child_total.
Qed.

Lemma node_attachments_total root b : wtotal (list_attachments_from_message_node pst root b).
Proof.
  unfold list_attachments_from_message_node. destruct (is_null _); [apply wtotal_ret|].
  apply wtotal_bind; [by apply wtotal_lift, list_subnode_entries_never_panics|]. intros subs.
  apply wtotal_bind; [by apply name_id_map_total_walk|]. intros m. destruct (find _ subs) as [t|].
  - apply wtotal_lift. unfold list_attachments_via_attach_table. autorewrite with outcome.
    unfold require_present_table_data_bid. destruct (is_null _); [done|]. rewrite bind_ok. autorewrite with outcome.
    apply holds_bind. eapply holds_mono; [by apply read_block_total|]. intros d _. autorewrite with outcome.
    apply holds_bind. eapply (holds_mono _ (λ _, True)).
    { eapply holds_mono; [apply load_inner_wf|done]. intros res [= <-]. by apply block_resolver_lawful. }
    intros table _. autorewrite with outcome. apply holds_mfold; [done|]. intros acc row _ _.
    apply keep_child_total, table_child_total.
  - destruct (existsb _ _); [|apply wtotal_ret]. destruct b; [by apply wtotal_pure|]. apply wtotal_lift.
    unfold list_attachments_by_subnode_enum. autorewrite with outcome. apply holds_mfold; [done|]. intros acc e _ _.
    destruct (negb _); [done|]. apply keep_child_total, child_total.
Qed.

Context `{Platform, Sha256}.

Lemma identity_of_pc_total pc budget : heap_wf (pc_heap pc) → never_panics (identity_of_pc pc budget).
Proof.
  intros Hpc. unfold identity_of_pc. do 6 total_step.
  apply holds_bind. eapply (holds_mono _ (λ _, True)); [by apply prop_value_byte_len_never_panics|]. intros len _.
  destruct (over_budget _ _); [done|]. apply holds_bind. eapply (holds_mono _ (λ _, True)); [|done].
  unfold identity_body. pose proof (get_str_never_panics pc Hpc PID_TAG_BODY) as Hb.
  destruct (get_str pc PID_TAG_BODY) as [[b|]|e| |]; try done. by destruct (_ <? _).
Qed.

Lemma identity_total root budget : wtotal (read_identity_from_message_node pst root budget).
Proof.
  unfold read_identity_from_message_node. apply wtotal_scoped. intros s.
  apply wrun_bind_never_panics. rewrite wrun_lift. cbn [fst snd]. eapply holds_mono; [by apply budget_load_wf|].
  intros pc Hpc. cbn beta in Hpc. revert s. apply wtotal_bind; [by apply wtotal_pure, identity_of_pc_total|]. intros mk.
  apply wtotal_bind; [apply wtotal_lift, node_recipients_total|]. intros rows.
  apply wtotal_bind; [apply node_attachments_total|]. intros l. apply wtotal_ret.
Qed.

Lemma node_open_ok reopened root attach :
  holds (outcome (open_attach_data_from_message_node pst reopened root attach)) reader_ok.
Proof.
  apply opened_in_scope_holds. unfold open_attach_data_from_message_node_inner. destruct (is_null _); [done|].
  autorewrite with outcome. apply holds_bind. eapply holds_mono; [by apply find_subnode_entry_never_panics|].
  intros [s|] _; [|done]. autorewrite with outcome. cbn [ok_or]. rewrite bind_ok. by apply open_attach_entry_ok.
Qed.
End node_total.

(** ** Exports stay within depth and budget *)

Definition part_len (p : option (list byte)) : Z := default 0 (zlen <$> p).
Definition child_of (a : export_attach) : child_attach := let '(ExportAttach c _ _ _) := a in c.
Definition declared (atts : list export_attach) : Z := foldr (λ a n, ca_size (child_of a) + n) 0 atts.
Definition is_method5 (c : child_attach) : Prop := ca_attach_method c = Some ATTACH_EMBEDDED_MSG.

(** An error of the budget, of the export or of a limit of the reader. *)
Definition over_limit (e : pst_error) : bool := match e with ResourceLimit _ => true | _ => false end.

(** An export with at most [depth] levels under it, each of whose messages lists the
    attachments of its node and keeps body, HTML and declared attachment sizes within
    the budget.  What becomes of an embedded child is decided by two runs of the reader,
    one that looks for its node and one that exports it: below the last level it is not
    read, and marked; otherwise it is marked exactly when the export of its node ends in
    a limit, absent without a mark exactly when there is no such node or its export ends
    in another error, and present exactly when its export succeeds. *)
Section within.
Context `{Crc : Crc32, Platform, Sha256} (pst : pst_file) (cache : map_cache) (budget : Z).

Definition nested_read (depth : nat) (root : message_node) (child : child_attach) (r : pres export_fields) : Prop :=
  ∃ node, outcome (resolve_embedded_root pst root (ca_nid child)) = Ok node ∧
    (wrun (read_export_from_message_node pst depth budget node) cache).1 = r.
Definition not_found (root : message_node) (child : child_attach) : Prop :=
  ∃ e, outcome (resolve_embedded_root pst root (ca_nid child)) = Err e.

Inductive within : nat → message_node → export_fields → Prop :=
| within_fields depth root core atts skipped :
    ef_source core = root →
    (wrun (list_attachments_from_message_node pst root false) cache).1 = Ok (map child_of atts, skipped) →
    ef_attachments_incomplete core = (0 <? skipped) →
    part_len (ef_body_plain core) + part_len (ef_body_html core) + declared atts <= budget →
    (∀ a, a ∈ atts → attach_within depth root a) →
    within depth root (ExportFields core atts)
with attach_within : nat → message_node → export_attach → Prop :=
| plain_child depth root child :
    ¬ is_method5 child → attach_within depth root (ExportAttach child (negb (ca_is_cloud_link child)) None false)
| too_deep_child root child :
    is_method5 child → attach_within 0 root (ExportAttach child false None true)
| limited_child depth root child msg :
    is_method5 child → nested_read depth root child (Err (ResourceLimit msg)) →
    attach_within (S depth) root (ExportAttach child false None true)
| unread_child depth root child :
    is_method5 child → not_found root child ∨ (∃ e, nested_read depth root child (Err e) ∧ over_limit e = false) →
    attach_within (S depth) root (ExportAttach child false None false)
| nested_child depth root child node fields :
    is_method5 child → outcome (resolve_embedded_root pst root (ca_nid child)) = Ok node →
    (wrun (read_export_from_message_node pst depth budget node) cache).1 = Ok fields →
    within depth node fields →
    attach_within (S depth) root (ExportAttach child false (Some fields) false).
End within.

Section export.
Context `{Crc : Crc32, Platform, Sha256} (pst : pst_file) (Hwf : bbt_wf (bbt pst)) (budget : Z) (Hbudget : 0 <= budget < U64_MAX).

Lemma charge_ok used n what used' : charge used n budget what = Ok used' → used' = used + n ∧ used' <= budget.
Proof. unfold charge, sat_add. destruct (_ <? _) eqn:E; [done|]. bool_to_Z. intros [= <-]. lia. Qed.

Lemma charged_ok used b what r :
  charged used b budget what = Ok r → pr_used r = used + part_len (pr_data r) ∧ pr_used r <= budget.
Proof. unfold charged. intros (n & Hc%charge_ok & [= <-])%bind_ok_inv. done. Qed.

Lemma charge_total used n what : never_panics (charge used n budget what).
Proof. unfold charge. by destruct (_ <? _). Qed.

Definition part_ok (used : Z) (r : part_read) : Prop := pr_used r = used + part_len (pr_data r) ∧ pr_used r <= budget.

Lemma charged_holds used b what : holds (charged used b budget what) (part_ok used).
Proof.
  pose proof (charge_total used (zlen b) what) as Ht. pose proof (charged_ok used b what) as Hc.
  destruct (charged used b budget what) as [r|e| |] eqn:E; [by apply Hc|done|..];
    unfold charged in E; by destruct (charge _ _ _ _).
Qed.

Lemma export_body_holds pc used : heap_wf (pc_heap pc) → used <= budget → holds (export_body pc used budget) (part_ok used).
Proof.
  intros Hpc Hu. unfold export_body. apply holds_bind. eapply holds_mono; [by apply prop_value_byte_len_never_panics|].
  intros len _. destruct (over_budget _ _); [done|]. pose proof (get_str_never_panics pc Hpc PID_TAG_BODY) as Hb.
  destruct (get_str pc PID_TAG_BODY) as [[b|]|e| |]; try done; [apply charged_holds|split; cbn; lia|].
  destruct e; try done; split; cbn; lia.
Qed.

Lemma export_html_holds pc used : heap_wf (pc_heap pc) → used <= budget → holds (export_html pc used budget) (part_ok used).
Proof.
  intros Hpc Hu. unfold export_html. apply holds_bind. eapply holds_mono; [by apply prop_value_byte_len_never_panics|].
  intros len _. destruct (over_budget _ _); [done|]. pose proof (get_str_never_panics pc Hpc PID_TAG_BODY_HTML) as Hb.
  destruct (get_str pc PID_TAG_BODY_HTML) as [[b|]|e| |]; try done; [apply charged_holds| |split; cbn; lia].
  pose proof (get_as_never_panics pc Hpc as_binary PID_TAG_BODY_HTML) as Hg.
  unfold get_binary. destruct (get_as _ _ _) as [[b|]|e| |]; try done; [apply charged_holds|split; cbn; lia..].
Qed.

Lemma export_of_pc_holds root pc : heap_wf (pc_heap pc) →
  holds (export_of_pc root pc budget) (λ um, um.1 <= budget ∧ ∀ rows ri ai,
    part_len (ef_body_plain (um.2 rows ri ai)) + part_len (ef_body_html (um.2 rows ri ai)) = um.1 ∧
    ef_source (um.2 rows ri ai) = root ∧ ef_attachments_incomplete (um.2 rows ri ai) = ai).
Proof.
  intros Hpc. unfold export_of_pc. do 9 total_step.
  apply holds_bind. eapply holds_mono; [apply export_body_holds; [done|lia]|]. intros body [Hb1 Hb2].
  apply holds_bind. eapply holds_mono; [by apply export_html_holds|]. intros html [Hh1 Hh2].
  split; [done|]. intros rows ri ai. cbn [snd fst ef_body_plain ef_body_html]. split_and!; [lia|done..].
Qed.

Lemma declared_snoc atts a : declared (atts ++ [a]) = declared atts + ca_size (child_of a).
Proof. induction atts as [|x atts IH]; cbn; [lia|]. fold (declared (atts ++ [a])) (declared atts). rewrite IH. lia. Qed.

(** The map is loaded once: the state of the walk before and after it is loaded. *)
Context (warm : map_cache).
Definition loads (s : map_cache) : Prop := ∃ m, wrun (name_id_map_of pst) s = (Ok m, warm) ∧ wrun (name_id_map_of pst) warm = (Ok m, warm).
Abbreviation inside := (within pst warm budget).
Abbreviation child_inside := (attach_within pst warm budget).

(** Listing gives the same before and after, and has loaded the map if it gives a child. *)
Lemma node_list_warm root b s : loads s →
  let list := list_attachments_from_message_node pst root b in
  (wrun list s).1 = (wrun list warm).1 ∧
  wends list s (λ l s', s' = warm ∨ (s' = s ∧ l.1 = [])) (λ s', s' = warm ∨ s' = s).
Proof using Hwf.
  intros (m & Hs & Hw) list. pose proof (node_attachments_total pst Hwf root b s) as Ht. fold list in Ht.
  assert (Hrun : ((wrun list s).1 = (wrun list warm).1) ∧ ((wrun list s).2 = warm ∨ ((wrun list s).2 = s ∧ ∀ l, (wrun list s).1 = Ok l → l.1 = []))).
  { unfold list, list_attachments_from_message_node. destruct (is_null _); [split; [done|right; split; [done|by intros l [= <-]]]|].
    rewrite !wrun_bind, !wrun_lift. destruct (outcome (list_subnode_entries _ _ _)) as [subs|e| |]; [|by (split; [|right])..].
    rewrite !wrun_bind, Hs, Hw. split; [|left]; (destruct (find _ subs); [done|]); (destruct (existsb _ _); [|done]); by destruct b. }
  destruct Hrun as [Heq Hst]. split; [done|]. unfold wends. destruct (wrun list s) as [[l|e| |] s']; cbn [fst snd] in *; try done.
  - destruct Hst as [?|[? Hl]]; [by left|right; split; [done|by apply Hl]].
  - destruct Hst as [?|[? _]]; [by left|by right].
Qed.

(** What the reader does with embedded children, at a depth. *)
Definition rec_ok (rec : option (message_node → pwalk map_cache export_fields)) (depth : nat) : Prop :=
  match rec with
  | None => depth = 0%nat
  | Some f => ∃ d, depth = S d ∧ (∀ root, f root = read_export_from_message_node pst d budget root) ∧
      ∀ root, wends (f root) warm (λ fields s', s' = warm ∧ inside d root fields) (λ s', s' = warm)
  end.

Lemma export_nested_ends rec depth root child :
  is_method5 child → rec_ok rec depth →
  wends (export_nested pst rec root child) warm
    (λ n s', s' = warm ∧ child_inside depth root (ExportAttach child false n.1 n.2)) (λ s', s' = warm).
Proof using Hwf.
  intros H5 Hrec. unfold export_nested. destruct rec as [f|].
  2: { cbn in Hrec. subst depth. apply wends_ret. split; [done|]. by apply too_deep_child. }
  destruct Hrec as (d & -> & Hf & Hends).
  apply (wends_bind _ _ _ (λ o s', s' = warm ∧ match o with
    | Some n => outcome (resolve_embedded_root pst root (ca_nid child)) = Ok n | None => not_found pst root child end)).
  { apply wends_lift; [|done]. pose proof (resolve_embedded_root_total pst Hwf root (ca_nid child)) as Ht. unfold not_found.
    destruct (resolve_embedded_root _ _ _) as [[n|e| |] l]; try done. split; [done|]. by exists e. }
  intros [n|] s' [-> Hn]; [|apply wends_ret; split; [done|]; by apply unread_child; [|left]].
  apply (wends_bind _ _ _ (λ r s', s' = warm ∧ match r with
    | inr fields => (wrun (f n) warm).1 = Ok fields ∧ inside d n fields
    | inl e => (wrun (f n) warm).1 = Err e end)).
  { apply wends_try. pose proof (Hends n) as Hn0. unfold wends in *. destruct (wrun (f n) warm) as [[fields|e| |] s'] eqn:E; try done.
    - by destruct Hn0 as [-> ?].
    - subst s'. intros e' [= ->]. done. }
  intros [e|fields] s' [-> Hr]; apply wends_ret; (split; [done|]); rewrite ?Hf in Hr.
  - assert (Hread : nested_read pst warm budget d root child (Err e)) by (by exists n).
    assert (Hun : over_limit e = false → child_inside (S d) root (ExportAttach child false None false)).
    { intros He. apply unread_child; [done|]. right. by exists e. }
    destruct e; try (by apply Hun). by eapply limited_child.
  - destruct Hr as [Hr Hin]. by eapply nested_child.
Qed.

Lemma export_child_ends rec depth root start acc child :
  rec_ok rec depth →
  let I (acc : Z * list export_attach) := acc.1 = start + declared acc.2 ∧ acc.1 <= budget ∧ ∀ a, a ∈ acc.2 → child_inside depth root a in
  I acc → wends (export_child pst rec root budget acc child) warm
    (λ acc' s', s' = warm ∧ I acc' ∧ map child_of acc'.2 = map child_of acc.2 ++ [child]) (λ s', s' = warm).
Proof using Hwf Hbudget.
  intros Hrec I (H1 & H2 & H3). unfold export_child.
  apply (wends_bind _ _ _ (λ used s', s' = warm ∧ used = acc.1 + ca_size child ∧ used <= budget)).
  { apply wends_pure; [|done]. pose proof (charge_total acc.1 (ca_size child) "child_attach_size") as Ht.
    destruct (charge _ _ _ _) eqn:E; try done. by apply charge_ok in E. }
  intros used s' (-> & Hu & Hle). apply (wends_bind _ _ _ (λ n s', s' = warm ∧ child_inside depth root
    (ExportAttach child (negb (bool_decide (ca_attach_method child = Some ATTACH_EMBEDDED_MSG)) && negb (ca_is_cloud_link child)) n.1 n.2))).
  { case_bool_decide as E; [by apply export_nested_ends|]. apply wends_ret. split; [done|]. by apply plain_child. }
  intros n s' [-> Hn]. apply wends_ret. unfold I. cbn [fst snd]. rewrite declared_snoc, map_app. cbn [child_of map]. split_and!; [done|lia|done| |done].
  intros a [Ha| ->%list_elem_of_singleton]%elem_of_app; [by apply H3|done].
Qed.

(** The loop exports every child in order. *)
Lemma export_children_end rec depth root start children :
  rec_ok rec depth → start <= budget → ∀ acc,
  let I (acc : Z * list export_attach) := acc.1 = start + declared acc.2 ∧ acc.1 <= budget ∧ ∀ a, a ∈ acc.2 → child_inside depth root a in
  I acc → wends (mfold (export_child pst rec root budget) children acc) warm
    (λ acc' s', s' = warm ∧ I acc' ∧ map child_of acc'.2 = map child_of acc.2 ++ children) (λ s', s' = warm).
Proof using Hwf Hbudget.
  intros Hrec Hstart. induction children as [|child children IH]; intros acc I HI; [apply wends_ret; split_and!; try apply HI; [done|by rewrite app_nil_r]|].
  eapply (wends_bind (export_child pst rec root budget acc child)); [by apply (export_child_ends rec depth root start)|].
  intros acc1 s' (-> & HI1 & Hm). eapply wends_mono; [by apply IH| |done]. intros acc2 s' (-> & HI2 & Hm2).
  split_and!; [done|apply HI2..|]. by rewrite Hm2, Hm, <-(assoc_L (++)).
Qed.

(** The body of the reader, over what it does with embedded children. *)
Lemma export_step rec depth root s :
  rec_ok rec depth → loads s →
  wends (
    prop_ctx ← lift (load_pc_from_bids_with_body_budget (reader pst) (bbt pst) (header_crypt (header pst))
                       (mn_bid_data root) (mn_bid_sub root) [PID_TAG_BODY; PID_TAG_BODY_HTML] budget);
    um ← pure (export_of_pc root prop_ctx budget);
    recipients ← lift (attempt (list_recipients_from_message_node pst root));
    children ← list_attachments_from_message_node pst root false;
    exported ← mfold (export_child pst rec root budget) children.1 (um.1, []);
    mret (ExportFields (um.2 (default [] recipients) (negb (is_some_and (λ _, true) recipients)) (0 <? children.2))
            exported.2)) s (λ fields s', (s' = warm ∨ s' = s) ∧ inside depth root fields) (λ s', s' = warm ∨ s' = s).
Proof using Hwf Hbudget.
  intros Hrec Hs. apply (wends_bind _ _ _ (λ pc s', s' = s ∧ heap_wf (pc_heap pc))).
  { apply wends_lift; [|by right]. eapply holds_mono; [by apply budget_load_wf|]. by intros pc Hpc. }
  intros pc s' [-> Hpc]. eapply (wends_bind _ _ _ (λ um s', s' = s ∧ _)).
  { apply wends_pure; [|by right]. eapply holds_mono; [by apply export_of_pc_holds|]. intros um Hum. split; [done|exact Hum]. }
  intros um s' (-> & Hle & Hsum). apply (wends_bind _ _ _ (λ _ s', s' = s)).
  { apply wends_lift; [|by right]. eapply holds_mono; [by apply attempt_total, node_recipients_total|done]. }
  intros rows s' ->. destruct (node_list_warm root false s Hs) as [Heq Hl].
  eapply (wends_bind _ _ _ (λ l s', (s' = warm ∨ (s' = s ∧ l.1 = [])) ∧ (wrun (list_attachments_from_message_node pst root false) warm).1 = Ok l)).
  { unfold wends in *. destruct (wrun _ s) as [[l|e| |] s']; try done. }
  intros l s' [Hst Hrun]. destruct (Hsum (default [] rows) (negb (is_some_and (λ _, true) rows)) (0 <? l.2)) as (Hlen & Hsrc & Hinc).
  assert (Hdone : ∀ acc : Z * list export_attach, acc.1 = um.1 + declared acc.2 → acc.1 <= budget → (∀ a, a ∈ acc.2 → child_inside depth root a) →
    map child_of acc.2 = l.1 → inside depth root (ExportFields (um.2 (default [] rows) (negb (is_some_and (λ _, true) rows)) (0 <? l.2)) acc.2)).
  { intros acc H1 H2 H3 H4. apply (within_fields _ _ _ _ _ _ _ l.2); [done| |done|rewrite Hlen; lia|exact H3]. rewrite Hrun, H4. by destruct l. }
  destruct Hst as [->|[-> Hnil]].
  - eapply wends_bind; [eapply wends_mono; [apply (export_children_end rec depth root um.1 l.1); [done|done|]|intros acc x Hx; exact Hx|by left]|].
    + split_and!; [cbn; lia|done|set_solver].
    + intros acc s' (-> & (H1 & H2 & H3) & H4). apply wends_ret. split; [by left|]. by apply Hdone.
  - rewrite Hnil in *. cbn [mfold]. eapply (wends_bind _ _ _ (λ acc s', acc = (um.1, []) ∧ s' = s)); [by apply wends_ret|].
    intros acc s' [-> ->]. apply wends_ret. split; [by right|]. apply (Hdone (um.1, [])); [cbn; lia|done|set_solver|done].
Qed.

Lemma export_within depth root s : loads s →
  wends (read_export_from_message_node pst depth budget root) s
    (λ fields s', (s' = warm ∨ s' = s) ∧ inside depth root fields) (λ s', s' = warm ∨ s' = s).
Proof using Hwf Hbudget.
  revert root s. induction depth as [|d IH]; intros root s Hs; cbn [read_export_from_message_node].
  - by apply (export_step None 0).
  - apply (export_step (Some _) (S d)); [|done]. exists d. split_and!; [done|done|]. intros root'.
    eapply wends_mono; [apply (IH root' warm)| |].
    + destruct Hs as (m & _ & Hw). by exists m.
    + by intros fields s' [[->| ->] ?].
    + by intros s' [->| ->].
Qed.
End export.

(** The state of the walk once the map is loaded. *)
Definition loaded `{Crc : Crc32} (pst : pst_file) (cache : map_cache) : map_cache := (wrun (name_id_map_of pst) cache).2.

Lemma loaded_loads `{Crc : Crc32} pst cache : bbt_wf (bbt pst) → loads pst (loaded pst cache) cache.
Proof.
  intros Hwf. destruct (load_name_id_map_ok pst cache Hwf) as (m & Hm & _). exists m. unfold loaded, wrun, name_id_map_of.
  destruct (load_name_id_map pst cache) as [o l]. cbn in Hm. by subst o.
Qed.

(** C29 An export of a nested message returns a bounded tree or an error on any file:
    it never panics, has at most as many levels as were allowed, lists the attachments
    of each of its messages, and keeps body, HTML and declared attachment sizes of each
    message within the budget.  Every embedded child that depth or budget cut is marked,
    and only those: below the last level every one is marked, and above it one is marked
    exactly when the export of its node ends in a limit; one that is absent without a
    mark has no node, or its export ends in another error. *)
Theorem nested_export_bounded `{Crc : Crc32, Platform, Sha256} pst depth budget root cache
    (Hwf : bbt_wf (bbt pst)) (Hbudget : 0 <= budget < U64_MAX) :
  holds (wrun (read_export_from_message_node pst depth budget root) cache).1 (within pst (loaded pst cache) budget depth root).
Proof.
  pose proof (export_within pst Hwf budget Hbudget (loaded pst cache) depth root cache (loaded_loads pst cache Hwf)) as Hend.
  unfold wends in Hend. destruct (wrun _ cache) as [[fields|e| |] s']; try done. apply Hend.
Qed.

(** ** Strict and soft lists *)

(** [m'] does what [m] does whenever [m] returns a value with [P]. *)
Definition io_agrees {A} (P : A → Prop) (m m' : pio A) : Prop := ∀ a l, P a → m = (Ok a, l) → m' = (Ok a, l).
Definition agrees {S A} (P : A → Prop) (m m' : pwalk S A) : Prop :=
  ∀ s a s' l, P a → m s = ((Ok a, s'), l) → m' s = ((Ok a, s'), l).
Abbreviation any := (λ _, True) (only parsing).

Section agrees.
Context {A B : Type}.

Lemma io_agrees_bind P (m : pio A) (f g : A → pio B) : (∀ a, io_agrees P (f a) (g a)) → io_agrees P (m ≫= f) (m ≫= g).
Proof.
  intros Hfg b l Hb. destruct m as [[a|e| |] l1]; try done. cbn. destruct (f a) as [o l2] eqn:E. cbn. intros [= -> <-].
  by rewrite (Hfg a _ _ Hb E).
Qed.

Lemma io_agrees_mfold (f g : B → A → pio B) xs b : (∀ b x, io_agrees any (f b x) (g b x)) → io_agrees any (mfold f xs b) (mfold g xs b).
Proof.
  intros Hfg. revert b. induction xs as [|x xs IH]; intros b r l _; [done|]. cbn.
  destruct (f b x) as [[b1|e| |] l1] eqn:E; try done. cbn. destruct (mfold f xs b1) as [o l2] eqn:E2. cbn. intros [= -> <-].
  rewrite (Hfg b x _ _ I E). cbn. by rewrite (IH b1 _ _ I E2).
Qed.

Context {S : Type}.

Lemma agrees_bind P (m : pwalk S A) (f g : A → pwalk S B) : (∀ a, agrees P (f a) (g a)) → agrees P (m ≫= f) (m ≫= g).
Proof.
  intros Hfg s b s' l Hb. unfold mbind, walk_bind. destruct (m s) as [[[a|e| |] s1] l1]; try done. cbn.
  destruct (f a s1) as [[o s2] l2] eqn:E. cbn. intros [= -> -> <-]. by rewrite (Hfg a _ _ _ _ Hb E).
Qed.

Lemma agrees_mfold (f g : B → A → pwalk S B) xs b : (∀ b x, agrees any (f b x) (g b x)) → agrees any (mfold f xs b) (mfold g xs b).
Proof.
  intros Hfg. revert b. induction xs as [|x xs IH]; intros b s r s' l _; [done|]. cbn. unfold mbind, walk_bind.
  destruct (f b x s) as [[[b1|e| |] s1] l1] eqn:E; try done. cbn.
  destruct (mfold f xs b1 s1) as [[o s2] l2] eqn:E2. cbn. intros [= -> -> <-].
  rewrite (Hfg b x _ _ _ _ I E). cbn. specialize (IH b1 _ _ _ _ I E2).
  match goal with |- ((?t).1, _) = _ => assert (t = (Ok r, s', l2)) as -> by exact IH end. done.
Qed.

Lemma agrees_lift P (m m' : pio A) : io_agrees P m m' → agrees P (lift m : pwalk S A) (lift m').
Proof.
  intros H s a s' l Ha. unfold lift. destruct m as [o k]. cbn. intros [= -> <- <-]. by rewrite (H a k Ha eq_refl).
Qed.
End agrees.

Lemma keep_child_agrees acc row : io_agrees any (keep_child true acc row) (keep_child false acc row).
Proof. intros a l _. by destruct row as [[] ?]. Qed.

(** The soft list over rows: it skips nothing exactly when the strict one succeeds. *)
Section rows.
Context {X : Type} (row : X → pio child_attach).
Abbreviation list_rows b := (mfold (λ acc x, keep_child b acc (row x))).

Lemma strict_rows xs acc l k : outcome (list_rows true xs acc) = Ok (l, k) →
  k = acc.2 ∧ ∃ new, rmap (λ x, outcome (row x)) xs = Ok new ∧ l = acc.1 ++ new.
Proof.
  revert acc. induction xs as [|x xs IH]; intros [a n].
  { intros [= <- <-]. split; [done|]. exists []. by rewrite app_nil_r. }
  cbn. autorewrite with outcome. destruct (row x) as [[c|e| |] l1] eqn:E; try done. cbn [keep_child outcome fst snd].
  rewrite bind_ok. intros (Hk & new & Hn & ->)%IH. cbn [fst snd] in *. split; [done|]. exists (c :: new).
  rewrite bind_ok, Hn, bind_ok. by rewrite <- app_assoc.
Qed.

Lemma soft_rows_skips xs acc l k : acc.2 <= 2 ^ 32 - 1 → outcome (list_rows false xs acc) = Ok (l, k) → acc.2 <= k.
Proof.
  revert acc. induction xs as [|x xs IH]; intros [a n] Hn; cbn [snd] in *.
  { intros [= <- <-]. lia. }
  cbn. autorewrite with outcome. destruct (row x) as [[c|e| |] l1] eqn:E; try done; cbn [keep_child outcome fst snd]; rewrite bind_ok; intros H%IH; cbn [snd] in *; lia.
Qed.

Lemma soft_rows_none xs acc l ev : acc.2 = 0 →
  list_rows false xs acc = (Ok (l, 0), ev) → list_rows true xs acc = (Ok (l, 0), ev).
Proof.
  revert acc ev. induction xs as [|x xs IH]; intros [a n] ev Hn; cbn [snd] in *; [done|]. subst n. cbn.
  destruct (row x) as [[c|e| |] l1] eqn:E; try done; cbn [keep_child fst snd].
  - cbn. destruct (list_rows false xs (a ++ [c], 0)) as [o l2] eqn:E2. cbn. intros [= -> <-].
    by rewrite (IH (a ++ [c], 0) l2 eq_refl E2).
  - cbn. destruct (list_rows false xs (a, _)) as [o l2] eqn:E2. cbn. intros [= -> _].
    assert (outcome (list_rows false xs (a, 1)) = Ok (l, 0)) as Hk by (unfold outcome; change (Z.min (0 + 1) (2 ^ 32 - 1)) with 1 in E2; by rewrite E2).
    apply soft_rows_skips in Hk; cbn [snd] in *; lia.
Qed.
End rows.

Section lists.
Context `{Crc : Crc32} (pst : pst_file).
Abbreviation file := (reader pst).
Abbreviation crypt := (header_crypt (header pst)).

Lemma info_lists_agree nid : agrees any (list_attachments_strict pst nid) (list_attachments pst nid).
Proof.
  unfold list_attachments_strict, list_attachments, list_attachments_inner.
  destruct (nbt_get _ _) as [e|]; [|by intros ? ? ? ? _]. destruct (is_null _); [by intros ? ? ? ? _|].
  apply agrees_bind. intros subs. do 2 (apply agrees_bind; intros ?). apply agrees_mfold. intros infos entry.
  destruct (negb _); [by intros ? ? ? ? _|]. apply agrees_bind. intros d s r s' l _. by destruct (attach_row _ _ _ _).
Qed.

(** *** The list of a message node in the node index *)

Lemma attach_row_nid provider permission nid d i : attach_row provider permission nid d = Ok i → ai_nid i = nid.
Proof. unfold attach_row. intros H. repeat (apply bind_ok_inv in H as (? & _ & H)). by injection H as <-. Qed.

Section info_rows.
Context (provider permission : option Z).

(** The body of the loop of [list_attachments_inner]. *)
Definition info_step (b : bool) (infos : list attachment_info) (x : subnode_entry) : pwalk map_cache (list attachment_info) :=
  if negb (bool_decide (nid_type (sub_nid x) = Attachment)) then mret infos
  else d ← lift (read_block_data file (bbt pst) (sub_bid_data x) crypt); pure (keep_row b (attach_row provider permission (sub_nid x) d) infos).
Definition attachment_nids (subs : list subnode_entry) : list Z := map sub_nid (filter (λ x, has_type Attachment x = true) subs).

Lemma attachment_nids_cons x subs :
  attachment_nids (x :: subs) = if bool_decide (nid_type (sub_nid x) = Attachment) then sub_nid x :: attachment_nids subs else attachment_nids subs.
Proof. unfold attachment_nids, has_type. rewrite filter_cons. by case_bool_decide. Qed.

Lemma strict_infos subs : ∀ infos s r s' l,
  mfold (info_step true) subs infos s = ((Ok r, s'), l) → map ai_nid r = map ai_nid infos ++ attachment_nids subs.
Proof.
  induction subs as [|x subs IH]; intros infos s r s' l; [intros [= <- _ _]; by rewrite app_nil_r|].
  rewrite attachment_nids_cons. cbn [mfold]. unfold mbind, walk_bind. unfold info_step at 1. case_bool_decide as Hx; cbn [negb].
  2: { change ((mret infos : pwalk map_cache (list attachment_info)) s) with ((@Ok pst_error _ infos, s), @nil tele_event). cbv iota beta. destruct (mfold (info_step true) subs infos s) as [[o s1] l1] eqn:E. cbn. intros [= -> -> _]. by eapply IH. }
  unfold mbind, walk_bind, lift, pure. destruct (read_block_data _ _ _ _) as [[d|e| |] l0]; try done. cbn.
  destruct (attach_row provider permission (sub_nid x) d) as [i|e| |] eqn:Ei; try done. cbn.
  destruct (mfold (info_step true) subs (infos ++ [i]) s) as [[o s1] l1] eqn:E. cbn. intros [= -> -> _]. apply IH in E as ->.
  rewrite map_app. cbn [map]. by rewrite (attach_row_nid _ _ _ _ _ Ei), <-(assoc_L (++)).
Qed.

Lemma soft_infos_bound subs : ∀ infos s r s' l,
  mfold (info_step false) subs infos s = ((Ok r, s'), l) → (length r <= length infos + length (attachment_nids subs))%nat.
Proof.
  induction subs as [|x subs IH]; intros infos s r s' l; [intros [= <- _ _]; lia|].
  rewrite attachment_nids_cons. cbn [mfold]. unfold mbind, walk_bind. unfold info_step at 1. case_bool_decide as Hx; cbn [negb].
  2: { change ((mret infos : pwalk map_cache (list attachment_info)) s) with ((@Ok pst_error _ infos, s), @nil tele_event). cbv iota beta. destruct (mfold (info_step false) subs infos s) as [[o s1] l1] eqn:E. cbn. intros [= -> -> _]. by eapply IH. }
  unfold mbind, walk_bind, lift, pure. destruct (read_block_data _ _ _ _) as [[d|e| |] l0]; try done. cbn.
  destruct (attach_row provider permission (sub_nid x) d) as [i|e| |] eqn:Ei; try done; cbn.
  - destruct (mfold (info_step false) subs (infos ++ [i]) s) as [[o s1] l1] eqn:E. cbn. intros [= -> -> _]. apply IH in E. rewrite length_app in E. cbn in E |- *. lia.
  - destruct (mfold (info_step false) subs infos s) as [[o s1] l1] eqn:E. cbn. intros [= -> -> _]. apply IH in E. lia.
Qed.

Lemma soft_infos_all subs : ∀ infos s r s' l,
  mfold (info_step false) subs infos s = ((Ok r, s'), l) → length r = (length infos + length (attachment_nids subs))%nat →
  mfold (info_step true) subs infos s = ((Ok r, s'), l).
Proof.
  induction subs as [|x subs IH]; intros infos s r s' l; [done|].
  rewrite attachment_nids_cons. cbn [mfold]. unfold mbind, walk_bind. unfold info_step at 1 4. case_bool_decide as Hx; cbn [negb].
  2: { change ((mret infos : pwalk map_cache (list attachment_info)) s) with ((@Ok pst_error _ infos, s), @nil tele_event). cbv iota beta. destruct (mfold (info_step false) subs infos s) as [[o s1] l1] eqn:E. cbn [fst snd]. intros [= -> -> <-] Hl. 
       match goal with |- ((?t).1, _) = _ => assert (t = (Ok r, s', l1)) as -> by exact (IH infos s r s' l1 E Hl) end. done. }
  unfold mbind, walk_bind, pure, lift, quiet. destruct (read_block_data _ _ _ _) as [[d|e| |] l0]; try done. cbn [fst snd].
  destruct (attach_row provider permission (sub_nid x) d) as [i|e| |] eqn:Ei; try done; cbn [keep_row fst snd]; cbv iota beta.
  - destruct (mfold (info_step false) subs (infos ++ [i]) s) as [[o s1] l1] eqn:E. cbn [fst snd]. intros [= -> -> <-] Hl.
    match goal with |- ((?t).1, _) = _ => assert (t = (Ok r, s', l1)) as ->; [|done] end. apply (IH (infos ++ [i]) s r s' l1 E). rewrite length_app. cbn [length] in Hl |- *. lia.
  - destruct (mfold (info_step false) subs infos s) as [[o s1] l1] eqn:E. cbn [fst snd]. intros [= -> -> <-] Hl. apply soft_infos_bound in E. cbn [length] in Hl. lia.
Qed.
End info_rows.

Lemma info_lists_exact nid cache e subs :
  nbt_get (nbt pst) nid = Some e → is_null (bid_sub e) = false →
  outcome (list_subnode_entries file (bbt pst) (bid_sub e)) = Ok subs →
  (∀ infos c ev, list_attachments_strict pst nid cache = ((Ok infos, c), ev) → map ai_nid infos = attachment_nids subs) ∧
  (∀ infos c ev, list_attachments pst nid cache = ((Ok infos, c), ev) → length infos = length (attachment_nids subs) →
     list_attachments_strict pst nid cache = ((Ok infos, c), ev)).
Proof.
  intros He Hn Hs. unfold list_attachments_strict, list_attachments, list_attachments_inner. rewrite He, Hn.
  destruct (list_subnode_entries _ _ _) as [o l1]. cbn in Hs. subst o. unfold mbind, walk_bind, lift. cbn [fst snd].
  destruct (name_id_map_of pst cache) as [[[m|err| |] s1] l2]; try done. cbn [fst snd].
  destruct (name_id_map_of pst s1) as [[[m2|err| |] s2] l3]; try done. cbn [fst snd].
  pose proof (strict_infos (attachment_provider_type_npid m) (attachment_permission_type_npid m2) subs [] s2) as Hst.
  pose proof (soft_infos_all (attachment_provider_type_npid m) (attachment_permission_type_npid m2) subs [] s2) as Hso. split.
  - intros infos c ev. match goal with |- ((?t).1, _) = _ → _ => destruct t as [[o s3] l4] eqn:E end.
    intros [= -> -> _]. by eapply Hst.
  - intros infos c ev. match goal with |- ((?t).1, _) = _ → _ => destruct t as [[o s3] l4] eqn:E end. cbn [fst snd].
    intros [= -> -> <-] Hl. match goal with |- ((?t).1, _) = _ => assert (t = (Ok infos, c, l4)) as -> by exact (Hso infos c l4 E Hl) end. done.
Qed.

Lemma node_lists_agree root :
  agrees any (list_attachments_from_message_node pst root true) (list_attachments_from_message_node pst root false).
Proof.
  unfold list_attachments_from_message_node. destruct (is_null _); [by intros ? ? ? ? _|].
  do 2 (apply agrees_bind; intros ?). destruct (find _ _) as [t|].
  - apply agrees_lift. unfold list_attachments_via_attach_table. do 3 (apply io_agrees_bind; intros ?).
    apply io_agrees_mfold. intros acc row. apply keep_child_agrees.
  - destruct (existsb _ _); by intros ? ? ? ? _.
Qed.

Lemma attachments_by_nid_nid subs nid e : attachments_by_nid subs !! nid = Some e → sub_nid e = nid.
Proof.
  unfold attachments_by_nid. generalize (filter (λ e, has_type Attachment e = true) subs) as es. intros es.
  assert (Hgen : ∀ m : gmap Z subnode_entry, (∀ n e, m !! n = Some e → sub_nid e = n) →
    foldl (λ m e, <[sub_nid e := e]> m) m es !! nid = Some e → sub_nid e = nid).
  { induction es as [|x es IH]; intros m Hm; [apply Hm|]. apply IH. intros n e'.
    destruct (decide (sub_nid x = n)) as [<-|]; [rewrite lookup_insert_eq; naive_solver|rewrite lookup_insert_ne by done; apply Hm]. }
  apply Hgen. intros n e'. by rewrite lookup_empty.
Qed.

Lemma table_child_nid table subs npid row c :
  outcome (table_child pst table (attachments_by_nid subs) npid row) = Ok c →
  get_row_id table (Z.of_nat row) = Some (ca_nid c).
Proof.
  unfold table_child. autorewrite with outcome. destruct (get_row_id _ _) as [nid|]; [|done]. cbn [ok_or]. rewrite bind_ok.
  autorewrite with outcome. destruct (attachments_by_nid subs !! nid) as [e|] eqn:E; [|done]. cbn [ok_or]. rewrite bind_ok.
  unfold read_embedded_child_from_entry, child_row. autorewrite with outcome.
  intros (d & _ & Hc)%bind_ok_inv. autorewrite with outcome in Hc.
  repeat (apply bind_ok_inv in Hc as (? & _ & Hc)). injection Hc as <-. cbn. f_equal. symmetry. by eapply attachments_by_nid_nid.
Qed.

Lemma rmap_row_ids table subs npid rows cs :
  rmap (λ row, outcome (table_child pst table (attachments_by_nid subs) npid row)) rows = Ok cs →
  map (λ row, get_row_id table (Z.of_nat row)) rows = map (λ c, Some (ca_nid c)) cs.
Proof.
  revert cs. induction rows as [|row rows IH]; intros cs; [by intros [= <-]|].
  intros (c & cs' & Hc%table_child_nid & Hcs & ->)%rmap_cons_ok. cbn. by rewrite Hc, (IH cs' Hcs).
Qed.

Lemma via_table_inv t subs npid l k :
  outcome (list_attachments_via_attach_table pst t subs npid true) = Ok (l, k) →
  k = 0 ∧ ∃ data table, outcome (read_block_data file (bbt pst) (sub_bid_data t) crypt) = Ok data ∧
    outcome (load_from_table_bids data file (bbt pst) (sub_bid_sub t) crypt) = Ok table ∧
    rmap (λ row, outcome (table_child pst table (attachments_by_nid subs) npid row)) (seq 0 (Z.to_nat (row_count table))) = Ok l.
Proof.
  unfold list_attachments_via_attach_table. autorewrite with outcome. intros (_ & _ & H)%bind_ok_inv.
  autorewrite with outcome in H. apply bind_ok_inv in H as (data & Hd & H). autorewrite with outcome in H.
  apply bind_ok_inv in H as (table & Ht & H). apply strict_rows in H as (-> & new & Hn & ->). split; [done|]. by exists data, table.
Qed.

Lemma strict_count root cache l k c ev :
  list_attachments_from_message_node pst root true cache = ((Ok (l, k), c), ev) → k = 0.
Proof.
  intros E. assert (wrun (list_attachments_from_message_node pst root true) cache = (Ok (l, k), c)) as Hw by (unfold wrun; by rewrite E).
  revert Hw. unfold list_attachments_from_message_node. destruct (is_null _); [by intros [= _ <- _]|].
  rewrite wrun_bind, wrun_lift. destruct (outcome (list_subnode_entries _ _ _)) as [subs|e| |]; try done.
  rewrite wrun_bind. destruct (wrun (name_id_map_of pst) cache) as [[m|e| |] s]; try done.
  destruct (find _ subs) as [t|].
  - rewrite wrun_lift. intros [= H _]. by apply via_table_inv in H as [-> _].
  - destruct (existsb _ _); [done|by intros [= _ <- _]].
Qed.

(** The list of a message node with an attachment table, after the map is loaded. *)
Lemma node_list_table root b cache subs t out s :
  is_null (mn_bid_sub root) = false → outcome (list_subnode_entries file (bbt pst) (mn_bid_sub root)) = Ok subs →
  find (has_type AttachmentTable) subs = Some t →
  wrun (list_attachments_from_message_node pst root b) cache = (Ok out, s) →
  ∃ m, outcome (list_attachments_via_attach_table pst t subs (attachment_provider_type_npid m) b) = Ok out.
Proof.
  intros Hn Hs Ht. unfold list_attachments_from_message_node. rewrite Hn, wrun_bind, wrun_lift, Hs. cbv beta iota.
  rewrite wrun_bind. destruct (wrun (name_id_map_of pst) cache) as [[m|e| |] c]; try done. rewrite Ht, wrun_lift.
  intros [= H _]. by exists m.
Qed.
(** A soft list that skipped nothing is the strict list. *)
Lemma strict_no_table root cache subs :
  is_null (mn_bid_sub root) = false → outcome (list_subnode_entries file (bbt pst) (mn_bid_sub root)) = Ok subs →
  find (has_type AttachmentTable) subs = None → attachment_nids subs ≠ [] → bbt_wf (bbt pst) →
  (wrun (list_attachments_from_message_node pst root true) cache).1 = Err (SubnodeNotFound 0x671).
Proof.
  intros Hn Hs Ht Hne Hwf. unfold list_attachments_from_message_node. rewrite Hn, wrun_bind, wrun_lift, Hs. cbv beta iota.
  rewrite wrun_bind. pose proof (name_id_map_total_walk pst Hwf cache) as Hm.
  destruct (wrun (name_id_map_of pst) cache) as [[m|e| |] c] eqn:E; cbn in Hm; try done.
  - rewrite Ht. assert (existsb (has_type Attachment) subs = true) as ->; [|done]. clear -Hne. induction subs as [|x subs IH]; [done|].
    unfold attachment_nids in *. cbn [existsb]. rewrite filter_cons in Hne. destruct (has_type Attachment x) eqn:Ex; [done|]. by apply IH.
  - exfalso. destruct (load_name_id_map_ok pst cache Hwf) as (m & Hl & _). unfold wrun, name_id_map_of in E.
    destruct (load_name_id_map pst cache) as [o l]. cbn in Hl. subst o. discriminate E.
Qed.

Lemma via_table_none t subs npid :
  io_agrees (λ r, r.2 = 0) (list_attachments_via_attach_table pst t subs npid false)
    (list_attachments_via_attach_table pst t subs npid true).
Proof.
  unfold list_attachments_via_attach_table. do 3 (apply io_agrees_bind; intros ?). intros [l k] ev. cbn [snd].
  intros ->. by apply (soft_rows_none _ _ ([], 0)).
Qed.

Lemma node_list_none root subs t :
  is_null (mn_bid_sub root) = false → outcome (list_subnode_entries file (bbt pst) (mn_bid_sub root)) = Ok subs →
  find (has_type AttachmentTable) subs = Some t →
  agrees (λ r, r.2 = 0) (list_attachments_from_message_node pst root false) (list_attachments_from_message_node pst root true).
Proof.
  intros Hn Hs Ht. unfold list_attachments_from_message_node. rewrite Hn.
  destruct (list_subnode_entries _ _ _) as [o l1]. cbn in Hs. subst o. intros s r s' l Hr.
  unfold mbind, walk_bind, lift. cbn [fst snd].
  destruct (name_id_map_of pst s) as [[[m|e| |] s1] l2]; try done. rewrite Ht. cbn [fst snd].
  pose proof (via_table_none t subs (attachment_provider_type_npid m)) as Hag.
  destruct (list_attachments_via_attach_table pst t subs (attachment_provider_type_npid m) false) as [o l3] eqn:E.
  cbn [fst snd]. intros [= -> <- <-]. by rewrite (Hag r l3 Hr eq_refl).
Qed.
End lists.

(** C28 A strict list omits nothing.  When a strict list succeeds, the soft list is the
    same one, with the same events and no skipped row.  For a message of the node index
    the strict list has the attachment subnodes of the message, in order, and a soft
    list that is as long is the strict one.  For a message node that has an attachment
    table the strict list has the rows of the table, in order, and a soft list that
    skipped no row is the strict one; without a table and with attachments the strict
    list is an error, whatever the soft list finds.  So an identity never misses an
    attachment, and a list with a table that counts no skipped row is complete. *)
Theorem strict_lists_exact `{Crc : Crc32} pst nid root cache :
  (∀ infos c ev, list_attachments_strict pst nid cache = ((Ok infos, c), ev) →
     list_attachments pst nid cache = ((Ok infos, c), ev)) ∧
  (∀ e subs, nbt_get (nbt pst) nid = Some e → is_null (bid_sub e) = false →
     outcome (list_subnode_entries (reader pst) (bbt pst) (bid_sub e)) = Ok subs →
     (∀ infos c ev, list_attachments_strict pst nid cache = ((Ok infos, c), ev) → map ai_nid infos = attachment_nids subs) ∧
     (∀ infos c ev, list_attachments pst nid cache = ((Ok infos, c), ev) → length infos = length (attachment_nids subs) →
        list_attachments_strict pst nid cache = ((Ok infos, c), ev))) ∧
  (∀ l k c ev, list_attachments_from_message_node pst root true cache = ((Ok (l, k), c), ev) →
     k = 0 ∧ list_attachments_from_message_node pst root false cache = ((Ok (l, 0), c), ev)) ∧
  (∀ subs t, is_null (mn_bid_sub root) = false →
     outcome (list_subnode_entries (reader pst) (bbt pst) (mn_bid_sub root)) = Ok subs →
     find (has_type AttachmentTable) subs = Some t →
     (∀ l c ev, list_attachments_from_message_node pst root false cache = ((Ok (l, 0), c), ev) →
        list_attachments_from_message_node pst root true cache = ((Ok (l, 0), c), ev)) ∧
     (∀ l c ev, list_attachments_from_message_node pst root true cache = ((Ok (l, 0), c), ev) →
        ∃ data table, outcome (read_block_data (reader pst) (bbt pst) (sub_bid_data t) (header_crypt (header pst))) = Ok data ∧
          outcome (load_from_table_bids data (reader pst) (bbt pst) (sub_bid_sub t) (header_crypt (header pst))) = Ok table ∧
          map (λ row, get_row_id table (Z.of_nat row)) (seq 0 (Z.to_nat (row_count table))) = map (λ a, Some (ca_nid a)) l)) ∧
  (∀ subs, is_null (mn_bid_sub root) = false →
     outcome (list_subnode_entries (reader pst) (bbt pst) (mn_bid_sub root)) = Ok subs →
     find (has_type AttachmentTable) subs = None → attachment_nids subs ≠ [] → bbt_wf (bbt pst) →
     (wrun (list_attachments_from_message_node pst root true) cache).1 = Err (SubnodeNotFound 0x671)).
Proof.
  split; [intros infos c ev; by apply info_lists_agree|]. split; [by apply info_lists_exact|].
  assert (Hsoft : ∀ l k c ev, list_attachments_from_message_node pst root true cache = ((Ok (l, k), c), ev) →
    list_attachments_from_message_node pst root false cache = ((Ok (l, k), c), ev)) by (intros; by apply node_lists_agree).
  split.
  - intros l k c ev E. pose proof (strict_count pst root cache l k c ev E) as ->. split; [done|by apply Hsoft].
  - split; [|by apply strict_no_table]. intros subs t Hn Hs Ht. split; [intros l c ev; by eapply node_list_none|]. intros l c ev E.
    assert (wrun (list_attachments_from_message_node pst root true) cache = (Ok (l, 0), c)) as Hw by (unfold wrun; by rewrite E).
    apply (node_list_table pst root true cache subs t _ c Hn Hs Ht) in Hw as (m & Hm).
    apply via_table_inv in Hm as (_ & data & table & Hd & Htab & Hr). exists data, table. split_and!; [done..|].
    by apply (rmap_row_ids pst table subs (attachment_provider_type_npid m)).
Qed.

(** C38 Attachments and embedded messages are read safely on any file: listing them
    softly or strictly, resolving and reading the identity of an embedded message, and
    opening attachment data return a value or an error and never panic, and so does
    every sequence of reads from an opened attachment, damaged blocks included.  The
    call stack is outside the model: the source skips empty leaf blocks by recursion. *)
Theorem attachments_total `{Crc : Crc32, Platform, Sha256} pst reopened nid attach root strict budget cache
    (Hwf : bbt_wf (bbt pst)) :
  never_panics (wrun (list_attachments_inner pst nid strict) cache).1 ∧
  never_panics (wrun (list_attachments_from_message_node pst root strict) cache).1 ∧
  never_panics (wrun (read_embedded_message_identity pst nid attach budget) cache).1 ∧
  (∀ r, outcome (open_attachment_data pst reopened nid attach) = Ok r ∨
        outcome (open_attach_data_from_message_node pst reopened root attach) = Ok r →
   ∀ lens, Forall (Z.le 0) lens → never_panics (wrun (drain lens) r).1) ∧
  never_panics (outcome (open_attachment_data pst reopened nid attach)) ∧
  never_panics (outcome (open_attach_data_from_message_node pst reopened root attach)).
Proof.
  pose proof (open_attachment_data_ok pst Hwf reopened nid attach) as Ho.
  pose proof (node_open_ok pst Hwf reopened root attach) as Hn. split_and!.
  - by apply list_attachments_inner_total.
  - by apply node_attachments_total.
  - unfold read_embedded_message_identity. revert cache. apply wtotal_bind; [|intros n; by apply identity_total].
    apply wtotal_lift. unfold resolve_embedded_root_nbt. autorewrite with outcome. apply holds_bind.
    eapply (holds_mono _ (λ _, True)); [|intros p _; by apply resolve_embedded_root_total].
    unfold message_node_from_nbt. by destruct (nbt_get _ _).
  - intros r [Hr|Hr] lens; apply drain_total; [by rewrite Hr in Ho|by rewrite Hr in Hn].
  - eapply holds_mono; [exact Ho|done].
  - eapply holds_mono; [exact Hn|done].
Qed.

(** ** Runs *)

#[local] Existing Instances ascii prefix_digest.

Definition attach_root : message_node := {| mn_nid := 0x24; mn_bid_data := 0x44; mn_bid_sub := 0x46 |}.

Lemma attachments_total_witness :
  never_panics (outcome (open_attachment_data attach_pst (Some fixture_file) 0x24 0x8045)).
Proof.
  exact (proj1 (proj2 (proj2 (proj2 (proj2
    (attachments_total attach_pst (Some fixture_file) 0x24 0x8045 attach_root true 10 None fixture_bbt_wf)))))).
Defined.

(** A second message: its attachment table names 0x8045 before 0x8025, and the nested
    message of 0x8045 has a body of eight bytes. *)
Definition mk_wide_block (payload : list byte) : list byte := payload ++ replicate (144 - length payload) Byte.x00.
Definition attachment_rows : list byte :=
  zbytes ([62; 0; 0xEC; 0x7C; 0x20; 0; 0; 0; 0; 0; 0; 0] ++
          [0x7C; 0] ++ [4; 0; 4; 0; 4; 0; 4; 0] ++ [0x40; 0; 0; 0] ++ [0x80; 0; 0; 0] ++
          [0xB5; 4; 4; 0; 0x60; 0; 0; 0] ++
          [0x25; 0x80; 0; 0; 1; 0; 0; 0] ++ [0x45; 0x80; 0; 0; 0; 0; 0; 0] ++ [0; 0; 0; 0; 0; 0; 0; 0] ++
          [4; 0; 0; 0; 12; 0; 30; 0; 38; 0; 54; 0; 62; 0]).
Definition bodied_pc : list byte :=
  zbytes ([36; 0; 0xEC; 0xBC; 0x20; 0; 0; 0; 0; 0; 0; 0] ++ [0xB5; 2; 6; 0; 0x40; 0; 0; 0] ++
          [0x00; 0x10; 0x1F; 0; 0x60; 0; 0; 0] ++ [65; 0; 66; 0; 67; 0; 68; 0] ++ [3; 0; 0; 0; 12; 0; 20; 0; 28; 0; 36; 0]).
Definition sl_entry (nid data subs : Z) : list byte := le_split 8 nid ++ le_split 8 data ++ le_split 8 subs.
Definition table_file : list byte :=
  Eval vm_compute in fixture_file ++ mk_wide_block attachment_rows ++
    mk_wide_block (zbytes [2; 0; 3; 0; 0; 0; 0; 0] ++ sl_entry 0x671 0x54 0 ++ sl_entry 0x8025 0x44 0x32 ++ sl_entry 0x8045 0x48 0x5A) ++
    mk_block bodied_pc ++ mk_block (zbytes [2; 0; 1; 0; 0; 0; 0; 0] ++ sl_entry 0x24 0x58 0).
Definition table_pst : pst_file :=
  {| reader := table_file; header := header attach_pst; nbt := nbt attach_pst;
     bbt := list_to_map [fixture_entry 0x54 800 76; fixture_entry 0x52 944 80; fixture_entry 0x58 1088 48; fixture_entry 0x5A 1168 32] ∪ fixture_bbt |}.
Definition table_root : message_node := {| mn_nid := 0x24; mn_bid_data := 0x44; mn_bid_sub := 0x52 |}.

Lemma table_pst_wf : bbt_wf (bbt table_pst).
Proof.
  unfold table_pst, bbt_wf, fixture_entry. cbn [bbt]. apply map_Forall_union_2; [|exact fixture_bbt_wf]. simpl.
  repeat (apply map_Forall_insert_2; [simpl; lia|]). apply map_Forall_empty.
Qed.

(** Whether the first child of an export holds its message, and whether it is marked. *)
Definition first_child (r : pres export_fields) : option (bool * bool) :=
  match r with
  | Ok (ExportFields _ (ExportAttach _ _ nested cut :: _)) => Some (match nested with Some _ => true | None => false end, cut)
  | _ => None
  end.

(** The nested message is exported under a budget of eight bytes, and cut by a smaller
    one and below the last level. *)
Lemma nested_export_bounded_witness :
  let run depth budget := (wrun (read_export_from_message_node table_pst depth budget table_root) None).1 in
  first_child (run 1%nat 8) = Some (true, false) ∧ first_child (run 1%nat 7) = Some (false, true) ∧
  first_child (run 0%nat 8) = Some (false, true) ∧
  holds (run 1%nat 8) (within table_pst (loaded table_pst None) 8 1 table_root) ∧
  holds (run 1%nat 7) (within table_pst (loaded table_pst None) 7 1 table_root).
Proof.
  split; [vm_compute; reflexivity|]. split; [vm_compute; reflexivity|]. split; [vm_compute; reflexivity|]. split.
  - apply (nested_export_bounded table_pst 1 8 table_root None table_pst_wf). unfold U64_MAX. lia.
  - apply (nested_export_bounded table_pst 1 7 table_root None table_pst_wf). unfold U64_MAX. lia.
Defined.

(** The lists of that message, by its node and by the node index. *)
Definition listed {A} (r : pres A * map_cache) : option A := match r.1 with Ok a => Some a | _ => None end.
Definition table_entry : subnode_entry := {| sub_nid := 0x671; sub_bid_data := 0x54; sub_bid_sub := 0 |}.

Lemma strict_lists_exact_witness :
  ∃ l c ev data table,
    list_attachments_from_message_node table_pst table_root true None = ((Ok (l, 0), c), ev) ∧
    list_attachments_from_message_node table_pst table_root false None = ((Ok (l, 0), c), ev) ∧
    map ca_nid l = [0x8045; 0x8025] ∧
    outcome (load_from_table_bids data (reader table_pst) (bbt table_pst) 0 (header_crypt (header table_pst))) = Ok table ∧
    map (λ row, get_row_id table (Z.of_nat row)) (seq 0 (Z.to_nat (row_count table))) = map (λ a, Some (ca_nid a)) l ∧
    (wrun (list_attachments_from_message_node attach_pst attach_root true) None).1 = Err (SubnodeNotFound 0x671).
Proof.
  pose proof (strict_lists_exact table_pst 0x24 table_root None) as (_ & _ & Hsoft & Htable & _).
  pose proof (strict_lists_exact attach_pst 0x24 attach_root None) as (_ & _ & _ & _ & Hno).
  assert (Hrun : match (list_attachments_from_message_node table_pst table_root true None).1.1 with
    | Ok (l, k) => map ca_nid l = [0x8045; 0x8025] | _ => False end) by (vm_compute; reflexivity).
  destruct (list_attachments_from_message_node table_pst table_root true None) as [[r c] ev] eqn:E. cbn [fst] in Hrun.
  destruct r as [[l k]|e| |]; [|destruct Hrun..]. destruct (Hsoft l k c ev eq_refl) as [-> Hs].
  assert (Hsubs : ∃ subs, outcome (list_subnode_entries (reader table_pst) (bbt table_pst) (mn_bid_sub table_root)) = Ok subs ∧
    find (has_type AttachmentTable) subs = Some table_entry) by (eexists; split; vm_compute; reflexivity).
  destruct Hsubs as (subs & Hsubs & Hfind).
  destruct (Htable subs table_entry eq_refl Hsubs Hfind) as [_ Hrows]. destruct (Hrows l c ev eq_refl) as (data & table & _ & Ht & Hids).
  exists l, c, ev, data, table. split; [reflexivity|]. split; [exact Hs|]. split; [exact Hrun|]. split; [exact Ht|]. split; [exact Hids|].
  assert (Hplain : ∃ subs, outcome (list_subnode_entries (reader attach_pst) (bbt attach_pst) (mn_bid_sub attach_root)) = Ok subs ∧
    find (has_type AttachmentTable) subs = None ∧ length (attachment_nids subs) = 2%nat) by (eexists; split_and!; vm_compute; reflexivity).
  destruct Hplain as (psubs & Hp & Hnone & Hlen). apply (Hno psubs eq_refl Hp Hnone); [by intros Hnil; rewrite Hnil in Hlen|exact fixture_bbt_wf].
Defined.

(** The soft list of the message node: both attachments, in the order of the tree;
    the strict one fails, since there is no attachment table. *)
Example node_lists :
  (match (wrun (list_attachments_from_message_node attach_pst attach_root false) None).1 with
   | Ok (l, k) => (map ca_nid l, k) | _ => ([], -1) end) = ([0x8025; 0x8045], 0) ∧
  (wrun (list_attachments_from_message_node attach_pst attach_root true) None).1 = Err (SubnodeNotFound 0x671).
Proof. split; vm_compute; reflexivity. Qed.
