(* ===== verification/WriterHeap.v ===== *)
(** * Heaps and property contexts of the writer (pst-writer/src/lib.rs, production.rs)

    [HeapBuilder] lays allocations one after the other behind a 12-byte header and
    writes the allocation map behind them; [build_bth_checked] puts sorted records
    into one leaf; [build_pc_v2] encodes property values.  A value that would not
    fit one 8176-byte block is refused. *)

From S2P Require Import Prelude PstError Heap Bth Utf PropContext PropContextFacts.
#[local] Open Scope Z_scope.

(** [WriterError]: one constructor for each message that the modelled functions
    build, with the numbers it prints.  All but the last three are
    [WriterError::Layout]. *)
Inductive writer_error :=
| HeapPageOverflow (projected heap_data alloc_bytes pagemap allocs : Z)
| PatchUnknownHid (hid index : Z)
| PatchOutside (hid field_offset at_ start stop : Z)
| EagerWriterMissing
| DuplicateNodeId (nid : Z)
| DuplicateSlEntry (nid : Z)
| SlBlockFull (entries : Z)
| RowWidthZero
| RowMatrixRagged (len row_width : Z)
| RowTooWide (row_width : Z)
| MissingPageOffset (bid : Z)
| EmptyTreePlan (ptype : Z)
| MissingAmapPage
| PatchUnknownPage (hid block : Z)
| HnBitmapPage (page : Z)
| HnPageOverflow (page len : Z)
| HnAllocTooBig (len : Z)
| HnIndexExhausted
| BthKeyTooShort (cb_key : Z)
| BthEmptyEntry
| BthRecordLength (len cb_ent : Z)
| NoAttachmentRows
| ColumnOutOfRow (ib cb row_width : Z)
| UnexpectedColumn (prop_id : Z)
| BodyTooLarge (len : Z)
| AllocationFailed (xblocks : Z)
| StreamIo (code : Z).

Abbreviation wres := (res writer_error).

(** [l[at..at + bytes.len()].copy_from_slice(&bytes)]: panics out of range. *)
Definition put {E} (l : list byte) (at_ : Z) (bytes : list byte) : res E (list byte) :=
  if (0 <=? at_) && (at_ + zlen bytes <=? zlen l)
  then Ok (sub l 0 at_ ++ bytes ++ sub l (at_ + zlen bytes) (zlen l - (at_ + zlen bytes)))
  else Panic.

(** ** HeapBuilder *)

Record heap_builder := { hb_data : list byte; hb_allocations : list (Z * Z) }.

(** [HeapBuilder::new] *)
Definition hb_new (client_sig : Z) : heap_builder :=
  {| hb_data := le_split 2 0 ++ [byte.of_Z 0xEC; byte.of_Z client_sig] ++ le_split 4 0 ++ le_split 4 0;
     hb_allocations := [] |}.

(** [HeapBuilder::alloc]: the heap ID and the heap. *)
Definition hb_alloc (h : heap_builder) (bytes : list byte) : Z * heap_builder :=
  let start := zlen (hb_data h) in
  let data := hb_data h ++ bytes in
  let index := wrap 32 (zlen (hb_allocations h)) + 1 in
  (wrap 32 (Z.shiftl index 5),
   {| hb_data := data; hb_allocations := hb_allocations h ++ [(start, zlen data)] |}).

(** [HeapBuilder::try_alloc] *)
Definition hb_try_alloc (h : heap_builder) (bytes : list byte) : wres (Z * heap_builder) :=
  let projected_alloc_count := zlen (hb_allocations h) + 1 in
  let projected_pagemap := 4 + (projected_alloc_count + 1) * 2 in
  let projected := zlen (hb_data h) + zlen bytes + projected_pagemap in
  if MAX_BLOCK_DATA <? projected
  then Err (HeapPageOverflow projected (zlen (hb_data h)) (zlen bytes) projected_pagemap projected_alloc_count)
  else Ok (hb_alloc h bytes).

(** [HeapBuilder::patch_u32] *)
Definition hb_patch_u32 (h : heap_builder) (hid field_offset value : Z) : wres heap_builder :=
  let index := Z.max (Z.shiftr hid 5 - 1) 0 in
  match hb_allocations h !! Z.to_nat index with
  | None => Err (PatchUnknownHid hid index)
  | Some (start, stop) =>
      let at_ := start + field_offset in
      if stop <? at_ + 4 then Err (PatchOutside hid field_offset at_ start stop)
      else
        data ← put (hb_data h) at_ (le_split 4 value);
        Ok {| hb_data := data; hb_allocations := hb_allocations h |}
  end.

(** [HeapBuilder::finalize] *)
Definition hb_finalize (h : heap_builder) (hid_user_root : Z) : wres (list byte) :=
  let hnpm_offset := zlen (hb_data h) in
  let pagemap :=
    le_split 2 (wrap 16 (zlen (hb_allocations h))) ++ le_split 2 0 ++ le_split 2 12 ++
    (e ← hb_allocations h; le_split 2 (wrap 16 e.2)) in
  data ← put (hb_data h ++ pagemap) 0 (le_split 2 (wrap 16 hnpm_offset));
  put data 4 (le_split 4 hid_user_root).

(** ** BTH and property contexts *)

(** [records.sort_by_key(|r| r.0)]: a stable insertion sort. *)
Fixpoint insert_by_key {A} (r : Z * A) (l : list (Z * A)) : list (Z * A) :=
  match l with
  | [] => [r]
  | s :: l => if r.1 <=? s.1 then r :: s :: l else s :: insert_by_key r l
  end.
Definition sort_by_key {A} (l : list (Z * A)) : list (Z * A) := foldr insert_by_key [] l.

(** [build_bth_checked] *)
Definition build_bth_checked (h : heap_builder) (cb_key cb_ent : Z) (records : list (Z * list byte))
    : wres (Z * heap_builder) :=
  let records := sort_by_key records in
  let bth_data := map byte.of_Z [0xB5; cb_key; cb_ent; 0] ++ le_split 4 0 in
  root ← hb_try_alloc h bth_data;
  let leaf_data := r ← records; le_split 2 r.1 ++ r.2 in
  leaf ← hb_try_alloc root.2 leaf_data;
  h ← hb_patch_u32 leaf.2 root.1 4 leaf.1;
  Ok (root.1, h).

Definition PTYP_INTEGER_32 : Z := 0x0003.
Definition PTYP_BOOLEAN : Z := 0x000B.
Definition PTYP_OBJECT : Z := 0x000D.
Definition PTYP_STRING : Z := 0x001F.
Definition PTYP_TIME : Z := 0x0040.
Definition PTYP_BINARY : Z := 0x0102.

(** [PcValue] *)
Inductive pc_value :=
| VI32 (v : Z)
| VBool (v : bool)
| VTime (v : Z)
| VString (s : rstring)
| VBinary (b : list byte)
| VObject (nid size : Z)
| VSubnodeString (nid : Z)
| VSubnodeBinary (nid : Z).

(** The bytes that a value keeps in the heap, if it does. *)
Definition heap_bytes (value : pc_value) : option (list byte) :=
  match value with
  | VTime v => Some (le_split 8 v)
  | VString s => Some (utf16le_bytes s)
  | VBinary b => Some b
  | VObject nid size => Some (le_split 4 (wrap 32 nid) ++ le_split 4 size)
  | _ => None
  end.

Definition value_type (value : pc_value) : Z :=
  match value with
  | VI32 _ => PTYP_INTEGER_32 | VBool _ => PTYP_BOOLEAN | VTime _ => PTYP_TIME
  | VString _ | VSubnodeString _ => PTYP_STRING
  | VBinary _ | VSubnodeBinary _ => PTYP_BINARY | VObject _ _ => PTYP_OBJECT
  end.

(** The value word of a value that is not in the heap. *)
Definition inline_word (value : pc_value) : Z :=
  match value with
  | VI32 v => v | VBool v => if v then 1 else 0
  | VSubnodeString nid | VSubnodeBinary nid => wrap 32 nid
  | _ => 0
  end.

(** [encode_pc_value]: the type, then the value, a heap ID or a subnode ID. *)
Definition encode_pc_value (h : heap_builder) (value : pc_value) : wres (list byte * heap_builder) :=
  match heap_bytes value with
  | Some bytes =>
      r ← hb_try_alloc h bytes;
      Ok (le_split 2 (value_type value) ++ le_split 4 r.1, r.2)
  | None => Ok (le_split 2 (value_type value) ++ le_split 4 (inline_word value), h)
  end.

(** The loop of [build_pc_v2]. *)
Fixpoint encode_properties (h : heap_builder) (properties : list (Z * pc_value))
    : wres (list (Z * list byte) * heap_builder) :=
  match properties with
  | [] => Ok ([], h)
  | (prop_id, value) :: properties =>
      v ← encode_pc_value h value;
      rest ← encode_properties v.2 properties;
      Ok ((prop_id, v.1) :: rest.1, rest.2)
  end.

(** [build_pc_v2] *)
Definition build_pc_v2 (h : heap_builder) (properties : list (Z * pc_value)) : wres (Z * heap_builder) :=
  r ← encode_properties h properties;
  build_bth_checked r.2 2 6 r.1.

Example small_pc :
  match build_pc_v2 (hb_new 0xBC) [(0x3001, VString [72; 105]); (0x0E08, VI32 (-1))] with
  | Ok (hid, h) =>
      match hb_finalize h hid with
      | Ok bytes => match pc_load bytes with
                    | Ok pc => map (get_string pc) [0x3001] = [Ok (Some [72; 105])] ∧ get_i32 pc 0x0E08 = Ok (Some (-1))
                    | _ => False end
      | _ => False end
  | _ => False
  end.
Proof. vm_compute. split; reflexivity. Qed.

(** * Facts about the heaps of the writer

    A heap builder stands for the list of its allocations.  Finalized, it is a
    heap that the reader parses, and each heap ID that was handed out reads back
    its allocation. *)

Lemma put_mid {E} (a x b bytes : list byte) at_ :
  at_ = zlen a → zlen x = zlen bytes → put (a ++ x ++ b) at_ bytes = Ok (a ++ bytes ++ b) :> res E _.
Proof.
  intros -> Hx. pose proof (zlen_nonneg a). pose proof (zlen_nonneg b). pose proof (zlen_nonneg x). unfold put.
  rewrite (proj2 (Z.leb_le _ _)), (proj2 (Z.leb_le _ _)) by (rewrite ?zlen_app; lia). cbn [andb]. f_equal. f_equal.
  - exact (sub_mid [] a (x ++ b) 0 (zlen a) eq_refl eq_refl).
  - f_equal. rewrite (assoc_L (++) a). rewrite <- (app_nil_r b) at 1.
    apply sub_mid; rewrite !zlen_app, ?app_nil_r; lia.
Qed.

Lemma put_front {E} (x b bytes : list byte) :
  zlen x = zlen bytes → put (x ++ b) 0 bytes = Ok (bytes ++ b) :> res E _.
Proof. intros Hx. by apply (put_mid [] x b bytes). Qed.

(** ** What a builder stands for *)

Fixpoint spans (off : Z) (chunks : list (list byte)) : list (Z * Z) :=
  match chunks with [] => [] | c :: chunks => (off, off + zlen c) :: spans (off + zlen c) chunks end.

Definition header_bytes (hnpm client root : Z) : list byte :=
  le_split 2 hnpm ++ [byte.of_Z 0xEC; byte.of_Z client] ++ le_split 4 root ++ le_split 4 0.

Record stands_for (client : Z) (h : heap_builder) (chunks : list (list byte)) : Prop := {
  sf_data : hb_data h = header_bytes 0 client 0 ++ concat chunks;
  sf_allocations : hb_allocations h = spans 12 chunks;
  sf_fits : zlen (hb_data h) + 4 + (zlen chunks + 1) * 2 <= MAX_BLOCK_DATA }.

Lemma zlen_header a b c : zlen (header_bytes a b c) = 12.
Proof. unfold header_bytes. rewrite !zlen_app, !zlen_le_split. done. Qed.

Lemma length_spans off chunks : length (spans off chunks) = length chunks.
Proof. revert off. induction chunks as [|c chunks IH]; intros off; [done|]. simpl. by rewrite IH. Qed.

Lemma spans_app off cs c : spans off (cs ++ [c]) = spans off cs ++ [(off + zlen (concat cs), off + zlen (concat cs) + zlen c)].
Proof.
  revert off. induction cs as [|d cs IH]; intros off; cbn [app spans concat].
  - rewrite zlen_nil, Z.add_0_r. done.
  - rewrite IH, zlen_app. by rewrite !Z.add_assoc.
Qed.

(** Only the lengths matter. *)
Lemma spans_ext off cs ds : map zlen cs = map zlen ds → spans off cs = spans off ds.
Proof.
  revert off ds. induction cs as [|c cs IH]; intros off [|d ds]; try done. cbn [map spans].
  intros [= -> E]. by rewrite (IH _ ds E).
Qed.

Lemma spans_lookup off cs i c :
  cs !! i = Some c → spans off cs !! i = Some (off + zlen (concat (take i cs)), off + zlen (concat (take (S i) cs))).
Proof.
  revert off i. induction cs as [|d cs IH]; intros off [|i]; try done.
  - intros [= ->]. cbn [spans lookup list_lookup take concat]. rewrite take_0. cbn [concat].
    rewrite app_nil_r, zlen_nil. f_equal. f_equal; lia.
  - intros H. cbn [spans lookup list_lookup]. rewrite (IH _ i H). cbn [take concat]. rewrite !zlen_app.
    f_equal. f_equal; lia.
Qed.

Lemma stands_for_new client : stands_for client (hb_new client) [].
Proof. split; [by rewrite app_nil_r|done|]. cbn [hb_new hb_data]. rewrite !zlen_app, !zlen_le_split. done. Qed.

Section stands.
Context (client : Z).

Lemma chunks_bound h chunks : stands_for client h chunks → 0 <= zlen (concat chunks) <= 8158 ∧ zlen chunks <= 4079.
Proof.
  intros [Hd Ha Hf]. rewrite Hd, zlen_app, zlen_header in Hf. unfold MAX_BLOCK_DATA in Hf.
  pose proof (zlen_nonneg (concat chunks)). pose proof (zlen_nonneg chunks). lia.
Qed.

Lemma try_alloc_spec h chunks bytes hid h' :
  stands_for client h chunks → hb_try_alloc h bytes = Ok (hid, h') →
  hid = 32 * (zlen chunks + 1) ∧ stands_for client h' (chunks ++ [bytes]).
Proof.
  intros Hs. pose proof (chunks_bound _ _ Hs) as [Hb1 Hb2]. pose proof (zlen_nonneg chunks). destruct Hs as [Hd Ha Hf].
  unfold hb_try_alloc.
  assert (Hl : zlen (hb_allocations h) = zlen chunks) by (unfold zlen; by rewrite Ha, length_spans).
  rewrite Hl. destruct (_ <? _) eqn:E; [done|]. bool_to_Z. unfold hb_alloc. rewrite Hl. intros [= <- <-]. split.
  - unfold wrap. rewrite (Z.mod_small (zlen chunks)) by lia. rewrite Z.shiftl_mul_pow2 by lia. rewrite Z.mod_small; lia.
  - split; cbn [hb_data hb_allocations].
    + rewrite Hd, concat_app. cbn [concat]. by rewrite app_nil_r, (assoc_L (++)).
    + rewrite Ha, spans_app, Hd, !zlen_app, zlen_header. done.
    + rewrite !zlen_app, zlen_cons, zlen_nil. lia.
Qed.

(** Patching four bytes of an allocation. *)
Lemma patch_spec h pre a x b post value :
  stands_for client h (pre ++ (a ++ x ++ b) :: post) → zlen x = 4 →
  ∃ h', hb_patch_u32 h (32 * (zlen pre + 1)) (zlen a) value = Ok h' ∧
    stands_for client h' (pre ++ (a ++ le_split 4 value ++ b) :: post).
Proof.
  intros Hs Hx. pose proof (chunks_bound _ _ Hs) as [Hb1 Hb2]. destruct Hs as [Hd Ha Hf].
  pose proof (zlen_nonneg pre). pose proof (zlen_nonneg a). pose proof (zlen_nonneg b).
  unfold hb_patch_u32.
  assert (Z.max (Z.shiftr (32 * (zlen pre + 1)) 5 - 1) 0 = zlen pre) as ->.
  { rewrite Z.shiftr_div_pow2 by lia. change (2 ^ 5) with 32. rewrite Z.mul_comm, Z.div_mul by lia. lia. }
  rewrite Ha. unfold zlen at 1. rewrite Nat2Z.id.
  rewrite (spans_lookup _ _ (length pre) (a ++ x ++ b)) by (by rewrite list_lookup_middle).
  rewrite take_app_length, (take_S_r _ _ (a ++ x ++ b)) by (by rewrite list_lookup_middle).
  rewrite take_app_length, concat_app. cbn [concat]. rewrite app_nil_r, !zlen_app.
  rewrite (proj2 (Z.ltb_ge _ _)) by lia.
  assert (Hdata : hb_data h = (header_bytes 0 client 0 ++ concat pre ++ a) ++ x ++ (b ++ concat post)).
  { rewrite Hd, concat_app. cbn [concat]. by rewrite <- !(assoc_L (++)). }
  rewrite Hdata, put_mid, bind_ok by (rewrite ?zlen_app, ?zlen_header, ?zlen_le_split; lia).
  eexists. split; [reflexivity|]. split; cbn [hb_data hb_allocations].
  - rewrite concat_app. cbn [concat]. by rewrite <- !(assoc_L (++)).
  - apply spans_ext. rewrite !map_app. cbn [map]. rewrite !zlen_app, zlen_le_split, Hx. done.
  - rewrite Hdata in Hf. rewrite !zlen_app, !zlen_cons in *. rewrite zlen_le_split. lia.
Qed.
End stands.

(** ** The finalized heap *)

(** A table of 16-bit integers. *)
Lemma le_val_table vs : ∀ front i v,
  vs !! i = Some v → 0 <= v < 2 ^ 16 →
  le_val (front ++ (v ← vs; le_split 2 v)) (zlen front + 2 * Z.of_nat i) 2 = v.
Proof.
  induction vs as [|w vs IH]; intros front [|i] v; try done; intros Hv Hr.
  - injection Hv as ->. change (v ← v :: vs; le_split 2 v) with (le_split 2 v ++ (v ← vs; le_split 2 v)).
    apply le_val_mid; [exact Hr|lia|done].
  - change (v ← w :: vs; le_split 2 v) with (le_split 2 w ++ (v ← vs; le_split 2 v)).
    rewrite (assoc_L (++)). etransitivity; [|apply (IH (front ++ le_split 2 w) i v Hv Hr)].
    f_equal. rewrite zlen_app, zlen_le_split. lia.
Qed.

Lemma zlen_table vs : zlen (v ← vs; le_split 2 v) = 2 * zlen vs.
Proof.
  induction vs as [|v vs IH]; [done|]. change (v ← v :: vs; le_split 2 v) with (le_split 2 v ++ (v ← vs; le_split 2 v)).
  rewrite zlen_app, zlen_le_split, zlen_cons, IH. lia.
Qed.

Definition map_entries (chunks : list (list byte)) : list Z := 12 :: map snd (spans 12 chunks).

(** What [finalize] returns. *)
Definition image (client root : Z) (chunks : list (list byte)) : list byte :=
  header_bytes (12 + zlen (concat chunks)) client root ++ concat chunks ++
  le_split 2 (zlen chunks) ++ le_split 2 0 ++ (v ← map_entries chunks; le_split 2 v).

Lemma map_entries_lookup chunks i :
  (i <= length chunks)%nat → map_entries chunks !! i = Some (12 + zlen (concat (take i chunks))).
Proof.
  intros Hi. destruct i as [|i]; [done|]. cbn [map_entries lookup list_lookup].
  destruct (lookup_lt_is_Some_2 chunks i) as [c Hc]; [lia|].
  change ((snd <$> spans 12 chunks) !! i = Some (12 + zlen (concat (take (S i) chunks)))).
  by rewrite list_lookup_fmap, (spans_lookup 12 chunks i c Hc).
Qed.

Lemma zlen_concat_take {A} (cs : list (list A)) i : zlen (concat (take i cs)) <= zlen (concat cs).
Proof.
  rewrite <- (take_drop i cs) at 2. rewrite concat_app, zlen_app. pose proof (zlen_nonneg (concat (drop i cs))). lia.
Qed.

Lemma bind_ext_in {A B} (f g : A → list B) l : (∀ x, x ∈ l → f x = g x) → (x ← l; f x) = (x ← l; g x).
Proof.
  induction l as [|x l IH]; intros H; [done|]. change (f x ++ (x ← l; f x) = g x ++ (x ← l; g x)).
  rewrite H, IH by set_solver. done.
Qed.

Lemma bind_map {A B C} (g : A → B) (f : B → list C) l : (y ← map g l; f y) = (x ← l; f (g x)).
Proof. induction l as [|x l IH]; [done|]. change (f (g x) ++ (y ← map g l; f y) = f (g x) ++ (x ← l; f (g x))). by rewrite IH. Qed.

Section finalized.
Context (client root : Z) (h : heap_builder) (chunks : list (list byte)).
Context (Hs : stands_for client h chunks) (Hclient : 0 <= client < 256) (Hroot : 0 <= root < 2 ^ 32).

Lemma zlen_image : zlen (image client root chunks) = 12 + zlen (concat chunks) + 4 + 2 * (zlen chunks + 1).
Proof.
  unfold image. rewrite !zlen_app, zlen_header, !zlen_le_split, zlen_table. unfold map_entries.
  rewrite zlen_cons. assert (zlen (map snd (spans 12 chunks)) = zlen chunks) as ->
    by (unfold zlen; by rewrite length_map, length_spans). lia.
Qed.

Lemma image_fits : zlen (image client root chunks) <= MAX_BLOCK_DATA.
Proof. rewrite zlen_image. destruct Hs as [Hd _ Hf]. rewrite Hd, zlen_app, zlen_header in Hf. lia. Qed.

Lemma finalize_spec : hb_finalize h root = Ok (image client root chunks).
Proof.
  pose proof (chunks_bound _ _ _ Hs) as [Hb1 Hb2]. pose proof (zlen_nonneg chunks). destruct Hs as [Hd Ha Hf].
  unfold hb_finalize.
  assert (Hl : zlen (hb_allocations h) = zlen chunks) by (unfold zlen; by rewrite Ha, length_spans).
  assert (wrap 16 (zlen (hb_allocations h)) = zlen chunks) as -> by (unfold wrap; rewrite Hl; apply Z.mod_small; lia).
  assert (wrap 16 (zlen (hb_data h)) = 12 + zlen (concat chunks)) as ->.
  { unfold wrap. rewrite Hd, zlen_app, zlen_header. apply Z.mod_small. lia. }
  assert ((e ← hb_allocations h; le_split 2 (wrap 16 e.2)) = (v ← map snd (spans 12 chunks); le_split 2 v)) as ->.
  { rewrite Ha, bind_map. apply bind_ext_in. intros e [i Hi]%list_elem_of_lookup. f_equal. apply Z.mod_small.
    pose proof (lookup_lt_Some _ _ _ Hi) as Hlt. rewrite length_spans in Hlt.
    destruct (lookup_lt_is_Some_2 chunks i Hlt) as [c Hc]. rewrite (spans_lookup _ _ _ _ Hc) in Hi. injection Hi as <-.
    cbn [snd]. pose proof (zlen_concat_take chunks (S i)). pose proof (zlen_nonneg (concat (take (S i) chunks))). lia. }
  rewrite Hd. unfold header_bytes at 1. rewrite <- !(assoc_L (++)).
  rewrite put_front, bind_ok by (by rewrite !zlen_le_split).
  set (a := le_split 2 (12 + zlen (concat chunks))).
  change (a ++ byte.of_Z 0xEC :: byte.of_Z client :: ?l) with (a ++ [byte.of_Z 0xEC; byte.of_Z client] ++ l).
  rewrite (assoc_L (++) a), put_mid by (unfold a; rewrite ?zlen_app, ?zlen_le_split; done).
  unfold image, header_bytes. fold a. by rewrite <- !(assoc_L (++)).
Qed.

(** The heap that the reader sees. *)
Definition image_heap : heap :=
  {| heap_data := image client root chunks; block_size := zlen (image client root chunks);
     hn := {| ib_hnpm := 12 + zlen (concat chunks); b_sig := 0xEC; b_client_sig := client;
              hid_user_root := root; rgb_fill_level := 0 |} |}.

Lemma image_parses : heap_parse (image client root chunks) (zlen (image client root chunks)) = Ok image_heap.
Proof.
  pose proof (chunks_bound _ _ _ Hs) as [Hb1 Hb2]. pose proof (zlen_nonneg chunks).
  unfold heap_parse. rewrite (proj2 (Z.ltb_ge _ _)) by (rewrite zlen_image; lia).
  set (d := image client root chunks). set (hnpm := 12 + zlen (concat chunks)).
  assert (∃ rest, d = le_split 2 hnpm ++ [byte.of_Z 0xEC; byte.of_Z client] ++ le_split 4 root ++ le_split 4 0 ++ rest)
    as [rest Hd] by (eexists; unfold d, image, header_bytes; rewrite <- !(assoc_L (++)); reflexivity).
  assert (le_at d 0 2 = Ok hnpm :> pres _) as -> by (rewrite Hd; apply le_at_front; unfold hnpm; enc).
  assert (index d 2 = Ok 0xEC :> pres _) as -> by (rewrite Hd; reflexivity).
  assert (index d 3 = Ok client :> pres _) as ->.
  { rewrite Hd. transitivity (Ok (u8 (byte.of_Z client)) : pres Z); [reflexivity|]. f_equal. unfold u8.
    rewrite byte.unsigned_of_Z. unfold byte.wrap. by rewrite Z.mod_small. }
  assert (le_at d 4 4 = Ok root :> pres _) as ->.
  { rewrite Hd, (assoc_L (++) (le_split 2 hnpm)). apply le_at_mid; enc. }
  assert (le_at d 8 4 = Ok 0 :> pres _) as ->.
  { rewrite Hd, (assoc_L (++) (le_split 2 hnpm)), (assoc_L (++) (_ ++ _) (le_split 4 root)). apply le_at_mid; enc. }
  done.
Qed.

(** Each heap ID reads back its allocation. *)
Lemma image_get i c :
  chunks !! i = Some c → Z.of_nat i + 1 < 2048 → heap_get image_heap (32 * (Z.of_nat i + 1)) = Ok c.
Proof.
  intros Hc Hi. pose proof (chunks_bound _ _ _ Hs) as [Hb1 Hb2]. pose proof (lookup_lt_Some _ _ _ Hc) as Hlt. pose proof (zlen_nonneg chunks).
  assert (Hfit : 12 + zlen (concat chunks) + 4 + 2 * (zlen chunks + 1) < 2 ^ 16).
  { pose proof image_fits. rewrite zlen_image in *. unfold MAX_BLOCK_DATA in *. lia. }
  assert (Hwf : heap_wf image_heap).
  { split; cbn; [rewrite zlen_image; lia|lia]. }
  set (n := Z.of_nat i + 1).
  assert (Hn : hid_type (32 * n) = 0 ∧ hid_index (32 * n) = n ∧ hid_block_index (32 * n) = 0).
  { unfold hid_type, hid_index, hid_block_index. change 0x1F with (Z.ones 5). change 0x7FF with (Z.ones 11).
    change 0xFFFF with (Z.ones 16). rewrite !Z.land_ones, !Z.shiftr_div_pow2 by lia. unfold n. clear Hfit Hwf.
    change (2 ^ 5) with 32. change (2 ^ 11) with 2048. change (2 ^ 16) with 65536.
    split_and!; Z.to_euclidean_division_equations; lia. }
  destruct Hn as (Ht & Hx & Hbi). apply (heap_get_ok _ Hwf). right. rewrite Hbi, Hx.
  assert (Hpage : page_bytes image_heap 0 = image client root chunks).
  { unfold page_bytes. cbn [image_heap heap_data block_size]. rewrite Z.mul_0_l, Z.add_0_l, Z.min_id, Z.sub_0_r.
    unfold sub, zlen. rewrite Nat2Z.id. change (Z.to_nat 0) with 0%nat. by rewrite drop_0, take_ge by lia. }
  assert (Hslot : ∀ j, (j <= length chunks)%nat → slot_start image_heap 0 (Z.of_nat j) = 12 + zlen (concat (take j chunks))).
  { intros j Hj. unfold slot_start. rewrite Hpage. unfold page_map. cbn [Z.eqb image_heap hn ib_hnpm].
    unfold image. rewrite !(assoc_L (++)).
    etransitivity; [|eapply (le_val_table (map_entries chunks)); [by apply map_entries_lookup|]].
    - f_equal. rewrite !zlen_app, zlen_header, !zlen_le_split. lia.
    - pose proof (zlen_concat_take chunks j). pose proof (zlen_nonneg (concat (take j chunks))). lia. }
  assert (Hd : slot_start image_heap 0 n = 12 + zlen (concat (take i chunks)) + zlen c).
  { replace n with (Z.of_nat (S i)) by lia. rewrite Hslot by lia. rewrite (take_S_r _ _ _ Hc), concat_app, zlen_app.
    cbn [concat]. rewrite app_nil_r. lia. }
  assert (Hst : slot_start image_heap 0 (n - 1) = 12 + zlen (concat (take i chunks))).
  { replace (n - 1) with (Z.of_nat i) by lia. apply Hslot. lia. }
  pose proof (zlen_nonneg c). pose proof (zlen_nonneg (concat (take i chunks))).
  assert (Hin : zlen (concat (take i chunks)) + zlen c <= zlen (concat chunks)).
  { pose proof (zlen_concat_take chunks (S i)) as Hle. rewrite (take_S_r _ _ _ Hc), concat_app, zlen_app in Hle.
    cbn [concat] in Hle. rewrite app_nil_r in Hle. lia. }
  split; [unfold n; lia|]. split; [done|]. split; [split|].
  - cbn. rewrite zlen_image. lia.
  - split; [unfold n; lia|]. rewrite Hpage. unfold page_map. cbn [Z.eqb image_heap hn ib_hnpm].
    unfold image. rewrite (assoc_L (++)). rewrite le_val_mid; [unfold n, zlen; lia| | |done].
    + change (8 * Z.of_nat 2) with 16. pose proof (zlen_nonneg chunks). lia.
    + rewrite zlen_app, zlen_header. lia.
  - rewrite Hpage, zlen_image. unfold page_map. cbn [Z.eqb image_heap hn ib_hnpm]. assert (n <= zlen chunks) by (unfold n, zlen; lia). lia.
  - lia.
  - rewrite Hpage, zlen_image, Hd. pose proof (zlen_nonneg chunks). lia.
  - unfold allocation. rewrite Hpage, Hst, Hd. unfold image.
    rewrite <- (take_drop i chunks) at 2. rewrite (drop_S _ _ _ Hc), concat_app. cbn [concat].
    rewrite <- !(assoc_L (++)), (assoc_L (++) (header_bytes _ _ _)). symmetry.
    apply sub_mid; rewrite ?zlen_app, ?zlen_header; lia.
Qed.
End finalized.

(** Sorting by a key keeps the elements. *)
Lemma insert_by_key_perm {A} (r : Z * A) l : insert_by_key r l ≡ₚ r :: l.
Proof. induction l as [|s l IH]; [done|]. cbn [insert_by_key]. destruct (_ <=? _); [done|]. rewrite IH. by constructor. Qed.
Lemma sort_by_key_perm {A} (l : list (Z * A)) : sort_by_key l ≡ₚ l.
Proof. induction l as [|r l IH]; [done|]. cbn [sort_by_key foldr]. rewrite insert_by_key_perm. by constructor. Qed.
