(* ===== verification/WriterPc.v ===== *)
(** * What the writer writes, the reader reads

    A property context that [build_pc_v2] builds and [finalize] lays out is one
    block that the reader's property context loads; every property reads back as
    the value that was written. *)

From S2P Require Import Prelude PstError BlockFacts Heap Bth Utf PropContext PropContextFacts WriterHeap.
#[local] Open Scope Z_scope.

(** ** Sorting records *)

Lemma find_insert {A} id (r : Z * A) l :
  find (λ s, s.1 =? id) (insert_by_key r l) = if r.1 =? id then Some r else find (λ s, s.1 =? id) l.
Proof.
  induction l as [|s l IH]; [done|]. cbn [insert_by_key]. destruct (r.1 <=? s.1) eqn:E; [done|]. bool_to_Z.
  cbn [find]. rewrite IH. destruct (Z.eqb_spec s.1 id), (Z.eqb_spec r.1 id); try done. lia.
Qed.
Lemma find_sorted {A} id (l : list (Z * A)) : find (λ s, s.1 =? id) (sort_by_key l) = find (λ s, s.1 =? id) l.
Proof. induction l as [|r l IH]; [done|]. cbn [sort_by_key foldr]. rewrite find_insert. unfold sort_by_key in IH. by rewrite IH. Qed.

(** ** Values in the heap *)

(** [data] is the record data of [value] when the allocations are [chunks]. *)
Definition stored (chunks : list (list byte)) (value : pc_value) (data : list byte) : Prop :=
  ∃ w, data = le_split 2 (value_type value) ++ le_split 4 w ∧
    match heap_bytes value with
    | Some b => ∃ i, w = 32 * (Z.of_nat i + 1) ∧ chunks !! i = Some b
    | None => w = inline_word value
    end.

Lemma stored_mono cs ds value data : stored cs value data → stored (cs ++ ds) value data.
Proof.
  intros (w & -> & Hw). exists w. split; [done|]. destruct (heap_bytes value); [|done].
  destruct Hw as (i & -> & Hi). exists i. split; [done|]. by apply lookup_app_l_Some.
Qed.

(** The bytes that the values of a list take in the heap and its map. *)
Definition heap_need (properties : list (Z * pc_value)) : Z :=
  foldr (λ p n, match heap_bytes p.2 with Some b => zlen b + 2 | None => 0 end + n) 0 properties.
(** The size of the finalized context. *)
Definition pc_size (properties : list (Z * pc_value)) : Z :=
  18 + heap_need properties + (8 + 2) + (8 * zlen properties + 2).

Lemma heap_need_nonneg properties : 0 <= heap_need properties.
Proof. induction properties as [|p ps IH]; [done|]. cbn [heap_need foldr]. fold (heap_need ps). destruct (heap_bytes _) as [b|]; [pose proof (zlen_nonneg b)|]; lia. Qed.

Definition room (h : heap_builder) (chunks : list (list byte)) : Z := zlen (hb_data h) + 4 + (zlen chunks + 1) * 2.

Section build.
Context (client : Z).

Lemma try_alloc_iff h chunks bytes :
  stands_for client h chunks →
  if room h chunks + (zlen bytes + 2) <=? MAX_BLOCK_DATA
  then ∃ h', hb_try_alloc h bytes = Ok (32 * (zlen chunks + 1), h') ∧ stands_for client h' (chunks ++ [bytes]) ∧
         room h' (chunks ++ [bytes]) = room h chunks + (zlen bytes + 2)
  else ∃ a b c d e, hb_try_alloc h bytes = Err (HeapPageOverflow a b c d e).
Proof.
  intros Hs. pose proof (try_alloc_spec client h chunks bytes) as Hspec.
  assert (Hl : zlen (hb_allocations h) = zlen chunks) by (unfold zlen; by rewrite (sf_allocations _ _ _ Hs), length_spans).
  assert (Ha : hb_try_alloc h bytes =
    if MAX_BLOCK_DATA <? room h chunks + (zlen bytes + 2)
    then Err (HeapPageOverflow (room h chunks + (zlen bytes + 2)) (zlen (hb_data h)) (zlen bytes)
                (4 + (zlen chunks + 1 + 1) * 2) (zlen chunks + 1))
    else Ok (hb_alloc h bytes)).
  { unfold hb_try_alloc, room. rewrite Hl. cbv zeta.
    replace (zlen (hb_data h) + zlen bytes + (4 + (zlen chunks + 1 + 1) * 2))
      with (zlen (hb_data h) + 4 + (zlen chunks + 1) * 2 + (zlen bytes + 2)) by lia. done. }
  rewrite Ha in Hspec |- *. destruct (_ <=? _) eqn:E; bool_to_Z.
  - rewrite (proj2 (Z.ltb_ge _ _)) in Hspec |- * by lia. destruct (hb_alloc h bytes) as [hid h'] eqn:Eb.
    destruct (Hspec hid h' Hs eq_refl) as [-> Hs']. exists h'. split_and!; [done|done|].
    unfold hb_alloc in Eb. injection Eb as _ <-. unfold room. cbn [hb_data]. rewrite !zlen_app, zlen_cons, zlen_nil. lia.
  - rewrite (proj2 (Z.ltb_lt _ _)) by lia. eauto 10.
Qed.

Lemma encode_spec properties : ∀ h chunks,
  stands_for client h chunks →
  if room h chunks + heap_need properties <=? MAX_BLOCK_DATA
  then ∃ rs h' vals, encode_properties h properties = Ok (rs, h') ∧ stands_for client h' (chunks ++ vals) ∧
         room h' (chunks ++ vals) = room h chunks + heap_need properties ∧ (length vals <= length properties)%nat ∧
         Forall2 (λ p r, r.1 = p.1 ∧ stored (chunks ++ vals) p.2 r.2) properties rs
  else ∃ a b c d e, encode_properties h properties = Err (HeapPageOverflow a b c d e).
Proof.
  induction properties as [|[id v] properties IH]; intros h chunks Hs.
  - cbn [heap_need foldr]. rewrite (proj2 (Z.leb_le _ _)) by (pose proof (sf_fits _ _ _ Hs); unfold room; lia).
    exists [], h, []. rewrite app_nil_r. split_and!; [done|done|lia|done|constructor].
  - pose proof (heap_need_nonneg properties) as Hn. cbn [heap_need foldr snd encode_properties]. fold (heap_need properties).
    unfold encode_pc_value. destruct (heap_bytes v) as [b|] eqn:Hb.
    + pose proof (zlen_nonneg b). pose proof (try_alloc_iff h chunks b Hs) as Ha. destruct (_ <=? _) eqn:E1 in Ha; bool_to_Z.
      * destruct Ha as (h1 & -> & Hs1 & Hr1). rewrite !bind_ok. specialize (IH h1 (chunks ++ [b]) Hs1). rewrite Hr1 in IH.
        rewrite Z.add_assoc. destruct (_ <=? _).
        -- destruct IH as (rs & h' & vals & E & Hs' & Hr & Hlen & Hf). cbn [fst snd]. rewrite E, bind_ok. cbn [fst snd].
           rewrite <- (assoc_L (++)) in *. eexists _, h', ([b] ++ vals). split_and!; [done|done|done|cbn; lia|].
           constructor; [|done]. split; [done|]. eexists. split; [reflexivity|]. cbn [snd]. rewrite Hb.
           exists (length chunks). split; [done|]. change ([b] ++ vals) with (b :: vals). by rewrite list_lookup_middle.
        -- destruct IH as (? & ? & ? & ? & ? & E). cbn [fst snd]. rewrite E. eauto 10.
      * destruct Ha as (? & ? & ? & ? & ? & ->). rewrite (proj2 (Z.leb_gt _ _)) by lia. eauto 10.
    + rewrite Z.add_0_l, bind_ok. specialize (IH h chunks Hs). destruct (_ <=? _).
      * destruct IH as (rs & h' & vals & E & Hs' & Hr & Hlen & Hf). cbn [fst snd]. rewrite E, bind_ok.
        eexists _, h', vals. split_and!; [done|done|done|cbn; lia|]. constructor; [|done]. split; [done|].
        eexists. split; [reflexivity|]. cbn [snd]. by rewrite Hb.
      * destruct IH as (? & ? & ? & ? & ? & E). cbn [fst snd]. rewrite E. eauto 10.
Qed.

(** ** The BTH *)

Definition bth_bytes (leaf : Z) : list byte := map byte.of_Z [0xB5; 2; 6; 0] ++ le_split 4 leaf.
Definition leaf_bytes (records : list (Z * list byte)) : list byte := r ← records; le_split 2 r.1 ++ r.2.

Lemma zlen_leaf records : Forall (λ r, zlen r.2 = 6) records → zlen (leaf_bytes records) = 8 * zlen records.
Proof.
  induction 1 as [|r rs Hr _ IH]; [done|]. change (leaf_bytes (r :: rs)) with ((le_split 2 r.1 ++ r.2) ++ leaf_bytes rs).
  rewrite !zlen_app, zlen_le_split, zlen_cons, IH, Hr. lia.
Qed.

Lemma build_bth_spec h chunks records :
  stands_for client h chunks → Forall (λ r, zlen r.2 = 6) records →
  if room h chunks + (8 + 2) + (8 * zlen records + 2) <=? MAX_BLOCK_DATA
  then ∃ h', build_bth_checked h 2 6 records = Ok (32 * (zlen chunks + 1), h') ∧
    stands_for client h' (chunks ++ [bth_bytes (32 * (zlen chunks + 2)); leaf_bytes (sort_by_key records)])
  else ∃ a b c d e, build_bth_checked h 2 6 records = Err (HeapPageOverflow a b c d e).
Proof.
  intros Hs Hr. unfold build_bth_checked. fold (leaf_bytes (sort_by_key records)).
  assert (Hleaf : zlen (leaf_bytes (sort_by_key records)) = 8 * zlen records).
  { rewrite zlen_leaf by by rewrite sort_by_key_perm. unfold zlen. by rewrite sort_by_key_perm. }
  pose proof (zlen_nonneg records).
  change (map byte.of_Z [0xB5; 2; 6; 0] ++ le_split 4 0) with (bth_bytes 0).
  assert (Hbth : zlen (bth_bytes 0) = 8) by done.
  pose proof (try_alloc_iff h chunks (bth_bytes 0) Hs) as Ha. rewrite Hbth in Ha. destruct (_ <=? _) eqn:E1 in Ha; bool_to_Z.
  - destruct Ha as (h1 & -> & Hs1 & Hr1). rewrite bind_ok. cbn [fst snd].
    pose proof (try_alloc_iff h1 _ (leaf_bytes (sort_by_key records)) Hs1) as Ha. rewrite Hleaf, Hr1 in Ha.
    rewrite (Z.add_comm 8 2) in *. destruct (_ <=? _) eqn:E2 in Ha; rewrite E2.
    + destruct Ha as (h2 & -> & Hs2 & _). rewrite bind_ok. cbn [fst snd]. rewrite <- (assoc_L (++)) in Hs2.
      destruct (patch_spec client h2 chunks (map byte.of_Z [0xB5; 2; 6; 0]) (le_split 4 0) [] [leaf_bytes (sort_by_key records)]
        (32 * (zlen (chunks ++ [bth_bytes 0]) + 1))) as (h3 & Hp & Hs3); [by rewrite app_nil_r|done|].
      change (zlen (map byte.of_Z [0xB5; 2; 6; 0])) with 4 in Hp. rewrite Hp, bind_ok. exists h3. split; [done|].
      rewrite app_nil_r in Hs3.
      assert (zlen (chunks ++ [bth_bytes 0]) + 1 = zlen chunks + 2) as Hl by (rewrite zlen_app; change (zlen [bth_bytes 0]) with 1; lia).
      by rewrite Hl in Hs3.
    + destruct Ha as (? & ? & ? & ? & ? & ->). eauto 10.
  - destruct Ha as (? & ? & ? & ? & ? & ->). rewrite (proj2 (Z.leb_gt _ _)) by lia. eauto 10.
Qed.

Lemma build_pc_spec properties :
  if pc_size properties <=? MAX_BLOCK_DATA
  then ∃ rs vals h, build_pc_v2 (hb_new client) properties = Ok (32 * (zlen vals + 1), h) ∧
    stands_for client h (vals ++ [bth_bytes (32 * (zlen vals + 2)); leaf_bytes (sort_by_key rs)]) ∧
    zlen vals <= zlen properties ∧
    Forall2 (λ p r, r.1 = p.1 ∧ stored vals p.2 r.2) properties rs
  else ∃ a b c d e, build_pc_v2 (hb_new client) properties = Err (HeapPageOverflow a b c d e).
Proof.
  unfold build_pc_v2, pc_size. pose proof (zlen_nonneg properties).
  assert (Hroom : room (hb_new client) [] = 18) by done.
  pose proof (encode_spec properties (hb_new client) [] (stands_for_new client)) as He. rewrite Hroom in He.
  destruct (_ <=? _) eqn:E1 in He; bool_to_Z.
  - destruct He as (rs & h1 & vals & -> & Hs1 & Hr1 & Hlen & Hf). rewrite bind_ok. cbn [fst snd app] in *.
    assert (Forall (λ r, zlen r.2 = 6) rs) as H6.
    { clear -Hf. induction Hf as [|p r ps rs (_ & w & Hr & _) _ IH]; [constructor|]. constructor; [|done].
      rewrite Hr, zlen_app, !zlen_le_split. done. }
    assert (zlen rs = zlen properties) as Hrs by (unfold zlen; by rewrite (Forall2_length _ _ _ Hf)).
    pose proof (build_bth_spec h1 vals rs Hs1 H6) as Hb. rewrite Hr1, Hrs in Hb.
    destruct (_ <=? _) eqn:E2 in Hb; rewrite E2.
    + destruct Hb as (h & Hb & Hs). exists rs, vals, h. split_and!; [done|done|unfold zlen; lia|done].
    + done.
  - destruct He as (? & ? & ? & ? & ? & ->). rewrite (proj2 (Z.leb_gt _ _)) by lia. eauto 10.
Qed.
End build.

(** ** Reading the context *)

Definition pc_bth_header (leaf : Z) : bth_header := {| b_type := 0xB5; cb_key := 2; cb_ent := 6; b_idx_levels := 0; hid_root := leaf |}.
Definition record_of (r : Z * list byte) : bth_record := {| rec_key := le_split 2 r.1; rec_data := r.2 |}.

Lemma leaf_at_records leaf rs : ∀ pre k,
  Forall (λ r, zlen r.2 = 6) rs → zlen pre = 8 * Z.of_nat k →
  map (leaf_at (pc_bth_header leaf) (pre ++ leaf_bytes rs)) (map (λ i, Z.of_nat i * 8) (seq k (length rs))) = map record_of rs.
Proof.
  induction rs as [|r rs IH]; intros pre k Hr Hp; [done|]. inversion_clear Hr as [|?? H6 Hrs].
  change (leaf_bytes (r :: rs)) with ((le_split 2 r.1 ++ r.2) ++ leaf_bytes rs).
  cbn [length seq map]. f_equal.
  - unfold leaf_at, record_of. cbn [cb_key cb_ent pc_bth_header]. f_equal.
    + rewrite <- !(assoc_L (++)). apply sub_mid; enc.
    + rewrite <- (assoc_L (++) (le_split 2 r.1)), (assoc_L (++) pre). apply sub_mid; enc.
  - rewrite (assoc_L (++) pre). apply IH; [done|]. enc.
Qed.

Lemma leaf_listing_records leaf rs :
  Forall (λ r, zlen r.2 = 6) rs → leaf_listing (pc_bth_header leaf) (leaf_bytes rs) = map record_of rs.
Proof.
  intros Hr. unfold leaf_listing, record_offsets. cbn [cb_key cb_ent pc_bth_header]. change (2 + 6) with 8.
  rewrite zlen_leaf by done. rewrite Z.mul_comm, Z.div_mul by lia. unfold zlen. rewrite Nat2Z.id.
  by apply (leaf_at_records leaf rs [] 0).
Qed.

Lemma le_split_2_inj a b : 0 <= a < 2 ^ 16 → 0 <= b < 2 ^ 16 → le_split 2 a = le_split 2 b → a = b.
Proof. intros Ha Hb E. rewrite <- (le_combine_split_id 2 a), <- (le_combine_split_id 2 b) by done. by rewrite E. Qed.

Lemma find_record_of rs id :
  Forall (λ r, 0 <= r.1 < 2 ^ 16) rs → 0 <= id < 2 ^ 16 →
  find_record (map record_of rs) id = record_of <$> find (λ r, r.1 =? id) rs.
Proof.
  intros Hr Hid. unfold find_record. induction Hr as [|r rs Hr1 _ IH]; [done|]. cbn [map find]. rewrite IH.
  destruct (Z.eqb_spec r.1 id) as [E|Hne].
  - cbn [record_of rec_key]. rewrite E, bool_decide_true by done. done.
  - rewrite bool_decide_false; [done|]. intros E. apply Hne. by apply le_split_2_inj.
Qed.

(** The context of the image: the records in order of their identifiers. *)
Lemma image_context client vals rs h :
  0 <= client < 256 → Forall (λ r, zlen r.2 = 6) rs → zlen vals + 2 < 2048 →
  let chunks := vals ++ [bth_bytes (32 * (zlen vals + 2)); leaf_bytes (sort_by_key rs)] in
  let root := 32 * (zlen vals + 1) in
  stands_for client h chunks →
  ∃ data, hb_finalize h root = Ok data ∧ zlen data <= MAX_BLOCK_DATA ∧
    parse_pc data = Ok (image_heap client root chunks, map record_of (sort_by_key rs)) ∧
    ∀ i b, chunks !! i = Some b → Z.of_nat i + 1 < 2048 → heap_get (image_heap client root chunks) (32 * (Z.of_nat i + 1)) = Ok b.
Proof.
  intros Hc Hr Hv chunks root Hs. pose proof (zlen_nonneg vals).
  assert (Hroot : 0 <= root < 2 ^ 32) by (unfold root; lia).
  pose proof (image_get client root h chunks Hs Hc Hroot) as Hget.
  exists (image client root chunks). split; [by apply finalize_spec|].
  pose proof (image_fits client root h chunks Hs) as Hfit. split; [done|]. split; [|exact Hget].
  unfold parse_pc, node_block_size. rewrite (proj2 (Z.leb_le _ _)) by done.
  rewrite (image_parses client root h chunks Hs Hc Hroot), bind_ok. cbn [hn hid_user_root image_heap].
  assert (Hbth : heap_get (image_heap client root chunks) root = Ok (bth_bytes (32 * (zlen vals + 2)))).
  { apply (Hget (length vals)); [|unfold zlen in *; lia]. unfold chunks. by rewrite list_lookup_middle. }
  assert (Hleaf : heap_get (image_heap client root chunks) (32 * (zlen vals + 2)) = Ok (leaf_bytes (sort_by_key rs))).
  { replace (zlen vals + 2) with (Z.of_nat (S (length vals)) + 1) by (unfold zlen; lia).
    apply Hget; [|unfold zlen in *; lia]. unfold chunks. rewrite lookup_app_r by lia.
    replace (S (length vals) - length vals)%nat with 1%nat by lia. done. }
  assert (Hhdr : read_bth_header (image_heap client root chunks) root = Ok (pc_bth_header (32 * (zlen vals + 2)))).
  { unfold read_bth_header. rewrite Hbth, bind_ok. change (zlen (bth_bytes (32 * (zlen vals + 2)))) with 8.
    assert (le_at (bth_bytes (32 * (zlen vals + 2))) 4 4 = Ok (32 * (zlen vals + 2)) :> pres _) as ->
      by (apply le_at_end; enc). done. }
  rewrite Hhdr, bind_ok. unfold collect_records, hid_is_null. cbn [hid_root b_idx_levels pc_bth_header].
  rewrite (proj2 (Z.eqb_neq _ _)) by lia. change (Z.to_nat 0) with 0%nat.
  assert (bth_header_wf (pc_bth_header (32 * (zlen vals + 2)))) as Hwf by (constructor; cbn; lia).
  rewrite (collect_leaf _ _ Hwf _ _ [] ltac:(done) Hleaf), bind_ok. cbn [app].
  rewrite leaf_listing_records by by rewrite sort_by_key_perm. done.
Qed.

(** ** Values *)

(** What the reader returns for a value. *)
Definition read_back (subnodes : gmap Z (list byte)) (value : pc_value) : pres (option property_value) :=
  match value with
  | VI32 v => Ok (Some (I32 v))
  | VBool v => Ok (Some (PBool v))
  | VTime v => Ok (Some (PTime v))
  | VString s => Ok (Some (PString s))
  | VBinary b => Ok (Some (PBinary b))
  | VObject _ _ => Ok None
  | VSubnodeString nid =>
      match subnodes !! wrap 32 nid with
      | Some bytes => s ← decode_utf16le bytes; Ok (Some (PString s))
      | None => Ok None
      end
  | VSubnodeBinary nid => Ok (PBinary <$> subnodes !! wrap 32 nid)
  end.

(** The values that a Rust [PcValue] can hold; a subnode's ID has a type. *)
Definition value_ok (value : pc_value) : Prop :=
  match value with
  | VI32 v => - 2 ^ 31 <= v < 2 ^ 31
  | VTime v => - 2 ^ 63 <= v < 2 ^ 63
  | VString s => Forall scalar s
  | VObject _ size => 0 <= size < 2 ^ 32
  | VSubnodeString nid | VSubnodeBinary nid => hid_type nid ≠ 0
  | _ => True
  end.

Lemma swrap_le_split w v :
  - 2 ^ (8 * Z.of_nat w - 1) <= v < 2 ^ (8 * Z.of_nat w - 1) → (0 < w)%nat →
  swrap (8 * Z.of_nat w) (le_combine (le_split w v)) = v.
Proof.
  intros Hv Hw. rewrite le_combine_split. unfold swrap.
  replace (Z.of_nat w * 8) with (8 * Z.of_nat w) by lia. set (n := 8 * Z.of_nat w) in *.
  assert (2 ^ n = 2 * 2 ^ (n - 1)) as Hp by (rewrite <- Z.pow_succ_r by lia; f_equal; lia).
  assert (0 < 2 ^ (n - 1)) by (apply Z.pow_pos_nonneg; lia).
  rewrite Zplus_mod_idemp_l, Z.mod_small by lia. lia.
Qed.

Lemma hid_type_wrap nid : hid_type (wrap 32 nid) = hid_type nid.
Proof.
  unfold hid_type, wrap. change 0x1F with (Z.ones 5). rewrite !Z.land_ones by lia.
  change (2 ^ 32) with (2 ^ 5 * 2 ^ 27). by rewrite Z.rem_mul_r, Z.add_mod, Z.mul_comm, Z.mod_mul, Z.add_0_r, !Z.mod_mod by lia.
Qed.

Lemma le_split_wrap w v : le_split w v = le_split w (v mod 2 ^ (8 * Z.of_nat w)).
Proof.
  replace (8 * Z.of_nat w) with (Z.of_nat w * 8) by lia. rewrite <- le_combine_split.
  rewrite <- (length_le_split w v) at 2. by rewrite split_le_combine.
Qed.

Lemma value_type_range v : 0 <= value_type v < 2 ^ 16.
Proof. by destruct v. Qed.

Section resolve.
Context (pc : prop_context) (chunks : list (list byte)).
Context (Hget : ∀ i b, chunks !! i = Some b → heap_get (pc_heap pc) (32 * (Z.of_nat i + 1)) = Ok b).
Context (Hlen : Z.of_nat (length chunks) < 2048).

(** The type and the word of a stored value. *)
Lemma stored_words value data :
  stored chunks value data →
  ∃ w, zlen data = 6 ∧ le_val data 0 2 = value_type value ∧ le_val data 2 4 = w ∧ 0 <= w < 2 ^ 32 ∧
    match heap_bytes value with
    | Some b => heap_get (pc_heap pc) w = Ok b ∧ hid_is_null w = false ∧ hid_type w = 0
    | None => w = wrap 32 (inline_word value)
    end.
Proof.
  intros (w & -> & Hw). exists (wrap 32 w). pose proof (value_type_range value).
  assert (0 <= wrap 32 w < 2 ^ 32) by (apply Z.mod_pos_bound; lia).
  rewrite (le_split_wrap 4 w). change (w mod 2 ^ (8 * Z.of_nat 4)) with (wrap 32 w). split_and!; try lia; [enc| | |].
  - by apply (le_val_mid []).
  - rewrite <- (app_nil_r (le_split 4 _)). apply le_val_mid; enc.
  - destruct (heap_bytes value) as [b|]; [|by rewrite Hw]. destruct Hw as (i & -> & Hi).
    pose proof (lookup_lt_Some _ _ _ Hi). unfold wrap. rewrite Z.mod_small by lia. split_and!; [by apply Hget| |].
    + apply Z.eqb_neq. lia.
    + unfold hid_type. change 0x1F with (Z.ones 5). rewrite Z.land_ones by lia. by rewrite Z.mul_comm, Z.mod_mul.
Qed.

Lemma resolve_stored value data :
  stored chunks value data → value_ok value →
  resolve_value pc (le_val data 0 2) (le_val data 2 4) = read_back (pc_subnodes pc) value.
Proof.
  intros (w & _ & -> & -> & Hw & H)%stored_words Hok. unfold resolve_value.
  destruct value as [v|v|v|s|b|nid size|nid|nid]; cbn [heap_bytes value_type inline_word value_ok read_back] in *;
    unfold PTYP_INTEGER_32, PTYP_BOOLEAN, PTYP_TIME, PTYP_STRING, PTYP_BINARY, PTYP_OBJECT; cbn [Z.eqb Pos.eqb].
  - rewrite H. pose proof (swrap_le_split 4 v Hok ltac:(lia)) as Hsw. rewrite le_combine_split in Hsw. by do 3 f_equal.
  - rewrite H. by destruct v.
  - destruct H as (-> & _ & _). rewrite bind_ok.
    assert (zlen (le_split 8 v) = 8) as -> by enc. cbn [Z.leb Z.compare Pos.compare Pos.compare_cont].
    unfold le_at. change (slice (le_split 8 v) 0 (0 + 8) : pres _) with (slice ([] ++ le_split 8 v) 0 8 : pres (list byte)).
    rewrite slice_ok, !bind_ok by (change (zlen ([] ++ le_split 8 v)) with 8; lia).
    change (sub ([] ++ le_split 8 v) 0 (8 - 0)) with (le_split 8 v). do 3 f_equal. apply (swrap_le_split 8 v); [done|lia].
  - destruct H as (-> & -> & ->). cbn [Z.eqb negb]. rewrite bind_ok.
    by rewrite decode_utf16le_encode.
  - destruct H as (-> & -> & ->). done.
  - done.
  - rewrite H. assert (hid_is_null (wrap 32 (wrap 32 nid)) = false) as ->.
    { apply Z.eqb_neq. intros E. apply Hok. by rewrite <- (hid_type_wrap nid), <- (hid_type_wrap (wrap 32 nid)), E. }
    rewrite !hid_type_wrap, (proj2 (Z.eqb_neq _ _) Hok). cbn [negb].
    assert (wrap 32 (wrap 32 nid) = wrap 32 nid) as -> by (unfold wrap; by rewrite Z.mod_mod). done.
  - rewrite H. assert (hid_is_null (wrap 32 (wrap 32 nid)) = false) as ->.
    { apply Z.eqb_neq. intros E. apply Hok. by rewrite <- (hid_type_wrap nid), <- (hid_type_wrap (wrap 32 nid)), E. }
    rewrite !hid_type_wrap, (proj2 (Z.eqb_neq _ _) Hok). cbn [negb].
    assert (wrap 32 (wrap 32 nid) = wrap 32 nid) as -> by (unfold wrap; by rewrite Z.mod_mod). done.
Qed.
End resolve.

(** ** The round trip *)

(** The first property with an identifier. *)
Definition written (properties : list (Z * pc_value)) (id : Z) : option pc_value :=
  snd <$> find (λ p, p.1 =? id) properties.

Lemma find_Forall2 {A B} (R : Z * A → Z * B → Prop) id l k :
  Forall2 (λ p r, r.1 = p.1 ∧ R p r) l k →
  match find (λ p, p.1 =? id) l, find (λ r, r.1 =? id) k with
  | Some p, Some r => R p r ∧ p ∈ l
  | None, None => True
  | _, _ => False
  end.
Proof.
  induction 1 as [|p r l k [E HR] _ IH]; [done|]. cbn [find]. rewrite E.
  destruct (p.1 =? id); [split; [done|by left]|].
  destruct (find _ l), (find _ k); try done. destruct IH. split; [done|by right].
Qed.

Lemma get_object_stored pc chunks value data id r :
  (∀ i b, chunks !! i = Some b → heap_get (pc_heap pc) (32 * (Z.of_nat i + 1)) = Ok b) →
  Z.of_nat (length chunks) < 2048 → stored chunks value data → value_ok value →
  find_record (pc_records pc) id = Some {| rec_key := r; rec_data := data |} →
  get_object pc id = Ok (match value with VObject nid size => Some (wrap 32 nid, size) | _ => None end).
Proof.
  intros Hget Hlen Hst Hok Hf. pose proof Hst as (w & H6 & Hty & Hhn & Hw & H)%(stored_words pc chunks Hget Hlen).
  unfold get_object, get_raw_hnid. rewrite Hf. cbn [mbind option_bind rec_data]. rewrite H6. cbn [Z.ltb Z.compare Pos.compare Pos.compare_cont].
  unfold record_type, record_hnid. cbn [rec_data]. rewrite Hty, Hhn.
  destruct value as [v|v|v|s|b|nid size|nid|nid]; cbn [value_type heap_bytes value_ok] in *; try done.
  destruct H as (-> & -> & ->). cbn [Z.eqb Pos.eqb negb orb PTYP_OBJECT]. rewrite bind_ok.
  assert (Hl : zlen (le_split 4 (wrap 32 nid) ++ le_split 4 size) = 8) by enc. rewrite Hl. cbn [Z.ltb Z.compare Pos.compare Pos.compare_cont].
  assert (0 <= wrap 32 nid < 2 ^ 32) by (apply Z.mod_pos_bound; lia).
  rewrite le_at_front, bind_ok by enc. rewrite le_at_end, bind_ok by enc. done.
Qed.

(** The image of the properties: it fits, loads and gives back every value. *)
Lemma pc_image client properties subnodes :
  0 <= client < 256 → Forall (λ p, 0 <= p.1 < 2 ^ 16 ∧ value_ok p.2) properties → pc_size properties <= MAX_BLOCK_DATA →
  ∃ hid h data pc,
    build_pc_v2 (hb_new client) properties = Ok (hid, h) ∧ hb_finalize h hid = Ok data ∧
    zlen data <= MAX_BLOCK_DATA ∧ load_with_subnodes data subnodes = Ok pc ∧
    ∀ id, 0 <= id < 2 ^ 16 →
      pc_get pc id = match written properties id with Some v => read_back subnodes v | None => Ok None end ∧
      get_object pc id = Ok (match written properties id with Some (VObject nid size) => Some (wrap 32 nid, size) | _ => None end) ∧
      (written properties id = None → get_raw_hnid pc id = None).
Proof.
  intros Hclient Hids Efit. pose proof (build_pc_spec client properties) as Hb. rewrite (proj2 (Z.leb_le _ _) Efit) in Hb.
  destruct Hb as (rs & vals & h & Hb & Hs & Hn & Hf). unfold pc_size in Efit.
  pose proof (heap_need_nonneg properties). pose proof (zlen_nonneg vals). unfold MAX_BLOCK_DATA in Efit.
  assert (H6 : Forall (λ r, zlen r.2 = 6) rs).
  { clear -Hf. induction Hf as [|p r ps rs (_ & w & Hr & _) _ IH]; [constructor|]. constructor; [|done].
    rewrite Hr, zlen_app, !zlen_le_split. done. }
  assert (Hrids : Forall (λ r, 0 <= r.1 < 2 ^ 16) rs).
  { clear -Hf Hids. revert Hids. induction Hf as [|p r ps rs (E & _) _ IH]; intros Hids; [constructor|].
    inversion_clear Hids as [|?? [? _] ?]. constructor; [by rewrite E|auto]. }
  destruct (image_context client vals rs h Hclient H6 ltac:(lia) Hs) as (data & Hfin & Hfit & Hparse & Hget).
  eexists _, h, data, _. split; [exact Hb|]. split; [exact Hfin|]. split; [done|].
  split; [unfold load_with_subnodes; rewrite Hparse, bind_ok; reflexivity|].
  intros id Hid. cbn [fst snd].
  assert (Hget' : ∀ i b, vals !! i = Some b →
    heap_get (image_heap client (32 * (zlen vals + 1)) (vals ++ [bth_bytes (32 * (zlen vals + 2)); leaf_bytes (sort_by_key rs)]))
      (32 * (Z.of_nat i + 1)) = Ok b).
  { intros i b Hi. pose proof (lookup_lt_Some _ _ _ Hi). apply Hget; [by apply lookup_app_l_Some|unfold zlen in *; lia]. }
  assert (Hlen : Z.of_nat (length vals) < 2048) by (unfold zlen in *; lia).
  set (pc := {| pc_heap := _; pc_records := _; pc_subnodes := _ |}).
  assert (Hrec : find_record (pc_records pc) id = record_of <$> find (λ r, r.1 =? id) rs).
  { cbn [pc pc_records]. rewrite find_record_of, find_sorted; [done|by rewrite sort_by_key_perm|done]. }
  pose proof (find_Forall2 (λ p r, stored vals p.2 r.2) id properties rs Hf) as Hfind. unfold written.
  destruct (find _ properties) as [p|], (find _ rs) as [r|]; try done; cbn [fmap option_fmap option_map] in *.
  2: { unfold pc_get, get_object, get_raw_hnid. by rewrite Hrec. }
  destruct Hfind as [Hst Hp]. rewrite Forall_forall in Hids. destruct (Hids p Hp) as [_ Hok]. split_and!; [| |done].
  - unfold pc_get. rewrite Hrec. cbn [rec_data record_of].
    pose proof (stored_words pc vals Hget' Hlen _ _ Hst) as (w & Hz & _). rewrite Hz.
    cbn [Z.ltb Z.compare Pos.compare Pos.compare_cont]. run_reads.
    by rewrite (resolve_stored pc vals Hget' Hlen _ _ Hst Hok).
  - eapply (get_object_stored pc vals); [exact Hget'|done|exact Hst|done|exact Hrec].
Qed.

(** C22 What the writer writes, the reader reads: a property context is built exactly
    when its bytes fit one block (an overflow is an error, never a truncation); the
    finalized bytes fit the block and load, and each property, by its first value in
    the list, reads back as that value; a stored object gives its node and size, and
    a value in a subnode is what the loaded subnodes hold for it. *)
Theorem pc_round_trip client properties subnodes
    (Hclient : 0 <= client < 256)
    (Hids : Forall (λ p, 0 <= p.1 < 2 ^ 16 ∧ value_ok p.2) properties) :
  if pc_size properties <=? MAX_BLOCK_DATA
  then ∃ hid h data pc,
    build_pc_v2 (hb_new client) properties = Ok (hid, h) ∧ hb_finalize h hid = Ok data ∧
    zlen data <= MAX_BLOCK_DATA ∧ load_with_subnodes data subnodes = Ok pc ∧
    ∀ id, 0 <= id < 2 ^ 16 →
      pc_get pc id = match written properties id with Some v => read_back subnodes v | None => Ok None end ∧
      get_object pc id = Ok (match written properties id with Some (VObject nid size) => Some (wrap 32 nid, size) | _ => None end)
  else ∃ a b c d e, build_pc_v2 (hb_new client) properties = Err (HeapPageOverflow a b c d e).
Proof.
  destruct (_ <=? _) eqn:Efit.
  - apply Z.leb_le in Efit. destruct (pc_image client properties subnodes Hclient Hids Efit) as (hid & h & data & pc & H1 & H2 & H3 & H4 & H5).
    exists hid, h, data, pc. split_and!; [done..|]. intros id Hid. destruct (H5 id Hid) as (? & ? & _). by split.
  - pose proof (build_pc_spec client properties) as Hb. by rewrite Efit in Hb.
Qed.

Definition sample_properties : list (Z * pc_value) :=
  [(0x3001, VString [72; 0x1F600]); (0x0E08, VI32 (-1)); (0x3701, VObject 0x24 99); (0x1000, VSubnodeString 0x3F)].

Lemma pc_round_trip_witness :
  pc_size sample_properties = 80 ∧
  ∃ hid h data pc, build_pc_v2 (hb_new 0xBC) sample_properties = Ok (hid, h) ∧ hb_finalize h hid = Ok data ∧
    zlen data <= MAX_BLOCK_DATA ∧ load_with_subnodes data {[ 0x3F := zbytes [65; 0] ]} = Ok pc ∧
    ∀ id, 0 <= id < 2 ^ 16 →
      pc_get pc id = match written sample_properties id with
                     | Some v => read_back {[ 0x3F := zbytes [65; 0] ]} v | None => Ok None end ∧
      get_object pc id = Ok (match written sample_properties id with
                             | Some (VObject nid size) => Some (wrap 32 nid, size) | _ => None end).
Proof.
  split; [reflexivity|]. refine (pc_round_trip 0xBC sample_properties {[ 0x3F := zbytes [65; 0] ]} _ _); [lia|].
  repeat constructor; cbn; try lia. discriminate.
Defined.
