(* ===== verification/NamedPropMap.v ===== *)
(** * The Name-to-ID map of the writer (pst-writer/src/named_prop_map.rs)

    The writer knows three named properties of attachments.  It scans the messages
    for those it will write, numbers them in a fixed order and builds the store's
    Name-to-ID map: GUID, entry and string streams and the hash buckets.  The
    pointer of a cloud link (production.rs) refers to the numbers. *)

From stdpp Require Import countable.
From S2P Require Import Prelude PstError Heap Bth Utf PropContext PropContextFacts Folder Text NamedProp WriterHeap WriterPc.
#[local] Open Scope Z_scope.
#[local] Set Warnings "-register-all".

Definition PID_NAMEID_BUCKET_COUNT : Z := 0x0001.
Definition PID_NAMEID_BUCKET_BASE : Z := 0x1000.
Definition NAMEID_BUCKET_COUNT : Z := 251.
Definition NAME_ATTACHMENT_URL : rstring := lit "AttachmentUrl".

(** ** The allowlist and the plan *)

(** [AllowlistedNamedProp] *)
Inductive allowlisted := AttachmentPermissionType | AttachmentProviderType | AttachmentUrl.

#[export] Instance allowlisted_eq_dec : EqDecision allowlisted.
Proof. solve_decision. Defined.
#[export] Instance allowlisted_countable : Countable allowlisted.
Proof.
  refine (inj_countable' (λ p, match p with AttachmentPermissionType => 0%nat | AttachmentProviderType => 1%nat | AttachmentUrl => 2%nat end)
    (λ n, match n with 0 => AttachmentPermissionType | 1 => AttachmentProviderType | _ => AttachmentUrl end)%nat _).
  by intros [].
Defined.

(** The derived order. *)
Definition ALLOWLIST : list allowlisted := [AttachmentPermissionType; AttachmentProviderType; AttachmentUrl].

(** [AllowlistedNamedProp::name] *)
Definition prop_name (p : allowlisted) : rstring :=
  match p with
  | AttachmentPermissionType => NAME_ATTACHMENT_PERMISSION_TYPE
  | AttachmentProviderType => NAME_ATTACHMENT_PROVIDER_TYPE
  | AttachmentUrl => NAME_ATTACHMENT_URL
  end.

(** [NamedPropWritePlan]: a [BTreeSet], which iterates in the order of the allowlist. *)
Abbreviation write_plan := (gset allowlisted) (only parsing).
Definition plan_iter (plan : write_plan) : list allowlisted := filter (λ p, p ∈ plan) ALLOWLIST.

(** [Iterator::position] *)
Fixpoint position {A} (f : A → bool) (l : list A) : option nat :=
  match l with [] => None | x :: l => if f x then Some 0%nat else S <$> position f l end.

(** [NamedPropWritePlan::npid] *)
Definition npid (plan : write_plan) (prop : allowlisted) : option Z :=
  match position (λ p, bool_decide (p = prop)) (plan_iter plan) with
  | Some i => if Z.of_nat i <? 2 ^ 16 then Some (Z.min (NPID_BASE + Z.of_nat i) 0xFFFF) else None
  | None => None
  end.

(** ** Messages *)

(** The fields of [WriteAttachment] that the scan and the pointer read. *)
Record attachment := {
  filename : rstring; mime : option rstring; attach_size : Z; attach_method : option Z;
  embedded_depth_limited : bool; is_cloud_link : bool;
  cloud_provider : option rstring; cloud_url : option rstring; cloud_permission_type : option Z }.

(** [WriteMessage] by its attachments, each with its [embedded_message]. *)
Inductive write_message := WriteMessage (attachments : list (attachment * option write_message)).

(** [str::trim] on the scalar values of a string. *)
Definition scalar_whitespace (c : Z) : bool := is_whitespace (utf8_char c).
Definition trim (s : rstring) : rstring := drop_while_end scalar_whitespace (drop_while scalar_whitespace s).

(** [.as_ref().map(|s| !s.trim().is_empty()).unwrap_or(false)] *)
Definition non_blank (s : option rstring) : bool := is_some_and (λ s, negb (bool_decide (trim s = []))) s.

(** [scan_attachment_named_props] *)
Definition scan_attachment_named_props (att : attachment) (plan : write_plan) : write_plan :=
  if negb (is_cloud_link att) then plan
  else
    let plan := if non_blank (cloud_provider att) then {[AttachmentProviderType]} ∪ plan else plan in
    let plan := if non_blank (cloud_url att) then {[AttachmentUrl]} ∪ plan else plan in
    match cloud_permission_type att with Some _ => {[AttachmentPermissionType]} ∪ plan | None => plan end.

(** [scan_message_named_props_at_depth] *)
Fixpoint scan_message_at_depth (msg : write_message) (plan : write_plan) (depth max_depth : Z) : write_plan :=
  match msg with
  | WriteMessage attachments =>
      foldl (λ plan att,
          let plan := scan_attachment_named_props att.1 plan in
          if max_depth <=? depth then plan
          else match att.2 with
               | Some embedded => scan_message_at_depth embedded plan (depth + 1) max_depth
               | None => plan
               end) plan attachments
  end.

(** [NamedPropWritePlan::scan_messages_with_depth], [scan_messages] *)
Definition clamp (lo hi v : Z) : Z := Z.min (Z.max v lo) hi.
Definition scan_messages_with_depth (messages : list write_message) (max_embedded_depth : Z) : write_plan :=
  foldl (λ plan msg, scan_message_at_depth msg plan 0 (clamp 1 8 max_embedded_depth)) ∅ messages.
Definition DEFAULT_MAX_EMBEDDED_DEPTH : Z := 3.
Definition scan_messages (messages : list write_message) : write_plan :=
  scan_messages_with_depth messages DEFAULT_MAX_EMBEDDED_DEPTH.

(** ** The map *)

(** [CRC_TABLE_OFFSET32] *)
Definition CRC_TABLE_OFFSET32 : list Z := [
  0x00000000; 0x77073096; 0xEE0E612C; 0x990951BA; 0x076DC419; 0x706AF48F; 0xE963A535; 0x9E6495A3;
  0x0EDB8832; 0x79DCB8A4; 0xE0D5E91E; 0x97D2D988; 0x09B64C2B; 0x7EB17CBD; 0xE7B82D07; 0x90BF1D91;
  0x1DB71064; 0x6AB020F2; 0xF3B97148; 0x84BE41DE; 0x1ADAD47D; 0x6DDDE4EB; 0xF4D4B551; 0x83D385C7;
  0x136C9856; 0x646BA8C0; 0xFD62F97A; 0x8A65C9EC; 0x14015C4F; 0x63066CD9; 0xFA0F3D63; 0x8D080DF5;
  0x3B6E20C8; 0x4C69105E; 0xD56041E4; 0xA2677172; 0x3C03E4D1; 0x4B04D447; 0xD20D85FD; 0xA50AB56B;
  0x35B5A8FA; 0x42B2986C; 0xDBBBC9D6; 0xACBCF940; 0x32D86CE3; 0x45DF5C75; 0xDCD60DCF; 0xABD13D59;
  0x26D930AC; 0x51DE003A; 0xC8D75180; 0xBFD06116; 0x21B4F4B5; 0x56B3C423; 0xCFBA9599; 0xB8BDA50F;
  0x2802B89E; 0x5F058808; 0xC60CD9B2; 0xB10BE924; 0x2F6F7C87; 0x58684C11; 0xC1611DAB; 0xB6662D3D;
  0x76DC4190; 0x01DB7106; 0x98D220BC; 0xEFD5102A; 0x71B18589; 0x06B6B51F; 0x9FBFE4A5; 0xE8B8D433;
  0x7807C9A2; 0x0F00F934; 0x9609A88E; 0xE10E9818; 0x7F6A0DBB; 0x086D3D2D; 0x91646C97; 0xE6635C01;
  0x6B6B51F4; 0x1C6C6162; 0x856530D8; 0xF262004E; 0x6C0695ED; 0x1B01A57B; 0x8208F4C1; 0xF50FC457;
  0x65B0D9C6; 0x12B7E950; 0x8BBEB8EA; 0xFCB9887C; 0x62DD1DDF; 0x15DA2D49; 0x8CD37CF3; 0xFBD44C65;
  0x4DB26158; 0x3AB551CE; 0xA3BC0074; 0xD4BB30E2; 0x4ADFA541; 0x3DD895D7; 0xA4D1C46D; 0xD3D6F4FB;
  0x4369E96A; 0x346ED9FC; 0xAD678846; 0xDA60B8D0; 0x44042D73; 0x33031DE5; 0xAA0A4C5F; 0xDD0D7CC9;
  0x5005713C; 0x270241AA; 0xBE0B1010; 0xC90C2086; 0x5768B525; 0x206F85B3; 0xB966D409; 0xCE61E49F;
  0x5EDEF90E; 0x29D9C998; 0xB0D09822; 0xC7D7A8B4; 0x59B33D17; 0x2EB40D81; 0xB7BD5C3B; 0xC0BA6CAD;
  0xEDB88320; 0x9ABFB3B6; 0x03B6E20C; 0x74B1D29A; 0xEAD54739; 0x9DD277AF; 0x04DB2615; 0x73DC1683;
  0xE3630B12; 0x94643B84; 0x0D6D6A3E; 0x7A6A5AA8; 0xE40ECF0B; 0x9309FF9D; 0x0A00AE27; 0x7D079EB1;
  0xF00F9344; 0x8708A3D2; 0x1E01F268; 0x6906C2FE; 0xF762575D; 0x806567CB; 0x196C3671; 0x6E6B06E7;
  0xFED41B76; 0x89D32BE0; 0x10DA7A5A; 0x67DD4ACC; 0xF9B9DF6F; 0x8EBEEFF9; 0x17B7BE43; 0x60B08ED5;
  0xD6D6A3E8; 0xA1D1937E; 0x38D8C2C4; 0x4FDFF252; 0xD1BB67F1; 0xA6BC5767; 0x3FB506DD; 0x48B2364B;
  0xD80D2BDA; 0xAF0A1B4C; 0x36034AF6; 0x41047A60; 0xDF60EFC3; 0xA867DF55; 0x316E8EEF; 0x4669BE79;
  0xCB61B38C; 0xBC66831A; 0x256FD2A0; 0x5268E236; 0xCC0C7795; 0xBB0B4703; 0x220216B9; 0x5505262F;
  0xC5BA3BBE; 0xB2BD0B28; 0x2BB45A92; 0x5CB36A04; 0xC2D7FFA7; 0xB5D0CF31; 0x2CD99E8B; 0x5BDEAE1D;
  0x9B64C2B0; 0xEC63F226; 0x756AA39C; 0x026D930A; 0x9C0906A9; 0xEB0E363F; 0x72076785; 0x05005713;
  0x95BF4A82; 0xE2B87A14; 0x7BB12BAE; 0x0CB61B38; 0x92D28E9B; 0xE5D5BE0D; 0x7CDCEFB7; 0x0BDBDF21;
  0x86D3D2D4; 0xF1D4E242; 0x68DDB3F8; 0x1FDA836E; 0x81BE16CD; 0xF6B9265B; 0x6FB077E1; 0x18B74777;
  0x88085AE6; 0xFF0F6A70; 0x66063BCA; 0x11010B5C; 0x8F659EFF; 0xF862AE69; 0x616BFFD3; 0x166CCF45;
  0xA00AE278; 0xD70DD2EE; 0x4E048354; 0x3903B3C2; 0xA7672661; 0xD06016F7; 0x4969474D; 0x3E6E77DB;
  0xAED16A4A; 0xD9D65ADC; 0x40DF0B66; 0x37D83BF0; 0xA9BCAE53; 0xDEBB9EC5; 0x47B2CF7F; 0x30B5FFE9;
  0xBDBDF21C; 0xCABAC28A; 0x53B39330; 0x24B4A3A6; 0xBAD03605; 0xCDD70693; 0x54DE5729; 0x23D967BF;
  0xB3667A2E; 0xC4614AB8; 0x5D681B02; 0x2A6F2B94; 0xB40BBE37; 0xC30C8EA1; 0x5A05DF1B; 0x2D02EF8D].
(** [compute_crc_mspst] *)
Definition crc_step (crc : Z) (b : byte) : Z :=
  Z.lxor (nth (Z.to_nat (Z.land (Z.lxor crc (u8 b)) 0xFF)) CRC_TABLE_OFFSET32 0) (Z.shiftr crc 8).
Definition compute_crc_mspst (crc : Z) (data : list byte) : Z := foldl crc_step crc data.

(** [nameid_bucket_index] *)
Definition nameid_bucket_index (dw_property_id w_guid_n bucket_count : Z) : Z :=
  wrap 16 (Z.lxor dw_property_id w_guid_n mod bucket_count).

(** The state of the loop of [build_named_prop_map_pc]; [buckets] is a [BTreeMap]. *)
Record map_streams := { ms_strings : list byte; ms_entries : list byte; ms_buckets : gmap Z (list byte) }.

Definition W_GUID : Z := 3.

(** One iteration of the loop. *)
Definition add_named_prop (s : map_streams) (ip : nat * allowlisted) : map_streams :=
  let prop_idx := wrap 16 (Z.of_nat ip.1) in
  let name := prop_name ip.2 in
  let string_offset := wrap 32 (zlen (ms_strings s)) in
  let w_guid_n := Z.lor (wrap 16 (Z.shiftl W_GUID 1)) 1 in
  let crc := compute_crc_mspst 0 (utf16le_bytes name) in
  let bucket := nameid_bucket_index crc w_guid_n NAMEID_BUCKET_COUNT in
  {| ms_strings := ms_strings s ++ encode_string_stream_entry name;
     ms_entries := ms_entries s ++ encode_nameid_entry string_offset true W_GUID prop_idx;
     ms_buckets := <[bucket := default [] (ms_buckets s !! bucket) ++ encode_nameid_entry crc true W_GUID prop_idx]>
                     (ms_buckets s) |}.

(** The entries of a [BTreeMap] in the order of its keys. *)
Definition btree_iter {A} (m : gmap Z A) : list (Z * A) := sort_by_key (map_to_list m).

(** [build_named_prop_map_pc] *)
Definition build_named_prop_map_pc (plan : write_plan) : list (Z * pc_value) :=
  if bool_decide (plan = ∅) then []
  else
    let s := foldl add_named_prop {| ms_strings := []; ms_entries := []; ms_buckets := ∅ |}
               (zip (seq 0 (length (plan_iter plan))) (plan_iter plan)) in
    [(PID_NAMEID_BUCKET_COUNT, VI32 NAMEID_BUCKET_COUNT);
     (PID_NAMEID_GUID_STREAM, VBinary PSETID_ATTACHMENT);
     (PID_NAMEID_ENTRY_STREAM, VBinary (ms_entries s));
     (PID_NAMEID_STRING_STREAM, VBinary (ms_strings s))] ++
    map (λ b, (Z.min (PID_NAMEID_BUCKET_BASE + b.1) 0xFFFF, VBinary b.2)) (btree_iter (ms_buckets s)).

(** The bytes of the node 0x61, as [write_unicode_pst_streaming] builds them. *)
Definition named_heap (plan : write_plan) : wres (list byte) :=
  b ← build_pc_v2 (hb_new 0x6C) (build_named_prop_map_pc plan); hb_finalize b.2 b.1.

(** ** The pointer of a cloud link (production.rs) *)

Definition PID_TAG_ATTACH_LONG_PATHNAME : Z := 0x370D.
Definition PID_TAG_ATTACH_PATHNAME : Z := 0x3708.
Definition ATTACH_BY_VALUE : Z := 1.
Definition ATTACH_EMBEDDED_MSG : Z := 5.

(** [.as_ref().map(|s| s.trim()).filter(|s| !s.is_empty())] *)
Definition trimmed (s : option rstring) : option rstring :=
  s ← s; if bool_decide (trim s = []) then None else Some (trim s).

(** [if let Some(npid) = named_prop_plan.npid(prop) { props.push((npid, value)) }] *)
Definition push_named (plan : write_plan) (prop : allowlisted) (value : pc_value) : list (Z * pc_value) :=
  match npid plan prop with Some n => [(n, value)] | None => [] end.

(** The properties of [write_cloud_link_pointer_attach] between the size and the
    MIME tag: paths and named properties. *)
Definition cloud_props (plan : write_plan) (att : attachment) : list (Z * pc_value) :=
  match trimmed (cloud_url att) with
  | Some url => [(PID_TAG_ATTACH_LONG_PATHNAME, VString url); (PID_TAG_ATTACH_PATHNAME, VString url)] ++
                push_named plan AttachmentUrl (VString url)
  | None => []
  end ++
  match trimmed (cloud_provider att) with
  | Some provider => push_named plan AttachmentProviderType (VString provider)
  | None => []
  end ++
  match cloud_permission_type att with
  | Some perm => push_named plan AttachmentPermissionType (VI32 perm)
  | None => []
  end.

(** [short_attach_filename]; the system decides what the last component of a path is. *)
Definition rfind_dot (s : rstring) : option nat :=
  i ← position (λ c, c =? 46) (reverse s); Some (length s - S i)%nat.
Definition short_attach_filename (file_name : rstring → option rstring) (long : rstring) : rstring :=
  let name := default long (file_name long) in
  if zlen (utf8 name) <=? 12 then name
  else
    let '(stem, ext) := match rfind_dot name with
                        | Some i => (take i name, drop i name)
                        | None => (name, [])
                        end in
    take 8 stem ++ ext.

(** The method of a pointer: a reference method stays, any other becomes a web reference. *)
Definition pointer_method (att : attachment) : Z :=
  match attach_method att with
  | Some m => if (m =? 7) || (m =? 2) || (m =? 3) || (m =? 4) then m else 7
  | None => 7
  end.

(** The properties of [write_cloud_link_pointer_attach]. *)
Definition cloud_pointer_properties (file_name : rstring → option rstring) (plan : write_plan) (att : attachment)
    : list (Z * pc_value) :=
  [(0x3707, VString (filename att)); (0x3704, VString (short_attach_filename file_name (filename att)));
   (0x3705, VI32 (pointer_method att)); (0x0E20, VI32 (Z.min (attach_size att) (2 ^ 31 - 1)))] ++
  cloud_props plan att ++
  match mime att with Some m => [(0x370E, VString m)] | None => [] end.

(** The cloud links that [write_one_attachment] reaches in a message at [depth]:
    those of the message, and those of embedded messages that are written. *)
Inductive written_cloud (max_depth : Z) : Z → write_message → attachment → Prop :=
| cloud_here depth atts att embedded :
    (att, embedded) ∈ atts → is_cloud_link att = true → written_cloud max_depth depth (WriteMessage atts) att
| cloud_nested depth atts att embedded cloud :
    (att, Some embedded) ∈ atts → is_cloud_link att = false →
    default ATTACH_BY_VALUE (attach_method att) = ATTACH_EMBEDDED_MSG →
    depth < max_depth → embedded_depth_limited att = false →
    written_cloud max_depth (depth + 1) embedded cloud →
    written_cloud max_depth depth (WriteMessage atts) cloud.

(** * Facts about the Name-to-ID map of the writer

    The CRC of the buckets is the reflected CRC-32 without inversions; the scan
    finds every named property that a cloud link needs; the map that is written is
    the map that the reader loads. *)

(** ** The checksum *)

(** The bitwise definition: polynomial 0xEDB88320, least significant bit first. *)
Definition crc_bit (c : Z) : Z := if Z.odd c then Z.lxor (Z.shiftr c 1) 0xEDB88320 else Z.shiftr c 1.
Definition crc_byte (c : Z) : Z := Nat.iter 8 crc_bit c.

Lemma crc_bit_lxor a b : 0 <= a → 0 <= b → crc_bit (Z.lxor a b) = Z.lxor (crc_bit a) (crc_bit b).
Proof.
  intros Ha Hb. unfold crc_bit. rewrite <- !Z.bit0_odd, Z.lxor_spec, Z.shiftr_lxor.
  destruct (Z.testbit a 0), (Z.testbit b 0); cbn [xorb]; apply Z.bits_inj'; intros n Hn; rewrite !Z.lxor_spec;
    destruct (Z.testbit (Z.shiftr a 1) n), (Z.testbit (Z.shiftr b 1) n), (Z.testbit 0xEDB88320 n); done.
Qed.

Lemma crc_bit_nonneg c : 0 <= c → 0 <= crc_bit c.
Proof. intros Hc. unfold crc_bit. destruct (Z.odd c); rewrite ?Z.lxor_nonneg, !Z.shiftr_nonneg; [split; [done|lia]|done]. Qed.

Lemma iter_crc_bit_lxor n a b : 0 <= a → 0 <= b →
  Nat.iter n crc_bit (Z.lxor a b) = Z.lxor (Nat.iter n crc_bit a) (Nat.iter n crc_bit b) ∧
  0 <= Nat.iter n crc_bit a ∧ 0 <= Nat.iter n crc_bit b.
Proof.
  intros Ha Hb. induction n as [|n (IH & H1 & H2)]; [done|]. rewrite !Nat.iter_succ, IH.
  split_and!; [by apply crc_bit_lxor|by apply crc_bit_nonneg..].
Qed.

(** A number whose low bits are zero is shifted. *)
Lemma iter_crc_bit_shift n : ∀ y, Nat.iter n crc_bit (Z.shiftl y (Z.of_nat n)) = y.
Proof.
  induction n as [|n IH]; intros y; [by rewrite Z.shiftl_0_r|]. rewrite Nat.iter_succ_r.
  assert (crc_bit (Z.shiftl y (Z.of_nat (S n))) = Z.shiftl y (Z.of_nat n)) as ->; [|apply IH].
  unfold crc_bit. rewrite <- Z.bit0_odd, Z.shiftl_spec_low by lia.
  rewrite Z.shiftr_shiftl_l by lia. f_equal. lia.
Qed.

Lemma crc_table_ok x : 0 <= x < 256 → nth (Z.to_nat x) CRC_TABLE_OFFSET32 0 = crc_byte x.
Proof.
  intros Hx.
  assert (forallb (λ k : nat, nth k CRC_TABLE_OFFSET32 0 =? crc_byte (Z.of_nat k)) (seq 0 256) = true) as Hall
    by (vm_compute; reflexivity).
  rewrite forallb_forall in Hall. rewrite <- (Z2Nat.id x) at 2 by lia. apply Z.eqb_eq, Hall, in_seq. lia.
Qed.

Lemma crc_step_bitwise crc b : 0 <= crc → crc_step crc b = crc_byte (Z.lxor crc (u8 b)).
Proof.
  intros Hc. pose proof (u8_range b). unfold crc_step. set (c := Z.lxor crc (u8 b)).
  assert (0 <= c) by (apply Z.lxor_nonneg; lia).
  assert (Hsplit : c = Z.lxor (Z.land c 0xFF) (Z.shiftl (Z.shiftr c 8) (Z.of_nat 8))).
  { apply Z.bits_inj'. intros n Hn. rewrite Z.lxor_spec, Z.land_spec. change 0xFF with (Z.ones 8).
    destruct (decide (n < 8)).
    - rewrite Z.ones_spec_low, Z.shiftl_spec_low by lia. by destruct (Z.testbit c n).
    - rewrite Z.ones_spec_high, Z.shiftl_spec, Z.shiftr_spec by lia. replace (n - Z.of_nat 8 + 8) with n by lia.
      by destruct (Z.testbit c n). }
  assert (0 <= Z.land c 0xFF < 256).
  { change 0xFF with (Z.ones 8). rewrite Z.land_ones by lia. apply Z.mod_pos_bound. lia. }
  rewrite crc_table_ok by done. rewrite Hsplit at 2. unfold crc_byte at 2.
  destruct (iter_crc_bit_lxor 8 (Z.land c 0xFF) (Z.shiftl (Z.shiftr c 8) (Z.of_nat 8))) as [-> _]; [lia|by rewrite Z.shiftl_nonneg, Z.shiftr_nonneg|].
  rewrite iter_crc_bit_shift. f_equal. unfold c. rewrite Z.shiftr_lxor.
  rewrite (Z.shiftr_div_pow2 (u8 b)), (Z.div_small (u8 b)) by (change (2 ^ 8) with 256; lia). by rewrite Z.lxor_0_r.
Qed.

(** The table gives the bitwise checksum. *)
Lemma compute_crc_bitwise data : ∀ crc, 0 <= crc → compute_crc_mspst crc data = foldl (λ c b, crc_byte (Z.lxor c (u8 b))) crc data.
Proof.
  induction data as [|b data IH]; intros crc Hc; [done|]. cbn [compute_crc_mspst foldl].
  fold (compute_crc_mspst (crc_step crc b) data). rewrite crc_step_bitwise by done. apply IH.
  pose proof (u8_range b). apply (iter_crc_bit_lxor 8 _ 0); [apply Z.lxor_nonneg; lia|done].
Qed.

(** ** The scan *)

(** The named properties that the pointer of a cloud link needs. *)
Definition wanted (att : attachment) : gset allowlisted := scan_attachment_named_props att ∅.

Lemma scan_attachment_spec att plan : scan_attachment_named_props att plan = wanted att ∪ plan.
Proof.
  unfold wanted, scan_attachment_named_props. destruct (is_cloud_link att); cbn [negb]; [|set_solver].
  destruct (non_blank (cloud_provider att)), (non_blank (cloud_url att)), (cloud_permission_type att); set_solver.
Qed.

Definition scan_one (depth max_depth : Z) (plan : gset allowlisted) (att : attachment * option write_message) : gset allowlisted :=
  let plan := scan_attachment_named_props att.1 plan in
  if max_depth <=? depth then plan
  else match att.2 with
       | Some embedded => scan_message_at_depth embedded plan (depth + 1) max_depth
       | None => plan
       end.

Lemma scan_mono msg : ∀ plan depth max_depth, plan ⊆ scan_message_at_depth msg plan depth max_depth.
Proof.
  revert msg. fix IH 1. intros [atts] plan depth max_depth. cbn [scan_message_at_depth].
  revert plan. induction atts as [|[a [e|]] atts IHa]; intros plan; cbn [foldl fst snd]; [done| |].
  - etransitivity; [|apply IHa]. rewrite scan_attachment_spec. destruct (max_depth <=? depth); [set_solver|].
    etransitivity; [|apply IH]. set_solver.
  - etransitivity; [|apply IHa]. rewrite scan_attachment_spec. destruct (max_depth <=? depth); set_solver.
Qed.

Lemma scan_fold atts plan depth max_depth :
  scan_message_at_depth (WriteMessage atts) plan depth max_depth = foldl (scan_one depth max_depth) plan atts.
Proof. done. Qed.

Lemma scan_one_mono depth max_depth plan att : plan ⊆ scan_one depth max_depth plan att.
Proof.
  unfold scan_one. rewrite scan_attachment_spec. destruct (_ <=? _); [set_solver|].
  destruct att.2 as [e|]; [|set_solver]. etransitivity; [|apply scan_mono]. set_solver.
Qed.

Lemma foldl_mono {A} (f : gset allowlisted → A → gset allowlisted) l plan :
  (∀ p x, p ⊆ f p x) → plan ⊆ foldl f plan l.
Proof. intros Hf. revert plan. induction l as [|x l IH]; intros plan; [done|]. cbn [foldl]. etransitivity; [apply Hf|apply IH]. Qed.

Lemma foldl_reaches {A} (f : gset allowlisted → A → gset allowlisted) l x plan (s : gset allowlisted) :
  (∀ p x, p ⊆ f p x) → x ∈ l → (∀ p, s ⊆ f p x) → s ⊆ foldl f plan l.
Proof.
  intros Hf Hx Hs. revert plan. induction l as [|y l IH]; intros plan; [by apply elem_of_nil in Hx|].
  cbn [foldl]. apply elem_of_cons in Hx as [->|Hx]; [|by apply IH].
  etransitivity; [apply (Hs plan)|by apply foldl_mono].
Qed.

Lemma scan_covers max_depth depth msg cloud :
  written_cloud max_depth depth msg cloud → ∀ plan, wanted cloud ⊆ scan_message_at_depth msg plan depth max_depth.
Proof.
  induction 1 as [depth atts att embedded Hin Hc|depth atts att embedded cloud Hin Hc Hm Hd Hl _ IH]; intros plan;
    rewrite scan_fold; (eapply foldl_reaches; [intros; apply scan_one_mono|exact Hin|]); intros p; unfold scan_one; cbn [fst snd].
  - rewrite scan_attachment_spec. destruct (_ <=? _); [set_solver|]. destruct embedded as [e|]; [|set_solver].
    etransitivity; [|apply scan_mono]. set_solver.
  - rewrite (proj2 (Z.leb_gt _ _)) by lia. apply IH.
Qed.

(** ** The map that is written *)

(** The map that the reader loads from the node that the writer writes. *)
Definition loaded_map (plan : gset allowlisted) : option name_id_map :=
  match named_heap plan with
  | Ok data => match (pc ← pc_load data; from_prop_context pc) with Ok m => Some m | _ => None end
  | _ => None
  end.

Definition map_ok (plan : gset allowlisted) : bool :=
  match loaded_map plan with
  | Some m =>
      negb (degraded m) && bool_decide (size (forward m) = size plan) &&
      forallb (λ p, bool_decide (resolve_name m PSETID_ATTACHMENT (prop_name p) = npid plan p) &&
                    bool_decide (is_Some (npid plan p)  ↔ p ∈ plan)) ALLOWLIST
  | None => false
  end.

Definition all_plans : list (gset allowlisted) :=
  (s1 ← [∅; {[AttachmentPermissionType]}]; s2 ← [∅; {[AttachmentProviderType]}]; s3 ← [∅; {[AttachmentUrl]}];
   [s1 ∪ s2 ∪ s3]).

Lemma plan_in_all plan : plan ∈ all_plans.
Proof.
  assert (Hp : ∀ p : allowlisted, ∃ s, s ∈ [∅; {[p]}] ∧ ({[p]} ∩ plan : gset allowlisted) = s).
  { intros p. destruct (decide (p ∈ plan)); [exists {[p]}|exists ∅]; (split; [|set_solver]); rewrite !elem_of_cons; auto. }
  destruct (Hp AttachmentPermissionType) as (s1 & H1 & E1), (Hp AttachmentProviderType) as (s2 & H2 & E2),
    (Hp AttachmentUrl) as (s3 & H3 & E3).
  assert (plan = s1 ∪ s2 ∪ s3) as Hplan.
  { rewrite <- E1, <- E2, <- E3. apply set_eq. intros []; set_solver. }
  unfold all_plans. apply list_elem_of_bind. exists s1. split; [|done]. apply list_elem_of_bind. exists s2. split; [|done].
  apply list_elem_of_bind. exists s3. split; [|done]. rewrite Hplan. by apply list_elem_of_singleton.
Qed.

Lemma every_map_ok plan : map_ok plan = true.
Proof.
  assert (forallb map_ok all_plans = true) as H by (vm_compute; reflexivity).
  rewrite forallb_forall in H. apply H, list_elem_of_In, plan_in_all.
Qed.

Lemma loaded_map_spec plan :
  ∃ data pc m, named_heap plan = Ok data ∧ pc_load data = Ok pc ∧ from_prop_context pc = Ok m ∧
    degraded m = false ∧ size (forward m) = size plan ∧
    ∀ p, resolve_name m PSETID_ATTACHMENT (prop_name p) = npid plan p ∧ (is_Some (npid plan p) ↔ p ∈ plan).
Proof.
  pose proof (every_map_ok plan) as H. unfold map_ok, loaded_map in H.
  destruct (named_heap plan) as [data| | |]; try done. destruct (pc_load data) as [pc| | |] eqn:Epc; try done.
  rewrite bind_ok in H. destruct (from_prop_context pc) as [m| | |] eqn:Em; try done.
  exists data, pc, m. rewrite !andb_true_iff, negb_true_iff, bool_decide_eq_true, forallb_forall in H.
  destruct H as [[Hd Hsz] Hall]. split_and!; try done. intros p.
  assert (p ∈ ALLOWLIST) as Hp by (destruct p; set_solver). apply list_elem_of_In, Hall in Hp.
  by rewrite andb_true_iff, !bool_decide_eq_true in Hp.
Qed.

Lemma non_blank_trimmed s : non_blank s = true ↔ is_Some (trimmed s).
Proof.
  unfold non_blank, trimmed, is_some_and. destruct s as [s|]; cbn [mbind option_bind].
  - case_bool_decide; cbn; split; intros H'; (done || (by destruct H') || (by eexists)).
  - split; intros H'; (done || by destruct H').
Qed.

(** The pointer carries every named property that it needs and the plan numbers. *)
Lemma cloud_props_carry plan att p n :
  p ∈ wanted att → npid plan p = Some n → n ∈ map fst (cloud_props plan att).
Proof.
  intros Hw Hn. unfold wanted, scan_attachment_named_props in Hw. destruct (is_cloud_link att); cbn [negb] in Hw; [|set_solver].
  unfold cloud_props. rewrite !map_app, !elem_of_app.
  assert (Hpush : ∀ v, n ∈ map fst (push_named plan p v)) by (intros v; unfold push_named; rewrite Hn; set_solver).
  destruct p.
  - right. right. destruct (cloud_permission_type att); [apply Hpush|].
    destruct (non_blank (cloud_provider att)), (non_blank (cloud_url att)); set_solver.
  - right. left. destruct (non_blank (cloud_provider att)) eqn:E.
    + apply non_blank_trimmed in E as [s ->]. apply Hpush.
    + destruct (non_blank (cloud_url att)), (cloud_permission_type att); set_solver.
  - left. destruct (non_blank (cloud_url att)) eqn:E.
    + apply non_blank_trimmed in E as [s ->]. rewrite map_app. apply elem_of_app. right. apply Hpush.
    + destruct (non_blank (cloud_provider att)), (cloud_permission_type att); set_solver.
Qed.

(** C25 Named properties survive the round trip: whatever messages are scanned, the
    Name-to-ID map that the writer builds from the plan is loaded by the reader
    without degradation and resolves exactly the planned names, each to the
    identifier that the plan gives it; and every cloud link that the writer reaches,
    embedded ones included, carries each named property that it needs under that
    identifier. *)
Theorem named_props_resolve messages depth :
  let plan := scan_messages_with_depth messages depth in
  ∃ data pc m, named_heap plan = Ok data ∧ pc_load data = Ok pc ∧ from_prop_context pc = Ok m ∧
    degraded m = false ∧ size (forward m) = size plan ∧
    (∀ p, resolve_name m PSETID_ATTACHMENT (prop_name p) = npid plan p ∧ (is_Some (npid plan p) ↔ p ∈ plan)) ∧
    ∀ msg cloud, msg ∈ messages → written_cloud (clamp 1 8 depth) 0 msg cloud →
      ∀ p, p ∈ wanted cloud → ∃ n, resolve_name m PSETID_ATTACHMENT (prop_name p) = Some n ∧
        n ∈ map fst (cloud_props plan cloud).
Proof.
  intros plan. destruct (loaded_map_spec plan) as (data & pc & m & H1 & H2 & H3 & H4 & H5 & H6).
  exists data, pc, m. split_and!; try done. intros msg cloud Hm Hc p Hp.
  assert (p ∈ plan) as Hin.
  { assert (wanted cloud ⊆ plan) as Hsub; [|set_solver]. unfold plan, scan_messages_with_depth.
    eapply foldl_reaches; [intros; apply scan_mono|exact Hm|]. intros q. by apply scan_covers. }
  destruct (H6 p) as [Hr Hs]. apply Hs in Hin as [n Hn]. exists n. split; [by rewrite Hr|]. by eapply cloud_props_carry.
Qed.
