(* ===== verification/CloudRoundTrip.v ===== *)
(** * The pointer of a cloud link across writer and reader

    The writer trims strings of scalar values, the reader their UTF-8 bytes; what the
    reader classified as a cloud link is written as a property context that the reader
    lists again as the same cloud link, or that overflows its heap page. *)

From S2P Require Import Prelude PstError Heap Bth Utf PropContext PropContextFacts Folder Text CivilDate Recipient Hasher Message NamedProp WriterHeap WriterPc NamedPropMap Attachment.
#[local] Open Scope Z_scope.

(** ** Trimming, before and after encoding *)

Lemma scalar_in_range s : Forall scalar s → Forall (λ c, 0 <= c < 0x110000) s.
Proof. intros H. eapply Forall_impl; [exact H|]. intros c Hc%Is_true_eq_true. unfold scalar in Hc. bool_to_Z. lia. Qed.

Lemma map_drop_while {A B} (f : A → B) (p : A → bool) (q : B → bool) l :
  (∀ x, p x = q (f x)) → map f (drop_while p l) = drop_while q (map f l).
Proof. intros H. induction l as [|x l IH]; [done|]. cbn. rewrite H. by destruct (q (f x)). Qed.

Lemma map_drop_while_end {A B} (f : A → B) (p : A → bool) (q : B → bool) l :
  (∀ x, p x = q (f x)) → map f (drop_while_end p l) = drop_while_end q (map f l).
Proof.
  intros H. unfold drop_while_end.
  assert (Hr : ∀ k : list A, map f (reverse k) = reverse (map f k)) by (intros k; exact (fmap_reverse f k)).
  by rewrite Hr, (map_drop_while f p q _ H), Hr.
Qed.

Lemma utf8_concat s : utf8 s = concat (map utf8_char s).
Proof. induction s as [|c s IH]; [done|]. cbn. by rewrite <- IH. Qed.

Lemma trim_utf8 s : Forall (λ c, 0 <= c < 0x110000) s → str_trim (utf8 s) = utf8 (trim s).
Proof.
  intros Hs. unfold str_trim, trim. rewrite chars_utf8 by done. rewrite utf8_concat. f_equal.
  rewrite (map_drop_while_end utf8_char scalar_whitespace is_whitespace) by done.
  by rewrite (map_drop_while utf8_char scalar_whitespace is_whitespace).
Qed.

Lemma utf8_nil s : Forall (λ c, 0 <= c < 0x110000) s → utf8 s = [] → s = [].
Proof.
  destruct 1 as [|c s Hc _]; [done|]. destruct (utf8_char_spec c Hc) as (b & bs & E & _).
  change (utf8 (c :: s)) with (utf8_char c ++ utf8 s). by rewrite E.
Qed.

(** A trimmed and nonempty string is written as it is. *)
Lemma trimmed_keeps s : Forall (λ c, 0 <= c < 0x110000) s → str_trim (utf8 s) = utf8 s → utf8 s ≠ [] →
  ∃ t, trimmed (Some s) = Some t ∧ utf8 t = utf8 s ∧ ∀ c, c ∈ t → c ∈ s.
Proof.
  intros Hs Ht Hn. rewrite trim_utf8 in Ht by done. exists (trim s). unfold trimmed. cbn [mbind option_bind].
  case_bool_decide as E; [by rewrite E in Ht|]. split_and!; [done..|].
  intros c Hc. unfold trim in Hc.
  destruct (drop_while_end_prefix scalar_whitespace (drop_while scalar_whitespace s)) as (k & Hk & _).
  destruct (drop_while_suffix scalar_whitespace s) as (j & Hj & _).
  rewrite Hj, Hk. rewrite !elem_of_app. auto.
Qed.

(** What the reader keeps of a trimmed string. *)
Lemma trimmed_scalar o t : (∀ s, o = Some s → Forall scalar s) → trimmed o = Some t → Forall scalar t ∧ t ≠ [] ∧ str_trim (utf8 t) = utf8 t.
Proof.
  destruct o as [s|]; [|done]. intros Hs. specialize (Hs s eq_refl). unfold trimmed. cbn [mbind option_bind].
  case_bool_decide as E; [done|]. intros [= <-].
  assert (Hsub : Forall scalar (trim s)).
  { rewrite Forall_forall in Hs |- *. intros c Hc. apply Hs. unfold trim in Hc.
    destruct (drop_while_end_prefix scalar_whitespace (drop_while scalar_whitespace s)) as (k & Hk & _).
    destruct (drop_while_suffix scalar_whitespace s) as (j & Hj & _).
    rewrite Hj, Hk. rewrite !elem_of_app. auto. }
  split_and!; [done|done|]. rewrite <-(trim_utf8 s) by by apply scalar_in_range. by rewrite str_trim_idemp.
Qed.

Lemma nonempty_kept s : Forall scalar s → s ≠ [] → str_trim (utf8 s) = utf8 s → nonempty_str (Some (utf8 s)) = Some (utf8 s).
Proof.
  intros Hs Hn Ht. unfold nonempty_str. cbn. rewrite Ht, bool_decide_false; [done|].
  intros E%utf8_nil; [done|by apply scalar_in_range].
Qed.

Lemma nonempty_trimmed o : (∀ s, o = Some s → Forall scalar s) → nonempty_str (Some (utf8 (default [] (trimmed o)))) = utf8 <$> trimmed o.
Proof.
  intros Hs. destruct (trimmed o) as [t|] eqn:Ht; [|done]. destruct (trimmed_scalar o t Hs Ht) as (? & ? & ?). by apply nonempty_kept.
Qed.

Lemma default_scalar o : (∀ s, o = Some s → Forall scalar s) → Forall scalar (default [] (trimmed o)).
Proof. intros Hs. destruct (trimmed o) as [t|] eqn:Ht; [|constructor]. by destruct (trimmed_scalar o t Hs Ht). Qed.

Lemma nonempty_any s : Forall scalar s → nonempty_str (Some (utf8 s)) = utf8 <$> trimmed (Some s).
Proof.
  intros Hs. pose proof (scalar_in_range s Hs) as Hr. unfold nonempty_str, trimmed. cbn. rewrite trim_utf8 by done.
  case_bool_decide as E1; case_bool_decide as E2; [done| |by rewrite E2 in E1|done].
  destruct E2. apply utf8_nil; [|done].
  destruct (trimmed (Some s)) as [t|] eqn:Ht.
  - pose proof Ht as Ht'. unfold trimmed in Ht'. cbn in Ht'. case_bool_decide; [done|]. injection Ht' as ->.
    apply scalar_in_range. apply (trimmed_scalar (Some s) t); [by intros ? [= <-]|done].
  - unfold trimmed in Ht. cbn in Ht. case_bool_decide as E; [rewrite E; constructor|done].
Qed.

Lemma trimmed_again o : (∀ s, o = Some s → Forall scalar s) → utf8 <$> trimmed (Some (default [] (trimmed o))) = utf8 <$> trimmed o.
Proof. intros Hs. rewrite <-nonempty_any by by apply default_scalar. by apply nonempty_trimmed. Qed.

(** * A cloud link survives the export

    The reader classifies an attachment as a cloud link, the writer stores its
    pointer, and the reader classifies the pointer as the same cloud link. *)

(** ** What the classification of the source says *)

Lemma trimmed_str_idemp o : trimmed_str (trimmed_str o) = trimmed_str o.
Proof.
  destruct o as [s|]; [|done]. unfold trimmed_str, keep_if. cbn. case_bool_decide as E; [done|]. cbn.
  by rewrite str_trim_idemp, bool_decide_false.
Qed.

Lemma trimmed_str_some o t : trimmed_str o = Some t → str_trim t = t ∧ t ≠ [].
Proof.
  destruct o as [s|]; [|done]. unfold trimmed_str, keep_if. cbn. case_bool_decide as E; [done|]. intros [= <-].
  split; [apply str_trim_idemp|done].
Qed.

Lemma url_is_pointer s : looks_like_url s = true → looks_like_cloud_pointer (str_trim s) = true.
Proof.
  intros H. unfold looks_like_cloud_pointer. rewrite str_trim_idemp. case_bool_decide as E.
  - unfold looks_like_url in H. by rewrite E in H.
  - unfold looks_like_url in *. by rewrite str_trim_idemp, H.
Qed.

(** The URL of a classification: trimmed, and a cloud pointer unless the name is no URL. *)
Definition url_ok (filename : bstring) (url : option bstring) : Prop :=
  match url with
  | Some t => str_trim t = t ∧ t ≠ [] ∧ (looks_like_cloud_pointer t = true ∨ looks_like_url filename = false)
  | None => looks_like_url filename = false
  end.

Lemma extract_cloud_url_ok pc filename url : extract_cloud_url pc filename = Ok url → url_ok filename url.
Proof.
  unfold extract_cloud_url. intros (lp & _ & (p & _ & (ln & _ & (sn & _ & H)%bind_ok_inv)%bind_ok_inv)%bind_ok_inv)%bind_ok_inv.
  destruct (find _ _) as [t|] eqn:E.
  - injection H as <-. apply find_some in E as [Hin Hp]. apply in_map_iff in Hin as (s & <- & _). cbn.
    split_and!; [apply str_trim_idemp| |by left]. intros E. unfold looks_like_cloud_pointer in Hp.
    by rewrite E in Hp.
  - assert (Hname : looks_like_url filename = false).
    { apply not_true_iff_false. intros Hu. pose proof (url_is_pointer _ Hu) as Hp.
      assert (str_trim filename ∈ map str_trim (omap id [lp; p; keep_if looks_like_url (Some filename);
        keep_if looks_like_url ln; keep_if looks_like_url sn])) as Hin.
      { apply (list_elem_of_fmap_2 str_trim). apply list_elem_of_omap. exists (Some filename). split; [|done].
        assert (keep_if looks_like_url (Some filename) = Some filename) as -> by (unfold keep_if; cbn; by rewrite Hu).
        set_solver. }
      apply list_elem_of_In in Hin. pose proof (find_none _ _ E _ Hin) as Hf. congruence. }
    injection H as <-. unfold option_or. destruct (trimmed_str lp) as [t|] eqn:El.
    + apply trimmed_str_some in El as [? ?]. cbn. auto.
    + destruct (trimmed_str p) as [t|] eqn:Ep; [|done]. apply trimmed_str_some in Ep as [? ?]. cbn. auto.
Qed.

Lemma classify_cloud_inv pc npid filename provider url method :
  classify_attach_pc pc npid filename = Ok (CloudLink provider url) →
  soft (get_i32 pc PID_TAG_ATTACH_METHOD) = Ok method →
  trimmed_str provider = provider ∧ url_ok filename url ∧
  (is_Some provider ∨ method = Some ATTACH_BY_WEB_REFERENCE ∨ is_some_and looks_like_cloud_pointer url = true).
Proof.
  unfold classify_attach_pc. intros H Hm. rewrite Hm, bind_ok in H.
  apply bind_ok_inv in H as (payload & _ & H). apply bind_ok_inv in H as (u & Hu%extract_cloud_url_ok & H).
  apply bind_ok_inv in H as (p & Hp & H).
  assert (trimmed_str p = p) as Htp.
  { destruct npid as [n|]; [|by injection Hp as <-]. apply bind_ok_inv in Hp as (s & _ & [= <-]). apply trimmed_str_idemp. }
  destruct (_ || _) eqn:E in H; [|done]. injection H as <- <-. split_and!; [done..|].
  unfold is_cloud_shaped_method in E. destruct p as [p|]; [left; by eexists|]. right.
  destruct payload; cbn in E; rewrite ?andb_false_r in E; [done|]. rewrite andb_true_r in E.
  apply orb_true_iff in E as [E|E]; [left; by apply bool_decide_eq_true in E|by right].
Qed.

(** ** What the pointer stores *)

Section pointer.
Context (file_name : rstring → option rstring) (plan : gset allowlisted) (att : attachment).
Abbreviation props := (cloud_pointer_properties file_name plan att).

(** The identifiers of the plan are distinct and above 0x8000. *)
Definition npids_distinct (plan : gset allowlisted) : bool :=
  forallb (λ p, match npid plan p with
                | Some n => (0x8000 <=? n) && (n <? 2 ^ 16) &&
                            forallb (λ q, bool_decide (npid plan q = Some n → p = q)) ALLOWLIST
                | None => true end) ALLOWLIST.

Lemma npid_spec p n : npid plan p = Some n → 0x8000 <= n < 2 ^ 16 ∧ ∀ q, npid plan q = Some n → p = q.
Proof.
  assert (npids_distinct plan = true) as H.
  { assert (forallb npids_distinct all_plans = true) as Ha by (vm_compute; reflexivity).
    rewrite forallb_forall in Ha. apply Ha, list_elem_of_In, plan_in_all. }
  assert (Hall : ∀ q : allowlisted, In q ALLOWLIST) by (intros []; cbn; auto).
  unfold npids_distinct in H. rewrite forallb_forall in H. specialize (H p (Hall p)). intros E. rewrite E in H.
  apply andb_true_iff in H as [H Hq]. bool_to_Z. split; [done|]. intros q.
  rewrite forallb_forall in Hq. specialize (Hq q (Hall q)). by apply bool_decide_eq_true in Hq.
Qed.

Lemma written_app l k id : written (l ++ k) id = option_or (written l id) (written k id).
Proof.
  unfold written. induction l as [|p l IH]; [done|]. cbn. by destruct (p.1 =? id).
Qed.

Lemma written_push p v id :
  written (push_named plan p v) id = if bool_decide (npid plan p = Some id) then Some v else None.
Proof.
  unfold push_named. destruct (npid plan p) as [n|]; [|by rewrite bool_decide_false]. unfold written. cbn.
  destruct (Z.eqb_spec n id) as [->|]; [by rewrite bool_decide_true|]. rewrite bool_decide_false; [done|congruence].
Qed.

Lemma written_push_low p v id : id < 0x8000 → written (push_named plan p v) id = None.
Proof. intros H. rewrite written_push, bool_decide_false; [done|]. intros [? _]%npid_spec. lia. Qed.

Lemma written_mime id :
  written match mime att with Some m => [(0x370E, VString m)] | None => [] end id =
  if 0x370E =? id then VString <$> mime att else None.
Proof. unfold written. destruct (mime att); cbn [find fst snd]; by destruct (0x370E =? id). Qed.

(** The classic properties. *)
Lemma written_low id : id < 0x8000 →
  written props id =
  if 0x3707 =? id then Some (VString (filename att))
  else if 0x3704 =? id then Some (VString (short_attach_filename file_name (filename att)))
  else if 0x3705 =? id then Some (VI32 (pointer_method att))
  else if 0x0E20 =? id then Some (VI32 (Z.min (NamedPropMap.attach_size att) (2 ^ 31 - 1)))
  else if (0x370D =? id) || (0x3708 =? id) then VString <$> trimmed (cloud_url att)
  else if 0x370E =? id then VString <$> mime att
  else None.
Proof.
  intros Hid. unfold cloud_pointer_properties. rewrite !written_app. unfold written at 1. cbn [find fst snd fmap option_fmap option_map].
  do 4 (destruct (_ =? id); [done|]). cbn [option_or]. unfold cloud_props. rewrite !written_app.
  assert (written match trimmed (cloud_provider att) with
                  | Some provider => push_named plan AttachmentProviderType (VString provider) | None => [] end id = None) as ->.
  { destruct (trimmed _); [by apply written_push_low|done]. }
  assert (written match cloud_permission_type att with
                  | Some perm => push_named plan AttachmentPermissionType (VI32 perm) | None => [] end id = None) as ->.
  { destruct (cloud_permission_type att); [by apply written_push_low|done]. }
  rewrite (written_mime id). destruct (trimmed (cloud_url att)) as [u|].
  - rewrite written_app, written_push_low by done. unfold written at 1. cbn [find fst snd fmap option_fmap option_map].
    unfold NamedPropMap.PID_TAG_ATTACH_LONG_PATHNAME, NamedPropMap.PID_TAG_ATTACH_PATHNAME.
    destruct (0x370D =? id); [done|]. destruct (0x3708 =? id); done.
  - cbn [option_or fmap option_fmap option_map]. change (written [] id) with (@None pc_value). cbn [option_or].
    destruct (Z.eqb_spec 0x370E id) as [<-|]; [done|]. by destruct (_ || _).
Qed.

(** The named properties. *)
Lemma written_named p n : npid plan p = Some n →
  written props n = match p with
                    | AttachmentUrl => VString <$> trimmed (cloud_url att)
                    | AttachmentProviderType => VString <$> trimmed (cloud_provider att)
                    | AttachmentPermissionType => VI32 <$> cloud_permission_type att
                    end.
Proof.
  intros Hn. destruct (npid_spec p n Hn) as [Hr Hi]. unfold cloud_pointer_properties. rewrite !written_app.
  assert (Hlow : ∀ id v l, id < 0x8000 → written ((id, v) :: l) n = written l n).
  { intros id v l Hid. unfold written. cbn [find fst]. by rewrite (proj2 (Z.eqb_neq id n)) by lia. }
  rewrite !Hlow by lia. change (written [] n) with (@None pc_value). cbn [option_or]. unfold cloud_props. rewrite !written_app.
  rewrite written_mime, (proj2 (Z.eqb_neq 0x370E n)) by lia.
  assert (Hpush : ∀ q v, written (push_named plan q v) n = if bool_decide (p = q) then Some v else None).
  { intros q v. rewrite written_push. destruct (decide (npid plan q = Some n)) as [E|E].
    - rewrite (bool_decide_true _ E), bool_decide_true; [done|by apply Hi].
    - rewrite (bool_decide_false _ E), bool_decide_false; [done|]. by intros ->. }
  assert (written match trimmed (cloud_url att) with
                  | Some url => [(NamedPropMap.PID_TAG_ATTACH_LONG_PATHNAME, VString url); (NamedPropMap.PID_TAG_ATTACH_PATHNAME, VString url)] ++
                                push_named plan AttachmentUrl (VString url)
                  | None => [] end n = if bool_decide (p = AttachmentUrl) then VString <$> trimmed (cloud_url att) else None) as ->.
  { destruct (trimmed (cloud_url att)); [|by case_bool_decide]. rewrite written_app, !Hlow by done. cbn. by rewrite Hpush. }
  assert (written match trimmed (cloud_provider att) with
                  | Some provider => push_named plan AttachmentProviderType (VString provider) | None => [] end n =
          if bool_decide (p = AttachmentProviderType) then VString <$> trimmed (cloud_provider att) else None) as ->.
  { destruct (trimmed (cloud_provider att)); [by rewrite Hpush|by case_bool_decide]. }
  assert (written match cloud_permission_type att with
                  | Some perm => push_named plan AttachmentPermissionType (VI32 perm) | None => [] end n =
          if bool_decide (p = AttachmentPermissionType) then VI32 <$> cloud_permission_type att else None) as ->.
  { destruct (cloud_permission_type att); [by rewrite Hpush|by case_bool_decide]. }
  destruct p; cbn; [by destruct (cloud_permission_type att)|by destruct (trimmed (cloud_provider att))|by destruct (trimmed (cloud_url att))].
Qed.
End pointer.

(** ** Reading the pointer back *)

Section reading.
Context (properties : list (Z * pc_value)) (pc : prop_context).
Context (Hread : ∀ id, 0 <= id < 2 ^ 16 →
  pc_get pc id = match written properties id with Some v => read_back ∅ v | None => Ok None end).

Lemma read_string id o : 0 <= id < 2 ^ 16 → written properties id = VString <$> o → get_str pc id = Ok (utf8 <$> o).
Proof. intros Hid E. unfold get_str, get_string, get_as. rewrite Hread, E by done. by destruct o. Qed.

Lemma read_i32 id o : 0 <= id < 2 ^ 16 → written properties id = VI32 <$> o → get_i32 pc id = Ok o.
Proof. intros Hid E. unfold get_i32, get_as. rewrite Hread, E by done. by destruct o. Qed.

Lemma read_absent {A} (view : property_value → option A) id :
  0 <= id < 2 ^ 16 → written properties id = None → get_as pc view id = Ok None.
Proof. intros Hid E. unfold get_as. by rewrite Hread, E. Qed.
End reading.

(** The URL that the pointer gives is the one it was written with. *)
Lemma extract_written pc name short url :
  get_str pc PID_TAG_ATTACH_LONG_PATHNAME = Ok url → get_str pc PID_TAG_ATTACH_PATHNAME = Ok url →
  get_str pc PID_TAG_ATTACH_LONG_FILENAME = Ok (Some name) → get_str pc PID_TAG_ATTACH_FILENAME = Ok (Some short) →
  url_ok name url → looks_like_url short = false → extract_cloud_url pc name = Ok url.
Proof.
  intros H1 H2 H3 H4 Hurl Hshort. unfold extract_cloud_url. rewrite H1, H2, H3, H4. cbn [soft]. rewrite !bind_ok.
  assert (Hks : keep_if looks_like_url (Some short) = None) by (unfold keep_if; cbn; by rewrite Hshort).
  rewrite Hks. destruct url as [t|]; cbn in Hurl.
  - destruct Hurl as (Ht & Hn & Hp). cbn [omap list_omap id map]. rewrite Ht.
    destruct (looks_like_cloud_pointer t) eqn:E; [cbn; by rewrite E|]. destruct Hp as [?|Hname]; [done|].
    assert (keep_if looks_like_url (Some name) = None) as -> by (unfold keep_if; cbn; by rewrite Hname).
    cbn. rewrite E. unfold trimmed_str, keep_if. cbn. by rewrite Ht, bool_decide_false.
  - assert (keep_if looks_like_url (Some name) = None) as -> by (unfold keep_if; cbn; by rewrite Hurl). done.
Qed.

(** The strings of an attachment are Rust strings, its integers [u32] and [i32]. *)
Record attachment_ok (file_name : rstring → option rstring) (att : attachment) : Prop := {
  ok_filename : Forall scalar (filename att);
  ok_short : Forall scalar (short_attach_filename file_name (filename att));
  ok_mime : ∀ m, mime att = Some m → Forall scalar m;
  ok_provider : ∀ p, cloud_provider att = Some p → Forall scalar p;
  ok_url : ∀ u, cloud_url att = Some u → Forall scalar u;
  ok_permission : ∀ p, cloud_permission_type att = Some p → - 2 ^ 31 <= p < 2 ^ 31;
  ok_size : 0 <= NamedPropMap.attach_size att < 2 ^ 32 }.

(** A string that the classification returned is written and read back unchanged. *)
Lemma trimmed_written o :
  (∀ s, o = Some s → Forall scalar s ∧ str_trim (utf8 s) = utf8 s ∧ utf8 s ≠ []) →
  ∃ t, trimmed o = t ∧ utf8 <$> t = utf8 <$> o ∧ ∀ s, t = Some s → Forall scalar s.
Proof.
  destruct o as [s|]; intros H; [|by exists None].
  destruct (H s eq_refl) as (Hs & Ht & Hn). destruct (trimmed_keeps s (scalar_in_range s Hs) Ht Hn) as (t & E & Hu & Hin).
  exists (Some t). split_and!; [done|cbn; by rewrite Hu|]. intros ? [= <-]. rewrite Forall_forall in Hs |- *. auto.
Qed.

Section round_trip.
Context (file_name : rstring → option rstring) (plan : gset allowlisted) (att : attachment) (Hok : attachment_ok file_name att).
Abbreviation props := (cloud_pointer_properties file_name plan att).

Context (Hprov : trimmed_str (utf8 <$> cloud_provider att) = utf8 <$> cloud_provider att)
        (Hurl : url_ok (utf8 (filename att)) (utf8 <$> cloud_url att)).

Lemma provider_written :
  ∃ t, trimmed (cloud_provider att) = t ∧ utf8 <$> t = utf8 <$> cloud_provider att ∧ ∀ s, t = Some s → Forall scalar s.
Proof.
  apply trimmed_written. intros s E. split; [by apply (ok_provider _ _ Hok)|]. rewrite E in Hprov.
  exact (trimmed_str_some _ (utf8 s) Hprov).
Qed.

Lemma url_written :
  ∃ t, trimmed (cloud_url att) = t ∧ utf8 <$> t = utf8 <$> cloud_url att ∧ ∀ s, t = Some s → Forall scalar s.
Proof.
  apply trimmed_written. intros s E. split; [by apply (ok_url _ _ Hok)|]. rewrite E in Hurl. cbn in Hurl. naive_solver.
Qed.

Lemma pointer_method_range : 0 <= pointer_method att <= 7.
Proof.
  unfold pointer_method. destruct (attach_method att) as [m|]; [|lia].
  destruct (Z.eqb_spec m 7), (Z.eqb_spec m 2), (Z.eqb_spec m 3), (Z.eqb_spec m 4); cbn; lia.
Qed.

Lemma props_ok : Forall (λ p, 0 <= p.1 < 2 ^ 16 ∧ value_ok p.2) props.
Proof.
  destruct url_written as (u & Eu & _ & Hu), provider_written as (p & Ep & _ & Hp). pose proof pointer_method_range.
  pose proof (ok_size _ _ Hok). unfold cloud_pointer_properties, cloud_props. rewrite Eu, Ep.
  assert (Hpush : ∀ q v, value_ok v → Forall (λ p : Z * pc_value, 0 <= p.1 < 2 ^ 16 ∧ value_ok p.2) (push_named plan q v)).
  { intros q v Hv. unfold push_named. destruct (npid plan q) eqn:E; constructor; [|constructor]. split; [|done].
    apply npid_spec in E as [? _]. cbn. lia. }
  rewrite !Forall_app. split_and!.
  - repeat (constructor; [split; [cbv; split; congruence|]|]); [apply (ok_filename _ _ Hok)|apply (ok_short _ _ Hok)|cbn; lia..|constructor].
  - destruct u as [u|]; [|constructor]. rewrite Forall_app. split; [|apply Hpush; by apply Hu].
    repeat (constructor; [split; [cbv; split; congruence|by apply Hu]|]). constructor.
  - destruct p as [p|]; [|constructor]. apply Hpush. by apply Hp.
  - destruct (cloud_permission_type att) eqn:E; [|constructor]. apply Hpush. by apply (ok_permission _ _ Hok).
  - destruct (mime att) eqn:E; constructor; [|constructor]. split; [cbn; lia|]. by apply (ok_mime _ _ Hok).
Qed.
End round_trip.

(** The attachment as the reader lists it. *)
Definition info_of (nid : Z) (att : attachment) : attachment_info :=
  {| ai_nid := nid; ai_filename := utf8 (filename att);
     ai_size := Z.min (NamedPropMap.attach_size att) (2 ^ 31 - 1); ai_mime_tag := utf8 <$> mime att;
     ai_attach_method := Some (pointer_method att); ai_is_inline := false; ai_is_cloud_link := true;
     ai_cloud_provider := utf8 <$> cloud_provider att; ai_cloud_url := utf8 <$> cloud_url att;
     ai_cloud_permission_type := cloud_permission_type att |}.

(** The plan numbers what the attachment needs. *)
Lemma plan_numbers plan att p :
  is_cloud_link att = true → wanted att ⊆ plan → (∀ q, is_Some (npid plan q) ↔ q ∈ plan) →
  (match p with
   | AttachmentUrl => is_Some (trimmed (cloud_url att))
   | AttachmentProviderType => is_Some (trimmed (cloud_provider att))
   | AttachmentPermissionType => is_Some (cloud_permission_type att)
   end) → is_Some (npid plan p).
Proof.
  intros Hc Hw Hn Hp. apply Hn, Hw. unfold wanted, scan_attachment_named_props. rewrite Hc. cbn [negb].
  destruct p.
  - destruct Hp as [? ->]. set_solver.
  - apply non_blank_trimmed in Hp as ->. destruct (non_blank _), (cloud_permission_type att); set_solver.
  - apply non_blank_trimmed in Hp as ->. destruct (cloud_permission_type att); set_solver.
Qed.

Section reread.
Context (file_name : rstring → option rstring) (plan : gset allowlisted) (att : attachment) (pc : prop_context).
Abbreviation props := (cloud_pointer_properties file_name plan att).
Context (Hok : attachment_ok file_name att) (Hc : is_cloud_link att = true) (Hw : wanted att ⊆ plan)
  (Hn : ∀ q, is_Some (npid plan q) ↔ q ∈ plan)
  (Hprov : trimmed_str (utf8 <$> cloud_provider att) = utf8 <$> cloud_provider att)
  (Hurl : url_ok (utf8 (filename att)) (utf8 <$> cloud_url att))
  (Hcloud : is_Some (cloud_provider att) ∨ pointer_method att = ATTACH_BY_WEB_REFERENCE ∨
     is_some_and looks_like_cloud_pointer (utf8 <$> cloud_url att) = true)
  (Hshort : looks_like_url (utf8 (short_attach_filename file_name (filename att))) = false)
  (Hread : ∀ id, 0 <= id < 2 ^ 16 →
     pc_get pc id = match written props id with Some v => read_back ∅ v | None => Ok None end)
  (Hraw : get_raw_hnid pc PID_TAG_ATTACH_DATA_BINARY = None).

Lemma low_string id o : 0 <= id < 0x8000 → written props id = VString <$> o → get_str pc id = Ok (utf8 <$> o).
Proof. intros ?. apply (read_string props pc Hread). lia. Qed.

Lemma low_absent {A} (view : property_value → option A) id :
  0 <= id < 0x8000 → written props id = None → get_as pc view id = Ok None.
Proof. intros ?. apply (read_absent props pc Hread). lia. Qed.

Lemma reread_long_name : get_str pc PID_TAG_ATTACH_LONG_FILENAME = Ok (Some (utf8 (filename att))).
Proof. apply (low_string _ (Some (filename att))); [done|]. by rewrite written_low. Qed.

Lemma reread_method : get_i32 pc PID_TAG_ATTACH_METHOD = Ok (Some (pointer_method att)).
Proof. apply (read_i32 props pc Hread); [done|]. by rewrite written_low. Qed.

Lemma reread_url : extract_cloud_url pc (utf8 (filename att)) = Ok (utf8 <$> cloud_url att).
Proof.
  destruct (url_written file_name att Hok Hurl) as (u & Eu & Hu & _).
  apply (extract_written pc _ (utf8 (short_attach_filename file_name (filename att)))); try done.
  - rewrite <- Hu. apply low_string; [done|]. by rewrite written_low, Eu.
  - rewrite <- Hu. apply low_string; [done|]. by rewrite written_low, Eu.
  - apply reread_long_name.
  - apply (low_string _ (Some (short_attach_filename file_name (filename att)))); [done|]. by rewrite written_low.
Qed.

Lemma reread_payload : has_usable_binary_payload pc = Ok false.
Proof.
  unfold has_usable_binary_payload, get_binary. rewrite low_absent; [|done|by rewrite written_low].
  cbn [soft]. by rewrite bind_ok, Hraw.
Qed.

Lemma reread_provider :
  match npid plan AttachmentProviderType with
  | Some npid => s ← soft (get_str pc npid); Ok (trimmed_str s)
  | None => Ok None end = Ok (utf8 <$> cloud_provider att) :> pres _.
Proof.
  destruct (provider_written file_name att Hok Hprov) as (p & Ep & Hp & _).
  destruct (npid plan AttachmentProviderType) as [n|] eqn:En.
  - destruct (npid_spec plan _ n En) as [Hr _]. rewrite (read_string props pc Hread n p);
      [|lia|by rewrite (written_named file_name plan att _ n En), Ep].
    cbn [soft]. rewrite bind_ok, Hp. by rewrite Hprov.
  - destruct p as [p|]; [|by rewrite <- Hp].
    destruct (plan_numbers plan att AttachmentProviderType Hc Hw Hn) as [? ?]; [by eexists|congruence].
Qed.

Lemma reread_permission :
  match npid plan AttachmentPermissionType with Some npid => soft (get_i32 pc npid) | None => Ok None end =
  Ok (cloud_permission_type att) :> pres _.
Proof.
  destruct (npid plan AttachmentPermissionType) as [n|] eqn:En.
  - destruct (npid_spec plan _ n En) as [Hr _]. rewrite (read_i32 props pc Hread n (cloud_permission_type att)); [done|lia|].
    by rewrite (written_named file_name plan att _ n En).
  - destruct (cloud_permission_type att) as [v|] eqn:Ev; [|done].
    destruct (plan_numbers plan att AttachmentPermissionType Hc Hw Hn) as [? ?]; [by rewrite Ev|congruence].
Qed.

Lemma reread_kind : classify_attach_pc pc (npid plan AttachmentProviderType) (utf8 (filename att)) =
  Ok (CloudLink (utf8 <$> cloud_provider att) (utf8 <$> cloud_url att)).
Proof.
  unfold classify_attach_pc. rewrite reread_method, reread_payload, reread_url, reread_provider.
  cbn [soft]. rewrite !bind_ok. f_equal. destruct Hcloud as [[s ->]|[->| ->]]; [done| |]; cbn; by rewrite ?orb_true_r.
Qed.

Lemma reread_inline : attach_is_inline pc = Ok false.
Proof.
  unfold attach_is_inline, get_str, get_string, get_i32, get_bool.
  rewrite !low_absent by (done || by rewrite written_low). done.
Qed.

Lemma reread_size : attach_size pc = Ok (Z.min (NamedPropMap.attach_size att) (2 ^ 31 - 1)).
Proof.
  unfold attach_size. rewrite (read_i32 props pc Hread _ (Some (Z.min (NamedPropMap.attach_size att) (2 ^ 31 - 1))));
    [|done|by rewrite written_low].
  pose proof (ok_size _ _ Hok). rewrite bind_ok. cbn [default from_option id]. unfold wrap. by rewrite Z.mod_small by lia.
Qed.

(** The row of the pointer is the attachment. *)
Lemma reread_row data nid :
  pc_load data = Ok pc →
  attach_row (npid plan AttachmentProviderType) (npid plan AttachmentPermissionType) nid data = Ok (info_of nid att).
Proof.
  intros Hload. unfold attach_row, attach_filename. rewrite Hload, bind_ok, reread_long_name, bind_ok.
  rewrite bind_ok, reread_size, bind_ok, (low_string PID_TAG_ATTACH_MIME_TAG (mime att)), bind_ok; [|done|by rewrite written_low].
  by rewrite reread_method, bind_ok, reread_inline, bind_ok, reread_kind, bind_ok, reread_permission, bind_ok.
Qed.
End reread.

Lemma written_cloud_link max_depth depth msg att : written_cloud max_depth depth msg att → is_cloud_link att = true.
Proof. by induction 1. Qed.

(** C26 A cloud link survives the export or fails it.  What the reader classified as a
    cloud link, with its provider and URL, and that the export writes as one is stored
    as a pointer under the named properties of the plan.  If the pointer fits the one
    heap page of the attachment, and the 8.3 name that the writer gives it is not itself
    a URL, the reader lists the attachment as a cloud link with the same name, MIME
    type, provider, URL and permission; if it does not fit, as with a long URL, building
    it is the error of an overflowing page. *)
Theorem cloud_link_survives_export messages depth msg file_name att source source_npid nid
    (Hmsg : msg ∈ messages) (Hwritten : written_cloud (clamp 1 8 depth) 0 msg att)
    (Hok : attachment_ok file_name att)
    (Hsource : classify_attach_pc source source_npid (utf8 (filename att)) =
               Ok (CloudLink (utf8 <$> cloud_provider att) (utf8 <$> cloud_url att)))
    (Hmethod : get_i32 source PID_TAG_ATTACH_METHOD = Ok (attach_method att))
    (Hshort : looks_like_url (utf8 (short_attach_filename file_name (filename att))) = false) :
  let plan := scan_messages_with_depth messages depth in
  if pc_size (cloud_pointer_properties file_name plan att) <=? MAX_BLOCK_DATA
  then ∃ map_data map_pc m hid h data,
    named_heap plan = Ok map_data ∧ pc_load map_data = Ok map_pc ∧ from_prop_context map_pc = Ok m ∧
    build_pc_v2 (hb_new 0x6C) (cloud_pointer_properties file_name plan att) = Ok (hid, h) ∧ hb_finalize h hid = Ok data ∧
    attach_row (attachment_provider_type_npid m) (attachment_permission_type_npid m) nid data = Ok (info_of nid att)
  else ∃ a b c d e, build_pc_v2 (hb_new 0x6C) (cloud_pointer_properties file_name plan att) = Err (HeapPageOverflow a b c d e).
Proof.
  intros plan. destruct (_ <=? _) eqn:Efit.
  2: { pose proof (build_pc_spec 0x6C (cloud_pointer_properties file_name plan att)) as Hb. by rewrite Efit in Hb. }
  apply Z.leb_le in Efit. destruct (loaded_map_spec plan) as (mdata & mpc & m & H1 & H2 & H3 & _ & _ & H6).
  pose proof (written_cloud_link _ _ _ _ Hwritten) as Hc.
  assert (Hw : wanted att ⊆ plan).
  { unfold plan, scan_messages_with_depth. eapply foldl_reaches; [intros; apply scan_mono|exact Hmsg|]. intros q. by apply scan_covers. }
  assert (soft (get_i32 source PID_TAG_ATTACH_METHOD) = Ok (attach_method att)) as Hm by (by rewrite Hmethod).
  destruct (classify_cloud_inv _ _ _ _ _ _ Hsource Hm) as (Hprov & Hurl & Hcloud).
  destruct (pc_image 0x6C (cloud_pointer_properties file_name plan att) ∅) as (hid & h & data & pc & Hb & Hf & _ & Hl & Hr);
    [lia|by apply props_ok|exact Efit|].
  exists mdata, mpc, m, hid, h, data. split_and!; [done..|].
  unfold attachment_provider_type_npid, attachment_permission_type_npid.
  rewrite (proj1 (H6 AttachmentProviderType) : resolve_name m PSETID_ATTACHMENT NAME_ATTACHMENT_PROVIDER_TYPE = _).
  rewrite (proj1 (H6 AttachmentPermissionType) : resolve_name m PSETID_ATTACHMENT NAME_ATTACHMENT_PERMISSION_TYPE = _).
  apply (reread_row file_name plan att pc); try done.
  - intros q. apply (H6 q).
  - destruct Hcloud as [[s Es]|[E|E]]; [left| |by right; right].
    + destruct (cloud_provider att); [by eexists|done].
    + right. left. unfold pointer_method. rewrite E. done.
  - intros id Hid. by apply Hr.
  - apply (Hr PID_TAG_ATTACH_DATA_BINARY); [done|]. by rewrite written_low.
Qed.

(** ** A link *)

Definition sample_link : attachment :=
  {| filename := lit "quarterly report.xlsx"; mime := None; NamedPropMap.attach_size := 12; attach_method := Some 1;
     embedded_depth_limited := false; is_cloud_link := true; cloud_provider := Some (lit "OneDrivePro");
     cloud_url := Some (lit "https://contoso.sharepoint.com/x"); cloud_permission_type := Some 2 |}.
Definition sample_message : write_message := WriteMessage [(sample_link, None)].
Definition sample_source : option (prop_context * Z) :=
  Eval vm_compute in
  let plan := scan_messages [sample_message] in
  match b ← build_pc_v2 (hb_new 0x6C) (cloud_pointer_properties Some plan sample_link); hb_finalize b.2 b.1 with
  | Ok data => match pc_load data, npid plan AttachmentProviderType with Ok pc, Some n => Some (pc, n) | _, _ => None end
  | _ => None
  end.
Definition sample_context : prop_context :=
  match sample_source with Some (pc, _) => pc | None => {| pc_heap := body_heap; pc_records := []; pc_subnodes := ∅ |} end.

(** The source keeps its own method, a web reference. *)
Definition sample_attachment : attachment :=
  {| filename := filename sample_link; mime := None; NamedPropMap.attach_size := 12; attach_method := Some 7;
     embedded_depth_limited := false; is_cloud_link := true; cloud_provider := cloud_provider sample_link;
     cloud_url := cloud_url sample_link; cloud_permission_type := Some 2 |}.

Lemma cloud_link_survives_export_witness :
  ∃ map_data map_pc m hid h data,
    named_heap (scan_messages_with_depth [WriteMessage [(sample_attachment, None)]] 3) = Ok map_data ∧
    pc_load map_data = Ok map_pc ∧ from_prop_context map_pc = Ok m ∧
    build_pc_v2 (hb_new 0x6C)
      (cloud_pointer_properties Some (scan_messages_with_depth [WriteMessage [(sample_attachment, None)]] 3) sample_attachment) = Ok (hid, h) ∧
    hb_finalize h hid = Ok data ∧
    attach_row (attachment_provider_type_npid m) (attachment_permission_type_npid m) 0x8025 data = Ok (info_of 0x8025 sample_attachment).
Proof.
  assert (Hfit : (pc_size (cloud_pointer_properties Some (scan_messages_with_depth [WriteMessage [(sample_attachment, None)]] 3) sample_attachment) <=?
    MAX_BLOCK_DATA) = true) by (vm_compute; reflexivity).
  pose proof (cloud_link_survives_export [WriteMessage [(sample_attachment, None)]] 3 (WriteMessage [(sample_attachment, None)]) Some
    sample_attachment sample_context (Some 0x8001) 0x8025) as Hc. cbv zeta in Hc. rewrite Hfit in Hc. apply Hc; clear Hc.
  - by left.
  - by eapply cloud_here; [left|].
  - split; try (apply (bool_decide_unpack _); vm_compute; reflexivity); try (intros ? [= <-]; try (apply (bool_decide_unpack _); vm_compute; reflexivity); lia); cbn; lia.
  - vm_compute. reflexivity.
  - vm_compute. reflexivity.
  - vm_compute. reflexivity.
Defined.
