(* ===== verification/Layout.v ===== *)
(** * Files under construction

    What the writer uses of [std::fs::File]: the bytes, the cursor, writing at the
    cursor or at an offset, seeking and [set_len].  Writing behind the end leaves a
    hole of zero bytes, as the operating systems do.  An operation that the disk
    refuses is outside the model. *)

From S2P Require Import Prelude PstError Header PropContext WriterHeap.
#[local] Open Scope Z_scope.

Record file_state := { f_bytes : list byte; f_pos : Z }.

Definition zeros (n : Z) : list byte := replicate (Z.to_nat n) Byte.x00.

(** The bytes after [data] has been written at [off]. *)
Definition write_at (l : list byte) (off : Z) (data : list byte) : list byte :=
  sub l 0 off ++ zeros (off - zlen l) ++ data ++ sub l (off + zlen data) (zlen l).

(** [File::create] *)
Definition f_create : file_state := {| f_bytes := []; f_pos := 0 |}.

(** [write_all] at the cursor. *)
Definition f_write_all (f : file_state) (data : list byte) : file_state :=
  {| f_bytes := write_at (f_bytes f) (f_pos f) data; f_pos := f_pos f + zlen data |}.

(** [seek(SeekFrom::Start(off))] *)
Definition f_seek (f : file_state) (off : Z) : file_state := {| f_bytes := f_bytes f; f_pos := off |}.

(** [seek_write(data, off)] until all is written. *)
Definition f_seek_write (f : file_state) (off : Z) (data : list byte) : file_state :=
  {| f_bytes := write_at (f_bytes f) off data; f_pos := off + zlen data |}.

(** [set_len(n)] *)
Definition f_set_len (f : file_state) (n : Z) : file_state :=
  {| f_bytes := sub (f_bytes f) 0 n ++ zeros (n - zlen (f_bytes f)); f_pos := f_pos f |}.

(** ** What a write leaves *)

(** [data] is in the file at [off]. *)
Definition stored (l : list byte) (off : Z) (data : list byte) : Prop :=
  0 <= off ∧ off + zlen data <= zlen l ∧ sub l off (zlen data) = data.

(** Two byte ranges, given by offset and length, have no byte in common. *)
Definition apart (a n b m : Z) : Prop := a + n <= b ∨ b + m <= a.

Lemma apart_sym a n b m : apart a n b m → apart b m a n.
Proof. unfold apart. lia. Qed.

Lemma zlen_zeros n : zlen (zeros n) = Z.max n 0.
Proof. unfold zeros. rewrite zlen_replicate. lia. Qed.

Lemma zlen_sub_any {A} (l : list A) a n :
  0 <= a → 0 <= n → zlen (sub l a n) = Z.max 0 (Z.min n (zlen l - a)).
Proof. unfold zlen, sub. intros. rewrite length_take, length_drop. lia. Qed.

Lemma zlen_write_at l off data : 0 <= off → zlen (write_at l off data) = Z.max (zlen l) (off + zlen data).
Proof.
  intros Ho. unfold write_at. pose proof (zlen_nonneg l). pose proof (zlen_nonneg data).
  rewrite !zlen_app, zlen_zeros, !zlen_sub_any by lia. lia.
Qed.

Lemma sub_app_r {A} (a c : list A) o n : zlen a <= o → sub (a ++ c) o n = sub c (o - zlen a) n.
Proof.
  intros H. unfold sub, zlen in *. rewrite drop_app_ge by lia. do 2 f_equal. lia.
Qed.

Lemma write_at_front (l : list byte) off :
  0 <= off → zlen (sub l 0 off ++ zeros (off - zlen l)) = off.
Proof.
  intros Ho. pose proof (zlen_nonneg l). rewrite zlen_app, zlen_zeros, zlen_sub_any by lia. lia.
Qed.

Lemma stored_write_at l off data : 0 <= off → stored (write_at l off data) off data.
Proof.
  intros Ho. pose proof (zlen_nonneg data). pose proof (zlen_nonneg l). split_and!; [done| |].
  { rewrite zlen_write_at by done. lia. }
  unfold write_at. rewrite (assoc_L (++) (sub l 0 off)). apply sub_mid; [|done].
  by rewrite write_at_front.
Qed.

Lemma sub_write_at l off data a n :
  0 <= a → 0 <= n → 0 <= off → a + n <= zlen l → apart a n off (zlen data) →
  sub (write_at l off data) a n = sub l a n.
Proof.
  intros Ha Hn Ho Hl Hap. pose proof (zlen_nonneg data). unfold write_at, apart in *.
  destruct (decide (a + n <= off)) as [Hlt|Hge].
  - rewrite sub_app_l by (rewrite ?zlen_sub_any; lia). by rewrite sub_sub by lia.
  - destruct Hap as [?|Hap]; [lia|]. rewrite (assoc_L (++) (sub l 0 off)), (assoc_L (++) _ data).
    rewrite sub_app_r by (rewrite zlen_app, write_at_front by done; lia).
    rewrite zlen_app, write_at_front by done. rewrite sub_sub by lia. f_equal. lia.
Qed.

Lemma stored_other l off data a d :
  0 <= off → stored l a d → apart a (zlen d) off (zlen data) → stored (write_at l off data) a d.
Proof.
  intros Ho (Ha & Hl & Hs) Hap. pose proof (zlen_nonneg d). split_and!; [done| |].
  - rewrite zlen_write_at by done. lia.
  - rewrite sub_write_at; auto.
Qed.

Lemma stored_set_len f n a d :
  stored (f_bytes f) a d → a + zlen d <= n → stored (f_bytes (f_set_len f n)) a d.
Proof.
  intros (Ha & Hl & Hs) Hn. pose proof (zlen_nonneg d). pose proof (zlen_nonneg (f_bytes f)). simpl. split_and!; [done| |].
  - rewrite zlen_app, zlen_zeros, zlen_sub_any by lia. lia.
  - rewrite sub_app_l by (rewrite ?zlen_sub_any; lia). by rewrite sub_sub, Z.add_0_l by lia.
Qed.

(** A part of stored data is stored. *)
Lemma stored_sub l off data a n :
  stored l off data → 0 <= a → 0 <= n → a + n <= zlen data → sub l (off + a) n = sub data a n.
Proof.
  intros (Ho & Hl & Hs) Ha Hn Hd. pose proof (zlen_nonneg data). rewrite <-Hs, sub_sub; [done|lia..].
Qed.

(** A list of writes, in order. *)
Definition write_all_at (l : list byte) (ws : list (Z * list byte)) : list byte :=
  foldl (λ l w, write_at l w.1 w.2) l ws.

Definition region (w : Z * list byte) : Z * Z := (w.1, zlen w.2).

Lemma write_all_at_app l ws1 ws2 : write_all_at l (ws1 ++ ws2) = write_all_at (write_all_at l ws1) ws2.
Proof. apply foldl_app. Qed.

(** Data apart from every write stays. *)
Lemma stored_write_all l ws a d :
  Forall (λ w, 0 <= w.1 ∧ apart a (zlen d) w.1 (zlen w.2)) ws → stored l a d →
  stored (write_all_at l ws) a d.
Proof.
  intros Hws. revert l. induction Hws as [|w ws [Hw Hap] _ IH]; intros l Hs; [done|].
  apply IH. by apply stored_other.
Qed.

(** Writes that are pairwise apart are all there in the end. *)
Lemma stored_all l ws :
  Forall (λ w, 0 <= w.1) ws →
  (∀ i j w v, (i < j)%nat → ws !! i = Some w → ws !! j = Some v → apart w.1 (zlen w.2) v.1 (zlen v.2)) →
  ∀ w, w ∈ ws → stored (write_all_at l ws) w.1 w.2.
Proof.
  intros Hpos Hap w Hw. revert l Hap. induction ws as [|v ws IH]; intros l Hap; [set_solver|].
  apply Forall_cons in Hpos as [Hv Hpos]. apply elem_of_cons in Hw as [->|Hw].
  - simpl. apply stored_write_all; [|by apply stored_write_at].
    apply Forall_forall. intros u [j Hu]%list_elem_of_lookup. rewrite Forall_forall in Hpos.
    split; [apply Hpos; by eapply list_elem_of_lookup_2|]. by apply (Hap 0%nat (S j)); [lia|..].
  - simpl. apply IH; [done|done|]. intros i j ????. apply (Hap (S i) (S j)); [lia|done..].
Qed.

(** * The layout engine of the writer (pst-writer/src/lib.rs)

    [Layout] collects nodes, blocks and pages, hands out block and node IDs and
    decides file offsets.  Data blocks are written to the staging file as they
    come; every region keeps clear of the slots that the format reserves for
    Allocation Map (AMap) pages.  Offsets and counters are unbounded integers: the
    theorems ask that they stay below [2 ^ 64]. *)

Definition HEADER_SIZE : Z := 4096.
Definition BLOCK_ALIGN : Z := 64.
Definition AMAP_FIRST_OFFSET : Z := 0x4400.
Definition AMAP_INTERVAL : Z := 253952.
Definition PTYPE_AMAP : Z := 0x84.
Definition RESERVED_NID_INDICES : list Z := [0x30; 0x33; 0x34].

(** [is_amap_page_offset], [next_amap_at_or_after], [align_up] *)
Definition is_amap_page_offset (offset : Z) : bool :=
  if offset <? AMAP_FIRST_OFFSET then false
  else (offset - AMAP_FIRST_OFFSET) mod AMAP_INTERVAL =? 0.

Definition next_amap_at_or_after (offset : Z) : Z :=
  if offset <=? AMAP_FIRST_OFFSET then AMAP_FIRST_OFFSET
  else
    let rel := offset - AMAP_FIRST_OFFSET in
    let rem := rel mod AMAP_INTERVAL in
    if rem =? 0 then offset else offset + (AMAP_INTERVAL - rem).

Definition align_up (value alignment : Z) : Z := (value + alignment - 1) / alignment * alignment.

(** ** The data *)

Record node_entry := { ne_nid : Z; ne_bid_data : Z; ne_bid_sub : Z; ne_nid_parent : Z }.
Record block_entry := { be_bid : Z; be_data : list byte; be_offset : Z; be_len : Z; be_on_disk : bool }.
Record page_entry := { pe_bid : Z; pe_ptype : Z; pe_offset : Z }.

(** [BlockEntry::in_memory], [BlockEntry::on_disk], [BlockEntry::payload_len] *)
Definition be_in_memory (bid : Z) (data : list byte) : block_entry :=
  {| be_bid := bid; be_data := data; be_offset := 0; be_len := wrap 32 (zlen data); be_on_disk := false |}.
Definition be_written (bid offset len : Z) : block_entry :=
  {| be_bid := bid; be_data := []; be_offset := offset; be_len := len; be_on_disk := true |}.
Definition payload_len (b : block_entry) : Z := be_len b.

(** [used_bids] and [next_bid_counter] *)
Record bid_alloc := { used_bids : gset Z; next_bid_counter : Z }.

(** The registered AMap pages: the vector and the set of their offsets. *)
Record amap_book := { am_pages : list page_entry; am_offsets : gset Z }.

(** [EagerWriteCtx] *)
Record eager_ctx := {
  eg_file : file_state; eg_cursor : Z; eg_amap : amap_book;
  amap_stubs_written : gset Z; stubbed_upto : Z; eg_file_pos : Z; amap_scan_steps : Z }.

Record layout := {
  ly_nodes : list node_entry; ly_blocks : list block_entry; ly_pages : list page_entry;
  ly_bids : bid_alloc; next_nid_index : Z; used_nids : gset Z; ly_eager : option eager_ctx }.

(** [Layout::new], [EagerWriteCtx::create], [attach_eager], [take_eager] *)
Definition layout_new : layout :=
  {| ly_nodes := []; ly_blocks := []; ly_pages := [];
     ly_bids := {| used_bids := ∅; next_bid_counter := 0x10 |};
     next_nid_index := 11; used_nids := ∅; ly_eager := None |}.

Definition eager_create : eager_ctx :=
  {| eg_file := f_write_all f_create (zeros HEADER_SIZE); eg_cursor := HEADER_SIZE;
     eg_amap := {| am_pages := []; am_offsets := ∅ |}; amap_stubs_written := ∅; stubbed_upto := 0;
     eg_file_pos := HEADER_SIZE; amap_scan_steps := 0 |}.

Definition set_eager (ly : layout) (eager : option eager_ctx) : layout :=
  {| ly_nodes := ly_nodes ly; ly_blocks := ly_blocks ly; ly_pages := ly_pages ly; ly_bids := ly_bids ly;
     next_nid_index := next_nid_index ly; used_nids := used_nids ly; ly_eager := eager |}.
Definition attach_eager (ly : layout) (ctx : eager_ctx) : layout := set_eager ly (Some ctx).
Definition take_eager (ly : layout) : option eager_ctx * layout := (ly_eager ly, set_eager ly None).

Definition set_bids (ly : layout) (bids : bid_alloc) : layout :=
  {| ly_nodes := ly_nodes ly; ly_blocks := ly_blocks ly; ly_pages := ly_pages ly; ly_bids := bids;
     next_nid_index := next_nid_index ly; used_nids := used_nids ly; ly_eager := ly_eager ly |}.
Definition push_block (ly : layout) (b : block_entry) : layout :=
  {| ly_nodes := ly_nodes ly; ly_blocks := ly_blocks ly ++ [b]; ly_pages := ly_pages ly; ly_bids := ly_bids ly;
     next_nid_index := next_nid_index ly; used_nids := used_nids ly; ly_eager := ly_eager ly |}.
Definition push_node (ly : layout) (n : node_entry) : layout :=
  {| ly_nodes := ly_nodes ly ++ [n]; ly_blocks := ly_blocks ly; ly_pages := ly_pages ly; ly_bids := ly_bids ly;
     next_nid_index := next_nid_index ly; used_nids := {[ne_nid n]} ∪ used_nids ly; ly_eager := ly_eager ly |}.
Definition push_page (ly : layout) (p : page_entry) : layout :=
  {| ly_nodes := ly_nodes ly; ly_blocks := ly_blocks ly; ly_pages := ly_pages ly ++ [p]; ly_bids := ly_bids ly;
     next_nid_index := next_nid_index ly; used_nids := used_nids ly; ly_eager := ly_eager ly |}.

(** ** Block and node IDs *)

(** The loop of [alloc_bid] (and of [amap_ensure_page], with [internal]): the
    first counter value whose ID, with the internal bit set or cleared, is new.
    The invariant of LayoutFacts bounds it by five rounds. *)
Fixpoint alloc_bid_loop (fuel : nat) (internal : bool) (b : bid_alloc) : wres (Z * bid_alloc) :=
  match fuel with
  | O => NoFuel
  | S fuel =>
      let bid := next_bid_counter b in
      let result := if internal then Z.lor bid 0x02 else Z.ldiff bid 0x02 in
      if decide (result ∈ used_bids b)
      then alloc_bid_loop fuel internal {| used_bids := used_bids b; next_bid_counter := bid + 1 |}
      else Ok (result, {| used_bids := {[result]} ∪ used_bids b; next_bid_counter := bid + 1 |})
  end.
Definition bid_fuel : nat := 8.

(** [Layout::alloc_bid] *)
Definition alloc_bid (ly : layout) (internal : bool) : wres (Z * layout) :=
  r ← alloc_bid_loop bid_fuel internal (ly_bids ly);
  Ok (r.1, set_bids ly r.2).

(** [Layout::alloc_nid]: the [u32] index saturates; three indices are reserved. *)
Definition U32_MAX : Z := 2 ^ 32 - 1.
Fixpoint alloc_nid_loop (fuel : nat) (index : Z) : wres (Z * Z) :=
  match fuel with
  | O => NoFuel
  | S fuel =>
      let next := Z.min (index + 1) U32_MAX in
      if decide (index ∈ RESERVED_NID_INDICES) then alloc_nid_loop fuel next else Ok (index, next)
  end.
Definition alloc_nid (ly : layout) (nid_type : Z) : wres (Z * layout) :=
  r ← alloc_nid_loop 4 (next_nid_index ly);
  Ok (Z.lor (Z.shiftl r.1 5) nid_type,
      {| ly_nodes := ly_nodes ly; ly_blocks := ly_blocks ly; ly_pages := ly_pages ly; ly_bids := ly_bids ly;
         next_nid_index := r.2; used_nids := used_nids ly; ly_eager := ly_eager ly |}).

(** [Layout::add_node], the fixture path: both [assert!]s panic. *)
Definition add_node (ly : layout) (nid : Z) (data : list byte) (nid_parent : Z) : wres (Z * layout) :=
  if MAX_BLOCK_DATA <? zlen data then Panic
  else
    r ← alloc_bid ly false;
    if decide (nid ∈ used_nids r.2) then Panic
    else
      Ok (r.1, push_block (push_node r.2 {| ne_nid := nid; ne_bid_data := r.1; ne_bid_sub := 0; ne_nid_parent := nid_parent |})
                 (be_in_memory r.1 data)).

(** [Layout::reserve_page] *)
Definition reserve_page (ly : layout) (ptype : Z) : wres (Z * layout) :=
  r ← alloc_bid ly true;
  Ok (r.1, push_page r.2 {| pe_bid := r.1; pe_ptype := ptype; pe_offset := 0 |}).

(** ** Placement *)

(** The mutable arguments of [amap_place_region]. *)
Record placement := { pl_cursor : Z; pl_amap : amap_book; pl_bids : bid_alloc; pl_steps : Z }.

(** [amap_ensure_page] *)
Definition amap_ensure_page (amap_off : Z) (am : amap_book) (bids : bid_alloc) : wres (amap_book * bid_alloc) :=
  if decide (amap_off ∈ am_offsets am) then Ok (am, bids)
  else
    r ← alloc_bid_loop bid_fuel true bids;
    Ok ({| am_pages := am_pages am ++ [{| pe_bid := r.1; pe_ptype := PTYPE_AMAP; pe_offset := amap_off |}];
           am_offsets := {[amap_off]} ∪ am_offsets am |}, r.2).

(** Registering the map page at [amap] and going on behind it. *)
Definition skip_amap (amap align : Z) (p : placement) : wres placement :=
  r ← amap_ensure_page amap (pl_amap p) (pl_bids p);
  Ok {| pl_cursor := align_up (amap + PAGE_SIZE) align; pl_amap := r.1; pl_bids := r.2; pl_steps := pl_steps p |}.

Definition U64_SAT_ADD (x y : Z) : Z := Z.min (x + y) (2 ^ 64 - 1).

(** The loop of [amap_place_region]. *)
Fixpoint place_loop (fuel : nat) (size align : Z) (p : placement) : wres placement :=
  match fuel with
  | O => NoFuel
  | S fuel =>
      let cursor := pl_cursor p in
      let p := {| pl_cursor := cursor; pl_amap := pl_amap p; pl_bids := pl_bids p;
                  pl_steps := U64_SAT_ADD (pl_steps p) 1 |} in
      if is_amap_page_offset cursor then p ← skip_amap cursor align p; place_loop fuel size align p
      else
        let amap := next_amap_at_or_after cursor in
        let region_end := cursor + size in
        let amap_end := amap + PAGE_SIZE in
        if (cursor <? amap_end) && (amap <? region_end) then
          if (cursor <? amap) && (region_end <=? amap) then Ok p
          else p ← skip_amap amap align p; place_loop fuel size align p
        else Ok p
  end.
Definition place_fuel : nat := 4.

(** [amap_place_region]: the offset, and the state behind the region. *)
Definition amap_place_region (size align : Z) (p : placement) : wres (Z * placement) :=
  q ← place_loop place_fuel size align
        {| pl_cursor := align_up (pl_cursor p) align; pl_amap := pl_amap p; pl_bids := pl_bids p; pl_steps := pl_steps p |};
  Ok (pl_cursor q, {| pl_cursor := pl_cursor q + size; pl_amap := pl_amap q; pl_bids := pl_bids q; pl_steps := pl_steps q |}).

(** The bytes a block takes: payload, padding to 64 bytes, trailer. *)
Definition block_span (len : Z) : Z := align_up len BLOCK_ALIGN + 16.

(** ** Writing blocks *)

Section writing.
Context `{Crc : Crc32}.

(** [write_amap_stub_page_at] and [write_all_amap_pages_v1]: all bits free. *)
Definition compute_page_sig (ib bid : Z) : Z :=
  let value := Z.lxor (Z.lxor (wrap 32 ib) (wrap 32 bid)) (wrap 32 (Z.shiftr bid 32)) in
  wrap 16 (Z.lxor (Z.shiftr value 16) (Z.land value 0xFFFF)).
Definition amap_page (offset bid : Z) : list byte :=
  let body := replicate 496 Byte.xff in
  body ++ [Byte.x84; Byte.x84] ++ le_split 2 (compute_page_sig offset bid) ++
  le_split 4 (crc32 body) ++ le_split 8 bid.

(** [positioned_write_all]: the cursor is trusted when the tracked position says so. *)
Definition positioned_write_all (f : file_state) (offset : Z) (data : list byte) (file_pos : Z) : file_state * Z :=
  if file_pos =? offset then (f_write_all f data, offset + zlen data)
  else (f_seek (f_seek_write f offset data) (offset + zlen data), offset + zlen data).

(** [write_data_block] *)
Definition data_block (bid : Z) (data : list byte) : list byte :=
  data ++ zeros (align_up (zlen data) BLOCK_ALIGN - zlen data) ++
  le_split 4 (crc32 data) ++ le_split 8 bid ++ le_split 4 0.

(** The stub loop of [place_and_write_block]; one round per page behind the watermark. *)
Fixpoint write_stubs (pages : list page_entry) (e : eager_ctx) : eager_ctx :=
  match pages with
  | [] => e
  | page :: pages =>
      let steps := U64_SAT_ADD (amap_scan_steps e) 1 in
      let '(f, pos, written) :=
        if decide (pe_offset page ∈ amap_stubs_written e) then (eg_file e, eg_file_pos e, amap_stubs_written e)
        else
          let '(f, pos) := positioned_write_all (eg_file e) (pe_offset page) (amap_page (pe_offset page) (pe_bid page)) (eg_file_pos e) in
          (f, pos, {[pe_offset page]} ∪ amap_stubs_written e) in
      write_stubs pages
        {| eg_file := f; eg_cursor := eg_cursor e; eg_amap := eg_amap e; amap_stubs_written := written;
           stubbed_upto := stubbed_upto e + 1; eg_file_pos := pos; amap_scan_steps := steps |}
  end.

(** [place_and_write_block]: the offset, the IDs in use and the eager writer. *)
Definition place_and_write_block (bids : bid_alloc) (e : eager_ctx) (bid : Z) (payload : list byte)
    : wres (Z * bid_alloc * eager_ctx) :=
  let block_size := block_span (zlen payload) in
  r ← amap_place_region block_size BLOCK_ALIGN
        {| pl_cursor := eg_cursor e; pl_amap := eg_amap e; pl_bids := bids; pl_steps := amap_scan_steps e |};
  let p := r.2 in
  let e := write_stubs (drop (Z.to_nat (stubbed_upto e)) (am_pages (pl_amap p)))
    {| eg_file := eg_file e; eg_cursor := pl_cursor p; eg_amap := pl_amap p;
       amap_stubs_written := amap_stubs_written e; stubbed_upto := stubbed_upto e;
       eg_file_pos := eg_file_pos e; amap_scan_steps := pl_steps p |} in
  let '(f, pos) := positioned_write_all (eg_file e) r.1 (data_block bid payload) (eg_file_pos e) in
  Ok (r.1, pl_bids p,
      {| eg_file := f; eg_cursor := eg_cursor e; eg_amap := eg_amap e; amap_stubs_written := amap_stubs_written e;
         stubbed_upto := stubbed_upto e; eg_file_pos := pos; amap_scan_steps := amap_scan_steps e |}).

(** [push_leaf_block] *)
Definition push_leaf_block (ly : layout) (bid : Z) (data : list byte) : wres layout :=
  match ly_eager ly with
  | None => Ok (push_block ly (be_in_memory bid data))
  | Some e =>
      r ← place_and_write_block (ly_bids ly) e bid data;
      let '(offset, bids, e) := r in
      Ok (set_eager (push_block (set_bids ly bids) (be_written bid offset (wrap 32 (zlen data)))) (Some e))
  end.
End writing.

(** ** Final offsets *)

(** A stable sort by a key. *)
Definition sort_on {A} (key : A → Z) (l : list A) : list A := map snd (sort_by_key (map (λ a, (key a, a)) l)).

(** Where the in-memory regions start: behind the header and everything on disk. *)
Definition start_cursor (ly : layout) : Z :=
  foldl (λ cursor b,
      if be_on_disk b && negb (be_offset b =? 0)
      then Z.max cursor (be_offset b + block_span (payload_len b)) else cursor)
    (match ly_eager ly with Some e => Z.max HEADER_SIZE (eg_cursor e) | None => HEADER_SIZE end)
    (ly_blocks ly).

(** The loop over the B-tree pages. *)
Fixpoint place_pages (pages : list page_entry) (p : placement) : wres (list page_entry * placement) :=
  match pages with
  | [] => Ok ([], p)
  | page :: pages =>
      if negb (pe_offset page =? 0) then
        rest ← place_pages pages
          {| pl_cursor := Z.max (pl_cursor p) (pe_offset page + PAGE_SIZE); pl_amap := pl_amap p;
             pl_bids := pl_bids p; pl_steps := pl_steps p |};
        Ok (page :: rest.1, rest.2)
      else
        r ← amap_place_region PAGE_SIZE 1 p;
        rest ← place_pages pages r.2;
        Ok ({| pe_bid := pe_bid page; pe_ptype := pe_ptype page; pe_offset := r.1 |} :: rest.1, rest.2)
  end.

(** The loop over the blocks that are not on disk. *)
Fixpoint place_blocks (blocks : list block_entry) (p : placement) : wres (list block_entry * placement) :=
  match blocks with
  | [] => Ok ([], p)
  | b :: blocks =>
      if be_on_disk b && negb (be_offset b =? 0) then
        rest ← place_blocks blocks p; Ok (b :: rest.1, rest.2)
      else
        r ← amap_place_region (block_span (payload_len b)) BLOCK_ALIGN p;
        rest ← place_blocks blocks r.2;
        Ok ({| be_bid := be_bid b; be_data := be_data b; be_offset := r.1; be_len := be_len b;
               be_on_disk := be_on_disk b |} :: rest.1, rest.2)
  end.

(** One pass over the mandated slots below [file_end]; the loop of
    [calculate_offsets] repeats it while a page was added. *)
Fixpoint ensure_slots (fuel : nat) (amap file_end : Z) (am : amap_book) (bids : bid_alloc)
    : wres (Z * amap_book * bid_alloc) :=
  match fuel with
  | O => NoFuel
  | S fuel =>
      if amap <? file_end then
        r ← amap_ensure_page amap am bids;
        ensure_slots fuel (amap + AMAP_INTERVAL) (Z.max file_end (amap + PAGE_SIZE)) r.1 r.2
      else Ok (file_end, am, bids)
  end.
Definition slot_fuel (file_end : Z) : nat := Z.to_nat (file_end / AMAP_INTERVAL + 2).

Fixpoint ensure_all (fuel : nat) (file_end : Z) (am : amap_book) (bids : bid_alloc)
    : wres (amap_book * bid_alloc) :=
  match fuel with
  | O => NoFuel
  | S fuel =>
      r ← ensure_slots (slot_fuel file_end) AMAP_FIRST_OFFSET file_end am bids;
      let '(file_end, am', bids) := r in
      if zlen (am_pages am) <? zlen (am_pages am') then ensure_all fuel file_end am' bids
      else Ok (am', bids)
  end.

(** [Layout::calculate_offsets] *)
Definition calculate_offsets (ly : layout) : wres layout :=
  let other_pages := base.filter (λ p, pe_ptype p ≠ PTYPE_AMAP) (ly_pages ly) in
  let am := match ly_eager ly with
            | Some e => {| am_pages := am_pages (eg_amap e);
                           am_offsets := am_offsets (eg_amap e) ∪ list_to_set (map pe_offset (am_pages (eg_amap e))) |}
            | None => {| am_pages := []; am_offsets := ∅ |} end in
  pages ← place_pages other_pages
            {| pl_cursor := start_cursor ly; pl_amap := am; pl_bids := ly_bids ly; pl_steps := 0 |};
  blocks ← place_blocks (ly_blocks ly) pages.2;
  let p := blocks.2 in
  let file_end := if pl_cursor p <=? AMAP_FIRST_OFFSET then AMAP_FIRST_OFFSET + PAGE_SIZE else pl_cursor p in
  r ← ensure_all 3 file_end (pl_amap p) (pl_bids p);
  Ok {| ly_nodes := ly_nodes ly; ly_blocks := blocks.1;
        ly_pages := sort_on pe_offset (am_pages r.1) ++ pages.1;
        ly_bids := r.2; next_nid_index := next_nid_index ly; used_nids := used_nids ly;
        ly_eager := match ly_eager ly with
                    | Some e => Some {| eg_file := eg_file e; eg_cursor := eg_cursor e;
                                        eg_amap := {| am_pages := []; am_offsets := ∅ |};
                                        amap_stubs_written := amap_stubs_written e; stubbed_upto := stubbed_upto e;
                                        eg_file_pos := eg_file_pos e; amap_scan_steps := amap_scan_steps e |}
                    | None => None end |}.

(** [Layout::file_size], [Layout::ib_amap_last], [EagerWriteCtx::physical_size] *)
Definition file_size (ly : layout) : Z :=
  foldl (λ m b, Z.max m (be_offset b + block_span (payload_len b)))
    (foldl (λ m p, Z.max m (pe_offset p + PAGE_SIZE)) HEADER_SIZE (ly_pages ly)) (ly_blocks ly).

Definition ib_amap_last (ly : layout) : option Z :=
  foldl (λ m p, if pe_ptype p =? PTYPE_AMAP
                then Some (match m with Some o => Z.max o (pe_offset p) | None => pe_offset p end) else m)
    None (ly_pages ly).

Definition physical_size (e : eager_ctx) : Z := Z.max (zlen (f_bytes (eg_file e))) (eg_cursor e).
