(* ===== verification/LayoutFacts.v ===== *)
(** * Facts about the layout engine

    Fresh block IDs, the placement of regions between the AMap slots, and what
    writing a leaf keeps: the invariant [ly_ok] of the streaming phase and the
    relation [keeps] between an earlier and a later layout. *)

From S2P Require Import Prelude PstError Header Block PropContext WriterHeap Layout.
#[local] Open Scope Z_scope.

(** ** Block IDs *)

(** Every ID in use lies in an earlier group of four than the next counter
    value that starts a group. *)
Record bids_ok (b : bid_alloc) : Prop := {
  bo_next : 16 <= next_bid_counter b;
  bo_used : ∀ x, x ∈ used_bids b → 16 <= x ∧ x / 4 < (next_bid_counter b + 3) / 4 }.

Lemma land_2_testbit x : negb (Z.land x 2 =? 0) = Z.testbit x 1.
Proof.
  replace (Z.land x 2) with (if Z.testbit x 1 then 2 else 0); [by destruct (Z.testbit x 1)|].
  apply Z.bits_inj'. intros n Hn. rewrite Z.land_spec. change 2 with (2 ^ 1).
  rewrite Z.pow2_bits_eqb by lia. destruct (Z.eqb_spec 1 n) as [<-|Hne].
  - rewrite andb_true_r. by destruct (Z.testbit x 1).
  - rewrite andb_false_r. destruct (Z.testbit x 1); [|apply Z.bits_0].
    rewrite Z.pow2_bits_eqb by lia. by apply Z.eqb_neq.
Qed.

Definition bid_of (internal : bool) (c : Z) : Z := if internal then Z.lor c 0x02 else Z.ldiff c 0x02.

Lemma bid_of_group internal c : bid_of internal c / 4 = c / 4.
Proof.
  change 4 with (2 ^ 2). rewrite <-!Z.shiftr_div_pow2 by lia. destruct internal; simpl bid_of.
  - by rewrite Z.shiftr_lor, Z.lor_0_r.
  - by rewrite Z.shiftr_ldiff, Z.ldiff_0_r.
Qed.

Lemma is_internal_bid_of internal c : is_internal (bid_of internal c) = internal.
Proof.
  unfold is_internal. change 0x02 with 2. rewrite land_2_testbit. destruct internal; simpl bid_of.
  - by rewrite Z.lor_spec, orb_true_r.
  - by rewrite Z.ldiff_spec, andb_false_r.
Qed.

(** What a fresh ID is. *)
Record fresh_bid (internal : bool) (b : bid_alloc) (bid : Z) (b' : bid_alloc) : Prop := {
  fb_new : bid ∉ used_bids b;
  fb_used : used_bids b' = {[bid]} ∪ used_bids b;
  fb_internal : is_internal bid = internal;
  fb_ok : bids_ok b';
  fb_next : next_bid_counter b < next_bid_counter b' }.

Lemma alloc_bid_loop_fresh internal b :
  bids_ok b → ∃ bid b', alloc_bid_loop bid_fuel internal b = Ok (bid, b') ∧ fresh_bid internal b bid b'.
Proof.
  intros [Hn Hu]. set (g := (next_bid_counter b + 3) / 4) in *.
  assert (Hfuel : 4 * g < next_bid_counter b + Z.of_nat bid_fuel).
  { pose proof (Z.mul_div_le (next_bid_counter b + 3) 4). unfold bid_fuel. subst g. lia. }
  assert (Hg0 : next_bid_counter b <= 4 * g).
  { pose proof (Z.div_mod (next_bid_counter b + 3) 4). pose proof (Z.mod_pos_bound (next_bid_counter b + 3) 4). subst g. lia. }
  assert (Hrun : ∀ fuel c, 4 * g < c + Z.of_nat fuel → 16 <= c → c <= 4 * g → g <= (c + 3) / 4 →
    ∃ bid b', alloc_bid_loop fuel internal {| used_bids := used_bids b; next_bid_counter := c |} = Ok (bid, b') ∧
      (bid ∉ used_bids b) ∧ used_bids b' = {[bid]} ∪ used_bids b ∧ is_internal bid = internal ∧
      (bids_ok b' ∧ c < next_bid_counter b')).
  { clear Hfuel. induction fuel as [|fuel IH]; intros c Hc Hc16 Hcg Hg; [lia|].
    simpl. fold (bid_of internal c). case_decide as Hin.
    - apply Hu in Hin as [_ Hin]. rewrite bid_of_group in Hin.
      pose proof (Z.div_mod c 4). pose proof (Z.mod_pos_bound c 4).
      destruct (IH (c + 1)) as (bid & b' & H1 & H2 & H3 & H4 & H5 & H6); [lia..| |].
      { etrans; [apply Hg|]. apply Z.div_le_mono; lia. }
      exists bid, b'. split_and!; try done. lia.
    - eexists _, _. split_and!; [done|done|done|apply is_internal_bid_of|split; simpl; [lia|]|simpl; lia].
      intros x [->%elem_of_singleton|Hx]%elem_of_union.
      + split; [|rewrite bid_of_group; replace (c + 1 + 3) with (c + 1 * 4) by lia; rewrite Z.div_add; lia].
        pose proof (bid_of_group internal c). assert (4 <= c / 4) by (apply Z.div_le_lower_bound; lia).
        pose proof (Z.mul_div_le (bid_of internal c) 4). lia.
      + apply Hu in Hx as [? Hx]. split; [done|]. eapply Z.lt_le_trans; [done|]. etrans; [apply Hg|].
        apply Z.div_le_mono; lia. }
  destruct (Hrun bid_fuel (next_bid_counter b)) as (bid & b' & H1 & H2 & H3 & H4 & H5 & H6); [lia|lia|done|done|].
  exists bid, b'. destruct b; simpl in *. split; [done|]. by split.
Qed.

(** ** Alignment and slots *)

Lemma align_up_spec v a : 0 < a → v <= align_up v a < v + a ∧ (a | align_up v a).
Proof.
  intros Ha. unfold align_up. pose proof (Z.div_mod (v + a - 1) a). pose proof (Z.mod_pos_bound (v + a - 1) a).
  split; [|by apply Z.divide_factor_r]. nia.
Qed.

Lemma align_up_divide v a : 0 < a → (a | v) → align_up v a = v.
Proof.
  intros Ha [k ->]. unfold align_up. replace (k * a + a - 1) with (a - 1 + k * a) by lia.
  rewrite Z.div_add, Z.div_small by lia. done.
Qed.

Definition slot (k : Z) : Z := AMAP_FIRST_OFFSET + k * AMAP_INTERVAL.

(** A range without a byte in an AMap slot. *)
Definition clear (a n : Z) : Prop := ∀ k, 0 <= k → apart a n (slot k) PAGE_SIZE.

Lemma is_amap_page_offset_true o : is_amap_page_offset o = true ↔ ∃ k, 0 <= k ∧ o = slot k.
Proof.
  unfold is_amap_page_offset, slot, AMAP_FIRST_OFFSET, AMAP_INTERVAL. destruct (o <? 0x4400) eqn:Ho; bool_to_Z.
  - split; [done|]. intros (k & ? & ->). lia.
  - rewrite Z.eqb_eq. split.
    + intros Hm. exists ((o - 17408) / 253952). pose proof (Z.div_mod (o - 17408) 253952).
      split; [apply Z.div_pos; lia|lia].
    + intros (k & ? & ->). replace (17408 + k * 253952 - 17408) with (k * 253952) by lia. apply Z.mod_mul. lia.
Qed.

(** The next slot from an offset: the least one that is not before it. *)
Lemma next_amap_spec o :
  ∃ k, 0 <= k ∧ next_amap_at_or_after o = slot k ∧ o <= slot k ∧ (0 < k → slot (k - 1) < o).
Proof.
  unfold next_amap_at_or_after, slot, AMAP_FIRST_OFFSET, AMAP_INTERVAL. destruct (o <=? 0x4400) eqn:Ho; bool_to_Z.
  { exists 0. lia. }
  pose proof (Z.div_mod (o - 17408) 253952). pose proof (Z.mod_pos_bound (o - 17408) 253952).
  assert (0 <= (o - 17408) / 253952) by (apply Z.div_pos; lia).
  destruct (_ =? 0) eqn:Hm; bool_to_Z.
  - exists ((o - 17408) / 253952). lia.
  - exists ((o - 17408) / 253952 + 1). lia.
Qed.

(** A position that is not inside a slot. *)
Definition outside (c : Z) : Prop := ∀ k, 0 <= k → c <= slot k ∨ slot k + PAGE_SIZE <= c.

Lemma clear_outside a n : clear a n → outside (a + n) ∨ n <= 0.
Proof.
  intros Hc. destruct (decide (n <= 0)); [by right|left]. intros k Hk. destruct (Hc k Hk); [by left|right]. lia.
Qed.

Lemma slot_divide k : (64 | slot k).
Proof. exists (272 + k * 3968). unfold slot, AMAP_FIRST_OFFSET, AMAP_INTERVAL. lia. Qed.

Lemma align_up_outside c a : 0 < a → (a | 64) → outside c → outside (align_up c a).
Proof.
  intros Ha Hd Ho k Hk. destruct (align_up_spec c a Ha) as [[H1 H2] H3].
  destruct (Ho k Hk) as [Hle|Hge]; [left|right; lia].
  assert (Hs : (a | slot k)) by (eapply Z.divide_trans; [exact Hd|apply slot_divide]).
  destruct Hs as [m Hm]. destruct H3 as [j Hj]. rewrite Hm in *. rewrite Hj in *. assert (j * a < (m + 1) * a) by lia. assert (j < m + 1) by nia. nia.
Qed.

(** ** Registering AMap pages *)

Definition is_map_page (p : page_entry) : Prop :=
  pe_ptype p = PTYPE_AMAP ∧ ∃ k, 0 <= k ∧ pe_offset p = slot k.

(** The book: registered pages are map pages at distinct slots, and the set
    holds their offsets (after a rollback it can hold more). *)
Record amap_ok (am : amap_book) : Prop := {
  ao_pages : Forall is_map_page (am_pages am);
  ao_distinct : NoDup (map pe_offset (am_pages am));
  ao_known : ∀ p, p ∈ am_pages am → pe_offset p ∈ am_offsets am }.

(** The set holds nothing else. *)
Definition amap_complete (am : amap_book) : Prop :=
  ∀ o, o ∈ am_offsets am → o ∈ map pe_offset (am_pages am).

(** From one book and allocator to a later one: some pages were added, under fresh IDs. *)
Record extends (am : amap_book) (b : bid_alloc) (am' : amap_book) (b' : bid_alloc) : Prop := {
  ex_added : ∃ new, am_pages am' = am_pages am ++ new ∧
    used_bids b' = used_bids b ∪ list_to_set (map pe_bid new) ∧
    NoDup (map pe_bid new) ∧ (∀ x, x ∈ map pe_bid new → x ∉ used_bids b) ∧
    am_offsets am' = am_offsets am ∪ list_to_set (map pe_offset new);
  ex_amap : amap_ok am';
  ex_bids : bids_ok b';
  ex_next : next_bid_counter b <= next_bid_counter b' }.

Lemma extends_refl am b : amap_ok am → bids_ok b → extends am b am b.
Proof.
  intros Ha Hb. split; [|done..|lia]. exists []. simpl. rewrite app_nil_r, !union_empty_r_L.
  split_and!; try done; [constructor|set_solver].
Qed.

Lemma extends_trans am b am' b' am'' b'' :
  extends am b am' b' → extends am' b' am'' b'' → extends am b am'' b''.
Proof.
  intros [(n1 & Hp1 & Hu1 & Hn1 & Hd1 & Ho1) _ _ Hx1] [(n2 & Hp2 & Hu2 & Hn2 & Hd2 & Ho2) Ha2 Hb2 Hx2].
  split; [|done..|lia]. exists (n1 ++ n2). rewrite !map_app, !list_to_set_app_L. split_and!.
  - by rewrite Hp2, Hp1, (assoc_L (++)).
  - by rewrite Hu2, Hu1, (assoc_L (∪)).
  - apply NoDup_app. split_and!; [done| |done]. intros x Hx Hx2'. apply Hd2 in Hx2'. rewrite Hu1 in Hx2'. set_solver.
  - intros x [Hx|Hx]%elem_of_app; [auto|]. apply Hd2 in Hx. rewrite Hu1 in Hx. set_solver.
  - by rewrite Ho2, Ho1, (assoc_L (∪)).
Qed.

Lemma extends_complete am b am' b' : extends am b am' b' → amap_complete am → amap_complete am'.
Proof.
  intros [(n & Hp & _ & _ & _ & Ho) _ _ _] Hc o. rewrite Hp, Ho, map_app.
  intros [Hin|Hin]%elem_of_union; [apply Hc in Hin|]; set_solver.
Qed.

Lemma amap_ensure_page_spec k am b :
  0 <= k → amap_ok am → bids_ok b →
  ∃ am' b', amap_ensure_page (slot k) am b = Ok (am', b') ∧ extends am b am' b' ∧ slot k ∈ am_offsets am'.
Proof.
  intros Hk Ha Hb. unfold amap_ensure_page. case_decide as Hin.
  { exists am, b. split_and!; [done|by apply extends_refl|done]. }
  destruct (alloc_bid_loop_fresh true b Hb) as (bid & b' & -> & [Hnew Hused _ Hok Hnext]). rewrite bind_ok.
  eexists _, b'. split_and!; [done| |simpl; set_solver]. destruct Ha as [Hp Hd Hkn]. split; [|split; simpl|done|lia].
  - eexists [_]. simpl. split_and!; [done| | | |].
    + rewrite Hused. set_solver.
    + apply NoDup_singleton.
    + intros x ->%list_elem_of_singleton. done.
    + set_solver.
  - apply Forall_app. split; [done|]. constructor; [|constructor]. split; [done|]. simpl. by exists k.
  - rewrite map_app. apply NoDup_app. split_and!; [done| |apply NoDup_singleton].
    intros o Ho Hs. simpl in Hs. apply list_elem_of_singleton in Hs as ->. apply Hin.
    apply list_elem_of_fmap in Ho as (p & -> & Hpin). auto.
  - intros p [Hpin| ->%list_elem_of_singleton]%elem_of_app; simpl; [apply Hkn in Hpin|]; set_solver.
Qed.

(** ** Placement *)

(** A region fits between two slots. *)
Definition fits (size : Z) : Prop := 0 < size <= AMAP_INTERVAL - 2 * PAGE_SIZE.

Record placed (size align : Z) (p : placement) (off : Z) (p' : placement) : Prop := {
  pd_after : pl_cursor p <= off;
  pd_align : (align | off);
  pd_cursor : pl_cursor p' = off + size;
  pd_clear : clear off size;
  pd_extends : extends (pl_amap p) (pl_bids p) (pl_amap p') (pl_bids p') }.

Lemma slot_align k align : (align | 64) → (align | slot k + PAGE_SIZE).
Proof.
  intros Ha. eapply Z.divide_trans; [exact Ha|].
  exists (280 + k * 3968). unfold slot, AMAP_FIRST_OFFSET, AMAP_INTERVAL, PAGE_SIZE. lia.
Qed.

(** Just behind a slot the loop stops. *)
Lemma place_loop_behind fuel size align p k :
  0 <= k → fits size → pl_cursor p = slot k + PAGE_SIZE →
  ∃ steps, place_loop (S fuel) size align p =
    Ok {| pl_cursor := pl_cursor p; pl_amap := pl_amap p; pl_bids := pl_bids p; pl_steps := steps |} ∧
  clear (pl_cursor p) size.
Proof.
  intros Hk Hf Hc. unfold fits, slot, clear, apart, PAGE_SIZE, AMAP_INTERVAL, AMAP_FIRST_OFFSET in *.
  assert (Hcl : ∀ j, 0 <= j → pl_cursor p + size <= 17408 + j * 253952 ∨ 17408 + j * 253952 + 512 <= pl_cursor p).
  { intros j Hj. destruct (decide (j <= k)); [right; nia|left; nia]. }
  eexists. split; [|intros j Hj; apply Hcl, Hj]. simpl.
  destruct (is_amap_page_offset (pl_cursor p)) eqn:Ha.
  { apply is_amap_page_offset_true in Ha as (j & Hj & He). unfold slot, AMAP_INTERVAL, AMAP_FIRST_OFFSET in He. lia. }
  destruct (next_amap_spec (pl_cursor p)) as (j & Hj & -> & Hle & _).
  unfold slot, AMAP_INTERVAL, AMAP_FIRST_OFFSET, PAGE_SIZE in *.
  rewrite (proj2 (Z.ltb_ge (17408 + j * 253952) _)), andb_false_r; [done|]. pose proof (Hcl j Hj). lia.
Qed.

Lemma place_loop_skip fuel size align p k steps :
  0 <= k → fits size → (align | 64) → 0 < align → amap_ok (pl_amap p) → bids_ok (pl_bids p) →
  pl_cursor p <= slot k + PAGE_SIZE →
  ∃ off p', (q ← skip_amap (slot k) align
       {| pl_cursor := pl_cursor p; pl_amap := pl_amap p; pl_bids := pl_bids p; pl_steps := steps |};
     place_loop (S fuel) size align q) = Ok p' ∧ pl_cursor p' = off ∧ pl_cursor p <= off ∧ (align | off) ∧
     clear off size ∧ extends (pl_amap p) (pl_bids p) (pl_amap p') (pl_bids p').
Proof.
  intros Hk Hf Ha Hpos Hao Hbo Hle. unfold skip_amap. simpl pl_amap. simpl pl_bids.
  destruct (amap_ensure_page_spec k (pl_amap p) (pl_bids p) Hk Hao Hbo) as (am & b & -> & Hex & _).
  rewrite !bind_ok. simpl fst. simpl snd.
  rewrite (align_up_divide _ align Hpos) by (by apply slot_align).
  match goal with |- context [place_loop _ _ _ ?q] => destruct (place_loop_behind fuel size align q k Hk Hf eq_refl) as (st & -> & Hcl) end.
  eexists _, _. split_and!; [done|done|done|by apply slot_align|done|done].
Qed.

Lemma amap_place_region_spec size align p :
  fits size → (align | 64) → 0 < align → outside (pl_cursor p) → amap_ok (pl_amap p) → bids_ok (pl_bids p) →
  ∃ off p', amap_place_region size align p = Ok (off, p') ∧ placed size align p off p'.
Proof.
  intros Hf Ha Hpos Hout Hao Hbo. unfold amap_place_region.
  apply (align_up_outside _ align Hpos Ha) in Hout. pose proof (align_up_spec (pl_cursor p) align Hpos) as [[Hge _] Hdiv].
  set (c := align_up (pl_cursor p) align) in *.
  assert (Hloop : ∃ p', place_loop place_fuel size align
      {| pl_cursor := c; pl_amap := pl_amap p; pl_bids := pl_bids p; pl_steps := pl_steps p |} = Ok p' ∧
      c <= pl_cursor p' ∧ (align | pl_cursor p') ∧ clear (pl_cursor p') size ∧
      extends (pl_amap p) (pl_bids p) (pl_amap p') (pl_bids p')).
  { unfold place_fuel. simpl. destruct (is_amap_page_offset c) eqn:Hslot.
    - apply is_amap_page_offset_true in Hslot as (k & Hk & Hck). rewrite Hck.
      destruct (place_loop_skip 2 size align
        {| pl_cursor := slot k; pl_amap := pl_amap p; pl_bids := pl_bids p; pl_steps := pl_steps p |} k
        (U64_SAT_ADD (pl_steps p) 1)) as (off & p' & Hrun & <- & ? & ? & ? & ?); simpl; try done.
      { unfold PAGE_SIZE. lia. }
      exists p'. by split_and!.
    - destruct (next_amap_spec c) as (k & Hk & Hnext & Hck & Hprev). rewrite Hnext.
      destruct ((c <? slot k + PAGE_SIZE) && (slot k <? c + size)) eqn:Hover.
      + bool_to_Z. rewrite (proj2 (Z.leb_gt _ _)), andb_false_r by lia.
        destruct (place_loop_skip 2 size align
          {| pl_cursor := c; pl_amap := pl_amap p; pl_bids := pl_bids p; pl_steps := pl_steps p |} k
          (U64_SAT_ADD (pl_steps p) 1)) as (off & p' & Hrun & <- & ? & ? & ? & ?); simpl; try done.
        { unfold PAGE_SIZE. lia. }
        exists p'. by split_and!.
      + eexists. split_and!; [done|simpl; lia|done| |simpl; by apply extends_refl].
        intros j Hj. unfold apart. simpl. apply andb_false_iff in Hover.
        assert (is_amap_page_offset c ≠ true) as Hns by congruence. rewrite is_amap_page_offset_true in Hns.
        unfold outside, slot, PAGE_SIZE, AMAP_INTERVAL, AMAP_FIRST_OFFSET, fits in *.
        assert (c ≠ 17408 + k * 253952) by (intros ?; apply Hns; by exists k).
        destruct Hover as [Hover|Hover]; bool_to_Z; [lia|].
        destruct (decide (k <= j)); [left; nia|right]. specialize (Hprev ltac:(lia)). specialize (Hout j Hj). lia. }
  destruct Hloop as (p' & -> & ? & ? & ? & ?). rewrite bind_ok. eexists _, _. split; [done|].
  split; simpl; [lia|done|done|done|done].
Qed.

(** ** Blocks and the staging file *)

Lemma block_span_bounds n : 0 <= n → n + 16 <= block_span n < n + 80.
Proof. intros. unfold block_span. pose proof (align_up_spec n BLOCK_ALIGN). unfold BLOCK_ALIGN in *. lia. Qed.

Lemma block_span_mod n : block_span n mod 64 = 16.
Proof.
  unfold block_span. destruct (align_up_spec n BLOCK_ALIGN) as [_ [k ->]]; [done|]. unfold BLOCK_ALIGN.
  rewrite Z.add_comm, Z.mod_add by lia. done.
Qed.

Lemma block_span_fits n : 0 <= n <= MAX_BLOCK_DATA → fits (block_span n).
Proof.
  intros [? ?]. pose proof (block_span_bounds n). unfold fits, AMAP_INTERVAL, PAGE_SIZE, MAX_BLOCK_DATA in *. lia.
Qed.

Lemma wrap_len (d : list byte) : zlen d <= MAX_BLOCK_DATA → wrap 32 (zlen d) = zlen d.
Proof. intros. pose proof (zlen_nonneg d). apply wrap_small. unfold MAX_BLOCK_DATA in *. lia. Qed.

Lemma page_fits : fits PAGE_SIZE.
Proof. done. Qed.

Section stored.
Context `{Crc : Crc32}.

Lemma zlen_data_block bid data : zlen (data_block bid data) = block_span (zlen data).
Proof.
  unfold data_block, block_span. rewrite !zlen_app, !zlen_le_split, zlen_zeros.
  pose proof (zlen_nonneg data). destruct (align_up_spec (zlen data) BLOCK_ALIGN) as [[? _] _]; [done|]. lia.
Qed.

Lemma zlen_amap_page off bid : zlen (amap_page off bid) = PAGE_SIZE.
Proof. unfold amap_page. by rewrite !zlen_app, !zlen_le_split, zlen_replicate. Qed.

(** The tracked position can be trusted, or it is at the end of a block. *)
Definition pos_ok (f : file_state) (pos : Z) : Prop := f_pos f = pos ∨ pos mod 64 = 16.

Lemma positioned_write_spec f off data pos :
  pos_ok f pos → (64 | off) →
  ∃ f', positioned_write_all f off data pos = (f', off + zlen data) ∧
    f_bytes f' = write_at (f_bytes f) off data ∧ f_pos f' = off + zlen data.
Proof.
  intros Hp [k ->]. unfold positioned_write_all. destruct (pos =? k * 64) eqn:Heq; bool_to_Z.
  - destruct Hp as [<-|Hp].
    + eexists. split; [done|]. simpl. by rewrite Heq.
    + subst pos. rewrite Z.mod_mul in Hp by lia. done.
  - by eexists.
Qed.

(** A change of the file that only touches AMap slots. *)
Definition only_slots (f f' : file_state) : Prop :=
  ∀ a d, clear a (zlen d) → stored (f_bytes f) a d → stored (f_bytes f') a d.

Lemma write_stubs_spec pages e :
  Forall is_map_page pages → pos_ok (eg_file e) (eg_file_pos e) →
  let e' := write_stubs pages e in
  only_slots (eg_file e) (eg_file e') ∧ pos_ok (eg_file e') (eg_file_pos e') ∧
  eg_cursor e' = eg_cursor e ∧ eg_amap e' = eg_amap e.
Proof.
  intros Hp. revert e. induction Hp as [|p pages (_ & k & Hk & Hoff) _ IH]; intros e Hpos; simpl.
  { split_and!; [by intros ?|done..]. }
  case_decide as Hin.
  - match goal with |- context [write_stubs pages ?e0] => destruct (IH e0 Hpos) as (H1 & H2 & H3 & H4) end. by split_and!.
  - rewrite Hoff. destruct (positioned_write_spec (eg_file e) (slot k) (amap_page (slot k) (pe_bid p)) (eg_file_pos e) Hpos
      (slot_divide k)) as (f' & -> & Hb & Hf).
    match goal with |- context [write_stubs pages ?e0] => destruct (IH e0) as (H1 & H2 & H3 & H4); [by left|] end.
    split_and!; [|done..]. intros a d Hc Hs. apply H1; [done|]. simpl. rewrite Hb.
    apply stored_other; [unfold slot, AMAP_FIRST_OFFSET, AMAP_INTERVAL; lia|done|].
    rewrite zlen_amap_page. by apply Hc.
Qed.

(** ** The invariant of the streaming phase *)

(** The payload of a block: in the file with padding and trailer, or in memory. *)
Definition content (e : eager_ctx) (b : block_entry) (payload : list byte) : Prop :=
  zlen payload = be_len b ∧
  if be_on_disk b then stored (f_bytes (eg_file e)) (be_offset b) (data_block (be_bid b) payload)
  else be_data b = payload.

Record block_ok (e : eager_ctx) (b : block_entry) : Prop := {
  bk_len : be_len b <= MAX_BLOCK_DATA;
  bk_disk : be_on_disk b = true →
    HEADER_SIZE <= be_offset b ∧ be_offset b + block_span (be_len b) <= eg_cursor e ∧
    clear (be_offset b) (block_span (be_len b));
  bk_mem : be_on_disk b = false → be_offset b = 0;
  bk_content : ∃ payload, content e b payload }.

(** On-disk blocks lie in the file in the order of the list. *)
Definition in_order (blocks : list block_entry) : Prop :=
  ∀ i j b c, (i < j)%nat → blocks !! i = Some b → blocks !! j = Some c →
    be_on_disk b = true → be_on_disk c = true → be_offset b + block_span (be_len b) <= be_offset c.

Definition ids (ly : layout) (e : eager_ctx) : list Z :=
  map be_bid (ly_blocks ly) ++ map pe_bid (ly_pages ly) ++ map pe_bid (am_pages (eg_amap e)).

Record ly_ok (ly : layout) (e : eager_ctx) : Prop := {
  lo_eager : ly_eager ly = Some e;
  lo_start : HEADER_SIZE <= eg_cursor e;
  lo_cursor : eg_cursor e = HEADER_SIZE ∨ eg_cursor e mod 64 = 16;
  lo_outside : outside (eg_cursor e);
  lo_pos : f_pos (eg_file e) = eg_cursor e;
  lo_file_pos : eg_file_pos e = eg_cursor e ∨ eg_file_pos e mod 64 = 16;
  lo_amap : amap_ok (eg_amap e);
  lo_bids : bids_ok (ly_bids ly);
  lo_distinct : NoDup (ids ly e);
  lo_used : ∀ x, x ∈ ids ly e → x ∈ used_bids (ly_bids ly);
  lo_blocks : Forall (block_ok e) (ly_blocks ly);
  lo_order : in_order (ly_blocks ly);
  lo_pages : Forall (λ p, pe_ptype p ≠ PTYPE_AMAP ∧ pe_offset p = 0) (ly_pages ly);
  lo_nids : NoDup (map ne_nid (ly_nodes ly));
  lo_used_nids : ∀ n, n ∈ ly_nodes ly → ne_nid n ∈ used_nids ly }.

(** What a later layout keeps of an earlier one. *)
Record keeps (ly : layout) (e : eager_ctx) (ly' : layout) (e' : eager_ctx) : Prop := {
  kp_blocks : ly_blocks ly `prefix_of` ly_blocks ly';
  kp_content : ∀ b payload, b ∈ ly_blocks ly → content e b payload → content e' b payload;
  kp_nodes : ly_nodes ly `prefix_of` ly_nodes ly';
  kp_next : next_bid_counter (ly_bids ly) <= next_bid_counter (ly_bids ly');
  kp_cursor : eg_cursor e <= eg_cursor e';
  kp_amap : amap_complete (eg_amap e) → amap_complete (eg_amap e') }.

Lemma keeps_refl ly e : keeps ly e ly e.
Proof. by split. Qed.

Lemma keeps_trans ly e ly' e' ly'' e'' :
  keeps ly e ly' e' → keeps ly' e' ly'' e'' → keeps ly e ly'' e''.
Proof.
  intros [B C N X U A] [B' C' N' X' U' A']. split; [by etrans|..|by etrans|lia|lia|auto].
  intros b payload Hb Hc. apply C'; [|auto]. destruct B as [k ->]. set_solver.
Qed.

(** Adding blocks changes nothing else. *)
Record same_rest (ly ly' : layout) : Prop := {
  sr_nodes : ly_nodes ly' = ly_nodes ly; sr_pages : ly_pages ly' = ly_pages ly;
  sr_nids : used_nids ly' = used_nids ly; sr_index : next_nid_index ly' = next_nid_index ly }.

(** A block with a given ID and payload. *)
Definition has_block (ly : layout) (e : eager_ctx) (bid : Z) (payload : list byte) : Prop :=
  ∃ b, b ∈ ly_blocks ly ∧ be_bid b = bid ∧ content e b payload.

Lemma has_block_keeps ly e ly' e' bid payload :
  keeps ly e ly' e' → has_block ly e bid payload → has_block ly' e' bid payload.
Proof.
  intros [[k B] C _ _ _ _] (b & Hb & He & Hc). exists b. split_and!; [rewrite B; set_solver|done|auto].
Qed.

(** *** Steps that do not touch the file *)

Lemma ly_ok_alloc ly e internal :
  ly_ok ly e → ∃ bid b', alloc_bid ly internal = Ok (bid, set_bids ly b') ∧ fresh_bid internal (ly_bids ly) bid b' ∧
    ly_ok (set_bids ly b') e ∧ keeps ly e (set_bids ly b') e ∧ bid ∉ ids ly e.
Proof.
  intros Hok. destruct (alloc_bid_loop_fresh internal (ly_bids ly) (lo_bids _ _ Hok)) as (bid & b' & Hrun & Hf).
  exists bid, b'. unfold alloc_bid. rewrite Hrun, bind_ok. split_and!; [done|done| | |].
  - destruct Hok; split; try done; simpl; [apply (fb_ok _ _ _ _ Hf)|].
    intros x Hx. rewrite (fb_used _ _ _ _ Hf). apply elem_of_union_r. auto.
  - split; try done; simpl. pose proof (fb_next _ _ _ _ Hf). lia.
  - intros Hin. apply (fb_new _ _ _ _ Hf). by apply (lo_used _ _ Hok).
Qed.

Lemma block_ok_mem bid data e :
  zlen data <= MAX_BLOCK_DATA → block_ok e (be_in_memory bid data) ∧ content e (be_in_memory bid data) data.
Proof.
  intros Hl. pose proof (wrap_len data Hl) as Hw.
  assert (Hc : content e (be_in_memory bid data) data) by (split; [by rewrite <-Hw|done]).
  split; [|done]. split; simpl; [lia|done|done|by exists data].
Qed.

Lemma in_order_snoc blocks b :
  in_order blocks → (be_on_disk b = true → ∀ c, c ∈ blocks → be_on_disk c = true → be_offset c + block_span (be_len c) <= be_offset b) →
  in_order (blocks ++ [b]).
Proof.
  intros Ho Hb i j x y Hij Hx Hy Dx Dy. destruct (decide (j < length blocks)%nat) as [Hj|Hj].
  - rewrite lookup_app_l in Hx, Hy by lia. by apply (Ho i j).
  - rewrite lookup_app_r in Hy by lia. apply list_lookup_singleton_Some in Hy as [Hy <-].
    rewrite lookup_app_l in Hx by lia. apply Hb; [done| |done]. by eapply list_elem_of_lookup_2.
Qed.

Lemma ids_push_block ly e b x : x ∈ ids (push_block ly b) e ↔ x = be_bid b ∨ x ∈ ids ly e.
Proof. unfold ids. simpl. rewrite map_app, !elem_of_app. simpl. rewrite list_elem_of_singleton. tauto. Qed.

Lemma NoDup_ids_push ly e b : NoDup (ids ly e) → be_bid b ∉ ids ly e → NoDup (ids (push_block ly b) e).
Proof.
  intros Hn Hb. unfold ids in *. simpl. rewrite map_app. simpl.
  rewrite <-(assoc_L (++)). simpl. rewrite <-Permutation_middle. by apply NoDup_cons.
Qed.

(** A block in memory is added. *)
Lemma push_mem_ok ly e bid data :
  ly_ok ly e → bid ∉ ids ly e → bid ∈ used_bids (ly_bids ly) → zlen data <= MAX_BLOCK_DATA →
  ly_ok (push_block ly (be_in_memory bid data)) e ∧ keeps ly e (push_block ly (be_in_memory bid data)) e ∧
  has_block (push_block ly (be_in_memory bid data)) e bid data.
Proof.
  intros Hok Hfresh Hused Hl. destruct (block_ok_mem bid data e Hl) as [Hb Hc]. split_and!.
  - destruct Hok; split; try done; simpl.
    + by apply NoDup_ids_push.
    + intros x [->|Hx]%ids_push_block; [done|]. auto.
    + apply Forall_app. split; [done|]. by constructor.
    + apply in_order_snoc; [done|]. done.
  - split; try done; simpl. by eexists.
  - exists (be_in_memory bid data). split_and!; [simpl; set_solver|done|done].
Qed.

(** *** A leaf written to the file *)

Lemma place_and_write_spec bids e bid payload :
  zlen payload <= MAX_BLOCK_DATA → outside (eg_cursor e) → pos_ok (eg_file e) (eg_file_pos e) →
  amap_ok (eg_amap e) → bids_ok bids → 0 <= eg_cursor e →
  ∃ off bids' e', place_and_write_block bids e bid payload = Ok (off, bids', e') ∧
    eg_cursor e <= off ∧ (64 | off) ∧ eg_cursor e' = off + block_span (zlen payload) ∧
    clear off (block_span (zlen payload)) ∧ extends (eg_amap e) bids (eg_amap e') bids' ∧
    stored (f_bytes (eg_file e')) off (data_block bid payload) ∧
    (∀ a d, clear a (zlen d) → a + zlen d <= eg_cursor e → stored (f_bytes (eg_file e)) a d →
       stored (f_bytes (eg_file e')) a d) ∧
    f_pos (eg_file e') = eg_cursor e' ∧ eg_file_pos e' = eg_cursor e'.
Proof.
  intros Hlen Hout Hpos Ham Hb Hc. pose proof (zlen_nonneg payload). unfold place_and_write_block.
  destruct (amap_place_region_spec (block_span (zlen payload)) BLOCK_ALIGN
    {| pl_cursor := eg_cursor e; pl_amap := eg_amap e; pl_bids := bids; pl_steps := amap_scan_steps e |})
    as (off & p & -> & [Hafter Halign Hcur Hclear Hext]); simpl; try done.
  { apply block_span_fits. lia. }
  simpl in Hafter, Hext.
  match goal with |- context [write_stubs ?ps ?e0] =>
    destruct (write_stubs_spec ps e0) as (Hslots & Hpos' & Hcur' & Ham'); [|done|]; [|set (e1 := write_stubs ps e0) in *] end.
  { apply Forall_drop. apply (ao_pages _ (ex_amap _ _ _ _ Hext)). }
  simpl in Hslots, Hcur', Ham'.
  destruct (positioned_write_spec (eg_file e1) off (data_block bid payload) (eg_file_pos e1) Hpos' Halign)
    as (f & -> & Hf & Hfp).
  assert (0 <= off) by lia.
  eexists off, (pl_bids p), _. split; [done|]. simpl. rewrite Hcur', Ham', zlen_data_block in *.
  split_and!; try (done || lia).
  - rewrite Hf. by apply stored_write_at.
  - intros a d Hcl Had Hs. rewrite Hf. apply stored_other; [done|by apply Hslots|]. left. lia.
Qed.

Lemma content_keeps e e' b payload :
  block_ok e b → content e b payload →
  (∀ a d, clear a (zlen d) → a + zlen d <= eg_cursor e → stored (f_bytes (eg_file e)) a d →
       stored (f_bytes (eg_file e')) a d) →
  content e' b payload.
Proof.
  intros [Hl Hd _ _] [Hz Hc] Hkeep. split; [done|]. destruct (be_on_disk b) eqn:Hdisk; [|done].
  destruct (Hd eq_refl) as (? & ? & ?). apply Hkeep; rewrite ?zlen_data_block, ?Hz; done.
Qed.

(** The invariant for a leaf that was written, given where it was put. *)
Lemma block_ok_grow e e' b :
  block_ok e b → eg_cursor e <= eg_cursor e' →
  (∀ payload, content e b payload → content e' b payload) → block_ok e' b.
Proof.
  intros [Hl Hd Hm (payload & Hc)] Hcur Hkeep. split; [done| |done|by eauto].
  intros Hdisk. destruct (Hd Hdisk) as (? & ? & ?). split_and!; [done|lia|done].
Qed.

Lemma ids_extends ly e b' e' bids' :
  extends (eg_amap e) (ly_bids ly) (eg_amap e') bids' →
  NoDup (ids ly e) → (∀ x, x ∈ ids ly e → x ∈ used_bids (ly_bids ly)) →
  NoDup (ids (set_bids ly b') e') ∧ (∀ x, x ∈ ids (set_bids ly b') e' → x ∈ used_bids bids').
Proof.
  intros [(new & Hp & Hu & Hn & Hd & _) _ _ _] Hnd Hused. unfold ids in *. simpl. rewrite Hp, map_app.
  rewrite !(assoc_L (++)), <-(assoc_L (++) (map be_bid (ly_blocks ly))). rewrite Hu. split.
  - apply NoDup_app. split_and!; [done| |done]. intros x Hx Hin. apply Hd in Hin. by apply Hused in Hx.
  - intros x [Hx|Hx]%elem_of_app; [apply Hused in Hx|]; set_solver.
Qed.

Lemma place_and_write_ok ly e bid payload :
  ly_ok ly e → bid ∉ ids ly e → bid ∈ used_bids (ly_bids ly) → zlen payload <= MAX_BLOCK_DATA →
  ∃ ly' e', push_leaf_block ly bid payload = Ok ly' ∧ ly_ok ly' e' ∧ keeps ly e ly' e' ∧
    has_block ly' e' bid payload ∧ same_rest ly ly' ∧
    (∃ b, ly_blocks ly' = ly_blocks ly ++ [b] ∧ be_bid b = bid) ∧
    extends (eg_amap e) (ly_bids ly) (eg_amap e') (ly_bids ly').
Proof.
  intros Hok Hfresh Hin Hlen. pose proof Hok as [Heag Hst Hcu Hout Hpos Hfpos Ham Hbids Hdis Hused Hbl Hord Hpg Hnid Hun].
  pose proof (zlen_nonneg payload). unfold push_leaf_block. rewrite Heag.
  destruct (place_and_write_spec (ly_bids ly) e bid payload) as
    (off & bids' & e' & -> & Hafter & Halign & Hcur & Hclear & Hext & Hstored & Hkeep & Hp1 & Hp2); try done.
  { destruct Hfpos as [->|?]; [by left|by right]. }
  { unfold HEADER_SIZE in Hst. lia. }
  rewrite bind_ok. pose proof (block_span_bounds (zlen payload)) as Hspan.
  pose proof (wrap_len payload Hlen) as Hw.
  set (b := be_written bid off (wrap 32 (zlen payload))).
  assert (Hcb : content e' b payload) by (split; simpl; [by rewrite Hw|done]).
  assert (Hold : ∀ c pl, c ∈ ly_blocks ly → content e c pl → content e' c pl).
  { intros c pl Hc Hcc. rewrite Forall_forall in Hbl. by apply (content_keeps e); auto. }
  destruct (ids_extends ly e bids' e' bids' Hext Hdis Hused) as [Hd' Hu'].
  assert (Hfresh' : bid ∉ ids (set_bids ly bids') e').
  { destruct Hext as [(new & Hp & _ & _ & Hd & _) _ _ _]. unfold ids in *. simpl. rewrite Hp, map_app.
    rewrite !not_elem_of_app in *. destruct Hfresh as (?&?&?). split_and!; [done..|]. intros Hx. by apply Hd in Hx. }
  eexists _, e'. split_and!; [done| | |exists b; split_and!; [simpl; set_solver|done|done]|done|by exists b|done].
  - split; simpl; try done.
    + lia.
    + right. rewrite Hcur, Z.add_mod, block_span_mod by lia. destruct Halign as [k ->]. by rewrite Z.mod_mul by lia.
    + rewrite Hcur. destruct (clear_outside _ _ Hclear) as [?|?]; [done|lia].
    + by left.
    + by destruct Hext.
    + by destruct Hext.
    + apply (NoDup_ids_push (set_bids ly bids') e' b); [done|done].
    + intros x. rewrite (ids_push_block (set_bids ly bids') e' b). intros [->|Hx]; [|auto].
      destruct Hext as [(new & _ & -> & _) _ _ _]. simpl. set_solver.
    + apply Forall_app. split.
      * rewrite Forall_forall in Hbl |- *. intros c Hc. apply (block_ok_grow e); [auto|lia|auto].
      * constructor; [|constructor]. split; simpl; rewrite ?Hw; [done| |done|by exists payload].
        intros _. split_and!; [lia|lia|done].
    + apply in_order_snoc; [done|]. intros _ c Hc Hdc. rewrite Forall_forall in Hbl.
      destruct (bk_disk _ _ (Hbl c Hc) Hdc) as (? & ? & ?). simpl. lia.
  - split; simpl; try done.
    + by eexists.
    + by destruct Hext.
    + lia.
    + intros Hcomp. by apply (extends_complete _ _ _ _ Hext).
Qed.
End stored.
