(* ===== verification/DataChain.v ===== *)
(** * Data chains, row matrices and subnode leaves (pst-writer/src/production.rs)

    A value of up to one block is one leaf; larger values are chains of leaves
    under an XBLOCK, or under an XXBLOCK of XBLOCKs.  A chain can be written from a
    reader, and is then undone when the reader fails, but for the book of AMap slots. *)

From S2P Require Import Prelude PstError Header PropContext WriterHeap Layout.
#[local] Open Scope Z_scope.

Definition MAX_XBLOCK_ENTRIES : Z := (MAX_BLOCK_DATA - 8) / 8.
Definition STREAM_CHUNK_SIZE : Z := MAX_BLOCK_DATA.
Definition I32_MAX : Z := 2 ^ 31 - 1.

(** [l.chunks(n)]; [length l] rounds are enough for [n > 0]. *)
Fixpoint chunks_fuel {A} (fuel : nat) (n : Z) (l : list A) : list (list A) :=
  match fuel, l with
  | S fuel, _ :: _ => sub l 0 n :: chunks_fuel fuel n (drop (Z.to_nat n) l)
  | _, _ => []
  end.
Definition chunks {A} (n : Z) (l : list A) : list (list A) := chunks_fuel (length l) n l.

(** The payload of an XBLOCK (level 1) or XXBLOCK (level 2). *)
Definition xblock_payload (level : Z) (bids : list Z) (lcb_total : Z) : list byte :=
  [Byte.x01; byte.of_Z level] ++ le_split 2 (wrap 16 (zlen bids)) ++ le_split 4 lcb_total ++
  (bid ← bids; le_split 8 bid).

Definition sum_len (chunks : list (Z * Z)) : Z := foldr (λ c s, c.2 + s) 0 chunks.

(** [Layout::build_xblock], [Layout::build_xxblock] *)
Definition build_xblock (ly : layout) (chunks : list (Z * Z)) : wres (Z * layout) :=
  let payload := xblock_payload 1 (map fst chunks) (wrap 32 (sum_len chunks)) in
  r ← alloc_bid ly true;
  Ok (r.1, push_block r.2 (be_in_memory r.1 payload)).
Definition build_xxblock (ly : layout) (xblock_bids : list Z) (total_len : Z) : wres (Z * layout) :=
  let payload := xblock_payload 2 xblock_bids total_len in
  r ← alloc_bid ly true;
  Ok (r.1, push_block r.2 (be_in_memory r.1 payload)).

(** One XBLOCK per group of chunks. *)
Fixpoint build_xblocks (ly : layout) (groups : list (list (Z * Z))) : wres (list Z * layout) :=
  match groups with
  | [] => Ok ([], ly)
  | group :: groups =>
      r ← build_xblock ly group;
      rest ← build_xblocks r.2 groups;
      Ok (r.1 :: rest.1, rest.2)
  end.

(** The end of the three chain writers: the tree above more than one leaf. *)
Definition build_chain_root (ly : layout) (data_chunks : list (Z * Z)) (total : Z) : wres (Z * layout) :=
  if zlen data_chunks <=? MAX_XBLOCK_ENTRIES then build_xblock ly data_chunks
  else
    r ← build_xblocks ly (chunks MAX_XBLOCK_ENTRIES data_chunks);
    if MAX_XBLOCK_ENTRIES <? zlen r.1 then Err (AllocationFailed (zlen r.1))
    else build_xxblock r.2 r.1 (wrap 32 total).

Section chains.
Context `{Crc : Crc32}.

(** One leaf: a fresh external block ID and the block. *)
Definition push_leaf (ly : layout) (data : list byte) : wres (Z * layout) :=
  r ← alloc_bid ly false;
  ly ← push_leaf_block r.2 r.1 data;
  Ok (r.1, ly).

Fixpoint push_leaves (ly : layout) (pieces : list (list byte)) : wres (list (Z * Z) * layout) :=
  match pieces with
  | [] => Ok ([], ly)
  | piece :: pieces =>
      r ← push_leaf ly piece;
      rest ← push_leaves r.2 pieces;
      Ok ((r.1, wrap 32 (zlen piece)) :: rest.1, rest.2)
  end.

(** [Layout::write_data_chain] *)
Definition write_data_chain (ly : layout) (data : list byte) : wres (Z * layout) :=
  if zlen data =? 0 then Ok (0, ly)
  else if I32_MAX <? zlen data then Err (BodyTooLarge (zlen data))
  else if zlen data <=? MAX_BLOCK_DATA then push_leaf ly data
  else
    r ← push_leaves ly (chunks MAX_BLOCK_DATA data);
    build_chain_root r.2 r.1 (zlen data).

(** ** Chains from a reader *)

(** What one call of [read] finds: bytes, the end, an interruption, an error. *)
Inductive read_event := ReadData (bytes : list byte) | ReadEnd | ReadInterrupted | ReadFailed (code : Z).

(** The reader: the results of the coming calls.  A call returns at most as many
    bytes as the buffer holds and keeps the others; behind the last event is the end. *)
Definition source := list read_event.

Definition read_call (s : source) (room : Z) : read_event * source :=
  match s with
  | [] => (ReadEnd, [])
  | ReadData bytes :: s =>
      if zlen bytes <=? room then (ReadData bytes, s)
      else (ReadData (sub bytes 0 room), ReadData (sub bytes room (zlen bytes)) :: s)
  | ev :: s => (ev, s)
  end.

(** The inner loop: fill the buffer.  [Ok(0)] ends it, whether it is the end of
    the stream or an empty read. *)
Fixpoint fill_buffer (fuel : nat) (buf : list byte) (s : source) : wres (list byte * source) :=
  match fuel with
  | O => NoFuel
  | S fuel =>
      if zlen buf <? STREAM_CHUNK_SIZE then
        match read_call s (STREAM_CHUNK_SIZE - zlen buf) with
        | (ReadData bytes, s) => if zlen bytes =? 0 then Ok (buf, s) else fill_buffer fuel (buf ++ bytes) s
        | (ReadEnd, s) => Ok (buf, s)
        | (ReadInterrupted, s) => fill_buffer fuel buf s
        | (ReadFailed code, _) => Err (StreamIo code)
        end
      else Ok (buf, s)
  end.

(** Each call takes an event, or fills the buffer. *)
Definition fill_fuel (s : source) : nat := S (S (length s)).

(** A run on the layout that keeps it when it fails, as [&mut self] does. *)
Definition step_result (A : Type) : Type := wres A * layout.

(** The outer loop of [write_data_chain_from_reader_inner]. *)
Fixpoint stream_chunks (fuel : nat) (ly : layout) (s : source) (acc : list (Z * Z)) (total : Z)
    : step_result (list (Z * Z) * Z) :=
  match fuel with
  | O => (NoFuel, ly)
  | S fuel =>
      match fill_buffer (fill_fuel s) [] s with
      | Ok (buf, s) =>
          if zlen buf =? 0 then (Ok (acc, total), ly)
          else
            let total := U64_SAT_ADD total (zlen buf) in
            if I32_MAX <? total then (Err (BodyTooLarge total), ly)
            else
              match push_leaf ly buf with
              | Ok (bid, ly) =>
                  let acc := acc ++ [(bid, wrap 32 (zlen buf))] in
                  if zlen buf <? STREAM_CHUNK_SIZE then (Ok (acc, total), ly)
                  else stream_chunks fuel ly s acc total
              | Err e => (Err e, ly) | Panic => (Panic, ly) | NoFuel => (NoFuel, ly)
              end
      | Err e => (Err e, ly) | Panic => (Panic, ly) | NoFuel => (NoFuel, ly)
      end
  end.

(** The bytes the source can deliver; a full buffer takes 8176 of them. *)
Definition source_bytes (s : source) : list byte :=
  ev ← s; match ev with ReadData bytes => bytes | _ => [] end.
Definition stream_fuel (s : source) : nat := S (S (length (source_bytes s))).

(** [write_data_chain_from_reader_inner]; building the tree fails only after
    every XBLOCK is built, so the layout with the XBLOCKs is what an error leaves. *)
Definition write_data_chain_from_reader_inner (ly : layout) (s : source) : step_result (Z * Z) :=
  match stream_chunks (stream_fuel s) ly s [] 0 with
  | (Ok (acc, total), ly) =>
      match acc with
      | [] => (Ok (0, 0), ly)
      | [c] => (Ok (c.1, total), ly)
      | _ =>
          match build_chain_root ly acc total with
          | Ok (bid, ly) => (Ok (bid, total), ly)
          | Err e =>
              (Err e, match build_xblocks ly (chunks MAX_XBLOCK_ENTRIES acc) with Ok r => r.2 | _ => ly end)
          | Panic => (Panic, ly) | NoFuel => (NoFuel, ly)
          end
      end
  | (Err e, ly) => (Err e, ly) | (Panic, ly) => (Panic, ly) | (NoFuel, ly) => (NoFuel, ly)
  end.

(** [StreamChainCheckpoint], [stream_chain_checkpoint] *)
Record checkpoint := {
  cp_blocks_len : nat; cp_next_bid : Z; cp_cursor : option Z; cp_amap_len : option nat }.
Definition stream_chain_checkpoint (ly : layout) : checkpoint :=
  {| cp_blocks_len := length (ly_blocks ly); cp_next_bid := next_bid_counter (ly_bids ly);
     cp_cursor := eg_cursor <$> ly_eager ly;
     cp_amap_len := (λ e, length (am_pages (eg_amap e))) <$> ly_eager ly |}.

(** [rollback_stream_chain] on the eager writer.  The offsets of the dropped AMap
    pages stay in [am_offsets] and the watermark stays where it was. *)
Definition rollback_eager (e : eager_ctx) (cp : checkpoint) : eager_ctx :=
  let '(f, cursor) := match cp_cursor cp with
                      | Some c => (f_seek (f_set_len (eg_file e) c) c, c)
                      | None => (eg_file e, eg_cursor e) end in
  let '(pages, stubs) := match cp_amap_len cp with
                         | Some n => (take n (am_pages (eg_amap e)),
                                      amap_stubs_written e ∖ list_to_set (map pe_offset (drop n (am_pages (eg_amap e)))))
                         | None => (am_pages (eg_amap e), amap_stubs_written e) end in
  {| eg_file := f; eg_cursor := cursor; eg_amap := {| am_pages := pages; am_offsets := am_offsets (eg_amap e) |};
     amap_stubs_written := stubs; stubbed_upto := stubbed_upto e; eg_file_pos := eg_file_pos e;
     amap_scan_steps := amap_scan_steps e |}.

(** The block IDs that a rollback frees: dropped blocks and dropped AMap pages. *)
Definition dropped_bids (ly : layout) (cp : checkpoint) : gset Z :=
  list_to_set (map be_bid (drop (cp_blocks_len cp) (ly_blocks ly))) ∪
  match ly_eager ly, cp_amap_len cp with
  | Some e, Some n => list_to_set (map pe_bid (drop n (am_pages (eg_amap e))))
  | _, _ => ∅ end.

(** [rollback_stream_chain] *)
Definition rollback_stream_chain (ly : layout) (cp : checkpoint) : layout :=
  {| ly_nodes := ly_nodes ly; ly_blocks := take (cp_blocks_len cp) (ly_blocks ly); ly_pages := ly_pages ly;
     ly_bids := {| used_bids := used_bids (ly_bids ly) ∖ dropped_bids ly cp; next_bid_counter := cp_next_bid cp |};
     next_nid_index := next_nid_index ly; used_nids := used_nids ly;
     ly_eager := (λ e, rollback_eager e cp) <$> ly_eager ly |}.

(** [write_data_chain_from_reader] *)
Definition write_data_chain_from_reader (ly : layout) (s : source) : step_result (Z * Z) :=
  let cp := stream_chain_checkpoint ly in
  match write_data_chain_from_reader_inner ly s with
  | (Err e, ly) => (Err e, rollback_stream_chain ly cp)
  | r => r
  end.

(** ** Nodes, row matrices, subnode leaves *)

(** [Layout::add_node_data] *)
Definition add_node_data (ly : layout) (nid : Z) (data : list byte) (nid_parent sub_bid : Z) : wres (Z * layout) :=
  r ← write_data_chain ly data;
  if decide (nid ∈ used_nids r.2) then Err (DuplicateNodeId nid)
  else Ok (r.1, push_node r.2 {| ne_nid := nid; ne_bid_data := r.1; ne_bid_sub := sub_bid; ne_nid_parent := nid_parent |}).

(** The pieces of a row matrix: whole rows per block, all but the last padded. *)
Fixpoint pad_pieces (pieces : list (list byte)) : list (list byte) :=
  match pieces with
  | [] => []
  | [piece] => [piece]
  | piece :: pieces => (piece ++ zeros (MAX_BLOCK_DATA - zlen piece)) :: pad_pieces pieces
  end.

(** [Layout::write_row_matrix_tree] *)
Definition write_row_matrix_tree (ly : layout) (row_matrix : list byte) (row_width : Z) : wres (Z * Z * layout) :=
  if zlen row_matrix =? 0 then Ok (0, 0, ly)
  else if row_width =? 0 then Err RowWidthZero
  else if negb (zlen row_matrix mod row_width =? 0) then Err (RowMatrixRagged (zlen row_matrix) row_width)
  else
    let rows_per_block := MAX_BLOCK_DATA / row_width in
    if rows_per_block =? 0 then Err (RowTooWide row_width)
    else
      r ← push_leaves ly (pad_pieces (chunks (rows_per_block * row_width) row_matrix));
      let total := sum_len r.1 in
      match r.1 with
      | [c] => Ok (c.1, total, r.2)
      | _ => root ← build_chain_root r.2 r.1 total; Ok (root.1, total, root.2)
      end.

(** The payload of an SLBLOCK. *)
Definition slblock_payload (entries : list (Z * Z * Z)) : list byte :=
  [Byte.x02; Byte.x00] ++ le_split 2 (wrap 16 (zlen entries)) ++ le_split 4 0 ++
  (e ← entries; le_split 8 e.1.1 ++ le_split 8 e.1.2 ++ le_split 8 e.2).

(** The first of two equal neighbours. *)
Fixpoint first_repeat (l : list Z) : option Z :=
  match l with
  | x :: (y :: _) as l' => if x =? y then Some x else first_repeat l'
  | _ => None
  end.

(** [Layout::add_subnode_leaf] *)
Definition add_subnode_leaf (ly : layout) (entries : list (Z * Z * Z)) : wres (Z * layout) :=
  let sorted := sort_on (λ e, e.1.1) entries in
  match first_repeat (map (λ e, e.1.1) sorted) with
  | Some nid => Err (DuplicateSlEntry nid)
  | None =>
      let payload := slblock_payload sorted in
      if MAX_BLOCK_DATA <? zlen payload then Err (SlBlockFull (zlen sorted))
      else
        r ← alloc_bid ly true;
        Ok (r.1, push_block r.2 (be_in_memory r.1 payload))
  end.
End chains.
