(* ===== verification/DataChainFacts.v ===== *)
(** * What the chain writers build

    A written value is a [data_tree]: a leaf, an XBLOCK over leaves or an XXBLOCK
    over XBLOCKs, each block of which the layout holds.  Writing a value keeps the
    invariant and all blocks of the layout; writing it from a reader gives the same
    tree, or undoes what it wrote. *)

From S2P Require Import Prelude PstError Header Block PropContext WriterHeap Layout LayoutFacts DataChain.
#[local] Open Scope Z_scope.

(** ** Chunks *)

Section chunks.
Context {A : Type} (n : Z) (Hn : 0 < n).

Lemma chunks_fuel_spec fuel (l : list A) :
  (length l <= fuel)%nat →
  concat (chunks_fuel fuel n l) = l ∧
  Forall (λ c, 0 < zlen c <= n) (chunks_fuel fuel n l) ∧
  zlen (chunks_fuel fuel n l) = (zlen l + n - 1) / n.
Proof using Hn.
  revert l. induction fuel as [|fuel IH]; intros [|x l] Hf; simpl in *; try (exfalso; simpl in Hf; lia).
  1-2: split_and!; [done|constructor|by rewrite Z.div_small by (unfold zlen; simpl; lia)].
  set (m := x :: l) in *. assert (Hm : zlen m = 1 + zlen l) by (unfold m; apply zlen_cons).
  pose proof (zlen_nonneg l) as Hl.
  assert (Hd : (length (drop (Z.to_nat n) m) <= fuel)%nat).
  { rewrite length_drop. unfold m in *. simpl length. lia. }
  destruct (IH _ Hd) as (H1 & H2 & H3). split_and!.
  - rewrite H1. unfold sub. change (Z.to_nat 0) with 0%nat. rewrite drop_0. apply take_drop.
  - constructor; [|done]. rewrite zlen_sub_any by lia. lia.
  - rewrite zlen_cons, H3. assert (Hz : zlen (drop (Z.to_nat n) m) = Z.max 0 (zlen m - n)).
    { unfold zlen. rewrite length_drop. lia. }
    rewrite Hz. destruct (decide (zlen m <= n)).
    + rewrite Z.max_l by lia. rewrite (Z.div_small (0 + n - 1)) by lia.
      rewrite <-(Z.div_unique (zlen m + n - 1) n 1 (zlen m - 1)); lia.
    + rewrite Z.max_r by lia. replace (zlen m + n - 1) with (zlen m - n + n - 1 + 1 * n) by lia.
      rewrite Z.div_add; lia.
Qed.

Lemma concat_chunks (l : list A) : concat (chunks n l) = l.
Proof using Hn. by apply chunks_fuel_spec. Qed.
Lemma chunks_bounds (l : list A) : Forall (λ c, 0 < zlen c <= n) (chunks n l).
Proof using Hn. by apply chunks_fuel_spec. Qed.
Lemma zlen_chunks (l : list A) : zlen (chunks n l) = (zlen l + n - 1) / n.
Proof using Hn. by apply chunks_fuel_spec. Qed.

Lemma chunks_fuel_eq fuel (l : list A) : (length l <= fuel)%nat → chunks_fuel fuel n l = chunks n l.
Proof using Hn.
  unfold chunks. enough (H : ∀ f g (l : list A), (length l <= f)%nat → (length l <= g)%nat → chunks_fuel f n l = chunks_fuel g n l) by (intros; by apply H).
  clear fuel l. induction f as [|f IH]; intros [|g] [|x l] Hf Hg; simpl in *; try done; try lia.
  f_equal. apply IH; rewrite length_drop; simpl; lia.
Qed.

Lemma Forall2_chunks_fuel {C} (R : A → C → Prop) fuel l k :
  Forall2 R l k → Forall2 (Forall2 R) (chunks_fuel fuel n l) (chunks_fuel fuel n k).
Proof using Type.
  revert l k. induction fuel as [|fuel IH]; intros l k H; [constructor|].
  destruct H as [|x y l k Hxy H]; [constructor|]. cbn [chunks_fuel]. constructor.
  - unfold sub. apply Forall2_take, Forall2_drop. by constructor.
  - apply IH, Forall2_drop. by constructor.
Qed.

Lemma Forall2_chunks {C} (R : A → C → Prop) l k :
  Forall2 R l k → Forall2 (Forall2 R) (chunks n l) (chunks n k).
Proof using Type. intros H. unfold chunks. rewrite (Forall2_length _ _ _ H). by apply Forall2_chunks_fuel. Qed.

(** One chunk and the rest. *)
Lemma chunks_step (l : list A) : l ≠ [] → chunks n l = sub l 0 n :: chunks n (drop (Z.to_nat n) l).
Proof using Hn.
  intros Hl. destruct l as [|x l]; [done|]. unfold chunks at 1. simpl length. cbn [chunks_fuel]. f_equal.
  apply chunks_fuel_eq. rewrite length_drop. simpl. lia.
Qed.
End chunks.

(** ** Trees of blocks *)

Section trees.
Context (B : Z → list byte → Prop).

Definition leaf (bid : Z) (d : list byte) : Prop :=
  is_internal bid = false ∧ bid ≠ 0 ∧ zlen d <= MAX_BLOCK_DATA ∧ B bid d.

Definition xnode (bid : Z) (d : list byte) : Prop :=
  ∃ bids pieces, is_internal bid = true ∧ Forall2 leaf bids pieces ∧ d = concat pieces ∧
    zlen bids <= MAX_XBLOCK_ENTRIES ∧ B bid (xblock_payload 1 bids (zlen d)).

Definition xxnode (bid : Z) (d : list byte) : Prop :=
  ∃ bids pieces, is_internal bid = true ∧ Forall2 xnode bids pieces ∧ d = concat pieces ∧
    zlen bids <= MAX_XBLOCK_ENTRIES ∧ NoDup (bid :: bids) ∧ B bid (xblock_payload 2 bids (zlen d)).

(** The tree at a root block ID, and the value it stands for. *)
Inductive data_tree : Z → list byte → Prop :=
| tree_null : data_tree 0 []
| tree_leaf bid d : leaf bid d → data_tree bid d
| tree_x bid d : xnode bid d → data_tree bid d
| tree_xx bid d : xxnode bid d → data_tree bid d.
End trees.

Section trees_mono.
Context (B C : Z → list byte → Prop) (HBC : ∀ bid d, B bid d → C bid d).

Lemma leaf_mono bid d : leaf B bid d → leaf C bid d.
Proof using HBC. intros (?&?&?&?). split_and!; auto. Qed.
Lemma xnode_mono bid d : xnode B bid d → xnode C bid d.
Proof using HBC.
  intros (bids & ps & ? & Hf & ? & ? & ?). exists bids, ps. split_and!; auto.
  eapply Forall2_impl; [exact Hf|]. apply leaf_mono.
Qed.
Lemma data_tree_mono bid d : data_tree B bid d → data_tree C bid d.
Proof using HBC.
  intros [|?? H|?? H|?? H]; [constructor|by apply tree_leaf, leaf_mono|by apply tree_x, xnode_mono|].
  apply tree_xx. destruct H as (bids & ps & ? & Hf & ? & ? & ? & ?). exists bids, ps. split_and!; auto.
  eapply Forall2_impl; [exact Hf|]. apply xnode_mono.
Qed.
End trees_mono.

Section writes.
Context `{Crc : Crc32}.

(** The IDs that were taken are those of the new blocks and AMap pages, and the
    slots that the book knows more are those of the new pages. *)
Definition exact (ly : layout) (e : eager_ctx) (ly' : layout) (e' : eager_ctx) : Prop :=
  ∃ nb np, ly_blocks ly' = ly_blocks ly ++ nb ∧ am_pages (eg_amap e') = am_pages (eg_amap e) ++ np ∧
    used_bids (ly_bids ly') = used_bids (ly_bids ly) ∪ list_to_set (map be_bid nb ++ map pe_bid np) ∧
    (∀ x, x ∈ map be_bid nb ++ map pe_bid np → x ∉ used_bids (ly_bids ly)) ∧
    am_offsets (eg_amap e') = am_offsets (eg_amap e) ∪ list_to_set (map pe_offset np).

Lemma exact_refl ly e : exact ly e ly e.
Proof. exists [], []. rewrite !app_nil_r. split_and!; [done..|set_solver|set_solver|simpl; by rewrite union_empty_r_L]. Qed.

Lemma exact_trans ly e ly' e' ly'' e'' : exact ly e ly' e' → exact ly' e' ly'' e'' → exact ly e ly'' e''.
Proof.
  intros (nb & np & H1 & H2 & H3 & H4 & H5) (nb' & np' & H1' & H2' & H3' & H4' & H5'). exists (nb ++ nb'), (np ++ np').
  rewrite H1', H1, H2', H2, H3', H3, H5', H5, !map_app, !(assoc_L (++)). split_and!; [done..| | |by rewrite list_to_set_app_L, (assoc_L (∪))].
  - rewrite !list_to_set_app_L. set_solver.
  - rewrite H3 in H4'. intros x Hx Hin. specialize (H4 x). specialize (H4' x).
    rewrite !elem_of_app in Hx. rewrite elem_of_app in H4. rewrite elem_of_app in H4'.
    pose proof (elem_of_union_l x _ (list_to_set (map be_bid nb ++ map pe_bid np)) Hin). tauto.
Qed.

(** A step of the writer that adds blocks only. *)
Record grows (ly : layout) (e : eager_ctx) (ly' : layout) (e' : eager_ctx) : Prop := {
  gr_ok : ly_ok ly' e';
  gr_keeps : keeps ly e ly' e';
  gr_rest : same_rest ly ly';
  gr_exact : exact ly e ly' e' }.

Lemma grows_refl ly e : ly_ok ly e → grows ly e ly e.
Proof. intros. split; [done|apply keeps_refl|done|apply exact_refl]. Qed.

Lemma grows_trans ly e ly' e' ly'' e'' : grows ly e ly' e' → grows ly' e' ly'' e'' → grows ly e ly'' e''.
Proof.
  intros [? K [N P U X] D] [O K' [N' P' U' X'] D'].
  split; [done|by eapply keeps_trans|split; congruence|by eapply exact_trans].
Qed.

Lemma grows_tree ly e ly' e' bid d :
  grows ly e ly' e' → data_tree (has_block ly e) bid d → data_tree (has_block ly' e') bid d.
Proof. intros [_ K _ _]. apply data_tree_mono. intros ??. by apply has_block_keeps. Qed.

Lemma grows_used ly e ly' e' x : grows ly e ly' e' → x ∈ used_bids (ly_bids ly) → x ∈ used_bids (ly_bids ly').
Proof. intros [_ _ _ (nb & np & _ & _ & -> & _)] Hx. by apply elem_of_union_l. Qed.

(** An ID that a step has taken. *)
Definition taken (ly : layout) (bid : Z) (ly' : layout) : Prop :=
  (bid ∉ used_bids (ly_bids ly)) ∧ bid ∈ used_bids (ly_bids ly').

Lemma fresh_nonzero internal b bid b' : bids_ok b' → fresh_bid internal b bid b' → bid ≠ 0.
Proof.
  intros Hb [_ Hu _ _ _]. assert (Hin : bid ∈ used_bids b') by set_solver. apply (bo_used _ Hb) in Hin. lia.
Qed.

Lemma push_leaf_spec ly e d :
  ly_ok ly e → zlen d <= MAX_BLOCK_DATA →
  ∃ bid ly' e', push_leaf ly d = Ok (bid, ly') ∧ grows ly e ly' e' ∧ leaf (has_block ly' e') bid d.
Proof.
  intros Hok Hd. destruct (ly_ok_alloc ly e false Hok) as (bid & b' & Ha & Hf & Hok1 & Hk1 & Hnew).
  unfold push_leaf. rewrite Ha, bind_ok. simpl fst. simpl snd.
  destruct (place_and_write_ok (set_bids ly b') e bid d) as (ly' & e' & -> & Hok' & Hk' & Hb & [Hn Hp Hu Hx] & (b & Hbl & <-) & [(np & Hnp & Hus & _ & Hdis & Hoffs) _ _ _]); try done.
  { simpl. rewrite (fb_used _ _ _ _ Hf). set_solver. }
  exists (be_bid b), ly', e'. split_and!; [done| |].
  - split; [done|by eapply keeps_trans|by split|]. exists [b], np. split_and!; [done|done| | |exact Hoffs].
    + rewrite Hus. simpl. rewrite (fb_used _ _ _ _ Hf). set_solver.
    + intros x. simpl. rewrite elem_of_cons. intros [->|Hx'] Hin; [by apply (fb_new _ _ _ _ Hf)|].
      apply (Hdis x Hx'). simpl. rewrite (fb_used _ _ _ _ Hf). set_solver.
  - split_and!; [apply Hf|by eapply fresh_nonzero; [apply Hf|]|done|done].
Qed.

(** An internal block is allocated and kept in memory. *)
Lemma push_internal_spec ly e payload :
  ly_ok ly e → zlen payload <= MAX_BLOCK_DATA →
  ∃ bid b', alloc_bid ly true = Ok (bid, set_bids ly b') ∧ is_internal bid = true ∧
    taken ly bid (push_block (set_bids ly b') (be_in_memory bid payload)) ∧
    grows ly e (push_block (set_bids ly b') (be_in_memory bid payload)) e ∧
    has_block (push_block (set_bids ly b') (be_in_memory bid payload)) e bid payload.
Proof.
  intros Hok Hd. destruct (ly_ok_alloc ly e true Hok) as (bid & b' & Ha & Hf & Hok1 & Hk1 & Hnew).
  exists bid, b'. destruct (push_mem_ok (set_bids ly b') e bid payload) as (Hok' & Hk' & Hb); try done.
  { simpl. rewrite (fb_used _ _ _ _ Hf). set_solver. }
  split_and!; [done|apply Hf|split; [apply Hf|simpl; rewrite (fb_used _ _ _ _ Hf); set_solver]| |done].
  split; [done|by eapply keeps_trans|by split|]. eexists [_], []. rewrite app_nil_r. split_and!; [done|done| | |simpl; by rewrite union_empty_r_L].
  - simpl. rewrite (fb_used _ _ _ _ Hf). set_solver.
  - simpl. intros x ->%list_elem_of_singleton. apply Hf.
Qed.

(** A chunk entry: the ID and length of a leaf with the given bytes. *)
Definition chunk_is (B : Z → list byte → Prop) (c : Z * Z) (p : list byte) : Prop := leaf B c.1 p ∧ c.2 = zlen p.

Lemma chunk_is_mono (B C : Z → list byte → Prop) cs ps :
  (∀ bid d, B bid d → C bid d) → Forall2 (chunk_is B) cs ps → Forall2 (chunk_is C) cs ps.
Proof.
  intros HBC H. eapply Forall2_impl; [exact H|]. intros c p [Hl Hs]. split; [|done]. by eapply leaf_mono.
Qed.

Lemma push_leaves_spec ly e pieces :
  ly_ok ly e → Forall (λ p, zlen p <= MAX_BLOCK_DATA) pieces →
  ∃ cs ly' e', push_leaves ly pieces = Ok (cs, ly') ∧ grows ly e ly' e' ∧
    Forall2 (chunk_is (has_block ly' e')) cs pieces.
Proof.
  intros Hok Hp. revert ly e Hok. induction Hp as [|d pieces Hd _ IH]; intros ly e Hok.
  { exists [], ly, e. split_and!; [done|by apply grows_refl|constructor]. }
  destruct (push_leaf_spec ly e d Hok Hd) as (bid & ly1 & e1 & Hrun & Hg1 & Hl1).
  destruct (IH ly1 e1 (gr_ok _ _ _ _ Hg1)) as (cs & ly2 & e2 & Hrun2 & Hg2 & Hl2).
  exists ((bid, zlen d) :: cs), ly2, e2. simpl. rewrite Hrun, bind_ok. simpl. rewrite Hrun2, bind_ok. simpl.
  split_and!.
  - by rewrite wrap_len.
  - by eapply grows_trans.
  - constructor; [|done]. split; [|done]. eapply leaf_mono; [|done]. intros ??. apply has_block_keeps, Hg2.
Qed.

(** *** Internal blocks *)

Lemma zlen_concat_bids (bids : list Z) : zlen (bids ≫= λ bid, le_split 8 bid) = 8 * zlen bids.
Proof.
  induction bids as [|b bids IH]; [done|]. cbn [mbind list_bind]. rewrite zlen_app, zlen_le_split, IH, zlen_cons. lia.
Qed.

Lemma zlen_xblock_payload lv bids total : zlen (xblock_payload lv bids total) = 8 + 8 * zlen bids.
Proof. unfold xblock_payload. rewrite !zlen_app, !zlen_le_split, zlen_concat_bids, !zlen_cons, zlen_nil. lia. Qed.

Lemma zlen_concat {A} (ls : list (list A)) : zlen (concat ls) = foldr (λ l s, zlen l + s) 0 ls.
Proof. induction ls as [|l ls IH]; [done|]. simpl. by rewrite zlen_app, IH. Qed.

Lemma sum_len_concat B cs pieces : Forall2 (chunk_is B) cs pieces → sum_len cs = zlen (concat pieces).
Proof.
  rewrite zlen_concat. unfold sum_len. induction 1 as [|c p cs pieces [_ Hc] _ IH]; [done|]. simpl. by rewrite Hc, IH.
Qed.

Lemma chunk_leaves B cs pieces : Forall2 (chunk_is B) cs pieces → Forall2 (leaf B) (map fst cs) pieces.
Proof. intros H. apply Forall2_fmap_l. eapply Forall2_impl; [exact H|]. by intros ?? [? _]. Qed.

Lemma concat_bound (pieces : list (list byte)) n :
  Forall (λ p, zlen p <= n) pieces → zlen (concat pieces) <= n * zlen pieces.
Proof.
  rewrite zlen_concat. induction 1 as [|p pieces Hp _ IH]; [unfold zlen; simpl; lia|].
  simpl. rewrite zlen_cons. lia.
Qed.

Lemma concat_concats {A} (ls : list (list (list A))) : concat (map (@concat _) ls) = concat (concat ls).
Proof. induction ls as [|l ls IH]; [done|]. simpl. by rewrite IH, concat_app. Qed.

(** The group of chunks under one XBLOCK. *)
Definition group_of (B : Z → list byte → Prop) (cs : list (Z * Z)) (pieces : list (list byte)) : Prop :=
  Forall2 (chunk_is B) cs pieces ∧ zlen cs <= MAX_XBLOCK_ENTRIES.

Lemma Forall2_leaf_bound B bids pieces :
  Forall2 (leaf B) bids pieces → Forall (λ p, zlen p <= MAX_BLOCK_DATA) pieces.
Proof. induction 1 as [|???? (_ & _ & Hp & _) _ IH]; [constructor|]. by constructor. Qed.

Lemma build_xblock_spec ly e cs pieces :
  ly_ok ly e → group_of (has_block ly e) cs pieces →
  ∃ bid ly' , build_xblock ly cs = Ok (bid, ly') ∧ grows ly e ly' e ∧ xnode (has_block ly' e) bid (concat pieces) ∧
    taken ly bid ly'.
Proof.
  intros Hok (Hcs & Hn). pose proof (chunk_leaves _ _ _ Hcs) as Hleaf.
  assert (Hmap : zlen (map fst cs) = zlen cs) by (unfold zlen; by rewrite length_map).
  assert (Htot : wrap 32 (sum_len cs) = zlen (concat pieces)).
  { rewrite (sum_len_concat _ _ _ Hcs). apply wrap_small. pose proof (zlen_nonneg (concat pieces)).
    pose proof (concat_bound pieces MAX_BLOCK_DATA (Forall2_leaf_bound _ _ _ Hleaf)).
    apply Forall2_length in Hcs.
    unfold MAX_XBLOCK_ENTRIES, MAX_BLOCK_DATA in *. change ((8176 - 8) / 8) with 1021 in Hn.
    unfold zlen in *. lia. }
  unfold build_xblock. rewrite Htot.
  destruct (push_internal_spec ly e (xblock_payload 1 (map fst cs) (zlen (concat pieces)))) as
    (bid & b' & Ha & Hint & Htk & Hg & Hb); [done| |].
  { rewrite zlen_xblock_payload, Hmap. unfold MAX_XBLOCK_ENTRIES, MAX_BLOCK_DATA in *. change ((8176 - 8) / 8) with 1021 in Hn. lia. }
  rewrite Ha, bind_ok. eexists _, _. split_and!; [done|done| |done].
  exists (map fst cs), pieces. simpl fst. rewrite Hmap. split_and!; [done| |done|done|done].
  eapply Forall2_impl; [exact Hleaf|]. intros x d. apply leaf_mono. intros ??. apply has_block_keeps, Hg.
Qed.

Lemma build_xblocks_spec ly e groups pss :
  ly_ok ly e → Forall2 (group_of (has_block ly e)) groups pss →
  ∃ bids ly', build_xblocks ly groups = Ok (bids, ly') ∧ grows ly e ly' e ∧
    Forall2 (xnode (has_block ly' e)) bids (map (@concat _) pss) ∧ zlen bids = zlen groups ∧
    NoDup bids ∧ Forall (λ bid, taken ly bid ly') bids.
Proof.
  intros Hok Hg. revert ly Hok Hg. revert pss. induction groups as [|cs groups IH]; intros pss ly Hok Hg.
  { apply Forall2_nil_inv_l in Hg as ->. exists [], ly. split_and!; [done|by apply grows_refl|constructor|done|constructor|constructor]. }
  apply Forall2_cons_inv_l in Hg as (ps & pss' & Hcs & Hgs & ->).
  destruct (build_xblock_spec ly e cs ps Hok Hcs) as (bid & ly1 & Hrun & Hg1 & Hx & Hold & Hnew).
  destruct (IH pss' ly1 (gr_ok _ _ _ _ Hg1)) as (bids & ly2 & Hrun2 & Hg2 & Hxs & Hz & Hnd & Htk).
  { eapply Forall2_impl; [exact Hgs|]. intros c p (Hc & ?). split; [|done].
    eapply chunk_is_mono; [|exact Hc]. intros ??. apply has_block_keeps, Hg1. }
  exists (bid :: bids), ly2. simpl. rewrite Hrun, bind_ok. simpl. rewrite Hrun2, bind_ok. split_and!; [done| | | | |].
  - by eapply grows_trans.
  - constructor; [|done]. eapply xnode_mono; [|exact Hx]. intros ??. apply has_block_keeps, Hg2.
  - by rewrite !zlen_cons, Hz.
  - apply NoDup_cons. split; [|done]. intros Hin. rewrite Forall_forall in Htk. by destruct (Htk bid Hin).
  - constructor; [by split; [|eapply grows_used]|]. eapply Forall_impl; [exact Htk|]. intros x [Hxo Hxn].
    split; [|done]. intros Hin. apply Hxo. by eapply grows_used.
Qed.

(** The tree above the chunks of a value; it fails only beyond one XXBLOCK. *)
Lemma build_chain_root_spec ly e cs pieces :
  ly_ok ly e → Forall2 (chunk_is (has_block ly e)) cs pieces → zlen (concat pieces) < 2 ^ 32 →
  zlen cs <= MAX_XBLOCK_ENTRIES * MAX_XBLOCK_ENTRIES →
  ∃ bid ly', build_chain_root ly cs (zlen (concat pieces)) = Ok (bid, ly') ∧ grows ly e ly' e ∧
    data_tree (has_block ly' e) bid (concat pieces).
Proof.
  intros Hok Hcs Htot Hmax. unfold build_chain_root. destruct (_ <=? _) eqn:Hn; bool_to_Z.
  - destruct (build_xblock_spec ly e cs pieces Hok) as (bid & ly' & Hrun & Hg & Hx & _); [by split|].
    exists bid, ly'. split_and!; [done|done|by apply tree_x].
  - assert (Hpos : 0 < MAX_XBLOCK_ENTRIES) by done.
    pose proof (Forall2_chunks MAX_XBLOCK_ENTRIES _ _ _ Hcs) as Hgs.
    destruct (build_xblocks_spec ly e (chunks MAX_XBLOCK_ENTRIES cs) (chunks MAX_XBLOCK_ENTRIES pieces) Hok)
      as (bids & ly1 & -> & Hg1 & Hxs & Hz & Hnd & Htk).
    { pose proof (chunks_bounds MAX_XBLOCK_ENTRIES Hpos cs) as Hb.
      induction Hgs as [|c p gs ps Hcp _ IH]; [constructor|]. apply Forall_cons in Hb as [[_ Hb] Hbs].
      constructor; [by split|auto]. }
    rewrite bind_ok. simpl fst. simpl snd. rewrite (zlen_chunks _ Hpos) in Hz.
    assert (Hle : zlen bids <= MAX_XBLOCK_ENTRIES).
    { rewrite Hz. unfold MAX_XBLOCK_ENTRIES, MAX_BLOCK_DATA in *. change ((8176 - 8) / 8) with 1021 in *.
      apply Z.lt_succ_r, Z.div_lt_upper_bound; lia. }
    rewrite (proj2 (Z.ltb_ge _ _)) by done.
    assert (Hcc : concat (map (@concat _) (chunks MAX_XBLOCK_ENTRIES pieces)) = concat pieces).
    { rewrite <-(concat_chunks MAX_XBLOCK_ENTRIES Hpos pieces) at 2. by rewrite concat_concats. }
    pose proof (zlen_nonneg (concat pieces)). unfold build_xxblock. rewrite wrap_small by lia.
    destruct (push_internal_spec ly1 e (xblock_payload 2 bids (zlen (concat pieces)))) as
      (bid & b' & Ha & Hint & [Hfresh _] & Hg & Hb); [apply Hg1| |].
    { rewrite zlen_xblock_payload. unfold MAX_XBLOCK_ENTRIES, MAX_BLOCK_DATA in *.
      change ((8176 - 8) / 8) with 1021 in *. lia. }
    rewrite Ha, bind_ok. eexists _, _. split_and!; [done|by eapply grows_trans|]. apply tree_xx.
    exists bids, (map (@concat _) (chunks MAX_XBLOCK_ENTRIES pieces)). rewrite Hcc. split_and!; try done.
    2: { apply NoDup_cons. split; [|done]. intros Hin. rewrite Forall_forall in Htk. by destruct (Htk bid Hin). }
    eapply Forall2_impl; [exact Hxs|]. intros x d. apply xnode_mono. intros ??. apply has_block_keeps, Hg.
Qed.

(** [write_data_chain] writes every value of up to [i32::MAX] bytes, and refuses
    larger ones before it changes the layout. *)
Lemma write_data_chain_spec ly e data :
  ly_ok ly e → zlen data <= I32_MAX →
  ∃ bid ly' e', write_data_chain ly data = Ok (bid, ly') ∧ grows ly e ly' e' ∧
    data_tree (has_block ly' e') bid data.
Proof.
  intros Hok Hmax. unfold write_data_chain. destruct (zlen data =? 0) eqn:Hz; bool_to_Z.
  { exists 0, ly, e. split_and!; [done|by apply grows_refl|]. destruct data; [constructor|].
    rewrite zlen_cons in Hz. pose proof (zlen_nonneg data). lia. }
  rewrite (proj2 (Z.ltb_ge _ _)) by done. destruct (zlen data <=? MAX_BLOCK_DATA) eqn:Hs; bool_to_Z.
  { destruct (push_leaf_spec ly e data Hok Hs) as (bid & ly' & e' & Hrun & Hg & Hl).
    exists bid, ly', e'. split_and!; [done|done|by apply tree_leaf]. }
  assert (Hpos : 0 < MAX_BLOCK_DATA) by done.
  destruct (push_leaves_spec ly e (chunks MAX_BLOCK_DATA data)) as (cs & ly1 & e1 & -> & Hg1 & Hcs); [done| |].
  { eapply Forall_impl; [apply (chunks_bounds _ Hpos)|]. simpl. lia. }
  rewrite bind_ok. simpl fst. simpl snd. unfold I32_MAX in Hmax.
  destruct (build_chain_root_spec ly1 e1 cs (chunks MAX_BLOCK_DATA data)) as (bid & ly' & Hrun & Hg & Ht).
  - apply Hg1.
  - done.
  - rewrite (concat_chunks _ Hpos). lia.
  - apply Forall2_length in Hcs. pose proof (zlen_chunks _ Hpos data) as Hlen. unfold zlen in *. rewrite Hcs, Hlen.
    unfold MAX_XBLOCK_ENTRIES, MAX_BLOCK_DATA in *. change ((8176 - 8) / 8) with 1021.
    apply Z.lt_succ_r, Z.div_lt_upper_bound; lia.
  - exists bid, ly', e1. rewrite (concat_chunks _ Hpos) in Hrun, Ht.
    split_and!; [done|by eapply grows_trans|done].
Qed.

(** A node is added under a new ID. *)
Lemma add_node_data_spec ly e nid data nid_parent sub_bid :
  ly_ok ly e → zlen data <= I32_MAX → nid ∉ used_nids ly →
  ∃ bid ly' e', add_node_data ly nid data nid_parent sub_bid = Ok (bid, ly') ∧ ly_ok ly' e' ∧ keeps ly e ly' e' ∧
    data_tree (has_block ly' e') bid data ∧
    ly_nodes ly' = ly_nodes ly ++ [{| ne_nid := nid; ne_bid_data := bid; ne_bid_sub := sub_bid; ne_nid_parent := nid_parent |}].
Proof.
  intros Hok Hmax Hnid. destruct (write_data_chain_spec ly e data Hok Hmax) as (bid & ly1 & e1 & Hrun & Hg & Ht).
  unfold add_node_data. rewrite Hrun, bind_ok. simpl fst. simpl snd. destruct Hg as [Hok1 Hk1 [Hn1 Hp1 Hu1 _] _].
  rewrite Hu1, decide_False by done. eexists bid, _, e1. split_and!; [done| | |exact Ht|by simpl; rewrite Hn1].
  - destruct Hok1. split; try done; simpl.
    + rewrite map_app. apply NoDup_app. split_and!; [done| |apply NoDup_singleton].
      intros x Hx ->%list_elem_of_singleton. apply list_elem_of_fmap in Hx as (m & Hm & Hin). simpl in Hm.
      apply Hnid. rewrite <-Hu1, Hm. auto.
    + intros n [Hn| ->%list_elem_of_singleton]%elem_of_app; [|set_solver]. apply elem_of_union_r. auto.
  - destruct Hk1. split; try done. simpl. by apply prefix_app_r.
Qed.
End writes.
