(* ===== verification/StreamWrite.v ===== *)
(** * Chains written from a reader

    Reading a stream to its end in any pieces writes exactly the chain that the
    bytes would make; a stream that fails is undone, except that AMap slots which
    were registered on the way are remembered as taken. *)

From S2P Require Import Prelude PstError Header Block PropContext WriterHeap Layout LayoutFacts DataChain DataChainFacts.
#[local] Open Scope Z_scope.

(** What a source delivers: the bytes up to its end or its failure. *)
Fixpoint delivered (s : source) : list byte * option Z :=
  match s with
  | [] | ReadEnd :: _ => ([], None)
  | ReadFailed code :: _ => ([], Some code)
  | ReadInterrupted :: s => delivered s
  | ReadData bytes :: s => if zlen bytes =? 0 then ([], None) else (bytes ++ (delivered s).1, (delivered s).2)
  end.

Lemma sub_drop {A} (l : list A) n : 0 <= n → sub l n (zlen l) = drop (Z.to_nat n) l.
Proof. intros. unfold sub, zlen. rewrite Nat2Z.id. apply take_ge. rewrite length_drop. lia. Qed.

Lemma sub_take {A} (l : list A) n : sub l 0 n = take (Z.to_nat n) l.
Proof. done. Qed.

(** Filling the buffer takes what fits of what the source delivers. *)
Lemma fill_buffer_spec s : ∀ fuel buf, (length s + 2 <= fuel)%nat → zlen buf <= STREAM_CHUNK_SIZE →
  let '(d, err) := delivered s in
  let room := STREAM_CHUNK_SIZE - zlen buf in
  if zlen d <? room then
    match err with
    | Some code => fill_buffer fuel buf s = Err (StreamIo code)
    | None => ∃ s', fill_buffer fuel buf s = Ok (buf ++ d, s')
    end
  else ∃ s', fill_buffer fuel buf s = Ok (buf ++ sub d 0 room, s') ∧ delivered s' = (drop (Z.to_nat room) d, err).
Proof.
  induction s as [|ev s IH]; intros [|fuel] buf Hf Hb; simpl in Hf; try lia.
  - simpl. destruct (zlen buf <? STREAM_CHUNK_SIZE) eqn:Hl; bool_to_Z.
    + rewrite (proj2 (Z.ltb_lt _ _)) by (unfold zlen in *; simpl; lia). exists []. by rewrite app_nil_r.
    + rewrite (proj2 (Z.ltb_ge _ _)) by (unfold zlen in *; simpl; lia).
      exists []. split; [|by rewrite drop_nil]. rewrite sub_all by (unfold zlen in *; simpl; lia). by rewrite app_nil_r.
  - destruct (zlen buf <? STREAM_CHUNK_SIZE) eqn:Hl; bool_to_Z.
    2: { assert (Hfull : fill_buffer (S fuel) buf (ev :: s) = Ok (buf, ev :: s)).
         { simpl. by rewrite (proj2 (Z.ltb_ge _ _)). }
         rewrite Hfull. destruct (delivered (ev :: s)) as [d err] eqn:Hd. pose proof (zlen_nonneg d). cbv zeta.
         rewrite (proj2 (Z.ltb_ge _ _)) by lia. exists (ev :: s). split.
         - rewrite sub_take. replace (Z.to_nat _) with 0%nat by lia. by rewrite take_0, app_nil_r.
         - replace (Z.to_nat _) with 0%nat by lia. by rewrite drop_0. }
    simpl fill_buffer. rewrite (proj2 (Z.ltb_lt _ _)) by done. destruct ev as [bytes| | |code]; simpl.
    + pose proof (zlen_nonneg bytes). destruct (zlen bytes <=? STREAM_CHUNK_SIZE - zlen buf) eqn:Hfit; bool_to_Z.
      * destruct (zlen bytes =? 0) eqn:Hz; bool_to_Z.
        { rewrite (proj2 (Z.ltb_lt _ _)) by (unfold zlen in *; simpl; lia). exists s. by rewrite app_nil_r. }
        specialize (IH fuel (buf ++ bytes) ltac:(lia)). rewrite zlen_app in IH. specialize (IH ltac:(lia)).
        destruct (delivered s) as [d err]. cbv zeta in IH. simpl. rewrite zlen_app.
        replace (STREAM_CHUNK_SIZE - (zlen buf + zlen bytes)) with (STREAM_CHUNK_SIZE - zlen buf - zlen bytes) in IH by lia.
        destruct (zlen d <? STREAM_CHUNK_SIZE - zlen buf - zlen bytes) eqn:Hdl; bool_to_Z.
        -- rewrite (proj2 (Z.ltb_lt _ _)) by lia. destruct err; [done|]. destruct IH as (s' & ->).
           exists s'. by rewrite (assoc_L (++)).
        -- rewrite (proj2 (Z.ltb_ge _ _)) by lia. destruct IH as (s' & -> & Hs'). exists s'. split.
           ++ rewrite <-(assoc_L (++)). do 3 f_equal. rewrite !sub_take, take_app_ge by (unfold zlen in *; lia).
              do 2 f_equal. unfold zlen. lia.
           ++ rewrite Hs', drop_app_ge by (unfold zlen in *; lia). do 2 f_equal. unfold zlen. lia.
      * (* more than fits: the buffer is full *)
        set (room := STREAM_CHUNK_SIZE - zlen buf) in *.
        assert (Hsub : zlen (sub bytes 0 room) = room) by (apply zlen_sub; lia).
        rewrite Hsub, (proj2 (Z.eqb_neq room 0)) by lia. rewrite (proj2 (Z.eqb_neq (zlen bytes) 0)) by lia.
        destruct fuel as [|fuel]; [lia|]. cbn [fill_buffer]. rewrite (zlen_app buf), Hsub.
        rewrite (proj2 (Z.ltb_ge (zlen buf + room) _)) by (unfold room; lia).
        destruct (delivered s) as [d err] eqn:Hd. simpl. pose proof (zlen_nonneg d).
        rewrite zlen_app, (proj2 (Z.ltb_ge _ room)) by lia. eexists. split.
        -- do 3 f_equal. rewrite !sub_take, take_app_le by (unfold zlen in *; lia). done.
        -- simpl. rewrite sub_drop by lia. rewrite Hd. simpl.
           rewrite (proj2 (Z.eqb_neq _ 0)) by (unfold zlen in *; rewrite length_drop; lia).
           by rewrite drop_app_le by (unfold zlen in *; lia).
    + rewrite (proj2 (Z.ltb_lt _ _)) by (unfold zlen in *; simpl; lia). exists s. by rewrite app_nil_r.
    + apply IH; [lia|done].
    + by rewrite (proj2 (Z.ltb_lt _ _)) by (unfold zlen in *; simpl; lia).
Qed.

Lemma delivered_source_bytes s : (length (delivered s).1 <= length (source_bytes s))%nat.
Proof.
  unfold source_bytes. induction s as [|[bytes| | |code] s IH]; cbn [mbind list_bind delivered] in *; try (simpl; lia).
  rewrite length_app. case_match; simpl; [lia|]. rewrite length_app. lia.
Qed.

Section streams.
Context `{Crc : Crc32}.

Lemma push_leaves_cons ly p ps :
  push_leaves ly (p :: ps) =
  (r ← push_leaf ly p; rest ← push_leaves r.2 ps; Ok ((r.1, wrap 32 (zlen p)) :: rest.1, rest.2)).
Proof. done. Qed.

(** A stream that reaches its end pushes the chunks of its bytes. *)
Lemma stream_chunks_complete fuel ly s d acc total cs ly' :
  delivered s = (d, None) → (length d + 1 <= fuel)%nat → 0 <= total → total + zlen d <= I32_MAX →
  push_leaves ly (chunks STREAM_CHUNK_SIZE d) = Ok (cs, ly') →
  stream_chunks fuel ly s acc total = (Ok (acc ++ cs, total + zlen d), ly').
Proof.
  revert ly s d acc total cs. induction fuel as [|fuel IH]; intros ly s d acc total cs Hd Hf Ht Hmax Hrun; [lia|].
  assert (Hpos : 0 < STREAM_CHUNK_SIZE) by done. pose proof (zlen_nonneg d).
  pose proof (fill_buffer_spec s (fill_fuel s) []) as Hfill. rewrite Hd in Hfill. cbv zeta in Hfill.
  specialize (Hfill ltac:(unfold fill_fuel; lia) ltac:(done)). change (zlen (@nil byte)) with 0 in Hfill.
  rewrite Z.sub_0_r in Hfill. cbn [stream_chunks]. cbv zeta.
  assert (Hsat : ∀ n, 0 <= n <= zlen d → U64_SAT_ADD total n = total + n ∧ (I32_MAX <? total + n) = false).
  { intros n Hn. unfold U64_SAT_ADD, I32_MAX in *. split; [lia|]. apply Z.ltb_ge. lia. }
  destruct (zlen d <? STREAM_CHUNK_SIZE) eqn:Hlt; bool_to_Z.
  - destruct Hfill as (s' & ->). simpl app. destruct (zlen d =? 0) eqn:Hz; bool_to_Z.
    + destruct d; [|unfold zlen in Hz; simpl in Hz; lia]. injection Hrun as <- <-.
      by rewrite app_nil_r, Z.add_0_r.
    + destruct (Hsat (zlen d) ltac:(lia)) as [-> ->].
      rewrite chunks_step in Hrun by (done || (intros ->; done)). rewrite sub_all in Hrun by lia.
      rewrite drop_ge in Hrun by (unfold zlen in *; lia). rewrite push_leaves_cons in Hrun.
      apply bind_ok_inv in Hrun as ([bid ly1] & -> & Hrun). injection Hrun as <- <-. simpl fst. simpl snd.
      by rewrite (proj2 (Z.ltb_lt _ _)) by done.
  - destruct Hfill as (s' & -> & Hd'). simpl app.
    assert (Hsub : zlen (sub d 0 STREAM_CHUNK_SIZE) = STREAM_CHUNK_SIZE) by (apply zlen_sub; lia).
    rewrite Hsub. change (STREAM_CHUNK_SIZE =? 0) with false.
    destruct (Hsat STREAM_CHUNK_SIZE ltac:(lia)) as [-> ->].
    rewrite chunks_step in Hrun by (done || (intros ->; done)). rewrite push_leaves_cons in Hrun.
    apply bind_ok_inv in Hrun as ([bid ly1] & -> & Hrun). simpl fst in Hrun. simpl snd in Hrun.
    apply bind_ok_inv in Hrun as ([cs1 ly2] & Hrun & [= <- <-]). rewrite Z.ltb_irrefl.
    assert (Hdl : zlen (drop (Z.to_nat STREAM_CHUNK_SIZE) d) = zlen d - STREAM_CHUNK_SIZE).
    { unfold zlen in *. rewrite length_drop. lia. }
    rewrite (IH ly1 s' _ _ _ cs1 Hd'); [|rewrite length_drop; unfold zlen in *; lia|lia|lia|done].
    rewrite Hdl, Hsub, <-(assoc_L (++)). do 3 f_equal. simpl. lia.
Qed.

(** The chunks so far: full leaves of the layout, and their number of bytes. *)
Definition chunks_so_far (ly : layout) (e : eager_ctx) (acc : list (Z * Z)) (total : Z) (ps : list (list byte)) : Prop :=
  Forall2 (chunk_is (has_block ly e)) acc ps ∧ total = zlen (concat ps) ∧ total <= I32_MAX.

Lemma chunks_so_far_push ly e acc total ps d :
  ly_ok ly e → chunks_so_far ly e acc total ps → zlen d <= STREAM_CHUNK_SIZE →
  (I32_MAX <? U64_SAT_ADD total (zlen d)) = false →
  ∃ bid ly' e', push_leaf ly d = Ok (bid, ly') ∧ grows ly e ly' e' ∧ U64_SAT_ADD total (zlen d) = total + zlen d ∧
    chunks_so_far ly' e' (acc ++ [(bid, wrap 32 (zlen d))]) (total + zlen d) (ps ++ [d]).
Proof.
  intros Hok (Hcs & -> & Hmax) Hd Hlim. bool_to_Z. pose proof (zlen_nonneg d). pose proof (zlen_nonneg (concat ps)).
  destruct (push_leaf_spec ly e d Hok) as (bid & ly1 & e1 & Hrun & Hg & Hl); [done|].
  unfold U64_SAT_ADD, I32_MAX in *. assert (Hsum : Z.min (zlen (concat ps) + zlen d) (2 ^ 64 - 1) = zlen (concat ps) + zlen d) by lia.
  exists bid, ly1, e1. split_and!; [done|done|done|]. split_and!.
  - apply Forall2_app.
    + eapply chunk_is_mono; [|exact Hcs]. intros ??. apply has_block_keeps, Hg.
    + constructor; [|constructor]. split; [done|]. by apply wrap_len.
  - rewrite concat_app, zlen_app. simpl. by rewrite app_nil_r.
  - unfold I32_MAX. lia.
Qed.

(** What a failed stream reports: the failure of its reader, or the number of bytes
    that took it over the limit, which is at most one chunk more than it. *)
Definition stream_fault (s : source) (before : Z) (err : writer_error) : Prop :=
  (∃ code, err = StreamIo code ∧ (delivered s).2 = Some code) ∨
  (∃ n, err = BodyTooLarge n ∧ I32_MAX < n <= before + zlen (delivered s).1 ∧ n <= I32_MAX + STREAM_CHUNK_SIZE).

Lemma stream_fault_limit s total n :
  0 <= total <= I32_MAX → 0 <= n <= STREAM_CHUNK_SIZE → n <= zlen (delivered s).1 →
  (I32_MAX <? U64_SAT_ADD total n) = true → stream_fault s total (BodyTooLarge (U64_SAT_ADD total n)).
Proof.
  intros Ht Hn Hd Hlim. bool_to_Z. right. eexists. split; [done|]. revert Hlim.
  unfold U64_SAT_ADD, I32_MAX, STREAM_CHUNK_SIZE, MAX_BLOCK_DATA in *. lia.
Qed.

(** Any run: it ends, and what it leaves behind grew from the start. *)
Lemma stream_chunks_grows fuel ly e s acc total ps :
  ly_ok ly e → (length (delivered s).1 + 1 <= fuel)%nat →
  chunks_so_far ly e acc total ps → total = STREAM_CHUNK_SIZE * zlen acc →
  ∃ r ly' e', stream_chunks fuel ly s acc total = (r, ly') ∧ grows ly e ly' e' ∧
    match r with
    | Ok (acc', total') => STREAM_CHUNK_SIZE * (zlen acc' - 1) <= total' ∧ (delivered s).2 = None ∧
        ∃ ps', chunks_so_far ly' e' acc' total' ps' ∧ concat ps' = concat ps ++ (delivered s).1
    | Err err => stream_fault s total err
    | _ => False
    end.
Proof.
  revert ly e s acc total ps. induction fuel as [|fuel IH]; intros ly e s acc total ps Hok Hf Hacc Hfull; [lia|].
  assert (Hpos : 0 < STREAM_CHUNK_SIZE) by done.
  pose proof (fill_buffer_spec s (fill_fuel s) []) as Hfill. destruct (delivered s) as [d err] eqn:Hd. cbv zeta in Hfill.
  specialize (Hfill ltac:(unfold fill_fuel; lia) ltac:(done)). change (zlen (@nil byte)) with 0 in Hfill.
  rewrite Z.sub_0_r in Hfill. cbn [stream_chunks]. cbv zeta. pose proof (zlen_nonneg d).
  assert (Hstay : grows ly e ly e) by by apply grows_refl.
  assert (Htot : 0 <= total <= I32_MAX) by (destruct Hacc as (_ & -> & ?); split; [apply zlen_nonneg|done]).
  destruct (zlen d <? STREAM_CHUNK_SIZE) eqn:Hlt; bool_to_Z.
  - destruct err as [code|]; [rewrite Hfill; eexists _, ly, e; split_and!; [done|done|]; left; exists code; by rewrite Hd|]. destruct Hfill as (s' & ->). simpl app.
    destruct (zlen d =? 0) eqn:Hz.
    { eexists _, ly, e. split_and!; [done|done|]. split_and!; [rewrite Hfull; lia|done|]. exists ps. split; [done|].
      bool_to_Z. destruct d; [simpl; by rewrite app_nil_r|rewrite zlen_cons in Hz; pose proof (zlen_nonneg d); lia]. }
    destruct (_ <? _) eqn:Hlim.
    { eexists _, ly, e. split_and!; [done|done|]. apply stream_fault_limit; [done|lia|by rewrite Hd|done]. }
    destruct (chunks_so_far_push ly e acc total ps d) as (bid & ly1 & e1 & -> & Hg & -> & Hacc'); [done|done|lia|done|].
    rewrite (proj2 (Z.ltb_lt _ _)) by done. eexists _, ly1, e1. split_and!; [done|done|].
    split_and!; [rewrite zlen_app, Hfull; change (zlen [_]) with 1; lia|done|]. eexists. split; [done|].
    rewrite concat_app. simpl. by rewrite app_nil_r.
  - destruct Hfill as (s' & -> & Hd'). simpl app.
    assert (Hsub : zlen (sub d 0 STREAM_CHUNK_SIZE) = STREAM_CHUNK_SIZE) by (apply zlen_sub; lia).
    destruct (zlen (sub d 0 STREAM_CHUNK_SIZE) =? 0) eqn:Hz; bool_to_Z; [lia|].
    destruct (_ <? U64_SAT_ADD _ _) eqn:Hlim.
    { eexists _, ly, e. split_and!; [done|done|]. apply stream_fault_limit; [done|lia|rewrite Hd; simpl; lia|done]. }
    destruct (chunks_so_far_push ly e acc total ps (sub d 0 STREAM_CHUNK_SIZE)) as (bid & ly1 & e1 & -> & Hg & -> & Hacc');
      [done|done|lia|done|].
    rewrite (proj2 (Z.ltb_ge _ STREAM_CHUNK_SIZE)) by lia. specialize (IH ly1 e1 s'). rewrite Hd' in IH. simpl fst in IH.
    edestruct IH as (r & ly2 & e2 & -> & Hg2 & Hr); [apply Hg| |exact Hacc'| |].
    { simpl fst in Hf. rewrite length_drop. unfold zlen, STREAM_CHUNK_SIZE, MAX_BLOCK_DATA in *. lia. }
    { rewrite zlen_app, Hfull, Hsub. change (zlen [_]) with 1. lia. }
    exists r, ly2, e2. split_and!; [done|by eapply grows_trans|]. destruct r as [[acc' total']|err'| |]; [| |done..].
    2: { destruct Hr as [(code & -> & Hc)|(n & -> & Hn & Hn2)]; rewrite Hd' in *; simpl in *.
      - left. exists code. by rewrite Hd.
      - right. exists n. rewrite Hd. simpl. unfold zlen in *. rewrite length_drop in Hn. split_and!; [done|lia|lia|done]. }
    destruct Hr as (Hfull' & Herr & ps' & Hps' & Hcat). split_and!; [done|done|]. exists ps'. split; [done|].
    rewrite Hcat, concat_app. simpl. rewrite app_nil_r, <-(assoc_L (++)). f_equal. rewrite sub_take. apply take_drop.
Qed.

(** ** Undoing *)

(** A layout after a failed stream: as before it, but for the bytes behind the
    cursor and the book of AMap pages.  The pages are the old ones; the slots of the
    pages that the stream had registered, which are lost, stay in the book. *)
Record undone (lost : list page_entry) (ly : layout) (e : eager_ctx) (ly' : layout) (e' : eager_ctx) : Prop := {
  un_ok : ly_ok ly' e';
  un_blocks : ly_blocks ly' = ly_blocks ly;
  un_bids : ly_bids ly' = ly_bids ly;
  un_rest : same_rest ly ly';
  un_cursor : eg_cursor e' = eg_cursor e;
  un_amap : eg_amap e' = {| am_pages := am_pages (eg_amap e);
                            am_offsets := am_offsets (eg_amap e) ∪ list_to_set (map pe_offset lost) |};
  un_lost : Forall is_map_page lost ∧ NoDup (map pe_offset (am_pages (eg_amap e) ++ lost));
  un_content : ∀ b payload, b ∈ ly_blocks ly → content e b payload → content e' b payload }.

Lemma rollback_undoes ly e ly1 e1 :
  ly_ok ly e → grows ly e ly1 e1 →
  ∃ lost e', ly_eager (rollback_stream_chain ly1 (stream_chain_checkpoint ly)) = Some e' ∧
    am_pages (eg_amap e1) = am_pages (eg_amap e) ++ lost ∧
    undone lost ly e (rollback_stream_chain ly1 (stream_chain_checkpoint ly)) e'.
Proof.
  intros Hok [Hok1 Hk [Hn Hp Hu Hx] (nb & np & Hb & Hpg & Hused & Hdis & Hoffs)]. exists np.
  pose proof (lo_eager _ _ Hok) as He. pose proof (lo_eager _ _ Hok1) as He1.
  unfold rollback_stream_chain, stream_chain_checkpoint, dropped_bids. rewrite He, He1. simpl.
  rewrite Hb, Hpg, take_app_length, !drop_app_length. unfold rollback_eager. simpl.
  eexists. split_and!; [done|done|]. rewrite Hpg, take_app_length, drop_app_length.
  assert (Hids : used_bids (ly_bids ly1) ∖ (list_to_set (map be_bid nb) ∪ list_to_set (map pe_bid np)) = used_bids (ly_bids ly)).
  { rewrite Hused, list_to_set_app_L. apply set_eq. intros x. specialize (Hdis x). rewrite elem_of_app in Hdis. set_solver. }
  assert (Hc : eg_cursor e <= eg_cursor e1) by apply Hk.
  assert (Hkeep : ∀ b payload, b ∈ ly_blocks ly → content e b payload →
    zlen payload = be_len b ∧ if be_on_disk b then stored (f_bytes (f_set_len (eg_file e1) (eg_cursor e))) (be_offset b) (data_block (be_bid b) payload)
      else be_data b = payload).
  { intros b payload Hbl Hcb. pose proof (kp_content _ _ _ _ Hk b payload Hbl Hcb) as [Hl Hcc]. split; [done|].
    destruct (be_on_disk b) eqn:Hd; [|done]. apply stored_set_len; [done|]. rewrite zlen_data_block, Hl.
    pose proof (lo_blocks _ _ Hok) as Hbs. rewrite Forall_forall in Hbs.
    destruct (bk_disk _ _ (Hbs b Hbl) Hd) as (_ & ? & _). done. }
  destruct Hok as [_ Hst Hcu Hout Hpos Hfp Ham Hbids Hdist Hus Hbl Hord Hpgs Hnid Hun].
  split; simpl; [|done|destruct (ly_bids ly); simpl in *; by rewrite Hids|done|done|by rewrite Hoffs|pose proof (lo_amap _ _ Hok1) as [Hmp Hnd _]; rewrite Hpg in Hmp, Hnd; by apply Forall_app in Hmp as [_ ?]|done].
  split; simpl; try done.
  - destruct (lo_file_pos _ _ Hok1) as [->|?]; [|by right].
    destruct (lo_cursor _ _ Hok1) as [Hc1|?]; [left; lia|by right].
  - destruct Ham as [A1 A2 A3]. split; simpl; [done..|]. intros p Hpin.
    apply (ao_known _ (lo_amap _ _ Hok1)). rewrite Hpg. set_solver.
  - rewrite Hids. split; [apply Hbids|]. intros x Hxx. by apply (bo_used _ Hbids).
  - unfold ids in *. simpl. by rewrite Hp.
  - intros x. unfold ids in *. simpl. rewrite Hp, Hids. auto.
  - rewrite Forall_forall in Hbl |- *. intros b Hb'. destruct (Hbl b Hb') as [B1 B2 B3 (payload & B4)].
    split; [done..|]. exists payload. by apply Hkeep.
  - by rewrite Hp.
  - by rewrite Hn.
  - intros n. rewrite Hn, Hu. auto.
Qed.

(** The book holds what is registered, and no more, only where nothing was lost. *)
Lemma undone_complete lost ly e ly' e' :
  undone lost ly e ly' e' → amap_complete (eg_amap e') ↔ amap_complete (eg_amap e) ∧ lost = [].
Proof.
  intros [_ _ _ _ _ Ham [_ Hnd] _]. unfold amap_complete. rewrite Ham. simpl. split.
  - intros Hc. assert (Hl : lost = []).
    { destruct lost as [|p lost]; [done|exfalso]. specialize (Hc (pe_offset p) ltac:(simpl; set_solver)).
      rewrite map_app in Hnd. apply NoDup_app in Hnd as (_ & Hnd & _). apply (Hnd _ Hc). simpl. by left. }
    split; [|done]. intros o Ho. apply Hc. set_solver.
  - intros [Hc ->] o. simpl. rewrite union_empty_r_L. apply Hc.
Qed.

(** *** Writing from a reader *)

Lemma push_leaves_chunks ly e d :
  ly_ok ly e → ∃ cs ly' e', push_leaves ly (chunks STREAM_CHUNK_SIZE d) = Ok (cs, ly') ∧ grows ly e ly' e' ∧
    Forall2 (chunk_is (has_block ly' e')) cs (chunks STREAM_CHUNK_SIZE d).
Proof.
  intros Hok. apply push_leaves_spec; [done|]. eapply Forall_impl; [by apply (chunks_bounds STREAM_CHUNK_SIZE)|].
  intros c Hc. apply Hc.
Qed.

(** A stream that ends within the limit gives the chain of its bytes. *)
Lemma from_reader_complete ly e s d :
  ly_ok ly e → delivered s = (d, None) → zlen d <= I32_MAX →
  ∃ bid ly', write_data_chain ly d = Ok (bid, ly') ∧ write_data_chain_from_reader ly s = (Ok (bid, zlen d), ly').
Proof.
  intros Hok Hd Hmax. destruct (push_leaves_chunks ly e d Hok) as (cs & ly1 & e1 & Hrun & Hg & Hcs).
  pose proof (delivered_source_bytes s) as Hlen. rewrite Hd in Hlen. simpl in Hlen.
  pose proof (stream_chunks_complete (stream_fuel s) ly s d [] 0 cs ly1 Hd) as Hs.
  specialize (Hs ltac:(unfold stream_fuel; lia) ltac:(lia) ltac:(lia) Hrun).
  unfold write_data_chain_from_reader, write_data_chain_from_reader_inner. rewrite Hs. simpl app. rewrite Z.add_0_l.
  destruct (write_data_chain_spec ly e d Hok Hmax) as (bid & ly' & e' & Hw & _).
  exists bid, ly'. split; [done|]. revert Hw. unfold write_data_chain.
  assert (Hpos : 0 < STREAM_CHUNK_SIZE) by done. pose proof (zlen_chunks _ Hpos d) as Hz.
  pose proof (Forall2_length _ _ _ Hcs) as Hl. assert (Hzl : zlen cs = (zlen d + STREAM_CHUNK_SIZE - 1) / STREAM_CHUNK_SIZE).
  { unfold zlen in *. by rewrite Hl. }
  destruct (zlen d =? 0) eqn:H0; bool_to_Z.
  { intros [= <- <-]. rewrite H0 in *. destruct cs as [|c cs]; [|done].
    destruct d; [|unfold zlen in H0; simpl in H0; lia]. injection Hrun as <-. done. }
  rewrite (proj2 (Z.ltb_ge _ _)) by done. pose proof (zlen_nonneg d).
  change MAX_BLOCK_DATA with STREAM_CHUNK_SIZE.
  destruct (zlen d <=? STREAM_CHUNK_SIZE) eqn:H1; bool_to_Z.
  - intros Hw. rewrite chunks_step in Hrun by (done || (intros ->; done)). rewrite sub_all in Hrun by lia.
    rewrite drop_ge in Hrun by (unfold zlen, STREAM_CHUNK_SIZE, MAX_BLOCK_DATA in *; lia).
    rewrite push_leaves_cons, Hw, bind_ok in Hrun. injection Hrun as <- <-. done.
  - rewrite Hrun, bind_ok. simpl fst. simpl snd. intros Hw. destruct cs as [|c1 [|c2 cs]].
    + exfalso. change (zlen []) with 0 in Hzl. symmetry in Hzl. apply Z.div_small_iff in Hzl; unfold STREAM_CHUNK_SIZE, MAX_BLOCK_DATA in *; lia.
    + exfalso. change (zlen [c1]) with 1 in Hzl. assert (2 <= (zlen d + STREAM_CHUNK_SIZE - 1) / STREAM_CHUNK_SIZE); [|lia].
      apply Z.div_le_lower_bound; unfold STREAM_CHUNK_SIZE, MAX_BLOCK_DATA in *; lia.
    + by rewrite Hw.
Qed.

(** Every stream is written or undone. *)
Lemma from_reader_settles ly e s :
  ly_ok ly e →
  ∃ r ly', write_data_chain_from_reader ly s = (r, ly') ∧
    match r with
    | Ok (bid, total) => ∃ e', grows ly e ly' e' ∧ data_tree (has_block ly' e') bid (delivered s).1 ∧
        total = zlen (delivered s).1 ∧ total <= I32_MAX ∧ (delivered s).2 = None
    | Err err => stream_fault s 0 err ∧ ∃ ly1 e1 lost e',
        write_data_chain_from_reader_inner ly s = (Err err, ly1) ∧ ly_eager ly1 = Some e1 ∧
        am_pages (eg_amap e1) = am_pages (eg_amap e) ++ lost ∧ ly_eager ly' = Some e' ∧ undone lost ly e ly' e'
    | _ => False
    end.
Proof.
  intros Hok. unfold write_data_chain_from_reader, write_data_chain_from_reader_inner.
  destruct (stream_chunks_grows (stream_fuel s) ly e s [] 0 []) as (r & ly1 & e1 & -> & Hg & Hr).
  { done. }
  { pose proof (delivered_source_bytes s). unfold stream_fuel. lia. }
  { split_and!; [constructor|done|done]. }
  { done. }
  destruct r as [[acc total]|err| |]; [|clear -Hg Hr Hok|done|done].
  2: { destruct (rollback_undoes ly e ly1 e1 Hok Hg) as (lost & e' & He' & Hlost & Hun). eexists _, _. split; [done|]. split; [done|].
       exists ly1, e1, lost, e'. split_and!; [done|apply (lo_eager _ _ (gr_ok _ _ _ _ Hg))|done|done|done]. }
  destruct Hr as (Hfull & Herr & ps & (Hcs & -> & Hmax) & Hcat). cbn [concat app] in Hcat. rewrite <-Hcat.
  destruct acc as [|c1 [|c2 acc]].
  - inversion Hcs; subst. eexists _, ly1. split; [done|]. exists e1. split_and!; [done|constructor|done..].
  - apply Forall2_cons_inv_l in Hcs as (p & ps' & [Hl _] & Hnil & ->). apply Forall2_nil_inv_l in Hnil as ->.
    eexists _, ly1. split; [done|]. exists e1. simpl in *. rewrite app_nil_r in *. split_and!; [done|by apply tree_leaf|done..].
  - destruct (build_chain_root_spec ly1 e1 (c1 :: c2 :: acc) ps) as (bid & ly2 & -> & Hg2 & Ht).
    + apply Hg.
    + done.
    + unfold I32_MAX in Hmax. lia.
    + unfold STREAM_CHUNK_SIZE, MAX_XBLOCK_ENTRIES, MAX_BLOCK_DATA, I32_MAX in *. change ((8176 - 8) / 8) with 1021. lia.
    + eexists _, ly2. split; [done|]. exists e1. split_and!; [by eapply grows_trans|done..].
Qed.
End streams.
