(* ===== verification/TreeWriter.v ===== *)
(** * Writing the node database (pst-writer/src/production.rs)

    Planning the pages of the two B-trees, writing them level by level, and
    finalizing the staging file: header, AMap pages, both trees and the blocks that
    are still in memory. *)

From S2P Require Import Prelude PstError Header PropContext WriterHeap Layout DataChain.
#[local] Open Scope Z_scope.

Definition INTERMEDIATE_ENTRY_SIZE : Z := 24.
Definition INTERMEDIATE_ENTRIES_PER_PAGE : Z := 488 / INTERMEDIATE_ENTRY_SIZE.
Definition NBT_LEAF_ENTRY_SIZE : Z := 32.
Definition BBT_LEAF_ENTRY_SIZE : Z := 24.

Definition div_ceil (a b : Z) : Z := (a + b - 1) / b.

(** ** Planning *)

(** [TreePlan] *)
Record tree_plan := {
  tp_ptype : Z; tp_levels : list (list Z); tp_leaf_entry_size : Z; per_leaf_capacity : Z }.

(** [(0..n).map(|_| self.reserve_page(ptype))] *)
Fixpoint reserve_pages (n : nat) (ptype : Z) (ly : layout) : wres (list Z * layout) :=
  match n with
  | O => Ok ([], ly)
  | S n =>
      r ← reserve_page ly ptype;
      rest ← reserve_pages n ptype r.2;
      Ok (r.1 :: rest.1, rest.2)
  end.

(** The [while] loop: one level of pages above [prev_len] pages, until there is one. *)
Fixpoint plan_levels (fuel : nat) (ptype prev_len : Z) (ly : layout) : wres (list (list Z) * layout) :=
  match fuel with
  | O => NoFuel
  | S fuel =>
      if 1 <? prev_len then
        let next_count := Z.max (div_ceil prev_len INTERMEDIATE_ENTRIES_PER_PAGE) 1 in
        next ← reserve_pages (Z.to_nat next_count) ptype ly;
        rest ← plan_levels fuel ptype next_count next.2;
        Ok (next.1 :: rest.1, rest.2)
      else Ok ([], ly)
  end.

(** [Layout::plan_tree] *)
Definition plan_tree (ly : layout) (ptype leaf_entry_size entry_count : Z) : wres (tree_plan * layout) :=
  let per_leaf := Z.max (488 / leaf_entry_size) 1 in
  let leaf_count := Z.max (div_ceil entry_count per_leaf) 1 in
  leaves ← reserve_pages (Z.to_nat leaf_count) ptype ly;
  rest ← plan_levels (S (Z.to_nat leaf_count)) ptype leaf_count leaves.2;
  Ok ({| tp_ptype := ptype; tp_levels := leaves.1 :: rest.1; tp_leaf_entry_size := leaf_entry_size;
         per_leaf_capacity := per_leaf |}, rest.2).

(** [page_offset_map]: collecting into a map keeps the last of equal keys. *)
Definition page_offset_map (ly : layout) : gmap Z Z :=
  foldl (λ m p, <[pe_bid p := pe_offset p]> m) ∅ (ly_pages ly).

(** [l[k]] and [l[k]?] of a vector of integers. *)
Definition at_ (l : list Z) (k : nat) : wres Z := match l !! k with Some x => Ok x | None => Panic end.

(** ** Pages *)

Section pages.
Context `{Crc : Crc32}.

(** The page that [write_bt_page] writes. *)
Definition bt_page (offset bid ptype c_level : Z) (entries_region : list byte) (c_entries entry_size : Z) : list byte :=
  let n := Z.min (zlen entries_region) 488 in
  let c_ent_max := Z.min (488 / Z.max entry_size 1) 255 in
  let body := sub entries_region 0 n ++ zeros (488 - n) ++
              map byte.of_Z [c_entries; c_ent_max; 8; c_level] ++ zeros 4 in
  body ++ [byte.of_Z ptype; byte.of_Z ptype] ++ le_split 2 (compute_page_sig offset bid) ++
  le_split 4 (crc32 body) ++ le_split 8 bid.

(** [seek] and [write_all]. *)
Definition put_at (f : file_state) (offset : Z) (bytes : list byte) : file_state :=
  f_write_all (f_seek f offset) bytes.

(** [write_all_amap_pages_v1] *)
Definition write_all_amap_pages_v1 (f : file_state) (ly : layout) : wres file_state :=
  match base.filter (λ p, pe_ptype p = PTYPE_AMAP) (ly_pages ly) with
  | [] => Err MissingAmapPage
  | amaps => Ok (foldl (λ f p, put_at f (pe_offset p) (amap_page (pe_offset p) (pe_bid p))) f amaps)
  end.

(** [encode_nbt_leaf], [encode_bbt_leaf] *)
Definition encode_nbt_leaf (n : node_entry) : list byte :=
  le_split 8 (ne_nid n) ++ le_split 8 (ne_bid_data n) ++ le_split 8 (ne_bid_sub n) ++
  le_split 4 (wrap 32 (ne_nid_parent n)) ++ zeros 4.
Definition encode_bbt_leaf (b : block_entry) : list byte :=
  le_split 8 (be_bid b) ++ le_split 8 (be_offset b) ++ le_split 2 (wrap 16 (payload_len b)) ++
  le_split 2 1 ++ zeros 4.

(** ** Trees *)

(** The leaf pages: a region of records and their number for each planned page. *)
Fixpoint write_leaves (plan : tree_plan) (offsets : gmap Z Z) (bids : list Z) (i : nat)
    (leaf_pages : list (list byte * Z)) (f : file_state) : wres file_state :=
  match bids with
  | [] => Ok f
  | bid :: bids =>
      offset ← ok_or (offsets !! bid) (MissingPageOffset bid);
      match leaf_pages !! i with
      | None => Panic
      | Some (region, c_entries) =>
          write_leaves plan offsets bids (S i) leaf_pages
            (put_at f offset (bt_page offset bid (tp_ptype plan) 0 region c_entries (tp_leaf_entry_size plan)))
      end
  end.

(** One child reference: smallest key, page ID, page offset. *)
Definition child_entry (offsets : gmap Z Z) (prev_bids prev_min_keys : list Z) (k : nat) : wres (list byte) :=
  child_bid ← at_ prev_bids k;
  child_offset ← ok_or (offsets !! child_bid) (MissingPageOffset child_bid);
  key ← at_ prev_min_keys k;
  Ok (le_split 8 key ++ le_split 8 child_bid ++ le_split 8 child_offset).

(** The pages of one intermediate level: the keys of the level and the file. *)
Fixpoint write_level (plan : tree_plan) (offsets : gmap Z Z) (prev_bids prev_min_keys : list Z) (level_idx : Z)
    (level_bids : list Z) (child_idx : nat) (f : file_state) : wres (list Z * file_state) :=
  match level_bids with
  | [] => Ok ([], f)
  | bid :: level_bids =>
      let stop := Nat.min (child_idx + Z.to_nat INTERMEDIATE_ENTRIES_PER_PAGE) (length prev_bids) in
      if (stop <=? child_idx)%nat then Ok ([], f)
      else
        entries ← rmap (child_entry offsets prev_bids prev_min_keys) (seq child_idx (stop - child_idx));
        key ← at_ prev_min_keys child_idx;
        offset ← ok_or (offsets !! bid) (MissingPageOffset bid);
        let page := bt_page offset bid (tp_ptype plan) (wrap 8 level_idx) (concat entries)
                      (wrap 8 (Z.of_nat (stop - child_idx))) INTERMEDIATE_ENTRY_SIZE in
        rest ← write_level plan offsets prev_bids prev_min_keys level_idx level_bids stop (put_at f offset page);
        Ok (key :: rest.1, rest.2)
  end.

(** The intermediate levels, bottom up. *)
Fixpoint write_levels (plan : tree_plan) (offsets : gmap Z Z) (prev_bids prev_min_keys : list Z) (level_idx : Z)
    (levels : list (list Z)) (f : file_state) : wres file_state :=
  match levels with
  | [] => Ok f
  | level_bids :: levels =>
      r ← write_level plan offsets prev_bids prev_min_keys level_idx level_bids 0 f;
      write_levels plan offsets level_bids r.1 (level_idx + 1) levels r.2
  end.

(** [write_tree] *)
Definition write_tree (plan : tree_plan) (offsets : gmap Z Z) (leaf_min_keys : list Z)
    (leaf_pages : list (list byte * Z)) (f : file_state) : wres file_state :=
  match tp_levels plan with
  | [] => Panic
  | leaves :: levels =>
      f ← write_leaves plan offsets leaves 0 leaf_pages f;
      write_levels plan offsets leaves leaf_min_keys 1 levels f
  end.

(** The leaf regions and smallest keys of sorted records; at least one page. *)
Definition leaf_regions {A} (key : A → Z) (encode : A → list byte) (capacity : Z) (sorted : list A)
    : list Z * list (list byte * Z) :=
  match chunks capacity sorted with
  | [] => ([0], [([], 0)])
  | pages =>
      (map (λ c, match c with [] => 0 | x :: _ => key x end) pages,
       map (λ c, (c ≫= encode, wrap 8 (zlen c))) pages)
  end.

(** [write_nbt] *)
Definition write_nbt (ly : layout) (plan : tree_plan) (offsets : gmap Z Z) (f : file_state) : wres file_state :=
  let sorted := sort_on ne_nid (ly_nodes ly) in
  match first_repeat (map ne_nid sorted) with
  | Some nid => Err (DuplicateNodeId nid)
  | None =>
      let '(keys, pages) := leaf_regions ne_nid encode_nbt_leaf (per_leaf_capacity plan) sorted in
      write_tree plan offsets keys pages f
  end.

(** [write_bbt] *)
Definition write_bbt (ly : layout) (plan : tree_plan) (offsets : gmap Z Z) (f : file_state) : wres file_state :=
  let sorted := sort_on be_bid (ly_blocks ly) in
  let '(keys, pages) := leaf_regions be_bid encode_bbt_leaf (per_leaf_capacity plan) sorted in
  write_tree plan offsets keys pages f.

(** ** Header and finalization *)

(** [plan.levels.last().and_then(|l| l.first())] *)
Definition plan_root (plan : tree_plan) : wres Z :=
  ok_or (last (tp_levels plan) ≫= head) (EmptyTreePlan (tp_ptype plan)).

(** The bytes that [write_header_v1] writes, given what it looks up. *)
Definition header_bytes (file_size amap_last next_bid nbt_bid nbt_offset bbt_bid bbt_offset : Z) : list byte :=
  let buf :=
    le_split 4 PST_MAGIC ++ le_split 4 0 ++ le_split 2 CLIENT_MAGIC ++ le_split 2 23 ++ le_split 2 0x36 ++
    [Byte.x01; Byte.x01] ++ le_split 4 0 ++ le_split 4 0 ++ le_split 8 0 ++ le_split 8 next_bid ++
    le_split 4 1 ++ zeros 128 ++ le_split 8 0 ++
    le_split 4 0 ++ le_split 8 file_size ++ le_split 8 amap_last ++ le_split 8 0 ++ le_split 8 0 ++
    le_split 8 nbt_bid ++ le_split 8 nbt_offset ++ le_split 8 bbt_bid ++ le_split 8 bbt_offset ++
    [Byte.x01] ++ zeros 3 ++
    le_split 4 0 ++ zeros 256 ++ [Byte.x80; Byte.x00] ++ le_split 2 0 ++ le_split 8 next_bid in
  buf ++ zeros (HEADER_SIZE - zlen buf).

(** [write_header_v1], at the cursor *)
Definition write_header_v1 (ly : layout) (nbt_plan bbt_plan : tree_plan) (f : file_state) : wres file_state :=
  nbt_bid ← plan_root nbt_plan;
  bbt_bid ← plan_root bbt_plan;
  let offsets := page_offset_map ly in
  nbt_offset ← ok_or (offsets !! nbt_bid) (MissingPageOffset nbt_bid);
  bbt_offset ← ok_or (offsets !! bbt_bid) (MissingPageOffset bbt_bid);
  amap_last ← ok_or (ib_amap_last ly) MissingAmapPage;
  Ok (f_write_all f (header_bytes (file_size ly) amap_last (next_bid_counter (ly_bids ly))
                       nbt_bid nbt_offset bbt_bid bbt_offset)).

(** The loop over the blocks that are not on disk yet. *)
Definition write_blocks (blocks : list block_entry) (f : file_state) : file_state :=
  foldl (λ f b, if be_on_disk b then f else put_at f (be_offset b) (data_block (be_bid b) (be_data b))) f blocks.

(** The end of [write_unicode_pst_streaming]: plan both trees, fix the offsets,
    write everything that is not on disk. *)
Definition finalize_layout (ly : layout) : wres (layout * tree_plan * tree_plan) :=
  nbt ← plan_tree ly PTYPE_NBT NBT_LEAF_ENTRY_SIZE (zlen (ly_nodes ly));
  bbt ← plan_tree nbt.2 PTYPE_BBT BBT_LEAF_ENTRY_SIZE (zlen (ly_blocks nbt.2));
  ly ← calculate_offsets bbt.2;
  Ok (ly, nbt.1, bbt.1).

Definition finalize_file (ly : layout) (nbt_plan bbt_plan : tree_plan) : wres file_state :=
  e ← ok_or (ly_eager ly) EagerWriterMissing;
  f ← write_header_v1 ly nbt_plan bbt_plan (f_seek (eg_file e) 0);
  f ← write_all_amap_pages_v1 f ly;
  let offsets := page_offset_map ly in
  f ← write_nbt ly nbt_plan offsets f;
  f ← write_bbt ly bbt_plan offsets f;
  Ok (write_blocks (ly_blocks ly) f).

Definition finalize_ndb (ly : layout) : wres (list byte) :=
  r ← finalize_layout ly;
  f ← finalize_file r.1.1 r.1.2 r.2;
  Ok (f_bytes f).
End pages.
