(* ===== verification/NdbLayout.v ===== *)
(** * Planning and placing the node database

    Planning the two B-trees reserves pages in levels that narrow to one root;
    [calculate_offsets] then puts every page, AMap page and in-memory block into a
    range of its own ([spaced]). *)

From S2P Require Import Prelude PstError Header Block PropContext WriterHeap Layout LayoutFacts DataChain DataChainFacts TreeWriter.
#[local] Open Scope Z_scope.

(** ** Planning *)

(** ** Sorting and filtering *)

Lemma sort_on_perm {A} (key : A → Z) (l : list A) : sort_on key l ≡ₚ l.
Proof.
  unfold sort_on. rewrite sort_by_key_perm, map_map. simpl. by rewrite map_id.
Qed.

Lemma filter_all {A} (P : A → Prop) `{∀ x, Decision (P x)} (l : list A) : Forall P l → base.filter P l = l.
Proof. induction 1 as [|x l Hx _ IH]; [done|]. by rewrite filter_cons_True, IH. Qed.

Lemma filter_none {A} (P : A → Prop) `{∀ x, Decision (P x)} (l : list A) : Forall (λ x, ¬ P x) l → base.filter P l = [].
Proof. induction 1 as [|x l Hx _ IH]; [done|]. by rewrite filter_cons_False, IH. Qed.

Section planning.
Context `{Crc : Crc32}.

(** Adding B-tree pages to a layout, under fresh IDs. *)
Record reserves (ptype : Z) (ly : layout) (e : eager_ctx) (bids : list Z) (ly' : layout) : Prop := {
  rv_ok : ly_ok ly' e;
  rv_pages : ly_pages ly' = ly_pages ly ++ map (λ bid, {| pe_bid := bid; pe_ptype := ptype; pe_offset := 0 |}) bids;
  rv_blocks : ly_blocks ly' = ly_blocks ly;
  rv_nodes : ly_nodes ly' = ly_nodes ly;
  rv_next : next_bid_counter (ly_bids ly) <= next_bid_counter (ly_bids ly') }.

Lemma reserves_nil ptype ly e : ly_ok ly e → reserves ptype ly e [] ly.
Proof. intros. split; [done|by rewrite app_nil_r|done|done|lia]. Qed.

Lemma reserves_app ptype ly e bs1 ly1 bs2 ly2 :
  reserves ptype ly e bs1 ly1 → reserves ptype ly1 e bs2 ly2 → reserves ptype ly e (bs1 ++ bs2) ly2.
Proof.
  intros [O1 P1 B1 N1 X1] [O2 P2 B2 N2 X2]. split; [done| |congruence|congruence|lia].
  by rewrite P2, P1, map_app, (assoc_L (++)).
Qed.

Lemma reserve_page_spec ptype ly e :
  ptype ≠ PTYPE_AMAP → ly_ok ly e → ∃ bid ly', reserve_page ly ptype = Ok (bid, ly') ∧ reserves ptype ly e [bid] ly'.
Proof.
  intros Hty Hok. destruct (ly_ok_alloc ly e true Hok) as (bid & b' & Ha & Hf & Hok1 & Hk1 & Hnew).
  unfold reserve_page. rewrite Ha, bind_ok. eexists bid, _. split; [done|].
  split; [|done|done|done|apply Hk1]. destruct Hok1. split; try done; simpl.
  - unfold ids in *. simpl in *. rewrite map_app. simpl. rewrite <-(assoc_L (++)). simpl.
    rewrite (assoc_L (++)), <-Permutation_middle, <-(assoc_L (++)). by constructor.
  - intros x Hx. unfold ids in *. simpl in *. rewrite map_app, !elem_of_app in Hx. simpl in Hx.
    rewrite list_elem_of_singleton in Hx. assert (Hx' : x = bid ∨ x ∈ ids ly e).
    { unfold ids. rewrite !elem_of_app. tauto. }
    destruct Hx' as [->|Hx']; [rewrite (fb_used _ _ _ _ Hf); set_solver|]. by apply lo_used.
  - apply Forall_app. split; [done|]. by repeat constructor.
Qed.

Lemma reserve_pages_spec n ptype ly e :
  ptype ≠ PTYPE_AMAP → ly_ok ly e →
  ∃ bids ly', reserve_pages n ptype ly = Ok (bids, ly') ∧ reserves ptype ly e bids ly' ∧ length bids = n.
Proof.
  intros Hty. revert ly. induction n as [|n IH]; intros ly Hok.
  { exists [], ly. split_and!; [done|by apply reserves_nil|done]. }
  destruct (reserve_page_spec ptype ly e Hty Hok) as (bid & ly1 & Hr1 & H1).
  destruct (IH ly1 (rv_ok _ _ _ _ _ H1)) as (bids & ly2 & Hr2 & H2 & Hlen).
  exists (bid :: bids), ly2. simpl. rewrite Hr1, bind_ok. simpl. rewrite Hr2, bind_ok.
  split_and!; [done|by apply (reserves_app _ _ _ [bid] _ _ _ H1)|simpl; by rewrite Hlen].
Qed.

(** The levels above [n] pages: each has one page per 20 of the level below it,
    down to a single root. *)
Inductive tower : Z → list (list Z) → Prop :=
| tower_root : tower 1 []
| tower_level n level levels :
    1 < n → zlen level = div_ceil n INTERMEDIATE_ENTRIES_PER_PAGE → tower (zlen level) levels →
    tower n (level :: levels).

Lemma div_ceil_20 n : 1 < n → 1 <= div_ceil n INTERMEDIATE_ENTRIES_PER_PAGE < n ∧
  n <= 20 * div_ceil n INTERMEDIATE_ENTRIES_PER_PAGE < n + 20.
Proof.
  intros Hn. unfold div_ceil. change INTERMEDIATE_ENTRIES_PER_PAGE with 20.
  pose proof (Z.div_mod (n + 20 - 1) 20). pose proof (Z.mod_pos_bound (n + 20 - 1) 20). lia.
Qed.

Lemma plan_levels_spec fuel ptype n ly e :
  ptype ≠ PTYPE_AMAP → ly_ok ly e → 1 <= n → n < Z.of_nat fuel →
  ∃ levels ly', plan_levels fuel ptype n ly = Ok (levels, ly') ∧ reserves ptype ly e (concat levels) ly' ∧ tower n levels.
Proof.
  intros Hty. revert n ly. induction fuel as [|fuel IH]; intros n ly Hok Hn Hf; [lia|].
  simpl. destruct (1 <? n) eqn:H1; bool_to_Z.
  - pose proof (div_ceil_20 n H1) as [Hd _]. rewrite Z.max_l by lia.
    destruct (reserve_pages_spec (Z.to_nat (div_ceil n INTERMEDIATE_ENTRIES_PER_PAGE)) ptype ly e Hty Hok)
      as (bids & ly1 & -> & Hr1 & Hlen). rewrite bind_ok. simpl.
    destruct (IH (div_ceil n INTERMEDIATE_ENTRIES_PER_PAGE) ly1 (rv_ok _ _ _ _ _ Hr1)) as (levels & ly2 & -> & Hr2 & Ht); [lia|lia|].
    rewrite bind_ok. exists (bids :: levels), ly2. simpl. split_and!; [done|by eapply reserves_app|].
    assert (Hz : zlen bids = div_ceil n INTERMEDIATE_ENTRIES_PER_PAGE) by (unfold zlen; rewrite Hlen; lia).
    constructor; [done|done|by rewrite Hz].
  - exists [], ly. split_and!; [done|by apply reserves_nil|]. replace n with 1 by lia. constructor.
Qed.

(** The height of a tower is logarithmic. *)
Lemma tower_height n levels : tower n levels → 0 < zlen levels → 20 ^ (zlen levels - 1) < n.
Proof.
  induction 1 as [|n level levels Hn Hlv _ IH]; intros Hpos; [by unfold zlen in Hpos; simpl in Hpos|].
  rewrite zlen_cons in *. pose proof (zlen_nonneg levels). pose proof (div_ceil_20 n Hn). rewrite <-Hlv in *.
  destruct (decide (zlen levels = 0)) as [->|Hl]; [simpl; lia|]. specialize (IH ltac:(lia)).
  replace (1 + zlen levels - 1) with (Z.succ (zlen levels - 1)) by lia. rewrite Z.pow_succ_r by lia. lia.
Qed.

(** The plan of a tree over [count] records. *)
Record planned (ptype entry_size count : Z) (plan : tree_plan) : Prop := {
  pl_ptype : tp_ptype plan = ptype;
  pl_size : tp_leaf_entry_size plan = entry_size;
  pl_capacity : per_leaf_capacity plan = Z.max (488 / entry_size) 1;
  pl_levels : ∃ leaves rest, tp_levels plan = leaves :: rest ∧
    zlen leaves = Z.max (div_ceil count (per_leaf_capacity plan)) 1 ∧ tower (zlen leaves) rest }.

Lemma plan_tree_spec ly e ptype entry_size count :
  ptype ≠ PTYPE_AMAP → ly_ok ly e →
  ∃ plan ly', plan_tree ly ptype entry_size count = Ok (plan, ly') ∧
    reserves ptype ly e (concat (tp_levels plan)) ly' ∧ planned ptype entry_size count plan.
Proof.
  intros Hty Hok. unfold plan_tree. set (cap := Z.max (488 / entry_size) 1). set (n := Z.max (div_ceil count cap) 1).
  destruct (reserve_pages_spec (Z.to_nat n) ptype ly e Hty Hok) as (bids & ly1 & -> & Hr1 & Hlen). rewrite bind_ok. cbn [fst snd].
  destruct (plan_levels_spec (S (Z.to_nat n)) ptype n ly1 e Hty (rv_ok _ _ _ _ _ Hr1)) as (levels & ly2 & -> & Hr2 & Ht); [lia|lia|].
  rewrite bind_ok. eexists _, ly2. split; [done|]. simpl. split; [by eapply reserves_app|].
  assert (Hz : zlen bids = n) by (unfold zlen; rewrite Hlen; lia).
  split; [done..|]. exists bids, levels. split_and!; [done|done|by rewrite Hz].
Qed.
End planning.

(** ** Placement *)

Section placement.
Context `{Crc : Crc32}.

(** Regions that follow one another between two positions, clear of the slots. *)
Fixpoint laid (lo : Z) (rs : list (Z * Z)) (hi : Z) : Prop :=
  match rs with
  | [] => lo <= hi
  | (o, n) :: rs => lo <= o ∧ 0 < n ∧ clear o n ∧ laid (o + n) rs hi
  end.

Lemma laid_le lo rs hi : laid lo rs hi → lo <= hi.
Proof. revert lo. induction rs as [|[o n] rs IH]; intros lo; simpl; [done|]. intros (? & ? & _ & ?%IH). lia. Qed.

Lemma laid_app lo rs1 mid rs2 hi : laid lo rs1 mid → laid mid rs2 hi → laid lo (rs1 ++ rs2) hi.
Proof.
  revert lo. induction rs1 as [|[o n] rs1 IH]; intros lo; simpl.
  - intros H1 H2. destruct rs2 as [|[o n] rs2]; simpl in *; [lia|]. destruct H2 as (? & ? & ? & ?). split_and!; try done. lia.
  - intros (Ho & Hn & Hc & Hl) H2. split_and!; try done. by apply IH.
Qed.

Lemma laid_in lo rs hi o n : laid lo rs hi → (o, n) ∈ rs → lo <= o ∧ o + n <= hi ∧ 0 < n ∧ clear o n.
Proof.
  revert lo. induction rs as [|[o' n'] rs IH]; intros lo Hl Hin; [set_solver|].
  destruct Hl as (? & ? & ? & Hl). pose proof (laid_le _ _ _ Hl). apply elem_of_cons in Hin as [[= -> ->]|Hin].
  - split_and!; try done; lia.
  - apply (IH _ Hl) in Hin as (? & ? & ? & ?). split_and!; try done; lia.
Qed.

(** Earlier regions end before later ones begin. *)
Lemma laid_order lo rs hi i j a b :
  laid lo rs hi → (i < j)%nat → rs !! i = Some a → rs !! j = Some b → a.1 + a.2 <= b.1.
Proof.
  revert lo i j. induction rs as [|[o n] rs IH]; intros lo i j Hl Hij Ha Hb; [done|].
  destruct Hl as (? & ? & ? & Hl). destruct j as [|j]; [lia|]. simpl in Hb. destruct i as [|i].
  - injection Ha as <-. simpl. apply list_elem_of_lookup_2 in Hb. destruct b as [o' n'].
    apply (laid_in _ _ _ _ _ Hl) in Hb as (? & _). simpl. lia.
  - by apply (IH (o + n) i j); [|lia|..].
Qed.

Definition page_region (p : page_entry) : Z * Z := (pe_offset p, PAGE_SIZE).
Definition block_region (b : block_entry) : Z * Z := (be_offset b, block_span (be_len b)).

(** The same page or block, possibly placed elsewhere. *)
Definition same_page (p p' : page_entry) : Prop := pe_bid p' = pe_bid p ∧ pe_ptype p' = pe_ptype p.
Definition same_block (b b' : block_entry) : Prop :=
  be_bid b' = be_bid b ∧ be_data b' = be_data b ∧ be_len b' = be_len b ∧ be_on_disk b' = be_on_disk b ∧
  (be_on_disk b = true → be_offset b' = be_offset b).

Definition place_ok (p : placement) : Prop :=
  HEADER_SIZE <= pl_cursor p ∧ outside (pl_cursor p) ∧ amap_ok (pl_amap p) ∧ bids_ok (pl_bids p).

Lemma placed_ok size align p off p' :
  0 < size → placed size align p off p' → place_ok p → place_ok p'.
Proof.
  intros Hs [H1 _ H2 Hc [_ ? ? _]] (? & ? & ? & ?). split_and!; try done; [lia|].
  rewrite H2. destruct (clear_outside _ _ Hc); [done|lia].
Qed.

Lemma place_pages_spec pages p :
  place_ok p → Forall (λ q, pe_offset q = 0) pages →
  ∃ pages' p', place_pages pages p = Ok (pages', p') ∧ Forall2 same_page pages pages' ∧
    laid (pl_cursor p) (map page_region pages') (pl_cursor p') ∧ place_ok p' ∧
    extends (pl_amap p) (pl_bids p) (pl_amap p') (pl_bids p').
Proof.
  intros Hp Hz. revert p Hp. induction Hz as [|q pages Hq _ IH]; intros p Hp.
  { exists [], p. pose proof Hp as (_ & _ & ? & ?). simpl. split_and!; [done|constructor|lia|done|by apply extends_refl]. }
  simpl. rewrite Hq. simpl. destruct Hp as (? & ? & ? & ?).
  destruct (amap_place_region_spec PAGE_SIZE 1 p) as (off & p1 & -> & Hpl); try done; [by exists 64|].
  rewrite bind_ok. simpl. destruct (IH p1) as (pages' & p2 & -> & Hs & Hl & Hp2 & He); [eapply placed_ok; [|exact Hpl|by split_and!]; done|].
  rewrite bind_ok. eexists _, p2. split; [done|]. destruct Hpl as [H3 _ H4 H5 H6]. split_and!.
  - by constructor.
  - simpl. split_and!; [done|done|done|]. by rewrite H4 in Hl.
  - done.
  - by eapply extends_trans.
Qed.

(** The regions of the blocks that are still in memory. *)
Definition mem_regions (blocks : list block_entry) : list (Z * Z) :=
  map block_region (base.filter (λ b, be_on_disk b = false) blocks).
Definition disk_regions (blocks : list block_entry) : list (Z * Z) :=
  map block_region (base.filter (λ b, be_on_disk b = true) blocks).

Lemma place_blocks_spec e blocks p :
  place_ok p → Forall (block_ok e) blocks →
  ∃ blocks' p', place_blocks blocks p = Ok (blocks', p') ∧ Forall2 same_block blocks blocks' ∧
    laid (pl_cursor p) (mem_regions blocks') (pl_cursor p') ∧ place_ok p' ∧
    extends (pl_amap p) (pl_bids p) (pl_amap p') (pl_bids p').
Proof.
  intros Hp Hz. revert p Hp. induction Hz as [|b blocks Hb _ IH]; intros p Hp.
  { exists [], p. pose proof Hp as (_ & _ & ? & ?). simpl. split_and!; [done|constructor|simpl; lia|done|by apply extends_refl]. }
  simpl. destruct (be_on_disk b) eqn:Hd.
  - destruct (bk_disk _ _ Hb Hd) as (? & _ & _). rewrite (proj2 (Z.eqb_neq _ _)) by (unfold HEADER_SIZE in *; lia). simpl.
    destruct (IH p Hp) as (blocks' & p2 & -> & Hs & Hl & Hp2 & He). rewrite bind_ok.
    eexists _, p2. split; [done|]. split_and!; [|by unfold mem_regions; simpl; rewrite filter_cons_False by (rewrite Hd; done)|done|done].
    constructor; [|done]. by split_and!.
  - simpl. destruct Hp as (? & ? & ? & ?). destruct (bk_content _ _ Hb) as (payload & Hpl & _).
    assert (Hf : fits (block_span (be_len b))).
    { apply block_span_fits. pose proof (bk_len _ _ Hb). pose proof (zlen_nonneg payload). lia. }
    destruct (amap_place_region_spec (block_span (be_len b)) BLOCK_ALIGN p Hf) as (off & p1 & Hrun & Hpd); try done.
    unfold payload_len. rewrite Hrun, bind_ok. simpl.
    destruct (IH p1) as (blocks' & p2 & -> & Hs & Hl & Hp2 & He); [eapply placed_ok; [|done|by split_and!]; apply Hf|].
    rewrite bind_ok. eexists _, p2. split; [done|]. destruct Hpd as [H3 _ H4 H5 H6]. split_and!.
    + constructor; [|done]. split_and!; try done; simpl. by rewrite Hd.
    + unfold mem_regions. rewrite filter_cons_True by done. simpl. split_and!; [done|apply Hf|done|]. by rewrite H4 in Hl.
    + done.
    + by eapply extends_trans.
Qed.

(** *** Registering every slot *)

Lemma slot_lt k : slot k + PAGE_SIZE <= slot (k + 1).
Proof. unfold slot, PAGE_SIZE, AMAP_INTERVAL. lia. Qed.

Lemma ensure_slots_spec fuel k file_end am b :
  0 <= k → (0 < fuel)%nat → file_end <= slot (k + Z.of_nat fuel - 1) → amap_ok am → bids_ok b →
  ∃ file_end' am' b', ensure_slots fuel (slot k) file_end am b = Ok (file_end', am', b') ∧
    extends am b am' b' ∧ file_end <= file_end' ∧ (file_end' <= file_end ∨ ∃ j, k <= j ∧ slot j < file_end ∧ file_end' = slot j + PAGE_SIZE) ∧
    (∀ j, k <= j → slot j < file_end → slot j ∈ am_offsets am').
Proof.
  revert k file_end am b. induction fuel as [|fuel IH]; intros k file_end am b Hk Hf Hfe Ha Hb; [lia|]. simpl.
  destruct (slot k <? file_end) eqn:Hlt; bool_to_Z.
  - destruct (amap_ensure_page_spec k am b Hk Ha Hb) as (am1 & b1 & -> & Hex & Hin). rewrite bind_ok. simpl.
    destruct fuel as [|fuel]; [replace (k + Z.of_nat 1 - 1) with k in Hfe by lia; lia|].
    pose proof (slot_lt k) as Hsl. replace (slot k + AMAP_INTERVAL) with (slot (k + 1)) by (unfold slot; lia).
    destruct (IH (k + 1) (Z.max file_end (slot k + PAGE_SIZE)) am1 b1) as (fe & am2 & b2 & -> & Hex2 & Hge & Hcase & Hall);
      [lia|lia| |apply Hex|apply Hex|].
    { replace (k + 1 + Z.of_nat (S fuel) - 1) with (k + Z.of_nat (S (S fuel)) - 1) by lia.
      assert (slot (k + 1) <= slot (k + Z.of_nat (S (S fuel)) - 1)) by (unfold slot, AMAP_INTERVAL; lia). lia. }
    exists fe, am2, b2. split_and!; [done|by eapply extends_trans|lia| |].
    + assert (Hj : ∀ j, k + 1 <= j → slot j < Z.max file_end (slot k + PAGE_SIZE) → slot j < file_end).
      { intros j ??. assert (slot (k + 1) <= slot j) by (unfold slot, AMAP_INTERVAL; lia). lia. }
      destruct Hcase as [Hle|(j & ? & Hsj & ->)].
      * destruct (decide (file_end <= slot k + PAGE_SIZE)); [right; exists k; lia|left; lia].
      * right. exists j. split_and!; [lia|by apply Hj|done].
    + intros j Hkj Hsj. destruct (decide (j = k)) as [->|Hne].
      * destruct Hex2 as [(n & _ & _ & _ & _ & ->) _ _ _]. set_solver.
      * apply Hall; lia.
  - exists file_end, am, b. split_and!; [done|by apply extends_refl|lia|left; lia|].
    intros j Hkj Hsj. assert (slot k <= slot j) by (unfold slot, AMAP_INTERVAL; lia). lia.
Qed.

Lemma ensure_slots_idle fuel k file_end am b :
  0 <= k → (0 < fuel)%nat → file_end <= slot (k + Z.of_nat fuel - 1) → 
  (∀ j, k <= j → slot j < file_end → slot j ∈ am_offsets am) →
  ∃ file_end', ensure_slots fuel (slot k) file_end am b = Ok (file_end', am, b).
Proof.
  revert k file_end. induction fuel as [|fuel IH]; intros k file_end Hk Hf Hfe Hall; [lia|]. simpl.
  destruct (slot k <? file_end) eqn:Hlt; bool_to_Z; [|by eexists].
  unfold amap_ensure_page. rewrite decide_True by (apply Hall; lia). rewrite bind_ok. simpl.
  destruct fuel as [|fuel]; [replace (k + Z.of_nat 1 - 1) with k in Hfe by lia; lia|].
  pose proof (slot_lt k). replace (slot k + AMAP_INTERVAL) with (slot (k + 1)) by (unfold slot; lia).
  apply IH; [lia|lia| |].
  - replace (k + 1 + Z.of_nat (S fuel) - 1) with (k + Z.of_nat (S (S fuel)) - 1) by lia.
    assert (slot (k + 1) <= slot (k + Z.of_nat (S (S fuel)) - 1)) by (unfold slot, AMAP_INTERVAL; lia). lia.
  - intros j ? Hj. apply Hall; [lia|]. assert (slot (k + 1) <= slot j) by (unfold slot, AMAP_INTERVAL; lia). lia.
Qed.

Lemma slot_fuel_enough file_end : 0 <= file_end → (0 < slot_fuel file_end)%nat ∧ file_end <= slot (0 + Z.of_nat (slot_fuel file_end) - 1).
Proof.
  intros H. unfold slot_fuel. pose proof (Z.div_pos file_end AMAP_INTERVAL H ltac:(done)).
  pose proof (Z.div_mod file_end AMAP_INTERVAL ltac:(done)). pose proof (Z.mod_pos_bound file_end AMAP_INTERVAL ltac:(done)).
  unfold slot, AMAP_FIRST_OFFSET, AMAP_INTERVAL in *. lia.
Qed.

Lemma ensure_all_spec file_end am b :
  0 <= file_end → amap_ok am → bids_ok b →
  ∃ am' b', ensure_all 3 file_end am b = Ok (am', b') ∧ extends am b am' b' ∧
    (∀ j, 0 <= j → slot j < file_end → slot j ∈ am_offsets am').
Proof.
  intros Hfe Ha Hb. destruct (slot_fuel_enough file_end Hfe) as [Hf1 Hf2]. cbn [ensure_all].
  change AMAP_FIRST_OFFSET with (slot 0).
  destruct (ensure_slots_spec (slot_fuel file_end) 0 file_end am b) as (fe & am1 & b1 & -> & Hex & Hge & Hcase & Hall); try done.
  rewrite bind_ok. cbv beta iota. case_match; [|by exists am1, b1].
  destruct (slot_fuel_enough fe) as [Hg1 Hg2]; [lia|].
  destruct (ensure_slots_idle (slot_fuel fe) 0 fe am1 b1) as (fe' & ->); try done.
  { intros j Hj Hsj. apply Hall; [done|]. destruct Hcase as [?|(i & ? & Hi & ->)]; [lia|].
    pose proof (slot_lt i). destruct (decide (j <= i)); unfold slot, AMAP_INTERVAL in *; lia. }
  rewrite bind_ok. cbv beta iota. rewrite Z.ltb_irrefl. by exists am1, b1.
Qed.

(** *** Keeping apart *)

(** Regions that have pairwise no byte in common. *)
Definition apart_of (a b : Z * Z) : Prop := apart a.1 a.2 b.1 b.2.

Inductive separate : list (Z * Z) → Prop :=
| separate_nil : separate []
| separate_cons a rs : Forall (apart_of a) rs → separate rs → separate (a :: rs).

Lemma separate_app rs1 rs2 :
  separate (rs1 ++ rs2) ↔ separate rs1 ∧ separate rs2 ∧ ∀ a b, a ∈ rs1 → b ∈ rs2 → apart_of a b.
Proof.
  induction rs1 as [|r rs1 IH]; simpl.
  { split; [intros H; split_and!; [constructor|done|set_solver]|by intros (_ & ? & _)]. }
  split.
  - inversion_clear 1 as [|? ? Hf Hs]. apply Forall_app in Hf as [Hf1 Hf2]. apply IH in Hs as (H1 & H2 & H3).
    split_and!; [by constructor|done|]. rewrite Forall_forall in Hf2. intros a b [->|Ha]%elem_of_cons Hb; auto.
  - intros (H1 & H2 & H3). inversion_clear H1 as [|? ? Hf Hs]. constructor.
    + apply Forall_app. split; [done|]. apply Forall_forall. intros b Hb. apply H3; set_solver.
    + apply IH. split_and!; [done..|]. intros a b ??. apply H3; set_solver.
Qed.

Lemma separate_perm rs rs' : rs ≡ₚ rs' → separate rs → separate rs'.
Proof.
  induction 1 as [|a rs rs' Hp IH|a b rs|rs rs' rs'' _ IH1 _ IH2]; [done|..|auto].
  - inversion_clear 1 as [|? ? Hf Hs]. constructor; [by rewrite <-Hp|auto].
  - inversion_clear 1 as [|? ? Hb Hs]. inversion_clear Hs as [|? ? Ha Hs']. apply Forall_cons in Hb as [Hab Hb].
    constructor; [constructor; [by apply apart_sym|done]|by constructor].
Qed.

Lemma laid_separate lo rs hi : laid lo rs hi → separate rs.
Proof.
  revert lo. induction rs as [|[o n] rs IH]; intros lo; [constructor|]. intros (_ & ? & _ & Hl).
  constructor; [|by eapply IH]. apply Forall_forall. intros [o' n'] Hin.
  apply (laid_in _ _ _ _ _ Hl) in Hin as (? & _). left. simpl. lia.
Qed.

Lemma separate_maps maps : Forall is_map_page maps → NoDup (map pe_offset maps) → separate (map page_region maps).
Proof.
  intros Hm. induction Hm as [|p maps (_ & k & Hk & Hp) Hm IH]; simpl; [constructor|].
  intros [Hnin Hd]%NoDup_cons. constructor; [|auto]. apply Forall_forall. intros a (q & -> & Hq)%list_elem_of_fmap.
  rewrite Forall_forall in Hm. destruct (Hm q Hq) as (_ & j & Hj & Hqo). unfold apart_of, apart. simpl.
  assert (j ≠ k). { intros ->. apply Hnin. rewrite Hp, <-Hqo. by apply list_elem_of_fmap_2. }
  rewrite Hp, Hqo. unfold slot, PAGE_SIZE, AMAP_INTERVAL in *. destruct (decide (j < k)); [right; lia|left; lia].
Qed.

(** Everything that a layout puts into the file. *)
Definition regions (ly : layout) : list (Z * Z) :=
  (0, HEADER_SIZE) :: map page_region (ly_pages ly) ++ map block_region (ly_blocks ly).

Lemma split_regions blocks : map block_region blocks ≡ₚ disk_regions blocks ++ mem_regions blocks.
Proof.
  induction blocks as [|b blocks IH]; [done|]. unfold disk_regions, mem_regions in *. simpl. destruct (be_on_disk b) eqn:Hd.
  - rewrite filter_cons_True, filter_cons_False by congruence. simpl. by rewrite IH.
  - rewrite filter_cons_False, filter_cons_True by congruence. simpl. by rewrite IH, Permutation_middle.
Qed.

Lemma laid_regions pages blocks maps hi :
  laid HEADER_SIZE (disk_regions blocks ++ map page_region pages ++ mem_regions blocks) hi →
  Forall is_map_page maps → NoDup (map pe_offset maps) →
  separate ((0, HEADER_SIZE) :: map page_region (maps ++ pages) ++ map block_region blocks).
Proof.
  intros Hl Hm Hd.
  apply (separate_perm ((0, HEADER_SIZE) :: map page_region maps ++ disk_regions blocks ++ map page_region pages ++ mem_regions blocks)).
  { rewrite map_app, split_regions, <-(assoc_L (++)). do 2 f_equiv. rewrite !(assoc_L (++)). f_equiv. by apply Permutation_app_comm. }
  assert (Hmaps : ∀ a, a ∈ map page_region maps → ∃ k, 0 <= k ∧ a = (slot k, PAGE_SIZE)).
  { intros a (q & -> & Hq)%list_elem_of_fmap. rewrite Forall_forall in Hm. destruct (Hm q Hq) as (_ & k & Hk & Ho).
    exists k. split; [done|]. unfold page_region. by rewrite Ho. }
  constructor.
  - apply Forall_app. split; apply Forall_forall.
    + intros a (k & Hk & ->)%Hmaps. left. simpl. unfold slot, HEADER_SIZE, AMAP_FIRST_OFFSET, AMAP_INTERVAL. lia.
    + intros [o n] Hin. apply (laid_in _ _ _ _ _ Hl) in Hin as (? & _). left. simpl. lia.
  - apply separate_app. split_and!; [by apply separate_maps|by eapply laid_separate|].
    intros a [o n] (k & Hk & ->)%Hmaps Hin. apply (laid_in _ _ _ _ _ Hl) in Hin as (_ & _ & _ & Hc).
    apply apart_sym. by apply Hc.
Qed.
End placement.

(** ** [calculate_offsets] *)

Section offsets.
Context `{Crc : Crc32}.

Lemma start_cursor_ok ly e : ly_ok ly e → start_cursor ly = eg_cursor e.
Proof.
  intros Hok. unfold start_cursor. rewrite (lo_eager _ _ Hok), Z.max_r by apply Hok.
  assert (Hf : Forall (λ b, be_on_disk b = true → be_offset b + block_span (be_len b) <= eg_cursor e) (ly_blocks ly)).
  { eapply Forall_impl; [apply Hok|]. intros b Hb Hd. by destruct (bk_disk _ _ Hb Hd) as (_ & ? & _). }
  induction Hf as [|b blocks Hb _ IH]; [done|]. simpl. unfold payload_len at 2. destruct (be_on_disk b); simpl; [|done].
  case_match; [|done]. by rewrite Z.max_l by auto.
Qed.

Lemma laid_disk e blocks lo :
  Forall (block_ok e) blocks → in_order blocks → lo <= eg_cursor e →
  (∀ b, b ∈ blocks → be_on_disk b = true → lo <= be_offset b) → laid lo (disk_regions blocks) (eg_cursor e).
Proof.
  intros Hb. revert lo. induction Hb as [|b blocks Hb Hbs IH]; intros lo Hord Hlo Hin; [done|].
  assert (Hord' : in_order blocks) by (intros i j ????; apply (Hord (S i) (S j)); [lia|done..]).
  unfold disk_regions in *. simpl. destruct (be_on_disk b) eqn:Hd.
  - rewrite filter_cons_True by done. simpl. destruct (bk_disk _ _ Hb Hd) as (? & ? & ?).
    pose proof (bk_content _ _ Hb) as (payload & Hz & _). pose proof (zlen_nonneg payload).
    pose proof (block_span_bounds (be_len b)). split_and!; [apply Hin; [set_solver|done]|lia|done|].
    apply IH; [done|lia|]. intros c Hc Hdc. apply list_elem_of_lookup in Hc as [j Hj].
    pose proof (Hord 0%nat (S j) b c ltac:(lia) eq_refl Hj Hd Hdc). pose proof (bk_content _ _ Hb). lia.
  - rewrite filter_cons_False by congruence. apply IH; [done|done|]. intros c Hc. apply Hin. set_solver.
Qed.

Lemma same_blocks_disk blocks blocks' : Forall2 same_block blocks blocks' → disk_regions blocks' = disk_regions blocks.
Proof.
  induction 1 as [|b b' bs bs' (Hi & Hda & Hl & Hd & Ho) _ IH]; [done|]. unfold disk_regions in *.
  destruct (be_on_disk b) eqn:E.
  - rewrite !filter_cons_True by congruence. simpl. rewrite IH. unfold block_region. by rewrite Hl, Ho.
  - by rewrite !filter_cons_False by congruence.
Qed.

Lemma same_blocks_bids blocks blocks' : Forall2 same_block blocks blocks' → map be_bid blocks' = map be_bid blocks.
Proof. induction 1 as [|b b' bs bs' (Hi & _) _ IH]; [done|]. simpl. by rewrite Hi, IH. Qed.

Lemma same_pages_bids pages pages' : Forall2 same_page pages pages' → map pe_bid pages' = map pe_bid pages.
Proof. induction 1 as [|b b' bs bs' (Hi & _) _ IH]; [done|]. simpl. by rewrite Hi, IH. Qed.

(** What [calculate_offsets] makes of a layout. *)
Record arranged (ly : layout) (e : eager_ctx) (ly' : layout) (maps pages : list page_entry) : Prop := {
  ar_nodes : ly_nodes ly' = ly_nodes ly;
  ar_blocks : Forall2 same_block (ly_blocks ly) (ly_blocks ly');
  ar_pages : ly_pages ly' = maps ++ pages;
  ar_same : Forall2 same_page (ly_pages ly) pages;
  ar_maps : Forall is_map_page maps;
  ar_file : ∃ e', ly_eager ly' = Some e' ∧ eg_file e' = eg_file e;
  ar_next : next_bid_counter (ly_bids ly) <= next_bid_counter (ly_bids ly');
  ar_distinct : NoDup (map be_bid (ly_blocks ly') ++ map pe_bid (ly_pages ly'));
  ar_range : ∀ x, x ∈ map be_bid (ly_blocks ly') ++ map pe_bid (ly_pages ly') → 16 <= x < next_bid_counter (ly_bids ly') + 3;
  ar_separate : separate (regions ly');
  ar_laid : ∃ hi, laid HEADER_SIZE (disk_regions (ly_blocks ly') ++ map page_region pages ++ mem_regions (ly_blocks ly')) hi ∧
    (amap_complete (eg_amap e) →
     ∀ k, 0 <= k → slot k < Z.max hi (AMAP_FIRST_OFFSET + PAGE_SIZE) → slot k ∈ map pe_offset maps) }.

Lemma calculate_offsets_spec ly e :
  ly_ok ly e → ∃ ly' maps pages, calculate_offsets ly = Ok ly' ∧ arranged ly e ly' maps pages.
Proof.
  intros Hok. unfold calculate_offsets. rewrite (start_cursor_ok ly e Hok), (lo_eager _ _ Hok).
  rewrite filter_all by (eapply Forall_impl; [apply Hok|]; simpl; tauto).
  set (am := {| am_pages := am_pages (eg_amap e); am_offsets := _ |}).
  pose proof (lo_amap _ _ Hok) as [Hap Had Hak].
  assert (Ham : amap_ok am) by (split; [done|done|intros p Hp; simpl; set_solver]).
  set (p0 := {| pl_cursor := eg_cursor e; pl_amap := am; pl_bids := ly_bids ly; pl_steps := 0 |}).
  assert (Hp0 : place_ok p0) by (split_and!; [apply Hok|apply Hok|done|apply Hok]).
  destruct (place_pages_spec (ly_pages ly) p0 Hp0) as (pages & p1 & -> & Hsp & Hl1 & Hp1 & He1).
  { eapply Forall_impl; [apply Hok|]. simpl. tauto. }
  rewrite bind_ok. cbn [snd fst].
  destruct (place_blocks_spec e (ly_blocks ly) p1 Hp1 (lo_blocks _ _ Hok)) as (blocks & p2 & -> & Hsb & Hl2 & Hp2 & He2).
  rewrite bind_ok. cbn [snd fst]. set (file_end := if _ <=? _ then _ else _).
  destruct Hp2 as (Hc2 & _ & Ha2 & Hb2).
  assert (Hfe : file_end = Z.max (pl_cursor p2) (AMAP_FIRST_OFFSET + PAGE_SIZE) ∨ pl_cursor p2 <= file_end < AMAP_FIRST_OFFSET + PAGE_SIZE).
  { subst file_end. destruct (_ <=? _) eqn:H; bool_to_Z; unfold AMAP_FIRST_OFFSET, PAGE_SIZE in *; lia. }
  destruct (ensure_all_spec file_end (pl_amap p2) (pl_bids p2)) as (am' & b' & -> & He3 & Hall); [unfold HEADER_SIZE in *; lia|done|done|].
  rewrite bind_ok. cbn [fst snd].
  pose proof (extends_trans _ _ _ _ _ _ He1 (extends_trans _ _ _ _ _ _ He2 He3)) as Hext. simpl pl_amap in Hext. simpl pl_bids in Hext.
  pose proof Hext as [(new & Hnp & Hnu & Hnn & Hnd & Hno) [Hmp Hmd _] _ Hnx].
  pose proof (sort_on_perm pe_offset (am_pages am')) as Hperm.
  assert (Hdisk : laid HEADER_SIZE (disk_regions blocks ++ map page_region pages ++ mem_regions blocks) (pl_cursor p2)).
  { apply (laid_app _ _ (eg_cursor e)); [|by eapply laid_app].
    rewrite (same_blocks_disk _ _ Hsb). apply laid_disk; [apply Hok..|].
    intros b Hb Hd. pose proof (lo_blocks _ _ Hok) as Hbs. rewrite Forall_forall in Hbs. by destruct (bk_disk _ _ (Hbs b Hb) Hd) as (? & _). }
  exists {| ly_nodes := ly_nodes ly; ly_blocks := blocks; ly_pages := sort_on pe_offset (am_pages am') ++ pages;
     ly_bids := b'; next_nid_index := next_nid_index ly; used_nids := used_nids ly;
     ly_eager := Some {| eg_file := eg_file e; eg_cursor := eg_cursor e;
                         eg_amap := {| am_pages := []; am_offsets := ∅ |};
                         amap_stubs_written := amap_stubs_written e; stubbed_upto := stubbed_upto e;
                         eg_file_pos := eg_file_pos e; amap_scan_steps := amap_scan_steps e |} |}.
  exists (sort_on pe_offset (am_pages am')), pages. split; [done|]. split; simpl; try done.
  - by rewrite Hperm.
  - by eexists.
  - rewrite (same_blocks_bids _ _ Hsb), map_app, (same_pages_bids _ _ Hsp), Hperm, Hnp, map_app.
    pose proof (lo_distinct _ _ Hok) as Hdis. unfold ids in Hdis.
    rewrite <-(assoc_L (++)), (Permutation_app_comm (map pe_bid new)), !(assoc_L (++)).
    apply NoDup_app. split_and!; [|intros x Hx Hin; apply Hnd in Hin; apply Hin, (lo_used _ _ Hok); unfold ids; set_solver|done].
    simpl. by rewrite <-(assoc_L (++)), (Permutation_app_comm (map pe_bid (am_pages (eg_amap e)))).
  - intros x Hx. rewrite (same_blocks_bids _ _ Hsb), map_app, (same_pages_bids _ _ Hsp), Hperm, Hnp, map_app in Hx. assert (Hu : x ∈ used_bids b').
    { rewrite Hnu. pose proof (lo_used _ _ Hok x) as Hu. unfold ids in Hu. rewrite !elem_of_app in Hx. rewrite !elem_of_app in Hu. simpl in Hx.
      rewrite elem_of_union, elem_of_list_to_set. tauto. }
    apply (bo_used _ (ex_bids _ _ _ _ Hext)) in Hu as [? Hu].
    pose proof (Z.div_mod x 4). pose proof (Z.mod_pos_bound x 4).
    pose proof (Z.mul_div_le (next_bid_counter b' + 3) 4). lia.
  - apply (laid_regions _ _ _ (pl_cursor p2)); [done|by rewrite Hperm|by rewrite Hperm].
  - exists (pl_cursor p2). split; [done|]. intros Hcomp k Hk Hsl. rewrite Hperm.
    assert (Hcomp' : amap_complete am').
    { apply (extends_complete _ _ _ _ Hext). intros o. simpl. rewrite elem_of_union, elem_of_list_to_set. intros [Ho|Ho]; [by apply Hcomp|done]. }
    apply Hcomp', Hall; [done|]. destruct Hfe as [->|Hfe]; [done|].
    assert (k = 0) as -> by (unfold slot, AMAP_FIRST_OFFSET, PAGE_SIZE, AMAP_INTERVAL in *; lia).
    subst file_end. unfold slot, AMAP_FIRST_OFFSET, PAGE_SIZE in *. destruct (_ <=? _) eqn:H; bool_to_Z; lia.
Qed.
End offsets.
