(* ===== verification/NdbPages.v ===== *)
(** * Written B-tree pages, read back

    A page that [write_bt_page] writes is 512 bytes, validates, and its records and
    child references parse back in order. *)

From S2P Require Import Prelude Telemetry PstError Header Btree PropContext WriterHeap Layout LayoutFacts DataChain DataChainFacts TreeWriter.
#[local] Open Scope Z_scope.

(** ** Fields and records in concatenations *)

Lemma le_val_app_r (a c : list byte) o w : zlen a <= o → le_val (a ++ c) o w = le_val c (o - zlen a) w.
Proof. intros. unfold le_val. by rewrite sub_app_r. Qed.

Lemma le_val_front w v (c : list byte) o w' :
  0 <= v < 2 ^ (8 * Z.of_nat w) → o = 0 → w' = Z.of_nat w → le_val (le_split w v ++ c) o w' = v.
Proof. intros ? -> ->. by apply (le_val_mid []). Qed.

(** Find the field at an offset of a concatenation. *)
Ltac find_field :=
  repeat first [ rewrite le_val_front by (rewrite ?zlen_zeros; enc) | rewrite le_val_app_r by (rewrite ?zlen_zeros; enc) ].

(** Walking over records that were appended gives them back. *)
Lemma rmap_entries {E A B} (encode : A → list byte) (rec : A → B) (f : Z → res E B) stride len pre xs post :
  0 <= stride → zlen pre + stride * zlen xs <= len →
  Forall (λ x, zlen (encode x) = stride ∧
    ∀ pre' post', pre ++ (xs ≫= encode) ++ post = pre' ++ encode x ++ post' → f (zlen pre') = Ok (rec x)) xs →
  rmap f (entry_offsets stride len (zlen pre) (length xs)) = Ok (map rec xs).
Proof.
  intros Hs. set (whole := pre ++ (xs ≫= encode) ++ post).
  enough (H : ∀ ys pre', whole = pre' ++ (ys ≫= encode) ++ post → zlen pre' + stride * zlen ys <= len →
    Forall (λ x, zlen (encode x) = stride ∧
      ∀ pre' post', whole = pre' ++ encode x ++ post' → f (zlen pre') = Ok (rec x)) ys →
    rmap f (entry_offsets stride len (zlen pre') (length ys)) = Ok (map rec ys)) by (intros; by apply H).
  induction ys as [|y ys IH]; intros pre' Hw Hl Hf; [done|]. rewrite zlen_cons in Hl. pose proof (zlen_nonneg ys).
  apply Forall_cons in Hf as [[Hy Hfy] Hf]. cbn [length entry_offsets]. rewrite (proj2 (Z.ltb_ge _ _)) by nia.
  cbn [mbind list_bind] in Hw. rewrite <-(assoc_L (++)) in Hw.
  rewrite rmap_cons, (Hfy pre' _ Hw), bind_ok. replace (zlen pre' + stride) with (zlen (pre' ++ encode y)) by (rewrite zlen_app; lia).
  rewrite IH; [done| |rewrite zlen_app; lia|done]. by rewrite Hw, <-(assoc_L (++)).
Qed.

Lemma rmap_total {E A B} (f : A → B) l r : rmap (λ x, Ok (f x) : res E B) l = Ok r → map f l = r.
Proof. rewrite (rmap_ok_map _ f) by done. congruence. Qed.

Lemma zlen_bind {A B} (f : A → list B) n xs :
  Forall (λ x, zlen (f x) = n) xs → zlen (xs ≫= f) = n * zlen xs.
Proof.
  induction 1 as [|x xs Hx _ IH]; [unfold zlen; simpl; lia|]. cbn [mbind list_bind]. rewrite zlen_app, zlen_cons, Hx, IH. lia.
Qed.

(** ** The checksum's range *)

(** [crc32fast::hash] returns a [u32]. *)
Class Crc32Range `{Crc : Crc32} := crc32_range : ∀ d, 0 <= crc32 d < 2 ^ 32.

Section pages.
Context `{Crc : Crc32} `{!Crc32Range}.

(** ** One page *)

(** The records of a page and their number fit. *)
Record page_args (ptype lv : Z) (region : list byte) (n : Z) : Prop := {
  pa_ptype : 0 <= ptype < 2 ^ 8; pa_level : 0 <= lv < 2 ^ 8; pa_region : zlen region <= 488; pa_count : 0 <= n < 2 ^ 8 }.

Lemma compute_page_sig_range off bid : 0 <= compute_page_sig off bid < 2 ^ 16.
Proof. unfold compute_page_sig. by apply Z.mod_pos_bound. Qed.

(** The first 496 bytes of a page. *)
Definition bt_body (lv : Z) (region : list byte) (n size : Z) : list byte :=
  (region ++ zeros (488 - zlen region)) ++ le_split 1 n ++ le_split 1 (Z.min (488 / Z.max size 1) 255) ++
  le_split 1 8 ++ le_split 1 lv ++ zeros 4.

Lemma bt_page_eq off bid ptype lv region n size :
  zlen region <= 488 →
  bt_page off bid ptype lv region n size =
  bt_body lv region n size ++ le_split 1 ptype ++ le_split 1 ptype ++ le_split 2 (compute_page_sig off bid) ++
  le_split 4 (crc32 (bt_body lv region n size)) ++ le_split 8 bid.
Proof.
  intros Hr. pose proof (zlen_nonneg region). unfold bt_page. rewrite Z.min_l by lia. rewrite sub_all by lia.
  unfold bt_body. rewrite <-!(assoc_L (++)). done.
Qed.

Lemma zlen_entries region : zlen region <= 488 → zlen (region ++ zeros (488 - zlen region)) = 488.
Proof. intros. rewrite zlen_app, zlen_zeros. lia. Qed.

Lemma zlen_bt_body lv region n size : zlen region <= 488 → zlen (bt_body lv region n size) = 496.
Proof.
  intros Hr. unfold bt_body. by rewrite zlen_app, zlen_entries, !zlen_app, !zlen_le_split, zlen_zeros by done.
Qed.

Lemma zlen_bt_page off bid ptype lv region n size :
  zlen region <= 488 → zlen (bt_page off bid ptype lv region n size) = PAGE_SIZE.
Proof. intros Hr. rewrite bt_page_eq by done. by rewrite zlen_app, zlen_bt_body, !zlen_app, !zlen_le_split by done. Qed.

(** What the reader sees of a written page. *)
Record page_view (page : list byte) (ptype lv : Z) (region : list byte) (n : Z) : Prop := {
  pv_len : zlen page = 512;
  pv_ptype : le_val page 496 1 = ptype;
  pv_repeat : le_val page 497 1 = ptype;
  pv_crc : le_val page 500 4 = crc32 (sub page 0 496);
  pv_count : le_val page 488 1 = n;
  pv_level : le_val page 491 1 = lv;
  pv_data : sub page 0 488 = region ++ zeros (488 - zlen region) }.

Lemma bt_page_view off bid ptype lv region n size :
  page_args ptype lv region n → page_view (bt_page off bid ptype lv region n size) ptype lv region n.
Proof.
  intros [Ht Hl Hr Hn]. pose proof (compute_page_sig_range off bid). pose proof (crc32_range (bt_body lv region n size)).
  pose proof (zlen_bt_body lv region n size Hr) as Hb. pose proof (zlen_entries region Hr) as He.
  assert (Hmax : 0 <= Z.min (488 / Z.max size 1) 255 < 2 ^ 8).
  { split; [|lia]. apply Z.min_glb; [|done]. apply Z.div_pos; lia. }
  split; rewrite ?bt_page_eq by done.
  - by rewrite zlen_app, Hb, !zlen_app, !zlen_le_split.
  - find_field. done.
  - find_field. done.
  - rewrite sub_app_l by lia. rewrite sub_all by lia. find_field. done.
  - rewrite le_val_app_l by lia. unfold bt_body. generalize dependent (region ++ zeros (488 - zlen region)). intros en He.
    find_field. done.
  - rewrite le_val_app_l by lia. unfold bt_body. generalize dependent (region ++ zeros (488 - zlen region)). intros en He.
    find_field. done.
  - rewrite sub_app_l by lia. unfold bt_body. rewrite sub_app_l by lia. by rewrite sub_all by lia.
Qed.

Lemma stored_read_at l off page : stored l off page → zlen page = 512 → read_at l off = Ok page.
Proof.
  intros (? & ? & Hs) Hl. rewrite Hl in *. unfold read_at, read_exact_at, PAGE_SIZE.
  case_match eqn:Hc; [by rewrite Hs|]. bool_to_Z. apply andb_false_iff in Hc as [?|?]; bool_to_Z; lia.
Qed.

(** A stored page validates, and is reported as read and nothing else. *)
Lemma page_view_valid {R} (K : tree_kind R) l off page ptype lv region n :
  page_view page ptype lv region n → ptype = kind_ptype K → stored l off page →
  valid_page K l off page ∧ events (validate page (kind_ptype K)) = [NotePageRead].
Proof.
  intros [Hl Hp Hr Hc _ _ _] -> Hs. destruct (validate_spec page (kind_ptype K) Hl) as [Ho He].
  rewrite Hp, Hr, !Z.eqb_refl in *. split.
  - split; [by apply stored_read_at|done].
  - rewrite He, Hc. simpl. by rewrite Z.eqb_refl.
Qed.

(** ** Leaf pages *)

(** How one record is written and read. *)
Record leaf_codec {A R} (K : tree_kind R) (key : A → Z) (encode : A → list byte) (rec : A → R) (x : A) : Prop := {
  lc_len : zlen (encode x) = leaf_stride K;
  lc_parse : parse_leaf K (encode x) = Ok (key x, rec x) }.

Lemma leaf_page_records {A R} (K : tree_kind R) (key : A → Z) encode (rec : A → R) page ptype lv xs :
  Forall (leaf_codec K key encode rec) xs → 0 <= leaf_stride K →
  leaf_stride K * zlen xs <= 488 → page_view page ptype lv (xs ≫= encode) (zlen xs) →
  leaf_records K page = Ok (map (λ x, (key x, rec x)) xs).
Proof.
  intros Hx Hs Hl [_ _ _ _ Hn _ Hd]. unfold leaf_records, entry_count. rewrite Hn, Hd.
  replace (Z.to_nat (zlen xs)) with (length xs) by (unfold zlen; lia).
  set (post := zeros _). apply (rmap_entries encode _ _ _ 488 [] xs post Hs); [unfold zlen at 1; simpl; lia|].
  eapply Forall_impl; [exact Hx|]. intros x [Hlen Hp]. split; [done|]. cbn [app]. intros pre' post' Hw.
  unfold leaf_entry. rewrite Hw, slice_mid by (rewrite ?Hlen; lia). by rewrite bind_ok.
Qed.

(** ** Intermediate pages *)

(** A child reference: key, page ID, page offset. *)
Definition child_bytes (c : Z * Z * Z) : list byte := le_split 8 c.1.1 ++ le_split 8 c.1.2 ++ le_split 8 c.2.

Lemma node_page_children page ptype lv cs :
  Forall (λ c, 0 <= c.2 < 2 ^ 64) cs → 24 * zlen cs <= 488 →
  page_view page ptype lv (cs ≫= child_bytes) (zlen cs) → child_offsets page = map snd cs.
Proof.
  intros Hc Hl [Hz _ _ _ Hn _ Hd]. unfold child_offsets, entry_count. rewrite Hn.
  replace (Z.to_nat (zlen cs)) with (length cs) by (unfold zlen; lia).
  apply (rmap_total (E := pst_error)). set (post := zeros (488 - zlen (cs ≫= child_bytes))).
  apply (rmap_entries child_bytes snd _ 24 488 [] cs post); [done|unfold zlen at 1; simpl; lia|].
  eapply Forall_impl; [exact Hc|]. intros c Hoff. split; [done|]. cbn [app]. intros pre' post' Hw. f_equal.
  assert (Hle : zlen pre' + 24 <= 488).
  { pose proof (f_equal zlen Hw) as Hzl. subst post. rewrite !zlen_app in Hzl. change (zlen (child_bytes c)) with 24 in Hzl.
    pose proof (zlen_nonneg post'). rewrite zlen_zeros in Hzl.
    assert (zlen (cs ≫= child_bytes) = 24 * zlen cs) by (apply zlen_bind, Forall_forall; done). lia. }
  pose proof (zlen_nonneg pre').
  assert (Hv : le_val page (zlen pre' + 16) 8 = le_val (sub page 0 488) (zlen pre' + 16) 8).
  { by rewrite le_val_sub by lia. }
  subst post. rewrite Hv, Hd, Hw. unfold child_bytes. rewrite <-!(assoc_L (++)). find_field. done.
Qed.
End pages.
