(* ===== verification/NdbTree.v ===== *)
(** * Written B-trees are page trees

    [write_tree] writes the pages of a plan bottom up.  Its writes are listed here
    by page; once all of them are in a file, the root is a [page_tree] over all
    records, in order, whose pages are those of the plan. *)

From S2P Require Import Prelude Telemetry PstError Header Btree PropContext WriterHeap Layout LayoutFacts DataChain DataChainFacts TreeWriter NdbLayout NdbPages.
#[local] Open Scope Z_scope.

(** ** Lists *)

Lemma chunks_map {A B} (f : A → B) n l : chunks n (map f l) = map (map f) (chunks n l).
Proof.
  unfold chunks. rewrite length_map. generalize (length l). intros fuel. revert l.
  induction fuel as [|fuel IH]; intros [|x l]; try done. cbn [chunks_fuel map].
  change (f x :: map f l) with (map f (x :: l)). unfold sub. by rewrite !skipn_map, firstn_map, IH.
Qed.

Lemma rmap_seq {E A B} (f : nat → res E B) (g : A → B) l i :
  (∀ k x, l !! k = Some x → f (i + k)%nat = Ok (g x)) → rmap f (seq i (length l)) = Ok (map g l).
Proof.
  revert i. induction l as [|x l IH]; intros i H; [done|]. cbn [length seq]. rewrite rmap_cons.
  pose proof (H 0%nat x eq_refl) as H0. rewrite Nat.add_0_r in H0. rewrite H0, bind_ok, IH; [done|].
  intros k y Hk. rewrite <-(H (S k) y Hk). f_equal. lia.
Qed.

Lemma concat_bind {A B} (f : A → list B) l : concat (map f l) = l ≫= f.
Proof. induction l as [|x l IH]; [done|]. simpl. by rewrite IH. Qed.

Lemma concat_bind_chunks {A B} (f : A → list B) (groups : list (list A)) :
  (groups ≫= λ g, g ≫= f) = concat groups ≫= f.
Proof. induction groups as [|g gs IH]; [done|]. cbn [mbind list_bind concat]. by rewrite bind_app, <-IH. Qed.

Lemma drop_chunk {A} (n : nat) (l : list A) i :
  (i < length l)%nat → (0 < n)%nat →
  chunks (Z.of_nat n) (drop i l) =
  take (Nat.min (i + n) (length l) - i) (drop i l) :: chunks (Z.of_nat n) (drop (Nat.min (i + n) (length l)) l).
Proof.
  intros Hi Hn. assert (Hne : drop i l ≠ []).
  { intros H. apply (f_equal length) in H. rewrite length_drop in H. simpl in H. lia. }
  rewrite (chunks_step (Z.of_nat n)) by (lia || done). unfold sub. rewrite Nat2Z.id. change (Z.to_nat 0) with 0%nat.
  rewrite drop_0, drop_drop. destruct (decide (i + n <= length l)%nat) as [H|H].
  - rewrite Nat.min_l by lia. by replace (i + n - i)%nat with n by lia.
  - rewrite Nat.min_r by lia. rewrite !firstn_all2 by (rewrite length_drop; lia).
    by rewrite (drop_ge l (i + n)), (drop_ge l (length l)) by lia.
Qed.

(** ** Nodes of a tree under construction *)

(** A page of the tree: its ID and smallest key, the pages at and below it in
    preorder, and the records below it. *)
Record tree_node (R : Type) := { nd_bid : Z; nd_key : Z; nd_pages : list Z; nd_recs : list (Z * R) }.
Arguments nd_bid {R} _.
Arguments nd_key {R} _.
Arguments nd_pages {R} _.
Arguments nd_recs {R} _.

(** All of a list of writes are in a file. *)
Definition all_stored (l : list byte) (ws : list (Z * list byte)) : Prop := ∀ w, w ∈ ws → stored l w.1 w.2.

Lemma all_stored_app l ws1 ws2 : all_stored l (ws1 ++ ws2) ↔ all_stored l ws1 ∧ all_stored l ws2.
Proof. unfold all_stored. setoid_rewrite elem_of_app. naive_solver. Qed.

Section tree.
Context `{Crc : Crc32} `{!Crc32Range} {R : Type} (K : tree_kind R) (plan : tree_plan) (offsets : gmap Z Z).
Context (Hptype : tp_ptype plan = kind_ptype K) (Hrange : 0 <= kind_ptype K < 2 ^ 8).

Definition off (bid : Z) : Z := default 0 (offsets !! bid).
Definition planned_page (bid : Z) : Prop := is_Some (offsets !! bid) ∧ 0 <= off bid < 2 ^ 64.

(** The write of one page. *)
Definition page_write (bid lv : Z) (region : list byte) (n size : Z) : Z * list byte :=
  (off bid, bt_page (off bid) bid (tp_ptype plan) lv region n size).

Definition tree_region (bid : Z) : Z * Z := (off bid, PAGE_SIZE).

(** A node whose pages are in the file, [h] levels above its leaves. *)
Definition good (l : list byte) (h : Z) (n : tree_node R) : Prop :=
  ∀ d, d + h <= MAX_BTREE_DEPTH → page_tree K l d (off (nd_bid n)) (map off (nd_pages n)) (nd_recs n).

Definition node_over (bid : Z) (group : list (tree_node R)) : tree_node R :=
  {| nd_bid := bid; nd_key := match group with [] => 0 | n :: _ => nd_key n end;
     nd_pages := bid :: (group ≫= nd_pages); nd_recs := group ≫= nd_recs |}.
Definition child_of (n : tree_node R) : Z * Z * Z := (nd_key n, nd_bid n, off (nd_bid n)).

(** The nodes and writes of an intermediate level. *)
Definition next_level (level_bids : list Z) (groups : list (list (tree_node R))) : list (tree_node R) :=
  zip_with node_over level_bids groups.
Definition level_writes (lv : Z) (level_bids : list Z) (groups : list (list (tree_node R))) : list (Z * list byte) :=
  zip_with (λ bid g, page_write bid (wrap 8 lv) (map child_of g ≫= child_bytes) (wrap 8 (zlen g)) INTERMEDIATE_ENTRY_SIZE)
    level_bids groups.

Lemma good_forest l h g :
  Forall (good l h) g → ∀ d, d + h <= MAX_BTREE_DEPTH →
  page_forest K l d (map (λ n, off (nd_bid n)) g) (map off (g ≫= nd_pages)) (g ≫= nd_recs).
Proof.
  intros Hg d Hd. induction Hg as [|n g Hn _ IH]; [constructor|]. cbn [mbind list_bind map].
  rewrite map_app. constructor; [by apply Hn|done].
Qed.

Lemma good_over l h lv bid g :
  0 <= h → 1 <= lv < 2 ^ 8 → zlen g <= 20 → Forall (λ n, planned_page (nd_bid n)) g → Forall (good l h) g →
  (let w := page_write bid (wrap 8 lv) (map child_of g ≫= child_bytes) (wrap 8 (zlen g)) INTERMEDIATE_ENTRY_SIZE in
   stored l w.1 w.2) →
  good l (h + 1) (node_over bid g).
Proof.
  intros Hh Hlv Hn Hp Hg Hs d Hd. simpl in Hs. pose proof (zlen_nonneg g).
  rewrite !wrap_small in Hs by lia.
  assert (Hzc : zlen (map child_of g) = zlen g) by (unfold zlen; by rewrite length_map).
  assert (Hz : zlen (map child_of g ≫= child_bytes) = 24 * zlen g).
  { rewrite <-Hzc. apply zlen_bind, Forall_forall. done. }
  assert (Hv : page_args (tp_ptype plan) lv (map child_of g ≫= child_bytes) (zlen g)).
  { split; [by rewrite Hptype|lia|rewrite Hz; lia|lia]. }
  pose proof (bt_page_view (off bid) bid _ _ _ _ INTERMEDIATE_ENTRY_SIZE Hv) as Hview.
  destruct (page_view_valid K l (off bid) _ _ _ _ _ Hview Hptype Hs) as [Hval _].
  unfold node_over. simpl. eapply page_node; [lia|exact Hval|rewrite (pv_level _ _ _ _ _ Hview); lia|].
  rewrite <-Hzc in Hview at 2. erewrite (node_page_children _ _ _ (map child_of g)); [| |lia|exact Hview].
  - rewrite map_map. simpl. by apply (good_forest l h); [|lia].
  - apply Forall_forall. intros c (n & -> & Hin)%list_elem_of_fmap. rewrite Forall_forall in Hp. apply (Hp n Hin).
Qed.

Lemma next_level_good l h lv level_bids groups :
  0 <= h → 1 <= lv < 2 ^ 8 → Forall (λ g, zlen g <= 20 ∧ Forall (λ n, planned_page (nd_bid n)) g ∧ Forall (good l h) g) groups →
  all_stored l (level_writes lv level_bids groups) → Forall (good l (h + 1)) (next_level level_bids groups).
Proof.
  intros Hh Hlv Hg. revert level_bids. induction Hg as [|g groups (Hn & Hp & Hg) _ IH]; intros [|b bids] Hs; simpl; try constructor.
  - apply (good_over l h lv); try done. apply (Hs _ (list_elem_of_here _ _)).
  - apply IH. intros w Hw. apply Hs. by apply list_elem_of_further.
Qed.

Lemma next_level_bids level_bids groups :
  length level_bids = length groups → map nd_bid (next_level level_bids groups) = level_bids.
Proof.
  revert groups. induction level_bids as [|b bids IH]; intros [|g groups] Hlen; try done. simpl. f_equal. apply IH. simpl in Hlen. lia.
Qed.

Lemma next_level_recs level_bids groups :
  length level_bids = length groups → (next_level level_bids groups ≫= nd_recs) = (concat groups ≫= nd_recs).
Proof.
  revert groups. induction level_bids as [|b bids IH]; intros [|g groups] Hlen; try done.
  cbn [next_level zip_with mbind list_bind concat]. rewrite bind_app. simpl. f_equal. apply IH. simpl in Hlen. lia.
Qed.

Lemma next_level_pages level_bids groups :
  length level_bids = length groups →
  (next_level level_bids groups ≫= nd_pages) ≡ₚ level_bids ++ (concat groups ≫= nd_pages).
Proof.
  revert groups. induction level_bids as [|b bids IH]; intros [|g groups] Hlen; try done.
  cbn [next_level zip_with mbind list_bind concat]. rewrite bind_app. simpl in Hlen. simpl. constructor. unfold next_level in IH.
  rewrite IH by lia. rewrite !(assoc_L (++)). by rewrite (Permutation_app_comm bids).
Qed.

Lemma level_writes_region lv level_bids groups :
  length level_bids = length groups → Forall (λ g, zlen g <= 20) groups →
  map region (level_writes lv level_bids groups) = map tree_region level_bids.
Proof.
  intros Hlen Hg. revert level_bids Hlen. induction Hg as [|g groups Hg _ IH]; intros [|b bids] Hlen; try done.
  simpl. f_equal; [|apply IH; simpl in Hlen; lia]. unfold region, tree_region. simpl. f_equal. apply zlen_bt_page.
  rewrite (zlen_bind child_bytes 24) by (apply Forall_forall; done). unfold zlen in *. rewrite length_map. lia.
Qed.

(** *** [write_level] and [write_levels] *)

Lemma child_entry_ok (level : list (tree_node R)) k n :
  level !! k = Some n → is_Some (offsets !! nd_bid n) →
  child_entry offsets (map nd_bid level) (map nd_key level) k = Ok (child_bytes (child_of n)).
Proof.
  intros Hk [o Ho]. unfold child_entry, at_. rewrite !list_lookup_fmap, Hk. simpl. rewrite Ho. simpl.
  unfold child_bytes, child_of, off. simpl. by rewrite Ho.
Qed.

Lemma put_at_bytes f o bytes : f_bytes (put_at f o bytes) = write_at (f_bytes f) o bytes.
Proof. done. Qed.

Lemma write_level_spec (level : list (tree_node R)) lv level_bids i f :
  Forall (λ n, planned_page (nd_bid n)) level → Forall planned_page level_bids → (i <= length level)%nat →
  length level_bids = length (chunks 20 (drop i level)) →
  ∃ f', write_level plan offsets (map nd_bid level) (map nd_key level) lv level_bids i f =
      Ok (map nd_key (next_level level_bids (chunks 20 (drop i level))), f') ∧
    f_bytes f' = write_all_at (f_bytes f) (level_writes lv level_bids (chunks 20 (drop i level))).
Proof.
  intros Hl Hb. revert i f. induction Hb as [|b bids [[ob Hob] _] _ IH]; intros i f Hi Hlen.
  { exists f. symmetry in Hlen. apply length_zero_iff_nil in Hlen. by rewrite Hlen. }
  assert (Hlt : (i < length level)%nat).
  { destruct (decide (i < length level)%nat); [done|]. rewrite drop_ge in Hlen by lia. done. }
  change 20 with (Z.of_nat 20) in *. rewrite (drop_chunk 20 level i Hlt) in * by lia.
  set (stop := Nat.min (i + 20) (length level)) in *. set (g := take (stop - i) (drop i level)) in *.
  assert (Hg : length g = (stop - i)%nat) by (subst g; rewrite length_take, length_drop; lia).
  cbn [write_level]. rewrite length_map.
  change (Nat.min (i + Z.to_nat INTERMEDIATE_ENTRIES_PER_PAGE) (length level)) with stop.
  rewrite (proj2 (Nat.leb_gt _ _)) by lia.
  assert (Hhead : ∃ n ns, g = n :: ns) by (destruct g; [simpl in Hg; lia|eauto]).
  assert (Hlook : ∀ k n, g !! k = Some n → level !! (i + k)%nat = Some n).
  { intros k n Hk. subst g. rewrite lookup_take_Some, lookup_drop in Hk. tauto. }
  rewrite <-Hg, (rmap_seq _ (λ n, child_bytes (child_of n)) g).
  2: { intros k n Hk%Hlook. apply child_entry_ok; [done|]. rewrite Forall_forall in Hl. apply (Hl n). by eapply list_elem_of_lookup_2. }
  rewrite bind_ok. destruct Hhead as (n & ns & Hn). unfold at_. rewrite list_lookup_fmap.
  pose proof (Hlook 0%nat n) as H0. rewrite Nat.add_0_r in H0. rewrite H0 by (by rewrite Hn). simpl.
  rewrite Hob. simpl. destruct (IH stop (put_at f ob (bt_page ob b (tp_ptype plan) (wrap 8 lv)
    (concat (map (λ n, child_bytes (child_of n)) g)) (wrap 8 (Z.of_nat (length g))) INTERMEDIATE_ENTRY_SIZE))) as (f' & Hrun & Hbytes).
  { lia. }
  { simpl in Hlen. lia. }
  rewrite Hrun, bind_ok. exists f'. split.
  - simpl. do 3 f_equal. by rewrite Hn.
  - rewrite Hbytes, put_at_bytes. cbn [level_writes zip_with write_all_at foldl]. unfold page_write, off at 1 2. simpl. rewrite Hob.
    simpl. f_equal. f_equal. f_equal. by rewrite <-concat_bind, map_map.
Qed.

Lemma chunk_groups (P : tree_node R → Prop) (level : list (tree_node R)) :
  Forall P level → Forall (λ g, zlen g <= 20 ∧ Forall P g) (chunks 20 level).
Proof.
  intros HP. pose proof (chunks_bounds 20 ltac:(lia) level) as Hb. rewrite <-(concat_chunks 20 ltac:(lia) level) in HP.
  apply Forall_concat in HP. induction Hb as [|g gs [_ Hg] _ IH]; [constructor|]. apply Forall_cons in HP as [HP HPs].
  constructor; [done|auto].
Qed.

(** A root with the pages and records of [level] and of the levels above it. *)
Record root_over (level : list (tree_node R)) (levels : list (list Z)) (ws : list (Z * list byte)) (root : tree_node R) : Prop := {
  ro_regions : map region ws = map tree_region (concat levels);
  ro_bid : last (map nd_bid level :: levels) ≫= head = Some (nd_bid root);
  ro_recs : nd_recs root = level ≫= nd_recs;
  ro_pages : nd_pages root ≡ₚ concat levels ++ (level ≫= nd_pages);
  ro_good : ∀ l h, 0 <= h → all_stored l ws → Forall (good l h) level → good l (h + zlen levels) root }.

Lemma write_levels_spec (level : list (tree_node R)) levels lv f :
  Forall (λ n, planned_page (nd_bid n)) level → Forall (Forall planned_page) levels → tower (zlen level) levels →
  1 <= lv → lv + zlen levels < 2 ^ 8 →
  ∃ root ws f', write_levels plan offsets (map nd_bid level) (map nd_key level) lv levels f = Ok f' ∧
    f_bytes f' = write_all_at (f_bytes f) ws ∧ root_over level levels ws root.
Proof.
  intros Hl Hp. revert level lv f Hl. induction Hp as [|lb levels Hlb Hp IH]; intros level lv f Hl Ht Hlv Hmax.
  { inversion Ht as [Hz|]; subst. destruct level as [|n [|]]; try (unfold zlen in Hz; simpl in Hz; lia).
    exists n, [], f. split_and!; [done|done|]. split; [done|done|by cbn; rewrite app_nil_r|by cbn; rewrite app_nil_r|].
    intros l h _ _ Hg d. rewrite zlen_nil, Z.add_0_r. exact (Forall_inv Hg d). }
  inversion_clear Ht as [|? ? ? Hn Hz Ht']. rewrite zlen_cons in Hmax. pose proof (zlen_nonneg levels).
  assert (Hlen : length lb = length (chunks 20 level)).
  { pose proof (zlen_chunks 20 ltac:(lia) level) as Hc. unfold div_ceil in Hz. change INTERMEDIATE_ENTRIES_PER_PAGE with 20 in Hz.
    unfold zlen in *. lia. }
  assert (Hnext : zlen (next_level lb (chunks 20 level)) = zlen lb).
  { unfold zlen, next_level. rewrite length_zip_with. lia. }
  pose proof (next_level_bids lb _ Hlen) as Hbids.
  cbn [write_levels]. destruct (write_level_spec level lv lb 0 f Hl Hlb) as (f1 & -> & Hb1); [lia|by rewrite drop_0|].
  rewrite drop_0 in *. rewrite bind_ok. cbn [fst snd]. rewrite <-Hnext in Ht'.
  destruct (IH (next_level lb (chunks 20 level)) (lv + 1) f1) as (root & ws & f' & Hrun & Hb & [Hr Hbid Hrecs Hpages Hgood]); [|done|lia|lia|].
  { rewrite <-Hbids in Hlb. by rewrite Forall_map in Hlb. }
  rewrite Hbids in Hrun. rewrite Hrun.
  exists root, (level_writes lv lb (chunks 20 level) ++ ws), f'. split_and!; [done|by rewrite write_all_at_app, <-Hb1|]. split.
  - cbn [concat]. rewrite !map_app, Hr, level_writes_region; [done|done|].
    eapply Forall_impl; [apply (chunks_bounds 20 ltac:(lia))|]. simpl. lia.
  - rewrite <-Hbid, Hbids. cbn [map]. by destruct levels.
  - by rewrite Hrecs, next_level_recs, concat_chunks.
  - rewrite Hpages, next_level_pages, concat_chunks by done. cbn [concat]. rewrite (assoc_L (++)).
    by rewrite (Permutation_app_comm (concat levels)).
  - intros l h Hh [Hs1 Hs2]%all_stored_app Hg. rewrite zlen_cons, Z.add_assoc. apply Hgood; [lia|done|].
    apply (next_level_good l h lv); [done|lia| |done].
    pose proof (chunk_groups (λ n, planned_page (nd_bid n) ∧ good l h n) level) as Hgr.
    rewrite Forall_and in Hgr. eapply Forall_impl; [by apply Hgr|]. simpl. intros g [? Hg']. by rewrite Forall_and in Hg'.
Qed.

(** *** The leaves *)

Section leaves.
Context {A : Type} (key : A → Z) (encode : A → list byte) (rec : A → R).

(** The records of each leaf: at least one leaf. *)
Definition leaf_groups (capacity : Z) (sorted : list A) : list (list A) :=
  match chunks capacity sorted with [] => [[]] | groups => groups end.

Definition leaf_node (bid : Z) (group : list A) : tree_node R :=
  {| nd_bid := bid; nd_key := match group with [] => 0 | x :: _ => key x end; nd_pages := [bid];
     nd_recs := map (λ x, (key x, rec x)) group |}.
Definition leaf_write (bid : Z) (group : list A) : Z * list byte :=
  page_write bid 0 (group ≫= encode) (wrap 8 (zlen group)) (tp_leaf_entry_size plan).

Lemma leaf_regions_groups capacity sorted :
  leaf_regions key encode capacity sorted =
  (map (λ c, match c with [] => 0 | x :: _ => key x end) (leaf_groups capacity sorted),
   map (λ c, (c ≫= encode, wrap 8 (zlen c))) (leaf_groups capacity sorted)).
Proof. unfold leaf_regions, leaf_groups. by destruct (chunks capacity sorted). Qed.

Lemma concat_leaf_groups capacity sorted : 0 < capacity → concat (leaf_groups capacity sorted) = sorted.
Proof.
  intros Hc. pose proof (concat_chunks capacity Hc sorted) as Hcc. unfold leaf_groups. by destruct (chunks capacity sorted).
Qed.

Lemma leaf_groups_bound capacity sorted : 0 < capacity → Forall (λ g, zlen g <= capacity) (leaf_groups capacity sorted).
Proof.
  intros Hc. pose proof (chunks_bounds capacity Hc sorted) as Hcb. unfold leaf_groups. destruct (chunks capacity sorted).
  - repeat constructor. unfold zlen. simpl. lia.
  - eapply Forall_impl; [exact Hcb|]. simpl. lia.
Qed.

Lemma zlen_leaf_groups capacity sorted :
  0 < capacity → zlen (leaf_groups capacity sorted) = Z.max (div_ceil (zlen sorted) capacity) 1.
Proof.
  intros Hc. unfold div_ceil. rewrite <-(zlen_chunks capacity Hc). unfold leaf_groups.
  destruct (chunks capacity sorted) as [|g gs]; [done|]. rewrite zlen_cons. pose proof (zlen_nonneg gs). lia.
Qed.

Lemma write_leaves_spec bids groups i pre f :
  Forall planned_page bids → length bids = length groups → length pre = i →
  ∃ f', write_leaves plan offsets bids i (map (λ c, (c ≫= encode, wrap 8 (zlen c))) (pre ++ groups)) f = Ok f' ∧
    f_bytes f' = write_all_at (f_bytes f) (zip_with leaf_write bids groups).
Proof.
  intros Hb. revert groups i pre f. induction Hb as [|b bids [[ob Hob] _] _ IH]; intros [|g groups] i pre f Hlen Hpre; try done.
  { by exists f. }
  cbn [write_leaves]. rewrite Hob. simpl. rewrite list_lookup_fmap, lookup_app_r, Hpre, Nat.sub_diag by lia. simpl.
  destruct (IH groups (S i) (pre ++ [g]) (put_at f ob (bt_page ob b (tp_ptype plan) 0 (g ≫= encode) (wrap 8 (zlen g)) (tp_leaf_entry_size plan))))
    as (f' & Hrun & Hbytes); [simpl in Hlen; lia|rewrite length_app; simpl; lia|].
  rewrite <-(assoc_L (++)) in Hrun. simpl in Hrun. rewrite Hrun. exists f'. split; [done|].
  rewrite Hbytes, put_at_bytes. cbn [write_all_at foldl]. unfold leaf_write at 1 2, page_write, off. by rewrite Hob.
Qed.

Lemma leaf_node_good l b g :
  Forall (leaf_codec K key encode rec) g → 0 < leaf_stride K → leaf_stride K * zlen g <= 488 → zlen g < 2 ^ 8 →
  (let w := leaf_write b g in stored l w.1 w.2) → good l 0 (leaf_node b g).
Proof.
  intros Hc Hst Hn Hn8 Hs d Hd. simpl in Hs. pose proof (zlen_nonneg g). rewrite wrap_small in Hs by lia.
  assert (Hz : zlen (g ≫= encode) = leaf_stride K * zlen g).
  { apply zlen_bind. eapply Forall_impl; [exact Hc|]. by intros x [? _]. }
  assert (Hv : page_args (tp_ptype plan) 0 (g ≫= encode) (zlen g)) by (split; [by rewrite Hptype|done|lia|lia]).
  pose proof (bt_page_view (off b) b _ _ _ _ (tp_leaf_entry_size plan) Hv) as Hview.
  destruct (page_view_valid K l (off b) _ _ _ _ _ Hview Hptype Hs) as [Hval _].
  simpl. eapply page_leaf; [lia|exact Hval|apply (pv_level _ _ _ _ _ Hview)|].
  by eapply leaf_page_records; [done|lia|done|].
Qed.

Lemma leaf_nodes_good l bids groups :
  Forall (λ g, Forall (leaf_codec K key encode rec) g ∧ leaf_stride K * zlen g <= 488 ∧ zlen g < 2 ^ 8) groups →
  0 < leaf_stride K → all_stored l (zip_with leaf_write bids groups) → Forall (good l 0) (zip_with leaf_node bids groups).
Proof.
  intros Hg Hst. revert bids. induction Hg as [|g groups (Hc & Hn & Hn8) _ IH]; intros [|b bids] Hs; simpl; try constructor.
  - apply leaf_node_good; try done. apply (Hs _ (list_elem_of_here _ _)).
  - apply IH. intros w Hw. apply Hs. by apply list_elem_of_further.
Qed.

(** The leaf level as a whole. *)
Lemma leaf_level bids groups :
  length bids = length groups →
  let level := zip_with leaf_node bids groups in
  map nd_bid level = bids ∧
  map nd_key level = map (λ c, match c with [] => 0 | x :: _ => key x end) groups ∧
  (level ≫= nd_pages) = bids ∧ (level ≫= nd_recs) = map (λ x, (key x, rec x)) (concat groups) ∧
  zlen level = zlen bids.
Proof.
  revert groups. induction bids as [|b bids IH]; intros [|g groups] Hlen; try done.
  destruct (IH groups) as (H1 & H2 & H3 & H4 & H5); [simpl in Hlen; lia|]. cbn zeta in *.
  cbn [zip_with map mbind list_bind concat]. rewrite !zlen_cons, map_app, H5. cbn [nd_bid nd_key nd_pages nd_recs leaf_node app].
  rewrite H1, H2. split_and!; [done|done| |by rewrite <-H4|done]. f_equal. exact H3.
Qed.

Lemma leaf_writes_region bids groups :
  length bids = length groups → Forall (λ g, zlen (g ≫= encode) <= 488) groups →
  map region (zip_with leaf_write bids groups) = map tree_region bids.
Proof.
  intros Hlen Hg. revert bids Hlen. induction Hg as [|g groups Hg _ IH]; intros [|b bids] Hlen; try done.
  simpl. f_equal; [|apply IH; simpl in Hlen; lia]. unfold region, tree_region. simpl. f_equal. by apply zlen_bt_page.
Qed.

(** The capacity of a leaf page. *)
Record fits_leaf (capacity : Z) : Prop := {
  fl_pos : 0 < capacity; fl_stride : 0 < leaf_stride K; fl_page : leaf_stride K * capacity <= 488; fl_count : capacity < 2 ^ 8 }.

(** [write_tree] writes every page of the plan once; with these writes in place
    the root of the plan is the page tree of the sorted records. *)
Lemma write_tree_spec leaves rest sorted f :
  tp_levels plan = leaves :: rest → fits_leaf (per_leaf_capacity plan) →
  zlen leaves = Z.max (div_ceil (zlen sorted) (per_leaf_capacity plan)) 1 → tower (zlen leaves) rest → zlen leaves <= 20 ^ 31 →
  Forall planned_page (concat (tp_levels plan)) → Forall (leaf_codec K key encode rec) sorted →
  let rs := leaf_regions key encode (per_leaf_capacity plan) sorted in
  ∃ root pages ws f', write_tree plan offsets rs.1 rs.2 f = Ok f' ∧ f_bytes f' = write_all_at (f_bytes f) ws ∧
    map region ws = map tree_region (concat (tp_levels plan)) ∧
    plan_root plan = Ok root ∧ pages ≡ₚ concat (tp_levels plan) ∧
    ∀ l, all_stored l ws → page_tree K l 0 (off root) (map off pages) (map (λ x, (key x, rec x)) sorted).
Proof.
  intros Hlv [Hcap Hst Hpage H8] Hz Ht Hbig Hp Hc. rewrite leaf_regions_groups. cbn [fst snd].
  set (groups := leaf_groups _ sorted). unfold write_tree. rewrite Hlv in *. cbn [concat] in *. apply Forall_app in Hp as [Hp1 Hp2].
  assert (Hlen : length leaves = length groups).
  { pose proof (zlen_leaf_groups (per_leaf_capacity plan) sorted Hcap) as Hzg. fold groups in Hzg. unfold zlen in *. lia. }
  destruct (write_leaves_spec leaves groups 0 [] f Hp1 Hlen eq_refl) as (f1 & Hrun1 & Hb1). simpl app in Hrun1. rewrite Hrun1, bind_ok.
  destruct (leaf_level leaves groups Hlen) as (Hbid & Hkey & Hpages & Hrecs & Hzl). set (level := zip_with leaf_node leaves groups) in *.
  assert (Hh : zlen rest <= 31 + 1).
  { destruct (decide (0 < zlen rest)) as [Hr|]; [|lia]. pose proof (tower_height _ _ Ht Hr) as Hth.
    assert (Hpow : 20 ^ (zlen rest - 1) < 20 ^ 31) by lia. apply Z.pow_lt_mono_r_iff in Hpow; lia. }
  destruct (write_levels_spec level rest 1 f1) as (root & ws & f' & Hrun2 & Hb2 & [Hr Hrb Hrr Hrp Hrg]).
  { apply Forall_map. by rewrite Hbid. }
  { by apply Forall_concat. }
  { by rewrite Hzl. }
  { lia. }
  { lia. }
  rewrite Hbid, Hkey in Hrun2. rewrite Hbid in Hrb. fold groups. rewrite Hrun2.
  assert (Hgroups : Forall (λ g, Forall (leaf_codec K key encode rec) g ∧ leaf_stride K * zlen g <= 488 ∧ zlen g < 2 ^ 8) groups).
  { rewrite <-(concat_leaf_groups (per_leaf_capacity plan) sorted Hcap) in Hc. fold groups in Hc. apply Forall_concat in Hc.
    pose proof (leaf_groups_bound (per_leaf_capacity plan) sorted Hcap) as Hb. fold groups in Hb.
    rewrite Forall_forall in Hb, Hc. apply Forall_forall. intros g Hg. specialize (Hb g Hg). split_and!; [by apply Hc|nia|lia]. }
  exists (nd_bid root), (nd_pages root), (zip_with leaf_write leaves groups ++ ws), f'. split_and!.
  - done.
  - by rewrite write_all_at_app, <-Hb1.
  - rewrite !map_app, Hr, leaf_writes_region; [done|done|]. eapply Forall_impl; [exact Hgroups|].
    intros g (Hg & ? & _). rewrite (zlen_bind encode (leaf_stride K)); [done|]. eapply Forall_impl; [exact Hg|]. by intros x [? _].
  - unfold plan_root. rewrite Hlv, Hrb. done.
  - rewrite Hrp, Hpages. apply Permutation_app_comm.
  - intros l [Hs1 Hs2]%all_stored_app. pose proof (Hrg l 0 ltac:(lia) Hs2) as Hgood.
    specialize (Hgood (leaf_nodes_good l leaves groups Hgroups Hst Hs1) 0 ltac:(unfold MAX_BTREE_DEPTH; lia)).
    rewrite Hrr, Hrecs in Hgood. unfold groups in Hgood. by rewrite concat_leaf_groups in Hgood.
Qed.
End leaves.
End tree.
