(* ===== verification/NdbFile.v ===== *)
(** * The finalized file

    [finalize_file] writes the header, the AMap pages, both trees and the blocks
    that are still in memory, each into its own range ([finalize_file_spec]); the
    header and the two indexes then read back. *)

From S2P Require Import Prelude Telemetry PstError Crypt Header Btree PropContext WriterHeap Layout LayoutFacts DataChain DataChainFacts TreeWriter NdbLayout NdbPages NdbTree.
#[local] Open Scope Z_scope.

(** ** Indexes of records with distinct keys *)

Lemma index_of_lookup {R} (es : list (Z * R)) k v :
  NoDup (map fst es) → index_of es !! k = Some v ↔ (k, v) ∈ es.
Proof.
  unfold index_of. induction es as [|[k' v'] es IH] using rev_ind; intros Hnd.
  { simpl. rewrite lookup_empty. split; [done|by intros ?%elem_of_nil]. }
  rewrite map_app in Hnd. apply NoDup_app in Hnd as (Hnd & Hdis & _). rewrite foldl_app. simpl.
  rewrite elem_of_app, list_elem_of_singleton. destruct (decide (k' = k)) as [->|Hne].
  - rewrite lookup_insert_eq. split; [intros [= ->]; by right|]. intros [Hin|[= ->]]; [|done].
    exfalso. apply (Hdis k); [|simpl; set_solver]. by apply (list_elem_of_fmap_2 fst) in Hin.
  - rewrite lookup_insert_ne, IH by done. split; [by left|]. intros [?|[= <- <-]]; done.
Qed.

(** ** The header *)

Section header.

(** The numbers of the header fit their fields. *)
Record header_args (size amap next nbid noff bbid boff : Z) : Prop := {
  ha_size : 0 <= size < 2 ^ 64; ha_next : 0 <= next < 2 ^ 64;
  ha_nbid : 0 <= nbid < 2 ^ 64; ha_noff : 0 <= noff < 2 ^ 64;
  ha_bbid : 0 <= bbid < 2 ^ 64; ha_boff : 0 <= boff < 2 ^ 64 }.

Lemma zlen_header_bytes size amap next nbid noff bbid boff :
  zlen (header_bytes size amap next nbid noff bbid boff) = HEADER_SIZE.
Proof. reflexivity. Qed.

Lemma header_fields size amap next nbid noff bbid boff :
  header_args size amap next nbid noff bbid boff →
  let h := header_bytes size amap next nbid noff bbid boff in
  le_val h 0 4 = PST_MAGIC ∧ le_val h 8 2 = CLIENT_MAGIC ∧ le_val h 10 2 = 23 ∧ le_val h 0x201 1 = 0 ∧
  le_val h 184 8 = size ∧ le_val h 216 8 = nbid ∧ le_val h 224 8 = noff ∧ le_val h 232 8 = bbid ∧ le_val h 240 8 = boff ∧
  le_val h 248 1 = 1 ∧ le_val h 0x204 8 = next.
Proof.
  intros []. cbn zeta.
  assert (Hfield : ∀ l o w v, sub l o (Z.of_nat w) = le_split w v → 0 <= v < 2 ^ (8 * Z.of_nat w) → le_val l o (Z.of_nat w) = v).
  { intros l o w v Hs Hv. unfold le_val. rewrite Hs. by apply le_combine_split_id. }
  split_and!; [apply (Hfield _ _ 4%nat)|apply (Hfield _ _ 2%nat)|apply (Hfield _ _ 2%nat)|apply (Hfield _ _ 1%nat)
    |apply (Hfield _ _ 8%nat)..|apply (Hfield _ _ 1%nat)|apply (Hfield _ _ 8%nat)]; (reflexivity || done).
Qed.

Lemma stored_le_val l data o w :
  stored l 0 data → 0 <= o → 0 <= w → o + w <= zlen data → le_val l o w = le_val data o w.
Proof. intros Hs Ho Hw Hl. unfold le_val. by rewrite <-(stored_sub l 0 data o w Hs). Qed.

(** The reader's view of a written header. *)
Lemma header_read_written file size amap next nbid noff bbid boff :
  header_args size amap next nbid noff bbid boff → stored file 0 (header_bytes size amap next nbid noff bbid boff) →
  ∃ h, header_read file = Ok h ∧ version h = 23 ∧ header_crypt h = CryptNone ∧ bid_next_b h = next ∧
    ib_file_eof (root h) = size ∧ bref_nbt (root h) = {| bref_bid := nbid; bref_ib := noff |} ∧
    bref_bbt (root h) = {| bref_bid := bbid; bref_ib := boff |} ∧ f_amap_valid (root h) = true.
Proof.
  intros Ha Hs. pose proof (zlen_header_bytes size amap next nbid noff bbid boff) as Hz.
  destruct (header_fields _ _ _ _ _ _ _ Ha) as (F1 & F2 & F3 & F4 & F5 & F6 & F7 & F8 & F9 & F10 & F11).
  set (h := header_bytes size amap next nbid noff bbid boff) in *. unfold HEADER_SIZE in Hz.
  assert (Hlen : 4096 <= zlen file) by (destruct Hs as (_ & Hs & _); lia).
  assert (Hv : ∀ o w, 0 <= o → 0 <= w → o + w <= 4096 → le_val file o w = le_val h o w).
  { intros o w Ho Hw Hl. apply stored_le_val; [done..|lia]. }
  rewrite header_read_long by lia. unfold header_at. rewrite !Hv, F1, F2, F3, F4 by lia. rewrite !Z.eqb_refl. simpl.
  eexists. split; [reflexivity|]. simpl. rewrite !Hv, F5, F6, F7, F8, F9, F10, F11 by lia. done.
Qed.
End header.

(** ** Leaf records *)

(** The [u64] fields of a node. *)
Definition node_u64 (n : node_entry) : Prop :=
  0 <= ne_nid n < 2 ^ 64 ∧ 0 <= ne_bid_data n < 2 ^ 64 ∧ 0 <= ne_bid_sub n < 2 ^ 64.

Definition nbt_record (n : node_entry) : nbt_entry :=
  {| nbt_nid := ne_nid n; bid_data := ne_bid_data n; bid_sub := ne_bid_sub n; nid_parent := wrap 32 (ne_nid_parent n) |}.
Definition bbt_record (b : block_entry) : bbt_entry :=
  {| bbt_bref := {| bref_bid := be_bid b; bref_ib := be_offset b |}; cb := be_len b; c_ref := 1 |}.

Lemma nbt_codec n : node_u64 n → leaf_codec nbt_kind ne_nid encode_nbt_leaf nbt_record n.
Proof.
  intros (? & ? & ?). split; [done|]. assert (Hz : zlen (encode_nbt_leaf n) = 32) by done.
  pose proof (Z.mod_pos_bound (ne_nid_parent n) (2 ^ 32) ltac:(lia)).
  cbn [parse_leaf nbt_kind]. unfold parse_nbt_leaf. run_reads. unfold encode_nbt_leaf, nbt_record, wrap. find_field. done.
Qed.

Lemma bbt_codec b :
  0 <= be_bid b < 2 ^ 64 → 0 <= be_offset b < 2 ^ 64 → 0 <= be_len b <= MAX_BLOCK_DATA →
  leaf_codec bbt_kind be_bid encode_bbt_leaf bbt_record b.
Proof.
  intros ? ? Hl. split; [done|]. assert (Hz : zlen (encode_bbt_leaf b) = 24) by done.
  cbn [parse_leaf bbt_kind]. unfold parse_bbt_leaf. run_reads. unfold encode_bbt_leaf, bbt_record, payload_len.
  unfold MAX_BLOCK_DATA in Hl. rewrite wrap_small by lia. find_field. done.
Qed.

(** ** [finalize_layout] *)

Section finalize.
Context `{Crc : Crc32} `{!Crc32Range}.

(** The layout that is about to be written: both plans and all offsets are fixed. *)
Record final_layout (ly : layout) (e : eager_ctx) (ly' : layout) (np bp : tree_plan) (maps pages : list page_entry) : Prop := {
  fn_nodes : ly_nodes ly' = ly_nodes ly;
  fn_blocks : Forall2 same_block (ly_blocks ly) (ly_blocks ly');
  fn_nbt : planned PTYPE_NBT NBT_LEAF_ENTRY_SIZE (zlen (ly_nodes ly)) np;
  fn_bbt : planned PTYPE_BBT BBT_LEAF_ENTRY_SIZE (zlen (ly_blocks ly)) bp;
  fn_bids : map pe_bid pages = concat (tp_levels np) ++ concat (tp_levels bp);
  fn_pages : ly_pages ly' = maps ++ pages;
  fn_ptypes : Forall (λ p, pe_ptype p ≠ PTYPE_AMAP) pages;
  fn_maps : Forall is_map_page maps;
  fn_file : ∃ e', ly_eager ly' = Some e' ∧ eg_file e' = eg_file e;
  fn_next : next_bid_counter (ly_bids ly) <= next_bid_counter (ly_bids ly');
  fn_distinct : NoDup (map be_bid (ly_blocks ly') ++ map pe_bid (ly_pages ly'));
  fn_range : ∀ x, x ∈ map be_bid (ly_blocks ly') ++ map pe_bid (ly_pages ly') → 16 <= x < next_bid_counter (ly_bids ly') + 3;
  fn_separate : separate (regions ly');
  fn_laid : ∃ hi, laid HEADER_SIZE (disk_regions (ly_blocks ly') ++ map page_region pages ++ mem_regions (ly_blocks ly')) hi ∧
    (amap_complete (eg_amap e) →
     ∀ k, 0 <= k → slot k < Z.max hi (AMAP_FIRST_OFFSET + PAGE_SIZE) → slot k ∈ map pe_offset maps) }.

Lemma reserved_bids ptype bids :
  map pe_bid (map (λ bid, {| pe_bid := bid; pe_ptype := ptype; pe_offset := 0 |}) bids) = bids.
Proof. rewrite map_map. apply map_id. Qed.

Lemma finalize_layout_spec ly e :
  ly_ok ly e → ly_pages ly = [] →
  ∃ ly' np bp maps pages, finalize_layout ly = Ok (ly', np, bp) ∧ final_layout ly e ly' np bp maps pages.
Proof.
  intros Hok Hp. unfold finalize_layout.
  destruct (plan_tree_spec ly e PTYPE_NBT NBT_LEAF_ENTRY_SIZE (zlen (ly_nodes ly)) ltac:(done) Hok) as (np & ly1 & -> & [Ok1 P1 B1 N1 X1] & Hnp).
  rewrite bind_ok. cbn [fst snd].
  destruct (plan_tree_spec ly1 e PTYPE_BBT BBT_LEAF_ENTRY_SIZE (zlen (ly_blocks ly1)) ltac:(done) Ok1) as (bp & ly2 & -> & [Ok2 P2 B2 N2 X2] & Hbp).
  rewrite bind_ok. cbn [fst snd].
  destruct (calculate_offsets_spec ly2 e Ok2) as (ly' & maps & pages & -> & [A1 A2 A3 A4 A5 A6 A7 A8 A9 A10 A11]).
  rewrite bind_ok. exists ly', np, bp, maps, pages. split; [done|].
  rewrite P1, Hp, app_nil_l in P2. split; try done.
  - by rewrite A1, N2, N1.
  - by rewrite <-B1, <-B2.
  - by rewrite <-B1.
  - rewrite (same_pages_bids _ _ A4), P2, map_app, !reserved_bids. done.
  - apply Forall_forall. intros p Hin. pose proof (lo_pages _ _ Ok2) as Hly. rewrite Forall_forall in Hly.
    apply list_elem_of_lookup in Hin as [i Hi]. destruct (Forall2_lookup_r _ _ _ _ _ A4 Hi) as (q & Hq & _ & ->).
    apply Hly. by eapply list_elem_of_lookup_2.
  - lia.
Qed.

(** *** The offsets of the pages *)

Lemma page_offset_map_index ly : page_offset_map ly = index_of (map (λ p, (pe_bid p, pe_offset p)) (ly_pages ly)).
Proof. unfold page_offset_map, index_of. generalize (∅ : gmap Z Z). induction (ly_pages ly) as [|p ps IH]; intros m; [done|]. simpl. apply IH. Qed.

Lemma page_offset_map_lookup ly p :
  NoDup (map pe_bid (ly_pages ly)) → p ∈ ly_pages ly → page_offset_map ly !! pe_bid p = Some (pe_offset p).
Proof.
  intros Hnd Hin. rewrite page_offset_map_index. apply index_of_lookup; [by rewrite map_map|].
  by apply (list_elem_of_fmap_2 (λ p, (pe_bid p, pe_offset p))).
Qed.

Lemma foldl_max {A} (f : A → Z) l m :
  m <= foldl (λ m x, Z.max m (f x)) m l ∧ ∀ x, x ∈ l → f x <= foldl (λ m x, Z.max m (f x)) m l.
Proof.
  revert m. induction l as [|y l IH]; intros m; simpl; [split; [lia|by intros x ?%elem_of_nil]|].
  destruct (IH (Z.max m (f y))) as [H1 H2]. split; [lia|]. intros x [->|Hx]%elem_of_cons; [lia|auto].
Qed.

Lemma file_size_page ly p : p ∈ ly_pages ly → pe_offset p + PAGE_SIZE <= file_size ly.
Proof.
  intros Hin. unfold file_size.
  etrans; [|apply (proj1 (foldl_max (λ b, be_offset b + block_span (payload_len b)) (ly_blocks ly) _))].
  by apply (proj2 (foldl_max (λ p, pe_offset p + PAGE_SIZE) (ly_pages ly) HEADER_SIZE)).
Qed.

Lemma file_size_block ly b : b ∈ ly_blocks ly → be_offset b + block_span (be_len b) <= file_size ly.
Proof. intros Hin. by apply (proj2 (foldl_max (λ b, be_offset b + block_span (payload_len b)) (ly_blocks ly) _)). Qed.

Lemma ib_amap_last_some ly p : p ∈ ly_pages ly → pe_ptype p = PTYPE_AMAP → ∃ o, ib_amap_last ly = Some o.
Proof.
  intros Hin Hp. unfold ib_amap_last. generalize (@None Z).
  assert (Hkeep : ∀ ps o, ∃ o', foldl (λ m p, if pe_ptype p =? PTYPE_AMAP
      then Some (match m with Some o => Z.max o (pe_offset p) | None => pe_offset p end) else m) (Some o) ps = Some o').
  { induction ps as [|q ps IH]; intros o; simpl; [by eexists|]. case_match; apply IH. }
  induction (ly_pages ly) as [|q ps IH]; intros m; [by apply elem_of_nil in Hin|]. simpl.
  apply elem_of_cons in Hin as [<-|Hin]; [|by apply IH]. rewrite (proj2 (Z.eqb_eq _ _) Hp). apply Hkeep.
Qed.

(** *** Writes *)

Lemma foldl_put_at {A} (o : A → Z) (d : A → list byte) l f :
  f_bytes (foldl (λ f x, put_at f (o x) (d x)) f l) = write_all_at (f_bytes f) (map (λ x, (o x, d x)) l).
Proof. revert f. induction l as [|x l IH]; intros f; [done|]. simpl. by rewrite IH. Qed.

Definition block_write (b : block_entry) : Z * list byte := (be_offset b, data_block (be_bid b) (be_data b)).
Definition in_memory (blocks : list block_entry) : list block_entry := base.filter (λ b, be_on_disk b = false) blocks.

Lemma write_blocks_bytes blocks f :
  f_bytes (write_blocks blocks f) = write_all_at (f_bytes f) (map block_write (in_memory blocks)).
Proof.
  unfold write_blocks, in_memory. revert f. induction blocks as [|b blocks IH]; intros f; [done|]. simpl. rewrite IH.
  destruct (be_on_disk b) eqn:Hd; [by rewrite filter_cons_False by congruence|].
  by rewrite filter_cons_True by done.
Qed.

Lemma separate_lookup rs i j a b :
  separate rs → (i < j)%nat → rs !! i = Some a → rs !! j = Some b → apart_of a b.
Proof.
  intros Hs. revert i j. induction Hs as [|r rs Hr _ IH]; intros i j Hij Hi Hj; [done|].
  destruct j as [|j]; [lia|]. destruct i as [|i]; simpl in *.
  - injection Hi as ->. rewrite Forall_forall in Hr. apply Hr. by eapply list_elem_of_lookup_2.
  - apply (IH i j); [lia|done|done].
Qed.

(** Writes into separate ranges are all there in the end, and what was stored apart from them stays. *)
Lemma separate_all_stored l ws :
  Forall (λ w, 0 <= w.1) ws → separate (map region ws) → all_stored (write_all_at l ws) ws.
Proof.
  intros Hp Hs w. apply stored_all; [done|]. intros i j u v Hij Hu Hv.
  apply (separate_lookup _ i j (region u) (region v) Hs Hij); by rewrite list_lookup_fmap; rewrite ?Hu, ?Hv.
Qed.

Lemma separate_stored l ws a d :
  Forall (λ w, 0 <= w.1) ws → separate ((a, zlen d) :: map region ws) → stored l a d → stored (write_all_at l ws) a d.
Proof.
  intros Hp Hs. inversion_clear Hs as [|? ? Hf _]. apply stored_write_all. rewrite Forall_map in Hf.
  rewrite Forall_forall in *. intros w Hw. split; [by apply Hp|by apply Hf].
Qed.

Lemma separate_offsets pages : separate (map page_region pages) → NoDup (map pe_offset pages).
Proof.
  induction pages as [|p pages IH]; simpl; [constructor|]. inversion_clear 1 as [|? ? Hf Hs]. constructor; [|auto].
  intros (q & Hq & Hin)%list_elem_of_fmap. rewrite Forall_map, Forall_forall in Hf. specialize (Hf q Hin).
  unfold apart_of, apart, page_region, PAGE_SIZE in Hf. simpl in Hf. lia.
Qed.

Lemma NoDup_submseteq_sub {A} (l k : list A) : NoDup k → l ⊆+ k → NoDup l.
Proof. intros Hk [l' Hp]%submseteq_Permutation. rewrite Hp in Hk. by apply NoDup_app in Hk as (? & _ & _). Qed.

(** Distinct values below a bound are not more than the bound. *)
Lemma NoDup_bound (l : list Z) N : NoDup l → (∀ x, x ∈ l → 0 <= x < N) → 0 <= N → zlen l <= N.
Proof.
  intros Hd Hr HN. assert (Hsub : l ⊆+ seqZ 0 N).
  { apply NoDup_submseteq; [done|]. intros x Hx. apply elem_of_seqZ. apply Hr in Hx. lia. }
  apply submseteq_length in Hsub. rewrite length_seqZ in Hsub. unfold zlen. lia.
Qed.

Lemma first_repeat_none l : NoDup l → first_repeat l = None.
Proof.
  induction 1 as [|x l Hx Hd IH]; [done|]. destruct l as [|y l]; [done|]. cbn [first_repeat].
  destruct (x =? y) eqn:He; bool_to_Z; [set_solver|done].
Qed.

(** A written tree: its root, and the page tree over the sorted records in every
    file that holds the writes. *)
Record tree_written {A R} (K : tree_kind R) (key : A → Z) (rec : A → R) (plan : tree_plan) (offsets : gmap Z Z)
    (records : list A) (root : Z) (ws : list (Z * list byte)) : Prop := {
  tw_root : plan_root plan = Ok root;
  tw_regions : map region ws = map (tree_region offsets) (concat (tp_levels plan));
  tw_tree : ∃ pages sorted, pages ≡ₚ concat (tp_levels plan) ∧ sorted ≡ₚ records ∧
    ∀ l, all_stored l ws → page_tree K l 0 (off offsets root) (map (off offsets) pages) (map (λ x, (key x, rec x)) sorted) }.

Lemma write_records_spec {A R} (K : tree_kind R) (key : A → Z) encode (rec : A → R) plan offsets ptype size sorted records f :
  planned ptype size (zlen records) plan → ptype = kind_ptype K → size = leaf_stride K → 0 <= ptype < 2 ^ 8 →
  0 < size → size * Z.max (488 / size) 1 <= 488 → Z.max (488 / size) 1 < 2 ^ 8 → sorted ≡ₚ records → zlen records <= 2 ^ 64 →
  Forall (planned_page offsets) (concat (tp_levels plan)) → Forall (leaf_codec K key encode rec) records →
  let rs := leaf_regions key encode (per_leaf_capacity plan) sorted in
  ∃ root ws f', write_tree plan offsets rs.1 rs.2 f = Ok f' ∧ f_bytes f' = write_all_at (f_bytes f) ws ∧
    tree_written K key rec plan offsets records root ws.
Proof.
  intros [Hpt Hsz Hcap (leaves & rest & Hlv & Hz & Ht)] -> -> Hrange Hst Hfit Hcnt Hsort Hbig Hpages Hcodec. cbn zeta.
  assert (Hzs : zlen sorted = zlen records) by (unfold zlen; by rewrite Hsort).
  destruct (write_tree_spec K plan offsets Hpt Hrange key encode rec leaves rest sorted f) as
    (root & pages & ws & f' & Hrun & Hb & Hr & Hroot & Hp & Htree); try done.
  - rewrite Hcap. split; [lia|done|done|done].
  - by rewrite Hzs.
  - rewrite Hz. assert (Hle : div_ceil (zlen records) (per_leaf_capacity plan) <= 2 ^ 64 + 1); [|lia].
    unfold div_ceil. pose proof (zlen_nonneg records). rewrite Hcap.
    apply Z.div_le_upper_bound; [lia|]. nia.
  - by rewrite Hsort.
  - exists root, ws, f'. split_and!; [done|done|]. split; [done|done|]. by exists pages, sorted.
Qed.
End finalize.

(** ** [finalize_file] *)

Section file.
Context `{Crc : Crc32} `{!Crc32Range}.
Context (ly : layout) (e : eager_ctx) (ly' : layout) (np bp : tree_plan) (maps pages : list page_entry).
Context (Hfn : final_layout ly e ly' np bp maps pages).

(** Offsets and block IDs are [u64] values. *)
Definition in_u64 (ly : layout) : Prop := file_size ly < 2 ^ 64 ∧ next_bid_counter (ly_bids ly) + 3 <= 2 ^ 64.

Lemma page_in p : p ∈ pages → HEADER_SIZE <= pe_offset p ∧ page_offset_map ly' !! pe_bid p = Some (pe_offset p) ∧
  p ∈ ly_pages ly'.
Proof.
  intros Hin. destruct (fn_laid _ _ _ _ _ _ _ Hfn) as (hi & Hl & _).
  assert (Hp : p ∈ ly_pages ly') by (rewrite (fn_pages _ _ _ _ _ _ _ Hfn); set_solver).
  split_and!; [|apply page_offset_map_lookup; [|done]|done].
  - apply (laid_in _ _ _ (pe_offset p) PAGE_SIZE) in Hl as (? & _); [done|].
    rewrite !elem_of_app. right. left. by apply (list_elem_of_fmap_2 page_region).
  - pose proof (fn_distinct _ _ _ _ _ _ _ Hfn) as Hd. by apply NoDup_app in Hd as (_ & _ & ?).
Qed.

Lemma off_page p : p ∈ pages → off (page_offset_map ly') (pe_bid p) = pe_offset p.
Proof. intros (_ & Ho & _)%page_in. unfold off. by rewrite Ho. Qed.

Lemma tree_regions :
  map (tree_region (page_offset_map ly')) (concat (tp_levels np)) ++
  map (tree_region (page_offset_map ly')) (concat (tp_levels bp)) = map page_region pages.
Proof.
  rewrite <-map_app, <-(fn_bids _ _ _ _ _ _ _ Hfn), map_map. apply map_ext_in. intros p Hp%list_elem_of_In.
  unfold tree_region, page_region. by rewrite off_page.
Qed.

Lemma planned_pages : in_u64 ly' →
  Forall (planned_page (page_offset_map ly')) (concat (tp_levels np) ++ concat (tp_levels bp)).
Proof.
  intros [Hu _]. rewrite <-(fn_bids _ _ _ _ _ _ _ Hfn), Forall_map. apply Forall_forall. intros p Hp.
  pose proof (off_page p Hp) as Hoff. apply page_in in Hp as (Hge & Ho & Hin). split; [by eexists|].
  rewrite Hoff. pose proof (file_size_page ly' p Hin). unfold HEADER_SIZE, PAGE_SIZE in *. lia.
Qed.

(** The offsets of the pages of a tree are distinct. *)
Lemma tree_offsets_distinct : NoDup (map (off (page_offset_map ly')) (concat (tp_levels np) ++ concat (tp_levels bp))).
Proof.
  rewrite <-(fn_bids _ _ _ _ _ _ _ Hfn), map_map.
  rewrite (map_ext_in _ pe_offset) by (intros p Hp%list_elem_of_In; by apply off_page).
  apply separate_offsets. destruct (fn_laid _ _ _ _ _ _ _ Hfn) as (hi & Hl & _).
  apply laid_separate in Hl. rewrite !separate_app in Hl. tauto.
Qed.

Definition map_write (p : page_entry) : Z * list byte := (pe_offset p, amap_page (pe_offset p) (pe_bid p)).

Lemma amap_filter : base.filter (λ p, pe_ptype p = PTYPE_AMAP) (ly_pages ly') = maps.
Proof.
  rewrite (fn_pages _ _ _ _ _ _ _ Hfn), filter_app.
  rewrite filter_all by (eapply Forall_impl; [apply (fn_maps _ _ _ _ _ _ _ Hfn)|]; by intros p [? _]).
  by rewrite filter_none, app_nil_r by apply (fn_ptypes _ _ _ _ _ _ _ Hfn).
Qed.

Lemma map_writes_region : map region (map map_write maps) = map page_region maps.
Proof.
  rewrite map_map. apply map_ext. intros p. unfold region, map_write, page_region. simpl. by rewrite zlen_amap_page.
Qed.

(** A block after placement: its size, its place and its payload. *)
Lemma placed_block b :
  Forall (block_ok e) (ly_blocks ly) → b ∈ ly_blocks ly' →
  0 <= be_len b <= MAX_BLOCK_DATA ∧ HEADER_SIZE <= be_offset b ∧ ∃ payload, content e b payload.
Proof.
  intros Hok Hin. apply list_elem_of_lookup in Hin as [i Hi].
  destruct (Forall2_lookup_r _ _ _ _ _ (fn_blocks _ _ _ _ _ _ _ Hfn) Hi) as (c & Hc & Hbid & Hdata & Hlen & Hdisk & Hoff).
  rewrite Forall_forall in Hok. assert (Hcin : c ∈ ly_blocks ly) by (by eapply list_elem_of_lookup_2).
  destruct (Hok c Hcin) as [Hl Hd Hm (payload & Hz & Hcont)]. pose proof (zlen_nonneg payload). split_and!; [lia|lia| |].
  - destruct (fn_laid _ _ _ _ _ _ _ Hfn) as (hi & Hlaid & _).
    apply (laid_in _ _ _ (be_offset b) (block_span (be_len b))) in Hlaid as (? & _); [done|].
    assert (Hr : block_region b ∈ map block_region (ly_blocks ly')).
    { apply (list_elem_of_fmap_2 block_region). by eapply list_elem_of_lookup_2. }
    rewrite split_regions in Hr. rewrite elem_of_app in Hr. rewrite !elem_of_app. fold (block_region b). tauto.
  - exists payload. split; [lia|]. rewrite Hdisk, Hbid, Hdata. destruct (be_on_disk c) eqn:Ho; [|done]. by rewrite Hoff.
Qed.

Lemma mem_writes_region : Forall (block_ok e) (ly_blocks ly) →
  map region (map block_write (in_memory (ly_blocks ly'))) = mem_regions (ly_blocks ly').
Proof.
  intros Hok. unfold mem_regions. rewrite map_map. apply map_ext_in. intros b Hb%list_elem_of_In.
  unfold in_memory in Hb. apply list_elem_of_filter in Hb as [Hd Hb].
  destruct (placed_block b Hok Hb) as (_ & _ & payload & Hz & Hc). rewrite Hd in Hc.
  unfold region, block_write, block_region. simpl. by rewrite zlen_data_block, Hc, Hz.
Qed.

(** The writes of [finalize_file] fill the regions that are not on disk. *)
Lemma writes_separate header nws bws :
  Forall (block_ok e) (ly_blocks ly) → zlen header = HEADER_SIZE →
  map region nws ++ map region bws = map page_region pages →
  let ws := (0, header) :: map map_write maps ++ nws ++ bws ++ map block_write (in_memory (ly_blocks ly')) in
  separate (map region ws ++ disk_regions (ly_blocks ly')) ∧ Forall (λ w, 0 <= w.1) ws.
Proof.
  intros Hok Hh Htr ws.
  assert (Hreg : map region ws = (0, HEADER_SIZE) :: map page_region (ly_pages ly') ++ mem_regions (ly_blocks ly')).
  { subst ws. cbn [map]. unfold region at 1. simpl. rewrite Hh, !map_app, map_writes_region, mem_writes_region by done.
    rewrite (fn_pages _ _ _ _ _ _ _ Hfn), map_app, <-Htr. by rewrite <-!(assoc_L (++)). }
  split.
  - rewrite Hreg. apply (separate_perm (regions ly')); [|apply (fn_separate _ _ _ _ _ _ _ Hfn)].
    unfold regions. simpl. constructor. rewrite split_regions, <-(assoc_L (++)). f_equiv. apply Permutation_app_comm.
  - assert (Hp : Forall (λ r, 0 <= r.1) (map region ws)); [|by rewrite Forall_map in Hp].
    rewrite Hreg. constructor; [done|]. apply Forall_app. split; apply Forall_map.
    + rewrite (fn_pages _ _ _ _ _ _ _ Hfn). apply Forall_app. split.
      * eapply Forall_impl; [apply (fn_maps _ _ _ _ _ _ _ Hfn)|]. intros p (_ & k & Hk & Ho). simpl. rewrite Ho. unfold slot, AMAP_FIRST_OFFSET, AMAP_INTERVAL. lia.
      * apply Forall_forall. intros p (? & _)%page_in. simpl. unfold HEADER_SIZE in *. lia.
    + apply Forall_forall. intros b [_ Hb]%list_elem_of_filter. destruct (placed_block b Hok Hb) as (_ & ? & _). simpl. unfold HEADER_SIZE in *. lia.
Qed.

Lemma tower_root n level levels :
  tower n levels → zlen level = n → ∃ r, last (level :: levels) ≫= head = Some r ∧ r ∈ concat (level :: levels).
Proof.
  intros Ht. revert level. induction Ht as [|n lv levels Hn Hz Ht IH]; intros level Hl.
  - destruct level as [|x [|y level]]; [done| |rewrite !zlen_cons in Hl; pose proof (zlen_nonneg level); lia].
    exists x. split; [done|]. simpl. set_solver.
  - destruct (IH lv eq_refl) as (r & Hr & Hin). exists r. split; [done|]. cbn [concat] in *. set_solver.
Qed.

Lemma plan_root_ok ptype size count plan :
  planned ptype size count plan → ∃ r, plan_root plan = Ok r ∧ r ∈ concat (tp_levels plan).
Proof.
  intros [_ _ _ (leaves & rest & Hlv & _ & Ht)]. destruct (tower_root _ leaves rest Ht eq_refl) as (r & Hr & Hin).
  exists r. unfold plan_root. by rewrite Hlv, Hr.
Qed.

(** What the finalized file holds. *)
Record final_file (file : list byte) : Prop := {
  ff_header : ∃ amap_last nroot broot nws bws,
    let offsets := page_offset_map ly' in
    header_args (file_size ly') amap_last (next_bid_counter (ly_bids ly')) nroot (off offsets nroot) broot (off offsets broot) ∧
    stored file 0 (header_bytes (file_size ly') amap_last (next_bid_counter (ly_bids ly')) nroot (off offsets nroot) broot (off offsets broot)) ∧
    tree_written nbt_kind ne_nid nbt_record np offsets (ly_nodes ly) nroot nws ∧ all_stored file nws ∧
    tree_written bbt_kind be_bid bbt_record bp offsets (ly_blocks ly') broot bws ∧ all_stored file bws ∧
    HEADER_SIZE <= off offsets nroot ∧ HEADER_SIZE <= off offsets broot;
  ff_maps : all_stored file (map map_write maps);
  ff_blocks : ∀ b payload, b ∈ ly_blocks ly' → content e b payload → stored file (be_offset b) (data_block (be_bid b) payload) }.

Lemma zlen_nodes_bound : Forall node_u64 (ly_nodes ly) → NoDup (map ne_nid (ly_nodes ly)) → zlen (ly_nodes ly) <= 2 ^ 64.
Proof.
  intros Hn Hd. replace (zlen (ly_nodes ly)) with (zlen (map ne_nid (ly_nodes ly))) by (unfold zlen; by rewrite length_map).
  apply NoDup_bound; [done| |lia]. intros x (n & -> & Hin)%list_elem_of_fmap. rewrite Forall_forall in Hn. by apply Hn.
Qed.

Lemma zlen_blocks_bound : in_u64 ly' → zlen (ly_blocks ly') <= 2 ^ 64.
Proof.
  intros [_ Hu]. replace (zlen (ly_blocks ly')) with (zlen (map be_bid (ly_blocks ly'))) by (unfold zlen; by rewrite length_map).
  apply NoDup_bound; [|intros x Hx|lia].
  - pose proof (fn_distinct _ _ _ _ _ _ _ Hfn) as Hd. by apply NoDup_app in Hd as (? & _ & _).
  - pose proof (fn_range _ _ _ _ _ _ _ Hfn x ltac:(set_solver)). lia.
Qed.

Lemma blocks_codec :
  Forall (block_ok e) (ly_blocks ly) → in_u64 ly' → Forall (leaf_codec bbt_kind be_bid encode_bbt_leaf bbt_record) (ly_blocks ly').
Proof.
  intros Hok [Hfs Hnx]. apply Forall_forall. intros b Hb. destruct (placed_block b Hok Hb) as (Hl & Ho & _).
  pose proof (file_size_block ly' b Hb) as Hfb. pose proof (block_span_bounds (be_len b)).
  assert (Hr : 16 <= be_bid b < next_bid_counter (ly_bids ly') + 3).
  { apply (fn_range _ _ _ _ _ _ _ Hfn). apply elem_of_app. left. by apply (list_elem_of_fmap_2 be_bid). }
  unfold HEADER_SIZE in Ho. apply bbt_codec; lia.
Qed.

Lemma root_page plan r : in_u64 ly' →
  (concat (tp_levels plan) ⊆ concat (tp_levels np) ++ concat (tp_levels bp)) → r ∈ concat (tp_levels plan) →
  ∃ o, page_offset_map ly' !! r = Some o ∧ off (page_offset_map ly') r = o ∧ HEADER_SIZE <= o < 2 ^ 64 ∧ 0 <= r < 2 ^ 64 ∧
    0 <= file_size ly' ∧ 0 <= next_bid_counter (ly_bids ly').
Proof.
  intros Hu Hsub Hr. apply Hsub in Hr. pose proof (planned_pages Hu) as Hp. rewrite Forall_forall in Hp.
  destruct (Hp r Hr) as [[o Ho] Hrange]. exists o.
  rewrite <-(fn_bids _ _ _ _ _ _ _ Hfn) in Hr. apply list_elem_of_fmap in Hr as (p & -> & Hin).
  pose proof (off_page p Hin) as Hoff. destruct (page_in p Hin) as (Hge & Hlook & Hpin). rewrite Hlook in Ho. injection Ho as <-.
  rewrite Hoff in *. pose proof (fn_range _ _ _ _ _ _ _ Hfn (pe_bid p)) as Hb. destruct Hu as [_ Hu].
  rewrite elem_of_app in Hb. specialize (Hb (or_intror (list_elem_of_fmap_2 pe_bid _ _ Hpin))).
  pose proof (file_size_page ly' p Hpin). unfold HEADER_SIZE, PAGE_SIZE in *. split_and!; try done; lia.
Qed.

Lemma finalize_file_spec :
  amap_complete (eg_amap e) → in_u64 ly' → Forall node_u64 (ly_nodes ly) → NoDup (map ne_nid (ly_nodes ly)) →
  Forall (block_ok e) (ly_blocks ly) →
  ∃ f, finalize_file ly' np bp = Ok f ∧ final_file (f_bytes f).
Proof.
  intros Hcomp Hu Hn Hnd Hok. set (offsets := page_offset_map ly').
  pose proof (planned_pages Hu) as Hpl. apply Forall_app in Hpl as [Hpn Hpb]. fold offsets in Hpn, Hpb.
  destruct (plan_root_ok _ _ _ np (fn_nbt _ _ _ _ _ _ _ Hfn)) as (nroot & Hnroot & Hnin).
  destruct (plan_root_ok _ _ _ bp (fn_bbt _ _ _ _ _ _ _ Hfn)) as (broot & Hbroot & Hbin).
  destruct (root_page np nroot Hu ltac:(set_solver) Hnin) as (no & Hno & Hnoff & Hnr & Hnb & Hfs0 & Hnx0).
  destruct (root_page bp broot Hu ltac:(set_solver) Hbin) as (bo & Hbo & Hboff & Hbr & Hbb & _ & _). fold offsets in Hno, Hnoff, Hbo, Hboff.
  destruct (fn_laid _ _ _ _ _ _ _ Hfn) as (hi & _ & Hslots).
  assert (Hm : ∃ m ms, maps = m :: ms).
  { specialize (Hslots Hcomp 0 ltac:(done)). destruct maps as [|m ms]; [|eauto].
    exfalso. apply (elem_of_nil (slot 0)), Hslots. unfold slot, AMAP_FIRST_OFFSET, PAGE_SIZE. lia. }
  destruct Hm as (m & ms & Hm).
  assert (Hamap : ∃ o, ib_amap_last ly' = Some o).
  { apply (ib_amap_last_some ly' m); [rewrite (fn_pages _ _ _ _ _ _ _ Hfn), Hm; set_solver|].
    pose proof (fn_maps _ _ _ _ _ _ _ Hfn) as Hmp. rewrite Hm in Hmp. apply Forall_cons in Hmp as [[? _] _]. done. }
  destruct Hamap as (amap_last & Hamap). destruct (fn_file _ _ _ _ _ _ _ Hfn) as (e' & He' & Hfile).
  set (header := header_bytes (file_size ly') amap_last (next_bid_counter (ly_bids ly')) nroot no broot bo).
  unfold finalize_file. rewrite He'. simpl ok_or. rewrite bind_ok.
  unfold write_header_v1. rewrite Hnroot, Hbroot, !bind_ok. fold offsets. rewrite Hno, Hbo. simpl ok_or. rewrite !bind_ok, Hamap. simpl ok_or. rewrite !bind_ok.
  fold header. set (f0 := f_write_all _ header). unfold write_all_amap_pages_v1. rewrite amap_filter, Hm. rewrite <-Hm. rewrite bind_ok.
  set (f1 := foldl _ f0 maps). unfold write_nbt.
  rewrite (first_repeat_none (map ne_nid (sort_on ne_nid (ly_nodes ly')))) by (rewrite sort_on_perm, (fn_nodes _ _ _ _ _ _ _ Hfn); done).
  destruct (write_records_spec nbt_kind ne_nid encode_nbt_leaf nbt_record np offsets PTYPE_NBT NBT_LEAF_ENTRY_SIZE
    (sort_on ne_nid (ly_nodes ly')) (ly_nodes ly) f1) as (nroot' & nws & f2 & Hrun2 & Hb2 & Hnt); try done.
  { apply (fn_nbt _ _ _ _ _ _ _ Hfn). }
  { rewrite sort_on_perm. by rewrite (fn_nodes _ _ _ _ _ _ _ Hfn). }
  { by apply zlen_nodes_bound. }
  { eapply Forall_impl; [exact Hn|]. apply nbt_codec. }
  destruct (leaf_regions ne_nid encode_nbt_leaf _ _) as [nkeys npages]. cbn [fst snd] in Hrun2. rewrite Hrun2, bind_ok.
  unfold write_bbt.
  assert (Hzb : zlen (ly_blocks ly) = zlen (ly_blocks ly')).
  { unfold zlen. by rewrite (Forall2_length _ _ _ (fn_blocks _ _ _ _ _ _ _ Hfn)). }
  destruct (write_records_spec bbt_kind be_bid encode_bbt_leaf bbt_record bp offsets PTYPE_BBT BBT_LEAF_ENTRY_SIZE
    (sort_on be_bid (ly_blocks ly')) (ly_blocks ly') f2) as (broot' & bws & f3 & Hrun3 & Hb3 & Hbt); try done.
  { rewrite <-Hzb. apply (fn_bbt _ _ _ _ _ _ _ Hfn). }
  { apply sort_on_perm. }
  { by apply zlen_blocks_bound. }
  { by apply blocks_codec. }
  destruct (leaf_regions be_bid encode_bbt_leaf _ _) as [bkeys bpages]. cbn [fst snd] in Hrun3. rewrite Hrun3, bind_ok.
  eexists. split; [done|].
  pose proof (tw_root _ _ _ _ _ _ _ _ Hnt) as Hr1. rewrite Hnroot in Hr1. injection Hr1 as <-.
  pose proof (tw_root _ _ _ _ _ _ _ _ Hbt) as Hr2. rewrite Hbroot in Hr2. injection Hr2 as <-.
  destruct (writes_separate header nws bws Hok) as [Hsep Hpos]; [apply zlen_header_bytes| |].
  { rewrite (tw_regions _ _ _ _ _ _ _ _ Hnt), (tw_regions _ _ _ _ _ _ _ _ Hbt). apply tree_regions. }
  set (ws := (0, header) :: _) in *.
  assert (Hbytes : f_bytes (write_blocks (ly_blocks ly') f3) = write_all_at (f_bytes (eg_file e)) ws).
  { rewrite write_blocks_bytes, Hb3, Hb2. subst f1. rewrite (foldl_put_at pe_offset (λ p, amap_page (pe_offset p) (pe_bid p))).
    subst f0 ws. simpl. rewrite Hfile, !write_all_at_app. done. }
  assert (Hsepw : separate (map region ws)) by (by apply separate_app in Hsep as (? & _ & _)).
  pose proof (separate_all_stored (f_bytes (eg_file e)) ws Hpos Hsepw) as Hall. rewrite <-Hbytes in Hall.
  apply (all_stored_app _ [(0, header)]) in Hall as [Hh Hall]. apply all_stored_app in Hall as [Hmaps Hall].
  apply all_stored_app in Hall as [Hnws Hall]. apply all_stored_app in Hall as [Hbws Hblk].
  split; [|done|].
  - exists amap_last, nroot, broot, nws, bws. cbn zeta. fold offsets. rewrite Hnoff, Hboff. split_and!; try done; try lia.
    + destruct Hu as [? Hnx]. unfold HEADER_SIZE in *. split; lia.
    + apply (Hh (0, header)). set_solver.
  - intros b payload Hb [Hz Hc]. destruct (be_on_disk b) eqn:Hd.
    + rewrite Hbytes. apply separate_stored; [done| |done]. rewrite zlen_data_block, Hz. constructor; [|done].
      apply Forall_forall. intros a Ha. apply apart_sym. apply separate_app in Hsep as (_ & _ & Hsep).
      apply (Hsep a (block_region b) Ha). apply (list_elem_of_fmap_2 block_region). by apply list_elem_of_filter.
    + rewrite <-Hc. apply (Hblk (block_write b)). apply list_elem_of_fmap_2. by apply list_elem_of_filter.
Qed.

(** *** Reading the indexes *)

(** The index built from a written tree: one entry per record. *)
Lemma tree_written_build {A R} (K : tree_kind R) `{!TreeKindOk K} (key : A → Z) (rec : A → R) plan (records : list A) root ws file :
  tree_written K key rec plan (page_offset_map ly') records root ws → all_stored file ws →
  (concat (tp_levels plan) ⊆+ concat (tp_levels np) ++ concat (tp_levels bp)) → HEADER_SIZE <= off (page_offset_map ly') root →
  NoDup (map key records) →
  ∃ idx, outcome (build K file (off (page_offset_map ly') root)) = Ok idx ∧
    ∀ k r, idx !! k = Some r ↔ ∃ x, x ∈ records ∧ key x = k ∧ rec x = r.
Proof.
  intros [_ _ (tree_pages & sorted & Hp & Hs & Htree)] Hst Hsub Hroot Hnd. specialize (Htree file Hst).
  exists (index_of (map (λ x, (key x, rec x)) sorted)). split.
  - apply build_refines; [done|]. right. split; [unfold HEADER_SIZE in Hroot; lia|].
    exists (map (off (page_offset_map ly')) tree_pages), (map (λ x, (key x, rec x)) sorted). split_and!; [done| |done].
    rewrite Hp. pose proof tree_offsets_distinct as Hd. apply (fmap_submseteq (off (page_offset_map ly'))) in Hsub.
    by apply (NoDup_submseteq_sub _ _ Hd).
  - intros k r. rewrite index_of_lookup by (rewrite map_map; simpl; by rewrite Hs).
    split.
    + intros (x & [= -> ->] & Hx)%list_elem_of_fmap. rewrite Hs in Hx. by exists x.
    + intros (x & Hx & <- & <-). apply (list_elem_of_fmap_2 (λ x, (key x, rec x))). by rewrite Hs.
Qed.
End file.
