(* ===== verification/NdbRead.v ===== *)
(** * Reading written trees

    The readers of pst-reader on the blocks that pst-writer lays out: a value reads
    back whole, and leaf by leaf, whatever its size; nothing but block reads is
    reported. *)

From S2P Require Import Prelude Telemetry PstError Crypt Header Btree Block BlockFacts Streaming PropContext WriterHeap Layout LayoutFacts DataChain DataChainFacts NdbPages.
#[local] Open Scope Z_scope.

(** ** Reads without findings *)

(** The value and the events of a run. *)
Definition runs {A} (m : pio A) (a : A) (es : list tele_event) : Prop := outcome m = Ok a ∧ events m = es.

Lemma runs_ret {A} (a : A) : runs (mret a) a [].
Proof. done. Qed.
Lemma runs_quiet {A} (m : pres A) a : m = Ok a → runs (quiet m) a [].
Proof. by intros ->. Qed.
Lemma runs_emit ev : runs (emit ev) () [ev].
Proof. done. Qed.
Lemma runs_bind {A B} (m : pio A) (f : A → pio B) a b es es' :
  runs m a es → runs (f a) b es' → runs (m ≫= f) b (es ++ es').
Proof.
  intros [Ho He] [Ho' He']. split; [by rewrite outcome_bind, Ho, bind_ok|].
  by rewrite events_bind, Ho, He, He'.
Qed.
Lemma runs_quiet_bind {A B} (m : pres A) (f : A → pio B) a b es : m = Ok a → runs (f a) b es → runs (quiet m ≫= f) b es.
Proof. intros ->. apply (runs_bind _ _ _ _ []). by apply runs_quiet. Qed.

(** Block reads as the only events. *)
Definition clean {A} (m : pio A) (a : A) : Prop := ∃ es, runs m a es ∧ Forall (eq NoteBlockRead) es.

Lemma clean_ret {A} (a : A) : clean (mret a) a.
Proof. by exists []. Qed.
Lemma clean_bind {A B} (m : pio A) (f : A → pio B) a b : clean m a → clean (f a) b → clean (m ≫= f) b.
Proof.
  intros (es & Hr & He) (es' & Hr' & He'). exists (es ++ es'). split; [by eapply runs_bind|]. apply Forall_app. by split.
Qed.
Lemma clean_quiet_bind {A B} (m : pres A) (f : A → pio B) a b : m = Ok a → clean (f a) b → clean (quiet m ≫= f) b.
Proof. intros Hm (es & Hr & He). exists es. split; [by eapply runs_quiet_bind|done]. Qed.
Lemma clean_outcome {A} (m : pio A) a : clean m a → outcome m = Ok a.
Proof. by intros (es & [? _] & _). Qed.

(** ** A written block *)

Section block.
Context `{Crc : Crc32} `{!Crc32Range} (file : list byte) (bbt : bbt_index).

Lemma align_up_64 n : align_up n BLOCK_ALIGN = align64 n.
Proof. rewrite align64_div. unfold align_up, BLOCK_ALIGN. do 2 f_equal. lia. Qed.

(** The trailer of a written block: checksum and ID. *)
Lemma data_block_fields bid payload :
  0 <= bid < 2 ^ 64 →
  le_val (data_block bid payload) (align64 (zlen payload)) 4 = crc32 payload ∧
  le_val (data_block bid payload) (align64 (zlen payload) + 4) 8 = bid ∧
  sub (data_block bid payload) 0 (zlen payload) = payload.
Proof.
  intros Hb. pose proof (crc32_range payload). pose proof (align64_bounds (zlen payload)). unfold data_block. rewrite align_up_64.
  pose proof (zlen_nonneg payload). split_and!.
  - find_field. done.
  - find_field. done.
  - rewrite sub_app_l by lia. by rewrite sub_all by lia.
Qed.

Definition written_entry (bid off len : Z) : bbt_entry :=
  {| bbt_bref := {| bref_bid := bid; bref_ib := off |}; cb := len; c_ref := 1 |}.

(** The checksum of a written block agrees. *)
Lemma written_trailer bid payload :
  0 <= bid < 2 ^ 64 → runs (validate_block_trailer (data_block bid payload) (zlen payload)) bid [].
Proof.
  intros Hb. destruct (data_block_fields bid payload Hb) as (F1 & F2 & F3). pose proof (zlen_nonneg payload).
  pose proof (align64_bounds (zlen payload)).
  assert (Hz : zlen (data_block bid payload) = align64 (zlen payload) + 16).
  { rewrite zlen_data_block. unfold block_span. by rewrite align_up_64. }
  assert (Ht : zlen (sub (data_block bid payload) (align64 (zlen payload)) 16) = 16) by (apply zlen_sub; lia).
  unfold validate_block_trailer, BLOCK_TRAILER_SIZE. rewrite (proj2 (Z.ltb_ge _ _)) by lia.
  eapply runs_quiet_bind.
  { rewrite slice_ok by lia. by replace (align64 (zlen payload) + 16 - align64 (zlen payload)) with 16 by lia. }
  eapply runs_quiet_bind; [apply le_at_ok; lia|]. rewrite le_val_sub, Z.add_0_r, F1 by lia.
  eapply runs_quiet_bind; [apply le_at_ok; lia|]. rewrite le_val_sub, F2 by lia.
  eapply runs_quiet_bind; [apply slice_ok; lia|]. rewrite Z.sub_0_r, F3, Z.eqb_refl. apply runs_ret.
Qed.

(** A written block reads back, with one event. *)
Lemma read_written_block bid off payload :
  0 <= bid < 2 ^ 64 → bbt !! bid = Some (written_entry bid off (zlen payload)) → stored file off (data_block bid payload) →
  runs (read_payload file bbt bid) payload [NoteBlockRead].
Proof.
  intros Hb He (Ho & Hl & Hs). pose proof (data_block_fields bid payload Hb) as (_ & _ & F3).
  pose proof (written_trailer bid payload Hb) as Htr. pose proof (zlen_nonneg payload). pose proof (align64_bounds (zlen payload)).
  rewrite zlen_data_block in Hl, Hs. unfold block_span in *. rewrite align_up_64 in *.
  assert (Hz : zlen (data_block bid payload) = align64 (zlen payload) + 16).
  { rewrite zlen_data_block. unfold block_span. by rewrite align_up_64. }
  unfold read_payload. apply (runs_bind _ _ (data_block bid payload) _ [NoteBlockRead] []).
  - unfold read_raw_block, bbt_get, BLOCK_TRAILER_SIZE. rewrite He. eapply runs_quiet_bind; [done|]. cbn [cb bbt_bref bref_ib written_entry].
    eapply runs_quiet_bind.
    { unfold read_exact_at. rewrite (proj2 (Z.leb_le _ _)), (proj2 (Z.leb_le _ _)) by lia. by rewrite Hs. }
    apply (runs_bind _ _ () _ [NoteBlockRead] []); [apply runs_emit|].
    eapply (runs_bind _ _ _ _ [] []); [exact Htr|]. rewrite Z.eqb_refl. apply runs_ret.
  - unfold bbt_get. rewrite He. eapply runs_quiet_bind; [done|]. apply runs_quiet. cbn [cb written_entry].
    rewrite slice_ok by lia. by rewrite Z.sub_0_r, F3.
Qed.
End block.

(** ** Values *)

Lemma rmap_Forall2 {E A B} (f : A → res E B) l ys : rmap f l = Ok ys → Forall2 (λ x y, f x = Ok y) l ys.
Proof.
  revert ys. induction l as [|x l IH]; intros ys; [intros [= <-]; constructor|].
  intros (y & ys' & Hy & Hys & ->)%rmap_cons_ok. constructor; auto.
Qed.

(** The fields of an XBLOCK or XXBLOCK. *)
Record xblock_view (p : list byte) (lv : Z) (bids : list Z) (total : Z) : Prop := {
  xv_len : zlen p = 8 + 8 * zlen bids;
  xv_type : le_val p 0 1 = 1;
  xv_level : le_val p 1 1 = lv;
  xv_count : le_val p 2 2 = zlen bids;
  xv_total : le_val p 4 4 = total;
  xv_bids : rmap (λ o, le_at p o 8) (entry_offsets 8 (zlen p) 8 (length bids)) = Ok bids :> pres _ }.

Lemma xblock_payload_view lv bids total :
  0 <= lv < 2 ^ 8 → zlen bids <= MAX_XBLOCK_ENTRIES → 0 <= total < 2 ^ 32 → Forall (λ b, 0 <= b < 2 ^ 64) bids →
  xblock_view (xblock_payload lv bids total) lv bids total.
Proof.
  intros Hlv Hn Ht Hb. pose proof (zlen_nonneg bids). change MAX_XBLOCK_ENTRIES with 1021 in Hn.
  assert (Heq : xblock_payload lv bids total =
    le_split 1 1 ++ le_split 1 lv ++ le_split 2 (zlen bids) ++ le_split 4 total ++ (bids ≫= le_split 8)).
  { unfold xblock_payload. by rewrite wrap_small by lia. }
  split; [apply zlen_xblock_payload|rewrite Heq..|].
  1-4: find_field; done.
  rewrite zlen_xblock_payload, Heq. set (pre := le_split 1 1 ++ le_split 1 lv ++ le_split 2 (zlen bids) ++ le_split 4 total).
  assert (Hpre : zlen pre = 8) by done. replace (le_split 1 1 ++ _) with (pre ++ (bids ≫= le_split 8) ++ [])
    by (unfold pre; by rewrite app_nil_r, <-!(assoc_L (++))).
  rewrite <-Hpre at 3.
  rewrite <-(map_id bids) at 3. apply (rmap_entries (le_split 8) (λ b, b) _ 8 _ pre bids []); [done|lia|].
  eapply Forall_impl; [exact Hb|]. intros b Hbr. split; [done|]. intros pre' post' ->.
  by apply le_at_mid.
Qed.

Section values.
Context `{Crc : Crc32} (file : list byte) (bbt : bbt_index) (B : Z → list byte → Prop).

(** The blocks of the trees are in the file: what the readers rely on. *)
Context (HB : ∀ bid d, B bid d → 0 <= bid < 2 ^ 64 ∧ runs (read_payload file bbt bid) d [NoteBlockRead]).

Lemma HB_clean bid d : B bid d → clean (read_payload file bbt bid) d.
Proof. intros [_ Hr]%HB. exists [NoteBlockRead]. split; [done|by repeat constructor]. Qed.

Lemma sat_add_small x y : x + y <= MAX_XBLOCK_ASSEMBLE → (MAX_XBLOCK_ASSEMBLE <? sat_add x y) = false.
Proof. intros. apply Z.ltb_ge. unfold sat_add. lia. Qed.

Lemma xblock_steps data os bids pieces acc :
  Forall2 (λ o b, le_at data o 8 = Ok b :> pres _) os bids → Forall2 (leaf B) bids pieces →
  zlen (acc ++ concat pieces) <= MAX_XBLOCK_ASSEMBLE →
  clean (mfold (xblock_step file bbt data CryptNone) os acc) (acc ++ concat pieces).
Proof.
  intros Ho Hl. revert os acc Ho. induction Hl as [|b p bids pieces (_ & _ & _ & Hp) _ IH]; intros os acc Ho Hmax.
  { apply Forall2_nil_inv_r in Ho as ->. simpl. rewrite app_nil_r. apply clean_ret. }
  apply Forall2_cons_inv_r in Ho as (o & os' & Hat & Ho & ->). cbn [concat] in *.
  rewrite (assoc_L (++)) in Hmax |- *. cbn [mfold]. apply (clean_bind _ _ (acc ++ p)); [|by apply IH].
  unfold xblock_step. apply (clean_quiet_bind _ _ b); [done|]. apply (clean_bind _ _ p); [by apply HB_clean|].
  cbn [decrypt_block]. rewrite sat_add_small; [apply clean_ret|].
  rewrite !zlen_app in Hmax. pose proof (zlen_nonneg (concat pieces)). lia.
Qed.

Lemma leaf_ids_range bids pieces : Forall2 (leaf B) bids pieces → Forall (λ b, 0 <= b < 2 ^ 64) bids.
Proof. induction 1 as [|???? (_ & _ & _ & Hb) _ IH]; constructor; [by apply HB in Hb as [? _]|done]. Qed.
Lemma xnode_ids_range bids pieces : Forall2 (xnode B) bids pieces → Forall (λ b, 0 <= b < 2 ^ 64) bids.
Proof. induction 1 as [|???? (? & ? & _ & _ & _ & _ & Hb) _ IH]; constructor; [by apply HB in Hb as [? _]|done]. Qed.

(** The opening of both multi-block readers. *)
Lemma block_list_opening {A} p lv bids total (k : Z → pio A) a :
  xblock_view p lv bids total → total <= MAX_XBLOCK_ASSEMBLE → clean (k (zlen bids)) a →
  clean (if zlen p <? 8 then quiet (Err (DataTruncated 8 (zlen p)))
         else
           c_entries ← quiet (le_at p 2 2);
           lcb_total ← quiet (le_at p 4 4);
           _ ← quiet (check_xblock_assemble_limit lcb_total);
           k c_entries) a.
Proof.
  intros [Hl _ _ Hc Ht _] Hmax Hk. pose proof (zlen_nonneg bids). rewrite (proj2 (Z.ltb_ge _ _)) by lia.
  eapply clean_quiet_bind; [apply le_at_ok; lia|]. eapply clean_quiet_bind; [apply le_at_ok; lia|].
  eapply (clean_quiet_bind _ _ ()); [|by rewrite Hc].
  unfold check_xblock_assemble_limit. by rewrite Ht, (proj2 (Z.ltb_ge _ _)) by done.
Qed.

Lemma read_xblock_written p bids pieces :
  xblock_view p 1 bids (zlen (concat pieces)) → Forall2 (leaf B) bids pieces → zlen (concat pieces) <= MAX_XBLOCK_ASSEMBLE →
  clean (read_xblock_data file bbt p CryptNone) (concat pieces).
Proof.
  intros Hv Hl Hmax. unfold read_xblock_data. eapply block_list_opening; [exact Hv|done|]. destruct Hv as [_ _ _ _ _ Hb].
  replace (Z.to_nat (zlen bids)) with (length bids) by (unfold zlen; lia). apply (xblock_steps _ _ bids pieces []); [|done|done].
  by apply rmap_Forall2.
Qed.

(** What an XBLOCK reads as. *)
Lemma xnode_view bid d :
  xnode B bid d → zlen d < 2 ^ 32 → ∃ bids pieces, Forall2 (leaf B) bids pieces ∧ d = concat pieces ∧
    B bid (xblock_payload 1 bids (zlen d)) ∧ xblock_view (xblock_payload 1 bids (zlen d)) 1 bids (zlen d).
Proof.
  intros (bids & pieces & _ & Hl & Hd & Hn & Hb) Hmax. exists bids, pieces. split_and!; try done.
  pose proof (zlen_nonneg d). apply xblock_payload_view; [done|done|lia|by eapply leaf_ids_range].
Qed.

Lemma xxblock_steps data os bids pieces acc :
  Forall2 (λ o b, le_at data o 8 = Ok b :> pres _) os bids → Forall2 (xnode B) bids pieces →
  zlen (acc ++ concat pieces) <= MAX_XBLOCK_ASSEMBLE →
  clean (mfold (xxblock_step file bbt data CryptNone) os acc) (acc ++ concat pieces).
Proof.
  intros Ho Hl. revert os acc Ho. induction Hl as [|b p bids pieces Hp _ IH]; intros os acc Ho Hmax.
  { apply Forall2_nil_inv_r in Ho as ->. simpl. rewrite app_nil_r. apply clean_ret. }
  apply Forall2_cons_inv_r in Ho as (o & os' & Hat & Ho & ->). cbn [concat] in *.
  rewrite (assoc_L (++)) in Hmax |- *. cbn [mfold]. apply (clean_bind _ _ (acc ++ p)); [|by apply IH].
  rewrite !zlen_app in Hmax. pose proof (zlen_nonneg (concat pieces)). pose proof (zlen_nonneg acc). pose proof (zlen_nonneg p).
  destruct (xnode_view b p Hp) as (cs & ps & Hcs & -> & Hpay & Hv); [unfold MAX_XBLOCK_ASSEMBLE in *; lia|].
  unfold xxblock_step. apply (clean_quiet_bind _ _ b); [done|]. eapply clean_bind; [by apply HB_clean|].
  eapply clean_bind; [eapply read_xblock_written; [exact Hv|done|lia]|].
  rewrite sat_add_small; [apply clean_ret|lia].
Qed.

(** A written value that the reader may assemble reads back. *)
Lemma read_data_tree bid d :
  data_tree B bid d → zlen d <= MAX_XBLOCK_ASSEMBLE → clean (read_block_data file bbt bid CryptNone) d.
Proof.
  intros Ht Hmax. pose proof (zlen_nonneg d). unfold MAX_XBLOCK_ASSEMBLE in Hmax. unfold read_block_data.
  destruct Ht as [|bid d (Hi & Hn & _ & Hb)|bid d Hx|bid d Hxx].
  - apply clean_ret.
  - unfold is_null. rewrite (proj2 (Z.eqb_neq _ _)) by done. eapply clean_bind; [by apply HB_clean|]. rewrite Hi. apply clean_ret.
  - assert (Hi : is_internal bid = true) by (destruct Hx as (? & ? & ? & _); done).
    destruct (xnode_view bid d Hx) as (bids & ps & Hl & -> & Hb & Hv); [lia|].
    rewrite (internal_not_null bid Hi). eapply clean_bind; [by apply HB_clean|]. rewrite Hi.
    pose proof Hv as [Hlen Hty Hlv _ _ _]. pose proof (zlen_nonneg bids). simpl negb. rewrite (proj2 (Z.ltb_ge _ _)) by lia.
    eapply clean_quiet_bind; [apply index_val; lia|]. eapply clean_quiet_bind; [apply index_val; lia|].
    rewrite Hty, Hlv. by eapply read_xblock_written.
  - destruct Hxx as (bids & ps & Hi & Hl & -> & Hn & _ & Hb).
    rewrite (internal_not_null bid Hi). eapply clean_bind; [by apply HB_clean|]. rewrite Hi.
    assert (Hv : xblock_view (xblock_payload 2 bids (zlen (concat ps))) 2 bids (zlen (concat ps))).
    { apply xblock_payload_view; [done|done|lia|by eapply xnode_ids_range]. }
    pose proof Hv as [Hlen Hty Hlv _ _ Hat]. pose proof (zlen_nonneg bids). simpl negb. rewrite (proj2 (Z.ltb_ge _ _)) by lia.
    eapply clean_quiet_bind; [apply index_val; lia|]. eapply clean_quiet_bind; [apply index_val; lia|].
    rewrite Hty, Hlv. simpl. unfold read_xxblock_data. eapply block_list_opening; [exact Hv|done|].
    replace (Z.to_nat (zlen bids)) with (length bids) by (unfold zlen; lia).
    apply (xxblock_steps _ _ bids ps []); [by apply rmap_Forall2|done|done].
Qed.

(** *** Leaf by leaf *)

Context (Hwf : bbt_wf bbt).

Lemma view_children p lv bids total : xblock_view p lv bids total → children p = bids.
Proof.
  intros [_ _ _ Hc _ Hat]. pose proof (child_bids_ok p) as Hok. unfold child_bids in Hok.
  rewrite Hc in Hok. replace (Z.to_nat (zlen bids)) with (length bids) in Hok by (unfold zlen; lia). congruence.
Qed.

Lemma HB_payload bid d : B bid d → payload_of file bbt bid = Ok d.
Proof. intros [_ [Ho _]]%HB. by rewrite <-outcome_read_payload. Qed.

Lemma leaf_external bid d : leaf B bid d → external bid.
Proof. intros (Hi & Hn & _ & _). split; [by apply Z.eqb_neq|done]. Qed.

Lemma view_header p lv bids total : xblock_view p lv bids total → block_header p lv.
Proof. intros [Hl Ht Hv _ _ _]. pose proof (zlen_nonneg bids). split_and!; [lia|done|done]. Qed.

Lemma xnode_wf bid d : xnode B bid d → zlen d < 2 ^ 32 → wf_xblock file bbt bid.
Proof.
  intros Hx Hmax. destruct (xnode_view bid d Hx Hmax) as (bids & ps & Hl & _ & Hb & Hv).
  split; [by destruct Hx as (? & ? & ? & _)|]. eexists. split; [by apply HB_payload|]. split; [by eapply view_header|].
  rewrite (view_children _ _ _ _ Hv). clear - Hl. induction Hl as [|???? Hl _ IH]; [constructor|].
  constructor; [by eapply leaf_external|done].
Qed.

Lemma xnode_leaves bid d : xnode B bid d → zlen d < 2 ^ 32 →
  ∃ pieces, Forall2 (leaf B) (xblock_leaves file bbt bid) pieces ∧ concat pieces = d.
Proof.
  intros Hx Hmax. destruct (xnode_view bid d Hx Hmax) as (bids & ps & Hl & -> & Hb & Hv).
  unfold xblock_leaves. rewrite (HB_payload _ _ Hb), (view_children _ _ _ _ Hv). by exists ps.
Qed.

Lemma leaf_read bid d : leaf B bid d → clean (read_leaf_block_data file bbt bid CryptNone) d.
Proof.
  intros Hl. destruct (leaf_external _ _ Hl) as [Hn Hi]. destruct Hl as (_ & _ & _ & Hb).
  unfold read_leaf_block_data. rewrite Hn, Hi. simpl orb. eapply clean_bind; [by apply HB_clean|]. apply clean_ret.
Qed.

(** The leaves of a written value of any size, in order. *)
Lemma collect_data_tree bid d :
  data_tree B bid d → zlen d < 2 ^ 32 →
  ∃ leaves pieces, outcome (collect_leaf_data_bids file bbt bid) = Ok leaves ∧ Forall2 (leaf B) leaves pieces ∧ concat pieces = d.
Proof.
  intros Ht Hmax. unfold collect_leaf_data_bids. rewrite outcome_run_fresh. unfold subnode_fuel.
  destruct Ht as [|bid d Hl|bid d Hx|bid d Hxx].
  - exists [], []. by split_and!.
  - destruct (leaf_external _ _ Hl) as [Hn Hi]. exists [bid], [d]. simpl collect_leaf_data_bids_at. rewrite Hn, Hi.
    split_and!; [done|constructor; [exact Hl|constructor]|simpl; by rewrite app_nil_r].
  - destruct (xnode_wf bid d Hx Hmax) as (Hi & p & Hp & Hh & _). destruct (xnode_leaves bid d Hx Hmax) as (ps & Hps & Hd).
    unfold xblock_leaves in Hps. rewrite Hp in Hps.
    exists (children p), ps. rewrite (collect_xblock _ _ Hwf _ _ _ _ p) by (done || set_solver). by split_and!.
  - destruct Hxx as (bids & ps & Hi & Hl & -> & Hn & Hnd & Hb). pose proof (zlen_nonneg (concat ps)).
    assert (Hv : xblock_view (xblock_payload 2 bids (zlen (concat ps))) 2 bids (zlen (concat ps))).
    { apply xblock_payload_view; [done|done|lia|by eapply xnode_ids_range]. }
    pose proof (view_header _ _ _ _ Hv) as (H8 & H1 & H2). pose proof (view_children _ _ _ _ Hv) as Hch.
    set (p := xblock_payload 2 bids (zlen (concat ps))) in *. clearbody p. apply NoDup_cons in Hnd as [Hnin Hnd].
    assert (Hsmall : Forall2 (λ b q, xnode B b q ∧ zlen q < 2 ^ 32) bids ps).
    { clear - Hl Hmax. induction Hl as [|b q bids ps Hq _ IH]; [constructor|]. cbn [concat] in Hmax. rewrite zlen_app in Hmax.
      pose proof (zlen_nonneg (concat ps)). pose proof (zlen_nonneg q). constructor; [split; [done|lia]|apply IH; lia]. }
    assert (Hxw : Forall (wf_xblock file bbt) bids).
    { clear - Hsmall HB Hwf. induction Hsmall as [|???? [? ?] _ IH]; constructor; [by eapply xnode_wf|done]. }
    destruct (collect_children file bbt Hwf 32 1 (entry_offsets 8 (zlen p) 8 (Z.to_nat (le_val p 2 2))) p)
      with (visited := {[bid]} ∪ ∅ : gset Z) (leaves := @nil Z) as [visited' Hrun]; try done.
    { intros o Ho. apply entry_offsets_bound in Ho; lia. }
    { unfold children in Hch. by rewrite Hch. }
    { unfold children in Hch. by rewrite Hch. }
    { unfold children in Hch. rewrite Hch. intros b Hbin. rewrite elem_of_union, elem_of_singleton. intros [->|?]; [done|set_solver]. }
    unfold children in Hch. rewrite Hch in Hrun.
    assert (Hall : ∃ pieces, Forall2 (leaf B) (concat (map (xblock_leaves file bbt) bids)) pieces ∧ concat pieces = concat ps).
    { clear - Hsmall HB Hwf. induction Hsmall as [|b q bids ps [Hx Hq] _ (pieces & Hp & Hc)]; [by exists []|].
      destruct (xnode_leaves b q Hx Hq) as (qs & Hqs & Hqc). exists (qs ++ pieces). cbn [map concat]. split.
      - by apply Forall2_app.
      - by rewrite concat_app, Hqc, Hc. }
    destruct Hall as (pieces & Hpieces & Hcat). exists (concat (map (xblock_leaves file bbt) bids)), pieces.
    rewrite (collect_internal file bbt Hwf 33 bid 0 ∅ p Hi ltac:(done) (not_elem_of_empty bid) (HB_payload _ _ Hb) H8).
    rewrite H1, H2. simpl andb. cbv iota zeta. change (0 + 1) with 1. rewrite Hrun. by split_and!.
Qed.
End values.
