(* ===== verification/NdbStore.v ===== *)
(** * Everything the writer puts into a file

    The operations of [Layout] as steps on a layout and a list of what has been
    written ([contents]), streams that fail included; every reachable layout is well
    formed and holds its contents ([holds_contents]), and its book of AMap slots is
    complete if no stream failed after it had registered a slot. *)

From S2P Require Import Prelude PstError Header Block PropContext WriterHeap Layout LayoutFacts DataChain DataChainFacts StreamWrite TreeWriter NdbLayout NdbPages NdbTree NdbFile.
#[local] Open Scope Z_scope.

(** Values and subnode tables, by root block ID. *)
Record contents := { co_values : list (Z * list byte); co_tables : list (Z * list (Z * Z * Z)) }.

Definition no_contents : contents := {| co_values := []; co_tables := [] |}.
Definition add_value (bid : Z) (data : list byte) (c : contents) : contents :=
  {| co_values := (bid, data) :: co_values c; co_tables := co_tables c |}.
Definition add_table (bid : Z) (entries : list (Z * Z * Z)) (c : contents) : contents :=
  {| co_values := co_values c; co_tables := (bid, entries) :: co_tables c |}.

(** What a row matrix is stored as: whole rows per block. *)
Definition padded_matrix (m : list byte) (w : Z) : list byte := concat (pad_pieces (chunks (MAX_BLOCK_DATA / w * w) m)).

Definition entry_u64 (e : Z * Z * Z) : Prop := 0 <= e.1.1 < 2 ^ 64 ∧ 0 <= e.1.2 < 2 ^ 64 ∧ 0 <= e.2 < 2 ^ 64.

Section steps.
Context `{Crc : Crc32}.

(** A block ID in a subnode entry: a 64-bit number, or a block that was written. *)
Definition known_bid (c : contents) (b : Z) : Prop :=
  0 <= b < 2 ^ 64 ∨ b ∈ map fst (co_values c) ∨ b ∈ map fst (co_tables c).
Definition known_entry (c : contents) (e : Z * Z * Z) : Prop :=
  0 <= e.1.1 < 2 ^ 64 ∧ known_bid c e.1.2 ∧ known_bid c e.2.

(** Whether streams may fail on the way after they have registered an AMap slot.
    A stream that fails before is harmless, and allowed in any case. *)
Context (failures : bool).

Definition same_book (ly ly' : layout) : Prop := eg_amap <$> ly_eager ly' = eg_amap <$> ly_eager ly.

Inductive wstep : layout → contents → layout → contents → Prop :=
| step_value ly c data bid ly' :
    write_data_chain ly data = Ok (bid, ly') → wstep ly c ly' (add_value bid data c)
| step_stream ly c s bid n ly' :
    write_data_chain_from_reader ly s = (Ok (bid, n), ly') → wstep ly c ly' (add_value bid (delivered s).1 c)
| step_stream_failed ly c s err ly' :
    failures = true ∨ same_book ly ly' → write_data_chain_from_reader ly s = (Err err, ly') → wstep ly c ly' c
| step_matrix ly c m w bid n ly' :
    zlen m <= I32_MAX → 0 <= w → write_row_matrix_tree ly m w = Ok (bid, n, ly') →
    wstep ly c ly' (add_value bid (padded_matrix m w) c)
| step_table ly c entries bid ly' :
    Forall (known_entry c) entries → add_subnode_leaf ly entries = Ok (bid, ly') →
    wstep ly c ly' (add_table bid (sort_on (λ e, e.1.1) entries) c)
| step_nid ly c ty nid ly' : alloc_nid ly ty = Ok (nid, ly') → wstep ly c ly' c
| step_node ly c nid data parent sub bid ly' :
    0 <= nid < 2 ^ 64 → sub = 0 ∨ sub ∈ map fst (co_tables c) →
    add_node_data ly nid data parent sub = Ok (bid, ly') → wstep ly c ly' (add_value bid data c).

(** The layouts that the writer reaches before it finalizes. *)
Inductive built : layout → contents → Prop :=
| built_new : built (attach_eager layout_new eager_create) no_contents
| built_step ly c ly' c' : built ly c → wstep ly c ly' c' → built ly' c'.

(** A block ID that a node may hold. *)
Definition ref_ok (ly : layout) (bid : Z) : Prop := bid = 0 ∨ bid ∈ used_bids (ly_bids ly).
Definition node_ok (ly : layout) (n : node_entry) : Prop :=
  0 <= ne_nid n < 2 ^ 64 ∧ ref_ok ly (ne_bid_data n) ∧ ref_ok ly (ne_bid_sub n).

Definition value_ok (ly : layout) (e : eager_ctx) (v : Z * list byte) : Prop :=
  data_tree (has_block ly e) v.1 v.2 ∧ zlen v.2 < 2 ^ 32 ∧ ref_ok ly v.1.
Definition bid_word (ly : layout) (b : Z) : Prop := 0 <= b < 2 ^ 64 ∨ b ∈ used_bids (ly_bids ly).
Definition entry_ok (ly : layout) (e : Z * Z * Z) : Prop := 0 <= e.1.1 < 2 ^ 64 ∧ bid_word ly e.1.2 ∧ bid_word ly e.2.
Definition table_ok (ly : layout) (e : eager_ctx) (t : Z * list (Z * Z * Z)) : Prop :=
  has_block ly e t.1 (slblock_payload t.2) ∧ t.1 ∈ used_bids (ly_bids ly) ∧ is_internal t.1 = true ∧
  Forall (entry_ok ly) t.2 ∧ zlen (slblock_payload t.2) <= MAX_BLOCK_DATA.

(** The invariant of the construction. *)
Record holds_contents (ly : layout) (c : contents) (e : eager_ctx) : Prop := {
  hc_ok : ly_ok ly e;
  hc_pages : ly_pages ly = [];
  hc_nodes : Forall (node_ok ly) (ly_nodes ly);
  hc_values : Forall (value_ok ly e) (co_values c);
  hc_tables : Forall (table_ok ly e) (co_tables c);
  hc_amap : failures = false → amap_complete (eg_amap e) }.

(** *** The start *)

Lemma eager_create_ok : ly_ok (attach_eager layout_new eager_create) eager_create.
Proof.
  split; simpl; try done.
  - by left.
  - intros k Hk. left. unfold slot, AMAP_FIRST_OFFSET, AMAP_INTERVAL, HEADER_SIZE. lia.
  - by left.
  - split; simpl; [constructor|constructor|intros p Hp; by apply elem_of_nil in Hp].
  - constructor.
  - intros x Hx. by apply elem_of_nil in Hx.
  - constructor.
  - intros n Hn. by apply elem_of_nil in Hn.
Qed.

(** *** What later layouts keep *)

(** Blocks and taken IDs stay. *)
Record preserves (ly : layout) (e : eager_ctx) (ly' : layout) (e' : eager_ctx) : Prop := {
  ps_blocks : ∀ bid d, has_block ly e bid d → has_block ly' e' bid d;
  ps_used : ∀ x, x ∈ used_bids (ly_bids ly) → x ∈ used_bids (ly_bids ly') }.

Lemma ref_preserved ly e ly' e' bid : preserves ly e ly' e' → ref_ok ly bid → ref_ok ly' bid.
Proof. intros [_ Hu] [->|H]; [by left|right; auto]. Qed.
Lemma node_preserved ly e ly' e' n : preserves ly e ly' e' → node_ok ly n → node_ok ly' n.
Proof. intros Hp (? & ? & ?). split; [done|split]; by eapply ref_preserved. Qed.
Lemma value_preserved ly e ly' e' v : preserves ly e ly' e' → value_ok ly e v → value_ok ly' e' v.
Proof.
  intros Hp (? & ? & ?). split_and!; [|done|by eapply ref_preserved]. eapply data_tree_mono; [|done]. apply Hp.
Qed.
Lemma entry_preserved ly e ly' e' t : preserves ly e ly' e' → entry_ok ly t → entry_ok ly' t.
Proof. intros [_ Hu] (? & [?|?] & [?|?]); (split; [done|split]); unfold bid_word; auto. Qed.
Lemma table_preserved ly e ly' e' t : preserves ly e ly' e' → table_ok ly e t → table_ok ly' e' t.
Proof.
  intros Hp (? & ? & ? & Hes & ?). pose proof Hp as [Hb Hu]. split_and!; auto. eapply Forall_impl; [exact Hes|]. intros t'. by apply (entry_preserved ly e ly' e').
Qed.

Lemma grows_preserves ly e ly' e' : grows ly e ly' e' → preserves ly e ly' e'.
Proof.
  intros Hg. split; [intros bid d; apply has_block_keeps, Hg|]. intros x. by eapply grows_used.
Qed.

Lemma undone_preserves lost ly e ly' e' : undone lost ly e ly' e' → preserves ly e ly' e'.
Proof.
  intros [_ Hb Hi _ _ _ _ Hc]. split; [|by rewrite Hi]. intros bid d (b & Hin & He & Hco).
  exists b. split_and!; [by rewrite Hb|done|by apply Hc].
Qed.

(** A step that keeps the nodes. *)
Lemma contents_preserved ly c e ly' e' :
  holds_contents ly c e → ly_ok ly' e' → preserves ly e ly' e' → same_rest ly ly' →
  (failures = false → amap_complete (eg_amap e) → amap_complete (eg_amap e')) → holds_contents ly' c e'.
Proof.
  intros [Ok P N V T A] Hok Hp [Hn Hpg _ _] Ha. split; [done|by rewrite Hpg|rewrite Hn|..|by auto].
  - eapply Forall_impl; [exact N|]. intros n. by apply (node_preserved _ e _ e').
  - eapply Forall_impl; [exact V|]. intros v. by apply value_preserved.
  - eapply Forall_impl; [exact T|]. intros t. by apply table_preserved.
Qed.

Lemma contents_value ly c e bid d :
  holds_contents ly c e → value_ok ly e (bid, d) → holds_contents ly (add_value bid d c) e.
Proof. intros [Ok P N V T A] Hv. split; try done. by constructor. Qed.

Lemma tree_ref ly e bid d : ly_ok ly e → data_tree (has_block ly e) bid d → ref_ok ly bid.
Proof.
  intros Hok Ht.
  assert (Hu : ∀ b x, has_block ly e b x → b ∈ used_bids (ly_bids ly)).
  { intros b x (blk & Hin & <- & _). apply (lo_used _ _ Hok). unfold ids. rewrite elem_of_app. left.
    by apply (list_elem_of_fmap_2 be_bid). }
  destruct Ht as [|?? (_ & _ & _ & Hb)|?? (? & ? & _ & _ & _ & _ & Hb)|?? (? & ? & _ & _ & _ & _ & _ & Hb)];
    [by left|right; by eapply Hu..].
Qed.

(** A new value. *)
Lemma grows_value ly c e ly' e' bid d :
  holds_contents ly c e → grows ly e ly' e' → data_tree (has_block ly' e') bid d → zlen d < 2 ^ 32 →
  holds_contents ly' (add_value bid d c) e'.
Proof.
  intros Hh Hg Ht Hz. apply contents_value.
  - apply (contents_preserved ly c e); [done|apply Hg|by apply grows_preserves|apply Hg|intros _; apply Hg].
  - split_and!; [done|done|]. eapply tree_ref; [apply Hg|done].
Qed.

(** *** Row matrices *)

Lemma chunks_nil {A} n : chunks n (@nil A) = [].
Proof. done. Qed.

Lemma padded_bound n fuel (m : list byte) :
  (length m <= fuel)%nat → MAX_BLOCK_DATA <= 2 * n → 0 < n <= MAX_BLOCK_DATA →
  zlen (concat (pad_pieces (chunks n m))) <= 2 * zlen m.
Proof.
  intros Hf Hn Hn'. revert m Hf. induction fuel as [|fuel IH]; intros m Hf; destruct (decide (m = [])) as [->|Hm].
  1,3: rewrite chunks_nil; done.
  { destruct m; [done|simpl in Hf; lia]. }
  rewrite chunks_step by (lia || done). set (rest := drop (Z.to_nat n) m).
  assert (Hrest : (length rest <= fuel)%nat).
  { subst rest. rewrite length_drop. destruct m; [done|]. simpl in *. lia. }
  specialize (IH rest Hrest). destruct (chunks n rest) as [|r rs] eqn:Hc.
  - simpl. rewrite app_nil_r. pose proof (zlen_nonneg m). rewrite zlen_sub_any by lia. lia.
  - assert (Hne : rest ≠ []) by (intros ->; by rewrite chunks_nil in Hc).
    assert (Hr : zlen rest = zlen m - n ∧ n < zlen m).
    { subst rest. unfold zlen in *. rewrite length_drop. destruct (decide (n < Z.of_nat (length m))); [lia|].
      exfalso. apply Hne. apply drop_ge. lia. }
    change (pad_pieces (sub m 0 n :: r :: rs)) with ((sub m 0 n ++ zeros (MAX_BLOCK_DATA - zlen (sub m 0 n))) :: pad_pieces (r :: rs)).
    cbn [concat]. rewrite !zlen_app, zlen_zeros, zlen_sub by lia. lia.
Qed.

Lemma pad_pieces_fit ps : Forall (λ p, zlen p <= MAX_BLOCK_DATA) ps → Forall (λ p, zlen p <= MAX_BLOCK_DATA) (pad_pieces ps).
Proof.
  induction 1 as [|p ps Hp Hps IH]; [constructor|]. destruct ps as [|q ps]; [by repeat constructor|].
  change (pad_pieces (p :: q :: ps)) with ((p ++ zeros (MAX_BLOCK_DATA - zlen p)) :: pad_pieces (q :: ps)).
  constructor; [|done]. rewrite zlen_app, zlen_zeros. lia.
Qed.

Lemma length_pad_pieces ps : length (pad_pieces ps) = length ps.
Proof.
  induction ps as [|p ps IH]; [done|]. destruct ps as [|q ps]; [done|].
  change (pad_pieces (p :: q :: ps)) with ((p ++ zeros (MAX_BLOCK_DATA - zlen p)) :: pad_pieces (q :: ps)).
  cbn [length]. by rewrite IH.
Qed.

(** The rows of one block. *)
Lemma rows_per_block_bounds w : 0 < w → MAX_BLOCK_DATA / w ≠ 0 →
  0 < MAX_BLOCK_DATA / w * w <= MAX_BLOCK_DATA ∧ MAX_BLOCK_DATA <= 2 * (MAX_BLOCK_DATA / w * w).
Proof.
  intros Hw Hr. pose proof (Z.div_mod MAX_BLOCK_DATA w). pose proof (Z.mod_pos_bound MAX_BLOCK_DATA w Hw).
  pose proof (Z.div_pos MAX_BLOCK_DATA w ltac:(done) Hw). assert (1 <= MAX_BLOCK_DATA / w) by lia. nia.
Qed.

(** A written matrix: the tree over its padded blocks. *)
Definition matrix_written (ly : layout) (e : eager_ctx) (m : list byte) (w bid n : Z) (ly' : layout) : Prop :=
  ∃ e', grows ly e ly' e' ∧ data_tree (has_block ly' e') bid (padded_matrix m w) ∧
    zlen (padded_matrix m w) < 2 ^ 32 ∧ n = zlen (padded_matrix m w).

Lemma write_row_matrix_spec ly e m w :
  ly_ok ly e → zlen m <= I32_MAX → 0 <= w →
  match write_row_matrix_tree ly m w with
  | Ok (bid, n, ly') => matrix_written ly e m w bid n ly' ∧ (m = [] ∨ 0 < w <= MAX_BLOCK_DATA ∧ zlen m mod w = 0)
  | Err RowWidthZero => w = 0
  | Err (RowMatrixRagged n v) => n = zlen m ∧ v = w ∧ zlen m mod w ≠ 0
  | Err (RowTooWide v) => v = w ∧ MAX_BLOCK_DATA < w
  | _ => False
  end.
Proof.
  intros Hok Hmax Hw. unfold write_row_matrix_tree, matrix_written, padded_matrix. destruct (zlen m =? 0) eqn:H0; bool_to_Z.
  { destruct m; [|rewrite zlen_cons in H0; pose proof (zlen_nonneg m); lia]. split; [|by left].
    exists e. split_and!; [by apply grows_refl|constructor|done|done]. }
  destruct (w =? 0) eqn:Hw0; bool_to_Z; [done|]. destruct (negb _) eqn:Hmod.
  { apply negb_true_iff, Z.eqb_neq in Hmod. done. }
  cbv zeta. apply negb_false_iff, Z.eqb_eq in Hmod. destruct (MAX_BLOCK_DATA / w =? 0) eqn:Hr; bool_to_Z.
  { split; [done|]. apply Z.div_small_iff in Hr; lia. }
  assert (Hw' : 0 < w <= MAX_BLOCK_DATA).
  { split; [lia|]. destruct (decide (w <= MAX_BLOCK_DATA)); [done|]. rewrite Z.div_small in Hr; [done|]. unfold MAX_BLOCK_DATA in *. lia. }
  destruct (rows_per_block_bounds w ltac:(lia) Hr) as [Hcw Hcw2]. set (cw := MAX_BLOCK_DATA / w * w) in *.
  pose proof (padded_bound cw (length m) m ltac:(lia) Hcw2 Hcw) as Hpad. unfold I32_MAX in Hmax.
  destruct (push_leaves_spec ly e (pad_pieces (chunks cw m)) Hok) as (cs & ly1 & e1 & -> & Hg & Hcs).
  { apply pad_pieces_fit. eapply Forall_impl; [apply (chunks_bounds cw)|]; simpl; lia. }
  rewrite bind_ok. cbn [fst snd]. rewrite (sum_len_concat _ _ _ Hcs).
  assert (Hcnt : zlen cs <= MAX_XBLOCK_ENTRIES * MAX_XBLOCK_ENTRIES).
  { apply Forall2_length in Hcs. rewrite length_pad_pieces in Hcs. pose proof (zlen_chunks cw ltac:(lia) m) as Hz.
    unfold zlen in *. rewrite Hcs, Hz. unfold MAX_XBLOCK_ENTRIES, MAX_BLOCK_DATA in *. change ((8176 - 8) / 8) with 1021.
    apply Z.lt_succ_r, Z.div_lt_upper_bound; lia. }
  destruct (build_chain_root_spec ly1 e1 cs (pad_pieces (chunks cw m))) as (b & ly2 & Hroot & Hg2 & Ht); [apply Hg|done|lia|done|].
  assert (Htree : ∃ e', grows ly e ly2 e' ∧ data_tree (has_block ly2 e') b (concat (pad_pieces (chunks cw m))) ∧
      zlen (concat (pad_pieces (chunks cw m))) < 2 ^ 32 ∧ zlen (concat (pad_pieces (chunks cw m))) = zlen (concat (pad_pieces (chunks cw m)))).
  { exists e1. split_and!; [by eapply grows_trans|done|lia|done]. }
  destruct cs as [|c [|c2 cs]]; [by rewrite Hroot, bind_ok; split; [exact Htree|right]| |by rewrite Hroot, bind_ok; split; [exact Htree|right]].
  clear Htree Hroot. split; [|by right]. exists e1. apply Forall2_cons_inv_l in Hcs as (p & ps & [Hl _] & Hnil & Heq).
  apply Forall2_nil_inv_l in Hnil as ->. rewrite Heq in *. simpl concat in *. rewrite app_nil_r in *.
  split_and!; [done|by apply tree_leaf|lia|done].
Qed.

(** *** Subnode tables *)

Lemma zlen_slblock entries : zlen (slblock_payload entries) = 8 + 24 * zlen entries.
Proof.
  unfold slblock_payload. rewrite !zlen_app, !zlen_le_split. rewrite (zlen_bind _ 24) by (apply Forall_forall; done).
  rewrite !zlen_cons, zlen_nil. lia.
Qed.

Lemma add_subnode_leaf_spec ly e entries bid ly' :
  ly_ok ly e → Forall (entry_ok ly) entries → add_subnode_leaf ly entries = Ok (bid, ly') →
  grows ly e ly' e ∧ table_ok ly' e (bid, sort_on (λ e, e.1.1) entries).
Proof.
  intros Hok Hu. unfold add_subnode_leaf. case_match; [done|]. destruct (_ <? _) eqn:Hl; [done|]. bool_to_Z.
  destruct (push_internal_spec ly e _ Hok Hl) as (b & b' & -> & Hint & Htk & Hg & Hb). rewrite bind_ok.
  intros [= <- <-]. split; [done|]. split_and!; [done|by destruct Htk|done| |done].
  rewrite <-(sort_on_perm (λ e, e.1.1) entries) in Hu. eapply Forall_impl; [exact Hu|]. intros x. apply (entry_preserved ly e _ e). by apply grows_preserves.
Qed.

(** What is known of the contents is known to the layout. *)
Lemma known_entry_ok ly c e t : holds_contents ly c e → known_entry c t → entry_ok ly t.
Proof.
  intros Hh. assert (Hb : ∀ b, known_bid c b → bid_word ly b).
  { pose proof (hc_values _ _ _ Hh) as Hv. pose proof (hc_tables _ _ _ Hh) as Ht. rewrite Forall_forall in Hv. rewrite Forall_forall in Ht.
    intros b [?|[(v & -> & Hin)%list_elem_of_fmap|(t' & -> & Hin)%list_elem_of_fmap]]; [by left| |].
    - destruct (Hv v Hin) as (_ & _ & [->|?]); [by left|by right].
    - right. by destruct (Ht t' Hin) as (_ & ? & _). }
  intros (? & ? & ?). split; [done|split]; by apply Hb.
Qed.

(** *** The invariant *)

Lemma write_data_chain_bound ly e data bid ly' :
  ly_ok ly e → write_data_chain ly data = Ok (bid, ly') →
  ∃ e', grows ly e ly' e' ∧ data_tree (has_block ly' e') bid data ∧ zlen data < 2 ^ 32.
Proof.
  intros Hok Hrun. destruct (decide (zlen data <= I32_MAX)) as [Hd|Hd].
  - destruct (write_data_chain_spec ly e data Hok Hd) as (bid' & ly1 & e1 & Hrun' & Hg & Ht).
    rewrite Hrun' in Hrun. injection Hrun as <- <-. exists e1. unfold I32_MAX in Hd. split_and!; [done|done|lia].
  - exfalso. revert Hrun. unfold write_data_chain. pose proof (zlen_nonneg data). unfold I32_MAX in *.
    rewrite (proj2 (Z.eqb_neq _ _)) by lia. by rewrite (proj2 (Z.ltb_lt _ _)) by lia.
Qed.

Lemma alloc_nid_same ly ty nid ly' : alloc_nid ly ty = Ok (nid, ly') →
  ly_nodes ly' = ly_nodes ly ∧ ly_blocks ly' = ly_blocks ly ∧ ly_pages ly' = ly_pages ly ∧ ly_bids ly' = ly_bids ly ∧
  used_nids ly' = used_nids ly ∧ ly_eager ly' = ly_eager ly.
Proof. unfold alloc_nid. intros (r & _ & [= _ <-])%bind_ok_inv. done. Qed.

(** A node is added to a layout. *)
Lemma push_node_holds ly c e n :
  holds_contents ly c e → ne_nid n ∉ used_nids ly → node_ok ly n → holds_contents (push_node ly n) c e.
Proof.
  intros [[] ? ? ? ? ?] Hfresh Hn. assert (Hpres : preserves ly e (push_node ly n) e) by (split; done).
  split; [split|..]; simpl; try done.
  - rewrite map_app. apply NoDup_app. split_and!; [done| |apply NoDup_singleton].
    intros x Hx Hs. simpl in Hs. apply list_elem_of_singleton in Hs as ->. apply list_elem_of_fmap in Hx as (m & Hm & Hin).
    apply Hfresh. rewrite Hm. auto.
  - intros m [Hm| ->%list_elem_of_singleton]%elem_of_app; [|set_solver]. apply elem_of_union_r. auto.
  - apply Forall_app. split; [|constructor; [exact Hn|constructor]]. eapply Forall_impl; [done|]. intros m. by apply (node_preserved ly e _ e).
Qed.

Lemma wstep_holds ly c e ly' c' :
  holds_contents ly c e → wstep ly c ly' c' → ∃ e', holds_contents ly' c' e'.
Proof.
  intros Hh Hs. pose proof (hc_ok _ _ _ Hh) as Hok. destruct Hs as
    [ly c data bid ly' Hrun|ly c s bid n ly' Hrun|ly c s err ly' Hfail Hrun|ly c m w bid n ly' Hm Hw Hrun|ly c es bid ly' Hes Hrun
    |ly c ty nid ly' Hrun|ly c nid data parent sub bid ly' Hnid Hsub Hrun].
  - destruct (write_data_chain_bound ly e data bid ly' Hok Hrun) as (e' & Hg & Ht & Hz). exists e'. by eapply grows_value.
  - destruct (from_reader_settles ly e s Hok) as (r & ly1 & Hrun' & Hr). rewrite Hrun in Hrun'. injection Hrun' as <- <-.
    destruct Hr as (e' & Hg & Ht & -> & Hmax & _). exists e'. unfold I32_MAX in Hmax. eapply grows_value; [done|done|done|lia].
  - destruct (from_reader_settles ly e s Hok) as (r & ly1 & Hrun' & Hr). rewrite Hrun in Hrun'. injection Hrun' as <- <-.
    destruct Hr as (_ & _ & _ & lost & e' & _ & _ & _ & He' & Hu). exists e'.
    apply (contents_preserved ly c e); [done|apply Hu|by eapply undone_preserves|apply Hu|].
    intros Hf. destruct Hfail as [?|Hbook]; [congruence|]. unfold same_book in Hbook.
    rewrite He', (lo_eager _ _ Hok) in Hbook. simpl in Hbook. injection Hbook as Hbook. by rewrite Hbook.
  - pose proof (write_row_matrix_spec ly e m w Hok Hm Hw) as Hmx. rewrite Hrun in Hmx.
    destruct Hmx as ((e' & Hg & Ht & Hz & _) & _). exists e'. by eapply grows_value.
  - destruct (add_subnode_leaf_spec ly e es bid ly' Hok) as [Hg Ht]; [eapply Forall_impl; [exact Hes|]; intros t; by apply (known_entry_ok ly c e)|exact Hrun|]. exists e.
    destruct (contents_preserved ly c e ly' e Hh) as [? ? ? ? ? ?]; [apply Hg|by apply grows_preserves|apply Hg|intros _; apply Hg|].
    split; try done. by constructor.
  - exists e. destruct (alloc_nid_same _ _ _ _ Hrun) as (Hn & Hb & Hp & Hi & Hu & He). destruct Hh as [[] ? ? ? ? ?].
    assert (Hpres : preserves ly e ly' e).
    { split; [|by rewrite Hi]. intros b d (x & Hx & ?). exists x. by rewrite Hb. }
    split; [split|..]; rewrite ?Hn, ?Hb, ?Hp, ?Hi, ?Hu, ?He; try done.
    + unfold ids. by rewrite Hb, Hp.
    + unfold ids. by rewrite Hb, Hp.
    + eapply Forall_impl; [done|]. intros n. by apply (node_preserved ly e _ e).
    + eapply Forall_impl; [done|]. intros v. by apply value_preserved.
    + eapply Forall_impl; [done|]. intros t. by apply table_preserved.
  - revert Hrun. unfold add_node_data. intros ([b ly1] & Hw & Hrun)%bind_ok_inv. cbn [fst snd] in Hrun.
    case_decide as Hin; [done|]. injection Hrun as <- <-.
    destruct (write_data_chain_bound ly e data b ly1 Hok Hw) as (e' & Hg & Ht & Hz). exists e'.
    pose proof (grows_value ly c e ly1 e' b data Hh Hg Ht Hz) as Hh1.
    apply (push_node_holds ly1 (add_value b data c) e'); [done|done|]. split; [done|]. split.
    + by eapply tree_ref; [apply Hg|].
    + destruct Hsub as [->|Hsub]; [by left|right]. apply list_elem_of_fmap in Hsub as (t & -> & Htin).
      pose proof (hc_tables _ _ _ Hh1) as Htb. rewrite Forall_forall in Htb. by destruct (Htb t Htin) as (_ & ? & _).
Qed.

(** Every reachable layout holds its contents. *)
Lemma built_holds ly c : built ly c → ∃ e, holds_contents ly c e.
Proof.
  induction 1 as [|ly c ly' c' _ (e & Hh) Hs].
  - exists eager_create. split; [apply eager_create_ok|done|constructor..|]. intros _ o Ho. simpl in Ho. set_solver.
  - by eapply wstep_holds.
Qed.
End steps.
