(* ===== verification/NdbRoundTrip.v ===== *)
(** * The written file against the reader

    [write_row_matrix_tree] pads each block but the last, and the table reader's
    [extract_rows_per_block] skips exactly that padding; the file of a finalized layout
    is read back; a stream is written whole or undone, but for the book of AMap slots. *)

From S2P Require Import Prelude Telemetry PstError Crypt Header Btree Block BlockFacts Streaming Subnode PropContext TableContext WriterHeap Layout LayoutFacts DataChain DataChainFacts StreamWrite TreeWriter NdbLayout NdbPages NdbTree NdbFile NdbRead NdbStore.
#[local] Open Scope Z_scope.

Lemma slice_at {E A} (pre x post : list A) n :
  n = zlen x → slice (pre ++ x ++ post) (zlen pre) (zlen pre + n) = Ok x :> res E _.
Proof. intros ->. by apply slice_mid. Qed.

(** The loop of the reader over the padded chunks of a matrix. *)
Lemma extract_padded w cw :
  0 < w → cw = MAX_BLOCK_DATA / w * w → 0 < cw <= MAX_BLOCK_DATA →
  ∀ fuel m pre out, (length (chunks cw m) < fuel)%nat → zlen m mod w = 0 →
  extract_loop fuel (pre ++ concat (pad_pieces (chunks cw m))) w cw (zlen pre) out = Ok (out ++ m).
Proof.
  intros Hw Hcw Hb. induction fuel as [|fuel IH]; intros m pre out Hf Hm; [lia|].
  destruct (decide (m = [])) as [->|Hne].
  { change (concat (pad_pieces (chunks cw []))) with (@nil byte). rewrite !app_nil_r. cbn [extract_loop].
    by rewrite Z.ltb_irrefl. }
  assert (Hpos : 0 < zlen m) by (destruct m; [done|rewrite zlen_cons; pose proof (zlen_nonneg m); lia]).
  rewrite (chunks_step cw ltac:(lia) m Hne) in Hf |- *. set (rest := drop (Z.to_nat cw) m) in *.
  assert (Hrest : zlen rest = Z.max 0 (zlen m - cw)) by (subst rest; unfold zlen; rewrite length_drop; lia).
  destruct (chunks cw rest) as [|r rs] eqn:Hc.
  - assert (rest = []) as Hnil by (rewrite <-(concat_chunks cw ltac:(lia) rest), Hc; done).
    assert (Hle : zlen m <= cw) by (rewrite Hnil, zlen_nil in Hrest; lia).
    cbn [pad_pieces concat]. rewrite app_nil_r, sub_all by done. cbn [extract_loop]. rewrite zlen_app.
    rewrite (proj2 (Z.ltb_lt _ _)) by lia. replace (zlen pre + zlen m - zlen pre) with (zlen m) by lia.
    rewrite (proj2 (Z.ltb_ge _ _)) by lia. unfold div_or_zero. rewrite (proj2 (Z.eqb_neq w 0)) by lia.
    rewrite <-(app_nil_r m) at 1. rewrite slice_at; [by rewrite bind_ok|]. pose proof (Z.div_mod (zlen m) w). lia.
  - assert (Hne' : rest ≠ []) by (intros ->; done).
    assert (Hr : 0 < zlen rest) by (destruct rest; [done|rewrite zlen_cons; pose proof (zlen_nonneg rest); lia]).
    assert (Hsub : zlen (sub m 0 cw) = cw) by (apply zlen_sub; lia).
    change (pad_pieces (sub m 0 cw :: r :: rs)) with ((sub m 0 cw ++ zeros (MAX_BLOCK_DATA - zlen (sub m 0 cw))) :: pad_pieces (r :: rs)).
    cbn [concat]. rewrite <-Hc. set (block := sub m 0 cw ++ zeros (MAX_BLOCK_DATA - zlen (sub m 0 cw))).
    assert (Hblk : zlen block = MAX_BLOCK_DATA) by (subst block; rewrite zlen_app, zlen_zeros; lia).
    assert (Htail : 0 < zlen (concat (pad_pieces (chunks cw rest)))).
    { rewrite Hc, zlen_concat. pose proof (chunks_bounds cw ltac:(lia) rest) as Hcb. rewrite Hc in Hcb. apply Forall_cons in Hcb as [Hcb _].
      assert (Hnn : ∀ l : list (list byte), 0 <= foldr (λ l s, zlen l + s) 0 l).
      { induction l as [|x l IHl]; [done|]. simpl. pose proof (zlen_nonneg x). lia. }
      destruct rs as [|q rs]; [simpl; lia|].
      change (pad_pieces (r :: q :: rs)) with ((r ++ zeros (MAX_BLOCK_DATA - zlen r)) :: pad_pieces (q :: rs)).
      cbn [foldr]. pose proof (Hnn (pad_pieces (q :: rs))). rewrite zlen_app. pose proof (zlen_nonneg (zeros (MAX_BLOCK_DATA - zlen r))). lia. }
    cbn [extract_loop]. rewrite !zlen_app, Hblk. rewrite (proj2 (Z.ltb_lt _ _)) by (unfold MAX_BLOCK_DATA; lia).
    rewrite (proj2 (Z.ltb_lt MAX_BLOCK_DATA _)) by lia.
    assert (Hslice : slice (pre ++ block ++ concat (pad_pieces (chunks cw rest))) (zlen pre) (zlen pre + cw) = Ok (sub m 0 cw) :> pres _).
    { subst block. rewrite <-!(assoc_L (++)). by apply slice_at. }
    rewrite Hslice, bind_ok. replace (zlen pre + MAX_BLOCK_DATA) with (zlen (pre ++ block)) by (rewrite zlen_app; lia).
    rewrite (assoc_L (++) pre), (IH rest (pre ++ block) (out ++ sub m 0 cw)).
    + rewrite <-(assoc_L (++)). do 2 f_equal. subst rest. apply take_drop.
    + rewrite Hc. simpl in Hf |- *. lia.
    + rewrite Hrest, Z.max_r by lia. rewrite Hcw. rewrite Zminus_mod, Hm, Z.mod_mul by lia. done.
Qed.

Lemma padded_lower ps : MAX_BLOCK_DATA * (zlen ps - 1) <= zlen (concat (pad_pieces ps)).
Proof.
  induction ps as [|p ps IH]; [done|]. destruct ps as [|q ps]; [apply zlen_nonneg|].
  change (pad_pieces (p :: q :: ps)) with ((p ++ zeros (MAX_BLOCK_DATA - zlen p)) :: pad_pieces (q :: ps)).
  cbn [concat]. rewrite !zlen_app, zlen_zeros, (zlen_cons p). lia.
Qed.

(** A matrix of whole rows is unpacked to exactly its rows. *)
Lemma padded_rows m w :
  m ≠ [] → 0 < w <= MAX_BLOCK_DATA → zlen m mod w = 0 → extract_rows_per_block (padded_matrix m w) w = Ok (m, zlen m / w).
Proof.
  intros Hne Hw Hm. assert (Hr : MAX_BLOCK_DATA / w ≠ 0) by (intros Hd; apply Z.div_small_iff in Hd; lia).
  destruct (rows_per_block_bounds w ltac:(lia) Hr) as [Hb _]. unfold extract_rows_per_block, padded_matrix.
  rewrite (proj2 (Z.eqb_neq w 0)) by lia. cbv zeta. rewrite (proj2 (Z.eqb_neq _ 0)) by done.
  set (cw := MAX_BLOCK_DATA / w * w) in *.
  pose proof (extract_padded w cw ltac:(lia) eq_refl Hb (extract_fuel (concat (pad_pieces (chunks cw m)))) m [] []) as Hx.
  cbn [app] in Hx. change (zlen (@nil byte)) with 0 in Hx. rewrite Hx; [|clear Hx|done].
  - rewrite bind_ok. unfold div_or_zero. by rewrite (proj2 (Z.eqb_neq w 0)) by lia.
  - pose proof (padded_lower (chunks cw m)) as Hl. unfold extract_fuel.
    assert (zlen (chunks cw m) - 1 <= zlen (concat (pad_pieces (chunks cw m))) / MAX_BLOCK_DATA) by (apply Z.div_le_lower_bound; [done|lia]).
    unfold zlen in *. lia.
Qed.

Section properties.
Context `{Crc : Crc32}.

(** C24 A row matrix that is written below a table reads back as its rows: the
    writer accepts exactly the empty matrix and whole rows of at most one block,
    refuses every other shape with its own error, and the tree that it builds holds
    a payload from which the table reader extracts the matrix, no row more or less. *)
Theorem row_matrix_round_trip failures ly c m w (Hbuilt : built failures ly c) (Hmax : zlen m <= I32_MAX) (Hw : 0 <= w) :
  match write_row_matrix_tree ly m w with
  | Ok (bid, n, ly') =>
      (∃ e', ly_ok ly' e' ∧ data_tree (has_block ly' e') bid (padded_matrix m w)) ∧ n = zlen (padded_matrix m w) ∧
      (m = [] ∧ bid = 0 ∨ m ≠ [] ∧ extract_rows_per_block (padded_matrix m w) w = Ok (m, zlen m / w))
  | Err RowWidthZero => m ≠ [] ∧ w = 0
  | Err (RowMatrixRagged n v) => n = zlen m ∧ v = w ∧ zlen m mod w ≠ 0
  | Err (RowTooWide v) => v = w ∧ MAX_BLOCK_DATA < w
  | _ => False
  end.
Proof.
  destruct (built_holds failures ly c Hbuilt) as (e & Hh). pose proof (write_row_matrix_spec ly e m w (hc_ok _ _ _ _ Hh) Hmax Hw) as Hs.
  assert (Hnil : m = [] → write_row_matrix_tree ly m w = Ok (0, 0, ly)) by by intros ->.
  destruct (write_row_matrix_tree ly m w) as [[[bid n] ly']|err| |] eqn:Hrun; [|destruct err; try done; split; [by intros Hm; apply Hnil in Hm|done]|done|done].
  destruct Hs as ((e' & Hg & Ht & _ & Hn) & Hcase). split_and!; [exists e'; split; [apply Hg|done]|done|].
  destruct (decide (m = [])) as [Hm|Hm]; [left; split; [done|]; injection (Hnil Hm) as <- _ _; done|right].
  destruct Hcase as [?|[Hw' Hmod]]; [done|]. split; [done|]. by apply padded_rows.
Qed.
End properties.

(** * What is written can be read

    Whatever sequence of writer operations led to a layout, finalizing it gives a
    file whose header, node index, block index, values and subnode tables
    pst-reader reads back exactly, without a single integrity finding. *)

Section round_trip.
Context `{Crc : Crc32} `{!Crc32Range}.

Definition table_entry (t : Z * Z * Z) : subnode_entry := {| sub_nid := t.1.1; sub_bid_data := t.1.2; sub_bid_sub := t.2 |}.

(** The file gives back the nodes of [ly] and the contents [c]. *)
Record reads_back (file : list byte) (header : pst_header) (nbt : nbt_index) (bbt : bbt_index) (ly : layout) (c : contents) : Prop := {
  rb_header : header_read file = Ok header;
  rb_crypt : header_crypt header = CryptNone;
  rb_nbt : outcome (nbt_build file header) = Ok nbt;
  rb_bbt : outcome (bbt_build file header) = Ok bbt;
  rb_nodes : ∀ nid en, nbt_get nbt nid = Some en ↔ ∃ n, n ∈ ly_nodes ly ∧ ne_nid n = nid ∧ en = nbt_record n;
  rb_values : ∀ bid v, (bid, v) ∈ co_values c → zlen v <= MAX_XBLOCK_ASSEMBLE →
    clean (read_block_data file bbt bid (header_crypt header)) v;
  rb_leaves : ∀ bid v, (bid, v) ∈ co_values c → ∃ leaves pieces,
    outcome (collect_leaf_data_bids file bbt bid) = Ok leaves ∧
    Forall2 (λ b p, clean (read_leaf_block_data file bbt b (header_crypt header)) p) leaves pieces ∧ concat pieces = v;
  rb_tables : ∀ bid t, (bid, t) ∈ co_tables c → clean (list_subnode_entries file bbt bid) (map table_entry t) }.

(** *** Subnode tables *)

Lemma slblock_fields t :
  zlen (slblock_payload t) <= MAX_BLOCK_DATA → Forall entry_u64 t →
  let p := slblock_payload t in
  le_val p 0 1 = 2 ∧ le_val p 1 1 = 0 ∧ le_val p 2 2 = zlen t ∧
  rmap (sl_entry p) (entry_offsets 24 (zlen p) 8 (length t)) = Ok (map table_entry t).
Proof.
  intros Hl Ht. rewrite zlen_slblock in Hl. unfold MAX_BLOCK_DATA in Hl. pose proof (zlen_nonneg t). cbn zeta.
  set (enc_entry := λ e : Z * Z * Z, le_split 8 e.1.1 ++ le_split 8 e.1.2 ++ le_split 8 e.2).
  set (pre := le_split 1 2 ++ le_split 1 0 ++ le_split 2 (zlen t) ++ le_split 4 0).
  assert (Heq : slblock_payload t = pre ++ (t ≫= enc_entry) ++ []).
  { unfold slblock_payload. rewrite wrap_small by lia. unfold pre. by rewrite app_nil_r, <-!(assoc_L (++)). }
  rewrite zlen_slblock, Heq. assert (Hpre : zlen pre = 8) by done. split_and!.
  1-3: rewrite le_val_app_l by lia; unfold pre; find_field; done.
  rewrite <-Hpre at 2. apply (rmap_entries enc_entry table_entry _ 24 _ pre t []); [done|lia|].
  eapply Forall_impl; [exact Ht|]. intros x (H1 & H2 & H3). split; [done|]. intros pre' post' ->.
  unfold sl_entry, enc_entry. rewrite <-!(assoc_L (++)). rewrite (le_at_mid pre' _ _ _ (zlen pre') 8) by enc. rewrite bind_ok.
  rewrite (assoc_L (++) pre'), (le_at_mid (pre' ++ _) _ _ _ (zlen pre' + 8) 8) by enc. rewrite bind_ok.
  rewrite (assoc_L (++) (pre' ++ _)), (le_at_mid ((pre' ++ _) ++ _)) by enc. by rewrite bind_ok.
Qed.

(** A step of a walk that returns, with its events. *)
Definition wruns {S A} (m : pwalk S A) (s : S) (a : A) (s' : S) (es : list tele_event) : Prop := m s = ((Ok a, s'), es).

Lemma wruns_bind {S A B} (m : pwalk S A) (f : A → pwalk S B) s a s' es b s'' es' :
  wruns m s a s' es → wruns (f a) s' b s'' es' → wruns (m ≫= f) s b s'' (es ++ es').
Proof. unfold wruns, mbind, walk_bind. by intros -> ->. Qed.
Lemma wruns_pure {S A} (m : pres A) (s : S) a : m = Ok a → wruns (pure m : pwalk S A) s a s [].
Proof. by intros ->. Qed.
Lemma wruns_pure_bind {S A B} (m : pres A) (f : A → pwalk S B) s a b s' es :
  m = Ok a → wruns (f a) s b s' es → wruns (pure m ≫= f) s b s' es.
Proof. intros Hm. apply (wruns_bind _ _ _ _ _ []). by apply wruns_pure. Qed.
Lemma runs_fresh {S A} (s0 : S) (m : pwalk S A) a s' es : wruns m s0 a s' es → runs (run_fresh s0 m) a es.
Proof. unfold wruns, runs, run_fresh, outcome, events. by intros ->. Qed.

Lemma read_table file bbt bid t :
  bbt_wf bbt → runs (read_payload file bbt bid) (slblock_payload t) [NoteBlockRead] → is_internal bid = true →
  zlen (slblock_payload t) <= MAX_BLOCK_DATA → Forall entry_u64 t →
  clean (list_subnode_entries file bbt bid) (map table_entry t).
Proof.
  intros Hwf Hread Hi Hl Ht. destruct (slblock_fields t Hl Ht) as (F1 & F2 & F3 & F4). cbn zeta in *.
  pose proof (zlen_slblock t) as Hz. pose proof (zlen_nonneg t).
  generalize dependent (slblock_payload t). intros p [Hr Hev] Hl F1 F2 F3 F4 Hz.
  exists [NoteBlockRead]. split; [|by repeat constructor]. apply (runs_fresh _ _ _ ({[bid]} ∪ ∅)). unfold subnode_fuel.
  cbn [list_subnode_entries_at]. rewrite (internal_not_null bid Hi).
  apply (wruns_bind _ _ _ () ({[bid]} ∪ ∅) []).
  { unfold wruns, enter_subnode_block. rewrite (proj2 (Z.ltb_ge _ _)), decide_False by (done || set_solver). done. }
  apply (wruns_bind _ _ _ p ({[bid]} ∪ ∅) [NoteBlockRead] _ _ []).
  { unfold wruns, lift. unfold outcome, events in *. by rewrite Hr, Hev. }
  rewrite (proj2 (Z.ltb_ge _ _)) by lia.
  eapply wruns_pure_bind; [run_reads; reflexivity|]. eapply wruns_pure_bind; [run_reads; reflexivity|].
  eapply wruns_pure_bind; [run_reads; reflexivity|].
  rewrite F1, F2, F3. simpl andb. cbv iota. replace (Z.to_nat (zlen t)) with (length t) by (unfold zlen; lia).
  by apply wruns_pure.
Qed.

(** *** A finalized layout *)

Section finalized.
Context (failures : bool) (ly : layout) (c : contents) (e : eager_ctx) (Hh : holds_contents failures ly c e).
Context (ly' : layout) (np bp : tree_plan) (maps pages : list page_entry) (Hfn : final_layout ly e ly' np bp maps pages).
Context (Hu : in_u64 ly').

Lemma used_range x : x ∈ used_bids (ly_bids ly) → 0 < x < 2 ^ 64.
Proof.
  intros Hx. apply (bo_used _ (lo_bids _ _ (hc_ok _ _ _ _ Hh))) in Hx as [Hlo Hx].
  pose proof (fn_next _ _ _ _ _ _ _ Hfn). destruct Hu as [_ Hn].
  pose proof (Z.div_mod x 4). pose proof (Z.mod_pos_bound x 4). pose proof (Z.mul_div_le (next_bid_counter (ly_bids ly) + 3) 4). lia.
Qed.

Lemma nodes_u64 : Forall node_u64 (ly_nodes ly).
Proof.
  eapply Forall_impl; [apply (hc_nodes _ _ _ _ Hh)|]. intros n (Hn & Hd & Hs).
  assert (Hr : ∀ b, ref_ok ly b → 0 <= b < 2 ^ 64) by (intros b [->|Hb]; [done|apply used_range in Hb; lia]).
  split; [done|split]; by apply Hr.
Qed.

(** A block of the layout, as the reader finds it. *)
Lemma block_found file bbt bid payload :
  final_file ly e ly' np bp maps file →
  (∀ k r, bbt !! k = Some r ↔ ∃ b, b ∈ ly_blocks ly' ∧ be_bid b = k ∧ bbt_record b = r) →
  has_block ly e bid payload → 0 <= bid < 2 ^ 64 ∧ runs (read_payload file bbt bid) payload [NoteBlockRead].
Proof.
  intros Hff Hbbt (b & Hin & <- & Hc). apply list_elem_of_lookup in Hin as [i Hi].
  destruct (Forall2_lookup_l _ _ _ _ _ (fn_blocks _ _ _ _ _ _ _ Hfn) Hi) as (b' & Hi' & Hbid & Hdata & Hlen & Hdisk & Hoff).
  assert (Hin' : b' ∈ ly_blocks ly') by (by eapply list_elem_of_lookup_2).
  assert (Hc' : content e b' payload).
  { destruct Hc as [Hz Hc]. split; [lia|]. rewrite Hdisk, Hbid, Hdata. destruct (be_on_disk b); [by rewrite Hoff|done]. }
  pose proof (ff_blocks _ _ _ _ _ _ _ Hff b' payload Hin' Hc') as Hst. rewrite Hbid in Hst.
  assert (Hr : 0 <= be_bid b < 2 ^ 64).
  { pose proof (fn_range _ _ _ _ _ _ _ Hfn (be_bid b')) as Hr. destruct Hu as [_ Hn]. rewrite Hbid in Hr.
    rewrite elem_of_app in Hr. specialize (Hr ltac:(left; rewrite <-Hbid; by apply (list_elem_of_fmap_2 be_bid))). lia. }
  split; [done|]. apply (read_written_block file bbt (be_bid b) (be_offset b')); [done| |done].
  apply Hbbt. exists b'. split_and!; [done|done|]. unfold bbt_record, written_entry. rewrite Hbid.
  by replace (be_len b') with (zlen payload) by (destruct Hc; lia).
Qed.

Lemma bbt_is_wf (bbt : bbt_index) :
  (∀ k r, bbt !! k = Some r ↔ ∃ b, b ∈ ly_blocks ly' ∧ be_bid b = k ∧ bbt_record b = r) → bbt_wf bbt.
Proof.
  intros Hbbt k r (b & Hin & _ & <-)%Hbbt.
  destruct (placed_block ly e ly' np bp maps pages Hfn b (lo_blocks _ _ (hc_ok _ _ _ _ Hh)) Hin) as (Hl & _).
  simpl. unfold MAX_BLOCK_DATA in Hl. lia.
Qed.

(** The file of a finalized layout gives everything back. *)
Lemma finalized_reads :
  amap_complete (eg_amap e) →
  ∃ f header nbt bbt, finalize_file ly' np bp = Ok f ∧ reads_back (f_bytes f) header nbt bbt ly c.
Proof.
  intros Hcomp. pose proof (hc_ok _ _ _ _ Hh) as Hok.
  destruct (finalize_file_spec ly e ly' np bp maps pages Hfn Hcomp Hu nodes_u64 (lo_nids _ _ Hok) (lo_blocks _ _ Hok)) as (f & Hrun & Hff).
  pose proof (ff_header _ _ _ _ _ _ _ Hff) as (al & nroot & broot & nws & bws & Hargs & Hst & Hnt & Hns & Hbt & Hbs & Hno & Hbo). cbn zeta in *.
  destruct (header_read_written _ _ _ _ _ _ _ _ Hargs Hst) as (h & Hh1 & _ & Hcrypt & _ & _ & Hnb & Hbb & _).
  destruct (tree_written_build ly e ly' np bp maps pages Hfn nbt_kind ne_nid nbt_record np _ _ _ _ Hnt Hns) as (nbt & Hnbt & Hnlook);
    [by apply submseteq_inserts_r|done|apply Hok|].
  destruct (tree_written_build ly e ly' np bp maps pages Hfn bbt_kind be_bid bbt_record bp _ _ _ _ Hbt Hbs) as (bbt & Hbbt & Hblook);
    [by apply submseteq_inserts_l|done| |].
  { pose proof (fn_distinct _ _ _ _ _ _ _ Hfn) as Hd. by apply NoDup_app in Hd as (? & _ & _). }
  pose proof (bbt_is_wf bbt Hblook) as Hwf.
  assert (HB : ∀ bid d, has_block ly e bid d → 0 <= bid < 2 ^ 64 ∧ runs (read_payload (f_bytes f) bbt bid) d [NoteBlockRead]).
  { intros bid d. by apply block_found. }
  pose proof (hc_values _ _ _ _ Hh) as Hvals. pose proof (hc_tables _ _ _ _ Hh) as Htabs. rewrite Forall_forall in Hvals. rewrite Forall_forall in Htabs.
  exists f, h, nbt, bbt. split; [done|]. split; rewrite ?Hcrypt; try done.
  - unfold nbt_build. by rewrite Hnb.
  - unfold bbt_build. by rewrite Hbb.
  - intros nid en. unfold nbt_get. rewrite Hnlook. naive_solver.
  - intros bid v Hin Hmax. destruct (Hvals _ Hin) as (Ht & _ & _). by apply (read_data_tree _ _ (has_block ly e)).
  - intros bid v Hin. destruct (Hvals _ Hin) as (Ht & Hz & _).
    destruct (collect_data_tree (f_bytes f) bbt (has_block ly e) HB Hwf bid v Ht Hz) as (leaves & pieces & Hcol & Hl & Hcat).
    exists leaves, pieces. split_and!; [done| |done]. eapply Forall2_impl; [exact Hl|]. intros b p. by apply leaf_read.
  - intros bid t Hin. destruct (Htabs _ Hin) as (Hb & _ & Hi & Hes & Hl). apply HB in Hb as [_ Hr]. eapply read_table; [done..|].
    eapply Forall_impl; [exact Hes|]. intros x (? & Hd & Hs).
    assert (Hw : ∀ b, bid_word ly b → 0 <= b < 2 ^ 64) by (intros b [?|Hb%used_range]; lia). split; [done|split]; by apply Hw.
Qed.
End finalized.

(** C2 A sequence of writer operations (values, streams, row matrices, subnode
    tables, nodes) in which no stream failed after it had registered an AMap slot
    finalizes; and if its offsets and block IDs are within the format's 64-bit
    fields, the file is written and the reader opens it: exactly the nodes that were
    added are in the node index, every value assembles (up to the 64 MiB limit) and
    streams leaf by leaf to exactly its bytes, every subnode table lists its
    entries, and no checksum or block ID mismatch is reported.  A stream that fails
    before it registers a slot is one of the operations, and leaves no trace in the
    file; [rollback_forgets_amap_slot] shows what a later failure does. *)
Theorem written_file_reads_back ly c (Hbuilt : built false ly c) :
  ∃ ly' np bp, finalize_layout ly = Ok (ly', np, bp) ∧
    (in_u64 ly' → ∃ f header nbt bbt, finalize_file ly' np bp = Ok f ∧ reads_back (f_bytes f) header nbt bbt ly c).
Proof.
  destruct (built_holds false ly c Hbuilt) as (e & Hh).
  destruct (finalize_layout_spec ly e (hc_ok _ _ _ _ Hh) (hc_pages _ _ _ _ Hh)) as (ly' & np & bp & maps & pages & Hrun & Hfn).
  exists ly', np, bp. split; [done|]. intros Hu. eapply finalized_reads; [done..|]. by apply (hc_amap _ _ _ _ Hh).
Qed.
End round_trip.

(** * The layout engine: placement, streams and a sample

    Where a finalized layout puts things, what streams leave behind, and the
    round trip of NdbRoundTrip on a small store. *)

Section properties.
Context `{Crc : Crc32}.

(** The ranges that must not reach into an AMap slot. *)
Definition data_regions (ly : layout) : list (Z * Z) :=
  map page_region (base.filter (λ p, pe_ptype p ≠ PTYPE_AMAP) (ly_pages ly)) ++ map block_region (ly_blocks ly).

(** C12 A finalized layout gives the header, every AMap page, every B-tree page and
    every data block a byte range of its own.  AMap pages lie at the slots that the
    format mandates, nothing else reaches into a slot, and when no stream failed
    after it had registered a slot, every slot below the end of the data has its AMap
    page. *)
Theorem layout_places_apart failures ly c ly' np bp
    (Hbuilt : built failures ly c) (Hfin : finalize_layout ly = Ok (ly', np, bp)) :
  separate (regions ly') ∧
  (∀ p, p ∈ ly_pages ly' → pe_ptype p = PTYPE_AMAP → ∃ k, 0 <= k ∧ pe_offset p = slot k) ∧
  (∀ a, a ∈ data_regions ly' → HEADER_SIZE <= a.1 ∧ clear a.1 a.2) ∧
  (failures = false → ∀ a k, a ∈ data_regions ly' → 0 <= k → slot k < a.1 + a.2 →
     ∃ p, p ∈ ly_pages ly' ∧ pe_ptype p = PTYPE_AMAP ∧ pe_offset p = slot k).
Proof.
  destruct (built_holds failures ly c Hbuilt) as (e & Hh).
  destruct (finalize_layout_spec ly e (hc_ok _ _ _ _ Hh) (hc_pages _ _ _ _ Hh)) as (ly2 & np2 & bp2 & maps & pages & Hrun & Hfn).
  rewrite Hrun in Hfin. injection Hfin as -> -> ->. pose proof (fn_maps _ _ _ _ _ _ _ Hfn) as Hm. pose proof (fn_ptypes _ _ _ _ _ _ _ Hfn) as Ht.
  assert (Hdata : data_regions ly' = map page_region pages ++ map block_region (ly_blocks ly')).
  { unfold data_regions. rewrite (fn_pages _ _ _ _ _ _ _ Hfn), filter_app, (filter_all _ pages Ht), filter_none; [done|].
    eapply Forall_impl; [exact Hm|]. intros p [Hp _] Hn. by rewrite Hp in Hn. }
  destruct (fn_laid _ _ _ _ _ _ _ Hfn) as (hi & Hl & Hslots).
  assert (Hin : ∀ a, a ∈ data_regions ly' → HEADER_SIZE <= a.1 ∧ a.1 + a.2 <= hi ∧ 0 < a.2 ∧ clear a.1 a.2).
  { intros [o n]. rewrite Hdata, split_regions. intros Ha. apply (laid_in _ _ _ o n) in Hl; [done|].
    rewrite !elem_of_app in Ha. rewrite !elem_of_app. tauto. }
  rewrite Forall_forall in Hm. rewrite Forall_forall in Ht. split_and!.
  - apply (fn_separate _ _ _ _ _ _ _ Hfn).
  - intros p Hp Hty. rewrite (fn_pages _ _ _ _ _ _ _ Hfn) in Hp. apply elem_of_app in Hp as [Hp|Hp]; [apply Hm in Hp as [_ ?]; done|].
    by apply Ht in Hp.
  - intros a Ha. destruct (Hin a Ha) as (? & _ & _ & ?). done.
  - intros Hf a k Ha Hk Hsl. destruct (Hin a Ha) as (_ & Hhi & _).
    assert (Hreg : slot k ∈ map pe_offset maps) by (apply Hslots; [by apply (hc_amap _ _ _ _ Hh)|done|lia]).
    apply list_elem_of_fmap in Hreg as (p & Hpo & Hp). exists p. rewrite (fn_pages _ _ _ _ _ _ _ Hfn).
    split_and!; [set_solver|by destruct (Hm p Hp)|done].
Qed.

(** C13 A value written from a reader: whatever pieces the reader delivers, a
    stream that ends within the limit makes the very layout that writing its bytes
    at once makes.  Otherwise it is refused, with the reader's own error code or with
    the number of bytes that took it over the limit (at most one chunk more), and
    nodes, blocks, block IDs, cursor and AMap pages are as they were, with every
    block that was there still readable.  The book of AMap slots is not: the slots
    whose pages the stream had registered, and the roll-back dropped, stay in it, so
    that the book is complete afterwards exactly when it was before and the stream
    had registered none. *)
Theorem stream_writes_or_undoes failures ly c e s
    (Hbuilt : built failures ly c) (He : ly_eager ly = Some e) :
  match write_data_chain_from_reader ly s with
  | (Ok (bid, n), ly') => (delivered s).2 = None ∧ n = zlen (delivered s).1 ∧ n <= I32_MAX ∧
      write_data_chain ly (delivered s).1 = Ok (bid, ly')
  | (Err err, ly') => ((delivered s).2 ≠ None ∨ I32_MAX < zlen (delivered s).1) ∧ stream_fault s 0 err ∧
      ∃ ly1 e1 lost e', write_data_chain_from_reader_inner ly s = (Err err, ly1) ∧ ly_eager ly1 = Some e1 ∧
        am_pages (eg_amap e1) = am_pages (eg_amap e) ++ lost ∧
        ly_eager ly' = Some e' ∧ undone lost ly e ly' e' ∧
        (amap_complete (eg_amap e') ↔ amap_complete (eg_amap e) ∧ lost = [])
  | _ => False
  end.
Proof.
  destruct (built_holds failures ly c Hbuilt) as (e0 & Hh). pose proof (hc_ok _ _ _ _ Hh) as Hok.
  assert (e0 = e) as -> by (pose proof (lo_eager _ _ Hok); congruence).
  destruct (from_reader_settles ly e s Hok) as (r & ly' & Hrun & Hr). rewrite Hrun. destruct r as [[bid n]|err| |]; try done.
  - destruct Hr as (e' & _ & _ & -> & Hmax & Herr). split_and!; try done.
    destruct (from_reader_complete ly e s (delivered s).1 Hok) as (b & ly2 & Hw & Hrun2); [|done|].
    { rewrite <-Herr. by destruct (delivered s). }
    rewrite Hrun in Hrun2. by injection Hrun2 as <- <-.
  - destruct Hr as (Hfault & ly1 & e1 & lost & e' & Hin & He1 & Hlost & He' & Hu). split_and!; [|done|].
    { destruct Hfault as [(code & _ & ->)|(n & _ & ? & _)]; [by left|right; lia]. }
    exists ly1, e1, lost, e'. split_and!; [done..|]. by eapply undone_complete.
Qed.
End properties.

(** ** A sample store *)

#[local] Instance sample_crc : Crc32 := λ _, 7.
#[local] Instance sample_crc_range : Crc32Range.
Proof. done. Qed.

Definition start_layout : layout := attach_eager layout_new eager_create.
Definition after_step {A} (m : wres (A * layout)) : layout := match m with Ok r => r.2 | _ => layout_new end.

Definition sample_table : list (Z * Z * Z) := [(0x692, 4, 0); (0x671, 8, 0)].
Definition sample_data : list byte := replicate (Z.to_nat 9000) Byte.x41.
Definition sample1 : layout := after_step (add_subnode_leaf start_layout sample_table).
Definition sample2 : layout := after_step (add_node_data sample1 0x21 sample_data 0 18).
Definition sample_contents : contents :=
  add_value 19 sample_data (add_table 18 (sort_on (λ e, e.1.1) sample_table) no_contents).

Lemma sample_built : built false sample2 sample_contents.
Proof.
  eapply built_step; [eapply built_step; [apply built_new|]|].
  - apply (step_table false _ _ sample_table 18 sample1); [|vm_compute; reflexivity].
    repeat (constructor; [split; [done|split; by left]|]). constructor.
  - apply (step_node false _ _ 0x21 sample_data 0 18 19 sample2); [done|right; vm_compute; by left|vm_compute; reflexivity].
Qed.

(** A stream of 24 KiB that fails: it crossed the first AMap slot. *)
Definition failing_source : source := [ReadData (replicate (Z.to_nat 24576) Byte.x42); ReadFailed 5].

(** A failed stream that registered no slot: one of the operations. *)
Definition refused_source : source := [ReadInterrupted; ReadFailed 32].
Definition sample3 : layout := (write_data_chain_from_reader sample2 refused_source).2.

Lemma sample3_built : built false sample3 sample_contents.
Proof.
  eapply built_step; [exact sample_built|].
  assert (H : ∃ err, write_data_chain_from_reader sample2 refused_source = (Err err, sample3)) by (eexists; vm_compute; reflexivity).
  destruct H as (err & H). apply (step_stream_failed false _ _ refused_source err); [right; vm_compute; reflexivity|exact H].
Qed.

Lemma sample_finalizes : ∃ ly' np bp, finalize_layout sample2 = Ok (ly', np, bp).
Proof.
  assert (Hok : match finalize_layout sample2 with Ok _ => true | _ => false end = true) by (vm_compute; reflexivity).
  destruct (finalize_layout sample2) as [[[ly' np] bp]| | |]; [by exists ly', np, bp|done..].
Qed.

Lemma written_file_reads_back_witness :
  ∃ ly' np bp f header nbt bbt, finalize_layout sample3 = Ok (ly', np, bp) ∧ finalize_file ly' np bp = Ok f ∧
    reads_back (f_bytes f) header nbt bbt sample3 sample_contents ∧ zlen (f_bytes f) = 17920.
Proof.
  destruct (written_file_reads_back sample3 sample_contents sample3_built) as (ly' & np & bp & Hrun & Hread).
  assert (Hu : match finalize_layout sample3 with
    | Ok (l, n, b) => (file_size l <? 2 ^ 64) && (next_bid_counter (ly_bids l) + 3 <=? 2 ^ 64) &&
        match finalize_file l n b with Ok f => zlen (f_bytes f) =? 17920 | _ => false end
    | _ => false end = true) by (vm_compute; reflexivity).
  rewrite Hrun in Hu. apply andb_true_iff in Hu as [Hu Hz]. apply andb_true_iff in Hu as [Hfs Hnx].
  destruct Hread as (f & header & nbt & bbt & Hf & Hrb); [split; [by apply Z.ltb_lt|by apply Z.leb_le]|].
  rewrite Hf in Hz. exists ly', np, bp, f, header, nbt, bbt. split_and!; [done|done|done|by apply Z.eqb_eq].
Defined.

Lemma layout_places_apart_witness :
  ∃ ly' np bp, finalize_layout sample2 = Ok (ly', np, bp) ∧ separate (regions ly').
Proof.
  destruct sample_finalizes as (ly' & np & bp & Hrun).
  exists ly', np, bp. split; [done|]. by apply (layout_places_apart false sample2 sample_contents ly' np bp sample_built Hrun).
Defined.

Lemma stream_writes_or_undoes_witness :
  ∃ bid ly', write_data_chain_from_reader sample2 [ReadData sample_data; ReadInterrupted; ReadEnd] = (Ok (bid, 9000), ly') ∧
    write_data_chain sample2 sample_data = Ok (bid, ly') ∧
  ∃ ly2 e2, write_data_chain_from_reader start_layout failing_source = (Err (StreamIo 5), ly2) ∧
    ly_eager ly2 = Some e2 ∧ am_pages (eg_amap e2) = [] ∧ ¬ amap_complete (eg_amap e2).
Proof.
  assert (Hfail : ∃ ly2 e2, write_data_chain_from_reader start_layout failing_source = (Err (StreamIo 5), ly2) ∧
    ly_eager ly2 = Some e2 ∧ am_pages (eg_amap e2) = [] ∧ ¬ amap_complete (eg_amap e2)).
  { pose proof (stream_writes_or_undoes true start_layout no_contents eager_create failing_source (built_new true) eq_refl) as Hs.
    assert (Hc : (write_data_chain_from_reader start_layout failing_source).1 = Err (StreamIo 5)) by (vm_compute; reflexivity).
    destruct (write_data_chain_from_reader start_layout failing_source) as [r ly2]. simpl in Hc. subst r.
    destruct Hs as (_ & _ & ly1 & e1 & lost & e2 & Hin & He1 & Hpg & He2 & Hu & Hiff). exists ly2, e2.
    split; [reflexivity|]. split; [exact He2|]. split; [by rewrite (un_amap _ _ _ _ _ Hu)|].
    intros [_ Hl]%Hiff. subst lost.
    assert (Hp : match ly_eager (write_data_chain_from_reader_inner start_layout failing_source).2 with
      | Some e => length (am_pages (eg_amap e)) | None => 0%nat end = 1%nat) by (vm_compute; reflexivity).
    rewrite Hin in Hp. simpl in Hp. rewrite He1, Hpg in Hp. discriminate Hp. }
  assert (He : ∃ e, ly_eager sample2 = Some e).
  { destruct (built_holds false sample2 sample_contents sample_built) as (e & Hh). exists e. apply (lo_eager _ _ (hc_ok _ _ _ _ Hh)). }
  destruct He as (e & He).
  pose proof (stream_writes_or_undoes false sample2 sample_contents e [ReadData sample_data; ReadInterrupted; ReadEnd] sample_built He) as Hs.
  assert (Hd : (delivered [ReadData sample_data; ReadInterrupted; ReadEnd]).1 = sample_data) by (vm_compute; reflexivity).
  assert (Hok : match write_data_chain_from_reader sample2 [ReadData sample_data; ReadInterrupted; ReadEnd] with
    | (Ok _, _) => true | _ => false end = true) by (vm_compute; reflexivity).
  destruct (write_data_chain_from_reader sample2 _) as [[[bid n]| | |] ly']; try discriminate Hok.
  destruct Hs as (_ & Hn & _ & Hw). rewrite Hd in Hw. rewrite Hd in Hn.
  assert (Hz : zlen sample_data = 9000) by (vm_compute; reflexivity). rewrite Hz in Hn. subst n.
  exists bid, ly'. split; [reflexivity|]. split; [exact Hw|exact Hfail].
Defined.

Lemma row_matrix_round_trip_witness :
  ∃ bid n ly', write_row_matrix_tree sample2 sample_data 3000 = Ok (bid, n, ly') ∧
    extract_rows_per_block (padded_matrix sample_data 3000) 3000 = Ok (sample_data, 3).
Proof.
  assert (Hz : zlen sample_data = 9000) by (vm_compute; reflexivity).
  pose proof (row_matrix_round_trip false sample2 sample_contents sample_data 3000 sample_built
    ltac:(rewrite Hz; unfold I32_MAX; lia) ltac:(lia)) as Hm.
  assert (Hok : match write_row_matrix_tree sample2 sample_data 3000 with Ok _ => true | _ => false end = true) by (vm_compute; reflexivity).
  destruct (write_row_matrix_tree sample2 sample_data 3000) as [[[bid n] ly']| | |]; try discriminate Hok.
  destruct Hm as (_ & _ & [[Hnil _]|[_ Hx]]); [exfalso; rewrite Hnil in Hz; discriminate Hz|].
  exists bid, n, ly'. split; [reflexivity|]. rewrite Hx, Hz. reflexivity.
Defined.

(** *** A failed stream loses an AMap page *)

(** After the rollback the slot is still remembered as registered, but its page is
    gone: the layout no longer finalizes to a file ([MissingAmapPage]), although it
    did before the stream. *)
Example rollback_forgets_amap_slot :
  (∃ file, finalize_ndb start_layout = Ok file) ∧
  ∃ ly', write_data_chain_from_reader start_layout failing_source = (Err (StreamIo 5), ly') ∧
    finalize_ndb ly' = Err MissingAmapPage.
Proof.
  split.
  - assert (Hok : match finalize_ndb start_layout with Ok _ => true | _ => false end = true) by (vm_compute; reflexivity).
    destruct (finalize_ndb start_layout) as [file| | |]; [by exists file|done..].
  - set (r := write_data_chain_from_reader start_layout failing_source).
    assert (H1 : r.1 = Err (StreamIo 5)) by (vm_compute; reflexivity).
    assert (H2 : finalize_ndb r.2 = Err MissingAmapPage) by (vm_compute; reflexivity).
    exists r.2. split; [|done]. by destruct r as [r1 ly']; simpl in H1; subst.
Qed.
