(* ===== verification/PagedHeap.v ===== *)
(** * Paged heaps of the writer (pst-writer/src/lib.rs, production.rs)

    [PagedHeapBuilder] spreads the allocations of a table over pages of 8176 bytes;
    a heap ID names the page and the slot.  [HeapTryAlloc] is the surface that it
    shares with the one-page [HeapBuilder], and [build_bth_u32_checked] is written
    against that surface. *)

From S2P Require Import Prelude PstError Heap PropContext WriterHeap.
#[local] Open Scope Z_scope.

(** ** Pages *)

(** [HeapPage] *)
Record heap_page := { hp_data : list byte; hp_allocations : list (Z * Z); hp_header_size : Z }.

(** [is_hn_bitmap_page] *)
Definition is_hn_bitmap_page (index : Z) : bool := (8 <=? index) && ((index - 8) mod 128 =? 0).

(** [HeapPage::page0], [HeapPage::continuation] *)
Definition page0 (client_sig : Z) : heap_page :=
  {| hp_data := le_split 2 0 ++ [byte.of_Z 0xEC; byte.of_Z client_sig] ++ le_split 4 0 ++ le_split 4 0;
     hp_allocations := []; hp_header_size := 12 |}.
Definition continuation : heap_page :=
  {| hp_data := le_split 2 0; hp_allocations := []; hp_header_size := 2 |}.

(** [HeapPage::projected_len], [HeapPage::fits] *)
Definition projected_len (p : heap_page) (extra_bytes : Z) : Z :=
  let used := zlen (hp_data p) + extra_bytes in
  let used := if used mod 2 =? 1 then used + 1 else used in
  let alloc_count := zlen (hp_allocations p) + 1 in
  used + (4 + (alloc_count + 1) * 2).
Definition hp_fits (p : heap_page) (extra_bytes : Z) : bool :=
  (projected_len p extra_bytes <=? MAX_BLOCK_DATA) && (zlen (hp_allocations p) <? 2047).

(** [HeapPage::write_pagemap] *)
Definition write_pagemap (p : heap_page) : wres heap_page :=
  let data := if zlen (hp_data p) mod 2 =? 1 then hp_data p ++ [Byte.x00] else hp_data p in
  let hnpm_offset := zlen data in
  let pagemap :=
    le_split 2 (wrap 16 (zlen (hp_allocations p))) ++ le_split 2 0 ++ le_split 2 (wrap 16 (hp_header_size p)) ++
    (e ← hp_allocations p; le_split 2 (wrap 16 e.2)) in
  data ← put (data ++ pagemap) 0 (le_split 2 (wrap 16 hnpm_offset));
  Ok {| hp_data := data; hp_allocations := hp_allocations p; hp_header_size := hp_header_size p |}.

(** [Vec::resize(n, 0)] *)
Definition resize (data : list byte) (n : Z) : list byte :=
  sub data 0 n ++ replicate (Z.to_nat (n - zlen data)) Byte.x00.
Definition resize_page (p : heap_page) : heap_page :=
  {| hp_data := resize (hp_data p) MAX_BLOCK_DATA; hp_allocations := hp_allocations p; hp_header_size := hp_header_size p |}.

(** ** The builder *)

(** [PagedHeapBuilder]: the pages, the last one open. *)
Record paged_heap := { ph_closed : list heap_page; ph_open : heap_page }.
Definition ph_pages (h : paged_heap) : list heap_page := ph_closed h ++ [ph_open h].

(** [PagedHeapBuilder::new] *)
Definition ph_new (client_sig : Z) : paged_heap := {| ph_closed := []; ph_open := page0 client_sig |}.

(** [PagedHeapBuilder::start_new_page] *)
Definition start_new_page (h : paged_heap) : wres paged_heap :=
  let next := zlen (ph_pages h) in
  if is_hn_bitmap_page next then Err (HnBitmapPage next)
  else
    page ← write_pagemap (ph_open h);
    if MAX_BLOCK_DATA <? zlen (hp_data page) then Err (HnPageOverflow (next - 1) (zlen (hp_data page)))
    else Ok {| ph_closed := ph_closed h ++ [resize_page page]; ph_open := continuation |}.

(** The end of [PagedHeapBuilder::try_alloc]: the bytes go to the open page. *)
Definition alloc_in_open (h : paged_heap) (bytes : list byte) : wres (Z * paged_heap) :=
  let page := ph_open h in
  if 2047 <=? zlen (hp_allocations page) then Err HnIndexExhausted
  else
    let start := zlen (hp_data page) in
    let data := hp_data page ++ bytes in
    let allocations := hp_allocations page ++ [(start, zlen data)] in
    let block := zlen (ph_closed h) in
    Ok (Z.lor (wrap 32 (Z.shiftl (wrap 32 block) 16)) (wrap 32 (Z.shiftl (wrap 32 (zlen allocations)) 5)),
        {| ph_closed := ph_closed h;
           ph_open := {| hp_data := data; hp_allocations := allocations; hp_header_size := hp_header_size page |} |}).

(** [PagedHeapBuilder::try_alloc] *)
Definition ph_try_alloc (h : paged_heap) (bytes : list byte) : wres (Z * paged_heap) :=
  if hp_fits (ph_open h) (zlen bytes) then alloc_in_open h bytes
  else
    h ← start_new_page h;
    if hp_fits (ph_open h) (zlen bytes) then alloc_in_open h bytes
    else Err (HnAllocTooBig (zlen bytes)).

(** [PagedHeapBuilder::patch_u32] *)
Definition patch_page (hid field_offset value index : Z) (p : heap_page) : wres heap_page :=
  match hp_allocations p !! Z.to_nat index with
  | None => Err (PatchUnknownHid hid index)
  | Some (start, stop) =>
      let at_ := start + field_offset in
      if stop <? at_ + 4 then Err (PatchOutside hid field_offset at_ start stop)
      else
        data ← put (hp_data p) at_ (le_split 4 value);
        Ok {| hp_data := data; hp_allocations := hp_allocations p; hp_header_size := hp_header_size p |}
  end.
Definition ph_patch_u32 (h : paged_heap) (hid field_offset value : Z) : wres paged_heap :=
  let block := Z.to_nat (Z.shiftr hid 16) in
  let index := Z.max (Z.land (Z.shiftr hid 5) 0x7FF - 1) 0 in
  match ph_closed h !! block with
  | Some p => q ← patch_page hid field_offset value index p; Ok {| ph_closed := <[block := q]> (ph_closed h); ph_open := ph_open h |}
  | None =>
      if decide (block = length (ph_closed h))
      then q ← patch_page hid field_offset value index (ph_open h); Ok {| ph_closed := ph_closed h; ph_open := q |}
      else Err (PatchUnknownPage hid (Z.of_nat block))
  end.

(** [PagedHeapBuilder::finalize] *)
Definition set_user_root (hid_user_root : Z) (p : heap_page) : wres (list byte) :=
  if 8 <=? zlen (hp_data p) then put (hp_data p) 4 (le_split 4 hid_user_root) else Ok (hp_data p).
Definition pad_page (data : list byte) : list byte :=
  if zlen data <? MAX_BLOCK_DATA then resize data MAX_BLOCK_DATA else data.
Definition ph_finalize (h : paged_heap) (hid_user_root : Z) : wres (list byte) :=
  last ← write_pagemap (ph_open h);
  match ph_closed h with
  | [] => set_user_root hid_user_root last
  | first :: closed =>
      first ← set_user_root hid_user_root first;
      Ok (pad_page first ++ concat (map (λ p, pad_page (hp_data p)) closed) ++ hp_data last)
  end.

(** ** The shared surface *)

(** [trait HeapTryAlloc] *)
Class HeapTryAlloc (H : Type) := {
  try_alloc : H → list byte → wres (Z * H);
  patch_u32 : H → Z → Z → Z → wres H }.
#[export] Instance heap_builder_try_alloc : HeapTryAlloc heap_builder :=
  {| try_alloc := hb_try_alloc; patch_u32 := hb_patch_u32 |}.
#[export] Instance paged_heap_try_alloc : HeapTryAlloc paged_heap :=
  {| try_alloc := ph_try_alloc; patch_u32 := ph_patch_u32 |}.

(** What a table builder relies on: a heap stands for the finite map from the heap
    IDs it handed out to their bytes; an allocation adds a new ID and a patch
    changes four bytes of one entry. *)
Class LawfulHeap (H : Type) `{HeapTryAlloc H} := {
  heap_stands : H → gmap Z (list byte) → Prop;
  alloc_stands h m b hid h' : heap_stands h m → try_alloc h b = Ok (hid, h') →
    m !! hid = None ∧ hid_type hid = 0 ∧ 0 < hid < 2 ^ 32 ∧ heap_stands h' (<[hid := b]> m);
  patch_stands h m hid a x c v : heap_stands h m → m !! hid = Some (a ++ x ++ c) → zlen x = 4 →
    ∃ h', patch_u32 h hid (zlen a) v = Ok h' ∧ heap_stands h' (<[hid := a ++ le_split 4 v ++ c]> m) }.

(** The key bytes of [build_bth_u32_checked]: truncated or padded to [cb_key]. *)
Definition u32_key_bytes (cb_key key : Z) : list byte :=
  if cb_key <=? 4 then sub (le_split 4 key) 0 cb_key else le_split 4 key ++ replicate (Z.to_nat (cb_key - 4)) Byte.x00.

(** The records of the leaf. *)
Fixpoint u32_leaf (cb_key cb_ent : Z) (records : list (Z * list byte)) : wres (list byte) :=
  match records with
  | [] => Ok []
  | (key, data) :: records =>
      if negb (zlen data =? cb_ent) then Err (BthRecordLength (zlen data) cb_ent)
      else
        rest ← u32_leaf cb_key cb_ent records;
        Ok (u32_key_bytes cb_key key ++ data ++ rest)
  end.

(** [build_bth_u32_checked] *)
Definition build_bth_u32_checked `{HeapTryAlloc H} (h : H) (cb_key cb_ent : Z) (records : list (Z * list byte)) : wres (Z * H) :=
  if cb_key <? 4 then Err (BthKeyTooShort cb_key)
  else if cb_ent =? 0 then Err BthEmptyEntry
  else
    let records := sort_by_key records in
    root ← try_alloc h (map byte.of_Z [0xB5; cb_key; cb_ent; 0] ++ le_split 4 0);
    leaf_data ← u32_leaf cb_key cb_ent records;
    leaf ← try_alloc root.2 leaf_data;
    h ← patch_u32 leaf.2 root.1 4 leaf.1;
    Ok (root.1, h).
