(* ===== verification/PagedHeapFacts.v ===== *)
(** * Facts about paged heaps

    Each page stands for the list of its allocations; closed pages carry their
    allocation map.  The finalized pages are a heap that the reader parses, and each
    heap ID that was handed out reads back its allocation.  Both builders satisfy
    the laws of [LawfulHeap]. *)

From S2P Require Import Prelude PstError Heap PropContext WriterHeap PagedHeap.
#[local] Open Scope Z_scope.

(** ** Heap IDs *)

Definition hid_at (page slot : nat) : Z := 65536 * Z.of_nat page + 32 * (Z.of_nat slot + 1).

Lemma hid_at_fields page slot : Z.of_nat page < 65536 → Z.of_nat slot < 2047 →
  hid_type (hid_at page slot) = 0 ∧ hid_index (hid_at page slot) = Z.of_nat slot + 1 ∧
  hid_block_index (hid_at page slot) = Z.of_nat page ∧ 0 < hid_at page slot < 2 ^ 32.
Proof.
  intros Hp Hs. unfold hid_type, hid_index, hid_block_index, hid_at. change 0x1F with (Z.ones 5). change 0x7FF with (Z.ones 11).
  change 0xFFFF with (Z.ones 16). rewrite !Z.land_ones, !Z.shiftr_div_pow2 by lia.
  change (2 ^ 5) with 32. change (2 ^ 11) with 2048. change (2 ^ 16) with 65536. change (2 ^ 32) with 4294967296.
  split_and!; Z.to_euclidean_division_equations; lia.
Qed.

Lemma hid_at_inj p s q t : Z.of_nat s < 2047 → Z.of_nat t < 2047 → hid_at p s = hid_at q t → p = q ∧ s = t.
Proof. unfold hid_at. lia. Qed.

Lemma lor_halves page low : 0 <= page → 0 <= low < 2 ^ 16 → Z.lor (Z.shiftl page 16) low = 65536 * page + low.
Proof.
  intros Hp Hl. rewrite <-Z.add_nocarry_lor; [rewrite Z.shiftl_mul_pow2 by lia; lia|].
  apply Z.bits_inj'. intros n Hn. rewrite Z.land_spec, Z.bits_0, Z.shiftl_spec by done.
  destruct (Z.lt_ge_cases n 16); [by rewrite Z.testbit_neg_r by lia|].
  rewrite <-(Z.mod_small low (2 ^ 16)) by done. rewrite Z.mod_pow2_bits_high by lia. apply andb_false_r.
Qed.

(** ** Reading a slot of a page *)

(** The allocation map behind the allocations, and what it follows. *)
Definition pad2 (n : Z) : list byte := if n mod 2 =? 1 then [Byte.x00] else [].
Definition map_bytes (front : Z) (cs : list (list byte)) : list byte :=
  le_split 2 (zlen cs) ++ le_split 2 0 ++ (v ← front :: map snd (spans front cs); le_split 2 v).

Lemma ends_lookup front cs i : (i <= length cs)%nat →
  (front :: map snd (spans front cs)) !! i = Some (front + zlen (concat (take i cs))).
Proof.
  intros Hi. destruct i as [|i]; [cbn; f_equal; unfold zlen; simpl; lia|]. cbn [lookup list_lookup].
  destruct (lookup_lt_is_Some_2 cs i) as [c Hc]; [lia|].
  change ((snd <$> spans front cs) !! i = Some (front + zlen (concat (take (S i) cs)))).
  by rewrite list_lookup_fmap, (spans_lookup front cs i c Hc).
Qed.

Lemma zlen_map_bytes front cs : zlen (map_bytes front cs) = 6 + 2 * zlen cs.
Proof.
  unfold map_bytes. rewrite !zlen_app, !zlen_le_split, zlen_table, zlen_cons.
  assert (zlen (map snd (spans front cs)) = zlen cs) as -> by (unfold zlen; by rewrite length_map, length_spans). lia.
Qed.

Lemma get_slot hid head cs p rest i c :
  let block := head ++ concat cs ++ p ++ map_bytes (zlen head) cs ++ rest in
  cs !! i = Some c → hid_index hid = Z.of_nat i + 1 → zlen cs < 2 ^ 16 → zlen head + zlen (concat cs) < 2 ^ 16 →
  get_in_block hid block (zlen (head ++ concat cs ++ p)) = Ok c.
Proof.
  intros block Hc Hi Hn Hz. pose proof (lookup_lt_Some _ _ _ Hc) as Hlt. pose proof (zlen_nonneg rest). pose proof (zlen_nonneg cs).
  pose proof (zlen_nonneg head). pose proof (zlen_nonneg p). pose proof (zlen_nonneg (concat cs)).
  set (hnpm := zlen (head ++ concat cs ++ p)).
  assert (Hh0 : 0 <= hnpm) by apply zlen_nonneg.
  set (front := (head ++ concat cs ++ p) ++ le_split 2 (zlen cs) ++ le_split 2 0).
  assert (Hb : block = (front ++ (v ← zlen head :: map snd (spans (zlen head) cs); le_split 2 v)) ++ rest).
  { unfold block, front, map_bytes. by rewrite <-!(assoc_L (++)). }
  assert (Hfr : zlen front = hnpm + 4) by (unfold front, hnpm; rewrite !zlen_app, !zlen_le_split; lia).
  assert (Hlen : zlen block = hnpm + 6 + 2 * zlen cs + zlen rest).
  { unfold block, hnpm. rewrite !zlen_app, zlen_map_bytes. lia. }
  assert (Hends : zlen (map snd (spans (zlen head) cs)) = zlen cs) by (unfold zlen; by rewrite length_map, length_spans).
  assert (Hslot : ∀ j, (j <= length cs)%nat → le_at block (hnpm + 4 + Z.of_nat j * 2) 2 = Ok (zlen head + zlen (concat (take j cs))) :> pres _).
  { intros j Hj. pose proof (zlen_concat_take cs j). pose proof (zlen_nonneg (concat (take j cs))).
    assert (Z.of_nat j <= zlen cs) by (unfold zlen; lia).
    rewrite le_at_ok by lia. f_equal. rewrite Hb, le_val_app_l by (rewrite ?zlen_app, ?zlen_table, ?zlen_cons, ?Hends; lia).
    etransitivity; [|apply le_val_table; [by apply ends_lookup|lia]]. f_equal. lia. }
  assert (Hic : Z.of_nat i + 1 <= zlen cs) by (unfold zlen; lia).
  unfold get_in_block. rewrite Hi, !(proj2 (Z.ltb_ge _ _)) by lia.
  assert (le_at block hnpm 2 = Ok (zlen cs) :> pres _) as ->.
  { rewrite Hb. unfold front. rewrite <-!(assoc_L (++)), !(assoc_L (++) head), (assoc_L (++) _ p).
    apply le_at_mid; [change (8 * Z.of_nat 2) with 16; lia|unfold hnpm; rewrite !zlen_app; lia|done]. }
  rewrite bind_ok.
  assert (le_at block (hnpm + 2) 2 = Ok 0 :> pres _) as ->.
  { rewrite Hb. unfold front. rewrite <-!(assoc_L (++)), !(assoc_L (++) head), (assoc_L (++) _ p), (assoc_L (++) _ (le_split 2 (zlen cs))).
    apply le_at_mid; [done|unfold hnpm; rewrite !zlen_app, !zlen_le_split; lia|done]. }
  rewrite bind_ok, !(proj2 (Z.ltb_ge _ _)) by lia.
  replace (hnpm + 4 + (Z.of_nat i + 1 - 1) * 2) with (hnpm + 4 + Z.of_nat i * 2) by lia.
  replace (hnpm + 4 + (Z.of_nat i + 1) * 2) with (hnpm + 4 + Z.of_nat (S i) * 2) by lia.
  rewrite !Hslot by lia. rewrite !bind_ok.
  assert (Hd : zlen (concat (take (S i) cs)) = zlen (concat (take i cs)) + zlen c).
  { rewrite (take_S_r _ _ _ Hc), concat_app, zlen_app. cbn [concat]. rewrite app_nil_r. lia. }
  pose proof (zlen_concat_take cs (S i)). pose proof (zlen_nonneg c). pose proof (zlen_nonneg (concat (take i cs))).
  assert (Hfit : zlen head + zlen (concat cs) <= hnpm) by (unfold hnpm; rewrite !zlen_app; lia).
  rewrite !(proj2 (Z.ltb_ge _ _)) by lia. cbn [orb].
  assert (Hcs : concat cs = concat (take i cs) ++ c ++ concat (drop (S i) cs)).
  { rewrite <-(take_drop i cs) at 1. by rewrite (drop_S _ _ _ Hc), concat_app. }
  unfold block. rewrite Hcs. rewrite <-!(assoc_L (++)), (assoc_L (++) head). apply slice_mid; rewrite ?zlen_app; lia.
Qed.

(** ** What a page stands for *)

Definition head_size (k : nat) : Z := match k with O => 12 | _ => 2 end.
Definition page_head (client root hnpm : Z) (k : nat) : list byte :=
  match k with O => WriterHeap.header_bytes hnpm client root | _ => le_split 2 hnpm end.
(** Where the allocations end, and the length of the page with its map. *)
Definition page_fill (k : nat) (cs : list (list byte)) : Z := head_size k + zlen (concat cs).
Definition page_need (k : nat) (cs : list (list byte)) : Z := page_fill k cs + page_fill k cs mod 2 + 6 + 2 * zlen cs.
Definition page_image (client root : Z) (k : nat) (cs : list (list byte)) : list byte :=
  page_head client root (page_fill k cs + page_fill k cs mod 2) k ++ concat cs ++ pad2 (page_fill k cs) ++ map_bytes (head_size k) cs.

(** A page over [cs] whose allocations are followed by [post]. *)
Record page_over (client : Z) (k : nat) (cs : list (list byte)) (hnpm : Z) (post : list byte) (p : heap_page) : Prop := {
  po_data : hp_data p = page_head client 0 hnpm k ++ concat cs ++ post;
  po_allocations : hp_allocations p = spans (head_size k) cs;
  po_head : hp_header_size p = head_size k;
  po_fits : page_need k cs <= MAX_BLOCK_DATA;
  po_count : zlen cs <= 2047 }.
Definition open_page client k cs := page_over client k cs 0 [].
Definition closed_page client k cs :=
  page_over client k cs (page_fill k cs + page_fill k cs mod 2)
    (pad2 (page_fill k cs) ++ map_bytes (head_size k) cs ++ replicate (Z.to_nat (MAX_BLOCK_DATA - page_need k cs)) Byte.x00).

Lemma head_size_pos k : 2 <= head_size k <= 12.
Proof. destruct k; cbn; lia. Qed.

Lemma zlen_page_head client root hnpm k : zlen (page_head client root hnpm k) = head_size k.
Proof. destruct k; [apply zlen_header|apply zlen_le_split]. Qed.

Lemma zlen_pad2 n : zlen (pad2 n) = n mod 2.
Proof.
  unfold pad2. pose proof (Z.mod_pos_bound n 2 ltac:(lia)). destruct (Z.eqb_spec (n mod 2) 1) as [->|?]; [done|].
  change (zlen []) with 0. lia.
Qed.

Lemma zlen_page_image client root k cs : zlen (page_image client root k cs) = page_need k cs.
Proof. unfold page_image, page_need. rewrite !zlen_app, zlen_page_head, zlen_pad2, zlen_map_bytes. unfold page_fill. lia. Qed.

Lemma page_fill_bound k cs : page_need k cs <= MAX_BLOCK_DATA → 0 <= zlen (concat cs) ∧ 0 <= zlen cs <= 4085 ∧ 2 <= page_fill k cs <= 8170 ∧ 0 <= page_fill k cs mod 2 <= 1.
Proof.
  unfold page_need, MAX_BLOCK_DATA, page_fill. pose proof (zlen_nonneg (concat cs)). pose proof (zlen_nonneg cs).
  pose proof (head_size_pos k). pose proof (Z.mod_pos_bound (head_size k + zlen (concat cs)) 2 ltac:(lia)). lia.
Qed.

Lemma write_pagemap_spec client k cs p : open_page client k cs p →
  write_pagemap p = Ok {| hp_data := page_image client 0 k cs; hp_allocations := spans (head_size k) cs; hp_header_size := head_size k |}.
Proof.
  intros [Hd Ha Hh Hf Hc]. destruct (page_fill_bound k cs Hf) as (? & ? & ? & ?). pose proof (head_size_pos k).
  unfold write_pagemap. rewrite app_nil_r in Hd.
  assert (Hz : zlen (hp_data p) = page_fill k cs) by (rewrite Hd, zlen_app, zlen_page_head; done).
  assert (Hdata : (if zlen (hp_data p) mod 2 =? 1 then hp_data p ++ [Byte.x00] else hp_data p) = page_head client 0 0 k ++ concat cs ++ pad2 (page_fill k cs)).
  { rewrite Hz, Hd. unfold pad2. destruct (_ =? 1); [by rewrite <-(assoc_L (++))|by rewrite app_nil_r]. }
  rewrite Hdata, Ha, Hh. clear Hdata.
  assert (Hl : zlen (spans (head_size k) cs) = zlen cs) by (unfold zlen; by rewrite length_spans).
  assert (Hzz : zlen (page_head client 0 0 k ++ concat cs ++ pad2 (page_fill k cs)) = page_fill k cs + page_fill k cs mod 2).
  { rewrite !zlen_app, zlen_page_head, zlen_pad2. unfold page_fill. lia. }
  rewrite Hzz, Hl, !wrap_small by (unfold MAX_BLOCK_DATA in *; lia).
  assert ((e ← spans (head_size k) cs; le_split 2 (wrap 16 e.2)) = (v ← map snd (spans (head_size k) cs); le_split 2 v)) as ->.
  { rewrite bind_map. apply bind_ext_in. intros e [i Hi]%list_elem_of_lookup. f_equal. apply wrap_small.
    pose proof (lookup_lt_Some _ _ _ Hi) as Hlt. rewrite length_spans in Hlt.
    destruct (lookup_lt_is_Some_2 cs i Hlt) as [c Hc']. rewrite (spans_lookup _ _ _ _ Hc') in Hi. injection Hi as <-.
    cbn [snd]. pose proof (zlen_concat_take cs (S i)). pose proof (zlen_nonneg (concat (take (S i) cs))). unfold page_fill in *. lia. }
  unfold page_image, map_bytes. rewrite <-!(assoc_L (++)).
  assert (Hput : ∀ rest, put (page_head client 0 0 k ++ rest) 0 (le_split 2 (page_fill k cs + page_fill k cs mod 2))
    = Ok (page_head client 0 (page_fill k cs + page_fill k cs mod 2) k ++ rest) :> wres _).
  { intros rest. unfold page_head. destruct k; [unfold WriterHeap.header_bytes; rewrite <-!(assoc_L (++))|]; by rewrite put_front by (by rewrite !zlen_le_split). }
  rewrite Hput, bind_ok. done.
Qed.

(** Only the lengths of the allocations matter to the map. *)
Lemma map_bytes_ext front cs ds : map zlen cs = map zlen ds → map_bytes front cs = map_bytes front ds.
Proof.
  intros E. unfold map_bytes. rewrite (spans_ext front cs ds E).
  assert (zlen cs = zlen ds) as -> by (unfold zlen; f_equal; by apply (f_equal length) in E; rewrite !length_map in E). done.
Qed.

Lemma concat_lengths {A} (cs ds : list (list A)) : map zlen cs = map zlen ds → zlen (concat cs) = zlen (concat ds) ∧ zlen cs = zlen ds.
Proof.
  revert ds. induction cs as [|c cs IH]; intros [|d ds]; try done. intros [= E1 E2]. destruct (IH ds E2).
  cbn [concat]. rewrite !zlen_app, !zlen_cons. lia.
Qed.

Lemma page_need_ext k cs ds : map zlen cs = map zlen ds → page_fill k cs = page_fill k ds ∧ page_need k cs = page_need k ds.
Proof. intros [E1 E2]%concat_lengths. unfold page_need, page_fill. by rewrite E1, E2. Qed.

(** Patching four bytes of an allocation of a page. *)
Lemma patch_page_spec client k cs hnpm post p hid i a x c v :
  page_over client k cs hnpm post p → cs !! i = Some (a ++ x ++ c) → zlen x = 4 →
  let cs' := <[i := a ++ le_split 4 v ++ c]> cs in
  map zlen cs' = map zlen cs ∧
  ∃ q, patch_page hid (zlen a) v (Z.of_nat i) p = Ok q ∧ page_over client k cs' hnpm post q.
Proof.
  intros [Hd Ha Hh Hf Hc] Hi Hx cs'. pose proof (zlen_nonneg c). pose proof (lookup_lt_Some _ _ _ Hi) as Hlt.
  assert (Hl : map zlen cs' = map zlen cs).
  { unfold cs'. change (@map (list Init.Byte.byte) Z zlen) with (@fmap list _ _ _ (@zlen Init.Byte.byte)).
    rewrite list_fmap_insert. apply list_insert_id. rewrite list_lookup_fmap, Hi. cbn. f_equal. rewrite !zlen_app, zlen_le_split. lia. }
  split; [done|]. unfold patch_page. rewrite Ha, Nat2Z.id, (spans_lookup _ _ _ _ Hi).
  assert (Hcs : cs = take i cs ++ (a ++ x ++ c) :: drop (S i) cs) by (by rewrite take_drop_middle).
  assert (Hd' : concat cs = concat (take i cs) ++ (a ++ x ++ c) ++ concat (drop (S i) cs)) by (rewrite Hcs at 1; by rewrite concat_app).
  assert (Hins : concat cs' = concat (take i cs) ++ (a ++ le_split 4 v ++ c) ++ concat (drop (S i) cs)).
  { unfold cs'. rewrite insert_take_drop by done. by rewrite concat_app. }
  rewrite (take_S_r _ _ _ Hi), concat_app. cbn [concat]. rewrite app_nil_r, !zlen_app, (proj2 (Z.ltb_ge _ _)) by lia.
  assert (Hdata : hp_data p = (page_head client 0 hnpm k ++ concat (take i cs) ++ a) ++ x ++ (c ++ concat (drop (S i) cs) ++ post)).
  { rewrite Hd, Hd'. by rewrite <-!(assoc_L (++)). }
  rewrite Hdata, put_mid, bind_ok by (rewrite ?zlen_app, ?zlen_page_head, ?zlen_le_split; lia).
  eexists. split; [reflexivity|]. destruct (page_need_ext k cs' cs Hl) as [_ Hn]. destruct (concat_lengths cs' cs Hl) as [_ Hn'].
  split; cbn [hp_data hp_allocations hp_header_size].
  - rewrite Hins. by rewrite <-!(assoc_L (++)).
  - by apply spans_ext.
  - done.
  - by rewrite Hn.
  - by rewrite Hn'.
Qed.

Lemma closed_page_ext client k cs cs' p : map zlen cs' = map zlen cs →
  page_over client k cs' (page_fill k cs + page_fill k cs mod 2)
    (pad2 (page_fill k cs) ++ map_bytes (head_size k) cs ++ replicate (Z.to_nat (MAX_BLOCK_DATA - page_need k cs)) Byte.x00) p →
  closed_page client k cs' p.
Proof. intros E Hp. destruct (page_need_ext k _ _ E) as [E1 E2]. unfold closed_page. by rewrite E1, E2, (map_bytes_ext _ _ _ E). Qed.

(** ** What a builder stands for *)

(** The pages of allocations, the last one open; at most eight. *)
Record stands_paged (client : Z) (h : paged_heap) (css : list (list (list byte))) (cs : list (list byte)) : Prop := {
  sp_length : length (ph_closed h) = length css;
  sp_closed : ∀ k p c, ph_closed h !! k = Some p → css !! k = Some c → closed_page client k c p;
  sp_open : open_page client (length css) cs (ph_open h);
  sp_pages : (length css <= 7)%nat }.

(** The map from heap IDs to bytes. *)
Definition maps_pages (pages : list (list (list byte))) (m : gmap Z (list byte)) : Prop :=
  ∀ hid b, m !! hid = Some b ↔ ∃ k i c, pages !! k = Some c ∧ c !! i = Some b ∧ hid = hid_at k i.

Lemma maps_pages_new : maps_pages [[]] ∅.
Proof.
  intros hid b. rewrite lookup_empty. split; [done|]. intros ([|k] & i & c & Hk & Hi & _); [|by destruct k].
  injection Hk as <-. by rewrite lookup_nil in Hi.
Qed.

Lemma maps_pages_grow pages m : maps_pages pages m → maps_pages (pages ++ [[]]) m.
Proof.
  intros H hid b. rewrite (H hid b). split; intros (k & i & c & Hk & Hi & ->); exists k, i, c.
  - split_and!; [by apply lookup_app_l_Some|done|done].
  - apply lookup_app_Some in Hk as [Hk|[Hl Hk]]; [done|]. exfalso. destruct (k - length pages)%nat as [|j]; [|by destruct j].
    injection Hk as <-. by rewrite lookup_nil in Hi.
Qed.

Lemma maps_pages_set pages m k i c b :
  Forall (λ c, zlen c <= 2047) pages → maps_pages pages m → pages !! k = Some c → Z.of_nat i < 2047 →
  (i <= length c)%nat →
  maps_pages (<[k := if decide (i < length c)%nat then <[i := b]> c else c ++ [b]]> pages) (<[hid_at k i := b]> m) ∧
  m !! hid_at k i = c !! i.
Proof.
  intros Hf H Hk Hi Hic. rewrite Forall_lookup in Hf. pose proof (lookup_lt_Some _ _ _ Hk) as Hlt.
  assert (Hinj : ∀ k' i' c' b', pages !! k' = Some c' → c' !! i' = Some b' → hid_at k i = hid_at k' i' → k = k' ∧ i = i').
  { intros k' i' c' b' Hk' Hi' E. apply hid_at_inj; [done| |done]. apply lookup_lt_Some in Hi'. specialize (Hf _ _ Hk'). unfold zlen in Hf. lia. }
  split.
  - intros hid b'. destruct (decide (hid = hid_at k i)) as [->|Hne].
    + rewrite lookup_insert_eq. split.
      * intros [= <-]. exists k, i, (if decide (i < length c)%nat then <[i := b]> c else c ++ [b]). split_and!; [|case_decide|done].
        -- by rewrite list_lookup_insert_eq.
        -- by rewrite list_lookup_insert_eq.
        -- rewrite lookup_app_r by lia. by replace (i - length c)%nat with 0%nat by lia.
      * intros (k' & i' & c' & Hk' & Hi' & E).
        assert (Hi'2 : Z.of_nat i' < 2047).
        { destruct (decide (k' = k)) as [->|?]; [|rewrite list_lookup_insert_ne in Hk' by done; apply lookup_lt_Some in Hi'; specialize (Hf _ _ Hk'); unfold zlen in Hf; lia].
          rewrite list_lookup_insert_eq in Hk' by done. injection Hk' as <-. specialize (Hf _ _ Hk). unfold zlen in Hf.
          apply lookup_lt_Some in Hi'. case_decide; [rewrite length_insert in Hi'|rewrite length_app in Hi'; simpl in Hi']; lia. }
        apply hid_at_inj in E as [<- <-]; [|done..]. rewrite list_lookup_insert_eq in Hk' by done. injection Hk' as <-.
        case_decide; [by rewrite list_lookup_insert_eq in Hi' by done|].
        rewrite lookup_app_r in Hi' by lia. by replace (i - length c)%nat with 0%nat in Hi' by lia.
    + rewrite lookup_insert_ne by done. rewrite (H hid b'). split; intros (k' & i' & c' & Hk' & Hi' & ->).
      * destruct (decide (k' = k)) as [->|?]; [|exists k', i', c'; by rewrite list_lookup_insert_ne].
        assert (i' ≠ i) by (intros ->; done). rewrite Hk in Hk'. injection Hk' as <-.
        eexists k, i', _. split; [by rewrite list_lookup_insert_eq|]. split; [|done].
        case_decide; [by rewrite list_lookup_insert_ne|by apply lookup_app_l_Some].
      * destruct (decide (k' = k)) as [->|?]; [|exists k', i', c'; by rewrite list_lookup_insert_ne in Hk'].
        assert (i' ≠ i) by (intros ->; done). rewrite list_lookup_insert_eq in Hk' by done. injection Hk' as <-.
        exists k, i', c. split_and!; [done| |done]. case_decide; [by rewrite list_lookup_insert_ne in Hi'|].
        apply lookup_app_Some in Hi' as [Hi'|[Hl Hi']]; [done|]. destruct (i' - length c)%nat as [|j] eqn:E; [lia|]. by destruct j.
  - destruct (m !! hid_at k i) as [b'|] eqn:E.
    + apply H in E as (k' & i' & c' & Hk' & Hi' & E). destruct (Hinj _ _ _ _ Hk' Hi' E) as [<- <-]. congruence.
    + destruct (c !! i) as [b'|] eqn:Hb; [|done]. assert (m !! hid_at k i = Some b') as E' by (apply H; eauto 10). congruence.
Qed.

Lemma open_page_new client k : 0 <= client < 256 → open_page client k [] (match k with O => page0 client | _ => continuation end).
Proof.
  intros Hc. destruct k; split; try done; cbn [concat]; rewrite ?app_nil_r; done.
Qed.

Lemma projected_open client k cs p n : open_page client k cs p → 0 <= n →
  projected_len p n = page_need k (cs ++ [replicate (Z.to_nat n) Byte.x00]).
Proof.
  intros [Hd Ha Hh Hf Hc] Hn. rewrite app_nil_r in Hd. unfold projected_len, page_need, page_fill.
  rewrite Ha, Hd, concat_app, !zlen_app, zlen_page_head. cbn [concat]. rewrite app_nil_r, zlen_replicate, Z2Nat.id by lia.
  assert (zlen (spans (head_size k) cs) = zlen cs) as -> by (unfold zlen; by rewrite length_spans).
  change (zlen [_]) with 1. set (u := head_size k + _ + n). replace (head_size k + (zlen (concat cs) + n)) with u by lia.
  pose proof (Z.mod_pos_bound u 2 ltac:(lia)). destruct (Z.eqb_spec (u mod 2) 1); lia.
Qed.

Lemma page_need_len k cs b b' : zlen b = zlen b' → page_need k (cs ++ [b]) = page_need k (cs ++ [b']).
Proof. intros E. apply (page_need_ext k). rewrite !map_app. cbn [map]. by rewrite E. Qed.

Section builder.
Context (client : Z) (Hclient : 0 <= client < 256).

(** The bytes go to the open page when they fit it. *)
Lemma alloc_in_open_spec h css cs b :
  stands_paged client h css cs → hp_fits (ph_open h) (zlen b) = true →
  ∃ h', alloc_in_open h b = Ok (hid_at (length css) (length cs), h') ∧ stands_paged client h' css (cs ++ [b]).
Proof.
  intros [Hl Hcl Ho H7] Hfit. pose proof (zlen_nonneg b). pose proof (zlen_nonneg cs).
  unfold hp_fits in Hfit. apply andb_true_iff in Hfit as [Hn Hc]. rewrite (projected_open client _ cs _ _ Ho) in Hn by lia.
  rewrite (page_need_len _ _ _ b) in Hn by (rewrite zlen_replicate; lia). destruct Ho as [Hd Ha Hh Hf Hct].
  assert (Hs : zlen (hp_allocations (ph_open h)) = zlen cs) by (rewrite Ha; unfold zlen; by rewrite length_spans).
  rewrite Hs in Hc. bool_to_Z. unfold alloc_in_open. rewrite Hs, (proj2 (Z.leb_gt _ _)) by lia.
  assert (Hid : Z.lor (wrap 32 (Z.shiftl (wrap 32 (zlen (ph_closed h))) 16))
      (wrap 32 (Z.shiftl (wrap 32 (zlen (hp_allocations (ph_open h) ++ [(zlen (hp_data (ph_open h)), zlen (hp_data (ph_open h) ++ b))]))) 5))
    = hid_at (length css) (length cs)).
  { rewrite zlen_app, Hs. change (zlen [_]) with 1. unfold zlen at 1. rewrite Hl. unfold hid_at, zlen in *.
    rewrite (wrap_small 32 (Z.of_nat _)) by lia. rewrite (wrap_small 32 (Z.of_nat _ + 1)) by lia.
    rewrite !wrap_small by (rewrite Z.shiftl_mul_pow2 by lia; lia). rewrite lor_halves by (rewrite ?Z.shiftl_mul_pow2 by lia; lia).
    rewrite Z.shiftl_mul_pow2 by lia. lia. }
  rewrite Hid. eexists. split; [reflexivity|]. rewrite app_nil_r in Hd. split; cbn [ph_closed ph_open]; [done|done| |done].
  split; cbn [hp_data hp_allocations hp_header_size].
  - rewrite Hd, concat_app. cbn [concat]. by rewrite !app_nil_r, <-(assoc_L (++)).
  - rewrite Ha, Hd, spans_app, !zlen_app, zlen_page_head. done.
  - done.
  - done.
  - rewrite zlen_app. change (zlen [b]) with 1. lia.
Qed.

(** A full page is closed and an empty one opened, unless it would be a bitmap page. *)
Lemma start_new_page_spec h css cs : stands_paged client h css cs →
  if decide (length css = 7)%nat then start_new_page h = Err (HnBitmapPage 8)
  else ∃ h', start_new_page h = Ok h' ∧ stands_paged client h' (css ++ [cs]) [].
Proof.
  intros [Hl Hcl Ho H7]. unfold start_new_page, ph_pages.
  assert (Hz : zlen (ph_closed h ++ [ph_open h]) = Z.of_nat (length css) + 1) by (unfold zlen; rewrite length_app, Hl; simpl; lia).
  rewrite Hz. case_decide as Hd; [rewrite Hd; done|].
  assert (is_hn_bitmap_page (Z.of_nat (length css) + 1) = false) as ->.
  { unfold is_hn_bitmap_page. by rewrite (proj2 (Z.leb_gt _ _)) by lia. }
  rewrite (write_pagemap_spec client _ cs _ Ho), bind_ok. cbn [hp_data]. rewrite zlen_page_image.
  pose proof (po_fits _ _ _ _ _ _ Ho) as Hf. rewrite (proj2 (Z.ltb_ge _ _)) by done. eexists. split; [reflexivity|].
  split; cbn [ph_closed ph_open].
  - rewrite !length_app, Hl. done.
  - intros k p c Hk Hc. apply lookup_app_Some in Hk as [Hk|[Hk1 Hk]].
    + rewrite lookup_app_l in Hc by (apply lookup_lt_Some in Hk; lia). by apply (Hcl k).
    + rewrite Hl in *. rewrite lookup_app_r in Hc by done. destruct (k - length css)%nat as [|j] eqn:Ek; [|by destruct j].
      injection Hk as <-. injection Hc as <-. assert (k = length css) as -> by lia. split; cbn [resize_page hp_data hp_allocations hp_header_size]; [|done|done|done|apply Ho].
      unfold resize. rewrite zlen_page_image, sub_all by (rewrite zlen_page_image; done).
      unfold page_image. by rewrite <-!(assoc_L (++)).
  - rewrite length_app. simpl. rewrite Nat.add_1_r. by apply (open_page_new client (S (length css))).
  - rewrite length_app. simpl. lia.
Qed.

(** [try_alloc]: the open page, a fresh page, or one of the two documented refusals. *)
Lemma ph_try_alloc_spec h css cs b : stands_paged client h css cs →
  match ph_try_alloc h b with
  | Ok (hid, h') =>
      hid = hid_at (length css) (length cs) ∧ stands_paged client h' css (cs ++ [b]) ∨
      hid = hid_at (S (length css)) 0 ∧ stands_paged client h' (css ++ [cs]) [b]
  | Err (HnBitmapPage page) => page = 8 ∧ length css = 7%nat ∧ MAX_BLOCK_DATA < page_need 7 (cs ++ [b]) ∨ 2047 <= zlen cs
  | Err (HnAllocTooBig n) => n = zlen b ∧ MAX_BLOCK_DATA < page_need 1 [b]
  | _ => False
  end.
Proof.
  intros Hs. unfold ph_try_alloc. destruct (hp_fits (ph_open h) (zlen b)) eqn:Hfit.
  { destruct (alloc_in_open_spec h css cs b Hs Hfit) as (h' & -> & Hs'). by left. }
  pose proof (start_new_page_spec h css cs Hs) as Hn. case_decide as H7.
  { rewrite Hn. cbn. unfold hp_fits in Hfit. apply andb_false_iff in Hfit as [Hx|Hx].
    - left. split_and!; [done|done|]. pose proof (sp_open _ _ _ _ Hs) as Ho. rewrite H7 in Ho.
      rewrite (projected_open client 7 cs _ _ Ho) in Hx by apply zlen_nonneg. apply Z.leb_gt in Hx.
      by rewrite (page_need_len _ _ b (replicate (Z.to_nat (zlen b)) Byte.x00)) by (rewrite zlen_replicate; pose proof (zlen_nonneg b); lia).
    - right. rewrite (po_allocations _ _ _ _ _ _ (sp_open _ _ _ _ Hs)) in Hx. unfold zlen in *. rewrite length_spans in Hx. by apply Z.ltb_ge in Hx. }
  destruct Hn as (h1 & -> & Hs1). rewrite bind_ok. destruct (hp_fits (ph_open h1) (zlen b)) eqn:Hfit1.
  { destruct (alloc_in_open_spec h1 _ _ b Hs1 Hfit1) as (h' & -> & Hs'). right. rewrite length_app. simpl. by rewrite Nat.add_1_r. }
  split; [done|]. pose proof (sp_open _ _ _ _ Hs1) as Ho. unfold hp_fits in Hfit1.
  rewrite (po_allocations _ _ _ _ _ _ Ho), andb_true_r, (projected_open client _ [] _ _ Ho) in Hfit1 by apply zlen_nonneg.
  apply Z.leb_gt in Hfit1. rewrite (page_need_len _ [] _ b) in Hfit1 by (rewrite zlen_replicate; pose proof (zlen_nonneg b); lia).
  rewrite length_app, Nat.add_1_r in Hfit1. exact Hfit1.
Qed.

Lemma patch_paged_spec h css cs k i c a x d v :
  stands_paged client h css cs → (css ++ [cs]) !! k = Some c → c !! i = Some (a ++ x ++ d) → zlen x = 4 →
  ∃ h' css' cs', ph_patch_u32 h (hid_at k i) (zlen a) v = Ok h' ∧ stands_paged client h' css' cs' ∧
    css' ++ [cs'] = <[k := <[i := a ++ le_split 4 v ++ d]> c]> (css ++ [cs]).
Proof.
  intros [Hl Hcl Ho H7] Hk Hi Hx. pose proof (lookup_lt_Some _ _ _ Hk) as Hlt. rewrite length_app in Hlt. simpl in Hlt.
  assert (Hi' : Z.of_nat i < 2047).
  { apply lookup_lt_Some in Hi. apply lookup_app_Some in Hk as [Hk|[? Hk]].
    - destruct (lookup_lt_is_Some_2 (ph_closed h) k) as [p Hp]; [rewrite Hl; by apply lookup_lt_Some in Hk|].
      pose proof (po_count _ _ _ _ _ _ (Hcl k p c Hp Hk)). unfold zlen in *. lia.
    - destruct (k - length css)%nat as [|j]; [|by destruct j]. injection Hk as <-.
      pose proof (po_count _ _ _ _ _ _ Ho). unfold zlen in *. lia. }
  destruct (hid_at_fields k i ltac:(lia) ltac:(lia)) as (_ & Hx1 & Hx2 & Hr). unfold hid_index in Hx1.
  unfold ph_patch_u32. rewrite Hx1. replace (Z.max (Z.of_nat i + 1 - 1) 0) with (Z.of_nat i) by lia.
  assert (Z.to_nat (Z.shiftr (hid_at k i) 16) = k) as ->.
  { unfold hid_block_index in Hx2. rewrite Z.shiftr_div_pow2 in * by lia. unfold hid_at. change (2 ^ 16) with 65536.
    replace (65536 * Z.of_nat k + 32 * (Z.of_nat i + 1)) with (Z.of_nat k * 65536 + 32 * (Z.of_nat i + 1)) by lia.
    rewrite Z.div_add_l, Z.div_small by lia. lia. }
  apply lookup_app_Some in Hk as [Hk|[Hk1 Hk]].
  - destruct (lookup_lt_is_Some_2 (ph_closed h) k) as [p Hp]; [rewrite Hl; by apply lookup_lt_Some in Hk|]. rewrite Hp.
    destruct (patch_page_spec client k c _ _ p (hid_at k i) i a x d v (Hcl k p c Hp Hk) Hi Hx) as (Hlen & q & -> & Hq).
    apply (closed_page_ext client k c) in Hq; [|done]. rewrite bind_ok. eexists _, (<[k := _]> css), cs. split; [reflexivity|].
    pose proof (lookup_lt_Some _ _ _ Hk). split; [|by rewrite insert_app_l].
    split; cbn [ph_closed ph_open]; rewrite ?length_insert; try done. intros k' p' c' Hp' Hc'.
    destruct (decide (k' = k)) as [->|?].
    + rewrite list_lookup_insert_eq in Hp' by lia. rewrite list_lookup_insert_eq in Hc' by lia. by simplify_eq.
    + rewrite list_lookup_insert_ne in Hp' by done. rewrite list_lookup_insert_ne in Hc' by done. by apply (Hcl k').
  - destruct (k - length css)%nat as [|j] eqn:Ek; [|by destruct j]. injection Hk as <-. assert (k = length css) as -> by lia.
    rewrite lookup_ge_None_2, decide_True by lia.
    destruct (patch_page_spec client _ cs _ _ _ (hid_at (length css) i) i a x d v Ho Hi Hx) as (Hlen & q & -> & Hq).
    rewrite bind_ok. eexists _, css, _. split; [reflexivity|]. split; [by split|].
    rewrite insert_app_r_alt by done. by rewrite Nat.sub_diag.
Qed.
End builder.

(** ** Lawful heaps *)

Definition paged_stands (h : paged_heap) (m : gmap Z (list byte)) : Prop :=
  ∃ client css cs, 0 <= client < 256 ∧ stands_paged client h css cs ∧ maps_pages (css ++ [cs]) m.

Lemma stands_counts client h css cs : stands_paged client h css cs → Forall (λ c, zlen c <= 2047) (css ++ [cs]).
Proof.
  intros [Hl Hcl Ho _]. apply Forall_app. split; [|constructor; [apply (po_count _ _ _ _ _ _ Ho)|done]].
  apply Forall_lookup. intros k c Hc. destruct (lookup_lt_is_Some_2 (ph_closed h) k) as [p Hp]; [rewrite Hl; by apply lookup_lt_Some in Hc|].
  apply (po_count _ _ _ _ _ _ (Hcl k p c Hp Hc)).
Qed.

(** The map gains the allocation at the end of the last page. *)
Lemma maps_pages_alloc client h css cs b m :
  stands_paged client h css (cs ++ [b]) → maps_pages (css ++ [cs]) m →
  let hid := hid_at (length css) (length cs) in
  m !! hid = None ∧ hid_type hid = 0 ∧ 0 < hid < 2 ^ 32 ∧ maps_pages (css ++ [cs ++ [b]]) (<[hid := b]> m).
Proof.
  intros Hs Hm hid. pose proof (po_count _ _ _ _ _ _ (sp_open _ _ _ _ Hs)) as Hc. rewrite zlen_app in Hc. change (zlen [b]) with 1 in Hc.
  assert (Hi : Z.of_nat (length cs) < 2047) by (unfold zlen in Hc; lia). pose proof (sp_pages _ _ _ _ Hs).
  destruct (hid_at_fields (length css) (length cs) ltac:(lia) Hi) as (Ht & _ & _ & Hr).
  assert (Hf : Forall (λ c, zlen c <= 2047) (css ++ [cs])).
  { pose proof (stands_counts _ _ _ _ Hs) as Hf. apply Forall_app in Hf as [Hf _]. apply Forall_app. split; [done|]. constructor; [lia|done]. }
  destruct (maps_pages_set _ _ (length css) (length cs) cs b Hf Hm) as [H1 H2]; [by rewrite list_lookup_middle|done|lia|].
  rewrite decide_False in H1 by lia. rewrite insert_app_r_alt, Nat.sub_diag in H1 by lia. fold hid in H1, H2.
  split; [rewrite H2; apply lookup_ge_None_2; lia|]. split; [done|]. by split.
Qed.

#[export] Instance paged_heap_lawful : LawfulHeap paged_heap.
Proof.
  refine {| heap_stands := paged_stands |}.
  - intros h m b hid h' (client & css & cs & Hc & Hs & Hm) Ha. cbn in Ha.
    pose proof (ph_try_alloc_spec client Hc h css cs b Hs) as Hspec. rewrite Ha in Hspec. destruct Hspec as [[-> Hs']|[-> Hs']].
    + destruct (maps_pages_alloc _ _ _ _ _ _ Hs' Hm) as (? & ? & [? ?] & ?). split_and!; [done..|]. by exists client, css, (cs ++ [b]).
    + destruct (maps_pages_alloc client h' (css ++ [cs]) [] b m Hs') as (? & ? & [? ?] & ?); [by apply maps_pages_grow|].
      assert (Hl : length (css ++ [cs]) = S (length css)) by (rewrite length_app; simpl; lia).
      rewrite Hl in *. cbn [length] in *. split_and!; [done..|]. by exists client, (css ++ [cs]), [b].
  - intros h m hid a x c v (client & css & cs & Hc & Hs & Hm) Hh Hx. apply Hm in Hh as (k & i & d & Hk & Hi & ->).
    destruct (patch_paged_spec client h css cs k i d a x c v Hs Hk Hi Hx) as (h' & css' & cs' & Hp & Hs' & E).
    exists h'. split; [exact Hp|]. exists client, css', cs'. split; [done|]. split; [done|]. rewrite E.
    pose proof (stands_counts _ _ _ _ Hs) as Hf. rewrite Forall_lookup in Hf. pose proof (Hf _ _ Hk).
    pose proof (lookup_lt_Some _ _ _ Hi). destruct (maps_pages_set (css ++ [cs]) m k i d (a ++ le_split 4 v ++ c)) as [H1 _];
      [by apply Forall_lookup|done|done|unfold zlen in *; lia|lia|]. by rewrite decide_True in H1 by lia.
Defined.

Lemma paged_stands_new client : 0 <= client < 256 → heap_stands (ph_new client) ∅.
Proof.
  intros Hc. exists client, [], []. split; [done|]. split; [|apply maps_pages_new].
  split; [done|by intros k p c Hk|by apply (open_page_new client 0)|simpl; lia].
Qed.

(** No allocation is longer than a page. *)
Lemma paged_bounded h m hid b : heap_stands (H := paged_heap) h m → m !! hid = Some b → zlen b <= MAX_BLOCK_DATA.
Proof.
  intros (client & css & cs & _ & Hs & Hm) (k & i & c & Hk & Hi & _)%Hm.
  assert (Hneed : ∃ j, page_need j c <= MAX_BLOCK_DATA).
  { apply lookup_app_Some in Hk as [Hk|[_ Hk]].
    - destruct (lookup_lt_is_Some_2 (ph_closed h) k) as [p Hp]; [rewrite (sp_length _ _ _ _ Hs); by apply lookup_lt_Some in Hk|].
      exists k. apply (po_fits _ _ _ _ _ _ (sp_closed _ _ _ _ Hs k p c Hp Hk)).
    - destruct (k - length css)%nat as [|j]; [|by destruct j]. injection Hk as <-. exists (length css).
      apply (po_fits _ _ _ _ _ _ (sp_open _ _ _ _ Hs)). }
  destruct Hneed as [j Hj]. destruct (page_fill_bound _ _ Hj) as (? & ? & Hf & ?). unfold page_fill in Hf. pose proof (head_size_pos j).
  rewrite <-(take_drop_middle _ _ _ Hi), concat_app in Hf. cbn [concat] in Hf. rewrite !zlen_app in Hf.
  pose proof (zlen_nonneg (concat (take i c))). pose proof (zlen_nonneg (concat (drop (S i) c))). unfold MAX_BLOCK_DATA. lia.
Qed.

(** The one-page builder is lawful, too. *)
Definition single_stands (h : heap_builder) (m : gmap Z (list byte)) : Prop :=
  ∃ client cs, stands_for client h cs ∧ ∀ hid b, m !! hid = Some b ↔ ∃ i, cs !! i = Some b ∧ hid = 32 * (Z.of_nat i + 1).

#[export] Instance heap_builder_lawful : LawfulHeap heap_builder.
Proof.
  refine {| heap_stands := single_stands |}.
  - intros h m b hid h' (client & cs & Hs & Hm) Ha. destruct (try_alloc_spec client h cs b hid h' Hs Ha) as [Hid Hs'].
    pose proof (chunks_bound _ _ _ Hs) as [_ Hb]. pose proof (zlen_nonneg cs).
    assert (Hid' : hid = 32 * (Z.of_nat (length cs) + 1)) by (rewrite Hid; done). split_and!.
    + destruct (m !! hid) as [b'|] eqn:E; [|done]. apply Hm in E as (i & Hi & E). apply lookup_lt_Some in Hi. lia.
    + rewrite Hid. unfold hid_type. change 0x1F with (Z.ones 5). rewrite Z.land_ones by lia. rewrite Z.mul_comm. by rewrite Z.mod_mul.
    + lia.
    + lia.
    + exists client, (cs ++ [b]). split; [done|]. intros hid' b'. destruct (decide (hid' = hid)) as [->|Hne].
      * rewrite lookup_insert_eq. split.
        -- intros [= <-]. exists (length cs). by rewrite list_lookup_middle.
        -- intros (i & Hi & E). assert (i = length cs) as -> by lia. by rewrite list_lookup_middle in Hi by done.
      * rewrite lookup_insert_ne, Hm by done. split; intros (i & Hi & E); exists i.
        -- split; [by apply lookup_app_l_Some|done].
        -- split; [|done]. apply lookup_app_Some in Hi as [?|[? Hi]]; [done|]. destruct (i - length cs)%nat eqn:Ei; [|done]. lia.
  - intros h m hid a x c v (client & cs & Hs & Hm) Hh Hx. apply Hm in Hh as (i & Hi & ->).
    assert (Hcs : cs = take i cs ++ (a ++ x ++ c) :: drop (S i) cs) by (by rewrite take_drop_middle). pose proof (lookup_lt_Some _ _ _ Hi).
    assert (Hzi : zlen (take i cs) = Z.of_nat i) by (unfold zlen; rewrite length_take; lia).
    destruct (patch_spec client h (take i cs) a x c (drop (S i) cs) v) as (h' & Hp & Hs'); [by rewrite <-Hcs|done|].
    rewrite Hzi in Hp. exists h'. split; [exact Hp|]. rewrite <-insert_take_drop in Hs' by done. exists client, (<[i := a ++ le_split 4 v ++ c]> cs). split; [exact Hs'|].
    intros hid b. destruct (decide (hid = 32 * (Z.of_nat i + 1))) as [->|Hne].
    + rewrite lookup_insert_eq. split.
      * intros [= <-]. exists i. by rewrite list_lookup_insert_eq.
      * intros (j & Hj & E). assert (j = i) as -> by lia. by rewrite list_lookup_insert_eq in Hj by done.
    + rewrite lookup_insert_ne, Hm by done. split; intros (j & Hj & ->); exists j; (split; [|done]).
      * rewrite list_lookup_insert_ne; [done|]. intros ->. done.
      * rewrite list_lookup_insert_ne in Hj; [done|]. intros ->. done.
Defined.

(** ** The finalized pages *)

Section finalized.
Context (client root : Z) (Hclient : 0 <= client < 256) (Hroot : 0 <= root < 2 ^ 32).

Definition full_page (k : nat) (cs : list (list byte)) : list byte :=
  page_image client root k cs ++ replicate (Z.to_nat (MAX_BLOCK_DATA - page_need k cs)) Byte.x00.
Definition paged_image (css : list (list (list byte))) (cs : list (list byte)) : list byte :=
  concat (imap full_page css) ++ page_image client root (length css) cs.

Lemma closed_page_data k cs p : closed_page client k cs p →
  hp_data p = page_image client 0 k cs ++ replicate (Z.to_nat (MAX_BLOCK_DATA - page_need k cs)) Byte.x00 ∧ zlen (hp_data p) = MAX_BLOCK_DATA.
Proof.
  intros [Hd _ _ Hf _]. unfold page_image. rewrite <-!(assoc_L (++)). split; [exact Hd|].
  rewrite Hd, !zlen_app, zlen_page_head, zlen_pad2, zlen_map_bytes, zlen_replicate. unfold page_need, page_fill in *. lia.
Qed.

Lemma page_image_later k cs : page_image client 0 (S k) cs = page_image client root (S k) cs.
Proof. done. Qed.

Lemma put_root cs rest :
  put (page_image client 0 0 cs ++ rest) 4 (le_split 4 root) = Ok (page_image client root 0 cs ++ rest) :> wres _.
Proof.
  unfold page_image. cbn [page_head]. unfold WriterHeap.header_bytes. rewrite <-!(assoc_L (++)).
  set (f := page_fill 0 cs + page_fill 0 cs mod 2).
  change (le_split 2 f ++ (byte.of_Z 0xEC :: byte.of_Z client :: ?l)) with (le_split 2 f ++ [byte.of_Z 0xEC; byte.of_Z client] ++ l).
  rewrite (assoc_L (++) (le_split 2 f)), put_mid by (by rewrite ?zlen_app, !zlen_le_split). by rewrite <-!(assoc_L (++)).
Qed.

Lemma ph_finalize_spec h css cs : stands_paged client h css cs → ph_finalize h root = Ok (paged_image css cs).
Proof.
  intros [Hl Hcl Ho H7]. unfold ph_finalize. rewrite (write_pagemap_spec client _ cs _ Ho), bind_ok. cbn [hp_data].
  destruct (ph_closed h) as [|p ps] eqn:Hps; destruct css as [|c css]; try done.
  - unfold set_user_root, paged_image. cbn [imap concat app length hp_data]. pose proof (zlen_page_image client 0 0 cs).
    pose proof (zlen_nonneg cs). destruct (page_fill_bound _ _ (po_fits _ _ _ _ _ _ Ho)) as (? & ? & ? & ?).
    rewrite (proj2 (Z.leb_le _ _)) by (cbn [length] in *; unfold page_need in *; lia).
    rewrite <-(app_nil_r (page_image client 0 0 cs)), put_root. by rewrite app_nil_r.
  - destruct (closed_page_data 0 c p (Hcl 0%nat p c eq_refl eq_refl)) as [Hd Hz]. unfold set_user_root.
    rewrite (proj2 (Z.leb_le _ _)) by (rewrite Hz; done). rewrite Hd, put_root, bind_ok. unfold paged_image. cbn [imap].
    fold (full_page 0 c). cbn [concat length].
    assert (Hf0 : zlen (full_page 0 c) = MAX_BLOCK_DATA).
    { rewrite <-Hz, Hd. unfold full_page. by rewrite !zlen_app, !zlen_page_image. }
    unfold pad_page at 1. rewrite Hf0. cbn [Z.ltb Z.compare Pos.compare Pos.compare_cont MAX_BLOCK_DATA].
    assert (Hrest : map (λ p, pad_page (hp_data p)) ps = imap (λ k, full_page (S k)) css).
    { apply list_eq. intros k. change (map ?f ps) with (f <$> ps). rewrite list_lookup_fmap, list_lookup_imap.
      destruct (ps !! k) as [q|] eqn:Hq.
      - destruct (lookup_lt_is_Some_2 css k) as [c' Hc']; [injection Hl as <-; by apply lookup_lt_Some in Hq|]. rewrite Hc'. cbn.
        destruct (closed_page_data (S k) c' q (Hcl (S k) q c' Hq Hc')) as [Hd' Hz']. unfold pad_page. rewrite Hz'.
        cbn [Z.ltb Z.compare Pos.compare Pos.compare_cont MAX_BLOCK_DATA]. by rewrite Hd'.
      - apply lookup_ge_None in Hq. rewrite lookup_ge_None_2; [done|]. injection Hl as <-. done. }
    rewrite Hrest. by rewrite <-!(assoc_L (++)).
Qed.

Definition paged_heap_read (css : list (list (list byte))) (cs : list (list byte)) : heap :=
  {| heap_data := paged_image css cs; block_size := node_block_size (paged_image css cs);
     hn := {| ib_hnpm := match css with [] => page_fill 0 cs + page_fill 0 cs mod 2 | c :: _ => page_fill 0 c + page_fill 0 c mod 2 end;
              b_sig := 0xEC; b_client_sig := client; hid_user_root := root; rgb_fill_level := 0 |} |}.

Lemma zlen_full_page k cs : page_need k cs <= MAX_BLOCK_DATA → zlen (full_page k cs) = MAX_BLOCK_DATA.
Proof. intros Hf. unfold full_page. rewrite zlen_app, zlen_page_image, zlen_replicate. lia. Qed.

Section read.
Context (h : paged_heap) (css : list (list (list byte))) (cs : list (list byte)) (Hs : stands_paged client h css cs).

Lemma closed_fits k c : css !! k = Some c → page_need k c <= MAX_BLOCK_DATA.
Proof.
  intros Hc. destruct (lookup_lt_is_Some_2 (ph_closed h) k) as [p Hp]; [rewrite (sp_length _ _ _ _ Hs); by apply lookup_lt_Some in Hc|].
  apply (po_fits _ _ _ _ _ _ (sp_closed _ _ _ _ Hs k p c Hp Hc)).
Qed.

Lemma zlen_full_pages n : zlen (concat (take n (imap full_page css))) = MAX_BLOCK_DATA * Z.of_nat (Nat.min n (length css)).
Proof.
  assert (Hf : Forall (λ p, zlen p = MAX_BLOCK_DATA) (take n (imap full_page css))).
  { apply Forall_take, Forall_lookup. intros k p Hk. rewrite list_lookup_imap in Hk. destruct (css !! k) as [c|] eqn:Hc; [|done].
    injection Hk as <-. apply zlen_full_page. by apply closed_fits. }
  assert (Hlen : length (take n (imap full_page css)) = Nat.min n (length css)) by (by rewrite length_take, length_imap).
  rewrite <-Hlen. clear Hlen. induction Hf as [|p ps Hp _ IH]; [done|]. cbn [concat length]. rewrite zlen_app, Hp, IH. lia.
Qed.

Lemma zlen_paged_image : zlen (paged_image css cs) = MAX_BLOCK_DATA * Z.of_nat (length css) + page_need (length css) cs.
Proof.
  unfold paged_image. rewrite zlen_app, zlen_page_image. f_equal.
  rewrite <-(firstn_all2 (n := length css) (imap full_page css)) by (rewrite length_imap; lia). rewrite zlen_full_pages. lia.
Qed.

(** The bytes of page [k]: its image, behind it the padding. *)
Definition page_tail (k : nat) (c : list (list byte)) : list byte :=
  if decide (k < length css)%nat then replicate (Z.to_nat (MAX_BLOCK_DATA - page_need k c)) Byte.x00 else [].

Lemma paged_page k c : (css ++ [cs]) !! k = Some c →
  page_bytes (paged_heap_read css cs) (Z.of_nat k) = page_image client root k c ++ page_tail k c ∧
  Z.of_nat k * block_size (paged_heap_read css cs) < zlen (paged_image css cs).
Proof.
  intros Hk. pose proof zlen_paged_image as Hz. pose proof (sp_open _ _ _ _ Hs) as Ho.
  destruct (page_fill_bound _ _ (po_fits _ _ _ _ _ _ Ho)) as (? & ? & ? & ?). pose proof (po_fits _ _ _ _ _ _ Ho) as Hfit.
  assert (8 <= page_need (length css) cs) by (unfold page_need; lia).
  unfold page_bytes, page_tail, paged_heap_read. cbn [heap_data block_size]. unfold node_block_size. rewrite Hz.
  apply lookup_app_Some in Hk as [Hk|[Hk1 Hk]].
  - pose proof (lookup_lt_Some _ _ _ Hk) as Hlt. rewrite (proj2 (Z.leb_gt _ _)) by (unfold MAX_BLOCK_DATA in *; lia).
    rewrite decide_True by done. split; [|unfold MAX_BLOCK_DATA in *; lia].
    rewrite Z.min_l by (unfold MAX_BLOCK_DATA in *; lia).
    assert (Hi : imap full_page css !! k = Some (full_page k c)) by (by rewrite list_lookup_imap, Hk).
    unfold paged_image. rewrite <-(take_drop_middle _ _ _ Hi), concat_app. cbn [concat]. rewrite <-!(assoc_L (++)).
    rewrite (sub_mid (concat (take k (imap full_page css))) (full_page k c)); [done| |].
    + rewrite zlen_full_pages, Nat.min_l by lia. lia.
    + rewrite zlen_full_page by (by apply closed_fits). lia.
  - destruct (k - length css)%nat as [|j] eqn:Ek; [|by destruct j]. injection Hk as <-. assert (k = length css) as -> by lia.
    rewrite decide_False by lia. rewrite app_nil_r. unfold paged_image.
    assert (Hb : Z.of_nat (length css) * (if MAX_BLOCK_DATA * Z.of_nat (length css) + page_need (length css) cs <=? MAX_BLOCK_DATA
        then MAX_BLOCK_DATA * Z.of_nat (length css) + page_need (length css) cs else MAX_BLOCK_DATA) = MAX_BLOCK_DATA * Z.of_nat (length css)).
    { destruct (Z.leb_spec (MAX_BLOCK_DATA * Z.of_nat (length css) + page_need (length css) cs) MAX_BLOCK_DATA); [|lia].
      assert (length css = 0%nat) as -> by (unfold MAX_BLOCK_DATA in *; lia). lia. }
    rewrite Hb. split; [|lia]. rewrite Z.min_r by (destruct (_ <=? MAX_BLOCK_DATA); unfold MAX_BLOCK_DATA in *; lia).
    rewrite <-(app_nil_r (page_image client root (length css) cs)) at 1. rewrite (sub_mid _ (page_image client root (length css) cs)); [done| |].
    + rewrite <-(firstn_all2 (n := length css) (imap full_page css)) by (rewrite length_imap; lia). rewrite zlen_full_pages. lia.
    + rewrite zlen_page_image. lia.
Qed.

Lemma paged_front : ∃ c rest, (css ++ [cs]) !! 0%nat = Some c ∧
  paged_image css cs = WriterHeap.header_bytes (page_fill 0 c + page_fill 0 c mod 2) client root ++ rest.
Proof.
  unfold paged_image. destruct css as [|c css']; eexists _, _; (split; [reflexivity|]); cbn [imap concat app length].
  - unfold page_image. cbn [page_head]. reflexivity.
  - unfold full_page at 1, page_image at 1. cbn [page_head]. by rewrite <-!(assoc_L (++)).
Qed.

Lemma page_fits_block k c : (css ++ [cs]) !! k = Some c → page_need k c <= MAX_BLOCK_DATA.
Proof.
  intros Hk. apply lookup_app_Some in Hk as [Hk|[Hk1 Hk]]; [by apply closed_fits|].
  destruct (k - length css)%nat as [|j] eqn:Ek; [|by destruct j]. injection Hk as <-. assert (k = length css) as -> by lia.
  apply (po_fits _ _ _ _ _ _ (sp_open _ _ _ _ Hs)).
Qed.

Lemma paged_parses : heap_parse (paged_image css cs) (node_block_size (paged_image css cs)) = Ok (paged_heap_read css cs).
Proof.
  destruct paged_front as (c & rest & Hc & Hd). pose proof (page_fits_block 0 c Hc) as Hf.
  destruct (page_fill_bound _ _ Hf) as (? & ? & ? & ?). pose proof (zlen_nonneg rest).
  assert (Hz : zlen (paged_image css cs) = 12 + zlen rest) by (by rewrite Hd, zlen_app, zlen_header).
  unfold heap_parse, paged_heap_read. rewrite (proj2 (Z.ltb_ge _ _)) by lia.
  assert (Hn : match css with [] => page_fill 0 cs + page_fill 0 cs mod 2 | c :: _ => page_fill 0 c + page_fill 0 c mod 2 end
    = page_fill 0 c + page_fill 0 c mod 2) by (destruct css; by injection Hc as <-). rewrite Hn.
  set (f := page_fill 0 c + page_fill 0 c mod 2) in *. unfold WriterHeap.header_bytes in Hd. rewrite <-!(assoc_L (++)) in Hd.
  set (d := paged_image css cs) in *.
  assert (le_at d 0 2 = Ok f :> pres _) as -> by (rewrite Hd; apply le_at_front; unfold f; enc).
  assert (index d 2 = Ok 0xEC :> pres _) as -> by (rewrite Hd; reflexivity).
  assert (index d 3 = Ok client :> pres _) as ->.
  { rewrite Hd. transitivity (Ok (u8 (byte.of_Z client)) : pres Z); [reflexivity|]. f_equal. unfold u8.
    rewrite byte.unsigned_of_Z. unfold byte.wrap. by rewrite Z.mod_small. }
  assert (le_at d 4 4 = Ok root :> pres _) as ->.
  { rewrite Hd, (assoc_L (++) (le_split 2 f)). apply le_at_mid; enc. }
  assert (le_at d 8 4 = Ok 0 :> pres _) as ->.
  { rewrite Hd, (assoc_L (++) (le_split 2 f)), (assoc_L (++) (_ ++ _) (le_split 4 root)). apply le_at_mid; enc. }
  done.
Qed.

Lemma paged_get k i c b : (css ++ [cs]) !! k = Some c → c !! i = Some b → heap_get (paged_heap_read css cs) (hid_at k i) = Ok b.
Proof.
  intros Hk Hi. pose proof (stands_counts _ _ _ _ Hs) as Hct. rewrite Forall_lookup in Hct. specialize (Hct _ _ Hk).
  pose proof (lookup_lt_Some _ _ _ Hi). pose proof (lookup_lt_Some _ _ _ Hk) as Hlt. rewrite length_app in Hlt. simpl in Hlt.
  pose proof (sp_pages _ _ _ _ Hs). pose proof (page_fits_block k c Hk) as Hf. destruct (page_fill_bound _ _ Hf) as (? & ? & ? & ?).
  destruct (hid_at_fields k i ltac:(lia) ltac:(unfold zlen in Hct; lia)) as (Ht & Hx & Hb & Hr).
  destruct (paged_page k c Hk) as [Hpage Hin]. destruct (paged_page 0 (default [] ((css ++ [cs]) !! 0%nat))) as [_ Hin0].
  { by destruct css. }
  assert (Hwf : heap_wf (paged_heap_read css cs)).
  { refine (heap_parse_wf _ _ _ _ paged_parses).
    unfold node_block_size. destruct paged_front as (c0 & rest & _ & Hd). pose proof (zlen_nonneg rest).
    assert (zlen (paged_image css cs) = 12 + zlen rest) as -> by (by rewrite Hd, zlen_app, zlen_header).
    case_match; unfold MAX_BLOCK_DATA in *; lia. }
  rewrite (heap_get_unfold _ Hwf); rewrite ?Hb.
  - rewrite Hpage. assert (Hz : 2 <= zlen (page_image client root k c ++ page_tail k c)).
    { rewrite zlen_app, zlen_page_image. pose proof (zlen_nonneg (page_tail k c)). unfold page_need. lia. }
    rewrite (proj2 (Z.ltb_ge _ _) Hz), andb_false_r.
    assert (Hm : page_map (paged_heap_read css cs) (Z.of_nat k) = zlen (page_head client root (page_fill k c + page_fill k c mod 2) k ++ concat c ++ pad2 (page_fill k c))).
    { rewrite !zlen_app, zlen_page_head, zlen_pad2. unfold page_map. rewrite Hpage. destruct k as [|k]; cbn [Z.of_nat Z.eqb].
      - cbn [paged_heap_read hn ib_hnpm]. unfold page_fill. destruct css; injection Hk as <-; change (Z.of_nat 0 =? 0) with true; cbn [head_size]; lia.
      - unfold page_image. cbn [page_head]. rewrite <-(assoc_L (++)). change (?a ++ ?r) with ([] ++ a ++ r) at 1.
        rewrite (proj2 (Z.eqb_neq _ _)) by lia. rewrite (le_val_mid [] 2); [unfold page_fill; lia|change (8 * Z.of_nat 2) with 16; lia|done|done]. }
    rewrite Hm. unfold page_image. rewrite <-!(assoc_L (++)).
    rewrite <-(zlen_page_head client root (page_fill k c + page_fill k c mod 2) k).
    apply (get_slot _ _ _ _ _ i); [done|done|lia|rewrite zlen_page_head; unfold page_fill in *; lia].
  - apply Z.eqb_neq. lia.
  - done.
  - lia.
  - exact Hin.
Qed.
End read.
End finalized.

(** Finalized, a lawful paged heap is a heap whose every ID reads back its bytes. *)
Lemma ph_finalize_reads h m root :
  heap_stands h m → 0 <= root < 2 ^ 32 →
  ∃ data hp, ph_finalize h root = Ok data ∧ heap_parse data (node_block_size data) = Ok hp ∧ hid_user_root (hn hp) = root ∧
    zlen data <= 8 * MAX_BLOCK_DATA ∧ ∀ hid b, m !! hid = Some b → heap_get hp hid = Ok b.
Proof.
  intros (client & css & cs & Hc & Hs & Hm) Hr. exists (paged_image client root css cs), (paged_heap_read client root css cs).
  split; [by apply (ph_finalize_spec client root h)|]. split; [by apply (paged_parses client root Hc Hr h)|]. split; [done|]. split.
  - rewrite (zlen_paged_image client root h css cs Hs). pose proof (sp_pages _ _ _ _ Hs).
    pose proof (po_fits _ _ _ _ _ _ (sp_open _ _ _ _ Hs)). unfold MAX_BLOCK_DATA in *. lia.
  - intros hid b (k & i & c & Hk & Hi & ->)%Hm. by apply (paged_get client root Hc Hr h css cs Hs k i c).
Qed.
