(* ===== verification/WriterTable.v ===== *)
(** * Table contexts of the writer (pst-writer/src/production.rs)

    Column schemas and row layout, the tables that sit in one heap page
    ([build_tc_inline_checked]), and the attachment and recipient tables of a
    message, whose row matrix and large cells live in subnodes of their own. *)

From S2P Require Import Prelude PstError Header Utf PropContext TableContext Folder Text WriterHeap NamedPropMap Layout DataChain PagedHeap.
#[local] Open Scope Z_scope.

(** ** Columns *)

Definition PTYP_INTEGER_64 : Z := 0x0014.
Definition PTYP_MULTIPLE_INTEGER_32 : Z := 0x1003.

(** [TcColType] *)
Inductive tc_col_type := ColI32 | ColI64 | ColBool | ColTime | ColStringRef | ColBinaryRef | ColMultiI32Ref.

(** [TcColType::width], [TcColType::prop_type] *)
Definition col_width (t : tc_col_type) : Z :=
  match t with ColI64 | ColTime => 8 | ColI32 | ColStringRef | ColBinaryRef | ColMultiI32Ref => 4 | ColBool => 1 end.
Definition col_prop_type (t : tc_col_type) : Z :=
  match t with
  | ColI32 => PTYP_INTEGER_32 | ColI64 => PTYP_INTEGER_64 | ColBool => PTYP_BOOLEAN | ColTime => PTYP_TIME
  | ColStringRef => PTYP_STRING | ColBinaryRef => PTYP_BINARY | ColMultiI32Ref => PTYP_MULTIPLE_INTEGER_32
  end.

(** The numbering loop of [build_template_tc_columns]; a [TcColumnTuple] has the
    fields of the reader's column descriptor. *)
Fixpoint number_columns (specs : list (Z * tc_col_type)) (idx offset : Z) : list tc_column * Z :=
  match specs with
  | [] => ([], offset)
  | (tag, ty) :: specs =>
      let width := col_width ty in
      let rest := number_columns specs (idx + 1) (offset + width) in
      ({| prop_id := tag; prop_type := col_prop_type ty; ib_data := offset; cb_data := width; i_bit := wrap 8 idx |} :: rest.1, rest.2)
  end.

(** [build_template_tc_columns]: columns by width, and the row width with the bitmap. *)
Definition build_template_tc_columns (specs : list (Z * tc_col_type)) : list tc_column * Z :=
  let group w := base.filter (λ s, col_width s.2 = w) specs in
  let group1 := base.filter (λ s, col_width s.2 ≠ 8 ∧ col_width s.2 ≠ 4) specs in
  let '(columns, offset) := number_columns (group 8 ++ group 4 ++ group1) 0 0 in
  let bitmap_bytes := (zlen specs + 7) / 8 in
  (columns, offset + bitmap_bytes).

(** The bytes of a TCINFO without its two heap IDs, which are patched. *)
Definition column_bytes (c : tc_column) : list byte :=
  le_split 2 (prop_id c) ++ le_split 2 (prop_type c) ++ le_split 2 (ib_data c) ++ [byte.of_Z (cb_data c); byte.of_Z (i_bit c)].
Definition tcinfo_bytes (columns : list tc_column) (total_row_width row_index rows : Z) : list byte :=
  [byte.of_Z 0x7C; byte.of_Z (wrap 8 (zlen columns))] ++ le_split 2 0 ++ le_split 2 0 ++ le_split 2 0 ++
  le_split 2 total_row_width ++ le_split 4 row_index ++ le_split 4 rows ++ (c ← columns; column_bytes c).

(** [build_tc_inline_checked_sized], [build_tc_inline_checked] *)
Definition build_tc_inline_checked_sized (h : heap_builder) (columns : list tc_column) (rows : list (list byte))
    (total_row_width : Z) : wres (Z * heap_builder) :=
  tcinfo ← hb_try_alloc h (tcinfo_bytes columns total_row_width 0 0);
  hid_rows ← hb_try_alloc tcinfo.2 (concat rows);
  h ← hb_patch_u32 hid_rows.2 tcinfo.1 14 hid_rows.1;
  Ok (tcinfo.1, h).
Definition build_tc_inline_checked (h : heap_builder) (columns : list tc_column) (rows : list (list byte)) : wres (Z * heap_builder) :=
  build_tc_inline_checked_sized h columns rows (match rows with [] => 0 | r :: _ => wrap 16 (zlen r) end).

(** ** Schemas *)

Definition PID_TAG_ATTACH_SIZE : Z := 0x0E20.
Definition PID_TAG_ATTACH_FILENAME : Z := 0x3704.
Definition PID_TAG_ATTACH_METHOD : Z := 0x3705.
Definition PID_TAG_RENDERING_POSITION : Z := 0x370B.
Definition PID_TAG_LTP_ROW_VER : Z := 0x67F3.
Definition PID_TAG_RECIPIENT_TYPE : Z := 0x0C15.
Definition PID_TAG_RESPONSIBILITY : Z := 0x0E0F.
Definition PID_TAG_RECORD_KEY : Z := 0x0FF9.
Definition PID_TAG_OBJECT_TYPE : Z := 0x0FFE.
Definition PID_TAG_ENTRY_ID : Z := 0x0FFF.
Definition PID_TAG_ADDRESS_TYPE : Z := 0x3002.
Definition PID_TAG_EMAIL_ADDRESS : Z := 0x3003.
Definition PID_TAG_SEARCH_KEY : Z := 0x300B.
Definition PID_TAG_DISPLAY_TYPE : Z := 0x3900.
Definition PID_TAG_SMTP_ADDRESS : Z := 0x39FE.
Definition PID_TAG_7BIT_DISPLAY_NAME : Z := 0x39FF.
Definition PID_TAG_SEND_RICH_INFO : Z := 0x3A40.
Definition MAPI_MAILUSER : Z := 6.
Definition DT_MAILUSER : Z := 0.
Definition MAX_HEAP_VALUE_SIZE : Z := 2048.

Definition HIERARCHY_TABLE_TEMPLATE_COLUMNS : list (Z * tc_col_type) := [
  (0x0E30, ColI32); (0x0E33, ColI64); (0x0E34, ColBinaryRef); (0x0E38, ColI32); (0x3001, ColStringRef);
  (0x3602, ColI32); (0x3603, ColI32); (0x360A, ColBool); (0x3613, ColBinaryRef); (0x6635, ColI32);
  (0x6636, ColI32); (0x67F2, ColI32); (0x67F3, ColI32)].
Definition CONTENTS_TABLE_TEMPLATE_COLUMNS : list (Z * tc_col_type) := [
  (0x0017, ColI32); (0x001A, ColStringRef); (0x0036, ColI32); (0x0037, ColStringRef); (0x0039, ColTime);
  (0x0042, ColStringRef); (0x0057, ColBool); (0x0058, ColBool); (0x0070, ColStringRef); (0x0071, ColBinaryRef);
  (0x0E03, ColStringRef); (0x0E04, ColStringRef); (0x0E06, ColTime); (0x0E07, ColI32); (0x0E08, ColI32);
  (0x0E17, ColI32); (0x0E30, ColI32); (0x0E33, ColI64); (0x0E34, ColBinaryRef); (0x0E38, ColI32);
  (0x0E3C, ColBinaryRef); (0x0E3D, ColBinaryRef); (0x1097, ColI32); (0x3008, ColTime); (0x65C6, ColI32);
  (0x67F2, ColI32); (0x67F3, ColI32)].
Definition ASSOC_CONTENTS_TABLE_TEMPLATE_COLUMNS : list (Z * tc_col_type) := [
  (0x001A, ColStringRef); (0x0E07, ColI32); (0x0E17, ColI32); (0x3001, ColStringRef); (0x67F2, ColI32);
  (0x67F3, ColI32); (0x6800, ColStringRef); (0x6803, ColBool); (0x6805, ColMultiI32Ref); (0x7003, ColI32);
  (0x7004, ColBinaryRef); (0x7005, ColBinaryRef); (0x7006, ColStringRef); (0x7007, ColI32)].
Definition SEARCH_CONTENTS_TABLE_TEMPLATE_COLUMNS : list (Z * tc_col_type) := [
  (0x0017, ColI32); (0x001A, ColStringRef); (0x0036, ColI32); (0x0E07, ColI32); (0x0E17, ColI32);
  (0x0037, ColStringRef); (0x0042, ColStringRef); (0x0057, ColBool); (0x0E03, ColStringRef); (0x0E04, ColStringRef);
  (0x0E05, ColStringRef); (0x0E06, ColTime); (0x0E08, ColI32); (0x0E2A, ColBool); (0x3008, ColTime);
  (0x67F1, ColI32); (0x67F2, ColI32); (0x67F3, ColI32)].
Definition ATTACHMENT_TABLE_COLUMNS : list (Z * tc_col_type) := [
  (PID_TAG_ATTACH_SIZE, ColI32); (PID_TAG_ATTACH_FILENAME, ColStringRef); (PID_TAG_ATTACH_METHOD, ColI32);
  (PID_TAG_RENDERING_POSITION, ColI32); (PID_TAG_LTP_ROW_ID, ColI32); (PID_TAG_LTP_ROW_VER, ColI32)].
Definition RECIPIENT_TABLE_COLUMNS : list (Z * tc_col_type) := [
  (PID_TAG_RECIPIENT_TYPE, ColI32); (PID_TAG_RESPONSIBILITY, ColBool); (PID_TAG_RECORD_KEY, ColBinaryRef);
  (PID_TAG_OBJECT_TYPE, ColI32); (PID_TAG_ENTRY_ID, ColBinaryRef); (PID_TAG_DISPLAY_NAME, ColStringRef);
  (PID_TAG_ADDRESS_TYPE, ColStringRef); (PID_TAG_EMAIL_ADDRESS, ColStringRef); (PID_TAG_SEARCH_KEY, ColBinaryRef);
  (PID_TAG_DISPLAY_TYPE, ColI32); (PID_TAG_SMTP_ADDRESS, ColStringRef); (PID_TAG_7BIT_DISPLAY_NAME, ColStringRef);
  (PID_TAG_SEND_RICH_INFO, ColBool); (PID_TAG_LTP_ROW_ID, ColI32); (PID_TAG_LTP_ROW_VER, ColI32)].

Example recipient_layout :
  (build_template_tc_columns RECIPIENT_TABLE_COLUMNS).2 = 56 ∧
  map (λ c, (prop_id c, ib_data c)) (drop 12 (build_template_tc_columns RECIPIENT_TABLE_COLUMNS).1)
  = [(PID_TAG_LTP_ROW_VER, 48); (PID_TAG_RESPONSIBILITY, 52); (PID_TAG_SEND_RICH_INFO, 53)].
Proof. vm_compute. split; reflexivity. Qed.

(** ** Cells of the message tables *)

(** [next_subnode_nid] and [next_attach_nid]: the counter is a [u32]. *)
Definition next_counter (counter : Z) : Z := wrap 32 (counter + 1).
Definition subnode_nid (counter : Z) : Z := Z.lor (Z.shiftl counter 5) 0x1F.
Definition NID_TYPE_ATTACHMENT : Z := 0x05.
Definition attach_nid_of (counter : Z) : Z := Z.lor (Z.shiftl counter 5) NID_TYPE_ATTACHMENT.

(** What a table builder threads: the heap, the layout, the subnodes of the table. *)
Record table_state := {
  ts_heap : paged_heap; ts_layout : layout; ts_counter : Z; ts_subs : list (Z * Z * Z); ts_extra : Z }.

Section tables.
Context `{Crc : Crc32}.

(** [alloc_tc_value]: on the heap, or in a subnode when larger than 2048 bytes. *)
Definition alloc_tc_value (s : table_state) (bytes : list byte) : wres (Z * table_state) :=
  if MAX_HEAP_VALUE_SIZE <? zlen bytes then
    let counter := next_counter (ts_counter s) in
    let nid := subnode_nid counter in
    w ← write_data_chain (ts_layout s) bytes;
    Ok (wrap 32 nid,
        {| ts_heap := ts_heap s; ts_layout := w.2; ts_counter := counter; ts_subs := ts_subs s ++ [(nid, w.1, 0)];
           ts_extra := U64_SAT_ADD (ts_extra s) (zlen bytes) |})
  else
    a ← ph_try_alloc (ts_heap s) bytes;
    Ok (a.1, {| ts_heap := a.2; ts_layout := ts_layout s; ts_counter := ts_counter s; ts_subs := ts_subs s; ts_extra := ts_extra s |}).

(** [copy_col_bytes]: up to four bytes into a cell, with the bounds checked. *)
Definition copy_col_bytes (row : list byte) (ib cb : Z) (bytes : list byte) : wres (list byte) :=
  if (zlen row <? ib + cb) || (zlen bytes <? cb) then Err (ColumnOutOfRow ib cb (zlen row))
  else put row ib (sub bytes 0 cb).

(** [row[bitmap_start + bit / 8] |= 1u8 << (bit % 8)] for one column. *)
Definition set_present (bitmap_start : Z) (row : list byte) (c : tc_column) : wres (list byte) :=
  let at_ := bitmap_start + i_bit c / 8 in
  b ← index row at_;
  put row at_ [byte.of_Z (Z.lor b (Z.shiftl 1 (i_bit c mod 8)))].

(** ** The attachment table *)

(** A row of the attachment table: NID, size, method, file name. *)
Record attach_row := { ar_nid : Z; ar_size : Z; ar_method : Z; ar_filename : rstring }.

(** The value of a column of row [i], and the cell. *)
Definition attach_cell (row_width : Z) (r : attach_row) (i : nat) (fname_hid : Z) (row : list byte) (c : tc_column) : wres (list byte) :=
  bytes ← (if prop_id c =? PID_TAG_ATTACH_SIZE then Ok (le_split 4 (ar_size r))
           else if prop_id c =? PID_TAG_ATTACH_FILENAME then Ok (le_split 4 fname_hid)
           else if prop_id c =? PID_TAG_ATTACH_METHOD then Ok (le_split 4 (wrap 32 (ar_method r)))
           else if prop_id c =? PID_TAG_RENDERING_POSITION then Ok (le_split 4 0xFFFFFFFF)
           else if prop_id c =? PID_TAG_LTP_ROW_ID then Ok (le_split 4 (wrap 32 (ar_nid r)))
           else if prop_id c =? PID_TAG_LTP_ROW_VER then Ok (le_split 4 (wrap 32 (wrap 32 (Z.of_nat i) + 1)))
           else Err (UnexpectedColumn (prop_id c)));
  if (row_width <? ib_data c + cb_data c) || (4 <? cb_data c) then Err (ColumnOutOfRow (ib_data c) (cb_data c) row_width)
  else put row (ib_data c) (sub bytes 0 (cb_data c)).

(** One iteration of the row loop: the matrix, the RowIndex records and the state. *)
Definition attach_row_bytes (columns : list tc_column) (row_width : Z) (r : attach_row) (i : nat) (fname_hid : Z) : wres (list byte) :=
  row ← mfold (attach_cell row_width r i fname_hid) columns (replicate (Z.to_nat row_width) Byte.x00);
  mfold (set_present (row_width - (zlen columns + 7) / 8)) columns row.
Definition add_attach_row (columns : list tc_column) (row_width : Z)
    (acc : list (list byte) * list (Z * list byte) * table_state) (ir : nat * attach_row)
    : wres (list (list byte) * list (Z * list byte) * table_state) :=
  let '(matrix, records, s) := acc in
  let '(i, r) := ir in
  v ← alloc_tc_value s (utf16le_bytes (ar_filename r));
  row ← attach_row_bytes columns row_width r i v.1;
  Ok (matrix ++ [row], records ++ [(wrap 32 (ar_nid r), le_split 4 (wrap 32 (Z.of_nat i)))], v.2).

(** [AttachmentTableBuilt], [RecipientTableBuilt] *)
Record table_built := { tb_heap : list byte; tb_bid_sub : Z; tb_extra : Z }.

Definition empty_table_state (ly : layout) : table_state :=
  {| ts_heap := ph_new 0xBC; ts_layout := ly; ts_counter := 0; ts_subs := []; ts_extra := 0 |}.

(** The common end of both builders: the TCINFO, the row matrix in its subnode, the
    SLBLOCK of the table. *)
Definition finish_table (s : table_state) (hid_tcinfo : Z) (row_matrix : list byte) (row_width : Z) : wres (table_built * layout) :=
  m ← write_row_matrix_tree (ts_layout s) row_matrix row_width;
  let '(matrix_bid, matrix_bytes, ly) := m in
  let extra := U64_SAT_ADD (ts_extra s) matrix_bytes in
  let counter := next_counter (ts_counter s) in
  let matrix_nid := subnode_nid counter in
  h ← ph_patch_u32 (ts_heap s) hid_tcinfo 14 (wrap 32 matrix_nid);
  sub ← add_subnode_leaf ly (ts_subs s ++ [(matrix_nid, matrix_bid, 0)]);
  data ← ph_finalize h hid_tcinfo;
  Ok ({| tb_heap := data; tb_bid_sub := sub.1; tb_extra := extra |}, sub.2).

(** The TCINFO, with the RowIndex patched in. *)
Definition place_tcinfo (s : table_state) (columns : list tc_column) (row_width hid_row_index : Z) : wres (Z * table_state) :=
  t ← ph_try_alloc (ts_heap s) (tcinfo_bytes columns row_width 0 0);
  h ← ph_patch_u32 t.2 t.1 10 hid_row_index;
  Ok (t.1, {| ts_heap := h; ts_layout := ts_layout s; ts_counter := ts_counter s; ts_subs := ts_subs s; ts_extra := ts_extra s |}).

Definition with_heap (s : table_state) (h : paged_heap) : table_state :=
  {| ts_heap := h; ts_layout := ts_layout s; ts_counter := ts_counter s; ts_subs := ts_subs s; ts_extra := ts_extra s |}.

(** [build_attachment_table_strategy_a] *)
Definition build_attachment_table_strategy_a (ly : layout) (rows : list attach_row) : wres (table_built * layout) :=
  match rows with
  | [] => Err NoAttachmentRows
  | _ =>
      let '(columns, total_row_width) := build_template_tc_columns ATTACHMENT_TABLE_COLUMNS in
      if total_row_width =? 0 then Err RowWidthZero
      else
        acc ← mfold (add_attach_row columns total_row_width) (zip (seq 0 (length rows)) rows) ([], [], empty_table_state ly);
        let '(matrix, records, s) := acc in
        index ← build_bth_u32_checked (ts_heap s) 4 4 records;
        t ← place_tcinfo (with_heap s index.2) columns total_row_width index.1;
        finish_table t.2 t.1 (concat matrix) total_row_width
  end.

(** ** The recipient table *)

(** A cell of the recipient table: what the column receives from the row. *)
Record recipient_cells := {
  rc_type : Z; rc_record_key : Z; rc_entry_id : Z; rc_display : Z; rc_addr_type : Z; rc_email : Z;
  rc_search_key : Z; rc_smtp : option Z; rc_seven : Z; rc_row_id : Z; rc_row_ver : Z }.

(** One column of a row; the second component collects the columns that are present. *)
Definition recipient_cell (v : recipient_cells) (acc : list byte * list tc_column) (c : tc_column) : wres (list byte * list tc_column) :=
  let '(row, present) := acc in
  let copy bytes := r ← copy_col_bytes row (ib_data c) (cb_data c) bytes; Ok (r, present ++ [c]) in
  let flag b := if cb_data c <? 1 then Err (ColumnOutOfRow (ib_data c) (cb_data c) (zlen row))
                else r ← put row (ib_data c) [b]; Ok (r, present ++ [c]) in
  if prop_id c =? PID_TAG_RECIPIENT_TYPE then copy (le_split 4 (rc_type v))
  else if prop_id c =? PID_TAG_RESPONSIBILITY then flag Byte.x01
  else if prop_id c =? PID_TAG_RECORD_KEY then copy (le_split 4 (rc_record_key v))
  else if prop_id c =? PID_TAG_OBJECT_TYPE then copy (le_split 4 MAPI_MAILUSER)
  else if prop_id c =? PID_TAG_ENTRY_ID then copy (le_split 4 (rc_entry_id v))
  else if prop_id c =? PID_TAG_DISPLAY_NAME then copy (le_split 4 (rc_display v))
  else if prop_id c =? PID_TAG_ADDRESS_TYPE then copy (le_split 4 (rc_addr_type v))
  else if prop_id c =? PID_TAG_EMAIL_ADDRESS then copy (le_split 4 (rc_email v))
  else if prop_id c =? PID_TAG_SEARCH_KEY then copy (le_split 4 (rc_search_key v))
  else if prop_id c =? PID_TAG_DISPLAY_TYPE then copy (le_split 4 DT_MAILUSER)
  else if prop_id c =? PID_TAG_SMTP_ADDRESS then
    match rc_smtp v with Some hid => copy (le_split 4 hid) | None => Ok (row, present) end
  else if prop_id c =? PID_TAG_7BIT_DISPLAY_NAME then copy (le_split 4 (rc_seven v))
  else if prop_id c =? PID_TAG_SEND_RICH_INFO then flag Byte.x00
  else if prop_id c =? PID_TAG_LTP_ROW_ID then copy (le_split 4 (rc_row_id v))
  else if prop_id c =? PID_TAG_LTP_ROW_VER then copy (le_split 4 (rc_row_ver v))
  else Err (UnexpectedColumn (prop_id c)).

Definition recipient_row_bytes (columns : list tc_column) (row_width : Z) (v : recipient_cells) : wres (list byte) :=
  r ← mfold (recipient_cell v) columns (replicate (Z.to_nat row_width) Byte.x00, []);
  mfold (set_present (row_width - (zlen columns + 7) / 8)) r.2 r.1.

(** [WriteRecipientType] and [WriteRecipient] *)
Inductive write_recipient_type := WriteTo | WriteCc | WriteBcc | WriteOther (v : Z).
Record write_recipient := {
  wr_type : write_recipient_type; wr_display_name : option rstring; wr_address_type : option rstring;
  wr_email_address : option rstring; wr_smtp_address : option rstring }.

(** [WriteRecipientType::from_mapi], [to_mapi], [is_bcc] *)
Definition write_type_from_mapi (value : Z) : write_recipient_type :=
  if value =? 1 then WriteTo else if value =? 2 then WriteCc else if value =? 3 then WriteBcc else WriteOther value.
Definition write_type_to_mapi (t : write_recipient_type) : Z :=
  match t with WriteTo => 1 | WriteCc => 2 | WriteBcc => 3 | WriteOther v => v end.
Definition write_type_is_bcc (t : write_recipient_type) : bool := match t with WriteBcc => true | _ => false end.

(** [str::to_ascii_uppercase] *)
Definition to_ascii_uppercase (s : rstring) : rstring := map (λ c, if (97 <=? c) && (c <=? 122) then c - 32 else c) s.

(** [resolve_recipient_address_type] *)
Definition resolve_recipient_address_type (r : write_recipient) : rstring :=
  match trimmed (wr_address_type r) with
  | Some t => t
  | None =>
      match trimmed (wr_smtp_address r), trimmed (wr_email_address r) with
      | Some _, _ => lit "SMTP"
      | None, Some email =>
          if contains (bytes_of "/O=") (utf8 (to_ascii_uppercase email)) then lit "EX"
          else if contains (bytes_of "@") (utf8 email) then lit "SMTP"
          else []
      | None, None => []
      end
  end.

(** [synthesize_recipient_record_key] *)
Definition synthesize_recipient_record_key (row_id : Z) (email display addr_type : rstring) : list byte :=
  let seed := le_split 4 row_id ++ utf8 addr_type ++ [Byte.x00] ++ utf8 email ++ [Byte.x00] ++ utf8 display in
  salt ← [0x0C150001; 0x0C150002; 0x0C150003; 0x0C150004]; le_split 4 (crc32 (le_split 4 salt ++ seed)).

(** [synthesize_recipient_search_key] *)
Definition synthesize_recipient_search_key (addr_type email : rstring) (smtp : option rstring) : list byte :=
  let ty := if bool_decide (addr_type = []) then lit "UNKNOWN" else addr_type in
  let addr := match smtp with Some s => s | None => email end in
  utf8 (to_ascii_uppercase ty ++ lit ":" ++ to_ascii_uppercase addr).

(** [build_folder_entry_id] *)
Definition build_folder_entry_id (folder_nid : Z) (provider_uid : list byte) : list byte :=
  le_split 4 0 ++ provider_uid ++ le_split 4 (wrap 32 folder_nid).

(** The values of a row go to the heap or to subnodes, in this order. *)
Definition store_recipient (s : table_state) (i : nat) (r : write_recipient) : wres (recipient_cells * table_state) :=
  let row_id := Z.min (wrap 32 (Z.of_nat i) + 1) U32_MAX in
  let display := default [] (trimmed (wr_display_name r)) in
  let email := default [] (trimmed (wr_email_address r)) in
  let addr_type := resolve_recipient_address_type r in
  let smtp := trimmed (wr_smtp_address r) in
  let seven_bit := if bool_decide (display ≠ []) then display
                   else if bool_decide (email ≠ []) then email else default [] smtp in
  let record_key := synthesize_recipient_record_key row_id email display addr_type in
  d ← alloc_tc_value s (utf16le_bytes display);
  a ← alloc_tc_value d.2 (utf16le_bytes addr_type);
  e ← alloc_tc_value a.2 (utf16le_bytes email);
  v ← alloc_tc_value e.2 (utf16le_bytes seven_bit);
  k ← alloc_tc_value v.2 record_key;
  n ← alloc_tc_value k.2 (build_folder_entry_id row_id record_key);
  h ← alloc_tc_value n.2 (synthesize_recipient_search_key addr_type email smtp);
  m ← (match smtp with
       | Some x => y ← alloc_tc_value h.2 (utf16le_bytes x); Ok (Some y.1, y.2)
       | None => Ok (None, h.2)
       end);
  Ok ({| rc_type := write_type_to_mapi (wr_type r); rc_record_key := k.1; rc_entry_id := n.1; rc_display := d.1;
         rc_addr_type := a.1; rc_email := e.1; rc_search_key := h.1; rc_smtp := m.1; rc_seven := v.1;
         rc_row_id := row_id; rc_row_ver := row_id |}, m.2).

Definition add_recipient_row (columns : list tc_column) (row_width : Z)
    (acc : list (list byte) * list (Z * list byte) * table_state) (ir : nat * write_recipient)
    : wres (list (list byte) * list (Z * list byte) * table_state) :=
  let '(matrix, records, s) := acc in
  let '(i, r) := ir in
  v ← store_recipient s i r;
  row ← recipient_row_bytes columns row_width v.1;
  Ok (matrix ++ [row], records ++ [(rc_row_id v.1, le_split 4 (wrap 32 (Z.of_nat i)))], v.2).

(** [build_recipient_table_strategy_a] *)
Definition build_recipient_table_strategy_a (ly : layout) (rows : list write_recipient) : wres (table_built * layout) :=
  let '(columns, total_row_width) := build_template_tc_columns RECIPIENT_TABLE_COLUMNS in
  if total_row_width =? 0 then Err RowWidthZero
  else
    acc ← mfold (add_recipient_row columns total_row_width) (zip (seq 0 (length rows)) rows) ([], [], empty_table_state ly);
    let '(matrix, records, s) := acc in
    match rows with
    | [] =>
        t ← place_tcinfo s columns total_row_width 0;
        h ← ph_patch_u32 (ts_heap t.2) t.1 14 0;
        data ← ph_finalize h t.1;
        Ok ({| tb_heap := data; tb_bid_sub := 0; tb_extra := 0 |}, ts_layout t.2)
    | _ =>
        index ← build_bth_u32_checked (ts_heap s) 4 4 records;
        t ← place_tcinfo (with_heap s index.2) columns total_row_width index.1;
        finish_table t.2 t.1 (concat matrix) total_row_width
    end.
End tables.
