(* ===== verification/TableRows.v ===== *)
(** * Written tables as the reader loads them

    The RowIndex, the TCINFO and the rows of a table, byte by byte; a heap and a
    row matrix of this shape load through any resolver that knows the subnodes. *)

From S2P Require Import Prelude Telemetry PstError Header Block Heap Bth Utf PropContext TableContext WriterHeap Layout DataChain DataChainFacts NdbPages NdbRead NdbStore NdbRoundTrip PagedHeap WriterTable.
#[local] Open Scope Z_scope.

(** ** The RowIndex *)

(** The records that a table builder collects: row IDs with their matrix index. *)
Definition index_records (keys : list Z) : list (Z * list byte) :=
  imap (λ i key, (key, le_split 4 (wrap 32 (Z.of_nat i)))) keys.

Definition u32_records_bytes (rs : list (Z * list byte)) : list byte := r ← rs; le_split 4 r.1 ++ r.2.
Definition u32_bth_header (leaf : Z) : bth_header := {| b_type := 0xB5; cb_key := 4; cb_ent := 4; b_idx_levels := 0; hid_root := leaf |}.
Definition u32_bth_bytes (leaf : Z) : list byte := map byte.of_Z [0xB5; 4; 4; 0] ++ le_split 4 leaf.
Definition u32_record (r : Z * list byte) : bth_record := {| rec_key := le_split 4 r.1; rec_data := r.2 |}.

Lemma u32_leaf_bytes rs : Forall (λ r, zlen r.2 = 4) rs → u32_leaf 4 4 rs = Ok (u32_records_bytes rs).
Proof.
  induction 1 as [|[k d] rs Hd _ IH]; [done|]. cbn [u32_leaf]. cbn in Hd. rewrite Hd, IH, bind_ok. cbn [negb Z.eqb Pos.eqb].
  unfold u32_key_bytes. cbn [Z.leb Z.compare Pos.compare Pos.compare_cont]. rewrite sub_all by (rewrite zlen_le_split; lia).
  unfold u32_records_bytes. cbn [mbind list_bind]. cbn [fst snd]. by rewrite <-(assoc_L (++)).
Qed.

Lemma zlen_u32_records rs : Forall (λ r, zlen r.2 = 4) rs → zlen (u32_records_bytes rs) = 8 * zlen rs.
Proof. intros H. apply zlen_bind. eapply Forall_impl; [exact H|]. intros r Hr. cbn. rewrite zlen_app, zlen_le_split, Hr. lia. Qed.

Lemma u32_leaf_listing leaf rs :
  Forall (λ r, zlen r.2 = 4) rs → leaf_listing (u32_bth_header leaf) (u32_records_bytes rs) = map u32_record rs.
Proof.
  intros Hr. unfold leaf_listing, record_offsets. cbn [cb_key cb_ent u32_bth_header]. change (4 + 4) with 8.
  rewrite zlen_u32_records by done. rewrite Z.mul_comm, Z.div_mul by lia. unfold zlen. rewrite Nat2Z.id.
  enough (H : ∀ pre k, zlen pre = 8 * Z.of_nat k →
    map (leaf_at (u32_bth_header leaf) (pre ++ u32_records_bytes rs)) (map (λ i, Z.of_nat i * 8) (seq k (length rs))) = map u32_record rs)
    by by apply (H [] 0%nat).
  induction Hr as [|r rs H4 Hrs IH]; intros pre k Hp; [done|].
  change (u32_records_bytes (r :: rs)) with ((le_split 4 r.1 ++ r.2) ++ u32_records_bytes rs). cbn [length seq map]. f_equal.
  - unfold leaf_at, u32_record. cbn [cb_key cb_ent u32_bth_header]. f_equal.
    + rewrite <-!(assoc_L (++)). apply sub_mid; enc.
    + rewrite <-(assoc_L (++) (le_split 4 r.1)), (assoc_L (++) pre). apply sub_mid; enc.
  - rewrite (assoc_L (++) pre). apply IH. enc.
Qed.

(** One record puts its row ID at its index. *)
Lemma record_row_id_written ids key i :
  0 <= key < 2 ^ 32 → Z.of_nat i < zlen ids → zlen ids < 2 ^ 32 →
  record_row_id ids (u32_record (key, le_split 4 (wrap 32 (Z.of_nat i)))) = Ok (<[i := key]> ids).
Proof.
  intros Hk Hi Hn. rewrite wrap_small by lia. unfold record_row_id, row_index_of, u32_record. cbn [rec_key rec_data fst snd].
  rewrite !zlen_le_split. change (Z.of_nat 4 <? 4) with false. change (4 <=? Z.of_nat 4) with true. cbv iota.
  rewrite <-(app_nil_r (le_split 4 key)), le_at_front by enc. rewrite bind_ok.
  rewrite <-(app_nil_r (le_split 4 (Z.of_nat i))), le_at_front by enc. rewrite !bind_ok.
  rewrite (proj2 (Z.ltb_lt _ _)) by done. by rewrite Nat2Z.id.
Qed.

Definition pair_record (p : nat * Z) : Z * list byte := (p.2, le_split 4 (wrap 32 (Z.of_nat p.1))).

Lemma index_records_pairs keys : index_records keys = map pair_record (imap pair keys).
Proof. unfold index_records. change (map ?f ?l) with (f <$> l). rewrite fmap_imap. by apply imap_ext. Qed.

Lemma fold_record_ids ps : ∀ ids,
  NoDup ps.*1 → Forall (λ p, Z.of_nat p.1 < zlen ids ∧ 0 <= p.2 < 2 ^ 32) ps → zlen ids < 2 ^ 32 →
  ∃ ids', mfold record_row_id (map u32_record (map pair_record ps)) ids = Ok ids' ∧ length ids' = length ids ∧
    (∀ i key, (i, key) ∈ ps → ids' !! i = Some key) ∧ (∀ i, i ∉ ps.*1 → ids' !! i = ids !! i).
Proof.
  induction ps as [|[i key] ps IH]; intros ids Hd Hp Hn.
  { exists ids. split_and!; [done..|set_solver|done]. }
  apply NoDup_cons in Hd as [Hni Hd]. apply Forall_cons in Hp as [[Hi Hk] Hp]. cbn [map mfold foldr fst snd] in *.
  assert (Hz : zlen (<[i:=key]> ids) = zlen ids) by (unfold zlen; by rewrite length_insert).
  destruct (IH (<[i:=key]> ids)) as (ids' & Hrun & Hl & Hin & Hout); [done|by rewrite Hz|by rewrite Hz|].
  exists ids'. split.
  { change (pair_record (i, key)) with (key, le_split 4 (wrap 32 (Z.of_nat i))). by rewrite record_row_id_written, bind_ok by done. }
  rewrite length_insert in Hl. split; [done|]. split.
  - intros j k [[= -> ->]|Hjk]%elem_of_cons; [|by apply Hin]. rewrite Hout by done. rewrite list_lookup_insert_eq; [done|]. unfold zlen in Hi. lia.
  - intros j [Hne Hj]%not_elem_of_cons. rewrite Hout by done. by rewrite list_lookup_insert_ne by done.
Qed.

(** The records in any order give back the row IDs. *)
Lemma row_ids_recovered keys rs :
  Forall (λ key, 0 <= key < 2 ^ 32) keys → zlen keys < 2 ^ 32 → rs ≡ₚ index_records keys →
  mfold record_row_id (map u32_record rs) (replicate (length keys) 0) = Ok keys.
Proof.
  intros Hk Hn Hp. rewrite index_records_pairs in Hp. apply Permutation_map_inv in Hp as (ps & -> & Hps).
  assert (Hmem : ∀ i key, (i, key) ∈ ps ↔ keys !! i = Some key).
  { intros i key. rewrite <-Hps, list_elem_of_lookup. setoid_rewrite list_lookup_imap_Some. naive_solver. }
  destruct (fold_record_ids ps (replicate (length keys) 0)) as (ids & -> & Hl & Hin & _).
  - rewrite <-Hps. change (NoDup ((imap pair keys).*1)). rewrite fmap_imap. 
    rewrite (imap_ext _ (λ i _, i)), (imap_seq_0 keys (λ i, i)), list_fmap_id by done. apply NoDup_seq.
  - apply Forall_forall. intros [i key] Hi%Hmem. rewrite zlen_replicate. rewrite Forall_lookup in Hk. split; [|by apply (Hk i)].
    apply lookup_lt_Some in Hi. cbn. lia.
  - rewrite zlen_replicate. unfold zlen in Hn. lia.
  - f_equal. rewrite length_replicate in Hl. apply list_eq_same_length with (length keys); [done|done|].
    intros i x y Hi Hx Hy. apply Hmem, Hin in Hy. congruence.
Qed.

(** A heap with the two parts of a RowIndex loads the row IDs. *)
Lemma load_row_ids_written h inf keys rs leaf :
  hid_row_index inf ≠ 0 → heap_get h (hid_row_index inf) = Ok (u32_bth_bytes leaf) → 0 < leaf < 2 ^ 32 →
  heap_get h leaf = Ok (u32_records_bytes rs) → rs ≡ₚ index_records keys →
  Forall (λ key, 0 <= key < 2 ^ 32) keys → zlen keys < 2 ^ 32 →
  load_row_ids h inf (zlen keys) = Ok keys.
Proof.
  intros Hri Hb Hl Hd Hp Hk Hn. unfold load_row_ids, hid_is_null. rewrite (proj2 (Z.eqb_neq _ _)) by done.
  assert (Hz : Z.to_nat (zlen keys) = length keys) by (unfold zlen; lia). rewrite Hz.
  destruct (zlen keys =? 0) eqn:H0; bool_to_Z; [by destruct keys|]. cbn [orb].
  assert (Hhdr : read_bth_header h (hid_row_index inf) = Ok (u32_bth_header leaf)).
  { unfold read_bth_header. rewrite Hb, bind_ok. change (zlen (u32_bth_bytes leaf)) with 8.
    assert (le_at (u32_bth_bytes leaf) 4 4 = Ok leaf :> pres _) as -> by (apply le_at_end; enc). done. }
  rewrite Hhdr. unfold collect_records, hid_is_null. cbn [hid_root b_idx_levels u32_bth_header].
  rewrite (proj2 (Z.eqb_neq _ _)) by lia. change (Z.to_nat 0) with 0%nat.
  assert (Hwf : bth_header_wf (u32_bth_header leaf)) by (constructor; cbn; lia).
  rewrite (collect_leaf _ _ Hwf _ _ [] ltac:(done) Hd). cbn [app].
  rewrite u32_leaf_listing; [by apply row_ids_recovered|]. rewrite Hp. apply Forall_forall. intros [k d] (i & x & [= -> ->] & _)%elem_of_lookup_imap.
  cbn. apply zlen_le_split.
Qed.

(** ** The TCINFO *)

(** Column descriptors that fit their fields. *)
Definition column_fits (c : tc_column) : Prop :=
  0 <= prop_id c < 2 ^ 16 ∧ 0 <= prop_type c < 2 ^ 16 ∧ 0 <= ib_data c < 2 ^ 16 ∧ 0 <= cb_data c < 2 ^ 8 ∧ 0 <= i_bit c < 2 ^ 8.

Definition written_info (columns : list tc_column) (w ri rows : Z) : tc_info :=
  {| c_cols := zlen columns; rgib := (0, 0, 0, w); hid_row_index := ri; hnid_rows := rows; columns := columns |}.

Lemma index_byte {E} (pre post : list byte) v i : i = zlen pre → 0 <= v < 2 ^ 8 → index (pre ++ byte.of_Z v :: post) i = Ok v :> res E _.
Proof.
  intros -> Hv. rewrite index_val by (rewrite zlen_app, zlen_cons; pose proof (zlen_nonneg pre); pose proof (zlen_nonneg post); lia).
  f_equal. change (byte.of_Z v :: post) with (le_split 1 v ++ post). apply le_val_mid; enc.
Qed.

Lemma parse_column_written pre c post :
  column_fits c → parse_column (pre ++ column_bytes c ++ post) (zlen pre) = Ok c.
Proof.
  intros (H1 & H2 & H3 & H4 & H5). unfold parse_column. rewrite (slice_mid pre (column_bytes c) post) by (done || by unfold column_bytes; enc).
  rewrite bind_ok. unfold column_bytes. rewrite le_at_front by enc. rewrite bind_ok.
  rewrite (le_at_mid (le_split 2 (prop_id c)) _ _ _ 2) by enc. rewrite bind_ok, (assoc_L (++) (le_split 2 (prop_id c))).
  rewrite (le_at_mid (le_split 2 (prop_id c) ++ _) _ _ _ 4) by enc. rewrite bind_ok, (assoc_L (++) (_ ++ _)).
  rewrite (index_byte _ _ (cb_data c) 6) by enc. rewrite bind_ok.
  change (byte.of_Z (cb_data c) :: ?l) with ([byte.of_Z (cb_data c)] ++ l). rewrite (assoc_L (++) ((_ ++ _) ++ _)).
  rewrite (index_byte _ _ (i_bit c) 7) by enc. rewrite bind_ok. by destruct c.
Qed.

Lemma zlen_tcinfo columns w ri rows : zlen (tcinfo_bytes columns w ri rows) = 18 + 8 * zlen columns.
Proof.
  unfold tcinfo_bytes. rewrite !zlen_app, !zlen_le_split, (zlen_bind _ 8); [unfold zlen; simpl length; lia|]. apply Forall_forall. intros c _. by unfold column_bytes; enc.
Qed.

Lemma parse_tc_info_written columns w ri rows :
  Forall column_fits columns → zlen columns < 256 → 0 <= w < 2 ^ 16 → 0 <= ri < 2 ^ 32 → 0 <= rows < 2 ^ 32 →
  parse_tc_info (tcinfo_bytes columns w ri rows) = Ok (written_info columns w ri rows).
Proof.
  intros Hc Hn Hw Hri Hrows. pose proof (zlen_nonneg columns). unfold parse_tc_info. rewrite zlen_tcinfo, (proj2 (Z.ltb_ge _ _)) by lia.
  set (pre := [byte.of_Z 0x7C; byte.of_Z (wrap 8 (zlen columns))] ++ le_split 2 0 ++ le_split 2 0 ++ le_split 2 0 ++
    le_split 2 w ++ le_split 4 ri ++ le_split 4 rows).
  assert (Heq : tcinfo_bytes columns w ri rows = pre ++ (columns ≫= column_bytes) ++ []).
  { unfold tcinfo_bytes, pre. by rewrite app_nil_r, <-!(assoc_L (++)). }
  assert (Hpre : zlen pre = 18) by done. pose proof (zlen_nonneg (columns ≫= column_bytes)).
  assert (Hz : zlen (pre ++ (columns ≫= column_bytes) ++ []) = 18 + 8 * zlen columns) by (by rewrite <-Heq, zlen_tcinfo).
  rewrite Heq. rewrite (index_val _ 0), bind_ok by lia.
  assert (index (pre ++ (columns ≫= column_bytes) ++ []) 1 = Ok (zlen columns) :> pres _) as ->.
  { unfold pre. rewrite wrap_small by lia. cbn [app]. apply (index_byte [byte.of_Z 0x7C]); [done|lia]. }
  rewrite bind_ok. rewrite !le_at_ok by lia. rewrite !bind_ok, !le_val_app_l by lia.
  replace (Z.to_nat (zlen columns)) with (length columns) by (unfold zlen; lia).
  rewrite <-Hpre. rewrite (rmap_entries column_bytes id _ 8 _ pre columns []); [|lia|lia|].
  - rewrite bind_ok. change (map id columns) with (id <$> columns). rewrite list_fmap_id.
    assert (le_val pre 2 2 = 0 ∧ le_val pre 4 2 = 0 ∧ le_val pre 6 2 = 0 ∧ le_val pre 8 2 = w ∧ le_val pre 10 4 = ri ∧ le_val pre 14 4 = rows)
      as (-> & -> & -> & -> & -> & ->); [|done].
    unfold pre. change ([byte.of_Z 0x7C; byte.of_Z (wrap 8 (zlen columns))]) with (le_split 1 0x7C ++ le_split 1 (wrap 8 (zlen columns))).
    rewrite <-(assoc_L (++)), <-(app_nil_r (le_split 4 rows)). split_and!; find_field; done.
  - eapply Forall_impl; [exact Hc|]. intros c Hcf. split; [unfold column_bytes; enc|]. intros pre' post' ->. by apply parse_column_written.
Qed.

(** ** Rows *)

(** The bytes of a field of row [i]. *)
Lemma row_field rows w i row ib n :
  Forall (λ r : list byte, zlen r = w) rows → rows !! i = Some row → 0 <= ib → 0 <= n → ib + n <= w →
  le_val (concat rows) (Z.of_nat i * w + ib) n = le_val row ib n ∧ Z.of_nat i * w + ib + n <= zlen (concat rows).
Proof.
  intros Hw Hi Hib Hn Hr.
  assert (Hz : ∀ l : list (list byte), Forall (λ r : list byte, zlen r = w) l → zlen (concat l) = w * zlen l).
  { induction 1 as [|r l Hr' _ IH]; [by rewrite Z.mul_0_r|]. cbn [concat]. rewrite zlen_app, zlen_cons, IH, Hr'. lia. }
  pose proof (lookup_lt_Some _ _ _ Hi). rewrite (Hz rows Hw). assert (zlen row = w) by (rewrite Forall_lookup in Hw; by apply (Hw i)).
  split; [|unfold zlen; nia]. rewrite <-(take_drop_middle _ _ _ Hi), concat_app. cbn [concat].
  assert (Ht : zlen (concat (take i rows)) = Z.of_nat i * w).
  { rewrite Hz by by apply Forall_take. unfold zlen. rewrite length_take. lia. }
  rewrite le_val_app_r by lia. rewrite Ht. replace (Z.of_nat i * w + ib - Z.of_nat i * w) with ib by lia. apply le_val_app_l; lia.
Qed.

Lemma zlen_rows rows w : Forall (λ r : list byte, zlen r = w) rows → zlen (concat rows) = zlen rows * w.
Proof. induction 1 as [|r l Hr _ IH]; [done|]. cbn [concat]. rewrite zlen_app, zlen_cons, IH, Hr. lia. Qed.

(** ** Loading *)

Section load.
Context {R : Type} `{SubnodeResolver R} (r : R).

(** What a heap or subnode ID in a cell leads to. *)
Definition cell_known (v : Z) : Prop := v = 0 ∨ hid_type v = 0 ∨ ∃ b, clean (resolve_subnode r v) b.

Lemma clean_unique {A} (m : pio A) a b : clean m a → clean m b → a = b.
Proof. intros Ha%clean_outcome Hb%clean_outcome. congruence. Qed.

(** The collected subnodes: right, and complete for the cells that were visited. *)
Definition cells_right (out : gmap Z (list byte)) : Prop := ∀ v b, out !! v = Some b → clean (resolve_subnode r v) b.
Definition cell_done (out : gmap Z (list byte)) (v : Z) : Prop := v ≠ 0 → hid_type v ≠ 0 → is_Some (out !! v).

Lemma clean_mfold {A B} (f : B → A → pio B) (I : B → Prop) (J : A → B → Prop) l : ∀ b,
  I b →
  (∀ b x, x ∈ l → I b → ∃ b', clean (f b x) b' ∧ I b' ∧ J x b' ∧ ∀ y, J y b → J y b') →
  ∃ b', clean (mfold f l b) b' ∧ I b' ∧ (∀ x, x ∈ l → J x b') ∧ ∀ y, J y b → J y b'.
Proof.
  induction l as [|x l IH]; intros b Hb Hstep.
  { exists b. split_and!; [apply clean_ret|done|set_solver|done]. }
  destruct (Hstep b x ltac:(set_solver) Hb) as (b1 & Hrun & Hb1 & Hx & Hmono).
  destruct (IH b1 Hb1) as (b2 & Hrun2 & Hb2 & Hall & Hmono2). { intros c y Hy. apply Hstep. set_solver. }
  exists b2. split_and!; [by eapply clean_bind|done| |auto]. intros y [->|Hy]%elem_of_cons; auto.
Qed.

Lemma collect_cell_written rows start out col :
  cells_right out →
  (is_hnid_column col = true → 0 <= start + ib_data col ∧ start + ib_data col + 4 <= zlen rows ∧
    cell_known (le_val rows (start + ib_data col) 4)) →
  ∃ out', clean (collect_cell r rows start out col) out' ∧ cells_right out' ∧
    (is_hnid_column col = true → cell_done out' (le_val rows (start + ib_data col) 4)) ∧ out ⊆ out'.
Proof.
  intros Hr Hcol. unfold collect_cell. destruct (is_hnid_column col); [|exists out; split_and!; [apply clean_ret|done..]].
  destruct (Hcol eq_refl) as (Hi & Hl & Hk). cbn [negb]. rewrite (proj2 (Z.ltb_ge _ _)) by lia. set (v := le_val rows (start + ib_data col) 4) in *.
  destruct (decide (v = 0)) as [Hv|Hv].
  { exists out. split_and!; [|done|by intros _ ?|done]. eapply clean_quiet_bind; [apply le_at_ok; lia|]. fold v. rewrite Hv. apply clean_ret. }
  destruct (decide (hid_type v = 0)) as [Ht|Ht].
  { exists out. split_and!; [|done|by intros _ ? ?|done]. eapply clean_quiet_bind; [apply le_at_ok; lia|]. fold v.
    rewrite (proj2 (Z.eqb_neq v 0)), (proj2 (Z.eqb_eq (hid_type v) 0)) by done. apply clean_ret. }
  destruct Hk as [?|[?|[b Hb]]]; [done..|]. destruct (out !! v) as [b'|] eqn:Ho.
  { exists out. split_and!; [|done|by intros _ _ _; rewrite Ho|done]. eapply clean_quiet_bind; [apply le_at_ok; lia|]. fold v.
    rewrite (proj2 (Z.eqb_neq v 0)), bool_decide_true, orb_true_r by (done || by rewrite Ho). apply clean_ret. }
  exists (<[v := b]> out). split_and!.
  - eapply clean_quiet_bind; [apply le_at_ok; lia|]. fold v.
    rewrite (proj2 (Z.eqb_neq v 0)), (proj2 (Z.eqb_neq (hid_type v) 0)), bool_decide_false by (done || (rewrite Ho; by intros [? ?])). cbn [orb].
    destruct Hb as (es & [Hb1 Hb2] & Hes). exists es. split; [|done]. destruct (resolve_subnode r v) as [o l]. cbn in *. by subst.
  - intros x d. destruct (decide (x = v)) as [->|Hne]; [rewrite lookup_insert_eq; by intros [= <-]|]. rewrite lookup_insert_ne by done. apply Hr.
  - intros _ _ _. by rewrite lookup_insert_eq.
  - by apply insert_subseteq.
Qed.

Lemma cell_done_mono out out' v : out ⊆ out' → cell_done out v → cell_done out' v.
Proof. intros Hs Hd Hv Ht. destruct (Hd Hv Ht) as [b Hb]. exists b. by eapply lookup_weaken. Qed.

Lemma collect_written inf rows w :
  0 < w → Forall (λ r : list byte, zlen r = w) rows →
  (∀ row c, row ∈ rows → c ∈ columns inf → is_hnid_column c = true →
    0 <= ib_data c ∧ ib_data c + 4 <= w ∧ cell_known (le_val row (ib_data c) 4)) →
  ∃ cells, clean (collect_cell_subnodes inf (concat rows) w (zlen rows) r) cells ∧ cells_right cells ∧
    ∀ row c, row ∈ rows → c ∈ columns inf → is_hnid_column c = true → cell_done cells (le_val row (ib_data c) 4).
Proof.
  intros Hw Hrows Hk. unfold collect_cell_subnodes. rewrite (proj2 (Z.eqb_neq w 0)) by lia. cbn [orb].
  destruct (zlen rows =? 0) eqn:H0; bool_to_Z.
  { destruct rows; [|unfold zlen in H0; simpl in H0; lia]. exists ∅. split_and!; [apply clean_ret|done|set_solver]. }
  replace (Z.to_nat (zlen rows)) with (length rows) by (unfold zlen; lia).
  set (J := λ (i : nat) out, ∀ row, rows !! i = Some row → ∀ c, c ∈ columns inf → is_hnid_column c = true → cell_done out (le_val row (ib_data c) 4)).
  destruct (clean_mfold (λ out i, mfold (collect_cell r (concat rows) (Z.of_nat i * w)) (columns inf) out) (λ out, cells_right out) J (seq 0 (length rows)) ∅)
    as (cells & Hrun & Hright & Hall & _); [done| |].
  - intros out i Hi Hout. apply elem_of_seq in Hi as [_ Hi]. cbn in Hi. destruct (lookup_lt_is_Some_2 rows i Hi) as [row Hrow].
    destruct (clean_mfold (collect_cell r (concat rows) (Z.of_nat i * w)) (λ o, cells_right o ∧ out ⊆ o)
      (λ c o, is_hnid_column c = true → cell_done o (le_val row (ib_data c) 4)) (columns inf) out) as (out' & Hrun' & [Hr' Hs'] & Hc' & _); [done| |].
    + intros o c Hc [Ho Hs]. destruct (collect_cell_written (concat rows) (Z.of_nat i * w) o c Ho) as (o' & Hrun' & Hr' & Hd & Hs').
      { intros Hh. destruct (Hk row c) as (H1 & H2 & H3); [by eapply list_elem_of_lookup_2|done..|].
        destruct (row_field rows w i row (ib_data c) 4) as [-> Hle]; [done..|lia|lia|]. split_and!; [lia|lia|done]. }
      exists o'. split_and!; [done|done|by etrans| |].
      * intros Hh. destruct (Hk row c) as (H1 & H2 & H3); [by eapply list_elem_of_lookup_2|done..|].
        destruct (row_field rows w i row (ib_data c) 4) as [<- _]; [done..|lia|lia|]. by apply Hd.
      * intros y Hy Hh. eapply cell_done_mono; [exact Hs'|]. by apply Hy.
    + exists out'. split_and!; [done|done| |].
      * intros row' Hrow' c Hc. rewrite Hrow in Hrow'. injection Hrow' as <-. by apply Hc'.
      * intros y Hy row' Hrow' c Hc Hh. eapply cell_done_mono; [exact Hs'|]. by eapply Hy.
  - exists cells. split_and!; [done|done|]. intros row c [i Hi]%list_elem_of_lookup Hc Hh. refine (Hall i _ row Hi c Hc Hh).
    apply elem_of_seq. apply lookup_lt_Some in Hi. lia.
Qed.

(** A table as it was written: the heap [hp] with the TCINFO at the root and the
    RowIndex, the row matrix below [mnid]. *)
Record written_table (data : list byte) (hp : heap) (cols : list tc_column) (w ri mnid leaf : Z) (rs : list (Z * list byte))
    (keys : list Z) (rows : list (list byte)) : Prop := {
  wt_heap : heap_parse data (node_block_size data) = Ok hp;
  wt_info : heap_get hp (hid_user_root (hn hp)) = Ok (tcinfo_bytes cols w ri mnid);
  wt_columns : Forall column_fits cols;
  wt_count : zlen cols < 256;
  wt_width : 0 < w <= MAX_BLOCK_DATA;
  wt_ri : 0 < ri < 2 ^ 32;
  wt_bth : heap_get hp ri = Ok (u32_bth_bytes leaf);
  wt_leaf_hid : 0 < leaf < 2 ^ 32;
  wt_leaf : heap_get hp leaf = Ok (u32_records_bytes rs);
  wt_records : rs ≡ₚ index_records keys;
  wt_keys : Forall (λ key, 0 <= key < 2 ^ 32) keys;
  wt_mnid : 0 <= mnid < 2 ^ 32 ∧ hid_type mnid ≠ 0 ∧ mnid ≠ 0;
  wt_matrix : clean (resolve_subnode r mnid) (padded_matrix (concat rows) w);
  wt_some : rows ≠ [];
  wt_rows : Forall (λ row : list byte, zlen row = w) rows;
  wt_same : length keys = length rows;
  wt_small : zlen rows < 2 ^ 32;
  wt_cells : ∀ row c, row ∈ rows → c ∈ cols → is_hnid_column c = true →
    0 <= ib_data c ∧ ib_data c + 4 <= w ∧ cell_known (le_val row (ib_data c) 4) }.

Definition loaded_table (hp : heap) (cols : list tc_column) (w ri mnid : Z) (keys : list Z) (rows : list (list byte))
    (cells : gmap Z (list byte)) : table_context :=
  {| tc_heap := hp; info := written_info cols w ri mnid; row_data := concat rows; row_size := w; row_count := zlen rows;
     row_ids := keys; cell_subnodes := cells |}.

Lemma load_written data hp cols w ri mnid leaf rs keys rows :
  written_table data hp cols w ri mnid leaf rs keys rows →
  ∃ cells, clean (load_inner data (Some r)) (loaded_table hp cols w ri mnid keys rows cells) ∧ cells_right cells ∧
    ∀ row c, row ∈ rows → c ∈ cols → is_hnid_column c = true → cell_done cells (le_val row (ib_data c) 4).
Proof.
  intros [Hhp Hinfo Hcols Hcount Hw Hri Hbth Hlh Hleaf Hrec Hkeys (Hm1 & Hm2 & Hm3) Hmat Hsome Hrows Hsame Hsmall Hcells].
  destruct (collect_written (written_info cols w ri mnid) rows w) as (cells & Hrun & Hright & Hdone); [lia|done|done|].
  exists cells. split; [|by split]. unfold load_inner, loaded_table.
  eapply clean_quiet_bind; [exact Hhp|]. eapply clean_quiet_bind; [exact Hinfo|].
  eapply clean_quiet_bind; [apply parse_tc_info_written; try done; unfold MAX_BLOCK_DATA in *; lia|]. cbn [rgib written_info snd].
  pose proof (zlen_rows rows w Hrows) as Hz.
  assert (Hnz : zlen rows ≠ 0) by (destruct rows; [done|unfold zlen; simpl; lia]).
  eapply (clean_bind _ _ (concat rows, zlen rows)).
  - unfold load_rows. cbn [hnid_rows written_info]. rewrite (proj2 (Z.eqb_neq mnid 0)), (proj2 (Z.eqb_neq (hid_type mnid) 0)) by done.
    eapply clean_quiet_bind; [done|]. eapply clean_bind; [exact Hmat|]. exists []. split; [|done]. apply runs_quiet.
    rewrite padded_rows; [|intros E; rewrite E in Hz; rewrite zlen_nil in Hz; nia|done|by rewrite Hz, Z.mod_mul by lia].
    by rewrite Hz, Z.div_mul by lia.
  - cbn [fst snd]. eapply clean_bind; [exact Hrun|]. assert (zlen rows = zlen keys) as -> by (unfold zlen; by rewrite Hsame).
    eapply clean_quiet_bind; [|apply clean_ret]. apply (load_row_ids_written hp _ keys rs leaf); cbn [hid_row_index written_info]; try done; [lia|].
    unfold zlen in *. by rewrite Hsame.
Qed.

(** *** Reading the loaded table *)

Section cells.
Context (hp : heap) (cols : list tc_column) (w ri mnid : Z) (keys : list Z) (rows : list (list byte)) (cells : gmap Z (list byte)).
Context (Hrows : Forall (λ row : list byte, zlen row = w) rows).
Abbreviation tc := (loaded_table hp cols w ri mnid keys rows cells).
Context (i : nat) (row : list byte) (Hi : rows !! i = Some row).

Lemma row_u32_written id c :
  find (λ c, prop_id c =? id) cols = Some c → cb_data c = 4 → 0 <= ib_data c → ib_data c + 4 <= w →
  get_row_u32 tc (Z.of_nat i) id = Ok (Some (le_val row (ib_data c) 4)).
Proof.
  intros Hf Hcb Hib Hw. unfold get_row_u32, find_column. cbn [info loaded_table written_info columns]. rewrite Hf.
  cbn [row_size row_data loaded_table]. rewrite Hcb. destruct (row_field rows w i row (ib_data c) 4 Hrows Hi Hib) as [Hv Hl]; [lia|done|].
  rewrite (proj2 (Z.ltb_ge _ _)) by lia. cbn [Z.eqb Pos.eqb]. rewrite le_at_ok by nia. by rewrite bind_ok, Hv.
Qed.

(** A string cell: the heap ID or subnode ID leads to the bytes. *)
Lemma row_string_written id c s :
  find (λ c, prop_id c =? id) cols = Some c → cb_data c = 4 → prop_type c = 0x001F → 0 <= ib_data c → ib_data c + 4 <= w →
  le_val row (ib_data c) 4 ≠ 0 → Forall scalar s →
  (hid_type (le_val row (ib_data c) 4) = 0 → heap_get hp (le_val row (ib_data c) 4) = Ok (utf16le_bytes s)) →
  (hid_type (le_val row (ib_data c) 4) ≠ 0 → cells !! le_val row (ib_data c) 4 = Some (utf16le_bytes s)) →
  get_row_string tc (Z.of_nat i) id = Ok (Some s).
Proof.
  intros Hf Hcb Hty Hib Hw Hnz Hs Hheap Hcell. unfold get_row_string, find_column. cbn [info loaded_table written_info columns]. rewrite Hf.
  cbn [row_size row_data loaded_table tc_heap cell_subnodes]. rewrite Hcb, Hty. cbn [negb Z.eqb Pos.eqb].
  destruct (row_field rows w i row (ib_data c) 4 Hrows Hi Hib) as [Hv Hl]; [lia|done|].
  rewrite (proj2 (Z.leb_le _ _)) by lia. cbn [andb]. rewrite le_at_ok by nia. rewrite bind_ok, Hv, (proj2 (Z.eqb_neq _ 0)) by done.
  destruct (hid_type _ =? 0) eqn:Ht; bool_to_Z; [rewrite Hheap by done|rewrite Hcell by done; cbn [ok_or]];
    by rewrite bind_ok, decode_utf16le_encode.
Qed.

(** A string cell that was left out. *)
Lemma row_string_absent id c :
  find (λ c, prop_id c =? id) cols = Some c → cb_data c = 4 → prop_type c = 0x001F → 0 <= ib_data c → ib_data c + 4 <= w →
  le_val row (ib_data c) 4 = 0 → get_row_string tc (Z.of_nat i) id = Ok (Some []).
Proof.
  intros Hf Hcb Hty Hib Hw Hz. unfold get_row_string, find_column. cbn [info loaded_table written_info columns]. rewrite Hf.
  cbn [row_size row_data loaded_table]. rewrite Hcb, Hty. cbn [negb Z.eqb Pos.eqb].
  destruct (row_field rows w i row (ib_data c) 4 Hrows Hi Hib) as [Hv Hl]; [lia|done|].
  rewrite (proj2 (Z.leb_le _ _)) by lia. cbn [andb]. rewrite le_at_ok by nia. by rewrite bind_ok, Hv, Hz.
Qed.
End cells.
End load.
