(* ===== verification/WriterTableFacts.v ===== *)
(** * The tables of a message

    The steps of the table builders keep a heap that stands for its allocations, a
    layout that holds its contents, and cells that lead to their bytes. *)

From S2P Require Import Prelude Telemetry PstError Crypt Header Btree Block BlockFacts Streaming Heap Bth Utf PropContext TableContext Folder Text WriterHeap NamedPropMap Layout LayoutFacts DataChain DataChainFacts StreamWrite TreeWriter NdbLayout NdbPages NdbTree NdbFile NdbRead NdbStore NdbRoundTrip PagedHeap PagedHeapFacts WriterTable TableRows.
#[local] Open Scope Z_scope.

(** ** Sequences of writer operations *)

Section wrote.
Context `{Crc : Crc32} (failures : bool).

(** Some writer operations lead from a layout and its contents to others. *)
Inductive wrote : layout → contents → layout → contents → Prop :=
| wrote_refl ly c : wrote ly c ly c
| wrote_step ly c ly1 c1 ly2 c2 : wstep failures ly c ly1 c1 → wrote ly1 c1 ly2 c2 → wrote ly c ly2 c2.

Lemma wrote_one ly c ly' c' : wstep failures ly c ly' c' → wrote ly c ly' c'.
Proof. intros H. by eapply wrote_step, wrote_refl. Qed.
Lemma wrote_trans ly c ly1 c1 ly2 c2 : wrote ly c ly1 c1 → wrote ly1 c1 ly2 c2 → wrote ly c ly2 c2.
Proof. induction 1; [done|]. intros H2. by eapply wrote_step, IHwrote. Qed.
Lemma wrote_built ly c ly' c' : built failures ly c → wrote ly c ly' c' → built failures ly' c'.
Proof. intros Hb. induction 1 as [|????? ? Hs _ IH]; [done|]. apply IH. by eapply built_step. Qed.

(** Contents are never lost. *)
Definition kept (c c' : contents) : Prop := co_values c ⊆ co_values c' ∧ co_tables c ⊆ co_tables c'.
#[export] Instance kept_refl : Reflexive kept.
Proof. by split. Qed.
#[export] Instance kept_trans : Transitive kept.
Proof. intros c1 c2 c3 [??] [??]. split; by etrans. Qed.
Lemma wstep_kept ly c ly' c' : wstep failures ly c ly' c' → kept c c'.
Proof. destruct 1; split; simpl; set_solver. Qed.
Lemma wrote_kept ly c ly' c' : wrote ly c ly' c' → kept c c'.
Proof. induction 1 as [|????? ? Hs _ IH]; [done|]. etrans; [by eapply wstep_kept|done]. Qed.
End wrote.

(** ** Subnode tables *)

Lemma insert_sorted {A} (r : Z * A) l :
  (∀ i j a b, l !! i = Some a → l !! j = Some b → (i <= j)%nat → a.1 <= b.1) →
  ∀ i j a b, insert_by_key r l !! i = Some a → insert_by_key r l !! j = Some b → (i <= j)%nat → a.1 <= b.1.
Proof.
  induction l as [|s l IH]; intros Hl i j a b; cbn [insert_by_key].
  - intros Ha%list_lookup_singleton_Some Hb%list_lookup_singleton_Some _. destruct Ha as [_ <-], Hb as [_ <-]. lia.
  - assert (Hl' : ∀ i j a b, l !! i = Some a → l !! j = Some b → (i <= j)%nat → a.1 <= b.1).
    { intros i' j' x y Hx Hy Hij. apply (Hl (S i') (S j') x y Hx Hy). lia. }
    destruct (r.1 <=? s.1) eqn:Hle; bool_to_Z.
    + destruct i as [|i], j as [|j]; cbn [lookup list_lookup]; intros Ha Hb Hij; try lia.
      * injection Ha as <-. injection Hb as <-. lia.
      * injection Ha as <-. etrans; [exact Hle|]. by apply (Hl 0%nat j s b); [done|done|lia].
      * apply (Hl i j a b Ha Hb). lia.
    + destruct i as [|i], j as [|j]; cbn [lookup list_lookup]; intros Ha Hb Hij; try lia.
      * injection Ha as <-. injection Hb as <-. lia.
      * injection Ha as <-. assert (Hin : b ∈ r :: l) by (rewrite <-(insert_by_key_perm r l); by eapply list_elem_of_lookup_2).
        apply elem_of_cons in Hin as [->|Hin]; [lia|]. apply list_elem_of_lookup in Hin as [k Hk]. apply (Hl 0%nat (S k) s b); [done|done|lia].
      * apply (IH Hl' i j a b Ha Hb). lia.
Qed.

Lemma sort_by_key_sorted {A} (l : list (Z * A)) i j a b :
  sort_by_key l !! i = Some a → sort_by_key l !! j = Some b → (i <= j)%nat → a.1 <= b.1.
Proof. revert i j a b. induction l as [|r l IH]; [done|]. by apply insert_sorted. Qed.

Lemma first_repeat_distinct l :
  (∀ i j a b, l !! i = Some a → l !! j = Some b → (i <= j)%nat → a <= b) → first_repeat l = None → NoDup l.
Proof.
  induction l as [|x l IH]; intros Hs Hf; [constructor|].
  assert (Hs' : ∀ i j a b, l !! i = Some a → l !! j = Some b → (i <= j)%nat → a <= b).
  { intros i j a b Ha Hb Hij. apply (Hs (S i) (S j) a b Ha Hb). lia. }
  destruct l as [|y l]; [apply NoDup_singleton|]. cbn [first_repeat] in Hf. destruct (x =? y) eqn:Hxy; [done|]. bool_to_Z.
  apply NoDup_cons. split; [|by apply IH]. intros [k Hk]%list_elem_of_lookup.
  pose proof (Hs 0%nat 1%nat x y eq_refl eq_refl ltac:(lia)). pose proof (Hs' 0%nat k y x eq_refl Hk ltac:(lia)). lia.
Qed.

(** An SLBLOCK that was accepted has distinct NIDs. *)
Lemma subnode_leaf_distinct ly es bid ly' : add_subnode_leaf ly es = Ok (bid, ly') → NoDup (map (λ e, e.1.1) es).
Proof.
  unfold add_subnode_leaf. destruct (first_repeat _) eqn:Hf; [done|]. intros _.
  rewrite <-(sort_on_perm (λ e, e.1.1) es). apply first_repeat_distinct; [|done].
  unfold sort_on. intros i j a b. rewrite map_map. change (map ?f ?l) with (f <$> l). rewrite !list_lookup_fmap.
  intros (x & Hx & ->)%fmap_Some (y & Hy & ->)%fmap_Some Hij.
  assert (Hk : ∀ z, z ∈ sort_by_key (map (λ a : Z * Z * Z, (a.1.1, a)) es) → z.1 = z.2.1.1).
  { intros z. rewrite sort_by_key_perm. by intros (w & -> & _)%list_elem_of_fmap. }
  rewrite <-(Hk x), <-(Hk y) by by eapply list_elem_of_lookup_2. by eapply sort_by_key_sorted.
Qed.

Section find.
Context `{Crc : Crc32}.

(** A subnode of a table that was written is found. *)
Lemma find_subnode_written file header nbt bbt ly c bid t e :
  reads_back file header nbt bbt ly c → (bid, t) ∈ co_tables c → NoDup (map (λ e, e.1.1) t) → e ∈ t →
  clean (find_subnode_entry file bbt bid e.1.1) (Some (table_entry e)).
Proof.
  intros Hrb Hin Hd He. unfold find_subnode_entry. eapply clean_bind; [by apply (rb_tables _ _ _ _ _ _ Hrb)|].
  assert (find (λ x, sub_nid x =? e.1.1) (map table_entry t) = Some (table_entry e)) as ->; [|apply clean_ret].
  clear Hin. induction t as [|x t IH]; [set_solver|]. cbn [map find] in *. apply NoDup_cons in Hd as [Hx Hd]. cbn [sub_nid table_entry].
  destruct (x.1.1 =? e.1.1) eqn:Hxe; bool_to_Z.
  - apply elem_of_cons in He as [->|He]; [done|]. destruct Hx. rewrite Hxe. by apply (list_elem_of_fmap_2 (λ e : Z * Z * Z, e.1.1)).
  - apply elem_of_cons in He as [->|He]; [done|]. by apply IH.
Qed.
End find.

(** ** The state of a table builder *)

Section state.
Context `{Crc : Crc32} (failures : bool).

Lemma sat_add_nonneg x y : 0 <= x → 0 <= y → 0 <= U64_SAT_ADD x y.
Proof. unfold U64_SAT_ADD. lia. Qed.

(** The NID of the [k]th subnode. *)
Definition nth_nid (k : nat) : Z := subnode_nid (wrap 32 (Z.of_nat k + 1)).

Record ts_ok (s : table_state) (m : gmap Z (list byte)) (c : contents) : Prop := {
  to_heap : heap_stands (ts_heap s) m;
  to_built : built failures (ts_layout s) c;
  to_counter : ts_counter s = wrap 32 (zlen (ts_subs s));
  to_extra : 0 <= ts_extra s;
  to_hids : ∀ hid b, m !! hid = Some b → hid_type hid = 0 ∧ 0 < hid < 2 ^ 32;
  to_subs : ∀ k e, ts_subs s !! k = Some e → ∃ bid b, e = (nth_nid k, bid, 0) ∧ (bid, b) ∈ co_values c }.

Record ts_grows (s : table_state) (m : gmap Z (list byte)) (c : contents) (s' : table_state) (m' : gmap Z (list byte)) (c' : contents) : Prop := {
  tg_heap : m ⊆ m';
  tg_wrote : wrote failures (ts_layout s) c (ts_layout s') c';
  tg_subs : ts_subs s `prefix_of` ts_subs s' }.

Lemma ts_grows_refl s m c : ts_grows s m c s m c.
Proof. split; [done|constructor|done]. Qed.
Lemma ts_grows_trans s m c s1 m1 c1 s2 m2 c2 : ts_grows s m c s1 m1 c1 → ts_grows s1 m1 c1 s2 m2 c2 → ts_grows s m c s2 m2 c2.
Proof. intros [] []. split; [by etrans|by eapply wrote_trans|by etrans]. Qed.

(** A heap or subnode ID leads to the bytes of a cell. *)
Definition cell_stands (s : table_state) (m : gmap Z (list byte)) (c : contents) (hnid : Z) (b : list byte) : Prop :=
  m !! hnid = Some b ∨
  ∃ k bid, hnid = wrap 32 (nth_nid k) ∧ ts_subs s !! k = Some (nth_nid k, bid, 0) ∧ (bid, b) ∈ co_values c ∧ zlen b <= MAX_XBLOCK_ASSEMBLE.

Lemma cell_grows s m c s' m' c' hnid b : ts_grows s m c s' m' c' → cell_stands s m c hnid b → cell_stands s' m' c' hnid b.
Proof.
  intros [Hm Hw [l Hl]] [Hh|(k & bid & -> & Hk & Hin & Hz)]; [left; by eapply lookup_weaken|right].
  exists k, bid. split_and!; [done| |by apply (wrote_kept _ _ _ _ _ Hw)|done]. rewrite Hl. by apply lookup_app_l_Some.
Qed.

(** The refusals of a full heap. *)
Definition heap_full (e : writer_error) : Prop := ∃ n, e = HnBitmapPage n ∨ e = HnAllocTooBig n.

(** A step that keeps the state in order, or finds the heap full. *)
Definition stores {A} (s : table_state) (m : gmap Z (list byte)) (c : contents) (r : wres (A * table_state))
    (P : A → table_state → gmap Z (list byte) → contents → Prop) : Prop :=
  match r with
  | Ok (a, s') => ∃ m' c', ts_ok s' m' c' ∧ ts_grows s m c s' m' c' ∧ P a s' m' c'
  | Err e => heap_full e
  | _ => False
  end.

Lemma stores_ret {A} s m c (a : A) (P : A → _ → _ → _ → Prop) : ts_ok s m c → P a s m c → stores s m c (Ok (a, s)) P.
Proof. intros Ho Hp. exists m, c. split_and!; [done|apply ts_grows_refl|done]. Qed.

Lemma stores_bind {A B} s m c (r : wres (A * table_state)) (f : A * table_state → wres (B * table_state)) P Q :
  stores s m c r P →
  (∀ a s' m' c', ts_ok s' m' c' → ts_grows s m c s' m' c' → P a s' m' c' → stores s' m' c' (f (a, s')) Q) →
  stores s m c (r ≫= f) Q.
Proof.
  intros Hr Hf. destruct r as [[a s1]|e| |]; [|done..]. destruct Hr as (m1 & c1 & Ho1 & Hg1 & Hp). rewrite bind_ok.
  specialize (Hf a s1 m1 c1 Ho1 Hg1 Hp). unfold stores in *. destruct (f (a, s1)) as [[b s2]|e| |]; [|done..].
  destruct Hf as (m2 & c2 & Ho2 & Hg2 & Hq). exists m2, c2. split_and!; [done|by eapply ts_grows_trans|done].
Qed.

Lemma stores_mono {A} s m c (r : wres (A * table_state)) (P Q : A → _ → _ → _ → Prop) :
  stores s m c r P → (∀ a s' m' c', ts_grows s m c s' m' c' → P a s' m' c' → Q a s' m' c') → stores s m c r Q.
Proof. destruct r as [[a s']|e| |]; [|done..]. intros (m' & c' & ? & ? & ?) Hpq. exists m', c'. auto. Qed.

(** A heap step lifts to the state. *)
Lemma heap_alloc_stores s m c b :
  ts_ok s m c →
  match ph_try_alloc (ts_heap s) b with
  | Ok (hid, h) => m !! hid = None ∧ ts_ok (with_heap s h) (<[hid := b]> m) c ∧ ts_grows s m c (with_heap s h) (<[hid := b]> m) c ∧
      hid_type hid = 0 ∧ 0 < hid < 2 ^ 32
  | Err e => heap_full e
  | _ => False
  end.
Proof.
  intros [Hh Hb Hc Hx Hid Hs]. pose proof Hh as (client & css & cs & Hcl & Hst & Hm). pose proof (ph_try_alloc_spec client Hcl (ts_heap s) css cs b Hst) as Hspec.
  destruct (ph_try_alloc (ts_heap s) b) as [[hid h]|e| |] eqn:Hrun; [|destruct e; try done; eexists; eauto|done..].
  destruct (alloc_stands (ts_heap s) m b hid h Hh Hrun) as (Hfresh & Ht & Hr & Hh').
  split; [done|]. split; [|split; [|by split]].
  - split; try done. intros x d. destruct (decide (x = hid)) as [->|Hne]; [done|]. rewrite lookup_insert_ne by done. apply Hid.
  - split; [by apply insert_subseteq|constructor|done].
Qed.

(** [alloc_tc_value] gives a cell its bytes. *)
Lemma alloc_tc_value_stores s m c b :
  ts_ok s m c → zlen b <= MAX_XBLOCK_ASSEMBLE →
  stores s m c (alloc_tc_value s b) (λ hnid s' m' c', cell_stands s' m' c' hnid b).
Proof.
  intros Ho Hz. unfold alloc_tc_value. destruct (MAX_HEAP_VALUE_SIZE <? zlen b) eqn:Hbig.
  - destruct Ho as [Hh Hb Hc Hx Hid Hs]. destruct (built_holds _ _ _ Hb) as (e & Hhold).
    destruct (write_data_chain_spec (ts_layout s) e b (hc_ok _ _ _ _ Hhold)) as (bid & ly' & e' & Hrun & _ & _).
    { unfold MAX_XBLOCK_ASSEMBLE, I32_MAX in *. lia. }
    rewrite Hrun, bind_ok. cbn [fst snd]. assert (Hstep : wstep failures (ts_layout s) c ly' (add_value bid b c)) by by constructor.
    assert (Hnid : next_counter (ts_counter s) = wrap 32 (Z.of_nat (length (ts_subs s)) + 1)).
    { unfold next_counter. rewrite Hc. unfold wrap, zlen. by rewrite Zplus_mod_idemp_l. }
    exists m, (add_value bid b c). split_and!.
    + split; cbn [ts_heap ts_layout ts_counter ts_subs ts_extra]; [done|by eapply built_step| |by apply sat_add_nonneg; [|apply zlen_nonneg]|done|].
      * rewrite Hnid. unfold zlen. rewrite length_app. cbn [length]. f_equal. lia.
      * intros k x [Hk|[Hk1 Hk2]]%lookup_app_Some; [destruct (Hs k x Hk) as (b0 & d & -> & Hd); exists b0, d; split; [done|by right]|]. destruct (k - length (ts_subs s))%nat as [|j] eqn:Ek; [|by destruct j].
        injection Hk2 as <-. assert (k = length (ts_subs s)) as -> by lia. exists bid, b. unfold nth_nid. rewrite Hnid. split; [done|by left].
    + split; [done|by apply wrote_one|by apply prefix_app_r].
    + right. exists (length (ts_subs s)), bid. unfold nth_nid. rewrite <-Hnid. split_and!; [done| |by left|done].
      cbn [ts_subs]. by rewrite list_lookup_middle.
  - pose proof (heap_alloc_stores s m c b Ho) as Hspec. destruct (ph_try_alloc (ts_heap s) b) as [[hid h]|e| |]; try done.
    destruct Hspec as (_ & Ho' & Hg & _). rewrite bind_ok. exists (<[hid := b]> m), c. split_and!; [done|done|left; by rewrite lookup_insert_eq].
Qed.
End state.

(** ** Rows of the recipient table *)

Definition recipient_columns : list tc_column := (build_template_tc_columns RECIPIENT_TABLE_COLUMNS).1.

(** The strings of a recipient as they are stored. *)
Definition stored_display (r : write_recipient) : rstring := default [] (trimmed (wr_display_name r)).
Definition stored_email (r : write_recipient) : rstring := default [] (trimmed (wr_email_address r)).
Definition row_number (i : nat) : Z := Z.min (wrap 32 (Z.of_nat i) + 1) U32_MAX.

(** No value of a recipient is longer than what a reader assembles. *)
Definition recipient_fits (r : write_recipient) : Prop :=
  Forall (λ s, zlen (utf16le_bytes s) <= MAX_XBLOCK_ASSEMBLE)
    [stored_display r; resolve_recipient_address_type r; stored_email r; default [] (trimmed (wr_smtp_address r))] ∧
  zlen (synthesize_recipient_search_key (resolve_recipient_address_type r) (stored_email r) (trimmed (wr_smtp_address r))) <= MAX_XBLOCK_ASSEMBLE.

(** The bytes of a row that a reader looks at. *)
Record recipient_row_shape (v : recipient_cells) (row : list byte) : Prop := {
  rs_length : zlen row = 56;
  rs_type : sub row 0 4 = le_split 4 (rc_type v);
  rs_record_key : sub row 4 4 = le_split 4 (rc_record_key v);
  rs_entry_id : sub row 12 4 = le_split 4 (rc_entry_id v);
  rs_display : sub row 16 4 = le_split 4 (rc_display v);
  rs_addr_type : sub row 20 4 = le_split 4 (rc_addr_type v);
  rs_email : sub row 24 4 = le_split 4 (rc_email v);
  rs_search_key : sub row 28 4 = le_split 4 (rc_search_key v);
  rs_smtp : sub row 36 4 = le_split 4 (default 0 (rc_smtp v));
  rs_seven : sub row 40 4 = le_split 4 (rc_seven v);
  rs_row_id : sub row 44 4 = le_split 4 (rc_row_id v) }.

Lemma recipient_row_built v :
  ∃ row, recipient_row_bytes recipient_columns 56 v = Ok row ∧ recipient_row_shape v row.
Proof.
  assert (Heq : recipient_columns = ltac:(let c := eval vm_compute in recipient_columns in exact c)) by (vm_compute; reflexivity).
  rewrite Heq. clear Heq. destruct v as [a b c d e f g [h|] i j k];
    (eexists; split; [cbv -[byte.of_Z Z.shiftr Z.lor u8]; reflexivity|]; split; cbv -[byte.of_Z Z.shiftr Z.lor u8]; reflexivity).
Qed.

Section recipients.
Context `{Crc : Crc32} (failures : bool).

Definition recipient_stands (s : table_state) (m : gmap Z (list byte)) (c : contents) (i : nat) (r : write_recipient) (v : recipient_cells) : Prop :=
  rc_type v = write_type_to_mapi (wr_type r) ∧ rc_row_id v = row_number i ∧
  cell_stands s m c (rc_display v) (utf16le_bytes (stored_display r)) ∧
  cell_stands s m c (rc_addr_type v) (utf16le_bytes (resolve_recipient_address_type r)) ∧
  cell_stands s m c (rc_email v) (utf16le_bytes (stored_email r)) ∧
  match trimmed (wr_smtp_address r) with
  | Some x => ∃ h, rc_smtp v = Some h ∧ cell_stands s m c h (utf16le_bytes x)
  | None => rc_smtp v = None
  end ∧
  Forall (λ h, ∃ b, cell_stands s m c h b) [rc_record_key v; rc_entry_id v; rc_search_key v; rc_seven v].

Lemma recipient_grows s m c s' m' c' i r v :
  ts_grows failures s m c s' m' c' → recipient_stands s m c i r v → recipient_stands s' m' c' i r v.
Proof.
  intros Hg (H1 & H2 & H3 & H4 & H5 & H6 & H7). pose proof (λ h b, cell_grows failures s m c s' m' c' h b Hg) as Hc.
  split_and!; [done..|by apply Hc|by apply Hc|by apply Hc| |].
  - destruct (trimmed _); [|done]. destruct H6 as (h & ? & ?). exists h. split; [done|by apply Hc].
  - eapply Forall_impl; [exact H7|]. intros h [b Hb]. exists b. by apply Hc.
Qed.

Lemma store_recipient_stores s m c i r :
  ts_ok failures s m c → recipient_fits r →
  stores failures s m c (store_recipient s i r) (λ v s' m' c', recipient_stands s' m' c' i r v).
Proof.
  intros Ho (Hfit & Hsearch). rewrite !Forall_cons in Hfit. destruct Hfit as (F1 & F2 & F3 & F4 & _).
  unfold store_recipient. cbv zeta. fold (stored_display r) (stored_email r) (row_number i).
  set (seven := if bool_decide (stored_display r ≠ []) then _ else _).
  assert (F5 : zlen (utf16le_bytes seven) <= MAX_XBLOCK_ASSEMBLE) by (subst seven; by repeat case_bool_decide).
  eapply stores_bind; [by apply alloc_tc_value_stores|]. cbn [fst snd]. intros d s1 m1 c1 Ho1 _ Hd.
  eapply stores_bind; [by apply alloc_tc_value_stores|]. cbn [fst snd]. intros a s2 m2 c2 Ho2 G2 Ha.
  eapply stores_bind; [by apply alloc_tc_value_stores|]. cbn [fst snd]. intros e s3 m3 c3 Ho3 G3 He.
  eapply stores_bind; [by apply alloc_tc_value_stores|]. cbn [fst snd]. intros v s4 m4 c4 Ho4 G4 Hv.
  eapply stores_bind; [apply alloc_tc_value_stores; [done|unfold MAX_XBLOCK_ASSEMBLE; change (zlen _) with 16; lia]|].
  cbn [fst snd]. intros k s5 m5 c5 Ho5 G5 Hk.
  eapply stores_bind; [apply alloc_tc_value_stores; [done|unfold MAX_XBLOCK_ASSEMBLE; change (zlen _) with 24; lia]|].
  cbn [fst snd]. intros n s6 m6 c6 Ho6 G6 Hn.
  eapply stores_bind; [by apply alloc_tc_value_stores|]. cbn [fst snd]. intros h s7 m7 c7 Ho7 G7 Hh.
  apply (stores_bind failures _ _ _ _ _ (λ o s' m' c', match trimmed (wr_smtp_address r) with
    | Some x => ∃ h, o = Some h ∧ cell_stands s' m' c' h (utf16le_bytes x) | None => o = None end)).
  - destruct (trimmed (wr_smtp_address r)) as [x|]; [|by apply stores_ret].
    eapply stores_bind; [by apply alloc_tc_value_stores|]. cbn [fst snd]. intros y s8 m8 c8 Ho8 _ Hy. apply stores_ret; [done|]. eauto.
  - cbn [fst snd]. intros o s8 m8 c8 Ho8 G8 Hsmtp. apply stores_ret; [done|].
    assert (G7' := ts_grows_trans _ _ _ _ _ _ _ _ _ _ G7 G8). assert (G6' := ts_grows_trans _ _ _ _ _ _ _ _ _ _ G6 G7').
    assert (G5' := ts_grows_trans _ _ _ _ _ _ _ _ _ _ G5 G6'). assert (G4' := ts_grows_trans _ _ _ _ _ _ _ _ _ _ G4 G5').
    assert (G3' := ts_grows_trans _ _ _ _ _ _ _ _ _ _ G3 G4'). assert (G2' := ts_grows_trans _ _ _ _ _ _ _ _ _ _ G2 G3').
    unfold recipient_stands. cbn [rc_type rc_row_id rc_display rc_addr_type rc_email rc_smtp rc_record_key rc_entry_id rc_search_key rc_seven].
    split_and!; [done|done|exact (cell_grows _ _ _ _ _ _ _ _ _ G2' Hd)|exact (cell_grows _ _ _ _ _ _ _ _ _ G3' Ha)|exact (cell_grows _ _ _ _ _ _ _ _ _ G4' He)|done|].
    repeat constructor; eexists; [exact (cell_grows _ _ _ _ _ _ _ _ _ G6' Hk)|exact (cell_grows _ _ _ _ _ _ _ _ _ G7' Hn)
      |exact (cell_grows _ _ _ _ _ _ _ _ _ G8 Hh)|exact (cell_grows _ _ _ _ _ _ _ _ _ G5' Hv)].
Qed.
End recipients.

(** ** Finishing a table *)

Section finish.
Context `{Crc : Crc32} (failures : bool).

(** The two allocations of the RowIndex. *)
Lemma build_index_stores s m c keys :
  ts_ok failures s m c →
  match build_bth_u32_checked (ts_heap s) 4 4 (index_records keys) with
  | Ok (ri, h) => ∃ m' leaf, ts_ok failures (with_heap s h) m' c ∧ ts_grows failures s m c (with_heap s h) m' c ∧
      m' !! ri = Some (u32_bth_bytes leaf) ∧ m' !! leaf = Some (u32_records_bytes (sort_by_key (index_records keys)))
  | Err e => heap_full e
  | _ => False
  end.
Proof.
  intros Ho. unfold build_bth_u32_checked. cbn [Z.ltb Z.compare Pos.compare Pos.compare_cont Z.eqb Pos.eqb].
  set (bth0 := map byte.of_Z [0xB5; 4; 4; 0] ++ le_split 4 0). cbn [try_alloc patch_u32 paged_heap_try_alloc].
  pose proof (heap_alloc_stores failures s m c bth0 Ho) as Ha. destruct (ph_try_alloc (ts_heap s) bth0) as [[ri h1]|e| |]; [|done..].
  destruct Ha as (Hf1 & Ho1 & Hg1 & Ht1 & Hr1). rewrite bind_ok. cbn [fst snd].
  assert (H4 : Forall (λ r : Z * list byte, zlen r.2 = 4) (sort_by_key (index_records keys))).
  { rewrite sort_by_key_perm. apply Forall_forall. intros [k d] (i & x & [= -> ->] & _)%elem_of_lookup_imap. apply zlen_le_split. }
  rewrite u32_leaf_bytes, bind_ok by done. set (leaf_data := u32_records_bytes _).
  pose proof (heap_alloc_stores failures (with_heap s h1) _ c leaf_data Ho1) as Ha. cbn [ts_heap with_heap] in Ha.
  destruct (ph_try_alloc h1 leaf_data) as [[leaf h2]|e| |]; [|done..]. destruct Ha as (Hf2 & Ho2 & Hg2 & Ht2 & Hr2). rewrite bind_ok. cbn [fst snd].
  assert (Hne : ri ≠ leaf) by (intros ->; by rewrite lookup_insert_eq in Hf2).
  set (m2 := <[leaf := leaf_data]> (<[ri := bth0]> m)) in *.
  assert (Hl : m2 !! ri = Some (map byte.of_Z [0xB5; 4; 4; 0] ++ le_split 4 0 ++ [])).
  { unfold m2. rewrite lookup_insert_ne, lookup_insert_eq by done. by rewrite app_nil_r. }
  destruct (patch_stands h2 m2 ri _ (le_split 4 0) [] leaf (to_heap _ _ _ _ Ho2) Hl (zlen_le_split _ _)) as (h3 & Hp & Hs3).
  change (zlen (map byte.of_Z [0xB5; 4; 4; 0])) with 4 in Hp. cbn [patch_u32 paged_heap_try_alloc] in Hp. rewrite Hp, bind_ok.
  rewrite app_nil_r in Hs3. fold (u32_bth_bytes leaf) in Hs3.
  exists (<[ri := u32_bth_bytes leaf]> m2), leaf. split_and!.
  - destruct Ho2 as [_ Hb Hc Hex Hid Hsb]. split; try done. intros x d. destruct (decide (x = ri)) as [->|Hx].
    + intros _. by rewrite Ht1.
    + rewrite lookup_insert_ne by done. apply Hid.
  - split; [|constructor|done]. apply map_subseteq_spec. intros x d Hx.
    assert (x ≠ ri) by (intros ->; congruence). assert (x ≠ leaf).
    { intros ->. rewrite lookup_insert_ne in Hf2 by done. congruence. }
    unfold m2. by rewrite !lookup_insert_ne by done.
  - by rewrite lookup_insert_eq.
  - rewrite lookup_insert_ne by done. unfold m2. by rewrite lookup_insert_eq.
Qed.

Lemma place_tcinfo_stores s m c cols w ri :
  ts_ok failures s m c → 
  match place_tcinfo s cols w ri with
  | Ok (hid, s') => ∃ h m', s' = with_heap s h ∧ ts_ok failures s' m' c ∧ ts_grows failures s m c s' m' c ∧
      m !! hid = None ∧ m' = <[hid := tcinfo_bytes cols w ri 0]> m
  | Err e => heap_full e
  | _ => False
  end.
Proof.
  intros Ho. unfold place_tcinfo. pose proof (heap_alloc_stores failures s m c (tcinfo_bytes cols w 0 0) Ho) as Ha.
  destruct (ph_try_alloc (ts_heap s) _) as [[hid h1]|e| |]; [|done..]. destruct Ha as (Hf & Ho1 & Hg1 & Ht & Hr). rewrite bind_ok. cbn [fst snd].
  set (pre := [byte.of_Z 0x7C; byte.of_Z (wrap 8 (zlen cols))] ++ le_split 2 0 ++ le_split 2 0 ++ le_split 2 0 ++ le_split 2 w).
  assert (Htc : ∀ x, tcinfo_bytes cols w x 0 = pre ++ le_split 4 x ++ le_split 4 0 ++ (c ← cols; column_bytes c)).
  { intros x. unfold tcinfo_bytes, pre. by rewrite <-!(assoc_L (++)). }
  destruct (patch_stands h1 _ hid pre (le_split 4 0) (le_split 4 0 ++ (c ← cols; column_bytes c)) ri (to_heap _ _ _ _ Ho1)) as (h2 & Hp & Hs2);
    [by rewrite lookup_insert_eq, Htc|apply zlen_le_split|].
  change (zlen pre) with 10 in Hp. cbn [patch_u32 paged_heap_try_alloc] in Hp. rewrite Hp, bind_ok. rewrite insert_insert_eq, <-Htc in Hs2.
  eexists h2, _. split; [done|]. split; [|split_and!; [|done|reflexivity]].
  - destruct Ho1 as [_ Hb Hc Hex Hid Hsb]. split; try done. intros x d. destruct (decide (x = hid)) as [->|Hx]; [done|].
    rewrite lookup_insert_ne by done. intros Hx'. apply (Hid x d). by rewrite lookup_insert_ne.
  - split; [by apply insert_subseteq|constructor|done].
Qed.

(** What a reader gets from a table that was written. *)
Definition cell_leads `{SubnodeResolver R} (r : R) (hp : heap) (hnid : Z) (b : list byte) : Prop :=
  hnid ≠ 0 ∧ 0 <= hnid < 2 ^ 32 ∧ (hid_type hnid = 0 → heap_get hp hnid = Ok b) ∧ (hid_type hnid ≠ 0 → clean (resolve_subnode r hnid) b).

Definition table_resolver (file : list byte) (bbt : bbt_index) (t : table_built) (crypt : crypt_method) : block_resolver :=
  {| br_file := file; br_bbt := bbt; br_bid_sub := tb_bid_sub t; br_crypt := crypt |}.

Definition table_refused (e : writer_error) : Prop :=
  heap_full e ∨ (∃ n, e = SlBlockFull n) ∨ ∃ nid, e = DuplicateSlEntry nid.

Lemma nth_nid_small k : Z.of_nat k < 340 → nth_nid k = 32 * (Z.of_nat k + 1) + 31 ∧ wrap 32 (nth_nid k) = nth_nid k ∧
  0 < nth_nid k < 2 ^ 32 ∧ hid_type (nth_nid k) = 31.
Proof.
  intros Hk. assert (Hn : nth_nid k = 32 * (Z.of_nat k + 1) + 31).
  { unfold nth_nid, subnode_nid. rewrite wrap_small by lia.
    rewrite <-Z.add_nocarry_lor; [rewrite Z.shiftl_mul_pow2 by lia; lia|].
    apply Z.bits_inj'. intros n Hn. rewrite Z.land_spec, Z.bits_0, Z.shiftl_spec by done.
    destruct (Z.lt_ge_cases n 5); [by rewrite Z.testbit_neg_r by lia|].
    change 0x1F with (Z.ones 5). rewrite Z.ones_spec_high by lia. apply andb_false_r. }
  rewrite Hn. split; [done|]. split; [by rewrite wrap_small by lia|]. split; [lia|].
  unfold hid_type. change 0x1F with (Z.ones 5). rewrite Z.land_ones by lia. rewrite Z.mul_comm, Z.add_comm, Z.mod_add by lia. done.
Qed.

(** A layout holds a subnode table as soon as it accepts it. *)
Lemma add_subnode_leaf_cases ly e es : ly_ok ly e →
  match add_subnode_leaf ly es with
  | Ok _ => True
  | Err err => (∃ n, err = SlBlockFull n) ∨ ∃ nid, err = DuplicateSlEntry nid
  | _ => False
  end.
Proof.
  intros Hok. unfold add_subnode_leaf. destruct (first_repeat _) as [nid|]; [right; by exists nid|]. destruct (_ <? _) eqn:Hl; [left; eauto|]. bool_to_Z.
  destruct (push_internal_spec ly e _ Hok Hl) as (b & b' & -> & _). by rewrite bind_ok.
Qed.

(** The rows of a table that fits: what closes it. *)
Record table_rows (s : table_state) (m : gmap Z (list byte)) (c : contents) (cols : list tc_column) (w ri leaf : Z)
    (keys : list Z) (rows : list (list byte)) : Prop := {
  tr_ok : ts_ok failures s m c;
  tr_bth : m !! ri = Some (u32_bth_bytes leaf);
  tr_leaf : m !! leaf = Some (u32_records_bytes (sort_by_key (index_records keys)));
  tr_columns : Forall column_fits cols;
  tr_count : zlen cols < 256;
  tr_width : 0 < w <= 128;
  tr_keys : Forall (λ key, 0 <= key < 2 ^ 32) keys;
  tr_some : rows ≠ [];
  tr_rows : Forall (λ row : list byte, zlen row = w) rows;
  tr_same : length keys = length rows;
  tr_cells : ∀ row col, row ∈ rows → col ∈ cols → is_hnid_column col = true →
    0 <= ib_data col ∧ ib_data col + 4 <= w ∧ (le_val row (ib_data col) 4 = 0 ∨ ∃ b, cell_stands s m c (le_val row (ib_data col) 4) b) }.

Lemma rows_bounded s m c cols w ri leaf keys rows :
  table_rows s m c cols w ri leaf keys rows → zlen rows <= 1022 ∧ zlen (concat rows) <= 130816.
Proof.
  intros [[Hh _ _ _ _ _] _ Hl _ _ Hw _ _ Hr Hs _]. pose proof (paged_bounded _ _ _ _ Hh Hl) as Hb.
  rewrite zlen_u32_records in Hb.
  - assert (Hz : zlen (sort_by_key (index_records keys)) = zlen rows).
    { unfold zlen. rewrite sort_by_key_perm. unfold index_records. by rewrite length_imap, Hs. }
    rewrite Hz in Hb. rewrite (zlen_rows rows w Hr). unfold MAX_BLOCK_DATA in Hb. pose proof (zlen_nonneg rows). nia.
  - rewrite sort_by_key_perm. apply Forall_forall. intros [k d] (i & x & [= -> ->] & _)%elem_of_lookup_imap. apply zlen_le_split.
Qed.

Lemma padded_small m w : 0 < w <= 128 → zlen m <= 130816 → zlen (padded_matrix m w) <= MAX_XBLOCK_ASSEMBLE.
Proof.
  intros Hw Hm. unfold padded_matrix. assert (MAX_BLOCK_DATA / w ≠ 0).
  { intros Hz. apply Z.div_small_iff in Hz; [|lia]. unfold MAX_BLOCK_DATA in *. lia. }
  destruct (rows_per_block_bounds w ltac:(lia) H) as [H1 H2].
  pose proof (padded_bound (MAX_BLOCK_DATA / w * w) (length m) m ltac:(lia) H2 H1). unfold MAX_XBLOCK_ASSEMBLE. lia.
Qed.

(** What reading the closed table gives. *)
Definition table_reads (t : table_built) (c' : contents) (s : table_state) (m : gmap Z (list byte)) (c : contents)
    (cols : list tc_column) (w : Z) (keys : list Z) (rows : list (list byte)) : Prop :=
  ∀ file header nbt bbt ly2 c2, kept c' c2 → reads_back file header nbt bbt ly2 c2 →
  let r := table_resolver file bbt t (header_crypt header) in
  ∃ hp ri mnid leaf, written_table r (tb_heap t) hp cols w ri mnid leaf (sort_by_key (index_records keys)) keys rows ∧
    ∀ hnid b, cell_stands s m c hnid b → cell_leads r hp hnid b.

Definition close_table (s : table_state) (cols : list tc_column) (w ri : Z) (rows : list (list byte)) : wres (table_built * layout) :=
  t ← place_tcinfo s cols w ri; finish_table t.2 t.1 (concat rows) w.

(** The subnodes of a table resolve. *)
Lemma subnode_resolves file header nbt bbt ly2 c2 t es k bid b :
  reads_back file header nbt bbt ly2 c2 → (tb_bid_sub t, sort_on (λ e, e.1.1) es) ∈ co_tables c2 → is_internal (tb_bid_sub t) = true →
  NoDup (map (λ e, e.1.1) es) → es !! k = Some (nth_nid k, bid, 0) → Z.of_nat k < 340 → (bid, b) ∈ co_values c2 → zlen b <= MAX_XBLOCK_ASSEMBLE →
  clean (resolve_subnode (table_resolver file bbt t (header_crypt header)) (nth_nid k)) b.
Proof.
  intros Hrb Htab Hint Hnd Hk Hsmall Hv Hz. unfold resolve_subnode, block_subnode_resolver. cbn [br_file br_bbt br_bid_sub br_crypt table_resolver].
  rewrite (internal_not_null _ Hint). eapply clean_bind.
  - apply (find_subnode_written file header nbt bbt ly2 c2 _ _ (nth_nid k, bid, 0) Hrb Htab).
    + by rewrite sort_on_perm.
    + rewrite sort_on_perm. by eapply list_elem_of_lookup_2.
  - cbn. by apply (rb_values _ _ _ _ _ _ Hrb).
Qed.

Lemma zlen_subnode_entries es ly bid ly' : add_subnode_leaf ly es = Ok (bid, ly') → zlen es <= 340.
Proof.
  unfold add_subnode_leaf. destruct (first_repeat _); [done|]. destruct (_ <? _) eqn:Hl; [done|]. bool_to_Z. intros _.
  rewrite zlen_slblock in Hl. assert (zlen (sort_on (λ e : Z * Z * Z, e.1.1) es) = zlen es) as Hz by (unfold zlen; by rewrite sort_on_perm).
  rewrite Hz in Hl. unfold MAX_BLOCK_DATA in Hl. lia.
Qed.

Lemma close_table_reads s m c cols w ri leaf keys rows :
  table_rows s m c cols w ri leaf keys rows →
  match close_table s cols w ri rows with
  | Ok (t, ly') => ∃ c', wrote failures (ts_layout s) c ly' c' ∧ 0 <= tb_extra t ∧ zlen (tb_heap t) <= 8 * MAX_BLOCK_DATA ∧
      tb_bid_sub t ∈ map fst (co_tables c') ∧ table_reads t c' s m c cols w keys rows
  | Err e => table_refused e
  | _ => False
  end.
Proof.
  intros Htr. pose proof (rows_bounded _ _ _ _ _ _ _ _ _ Htr) as [Hn Hmz]. destruct Htr as [Ho Hbth Hleaf Hcols Hcount Hw Hkeys Hsome Hrows Hsame Hcells].
  unfold close_table. pose proof (place_tcinfo_stores s m c cols w ri Ho) as Hp.
  destruct (place_tcinfo s cols w ri) as [[hid s1]|e| |]; [|by left|done..]. rewrite bind_ok. cbn [fst snd].
  destruct Hp as (h1 & m1 & -> & Ho1 & _ & Hfresh & ->). unfold finish_table. cbn [ts_layout ts_heap ts_counter ts_subs ts_extra with_heap].
  destruct Ho1 as [Hh1 Hb1 Hc1 Hex1 Hid1 Hs1]. cbn [ts_layout ts_heap ts_counter ts_subs ts_extra with_heap] in *.
  destruct (built_holds _ _ _ Hb1) as (e & Hhold).
  pose proof (write_row_matrix_spec (ts_layout s) e (concat rows) w (hc_ok _ _ _ _ Hhold) ltac:(unfold I32_MAX; lia) ltac:(lia)) as Hmat.
  assert (Hmod : zlen (concat rows) mod w = 0) by (rewrite (zlen_rows rows w Hrows), Z.mod_mul by lia; done).
  assert (Hstep1 : ∀ bid n ly1, write_row_matrix_tree (ts_layout s) (concat rows) w = Ok (bid, n, ly1) →
    wstep failures (ts_layout s) c ly1 (add_value bid (padded_matrix (concat rows) w) c)).
  { intros bid n ly1 Hrun. eapply step_matrix; [unfold I32_MAX; lia|lia|exact Hrun]. }
  destruct (write_row_matrix_tree _ _ _) as [[[mbid n] ly1]|err| |]; [|destruct err; try done; unfold MAX_BLOCK_DATA in *; lia|done..].
  specialize (Hstep1 _ _ _ eq_refl). assert (Hn0 : 0 <= n) by (destruct Hmat as ((? & _ & _ & _ & ->) & _); apply zlen_nonneg). clear Hmat. rewrite bind_ok. cbv beta iota zeta.
  set (k := length (ts_subs s)). assert (Hcnt : next_counter (ts_counter s) = wrap 32 (Z.of_nat k + 1)).
  { unfold next_counter. rewrite Hc1. unfold wrap, zlen. by rewrite Zplus_mod_idemp_l. }
  rewrite Hcnt. fold (nth_nid k). set (mnid := nth_nid k).
  set (pre := [byte.of_Z 0x7C; byte.of_Z (wrap 8 (zlen cols))] ++ le_split 2 0 ++ le_split 2 0 ++ le_split 2 0 ++ le_split 2 w ++ le_split 4 ri).
  assert (Htc : ∀ x, tcinfo_bytes cols w ri x = pre ++ le_split 4 x ++ (c ← cols; column_bytes c)).
  { intros x. unfold tcinfo_bytes, pre. by rewrite <-!(assoc_L (++)). }
  destruct (patch_stands h1 _ hid pre (le_split 4 0) (c ← cols; column_bytes c) (wrap 32 mnid) Hh1) as (h2 & Hpatch & Hs2);
    [by rewrite lookup_insert_eq, Htc|apply zlen_le_split|].
  change (zlen pre) with 14 in Hpatch. cbn [patch_u32 paged_heap_try_alloc] in Hpatch. rewrite Hpatch, bind_ok, <-Htc, insert_insert_eq in *.
  set (es := ts_subs s ++ [(mnid, mbid, 0)]). set (c1 := add_value mbid (padded_matrix (concat rows) w) c) in *.
  assert (Hb2 : built failures ly1 c1) by (by eapply built_step). destruct (built_holds _ _ _ Hb2) as (e2 & Hhold2).
  pose proof (add_subnode_leaf_cases ly1 e2 es (hc_ok _ _ _ _ Hhold2)) as Hcase.
  destruct (add_subnode_leaf ly1 es) as [[tbid ly2]|err| |] eqn:Hsub; [|by right|done..]. clear Hcase. rewrite bind_ok. cbn [fst snd].
  destruct (Hid1 hid (tcinfo_bytes cols w ri 0)) as [Hth Hrh]; [by rewrite lookup_insert_eq|].
  destruct (ph_finalize_reads h2 _ hid Hs2 ltac:(lia)) as (data & hp & -> & Hparse & Hroot & Hdz & Hget). rewrite bind_ok.
  pose proof (zlen_subnode_entries _ _ _ _ Hsub) as Hlim. pose proof (subnode_leaf_distinct _ _ _ _ Hsub) as Hnd.
  assert (Hk : Z.of_nat k < 340) by (unfold es, zlen in Hlim; rewrite length_app in Hlim; simpl in Hlim; lia).
  assert (Hes : ∀ j x, es !! j = Some x → ∃ bid b, x = (nth_nid j, bid, 0) ∧ (bid, b) ∈ co_values c1).
  { intros j x [Hj|[Hj1 Hj2]]%lookup_app_Some.
    - destruct (Hs1 j x Hj) as (bid & b & -> & Hin). exists bid, b. split; [done|by right].
    - destruct (j - length (ts_subs s))%nat as [|i] eqn:Ej; [|by destruct i]. injection Hj2 as <-.
      assert (j = k) as -> by (unfold k; lia). exists mbid, (padded_matrix (concat rows) w). split; [done|by left]. }
  assert (Hknown : Forall (known_entry c1) es).
  { apply Forall_lookup. intros j x Hj. pose proof (lookup_lt_Some _ _ _ Hj). destruct (Hes j x Hj) as (bid & b & -> & Hin).
    destruct (nth_nid_small j) as (_ & _ & Hr & _); [unfold zlen in Hlim; lia|]. split; [cbn; lia|]. split; [right; left|left; done].
    cbn. by apply (list_elem_of_fmap_2 fst (co_values c1) (bid, b)). }
  set (c2 := add_table tbid (sort_on (λ e, e.1.1) es) c1).
  assert (Hstep2 : wstep failures ly1 c1 ly2 c2) by (by apply step_table).
  destruct (add_subnode_leaf_spec ly1 e2 es tbid ly2 (hc_ok _ _ _ _ Hhold2)) as [_ (_ & _ & Hint & _)];
    [eapply Forall_impl; [exact Hknown|]; intros x; by apply (known_entry_ok failures ly1 c1 e2)|done|]. cbn [fst] in Hint.
  exists c2. cbn [tb_heap tb_bid_sub tb_extra]. split_and!; [by eapply wrote_trans; apply wrote_one|by apply sat_add_nonneg|done|by left|].
  intros file header nbt bbt ly3 c3 Hkept Hrb r. exists hp, ri, mnid, leaf.
  destruct (nth_nid_small k Hk) as (_ & Hwrap & Hmr & Hmt). fold mnid in Hwrap, Hmr, Hmt. rewrite Hwrap in *.
  assert (Hres : ∀ j bid b, es !! j = Some (nth_nid j, bid, 0) → (bid, b) ∈ co_values c1 → zlen b <= MAX_XBLOCK_ASSEMBLE →
    Z.of_nat j < 340 ∧ clean (resolve_subnode r (nth_nid j)) b).
  { intros j bid b Hj Hin Hz. pose proof (lookup_lt_Some _ _ _ Hj). assert (Z.of_nat j < 340) by (unfold zlen in Hlim; lia). split; [done|].
    destruct Hkept as [Hkv Hkt]. apply (subnode_resolves file header nbt bbt ly3 c3 _ es j bid b); try done; [apply Hkt; by left|by apply Hkv]. }
  assert (Hother : ∀ x b, m !! x = Some b → heap_get hp x = Ok b).
  { intros x b Hx. apply Hget. rewrite lookup_insert_ne; [done|congruence]. }
  assert (Hleads : ∀ hnid b, cell_stands s m c hnid b → cell_leads r hp hnid b).
  { intros hnid b [Hx|(j & bid & -> & Hj & Hin & Hz)].
    - destruct (to_hids _ _ _ _ Ho hnid b Hx) as [Ht Hr]. split_and!; [lia|lia|lia|by intros _; apply Hother|by intros ?].
    - destruct (Hres j bid b) as [Hsm Hc']; [unfold es; by apply lookup_app_l_Some|by right|done|].
      destruct (nth_nid_small j Hsm) as (_ & -> & Hr & Ht). unfold cell_leads. rewrite Ht. split_and!; [lia|lia|lia|done|by intros _]. }
  split; [|exact Hleads]. cbn [tb_heap].
  assert (Hmm : es !! k = Some (mnid, mbid, 0)) by (unfold es, k; by rewrite list_lookup_middle).
  destruct (to_hids _ _ _ _ Ho ri _ Hbth) as [_ Hri]. destruct (to_hids _ _ _ _ Ho leaf _ Hleaf) as [_ Hlf].
  split; try done.
  - rewrite Hroot. apply Hget. by rewrite lookup_insert_eq.
  - unfold MAX_BLOCK_DATA. lia.
  - by apply Hother.
  - by apply Hother.
  - apply sort_by_key_perm.
  - rewrite Hmt. split_and!; lia.
  - apply (Hres k mbid); [done|by left|by apply padded_small].
  - lia.
  - intros row col Hrow Hcol Hh. destruct (Hcells row col Hrow Hcol Hh) as (H1 & H2 & Hcell). split; [done|split; [done|]].
    destruct Hcell as [Hz|[b Hb]]; [by left|]. destruct (Hleads _ _ Hb) as (_ & _ & _ & Hc').
    destruct (decide (hid_type (le_val row (ib_data col) 4) = 0)); [by right; left|right; right]. exists b. by apply Hc'.
Qed.
End finish.

(** ** The row loop *)

Section loop.
Context `{Crc : Crc32} (failures : bool) {A : Type}.
Context (step : list (list byte) * list (Z * list byte) * table_state → nat * A → wres (list (list byte) * list (Z * list byte) * table_state)).
Context (fits : A → Prop) (key : nat → A → Z) (row_ok : table_state → gmap Z (list byte) → contents → nat → A → list byte → Prop).
Context (row_grows : ∀ s m c s' m' c' i a row, ts_grows failures s m c s' m' c' → row_ok s m c i a row → row_ok s' m' c' i a row).

(** One iteration adds a row and its record. *)
Definition adds_row : Prop := ∀ matrix records s m c i a, ts_ok failures s m c → fits a →
  match step (matrix, records, s) (i, a) with
  | Ok (matrix', records', s') => ∃ row m' c', matrix' = matrix ++ [row] ∧
      records' = records ++ [(key i a, le_split 4 (wrap 32 (Z.of_nat i)))] ∧
      ts_ok failures s' m' c' ∧ ts_grows failures s m c s' m' c' ∧ row_ok s' m' c' i a row
  | Err e => heap_full e
  | _ => False
  end.
Context (Hstep : adds_row).

Lemma add_rows_stores rows : ∀ k matrix records s m c,
  Forall fits rows → ts_ok failures s m c →
  match mfold step (zip (seq k (length rows)) rows) (matrix, records, s) with
  | Ok (matrix', records', s') => ∃ new m' c', matrix' = matrix ++ new ∧
      records' = records ++ imap (λ i a, (key (k + i) a, le_split 4 (wrap 32 (Z.of_nat (k + i))))) rows ∧
      ts_ok failures s' m' c' ∧ ts_grows failures s m c s' m' c' ∧ length new = length rows ∧
      ∀ i a row, rows !! i = Some a → new !! i = Some row → row_ok s' m' c' (k + i) a row
  | Err e => heap_full e
  | _ => False
  end.
Proof using Hstep row_grows.
  induction rows as [|a rows IH]; intros k matrix records s m c Hf Ho.
  { cbn. exists [], m, c. rewrite !app_nil_r. split_and!; [done..|apply ts_grows_refl|done|done]. }
  apply Forall_cons in Hf as [Ha Hf]. cbn [length seq zip zip_with mfold foldr].
  pose proof (Hstep matrix records s m c k a Ho Ha) as H1.
  destruct (step (matrix, records, s) (k, a)) as [[[mx1 rc1] s1]|e| |]; [|done..].
  destruct H1 as (row & m1 & c1 & -> & -> & Ho1 & Hg1 & Hr1). rewrite bind_ok.
  specialize (IH (S k) (matrix ++ [row]) (records ++ [(key k a, le_split 4 (wrap 32 (Z.of_nat k)))]) s1 m1 c1 Hf Ho1).
  change (zip (seq (S k) (length rows)) rows) with (zip_with pair (seq (S k) (length rows)) rows) in IH.
  destruct (mfold step _ _) as [[[mx2 rc2] s2]|e| |]; [|done..].
  destruct IH as (new & m2 & c2 & -> & -> & Ho2 & Hg2 & Hl & Hr2). exists (row :: new), m2, c2. split_and!; [| |done|by eapply ts_grows_trans|by cbn; rewrite Hl|].
  - by rewrite <-(assoc_L (++)).
  - rewrite imap_cons, Nat.add_0_r, <-(assoc_L (++)). f_equal. cbn [app]. f_equal. apply imap_ext. intros i x _. cbn. by rewrite Nat.add_succ_r.
  - intros [|i] x y; cbn [lookup list_lookup]; [intros [= <-] [= <-]; rewrite Nat.add_0_r; by apply (row_grows _ _ _ _ _ _ _ _ _ Hg2)|].
    intros Hx Hy. rewrite Nat.add_succ_r. by apply Hr2.
Qed.
End loop.

(** ** The tables of a message *)

Section tables.
Context `{Crc : Crc32} (failures : bool).

Lemma new_state_ok ly c : built failures ly c → ts_ok failures (empty_table_state ly) ∅ c.
Proof. intros Hb. split; [by apply paged_stands_new|done|done|done|done|done]. Qed.

(** The RowIndex, the TCINFO and the matrix of a table with rows. *)
Lemma index_and_close s m c cols w keys rows :
  ts_ok failures s m c → Forall column_fits cols → zlen cols < 256 → 0 < w <= 128 →
  Forall (λ key, 0 <= key < 2 ^ 32) keys → rows ≠ [] → Forall (λ row : list byte, zlen row = w) rows → length keys = length rows →
  (∀ row col, row ∈ rows → col ∈ cols → is_hnid_column col = true →
    0 <= ib_data col ∧ ib_data col + 4 <= w ∧ (le_val row (ib_data col) 4 = 0 ∨ ∃ b, cell_stands s m c (le_val row (ib_data col) 4) b)) →
  match (index ← build_bth_u32_checked (ts_heap s) 4 4 (index_records keys); close_table (with_heap s index.2) cols w index.1 rows) with
  | Ok (t, ly') => ∃ c', wrote failures (ts_layout s) c ly' c' ∧ 0 <= tb_extra t ∧ zlen (tb_heap t) <= 8 * MAX_BLOCK_DATA ∧
      tb_bid_sub t ∈ map fst (co_tables c') ∧ table_reads t c' s m c cols w keys rows
  | Err e => table_refused e
  | _ => False
  end.
Proof.
  intros Ho Hcols Hcount Hw Hkeys Hsome Hrows Hsame Hcells.
  pose proof (build_index_stores failures s m c keys Ho) as Hi.
  destruct (build_bth_u32_checked (ts_heap s) 4 4 (index_records keys)) as [[ri h]|e| |]; [|by left|done..]. rewrite bind_ok. cbn [fst snd].
  destruct Hi as (m' & leaf & Ho' & Hg & Hbth & Hleaf).
  assert (Htr : table_rows failures (with_heap s h) m' c cols w ri leaf keys rows).
  { split; try done. intros row col Hrow Hcol Hh. destruct (Hcells row col Hrow Hcol Hh) as (H1 & H2 & [Hz|[b Hb]]); (split; [done|split; [done|]]);
      [by left|right]. exists b. by eapply cell_grows. }
  pose proof (close_table_reads _ _ _ _ _ _ _ _ _ _ Htr) as Hclose. destruct (close_table _ _ _ _ _) as [[t ly']|e| |]; [|done..].
  destruct Hclose as (c' & Hwr & Hex & Hz & Hsub & Hreads). exists c'. split_and!; [done..|].
  intros file header nbt bbt ly2 c2 Hkept Hrb r. destruct (Hreads file header nbt bbt ly2 c2 Hkept Hrb) as (hp & ri' & mnid & leaf' & Hwt & Hleads).
  exists hp, ri', mnid, leaf'. split; [done|]. intros hnid b Hb. apply Hleads. by eapply cell_grows.
Qed.
End tables.
