(* ===== verification/TableTheorems.v ===== *)
(** * Tables of a message, written and read

    The recipient table and the attachment table of a message load from the
    finalized file as the rows that were written. *)

From S2P Require Import Prelude Telemetry PstError Crypt Header Btree Block BlockFacts Streaming Heap Bth Utf PropContext TableContext Folder Text Recipient Message WriterHeap NamedPropMap CloudRoundTrip Layout LayoutFacts DataChain DataChainFacts StreamWrite TreeWriter NdbLayout NdbPages NdbTree NdbFile NdbRead NdbStore NdbRoundTrip PagedHeap PagedHeapFacts WriterTable TableRows WriterTableFacts.
#[local] Open Scope Z_scope.

(** ** Opening a finished file *)

Section finished.
Context `{Crc : Crc32} `{!Crc32Range}.

(** The file that finalizing a layout gives, and what the reader opens in it. *)
Definition finished (ly : layout) (file : list byte) (header : pst_header) (nbt : nbt_index) (bbt : bbt_index) : Prop :=
  ∃ ly' np bp f, finalize_layout ly = Ok (ly', np, bp) ∧ in_u64 ly' ∧ finalize_file ly' np bp = Ok f ∧ f_bytes f = file ∧
    header_read file = Ok header ∧ outcome (nbt_build file header) = Ok nbt ∧ outcome (bbt_build file header) = Ok bbt.

Lemma finished_reads ly c file header nbt bbt :
  built false ly c → finished ly file header nbt bbt → reads_back file header nbt bbt ly c.
Proof.
  intros Hbuilt (ly' & np & bp & f & Hrun & Hu & Hf & <- & Hh & Hn & Hb).
  destruct (built_holds false ly c Hbuilt) as (e & Hhold).
  destruct (finalize_layout_spec ly e (hc_ok _ _ _ _ Hhold) (hc_pages _ _ _ _ Hhold)) as (ly1 & np1 & bp1 & maps & pages & Hrun1 & Hfn).
  rewrite Hrun in Hrun1. injection Hrun1 as <- <- <-.
  destruct (finalized_reads false ly c e Hhold ly' np bp maps pages Hfn Hu (hc_amap _ _ _ _ Hhold eq_refl)) as (f1 & header1 & nbt1 & bbt1 & Hf1 & Hrb).
  rewrite Hf in Hf1. injection Hf1 as <-. pose proof (rb_header _ _ _ _ _ _ Hrb) as Hh1. rewrite Hh in Hh1. injection Hh1 as <-.
  pose proof (rb_nbt _ _ _ _ _ _ Hrb) as Hn1. rewrite Hn in Hn1. injection Hn1 as <-.
  pose proof (rb_bbt _ _ _ _ _ _ Hrb) as Hb1. rewrite Hb in Hb1. injection Hb1 as <-. done.
Qed.
End finished.

(** ** Recipients *)

(** A recipient's strings are Rust strings. *)
Definition scalar_option (o : option rstring) : Prop := ∀ s, o = Some s → Forall scalar s.
Definition recipient_strings (r : write_recipient) : Prop :=
  scalar_option (wr_display_name r) ∧ scalar_option (wr_address_type r) ∧ scalar_option (wr_email_address r) ∧
  scalar_option (wr_smtp_address r) ∧ 0 <= write_type_to_mapi (wr_type r) < 2 ^ 32.

(** A recipient as the reader reports it. *)
Definition reread_recipient (r : write_recipient) : recipient :=
  {| recipient_type := from_mapi (write_type_to_mapi (wr_type r));
     display_name := utf8 <$> trimmed (wr_display_name r);
     address_type := utf8 <$> trimmed (Some (resolve_recipient_address_type r));
     email_address := utf8 <$> trimmed (wr_email_address r);
     smtp_address := utf8 <$> trimmed (wr_smtp_address r) |}.

Lemma recipient_schema : build_template_tc_columns RECIPIENT_TABLE_COLUMNS = (recipient_columns, 56).
Proof. vm_compute. reflexivity. Qed.

#[export] Instance column_fits_dec c : Decision (column_fits c).
Proof. unfold column_fits. apply _. Defined.

Lemma recipient_columns_fit : Forall column_fits recipient_columns ∧ zlen recipient_columns < 256.
Proof. apply (bool_decide_unpack _). vm_compute. exact I. Qed.

(** The cells of a row that hold heap or subnode IDs. *)
Lemma recipient_id_cells (P : Z → Prop) :
  (∀ ib, ib ∈ [4; 12; 16; 20; 24; 28; 36; 40] → P ib) → ∀ col, col ∈ recipient_columns → is_hnid_column col = true → 0 <= ib_data col ∧ ib_data col + 4 <= 56 ∧ P (ib_data col).
Proof.
  intros HP. assert (H : Forall (λ col, is_hnid_column col = true → ib_data col ∈ [4; 12; 16; 20; 24; 28; 36; 40] ∧ 0 <= ib_data col ∧ ib_data col + 4 <= 56) recipient_columns)
    by (apply (bool_decide_unpack _); vm_compute; exact I).
  rewrite Forall_forall in H. intros col Hc Hh. destruct (H col Hc Hh) as (? & ? & ?). auto.
Qed.

Lemma field_val (row : list byte) ib x : sub row ib 4 = le_split 4 x → 0 <= x < 2 ^ 32 → le_val row ib 4 = x.
Proof. intros H Hx. unfold le_val. rewrite H. by apply le_combine_split_id. Qed.

Section recipients.
Context `{Crc : Crc32} `{!Crc32Range} (failures : bool).

Lemma cell_range s m c h b : ts_ok failures s m c → cell_stands s m c h b → 0 <= h < 2 ^ 32.
Proof.
  intros Ho [Hh|(k & bid & -> & _)]; [destruct (to_hids _ _ _ _ Ho _ _ Hh); lia|]. unfold wrap. by apply Z.mod_pos_bound.
Qed.

Definition recipient_row_ok (s : table_state) (m : gmap Z (list byte)) (c : contents) (i : nat) (r : write_recipient) (row : list byte) : Prop :=
  ∃ v, recipient_row_shape v row ∧ recipient_stands s m c i r v.

Lemma adds_recipient :
  adds_row failures (add_recipient_row recipient_columns 56) recipient_fits (λ i _, row_number i) recipient_row_ok.
Proof.
  intros matrix records s m c i r Ho Hf. unfold add_recipient_row.
  pose proof (store_recipient_stores failures s m c i r Ho Hf) as Hs. destruct (store_recipient s i r) as [[v s1]|e| |]; [|done..].
  destruct Hs as (m1 & c1 & Ho1 & Hg1 & Hv). rewrite bind_ok. cbn [fst snd]. destruct (recipient_row_built v) as (row & -> & Hshape).
  rewrite bind_ok. exists row, m1, c1. destruct Hv as (Ht & Hid & Hv). rewrite Hid. split_and!; [done..|]. by exists v.
Qed.

(** The cells of such a row are empty or lead to their bytes. *)
Lemma recipient_cell_known s m c i r row ib :
  ts_ok failures s m c → recipient_row_ok s m c i r row → ib ∈ [4; 12; 16; 20; 24; 28; 36; 40] →
  le_val row ib 4 = 0 ∨ ∃ b, cell_stands s m c (le_val row ib 4) b.
Proof.
  intros Ho (v & [Hl Ht Hrk He Hd Ha Hem Hsk Hsm H7 Hri] & (_ & _ & Cd & Ca & Ce & Csm & Cother)) Hib.
  rewrite !Forall_cons in Cother. destruct Cother as ((b1 & C1) & (b2 & C2) & (b3 & C3) & (b4 & C4) & _).
  assert (Hcell : ∀ ib h b, sub row ib 4 = le_split 4 h → cell_stands s m c h b → ∃ b, cell_stands s m c (le_val row ib 4) b).
  { intros ib' h b Hs Hc. exists b. rewrite (field_val row ib' h Hs); [done|]. by eapply cell_range. }
  repeat (apply elem_of_cons in Hib as [->|Hib]); [right; eauto..| |right; eauto|by apply elem_of_nil in Hib].
  destruct (trimmed (wr_smtp_address r)) as [x|].
  - destruct Csm as (h & Eh & Ch). rewrite Eh in Hsm. right. eauto.
  - rewrite Csm in Hsm. left. by apply field_val.
Qed.

Lemma resolved_scalar r : recipient_strings r → Forall scalar (resolve_recipient_address_type r).
Proof.
  intros (_ & Ha & He & _). unfold resolve_recipient_address_type. destruct (trimmed (wr_address_type r)) as [t|] eqn:Ht.
  { by apply (trimmed_scalar _ t Ha). }
  destruct (trimmed (wr_smtp_address r)); [by repeat constructor|]. destruct (trimmed (wr_email_address r)); [|constructor].
  repeat case_match; repeat constructor.
Qed.

(** A loaded row is the recipient. *)
Section row.
Context (r : block_resolver) (hp : heap) (ri mnid : Z) (keys : list Z) (rows : list (list byte)) (cells : gmap Z (list byte)).
Context (s : table_state) (m : gmap Z (list byte)) (c : contents) (Ho : ts_ok failures s m c).
Context (Hright : cells_right r cells).
Context (Hdone : ∀ row col, row ∈ rows → col ∈ recipient_columns → is_hnid_column col = true → cell_done cells (le_val row (ib_data col) 4)).
Context (Hleads : ∀ hnid b, cell_stands s m c hnid b → cell_leads r hp hnid b).
Context (Hrows : Forall (λ row : list byte, zlen row = 56) rows).
Abbreviation tc := (loaded_table hp recipient_columns 56 ri mnid keys rows cells).

Lemma string_cell i row id col h str :
  rows !! i = Some row → find (λ c, prop_id c =? id) recipient_columns = Some col → is_hnid_column col = true → prop_type col = 0x001F →
  sub row (ib_data col) 4 = le_split 4 h → cell_stands s m c h (utf16le_bytes str) → Forall scalar str →
  opt_row_string (get_row_string tc (Z.of_nat i) id) = Ok (utf8 <$> trimmed (Some str)).
Proof using Ho Hright Hdone Hleads Hrows.
  intros Hi Hf Hh Hty Hsub Hc Hs.
  assert (Hin : col ∈ recipient_columns) by (apply list_elem_of_In; by eapply find_some).
  destruct (recipient_id_cells (λ _, True) (λ _ _, I) col Hin Hh) as (H1 & H2 & _).
  assert (Hcb : cb_data col = 4) by (unfold is_hnid_column in Hh; apply andb_prop in Hh as [Hh _]; by apply Z.eqb_eq).
  assert (Hv : le_val row (ib_data col) 4 = h) by (apply field_val; [done|by eapply cell_range]).
  destruct (Hleads h _ Hc) as (Hnz & Hr & Hheap & Hnode).
  rewrite (row_string_written hp recipient_columns 56 ri mnid keys rows cells Hrows i row Hi id col str); rewrite ?Hv; try done.
  - unfold opt_row_string. cbn [soft]. rewrite bind_ok. cbn [option_map]. by rewrite nonempty_any.
  - intros Ht. assert (Hd : cell_done cells h) by (rewrite <-Hv; apply Hdone; [by eapply list_elem_of_lookup_2|done..]).
    destruct (Hd Hnz Ht) as [b Hb]. rewrite Hb. f_equal. eapply clean_unique; [by apply Hright|by apply Hnode].
Qed.

Lemma recipient_row_reread i row x :
  rows !! i = Some row → recipient_row_ok s m c i x row → recipient_strings x →
  recipient_row tc (Z.of_nat i) = Ok (reread_recipient x).
Proof using Ho Hright Hdone Hleads Hrows.
  intros Hi (v & [Hl Ht Hrk He Hd Ha Hem Hsk Hsm H7 Hri] & (Vt & Vid & Cd & Ca & Ce & Csm & Cother)) Hstr.
  pose proof (resolved_scalar x Hstr) as Hres. destruct Hstr as (S1 & S2 & S3 & S4 & Hty). unfold recipient_row.
  rewrite (row_u32_written hp recipient_columns 56 ri mnid keys rows cells Hrows i row Hi Message.PID_TAG_RECIPIENT_TYPE
    {| prop_id := 0x0C15; prop_type := 3; ib_data := 0; cb_data := 4; i_bit := 0 |}) by done.
  cbn [ib_data]. rewrite bind_ok, (field_val row 0 _ Ht) by by rewrite Vt.
  rewrite (string_cell i row PID_TAG_DISPLAY_NAME {| prop_id := 0x3001; prop_type := 31; ib_data := 16; cb_data := 4; i_bit := 4 |}
    (rc_display v) (stored_display x)), bind_ok by (done || by apply default_scalar).
  rewrite (string_cell i row Message.PID_TAG_ADDRESS_TYPE {| prop_id := 0x3002; prop_type := 31; ib_data := 20; cb_data := 4; i_bit := 5 |}
    (rc_addr_type v) (resolve_recipient_address_type x)), bind_ok by done.
  rewrite (string_cell i row Message.PID_TAG_EMAIL_ADDRESS {| prop_id := 0x3003; prop_type := 31; ib_data := 24; cb_data := 4; i_bit := 6 |}
    (rc_email v) (stored_email x)), bind_ok by (done || by apply default_scalar).
  assert (Hsmtp : opt_row_string (get_row_string tc (Z.of_nat i) Message.PID_TAG_SMTP_ADDRESS) = Ok (utf8 <$> trimmed (wr_smtp_address x))).
  { set (col := {| prop_id := 0x39FE; prop_type := 31; ib_data := 36; cb_data := 4; i_bit := 9 |}).
    destruct (trimmed (wr_smtp_address x)) as [t|] eqn:Et.
    - destruct Csm as (h & Eh & Ch). rewrite Eh in Hsm. destruct (trimmed_scalar _ t S4 Et) as (Hs & _).
      rewrite (string_cell i row Message.PID_TAG_SMTP_ADDRESS col h t) by done. f_equal. pose proof (trimmed_again _ S4) as E. by rewrite Et in E.
    - rewrite Csm in Hsm. rewrite (row_string_absent hp recipient_columns 56 ri mnid keys rows cells Hrows i row Hi _ col) by (done || by apply field_val).
      done. }
  rewrite Hsmtp, bind_ok. unfold stored_display, stored_email. rewrite !trimmed_again by done. unfold reread_recipient. by rewrite Vt.
Qed.
End row.

(** The empty table. *)
Lemma empty_table_closes s m c h hid :
  ts_ok failures (with_heap s h) (<[hid := tcinfo_bytes recipient_columns 56 0 0]> m) c →
  ∃ data hp h2, ph_patch_u32 h hid 14 0 = Ok h2 ∧ ph_finalize h2 hid = Ok data ∧ heap_parse data (node_block_size data) = Ok hp ∧
    hid_user_root (hn hp) = hid ∧ zlen data <= 8 * MAX_BLOCK_DATA ∧ heap_get hp hid = Ok (tcinfo_bytes recipient_columns 56 0 0) ∧ 0 <= hid < 2 ^ 32.
Proof.
  intros Ho. destruct (to_hids _ _ _ _ Ho hid (tcinfo_bytes recipient_columns 56 0 0)) as [_ Hr]; [by rewrite lookup_insert_eq|].
  set (pre := [byte.of_Z 0x7C; byte.of_Z (wrap 8 (zlen recipient_columns))] ++ le_split 2 0 ++ le_split 2 0 ++ le_split 2 0 ++ le_split 2 56 ++ le_split 4 0).
  assert (Htc : tcinfo_bytes recipient_columns 56 0 0 = pre ++ le_split 4 0 ++ (c ← recipient_columns; column_bytes c)).
  { unfold tcinfo_bytes, pre. by rewrite <-!(assoc_L (++)). }
  destruct (patch_stands h _ hid pre (le_split 4 0) (c ← recipient_columns; column_bytes c) 0 (to_heap _ _ _ _ Ho)) as (h2 & Hp & Hs2);
    [by rewrite lookup_insert_eq, Htc|apply zlen_le_split|].
  change (zlen pre) with 14 in Hp. cbn [patch_u32 paged_heap_try_alloc ts_heap with_heap] in Hp. rewrite <-Htc, insert_insert_eq in Hs2.
  destruct (ph_finalize_reads h2 _ hid Hs2 ltac:(lia)) as (data & hp & Hf & Hparse & Hroot & Hz & Hget).
  exists data, hp, h2. split_and!; [done..|apply Hget; by rewrite lookup_insert_eq|lia|lia].
Qed.

Lemma empty_table_reads data hp hid (r : block_resolver) :
  0 <= hid < 2 ^ 32 → heap_parse data (node_block_size data) = Ok hp → hid_user_root (hn hp) = hid →
  heap_get hp hid = Ok (tcinfo_bytes recipient_columns 56 0 0) →
  ∃ table, clean (load_inner data (Some r)) table ∧ table_recipients table = Ok [].
Proof.
  intros Hr Hp Hroot Hg. destruct recipient_columns_fit as [Hc Hn]. eexists. split.
  - unfold load_inner. eapply clean_quiet_bind; [exact Hp|]. rewrite Hroot. eapply clean_quiet_bind; [exact Hg|].
    eapply clean_quiet_bind; [by apply parse_tc_info_written|]. cbn [rgib written_info snd].
    eapply clean_bind; [apply (clean_ret ([], 0))|]. cbn [fst snd]. eapply clean_bind; [apply (clean_ret ∅)|].
    eapply clean_quiet_bind; [reflexivity|]. apply clean_ret.
  - done.
Qed.

Lemma row_number_range i : 0 <= row_number i < 2 ^ 32.
Proof. unfold row_number, U32_MAX, wrap. pose proof (Z.mod_pos_bound (Z.of_nat i) (2 ^ 32)). lia. Qed.

Lemma rmap_lookup_ok {A B} (f : nat → pres B) (g : A → B) (xs : list A) :
  (∀ i x, xs !! i = Some x → f i = Ok (g x)) → rmap f (seq 0 (length xs)) = Ok (map g xs).
Proof.
  enough (Hk : ∀ k, (∀ i x, xs !! i = Some x → f (k + i)%nat = Ok (g x)) → rmap f (seq k (length xs)) = Ok (map g xs)) by apply (Hk 0%nat).
  induction xs as [|x xs IH]; intros k Hf; [done|]. cbn [length seq map]. rewrite rmap_cons.
  pose proof (Hf 0%nat x eq_refl) as H0. rewrite Nat.add_0_r in H0. rewrite H0, bind_ok, IH; [done|].
  intros i y Hi. specialize (Hf (S i) y Hi). by rewrite Nat.add_succ_r in Hf.
Qed.

Lemma recipient_table_built ly c rows :
  built failures ly c → Forall recipient_fits rows → Forall recipient_strings rows →
  match build_recipient_table_strategy_a ly rows with
  | Ok (t, ly') => ∃ c', wrote failures ly c ly' c' ∧ 0 <= tb_extra t ∧ zlen (tb_heap t) <= 8 * MAX_BLOCK_DATA ∧
      (tb_bid_sub t = 0 ∨ tb_bid_sub t ∈ map fst (co_tables c')) ∧
      ∀ file header nbt bbt ly2 c2, kept c' c2 → reads_back file header nbt bbt ly2 c2 →
        ∃ table, clean (load_from_table_bids (tb_heap t) file bbt (tb_bid_sub t) (header_crypt header)) table ∧
          table_recipients table = Ok (map reread_recipient rows)
  | Err e => table_refused e
  | _ => False
  end.
Proof.
  intros Hb Hfit Hstr. unfold build_recipient_table_strategy_a. rewrite recipient_schema. cbv beta iota. cbn [Z.eqb].
  pose proof (add_rows_stores failures (add_recipient_row recipient_columns 56) recipient_fits (λ i _, row_number i) recipient_row_ok) as Hloop.
  specialize (Hloop ltac:(intros s m c0 s' m' c' i a row Hg (v & ? & ?); exists v; split; [done|by eapply recipient_grows]) adds_recipient
    rows 0%nat [] [] (empty_table_state ly) ∅ c Hfit (new_state_ok failures ly c Hb)).
  destruct (mfold _ _ _) as [[[matrix records] s]|e| |]; [|by left|done..]. rewrite bind_ok. cbv beta iota.
  destruct Hloop as (new & m & c1 & -> & -> & Ho & Hg & Hlen & Hrows). cbn [app] in *.
  destruct rows as [|x rows']; [|set (rows := x :: rows') in *].
  - pose proof (place_tcinfo_stores failures s m c1 recipient_columns 56 0 Ho) as Hp.
    destruct (place_tcinfo s recipient_columns 56 0) as [[hid s1]|e| |]; [|by left|done..]. rewrite bind_ok. cbn [fst snd].
    destruct Hp as (h1 & m1 & -> & Ho1 & Hg1 & Hfresh & ->). cbn [ts_heap ts_layout with_heap].
    destruct (empty_table_closes s m c1 h1 hid Ho1) as (data & hp & h2 & -> & Hfin & Hparse & Hroot & Hz & Hget & Hr). rewrite bind_ok, Hfin, bind_ok.
    exists c1. cbn [tb_heap tb_bid_sub tb_extra]. split_and!; [exact (tg_wrote _ _ _ _ _ _ _ Hg)|done|done|by left|].
    intros file header nbt bbt ly2 c2 _ _. by apply (empty_table_reads data hp hid).
  - assert (Hrec : imap (λ i _, (row_number (0 + i), le_split 4 (wrap 32 (Z.of_nat (0 + i))))) rows = index_records (imap (λ i _, row_number i) rows)).
    { apply list_eq. intros i. unfold index_records. rewrite !list_lookup_imap. by destruct (rows !! i). }
    assert (Hok : ∀ i r row, rows !! i = Some r → new !! i = Some row → recipient_row_ok s m c1 i r row) by exact Hrows.
    rewrite Hrec. assert (Hrow : ∀ i row, new !! i = Some row → ∃ r, rows !! i = Some r ∧ recipient_row_ok s m c1 i r row).
    { intros i row Hi. destruct (lookup_lt_is_Some_2 rows i) as [r Hr]; [rewrite <-Hlen; by eapply lookup_lt_Some|]. exists r. split; [done|by apply Hok]. }
    assert (H56 : Forall (λ row : list byte, zlen row = 56) new).
    { apply Forall_lookup. intros i row Hi. destruct (Hrow i row Hi) as (r & _ & v & [? _ _ _ _ _ _ _ _ _ _] & _). done. }
    pose proof (index_and_close failures s m c1 recipient_columns 56 (imap (λ i _, row_number i) rows) new Ho) as Hclose.
    specialize (Hclose (proj1 recipient_columns_fit) (proj2 recipient_columns_fit) ltac:(lia)).
    unfold close_table in Hclose.
    specialize (Hclose ltac:(apply Forall_lookup; intros i key; rewrite list_lookup_imap; intros (y & _ & ->)%fmap_Some; apply row_number_range)
      ltac:(intros ->; done) H56 ltac:(by rewrite length_imap)).
    specialize (Hclose ltac:(intros row col Hin Hcol Hh; apply list_elem_of_lookup in Hin as [i Hi]; destruct (Hrow i row Hi) as (r & _ & Hrok);
      apply (recipient_id_cells (λ ib, le_val row ib 4 = 0 ∨ ∃ b, cell_stands s m c1 (le_val row ib 4) b)); [|done|done];
      intros ib Hib; by eapply recipient_cell_known)).
    destruct (_ ≫= _) as [[t ly']|e| |]; [|done..]. destruct Hclose as (c' & Hw & Hex & Hz & Hsub & Hreads).
    exists c'. split_and!; [eapply wrote_trans; [exact (tg_wrote _ _ _ _ _ _ _ Hg)|done]|done|done|by right|].
    intros file header nbt bbt ly2 c2 Hkept Hrb. destruct (Hreads file header nbt bbt ly2 c2 Hkept Hrb) as (hp & ri & mnid & leaf & Hwt & Hleads).
    destruct (load_written _ _ _ _ _ _ _ _ _ _ _ Hwt) as (cells & Hload & Hright & Hdone).
    eexists. split; [exact Hload|]. unfold table_recipients. cbn [row_count loaded_table].
    replace (Z.to_nat (zlen new)) with (length rows) by (rewrite <-Hlen; unfold zlen; lia).
    rewrite (rmap_lookup_ok _ reread_recipient rows); [done|]. intros i y Hi. rewrite Forall_lookup in Hstr.
    destruct (lookup_lt_is_Some_2 new i) as [row Hn]; [rewrite Hlen; by eapply lookup_lt_Some|].
    eapply (recipient_row_reread _ hp ri mnid _ new cells s m c1 Ho Hright Hdone Hleads H56); [done|by apply Hok|by apply (Hstr i)].
Qed.
End recipients.

(** ** Attachments *)

Definition attach_columns : list tc_column := (build_template_tc_columns ATTACHMENT_TABLE_COLUMNS).1.

Lemma attach_schema : build_template_tc_columns ATTACHMENT_TABLE_COLUMNS = (attach_columns, 25).
Proof. vm_compute. reflexivity. Qed.

Lemma attach_columns_fit : Forall column_fits attach_columns ∧ zlen attach_columns < 256.
Proof. apply (bool_decide_unpack _). vm_compute. exact I. Qed.

(** The NID and size are numbers of their width, the name a string that a reader assembles. *)
Definition attach_row_fits (r : attach_row) : Prop :=
  0 <= ar_size r < 2 ^ 32 ∧ Forall scalar (ar_filename r) ∧ zlen (utf16le_bytes (ar_filename r)) <= MAX_XBLOCK_ASSEMBLE.

Lemma attach_row_built r i hid :
  ∃ row, attach_row_bytes attach_columns 25 r i hid = Ok row ∧ zlen row = 25 ∧ sub row 0 4 = le_split 4 (ar_size r) ∧
    sub row 4 4 = le_split 4 hid ∧ sub row 8 4 = le_split 4 (wrap 32 (ar_method r)) ∧ sub row 16 4 = le_split 4 (wrap 32 (ar_nid r)).
Proof.
  assert (Heq : attach_columns = ltac:(let c := eval vm_compute in attach_columns in exact c)) by (vm_compute; reflexivity).
  rewrite Heq. clear Heq. destruct r as [a b c d]. unfold attach_row_bytes, attach_cell. generalize (wrap 32 (Z.of_nat i)) as n. intros n. eexists. split; [cbv -[byte.of_Z Z.shiftr Z.lor u8 wrap]; reflexivity|].
  split_and!; cbv -[byte.of_Z Z.shiftr Z.lor u8 wrap]; reflexivity.
Qed.

(** The string cell is the file name. *)
Lemma attach_id_cell col : col ∈ attach_columns → is_hnid_column col = true → ib_data col = 4.
Proof.
  assert (H : Forall (λ col, is_hnid_column col = true → ib_data col = 4) attach_columns) by (apply (bool_decide_unpack _); vm_compute; exact I).
  rewrite Forall_forall in H. auto.
Qed.

Section attachments.
Context `{Crc : Crc32} `{!Crc32Range} (failures : bool).

Definition attach_row_ok (s : table_state) (m : gmap Z (list byte)) (c : contents) (i : nat) (r : attach_row) (row : list byte) : Prop :=
  ∃ hid, zlen row = 25 ∧ sub row 0 4 = le_split 4 (ar_size r) ∧ sub row 4 4 = le_split 4 hid ∧
    sub row 8 4 = le_split 4 (wrap 32 (ar_method r)) ∧ cell_stands s m c hid (utf16le_bytes (ar_filename r)).

Lemma adds_attach_row : adds_row failures (add_attach_row attach_columns 25) attach_row_fits (λ _ r, wrap 32 (ar_nid r)) attach_row_ok.
Proof.
  intros matrix records s m c i r Ho (Hs & Hf & Hz). unfold add_attach_row.
  pose proof (alloc_tc_value_stores failures s m c (utf16le_bytes (ar_filename r)) Ho Hz) as Ha.
  destruct (alloc_tc_value s _) as [[hid s1]|e| |]; [|done..]. destruct Ha as (m1 & c1 & Ho1 & Hg1 & Hc). rewrite bind_ok. cbn [fst snd].
  destruct (attach_row_built r i hid) as (row & -> & Hl & H1 & H2 & H3 & _). rewrite bind_ok.
  exists row, m1, c1. split_and!; [done..|]. by exists hid.
Qed.

(** What a reader gets of a row. *)
Definition attach_row_read (table : table_context) (i : nat) (r : attach_row) : Prop :=
  get_row_id table (Z.of_nat i) = (if wrap 32 (ar_nid r) =? 0 then None else Some (wrap 32 (ar_nid r))) ∧
  get_row_u32 table (Z.of_nat i) PID_TAG_ATTACH_SIZE = Ok (Some (ar_size r)) ∧
  get_row_u32 table (Z.of_nat i) PID_TAG_ATTACH_METHOD = Ok (Some (wrap 32 (ar_method r))) ∧
  get_row_string table (Z.of_nat i) PID_TAG_ATTACH_FILENAME = Ok (Some (ar_filename r)).

Lemma attach_row_reread (r : block_resolver) hp ri mnid keys rows cells s m c i row x :
  ts_ok failures s m c → cells_right r cells →
  (∀ row col, row ∈ rows → col ∈ attach_columns → is_hnid_column col = true → cell_done cells (le_val row (ib_data col) 4)) →
  (∀ hnid b, cell_stands s m c hnid b → cell_leads r hp hnid b) → Forall (λ row : list byte, zlen row = 25) rows →
  rows !! i = Some row → keys !! i = Some (wrap 32 (ar_nid x)) → attach_row_ok s m c i x row → attach_row_fits x →
  attach_row_read (loaded_table hp attach_columns 25 ri mnid keys rows cells) i x.
Proof.
  intros Ho Hright Hdone Hleads Hrows Hi Hkey (hid & Hl & H1 & H2 & H3 & Hc) (Hsz & Hs & _).
  assert (Hw : ∀ v, 0 <= wrap 32 v < 2 ^ 32) by (intros v; unfold wrap; by apply Z.mod_pos_bound).
  assert (Hv : le_val row 4 4 = hid) by (apply field_val; [done|by eapply cell_range]).
  destruct (Hleads hid _ Hc) as (Hnz & _ & Hheap & Hnode). split_and!.
  - unfold get_row_id. cbn [row_ids loaded_table]. rewrite Nat2Z.id, Hkey. done.
  - rewrite (row_u32_written hp attach_columns 25 ri mnid keys rows cells Hrows i row Hi _ {| prop_id := 0x0E20; prop_type := 3; ib_data := 0; cb_data := 4; i_bit := 0 |}) by done.
    cbn [ib_data]. by rewrite (field_val row 0 _ H1).
  - rewrite (row_u32_written hp attach_columns 25 ri mnid keys rows cells Hrows i row Hi _ {| prop_id := 0x3705; prop_type := 3; ib_data := 8; cb_data := 4; i_bit := 2 |}) by done.
    cbn [ib_data]. by rewrite (field_val row 8 _ H3).
  - set (col := {| prop_id := 0x3704; prop_type := 31; ib_data := 4; cb_data := 4; i_bit := 1 |}).
    apply (row_string_written hp attach_columns 25 ri mnid keys rows cells Hrows i row Hi _ col); try done; cbn [ib_data col]; rewrite Hv; try done.
    intros Ht. assert (Hd : cell_done cells hid).
    { rewrite <-Hv. apply (Hdone row col); [by eapply list_elem_of_lookup_2| |done]. apply list_elem_of_In. by eapply (find_some (λ c, prop_id c =? 0x3704)). }
    destruct (Hd Hnz Ht) as [b Hb]. rewrite Hb. f_equal. eapply clean_unique; [by apply Hright|by apply Hnode].
Qed.

Lemma attachment_table_built ly c rows :
  built failures ly c → Forall attach_row_fits rows → rows ≠ [] →
  match build_attachment_table_strategy_a ly rows with
  | Ok (t, ly') => ∃ c', wrote failures ly c ly' c' ∧ 0 <= tb_extra t ∧ zlen (tb_heap t) <= 8 * MAX_BLOCK_DATA ∧ tb_bid_sub t ∈ map fst (co_tables c') ∧
      ∀ file header nbt bbt ly2 c2, kept c' c2 → reads_back file header nbt bbt ly2 c2 →
        ∃ table, clean (load_from_table_bids (tb_heap t) file bbt (tb_bid_sub t) (header_crypt header)) table ∧
          row_count table = zlen rows ∧ ∀ i r, rows !! i = Some r → attach_row_read table i r
  | Err e => table_refused e
  | _ => False
  end.
Proof.
  intros Hb Hfit Hne. unfold build_attachment_table_strategy_a. destruct rows as [|x rows']; [done|set (rows := x :: rows') in *].
  rewrite attach_schema. cbv beta iota. cbn [Z.eqb].
  pose proof (add_rows_stores failures (add_attach_row attach_columns 25) attach_row_fits (λ _ r, wrap 32 (ar_nid r)) attach_row_ok) as Hloop.
  specialize (Hloop ltac:(intros s m c0 s' m' c' i a row Hg (h & ? & ? & ? & ? & ?); exists h; split_and!; [done..|by eapply cell_grows]) adds_attach_row
    rows 0%nat [] [] (empty_table_state ly) ∅ c Hfit (new_state_ok failures ly c Hb)).
  destruct (mfold _ _ _) as [[[matrix records] s]|e| |]; [|by left|done..]. rewrite bind_ok. cbv beta iota.
  destruct Hloop as (new & m & c1 & -> & -> & Ho & Hg & Hlen & Hrows). cbn [app] in *.
  set (keys := map (λ r, wrap 32 (ar_nid r)) rows).
  assert (Hrec : imap (λ i r, (wrap 32 (ar_nid r), le_split 4 (wrap 32 (Z.of_nat (0 + i))))) rows = index_records keys).
  { apply list_eq. intros i. unfold index_records, keys. change (map ?f ?l) with (f <$> l). rewrite !list_lookup_imap, list_lookup_fmap. by destruct (rows !! i). }
  rewrite Hrec. assert (Hrow : ∀ i row, new !! i = Some row → ∃ r, rows !! i = Some r ∧ attach_row_ok s m c1 i r row).
  { intros i row Hi. destruct (lookup_lt_is_Some_2 rows i) as [r Hr]; [rewrite <-Hlen; by eapply lookup_lt_Some|]. exists r. split; [done|by apply Hrows]. }
  assert (H25 : Forall (λ row : list byte, zlen row = 25) new).
  { apply Forall_lookup. intros i row Hi. by destruct (Hrow i row Hi) as (r & _ & h & ? & _). }
  pose proof (index_and_close failures s m c1 attach_columns 25 keys new Ho) as Hclose.
  specialize (Hclose (proj1 attach_columns_fit) (proj2 attach_columns_fit) ltac:(lia)). unfold close_table in Hclose.
  specialize (Hclose ltac:(apply Forall_fmap, Forall_forall; intros r _; unfold compose, wrap; by apply Z.mod_pos_bound)
    ltac:(intros ->; done) H25 ltac:(unfold keys; by rewrite length_map)).
  specialize (Hclose ltac:(intros row col Hin Hcol Hh; apply list_elem_of_lookup in Hin as [i Hi]; destruct (Hrow i row Hi) as (r & _ & h & ? & ? & H2 & ? & Hc);
    rewrite (attach_id_cell col Hcol Hh); split_and!; [lia|lia|right; exists (utf16le_bytes (ar_filename r)); rewrite (field_val row 4 h H2); [done|by eapply cell_range]])).
  destruct (_ ≫= _) as [[t ly']|e| |]; [|done..]. destruct Hclose as (c' & Hw & Hex & Hz & Hsub & Hreads).
  exists c'. split_and!; [eapply wrote_trans; [exact (tg_wrote _ _ _ _ _ _ _ Hg)|done]|done..|].
  intros file header nbt bbt ly2 c2 Hkept Hrb. destruct (Hreads file header nbt bbt ly2 c2 Hkept Hrb) as (hp & ri & mnid & leaf & Hwt & Hleads).
  destruct (load_written _ _ _ _ _ _ _ _ _ _ _ Hwt) as (cells & Hload & Hright & Hdone).
  eexists. split; [exact Hload|]. split; [cbn [row_count loaded_table]; unfold zlen; by rewrite Hlen|].
  intros i r Hi. destruct (lookup_lt_is_Some_2 new i) as [row Hn]; [rewrite Hlen; by eapply lookup_lt_Some|].
  eapply (attach_row_reread _ hp ri mnid keys new cells s m c1 i row r Ho Hright Hdone Hleads H25); [done| |by apply Hrows|].
  - unfold keys. change (map ?f ?l) with (f <$> l). by rewrite list_lookup_fmap, Hi.
  - rewrite Forall_lookup in Hfit. by apply (Hfit i).
Qed.
End attachments.

(** ** The recipient table in the finished file *)

Section round_trip.
Context `{Crc : Crc32} `{!Crc32Range}.

(** C23 The recipient table of a message either is refused because a heap or a
    subnode block is full, or is built without touching what was written before;
    then, whatever else is written afterwards, the reader lists from the finished
    file exactly the recipients, in order, with their strings trimmed and the
    address type resolved, and reports no integrity event. *)
Theorem recipient_table_round_trip ly c rows
    (Hbuilt : built false ly c) (Hfit : Forall recipient_fits rows) (Hstr : Forall recipient_strings rows) :
  match build_recipient_table_strategy_a ly rows with
  | Ok (t, ly') => zlen (tb_heap t) <= 8 * MAX_BLOCK_DATA ∧ ∃ c', built false ly' c' ∧ kept c c' ∧
      ∀ ly2 c2 file header nbt bbt, wrote false ly' c' ly2 c2 → finished ly2 file header nbt bbt →
        ∃ table, clean (load_from_table_bids (tb_heap t) file bbt (tb_bid_sub t) (header_crypt header)) table ∧
          table_recipients table = Ok (map reread_recipient rows)
  | Err e => table_refused e
  | _ => False
  end.
Proof.
  pose proof (recipient_table_built false ly c rows Hbuilt Hfit Hstr) as Htable.
  destruct (build_recipient_table_strategy_a ly rows) as [[t ly']|e| |]; [|done..].
  destruct Htable as (c' & Hw & _ & Hz & _ & Hread). split; [done|]. exists c'.
  pose proof (wrote_built _ _ _ _ _ Hbuilt Hw) as Hb'. split_and!; [done|by eapply wrote_kept|].
  intros ly2 c2 file header nbt bbt Hw2 Hfin. apply (Hread file header nbt bbt ly2 c2); [by eapply wrote_kept|].
  apply finished_reads; [by eapply wrote_built|done].
Qed.
End round_trip.

#[local] Instance table_crc : Crc32 := λ _, 7.
#[local] Instance table_crc_range : Crc32Range.
Proof. done. Qed.

(** Two recipients, one of them with spaces around its address and a name that needs a subnode. *)
Definition sample_recipients : list write_recipient := [
  {| wr_type := WriteTo; wr_display_name := Some (lit "Ann"); wr_address_type := None;
     wr_email_address := Some (lit " ann@example.org "); wr_smtp_address := None |};
  {| wr_type := WriteBcc; wr_display_name := Some (replicate 1100 66); wr_address_type := Some (lit "EX");
     wr_email_address := Some (lit "/o=x"); wr_smtp_address := Some (lit "bob@example.org") |}].

#[local] Instance recipient_fits_dec r : Decision (recipient_fits r).
Proof. unfold recipient_fits. apply _. Defined.

Lemma sample_recipients_fit : Forall recipient_fits sample_recipients ∧ Forall recipient_strings sample_recipients.
Proof.
  split; [apply (bool_decide_unpack _); vm_compute; exact I|].
  repeat apply Forall_cons_2; [..|apply Forall_nil_2]; (split_and!; [..|done|done]); intros s Hs;
    first [discriminate Hs|injection Hs as <-; apply (bool_decide_unpack _); vm_compute; exact I].
Qed.

Lemma recipient_table_round_trip_witness :
  ∃ t ly' c', build_recipient_table_strategy_a start_layout sample_recipients = Ok (t, ly') ∧ built false ly' c' ∧
    ∀ file header nbt bbt, finished ly' file header nbt bbt →
      ∃ table, clean (load_from_table_bids (tb_heap t) file bbt (tb_bid_sub t) (header_crypt header)) table ∧
        table_recipients table = Ok (map reread_recipient sample_recipients).
Proof.
  pose proof (recipient_table_round_trip start_layout no_contents sample_recipients (built_new false)
    (proj1 sample_recipients_fit) (proj2 sample_recipients_fit)) as Htable.
  assert (Hok : match build_recipient_table_strategy_a start_layout sample_recipients with Ok _ => true | _ => false end = true) by (vm_compute; reflexivity).
  destruct (build_recipient_table_strategy_a start_layout sample_recipients) as [[t ly']|e| |]; try discriminate Hok.
  destruct Htable as (_ & c' & Hb & _ & Hread). exists t, ly', c'. split_and!; [done|done|].
  intros file header nbt bbt Hfin. exact (Hread ly' c' file header nbt bbt (wrote_refl false ly' c') Hfin).
Defined.
