(* ===== verification/WriterMessage.v ===== *)
(** * Messages of the writer (pst-writer/src/production.rs)

    From the fields of a message to its node: the property context with large values
    in subnodes, the attachments (by value, from a stream, embedded messages, cloud
    links), the two tables, the size probe, and the ledger of what could not be
    written.  An error ends the export, so it carries no state. *)

From S2P Require Import Prelude PstError Header Utf PropContext TableContext Folder Text WriterHeap NamedPropMap Layout DataChain PagedHeap WriterTable.
#[local] Open Scope Z_scope.
#[local] Set Warnings "-register-all".

Definition PID_TAG_MESSAGE_CLASS : Z := 0x001A.
Definition PID_TAG_SUBJECT : Z := 0x0037.
Definition PID_TAG_CLIENT_SUBMIT_TIME : Z := 0x0039.
Definition PID_TAG_SENDER_EMAIL_ADDRESS : Z := 0x0C1F.
Definition PID_TAG_DISPLAY_BCC : Z := 0x0E02.
Definition PID_TAG_DISPLAY_CC : Z := 0x0E03.
Definition PID_TAG_DISPLAY_TO : Z := 0x0E04.
Definition PID_TAG_MESSAGE_FLAGS : Z := 0x0E07.
Definition PID_TAG_MESSAGE_SIZE : Z := 0x0E08.
Definition PID_TAG_HAS_ATTACHMENTS : Z := 0x0E1B.
Definition PID_TAG_BODY : Z := 0x1000.
Definition PID_TAG_BODY_HTML : Z := 0x1013.
Definition PID_TAG_NATIVE_BODY : Z := 0x1016.
Definition PID_TAG_INTERNET_MESSAGE_ID : Z := 0x1035.
Definition PID_TAG_CREATION_TIME : Z := 0x3007.
Definition PID_TAG_LAST_MODIFICATION_TIME : Z := 0x3008.
Definition PID_TAG_ATTACH_DATA_BINARY : Z := 0x3701.
Definition PID_TAG_ATTACH_LONG_FILENAME : Z := 0x3707.
Definition PID_TAG_ATTACH_MIME_TAG : Z := 0x370E.
Definition PID_TAG_INTERNET_CODEPAGE : Z := 0x3FDE.
Definition PID_TAG_MESSAGE_EDITOR_FORMAT : Z := 0x5909.
Definition MSGFLAG_READ : Z := 1.
Definition MSGFLAG_HASATTACH : Z := 0x10.
Definition NID_TYPE_NORMAL_MESSAGE : Z := 0x04.
Definition NID_ATTACHMENT_TABLE : Z := 0x671.
Definition NID_RECIPIENT_TABLE : Z := 0x692.
Definition ATTACHMENT_FIDELITY_EVENTS_CAP : Z := 1000.

(** ** What is written *)

(** [WriteAttachment]: the fields that the scan of the named properties reads, and the rest. *)
Record write_attachment := {
  wa_fields : attachment; wa_data : option (list byte); wa_stream_available : bool;
  wa_attach_nid : option Z; wa_source_path : option rstring; wa_parent_nid : option Z }.

(** [WriteMessage] without its attachments. *)
Record message_dto := {
  wm_message_id : option rstring; wm_subject : rstring; wm_sender : option rstring;
  wm_display_to : option rstring; wm_display_cc : option rstring; wm_display_bcc : option rstring;
  wm_recipients : list write_recipient; wm_submit_time : option Z;
  wm_body_plain : option rstring; wm_body_html : option (list byte); wm_message_class : option rstring;
  wm_message_flags : option Z; wm_body_incomplete : bool; wm_attachments_incomplete : bool;
  wm_body_unavailable : bool; wm_source_folder_path : option rstring; wm_source_path : option rstring;
  wm_source_msg_nid : option Z; wm_attach_list_failed : bool }.

(** A message with its attachments, each with its [embedded_message]. *)
Inductive mail := Mail (dto : message_dto) (attachments : list (write_attachment * option mail)).

Definition mail_dto (m : mail) : message_dto := let '(Mail dto _) := m in dto.
Definition mail_attachments (m : mail) : list (write_attachment * option mail) := let '(Mail _ atts) := m in atts.

(** The same message as the scan of the named properties sees it. *)
Fixpoint scanned (m : mail) : write_message :=
  let '(Mail _ atts) := m in
  WriteMessage (map (λ att, (wa_fields att.1, match att.2 with Some e => Some (scanned e) | None => None end)) atts).

(** ** The ledger *)

(** [AttachEventSeverity], [AttachmentFidelityKind] *)
Inductive severity := Fail | Info.
Inductive fidelity_kind :=
| MethodUnsupported | CloudLink | StreamOpenFailed | StreamReadFailed | StreamCrc | BlockNotFoundKind | DataTruncatedKind
| SizeCap | DepthLimit | EmbeddedUnparsed | MetaFailed | OmittedByPolicy | UnknownKind | LedgerTruncated.
#[export] Instance severity_eq_dec : EqDecision severity.
Proof. solve_decision. Defined.
#[export] Instance fidelity_kind_eq_dec : EqDecision fidelity_kind.
Proof. solve_decision. Defined.

(** [AttachmentFidelityKind::as_code] *)
Definition kind_code (k : fidelity_kind) : string :=
  match k with
  | MethodUnsupported => "ATTACH_METHOD_UNSUPPORTED" | CloudLink => "ATTACH_CLOUD_LINK"
  | StreamOpenFailed => "ATTACH_STREAM_OPEN_FAILED" | StreamReadFailed => "ATTACH_STREAM_READ_FAILED"
  | StreamCrc => "ATTACH_STREAM_CRC" | BlockNotFoundKind => "ATTACH_BLOCK_NOT_FOUND"
  | DataTruncatedKind => "ATTACH_DATA_TRUNCATED" | SizeCap => "ATTACH_SIZE_CAP"
  | DepthLimit => "ATTACH_DEPTH_LIMIT" | EmbeddedUnparsed => "ATTACH_EMBEDDED_UNPARSED"
  | MetaFailed => "ATTACH_META_FAILED" | OmittedByPolicy => "ATTACH_OMITTED_BY_POLICY"
  | UnknownKind => "ATTACH_UNKNOWN" | LedgerTruncated => "ATTACH_LEDGER_TRUNCATED"
  end.

(** [AttachmentFidelityKind::default_severity] *)
Definition default_severity (k : fidelity_kind) : severity :=
  match k with OmittedByPolicy | LedgerTruncated | StreamCrc => Info | _ => Fail end.

(** [AttachmentFidelityEvent] *)
Record fidelity_event := {
  fe_message_subject : rstring; fe_attach_filename : rstring; fe_kind : fidelity_kind; fe_source_path : rstring;
  fe_folder_path : rstring; fe_msg_nid : Z; fe_attach_nid : option Z; fe_attach_index : Z; fe_size : option Z;
  fe_attach_method : Z; fe_cloud_provider : rstring; fe_cloud_url : rstring; fe_severity : severity }.

(** [make_attach_event] *)
Definition make_attach_event (msg : message_dto) (att : write_attachment) (attach_index : Z)
    (kind : fidelity_kind) (sev : severity) : fidelity_event :=
  let a := wa_fields att in
  {| fe_message_subject := wm_subject msg; fe_attach_filename := filename a; fe_kind := kind;
     fe_source_path := default [] (match wa_source_path att with Some p => Some p | None => wm_source_path msg end);
     fe_folder_path := default [] (wm_source_folder_path msg);
     fe_msg_nid := default 0 (match wa_parent_nid att with Some n => Some n | None => wm_source_msg_nid msg end);
     fe_attach_nid := wa_attach_nid att; fe_attach_index := attach_index;
     fe_size := if 0 <? attach_size a then Some (attach_size a) else zlen <$> wa_data att;
     fe_attach_method := default (-1) (attach_method a);
     fe_cloud_provider := default [] (cloud_provider a); fe_cloud_url := default [] (cloud_url a);
     fe_severity := sev |}.

(** [WriteCounters], without the counters of the folder tree and those that
    nothing increments. *)
Record write_counters := {
  wc_attachments_written : Z; wc_attachments_failed : Z; wc_attachments_omitted : Z;
  wc_embedded_written : Z; wc_depth_limit_hits : Z; wc_embedded_unparsed : Z;
  wc_events : list fidelity_event; wc_events_total : Z; wc_events_truncated : bool; wc_crc_events : Z }.

Definition no_counters : write_counters :=
  {| wc_attachments_written := 0; wc_attachments_failed := 0; wc_attachments_omitted := 0; wc_embedded_written := 0;
     wc_depth_limit_hits := 0; wc_embedded_unparsed := 0; wc_events := []; wc_events_total := 0;
     wc_events_truncated := false; wc_crc_events := 0 |}.

(** [record_attach_event], the counters. *)
Definition record_attach_event (c : write_counters) (e : fidelity_event) : write_counters :=
  let room := zlen (wc_events c) <? ATTACHMENT_FIDELITY_EVENTS_CAP in
  {| wc_attachments_written := wc_attachments_written c;
     wc_attachments_failed := if decide (fe_severity e = Fail) then U64_SAT_ADD (wc_attachments_failed c) 1 else wc_attachments_failed c;
     wc_attachments_omitted := wc_attachments_omitted c; wc_embedded_written := wc_embedded_written c;
     wc_depth_limit_hits := wc_depth_limit_hits c; wc_embedded_unparsed := wc_embedded_unparsed c;
     wc_events := if room then wc_events c ++ [e] else wc_events c;
     wc_events_total := U64_SAT_ADD (wc_events_total c) 1;
     wc_events_truncated := if room then wc_events_truncated c else true;
     wc_crc_events := if decide (fe_kind e = StreamCrc) then U64_SAT_ADD (wc_crc_events c) 1 else wc_crc_events c |}.

(** The increments [counters.x += 1]. *)
Definition count_written (c : write_counters) : write_counters :=
  {| wc_attachments_written := wc_attachments_written c + 1; wc_attachments_failed := wc_attachments_failed c;
     wc_attachments_omitted := wc_attachments_omitted c; wc_embedded_written := wc_embedded_written c;
     wc_depth_limit_hits := wc_depth_limit_hits c; wc_embedded_unparsed := wc_embedded_unparsed c;
     wc_events := wc_events c; wc_events_total := wc_events_total c; wc_events_truncated := wc_events_truncated c;
     wc_crc_events := wc_crc_events c |}.
Definition count_embedded (c : write_counters) : write_counters :=
  {| wc_attachments_written := wc_attachments_written c; wc_attachments_failed := wc_attachments_failed c;
     wc_attachments_omitted := wc_attachments_omitted c; wc_embedded_written := wc_embedded_written c + 1;
     wc_depth_limit_hits := wc_depth_limit_hits c; wc_embedded_unparsed := wc_embedded_unparsed c;
     wc_events := wc_events c; wc_events_total := wc_events_total c; wc_events_truncated := wc_events_truncated c;
     wc_crc_events := wc_crc_events c |}.
Definition count_depth_limit (c : write_counters) : write_counters :=
  {| wc_attachments_written := wc_attachments_written c; wc_attachments_failed := wc_attachments_failed c;
     wc_attachments_omitted := wc_attachments_omitted c; wc_embedded_written := wc_embedded_written c;
     wc_depth_limit_hits := wc_depth_limit_hits c + 1; wc_embedded_unparsed := wc_embedded_unparsed c;
     wc_events := wc_events c; wc_events_total := wc_events_total c; wc_events_truncated := wc_events_truncated c;
     wc_crc_events := wc_crc_events c |}.
Definition count_unparsed (c : write_counters) : write_counters :=
  {| wc_attachments_written := wc_attachments_written c; wc_attachments_failed := wc_attachments_failed c;
     wc_attachments_omitted := wc_attachments_omitted c; wc_embedded_written := wc_embedded_written c;
     wc_depth_limit_hits := wc_depth_limit_hits c; wc_embedded_unparsed := wc_embedded_unparsed c + 1;
     wc_events := wc_events c; wc_events_total := wc_events_total c; wc_events_truncated := wc_events_truncated c;
     wc_crc_events := wc_crc_events c |}.
Definition count_omitted (c : write_counters) : write_counters :=
  {| wc_attachments_written := wc_attachments_written c; wc_attachments_failed := wc_attachments_failed c;
     wc_attachments_omitted := U64_SAT_ADD (wc_attachments_omitted c) 1; wc_embedded_written := wc_embedded_written c;
     wc_depth_limit_hits := wc_depth_limit_hits c; wc_embedded_unparsed := wc_embedded_unparsed c;
     wc_events := wc_events c; wc_events_total := wc_events_total c; wc_events_truncated := wc_events_truncated c;
     wc_crc_events := wc_crc_events c |}.

(** ** The state of an export *)

(** An opened attachment stream: what its reads deliver, and whether its shared flag
    is set once it is consumed. *)
Record attach_stream := { as_source : source; as_crc_suspect : bool }.

(** The [AttachStreamSource], with a state of its own; no source at all is one
    that opens nothing. *)
Class StreamSource (S : Type) := {
  open_attach_stream : S → option rstring → option Z → option Z → rstring → option attach_stream * S }.

Record write_state (S : Type) := {
  ws_layout : layout; ws_counters : write_counters; ws_streams : S;
  ws_sink : list fidelity_event (* what [AttachEventSink] received *) }.
Arguments ws_layout {S}.
Arguments ws_counters {S}.
Arguments ws_streams {S}.
Arguments ws_sink {S}.

Definition with_layout {S} (s : write_state S) (ly : layout) : write_state S :=
  {| ws_layout := ly; ws_counters := ws_counters s; ws_streams := ws_streams s; ws_sink := ws_sink s |}.
Definition with_counters {S} (s : write_state S) (c : write_counters) : write_state S :=
  {| ws_layout := ws_layout s; ws_counters := c; ws_streams := ws_streams s; ws_sink := ws_sink s |}.
Definition with_streams {S} (s : write_state S) (x : S) : write_state S :=
  {| ws_layout := ws_layout s; ws_counters := ws_counters s; ws_streams := x; ws_sink := ws_sink s |}.

(** [record_attach_event], with the sink. *)
Definition note_event {S} (s : write_state S) (e : fidelity_event) : write_state S :=
  {| ws_layout := ws_layout s; ws_counters := record_attach_event (ws_counters s) e; ws_streams := ws_streams s;
     ws_sink := ws_sink s ++ [e] |}.

(** [WrittenAttach] *)
Record written_attach := {
  wt_nid : Z; wt_bid_data : Z; wt_bid_sub : Z; wt_size_contrib : Z; wt_attach_size : Z; wt_method : Z; wt_filename : rstring }.

(** [WritePstOpts], as far as messages depend on it. *)
Record message_opts := {
  op_max_embedded_depth : Z; op_parents_only : bool; op_include_bcc : bool; op_plan : write_plan }.
Definition embedded_depth_limit (opts : message_opts) : Z := clamp 1 8 (op_max_embedded_depth opts).

Section messages.
Context `{Crc : Crc32} {S : Type} `{!StreamSource S} (file_name : rstring → option rstring).

(** ** Attachments *)

(** [HeapBuilder::new(0x6C)], [build_pc_v2], [finalize] *)
Definition pc_bytes (props : list (Z * pc_value)) : wres (list byte) :=
  b ← build_pc_v2 (hb_new 0x6C) props; hb_finalize b.2 b.1.

(** The property context of an attachment goes to a chain of its own. *)
Definition write_attach_pc (ly : layout) (props : list (Z * pc_value)) : wres (Z * Z * layout) :=
  bytes ← pc_bytes props;
  w ← write_data_chain ly bytes;
  Ok (w.1, zlen bytes, w.2).

Definition mime_property (a : attachment) : list (Z * pc_value) :=
  match mime a with Some m => [(PID_TAG_ATTACH_MIME_TAG, VString m)] | None => [] end.

(** [write_cloud_link_pointer_attach] *)
Definition write_cloud_link_pointer_attach (msg : message_dto) (att : write_attachment) (attach_index : Z)
    (plan : write_plan) (counter : Z) (s : write_state S) : wres (option written_attach * Z * write_state S) :=
  let a := wa_fields att in
  let counter := next_counter counter in
  p ← write_attach_pc (ws_layout s) (cloud_pointer_properties file_name plan a);
  let '(bid_data, pc_len, ly) := p in
  let s := note_event (with_layout s ly) (make_attach_event msg att attach_index CloudLink Fail) in
  Ok (Some {| wt_nid := attach_nid_of counter; wt_bid_data := bid_data; wt_bid_sub := 0; wt_size_contrib := pc_len;
              wt_attach_size := Z.min (attach_size a) I32_MAX; wt_method := pointer_method a; wt_filename := filename a |},
      counter, with_counters s (count_written (ws_counters s))).

(** [resolve_attach_payload] *)
Inductive resolved_attach := ResolvedBytes (data : list byte) | ResolvedStream (stream : attach_stream).
Definition resolve_attach_payload (att : write_attachment) (s : write_state S) : option resolved_attach * write_state S :=
  match wa_data att with
  | Some data => (Some (ResolvedBytes data), s)
  | None =>
      let '(r, streams) := open_attach_stream (ws_streams s) (wa_source_path att) (wa_parent_nid att)
                             (wa_attach_nid att) (filename (wa_fields att)) in
      (ResolvedStream <$> r, with_streams s streams)
  end.

(** Where the bytes of a by-value attachment went: their number, whether they are
    outside the context, the property, the subnodes, and the flag of the stream.
    [None] when the stream failed. *)
Record stored_payload := {
  sp_len : Z; sp_diverted : bool; sp_prop : pc_value; sp_entries : list (Z * Z * Z); sp_crc : bool }.
Definition store_payload (p : resolved_attach) (ly : layout) : wres (option stored_payload * layout) :=
  let sub_nid := subnode_nid (next_counter 0) in
  match p with
  | ResolvedBytes data =>
      if MAX_HEAP_VALUE_SIZE <? zlen data then
        w ← write_data_chain ly data;
        Ok (Some {| sp_len := zlen data; sp_diverted := true; sp_prop := VSubnodeBinary sub_nid;
                    sp_entries := [(sub_nid, w.1, 0)]; sp_crc := false |}, w.2)
      else
        Ok (Some {| sp_len := zlen data; sp_diverted := false; sp_prop := VBinary data; sp_entries := []; sp_crc := false |}, ly)
  | ResolvedStream stream =>
      match write_data_chain_from_reader ly (as_source stream) with
      | (Ok (bid, total_len), ly) =>
          if total_len =? 0 then
            Ok (Some {| sp_len := 0; sp_diverted := false; sp_prop := VBinary []; sp_entries := []; sp_crc := as_crc_suspect stream |}, ly)
          else
            Ok (Some {| sp_len := total_len; sp_diverted := true; sp_prop := VSubnodeBinary sub_nid;
                        sp_entries := [(sub_nid, bid, 0)]; sp_crc := as_crc_suspect stream |}, ly)
      | (Err _, ly) => Ok (None, ly)
      | (Panic, _) => Panic
      | (NoFuel, _) => NoFuel
      end
  end.

Definition by_value_name (a : attachment) : rstring :=
  if bool_decide (filename a = []) then lit "attachment.bin" else filename a.

(** The properties of a by-value attachment. *)
Definition by_value_properties (a : attachment) (p : stored_payload) : list (Z * pc_value) :=
  let name := by_value_name a in
  [(PID_TAG_ATTACH_LONG_FILENAME, VString name); (PID_TAG_ATTACH_FILENAME, VString (short_attach_filename file_name name));
   (PID_TAG_ATTACH_METHOD, VI32 ATTACH_BY_VALUE); (PID_TAG_ATTACH_SIZE, VI32 (Z.min (sp_len p) I32_MAX));
   (PID_TAG_ATTACH_DATA_BINARY, sp_prop p)] ++ mime_property a.

(** [add_subnode_leaf] for the entries of one object, none for none. *)
Definition close_subnodes (ly : layout) (entries : list (Z * Z * Z)) : wres (Z * layout) :=
  match entries with [] => Ok (0, ly) | _ => add_subnode_leaf ly entries end.

(** [write_one_attachment] from the stored payload on. *)
Definition finish_by_value (att : write_attachment) (counter : Z) (p : stored_payload) (s : write_state S)
    : wres (option written_attach * Z * write_state S) :=
  let a := wa_fields att in
  w ← write_attach_pc (ws_layout s) (by_value_properties a p);
  let '(bid_data, pc_len, ly) := w in
  sub ← close_subnodes ly (sp_entries p);
  let s := with_layout s sub.2 in
  Ok (Some {| wt_nid := attach_nid_of counter; wt_bid_data := bid_data; wt_bid_sub := sub.1;
              wt_size_contrib := if sp_diverted p then pc_len + sp_len p else pc_len;
              wt_attach_size := Z.min (sp_len p) I32_MAX; wt_method := ATTACH_BY_VALUE; wt_filename := by_value_name a |},
      counter, with_counters s (count_written (ws_counters s))).

(** The properties of an embedded message. *)
Definition embedded_properties (a : attachment) (nested_nid nested_size : Z) : list (Z * pc_value) :=
  [(PID_TAG_ATTACH_METHOD, VI32 ATTACH_EMBEDDED_MSG); (PID_TAG_ATTACH_SIZE, VI32 (Z.min nested_size I32_MAX));
   (PID_TAG_ATTACH_DATA_BINARY, VObject nested_nid (Z.min nested_size U32_MAX))] ++
  (if bool_decide (filename a = []) then []
   else [(PID_TAG_ATTACH_LONG_FILENAME, VString (filename a));
         (PID_TAG_ATTACH_FILENAME, VString (short_attach_filename file_name (filename a)))]) ++
  mime_property a.

(** [write_one_attachment] with a nested message: NID, data, subnodes and size of
    the message object are those that [build_embedded_message_object] returned. *)
Definition finish_embedded (att : write_attachment) (counter : Z) (nested : Z * Z * Z * Z) (s : write_state S)
    : wres (option written_attach * Z * write_state S) :=
  let a := wa_fields att in
  let '(nested_nid, nested_bid, nested_sub, nested_size) := nested in
  sub ← add_subnode_leaf (ws_layout s) [(nested_nid, nested_bid, nested_sub)];
  w ← write_attach_pc sub.2 (embedded_properties a nested_nid nested_size);
  let '(bid_data, pc_len, ly) := w in
  let s := with_layout s ly in
  Ok (Some {| wt_nid := attach_nid_of counter; wt_bid_data := bid_data; wt_bid_sub := sub.1;
              wt_size_contrib := pc_len + nested_size; wt_attach_size := Z.min nested_size I32_MAX;
              wt_method := ATTACH_EMBEDDED_MSG; wt_filename := filename a |},
      counter, with_counters s (count_embedded (count_written (ws_counters s)))).

(** A skipped attachment: an event, and no row. *)
Definition skip_attachment (msg : message_dto) (att : write_attachment) (attach_index : Z) (kind : fidelity_kind)
    (counter : Z) (s : write_state S) : wres (option written_attach * Z * write_state S) :=
  Ok (None, counter, note_event s (make_attach_event msg att attach_index kind Fail)).

(** [write_one_attachment]; [build] is [build_embedded_message_object] for the
    nested message, if there is one. *)
Definition write_one_attachment (msg : message_dto) (att : write_attachment)
    (build : option (Z → write_state S → wres (Z * Z * Z * Z * write_state S)))
    (attach_index depth max_depth : Z) (plan : write_plan) (counter : Z) (s : write_state S)
    : wres (option written_attach * Z * write_state S) :=
  let a := wa_fields att in
  let method := default ATTACH_BY_VALUE (attach_method a) in
  if is_cloud_link a then write_cloud_link_pointer_attach msg att attach_index plan counter s
  else if negb (method =? ATTACH_BY_VALUE) && negb (method =? ATTACH_EMBEDDED_MSG)
  then skip_attachment msg att attach_index MethodUnsupported counter s
  else if method =? ATTACH_EMBEDDED_MSG then
    if (max_depth <=? depth) || embedded_depth_limited a
    then skip_attachment msg att attach_index DepthLimit counter (with_counters s (count_depth_limit (ws_counters s)))
    else
      match build with
      | None => skip_attachment msg att attach_index EmbeddedUnparsed counter (with_counters s (count_unparsed (ws_counters s)))
      | Some build =>
          nested ← build (depth + 1) s;
          finish_embedded att (next_counter counter) nested.1 nested.2
      end
  else
    match resolve_attach_payload att s with
    | (None, s) => skip_attachment msg att attach_index StreamOpenFailed counter s
    | (Some payload, s) =>
        let counter := next_counter counter in
        stored ← store_payload payload (ws_layout s);
        let s := with_layout s stored.2 in
        match stored.1 with
        | None => skip_attachment msg att attach_index StreamReadFailed counter s
        | Some p =>
            let s := if sp_crc p then note_event s (make_attach_event msg att attach_index StreamCrc Info) else s in
            finish_by_value att counter p s
        end
    end.

(** ** The properties of a message *)

(** What [build_message_payload] threads through its body. *)
Record payload := {
  pl_state : write_state S; pl_props : list (Z * pc_value); pl_entries : list (Z * Z * Z);
  pl_counter : Z; pl_content : Z (* written_content_bytes *) }.

Definition pl_push (l : payload) (id : Z) (v : pc_value) : payload :=
  {| pl_state := pl_state l; pl_props := pl_props l ++ [(id, v)]; pl_entries := pl_entries l;
     pl_counter := pl_counter l; pl_content := pl_content l |}.
Definition pl_with_state (l : payload) (s : write_state S) : payload :=
  {| pl_state := s; pl_props := pl_props l; pl_entries := pl_entries l; pl_counter := pl_counter l; pl_content := pl_content l |}.
(** A further subnode, and the bytes it stands for. *)
Definition pl_entry (l : payload) (e : Z * Z * Z) (bytes : Z) : payload :=
  {| pl_state := pl_state l; pl_props := pl_props l; pl_entries := pl_entries l ++ [e];
     pl_counter := pl_counter l; pl_content := pl_content l + bytes |}.

(** A large value becomes a subnode, whose ID the property gets. *)
Definition divert (l : payload) (bytes : list byte) : wres (Z * payload) :=
  let counter := next_counter (pl_counter l) in
  let sub_nid := subnode_nid counter in
  w ← write_data_chain (ws_layout (pl_state l)) bytes;
  Ok (sub_nid, {| pl_state := with_layout (pl_state l) w.2; pl_props := pl_props l;
                  pl_entries := pl_entries l ++ [(sub_nid, w.1, 0)]; pl_counter := counter;
                  pl_content := pl_content l + zlen bytes |}).

(** [push_string_prop], also the code for the plain body. *)
Definition push_string_prop (l : payload) (id : Z) (s : rstring) : wres payload :=
  let bytes := utf16le_bytes s in
  if MAX_HEAP_VALUE_SIZE <? zlen bytes
  then d ← divert l bytes; Ok (pl_push d.2 id (VSubnodeString d.1))
  else Ok (pl_push l id (VString s)).
Definition push_binary_prop (l : payload) (id : Z) (b : list byte) : wres payload :=
  if MAX_HEAP_VALUE_SIZE <? zlen b
  then d ← divert l b; Ok (pl_push d.2 id (VSubnodeBinary d.1))
  else Ok (pl_push l id (VBinary b)).

(** [if let Some(s) = .. { push_string_prop(..) }] *)
Definition push_opt (l : payload) (id : Z) (s : option rstring) : wres payload :=
  match s with Some s => push_string_prop l id s | None => Ok l end.

(** Displayed recipients that are blank are left out. *)
Definition not_blank (s : option rstring) : option rstring :=
  s ← s; if bool_decide (trim s = []) then None else Some s.

(** The bodies that are written. *)
Definition plain_text (m : message_dto) : option rstring := if wm_body_unavailable m then None else wm_body_plain m.
Definition html_bytes (m : message_dto) : option (list byte) :=
  if wm_body_unavailable m then None
  else b ← wm_body_html m; if bool_decide (b = []) then None else Some b.

Definition format_properties (m : message_dto) : list (Z * pc_value) :=
  match html_bytes m, plain_text m with
  | Some _, _ => [(PID_TAG_NATIVE_BODY, VI32 3); (PID_TAG_MESSAGE_EDITOR_FORMAT, VI32 2); (PID_TAG_INTERNET_CODEPAGE, VI32 65001)]
  | None, Some _ => [(PID_TAG_NATIVE_BODY, VI32 1); (PID_TAG_MESSAGE_EDITOR_FORMAT, VI32 1); (PID_TAG_INTERNET_CODEPAGE, VI32 65001)]
  | None, None => []
  end.

Definition time_properties (m : message_dto) : list (Z * pc_value) :=
  match wm_submit_time m with
  | Some t => [(PID_TAG_CLIENT_SUBMIT_TIME, VTime t); (PID_TAG_CREATION_TIME, VTime t); (PID_TAG_LAST_MODIFICATION_TIME, VTime t)]
  | None => []
  end.

Definition push_all (l : payload) (props : list (Z * pc_value)) : payload :=
  foldl (λ l p, pl_push l p.1 p.2) l props.

(** [build_message_payload] up to the attachments. *)
Definition push_fields (m : message_dto) (include_bcc : bool) (s : write_state S) : wres payload :=
  let l := {| pl_state := s; pl_props := []; pl_entries := []; pl_counter := 0; pl_content := 0 |} in
  l ← push_opt l PID_TAG_INTERNET_MESSAGE_ID (wm_message_id m);
  l ← push_string_prop l PID_TAG_SUBJECT (wm_subject m);
  l ← push_opt l PID_TAG_SENDER_EMAIL_ADDRESS (wm_sender m);
  l ← push_opt l PID_TAG_DISPLAY_TO (wm_display_to m);
  l ← push_opt l PID_TAG_DISPLAY_CC (not_blank (wm_display_cc m));
  l ← push_opt l PID_TAG_DISPLAY_BCC (if include_bcc then not_blank (wm_display_bcc m) else None);
  l ← push_string_prop l PID_TAG_MESSAGE_CLASS (default (lit "IPM.Note") (wm_message_class m));
  let l := push_all l (time_properties m) in
  l ← push_opt l PID_TAG_BODY (plain_text m);
  l ← (match html_bytes m with Some b => push_binary_prop l PID_TAG_BODY_HTML b | None => Ok l end);
  Ok (push_all l (format_properties m)).

(** ** The tables *)

(** [recipient_class_rank], [order_recipients_for_tc]: a stable sort. *)
Definition recipient_class_rank (t : write_recipient_type) : Z :=
  match t with WriteTo => 0 | WriteCc => 1 | WriteBcc => 2 | WriteOther _ => 3 end.
Definition order_recipients_for_tc (rows : list write_recipient) : list write_recipient :=
  sort_on (λ r, recipient_class_rank (wr_type r)) rows.
Definition included_recipients (include_bcc : bool) (rows : list write_recipient) : list write_recipient :=
  base.filter (λ r, include_bcc || negb (write_type_is_bcc (wr_type r))) rows.

(** A built table goes to a chain under its fixed subnode ID. *)
Definition add_table_subnode (l : payload) (nid : Z) (t : table_built) (ly : layout) : wres payload :=
  w ← write_data_chain ly (tb_heap t);
  Ok (pl_entry (pl_with_state l (with_layout (pl_state l) w.2)) (nid, w.1, tb_bid_sub t) (U64_SAT_ADD (zlen (tb_heap t)) (tb_extra t))).

Definition table_row (w : written_attach) : attach_row :=
  {| ar_nid := wt_nid w; ar_size := wt_attach_size w; ar_method := wt_method w; ar_filename := wt_filename w |}.

Definition push_attachment_table (l : payload) (written : list written_attach) : wres payload :=
  match written with
  | [] => Ok l
  | _ =>
      t ← build_attachment_table_strategy_a (ws_layout (pl_state l)) (map table_row written);
      add_table_subnode l NID_ATTACHMENT_TABLE t.1 t.2
  end.
Definition push_recipient_table (l : payload) (m : message_dto) (include_bcc : bool) : wres payload :=
  t ← build_recipient_table_strategy_a (ws_layout (pl_state l))
        (order_recipients_for_tc (included_recipients include_bcc (wm_recipients m)));
  add_table_subnode l NID_RECIPIENT_TABLE t.1 t.2.

(** The flags: an [i32], with the attachment bit when one was written. *)
Definition written_flags (m : message_dto) (has_attaches : bool) : Z :=
  let flags := match wm_message_flags m with Some f => swrap 32 f | None => MSGFLAG_READ end in
  if has_attaches then Z.lor flags MSGFLAG_HASATTACH else flags.

(** ** The size probe *)

Definition HELPER_STRING_PIDS : list Z :=
  [PID_TAG_INTERNET_MESSAGE_ID; PID_TAG_SUBJECT; PID_TAG_SENDER_EMAIL_ADDRESS; PID_TAG_DISPLAY_TO;
   PID_TAG_DISPLAY_CC; PID_TAG_DISPLAY_BCC; PID_TAG_MESSAGE_CLASS].

(** The last of the longest inline helper strings, and its index. *)
Fixpoint largest_helper (props : list (Z * pc_value)) (i best_len : Z) (best : option (Z * Z * rstring)) : option (Z * Z * rstring) :=
  match props with
  | [] => best
  | (id, v) :: props =>
      match v with
      | VString s =>
          let n := zlen (utf16le_bytes s) in
          if bool_decide (id ∈ HELPER_STRING_PIDS) && (best_len <=? n)
          then largest_helper props (i + 1) n (Some (i, id, s))
          else largest_helper props (i + 1) best_len best
      | _ => largest_helper props (i + 1) best_len best
      end
  end.

(** [escalate_largest_inline_helper]: [None] when nothing is left to divert. *)
Definition escalate_largest_inline_helper (l : payload) : wres (option payload) :=
  match largest_helper (pl_props l) 0 0 None with
  | None => Ok None
  | Some (i, id, s) =>
      d ← divert l (utf16le_bytes s);
      let l := d.2 in
      Ok (Some {| pl_state := pl_state l; pl_props := <[Z.to_nat i := (id, VSubnodeString d.1)]> (pl_props l);
                  pl_entries := pl_entries l; pl_counter := pl_counter l; pl_content := pl_content l |})
  end.

(** The probe loop: the size, and the payload that fits a heap page. *)
Fixpoint message_size_probe (fuel : nat) (l : payload) : wres (Z * payload) :=
  match fuel with
  | O => NoFuel
  | Datatypes.S fuel =>
      match pc_bytes (pl_props l) with
      | Ok bytes =>
          let size := zlen bytes + pl_content l in
          if I32_MAX <? size then Err (BodyTooLarge size) else Ok (size, l)
      | Err (HeapPageOverflow a b c d e) =>
          diverted ← escalate_largest_inline_helper l;
          match diverted with
          | Some l => message_size_probe fuel l
          | None => Err (HeapPageOverflow a b c d e)
          end
      | Err e => Err e | Panic => Panic | NoFuel => NoFuel
      end
  end.

(** [props.iter_mut().find(..)]: the first property with the tag. *)
Fixpoint set_property (props : list (Z * pc_value)) (id : Z) (v : pc_value) : list (Z * pc_value) :=
  match props with
  | [] => []
  | p :: props => if p.1 =? id then (id, v) :: props else p :: set_property props id v
  end.

(** [build_message_payload] after the attachments. *)
Definition finish_payload (m : message_dto) (include_bcc : bool) (l : payload) (written : list written_attach)
    : wres (list byte * Z * Z * write_state S) :=
  let has_attaches := negb (bool_decide (written = [])) in
  l ← push_attachment_table l written;
  l ← push_recipient_table l m include_bcc;
  let l := push_all l [(PID_TAG_HAS_ATTACHMENTS, VBool has_attaches);
                       (PID_TAG_MESSAGE_FLAGS, VI32 (written_flags m has_attaches)); (PID_TAG_MESSAGE_SIZE, VI32 0)] in
  probed ← message_size_probe (Datatypes.S (length (pl_props l))) l;
  let '(message_size, l) := probed in
  bytes ← pc_bytes (set_property (pl_props l) PID_TAG_MESSAGE_SIZE (VI32 message_size));
  sub ← close_subnodes (ws_layout (pl_state l)) (pl_entries l);
  Ok (bytes, sub.1, message_size, with_layout (pl_state l) sub.2).

(** ** Messages *)

(** The loop over the attachments: their index, the NID counter, what was written. *)
Record attach_loop := { al_index : Z; al_counter : Z; al_written : list written_attach; al_payload : payload }.
Definition attach_step (m : message_dto) (depth max_depth : Z) (plan : write_plan) (acc : attach_loop) (att : write_attachment)
    (build : option (Z → write_state S → wres (Z * Z * Z * Z * write_state S))) : wres attach_loop :=
  w ← write_one_attachment m att build (wrap 32 (al_index acc)) depth max_depth plan (al_counter acc) (pl_state (al_payload acc));
  let '(written, counter, s) := w in
  let l := pl_with_state (al_payload acc) s in
  Ok (match written with
      | Some w => {| al_index := al_index acc + 1; al_counter := counter; al_written := al_written acc ++ [w];
                     al_payload := pl_entry l (wt_nid w, wt_bid_data w, wt_bid_sub w) (wt_size_contrib w) |}
      | None => {| al_index := al_index acc + 1; al_counter := counter; al_written := al_written acc; al_payload := l |}
      end).

(** [build_embedded_message_object] around [build_message_payload]. *)
Definition embedded_object (payload : write_state S → wres (list byte * Z * Z * write_state S)) (s : write_state S)
    : wres (Z * Z * Z * Z * write_state S) :=
  n ← alloc_nid (ws_layout s) NID_TYPE_NORMAL_MESSAGE;
  p ← payload (with_layout s n.2);
  let '(heap, sub_bid, size, s) := p in
  w ← write_data_chain (ws_layout s) heap;
  Ok (n.1, w.1, sub_bid, size, with_layout s w.2).

(** [build_message_payload] *)
Fixpoint build_message_payload (m : mail) (max_depth : Z) (include_bcc : bool) (plan : write_plan) (depth : Z)
    (s : write_state S) : wres (list byte * Z * Z * write_state S) :=
  match m with
  | Mail dto attachments =>
      l ← push_fields dto include_bcc s;
      acc ← mfold (λ acc att,
          attach_step dto depth max_depth plan acc att.1
            (match att.2 with
             | Some e => Some (λ depth, embedded_object (build_message_payload e max_depth include_bcc plan depth))
             | None => None
             end)) attachments {| al_index := 0; al_counter := 0; al_written := []; al_payload := l |};
      finish_payload dto include_bcc (al_payload acc) (al_written acc)
  end.

(** The synthetic attachments of the two list failures. *)
Definition blank_attachment (name : rstring) (m : message_dto) : write_attachment :=
  {| wa_fields := {| filename := name; mime := None; attach_size := 0; attach_method := None; embedded_depth_limited := false;
                     is_cloud_link := false; cloud_provider := None; cloud_url := None; cloud_permission_type := None |};
     wa_data := None; wa_stream_available := false; wa_attach_nid := None; wa_source_path := wm_source_path m;
     wa_parent_nid := wm_source_msg_nid m |}.

Definition note_meta_failures (m : message_dto) (s : write_state S) : write_state S :=
  let note name s := note_event s (make_attach_event m (blank_attachment name m) 0 MetaFailed Fail) in
  let s := if wm_attach_list_failed m then note [] s else s in
  if wm_attachments_incomplete m then note (lit "(nested attach list incomplete)") s else s.

(** The events of attachments that the policy leaves out. *)
Fixpoint note_omitted (m : message_dto) (i : Z) (atts : list (write_attachment * option mail)) (s : write_state S) : write_state S :=
  match atts with
  | [] => s
  | att :: atts =>
      note_omitted m (i + 1) atts
        (note_event (with_counters s (count_omitted (ws_counters s))) (make_attach_event m att.1 (wrap 32 i) OmittedByPolicy Info))
  end.

(** [build_message_node] *)
Definition build_message_node (m : mail) (parent_nid : Z) (opts : message_opts) (depth : Z) (s : write_state S)
    : wres (Z * write_state S) :=
  n ← alloc_nid (ws_layout s) NID_TYPE_NORMAL_MESSAGE;
  let s := note_meta_failures (mail_dto m) (with_layout s n.2) in
  let '(m, s) := if op_parents_only opts
                 then (Mail (mail_dto m) [], note_omitted (mail_dto m) 0 (mail_attachments m) s) else (m, s) in
  p ← build_message_payload m (embedded_depth_limit opts) (op_include_bcc opts) (op_plan opts) depth s;
  let '(heap, sub_bid, _, s) := p in
  w ← add_node_data (ws_layout s) n.1 heap parent_nid sub_bid;
  Ok (n.1, with_layout s w.2).
End messages.
