(* ===== verification/WriterMessageFacts.v ===== *)
(** * The ledger of an export

    Every attachment that the export of a message visits is written or has an event
    that says why not; the counters are what the events say, whatever the cap. *)

From S2P Require Import Prelude Telemetry PstError Header Utf PropContext TableContext Folder Text WriterHeap NamedPropMap Layout DataChain PagedHeap WriterTable WriterMessage.
#[local] Open Scope Z_scope.

(** Induction on a message and its nested messages. *)
Lemma mail_nested_ind (P : mail → Prop) :
  (∀ dto atts, (∀ att e, (att, Some e) ∈ atts → P e) → P (Mail dto atts)) → ∀ m, P m.
Proof.
  intros Hstep. fix IH 1. intros [dto atts]. apply Hstep. induction atts as [|[att0 [e0|]] atts IHl].
  - intros att e Hin. exact (False_ind _ (not_elem_of_nil _ Hin)).
  - intros att e [[= _ ->]|Hin]%elem_of_cons; [exact (IH e0)|exact (IHl att e Hin)].
  - intros att e [Heq|Hin]%elem_of_cons; [discriminate Heq|exact (IHl att e Hin)].
Qed.

(** ** Counting events *)

Definition events_of (k : fidelity_kind) (es : list fidelity_event) : Z := zlen (base.filter (λ e, fe_kind e = k) es).
Definition fail_events (es : list fidelity_event) : Z := zlen (base.filter (λ e, fe_severity e = Fail) es).

(** The kinds of an attachment of which nothing is written. *)
Definition SKIP_KINDS : list fidelity_kind := [MethodUnsupported; DepthLimit; EmbeddedUnparsed; StreamOpenFailed; StreamReadFailed].
Definition skip_events (es : list fidelity_event) : Z := zlen (base.filter (λ e, fe_kind e ∈ SKIP_KINDS) es).

(** The counters are what the sink received, the stored events its beginning. *)
Record ledger_ok (c : write_counters) (sink : list fidelity_event) : Prop := {
  lo_events : wc_events c = take 1000 sink;
  lo_total : wc_events_total c = Z.min (zlen sink) U64_MAX;
  lo_failed : wc_attachments_failed c = Z.min (fail_events sink) U64_MAX;
  lo_crc : wc_crc_events c = Z.min (events_of StreamCrc sink) U64_MAX;
  lo_truncated : wc_events_truncated c = (1000 <? zlen sink) }.

Lemma zlen_filter_app {A} (P : A → Prop) `{∀ x, Decision (P x)} l k :
  zlen (base.filter P (l ++ k)) = zlen (base.filter P l) + zlen (base.filter P k).
Proof. by rewrite filter_app, zlen_app. Qed.
Lemma zlen_filter_one {A} (P : A → Prop) `{∀ x, Decision (P x)} x :
  zlen (base.filter P [x]) = if decide (P x) then 1 else 0.
Proof. rewrite filter_cons. by destruct (decide (P x)). Qed.

Lemma sat_succ n : 0 <= n → U64_SAT_ADD (Z.min n U64_MAX) 1 = Z.min (n + 1) U64_MAX.
Proof. unfold U64_SAT_ADD, U64_MAX. lia. Qed.

Lemma record_event_ledger c sink e : ledger_ok c sink → ledger_ok (record_attach_event c e) (sink ++ [e]).
Proof.
  intros [He Ht Hf Hc Hr]. pose proof (zlen_nonneg sink).
  assert (Hl : zlen (wc_events c) = Z.min 1000 (zlen sink)) by (rewrite He; unfold zlen; rewrite length_take; lia).
  split; cbn [record_attach_event wc_events wc_events_total wc_attachments_failed wc_crc_events wc_events_truncated]; rewrite ?Hl.
  - unfold ATTACHMENT_FIDELITY_EVENTS_CAP. destruct (Z.ltb_spec (Z.min 1000 (zlen sink)) 1000).
    + rewrite He, !firstn_all2; [done|..]; rewrite ?length_app; cbn [length]; unfold zlen in *; lia.
    + rewrite He, take_app_le; [done|]. unfold zlen in *. lia.
  - rewrite Ht, zlen_app, sat_succ by done. done.
  - unfold fail_events. rewrite zlen_filter_app, zlen_filter_one. fold (fail_events sink). rewrite Hf.
    assert (0 <= fail_events sink) by apply zlen_nonneg. destruct (decide _); [by apply sat_succ|]. by rewrite Z.add_0_r.
  - unfold events_of. rewrite zlen_filter_app, zlen_filter_one. fold (events_of StreamCrc sink). rewrite Hc.
    assert (0 <= events_of StreamCrc sink) by apply zlen_nonneg. destruct (decide _); [by apply sat_succ|]. by rewrite Z.add_0_r.
  - rewrite Hr, zlen_app. change (zlen [e]) with 1. unfold ATTACHMENT_FIDELITY_EVENTS_CAP.
    destruct (Z.ltb_spec (Z.min 1000 (zlen sink)) 1000), (Z.ltb_spec 1000 (zlen sink)), (Z.ltb_spec 1000 (zlen sink + 1)); lia.
Qed.

(** Counters that differ only in what the events do not determine. *)
Lemma ledger_ok_counts c c' sink :
  wc_events c' = wc_events c → wc_events_total c' = wc_events_total c → wc_attachments_failed c' = wc_attachments_failed c →
  wc_crc_events c' = wc_crc_events c → wc_events_truncated c' = wc_events_truncated c → ledger_ok c sink → ledger_ok c' sink.
Proof. intros E1 E2 E3 E4 E5 []. by split; congruence. Qed.

(** ** What a part of the export does to the ledger *)

Section ledger.
Context {S : Type}.

(** From [s] to [s'], [n] attachments were visited. *)
Record advance (s s' : write_state S) (n : Z) (es : list fidelity_event) : Prop := {
  ad_sink : ws_sink s' = ws_sink s ++ es;
  ad_written : wc_attachments_written (ws_counters s') + skip_events es = wc_attachments_written (ws_counters s) + n;
  ad_depth : wc_depth_limit_hits (ws_counters s') = wc_depth_limit_hits (ws_counters s) + events_of DepthLimit es;
  ad_unparsed : wc_embedded_unparsed (ws_counters s') = wc_embedded_unparsed (ws_counters s) + events_of EmbeddedUnparsed es;
  ad_omitted : wc_attachments_omitted (ws_counters s') = wc_attachments_omitted (ws_counters s);
  ad_severity : Forall (λ e, fe_severity e = default_severity (fe_kind e)) es;
  ad_policy : events_of OmittedByPolicy es = 0;
  ad_meta : events_of MetaFailed es = 0;
  ad_ledger : ledger_ok (ws_counters s) (ws_sink s) → ledger_ok (ws_counters s') (ws_sink s') }.

Lemma advance_refl s s' :
  ws_sink s' = ws_sink s → ws_counters s' = ws_counters s → advance s s' 0 [].
Proof. intros E1 E2. split; rewrite ?E1, ?E2, ?app_nil_r, ?Z.add_0_r; try done. Qed.

Lemma advance_trans s s1 s2 n1 n2 es1 es2 :
  advance s s1 n1 es1 → advance s1 s2 n2 es2 → advance s s2 (n1 + n2) (es1 ++ es2).
Proof.
  intros [] []. split; unfold skip_events, events_of in *; rewrite ?zlen_filter_app; try lia.
  - rewrite ad_sink1, ad_sink0. by rewrite (assoc_L (++)).
  - by apply Forall_app.
  - auto.
Qed.

(** One event, possibly with one of the counters; [n] says whether the attachment counts as visited. *)
Lemma advance_event s e :
  fe_severity e = default_severity (fe_kind e) →
  fe_kind e ∉ SKIP_KINDS → fe_kind e ≠ OmittedByPolicy → fe_kind e ≠ MetaFailed → advance s (note_event s e) 0 [e].
Proof.
  intros Hs Hk Ho Hm. assert (fe_kind e ≠ DepthLimit ∧ fe_kind e ≠ EmbeddedUnparsed) as [Hd He].
  { split; intros E; apply Hk; rewrite E; apply (bool_decide_unpack _); vm_compute; exact I. }
  split; unfold skip_events, events_of; rewrite ?zlen_filter_one; cbn [note_event ws_sink ws_counters record_attach_event
    wc_attachments_written wc_depth_limit_hits wc_embedded_unparsed wc_attachments_omitted]; rewrite ?decide_False by done; try lia; try done.
  - by constructor.
  - apply record_event_ledger.
Qed.

Lemma advance_written s c' :
  c' = count_written (ws_counters s) ∨ c' = count_embedded (count_written (ws_counters s)) → advance s (with_counters s c') 1 [].
Proof.
  intros [-> | ->]; (split; try change (skip_events []) with 0; try change (events_of _ []) with 0; cbn; rewrite ?app_nil_r; try done; try lia);
    apply ledger_ok_counts; done.
Qed.

Lemma advance_skip s kind msg att i :
  kind ∈ SKIP_KINDS →
  advance s (note_event (with_counters s (if decide (kind = DepthLimit) then count_depth_limit (ws_counters s)
                                          else if decide (kind = EmbeddedUnparsed) then count_unparsed (ws_counters s) else ws_counters s))
              (make_attach_event msg att i kind Fail)) 1 [make_attach_event msg att i kind Fail].
Proof.
  intros Hk. set (c := if decide _ then _ else _).
  assert (Hc : wc_attachments_written c = wc_attachments_written (ws_counters s) ∧ wc_attachments_omitted c = wc_attachments_omitted (ws_counters s) ∧
    wc_depth_limit_hits c = wc_depth_limit_hits (ws_counters s) + (if decide (kind = DepthLimit) then 1 else 0) ∧
    wc_embedded_unparsed c = wc_embedded_unparsed (ws_counters s) + (if decide (kind = EmbeddedUnparsed) then 1 else 0) ∧
    (ledger_ok (ws_counters s) (ws_sink s) → ledger_ok c (ws_sink s))).
  { unfold c. repeat case_decide; simplify_eq; cbn; split_and!; try lia; try done; by apply ledger_ok_counts. }
  destruct Hc as (H1 & H2 & H3 & H4 & H5).
  assert (Hsev : default_severity kind = Fail ∧ kind ≠ OmittedByPolicy ∧ kind ≠ MetaFailed).
  { unfold SKIP_KINDS in Hk. rewrite !elem_of_cons, elem_of_nil in Hk. destruct Hk as [->|[->|[->|[->|[->|[]]]]]]; done. }
  destruct Hsev as (Hsev & Hpol & Hmeta).
  split; unfold skip_events, events_of; rewrite ?zlen_filter_one; cbn [note_event with_counters ws_sink ws_counters record_attach_event
    wc_attachments_written wc_depth_limit_hits wc_embedded_unparsed wc_attachments_omitted make_attach_event fe_kind fe_severity]; try lia; try done.
  - rewrite decide_True by done. lia.
  - by constructor.
  - by rewrite decide_False.
  - by rewrite decide_False.
  - intros Hl. apply record_event_ledger. auto.
Qed.
End ledger.

(** ** The builders *)

(** Taking a run of binds that succeeded apart. *)
Ltac inv_binds :=
  repeat match goal with
  | H : (_ ≫= _) = Ok _ |- _ => apply bind_ok_inv in H as (? & ? & H); cbv beta iota zeta in H
  | H : Ok _ = Ok _ |- _ => injection H; clear H; intros; subst
  | H : Err _ = Ok _ |- _ => discriminate H
  | H : context [let '(_, _) := ?p in _] |- _ => is_var p; destruct p
  end.

(** An attachment whose nested message is written. *)
Definition opens_nested (max_depth depth : Z) (att : write_attachment) : bool :=
  let a := wa_fields att in
  negb (is_cloud_link a) && (default ATTACH_BY_VALUE (attach_method a) =? ATTACH_EMBEDDED_MSG) &&
  negb ((max_depth <=? depth) || embedded_depth_limited a).

(** How many attachments the export of a message visits. *)
Fixpoint visited (max_depth depth : Z) (m : mail) : Z :=
  let '(Mail _ atts) := m in
  foldr (λ att n, 1 + (if opens_nested max_depth depth att.1
                       then match att.2 with Some e => visited max_depth (depth + 1) e | None => 0 end else 0) + n) 0 atts.

Section build.
Context `{Crc : Crc32} {S : Type} `{!StreamSource S} (file_name : rstring → option rstring).

Lemma advance_layout (s : write_state S) ly s' n es : advance (with_layout s ly) s' n es → advance s s' n es.
Proof. intros H. apply (advance_trans _ (with_layout s ly) _ 0 n []); [by apply advance_refl|done]. Qed.

Lemma advance_layout_r (s s' : write_state S) ly n es : advance s s' n es → advance s (with_layout s' ly) n es.
Proof. intros H. rewrite <-(app_nil_r es), <-(Z.add_0_r n). eapply advance_trans; [exact H|by apply advance_refl]. Qed.

(** The last step of a written attachment. *)
Lemma advance_written_in (s0 s : write_state S) c' es n :
  c' = count_written (ws_counters s) ∨ c' = count_embedded (count_written (ws_counters s)) →
  advance s0 s n es → advance s0 (with_counters s c') (n + 1) es.
Proof. intros Hc Hs. rewrite <-(app_nil_r es). eapply advance_trans; [exact Hs|by apply advance_written]. Qed.

Lemma skip_advances msg att i kind counter (s : write_state S) w c' s' :
  kind ∈ [MethodUnsupported; StreamOpenFailed; StreamReadFailed] →
  skip_attachment msg att i kind counter s = Ok (w, c', s') → ∃ es, advance s s' 1 es.
Proof.
  intros Hk. unfold skip_attachment. intros [= <- <- <-].
  pose proof (advance_skip s kind msg att i) as Ha. rewrite !elem_of_cons, elem_of_nil in Hk.
  assert (kind ∈ SKIP_KINDS ∧ kind ≠ DepthLimit ∧ kind ≠ EmbeddedUnparsed) as (H1 & H2 & H3).
  { unfold SKIP_KINDS. rewrite !elem_of_cons. destruct Hk as [->|[->|[->|[]]]]; split_and!; try done; tauto. }
  rewrite !decide_False in Ha by done. destruct s. eexists. by apply Ha.
Qed.

Lemma resolve_advances att (s s' : write_state S) r : resolve_attach_payload att s = (r, s') → advance s s' 0 [].
Proof. unfold resolve_attach_payload. destruct (wa_data att); [|destruct (open_attach_stream _ _ _ _ _)]; intros [= _ <-]; by apply advance_refl. Qed.

Lemma write_one_advances msg att build i depth max_depth plan counter (s : write_state S) w counter' s' nested :
  (∀ b r s1 s2, build = Some b → b (depth + 1) s1 = Ok (r, s2) → ∃ es, advance s1 s2 nested es) →
  write_one_attachment file_name msg att build i depth max_depth plan counter s = Ok (w, counter', s') →
  ∃ es, advance s s' (1 + if opens_nested max_depth depth att then match build with Some _ => nested | None => 0 end else 0) es.
Proof.
  intros Hbuild. unfold write_one_attachment, opens_nested. destruct (is_cloud_link (wa_fields att)).
  { unfold write_cloud_link_pointer_attach. intros Hw. inv_binds. eexists.
    apply (advance_written_in _ _ _ _ 0); [by left|]. eapply advance_layout, advance_event; [done| |done..].
    apply (bool_decide_unpack _). vm_compute. exact I. }
  cbn [negb andb]. set (method := default _ _). destruct (Z.eqb_spec method ATTACH_EMBEDDED_MSG) as [->|Hne]; cbn [negb andb].
  - rewrite andb_false_r. destruct ((max_depth <=? depth) || _); cbn [negb].
    { intros [= <- <- <-]. eexists. apply (advance_skip s DepthLimit msg att i). apply (bool_decide_unpack _). vm_compute. exact I. }
    destruct build as [b|].
    + intros Hw. apply bind_ok_inv in Hw as ([r s1] & Hb & Hw). destruct (Hbuild b r s s1 eq_refl Hb) as [es Ha]. cbn [fst snd] in Hw.
      unfold finish_embedded in Hw. inv_binds. eexists. rewrite Z.add_comm. apply advance_written_in; [by right|by apply advance_layout_r].
    + intros [= <- <- <-]. eexists. apply (advance_skip s EmbeddedUnparsed msg att i). apply (bool_decide_unpack _). vm_compute. exact I.
  - rewrite andb_true_r. destruct (Z.eqb_spec method ATTACH_BY_VALUE); cbn [negb].
    2: { intros Hw. eapply skip_advances; [|done]. by left. }
    destruct (resolve_attach_payload att s) as [r s1] eqn:Hr. apply resolve_advances in Hr.
    assert (Hskip : ∀ kind c ly, kind ∈ [MethodUnsupported; StreamOpenFailed; StreamReadFailed] →
      skip_attachment msg att i kind c (with_layout s1 ly) = Ok (w, counter', s') → ∃ es, advance s s' 1 es).
    { intros kind c ly Hk Hw. eapply skip_advances in Hw as [es Ha]; [|done]. exists es.
      apply (advance_trans _ s1 _ 0 1 []); [done|]. by eapply advance_layout. }
    destruct r as [p|].
    + intros Hw. apply bind_ok_inv in Hw as ([[sp|] ly] & _ & Hw); cbn [fst snd] in Hw.
      * assert (∃ es s2, advance s s2 0 es ∧ finish_by_value file_name att (next_counter counter) sp s2 = Ok (w, counter', s')) as (es & s2 & Ha & Hf).
        { destruct (sp_crc sp); [|exists [], (with_layout s1 ly); split; [|done]; by apply (advance_trans _ s1 _ 0 0 [] []), advance_refl].
          eexists _, _. split; [|exact Hw]. eapply (advance_trans _ s1 _ 0 0 []); [done|]. eapply advance_layout, advance_event; [done| |done..].
          apply (bool_decide_unpack _). vm_compute. exact I. }
        unfold finish_by_value in Hf. inv_binds. eexists. apply (advance_written_in _ _ _ _ 0); [by left|by apply advance_layout_r].
      * eapply (Hskip _ _ ly); [|exact Hw]. right. right. by left.
    + intros Hw. eapply (Hskip _ _ (ws_layout s1)); [|destruct s1; exact Hw]. right. by left.
Qed.

(** The properties and tables of a message touch the layout only. *)
Definition same_ledger (s s' : write_state S) : Prop := ws_sink s' = ws_sink s ∧ ws_counters s' = ws_counters s.
#[local] Instance same_ledger_trans : Transitive same_ledger.
Proof. intros s1 s2 s3 [] []. split; congruence. Qed.

Lemma divert_quiet (l l' : payload) b n : divert l b = Ok (n, l') → same_ledger (pl_state l) (pl_state l').
Proof. unfold divert. intros H. by inv_binds. Qed.
Lemma push_string_quiet (l l' : payload) id str : push_string_prop l id str = Ok l' → same_ledger (pl_state l) (pl_state l').
Proof.
  unfold push_string_prop. destruct (_ <? _); [|by intros [= <-]]. intros H. apply bind_ok_inv in H as ([n l1] & H1 & [= <-]). exact (divert_quiet _ _ _ _ H1).
Qed.
Lemma push_opt_quiet (l l' : payload) id o : push_opt l id o = Ok l' → same_ledger (pl_state l) (pl_state l').
Proof. destruct o; [apply push_string_quiet|by intros [= <-]]. Qed.
Lemma push_binary_quiet (l l' : payload) id b : push_binary_prop l id b = Ok l' → same_ledger (pl_state l) (pl_state l').
Proof.
  unfold push_binary_prop. destruct (_ <? _); [|by intros [= <-]]. intros H. apply bind_ok_inv in H as ([n l1] & H1 & [= <-]). exact (divert_quiet _ _ _ _ H1).
Qed.
Lemma push_all_state (l : payload) ps : pl_state (push_all (S := S) l ps) = pl_state l.
Proof. revert l. induction ps as [|p ps IH]; intros l; [done|]. cbn [push_all foldl]. fold (push_all (pl_push l p.1 p.2) ps). by rewrite IH. Qed.

Lemma push_fields_quiet m bcc (s : write_state S) l : push_fields m bcc s = Ok l → same_ledger s (pl_state l).
Proof.
  unfold push_fields. intros H. cbv zeta in H.
  repeat (apply bind_ok_inv in H as (?l & ?H & H)). injection H as <-. rewrite push_all_state.
  repeat match goal with
  | H : push_opt _ _ _ = Ok _ |- _ => apply push_opt_quiet in H
  | H : push_string_prop _ _ _ = Ok _ |- _ => apply push_string_quiet in H
  end. rewrite push_all_state in *.
  assert (same_ledger (pl_state l7) (pl_state l8)).
  { destruct (html_bytes m); [by eapply push_binary_quiet|by simplify_eq]. }
  cbn [pl_state] in *. repeat (etrans; [eassumption|]). done.
Qed.

Lemma add_table_quiet (l l' : payload) nid tb ly : add_table_subnode l nid tb ly = Ok l' → same_ledger (pl_state l) (pl_state l').
Proof. unfold add_table_subnode. intros H. by inv_binds. Qed.

Lemma probe_quiet fuel : ∀ (l l' : payload) n, message_size_probe fuel l = Ok (n, l') → same_ledger (pl_state l) (pl_state l').
Proof.
  induction fuel as [|fuel IH]; intros l l' n; [done|]. cbn [message_size_probe]. destruct (pc_bytes _) as [bytes|e| |]; [|destruct e; try done|done..].
  - destruct (_ <? _); [done|]. by intros [= _ <-].
  - intros H. apply bind_ok_inv in H as ([l1|] & H1 & H); [|done]. etrans; [|by eapply IH].
    unfold escalate_largest_inline_helper in H1. destruct (largest_helper _ _ _ _) as [[[i id] str]|]; [|done].
    apply bind_ok_inv in H1 as ([k l2] & H2 & [= <-]). exact (divert_quiet _ _ _ _ H2).
Qed.

Lemma finish_payload_quiet m bcc (l : payload) written r s' :
  finish_payload m bcc l written = Ok (r, s') → same_ledger (pl_state l) s'.
Proof.
  unfold finish_payload. intros H. cbv zeta in H. apply bind_ok_inv in H as (l1 & H1 & H). apply bind_ok_inv in H as (l2 & H2 & H).
  apply bind_ok_inv in H as ([n l3] & H3 & H). inv_binds. cbn [pl_state with_layout ws_sink ws_counters] in *.
  assert (Ha : same_ledger (pl_state l) (pl_state l1)).
  { unfold push_attachment_table in H1. destruct written; [by injection H1 as <-|]. apply bind_ok_inv in H1 as (tb & _ & H1). by eapply add_table_quiet. }
  assert (Hb : same_ledger (pl_state l1) (pl_state l2)).
  { unfold push_recipient_table in H2. apply bind_ok_inv in H2 as (tb & _ & H2). by eapply add_table_quiet. }
  apply probe_quiet in H3. rewrite push_all_state in H3. do 2 (etrans; [eassumption|]). etrans; [exact H3|]. by split.
Qed.

(** ** Messages *)

Lemma build_payload_advances max_depth bcc plan m : ∀ depth s r s',
  build_message_payload file_name m max_depth bcc plan depth s = Ok (r, s') →
  ∃ es, advance s s' (visited max_depth depth m) es.
Proof.
  induction m as [dto atts IH] using mail_nested_ind. intros depth s r s' H. cbn [build_message_payload visited] in *.
  apply bind_ok_inv in H as (l & Hl & H). apply push_fields_quiet in Hl as [El1 El2]. apply bind_ok_inv in H as (acc & Hloop & H).
  apply finish_payload_quiet in H as [Ef1 Ef2].
  set (visits := λ att : write_attachment * option mail, 1 + (if opens_nested max_depth depth att.1
      then match att.2 with Some e => visited max_depth (depth + 1) e | None => 0 end else 0)).
  change (foldr _ 0 atts) with (foldr (λ att n, visits att + n) 0 atts).
  enough (Hgen : ∀ es0 n0 acc0, advance s (pl_state (al_payload acc0)) n0 es0 →
    mfold (λ acc att, attach_step file_name dto depth max_depth plan acc att.1 (match att.2 with
      | Some e => Some (λ depth, embedded_object (build_message_payload file_name e max_depth bcc plan depth)) | None => None end)) atts acc0 = Ok acc →
    ∃ es, advance s (pl_state (al_payload acc)) (n0 + foldr (λ att n, visits att + n) 0 atts) es).
  { edestruct (Hgen [] 0) as [es Ha]; [|exact Hloop|]; [by apply advance_refl|]. exists es. rewrite <-(app_nil_r es).
    rewrite <-(Z.add_0_r (foldr _ _ _)), <-(Z.add_0_l (foldr _ _ _)). eapply advance_trans; [exact Ha|by apply advance_refl]. }
  clear Hloop Ef1 Ef2 El1 El2.
  induction atts as [|[att o] atts IHl]; intros es0 n0 acc1 Hs Hloop.
  - injection Hloop as <-. cbn [foldr]. rewrite Z.add_0_r. eauto.
  - cbn [mfold] in Hloop. apply bind_ok_inv in Hloop as (acc2 & Hstep & Hloop). cbn [foldr fst snd] in *.
    unfold attach_step in Hstep. apply bind_ok_inv in Hstep as ([[w c] s2] & Hw & Hstep).
    eapply (write_one_advances _ _ _ _ _ _ _ _ _ _ _ _ (match o with Some e => visited max_depth (depth + 1) e | None => 0 end)) in Hw as [es1 Ha1].
    + specialize (advance_trans _ _ _ _ _ _ _ Hs Ha1) as Hs2. assert (Es : pl_state (al_payload acc2) = s2) by (destruct w; by simplify_eq).
      rewrite <-Es in Hs2.
      destruct (IHl ltac:(intros a e Hin; apply (IH a); by right) _ _ acc2 Hs2 Hloop) as [es2 Ha2]. exists es2. rewrite Z.add_assoc.
      unfold visits at 1. cbn [fst snd]. destruct o; [exact Ha2|]. by destruct (opens_nested _ _ _).
    + intros b r' s3 s4 Hb Hrun. destruct o as [e|]; [|done]. injection Hb as <-. unfold embedded_object in Hrun.
      apply bind_ok_inv in Hrun as (n & _ & Hrun). apply bind_ok_inv in Hrun as ([[[heap sub] size] s5] & Hp & Hrun). inv_binds.
      destruct (IH att e ltac:(by left) _ _ _ _ Hp) as [es1 Ha1]. exists es1. apply advance_layout_r. by eapply advance_layout.
Qed.

(** What happens before the payload: the list failures, and the policy. *)
Record noted (s s' : write_state S) (es : list fidelity_event) (omitted : Z) : Prop := {
  nt_sink : ws_sink s' = ws_sink s ++ es;
  nt_written : wc_attachments_written (ws_counters s') = wc_attachments_written (ws_counters s);
  nt_depth : wc_depth_limit_hits (ws_counters s') = wc_depth_limit_hits (ws_counters s);
  nt_unparsed : wc_embedded_unparsed (ws_counters s') = wc_embedded_unparsed (ws_counters s);
  nt_skips : skip_events es = 0;
  nt_no_limit : events_of DepthLimit es = 0;
  nt_no_unparsed : events_of EmbeddedUnparsed es = 0;
  nt_omitted : events_of OmittedByPolicy es = omitted;
  nt_severity : Forall (λ e, fe_severity e = default_severity (fe_kind e)) es;
  nt_ledger : ledger_ok (ws_counters s) (ws_sink s) → ledger_ok (ws_counters s') (ws_sink s') }.

Lemma noted_refl s : noted s s [] 0.
Proof. split; rewrite ?app_nil_r; done. Qed.
Lemma noted_trans s s1 s2 es1 es2 n1 n2 : noted s s1 es1 n1 → noted s1 s2 es2 n2 → noted s s2 (es1 ++ es2) (n1 + n2).
Proof.
  intros [] []. split; unfold skip_events, events_of in *; rewrite ?zlen_filter_app; try lia; try congruence.
  - rewrite nt_sink1, nt_sink0. by rewrite (assoc_L (++)).
  - by apply Forall_app.
  - auto.
Qed.

Lemma noted_event s e c :
  fe_kind e = MetaFailed ∨ fe_kind e = OmittedByPolicy → fe_severity e = default_severity (fe_kind e) →
  c = ws_counters s ∨ c = count_omitted (ws_counters s) →
  noted s (note_event (with_counters s c) e) [e] (if decide (fe_kind e = OmittedByPolicy) then 1 else 0).
Proof.
  intros Hk Hs Hc. split; unfold skip_events, events_of; rewrite ?zlen_filter_one; cbn [note_event with_counters ws_sink ws_counters record_attach_event
    wc_attachments_written wc_depth_limit_hits wc_embedded_unparsed]; try (by destruct Hc as [-> | ->]).
  - rewrite decide_False; [done|]. destruct Hk as [-> | ->]; apply (bool_decide_unpack _); vm_compute; exact I.
  - by destruct Hk as [-> | ->].
  - by destruct Hk as [-> | ->].
  - by constructor.
  - intros Hl. apply record_event_ledger. destruct Hc as [-> | ->]; [done|by apply (ledger_ok_counts (ws_counters s))].
Qed.

Lemma note_omitted_noted m atts : ∀ i s, ∃ es, noted s (note_omitted m i atts s) es (zlen atts) ∧ events_of MetaFailed es = 0.
Proof.
  induction atts as [|att atts IH]; intros i s; [exists []; split; [apply noted_refl|done]|]. cbn [note_omitted].
  destruct (IH (i + 1) (note_event (with_counters s (count_omitted (ws_counters s))) (make_attach_event m att.1 (wrap 32 i) OmittedByPolicy Info))) as (es & He & Hm).
  set (e := make_attach_event m att.1 (wrap 32 i) OmittedByPolicy Info) in *. exists ([e] ++ es). split.
  - rewrite zlen_cons. refine (noted_trans _ _ _ [e] es 1 _ _ He). apply (noted_event s e); [by right|done|by right].
  - unfold events_of in *. by rewrite zlen_filter_app, zlen_filter_one, Hm.
Qed.

Definition meta_failures (m : message_dto) : Z :=
  (if wm_attach_list_failed m then 1 else 0) + (if wm_attachments_incomplete m then 1 else 0).
Lemma note_meta_noted m s : ∃ es, noted s (note_meta_failures m s) es 0 ∧ events_of MetaFailed es = meta_failures m.
Proof.
  assert (Hone : ∀ name s, noted s (note_event s (make_attach_event m (blank_attachment name m) 0 MetaFailed Fail))
    [make_attach_event m (blank_attachment name m) 0 MetaFailed Fail] 0).
  { intros name s0. pose proof (noted_event s0 (make_attach_event m (blank_attachment name m) 0 MetaFailed Fail) (ws_counters s0)
      ltac:(by left) eq_refl ltac:(by left)) as H. destruct s0. exact H. }
  unfold note_meta_failures, meta_failures. destruct (wm_attach_list_failed m), (wm_attachments_incomplete m).
  - eexists. split; [exact (noted_trans _ _ _ _ _ 0 0 (Hone _ _) (Hone _ _))|done].
  - eexists. split; [apply Hone|done].
  - eexists. split; [apply Hone|done].
  - exists []. split; [apply noted_refl|done].
Qed.

(** C7 No attachment disappears silently.  When the export of a message succeeds,
    each attachment that it visits, in the message and in the nested messages down to
    the depth limit, is written or has an event of a kind that says why nothing was
    written; under the parents-only policy each attachment of the message has its
    omission event and nothing is written.  The counters are those of the events
    that the sink received, whatever the cap on the stored ones, and every event has
    the severity of its kind.  List failures are reported of the message itself
    only, not of the nested ones. *)
Theorem attachments_accounted m parent opts depth (s : write_state S) nid s'
    (Hrun : build_message_node file_name m parent opts depth s = Ok (nid, s')) :
  ∃ es, ws_sink s' = ws_sink s ++ es ∧ Forall (λ e, fe_severity e = default_severity (fe_kind e)) es ∧
    (ledger_ok (ws_counters s) (ws_sink s) → ledger_ok (ws_counters s') (ws_sink s')) ∧
    wc_depth_limit_hits (ws_counters s') = wc_depth_limit_hits (ws_counters s) + events_of DepthLimit es ∧
    wc_embedded_unparsed (ws_counters s') = wc_embedded_unparsed (ws_counters s) + events_of EmbeddedUnparsed es ∧
    events_of MetaFailed es = meta_failures (mail_dto m) ∧
    wc_attachments_written (ws_counters s') + skip_events es = wc_attachments_written (ws_counters s) +
      (if op_parents_only opts then 0 else visited (embedded_depth_limit opts) depth m) ∧
    events_of OmittedByPolicy es = if op_parents_only opts then zlen (mail_attachments m) else 0.
Proof.
  unfold build_message_node in Hrun. apply bind_ok_inv in Hrun as (n & _ & Hrun). cbv zeta in Hrun.
  destruct (note_meta_noted (mail_dto m) (with_layout s n.2)) as (es1 & Hn1 & Hm1). set (s1 := note_meta_failures _ _) in *.
  assert (Hpre : ∃ m2 s2 es2, (if op_parents_only opts then (Mail (mail_dto m) [], note_omitted (mail_dto m) 0 (mail_attachments m) s1) else (m, s1)) = (m2, s2) ∧
    noted s1 s2 es2 (if op_parents_only opts then zlen (mail_attachments m) else 0) ∧ events_of MetaFailed es2 = 0 ∧
    visited (embedded_depth_limit opts) depth m2 = if op_parents_only opts then 0 else visited (embedded_depth_limit opts) depth m).
  { destruct (op_parents_only opts); [|exists m, s1, []; split_and!; try done; apply noted_refl].
    destruct (note_omitted_noted (mail_dto m) (mail_attachments m) 0 s1) as (es2 & ? & ?). by exists (Mail (mail_dto m) []), (note_omitted (mail_dto m) 0 (mail_attachments m) s1), es2. }
  destruct Hpre as (m2 & s2 & es2 & Hp & Hn2 & Hm2 & Hv). rewrite Hp in Hrun.
  apply bind_ok_inv in Hrun as ([[[heap sub] size] s3] & Hpay & Hrun). apply build_payload_advances in Hpay as [es3 Ha]. rewrite Hv in Ha.
  apply bind_ok_inv in Hrun as (w & _ & [= <- <-]). pose proof (noted_trans _ _ _ _ _ _ _ Hn1 Hn2) as Hn. rewrite Z.add_0_l in Hn.
  destruct Hn, Ha. cbn [ws_sink ws_counters with_layout] in *. exists ((es1 ++ es2) ++ es3).
  unfold skip_events, events_of in *. rewrite !zlen_filter_app in *. split_and!; try lia.
  - rewrite ad_sink0, nt_sink0. by rewrite <-!(assoc_L (++)).
  - by apply Forall_app.
  - auto.
Qed.
End build.

(** ** Concrete messages *)

#[local] Instance ledger_crc : Crc32 := λ _, 7.
(** No stream source. *)
#[local] Instance no_streams : StreamSource unit := {| open_attach_stream := λ s _ _ _ _, (None, s) |}.

Definition start_state : write_state unit :=
  {| ws_layout := attach_eager layout_new eager_create; ws_counters := no_counters; ws_streams := tt; ws_sink := [] |}.

Definition plain_message (subject : rstring) (incomplete : bool) : message_dto :=
  {| wm_message_id := Some (lit "<1@example.org>"); wm_subject := subject; wm_sender := None; wm_display_to := None;
     wm_display_cc := None; wm_display_bcc := None; wm_recipients := []; wm_submit_time := None; wm_body_plain := Some (lit "text");
     wm_body_html := None; wm_message_class := None; wm_message_flags := None; wm_body_incomplete := false;
     wm_attachments_incomplete := incomplete; wm_body_unavailable := false; wm_source_folder_path := None;
     wm_source_path := None; wm_source_msg_nid := None; wm_attach_list_failed := false |}.
Definition plain_attachment (name : rstring) (method : option Z) (data : option (list byte)) : write_attachment :=
  {| wa_fields := {| filename := name; mime := None; attach_size := 3; attach_method := method; embedded_depth_limited := false;
                     is_cloud_link := false; cloud_provider := None; cloud_url := None; cloud_permission_type := None |};
     wa_data := data; wa_stream_available := false; wa_attach_nid := None; wa_source_path := None; wa_parent_nid := None |}.

(** A message with a file, a lost file, an OLE object and a nested message whose
    own attachment list was incomplete. *)
Definition nested_mail : mail :=
  Mail (plain_message (lit "inner") true) [(plain_attachment (lit "b.txt") (Some 1) (Some [Byte.x42]), None)].
Definition sample_mail : mail :=
  Mail (plain_message (lit "outer") false)
    [(plain_attachment (lit "a.txt") (Some 1) (Some [Byte.x41]), None);
     (plain_attachment (lit "lost.txt") None None, None);
     (plain_attachment (lit "ole.bin") (Some 6) None, None);
     (plain_attachment (lit "inner.msg") (Some 5) None, Some nested_mail)].
Definition sample_opts : message_opts := {| op_max_embedded_depth := 3; op_parents_only := false; op_include_bcc := false; op_plan := ∅ |}.

Definition kinds_after (r : wres (Z * write_state unit)) : list fidelity_kind :=
  match r with Ok (_, s) => map fe_kind (ws_sink s) | _ => [] end.

Lemma attachments_accounted_witness :
  ∃ nid s' es, build_message_node Some sample_mail 0x8022 sample_opts 0 start_state = Ok (nid, s') ∧
    map fe_kind es = [StreamOpenFailed; MethodUnsupported] ∧ ws_sink s' = es ∧
    wc_attachments_written (ws_counters s') + skip_events es = visited 3 0 sample_mail ∧ visited 3 0 sample_mail = 5.
Proof.
  assert (Hok : match build_message_node Some sample_mail 0x8022 sample_opts 0 start_state with Ok _ => true | _ => false end = true) by (vm_compute; reflexivity).
  assert (Hk : kinds_after (build_message_node Some sample_mail 0x8022 sample_opts 0 start_state) = [StreamOpenFailed; MethodUnsupported]) by (vm_compute; reflexivity).
  destruct (build_message_node Some sample_mail 0x8022 sample_opts 0 start_state) as [[nid s']|e| |] eqn:Hrun; try discriminate Hok.
  destruct (attachments_accounted Some sample_mail 0x8022 sample_opts 0 start_state nid s' Hrun) as (es & Hs & _ & _ & _ & _ & _ & Hw & _).
  exists nid, s', es. change (ws_sink s' = es) in Hs. cbn [kinds_after] in Hk. rewrite Hs in Hk. split_and!; [done|done|done|exact Hw|vm_compute; reflexivity].
Defined.

(** The nested message lost attachments when it was read; the export has no event for that. *)
Example nested_list_failure_unreported :
  wm_attachments_incomplete (mail_dto nested_mail) = true ∧
  MetaFailed ∉ kinds_after (build_message_node Some sample_mail 0x8022 sample_opts 0 start_state) ∧
  MetaFailed ∈ kinds_after (build_message_node Some nested_mail 0x8022 sample_opts 0 start_state).
Proof.
  assert (H1 : kinds_after (build_message_node Some sample_mail 0x8022 sample_opts 0 start_state) = [StreamOpenFailed; MethodUnsupported]) by (vm_compute; reflexivity).
  assert (H2 : kinds_after (build_message_node Some nested_mail 0x8022 sample_opts 0 start_state) = [MetaFailed]) by (vm_compute; reflexivity).
  rewrite H1, H2. split; [done|]. split; [apply (bool_decide_unpack _); vm_compute; exact I|by left].
Qed.

(** A cloud link with a URL of 1400 characters: its property context does not fit a
    page and the export fails. *)
Definition long_link : mail :=
  Mail (plain_message (lit "link") false)
    [({| wa_fields := {| filename := lit "report"; mime := None; attach_size := 0; attach_method := Some 7; embedded_depth_limited := false;
                         is_cloud_link := true; cloud_provider := None; cloud_url := Some (lit "https://" ++ replicate 1400 97);
                         cloud_permission_type := None |};
         wa_data := None; wa_stream_available := false; wa_attach_nid := None; wa_source_path := None; wa_parent_nid := None |}, None)].
Example long_cloud_url_fails_export :
  match build_message_node Some long_link 0x8022 {| op_max_embedded_depth := 3; op_parents_only := false; op_include_bcc := false;
          op_plan := scan_messages [scanned long_link] |} 0 start_state with
  | Err (HeapPageOverflow projected _ _ _ _) => MAX_BLOCK_DATA < projected
  | _ => False
  end.
Proof. vm_compute. reflexivity. Qed.
