(* ===== verification/MessageBuild.v ===== *)
(** * Building a message

    The subnodes and property contexts of a message as the reader meets them; and
    what the properties of a message stand for while [build_message_payload] runs:
    each property carries a value, inline or in a subnode that was written, and every
    subnode so far leads to data that a reader assembles. *)

From S2P Require Import Prelude Telemetry PstError Crypt Nid Header Btree Block BlockFacts Streaming Subnode Heap Bth Utf PropContext PropContextFacts TableContext Folder Text CivilDate Recipient Hasher Message WriterHeap WriterPc NamedPropMap CloudRoundTrip Layout LayoutFacts DataChain DataChainFacts StreamWrite TreeWriter NdbLayout NdbPages NdbTree NdbFile NdbRead NdbStore NdbRoundTrip PagedHeap PagedHeapFacts WriterTable TableRows WriterTableFacts TableTheorems WriterMessage WriterMessageFacts.
#[local] Open Scope Z_scope.
#[local] Set Warnings "-register-all".

(** ** Loading a context whose subnodes are readable *)

Section load.
Context `{Crc : Crc32} (file : list byte) (bbt : bbt_index) (crypt : crypt_method).

Lemma read_needed_clean needed entries nbs :
  Forall2 (λ e nb, nb.1 = wrap 32 (sub_nid e) ∧ clean (read_block_data file bbt (sub_bid_data e) crypt) nb.2) entries nbs →
  ∃ subs, clean (read_needed file bbt crypt needed entries) subs ∧ ∀ n, n ∈ needed → subs !! n = subnode_map nbs !! n.
Proof.
  intros Hall. unfold read_needed, subnode_map.
  enough (Hgen : ∀ acc full : gmap Z (list byte), (∀ n, n ∈ needed → acc !! n = full !! n) →
    ∃ subs, clean (mfold (λ subnodes entry, let raw_nid := wrap 32 (sub_nid entry) in
        if decide (raw_nid ∈ needed) then bytes ← read_block_data file bbt (sub_bid_data entry) crypt; mret (<[raw_nid := bytes]> subnodes)
        else mret subnodes) entries acc) subs ∧
      ∀ n, n ∈ needed → subs !! n = foldl (λ m nb, <[nb.1 := nb.2]> m) full nbs !! n) by by apply Hgen.
  induction Hall as [|e [n b] entries nbs [Hn Hb] _ IH]; intros acc full Hacc.
  { exists acc. split; [apply clean_ret|done]. }
  cbn [fst snd] in *. subst n. cbn [foldl fst snd].
  destruct (IH (if decide (wrap 32 (sub_nid e) ∈ needed) then <[wrap 32 (sub_nid e) := b]> acc else acc) (<[wrap 32 (sub_nid e) := b]> full)) as (subs & Hc & Hs).
  { intros k Hk. case_decide as Hin.
    - destruct (decide (wrap 32 (sub_nid e) = k)) as [->|]; [by rewrite !lookup_insert_eq|by rewrite !lookup_insert_ne by done; auto].
    - rewrite lookup_insert_ne by (intros Heq; apply Hin; by rewrite Heq). auto. }
  exists subs. split; [|exact Hs]. cbn [mfold]. eapply clean_bind; [|exact Hc]. cbv zeta. case_decide; [|apply clean_ret].
  eapply clean_bind; [exact Hb|apply clean_ret].
Qed.

Lemma load_targeted_clean bid_data bid_sub data entries nbs eager :
  bbt_wf bbt → is_null bid_sub = false → clean (read_block_data file bbt bid_data crypt) data →
  clean (list_subnode_entries file bbt bid_sub) entries →
  Forall2 (λ e nb, nb.1 = wrap 32 (sub_nid e) ∧ clean (read_block_data file bbt (sub_bid_data e) crypt) nb.2) entries nbs →
  load_with_subnodes data (subnode_map nbs) = Ok eager →
  ∃ pc, clean (load_pc_from_bids file bbt crypt bid_data bid_sub) pc ∧ ∀ id, pc_get pc id = pc_get eager id.
Proof.
  intros Hwf Hsub Hdata Hentries Hall Heager. unfold load_with_subnodes in Heager. apply bind_ok_inv in Heager as ([h records] & Hp & [= <-]).
  destruct (referenced_spec bbt Hwf data h records Hp) as (needed & Href & Hneeded).
  assert (Hload : ∀ subs, load_with_subnodes data subs = Ok {| pc_heap := h; pc_records := records; pc_subnodes := subs |}).
  { intros subs. unfold load_with_subnodes. by rewrite Hp. }
  assert (Hsubs : ∃ subs, clean (needed ← quiet (referenced_subnode_nids data);
      if decide (needed = ∅) then mret ∅ else entries ← list_subnode_entries file bbt bid_sub; read_needed file bbt crypt needed entries) subs ∧
    ∀ n, n ∈ needed → subs !! n = subnode_map nbs !! n).
  { destruct (decide (needed = ∅)) as [He|Hne].
    - exists ∅. split; [|intros n Hn; rewrite He in Hn; by apply not_elem_of_empty in Hn].
      eapply clean_quiet_bind; [exact Href|]. rewrite decide_True by done. apply clean_ret.
    - destruct (read_needed_clean needed entries nbs Hall) as (subs & Hc & Hs). exists subs. split; [|done].
      eapply clean_quiet_bind; [exact Href|]. rewrite decide_False by done. by eapply clean_bind. }
  destruct Hsubs as (subs & Hc & Hs). eexists. split.
  - unfold load_pc_from_bids. eapply clean_bind; [exact Hdata|]. rewrite Hsub. eapply clean_bind; [exact Hc|].
    rewrite Hload. exists []. split; [done|constructor].
  - intros id. apply pc_get_agrees. intros r Hin Hl Hr. by apply Hs, Hneeded.
Qed.
End load.

(** The value of a subnode whose 32-bit NID is its own. *)
Lemma subnode_map_lookup nbs n b :
  (∃ nb, nb ∈ nbs ∧ nb.1 = n) → (∀ nb, nb ∈ nbs → nb.1 = n → nb.2 = b) → subnode_map nbs !! n = Some b.
Proof.
  induction nbs as [|[k d] nbs IH] using rev_ind; intros (nb & Hin & Hn) Hb; [by apply elem_of_nil in Hin|].
  rewrite subnode_map_snoc. destruct (decide (k = n)) as [->|Hk].
  - rewrite lookup_insert_eq. f_equal. apply (Hb (n, d)); [apply elem_of_app; right; by left|done].
  - rewrite lookup_insert_ne by done. apply IH.
    + apply elem_of_app in Hin as [Hin|[->|[]%elem_of_nil]%elem_of_cons]; [by exists nb|done].
    + intros nb' Hin' Hn'. apply Hb; [apply elem_of_app; by left|done].
Qed.

(** ** Subnode IDs of a message *)

Lemma land_type i t : 0 <= t < 32 → Z.land (32 * i + t) 0x1F = t.
Proof. intros Ht. change 0x1F with (Z.ones 5). rewrite Z.land_ones by lia. change (2 ^ 5) with 32. rewrite Z.mul_comm, Z.add_comm, Z.mod_add by lia. by apply Z.mod_small. Qed.

Lemma subnode_nid_eq k : subnode_nid k = 32 * k + 31.
Proof. unfold subnode_nid. by apply lor_shift_add. Qed.
Lemma attach_nid_eq k : attach_nid_of k = 32 * k + 5.
Proof. unfold attach_nid_of. by apply lor_shift_add. Qed.

(** The IDs under which a message keeps its subnodes: values, attachments, tables. *)
Inductive message_subnode (n : Z) : Z → Prop :=
| ms_value k : 1 <= k <= n → message_subnode n (subnode_nid (wrap 32 k))
| ms_attach k : 0 <= k < 2 ^ 32 → message_subnode n (attach_nid_of k)
| ms_attach_table : message_subnode n NID_ATTACHMENT_TABLE
| ms_recipient_table : message_subnode n NID_RECIPIENT_TABLE.

Lemma message_subnode_mono n n' nid : n <= n' → message_subnode n nid → message_subnode n' nid.
Proof. intros Hn []; constructor; lia. Qed.

Lemma message_subnode_range n nid : message_subnode n nid → 0 <= nid < 2 ^ 64.
Proof.
  assert (Hw : ∀ k, 0 <= wrap 32 k < 2 ^ 32) by (intros k; unfold wrap; by apply Z.mod_pos_bound).
  intros []; rewrite ?subnode_nid_eq, ?attach_nid_eq; unfold NID_ATTACHMENT_TABLE, NID_RECIPIENT_TABLE; try specialize (Hw k); lia.
Qed.

Lemma message_subnode_type n nid :
  message_subnode n nid →
  (Z.land nid 0x1F = 31 → ∃ k, 1 <= k <= n ∧ nid = subnode_nid (wrap 32 k)) ∧
  (Z.land nid 0x1F = 5 → ∃ k, nid = attach_nid_of k) ∧
  (Z.land nid 0x1F = 0x12 → nid = NID_RECIPIENT_TABLE).
Proof.
  intros [k Hk|k Hk| |]; rewrite ?subnode_nid_eq, ?attach_nid_eq, ?land_type by lia; split_and!; intros Ht; try discriminate Ht; try done.
  - exists k. by rewrite subnode_nid_eq.
  - exists k. by rewrite attach_nid_eq.
Qed.

(** ** Layouts keep their node index in range *)

Section index.
Context `{Crc : Crc32} (failures : bool).

Lemma alloc_nid_ranges ly ty : 0 <= next_nid_index ly <= U32_MAX → 0 <= ty < 32 →
  match alloc_nid ly ty with
  | Ok (nid, ly') => 0 <= nid < 2 ^ 37 ∧ Z.land nid 0x1F = ty ∧ 0 <= next_nid_index ly' <= U32_MAX
  | _ => False
  end.
Proof.
  intros Hi Hty. unfold alloc_nid.
  assert (Hloop : ∀ fuel i, 0 <= i <= U32_MAX → match alloc_nid_loop fuel i with
    | Ok (j, next) => 0 <= j <= U32_MAX ∧ 0 <= next <= U32_MAX | NoFuel => True | _ => False end).
  { induction fuel as [|fuel IH]; intros i Hr; [done|]. cbn [alloc_nid_loop]. assert (0 <= Z.min (i + 1) U32_MAX <= U32_MAX) by (unfold U32_MAX in *; lia).
    case_decide; [by apply IH|done]. }
  specialize (Hloop 4%nat (next_nid_index ly) Hi).
  assert (Hfuel : alloc_nid_loop 4 (next_nid_index ly) ≠ NoFuel).
  { assert (Hres : ∀ i, i ∈ RESERVED_NID_INDICES → i = 0x30 ∨ i = 0x33 ∨ i = 0x34).
    { intros i. unfold RESERVED_NID_INDICES. rewrite !elem_of_cons, elem_of_nil. tauto. }
    cbn [alloc_nid_loop]. case_decide as H1; [apply Hres in H1|done]. case_decide as H2; [apply Hres in H2|done].
    case_decide as H3; [apply Hres in H3|done]. case_decide as H4; [apply Hres in H4|done]. unfold U32_MAX in *. lia. }
  destruct (alloc_nid_loop 4 (next_nid_index ly)) as [[j next]|e| |]; [|done..]. rewrite bind_ok. cbn [fst snd next_nid_index].
  rewrite lor_shift_add by done. rewrite land_type by done. unfold U32_MAX in *. split_and!; lia || done.
Qed.

Lemma built_index ly c : built failures ly c → 0 <= next_nid_index ly <= U32_MAX.
Proof.
  intros Hb. induction Hb as [|ly c ly' c' Hb IH Hs]; [done|]. destruct (built_holds _ _ _ Hb) as (e & Hh). pose proof (hc_ok _ _ _ _ Hh) as Hok.
  destruct Hs as [ly c data bid ly' Hrun|ly c s bid n ly' Hrun|ly c s err ly' Hfail Hrun|ly c m w bid n ly' Hm Hw Hrun|ly c es bid ly' Hes Hrun
    |ly c ty nid ly' Hrun|ly c nid data parent sub bid ly' Hnid Hsub Hrun].
  - destruct (write_data_chain_bound ly e data bid ly' Hok Hrun) as (e' & [_ _ [_ _ _ ->] _] & _). done.
  - destruct (from_reader_settles ly e s Hok) as (r & ly1 & Hrun' & Hr). rewrite Hrun in Hrun'. injection Hrun' as <- <-.
    destruct Hr as (e' & [_ _ [_ _ _ ->] _] & _). done.
  - destruct (from_reader_settles ly e s Hok) as (r & ly1 & Hrun' & Hr). rewrite Hrun in Hrun'. injection Hrun' as <- <-.
    by destruct Hr as (_ & _ & _ & lost & e' & _ & _ & _ & _ & [_ _ _ [_ _ _ ->] _ _ _ _]).
  - pose proof (write_row_matrix_spec ly e m w Hok Hm Hw) as Hmx. rewrite Hrun in Hmx.
    destruct Hmx as ((e' & [_ _ [_ _ _ ->] _] & _) & _). done.
  - unfold add_subnode_leaf in Hrun. case_match; [done|]. destruct (_ <? _) eqn:Hl; [done|]. bool_to_Z.
    destruct (push_internal_spec ly e _ Hok Hl) as (b & b' & Hb' & _ & _ & [_ _ [_ _ _ Hi] _] & _). rewrite Hb', bind_ok in Hrun.
    injection Hrun as <- <-. by rewrite Hi.
  - unfold alloc_nid in Hrun. apply bind_ok_inv in Hrun as ([j next] & Hloop & [= _ <-]). cbn [next_nid_index snd].
    assert (Hl : ∀ fuel i, 0 <= i <= U32_MAX → alloc_nid_loop fuel i = Ok (j, next) → 0 <= next <= U32_MAX).
    { induction fuel as [|fuel IHf]; intros i Hi; [done|]. cbn [alloc_nid_loop].
      assert (0 <= Z.min (i + 1) U32_MAX <= U32_MAX) by (unfold U32_MAX in *; lia). case_decide; [by apply IHf|]. by intros [= _ <-]. }
    by eapply Hl.
  - unfold add_node_data in Hrun. apply bind_ok_inv in Hrun as ([b ly1] & Hw & Hrun). case_decide; [done|]. injection Hrun as _ <-.
    destruct (write_data_chain_bound ly e data b ly1 Hok Hw) as (e' & [_ _ [_ _ _ Hi] _] & _). cbn [snd push_node next_nid_index]. by rewrite Hi.
Qed.
End index.

(** * The properties of a message under construction *)

(** ** Values *)

(** A subnode value that a reader assembles. *)
Definition subnode_value (c : contents) (es : list (Z * Z * Z)) (n : Z) (b : list byte) : Prop :=
  Z.land n 0x1F = 31 ∧ zlen b <= MAX_XBLOCK_ASSEMBLE ∧ ∃ bid, (n, bid, 0) ∈ es ∧ (bid, b) ∈ co_values c.

(** The property [v] carries the value [x]. *)
Inductive carries (c : contents) (es : list (Z * Z * Z)) : pc_value → property_value → Prop :=
| carries_i32 v : - 2 ^ 31 <= v < 2 ^ 31 → carries c es (VI32 v) (I32 v)
| carries_bool b : carries c es (VBool b) (PBool b)
| carries_time t : - 2 ^ 63 <= t < 2 ^ 63 → carries c es (VTime t) (PTime t)
| carries_string s : Forall scalar s → zlen (utf16le_bytes s) <= MAX_HEAP_VALUE_SIZE → carries c es (VString s) (PString s)
| carries_binary b : zlen b <= MAX_HEAP_VALUE_SIZE → carries c es (VBinary b) (PBinary b)
| carries_subnode_string n s : Forall scalar s → subnode_value c es n (utf16le_bytes s) → carries c es (VSubnodeString n) (PString s)
| carries_subnode_binary n b : subnode_value c es n b → carries c es (VSubnodeBinary n) (PBinary b).

Lemma carries_mono c es c' es' v x : kept c c' → es ⊆ es' → carries c es v x → carries c' es' v x.
Proof.
  intros [Hk _] He Hc.
  assert (Hs : ∀ n b, subnode_value c es n b → subnode_value c' es' n b).
  { intros n b (Ht & Hz & bid & Hin & Hv). split_and!; [done..|]. exists bid. split; [by apply He|by apply Hk]. }
  destruct Hc; constructor; auto.
Qed.

Lemma carries_ok c es v x : carries c es v x → WriterPc.value_ok v.
Proof.
  intros Hc. assert (Hn : ∀ n b, subnode_value c es n b → hid_type n ≠ 0) by (intros n b (Ht & _); unfold hid_type; rewrite Ht; done).
  destruct Hc; cbn [WriterPc.value_ok]; eauto.
Qed.

(** The subnodes of a context give what they hold. *)
Lemma carries_read c es v x (M : gmap Z (list byte)) :
  (∀ n b, subnode_value c es n b → M !! wrap 32 n = Some b) → carries c es v x → read_back M v = Ok (Some x).
Proof.
  intros HM []; cbn [read_back]; try done.
  - rewrite (HM n (utf16le_bytes s)) by done. by rewrite decode_utf16le_encode.
  - by rewrite (HM n b).
Qed.

(** The first value of a property among those that the context is to hold. *)
Definition field (fs : list (Z * property_value)) (id : Z) : option property_value := snd <$> find (λ p, p.1 =? id) fs.

Lemma field_app fs gs id : field (fs ++ gs) id = option_or (field fs id) (field gs id).
Proof. unfold field. induction fs as [|[i x] fs IH]; [done|]. cbn [app find fst]. by destruct (i =? id). Qed.

Definition stand_for (c : contents) (es : list (Z * Z * Z)) (props : list (Z * pc_value)) (fs : list (Z * property_value)) : Prop :=
  Forall2 (λ p f, p.1 = f.1 ∧ carries c es p.2 f.2) props fs.

Lemma stand_for_mono c es c' es' props fs : kept c c' → es ⊆ es' → stand_for c es props fs → stand_for c' es' props fs.
Proof. intros Hk He Hs. eapply Forall2_impl; [exact Hs|]. intros p f [? ?]. split; [done|by eapply carries_mono]. Qed.

Lemma stand_for_app c es props fs props' fs' : stand_for c es props fs → stand_for c es props' fs' → stand_for c es (props ++ props') (fs ++ fs').
Proof. apply Forall2_app. Qed.

(** What is written under an ID is what the fields say. *)
Lemma stand_for_field c es props fs M id :
  (∀ n b, subnode_value c es n b → M !! wrap 32 n = Some b) → stand_for c es props fs →
  match written props id with Some v => read_back M v | None => Ok None end = Ok (field fs id).
Proof.
  intros HM Hs. unfold written, field. induction Hs as [|[i v] [j x] props fs [Hi Hc] _ IH]; [done|]. cbn [fst snd] in *. subst j.
  cbn [find fst]. destruct (i =? id); [by eapply carries_read|exact IH].
Qed.

(** ** The payload under construction *)

(** A subnode that leads to data which a reader assembles. *)
Definition readable_entry (c : contents) (e : Z * Z * Z) : Prop :=
  known_entry c e ∧ ∃ b, (e.1.2, b) ∈ co_values c ∧ zlen b <= MAX_XBLOCK_ASSEMBLE.

Lemma known_bid_kept c c' b : kept c c' → known_bid c b → known_bid c' b.
Proof.
  intros [Hv Ht] [?|[(v & -> & Hin)%list_elem_of_fmap|(t & -> & Hin)%list_elem_of_fmap]]; [by left|right; left|right; right];
    apply (list_elem_of_fmap_2 fst); auto.
Qed.
Lemma readable_kept c c' e : kept c c' → readable_entry c e → readable_entry c' e.
Proof.
  intros Hk ((Hn & Hd & Hs) & b & Hin & Hz). split; [split; [done|split; by eapply known_bid_kept]|].
  exists b. split; [|done]. by apply Hk.
Qed.

Section build.
Context `{Crc : Crc32} (failures : bool) {S : Type}.

Record payload_ok (l : @payload S) (c : contents) (fs : list (Z * property_value)) : Prop := {
  po_built : built failures (ws_layout (pl_state l)) c;
  po_props : stand_for c (pl_entries l) (pl_props l) fs;
  po_entries : Forall (readable_entry c) (pl_entries l);
  po_nids : Forall (λ e, message_subnode (zlen (pl_entries l)) e.1.1) (pl_entries l);
  po_counter : ∃ k, 0 <= k <= zlen (pl_entries l) ∧ pl_counter l = wrap 32 k;
  po_content : 0 <= pl_content l }.

Lemma push_ok l c fs id v x : payload_ok l c fs → carries c (pl_entries l) v x → payload_ok (pl_push l id v) c (fs ++ [(id, x)]).
Proof.
  intros [Hb Hp He Hn Hk Hz] Hc. split; [exact Hb| |exact He|exact Hn|exact Hk|exact Hz]. cbn [pl_push pl_props pl_entries].
  apply stand_for_app; [exact Hp|]. constructor; [by split|constructor].
Qed.

(** A value that a reader assembles can be written. *)
Lemma write_value ly c b :
  built failures ly c → zlen b <= MAX_XBLOCK_ASSEMBLE →
  ∃ bid ly', write_data_chain ly b = Ok (bid, ly') ∧ wrote failures ly c ly' (add_value bid b c).
Proof.
  intros Hb Hz. destruct (built_holds _ _ _ Hb) as (e & Hh).
  destruct (write_data_chain_spec ly e b (hc_ok _ _ _ _ Hh)) as (bid & ly' & e' & Hrun & _).
  { unfold MAX_XBLOCK_ASSEMBLE, I32_MAX in *. lia. }
  exists bid, ly'. split; [done|]. apply wrote_one. by constructor.
Qed.

(** A further entry for data that was written. *)
Lemma entry_ok_adds l c fs (s' : write_state S) c' nid bid sub b n counter :
  payload_ok l c fs → wrote failures (ws_layout (pl_state l)) c (ws_layout s') c' →
  (bid, b) ∈ co_values c' → zlen b <= MAX_XBLOCK_ASSEMBLE → message_subnode (zlen (pl_entries l) + 1) nid → known_bid c' sub → 0 <= n →
  (counter = pl_counter l ∨ counter = next_counter (pl_counter l)) →
  payload_ok {| pl_state := s'; pl_props := pl_props l; pl_entries := pl_entries l ++ [(nid, bid, sub)];
                pl_counter := counter; pl_content := pl_content l + n |} c' fs.
Proof.
  intros [Hb Hp He Hn (k & Hk & Ec) Hz] Hw Hin Hlen Hnid Hsub Hn0 Hcount. pose proof (wrote_kept _ _ _ _ _ Hw) as Hkept.
  split; cbn [pl_state pl_props pl_entries pl_counter pl_content]; [by eapply wrote_built| | | | |lia];
    assert (Hlen1 : zlen (pl_entries l ++ [(nid, bid, sub)]) = zlen (pl_entries l) + 1) by (by rewrite zlen_app); try rewrite Hlen1.
  - eapply stand_for_mono; [exact Hkept| |exact Hp]. intros x Hx. apply elem_of_app. by left.
  - apply Forall_app. split; [eapply Forall_impl; [exact He|]; intros e; by apply readable_kept|]. constructor; [|constructor].
    split; [|by exists b]. split; [by apply (message_subnode_range _ _ Hnid)|]. split; [|done].
    right. left. by apply (list_elem_of_fmap_2 fst _ (bid, b)).
  - apply Forall_app. split; [eapply Forall_impl; [exact Hn|]; intros e; apply message_subnode_mono; lia|]. constructor; [|constructor]. done.
  - destruct Hcount as [-> | ->]; [exists k; split; [lia|done]|]. exists (k + 1). split; [lia|]. rewrite Ec. unfold next_counter, wrap.
    by rewrite Zplus_mod_idemp_l.
Qed.

Lemma payload_ok_state l c fs (s' : write_state S) c' :
  payload_ok l c fs → wrote failures (ws_layout (pl_state l)) c (ws_layout s') c' → payload_ok (pl_with_state l s') c' fs.
Proof.
  intros [Hb Hp He Hn Hk Hz] Hw. pose proof (wrote_kept _ _ _ _ _ Hw) as Hkept.
  split; [by eapply wrote_built| | |exact Hn|exact Hk|exact Hz]; cbn [pl_with_state pl_props pl_entries].
  - by eapply stand_for_mono.
  - eapply Forall_impl; [exact He|]. intros e. by apply readable_kept.
Qed.

Lemma divert_ok l c fs b :
  payload_ok l c fs → zlen b <= MAX_XBLOCK_ASSEMBLE →
  ∃ nid l' c', divert l b = Ok (nid, l') ∧ payload_ok l' c' fs ∧ pl_props l' = pl_props l ∧ subnode_value c' (pl_entries l') nid b ∧
    pl_entries l ⊆ pl_entries l' ∧ wrote failures (ws_layout (pl_state l)) c (ws_layout (pl_state l')) c'.
Proof.
  intros Hok Hz. destruct (write_value _ _ b (po_built _ _ _ Hok) Hz) as (bid & ly' & Hrun & Hw). unfold divert. cbv zeta.
  rewrite Hrun, bind_ok. cbn [fst snd]. destruct (po_counter _ _ _ Hok) as (k & Hk & Ec).
  assert (Hc : next_counter (pl_counter l) = wrap 32 (k + 1)) by (rewrite Ec; unfold next_counter, wrap; by rewrite Zplus_mod_idemp_l).
  eexists _, _, (add_value bid b c). split; [done|]. split_and!.
  - eapply (entry_ok_adds l c fs (with_layout (pl_state l) ly') _ _ bid 0 b); [done|done|by left|done| |left; lia|apply zlen_nonneg|by right]. rewrite Hc. constructor. lia.
  - done.
  - cbn [pl_entries]. split_and!; [|done|].
    + rewrite subnode_nid_eq. apply land_type. lia.
    + exists bid. split; [apply elem_of_app; right; by left|by left].
  - intros x Hx. apply elem_of_app. by left.
  - done.
Qed.

(** ** Pushing properties *)

Definition fits (b : list byte) : Prop := zlen b <= MAX_XBLOCK_ASSEMBLE.
Definition string_fits (s : rstring) : Prop := Forall scalar s ∧ fits (utf16le_bytes s).
Definition option_fits (o : option rstring) : Prop := ∀ s, o = Some s → string_fits s.

(** A step of [push_fields]: it succeeds and adds its fields. *)
Definition pushes (l : @payload S) (c : contents) (fs : list (Z * property_value)) (r : wres (@payload S)) (new : list (Z * property_value)) : Prop :=
  ∃ l' c', r = Ok l' ∧ payload_ok l' c' (fs ++ new) ∧ wrote failures (ws_layout (pl_state l)) c (ws_layout (pl_state l')) c'.

Lemma pushes_done l c fs l' new : payload_ok l' c (fs ++ new) → ws_layout (pl_state l') = ws_layout (pl_state l) → pushes l c fs (Ok l') new.
Proof. intros Hok He. exists l', c. rewrite He. split_and!; [done|done|constructor]. Qed.

Lemma pushes_bind l c fs r new f new' :
  pushes l c fs r new → (∀ l' c', payload_ok l' c' (fs ++ new) → pushes l' c' (fs ++ new) (f l') new') → pushes l c fs (r ≫= f) (new ++ new').
Proof.
  intros (l1 & c1 & -> & Hok1 & Hw1) Hf. rewrite bind_ok. destruct (Hf l1 c1 Hok1) as (l2 & c2 & -> & Hok2 & Hw2).
  exists l2, c2. rewrite (assoc_L (++)). split_and!; [done|done|by eapply wrote_trans].
Qed.

Lemma pushes_then l c fs l1 new r new' :
  pushes l c fs (Ok l1) new → (∀ c', payload_ok l1 c' (fs ++ new) → pushes l1 c' (fs ++ new) r new') → pushes l c fs r (new ++ new').
Proof.
  intros (l2 & c2 & [= <-] & Hok & Hw) Hr. destruct (Hr c2 Hok) as (l3 & c3 & -> & Hok3 & Hw3).
  exists l3, c3. rewrite (assoc_L (++)). split_and!; [done|done|by eapply wrote_trans].
Qed.

Lemma push_string_ok l c fs id s : payload_ok l c fs → string_fits s → pushes l c fs (push_string_prop l id s) [(id, PString s)].
Proof.
  intros Hok [Hs Hf]. unfold push_string_prop. cbv zeta. destruct (_ <? _) eqn:Hbig; bool_to_Z.
  - destruct (divert_ok l c fs (utf16le_bytes s) Hok Hf) as (nid & l' & c' & -> & Hok' & Hp & Hv & _ & Hw). rewrite bind_ok. cbn [fst snd].
    exists (pl_push l' id (VSubnodeString nid)), c'. split_and!; [done| |exact Hw]. apply push_ok; [done|]. by constructor.
  - apply pushes_done; [|done]. apply push_ok; [done|]. by constructor.
Qed.

Lemma push_binary_ok l c fs id b : payload_ok l c fs → fits b → pushes l c fs (push_binary_prop l id b) [(id, PBinary b)].
Proof.
  intros Hok Hf. unfold push_binary_prop. destruct (_ <? _) eqn:Hbig; bool_to_Z.
  - destruct (divert_ok l c fs b Hok Hf) as (nid & l' & c' & -> & Hok' & Hp & Hv & _ & Hw). rewrite bind_ok. cbn [fst snd].
    exists (pl_push l' id (VSubnodeBinary nid)), c'. split_and!; [done| |exact Hw]. apply push_ok; [done|]. by constructor.
  - apply pushes_done; [|done]. apply push_ok; [done|]. by constructor.
Qed.

(** The field of an optional string. *)
Definition string_field (id : Z) (o : option rstring) : list (Z * property_value) :=
  match o with Some s => [(id, PString s)] | None => [] end.
Definition binary_field (id : Z) (o : option (list byte)) : list (Z * property_value) :=
  match o with Some b => [(id, PBinary b)] | None => [] end.

Lemma push_opt_ok l c fs id o : payload_ok l c fs → option_fits o → pushes l c fs (push_opt l id o) (string_field id o).
Proof.
  intros Hok Ho. destruct o as [s|]; [by apply push_string_ok, Ho|]. apply pushes_done; [|done]. by rewrite app_nil_r.
Qed.

(** Properties that are kept in the context. *)
Lemma push_all_ok props fs' : ∀ l c fs,
  payload_ok l c fs → (∀ c es, stand_for c es props fs') → pushes l c fs (Ok (push_all l props)) fs'.
Proof.
  intros l c fs Hok Hs. apply pushes_done.
  - revert fs' Hs l fs Hok. induction props as [|p props IH]; intros fs' Hs l fs Hok.
    { pose proof (Hs c []) as H. inversion H. by rewrite app_nil_r. }
    pose proof (Hs c []) as H. inversion H as [|? f ? fs2 [Hi _] _]; subst. destruct f as [i x]. cbn [fst] in Hi. subst i.
    change ((p.1, x) :: fs2) with ([(p.1, x)] ++ fs2). rewrite (assoc_L (++)). apply (IH fs2).
    + intros c' es. pose proof (Hs c' es) as H'. by inversion H'.
    + apply push_ok; [done|]. pose proof (Hs c (pl_entries l)) as H'. inversion H' as [|? ? ? ? [_ Hc] _]; subst. exact Hc.
  - clear. revert l. induction props as [|p props IH]; intros l; [done|]. cbn [push_all foldl]. apply (IH (pl_push l p.1 p.2)).
Qed.

(** ** The fields of a message *)

Definition i32_fields (l : list (Z * Z)) : list (Z * property_value) := map (λ p, (p.1, I32 p.2)) l.
Definition time_fields (m : message_dto) : list (Z * property_value) :=
  match wm_submit_time m with
  | Some t => map (λ id, (id, PTime t)) [WriterMessage.PID_TAG_CLIENT_SUBMIT_TIME; PID_TAG_CREATION_TIME; PID_TAG_LAST_MODIFICATION_TIME]
  | None => []
  end.
Definition format_fields (m : message_dto) : list (Z * property_value) :=
  match html_bytes m, plain_text m with
  | Some _, _ => i32_fields [(PID_TAG_NATIVE_BODY, 3); (PID_TAG_MESSAGE_EDITOR_FORMAT, 2); (PID_TAG_INTERNET_CODEPAGE, 65001)]
  | None, Some _ => i32_fields [(PID_TAG_NATIVE_BODY, 1); (PID_TAG_MESSAGE_EDITOR_FORMAT, 1); (PID_TAG_INTERNET_CODEPAGE, 65001)]
  | None, None => []
  end.
Definition written_class (m : message_dto) : rstring := default (lit "IPM.Note") (wm_message_class m).
Definition written_bcc (m : message_dto) (include_bcc : bool) : option rstring :=
  if include_bcc then not_blank (wm_display_bcc m) else None.

Definition fields_of (m : message_dto) (include_bcc : bool) : list (Z * property_value) :=
  string_field WriterMessage.PID_TAG_INTERNET_MESSAGE_ID (wm_message_id m) ++ ([(WriterMessage.PID_TAG_SUBJECT, PString (wm_subject m))] ++
  (string_field WriterMessage.PID_TAG_SENDER_EMAIL_ADDRESS (wm_sender m) ++ (string_field WriterMessage.PID_TAG_DISPLAY_TO (wm_display_to m) ++
  (string_field WriterMessage.PID_TAG_DISPLAY_CC (not_blank (wm_display_cc m)) ++
  (string_field WriterMessage.PID_TAG_DISPLAY_BCC (written_bcc m include_bcc) ++ ([(WriterMessage.PID_TAG_MESSAGE_CLASS, PString (written_class m))] ++
  (time_fields m ++ (string_field WriterMessage.PID_TAG_BODY (plain_text m) ++
  (binary_field WriterMessage.PID_TAG_BODY_HTML (html_bytes m) ++ format_fields m))))))))).

(** The strings of a message can be written and read. *)
Record message_fits (m : message_dto) : Prop := {
  mf_message_id : option_fits (wm_message_id m); mf_subject : string_fits (wm_subject m);
  mf_sender : option_fits (wm_sender m); mf_to : option_fits (wm_display_to m);
  mf_cc : option_fits (wm_display_cc m); mf_bcc : option_fits (wm_display_bcc m);
  mf_class : option_fits (wm_message_class m); mf_plain : option_fits (wm_body_plain m);
  mf_html : ∀ b, wm_body_html m = Some b → fits b;
  mf_time : ∀ t, wm_submit_time m = Some t → - 2 ^ 63 <= t < 2 ^ 63;
  mf_recipients : Forall recipient_fits (wm_recipients m) ∧ Forall recipient_strings (wm_recipients m) }.

Lemma not_blank_fits o : option_fits o → option_fits (not_blank o).
Proof. intros Ho s Hs. apply Ho. destruct o as [t|]; [|done]. cbn in Hs. by destruct (bool_decide _). Qed.

Lemma class_fits m : message_fits m → string_fits (written_class m).
Proof.
  intros Hm. unfold written_class. pose proof (mf_class m Hm) as H. destruct (wm_message_class m) as [s|]; [by apply H|].
  split; [apply (bool_decide_unpack _); vm_compute; exact I|apply (bool_decide_unpack _); vm_compute; exact I].
Qed.

Lemma push_fields_ok m include_bcc s c :
  message_fits m → built failures (ws_layout s) c →
  ∃ l c', push_fields m include_bcc s = Ok l ∧ payload_ok l c' (fields_of m include_bcc) ∧ wrote failures (ws_layout s) c (ws_layout (pl_state l)) c'.
Proof.
  intros Hm Hb. set (l0 := {| pl_state := s; pl_props := []; pl_entries := []; pl_counter := 0; pl_content := 0 |}).
  assert (H0 : payload_ok l0 c []).
  { split; try done; try constructor. exists 0. done. }
  enough (Hp : pushes l0 c [] (push_fields m include_bcc s) (fields_of m include_bcc)).
  { destruct Hp as (l & c' & Hrun & Hok & Hw). exists l, c'. split_and!; done. }
  unfold push_fields, fields_of. fold l0. pose proof (class_fits m Hm) as Hclass. destruct Hm as [? ? ? ? ? ? _ ? Hhtml Htime _].
  eapply pushes_bind; [by apply push_opt_ok|intros l1 c1 H1]. eapply pushes_bind; [by apply push_string_ok|intros l2 c2 H2].
  eapply pushes_bind; [by apply push_opt_ok|intros l3 c3 H3]. eapply pushes_bind; [by apply push_opt_ok|intros l4 c4 H4].
  eapply pushes_bind; [by apply push_opt_ok, not_blank_fits|intros l5 c5 H5].
  eapply pushes_bind; [apply push_opt_ok; [done|]; unfold written_bcc; destruct include_bcc; [by apply not_blank_fits|done]|intros l6 c6 H6].
  eapply pushes_bind; [by apply push_string_ok|intros l7 c7 H7]. cbv zeta.
  eapply (pushes_then l7 c7 _ (push_all l7 (time_properties m)) (time_fields m)).
  { apply push_all_ok; [done|]. intros c' es. unfold time_properties, time_fields. destruct (wm_submit_time m) as [t|]; [|constructor].
    pose proof (Htime t eq_refl). repeat (constructor; [split; [done|by constructor]|]). constructor. }
  intros c8 H8. eapply pushes_bind; [apply push_opt_ok; [done|]; unfold plain_text; by destruct (wm_body_unavailable m)|intros l9 c9 H9].
  eapply pushes_bind.
  { unfold html_bytes. destruct (wm_body_unavailable m).
    { apply pushes_done; [by rewrite app_nil_r|done]. }
    destruct (wm_body_html m) as [b|] eqn:Eb; cbn; [destruct (bool_decide _)|]; try (apply pushes_done; [by rewrite app_nil_r|done]).
    apply push_binary_ok; [done|by apply Hhtml]. }
  intros l10 c10 H10. apply push_all_ok; [done|]. intros c' es. unfold format_properties, format_fields.
  destruct (html_bytes m), (plain_text m); repeat (constructor; [split; [done|by constructor]|]); constructor.
Qed.
End build.

(** ** Building with an account of what is written *)

Section account.
Context `{Crc : Crc32} (failures : bool).

(** The errors with which the export of a message ends: a full table, a value or
    message beyond the format's size, a context beyond a heap page, a node ID twice. *)
Definition message_refused (e : writer_error) : Prop :=
  table_refused e ∨ (∃ n, e = BodyTooLarge n) ∨ (∃ a b c d f, e = HeapPageOverflow a b c d f) ∨ (∃ nid, e = DuplicateNodeId nid).
(** Those that the fields and tables of a message can cause. *)
Definition fields_refused (e : writer_error) : Prop := table_refused e ∨ ∃ n, e = BodyTooLarge n.

Lemma fields_refused_message e : fields_refused e → message_refused e.
Proof. intros [?|?]; [by left|by right; left]. Qed.

(** A step from the layout [ly] with its contents: it writes, or is refused. *)
Definition builds_as (E : writer_error → Prop) {A} (ly : layout) (c : contents) (r : wres A) (get : A → layout) (P : A → contents → Prop) : Prop :=
  match r with
  | Ok a => ∃ c', wrote failures ly c (get a) c' ∧ P a c'
  | Err e => E e
  | _ => False
  end.
Definition builds {A} : layout → contents → wres A → (A → layout) → (A → contents → Prop) → Prop := builds_as message_refused.

Lemma builds_bind E {A B} ly c (r : wres A) get P (f : A → wres B) get' Q :
  built failures ly c → builds_as E ly c r get P →
  (∀ a c', built failures (get a) c' → kept c c' → P a c' → builds_as E (get a) c' (f a) get' Q) → builds_as E ly c (r ≫= f) get' Q.
Proof.
  intros Hb Hr Hf. destruct r as [a|e| |]; [|exact Hr..]. destruct Hr as (c1 & Hw & Hp). rewrite bind_ok.
  specialize (Hf a c1 (wrote_built _ _ _ _ _ Hb Hw) (wrote_kept _ _ _ _ _ Hw) Hp).
  destruct (f a) as [b|e| |]; [|exact Hf..]. destruct Hf as (c2 & Hw2 & Hq). exists c2. split; [by eapply wrote_trans|done].
Qed.

Lemma builds_ret E {A} ly c (a : A) get (P : A → contents → Prop) : get a = ly → P a c → builds_as E ly c (Ok a) get P.
Proof. intros Eq Hp. exists c. rewrite Eq. split; [constructor|done]. Qed.

Lemma builds_mono E {A} ly c (r : wres A) get (P Q : A → contents → Prop) :
  builds_as E ly c r get P → (∀ a c', P a c' → Q a c') → builds_as E ly c r get Q.
Proof. destruct r; simpl; [|done..]. intros (c' & ? & ?) HPQ. exists c'. auto. Qed.

(** A step without the layout. *)
Lemma builds_pure E {A B} ly c (r : wres A) (f : A → wres B) get Q :
  match r with Ok a => builds_as E ly c (f a) get Q | Err e => E e | _ => False end → builds_as E ly c (r ≫= f) get Q.
Proof. by destruct r. Qed.

Lemma builds_weaken (E E' : writer_error → Prop) {A} ly c (r : wres A) get P :
  builds_as E ly c r get P → (∀ e, E e → E' e) → builds_as E' ly c r get P.
Proof. destruct r; simpl; auto. Qed.

Lemma chain_builds ly c b : built failures ly c → builds_as fields_refused ly c (write_data_chain ly b) snd (λ w c', c' = add_value w.1 b c).
Proof.
  intros Hb. destruct (built_holds _ _ _ Hb) as (e & Hh). destruct (decide (zlen b <= I32_MAX)) as [Hz|Hz].
  - destruct (write_data_chain_spec ly e b (hc_ok _ _ _ _ Hh) Hz) as (bid & ly' & e' & Hrun & _). rewrite Hrun.
    exists (add_value bid b c). split; [apply wrote_one; by constructor|done].
  - unfold write_data_chain. pose proof (zlen_nonneg b). unfold I32_MAX in *.
    rewrite (proj2 (Z.eqb_neq _ _)), (proj2 (Z.ltb_lt _ _)) by lia. right. by eexists.
Qed.
Lemma builds_chain ly c b : built failures ly c → builds ly c (write_data_chain ly b) snd (λ w c', c' = add_value w.1 b c).
Proof. intros Hb. eapply builds_weaken; [by apply chain_builds|apply fields_refused_message]. Qed.

Lemma leaf_builds ly c entries :
  built failures ly c → Forall (known_entry c) entries →
  builds_as table_refused ly c (add_subnode_leaf ly entries) snd (λ w c', c' = add_table w.1 (sort_on (λ e, e.1.1) entries) c ∧ NoDup (map (λ e, e.1.1) entries) ∧ zlen entries <= 340).
Proof.
  intros Hb Hk. destruct (built_holds _ _ _ Hb) as (e & Hh).
  destruct (first_repeat (map (λ e, e.1.1) (sort_on (λ e : Z * Z * Z, e.1.1) entries))) as [nid|] eqn:Hf.
  { unfold add_subnode_leaf. rewrite Hf. right. right. by eexists. }
  destruct (MAX_BLOCK_DATA <? zlen (slblock_payload (sort_on (λ e, e.1.1) entries))) eqn:Hl.
  { unfold add_subnode_leaf. rewrite Hf, Hl. right. left. by eexists. }
  assert (Hok : ∃ bid ly', add_subnode_leaf ly entries = Ok (bid, ly')).
  { unfold add_subnode_leaf. rewrite Hf, Hl. bool_to_Z. destruct (push_internal_spec ly e _ (hc_ok _ _ _ _ Hh) Hl) as (b & b' & Ha & _).
    rewrite Ha, bind_ok. by eexists _, _. }
  destruct Hok as (bid & ly' & Hrun). rewrite Hrun. exists (add_table bid (sort_on (λ e, e.1.1) entries) c).
  split; [apply wrote_one; by constructor|]. split; [done|]. split; [by eapply subnode_leaf_distinct|by eapply zlen_subnode_entries].
Qed.

Lemma builds_leaf ly c entries :
  built failures ly c → Forall (known_entry c) entries →
  builds ly c (add_subnode_leaf ly entries) snd (λ w c', c' = add_table w.1 (sort_on (λ e, e.1.1) entries) c ∧ NoDup (map (λ e, e.1.1) entries) ∧ zlen entries <= 340).
Proof. intros Hb Hk. eapply builds_weaken; [by apply leaf_builds|]. intros e He. by left. Qed.

Lemma builds_nid E ly c ty : built failures ly c → 0 <= ty < 32 →
  builds_as E ly c (alloc_nid ly ty) snd (λ n c', c' = c ∧ 0 <= n.1 < 2 ^ 37 ∧ Z.land n.1 0x1F = ty).
Proof.
  intros Hb Hty. pose proof (alloc_nid_ranges ly ty (built_index failures ly c Hb) Hty) as Hr.
  destruct (alloc_nid ly ty) as [[nid ly']|e| |] eqn:Hrun; [|done..]. destruct Hr as (? & ? & _). exists c.
  split; [apply wrote_one; by econstructor|done].
Qed.

(** A property context fits its page, or does not. *)
Lemma pc_bytes_spec props :
  match pc_bytes props with
  | Ok b => pc_size props <= MAX_BLOCK_DATA ∧ zlen b <= MAX_BLOCK_DATA
  | Err e => MAX_BLOCK_DATA < pc_size props ∧ ∃ a b c d f, e = HeapPageOverflow a b c d f
  | _ => False
  end.
Proof.
  unfold pc_bytes. pose proof (build_pc_spec 0x6C props) as Hb. destruct (_ <=? _) eqn:Hsize; bool_to_Z.
  - destruct Hb as (rs & vals & h & -> & Hs & Hn & Hf). rewrite bind_ok. cbn [fst snd].
    assert (H6 : Forall (λ r, zlen r.2 = 6) rs).
    { clear -Hf. induction Hf as [|p r ps rs (_ & w & Hr & _) _ IH]; [constructor|]. constructor; [|done]. rewrite Hr, zlen_app, !zlen_le_split. done. }
    pose proof (heap_need_nonneg props). pose proof (zlen_nonneg vals). unfold pc_size, MAX_BLOCK_DATA in *.
    destruct (image_context 0x6C vals rs h ltac:(lia) H6 ltac:(lia) Hs) as (data & -> & Hz & _). unfold MAX_BLOCK_DATA in Hz. lia.
  - destruct Hb as (a & b & c & d & f & ->). split; [lia|by eexists _, _, _, _, _].
Qed.

Lemma builds_attach_pc ly c props :
  built failures ly c →
  builds ly c (write_attach_pc ly props) snd (λ w c', kept c c' ∧ 0 <= w.1.2 ∧ ∃ b, (w.1.1, b) ∈ co_values c' ∧ zlen b <= MAX_BLOCK_DATA).
Proof.
  intros Hb. unfold write_attach_pc. apply builds_pure. pose proof (pc_bytes_spec props) as Hp.
  destruct (pc_bytes props) as [bytes|e| |]; [|by right; right; left; apply Hp|done..].
  eapply builds_bind; [done|by apply builds_chain|]. intros [bid ly'] c' Hb' Hk ->. cbn [fst snd].
  apply builds_ret; [done|]. cbn [fst snd]. split_and!; [done|apply zlen_nonneg|]. exists bytes. split; [by left|apply Hp].
Qed.
End account.
