(* ===== verification/MessageAttach.v ===== *)
(** * Attachments and nested messages in the layout

    Whatever the attachments of a message are, what is written for them is built
    from writer operations, and each row leads to a context that was written. *)

From S2P Require Import Prelude Telemetry PstError Crypt Nid Header Btree Block BlockFacts Streaming Subnode Heap Bth Utf PropContext PropContextFacts TableContext Folder Text CivilDate Recipient Hasher Message WriterHeap WriterPc NamedPropMap CloudRoundTrip Layout LayoutFacts DataChain DataChainFacts StreamWrite TreeWriter NdbLayout NdbPages NdbTree NdbFile NdbRead NdbStore NdbRoundTrip PagedHeap PagedHeapFacts WriterTable TableRows WriterTableFacts TableTheorems WriterMessage WriterMessageFacts MessageBuild.
#[local] Open Scope Z_scope.
#[local] Set Warnings "-register-all".

(** The name of an attachment can be written and read, its size is a [u32]. *)
Definition attachment_fits (att : write_attachment) : Prop :=
  string_fits (filename (wa_fields att)) ∧ 0 <= attach_size (wa_fields att) < 2 ^ 32.

(** A message whose nested messages, down to the last, can be written and read. *)
Fixpoint mail_fits (m : mail) : Prop :=
  let '(Mail dto atts) := m in
  message_fits dto ∧
  (fix all (atts : list (write_attachment * option mail)) : Prop :=
     match atts with
     | [] => True
     | att :: atts => attachment_fits att.1 ∧ match att.2 with Some e => mail_fits e | None => True end ∧ all atts
     end) atts.

Lemma mail_fits_inv dto atts :
  mail_fits (Mail dto atts) ↔
  message_fits dto ∧ Forall (λ att : write_attachment * option mail, attachment_fits att.1 ∧ ∀ e, att.2 = Some e → mail_fits e) atts.
Proof.
  cbn [mail_fits]. apply and_iff_compat_l. induction atts as [|[att oe] atts IH].
  { split; [constructor|done]. }
  rewrite Forall_cons, <-IH. cbn [fst snd]. destruct oe as [e|].
  - split; [intros (? & ? & ?); split_and!; try done; by intros ? [= <-]|intros ((? & He) & ?); split_and!; auto].
  - split; [intros (? & ? & ?); by split_and!|intros ((? & ?) & ?); by split_and!].
Qed.

Section attachments.
Context `{Crc : Crc32} (failures : bool) {S : Type} `{!StreamSource S} (file_name : rstring → option rstring).

(** Every stream that opens delivers its bytes, unless failures are allowed. *)
Definition reliable : Prop :=
  failures = false → ∀ (st st' : S) a b c d x, open_attach_stream st a b c d = (Some x, st') →
    (delivered (as_source x)).2 = None ∧ zlen (delivered (as_source x)).1 <= I32_MAX.
Context (Hrel : reliable).

(** What a written attachment leaves: a context, its subnodes and a row. *)
Definition attach_written (w : written_attach) (c : contents) : Prop :=
  (∃ b, (wt_bid_data w, b) ∈ co_values c ∧ zlen b <= MAX_BLOCK_DATA) ∧ known_bid c (wt_bid_sub w) ∧
  (∃ k, 0 <= k < 2 ^ 32 ∧ wt_nid w = attach_nid_of k) ∧ attach_row_fits (table_row w) ∧ 0 <= wt_size_contrib w.

Lemma attach_written_kept w c c' : kept c c' → attach_written w c → attach_written w c'.
Proof.
  intros Hk ((b & Hin & Hz) & Hs & Hrest). split_and!; [|by eapply known_bid_kept|apply Hrest..]. exists b. split; [by apply Hk|done].
Qed.

Definition step_layout (r : option written_attach * Z * write_state S) : layout := ws_layout r.2.
Definition step_written (r : option written_attach * Z * write_state S) (c : contents) : Prop :=
  ∀ w, r.1.1 = Some w → attach_written w c.

Lemma next_counter_range k : 0 <= next_counter k < 2 ^ 32.
Proof. unfold next_counter, wrap. by apply Z.mod_pos_bound. Qed.

Lemma min_i32 n : 0 <= n → 0 <= Z.min n I32_MAX < 2 ^ 32.
Proof. unfold I32_MAX. lia. Qed.

Lemma skip_builds msg att i kind counter (s : write_state S) c ly :
  ws_layout s = ly → builds failures ly c (skip_attachment msg att i kind counter s) step_layout step_written.
Proof. intros E. apply builds_ret; [done|]. by intros w. Qed.

Lemma cloud_builds msg att i plan counter (s : write_state S) c :
  built failures (ws_layout s) c → attachment_fits att →
  builds failures (ws_layout s) c (write_cloud_link_pointer_attach file_name msg att i plan counter s) step_layout step_written.
Proof.
  intros Hb [[Hn Hf] Hsize]. unfold write_cloud_link_pointer_attach. cbv zeta.
  eapply builds_bind; [done|by apply builds_attach_pc|]. intros [[bid len] ly'] c' Hb' Hk (_ & Hlen & Hin). cbn [fst snd] in *.
  apply builds_ret; [done|]. intros w [= <-]. split_and!; cbn; [done|by left|by exists (next_counter counter); split; [apply next_counter_range|]| |done].
  split_and!; cbn; [apply min_i32; lia|apply min_i32; lia|done|done].
Qed.

Lemma delivered_stream stream (s s' : S) a b c d :
  open_attach_stream s a b c d = (Some stream, s') → failures = true ∨
    ((delivered (as_source stream)).2 = None ∧ zlen (delivered (as_source stream)).1 <= I32_MAX).
Proof. intros Ho. destruct failures eqn:Hf; [by left|right]. by eapply Hrel. Qed.

(** The bytes of an attachment that is stored by value. *)
Lemma store_payload_builds p ly c :
  built failures ly c →
  (∀ stream, p = ResolvedStream stream → failures = true ∨
    ((delivered (as_source stream)).2 = None ∧ zlen (delivered (as_source stream)).1 <= I32_MAX)) →
  builds failures ly c (store_payload p ly) snd (λ r c', ∀ x, r.1 = Some x → 0 <= sp_len x ∧ Forall (known_entry c') (sp_entries x)).
Proof.
  intros Hb Hstream. assert (Hnid : 0 <= subnode_nid (next_counter 0) < 2 ^ 64) by done. unfold store_payload. destruct p as [data|stream].
  - destruct (_ <? _).
    + eapply builds_bind; [done|by apply builds_chain|]. intros [bid ly'] c' Hb' _ ->. cbn [fst snd]. apply builds_ret; [done|].
      intros x [= <-]. cbn. split; [apply zlen_nonneg|]. constructor; [|constructor]. split; [done|]. split; [|by left].
      right. left. cbn. by left.
    + apply builds_ret; [done|]. intros x [= <-]. cbn. split; [apply zlen_nonneg|constructor].
  - specialize (Hstream stream eq_refl). destruct (built_holds _ _ _ Hb) as (e & Hh).
    destruct (from_reader_settles ly e (as_source stream) (hc_ok _ _ _ _ Hh)) as (r & ly' & Hrun & Hr). rewrite Hrun.
    destruct r as [[bid n]|err| |]; [| |done..].
    + destruct Hr as (_ & _ & _ & -> & Hmax & _).
      assert (Hw : wrote failures ly c ly' (add_value bid (delivered (as_source stream)).1 c)) by (apply wrote_one; by econstructor).
      destruct (_ =? 0); (eexists; split; [exact Hw|]); intros x [= <-]; cbn; (split; [try apply zlen_nonneg; done|]); [constructor|].
      constructor; [|constructor]. split; [done|]. split; [|by left]. right. left. cbn. by left.
    + exists c. split; [|done]. apply wrote_one. destruct Hstream as [Hf|[Hd Hz]]; [econstructor; [by left|done]|].
      destruct (from_reader_complete ly e (as_source stream) (delivered (as_source stream)).1 (hc_ok _ _ _ _ Hh)) as (b & ly2 & _ & Hok); [|done|].
      { rewrite <-Hd. by destruct (delivered (as_source stream)). }
      by rewrite Hrun in Hok.
Qed.

Lemma close_subnodes_builds ly c entries : built failures ly c → Forall (known_entry c) entries →
  builds failures ly c (close_subnodes ly entries) snd (λ r c', known_bid c' r.1).
Proof.
  intros Hb Hk. destruct entries as [|x entries]; [apply builds_ret; [done|by left]|].
  eapply builds_mono; [by apply builds_leaf|]. intros [bid ly'] c' (-> & _). right. right. cbn. by left.
Qed.

Lemma known_entries_kept c c' es : kept c c' → Forall (known_entry c) es → Forall (known_entry c') es.
Proof. intros Hk He. eapply Forall_impl; [exact He|]. intros e (? & ? & ?). split; [done|]. split; by eapply known_bid_kept. Qed.

Lemma by_value_name_fits a : string_fits (filename a) → string_fits (by_value_name a).
Proof.
  intros Hf. unfold by_value_name. destruct (bool_decide _); [|done].
  split; apply (bool_decide_unpack _); vm_compute; exact I.
Qed.

Lemma finish_by_value_builds att counter p (s : write_state S) c k :
  built failures (ws_layout s) c → attachment_fits att → 0 <= sp_len p → Forall (known_entry c) (sp_entries p) → counter = next_counter k →
  builds failures (ws_layout s) c (finish_by_value file_name att counter p s) step_layout step_written.
Proof.
  intros Hb [Hname _] Hlen He ->. unfold finish_by_value. cbv zeta.
  eapply builds_bind; [done|by apply builds_attach_pc|]. intros [[bid len] ly'] c1 Hb1 Hk1 (_ & Hl1 & Hin). cbn [fst snd] in *.
  eapply builds_bind; [done|apply close_subnodes_builds; [done|by eapply known_entries_kept]|]. intros [sub ly2] c2 Hb2 Hk2 Hsub. cbn [fst snd] in *.
  apply builds_ret; [done|]. destruct (by_value_name_fits (wa_fields att) Hname) as [Hn Hf]. destruct Hin as (b & Hb0 & Hz).
  intros w [= <-]. split_and!; cbn; [exists b; split; [by apply Hk2|done]|done|exists (next_counter k); split; [apply next_counter_range|done]| |].
  - split_and!; cbn; [apply min_i32; lia|apply min_i32; lia|done|done].
  - destruct (sp_diverted p); lia.
Qed.

(** A nested message object: a subnode of its attachment. *)
Definition object_written (r : Z * Z * Z * Z * write_state S) (c : contents) : Prop :=
  let '(nid, bid, sub, size, _) := r in 0 <= nid < 2 ^ 64 ∧ bid ∈ map fst (co_values c) ∧ known_bid c sub ∧ 0 <= size.
Definition object_layout (r : Z * Z * Z * Z * write_state S) : layout := ws_layout r.2.

Lemma finish_embedded_builds att counter nested (s : write_state S) c k :
  built failures (ws_layout s) c → attachment_fits att → object_written (nested, s) c → counter = next_counter k →
  builds failures (ws_layout s) c (finish_embedded file_name att counter nested s) step_layout step_written.
Proof.
  destruct nested as [[[nid bid] sub] size]. intros Hb [[Hn Hf] _] (Hnid & Hbid & Hsub & Hsize) ->. unfold finish_embedded. cbv zeta.
  eapply builds_bind; [done|apply builds_leaf; [done|]|].
  { constructor; [|constructor]. split; [done|]. split; [right; by left|done]. }
  intros [leaf ly1] c1 Hb1 Hk1 (-> & _). cbn [fst snd] in *.
  eapply builds_bind; [done|by apply builds_attach_pc|]. intros [[b len] ly2] c2 Hb2 Hk2 (_ & Hl2 & Hin). cbn [fst snd] in *.
  apply builds_ret; [done|]. intros w [= <-]. split_and!; cbn; [done| |by exists (next_counter k); split; [apply next_counter_range|]| |lia].
  - eapply known_bid_kept; [exact Hk2|]. right. right. cbn. by left.
  - split_and!; cbn; [apply min_i32; lia|apply min_i32; lia|done|done].
Qed.

(** One attachment, given what its nested message does. *)
Lemma write_one_builds msg att build i depth max_depth plan counter (s : write_state S) c :
  built failures (ws_layout s) c → attachment_fits att →
  (∀ b d s0 c0, build = Some b → built failures (ws_layout s0) c0 → builds failures (ws_layout s0) c0 (b d s0) object_layout object_written) →
  builds failures (ws_layout s) c (write_one_attachment file_name msg att build i depth max_depth plan counter s) step_layout step_written.
Proof.
  intros Hb Hatt Hbuild. unfold write_one_attachment. cbv zeta.
  destruct (is_cloud_link _); [by apply cloud_builds|]. destruct (negb _ && _); [by apply skip_builds|].
  destruct (_ =? ATTACH_EMBEDDED_MSG).
  - destruct (_ || _); [by apply skip_builds|]. destruct build as [build|]; [|by apply skip_builds].
    eapply builds_bind; [done|by apply (Hbuild build)|]. intros [nested s1] c1 Hb1 Hk1 Ho. cbn [fst snd].
    by eapply finish_embedded_builds.
  - destruct (resolve_attach_payload att s) as [r s1] eqn:Hres. unfold resolve_attach_payload in Hres.
    assert (Hs1 : ws_layout s1 = ws_layout s ∧ ∀ stream, r = Some (ResolvedStream stream) → failures = true ∨
      ((delivered (as_source stream)).2 = None ∧ zlen (delivered (as_source stream)).1 <= I32_MAX)).
    { destruct (wa_data att); [by injection Hres as <- <-|].
      destruct (open_attach_stream _ _ _ _ _) as [o st] eqn:Ho. injection Hres as <- <-. split; [done|]. intros stream.
      destruct o as [x|]; [|done]. intros [= <-]. by eapply delivered_stream. }
    destruct Hs1 as [Hly Hstream]. rewrite <-Hly in Hb |- *. destruct r as [payload|]; [|by apply skip_builds].
    eapply builds_bind; [done|apply store_payload_builds; [done|]; intros stream ->; by apply Hstream|]. intros [[p|] ly2] c2 Hb2 Hk2 Hp; cbn [fst snd] in *.
    + destruct (Hp p eq_refl) as [Hl He]. assert (Hfin : ∀ s2 : write_state S, ws_layout s2 = ly2 →
        builds failures ly2 c2 (finish_by_value file_name att (next_counter counter) p s2) step_layout step_written).
      { intros s2 <-. by eapply finish_by_value_builds. }
      destruct (sp_crc p); by apply Hfin.
    + by apply skip_builds.
Qed.
End attachments.

(** ** The tables and the loop *)

Section loop.
Context `{Crc : Crc32} `{!Crc32Range} (failures : bool) {S : Type} `{!StreamSource S} (file_name : rstring → option rstring).
Context (Hrel : @reliable failures S _).

Definition pl_layout (l : @payload S) : layout := ws_layout (pl_state l).

Lemma with_layout_layout (s : write_state S) ly : ws_layout (with_layout s ly) = ly.
Proof. done. Qed.

(** A table that was built becomes a subnode of the message. *)
Lemma table_subnode_builds l c fs nid t ly c1 :
  payload_ok failures l c fs → wrote failures (pl_layout l) c ly c1 → built failures ly c1 →
  message_subnode (zlen (pl_entries l) + 1) nid → 0 <= tb_extra t → zlen (tb_heap t) <= 8 * MAX_BLOCK_DATA → known_bid c1 (tb_bid_sub t) →
  builds_as failures fields_refused ly c1 (add_table_subnode l nid t ly) pl_layout
    (λ l' c', payload_ok failures l' c' fs ∧ ∃ bid, (nid, bid, tb_bid_sub t) ∈ pl_entries l' ∧ (bid, tb_heap t) ∈ co_values c').
Proof.
  intros Hok Hw Hb Hnid Hex Hz Hsub. unfold add_table_subnode.
  pose proof (chain_builds failures ly c1 (tb_heap t) Hb) as Hc. destruct (write_data_chain ly (tb_heap t)) as [[bid ly2]|e| |]; [|done..].
  destruct Hc as (c2 & Hw2 & ->). rewrite bind_ok. cbn [fst snd] in *. eexists. split; [exact Hw2|]. split.
  - eapply (entry_ok_adds failures l c fs (with_layout (pl_state l) ly2) _ nid bid (tb_bid_sub t) (tb_heap t)); [done|by eapply wrote_trans|by left| |done| | |by left].
    + unfold MAX_XBLOCK_ASSEMBLE, MAX_BLOCK_DATA in *. lia.
    + eapply known_bid_kept; [by eapply wrote_kept|done].
    + apply sat_add_nonneg; [apply zlen_nonneg|done].
  - exists bid. split; [apply elem_of_app; right; by left|by left].
Qed.

Lemma known_table c b : b = 0 ∨ b ∈ map fst (co_tables c) → known_bid c b.
Proof. intros [->|Hb]; [by left|right; by right]. Qed.

Lemma attachment_table_builds l c fs ws :
  payload_ok failures l c fs → Forall (λ w, attach_written w c) ws →
  builds_as failures fields_refused (pl_layout l) c (push_attachment_table l ws) pl_layout (λ l' c', payload_ok failures l' c' fs).
Proof.
  intros Hok Hws. unfold push_attachment_table. destruct ws as [|w ws']; [by apply builds_ret|set (ws := w :: ws') in *].
  pose proof (attachment_table_built failures (ws_layout (pl_state l)) c (map table_row ws) (po_built _ _ _ _ Hok)) as Ht.
  specialize (Ht ltac:(apply Forall_fmap; eapply Forall_impl; [exact Hws|]; intros x Hx; apply Hx) ltac:(done)).
  destruct (build_attachment_table_strategy_a _ _) as [[t ly]|e| |]; [|by left|done..]. destruct Ht as (c1 & Hw & Hex & Hz & Hsub & _).
  rewrite bind_ok. cbn [fst snd]. pose proof (table_subnode_builds l c fs NID_ATTACHMENT_TABLE t ly c1 Hok Hw) as Hb.
  specialize (Hb (wrote_built _ _ _ _ _ (po_built _ _ _ _ Hok) Hw) (ms_attach_table _) Hex Hz (known_table _ _ (or_intror Hsub))).
  destruct (add_table_subnode _ _ _ _) as [l'|e| |]; [|done..]. destruct Hb as (c2 & Hw2 & Hok2 & _).
  exists c2. split; [by eapply wrote_trans|done].
Qed.

(** The reader lists these recipients from a table. *)
Definition recipients_stand (c : contents) (heap : list byte) (sub : Z) (rows : list write_recipient) : Prop :=
  ∀ file header nbt bbt ly2 c2, kept c c2 → reads_back file header nbt bbt ly2 c2 →
    ∃ table, clean (load_from_table_bids heap file bbt sub (header_crypt header)) table ∧
      table_recipients table = Ok (map reread_recipient rows).

(** The recipients of the written table. *)
Definition written_recipients (m : message_dto) (include_bcc : bool) : list write_recipient :=
  order_recipients_for_tc (included_recipients include_bcc (wm_recipients m)).

Lemma written_recipients_ok m include_bcc : message_fits m →
  Forall recipient_fits (written_recipients m include_bcc) ∧ Forall recipient_strings (written_recipients m include_bcc).
Proof.
  intros Hm. unfold written_recipients, order_recipients_for_tc. rewrite !(sort_on_perm _ (included_recipients _ _)). unfold included_recipients.
  destruct (mf_recipients m Hm) as [H1 H2]. rewrite Forall_forall in H1. rewrite Forall_forall in H2.
  split; apply Forall_forall; intros r [_ Hr]%list_elem_of_filter; auto.
Qed.

Lemma recipient_table_builds l c fs m include_bcc :
  payload_ok failures l c fs → message_fits m →
  builds_as failures fields_refused (pl_layout l) c (push_recipient_table l m include_bcc) pl_layout
    (λ l' c', payload_ok failures l' c' fs ∧ ∃ bid heap sub, (NID_RECIPIENT_TABLE, bid, sub) ∈ pl_entries l' ∧ (bid, heap) ∈ co_values c' ∧
       zlen heap <= MAX_XBLOCK_ASSEMBLE ∧ recipients_stand c' heap sub (written_recipients m include_bcc)).
Proof.
  intros Hok Hm. unfold push_recipient_table. fold (written_recipients m include_bcc). destruct (written_recipients_ok m include_bcc Hm) as [Hfit Hstr].
  pose proof (recipient_table_built failures (ws_layout (pl_state l)) c (written_recipients m include_bcc) (po_built _ _ _ _ Hok) Hfit Hstr) as Ht.
  destruct (build_recipient_table_strategy_a _ _) as [[t ly]|e| |]; [|by left|done..]. destruct Ht as (c1 & Hw & Hex & Hz & Hsub & Hread).
  rewrite bind_ok. cbn [fst snd]. pose proof (table_subnode_builds l c fs NID_RECIPIENT_TABLE t ly c1 Hok Hw) as Hb.
  specialize (Hb (wrote_built _ _ _ _ _ (po_built _ _ _ _ Hok) Hw) (ms_recipient_table _) Hex Hz (known_table _ _ Hsub)).
  destruct (add_table_subnode _ _ _ _) as [l'|e| |]; [|done..]. destruct Hb as (c2 & Hw2 & Hok2 & bid & Hin & Hv).
  exists c2. split; [by eapply wrote_trans|]. split; [done|]. exists bid, (tb_heap t), (tb_bid_sub t). split_and!; [done|done|unfold MAX_XBLOCK_ASSEMBLE, MAX_BLOCK_DATA in *; lia|].
  intros file header nbt bbt ly2 c3 Hk Hrb. apply (Hread file header nbt bbt ly2 c3); [|done]. etrans; [by eapply wrote_kept|done].
Qed.

(** *** The loop over the attachments *)

Definition loop_layout (a : @attach_loop S) : layout := pl_layout (al_payload a).
Definition loop_ok (fs : list (Z * property_value)) (a : @attach_loop S) (c : contents) : Prop :=
  payload_ok failures (al_payload a) c fs ∧ Forall (λ w, attach_written w c) (al_written a).

Lemma attach_step_builds m depth max_depth plan acc att build fs c :
  loop_ok fs acc c → attachment_fits att →
  (∀ b d s0 c0, build = Some b → built failures (ws_layout s0) c0 → builds failures (ws_layout s0) c0 (b d s0) object_layout object_written) →
  builds failures (loop_layout acc) c (attach_step file_name m depth max_depth plan acc att build) loop_layout (loop_ok fs).
Proof.
  intros [Hok Hws] Hatt Hbuild. unfold attach_step.
  pose proof (write_one_builds failures file_name Hrel m att build (wrap 32 (al_index acc)) depth max_depth plan (al_counter acc)
    (pl_state (al_payload acc)) c (po_built _ _ _ _ Hok) Hatt Hbuild) as Hone.
  destruct (write_one_attachment _ _ _ _ _ _ _ _ _ _) as [[[[w|] counter] s]|e| |]; [| |done..]; destruct Hone as (c1 & Hw & Hp); rewrite bind_ok; cbn [fst snd].
  - specialize (Hp w eq_refl). exists c1. split; [exact Hw|]. split; cbn [al_payload al_written].
    + destruct Hp as ((b & Hin & Hz) & Hsub & (k & Hk & Hnid) & _ & Hsize).
      eapply (entry_ok_adds failures (al_payload acc) c fs s _ _ _ _ b); [done|exact Hw|done|unfold MAX_XBLOCK_ASSEMBLE, MAX_BLOCK_DATA in *; lia| |done|done|by left].
      rewrite Hnid. by constructor.
    + apply Forall_app. split; [|by constructor]. eapply Forall_impl; [exact Hws|]. intros x. apply attach_written_kept. by eapply wrote_kept.
  - exists c1. split; [exact Hw|]. split; cbn [al_payload al_written].
    + by apply (payload_ok_state failures (al_payload acc) c fs s).
    + eapply Forall_impl; [exact Hws|]. intros x. apply attach_written_kept. by eapply wrote_kept.
Qed.
End loop.
