(* ===== verification/MessageTheorems.v ===== *)
(** * Messages across writer and reader

    The end of [build_message_payload]: the size probe, the final context and the
    subnode leaf; then the nested messages by induction, and the theorem that what
    is written for a message is read back as that message. *)

From S2P Require Import Prelude Telemetry PstError Crypt Nid Header Btree Block BlockFacts Streaming Subnode Heap Bth Utf PropContext PropContextFacts TableContext Folder Text CivilDate Recipient Hasher Message WriterHeap WriterPc NamedPropMap CloudRoundTrip Layout LayoutFacts DataChain DataChainFacts StreamWrite TreeWriter NdbLayout NdbPages NdbTree NdbFile NdbRead NdbStore NdbRoundTrip PagedHeap PagedHeapFacts WriterTable TableRows WriterTableFacts TableTheorems WriterMessage WriterMessageFacts MessageBuild MessageAttach.
#[local] Open Scope Z_scope.
#[local] Set Warnings "-register-all".

(** ** The size probe *)

(** The strings that are still inline. *)
Definition is_string (p : Z * pc_value) : bool := match p.2 with VString _ => true | _ => false end.
Definition inline_strings (props : list (Z * pc_value)) : nat := length (List.filter is_string props).

Lemma inline_strings_cons p props : inline_strings (p :: props) = ((if is_string p then 1 else 0) + inline_strings props)%nat.
Proof. unfold inline_strings. cbn [List.filter]. by destruct (is_string p). Qed.

Lemma inline_strings_bound props : (inline_strings props <= length props)%nat.
Proof. induction props as [|p props IH]; [done|]. rewrite inline_strings_cons. cbn [length]. destruct (is_string p); lia. Qed.

(** What is chosen is an inline helper string; nothing is chosen when there is none. *)
Lemma largest_helper_spec props i best_len best :
  match largest_helper props i best_len best with
  | Some (j, id, s) => best = Some (j, id, s) ∨ i <= j ∧ props !! Z.to_nat (j - i) = Some (id, VString s) ∧ id ∈ HELPER_STRING_PIDS
  | None => best = None ∧ (best_len = 0 → ∀ id s, (id, VString s) ∈ props → id ∉ HELPER_STRING_PIDS)
  end.
Proof.
  revert i best_len best. induction props as [|[id v] props IH]; intros i best_len best.
  { cbn [largest_helper]. destruct best as [[[j id] s]|]; [by left|]. split; [done|]. intros _ id s Hin. by apply elem_of_nil in Hin. }
  assert (Hskip : (best_len = 0 → best = None → ∀ s, v = VString s → id ∉ HELPER_STRING_PIDS) →
    match largest_helper props (i + 1) best_len best with
    | Some (j, k, s) => best = Some (j, k, s) ∨ i <= j ∧ ((id, v) :: props) !! Z.to_nat (j - i) = Some (k, VString s) ∧ k ∈ HELPER_STRING_PIDS
    | None => best = None ∧ (best_len = 0 → ∀ k s, (k, VString s) ∈ (id, v) :: props → k ∉ HELPER_STRING_PIDS)
    end).
  { intros Hv. specialize (IH (i + 1) best_len best). destruct (largest_helper props (i + 1) best_len best) as [[[j k] s]|].
    - destruct IH as [?|(Hj & Hl & Hk)]; [by left|right]. split; [lia|]. split; [|done].
      replace (Z.to_nat (j - i)) with (Datatypes.S (Z.to_nat (j - (i + 1)))) by lia. done.
    - destruct IH as [Hb IH]. split; [done|]. intros H0 k s [[= -> Hs]|Hin]%elem_of_cons; [by eapply Hv|by eapply IH]. }
  destruct v as [v|v|v|s|b|n sz|n|n]; try (apply Hskip; intros _ _ s' [=]). cbn [largest_helper].
  destruct (bool_decide (id ∈ HELPER_STRING_PIDS) && (best_len <=? zlen (utf16le_bytes s))) eqn:Hc.
  - apply andb_prop in Hc as [Hin _]. apply bool_decide_eq_true in Hin.
    specialize (IH (i + 1) (zlen (utf16le_bytes s)) (Some (i, id, s))).
    destruct (largest_helper props (i + 1) _ _) as [[[j k] t]|]; [|by destruct IH].
    destruct IH as [[= <- <- <-]|(Hj & Hl & Hk)]; right.
    + split; [lia|]. by rewrite Z.sub_diag.
    + split; [lia|]. split; [|done]. replace (Z.to_nat (j - i)) with (Datatypes.S (Z.to_nat (j - (i + 1)))) by lia. done.
  - apply Hskip. idtac; intros -> _ t [= <-] Hin. rewrite (bool_decide_true _ Hin), andb_true_l in Hc. bool_to_Z.
    pose proof (zlen_nonneg (utf16le_bytes s)). lia.
Qed.

Lemma insert_inline_strings props j id s w :
  props !! j = Some (id, VString s) → (∀ t, w ≠ VString t) → (inline_strings (<[j := (id, w)]> props) < inline_strings props)%nat.
Proof.
  revert j. induction props as [|p props IH]; intros j Hj Hw; [done|]. destruct j as [|j].
  - injection Hj as ->. cbn [insert list_insert]. rewrite !inline_strings_cons. unfold is_string. cbn [snd]. destruct w; try lia. by destruct (Hw s0).
  - change (<[Datatypes.S j := (id, w)]> (p :: props)) with (p :: <[j := (id, w)]> props). rewrite !inline_strings_cons. specialize (IH j Hj Hw). lia.
Qed.

Section probe.
Context `{Crc : Crc32} (failures : bool) {S : Type}.

(** A diverted helper leaves the fields as they are. *)
Lemma escalate_ok (l : @payload S) c fs :
  payload_ok failures l c fs →
  ∃ o, escalate_largest_inline_helper l = Ok o ∧
    match o with
    | Some l' => ∃ c', payload_ok failures l' c' fs ∧ wrote failures (pl_layout l) c (pl_layout l') c' ∧ pl_entries l ⊆ pl_entries l' ∧
        (inline_strings (pl_props l') < inline_strings (pl_props l))%nat
    | None => ∀ id s, (id, VString s) ∈ pl_props l → id ∉ HELPER_STRING_PIDS
    end.
Proof.
  intros Hok. unfold escalate_largest_inline_helper. pose proof (largest_helper_spec (pl_props l) 0 0 None) as Hl.
  destruct (largest_helper (pl_props l) 0 0 None) as [[[i id] s]|]; [|exists None; split; [done|by apply Hl]].
  destruct Hl as [?|(Hi & Hl & Hid)]; [done|]. rewrite Z.sub_0_r in Hl.
  destruct (Forall2_lookup_l _ _ _ _ _ (po_props _ _ _ _ Hok) Hl) as ([id' x] & Hf & Hid' & Hc). cbn [fst snd] in *. subst id'.
  inversion Hc as [| | |s' Hs Hz| | |]; subst.
  destruct (divert_ok failures l c fs (utf16le_bytes s) Hok) as (nid & l' & c' & -> & Hok' & Hp & Hv & Hsub & Hw).
  { unfold MAX_XBLOCK_ASSEMBLE, MAX_HEAP_VALUE_SIZE in *. lia. }
  rewrite bind_ok. cbn [fst snd]. eexists. split; [done|]. exists c'. destruct Hok' as [Hb Hps He Hn Hk Hcz]. split_and!; [|exact Hw|exact Hsub|].
  - split; try done. cbn [pl_props pl_entries]. rewrite <-(list_insert_id fs (Z.to_nat i) (id, PString s) Hf).
    apply Forall2_insert; [exact Hps|]. split; [done|]. by constructor.
  - rewrite Hp. by apply (insert_inline_strings _ _ _ s).
Qed.
End probe.

(** ** A message fits its page *)

(** The bytes that a field may need in the context when no helper string is inline. *)
Definition field_cap (f : Z * property_value) : Z :=
  match f.2 with
  | PString _ => if bool_decide (f.1 ∈ HELPER_STRING_PIDS) then 0 else MAX_HEAP_VALUE_SIZE + 2
  | PBinary _ => MAX_HEAP_VALUE_SIZE + 2
  | PTime _ => 10
  | _ => 0
  end.
Definition fields_cap (fs : list (Z * property_value)) : Z := foldr (λ f n, field_cap f + n) 0 fs.

Lemma fields_cap_app fs gs : fields_cap (fs ++ gs) = fields_cap fs + fields_cap gs.
Proof.
  induction fs as [|f fs IH]; [done|]. change (field_cap f + fields_cap (fs ++ gs) = field_cap f + fields_cap fs + fields_cap gs). lia.
Qed.

Lemma need_capped c es props fs :
  stand_for c es props fs → (∀ id s, (id, VString s) ∈ props → id ∉ HELPER_STRING_PIDS) → heap_need props <= fields_cap fs.
Proof.
  induction 1 as [|[id v] [id' x] props fs [Hid Hc] _ IH]; intros Hno; [done|]. cbn [fst snd] in *. subst id'.
  cbn [heap_need fields_cap foldr snd]. fold (heap_need props) (fields_cap fs).
  specialize (IH ltac:(intros k s Hin; apply (Hno k s); by right)).
  assert (match heap_bytes v with Some b => zlen b + 2 | None => 0 end <= field_cap (id, x)); [|lia].
  unfold field_cap. destruct Hc as [v|b|t|s|b|n s|n b]; cbn [heap_bytes fst snd]; try done.
  - rewrite bool_decide_false; [lia|]. apply (Hno id s). by left.
  - lia.
  - case_bool_decide; unfold MAX_HEAP_VALUE_SIZE; lia.
Qed.

(** The fields of the finished message. *)
Definition all_fields (m : message_dto) (include_bcc has_attaches : bool) (size : Z) : list (Z * property_value) :=
  fields_of m include_bcc ++ [(WriterMessage.PID_TAG_HAS_ATTACHMENTS, PBool has_attaches);
                              (WriterMessage.PID_TAG_MESSAGE_FLAGS, I32 (written_flags m has_attaches)); (WriterMessage.PID_TAG_MESSAGE_SIZE, I32 size)].

Lemma string_cap id o : fields_cap (string_field id o) <= (if bool_decide (id ∈ HELPER_STRING_PIDS) then 0 else 2050) ∧ zlen (string_field id o) <= 1.
Proof.
  destruct o as [s|]; unfold fields_cap, string_field; cbn [foldr]; [|by case_bool_decide]. change (zlen [(id, PString s)]) with 1.
  unfold field_cap, MAX_HEAP_VALUE_SIZE. cbn [fst snd]. case_bool_decide; lia.
Qed.

Lemma all_fields_cap m include_bcc has size :
  fields_cap (all_fields m include_bcc has size) <= 4130 ∧ zlen (all_fields m include_bcc has size) <= 18.
Proof.
  assert (Hbin : ∀ id o, fields_cap (binary_field id o) <= 2050 ∧ zlen (binary_field id o) <= 1).
  { intros id o. by destruct o. }
  assert (Htime : fields_cap (time_fields m) <= 30 ∧ zlen (time_fields m) <= 3) by (unfold time_fields; destruct (wm_submit_time m); done).
  assert (Hfmt : fields_cap (format_fields m) <= 0 ∧ zlen (format_fields m) <= 3).
  { unfold format_fields. by destruct (html_bytes m), (plain_text m). }
  unfold all_fields, fields_of. rewrite !fields_cap_app, !zlen_app.
  pose proof (string_cap WriterMessage.PID_TAG_INTERNET_MESSAGE_ID (wm_message_id m)) as H1.
  pose proof (string_cap WriterMessage.PID_TAG_SENDER_EMAIL_ADDRESS (wm_sender m)) as H2.
  pose proof (string_cap WriterMessage.PID_TAG_DISPLAY_TO (wm_display_to m)) as H3.
  pose proof (string_cap WriterMessage.PID_TAG_DISPLAY_CC (not_blank (wm_display_cc m))) as H4.
  pose proof (string_cap WriterMessage.PID_TAG_DISPLAY_BCC (written_bcc m include_bcc)) as H5.
  pose proof (string_cap WriterMessage.PID_TAG_BODY (plain_text m)) as H6. specialize (Hbin WriterMessage.PID_TAG_BODY_HTML (html_bytes m)).
  assert (Hin : ∀ id, id ∈ HELPER_STRING_PIDS → bool_decide (id ∈ HELPER_STRING_PIDS) = true) by (intros; by apply bool_decide_true).
  rewrite Hin in H1, H2, H3, H4, H5 by (apply (bool_decide_unpack _); vm_compute; exact I).
  rewrite bool_decide_false in H6 by (apply (bool_decide_unpack _); vm_compute; exact I).
  assert (Hs : fields_cap [(WriterMessage.PID_TAG_SUBJECT, PString (wm_subject m))] = 0 ∧
    fields_cap [(WriterMessage.PID_TAG_MESSAGE_CLASS, PString (written_class m))] = 0) by done.
  destruct Hs as [Hs1 Hs2]. rewrite Hs1, Hs2.
  change (fields_cap [(_, PBool has); _; _]) with 0. change (zlen [(_, PString (wm_subject m))]) with 1.
  change (zlen [(_, PString (written_class m))]) with 1. change (zlen [(_, PBool has); _; _]) with 3. lia.
Qed.

Lemma sizes_agree c es props fs : stand_for c es props fs → zlen props = zlen fs.
Proof. intros Hs. unfold zlen. by rewrite (Forall2_length _ _ _ Hs). Qed.

Section finish.
Context `{Crc : Crc32} `{!Crc32Range} (failures : bool) {S : Type}.

(** The probe ends: the context fits, and its size is the size of the message. *)
Lemma probe_builds m include_bcc has fuel : ∀ (l : @payload S) c,
  payload_ok failures l c (all_fields m include_bcc has 0) → (inline_strings (pl_props l) < fuel)%nat →
  builds_as failures fields_refused (pl_layout l) c (message_size_probe fuel l) (λ r, pl_layout r.2)
    (λ r c', payload_ok failures r.2 c' (all_fields m include_bcc has 0) ∧ 0 <= r.1 <= I32_MAX ∧ pc_size (pl_props r.2) <= MAX_BLOCK_DATA ∧
       pl_entries l ⊆ pl_entries r.2).
Proof.
  induction fuel as [|fuel IH]; intros l c Hok Hf; [lia|]. cbn [message_size_probe]. pose proof (pc_bytes_spec (pl_props l)) as Hp.
  destruct (pc_bytes (pl_props l)) as [b|e| |]; [| |done..].
  - destruct Hp as [Hsize _]. destruct (_ <? _) eqn:Hbig; [right; by eexists|]. bool_to_Z. apply builds_ret; [done|].
    cbn [fst snd]. pose proof (po_content _ _ _ _ Hok). pose proof (zlen_nonneg b). split_and!; [done|lia|done..].
  - destruct Hp as [Hsize (a & a2 & a3 & a4 & a5 & ->)]. destruct (escalate_ok failures l c _ Hok) as (o & Ho & Hcase).
    destruct o as [l'|].
    + destruct Hcase as (c' & Hok' & Hw & Hsub & Hlt). rewrite Ho, bind_ok. specialize (IH l' c' Hok' ltac:(lia)).
      destruct (message_size_probe fuel l') as [r|e| |]; [|exact IH..]. destruct IH as (c2 & Hw2 & ? & ? & ? & ?). exists c2. split; [by eapply wrote_trans|]. split_and!; [done..|lia|lia|done|by etrans].
    + exfalso. pose proof (need_capped _ _ _ _ (po_props _ _ _ _ Hok) Hcase) as Hneed. pose proof (all_fields_cap m include_bcc has 0) as [Hcap Hlen].
      pose proof (sizes_agree _ _ _ _ (po_props _ _ _ _ Hok)) as Hsz. unfold pc_size, MAX_BLOCK_DATA in Hsize. lia.
Qed.

(** The size replaces its placeholder. *)
Lemma set_last_property c es props fs id v x x0 :
  stand_for c es props (fs ++ [(id, x0)]) → (∀ f, f ∈ fs → f.1 ≠ id) → carries c es v x →
  stand_for c es (set_property props id v) (fs ++ [(id, x)]) ∧
  (heap_bytes v = None → (∀ w, carries c es w x0 → heap_bytes w = None) → pc_size (set_property props id v) = pc_size props).
Proof.
  intros Hs Hfs Hv. revert props Hs. induction fs as [|[j y] fs IH]; intros props Hs.
  - cbn [app] in *. inversion Hs as [|[i w] ? ps ? [Hi Hw] Hnil]; subst. cbn [fst snd] in *. subst i. inversion Hnil; subst.
    cbn [set_property fst]. rewrite Z.eqb_refl. split; [by constructor|]. intros H1 H2. unfold pc_size. cbn [heap_need foldr snd]. by rewrite H1, (H2 w Hw).
  - cbn [app] in *. inversion Hs as [|[i w] ? ps ? [Hi Hw] Hrest]; subst. cbn [fst snd] in *. subst i.
    assert (Hne : j ≠ id) by (apply (Hfs (j, y)); by left). cbn [set_property fst]. rewrite (proj2 (Z.eqb_neq _ _) Hne).
    destruct (IH (λ f Hf, Hfs f (proj2 (elem_of_cons _ _ _) (or_intror Hf))) ps Hrest) as [H1 H2]. split; [by constructor|].
    intros H3 H4. specialize (H2 H3 H4). unfold pc_size in *. cbn [heap_need foldr snd]. fold (heap_need (set_property ps id v)) (heap_need ps).
    rewrite !zlen_cons. assert (Hz : zlen (set_property ps id v) = zlen ps).
    { clear. induction ps as [|p ps IH]; [done|]. cbn [set_property]. destruct (p.1 =? id); rewrite !zlen_cons; lia. }
    rewrite Hz in *. lia.
Qed.
End finish.

(** ** The end of a message *)

Lemma lor_grows a b : 0 <= b → a <= Z.lor a b.
Proof.
  intros Hb. assert (0 <= Z.ldiff b a) by (apply Z.ldiff_nonneg; by left).
  assert (Z.lor a b = a + Z.ldiff b a); [|lia]. rewrite Z.add_nocarry_lxor by (rewrite Z.land_comm; apply Z.land_ldiff).
  apply Z.bits_inj'. intros n _. rewrite Z.lor_spec, Z.lxor_spec, Z.ldiff_spec. by destruct (Z.testbit a n), (Z.testbit b n).
Qed.

Lemma flags_range m has : - 2 ^ 31 <= written_flags m has < 2 ^ 31.
Proof.
  assert (Hs : ∀ v, - 2 ^ 31 <= swrap 32 v < 2 ^ 31).
  { intros v. unfold swrap. pose proof (Z.mod_pos_bound (v + 2 ^ (32 - 1)) (2 ^ 32)). change (2 ^ (32 - 1)) with (2 ^ 31) in *. lia. }
  unfold written_flags. set (f := match wm_message_flags m with Some f => swrap 32 f | None => MSGFLAG_READ end).
  assert (Hf : - 2 ^ 31 <= f < 2 ^ 31) by (subst f; destruct (wm_message_flags m); [apply Hs|done]). destruct has; [|done].
  pose proof (lor_grows f MSGFLAG_HASATTACH ltac:(done)). destruct (Z.lt_ge_cases f 0).
  - assert (Z.lor f MSGFLAG_HASATTACH < 0) by (apply Z.lor_neg; by left). lia.
  - assert (0 <= Z.lor f MSGFLAG_HASATTACH) by (by apply Z.lor_nonneg). split; [lia|].
    apply Z.log2_lt_cancel. rewrite Z.log2_lor, Z.log2_pow2 by done. change (Z.log2 MSGFLAG_HASATTACH) with 4.
    destruct (decide (f = 0)) as [->|]; [done|]. apply Z.max_lub_lt; [|done]. apply Z.log2_lt_pow2; lia.
Qed.

Lemma fields_without_size m include_bcc has f :
  f ∈ fields_of m include_bcc ++ [(WriterMessage.PID_TAG_HAS_ATTACHMENTS, PBool has); (WriterMessage.PID_TAG_MESSAGE_FLAGS, I32 (written_flags m has))] →
  f.1 ≠ WriterMessage.PID_TAG_MESSAGE_SIZE.
Proof.
  assert (Hstr : ∀ id o, id ≠ WriterMessage.PID_TAG_MESSAGE_SIZE → Forall (λ f, f.1 ≠ WriterMessage.PID_TAG_MESSAGE_SIZE) (string_field id o)).
  { intros id o Hid. destruct o; by repeat constructor. }
  assert (Hall : Forall (λ f, f.1 ≠ WriterMessage.PID_TAG_MESSAGE_SIZE) (fields_of m include_bcc ++
    [(WriterMessage.PID_TAG_HAS_ATTACHMENTS, PBool has); (WriterMessage.PID_TAG_MESSAGE_FLAGS, I32 (written_flags m has))])).
  { unfold fields_of. repeat (apply Forall_app; split); try (by apply Hstr); try (by repeat constructor).
    - unfold time_fields. destruct (wm_submit_time m); by repeat constructor.
    - destruct (html_bytes m); by repeat constructor.
    - unfold format_fields. destruct (html_bytes m), (plain_text m); by repeat constructor. }
  rewrite Forall_forall in Hall. apply Hall.
Qed.

Section message.
Context `{Crc : Crc32} `{!Crc32Range} (failures : bool) {S : Type}.

(** A message object that stands in the layout: its context, its subnodes, and
    among them the recipient table. *)
Definition message_stands (m : message_dto) (include_bcc has : bool) (heap : list byte) (sub size : Z) (c : contents) : Prop :=
  ∃ entries props bid table rsub,
    pc_bytes props = Ok heap ∧ stand_for c entries props (all_fields m include_bcc has size) ∧
    Forall (readable_entry c) entries ∧ Forall (λ e, message_subnode (zlen entries) e.1.1) entries ∧
    ((sub, sort_on (λ e, e.1.1) entries) ∈ co_tables c ∧ is_internal sub = true) ∧ NoDup (map (λ e, e.1.1) entries) ∧ zlen entries <= 340 ∧
    ((NID_RECIPIENT_TABLE, bid, rsub) ∈ entries ∧ (bid, table) ∈ co_values c ∧ zlen table <= MAX_XBLOCK_ASSEMBLE) ∧
    recipients_stand c table rsub (written_recipients m include_bcc).

Definition payload_layout (r : list byte * Z * Z * write_state S) : layout := ws_layout r.2.
Definition payload_stands (m : message_dto) (include_bcc has : bool) (r : list byte * Z * Z * write_state S) (c : contents) : Prop :=
  let '(heap, sub, size, _) := r in
  zlen heap <= MAX_BLOCK_DATA ∧ 0 <= size <= I32_MAX ∧ message_stands m include_bcc has heap sub size c.

Lemma internal_table ly c bid t : built failures ly c → (bid, t) ∈ co_tables c → is_internal bid = true.
Proof.
  intros Hb Hin. destruct (built_holds _ _ _ Hb) as (e & Hh). pose proof (hc_tables _ _ _ _ Hh) as Ht. rewrite Forall_forall in Ht.
  by destruct (Ht _ Hin) as (_ & _ & ? & _).
Qed.

Lemma finish_builds m include_bcc (l : @payload S) ws c :
  payload_ok failures l c (fields_of m include_bcc) → Forall (λ w, attach_written w c) ws → message_fits m →
  builds_as failures fields_refused (pl_layout l) c (finish_payload m include_bcc l ws) payload_layout
    (payload_stands m include_bcc (negb (bool_decide (ws = [])))).
Proof.
  intros Hok Hws Hm. unfold finish_payload. cbv zeta. set (has := negb (bool_decide (ws = []))).
  eapply builds_bind; [apply Hok|by eapply attachment_table_builds|]. intros l1 c1 Hb1 Hk1 Hok1.
  eapply builds_bind; [done|exact (recipient_table_builds failures l1 c1 (fields_of m include_bcc) m include_bcc Hok1 Hm)|]. intros l2 c2 Hb2 Hk2 (Hok2 & bid & table & rsub & Hrin & Hrval & Hrz & Hrst).
  set (l3 := push_all l2 _).
  assert (Hok3 : payload_ok failures l3 c2 (all_fields m include_bcc has 0) ∧ pl_layout l3 = pl_layout l2 ∧ pl_entries l3 = pl_entries l2).
  { split; [|done]. subst l3. cbn [push_all foldl fst snd]. unfold all_fields.
    change [?a; ?b; ?c] with ([a] ++ ([b] ++ [c])). rewrite !(assoc_L (++)).
    apply push_ok; [apply push_ok; [apply push_ok; [done|constructor]|constructor; apply flags_range]|by constructor]. }
  clearbody l3. destruct Hok3 as (Hok3 & Hly3 & He3). rewrite <-Hly3. rewrite <-He3 in Hrin.
  eapply builds_bind; [apply Hok3|apply (probe_builds failures m include_bcc has (Datatypes.S (length (pl_props l3))) l3 c2 Hok3)|].
  { pose proof (inline_strings_bound (pl_props l3)). lia. }
  intros [size l4] c4 Hb4 Hk4 (Hok4 & Hsize & Hpc & Hsub4). cbn [fst snd] in *.
  destruct (set_last_property c4 (pl_entries l4) (pl_props l4) (fields_of m include_bcc ++
    [(WriterMessage.PID_TAG_HAS_ATTACHMENTS, PBool has); (WriterMessage.PID_TAG_MESSAGE_FLAGS, I32 (written_flags m has))])
    WriterMessage.PID_TAG_MESSAGE_SIZE (VI32 size) (I32 size) (I32 0)) as [Hst Hpcs].
  { pose proof (po_props _ _ _ _ Hok4) as Hp. unfold all_fields in Hp. rewrite <-(assoc_L (++)). exact Hp. }
  { apply fields_without_size. }
  { constructor. unfold I32_MAX in Hsize. lia. }
  rewrite <-(assoc_L (++)) in Hst. change (stand_for c4 (pl_entries l4) (set_property (pl_props l4) WriterMessage.PID_TAG_MESSAGE_SIZE (VI32 size)) (all_fields m include_bcc has size)) in Hst.
  specialize (Hpcs eq_refl ltac:(by intros w Hw; inversion Hw)). apply builds_pure.
  pose proof (pc_bytes_spec (set_property (pl_props l4) WriterMessage.PID_TAG_MESSAGE_SIZE (VI32 size))) as Hfin.
  destruct (pc_bytes (set_property _ _ _)) as [heap|e| |] eqn:Hheap; [|lia|done..].
  assert (Hrin4 : (NID_RECIPIENT_TABLE, bid, rsub) ∈ pl_entries l4) by auto.
  eapply (builds_bind failures fields_refused _ _ _ snd (λ w c', c' = add_table w.1 (sort_on (λ e, e.1.1) (pl_entries l4)) c4 ∧
    NoDup (map (λ e, e.1.1) (pl_entries l4)) ∧ zlen (pl_entries l4) <= 340)); [apply Hok4| |].
  { assert (Hc : close_subnodes (pl_layout l4) (pl_entries l4) = add_subnode_leaf (pl_layout l4) (pl_entries l4)).
    { destruct (pl_entries l4); [by apply elem_of_nil in Hrin4|done]. }
    unfold pl_layout in Hc. rewrite Hc. eapply builds_weaken; [apply leaf_builds; [apply Hok4|]|intros e He; by left].
    eapply Forall_impl; [apply (po_entries _ _ _ _ Hok4)|]. by intros e []. }
  intros [sub ly5] c5 Hb5 Hk5 (-> & Hnd & Hlim). cbn [fst snd] in *. apply builds_ret; [done|].
  split; [apply Hfin|]. split; [done|].
  exists (pl_entries l4), (set_property (pl_props l4) WriterMessage.PID_TAG_MESSAGE_SIZE (VI32 size)), bid, table, rsub.
  assert (Hkept : kept c2 (add_table sub (sort_on (λ e, e.1.1) (pl_entries l4)) c4)) by (by etrans).
  split_and!; [done|eapply stand_for_mono; [exact Hk5| |exact Hst]; done| |apply (po_nids _ _ _ _ Hok4)|by left|by eapply internal_table; [exact Hb5|left]|done|done|done|by apply Hkept|done|].
  - eapply Forall_impl; [apply (po_entries _ _ _ _ Hok4)|]. intros e. by apply readable_kept.
  - intros file header nbt bbt ly2 c6 Hk6. apply Hrst. by etrans.
Qed.
End message.

(** ** Messages and their nested messages *)

Section mail.
Context `{Crc : Crc32} `{!Crc32Range} (failures : bool) {S : Type} `{!StreamSource S} (file_name : rstring → option rstring).
Context (Hrel : @reliable failures S _).

(** The loop over the attachments, given what the nested messages do. *)
Lemma attachments_build (build : mail → Z → write_state S → wres (Z * Z * Z * Z * write_state S)) m depth max_depth plan fs atts :
  (∀ att e, (att, Some e) ∈ atts → ∀ d s0 c0, built failures (ws_layout s0) c0 → builds failures (ws_layout s0) c0 (build e d s0) object_layout object_written) →
  Forall (λ att : write_attachment * option mail, attachment_fits att.1) atts →
  ∀ acc c, loop_ok failures fs acc c →
  builds failures (loop_layout acc) c
    (mfold (λ acc att, attach_step file_name m depth max_depth plan acc att.1 (match att.2 with Some e => Some (build e) | None => None end)) atts acc)
    loop_layout (λ acc' c', loop_ok failures fs acc' c' ∧ (atts = [] → acc' = acc)).
Proof.
  induction atts as [|[att oe] atts IH]; intros Hnested Hfit acc c Hacc; [by apply builds_ret|].
  apply Forall_cons in Hfit as [Ha Hfit]. cbn [mfold fst snd]. eapply builds_bind; [apply Hacc|apply attach_step_builds; [done|done|done|]|].
  - intros b d s0 c0 Hb Hb0. destruct oe as [e|]; [|done]. injection Hb as <-. apply (Hnested att e); [by left|done].
  - intros acc1 c1 Hb1 _ Hacc1. eapply builds_mono; [apply IH; [intros a e Hin; apply (Hnested a e); by right|done|exact Hacc1]|].
    intros acc2 c2 [? _]. done.
Qed.

(** A nested message becomes an object. *)
Lemma object_builds m include_bcc (payload : write_state S → wres (list byte * Z * Z * write_state S)) s c :
  built failures (ws_layout s) c →
  (∀ s0 c0, built failures (ws_layout s0) c0 → builds failures (ws_layout s0) c0 (payload s0) payload_layout
     (λ r c', ∃ has, payload_stands m include_bcc has r c')) →
  builds failures (ws_layout s) c (embedded_object payload s) object_layout object_written.
Proof.
  intros Hb Hp. unfold embedded_object. eapply builds_bind; [done|by apply (builds_nid failures message_refused)|].
  intros [nid ly1] c1 Hb1 _ (-> & Hnid & _). cbn [fst snd] in *.
  eapply builds_bind; [exact Hb1|by apply Hp|]. intros [[[heap sub] size] s2] c2 Hb2 _ (has' & _ & Hsize & Hst). cbn [payload_layout snd] in *.
  eapply builds_bind; [done|by apply builds_chain|]. intros [bid ly3] c3 Hb3 Hk3 ->. cbn [fst snd] in *. apply builds_ret; [done|].
  split; [lia|]. split; [by left|]. split; [|lia]. destruct Hst as (entries & _ & _ & _ & _ & _ & _ & _ & _ & [Hin _] & _).
  right. right. by apply (list_elem_of_fmap_2 fst _ (sub, sort_on (λ e, e.1.1) entries)).
Qed.

Definition mail_stands (m : mail) (include_bcc : bool) (r : list byte * Z * Z * write_state S) (c : contents) : Prop :=
  ∃ has, (mail_attachments m = [] → has = false) ∧ payload_stands (mail_dto m) include_bcc has r c.

Lemma payload_builds : ∀ m, mail_fits m → ∀ max_depth include_bcc plan depth (s : write_state S) c,
  built failures (ws_layout s) c →
  builds failures (ws_layout s) c (build_message_payload file_name m max_depth include_bcc plan depth s) payload_layout (mail_stands m include_bcc).
Proof.
  refine (mail_nested_ind _ _). intros dto atts IH Hm max_depth include_bcc plan depth s c Hb. apply mail_fits_inv in Hm as [Hdto Hatts].
  cbn [build_message_payload]. destruct (push_fields_ok failures dto include_bcc s c Hdto Hb) as (l & c1 & Hrun & Hok & Hw).
  assert (Hfields : builds failures (ws_layout s) c (push_fields dto include_bcc s) pl_layout (λ l c', payload_ok failures l c' (fields_of dto include_bcc))).
  { rewrite Hrun. exists c1. split; [exact Hw|exact Hok]. }
  eapply builds_bind; [done|exact Hfields|]. clear l c1 Hrun Hok Hw Hfields. intros l c1 Hb1 _ Hok. cbv beta.
  rewrite Forall_forall in Hatts.
  eapply builds_bind; [done|apply (attachments_build (λ e depth, embedded_object (build_message_payload file_name e max_depth include_bcc plan depth))
    dto depth max_depth plan (fields_of dto include_bcc) atts)|].
  - intros att e Hin d s0 c0 Hb0. apply (object_builds (mail_dto e) include_bcc); [done|]. intros s1 c2 Hb2.
    destruct (Hatts _ Hin) as [_ He]. eapply builds_mono; [by apply (IH att e Hin (He e eq_refl))|]. intros r c3 (has & _ & ?). by exists has.
  - apply Forall_forall. intros att Hin. by apply Hatts.
  - split; [exact Hok|constructor].
  - intros acc c2 Hb2 _ [[Hok2 Hws] Hnil]. eapply builds_mono; [eapply builds_weaken; [by apply (finish_builds failures dto include_bcc)|apply fields_refused_message]|].
    intros r c3 Hr. exists (negb (bool_decide (al_written acc = []))). split; [|exact Hr]. intros Ha. cbn in Ha. by rewrite (Hnil Ha).
Qed.
End mail.

