(* ===== verification/MessageRoundTrip.v ===== *)
(** * Messages written and read

    A message that was written is read back by [read_message_extract] from the
    finished file as that message. *)

From S2P Require Import Prelude Telemetry PstError Crypt Nid Header Btree Block BlockFacts Streaming Subnode Heap Bth Utf PropContext PropContextFacts TableContext Folder Text CivilDate Recipient Hasher Message WriterHeap WriterPc NamedPropMap CloudRoundTrip Layout LayoutFacts DataChain DataChainFacts StreamWrite TreeWriter NdbLayout NdbPages NdbTree NdbFile NdbRead NdbStore NdbRoundTrip PagedHeap PagedHeapFacts WriterTable TableRows WriterTableFacts TableTheorems WriterMessage WriterMessageFacts MessageBuild MessageAttach MessageTheorems.
#[local] Open Scope Z_scope.
#[local] Set Warnings "-register-all".

(** ** The fields that are read *)







(** A context that holds the fields [fs]. *)
Section context.
Context (pc : prop_context) (fs : list (Z * property_value)).
Context (Hpc : ∀ id, 0 <= id < 2 ^ 16 → pc_get pc id = Ok (field fs id)).

End context.



(** ** The subnodes of a message in the file *)

Section reading.
Context `{Crc : Crc32} `{!Crc32Range}.
Context (file : list byte) (header : pst_header) (nbt : nbt_index) (bbt : bbt_index) (ly : layout) (c : contents).
Context (Hrb : reads_back file header nbt bbt ly c).
Context (entries : list (Z * Z * Z)) (Hreadable : Forall (readable_entry c) entries).
Context (Hids : Forall (λ e, message_subnode (zlen entries) e.1.1) entries) (Hnd : NoDup (map (λ e, e.1.1) entries)) (Hlim : zlen entries <= 340).








End reading.

(** ** Reading the message *)




Section read.
Context `{Crc : Crc32} `{!Crc32Range}.
Context (file : list byte) (header : pst_header) (nbt : nbt_index) (bbt : bbt_index) (ly : layout) (c : contents).
Context (Hrb : reads_back file header nbt bbt ly c).

End read.

(** ** The node of a message *)



Section node.
Context `{Crc : Crc32} `{!Crc32Range} (failures : bool) {S : Type} `{!StreamSource S} (file_name : rstring → option rstring).



End node.

(** ** The round trip *)

Section round_trip.
Context `{Crc : Crc32} `{!Crc32Range} {S : Type} `{!StreamSource S} (file_name : rstring → option rstring).

End round_trip.

(** ** A concrete message *)


#[local] Instance message_crc : Crc32 := λ _, 7.
#[local] Instance message_crc_range : Crc32Range.
Proof. done. Qed.
#[local] Instance message_streams : StreamSource unit := {| open_attach_stream := λ s _ _ _ _, (None, s) |}.




