(* ===== verification/DedupIndex.v ===== *)
(** * The streaming dedup index (dedup-engine/src/index.rs)

    [check_and_insert_item] decides one message at a time, in scan order: a
    duplicate of an earlier message (by Message-ID or by content hash), or
    unique.  The hash maps are finite maps on the byte keys that the source
    builds. *)

From S2P Require Import Prelude Text Grouping.

(** [struct MessageRef] *)
Record message_ref := {
  pst_index : Z; pst_name : bstring; folder_path : bstring; nid : Z;
  subject : bstring; ref_submit_time : option Z; sender : bstring; ref_size : Z }.

Inductive dedup_tier := TierMessageId | TierContentHash | TierStrongContentHash.

Inductive dedup_result :=
| Unique
| DuplicateOf (original : message_ref) (tier : dedup_tier) (by_ : bound_by).

(** [DedupResult::is_unique], [DedupResult::bound_by] *)
Definition is_unique (r : dedup_result) : bool :=
  match r with Unique => true | DuplicateOf _ _ _ => false end.
Definition result_bound_by (r : dedup_result) : bound_by :=
  match r with Unique => Seed | DuplicateOf _ _ b => b end.

(** [struct IndexItem] *)
Record index_item := {
  message_id : option bstring;
  content_hash : bstring;
  strong_content_hash : option bstring;
  tier2_eligible : bool;
  source_key : bstring;
  item_fps : fingerprints;
  item_ref : message_ref }.

(** [IndexItem::classic] *)
Definition classic (mid : option bstring) (hash : bstring) (r : message_ref) : index_item := {|
  message_id := mid; content_hash := hash; strong_content_hash := None;
  tier2_eligible := true; source_key := [];
  item_fps := {| fp_body := 0; fp_header := 0; fp_recipients := 0; fp_attachments := 0 |};
  item_ref := r |}.

(** [struct GroupSlot] *)
Record group_slot := {
  slot_ref : message_ref; bound_mid : option bstring; bind_hash : bstring;
  slot_fps : fingerprints }.

(** [struct DedupIndex]; its context never changes and is a parameter below. *)
Record dedup_index := {
  message_ids : gmap bstring group_slot;
  content_hashes : gmap bstring group_slot;
  unique_count : Z;
  duplicate_count : Z;
  tier1_hits : Z;
  tier2_hits : Z;
  stats : grouping_stats;
  cross_mid_hash_seen : gset bstring;
  cross_mid_cluster : gmap bstring (gset bstring) }.

(** [DedupIndex::with_context] *)
Definition empty_index : dedup_index := {|
  message_ids := ∅; content_hashes := ∅; unique_count := 0; duplicate_count := 0;
  tier1_hits := 0; tier2_hits := 0; stats := default_stats;
  cross_mid_hash_seen := ∅; cross_mid_cluster := ∅ |}.

(** [DedupIndex::total] *)
Definition total (ix : dedup_index) : Z := add_u64 (duplicate_count ix) (unique_count ix).

(** [HashMap::entry(k).or_insert(v)] *)
Definition or_insert {V} (k : bstring) (v : V) (m : gmap bstring V) : gmap bstring V :=
  match m !! k with Some _ => m | None => <[k := v]> m end.

(** [tier_for_bound] *)
Definition tier_for_bound (b : bound_by) : dedup_tier :=
  match b with
  | MessageId => TierMessageId
  | StrongContentHash => TierStrongContentHash
  | ContentHash | Seed => TierContentHash
  end.

(** The counters of a blocked cross-MID join, shared with KeepGroup: the block,
    the first block under this key, and the largest set of MIDs under one key. *)
Definition note_cross_mid (hkey : bstring) (group_mid item_mid : option bstring)
    (seen : gset bstring) (cluster : gmap bstring (gset bstring)) (s : grouping_stats)
    : gset bstring * gmap bstring (gset bstring) * grouping_stats :=
  let s := s {{ cross_mid_blocked ::= add_u64 1 }} in
  let s := if decide (hkey ∈ seen) then s else s {{ cross_mid_blocked_groups ::= add_u64 1 }} in
  match item_mid with
  | Some m =>
      let mids := default ∅ (cluster !! hkey) in
      let mids := match group_mid with Some e => {[e]} ∪ mids | None => mids end in
      let mids := {[m]} ∪ mids in
      (({[hkey]} ∪ seen, <[hkey := mids]> cluster),
       s {{ cross_mid_blocked_max_group ::= Z.max (Z.of_nat (size mids)) }})
  | None => (({[hkey]} ∪ seen, cluster), s)
  end.

Section index.
Context (ctx : grouping_context).

Definition item_bind_hash (item : index_item) : bstring :=
  tier2_bind_hash (identity ctx) (content_hash item) (strong_content_hash item).

(** [should_split_tier1] *)
Definition should_split_tier1 (slot : group_slot) (item : index_item) : bool :=
  match verify ctx with
  | VerifyOff => false
  | VerifyContent => negb (bool_decide (item_bind_hash item = bind_hash slot))
  | VerifyBody => negb (fp_body (item_fps item) =? fp_body (slot_fps slot))
  end.

Definition item_slot (mid : option bstring) (item : index_item) : group_slot :=
  {| slot_ref := item_ref item; bound_mid := mid; bind_hash := item_bind_hash item;
     slot_fps := item_fps item |}.

(** Tier 1: the message with the same Message-ID, unless verification splits. *)
Definition check_tier1 (mid : option bstring) (item : index_item) (ix : dedup_index)
    : option dedup_result * dedup_index :=
  match mid with
  | None => (None, ix)
  | Some m =>
      match message_ids ix !! mid_key (scope ctx) (source_key item) m with
      | None => (None, ix)
      | Some slot =>
          let ix' := ix {{ stats ::= note_divergence (slot_fps slot) (item_fps item) }} in
          if should_split_tier1 slot item then (None, ix')
          else (Some (DuplicateOf (slot_ref slot) TierMessageId MessageId),
                ix' {{ duplicate_count ::= add_u64 1; tier1_hits ::= add_u64 1 }})
      end
  end.

(** A joining message: the group adopts its MID if it had none, and the bound
    MID is registered for Tier 1. *)
Definition join_tier2 (hkey : bstring) (slot : group_slot) (new_bound : option bstring)
    (item : index_item) (ix : dedup_index) : dedup_index :=
  match new_bound with
  | None => ix
  | Some nb =>
      let adopted := match bound_mid slot with
                     | None => slot {{ bound_mid := Some nb }}
                     | Some _ => slot
                     end in
      ix {{ content_hashes ::= insert hkey adopted;
            message_ids ::= or_insert (mid_key (scope ctx) (source_key item) nb)
              {| slot_ref := slot_ref slot; bound_mid := Some nb;
                 bind_hash := item_bind_hash item; slot_fps := item_fps item |} }}
  end.

(** Tier 2: the group with the same content (or strong) hash. *)
Definition check_tier2 (mid : option bstring) (item : index_item) (ix : dedup_index)
    : option dedup_result * dedup_index :=
  let hkey := hash_map_key (scope ctx) (source_key item) (item_bind_hash item) in
  match content_hashes ix !! hkey with
  | None => (None, ix)
  | Some slot =>
      let '(ok, new_bound) := mid_join_compatible (bound_mid slot) mid (block_cross_mid ctx) in
      if ok then
        let b := bound_by_for_tier2 (identity ctx) in
        (Some (DuplicateOf (slot_ref slot) (tier_for_bound b) b),
         (join_tier2 hkey slot new_bound item ix)
           {{ duplicate_count ::= add_u64 1; tier2_hits ::= add_u64 1 }})
      else
        let '(seen, cluster, s) :=
          note_cross_mid hkey (bound_mid slot) mid
            (cross_mid_hash_seen ix) (cross_mid_cluster ix) (stats ix) in
        (None, ix {{ cross_mid_hash_seen := seen; cross_mid_cluster := cluster; stats := s }})
  end.

(** The first message of a new group. *)
Definition insert_unique (mid : option bstring) (eligible : bool) (item : index_item)
    (ix : dedup_index) : dedup_index :=
  let slot := item_slot mid item in
  let ix := match mid with
            | Some m => ix {{ message_ids ::= insert (mid_key (scope ctx) (source_key item) m) slot }}
            | None => ix
            end in
  let ix := if tier2_enabled ctx && eligible
            then ix {{ content_hashes ::=
                         or_insert (hash_map_key (scope ctx) (source_key item) (item_bind_hash item)) slot }}
            else ix in
  ix {{ unique_count ::= add_u64 1 }}.

(** [DedupIndex::check_and_insert_item] *)
Definition check_and_insert_item (item : index_item) (ix : dedup_index)
    : dedup_result * dedup_index :=
  let mid := mid_present (message_id item) in
  match check_tier1 mid item ix with
  | (Some r, ix) => (r, ix)
  | (None, ix) =>
      let eligible := tier2_eligible item || negb (enforce_readable_body ctx) in
      match (if tier2_enabled ctx && eligible then check_tier2 mid item ix else (None, ix)) with
      | (Some r, ix) => (r, ix)
      | (None, ix) => (Unique, insert_unique mid eligible item ix)
      end
  end.

(** [DedupIndex::check_and_insert] *)
Definition check_and_insert (mid : option bstring) (hash : bstring) (r : message_ref)
    (ix : dedup_index) : dedup_result * dedup_index :=
  check_and_insert_item (classic mid hash r) ix.

(** A scan: the items in scan order, with the results and the final index. *)
Fixpoint check_all (items : list index_item) (ix : dedup_index)
    : list dedup_result * dedup_index :=
  match items with
  | [] => ([], ix)
  | item :: items =>
      let '(r, ix) := check_and_insert_item item ix in
      let '(rs, ix) := check_all items ix in (r :: rs, ix)
  end.
End index.

(** [record_*]: the counters that the scan reports. *)
Definition record_tier2_block_unreadable (ix : dedup_index) : dedup_index :=
  ix {{ stats -> tier2_blocked_unreadable_body ::= add_u64 1 }}.
Definition record_tier2_block_degenerate (ix : dedup_index) : dedup_index :=
  ix {{ stats -> tier2_blocked_degenerate ::= add_u64 1 }}.
Definition record_tier2_block_crc_suspect (ix : dedup_index) : dedup_index :=
  ix {{ stats -> tier2_blocked_crc_suspect ::= add_u64 1 }}.
Definition record_preview_over_budget (ix : dedup_index) : dedup_index :=
  ix {{ stats -> tier2_preview_bytes_over_budget ::= add_u64 1 }}.
Definition record_inline_attachment_ignored (ix : dedup_index) : dedup_index :=
  ix {{ stats -> inline_attachments_ignored ::= add_u64 1 }}.
Definition record_x500_recipient_item (ix : dedup_index) : dedup_index :=
  ix {{ stats -> x500_recipient_items ::= add_u64 1 }}.
Definition record_strong_hash_attach_unread (ix : dedup_index) : dedup_index :=
  ix {{ stats -> strong_hash_attach_unread ::= add_u64 1 }}.
Definition sat_add_u64 (n x : Z) : Z := Z.min (x + n) (2 ^ 64 - 1).
Definition record_strong_hash_attach_digested (bytes : Z) (ix : dedup_index) : dedup_index :=
  let ix := ix {{ stats -> strong_hash_attach_digested ::= add_u64 1 }} in
  ix {{ stats -> strong_hash_attach_bytes ::= sat_add_u64 bytes }}.
Definition record_strong_hash_attach_truncated (ix : dedup_index) : dedup_index :=
  ix {{ stats -> strong_hash_attach_truncated ::= sat_add_u64 1 }}.
Definition record_strong_hash_embedded_parsed (ix : dedup_index) : dedup_index :=
  ix {{ stats -> strong_hash_embedded_parsed ::= sat_add_u64 1 }}.
Definition record_strong_hash_embedded_depth_limit (ix : dedup_index) : dedup_index :=
  ix {{ stats -> strong_hash_embedded_depth_limit ::= sat_add_u64 1 }}.
Definition record_strong_hash_embedded_unparsed (ix : dedup_index) : dedup_index :=
  ix {{ stats -> strong_hash_embedded_unparsed ::= sat_add_u64 1 }}.

(** ** Lemmas on the maps *)

Lemma or_insert_Some {V} (k j : bstring) (v w : V) (m : gmap bstring V) :
  or_insert k v m !! j = Some w ↔ m !! j = Some w ∨ (j = k ∧ w = v ∧ m !! k = None).
Proof.
  unfold or_insert. destruct (m !! k) as [u|] eqn:E.
  - split; [by left|]. by intros [?|(_ & _ & ?)].
  - rewrite lookup_insert_Some. split.
    + intros [[<- <-]|[_ ?]]; [by right|by left].
    + intros [Hj|(-> & -> & _)]; [|by left]. right. split; [|done]. intros ->. congruence.
Qed.

Lemma or_insert_None {V} (k j : bstring) (v : V) (m : gmap bstring V) :
  or_insert k v m !! j = None ↔ m !! j = None ∧ j ≠ k.
Proof.
  unfold or_insert. destruct (m !! k) as [u|] eqn:E; [split; [|tauto]|].
  - intros Hj. split; [done|]. intros ->. congruence.
  - rewrite lookup_insert_None. naive_solver.
Qed.

Section projections.
Context (ctx : grouping_context).

Lemma insert_unique_mids mid el item ix :
  message_ids (insert_unique ctx mid el item ix) =
  match mid with
  | Some m => <[mid_key (scope ctx) (source_key item) m := item_slot ctx mid item]> (message_ids ix)
  | None => message_ids ix
  end.
Proof. unfold insert_unique. by destruct mid, (tier2_enabled ctx && el). Qed.

Lemma insert_unique_hashes mid el item ix :
  content_hashes (insert_unique ctx mid el item ix) =
  if tier2_enabled ctx && el
  then or_insert (hash_map_key (scope ctx) (source_key item) (item_bind_hash ctx item))
         (item_slot ctx mid item) (content_hashes ix)
  else content_hashes ix.
Proof. unfold insert_unique. by destruct mid, (tier2_enabled ctx && el). Qed.
End projections.

(** ** Counters and originals *)

Lemma add_u64_wrap n x : add_u64 1 (wrap 64 x) = wrap 64 (x + 1) ∧ add_u64 (wrap 64 n) (wrap 64 x) = wrap 64 (x + n).
Proof.
  unfold add_u64, wrap. split.
  - by rewrite Z.add_mod_idemp_l by lia.
  - by rewrite <- Z.add_mod.
Qed.

(** The number of results of each kind. *)
Definition uniques (rs : list dedup_result) : Z := zlen (filter (λ r, is_unique r = true) rs).
Definition duplicates (rs : list dedup_result) : Z := zlen (filter (λ r, is_unique r = false) rs).

Lemma uniques_snoc rs r : uniques (rs ++ [r]) = uniques rs + (if is_unique r then 1 else 0).
Proof.
  unfold uniques. rewrite filter_app, zlen_app. f_equal. rewrite filter_cons.
  destruct (is_unique r); reflexivity.
Qed.
Lemma duplicates_snoc rs r : duplicates (rs ++ [r]) = duplicates rs + (if is_unique r then 0 else 1).
Proof.
  unfold duplicates. rewrite filter_app, zlen_app. f_equal. rewrite filter_cons.
  destruct (is_unique r); reflexivity.
Qed.
Lemma uniques_duplicates rs : uniques rs + duplicates rs = zlen rs.
Proof.
  induction rs as [|r rs IH] using rev_ind; [done|].
  rewrite uniques_snoc, duplicates_snoc, zlen_app. unfold zlen at 2. simpl. destruct (is_unique r); lia.
Qed.

Section counts.
Context (ctx : grouping_context).

(** The message that a slot names is an earlier unique one. *)
Definition first_seen (items : list index_item) (rs : list dedup_result) (k : nat) (r : message_ref) : Prop :=
  ∃ j it, (j < k)%nat ∧ rs !! j = Some Unique ∧ items !! j = Some it ∧ r = item_ref it.

(** The state after the items before [k], with their results. *)
Record counted (items : list index_item) (k : nat) (rs : list dedup_result) (ix : dedup_index) : Prop := {
  ct_len : length rs = k;
  ct_unique : unique_count ix = wrap 64 (uniques rs);
  ct_dup : duplicate_count ix = wrap 64 (duplicates rs);
  ct_hits : add_u64 (tier2_hits ix) (tier1_hits ix) = duplicate_count ix;
  ct_mids : ∀ key slot, message_ids ix !! key = Some slot → first_seen items rs k (slot_ref slot);
  ct_hashes : ∀ key slot, content_hashes ix !! key = Some slot → first_seen items rs k (slot_ref slot);
  ct_orig : ∀ i orig t b, rs !! i = Some (DuplicateOf orig t b) → first_seen items rs i orig }.

(** The counters only. *)
Definition same_counts (ix ix' : dedup_index) : Prop :=
  unique_count ix' = unique_count ix ∧ duplicate_count ix' = duplicate_count ix ∧
  tier1_hits ix' = tier1_hits ix ∧ tier2_hits ix' = tier2_hits ix.

(** Every slot of [ix'] names what some slot of [ix] or the message [r] names. *)
Definition slots_from (P : message_ref → Prop) (ix : dedup_index) : Prop :=
  (∀ key slot, message_ids ix !! key = Some slot → P (slot_ref slot)) ∧
  (∀ key slot, content_hashes ix !! key = Some slot → P (slot_ref slot)).

Lemma check_tier1_cases P mid item ix o ix' :
  slots_from P ix → check_tier1 ctx mid item ix = (o, ix') →
  slots_from P ix' ∧
  match o with
  | None => same_counts ix ix'
  | Some r => ∃ orig, r = DuplicateOf orig TierMessageId MessageId ∧ P orig ∧
      unique_count ix' = unique_count ix ∧ duplicate_count ix' = add_u64 1 (duplicate_count ix) ∧
      tier1_hits ix' = add_u64 1 (tier1_hits ix) ∧ tier2_hits ix' = tier2_hits ix
  end.
Proof.
  intros [H1 H2]. unfold check_tier1. destruct mid as [m|]; [|intros [= <- <-]; by repeat split].
  destruct (message_ids ix !! _) as [slot|] eqn:E; [|intros [= <- <-]; by repeat split].
  destruct (should_split_tier1 ctx slot item); intros [= <- <-]; (split; [by split|]).
  - by repeat split.
  - exists (slot_ref slot). split; [done|]. split; [by eapply H1|]. done.
Qed.

Lemma check_tier2_cases P mid item ix o ix' :
  slots_from P ix → check_tier2 ctx mid item ix = (o, ix') →
  slots_from P ix' ∧
  match o with
  | None => same_counts ix ix'
  | Some r => ∃ orig t b, r = DuplicateOf orig t b ∧ P orig ∧
      unique_count ix' = unique_count ix ∧ duplicate_count ix' = add_u64 1 (duplicate_count ix) ∧
      tier1_hits ix' = tier1_hits ix ∧ tier2_hits ix' = add_u64 1 (tier2_hits ix)
  end.
Proof.
  intros [H1 H2]. unfold check_tier2.
  destruct (content_hashes ix !! _) as [slot|] eqn:E; [|intros [= <- <-]; by repeat split].
  destruct (mid_join_compatible _ _ _) as [[] nb].
  - intros [= <- <-]. pose proof (H2 _ _ E) as HP. split.
    + destruct nb as [m|]; [|by split]. split.
      * intros key s Hs. apply or_insert_Some in Hs as [Hs|(_ & -> & _)]; [by eapply H1|done].
      * intros key s Hs.
        change (<[hash_map_key (scope ctx) (source_key item) (item_bind_hash ctx item) :=
          match bound_mid slot with None => slot {{ bound_mid := Some m }} | Some _ => slot end]>
          (content_hashes ix) !! key = Some s) in Hs.
        apply lookup_insert_Some in Hs as [[_ <-]|[_ Hs]]; [|by eapply H2].
        by destruct (bound_mid slot).
    + exists (slot_ref slot). eexists _, _. split; [done|]. split; [done|].
      unfold join_tier2. by destruct nb.
  - destruct (note_cross_mid _ _ _ _ _ _) as [[seen cl] s]. intros [= <- <-]. by repeat split.
Qed.

Lemma insert_unique_cases P mid el item ix :
  slots_from P ix → P (item_ref item) →
  slots_from P (insert_unique ctx mid el item ix) ∧
  unique_count (insert_unique ctx mid el item ix) = add_u64 1 (unique_count ix) ∧
  duplicate_count (insert_unique ctx mid el item ix) = duplicate_count ix ∧
  tier1_hits (insert_unique ctx mid el item ix) = tier1_hits ix ∧
  tier2_hits (insert_unique ctx mid el item ix) = tier2_hits ix.
Proof.
  intros [H1 H2] HP. split.
  - split.
    + intros key s. rewrite insert_unique_mids. destruct mid as [m|]; [|apply H1].
      intros [[_ <-]|[_ Hs]]%lookup_insert_Some; [exact HP|by eapply H1].
    + intros key s. rewrite insert_unique_hashes. destruct (tier2_enabled ctx && el); [|apply H2].
      intros [Hs|(_ & -> & _)]%or_insert_Some; [by eapply H2|exact HP].
  - unfold insert_unique. by destruct mid, (tier2_enabled ctx && el).
Qed.

Lemma first_seen_mono items rs r k k' o :
  (k <= k')%nat → first_seen items rs k o → first_seen items (rs ++ [r]) k' o.
Proof.
  intros Hk (j & it & ? & Hj & ? & ?). exists j, it. split; [lia|]. split; [|done].
  rewrite lookup_app_l; [done|]. by eapply lookup_lt_Some.
Qed.

Lemma counted_step items k rs ix item r ix' :
  counted items k rs ix → items !! k = Some item → check_and_insert_item ctx item ix = (r, ix') →
  counted items (S k) (rs ++ [r]) ix'.
Proof.
  intros [Hl Hu Hd Hh Hm Hc Ho] Hk. unfold check_and_insert_item.
  set (mid := mid_present (message_id item)).
  set (P := first_seen items (rs ++ [r]) (S k)).
  assert (slots_from P ix) as HP.
  { split; intros key slot Hs; eapply first_seen_mono; [|by eapply Hm| |by eapply Hc]; lia. }
  assert (∀ o, first_seen items rs k o → first_seen items (rs ++ [r]) k o) as Hmono.
  { intros o. by apply first_seen_mono. }
  assert (length (rs ++ [r]) = S k) as Hl' by (rewrite length_app; simpl; lia).
  assert (∀ i orig t b, (∀ orig t b, r = DuplicateOf orig t b → first_seen items rs k orig) →
    (rs ++ [r]) !! i = Some (DuplicateOf orig t b) → first_seen items (rs ++ [r]) i orig) as Ho'.
  { intros i orig t b Hr Hi. destruct (decide (i < k)%nat).
    - rewrite lookup_app_l in Hi by lia. apply first_seen_mono with i; [lia|]. by eapply Ho.
    - assert (i = k) as -> by (apply lookup_lt_Some in Hi; lia).
      rewrite lookup_app_r, Hl, Nat.sub_diag in Hi by lia. injection Hi as ->.
      apply Hmono. by eapply Hr. }
  destruct (check_tier1 ctx mid item ix) as [o1 ix1] eqn:E1.
  destruct (check_tier1_cases (first_seen items rs k) _ _ _ _ _ (conj Hm Hc) E1) as [_ H1].
  destruct (check_tier1_cases P _ _ _ _ _ HP E1) as [HP1 _].
  destruct o1 as [r1|].
  { intros [= -> ->]. destruct H1 as (orig & -> & Ho1 & Eu & Ed & E1' & E2').
    split; [done| | | |apply HP1|apply HP1|].
    - by rewrite Eu, Hu, uniques_snoc, Z.add_0_r.
    - by rewrite Ed, Hd, duplicates_snoc, (proj1 (add_u64_wrap 0 _)).
    - rewrite Ed, E1', E2', <- Hh. unfold add_u64, wrap. rewrite !Z.add_mod_idemp_l by lia. f_equal. lia.
    - intros. eapply Ho'; [|done]. intros ? ? ? [= <- _ _]. done. }
  assert (∃ o2 ix2, (if tier2_enabled ctx && (tier2_eligible item || negb (enforce_readable_body ctx))
    then check_tier2 ctx mid item ix1 else (None, ix1)) = (o2, ix2) ∧ slots_from P ix2 ∧
    match o2 with
    | None => same_counts ix1 ix2
    | Some r => ∃ orig t b, r = DuplicateOf orig t b ∧ first_seen items rs k orig ∧
      unique_count ix2 = unique_count ix1 ∧ duplicate_count ix2 = add_u64 1 (duplicate_count ix1) ∧
      tier1_hits ix2 = tier1_hits ix1 ∧ tier2_hits ix2 = add_u64 1 (tier2_hits ix1)
    end) as (o2 & ix2 & -> & HP2 & H2).
  { destruct (check_tier1_cases (first_seen items rs k) _ _ _ _ _ (conj Hm Hc) E1) as [HS1 _].
    destruct (_ && _); [|by exists None, ix1].
    destruct (check_tier2 ctx mid item ix1) as [o2 ix2] eqn:E2. exists o2, ix2. split; [done|].
    destruct (check_tier2_cases P _ _ _ _ _ HP1 E2) as [HP2 _]. split; [done|].
    by destruct (check_tier2_cases (first_seen items rs k) _ _ _ _ _ HS1 E2) as [_ H2]. }
  destruct H1 as (A1 & A2 & A3 & A4). destruct o2 as [r2|].
  - intros [= -> ->]. destruct H2 as (orig & t & b & -> & Ho2 & Eu & Ed & E1' & E2').
    split; [done| | | |apply HP2|apply HP2|].
    + by rewrite Eu, A1, Hu, uniques_snoc, Z.add_0_r.
    + by rewrite Ed, A2, Hd, duplicates_snoc, (proj1 (add_u64_wrap 0 _)).
    + rewrite Ed, E1', E2', A2, A3, A4, <- Hh. unfold add_u64, wrap.
      rewrite Z.add_mod_idemp_l, Z.add_mod_idemp_r by lia. f_equal. lia.
    + intros. eapply Ho'; [|done]. intros ? ? ? [= <- _ _]. done.
  - intros [= <- <-]. destruct H2 as (B1 & B2 & B3 & B4).
    destruct (insert_unique_cases P mid (tier2_eligible item || negb (enforce_readable_body ctx)) item ix2 HP2)
      as (HP3 & C1 & C2 & C3 & C4).
    { exists k, item. split; [lia|]. split; [|done]. by rewrite lookup_app_r, Hl, Nat.sub_diag by lia. }
    split; [done| | | |apply HP3|apply HP3|].
    + by rewrite C1, B1, A1, Hu, uniques_snoc, (proj1 (add_u64_wrap 0 _)).
    + by rewrite C2, B2, A2, Hd, duplicates_snoc, Z.add_0_r.
    + by rewrite C2, C3, C4, B2, B3, B4, A2, A3, A4.
    + intros. eapply Ho'; [|done]. done.
Qed.

Lemma check_all_snoc l item ix rs ix1 r ix2 :
  check_all ctx l ix = (rs, ix1) → check_and_insert_item ctx item ix1 = (r, ix2) →
  check_all ctx (l ++ [item]) ix = (rs ++ [r], ix2).
Proof.
  revert ix rs. induction l as [|i0 l IH]; intros ix rs; simpl.
  - intros [= <- ->] ->. done.
  - destruct (check_and_insert_item ctx i0 ix) as [r0 ix0].
    destruct (check_all ctx l ix0) as [rs0 ix3] eqn:E. intros [= <- <-] Hs.
    by rewrite (IH _ _ E Hs).
Qed.

(** The index counts exactly: after any sequence of messages the unique and
    duplicate counters are the numbers of unique and duplicate results, their
    total is the number of messages (all modulo 2^64), and the hits of the two
    tiers add up to the duplicates.  A duplicate always names a message that was
    reported unique before it, never another duplicate. *)
Theorem index_counts items rs ix :
  check_all ctx items empty_index = (rs, ix) →
  length rs = length items ∧
  unique_count ix = wrap 64 (uniques rs) ∧ duplicate_count ix = wrap 64 (duplicates rs) ∧
  total ix = wrap 64 (zlen items) ∧ add_u64 (tier2_hits ix) (tier1_hits ix) = duplicate_count ix ∧
  ∀ i orig t b, rs !! i = Some (DuplicateOf orig t b) →
    ∃ j it, (j < i)%nat ∧ rs !! j = Some Unique ∧ items !! j = Some it ∧ orig = item_ref it.
Proof.
  intros E.
  assert (∀ k, (k <= length items)%nat → ∃ rs ix, check_all ctx (take k items) empty_index = (rs, ix) ∧
    counted items k rs ix) as Hgo.
  { induction k as [|k IH]; intros Hk.
    - exists [], empty_index. split; [done|]. split; [done..| | |done].
      + intros key slot Hs. change (message_ids _) with (∅ : gmap bstring group_slot) in Hs. by rewrite lookup_empty in Hs.
      + intros key slot Hs. change (content_hashes _) with (∅ : gmap bstring group_slot) in Hs. by rewrite lookup_empty in Hs.
    - destruct (IH ltac:(lia)) as (rs0 & ix0 & E0 & Hct).
      destruct (lookup_lt_is_Some_2 items k ltac:(lia)) as [item Hitem].
      destruct (check_and_insert_item ctx item ix0) as [r ix1] eqn:E1.
      exists (rs0 ++ [r]), ix1. rewrite (take_S_r _ _ _ Hitem). split; [by eapply check_all_snoc|].
      by eapply counted_step. }
  destruct (Hgo (length items) ltac:(lia)) as (rs' & ix' & E' & [Hl Hu Hd Hh _ _ Ho]).
  rewrite firstn_all, E in E'. injection E' as <- <-.
  split; [done|]. split; [done|]. split; [done|]. split; [|split; [done|exact Ho]].
  unfold total. rewrite Hu, Hd, (proj2 (add_u64_wrap _ _)), uniques_duplicates. unfold zlen. by rewrite Hl.
Qed.
End counts.

Lemma index_counts_witness :
  let items := [classic None [] {| pst_index := 0; pst_name := []; folder_path := []; nid := 1;
                  subject := []; ref_submit_time := None; sender := []; ref_size := 0 |}] in
  length (check_all default_context items empty_index).1 = 1%nat.
Proof.
  intros items. apply (index_counts default_context items _ (check_all default_context items empty_index).2).
  apply surjective_pairing.
Defined.
