(* ===== verification/KeepGroup.v ===== *)
(** * Collect-all grouping (dedup-engine/src/keepset.rs, group_candidates_with_stats)

    The keep-set path groups all candidates in one pass over the scan order, with
    the rules of the streaming index, and then runs the backfill pass over the
    finished groups.  An index out of range is a panic. *)

From stdpp Require Import sorting.
From S2P Require Import Prelude UnionFind Text Recipient Grouping DedupIndex.
#[local] Open Scope Z_scope.

Inductive integrity_reason :=
| OpenFailed | AnsiUnsupported | UnsupportedCrypt | FolderWalkFailed | CrcMismatch
| CrcSuspect | BlockNotFound | NodeNotFound | DataTruncated | BodyTruncated
| BodyUnavailable | OrphanedNode | InvalidStructure | PropertyError | MessageReadFailed
| AttachMetaFailed | AttachStreamOpenFailed | AttachStreamReadFailed | AttachStreamCrc
| AttachBlockNotFound | AttachDataTruncated | AttachMethodUnsupported | AttachCloudLink
| AttachProbeTruncated | AttachProbeTimeout | AttachPeerProbeCap | PathNotFound | NotPst
| ReadError.
#[export] Instance integrity_reason_eq_dec : EqDecision integrity_reason.
Proof. solve_decision. Defined.

(** [struct RecoverableIntegrity] *)
Record recoverable_integrity := {
  integrity_is_orphaned : bool; degraded : bool; degraded_reasons : list integrity_reason }.

(** [RecoverableIntegrity::with_degraded] *)
Definition with_degraded (reasons : list integrity_reason) (is_orphaned : bool)
    : recoverable_integrity :=
  let deg := negb (bool_decide (reasons = [])) || is_orphaned in
  let rs := if is_orphaned && negb (bool_decide (OrphanedNode ∈ reasons))
            then reasons ++ [OrphanedNode] else reasons in
  {| integrity_is_orphaned := is_orphaned;
     degraded := deg || negb (bool_decide (rs = [])); degraded_reasons := rs |}.

(** [struct MessageLocus] *)
Record message_locus := {
  source_path : bstring; source_pst : bstring; locus_folder_path : bstring; locus_nid : Z;
  is_orphaned : bool }.

(** [struct RecoverableScanItem]; the full-body digest is read by no function here. *)
Record scan_item := {
  locus : message_locus;
  message_id_norm : option bstring;
  scan_content_hash : bstring;
  scan_size : Z;
  integrity : recoverable_integrity;
  scan_order : Z;
  submit_time : option Z;
  delivery_time : option Z;
  has_bcc : bool;
  has_body_preview : bool;
  subject_nonempty : bool;
  sender_nonempty : bool;
  attach_count : Z;
  display_to : option bstring;
  display_cc : option bstring;
  display_bcc : option bstring;
  scan_strong_content_hash : option bstring;
  scan_fps : fingerprints;
  preview_bytes_over_budget : bool }.

(** [path_compare_key] *)
Definition path_compare_key `{Platform} (path : bstring) : bstring :=
  if windows then str_to_lowercase path else path.
Definition path_key `{Platform} (item : scan_item) : bstring :=
  path_compare_key (source_path (locus item)).

(** [RecoverableScanItem::assess_tier2_eligibility]; [None] is [Ok(())]. *)
Definition assess_tier2_eligibility (item : scan_item) : option ineligible_reason :=
  let reasons := degraded_reasons (integrity item) in
  if bool_decide (CrcSuspect ∈ reasons) then Some CrcSuspectBody
  else
    tier2_eligibility (bool_decide (BodyTruncated ∈ reasons))
      (bool_decide (BodyUnavailable ∈ reasons)) (has_body_preview item)
      (subject_nonempty item) (bool_decide (is_Some (submit_time item)))
      (sender_nonempty item) (attach_count item).

(** [recipient_has_x500] *)
Definition recipient_has_x500 (s : bstring) : bool := looks_like_x500_dn s.

Definition recipient_strings_have_x500 (item : scan_item) : bool :=
  is_some_and recipient_has_x500 (display_to item)
  || is_some_and recipient_has_x500 (display_cc item)
  || is_some_and recipient_has_x500 (display_bcc item).

(** The mutable locals of [group_candidates_with_stats]. *)
Record group_state := {
  groups : list (list nat);
  group_bound_mid : list (option bstring);
  group_fp : list fingerprints;
  group_bind_hash : list bstring;
  mid_to_group : gmap bstring nat;
  hash_to_group : gmap bstring nat;
  item_bound_by : list bound_by;
  item_eligible : list bool;
  group_stats : grouping_stats;
  seen_hashes : gset bstring;
  clusters : gmap bstring (gset bstring) }.

Definition init_groups (n : nat) : group_state := {|
  groups := []; group_bound_mid := []; group_fp := []; group_bind_hash := [];
  mid_to_group := ∅; hash_to_group := ∅;
  item_bound_by := replicate n Seed; item_eligible := replicate n true;
  group_stats := default_stats; seen_hashes := ∅; clusters := ∅ |}.

(** [struct GroupingOutcome] *)
Record grouping_outcome := {
  out_groups : list (list nat); out_bound_by : list bound_by; out_eligible : list bool;
  out_stats : grouping_stats }.

(** [groups[gid].push(i)] *)
Definition push_at {A} (gid : nat) (a : A) (l : list (list A)) : total_res (list (list A)) :=
  g ← get_at l gid; Ok (<[gid := g ++ [a]]> l).

Section grouping.
Context `{Platform} (ctx : grouping_context).

Definition scan_bind_hash (item : scan_item) : bstring :=
  tier2_bind_hash (Grouping.identity ctx) (scan_content_hash item) (scan_strong_content_hash item).

(** The eligibility of an item under the guards, with the counter of the guard
    that blocks it.  [rebuild_dedup_results_with_ctx] of the scan runs the same code. *)
Definition eligibility (item : scan_item) (s : grouping_stats) : bool * grouping_stats :=
  match assess_tier2_eligibility item with
  | None => (true, s)
  | Some UnreadableBody =>
      if enforce_readable_body ctx then (false, s {{ tier2_blocked_unreadable_body ::= add_u64 1 }})
      else (true, s)
  | Some Degenerate =>
      if enforce_readable_body ctx then (false, s {{ tier2_blocked_degenerate ::= add_u64 1 }})
      else (true, s)
  | Some CrcSuspectBody =>
      if allow_crc_suspect_tier2_for ctx (path_key item) then (true, s)
      else (false, s {{ tier2_blocked_crc_suspect ::= add_u64 1 }})
  end.

Definition item_mid (item : scan_item) : option bstring := mid_present (message_id_norm item).
Definition item_mid_key (item : scan_item) (m : bstring) : bstring :=
  mid_key (scope ctx) (path_key item) m.
Definition item_hash_key (item : scan_item) : bstring :=
  hash_map_key (scope ctx) (path_key item) (scan_bind_hash item).

(** Tier 1: the group of the item's Message-ID, unless verification splits. *)
Definition find_tier1 (item : scan_item) (st : group_state)
    : total_res (option (nat * bound_by) * group_state) :=
  match item_mid item ≫= λ m, mid_to_group st !! item_mid_key item m with
  | None => Ok (None, st)
  | Some gid =>
      fp ← get_at (group_fp st) gid;
      let st := st {{ group_stats ::= note_divergence fp (scan_fps item) }} in
      split ← match verify ctx with
              | VerifyOff => Ok false
              | VerifyContent =>
                  h ← get_at (group_bind_hash st) gid;
                  Ok (negb (bool_decide (scan_bind_hash item = h)))
              | VerifyBody => Ok (negb (fp_body (scan_fps item) =? fp_body fp))
              end;
      Ok (if split : bool then None else Some (gid, MessageId), st)
  end.

(** Tier 2: the group of the item's hash, if the Message-IDs are compatible. *)
Definition find_tier2 (item : scan_item) (st : group_state)
    : total_res (option (nat * bound_by) * group_state) :=
  let hkey := item_hash_key item in
  match hash_to_group st !! hkey with
  | None => Ok (None, st)
  | Some gid =>
      gmid ← get_at (group_bound_mid st) gid;
      let '(ok, new_bound) := mid_join_compatible gmid (item_mid item) (block_cross_mid ctx) in
      if ok then
        let st := match new_bound, gmid with
                  | Some nb, None =>
                      st {{ group_bound_mid ::= insert gid (Some nb);
                            mid_to_group ::= or_insert (item_mid_key item nb) gid }}
                  | _, _ => st
                  end in
        Ok (Some (gid, bound_by_for_tier2 (Grouping.identity ctx)), st)
      else
        let '(seen, cluster, s) :=
          note_cross_mid hkey gmid (item_mid item) (seen_hashes st) (clusters st) (group_stats st) in
        Ok (None, st {{ seen_hashes := seen; clusters := cluster; group_stats := s }})
  end.

(** The item starts a new group. *)
Definition new_group (i : nat) (eligible : bool) (item : scan_item) (st : group_state)
    : group_state :=
  let gid := length (groups st) in
  let st := st {{ groups ::= λ l, l ++ [[i]];
                  group_bound_mid ::= λ l, l ++ [item_mid item];
                  group_fp ::= λ l, l ++ [scan_fps item];
                  group_bind_hash ::= λ l, l ++ [scan_bind_hash item];
                  item_bound_by ::= insert i Seed }} in
  let st := match item_mid item with
            | Some m => st {{ mid_to_group ::= insert (item_mid_key item m) gid }}
            | None => st
            end in
  if tier2_enabled ctx && eligible
  then st {{ hash_to_group ::= or_insert (item_hash_key item) gid }}
  else st.

(** The two tiers: where the item is bound, if anywhere. *)
Definition find_group (eligible : bool) (item : scan_item) (st : group_state)
    : total_res (option (nat * bound_by) * group_state) :=
  '(found, st) ← find_tier1 item st;
  match found with
  | Some _ => Ok (found, st)
  | None => if tier2_enabled ctx && eligible then find_tier2 item st else Ok (None, st)
  end.

(** One iteration of the loop of [group_candidates_with_stats]. *)
Definition group_step (i : nat) (item : scan_item) (st : group_state) : total_res group_state :=
  let st := if preview_bytes_over_budget item
            then st {{ group_stats -> tier2_preview_bytes_over_budget ::= add_u64 1 }} else st in
  let '(eligible, s) := eligibility item (group_stats st) in
  let st := st {{ group_stats := s; item_eligible ::= insert i eligible }} in
  '(found, st) ← find_group eligible item st;
  st ← match found with
       | Some (gid, b) =>
           gs ← push_at gid i (groups st);
           Ok (st {{ groups := gs; item_bound_by ::= insert i b }})
       | None => Ok (new_group i eligible item st)
       end;
  Ok (if recipient_strings_have_x500 item
      then st {{ group_stats -> x500_recipient_items ::= add_u64 1 }} else st).

(** The loop, from item number [i] on. *)
Fixpoint group_loop (i : nat) (items : list scan_item) (st : group_state) : total_res group_state :=
  match items with
  | [] => Ok st
  | item :: items => st ← group_step i item st; group_loop (S i) items st
  end.
End grouping.

(** ** The passes after the loop *)

(** [item_gid[i]]: the group of item [i], 0 where no group lists it. *)
Definition item_gid (n : nat) (gs : list (list nat)) : list nat :=
  (fix go (gid : nat) (gs : list (list nat)) (acc : list nat) : list nat :=
     match gs with
     | [] => acc
     | g :: gs => go (S gid) gs (foldl (λ acc i, <[i := gid]> acc) acc g)
     end) 0%nat gs (replicate n 0%nat).

(** [for (i, item) in items.iter().enumerate() { m.entry(key).or_default().push(i) }],
    for the items that [sel] selects. *)
Definition index_by {K} `{Countable K} (key : scan_item → K) (sel : nat → bool)
    (items : list scan_item) : gmap K (list nat) :=
  (fix go (i : nat) (items : list scan_item) (m : gmap K (list nat)) : gmap K (list nat) :=
     match items with
     | [] => m
     | item :: items =>
         go (S i) items
           (if sel i then <[key item := default [] (m !! key item) ++ [i]]> m else m)
     end) 0%nat items ∅.

(** The order in which a [HashMap] yields its values is not specified: any
    rearrangement of them. *)
Record hash_order := {
  reorder : list (list nat) → list (list nat);
  reorder_perm : ∀ l, reorder l ≡ₚ l }.
Definition map_values {K} `{Countable K} (order : hash_order) (m : gmap K (list nat)) : list (list nat) :=
  reorder order ((map_to_list m).*2).

(** [sort_unstable(); dedup()] on indices *)
Definition sort_dedup (l : list nat) : list nat := merge_sort Nat.le (remove_dups l).

(** The pairs [(gids[i], gids[j])] with [i < j]. *)
Fixpoint all_pairs (l : list nat) : list (nat * nat) :=
  match l with [] => [] | x :: l => map (λ y, (x, y)) l ++ all_pairs l end.

Section passes.
Context `{Platform} (ctx : grouping_context) (order : hash_order).

(** The key of the backfill candidates: scope and v1 content hash. *)
Definition backfill_key (item : scan_item) : bstring * bstring :=
  (match scope ctx with Global => [] | PerSource => path_key item end, scan_content_hash item).

(** Whether the pass unites two groups: a real MID is involved and the bound
    MIDs of the two groups are compatible. *)
Definition backfill_edge (bounds : list (option bstring)) (ga gb : nat) : bool :=
  let ma := bounds !! ga ≫= id in
  let mb := bounds !! gb ≫= id in
  (bool_decide (is_Some (mid_present ma)) || bool_decide (is_Some (mid_present mb)))
  && (mid_join_compatible ma mb true).1.

(** The pairs of groups that the pass unites, in the order of the loops. *)
Definition backfill_edges (items : list scan_item) (gs : list (list nat))
    (bounds : list (option bstring)) : list (nat * nat) :=
  let gids := item_gid (length items) gs in
  values ← map_values order (index_by backfill_key (λ _, true) items);
  filter (λ e, backfill_edge bounds e.1 e.2 = true)
    (all_pairs (sort_dedup (omap (λ i, gids !! i) values))).

(** The rebuilt groups: old groups in order, appended to the group of their root. *)
Record rebuilt := {
  re_parent : list nat; root_to_new : gmap nat nat;
  new_groups : list (list nat); new_bounds : list (option bstring) }.

(** The new group of a root, created when the root is met for the first time. *)
Definition new_group_of (bounds : list (option bstring)) (root : nat) (r : rebuilt) : nat * rebuilt :=
  match root_to_new r !! root with
  | Some ngid => (ngid, r)
  | None =>
      let ngid := length (new_groups r) in
      (ngid, r {{ root_to_new ::= insert root ngid;
                  new_groups ::= λ l, l ++ [[]];
                  new_bounds ::= λ l, l ++ [bounds !! root ≫= id] }})
  end.

Definition rebuild_step (bounds : list (option bstring)) (old_gid : nat) (members : list nat)
    (r : rebuilt) : total_res rebuilt :=
  '(root, par) ← find (S (length (re_parent r))) (re_parent r) old_gid;
  let '(ngid, r) := new_group_of bounds root (r {{ re_parent := par }}) in
  g ← get_at (new_groups r) ngid;
  let r := r {{ new_groups ::= insert ngid (g ++ members) }} in
  b ← get_at (new_bounds r) ngid;
  Ok (match mid_present b, mid_present (bounds !! old_gid ≫= id) with
      | None, Some m => r {{ new_bounds ::= insert ngid (Some m) }}
      | _, _ => r
      end).

Fixpoint rebuild (bounds : list (option bstring)) (old_gid : nat) (gs : list (list nat))
    (r : rebuilt) : total_res rebuilt :=
  match gs with
  | [] => Ok r
  | g :: gs => r ← rebuild_step bounds old_gid g r; rebuild bounds (S old_gid) gs r
  end.

(** The provenance of one member of a merged group whose tag is still [Seed]. *)
Definition reclassify_member (items : list scan_item) (seed_mid : option bstring) (idx : nat)
    (b : list bound_by) : list bound_by :=
  match b !! idx with
  | Some Seed =>
      let member_mid := items !! idx ≫= message_id_norm in
      let mid_match := match mid_present seed_mid, mid_present member_mid with
                       | Some a, Some b => bool_decide (a = b)
                       | _, _ => false
                       end in
      <[idx := if mid_match then MessageId else bound_by_for_tier2 (Grouping.identity ctx)]> b
  | _ => b
  end.

Definition reclassify_group (items : list scan_item) (b : list bound_by) (g : list nat)
    : list bound_by :=
  match g with
  | [] => b
  | seed :: rest =>
      foldl (λ b idx, reclassify_member items (items !! seed ≫= message_id_norm) idx b)
        (<[seed := Seed]> b) rest
  end.

(** [apply_tier1_backfill_pass] *)
Definition apply_tier1_backfill_pass (items : list scan_item) (st : group_state)
    : total_res group_state :=
  let ng := length (groups st) in
  if decide (ng = 0%nat ∨ items = []) then Ok st
  else
    '(unions, uf) ← unite_all bump_saturating
       (backfill_edges items (groups st) (group_bound_mid st)) (uf_new ng) 0;
    let st := st {{ group_stats -> tier1_backfill_candidates ::= add_u64 unions }} in
    if negb (tier1_backfill ctx) || (unions =? 0) then Ok st
    else
      r ← rebuild (group_bound_mid st) 0%nat (groups st)
            {| re_parent := parent uf; root_to_new := ∅; new_groups := []; new_bounds := [] |};
      let sorted := map (merge_sort Nat.le) (new_groups r) in
      Ok (st {{ groups := sorted; group_bound_mid := new_bounds r;
                item_bound_by := foldl (reclassify_group items) (item_bound_by st) sorted }}).

(** [recip_display_eq] *)
Definition recip_display_eq (a b : option bstring) : bool :=
  match a, b with
  | None, None => true
  | Some x, Some y => bool_decide (normalize_recipients x = normalize_recipients y)
  | _, _ => false
  end.

(** The counters for one pair of consecutive representatives of a v1 family. *)
Definition attribute_pair (a b : scan_item) (s : grouping_stats) : grouping_stats :=
  let fa := scan_fps a in let fb := scan_fps b in
  if (fp_body fa =? fp_body fb) && (fp_header fa =? fp_header fb)
     && (fp_attachments fa =? fp_attachments fb) && negb (fp_recipients fa =? fp_recipients fb)
  then
    let s := s {{ tier2_5_splits_recipients_only ::= add_u64 1 }} in
    let bcc_diff := negb (recip_display_eq (display_bcc a) (display_bcc b))
                    || negb (eqb (has_bcc a) (has_bcc b)) in
    if recip_display_eq (display_to a) (display_to b)
       && recip_display_eq (display_cc a) (display_cc b) && bcc_diff
    then s {{ tier2_5_splits_bcc_only ::= add_u64 1 }} else s
  else s.

Fixpoint attribute_windows (reps : list scan_item) (s : grouping_stats) : grouping_stats :=
  match reps with
  | a :: (b :: _) as reps' => attribute_windows reps' (attribute_pair a b s)
  | _ => s
  end.

(** The first item of each group, in item order. *)
Fixpoint representatives (gids : list nat) (idxs : list nat) (seen : list nat) : list nat :=
  match idxs with
  | [] => []
  | i :: idxs =>
      match gids !! i with
      | Some g => if decide (g ∈ seen) then representatives gids idxs seen
                  else i :: representatives gids idxs (g :: seen)
      | None => representatives gids idxs seen
      end
  end.

(** [attribute_tier2_5_splits] *)
Definition attribute_tier2_5_splits (items : list scan_item) (gs : list (list nat))
    (eligible : list bool) (s : grouping_stats) : grouping_stats :=
  let gids := item_gid (length items) gs in
  foldl (λ s idxs,
      let reps := representatives gids idxs [] in
      if decide (length reps <= 1)%nat then s
      else attribute_windows (omap (λ i, items !! i) reps)
             (s {{ tier2_5_splits ::= add_u64 (Z.of_nat (length reps) - 1) }}))
    s (map_values order
         (index_by scan_content_hash (λ i, default true (eligible !! i)) items)).

(** [group_candidates_with_stats] *)
Definition group_candidates_with_stats (items : list scan_item) : total_res grouping_outcome :=
  st ← group_loop ctx 0 items (init_groups (length items));
  st ← apply_tier1_backfill_pass items st;
  let s := if is_strong (Grouping.identity ctx)
           then attribute_tier2_5_splits items (groups st) (item_eligible st) (group_stats st)
           else group_stats st in
  Ok {| out_groups := groups st; out_bound_by := item_bound_by st;
        out_eligible := item_eligible st; out_stats := s |}.
End passes.
