(* ===== verification/GroupInv.v ===== *)
(** * The grouping loop as a step relation (keepset.rs)

    One iteration binds the item by Message-ID, binds it by content hash, or
    starts a group.  [group_step] never panics and takes exactly one of these
    steps; the invariants of the later files are proved on the steps. *)

From Stdlib Require Import Sorted.
From stdpp Require Import sorting.
From S2P Require Import Prelude UnionFind Text Recipient Grouping DedupIndex KeepGroup.
#[local] Open Scope Z_scope.

Section steps.
Context `{Platform} (ctx : grouping_context).

(** Every index that the state holds is a group number. *)
Record indices_ok (n : nat) (st : group_state) : Prop := {
  io_bound : length (group_bound_mid st) = length (groups st);
  io_fp : length (group_fp st) = length (groups st);
  io_hash : length (group_bind_hash st) = length (groups st);
  io_mids : ∀ k gid, mid_to_group st !! k = Some gid → (gid < length (groups st))%nat;
  io_hashes : ∀ k gid, hash_to_group st !! k = Some gid → (gid < length (groups st))%nat;
  io_by : length (item_bound_by st) = n;
  io_el : length (item_eligible st) = n }.

(** The eligibility of an item without the counters. *)
Definition eligible (item : scan_item) : bool := (eligibility ctx item default_stats).1.

Lemma eligibility_fst item s : (eligibility ctx item s).1 = eligible item.
Proof. unfold eligible, eligibility. repeat case_match; done. Qed.

(** Whether Message-ID verification separates the item from a group. *)
Definition tier1_split (item : scan_item) (st : group_state) (gid : nat) : Prop :=
  match verify ctx with
  | VerifyOff => False
  | VerifyContent => group_bind_hash st !! gid ≠ Some (scan_bind_hash ctx item)
  | VerifyBody => fp_body <$> (group_fp st !! gid) ≠ Some (fp_body (scan_fps item))
  end.

(** The group that Tier 1 binds to. *)
Definition tier1_hit (item : scan_item) (st : group_state) (gid : nat) : Prop :=
  ∃ m, item_mid item = Some m ∧ mid_to_group st !! item_mid_key ctx item m = Some gid ∧
       ¬ tier1_split item st gid.

(** The group that Tier 2 binds to, with the group's MID before the join. *)
Definition tier2_hit (item : scan_item) (st : group_state) (gid : nat) (gmid : option bstring) : Prop :=
  tier2_enabled ctx = true ∧ eligible item = true ∧
  hash_to_group st !! item_hash_key ctx item = Some gid ∧
  group_bound_mid st !! gid = Some gmid ∧
  (mid_join_compatible gmid (item_mid item) (block_cross_mid ctx)).1 = true.

(** The group's MID and the MID map after a Tier-2 join. *)
Definition adopt (item : scan_item) (gid : nat) (gmid : option bstring) (st : group_state)
    : list (option bstring) * gmap bstring nat :=
  match gmid, item_mid item with
  | None, Some m => (<[gid := Some m]> (group_bound_mid st),
                     or_insert (item_mid_key ctx item m) gid (mid_to_group st))
  | _, _ => (group_bound_mid st, mid_to_group st)
  end.

(** The effect of item [i] joining group [gid]. *)
Definition joined (i gid : nat) (b : bound_by) (st st' : group_state) : Prop :=
  ∃ g, groups st !! gid = Some g ∧ groups st' = <[gid := g ++ [i]]> (groups st) ∧
       group_fp st' = group_fp st ∧ group_bind_hash st' = group_bind_hash st ∧
       hash_to_group st' = hash_to_group st ∧ item_bound_by st' = <[i := b]> (item_bound_by st).

(** What one iteration does to the groups. *)
Inductive bind_step (i : nat) (item : scan_item) (st st' : group_state) : Prop :=
| step_tier1 gid :
    tier1_hit item st gid →
    joined i gid MessageId st st' →
    group_bound_mid st' = group_bound_mid st → mid_to_group st' = mid_to_group st →
    bind_step i item st st'
| step_tier2 gid gmid :
    (∀ gid, ¬ tier1_hit item st gid) →
    tier2_hit item st gid gmid →
    joined i gid (bound_by_for_tier2 (Grouping.identity ctx)) st st' →
    (group_bound_mid st', mid_to_group st') = adopt item gid gmid st →
    bind_step i item st st'
| step_new :
    (∀ gid, ¬ tier1_hit item st gid) →
    (∀ gid gmid, ¬ tier2_hit item st gid gmid) →
    groups st' = groups st ++ [[i]] →
    group_bound_mid st' = group_bound_mid st ++ [item_mid item] →
    group_fp st' = group_fp st ++ [scan_fps item] →
    group_bind_hash st' = group_bind_hash st ++ [scan_bind_hash ctx item] →
    mid_to_group st' = match item_mid item with
                       | Some m => <[item_mid_key ctx item m := length (groups st)]> (mid_to_group st)
                       | None => mid_to_group st
                       end →
    hash_to_group st' = (if tier2_enabled ctx && eligible item
                         then or_insert (item_hash_key ctx item) (length (groups st)) (hash_to_group st)
                         else hash_to_group st) →
    item_bound_by st' = <[i := Seed]> (item_bound_by st) →
    bind_step i item st st'.

(** The part of the state that binding reads and writes. *)
Definition same_core (st st' : group_state) : Prop :=
  groups st' = groups st ∧ group_bound_mid st' = group_bound_mid st ∧
  group_fp st' = group_fp st ∧ group_bind_hash st' = group_bind_hash st ∧
  mid_to_group st' = mid_to_group st ∧ hash_to_group st' = hash_to_group st ∧
  item_bound_by st' = item_bound_by st ∧ item_eligible st' = item_eligible st.

Lemma lookup_of_lt {A} (l : list A) i : (i < length l)%nat → ∃ a, l !! i = Some a.
Proof. apply lookup_lt_is_Some. Qed.

Lemma get_at_lt {E A} (l : list A) i : (i < length l)%nat → ∃ a, l !! i = Some a ∧ get_at l i = Ok a :> res E A.
Proof. intros [a Ha]%lookup_of_lt. exists a. unfold get_at. by rewrite Ha. Qed.

Lemma bind_hash_stats (st : group_state) f :
  group_bind_hash (st {{ group_stats ::= f }}) = group_bind_hash st.
Proof. reflexivity. Qed.

Lemma find_tier1_spec n item st :
  indices_ok n st →
  ∃ found st', find_tier1 ctx item st = Ok (found, st') ∧ same_core st st' ∧
    match found with
    | Some (gid, b) => tier1_hit item st gid ∧ b = MessageId
    | None => ∀ gid, ¬ tier1_hit item st gid
    end.
Proof.
  intros Hok. unfold find_tier1.
  destruct (item_mid item ≫= _) as [gid|] eqn:Hl.
  - apply bind_Some in Hl as (m & Hm & Hl). pose proof (io_mids _ _ Hok _ _ Hl) as Hlt.
    destruct (get_at_lt (E := Empty_set) (group_fp st) gid) as (fp & Hfp & ->).
    { by rewrite (io_fp _ _ Hok). }
    destruct (get_at_lt (E := Empty_set) (group_bind_hash st) gid) as (h & Hh & Eh).
    { by rewrite (io_hash _ _ Hok). }
    rewrite bind_ok.
    assert (∀ gid', tier1_hit item st gid' → gid' = gid) as Huniq.
    { intros gid' (m' & Hm' & Hl' & _). congruence. }
    destruct (verify ctx) eqn:Hv; cbn [mbind res_bind].
    + eexists _, _. split; [done|]. split; [done|]. split; [|done].
      exists m. unfold tier1_split. rewrite Hv. naive_solver.
    + rewrite bind_hash_stats, Eh, bind_ok.
      case_bool_decide as Hb; eexists _, _; (split; [done|]); (split; [done|]); simpl.
      * split; [|done]. exists m. unfold tier1_split. rewrite Hv. naive_solver.
      * intros gid' Ht. rewrite (Huniq _ Ht) in Ht. destruct Ht as (m' & _ & _ & Hs).
        apply Hs. unfold tier1_split. rewrite Hv. congruence.
    + destruct (fp_body (scan_fps item) =? fp_body fp) eqn:Hb;
        eexists _, _; (split; [done|]); (split; [done|]); simpl.
      * split; [|done]. exists m. unfold tier1_split. rewrite Hv, Hfp.
        apply Z.eqb_eq in Hb. simpl. repeat split; [done|done|congruence].
      * intros gid' Ht. rewrite (Huniq _ Ht) in Ht. destruct Ht as (m' & _ & _ & Hs).
        apply Hs. unfold tier1_split. rewrite Hv, Hfp. apply Z.eqb_neq in Hb. simpl. congruence.
  - eexists None, st. split; [done|]. split; [done|]. intros gid (m & Hm & Hl' & _).
    rewrite Hm in Hl. simpl in Hl. congruence.
Qed.

Lemma find_tier2_spec n item st :
  indices_ok n st → tier2_enabled ctx = true → eligible item = true →
  ∃ found st', find_tier2 ctx item st = Ok (found, st') ∧
    groups st' = groups st ∧ group_fp st' = group_fp st ∧
    group_bind_hash st' = group_bind_hash st ∧ hash_to_group st' = hash_to_group st ∧
    item_bound_by st' = item_bound_by st ∧ item_eligible st' = item_eligible st ∧
    match found with
    | Some (gid, b) => ∃ gmid, tier2_hit item st gid gmid ∧
        b = bound_by_for_tier2 (Grouping.identity ctx) ∧
        (group_bound_mid st', mid_to_group st') = adopt item gid gmid st
    | None => (∀ gid gmid, ¬ tier2_hit item st gid gmid) ∧
        group_bound_mid st' = group_bound_mid st ∧ mid_to_group st' = mid_to_group st
    end.
Proof.
  intros Hok Ht He. unfold find_tier2.
  destruct (hash_to_group st !! _) as [gid|] eqn:Hl; cycle 1.
  { eexists None, st. repeat (split; [done|]). split; [|done].
    intros gid gmid (_ & _ & Hl' & _). congruence. }
  pose proof (io_hashes _ _ Hok _ _ Hl) as Hlt.
  destruct (get_at_lt (E := Empty_set) (group_bound_mid st) gid) as (gmid & Hg & ->).
  { by rewrite (io_bound _ _ Hok). }
  rewrite bind_ok.
  destruct (mid_join_compatible gmid (item_mid item) (block_cross_mid ctx)) as [ok nb] eqn:Hj.
  destruct ok.
  - assert (tier2_hit item st gid gmid) as Hhit by (repeat split; try done; by rewrite Hj).
    unfold adopt. destruct gmid as [gm|].
    + destruct nb; eexists _, _; (split; [reflexivity|]); repeat (split; [done|]);
        eexists; (split; [exact Hhit|]); done.
    + assert (nb = item_mid item) as ->.
      { revert Hj. unfold mid_join_compatible, item_mid. rewrite mid_present_idemp. simpl.
        destruct (mid_present _); congruence. }
      destruct (item_mid item) as [m|] eqn:Hm; eexists _, _; (split; [reflexivity|]);
        repeat (split; [done|]); eexists; (split; [exact Hhit|]); rewrite ?Hm; done.
  - destruct (note_cross_mid _ _ _ _ _ _) as [[seen cl] s].
    eexists None, _. repeat (split; [done|]). split; [|done].
    intros gid' gmid' (_ & _ & Hl' & Hg' & Hj'). simplify_eq. rewrite Hj in Hj'. done.
Qed.

Lemma same_core_indices n st st' : same_core st st' → indices_ok n st → indices_ok n st'.
Proof.
  intros (E1 & E2 & E3 & E4 & E5 & E6 & E7 & E8) [].
  split; rewrite ?E1, ?E2, ?E3, ?E4, ?E5, ?E6, ?E7, ?E8; done.
Qed.

Lemma same_core_hits st st' item :
  same_core st st' →
  (∀ gid, tier1_hit item st' gid ↔ tier1_hit item st gid) ∧
  (∀ gid gmid, tier2_hit item st' gid gmid ↔ tier2_hit item st gid gmid).
Proof.
  intros (E1 & E2 & E3 & E4 & E5 & E6 & E7 & E8).
  unfold tier1_hit, tier2_hit, tier1_split. by rewrite E2, E3, E4, E5, E6.
Qed.

(** Both tiers: Tier 2 is tried only when Tier 1 does not bind. *)
Lemma find_group_spec n item st :
  indices_ok n st →
  ∃ found st', find_group ctx (eligible item) item st = Ok (found, st') ∧
    groups st' = groups st ∧ group_fp st' = group_fp st ∧
    group_bind_hash st' = group_bind_hash st ∧ hash_to_group st' = hash_to_group st ∧
    item_bound_by st' = item_bound_by st ∧ item_eligible st' = item_eligible st ∧
    match found with
    | Some (gid, b) =>
        (tier1_hit item st gid ∧ b = MessageId ∧
         group_bound_mid st' = group_bound_mid st ∧ mid_to_group st' = mid_to_group st)
        ∨ ((∀ gid, ¬ tier1_hit item st gid) ∧ ∃ gmid, tier2_hit item st gid gmid ∧
           b = bound_by_for_tier2 (Grouping.identity ctx) ∧
           (group_bound_mid st', mid_to_group st') = adopt item gid gmid st)
    | None => (∀ gid, ¬ tier1_hit item st gid) ∧ (∀ gid gmid, ¬ tier2_hit item st gid gmid) ∧
        group_bound_mid st' = group_bound_mid st ∧ mid_to_group st' = mid_to_group st
    end.
Proof.
  intros Hok. unfold find_group.
  destruct (find_tier1_spec n item st Hok) as (f1 & st1 & -> & Hc & Hf1). rewrite bind_ok.
  pose proof (same_core_indices _ _ _ Hc Hok) as Hok1.
  destruct (same_core_hits _ _ item Hc) as [_ H2].
  destruct Hc as (E1 & E2 & E3 & E4 & E5 & E6 & E7 & E8).
  destruct f1 as [[gid b]|].
  { eexists _, _. split; [done|]. repeat (split; [done|]). left. naive_solver. }
  destruct (tier2_enabled ctx && eligible item) eqn:Hte.
  - apply andb_true_iff in Hte as [Ht He].
    destruct (find_tier2_spec n item st1 Hok1 Ht He)
      as (f2 & st2 & -> & F1 & F2 & F3 & F4 & F5 & F6 & Hf2).
    eexists _, _. split; [done|]. do 6 (split; [congruence|]).
    destruct f2 as [[gid b]|].
    + right. split; [done|]. destruct Hf2 as (gmid & Hh & -> & Ha). exists gmid.
      split; [by apply H2|]. split; [done|]. unfold adopt in *. by rewrite Ha, E2, E5.
    + destruct Hf2 as (Hn & -> & ->). split; [done|]. split; [|done].
      intros gid gmid Hh%H2. by eapply Hn.
  - eexists _, _. split; [done|]. do 6 (split; [done|]). split; [done|]. split; [|done].
    intros gid gmid (Ht & He & _). by rewrite Ht, He in Hte.
Qed.

(** One iteration never panics and takes one of the three steps. *)
Lemma group_step_spec n i item st :
  indices_ok n st →
  ∃ st', group_step ctx i item st = Ok st' ∧ bind_step i item st st' ∧
         item_eligible st' = <[i := eligible item]> (item_eligible st).
Proof.
  intros Hok. unfold group_step.
  set (st0 := if preview_bytes_over_budget item then _ else st).
  assert (same_core st st0) as Hc0 by (unfold st0; by destruct (preview_bytes_over_budget item)).
  pose proof (eligibility_fst item (group_stats st0)) as He.
  destruct (eligibility ctx item (group_stats st0)) as [el s]. simpl in He. subst el.
  set (st1 := st0 {{ group_stats := s; item_eligible ::= insert i (eligible item) }}).
  assert (indices_ok n st1) as Hok1.
  { destruct (same_core_indices _ _ _ Hc0 Hok) as [].
    split; try done. by unfold st1; cbn; rewrite length_insert. }
  destruct (find_group_spec n item st1 Hok1)
    as (f & st2 & -> & F1 & F2 & F3 & F4 & F5 & F6 & Hf). rewrite bind_ok.
  destruct Hc0 as (E1 & E2 & E3 & E4 & E5 & E6 & E7 & E8).
  change (group_fp st1) with (group_fp st0) in F2. rewrite E3 in F2.
  change (group_bind_hash st1) with (group_bind_hash st0) in F3. rewrite E4 in F3.
  change (groups st1) with (groups st0) in F1. rewrite E1 in F1.
  change (hash_to_group st1) with (hash_to_group st0) in F4. rewrite E6 in F4.
  change (item_bound_by st1) with (item_bound_by st0) in F5. rewrite E7 in F5.
  change (item_eligible st1) with (<[i := eligible item]> (item_eligible st0)) in F6. rewrite E8 in F6.
  assert (∀ gid, tier1_hit item st1 gid ↔ tier1_hit item st gid) as H1.
  { intros gid. unfold tier1_hit, tier1_split.
    change (mid_to_group st1) with (mid_to_group st0). change (group_bind_hash st1) with (group_bind_hash st0).
    change (group_fp st1) with (group_fp st0). by rewrite E3, E4, E5. }
  assert (∀ gid gmid, tier2_hit item st1 gid gmid ↔ tier2_hit item st gid gmid) as H2.
  { intros gid gmid. unfold tier2_hit.
    change (hash_to_group st1) with (hash_to_group st0). change (group_bound_mid st1) with (group_bound_mid st0).
    by rewrite E2, E6. }
  assert (∀ gid gmid, adopt item gid gmid st1 = adopt item gid gmid st) as Ha.
  { intros gid gmid. unfold adopt.
    change (mid_to_group st1) with (mid_to_group st0). change (group_bound_mid st1) with (group_bound_mid st0).
    by rewrite E2, E5. }
  change (mid_to_group st1) with (mid_to_group st0) in Hf.
  change (group_bound_mid st1) with (group_bound_mid st0) in Hf.
  rewrite E2, E5 in Hf.
  assert (∀ st3, bind_step i item st st3 → item_eligible st3 = <[i := eligible item]> (item_eligible st) →
    ∃ st', Ok (if recipient_strings_have_x500 item
               then st3 {{ group_stats -> x500_recipient_items ::= add_u64 1 }} else st3) = Ok st'
      :> total_res _ ∧ bind_step i item st st' ∧
      item_eligible st' = <[i := eligible item]> (item_eligible st)) as Hend.
  { intros st3 Hs Hel. eexists. split; [done|]. destruct (recipient_strings_have_x500 item); [|done].
    split; [|done]. destruct Hs as [gid Hh Hj|gid gmid Hn Hh Hj|Hn1 Hn2].
    - by eapply step_tier1.
    - by eapply step_tier2.
    - by apply step_new. }
  destruct f as [[gid b]|].
  - assert (gid < length (groups st))%nat as Hlt.
    { destruct Hf as [((m & _ & Hl & _) & _)|(_ & gmid & (_ & _ & Hl & _) & _)].
      - eapply (io_mids _ _ Hok). rewrite <- E5. exact Hl.
      - eapply (io_hashes _ _ Hok). rewrite <- E6. exact Hl. }
    unfold push_at. rewrite F1.
    destruct (get_at_lt (E := Empty_set) _ _ Hlt) as (g & Hg & ->). rewrite !bind_ok.
    apply Hend; [|exact F6].
    assert (joined i gid b st (st2 {{ groups := <[gid := g ++ [i]]> (groups st); item_bound_by ::= insert i b }})) as Hj.
    { exists g. split; [done|]. rewrite <- F2, <- F3, <- F4, <- F5. done. }
    destruct Hf as [(Hh%H1 & -> & Hb & Hm)|(Hn & gmid & Hh%H2 & -> & Had)].
    + by eapply step_tier1.
    + eapply step_tier2; [|exact Hh|exact Hj|].
      * intros gid' Ht%H1. by eapply Hn.
      * by rewrite <- Ha.
  - destruct Hf as (Hn1 & Hn2 & Hb & Hm). rewrite bind_ok. apply Hend.
    + apply step_new.
      * intros gid' Ht%H1. by eapply Hn1.
      * intros gid' gmid Ht%H2. by eapply Hn2.
      * unfold new_group. destruct (_ && _), (item_mid item); by rewrite <- F1.
      * unfold new_group. destruct (_ && _), (item_mid item); by rewrite <- Hb.
      * unfold new_group. destruct (_ && _), (item_mid item); by rewrite <- F2.
      * unfold new_group. destruct (_ && _), (item_mid item); by rewrite <- F3.
      * unfold new_group. destruct (_ && _), (item_mid item); by rewrite <- ?F1, <- Hm.
      * unfold new_group. destruct (_ && _), (item_mid item); by rewrite <- ?F1, <- F4.
      * unfold new_group. destruct (_ && _), (item_mid item); by rewrite <- F5.
    + unfold new_group. destruct (_ && _), (item_mid item); exact F6.
Qed.

(** Steps keep the indices in range. *)
Lemma bind_step_indices n i item st st' :
  bind_step i item st st' → item_eligible st' = <[i := eligible item]> (item_eligible st) →
  indices_ok n st → indices_ok n st'.
Proof.
  intros Hs Hel [L1 L2 L3 L4 L5 L6 L7]. destruct Hs as
    [gid _ (g & _ & Eg & Ef & Eh & Ehm & Eb) Ebm Em
    |gid gmid _ (_ & _ & Hl & Hgm & _) (g & Hg & Eg & Ef & Eh & Ehm & Eb) Ha
    |_ _ Eg Ebm Ef Eh Em Ehm Eb].
  - split; rewrite ?Eg, ?Ef, ?Eh, ?Ehm, ?Eb, ?Ebm, ?Em, ?Hel, ?length_insert; done.
  - unfold adopt in Ha.
    assert (length (group_bound_mid st') = length (group_bound_mid st)) as Elb.
    { repeat case_match; injection Ha as -> _; by rewrite ?length_insert. }
    split; rewrite ?Eg, ?Ef, ?Eh, ?Ehm, ?Eb, ?Elb, ?Hel, ?length_insert; try done.
    intros k gid'. repeat case_match; injection Ha as _ ->; try apply L4.
    intros [?|(_ & -> & _)]%or_insert_Some; [by eapply L4|by eapply L5].
  - split; rewrite ?Eg, ?Ef, ?Eh, ?Ebm, ?Eb, ?Hel, ?length_insert, ?length_app; simpl; try lia.
    + intros k gid. rewrite Em. destruct (item_mid item) as [m|].
      * rewrite lookup_insert_Some. intros [[_ <-]|[_ H']]; [lia|]. apply L4 in H'. lia.
      * intros H'%L4. lia.
    + intros k gid. rewrite Ehm. destruct (_ && _); [|intros H'%L5; lia].
      intros [H'%L5|(_ & -> & _)]%or_insert_Some; lia.
Qed.
End steps.

(** * Invariants of the grouping loop (keepset.rs)

    By induction over the steps: the groups partition the items, every
    non-seed member is tied to its group by what its provenance says, a group
    keeps one Message-ID when cross-MID joins are blocked, and the maps know
    exactly the groups' seeds and Message-IDs. *)

(** Item [i] is in group [gid]; [h] is the first item of group [gid]. *)
Definition mem (gs : list (list nat)) (gid i : nat) : Prop := ∃ g, gs !! gid = Some g ∧ i ∈ g.
Definition seed (gs : list (list nat)) (gid h : nat) : Prop := ∃ g, gs !! gid = Some (h :: g).

Lemma mem_push gs gid g i gid' j :
  gs !! gid = Some g →
  mem (<[gid := g ++ [i]]> gs) gid' j ↔ mem gs gid' j ∨ (gid' = gid ∧ j = i).
Proof.
  intros Hg. assert (gid < length gs)%nat by (by eapply lookup_lt_Some). unfold mem.
  destruct (decide (gid' = gid)) as [->|Hn].
  - rewrite list_lookup_insert_eq by done. split.
    + intros (g' & [= <-] & [?|Hj%list_elem_of_singleton]%elem_of_app); [left; eauto|by right].
    + intros [(g' & ? & ?)|[_ ->]]; simplify_eq; eexists; (split; [done|]); apply elem_of_app;
        [by left|right; by apply list_elem_of_singleton].
  - rewrite list_lookup_insert_ne by done. naive_solver.
Qed.

Lemma seed_push gs gid g i gid' h :
  gs !! gid = Some g → g ≠ [] → seed (<[gid := g ++ [i]]> gs) gid' h ↔ seed gs gid' h.
Proof.
  intros Hg Hne. assert (gid < length gs)%nat by (by eapply lookup_lt_Some). unfold seed.
  destruct (decide (gid' = gid)) as [->|Hn].
  - rewrite list_lookup_insert_eq by done. rewrite Hg. destruct g as [|x g]; [done|].
    split; intros [g' [= ->]]; [by exists g|by eexists].
  - by rewrite list_lookup_insert_ne.
Qed.

Lemma lookup_snoc {A} (l : list A) x i y :
  (l ++ [x]) !! i = Some y ↔ l !! i = Some y ∨ (i = length l ∧ y = x).
Proof.
  rewrite lookup_app_Some, list_lookup_singleton_Some. split.
  - intros [?|[? [? ->]]]; [by left|right; split; [lia|done]].
  - intros [?|[-> ->]]; [by left|right; split; [lia|]]. by rewrite Nat.sub_diag.
Qed.

Lemma mem_new gs i gid' j : mem (gs ++ [[i]]) gid' j ↔ mem gs gid' j ∨ (gid' = length gs ∧ j = i).
Proof.
  unfold mem. setoid_rewrite lookup_snoc. split.
  - intros (g & [?|[-> ->]] & Hj); [left; eauto|]. apply list_elem_of_singleton in Hj. by right.
  - intros [(g & ? & ?)|[-> ->]]; [by eauto|]. exists [i]. split; [by right|].
    by apply list_elem_of_singleton.
Qed.

Lemma seed_new gs i gid' h : seed (gs ++ [[i]]) gid' h ↔ seed gs gid' h ∨ (gid' = length gs ∧ h = i).
Proof.
  unfold seed. setoid_rewrite lookup_snoc. split.
  - intros (g & [?|[-> ?]]); [by eauto|]. simplify_eq. by right.
  - intros [(g & ?)|[-> ->]]; [by eauto|]. exists []. by right.
Qed.

Lemma seed_mem gs gid h : seed gs gid h → mem gs gid h.
Proof. intros [g Hg]. exists (h :: g). split; [done|by left]. Qed.

Lemma mem_lt gs gid i : mem gs gid i → (gid < length gs)%nat.
Proof. intros (g & Hg & _). by eapply lookup_lt_Some. Qed.

Lemma concat_push (gs : list (list nat)) gid g i :
  gs !! gid = Some g → concat (<[gid := g ++ [i]]> gs) ≡ₚ concat gs ++ [i].
Proof.
  revert gid. induction gs as [|g0 gs IH]; intros [|gid]; simpl; try done.
  - intros [= ->]. rewrite <- !(assoc_L (++)). by rewrite (Permutation_app_comm [i]).
  - intros Hg. rewrite IH by done. by rewrite <- !(assoc_L (++)).
Qed.

(** The groups partition the first [k] items, each listed in scan order from its seed. *)
Record partition (k : nat) (gs : list (list nat)) : Prop := {
  pt_perm : concat gs ≡ₚ seq 0 k;
  pt_sorted : Forall (λ g, g ≠ [] ∧ StronglySorted lt g) gs }.

Lemma partition_mem k gs i : partition k gs → (i < k)%nat ↔ ∃ gid, mem gs gid i.
Proof.
  intros [Hp _]. transitivity (i ∈ concat gs).
  - rewrite Hp, elem_of_seq. lia.
  - rewrite list_elem_of_In, in_concat. setoid_rewrite <- list_elem_of_In.
    split.
    + intros (g & [gid Hg]%list_elem_of_lookup & Hi). by exists gid, g.
    + intros (gid & g & Hg & Hi). exists g. split; [|done]. by eapply list_elem_of_lookup_2.
Qed.

Lemma partition_unique k gs gid gid' i : partition k gs → mem gs gid i → mem gs gid' i → gid = gid'.
Proof.
  intros [Hp _]. assert (NoDup (concat gs)) as Hnd by (rewrite Hp; apply NoDup_seq).
  clear Hp. revert gid gid'. induction gs as [|g gs IH]; intros gid gid' (g1 & H1 & I1) (g2 & H2 & I2); [done|].
  simpl in Hnd. apply NoDup_app in Hnd as (_ & Hd & Hnd).
  assert (∀ gid g', gs !! gid = Some g' → i ∈ g' → i ∈ concat gs) as Hin.
  { intros gid0 g' Hg' Hi. apply list_elem_of_In, in_concat. exists g'. split; apply list_elem_of_In.
    - by eapply list_elem_of_lookup_2. - done. }
  destruct gid as [|gid], gid' as [|gid']; simpl in *; simplify_eq.
  - done.
  - exfalso. eapply Hd; eauto.
  - exfalso. eapply Hd; eauto.
  - f_equal. apply IH; [done|by exists g1|by exists g2].
Qed.

Lemma partition_nonempty k gs gid g : partition k gs → gs !! gid = Some g → ∃ h g', g = h :: g'.
Proof.
  intros [_ Hs] Hg. rewrite Forall_lookup in Hs. destruct (Hs _ _ Hg) as [? _].
  destruct g; [done|]. eauto.
Qed.

Lemma partition_push k gs gid g :
  partition k gs → gs !! gid = Some g → partition (S k) (<[gid := g ++ [k]]> gs).
Proof.
  intros Hp Hg. split.
  - rewrite (concat_push _ _ _ _ Hg), (pt_perm _ _ Hp), seq_S. done.
  - apply Forall_insert; [apply Hp|]. split; [by destruct g|].
    pose proof (pt_sorted _ _ Hp) as Hs. rewrite Forall_lookup in Hs.
    destruct (Hs _ _ Hg) as [_ Hsg]. apply StronglySorted_app. split; [|split; [done|repeat constructor]].
    intros x y Hx Hy. apply list_elem_of_singleton in Hy as ->.
    assert (x < k)%nat; [|lia]. apply (partition_mem _ _ _ Hp). exists gid, g. done.
Qed.

Lemma partition_new k gs : partition k gs → partition (S k) (gs ++ [[k]]).
Proof.
  intros [Hp Hs]. split.
  - rewrite concat_app, Hp, seq_S. done.
  - apply Forall_app. split; [done|]. constructor; [|done]. split; [done|repeat constructor].
Qed.

Lemma partition_seed_le k gs gid h i :
  partition k gs → seed gs gid h → mem gs gid i → i = h ∨ (h < i)%nat.
Proof.
  intros [_ Hs] [g Hg] (g' & Hg' & Hi). simplify_eq. rewrite Forall_lookup in Hs.
  destruct (Hs _ _ Hg) as [_ Hsg]. apply elem_of_cons in Hi as [->|Hi]; [by left|right].
  inversion Hsg as [|? ? _ Hall]; simplify_eq. rewrite Forall_forall in Hall. by apply Hall.
Qed.

Section invariant.
Context `{Platform} (ctx : grouping_context) (items : list scan_item).

(** Item [i] carries Message-ID key [key]. *)
Definition has_mid_key (i : nat) (key : bstring) : Prop :=
  ∃ it m, items !! i = Some it ∧ item_mid it = Some m ∧ item_mid_key ctx it m = key.

(** Item [i] is eligible for Tier 2 under hash key [key]. *)
Definition has_hash_key (i : nat) (key : bstring) : Prop :=
  ∃ it, items !! i = Some it ∧ eligible ctx it = true ∧ item_hash_key ctx it = key.

(** What ties item [i] to its group, by provenance. *)
Definition tied (gs : list (list nat)) (gid h i : nat) (b : bound_by) : Prop :=
  (b = MessageId ∧ ∃ j key, mem gs gid j ∧ (j < i)%nat ∧ has_mid_key i key ∧ has_mid_key j key)
  ∨ (b = bound_by_for_tier2 (Grouping.identity ctx) ∧ tier2_enabled ctx = true ∧
     ∃ key, has_hash_key i key ∧ has_hash_key h key).

Record binv (k : nat) (st : group_state) : Prop := {
  bi_part : partition k (groups st);
  bi_seed : ∀ gid h, seed (groups st) gid h →
    ∃ it, items !! h = Some it ∧ group_fp st !! gid = Some (scan_fps it) ∧
      group_bind_hash st !! gid = Some (scan_bind_hash ctx it) ∧
      item_bound_by st !! h = Some Seed;
  bi_member : ∀ gid h i, seed (groups st) gid h → mem (groups st) gid i → i ≠ h →
    ∃ b, item_bound_by st !! i = Some b ∧ tied (groups st) gid h i b;
  bi_mids : ∀ key gid, mid_to_group st !! key = Some gid →
    ∃ j it m, mem (groups st) gid j ∧ items !! j = Some it ∧ item_mid it = Some m ∧
      item_mid_key ctx it m = key ∧ group_bound_mid st !! gid = Some (Some m);
  bi_hashes : ∀ key gid, hash_to_group st !! key = Some gid →
    ∃ h, seed (groups st) gid h ∧ has_hash_key h key }.

Lemma tied_mono gs gs' gid h i b :
  (∀ j, mem gs gid j → mem gs' gid j) → tied gs gid h i b → tied gs' gid h i b.
Proof. intros Hm [(-> & j & key & ? & ?)|?]; [left; naive_solver|by right]. Qed.

(** The bookkeeping that both joins share. *)
Lemma binv_join k item st st' gid b :
  binv k st → indices_ok (length items) st → items !! k = Some item →
  joined k gid b st st' →
  (∀ h, seed (groups st) gid h → tied (groups st') gid h k b) →
  partition (S k) (groups st') ∧
  (∀ gid' h, seed (groups st') gid' h ↔ seed (groups st) gid' h) ∧
  (∀ gid' j, mem (groups st) gid' j → mem (groups st') gid' j) ∧
  mem (groups st') gid k ∧
  (∀ gid' h, seed (groups st') gid' h →
    ∃ it, items !! h = Some it ∧ group_fp st' !! gid' = Some (scan_fps it) ∧
      group_bind_hash st' !! gid' = Some (scan_bind_hash ctx it) ∧
      item_bound_by st' !! h = Some Seed) ∧
  (∀ gid' h i, seed (groups st') gid' h → mem (groups st') gid' i → i ≠ h →
    ∃ b, item_bound_by st' !! i = Some b ∧ tied (groups st') gid' h i b).
Proof.
  intros [Hp Hs Hm Hmi Hha] Hok Hk (g & Hg & Eg & Ef & Eh & Ehm & Eb) Ht.
  destruct (partition_nonempty _ _ _ _ Hp Hg) as (h0 & g0 & Hne).
  assert (∀ gid' h, seed (groups st') gid' h ↔ seed (groups st) gid' h) as Hseed.
  { intros. rewrite Eg. apply seed_push; [done|by rewrite Hne]. }
  assert (∀ gid' j, mem (groups st') gid' j ↔ mem (groups st) gid' j ∨ (gid' = gid ∧ j = k)) as Hmem.
  { intros. rewrite Eg. by apply mem_push. }
  assert (k < length (item_bound_by st))%nat as Hlk.
  { rewrite (io_by _ _ Hok). by eapply lookup_lt_Some. }
  assert (∀ gid' j, mem (groups st) gid' j → j ≠ k) as Hnk.
  { intros gid' j Hj. assert (j < k)%nat; [|lia]. apply (partition_mem _ _ _ Hp). eauto. }
  split; [rewrite Eg; by apply partition_push|]. split; [done|].
  split; [intros; apply Hmem; by left|]. split; [apply Hmem; by right|]. split.
  - intros gid' h Hh%Hseed. rewrite Ef, Eh, Eb.
    destruct (Hs _ _ Hh) as (it & ? & ? & ? & ?). exists it. repeat (split; [done|]).
    rewrite list_lookup_insert_ne; [done|]. pose proof (Hnk _ _ (seed_mem _ _ _ Hh)). congruence.
  - intros gid' h i Hh%Hseed Hi Hih. apply Hmem in Hi as [Hi|[-> ->]].
    + rewrite Eb, list_lookup_insert_ne by (pose proof (Hnk _ _ Hi); congruence).
      destruct (Hm _ _ _ Hh Hi Hih) as (b' & ? & Htied). exists b'. split; [done|].
      eapply tied_mono; [|done]. intros. apply Hmem. by left.
    + exists b. rewrite Eb, list_lookup_insert_eq by done. split; [done|by apply Ht].
Qed.

Lemma binv_step k item st st' :
  binv k st → indices_ok (length items) st → items !! k = Some item →
  bind_step ctx k item st st' → binv (S k) st'.
Proof.
  intros Hinv Hok Hk Hstep.
  pose proof Hinv as [Hp Hs Hm Hmi Hha].
  destruct Hstep as
    [gid (m & Hmid & Hl & _) Hj Ebm Em
    |gid gmid _ (Ht2 & Hel & Hl & Hgm & Hok2) Hj Ha
    |_ _ Eg Ebm Ef Eh Em Ehm Eb].
  - destruct (Hmi _ _ Hl) as (j & jt & m' & Hjm & Hjt & Hjmid & Hkey & Hbound).
    assert (j < k)%nat as Hjk by (apply (partition_mem _ _ _ Hp); eauto).
    destruct (binv_join k item st st' gid MessageId Hinv Hok Hk Hj) as (H1 & H2 & H3 & H4 & H5 & H6).
    { intros h Hh. left. split; [done|]. exists j, (item_mid_key ctx item m).
      split; [destruct Hj as (g & Hg & Eg & _); rewrite Eg; apply mem_push; [done|by left]|].
      split; [done|]. split; [by exists item, m|by exists jt, m']. }
    destruct Hj as (g & Hg & Eg & Ef & Eh & Ehm & Eb).
    split; [done|done|done| |].
    + intros key gid' Hkl. rewrite Em in Hkl. destruct (Hmi _ _ Hkl) as (j' & it & m1 & ? & ? & ? & ? & ?).
      exists j', it, m1. rewrite Ebm. auto.
    + intros key gid' Hkl. rewrite Ehm in Hkl. destruct (Hha _ _ Hkl) as (h & ? & ?).
      exists h. by rewrite H2.
  - destruct (Hha _ _ Hl) as (h0 & Hh0 & Hkey0).
    destruct (binv_join k item st st' gid _ Hinv Hok Hk Hj) as (H1 & H2 & H3 & H4 & H5 & H6).
    { intros h Hh. assert (h = h0) as -> by (destruct Hh, Hh0; congruence).
      right. split; [done|]. split; [done|]. exists (item_hash_key ctx item).
      split; [by exists item|done]. }
    destruct Hj as (g & Hg & Eg & Ef & Eh & Ehm & Eb).
    split; [done|done|done| |].
    + assert (∀ key gid', mid_to_group st !! key = Some gid' → gmid = None → gid' ≠ gid) as Hnone.
      { intros key gid' Hkl -> ->. destruct (Hmi _ _ Hkl) as (? & ? & ? & _ & _ & _ & _ & ?). congruence. }
      intros key gid' Hkl. unfold adopt in Ha.
      destruct gmid as [gm|]; [|destruct (item_mid item) as [m|] eqn:Hmid]; injection Ha as Ebm Em;
        rewrite Em in Hkl; rewrite Ebm.
      * destruct (Hmi _ _ Hkl) as (j' & it & m1 & ? & ? & ? & ? & ?). exists j', it, m1. auto.
      * apply or_insert_Some in Hkl as [Hkl|(-> & -> & _)].
        { destruct (Hmi _ _ Hkl) as (j' & it & m1 & ? & ? & ? & ? & ?). exists j', it, m1.
          rewrite list_lookup_insert_ne; [auto 10|]. symmetry. by eapply Hnone. }
        exists k, item, m. rewrite list_lookup_insert_eq; [auto 10|]. by eapply lookup_lt_Some.
      * destruct (Hmi _ _ Hkl) as (j' & it & m1 & ? & ? & ? & ? & ?). exists j', it, m1. auto.
    + intros key gid' Hkl. rewrite Ehm in Hkl. destruct (Hha _ _ Hkl) as (h & ? & ?).
      exists h. by rewrite H2.
  - pose proof (mem_new (groups st) k) as Hmem. pose proof (seed_new (groups st) k) as Hseed.
    rewrite <- Eg in Hmem, Hseed.
    assert (k < length (item_bound_by st))%nat as Hlk.
    { rewrite (io_by _ _ Hok). by eapply lookup_lt_Some. }
    assert (∀ gid' j, mem (groups st) gid' j → j ≠ k ∧ gid' ≠ length (groups st)) as Hnk.
    { intros gid' j Hj. pose proof (mem_lt _ _ _ Hj). split; [|lia].
      assert (j < k)%nat; [|lia]. apply (partition_mem _ _ _ Hp). eauto. }
    destruct Hok as [L1 L2 L3 _ _ _ _].
    split.
    + rewrite Eg. by apply partition_new.
    + intros gid' h [Hh|[-> ->]]%Hseed.
      * destruct (Hs _ _ Hh) as (it & Hit & Hf & Hhh & Hb). exists it. rewrite Ef, Eh, Eb.
        destruct (Hnk _ _ (seed_mem _ _ _ Hh)).
        split; [done|]. split; [apply lookup_snoc; by left|]. split; [apply lookup_snoc; by left|].
        by rewrite list_lookup_insert_ne.
      * exists item. rewrite Ef, Eh, Eb. split; [done|]. split; [apply lookup_snoc; by right|].
        split; [apply lookup_snoc; by right|]. by apply list_lookup_insert_eq.
    + intros gid' h i [Hh|[-> ->]]%Hseed [Hi|[? ->]]%Hmem Hne; subst.
      * destruct (Hm _ _ _ Hh Hi Hne) as (b & ? & ?). exists b. destruct (Hnk _ _ Hi).
        rewrite Eb, list_lookup_insert_ne by done. split; [done|].
        eapply tied_mono; [|done]. intros. apply Hmem. by left.
      * by destruct (Hnk _ _ (seed_mem _ _ _ Hh)).
      * by destruct (Hnk _ _ Hi).
      * done.
    + assert (∀ key gid', mid_to_group st !! key = Some gid' →
        ∃ j it m, mem (groups st') gid' j ∧ items !! j = Some it ∧ item_mid it = Some m ∧
          item_mid_key ctx it m = key ∧ group_bound_mid st' !! gid' = Some (Some m)) as Hold.
      { intros key gid' Hkl. destruct (Hmi _ _ Hkl) as (j & it & m & ? & ? & ? & ? & ?).
        exists j, it, m. rewrite Ebm, Hmem, lookup_snoc. auto 10. }
      intros key gid' Hkl. rewrite Em in Hkl. destruct (item_mid item) as [m|] eqn:Hmid; [|by apply Hold].
      apply lookup_insert_Some in Hkl as [[<- <-]|[_ Hkl]]; [|by apply Hold].
      exists k, item, m. rewrite Ebm, Hmem, lookup_snoc. auto 10.
    + assert (∀ key gid', hash_to_group st !! key = Some gid' →
        ∃ h, seed (groups st') gid' h ∧ has_hash_key h key) as Hold.
      { intros key gid' Hkl. destruct (Hha _ _ Hkl) as (h & ? & ?). exists h. rewrite Hseed. auto. }
      intros key gid' Hkl. rewrite Ehm in Hkl.
      destruct (tier2_enabled ctx && eligible ctx item) eqn:Hte; [|by apply Hold].
      apply or_insert_Some in Hkl as [Hkl|(-> & -> & _)]; [by apply Hold|].
      exists k. rewrite Hseed. split; [by right|]. exists item. apply andb_true_iff in Hte as [_ ?]. done.
Qed.

Lemma binv_init : binv 0 (init_groups (length items)).
Proof.
  split.
  - by split.
  - intros gid h [g Hg]. done.
  - intros gid h i [g Hg]. done.
  - intros key gid Hk. change (mid_to_group _) with (∅ : gmap bstring nat) in Hk.
    by rewrite lookup_empty in Hk.
  - intros key gid Hk. change (hash_to_group _) with (∅ : gmap bstring nat) in Hk.
    by rewrite lookup_empty in Hk.
Qed.

Lemma indices_init n : indices_ok n (init_groups n).
Proof.
  split; try done; try apply length_replicate; intros k gid Hk;
    change (_ !! k) with ((∅ : gmap bstring nat) !! k) in Hk; by rewrite lookup_empty in Hk.
Qed.

(** Induction over the loop: an invariant of the steps holds at the end, with
    the structural invariant [binv] at hand in each step. *)
Lemma group_loop_ind (I : nat → group_state → Prop) :
  I 0%nat (init_groups (length items)) →
  (∀ k item st st', items !! k = Some item → binv k st → indices_ok (length items) st →
     bind_step ctx k item st st' → item_eligible st' = <[k := eligible ctx item]> (item_eligible st) →
     I k st → I (S k) st') →
  ∃ st, group_loop ctx 0 items (init_groups (length items)) = Ok st ∧
        binv (length items) st ∧ indices_ok (length items) st ∧ I (length items) st.
Proof.
  intros H0 Hstep.
  assert (∀ l k st, (∀ j, l !! j = items !! (k + j)%nat) → (k + length l = length items)%nat →
    binv k st → indices_ok (length items) st → I k st →
    ∃ st', group_loop ctx k l st = Ok st' ∧ binv (length items) st' ∧
      indices_ok (length items) st' ∧ I (length items) st') as Hgo.
  { induction l as [|item l IH]; intros k st Hl Hlen Hb Hok HI.
    - simpl in Hlen. rewrite Nat.add_0_r in Hlen. subst k. by exists st.
    - assert (items !! k = Some item) as Hk by (rewrite <- (Nat.add_0_r k), <- Hl; done).
      destruct (group_step_spec ctx (length items) k item st Hok) as (st1 & E & Hs & Hel).
      simpl. rewrite E, bind_ok. apply IH.
      + intros j. replace (S k + j)%nat with (k + S j)%nat by lia. by rewrite <- Hl.
      + simpl in Hlen. lia.
      + by eapply binv_step.
      + by eapply bind_step_indices.
      + by eapply Hstep. }
  apply Hgo; [done|done|apply binv_init|apply indices_init|done].
Qed.

(** *** One Message-ID per group *)

(** Source keys hold no NUL byte (they are file paths). *)
Definition no_nul : Prop :=
  scope ctx = PerSource → ∀ i it, items !! i = Some it → (Byte.x00 ∉ path_key it).

Lemma item_mid_key_inj i j it jt m m' :
  no_nul → items !! i = Some it → items !! j = Some jt →
  item_mid_key ctx it m = item_mid_key ctx jt m' → m = m'.
Proof. intros Hn Hi Hj E. apply mid_key_inj in E as [_ ->]; [done|]. intros Hs. split; by eapply Hn. Qed.

Lemma item_mid_present it m : item_mid it = Some m → mid_present (Some m) = Some m.
Proof. unfold item_mid. intros [_ Hm]%mid_present_some. by apply mid_present_some. Qed.

Lemma item_mid_nonempty it m : item_mid it = Some m → m ≠ [].
Proof. unfold item_mid. by intros [_ Hm]%mid_present_some. Qed.

(** The bound Message-ID of a group is never empty. *)
Definition bounds_nonempty (st : group_state) : Prop :=
  ∀ gid, group_bound_mid st !! gid ≠ Some (Some []).

Definition one_mid (st : group_state) : Prop := ∀ gid i it m,
  mem (groups st) gid i → items !! i = Some it → item_mid it = Some m →
  group_bound_mid st !! gid = Some (Some m).

Lemma bounds_nonempty_step k item st st' :
  bind_step ctx k item st st' → bounds_nonempty st → bounds_nonempty st'.
Proof.
  intros Hstep Hb gid. destruct Hstep as
    [gid0 _ _ Ebm _|gid0 gmid _ _ _ Ha|_ _ _ Ebm _ _ _ _ _].
  - by rewrite Ebm.
  - unfold adopt in Ha. destruct gmid as [gm|]; [|destruct (item_mid item) as [m|] eqn:Hm];
      injection Ha as Ebm _; rewrite Ebm; [done| |done].
    intros [(-> & [= ->] & _)|[_ ?]]%list_lookup_insert_Some; [by eapply item_mid_nonempty|by eapply Hb].
  - rewrite Ebm, lookup_snoc. intros [?|[_ ?]]; [by eapply Hb|by eapply item_mid_nonempty].
Qed.

Lemma one_mid_step k item st st' :
  no_nul → block_cross_mid ctx = true → items !! k = Some item → binv k st →
  indices_ok (length items) st → bind_step ctx k item st st' → bounds_nonempty st →
  one_mid st → one_mid st'.
Proof.
  intros Hn Hblock Hk Hinv Hok Hstep Hb Hone gid i it m Hi Hit Hm.
  pose proof Hinv as [Hp Hs Hmm Hmi Hha].
  assert (∀ gid' j, mem (groups st) gid' j → j ≠ k) as Hnk.
  { intros gid' j Hj. assert (j < k)%nat; [|lia]. apply (partition_mem _ _ _ Hp). eauto. }
  destruct Hstep as
    [gid0 (m0 & Hmid & Hl & _) (g & Hg & Eg & _) Ebm _
    |gid0 gmid _ (Ht2 & Hel & Hl & Hgm & Hok2) (g & Hg & Eg & _) Ha
    |_ _ Eg Ebm _ _ _ _ _].
  - rewrite Eg, (mem_push _ _ _ _ _ _ Hg) in Hi. rewrite Ebm. destruct Hi as [Hi|[-> ->]].
    + by eapply Hone.
    + destruct (Hmi _ _ Hl) as (j & jt & m1 & _ & Hj & Hjm & Hkey & Hbd).
      assert (it = item) as -> by congruence. assert (m0 = m) as -> by congruence.
      by rewrite <- (item_mid_key_inj _ _ _ _ _ _ Hn Hj Hit Hkey).
  - rewrite Eg, (mem_push _ _ _ _ _ _ Hg) in Hi. unfold adopt in Ha.
    assert (gid0 < length (group_bound_mid st))%nat as Hlt by (by eapply lookup_lt_Some).
    destruct Hi as [Hi|[-> ->]].
    + pose proof (Hone _ _ _ _ Hi Hit Hm) as Hbd.
      destruct gmid as [gm|]; [|destruct (item_mid item) as [m1|] eqn:Hm1];
        injection Ha as Ebm _; rewrite Ebm; [done| |done].
      rewrite list_lookup_insert_ne; [done|]. intros ->. congruence.
    + assert (it = item) as -> by congruence. rewrite Hm in Ha.
      destruct gmid as [gm|]; injection Ha as Ebm _; rewrite Ebm; [|by apply list_lookup_insert_eq].
      rewrite Hm, Hblock, mid_join_spec in Hok2.
      * destruct (decide (gm = m)) as [->|]; [done|]. discriminate Hok2.
      * apply mid_present_some. split; [done|]. intros ->. by eapply Hb.
      * by eapply item_mid_present.
  - rewrite Eg, mem_new in Hi. rewrite Ebm, lookup_snoc. destruct Hi as [Hi|[-> ->]].
    + left. by eapply Hone.
    + right. assert (it = item) as -> by congruence. split; [|by rewrite Hm].
      by rewrite (io_bound _ _ Hok).
Qed.
End invariant.
