(* ===== verification/Backfill.v ===== *)
(** * The backfill pass (keepset.rs, apply_tier1_backfill_pass)

    The pass unites groups along the edges between groups that share a scope and
    a v1 content hash and whose bound Message-IDs are compatible, then rebuilds
    the groups.  Whatever order the hash map yields its values in, the rebuilt
    groups are the connected components of that relation. *)

From Stdlib Require Import Sorted.
From stdpp Require Import sorting relations.
From S2P Require Import Prelude UnionFind Text Recipient Grouping DedupIndex KeepGroup GroupInv.
#[local] Open Scope Z_scope.

(** ** The group of each item *)

Lemma foldl_insert_lookup {A} (g : list nat) (a : A) (acc : list A) j :
  foldl (λ acc i, <[i := a]> acc) acc g !! j =
  if decide (j ∈ g) then (if decide (j < length acc)%nat then Some a else None) else acc !! j.
Proof.
  revert acc. induction g as [|i g IH]; intros acc.
  { simpl foldl. case_decide; [set_solver|done]. }
  simpl foldl. rewrite IH, length_insert. destruct (decide (j ∈ g)).
  - by rewrite (decide_True (P := j ∈ i :: g)) by set_solver.
  - destruct (decide (j = i)) as [->|Hne].
    + rewrite (decide_True (P := i ∈ i :: g)) by set_solver.
      rewrite list_lookup_insert. repeat case_decide; try done; try lia.
      by apply lookup_ge_None; lia.
    + rewrite (decide_False (P := j ∈ i :: g)) by set_solver. by rewrite list_lookup_insert_ne.
Qed.

Lemma foldl_insert_length {A} (g : list nat) (a : A) (acc : list A) :
  length (foldl (λ acc i, <[i := a]> acc) acc g) = length acc.
Proof. revert acc. induction g as [|i g IH]; intros acc; simpl; [done|]. by rewrite IH, length_insert. Qed.

Definition item_gid_go : nat → list (list nat) → list nat → list nat :=
  fix go gid gs acc :=
    match gs with
    | [] => acc
    | g :: gs => go (S gid) gs (foldl (λ acc i, <[i := gid]> acc) acc g)
    end.

Lemma item_gid_go_keeps gs k acc j :
  (∀ gid, ¬ mem gs gid j) → item_gid_go k gs acc !! j = acc !! j.
Proof.
  revert k acc. induction gs as [|g gs IH]; intros k acc Hn; simpl; [done|].
  rewrite IH, foldl_insert_lookup.
  - rewrite decide_False; [done|]. intros Hj. apply (Hn 0%nat). by exists g.
  - intros gid (g' & ? & ?). apply (Hn (S gid)). by exists g'.
Qed.

Lemma item_gid_go_mem gs k acc gid j :
  (∀ gid', mem gs gid' j → gid' = gid) → mem gs gid j → (j < length acc)%nat →
  item_gid_go k gs acc !! j = Some (k + gid)%nat.
Proof.
  revert k acc gid. induction gs as [|g gs IH]; intros k acc gid Hu (g' & Hg & Hj) Hlt; [done|].
  simpl. destruct gid as [|gid]; simpl in Hg; simplify_eq.
  - rewrite item_gid_go_keeps, foldl_insert_lookup.
    + rewrite decide_True by done. rewrite decide_True by done. by rewrite Nat.add_0_r.
    + intros gid (g2 & ? & ?). discriminate (Hu (S gid)). by exists g2.
  - rewrite (IH (S k) _ gid).
    + f_equal. lia.
    + intros gid' (g2 & ? & ?). assert (S gid' = S gid) by (apply Hu; by exists g2). lia.
    + by exists g'.
    + by rewrite foldl_insert_length.
Qed.

Lemma item_gid_spec n gs j gid :
  partition n gs → (j < n)%nat → item_gid n gs !! j = Some gid ↔ mem gs gid j.
Proof.
  intros Hp Hj. change (item_gid n gs) with (item_gid_go 0 gs (replicate n 0%nat)).
  destruct (proj1 (partition_mem _ _ j Hp) Hj) as [gid0 Hm].
  rewrite (item_gid_go_mem gs 0 _ gid0 j); [|by intros; eapply partition_unique|done|by rewrite length_replicate].
  split; [by intros [= <-]|]. intros. f_equal. by eapply partition_unique.
Qed.

Lemma item_gid_length n gs : length (item_gid n gs) = n.
Proof.
  change (item_gid n gs) with (item_gid_go 0 gs (replicate n 0%nat)).
  rewrite <- (length_replicate n 0%nat) at 2. generalize 0%nat at 1 as k. generalize (replicate n 0%nat) as acc.
  induction gs as [|g gs IH]; intros acc k; simpl; [done|]. by rewrite IH, foldl_insert_length.
Qed.

(** ** The index of the items by key *)

Section index_by.
Context {K : Type} `{Countable K} (key : scan_item → K) (sel : nat → bool) (items : list scan_item).

Definition index_go : nat → list scan_item → gmap K (list nat) → gmap K (list nat) :=
  fix go i items m :=
    match items with
    | [] => m
    | item :: items =>
        go (S i) items (if sel i then <[key item := default [] (m !! key item) ++ [i]]> m else m)
    end.

(** The map indexes exactly the selected items before [j]. *)
Definition indexed (j : nat) (m : gmap K (list nat)) : Prop :=
  (∀ k idxs i, m !! k = Some idxs → i ∈ idxs →
     (i < j)%nat ∧ sel i = true ∧ ∃ it, items !! i = Some it ∧ key it = k) ∧
  (∀ i it, (i < j)%nat → sel i = true → items !! i = Some it →
     ∃ idxs, m !! key it = Some idxs ∧ i ∈ idxs).

Lemma indexed_step j it m :
  indexed j m → items !! j = Some it →
  indexed (S j) (if sel j then <[key it := default [] (m !! key it) ++ [j]]> m else m).
Proof.
  intros [H1 H2] Hj. destruct (sel j) eqn:Hs; split.
  - intros k idxs i. rewrite lookup_insert_Some. intros [[<- <-]|[_ Hk]] Hi.
    + apply elem_of_app in Hi as [Hi|Hi%list_elem_of_singleton].
      * destruct (m !! key it) as [l|] eqn:E; simpl in Hi; [|by apply elem_of_nil in Hi].
        destruct (H1 _ _ _ E Hi) as (? & ? & ?). split; [lia|done].
      * subst i. split; [lia|]. split; [done|]. by exists it.
    + destruct (H1 _ _ _ Hk Hi) as (? & ? & ?). split; [lia|done].
  - intros i it' Hi Hsi Hit. destruct (decide (i = j)) as [->|Hne].
    + assert (it' = it) as -> by congruence. eexists. rewrite lookup_insert_eq.
      split; [done|]. apply elem_of_app. right. by apply list_elem_of_singleton.
    + destruct (H2 i it' ltac:(lia) Hsi Hit) as (idxs & Hk & Hin).
      destruct (decide (key it' = key it)) as [E|E].
      * rewrite E in Hk |- *. eexists. rewrite lookup_insert_eq, Hk. split; [done|].
        apply elem_of_app. by left.
      * exists idxs. by rewrite lookup_insert_ne.
  - intros k idxs i Hk Hi. destruct (H1 _ _ _ Hk Hi) as (? & ? & ?). split; [lia|done].
  - intros i it' Hi Hsi Hit. apply H2; [|done..]. destruct (decide (i = j)); [congruence|lia].
Qed.

Lemma index_by_indexed : indexed (length items) (index_by key sel items).
Proof.
  change (index_by key sel items) with (index_go 0 items ∅).
  assert (∀ l j m, (∀ i, l !! i = items !! (j + i)%nat) → (j + length l = length items)%nat →
    indexed j m → indexed (length items) (index_go j l m)) as Hgo.
  { induction l as [|it l IH]; intros j m Hl Hlen Hm.
    - simpl in Hlen. by replace (length items) with j by lia.
    - simpl. apply IH.
      + intros i. replace (S j + i)%nat with (j + S i)%nat by lia. by rewrite <- Hl.
      + simpl in Hlen. lia.
      + apply indexed_step; [done|]. rewrite <- (Nat.add_0_r j), <- Hl. done. }
  apply Hgo; [done|done|]. split.
  - intros k idxs i Hk. by rewrite lookup_empty in Hk.
  - intros. lia.
Qed.

(** A list of indices among the values of the map holds two items exactly when
    they have the same key. *)
Lemma index_by_values i j :
  (∃ idxs, idxs ∈ (map_to_list (index_by key sel items)).*2 ∧ i ∈ idxs ∧ j ∈ idxs) ↔
  sel i = true ∧ sel j = true ∧
  ∃ it jt, items !! i = Some it ∧ items !! j = Some jt ∧ key it = key jt.
Proof.
  destruct index_by_indexed as [H1 H2]. split.
  - intros (idxs & ([k l] & -> & Hkl)%list_elem_of_fmap & Hi & Hj).
    apply elem_of_map_to_list in Hkl. simpl in Hi, Hj.
    destruct (H1 _ _ _ Hkl Hi) as (_ & ? & it & ? & ?), (H1 _ _ _ Hkl Hj) as (_ & ? & jt & ? & ?).
    split; [done|]. split; [done|]. exists it, jt. split; [done|]. split; [done|congruence].
  - intros (Hsi & Hsj & it & jt & Hi & Hj & E).
    destruct (H2 i it ltac:(by eapply lookup_lt_Some) Hsi Hi) as (idxs & Hk & Hin).
    destruct (H2 j jt ltac:(by eapply lookup_lt_Some) Hsj Hj) as (idxs' & Hk' & Hin').
    exists idxs. rewrite E in Hk. assert (idxs' = idxs) as -> by congruence.
    split; [|done]. apply list_elem_of_fmap. exists (key jt, idxs). split; [done|].
    by apply elem_of_map_to_list.
Qed.
End index_by.

(** ** The edges *)

Lemma all_pairs_elem l x y : (x, y) ∈ all_pairs l → x ∈ l ∧ y ∈ l.
Proof.
  induction l as [|z l IH]; simpl; [intros H; by apply elem_of_nil in H|].
  intros [(w & [= -> ->] & Hw)%list_elem_of_fmap|Hp]%elem_of_app.
  - split; [by left|by right].
  - destruct (IH Hp). split; by right.
Qed.

Lemma all_pairs_complete l x y : x ∈ l → y ∈ l → x ≠ y → (x, y) ∈ all_pairs l ∨ (y, x) ∈ all_pairs l.
Proof.
  induction l as [|z l IH]; simpl; [intros H; by apply elem_of_nil in H|].
  intros [->|Hx]%elem_of_cons [->|Hy]%elem_of_cons Hn; rewrite !elem_of_app.
  - done.
  - left. left. apply list_elem_of_fmap. by exists y.
  - right. left. apply list_elem_of_fmap. by exists x.
  - destruct (IH Hx Hy Hn); auto.
Qed.

Lemma elem_of_sort_dedup l x : x ∈ sort_dedup l ↔ x ∈ l.
Proof. unfold sort_dedup. by rewrite merge_sort_Permutation, elem_of_remove_dups. Qed.

Section edges.
Context `{Platform} (ctx : grouping_context) (order : hash_order) (items : list scan_item).

(** Two different groups are mergeable when they hold items of the same scope
    and v1 content hash and their bound Message-IDs are compatible. *)
Definition mergeable (gs : list (list nat)) (bounds : list (option bstring)) (ga gb : nat) : Prop :=
  ga ≠ gb ∧ backfill_edge bounds ga gb = true ∧
  ∃ i j it jt, mem gs ga i ∧ mem gs gb j ∧ items !! i = Some it ∧ items !! j = Some jt ∧
    backfill_key ctx it = backfill_key ctx jt.

Lemma backfill_edge_sym bounds ga gb : backfill_edge bounds ga gb = backfill_edge bounds gb ga.
Proof.
  unfold backfill_edge, mid_join_compatible. rewrite orb_comm. f_equal.
  destruct (mid_present (bounds !! ga ≫= id)), (mid_present (bounds !! gb ≫= id)); try done.
  repeat case_decide; simpl; congruence.
Qed.

Lemma elem_of_backfill_edges gs bounds x y :
  partition (length items) gs →
  (x, y) ∈ backfill_edges ctx order items gs bounds →
  (x < length gs ∧ y < length gs)%nat ∧ (x = y ∨ mergeable gs bounds x y).
Proof.
  intros Hp. unfold backfill_edges. rewrite list_elem_of_bind.
  intros (idxs & He & Hidxs). apply list_elem_of_filter in He as [Hedge Hpair]. simpl in Hedge.
  apply all_pairs_elem in Hpair as [Hx Hy]. rewrite elem_of_sort_dedup in Hx, Hy.
  apply list_elem_of_omap in Hx as (i & Hi & Ei), Hy as (j & Hj & Ej).
  assert (idxs ∈ (map_to_list (index_by (backfill_key ctx) (λ _, true) items)).*2) as Hv.
  { unfold map_values in Hidxs. by rewrite (reorder_perm order) in Hidxs. }
  destruct (proj1 (index_by_values (backfill_key ctx) (λ _, true) items i j)) as (_ & _ & it & jt & Hit & Hjt & E).
  { by exists idxs. }
  assert (mem gs x i) as Hmx by (eapply item_gid_spec; [done|by eapply lookup_lt_Some|done]).
  assert (mem gs y j) as Hmy by (eapply item_gid_spec; [done|by eapply lookup_lt_Some|done]).
  split; [split; by eapply mem_lt|].
  destruct (decide (x = y)); [by left|]. right. split; [done|]. split; [done|].
  exists i, j, it, jt. done.
Qed.

Lemma mergeable_edge gs bounds x y :
  partition (length items) gs → mergeable gs bounds x y →
  (x, y) ∈ backfill_edges ctx order items gs bounds ∨ (y, x) ∈ backfill_edges ctx order items gs bounds.
Proof.
  intros Hp (Hn & Hedge & i & j & it & jt & Hx & Hy & Hit & Hjt & E).
  destruct (proj2 (index_by_values (backfill_key ctx) (λ _, true) items i j)) as (idxs & Hv & Hi & Hj).
  { split; [done|]. split; [done|]. by exists it, jt. }
  assert (idxs ∈ map_values order (index_by (backfill_key ctx) (λ _, true) items)) as Hm.
  { unfold map_values. by rewrite (reorder_perm order). }
  set (gids := sort_dedup (omap (λ i, item_gid (length items) gs !! i) idxs)).
  assert (x ∈ gids) as Hxg.
  { apply elem_of_sort_dedup, list_elem_of_omap. exists i. split; [done|].
    apply item_gid_spec; [done|by eapply lookup_lt_Some|done]. }
  assert (y ∈ gids) as Hyg.
  { apply elem_of_sort_dedup, list_elem_of_omap. exists j. split; [done|].
    apply item_gid_spec; [done|by eapply lookup_lt_Some|done]. }
  unfold backfill_edges. rewrite !list_elem_of_bind.
  destruct (all_pairs_complete gids x y Hxg Hyg Hn) as [Hpair|Hpair]; [left|right];
    exists idxs; (split; [|done]); apply list_elem_of_filter; (split; [|done]); simpl; [done|].
  by rewrite backfill_edge_sym.
Qed.

Lemma edges_connected gs bounds x y :
  partition (length items) gs →
  connected (backfill_edges ctx order items gs bounds) x y ↔ rtsc (mergeable gs bounds) x y.
Proof.
  intros Hp. split.
  - apply rtsc_least; [apply _|]. intros x' y' He.
    destruct (elem_of_backfill_edges _ _ _ _ Hp He) as [_ [->|Hm]]; [reflexivity|by apply rtsc_lr].
  - apply rtsc_least; [apply _|]. intros x' y' Hm.
    destruct (mergeable_edge _ _ _ _ Hp Hm); [by apply rtsc_lr|by apply rtsc_rl].
Qed.
End edges.

(** ** Rebuilding the groups *)

Section rebuild.
Context (gs0 : list (list nat)) (p0 : list nat) (bounds : list (option bstring)).
Context (Hf0 : forest p0) (Hlen : length p0 = length gs0).

(** After the old groups before [k]: the new groups hold their members, grouped by root. *)
Record rebuilt_ok (k : nat) (r : rebuilt) : Prop := {
  rb_roots : same_roots p0 (re_parent r);
  rb_bounds : length (new_bounds r) = length (new_groups r);
  rb_map : ∀ x ng, root_to_new r !! x = Some ng → (ng < length (new_groups r))%nat;
  rb_inj : ∀ x y ng, root_to_new r !! x = Some ng → root_to_new r !! y = Some ng → x = y;
  rb_mem : ∀ ng i, mem (new_groups r) ng i ↔
    ∃ og x, (og < k)%nat ∧ mem gs0 og i ∧ root p0 og x ∧ root_to_new r !! x = Some ng;
  rb_dom : ∀ og x, (og < k)%nat → root p0 og x → is_Some (root_to_new r !! x);
  rb_perm : concat (new_groups r) ≡ₚ concat (take k gs0);
  rb_ne : (∀ g, g ∈ gs0 → g ≠ []) → ∀ g, g ∈ new_groups r → g ≠ [] }.

Lemma concat_append_at (gs : list (list nat)) gid g l :
  gs !! gid = Some g → concat (<[gid := g ++ l]> gs) ≡ₚ concat gs ++ l.
Proof.
  revert gid. induction gs as [|g0 gs IH]; intros [|gid]; simpl; try done.
  - intros [= ->]. rewrite <- !(assoc_L (++)). by rewrite (Permutation_app_comm l).
  - intros Hg. rewrite IH by done. by rewrite <- !(assoc_L (++)).
Qed.

Lemma mem_append gs gid g l gid' j :
  gs !! gid = Some g → mem (<[gid := g ++ l]> gs) gid' j ↔ mem gs gid' j ∨ (gid' = gid ∧ j ∈ l).
Proof.
  intros Hg. assert (gid < length gs)%nat by (by eapply lookup_lt_Some). unfold mem.
  destruct (decide (gid' = gid)) as [->|Hn].
  - rewrite list_lookup_insert_eq by done. rewrite Hg. split.
    + intros (g' & [= <-] & [?|?]%elem_of_app); [left; eauto|by right].
    + intros [(g' & [= <-] & ?)|[_ ?]]; eexists; (split; [done|]); apply elem_of_app; auto.
  - rewrite list_lookup_insert_ne by done. naive_solver.
Qed.

(** What [new_group_of] guarantees. *)
Record slot_ok (x ng : nat) (r r1 : rebuilt) : Prop := {
  sl_parent : re_parent r1 = re_parent r;
  sl_bounds : length (new_bounds r1) = length (new_groups r1);
  sl_x : root_to_new r1 !! x = Some ng;
  sl_map : ∀ y ng, root_to_new r1 !! y = Some ng → (ng < length (new_groups r1))%nat;
  sl_inj : ∀ y z ng, root_to_new r1 !! y = Some ng → root_to_new r1 !! z = Some ng → y = z;
  sl_mem : ∀ ng i, mem (new_groups r1) ng i ↔ mem (new_groups r) ng i;
  sl_old : ∀ y ng, root_to_new r !! y = Some ng → root_to_new r1 !! y = Some ng;
  sl_back : ∀ y ng, root_to_new r1 !! y = Some ng →
    root_to_new r !! y = Some ng ∨ (y = x ∧ root_to_new r !! x = None);
  sl_concat : concat (new_groups r1) = concat (new_groups r);
  sl_groups : ∀ ng' g', new_groups r1 !! ng' = Some g' → new_groups r !! ng' = Some g' ∨ ng' = ng }.

Lemma new_group_of_ok x r :
  length (new_bounds r) = length (new_groups r) →
  (∀ y ng, root_to_new r !! y = Some ng → (ng < length (new_groups r))%nat) →
  (∀ y z ng, root_to_new r !! y = Some ng → root_to_new r !! z = Some ng → y = z) →
  ∃ ng r1, new_group_of bounds x r = (ng, r1) ∧ slot_ok x ng r r1.
Proof.
  destruct r as [rp rm rg rbs]. cbn [re_parent root_to_new new_groups new_bounds].
  intros Hb Hm Hi. unfold new_group_of. cbn [root_to_new]. destruct (rm !! x) as [ng|] eqn:Ex.
  - eexists ng, _. split; [reflexivity|]. split; naive_solver.
  - eexists _, _. split; [reflexivity|].
    split; cbn; rewrite ?length_app.
    + done.
    + simpl. by rewrite Hb.
    + apply lookup_insert_eq.
    + intros y ng [[_ <-]|[_ Hy]]%lookup_insert_Some; simpl; [lia|]. apply Hm in Hy. lia.
    + intros y z ng [[<- <-]|[_ Hy]]%lookup_insert_Some [[<- E]|[_ Hz]]%lookup_insert_Some.
      * done.
      * apply Hm in Hz. lia.
      * apply Hm in Hy. lia.
      * by eapply Hi.
    + intros ng i. unfold mem. setoid_rewrite lookup_snoc. split; [|naive_solver].
      intros (g' & [?|[-> ->]] & Hin); [eauto|]. by apply elem_of_nil in Hin.
    + intros y ng Hy. rewrite lookup_insert_ne; [done|]. intros ->. congruence.
    + intros y ng [[<- _]|[_ Hy]]%lookup_insert_Some; [by right|by left].
    + by rewrite concat_app, app_nil_r.
    + intros ng' g' [?|[-> ->]]%lookup_snoc; [by left|by right].
Qed.

Lemma rebuild_step_ok k g r :
  rebuilt_ok k r → gs0 !! k = Some g →
  ∃ r', rebuild_step bounds k g r = Ok r' ∧ rebuilt_ok (S k) r'.
Proof.
  intros [Hr Hb Hm Hi Hme Hd Hp Hne] Hk. unfold rebuild_step.
  assert (k < length gs0)%nat as Hlt by (by eapply lookup_lt_Some).
  assert (length (re_parent r) = length gs0) as Hlr by (destruct Hr; congruence).
  destruct (find_ok (re_parent r) k (S (length (re_parent r)))) as (x & q & -> & Hx & Hq);
    [by eapply same_roots_forest|lia|lia|].
  rewrite bind_ok. cbv beta iota. apply (same_roots_iff _ _ _ _ Hf0 Hr) in Hx.
  assert (same_roots p0 q) as Hrq by (by transitivity (re_parent r)).
  match goal with |- context [new_group_of bounds x ?s] =>
    destruct (new_group_of_ok x s Hb Hm Hi)
      as (ng & r1 & -> & [Eq Hb1 Hx1 Hm1 Hi1 Hme1 Hold Hback Hc1 Hg1]);
    change (re_parent s) with q in Eq; change (root_to_new s) with (root_to_new r) in Hold, Hback;
    change (new_groups s) with (new_groups r) in Hme1, Hc1, Hg1
  end.
  destruct (get_at_lt (E := Empty_set) (new_groups r1) ng) as (g1 & Hgl & ->); [by eapply Hm1|].
  rewrite bind_ok.
  match goal with |- context [get_at (new_bounds ?s) ng] => set (r2 := s) end.
  assert (∃ b, get_at (new_bounds r2) ng = Ok b :> total_res _) as [b ->].
  { destruct (get_at_lt (E := Empty_set) (new_bounds r1) ng) as (b & _ & Eb).
    { rewrite Hb1. by eapply Hm1. } by exists b. }
  rewrite bind_ok.
  assert (rebuilt_ok (S k) r2) as Hok2.
  { split.
    - change (re_parent r2) with (re_parent r1). by rewrite Eq.
    - change (length (new_bounds r1) = length (<[ng := g1 ++ g]> (new_groups r1))).
      by rewrite length_insert.
    - intros y ng' Hy. change (ng' < length (<[ng := g1 ++ g]> (new_groups r1)))%nat.
      rewrite length_insert. by eapply Hm1.
    - exact Hi1.
    - intros ng' i. change (new_groups r2) with (<[ng := g1 ++ g]> (new_groups r1)).
      change (root_to_new r2) with (root_to_new r1).
      rewrite (mem_append _ _ _ _ _ _ Hgl), Hme1, Hme. split.
      + intros [(og & y & ? & ? & ? & Hy)|[-> Hin]].
        * exists og, y. split; [lia|]. auto.
        * exists k, x. split; [lia|]. split; [by exists g|]. auto.
      + intros (og & y & Hog & Hmo & Hro & Hy). destruct (decide (og = k)) as [->|Hne'].
        * right. assert (y = x) as -> by (by eapply root_det). split; [congruence|].
          destruct Hmo as (g' & ? & ?). congruence.
        * left. exists og, y. split; [lia|]. split; [done|]. split; [done|].
          destruct (Hback _ _ Hy) as [?|[-> Hnone]]; [done|].
          destruct (Hd og x ltac:(lia) Hro) as [? ?]. congruence.
    - intros og y Hog Hro. change (root_to_new r2) with (root_to_new r1).
      destruct (decide (og = k)) as [->|Hne'].
      + rewrite (root_det _ _ _ _ Hro Hx). by eexists.
      + destruct (Hd og y ltac:(lia) Hro) as [ng' Hng']. exists ng'. by apply Hold.
    - change (new_groups r2) with (<[ng := g1 ++ g]> (new_groups r1)).
      rewrite (concat_append_at _ _ _ _ Hgl), Hc1, Hp, (take_S_r _ _ _ Hk), concat_app.
      simpl. by rewrite app_nil_r.
    - intros Hall g' [ng' Hg']%list_elem_of_lookup.
      change (new_groups r2) with (<[ng := g1 ++ g]> (new_groups r1)) in Hg'.
      assert (g ≠ []) as Hgne by (eapply Hall, list_elem_of_lookup_2, Hk).
      apply list_lookup_insert_Some in Hg' as [(-> & <- & _)|[Hn Hg']]; [by destruct g1, g|].
      apply Hne; [done|]. destruct (Hg1 _ _ Hg') as [?| ->]; [by eapply list_elem_of_lookup_2|done]. }
  destruct (mid_present b); [by eexists|].
  destruct (mid_present (bounds !! k ≫= id)) as [m|]; [|by eexists].
  eexists. split; [reflexivity|]. destruct Hok2 as [A1 A2 A3 A4 A5 A6 A7 A8]. split; try done.
  change (length (<[ng := Some m]> (new_bounds r2)) = length (new_groups r2)).
  by rewrite length_insert.
Qed.

Lemma rebuild_ok r0 :
  re_parent r0 = p0 → root_to_new r0 = ∅ → new_groups r0 = [] → new_bounds r0 = [] →
  ∃ r, rebuild bounds 0 gs0 r0 = Ok r ∧ rebuilt_ok (length gs0) r.
Proof.
  intros E1 E2 E3 E4.
  assert (∀ l k r, (∀ j, l !! j = gs0 !! (k + j)%nat) → (k + length l = length gs0)%nat →
    rebuilt_ok k r → ∃ r', rebuild bounds k l r = Ok r' ∧ rebuilt_ok (length gs0) r') as Hgo.
  { induction l as [|g l IH]; intros k r Hl Hn Hr.
    - simpl in Hn. exists r. by replace (length gs0) with k by lia.
    - destruct (rebuild_step_ok k g r Hr) as (r' & E & Hr').
      { rewrite <- (Nat.add_0_r k), <- Hl. done. }
      simpl. rewrite E, bind_ok. apply IH; [|simpl in Hn; lia|done].
      intros j. replace (S k + j)%nat with (k + S j)%nat by lia. by rewrite <- Hl. }
  apply Hgo; [done|done|]. split; rewrite ?E1, ?E2, ?E3, ?E4.
  - reflexivity.
  - done.
  - intros x ng Hx. by rewrite lookup_empty in Hx.
  - intros x y ng Hx. by rewrite lookup_empty in Hx.
  - intros ng i. split; [intros (g & Hg & _); done|]. intros (og & x & ? & _). lia.
  - intros og x ?. lia.
  - done.
  - intros _ g Hg. by apply elem_of_nil in Hg.
Qed.
End rebuild.

(** ** Provenance after the rebuild *)

(** Exactly the first item of each group carries the tag [Seed]. *)
Definition tags_ok (gs : list (list nat)) (b : list bound_by) : Prop :=
  ∀ gid i, mem gs gid i → ∃ t, b !! i = Some t ∧ (t = Seed ↔ seed gs gid i).

Lemma bound_by_for_tier2_not_seed l : bound_by_for_tier2 l ≠ Seed.
Proof. unfold bound_by_for_tier2. by destruct (is_strong l). Qed.

Lemma binv_tags `{Platform} ctx items k st : binv ctx items k st → tags_ok (groups st) (item_bound_by st).
Proof.
  intros [Hp Hs Hm _ _] gid i Hi.
  assert (∃ h, seed (groups st) gid h) as [h Hh].
  { destruct Hi as (g & Hg & _). destruct (partition_nonempty _ _ _ _ Hp Hg) as (h & g' & ->).
    exists h. by exists g'. }
  destruct (decide (i = h)) as [->|Hne].
  - destruct (Hs _ _ Hh) as (it & _ & _ & _ & Hb). exists Seed. split; [done|]. by split.
  - destruct (Hm _ _ _ Hh Hi Hne) as (b & Hb & Ht). exists b. split; [done|]. split.
    + intros ->. destruct Ht as [[? _]|[? _]]; [done|]. by destruct (bound_by_for_tier2_not_seed (Grouping.identity ctx)).
    + intros Hi'. destruct Hh, Hi'. congruence.
Qed.

Section reclassify.
Context (ctx : grouping_context) (items : list scan_item).

Lemma reclassify_member_length sm idx b : length (reclassify_member ctx items sm idx b) = length b.
Proof. unfold reclassify_member. repeat case_match; by rewrite ?length_insert. Qed.

Lemma reclassify_member_ne sm idx b j : j ≠ idx → reclassify_member ctx items sm idx b !! j = b !! j.
Proof. intros Hn. unfold reclassify_member. repeat case_match; by rewrite ?list_lookup_insert_ne by congruence. Qed.

Lemma reclassify_member_eq sm idx b :
  (idx < length b)%nat → ∃ t, reclassify_member ctx items sm idx b !! idx = Some t ∧ t ≠ Seed.
Proof.
  intros Hlt. unfold reclassify_member. destruct (lookup_of_lt b idx Hlt) as [t Ht]. rewrite Ht.
  destruct t; try by eexists. rewrite list_lookup_insert_eq by done. eexists. split; [done|].
  repeat case_match; try done; apply bound_by_for_tier2_not_seed.
Qed.

Lemma reclassify_rest sm rest b :
  (∀ i, i ∈ rest → (i < length b)%nat) →
  let b' := foldl (λ b idx, reclassify_member ctx items sm idx b) b rest in
  length b' = length b ∧ (∀ j, (j ∉ rest) → b' !! j = b !! j) ∧
  (∀ j, j ∈ rest → ∃ t, b' !! j = Some t ∧ t ≠ Seed).
Proof.
  revert b. induction rest as [|i rest IH]; intros b Hlt; simpl.
  - split; [done|]. split; [done|]. intros j Hj. by apply elem_of_nil in Hj.
  - destruct (IH (reclassify_member ctx items sm i b)) as (Hl & Hout & Hin).
    { intros j Hj. rewrite reclassify_member_length. apply Hlt. by right. }
    rewrite reclassify_member_length in Hl. split; [done|]. split.
    + intros j [Hn Hj]%not_elem_of_cons. rewrite Hout by done. by apply reclassify_member_ne.
    + intros j Hj. destruct (decide (j ∈ rest)) as [?|Hnr]; [by apply Hin|].
      apply elem_of_cons in Hj as [->|?]; [|done]. rewrite Hout by done.
      apply reclassify_member_eq. apply Hlt. by left.
Qed.

Lemma reclassify_tags (gs : list (list nat)) b :
  NoDup (concat gs) → (∀ g, g ∈ gs → g ≠ []) → (∀ i, i ∈ concat gs → (i < length b)%nat) →
  let b' := foldl (reclassify_group ctx items) b gs in
  length b' = length b ∧ (∀ j, (j ∉ concat gs) → b' !! j = b !! j) ∧ tags_ok gs b'.
Proof.
  revert b. induction gs as [|g gs IH]; intros b Hnd Hne Hlt.
  { split; [done|]. split; [done|]. intros gid i (g & Hg & _). done. }
  simpl. destruct g as [|h rest]; [destruct (Hne []); [by left|done]|]. simpl in Hnd, Hlt.
  apply NoDup_cons in Hnd as [Hh Hnd]. apply NoDup_app in Hnd as (Hndr & Hd & Hnd).
  rewrite elem_of_app in Hh.
  assert (h < length b)%nat as Hhlt by (apply Hlt; by left).
  destruct (reclassify_rest (items !! h ≫= message_id_norm) rest (<[h := Seed]> b)) as (Hl1 & Hout1 & Hin1).
  { intros i Hi. rewrite length_insert. apply Hlt. right. apply elem_of_app. by left. }
  rewrite length_insert in Hl1.
  change (reclassify_group ctx items b (h :: rest)) with
    (foldl (λ b idx, reclassify_member ctx items (items !! h ≫= message_id_norm) idx b) (<[h := Seed]> b) rest).
  set (b1 := foldl _ (<[h := Seed]> b) rest) in *.
  destruct (IH b1 Hnd) as (Hl & Hout & Hin).
  { intros g Hg. apply Hne. by right. }
  { intros i Hi. rewrite Hl1. apply Hlt. right. apply elem_of_app. by right. }
  split; [congruence|]. split.
  - intros j Hj. cbn [app] in Hj. rewrite not_elem_of_cons, not_elem_of_app in Hj. destruct Hj as (? & ? & ?).
    rewrite Hout, Hout1 by done. by rewrite list_lookup_insert_ne.
  - intros [|gid] i (g & Hg & Hi); simpl in Hg.
    + injection Hg as <-. apply elem_of_cons in Hi as [->|Hi].
      * exists Seed. rewrite Hout by tauto. rewrite Hout1 by tauto.
        rewrite list_lookup_insert_eq by done. split; [done|]. split; [|done]. intros _. by exists rest.
      * destruct (Hin1 i Hi) as (t & Ht & Hns). exists t.
        rewrite Hout by (by apply Hd). split; [done|]. split; [done|]. intros [g' [= -> _]]. tauto.
    + destruct (Hin gid i) as (t & ? & Hiff); [by exists g|]. exists t. split; [done|]. exact Hiff.
Qed.
End reclassify.

(** ** The pass *)

Definition same_group (gs : list (list nat)) (i j : nat) : Prop :=
  ∃ gid, mem gs gid i ∧ mem gs gid j.

Lemma mem_sorted gs gid i : mem (map (merge_sort Nat.le) gs) gid i ↔ mem gs gid i.
Proof.
  unfold mem. setoid_rewrite list_lookup_fmap. setoid_rewrite fmap_Some. split.
  - intros (g & (g' & Hg & ->) & Hi). exists g'. by rewrite merge_sort_Permutation in Hi.
  - intros (g & Hg & Hi). eexists. split; [by eexists|]. by rewrite merge_sort_Permutation.
Qed.

Lemma concat_sorted gs : concat (map (merge_sort Nat.le) gs) ≡ₚ concat gs.
Proof. induction gs as [|g gs IH]; simpl; [done|]. by rewrite merge_sort_Permutation, IH. Qed.

Lemma partition_sorted n gs :
  concat gs ≡ₚ seq 0 n → (∀ g, g ∈ gs → g ≠ []) → partition n (map (merge_sort Nat.le) gs).
Proof.
  intros Hp Hne. split; [by rewrite concat_sorted|].
  apply Forall_forall. intros g' (g & -> & Hg)%list_elem_of_fmap.
  assert (NoDup g) as Hnd.
  { assert (NoDup (concat gs)) as Hn by (rewrite Hp; apply NoDup_seq). clear -Hn Hg.
    induction gs as [|g0 gs IH]; [by apply elem_of_nil in Hg|]. simpl in Hn.
    apply NoDup_app in Hn as (? & _ & ?). apply elem_of_cons in Hg as [->|?]; auto. }
  split.
  - intros E. apply (Hne g Hg). apply Permutation_nil_r. by rewrite <- (merge_sort_Permutation Nat.le g), E.
  - assert (StronglySorted Nat.le (merge_sort Nat.le g)) as Hs by (apply StronglySorted_merge_sort; apply _).
    assert (NoDup (merge_sort Nat.le g)) as Hnd' by (by rewrite merge_sort_Permutation).
    revert Hs Hnd'. generalize (merge_sort Nat.le g) as l. clear.
    induction l as [|x l IH]; intros Hs Hnd; [constructor|].
    apply StronglySorted_cons in Hs as [Hx Hs]. apply NoDup_cons in Hnd as [Hnx Hnd].
    apply StronglySorted_cons. split; [|by apply IH]. rewrite Forall_forall in Hx |- *.
    intros y Hy. specialize (Hx y Hy). assert (x ≠ y) by (intros ->; done). unfold Nat.le in Hx. lia.
Qed.

Lemma all_roots p : forest p → length (roots p) = length p → ∀ x y, same p x y → x = y.
Proof.
  intros Hf Hl x y (r & Hx & Hy).
  assert (∀ z, (z < length p)%nat → is_root p z) as Hall.
  { intros z Hz. apply elem_of_roots.
    assert (roots p ≡ₚ seq 0 (length p)) as E; [|rewrite E; apply elem_of_seq; lia].
    apply submseteq_length_Permutation.
    - apply NoDup_submseteq; [apply roots_NoDup|]. intros w Hw%elem_of_roots.
      apply elem_of_seq. apply lookup_lt_Some in Hw. lia.
    - by rewrite length_seq, Hl. }
  assert (∀ z s, root p z s → z = s) as Hself.
  { intros z s [k Hk]. inversion Hk as [|? w ? ? Hw Hn]; [done|]. simplify_eq.
    apply lookup_lt_Some in Hw as Hlt. apply Hall in Hlt. unfold is_root in Hlt. congruence. }
  by rewrite (Hself _ _ Hx), (Hself _ _ Hy).
Qed.

Section pass.
Context `{Platform} (ctx : grouping_context) (order : hash_order) (items : list scan_item).

Lemma pass_spec st :
  binv ctx items (length items) st → indices_ok (length items) st →
  ∃ st', apply_tier1_backfill_pass ctx order items st = Ok st' ∧
    partition (length items) (groups st') ∧ tags_ok (groups st') (item_bound_by st') ∧
    item_eligible st' = item_eligible st ∧
    (tier1_backfill ctx = false →
       groups st' = groups st ∧ item_bound_by st' = item_bound_by st) ∧
    (tier1_backfill ctx = true → ∀ gi gj i j, mem (groups st) gi i → mem (groups st) gj j →
       same_group (groups st') i j ↔ rtsc (mergeable ctx items (groups st) (group_bound_mid st)) gi gj).
Proof.
  intros Hinv Hok. pose proof (bi_part _ _ _ _ Hinv) as Hp. pose proof (binv_tags _ _ _ _ Hinv) as Ht.
  unfold apply_tier1_backfill_pass.
  destruct (decide (length (groups st) = 0%nat ∨ items = [])) as [Hz|Hnz].
  { exists st. repeat (split; [done|]). intros _ gi gj i j Hi _. exfalso.
    assert (i < length items)%nat as Hlt by (apply (partition_mem _ _ _ Hp); eauto).
    apply mem_lt in Hi. destruct Hz as [Hz | ->]; [lia|]. simpl in Hlt. lia. }
  set (edges := backfill_edges ctx order items (groups st) (group_bound_mid st)).
  destruct (unite_all_components bump_saturating (length (groups st)) edges)
    as (m & uf & -> & (Hf & Hlp & _) & Hm & Hcomp).
  { apply Forall_forall. intros [x y] He. by eapply elem_of_backfill_edges in He as [? _]. }
  rewrite bind_ok. cbv beta iota.
  assert (∀ x y, (x < length (groups st))%nat → (y < length (groups st))%nat →
    same (parent uf) x y ↔ rtsc (mergeable ctx items (groups st) (group_bound_mid st)) x y) as Hsame.
  { intros x y Hx Hy. rewrite Hcomp by done. by apply edges_connected. }
  assert (∀ gi gj i j, mem (groups st) gi i → mem (groups st) gj j →
    same_group (groups st) i j ↔ gi = gj) as Hsg.
  { intros gi gj i j Hi Hj. split.
    - intros (gid & Hi' & Hj'). transitivity gid; by eapply partition_unique.
    - intros <-. by exists gi. }
  destruct (negb (tier1_backfill ctx) || (m =? 0)) eqn:Hskip.
  - eexists. split; [done|]. repeat (split; [done|]). intros Hbf gi gj i j Hi Hj.
    change (groups _) with (groups st) at 1. rewrite Hsg by done.
    rewrite <- Hsame by (by eapply mem_lt). rewrite Hbf in Hskip. apply Z.eqb_eq in Hskip. split.
    + intros <-. apply same_refl; [done|]. rewrite Hlp. by eapply mem_lt.
    + apply all_roots; [done|]. rewrite Hlp. lia.
  - apply orb_false_iff in Hskip as [Hbf _]. apply negb_false_iff in Hbf.
    destruct (rebuild_ok (groups st) (parent uf) (group_bound_mid st) Hf Hlp
      {| re_parent := parent uf; root_to_new := ∅; new_groups := []; new_bounds := [] |}
      eq_refl eq_refl eq_refl eq_refl) as (r & Er & Hr).
    match goal with |- context [rebuild ?b ?z ?g ?r0] =>
      assert (rebuild b z g r0 = Ok r) as -> by exact Er end.
    rewrite bind_ok.
    destruct Hr as [_ _ _ Hinj Hmem Hdom Hperm Hne]. rewrite firstn_all in Hperm.
    assert (∀ g, g ∈ new_groups r → g ≠ []) as Hne'.
    { apply Hne. intros g [gid Hg]%list_elem_of_lookup.
      by destruct (partition_nonempty _ _ _ _ Hp Hg) as (? & ? & ->). }
    assert (partition (length items) (map (merge_sort Nat.le) (new_groups r))) as Hp'.
    { apply partition_sorted; [|done]. by rewrite Hperm, (pt_perm _ _ Hp). }
    eexists. split; [done|]. split; [exact Hp'|]. split; [|split; [done|split; [congruence|]]].
    + apply reclassify_tags.
      * rewrite (pt_perm _ _ Hp'). apply NoDup_seq.
      * intros g [gid Hg]%list_elem_of_lookup.
        by destruct (partition_nonempty _ _ _ _ Hp' Hg) as (? & ? & ->).
      * intros i. rewrite (pt_perm _ _ Hp'), elem_of_seq. change (item_bound_by _) with (item_bound_by st).
        rewrite (io_by _ _ Hok). lia.
    + intros _ gi gj i j Hi Hj.
      change (groups _) with (map (merge_sort Nat.le) (new_groups r)) at 1.
      rewrite <- Hsame by (by eapply mem_lt). unfold same_group. setoid_rewrite mem_sorted.
      setoid_rewrite Hmem. split.
      * intros (ng & (og & x & _ & Ho & Hx & Hxn) & (og' & y & _ & Ho' & Hy & Hyn)).
        rewrite (partition_unique _ _ _ _ _ Hp Hi Ho), (partition_unique _ _ _ _ _ Hp Hj Ho').
        assert (y = x) as -> by (by eapply Hinj). by exists x.
      * intros (x & Hx & Hy). destruct (Hdom gi x (mem_lt _ _ _ Hi) Hx) as [ng Hng].
        exists ng. split; [exists gi, x|exists gj, x]; (split; [by eapply mem_lt|done]).
Qed.
End pass.
