(* ===== verification/GroupTheorems.v ===== *)
(** * What grouping guarantees (keepset.rs)

    The theorems about [group_candidates_with_stats], for every order in which
    the hash maps of the backfill pass yield their values. *)

From Stdlib Require Import Sorted.
From stdpp Require Import relations.
From S2P Require Import Prelude UnionFind Text Recipient Grouping DedupIndex KeepGroup GroupInv Backfill.
#[local] Open Scope Z_scope.

Section theorems.
Context `{Platform} (ctx : grouping_context) (order : hash_order) (items : list scan_item).
Abbreviation n := (length items).

(** The loop and the pass, with the invariants that hold after the loop. *)
Lemma grouping_runs (I : nat → group_state → Prop) :
  I 0%nat (init_groups n) →
  (∀ k item st st', items !! k = Some item → binv ctx items k st → indices_ok n st →
     bind_step ctx k item st st' → item_eligible st' = <[k := eligible ctx item]> (item_eligible st) →
     I k st → I (S k) st') →
  ∃ st out, group_loop ctx 0 items (init_groups n) = Ok st ∧ binv ctx items n st ∧ I n st ∧
    group_candidates_with_stats ctx order items = Ok out ∧
    partition n (out_groups out) ∧ tags_ok (out_groups out) (out_bound_by out) ∧
    (tier1_backfill ctx = false → out_groups out = groups st ∧ out_bound_by out = item_bound_by st) ∧
    (tier1_backfill ctx = true → ∀ gi gj i j, mem (groups st) gi i → mem (groups st) gj j →
       same_group (out_groups out) i j ↔
       rtsc (mergeable ctx items (groups st) (group_bound_mid st)) gi gj).
Proof.
  intros H0 Hstep. destruct (group_loop_ind ctx items I H0 Hstep) as (st & E & Hb & Hok & HI).
  destruct (pass_spec ctx order items st Hb Hok) as (st' & E' & Hp & Ht & _ & Hoff & Hon).
  exists st. eexists. split; [done|]. split; [done|]. split; [done|].
  unfold group_candidates_with_stats. rewrite E, bind_ok, E', bind_ok.
  split; [reflexivity|]. cbn [out_groups out_bound_by]. auto.
Qed.

Lemma grouping_runs_plain :
  ∃ st out, group_loop ctx 0 items (init_groups n) = Ok st ∧ binv ctx items n st ∧
    group_candidates_with_stats ctx order items = Ok out ∧
    partition n (out_groups out) ∧ tags_ok (out_groups out) (out_bound_by out) ∧
    (tier1_backfill ctx = false → out_groups out = groups st ∧ out_bound_by out = item_bound_by st) ∧
    (tier1_backfill ctx = true → ∀ gi gj i j, mem (groups st) gi i → mem (groups st) gj j →
       same_group (out_groups out) i j ↔
       rtsc (mergeable ctx items (groups st) (group_bound_mid st)) gi gj).
Proof.
  destruct (grouping_runs (λ _ _, True)) as (st & out & ? & ? & _ & ?); [done..|].
  exists st, out. auto.
Qed.

(** C16 Grouping always returns.  The groups partition the item numbers, each
    group is a nonempty list in scan order, and an item's provenance is [Seed]
    exactly when the item is the first of its group -- with the backfill pass on
    or off and whatever the order of its hash map. *)
Theorem grouping_partitions :
  ∃ out, group_candidates_with_stats ctx order items = Ok out ∧
    concat (out_groups out) ≡ₚ seq 0 n ∧
    Forall (λ g, g ≠ [] ∧ StronglySorted lt g) (out_groups out) ∧
    ∀ gid g i, out_groups out !! gid = Some g → i ∈ g →
      ∃ b, out_bound_by out !! i = Some b ∧ (b = Seed ↔ head g = Some i).
Proof.
  destruct grouping_runs_plain as (st & out & _ & _ & E & [Hp Hs] & Ht & _).
  exists out. split; [done|]. split; [done|]. split; [done|].
  intros gid g i Hg Hi. destruct (Ht gid i) as (b & Hb & Hiff); [by exists g|].
  exists b. split; [done|]. rewrite Hiff. unfold seed. rewrite Hg.
  destruct g; simpl; naive_solver.
Qed.

(** Provenance is truthful.  Without the backfill pass, a member bound by
    Message-ID shares its Message-ID key with an earlier member of its group,
    and a member bound by content shares the content key of the group's first
    item, both being eligible for Tier 2. *)
Theorem provenance_sound out gid h g i b :
  tier1_backfill ctx = false → group_candidates_with_stats ctx order items = Ok out →
  out_groups out !! gid = Some (h :: g) → i ∈ g → out_bound_by out !! i = Some b →
  (b = MessageId ∧ ∃ j key, j ∈ h :: g ∧ (j < i)%nat ∧
     has_mid_key ctx items i key ∧ has_mid_key ctx items j key)
  ∨ (b = bound_by_for_tier2 (Grouping.identity ctx) ∧ tier2_enabled ctx = true ∧
     ∃ key, has_hash_key ctx items i key ∧ has_hash_key ctx items h key).
Proof.
  intros Hbf E Hg Hi Hb. destruct grouping_runs_plain as (st & out' & _ & Hinv & E' & Hp & _ & Hoff & _).
  assert (out' = out) as -> by congruence. destruct (Hoff Hbf) as [Eg Eb]. rewrite Eg in Hg, Hp. rewrite Eb in Hb.
  assert (seed (groups st) gid h) as Hs by (by exists g).
  assert (mem (groups st) gid i) as Hm by (exists (h :: g); split; [done|by right]).
  assert (i ≠ h) as Hne.
  { intros ->. destruct Hp as [_ Hall]. rewrite Forall_lookup in Hall. destruct (Hall _ _ Hg) as [_ Hss].
    apply StronglySorted_inv in Hss as [_ Hf]. rewrite Forall_forall in Hf. specialize (Hf h Hi). lia. }
  destruct (bi_member _ _ _ _ Hinv _ _ _ Hs Hm Hne) as (b' & Hb' & Htied).
  assert (b' = b) as -> by congruence. destruct Htied as [(-> & j & key & (g' & Hg' & Hj) & ?)|?]; [|by right].
  left. split; [done|]. exists j, key. simplify_eq. split; [done|]. done.
Qed.

(** C19 With cross-MID joins blocked (the default) and no backfill, the messages
    of a group that carry a Message-ID all carry the same one. *)
Theorem one_message_id_per_group out i j it jt m m' :
  tier1_backfill ctx = false → block_cross_mid ctx = true → no_nul ctx items →
  group_candidates_with_stats ctx order items = Ok out →
  same_group (out_groups out) i j → items !! i = Some it → items !! j = Some jt →
  item_mid it = Some m → item_mid jt = Some m' → m = m'.
Proof.
  intros Hbf Hblock Hn E (gid & Hi & Hj) Hit Hjt Hm Hm'.
  destruct (grouping_runs (λ _ st, bounds_nonempty st ∧ one_mid items st))
    as (st & out' & _ & _ & [_ Hone] & E' & _ & _ & Hoff & _).
  - split; [intros g; done|]. intros g ? ? ? (? & ? & _). done.
  - intros k item st st' Hk Hb Hok Hs _ [H1 H2]. split; [by eapply bounds_nonempty_step|].
    by eapply one_mid_step.
  - assert (out' = out) as -> by congruence. destruct (Hoff Hbf) as [Eg _]. rewrite Eg in Hi, Hj.
    pose proof (Hone _ _ _ _ Hi Hit Hm). pose proof (Hone _ _ _ _ Hj Hjt Hm'). congruence.
Qed.

(** *** Without Tier 2 *)

(** The MID map lists exactly the keys of each group's members, which all share
    one key in a group of several. *)
Definition mids_exact (st : group_state) : Prop :=
  (∀ gid i key, mem (groups st) gid i → has_mid_key ctx items i key →
     mid_to_group st !! key = Some gid) ∧
  (∀ gid i j, mem (groups st) gid i → mem (groups st) gid j → i ≠ j →
     ∃ key, has_mid_key ctx items i key ∧ has_mid_key ctx items j key).

Lemma has_mid_key_det i key key' : has_mid_key ctx items i key → has_mid_key ctx items i key' → key = key'.
Proof. intros (? & ? & ? & ? & <-) (? & ? & ? & ? & <-). congruence. Qed.

Lemma mids_exact_step k item st st' :
  tier2_enabled ctx = false → verify ctx = VerifyOff → items !! k = Some item →
  binv ctx items k st → indices_ok n st → bind_step ctx k item st st' →
  mids_exact st → mids_exact st'.
Proof.
  intros Ht2 Hv Hk Hinv Hok Hstep [Hmap Hshare].
  destruct Hstep as
    [gid (m & Hmid & Hl & _) (g & Hg & Eg & _) Ebm Em
    |gid gmid _ (Ht2' & _) _ _
    |Hno _ Eg Ebm _ _ Em _ _]; [|congruence|].
  - assert (has_mid_key ctx items k (item_mid_key ctx item m)) as Hkk by (by exists item, m).
    destruct (bi_mids _ _ _ _ Hinv _ _ Hl) as (j0 & jt & m' & Hj0 & Hjt & Hjm & Hkey & _).
    assert (has_mid_key ctx items j0 (item_mid_key ctx item m)) as Hk0 by (by exists jt, m').
    assert (∀ j, mem (groups st) gid j → has_mid_key ctx items j (item_mid_key ctx item m)) as Hall.
    { intros j Hj. destruct (decide (j = j0)) as [->|Hne]; [done|].
      destruct (Hshare _ _ _ Hj Hj0 Hne) as (key & H1 & H2). by rewrite (has_mid_key_det _ _ _ Hk0 H2). }
    split.
    + intros gid' i key Hi Hik. rewrite Em. rewrite Eg, (mem_push _ _ _ _ _ _ Hg) in Hi.
      destruct Hi as [Hi|[-> ->]]; [by eapply Hmap|]. by rewrite (has_mid_key_det _ _ _ Hik Hkk).
    + intros gid' i j Hi Hj Hne. rewrite Eg, (mem_push _ _ _ _ _ _ Hg) in Hi. rewrite Eg, (mem_push _ _ _ _ _ _ Hg) in Hj.
      destruct Hi as [Hi|[-> ->]], Hj as [Hj|[E ->]]; try subst gid'.
      * by eapply Hshare.
      * exists (item_mid_key ctx item m). auto.
      * exists (item_mid_key ctx item m). auto.
      * done.
  - split.
    + intros gid' i key Hi Hik. rewrite Em. rewrite Eg, mem_new in Hi.
      assert (∀ key, has_mid_key ctx items k key → mid_to_group st !! key = None) as Hfresh.
      { intros key' (it & m & Hit & Hm & <-). assert (it = item) as -> by congruence.
        apply eq_None_not_Some. intros [gid Hgid]. apply (Hno gid). exists m.
        split; [done|]. split; [done|]. unfold tier1_split. rewrite Hv. tauto. }
      destruct Hi as [Hi|[-> ->]].
      * pose proof (Hmap _ _ _ Hi Hik) as Hold. destruct (item_mid item) as [m|] eqn:Hm; [|done].
        rewrite lookup_insert_ne; [done|]. intros <-.
        rewrite (Hfresh (item_mid_key ctx item m)) in Hold; [done|]. by exists item, m.
      * destruct Hik as (it & m & Hit & Hm & <-). assert (it = item) as -> by congruence.
        rewrite Hm. apply lookup_insert_eq.
    + intros gid' i j Hi Hj Hne. rewrite Eg, mem_new in Hi. rewrite Eg, mem_new in Hj.
      destruct Hi as [Hi|[-> ->]], Hj as [Hj|[? ->]]; subst.
      * by eapply Hshare.
      * apply mem_lt in Hi. lia.
      * apply mem_lt in Hj. lia.
      * done.
Qed.

(** With Tier 2 disabled (and no verification split or backfill) grouping is
    exactly equality of scoped Message-IDs: two different messages are grouped if
    and only if both carry a Message-ID and the keys are equal. *)
Theorem tier2_off_groups_by_mid out i j :
  tier2_enabled ctx = false → verify ctx = VerifyOff → tier1_backfill ctx = false →
  group_candidates_with_stats ctx order items = Ok out → (i < n)%nat → (j < n)%nat → i ≠ j →
  same_group (out_groups out) i j ↔
  ∃ key, has_mid_key ctx items i key ∧ has_mid_key ctx items j key.
Proof.
  intros Ht2 Hv Hbf E Hi Hj Hne. destruct (grouping_runs (λ _ st, mids_exact st))
    as (st & out' & _ & _ & [Hmap Hshare] & E' & Hp & _ & Hoff & _).
  - split; intros gid ? ? (? & ? & _); done.
  - intros k item st st' Hk Hb Hok Hs _ HI. by eapply mids_exact_step.
  - assert (out' = out) as -> by congruence. destruct (Hoff Hbf) as [Eg _]. rewrite Eg in Hp |- *.
    split.
    + intros (gid & H1 & H2). by eapply Hshare.
    + intros (key & H1 & H2). destruct (proj1 (partition_mem _ _ i Hp) Hi) as [gi Hgi].
      destruct (proj1 (partition_mem _ _ j Hp) Hj) as [gj Hgj].
      assert (Some gi = Some gj) as [= ->].
      { by rewrite <- (Hmap _ _ _ Hgi H1), <- (Hmap _ _ _ Hgj H2). }
      by exists gj.
Qed.

(** *** Per-source scope *)

(** Every hash is a SHA-256 digest. *)
Definition digests : Prop := ∀ i it, items !! i = Some it →
  length (scan_content_hash it) = 32%nat ∧
  ∀ h, scan_strong_content_hash it = Some h → length h = 32%nat.

Lemma scan_bind_hash_length i it : digests → items !! i = Some it → length (scan_bind_hash ctx it) = 32%nat.
Proof.
  intros Hd Hi. destruct (Hd i it Hi) as [Hc Hs]. unfold scan_bind_hash, tier2_bind_hash.
  case_match; [|done]. destruct (scan_strong_content_hash it) as [h|]; [by apply Hs|done].
Qed.

Lemma prefix_source p q : scope ctx = PerSource → (Byte.x00 ∉ p) → (Byte.x00 ∉ q) →
  scope_prefix (scope ctx) p = scope_prefix (scope ctx) q → p = q.
Proof. intros -> Hp Hq. simpl. intros E. by apply app_inj_tail in E as [-> _]. Qed.

(** C18 Under per-source scope no group ever holds messages of two source files,
    in whatever mode and with or without the backfill pass. *)
Theorem per_source_never_mixes out i j it jt :
  scope ctx = PerSource → no_nul ctx items → digests →
  group_candidates_with_stats ctx order items = Ok out →
  same_group (out_groups out) i j → items !! i = Some it → items !! j = Some jt →
  path_key it = path_key jt.
Proof.
  intros Hs Hn Hd E Hij Hit Hjt.
  destruct grouping_runs_plain as (st & out' & _ & Hinv & E' & Hp & _ & Hoff & Hon).
  assert (out' = out) as -> by congruence.
  set (src := λ i, path_key <$> (items !! i)).
  assert (∀ gid h, seed (groups st) gid h → ∀ i, mem (groups st) gid i → src i = src h) as Hseed.
  { intros gid h Hh i0. induction i0 as [i0 IH] using lt_wf_ind. intros Hi0.
    destruct (decide (i0 = h)) as [->|Hne]; [done|].
    destruct (bi_member _ _ _ _ Hinv _ _ _ Hh Hi0 Hne)
      as (b & _ & [(_ & j0 & key & Hj0 & Hlt & (i1 & m1 & A1 & A2 & A3) & (j1 & m2 & B1 & B2 & B3))
                  |(_ & _ & key & (i1 & A1 & _ & A3) & (j1 & B1 & _ & B3))]).
    - rewrite <- (IH j0 Hlt Hj0). unfold src. rewrite A1, B1. simpl. f_equal.
      rewrite <- B3 in A3. apply mid_key_inj in A3 as [A3 _]; [|split; by eapply Hn].
      apply prefix_source in A3; [done|done|by eapply Hn|by eapply Hn].
    - unfold src. rewrite A1, B1. simpl. f_equal. rewrite <- B3 in A3.
      apply hash_map_key_inj in A3 as [A3 _]; [|by rewrite (scan_bind_hash_length _ _ Hd A1), (scan_bind_hash_length _ _ Hd B1)].
      apply prefix_source in A3; [done|done|by eapply Hn|by eapply Hn]. }
  assert (∀ gid i j, mem (groups st) gid i → mem (groups st) gid j → src i = src j) as Hgrp.
  { intros gid i0 j0 Hi0 Hj0. destruct Hi0 as (g & Hg & Hi0').
    destruct (partition_nonempty _ _ _ _ (bi_part _ _ _ _ Hinv) Hg) as (h & g' & ->).
    assert (seed (groups st) gid h) as Hh by (by exists g').
    rewrite (Hseed _ _ Hh i0), (Hseed _ _ Hh j0); [done|done|]. by exists (h :: g'). }
  assert (src i = src j) as Hsrc; [|unfold src in Hsrc; rewrite Hit, Hjt in Hsrc; by injection Hsrc].
  destruct (tier1_backfill ctx) eqn:Hbf.
  - assert (i < n ∧ j < n)%nat as [Hi Hj] by (split; by eapply lookup_lt_Some).
    destruct (proj1 (partition_mem _ _ i (bi_part _ _ _ _ Hinv)) Hi) as [gi Hgi].
    destruct (proj1 (partition_mem _ _ j (bi_part _ _ _ _ Hinv)) Hj) as [gj Hgj].
    apply (Hon eq_refl gi gj i j Hgi Hgj) in Hij.
    assert (∀ gi gj, rtsc (mergeable ctx items (groups st) (group_bound_mid st)) gi gj →
      gi = gj ∨ ∃ i j, mem (groups st) gi i ∧ mem (groups st) gj j ∧ src i = src j) as Hchain.
    { intros x y. induction 1 as [x|x y z Hstep _ IH]; [by left|]. right.
      assert (∃ i j, mem (groups st) x i ∧ mem (groups st) y j ∧ src i = src j) as (a & b & Ha & Hb & Hab).
      { destruct Hstep as [(_ & _ & a & b & at_ & bt & ? & ? & Ea & Eb & Ek)
                          |(_ & _ & a & b & at_ & bt & ? & ? & Ea & Eb & Ek)];
          unfold backfill_key in Ek; rewrite Hs in Ek; injection Ek as Ek _;
          [exists a, b|exists b, a]; (split; [done|]); (split; [done|]);
          unfold src; rewrite Ea, Eb; simpl; congruence. }
      destruct IH as [<-|(c & d & Hc & Hd' & Hcd)]; [by exists a, b|].
      exists a, d. split; [done|]. split; [done|]. rewrite Hab, <- Hcd. by eapply Hgrp. }
    destruct (Hchain _ _ Hij) as [->|(a & b & Ha & Hb & Hab)]; [by eapply Hgrp|].
    rewrite (Hgrp _ _ _ Hgi Ha), Hab. by eapply Hgrp.
  - destruct (Hoff eq_refl) as [Eg _]. rewrite Eg in Hij. destruct Hij as (gid & H1 & H2). by eapply Hgrp.
Qed.

(** C17 The backfill pass merges exactly the connected components of the
    mergeable relation: two messages end in one group if and only if a chain of
    mergeable groups links the groups that the loop gave them. *)
Theorem backfill_merges_components :
  tier1_backfill ctx = true →
  ∃ st out, group_loop ctx 0 items (init_groups n) = Ok st ∧
    group_candidates_with_stats ctx order items = Ok out ∧
    ∀ i j gi gj, mem (groups st) gi i → mem (groups st) gj j →
      same_group (out_groups out) i j ↔
      rtsc (mergeable ctx items (groups st) (group_bound_mid st)) gi gj.
Proof.
  intros Hbf. destruct grouping_runs_plain as (st & out & E1 & _ & E2 & _ & _ & _ & Hon).
  exists st, out. split; [done|]. split; [done|]. intros. by apply Hon.
Qed.
End theorems.
