(* ===== verification/StreamGroup.v ===== *)
(** * The streaming index implements the grouping (index.rs, keepset.rs, scan.rs)

    [rebuild_dedup_results_with_ctx] feeds the candidates to the streaming index
    one by one; the keep set groups them all at once.  The two agree: an item is
    unique in the stream exactly when it starts a group, and a duplicate names
    the first item of its group with the same provenance.  The agreement is without the
    backfill pass and needs two side conditions, and two counterexamples
    ([stream_binds_crc_suspects], [adopted_mid_fingerprints_differ]) show that it fails
    without them. *)

From Stdlib Require Import Sorted.
From S2P Require Import Prelude UnionFind Text Recipient Grouping DedupIndex KeepGroup GroupInv Backfill GroupTheorems.
#[local] Open Scope Z_scope.

(** The [MessageRef] of a candidate: the scan's, or a minimal one. *)
Definition message_refs : Type := gmap (bstring * Z) message_ref.
Definition ref_of (refs : message_refs) (c : scan_item) : message_ref :=
  default {| pst_index := 0; pst_name := source_pst (locus c);
             folder_path := locus_folder_path (locus c); nid := locus_nid (locus c);
             subject := []; ref_submit_time := None; sender := []; ref_size := scan_size c |}
    (refs !! (source_pst (locus c), locus_nid (locus c))).

Section stream.
Context `{Platform} (ctx : grouping_context) (refs : message_refs).

(** The [IndexItem] of a candidate. *)
Definition to_index_item (el : bool) (c : scan_item) : index_item := {|
  message_id := message_id_norm c; content_hash := scan_content_hash c;
  strong_content_hash := scan_strong_content_hash c; tier2_eligible := el;
  source_key := path_key c; item_fps := scan_fps c; item_ref := ref_of refs c |}.

(** One iteration of [rebuild_dedup_results_with_ctx]: eligibility with its
    counters, the preview counter, the insertion. *)
Definition stream_step (c : scan_item) (ix : dedup_index) : dedup_result * dedup_index :=
  let '(el, s) := eligibility ctx c (stats ix) in
  let ix := ix {{ stats := s }} in
  let ix := if preview_bytes_over_budget c then record_preview_over_budget ix else ix in
  check_and_insert_item ctx (to_index_item el c) ix.

(** The candidates in scan order, with the results in the same order. *)
Fixpoint stream_loop (cs : list scan_item) (ix : dedup_index) : list dedup_result * dedup_index :=
  match cs with
  | [] => ([], ix)
  | c :: cs =>
      let '(r, ix) := stream_step c ix in
      let '(rs, ix) := stream_loop cs ix in (r :: rs, ix)
  end.

(** [total_savings]: the sizes of the duplicates, saturating. *)
Fixpoint total_savings (cs : list scan_item) (rs : list dedup_result) (acc : Z) : Z :=
  match cs, rs with
  | c :: cs, r :: rs =>
      total_savings cs rs (if is_unique r then acc else Z.min (acc + scan_size c) (2 ^ 64 - 1))
  | _, _ => acc
  end.
End stream.

Section simulation.
Context `{Platform} (ctx : grouping_context) (refs : message_refs) (items : list scan_item).
Context (Hdig : digests items).

(** A CRC-suspect item is treated alike by both paths: the readable-body guard is
    on, or the operator lets such items through, or there are none. *)
Definition crc_consistent : Prop :=
  enforce_readable_body ctx = true ∨ allow_crc_suspect_tier2 ctx = true ∨
  ∀ i it, items !! i = Some it → (CrcSuspect ∉ degraded_reasons (integrity it)).

(** Under body verification, items with one bind hash have one body fingerprint. *)
Definition body_determined : Prop :=
  verify ctx = VerifyBody → ∀ i j it jt, items !! i = Some it → items !! j = Some jt →
    scan_bind_hash ctx it = scan_bind_hash ctx jt → fp_body (scan_fps it) = fp_body (scan_fps jt).

Context (Hcrc : crc_consistent) (Hbody : body_determined).

Lemma eligible_stream i it :
  items !! i = Some it → eligible ctx it || negb (enforce_readable_body ctx) = eligible ctx it.
Proof.
  intros Hi. unfold eligible, eligibility, allow_crc_suspect_tier2_for.
  destruct Hcrc as [->|[->|Hc]]; [by rewrite orb_false_r| |].
  - by destruct (assess_tier2_eligibility it) as [[]|], (enforce_readable_body ctx).
  - destruct (assess_tier2_eligibility it) as [[]|] eqn:E; try (by destruct (enforce_readable_body ctx)).
    exfalso. revert E. unfold assess_tier2_eligibility. rewrite bool_decide_false by (by eapply Hc).
    unfold tier2_eligibility. repeat case_match; congruence.
Qed.

(** A slot of the index stands for a group: the group's first item and its hash. *)
Definition slot_rel (st : group_state) (slot : group_slot) (gid : nat) : Prop :=
  ∃ h it, seed (groups st) gid h ∧ items !! h = Some it ∧ slot_ref slot = ref_of refs it ∧
    bind_hash slot = scan_bind_hash ctx it ∧
    (verify ctx = VerifyBody → fp_body (slot_fps slot) = fp_body (scan_fps it)).

Definition rel_maps (R : group_slot → nat → Prop) (m : gmap bstring group_slot)
    (g : gmap bstring nat) : Prop :=
  ∀ key, option_relation R (λ _, False) (λ _, False) (m !! key) (g !! key).

Record sim (st : group_state) (ix : dedup_index) : Prop := {
  sim_mids : rel_maps (slot_rel st) (message_ids ix) (mid_to_group st);
  sim_hashes : rel_maps (λ slot gid, slot_rel st slot gid ∧
                  group_bound_mid st !! gid = Some (bound_mid slot))
                (content_hashes ix) (hash_to_group st);
  sim_bound : ∀ gid gm h it, group_bound_mid st !! gid = Some (Some gm) →
    seed (groups st) gid h → items !! h = Some it →
    is_Some (mid_to_group st !! item_mid_key ctx it gm) }.

Lemma rel_maps_lookup R m g key gid :
  rel_maps R m g → g !! key = Some gid → ∃ slot, m !! key = Some slot ∧ R slot gid.
Proof. intros Hr Hg. specialize (Hr key). rewrite Hg in Hr. destruct (m !! key); [eauto|done]. Qed.

Lemma rel_maps_none R m g key : rel_maps R m g → g !! key = None ↔ m !! key = None.
Proof. intros Hr. specialize (Hr key). destruct (m !! key), (g !! key); simpl in Hr; try done; tauto. Qed.

Lemma rel_maps_mono (R R' : group_slot → nat → Prop) m g :
  (∀ s gid, R s gid → R' s gid) → rel_maps R m g → rel_maps R' m g.
Proof. intros Hm Hr key. specialize (Hr key). destruct (m !! key), (g !! key); simpl in *; auto. Qed.

Lemma rel_maps_insert R m g key slot gid :
  rel_maps R m g → R slot gid → rel_maps R (<[key := slot]> m) (<[key := gid]> g).
Proof.
  intros Hr Hs key'. destruct (decide (key' = key)) as [->|Hn].
  - by rewrite !lookup_insert_eq.
  - rewrite !lookup_insert_ne by congruence. apply Hr.
Qed.

Lemma rel_maps_or_insert R m g key slot gid :
  rel_maps R m g → R slot gid → rel_maps R (or_insert key slot m) (or_insert key gid g).
Proof.
  intros Hr Hs. unfold or_insert. pose proof (Hr key) as Hk.
  destruct (m !! key), (g !! key); simpl in Hk; try done. by apply rel_maps_insert.
Qed.

Lemma tier1_split_slot k el it st slot gid :
  binv ctx items k st → slot_rel st slot gid →
  should_split_tier1 ctx slot (to_index_item refs el it) = true ↔ tier1_split ctx it st gid.
Proof.
  intros Hk (h & ht & Hh & Hht & _ & Hb & Hf).
  destruct (bi_seed _ _ _ _ Hk _ _ Hh) as (ht' & Hht' & Hfp & Hbh & _).
  assert (ht' = ht) as -> by congruence.
  unfold should_split_tier1, tier1_split. destruct (verify ctx).
  - done.
  - rewrite Hbh, negb_true_iff, bool_decide_eq_false, Hb. change (item_bind_hash _ _) with (scan_bind_hash ctx it).
    split; [congruence|]. intros Hn E. apply Hn. congruence.
  - rewrite Hfp, negb_true_iff, Z.eqb_neq, Hf by done. simpl. split; congruence.
Qed.

(** The parts of the index that decide. *)
Definition same_maps (ix ix' : dedup_index) : Prop :=
  message_ids ix' = message_ids ix ∧ content_hashes ix' = content_hashes ix.

Lemma sim_same_maps st ix ix' : same_maps ix ix' → sim st ix → sim st ix'.
Proof. intros [E1 E2] []. split; by rewrite ?E1, ?E2. Qed.

(** The result that an item joining group [gid] must get. *)
Definition dup_of (st : group_state) (gid : nat) (b : bound_by) (r : dedup_result) : Prop :=
  ∃ h ht, seed (groups st) gid h ∧ items !! h = Some ht ∧
    r = DuplicateOf (ref_of refs ht) (tier_for_bound b) b.

Lemma check_tier1_sim k el it st ix :
  binv ctx items k st → sim st ix →
  (∀ gid, tier1_hit ctx it st gid → ∃ r ix',
     check_tier1 ctx (item_mid it) (to_index_item refs el it) ix = (Some r, ix') ∧
     dup_of st gid MessageId r ∧ same_maps ix ix') ∧
  ((∀ gid, ¬ tier1_hit ctx it st gid) → ∃ ix',
     check_tier1 ctx (item_mid it) (to_index_item refs el it) ix = (None, ix') ∧ same_maps ix ix').
Proof.
  intros Hinv [Hm _ _]. unfold check_tier1.
  change (mid_key (scope ctx) (source_key (to_index_item refs el it))) with (item_mid_key ctx it).
  split.
  - intros gid (m & -> & Hl & Hs). destruct (rel_maps_lookup _ _ _ _ _ Hm Hl) as (slot & -> & Hr).
    destruct (should_split_tier1 _ _ _) eqn:E.
    { by apply (tier1_split_slot _ _ _ _ _ _ Hinv Hr) in E. }
    eexists _, _. split; [done|]. split; [|done]. destruct Hr as (h & ht & ? & ? & -> & _). by exists h, ht.
  - intros Hno. destruct (item_mid it) as [m|] eqn:Hmid; [|by exists ix].
    destruct (mid_to_group st !! item_mid_key ctx it m) as [gid|] eqn:Hl.
    + destruct (rel_maps_lookup _ _ _ _ _ Hm Hl) as (slot & -> & Hr).
      destruct (should_split_tier1 _ _ _) eqn:E; [by eexists|]. exfalso. apply (Hno gid).
      exists m. split; [done|]. split; [done|]. intros Hs.
      apply (tier1_split_slot _ el _ _ _ _ Hinv Hr) in Hs. congruence.
    + apply (rel_maps_none _ _ _ _ Hm) in Hl. rewrite Hl. by exists ix.
Qed.

(** Items with one hash key have one scope prefix and one bind hash. *)
Lemma hash_key_parts i j it jt :
  items !! i = Some it → items !! j = Some jt → item_hash_key ctx it = item_hash_key ctx jt →
  (∀ m, item_mid_key ctx it m = item_mid_key ctx jt m) ∧ scan_bind_hash ctx it = scan_bind_hash ctx jt.
Proof.
  intros Hi Hj E. apply hash_map_key_inj in E as [E1 E2].
  - split; [|done]. intros m. unfold item_mid_key, mid_key. by rewrite E1.
  - by rewrite (scan_bind_hash_length ctx _ _ _ Hdig Hi), (scan_bind_hash_length ctx _ _ _ Hdig Hj).
Qed.

Lemma check_tier2_none el it st ix :
  tier2_enabled ctx = true → eligible ctx it = true → sim st ix →
  (∀ gid gmid, ¬ tier2_hit ctx it st gid gmid) →
  ∃ ix', check_tier2 ctx (item_mid it) (to_index_item refs el it) ix = (None, ix') ∧ same_maps ix ix'.
Proof.
  intros Ht He [_ Hh _] Hno. unfold check_tier2.
  change (hash_map_key _ _ _) with (item_hash_key ctx it).
  destruct (hash_to_group st !! item_hash_key ctx it) as [gid|] eqn:Hl.
  - destruct (rel_maps_lookup _ _ _ _ _ Hh Hl) as (slot & -> & _ & Hb).
    destruct (mid_join_compatible (bound_mid slot) (item_mid it) (block_cross_mid ctx)) as [ok nb] eqn:Hj.
    destruct ok.
    + exfalso. apply (Hno gid (bound_mid slot)). repeat (split; [done|]). by rewrite Hj.
    + destruct (note_cross_mid _ _ _ _ _ _) as [[seen cl] s]. by eexists.
  - apply (rel_maps_none _ _ _ _ Hh) in Hl. rewrite Hl. by exists ix.
Qed.

(** A joining item: the result names the group's first item, and the maps
    correspond again after the adoption of its Message-ID. *)
Lemma check_tier2_hit k el it st st' ix gid gmid :
  binv ctx items k st → bounds_nonempty st → items !! k = Some it → sim st ix →
  tier2_hit ctx it st gid gmid →
  (∀ g h, seed (groups st') g h ↔ seed (groups st) g h) →
  hash_to_group st' = hash_to_group st →
  (group_bound_mid st', mid_to_group st') = adopt ctx it gid gmid st →
  ∃ r ix', check_tier2 ctx (item_mid it) (to_index_item refs el it) ix = (Some r, ix') ∧
    dup_of st gid (bound_by_for_tier2 (Grouping.identity ctx)) r ∧ sim st' ix'.
Proof.
  intros Hinv Hbne Hk [Hm Hh Hb] (_ & _ & Hl & Hgm & Hok) Hseed Ehash Ha. unfold check_tier2.
  change (hash_map_key _ _ _) with (item_hash_key ctx it).
  destruct (rel_maps_lookup _ _ _ _ _ Hh Hl) as (slot & Hslot & Hr & Hbm). rewrite Hslot.
  assert (bound_mid slot = gmid) as -> by congruence.
  destruct (mid_join_compatible gmid (item_mid it) (block_cross_mid ctx)) as [ok nb] eqn:Hj.
  simpl in Hok. subst ok. eexists _, _. split; [reflexivity|]. split.
  { destruct Hr as (h & ht & ? & ? & -> & _). by exists h, ht. }
  destruct (bi_hashes _ _ _ _ Hinv _ _ Hl) as (h0 & Hh0 & (ht0 & Hht0 & _ & Hkey0)).
  destruct (hash_key_parts _ _ _ _ Hht0 Hk Hkey0) as [Hpre Hbind].
  assert (∀ s g, slot_rel st s g → slot_rel st' s g) as Hsr.
  { intros s g (h & ht & ? & ?). exists h, ht. by rewrite Hseed. }
  assert (∀ key, hash_to_group st !! key = Some gid → key = item_hash_key ctx it) as Huniq.
  { intros key Hkl. destruct (bi_hashes _ _ _ _ Hinv _ _ Hkl) as (h & Hh' & (ht & Hht & _ & <-)).
    destruct Hh', Hh0. assert (h = h0) as -> by congruence. congruence. }
  assert (∀ ix', same_maps ix ix' → group_bound_mid st' = group_bound_mid st →
    mid_to_group st' = mid_to_group st → sim st' ix') as Hsame.
  { intros ix' [E1 E2] E3 E4. split; rewrite ?E1, ?E2, ?E3, ?E4, ?Ehash.
    - by eapply rel_maps_mono.
    - eapply rel_maps_mono; [|exact Hh]. intros s g [? ?]. split; [by apply Hsr|done].
    - intros g gm h ht Hg Hs Ht. rewrite Hseed in Hs. by eapply Hb. }
  unfold adopt in Ha. destruct gmid as [gm|]; [|destruct (item_mid it) as [m|] eqn:Hmid];
    injection Ha as Ebm Em.
  - (* the group has a Message-ID: nothing changes *)
    assert (nb = Some gm) as ->.
    { rewrite mid_join_spec in Hj; [|apply mid_present_some; split; [done|intros ->; by eapply Hbne]
                                    |unfold item_mid; by rewrite mid_present_idemp].
      repeat case_match; congruence. }
    apply Hsame; [|done|done]. unfold join_tier2.
    assert (bound_mid slot = Some gm) as -> by congruence. split.
    + change (or_insert (item_mid_key ctx it gm)
        {| slot_ref := slot_ref slot; bound_mid := Some gm; bind_hash := scan_bind_hash ctx it;
           slot_fps := scan_fps it |} (message_ids ix) = message_ids ix).
      destruct (Hb gid gm h0 ht0 Hgm Hh0 Hht0) as [g' Hg']. rewrite Hpre in Hg'.
      destruct (rel_maps_lookup _ _ _ _ _ Hm Hg') as (s' & Hs' & _). unfold or_insert. by rewrite Hs'.
    + change (<[item_hash_key ctx it := slot]> (content_hashes ix) = content_hashes ix).
      by apply insert_id.
  - (* the group adopts the item's Message-ID *)
    assert (nb = Some m) as ->.
    { revert Hj. unfold mid_join_compatible. rewrite (item_mid_present it m Hmid).
      change (mid_present None) with (None : option bstring). congruence. }
    assert (bound_mid slot = None) as Ebs by congruence.
    unfold join_tier2. rewrite Ebs.
    assert (slot_rel st' {| slot_ref := slot_ref slot; bound_mid := Some m;
      bind_hash := scan_bind_hash ctx it; slot_fps := scan_fps it |} gid) as Hnew.
    { destruct Hr as (h & ht & Hh1 & Hht & Href & Hbi & _). exists h, ht. rewrite Hseed.
      assert (h = h0) as -> by (destruct Hh1, Hh0; congruence). assert (ht = ht0) as -> by congruence.
      split; [done|]. split; [done|]. split; [done|]. split; [by rewrite Hbind|].
      intros Hv. simpl. symmetry. by eapply Hbody. }
    split.
    + rewrite Em.
      change (rel_maps (slot_rel st') (or_insert (item_mid_key ctx it m)
        {| slot_ref := slot_ref slot; bound_mid := Some m; bind_hash := scan_bind_hash ctx it;
           slot_fps := scan_fps it |} (message_ids ix)) (or_insert (item_mid_key ctx it m) gid (mid_to_group st))).
      apply rel_maps_or_insert; [by eapply rel_maps_mono|done].
    + rewrite Ehash, Ebm. intros key.
      change (content_hashes _) with (<[item_hash_key ctx it := slot {{ bound_mid := Some m }}]> (content_hashes ix)).
      destruct (decide (key = item_hash_key ctx it)) as [->|Hne].
      * rewrite lookup_insert_eq, Hl. simpl. split.
        { destruct Hr as (h & ht & ? & ? & ? & ? & ?). exists h, ht. rewrite Hseed. done. }
        rewrite list_lookup_insert_eq; [done|]. by eapply lookup_lt_Some.
      * rewrite lookup_insert_ne by congruence. pose proof (Hh key) as Hkey.
        destruct (content_hashes ix !! key) as [s|], (hash_to_group st !! key) as [g|] eqn:Eg;
          simpl in Hkey |- *; try done.
        destruct Hkey as [? ?]. split; [by apply Hsr|]. rewrite list_lookup_insert_ne; [done|].
        intros <-. by apply Hne, Huniq.
    + intros g gm h ht Hg Hs Ht. rewrite Hseed in Hs. rewrite Em.
      assert (∀ key, is_Some (mid_to_group st !! key) → is_Some (or_insert (item_mid_key ctx it m) gid (mid_to_group st) !! key)) as Hmono.
      { intros key [v Hv]. exists v. apply or_insert_Some. by left. }
      rewrite Ebm in Hg. apply list_lookup_insert_Some in Hg as [(-> & [= ->] & _)|[_ Hg]].
      * destruct Hs, Hh0. assert (h = h0) as -> by congruence. assert (ht = ht0) as -> by congruence.
        rewrite Hpre. destruct (mid_to_group st !! item_mid_key ctx it gm) as [v|] eqn:Ev.
        { exists v. apply or_insert_Some. by left. }
        exists g. apply or_insert_Some. by right.
      * apply Hmono. by eapply Hb.
  - (* neither has a Message-ID *)
    assert (nb = None) as -> by (revert Hj; unfold mid_join_compatible; simpl; congruence).
    by apply Hsame.
Qed.

(** A new group: the index gets the corresponding slots. *)
Lemma insert_unique_sim k it st st' ix :
  indices_ok (length items) st → items !! k = Some it → sim st ix →
  groups st' = groups st ++ [[k]] →
  group_bound_mid st' = group_bound_mid st ++ [item_mid it] →
  mid_to_group st' = match item_mid it with
                     | Some m => <[item_mid_key ctx it m := length (groups st)]> (mid_to_group st)
                     | None => mid_to_group st
                     end →
  hash_to_group st' = (if tier2_enabled ctx && eligible ctx it
                       then or_insert (item_hash_key ctx it) (length (groups st)) (hash_to_group st)
                       else hash_to_group st) →
  sim st' (insert_unique ctx (item_mid it) (eligible ctx it) (to_index_item refs (eligible ctx it) it) ix).
Proof.
  intros Hok Hk [Hm Hh Hb] Eg Ebm Em Ehm.
  assert (∀ s g, slot_rel st s g → slot_rel st' s g) as Hsr.
  { intros s g (h & ht & Hs & ?). exists h, ht. rewrite Eg, seed_new. split; [by left|done]. }
  set (slot := item_slot ctx (item_mid it) (to_index_item refs (eligible ctx it) it)).
  assert (slot_rel st' slot (length (groups st))) as Hslot.
  { exists k, it. rewrite Eg, seed_new. split; [by right|]. done. }
  split.
  - match goal with |- rel_maps _ ?mp _ => assert (mp = match item_mid it with
      | Some m => <[item_mid_key ctx it m := slot]> (message_ids ix) | None => message_ids ix end) as -> end.
    { unfold insert_unique. by destruct (item_mid it), (tier2_enabled ctx && eligible ctx it). }
    rewrite Em. destruct (item_mid it); [apply rel_maps_insert|]; try done; by eapply rel_maps_mono.
  - match goal with |- rel_maps _ ?mp _ => assert (mp = if tier2_enabled ctx && eligible ctx it
      then or_insert (item_hash_key ctx it) slot (content_hashes ix) else content_hashes ix) as -> end.
    { unfold insert_unique. by destruct (item_mid it), (tier2_enabled ctx && eligible ctx it). }
    rewrite Ehm, Ebm.
    assert (rel_maps (λ s g, slot_rel st' s g ∧ (group_bound_mid st ++ [item_mid it]) !! g = Some (bound_mid s))
      (content_hashes ix) (hash_to_group st)) as Hold.
    { eapply rel_maps_mono; [|exact Hh]. intros s g [? ?]. split; [by apply Hsr|]. apply lookup_snoc. by left. }
    destruct (tier2_enabled ctx && eligible ctx it); [|done]. apply rel_maps_or_insert; [done|].
    split; [done|]. apply lookup_snoc. right. split; [by rewrite (io_bound _ _ Hok)|done].
  - intros g gm h ht Hg Hs Ht. rewrite Ebm in Hg. rewrite Eg in Hs. rewrite Em.
    apply lookup_snoc in Hg as [Hg|[-> Hmid]]; apply seed_new in Hs as [Hs|[E ->]].
    + destruct (Hb _ _ _ _ Hg Hs Ht) as [v Hv]. destruct (item_mid it) as [m|]; [|by exists v].
      destruct (decide (item_mid_key ctx it m = item_mid_key ctx ht gm)) as [->|Hne].
      * rewrite lookup_insert_eq. by eexists.
      * rewrite lookup_insert_ne by done. by exists v.
    + subst g. apply lookup_lt_Some in Hg. rewrite (io_bound _ _ Hok) in Hg. lia.
    + apply seed_mem, mem_lt in Hs. rewrite (io_bound _ _ Hok) in Hs. lia.
    + assert (ht = it) as -> by congruence. rewrite <- Hmid, lookup_insert_eq. by eexists.
Qed.

(** What the stream must report for item [i]. *)
Definition result_ok (gs : list (list nat)) (by_ : list bound_by) (i : nat) (r : dedup_result) : Prop :=
  by_ !! i = Some (result_bound_by r) ∧
  ∀ orig t b, r = DuplicateOf orig t b →
    ∃ gid h ht, mem gs gid i ∧ seed gs gid h ∧ i ≠ h ∧ items !! h = Some ht ∧
      orig = ref_of refs ht ∧ t = tier_for_bound b.

Lemma stream_step_sim k it st st' ix :
  binv ctx items k st → indices_ok (length items) st → bounds_nonempty st →
  items !! k = Some it → sim st ix → bind_step ctx k it st st' →
  ∃ r ix', stream_step ctx refs it ix = (r, ix') ∧ sim st' ix' ∧
    result_ok (groups st') (item_bound_by st') k r.
Proof.
  intros Hinv Hok Hbne Hk Hsim Hstep. unfold stream_step.
  pose proof (eligibility_fst ctx it (stats ix)) as Hel.
  destruct (eligibility ctx it (stats ix)) as [el s]. simpl in Hel. subst el.
  match goal with |- context [check_and_insert_item ctx _ ?i] => set (ix1 := i) end.
  assert (sim st ix1) as Hsim1.
  { apply (sim_same_maps st ix); [|done]. unfold ix1. by destruct (preview_bytes_over_budget it). }
  clearbody ix1. clear Hsim s ix. unfold check_and_insert_item.
  change (mid_present (message_id (to_index_item refs (eligible ctx it) it))) with (item_mid it).
  change (tier2_eligible (to_index_item refs (eligible ctx it) it)) with (eligible ctx it).
  rewrite (eligible_stream k it Hk).
  assert (k < length (item_bound_by st))%nat as Hlk.
  { rewrite (io_by _ _ Hok). by eapply lookup_lt_Some. }
  assert (∀ gid g b r, groups st !! gid = Some g → groups st' = <[gid := g ++ [k]]> (groups st) →
    item_bound_by st' = <[k := b]> (item_bound_by st) → dup_of st gid b r →
    result_ok (groups st') (item_bound_by st') k r) as Hres.
  { intros gid g b r Hg Eg Eb (h & ht & Hh & Hht & ->). split.
    - rewrite Eb. by apply list_lookup_insert_eq.
    - intros orig t b' [= <- <- <-]. exists gid, h, ht. rewrite Eg.
      split; [apply mem_push; [done|by right]|].
      destruct (partition_nonempty _ _ _ _ (bi_part _ _ _ _ Hinv) Hg) as (h1 & g1 & Hne).
      split; [apply seed_push; [done|by rewrite Hne|done]|]. split; [|done].
      assert (h < k)%nat; [|lia]. apply (partition_mem _ _ _ (bi_part _ _ _ _ Hinv)).
      exists gid. by apply seed_mem. }
  destruct (check_tier1_sim k (eligible ctx it) it st ix1 Hinv Hsim1) as [Hyes Hno].
  assert (∀ gid g, groups st !! gid = Some g → groups st' = <[gid := g ++ [k]]> (groups st) →
    ∀ g' h, seed (groups st') g' h ↔ seed (groups st) g' h) as Hseed.
  { intros gid g Hg Eg g' h. rewrite Eg. apply seed_push; [done|].
    by destruct (partition_nonempty _ _ _ _ (bi_part _ _ _ _ Hinv) Hg) as (h1 & g1 & ->). }
  destruct Hstep as
    [gid Hh (g & Hg & Eg & _ & _ & Ehm & Eb) Ebm Em
    |gid gmid Hn1 Hh (g & Hg & Eg & _ & _ & Ehm & Eb) Ha
    |Hn1 Hn2 Eg Ebm _ _ Em Ehm Eb].
  - destruct (Hyes gid Hh) as (r & ix2 & -> & Hd & Hs2). exists r, ix2. split; [done|].
    split; [|by eapply Hres]. apply (sim_same_maps _ _ _ Hs2). destruct Hsim1 as [A B C].
    assert (∀ s g, slot_rel st s g → slot_rel st' s g) as Hsr.
    { intros s g0 (h & ht & ? & ?). exists h, ht. by rewrite (Hseed gid g Hg Eg). }
    split; rewrite ?Em, ?Ehm, ?Ebm.
    + by eapply rel_maps_mono.
    + eapply rel_maps_mono; [|exact B]. intros s g0 [? ?]. split; [by apply Hsr|done].
    + intros g0 gm h ht Hg0 Hs Ht. rewrite (Hseed gid g Hg Eg) in Hs. by eapply C.
  - destruct (Hno Hn1) as (ix2 & -> & Hs2).
    pose proof (sim_same_maps _ _ _ Hs2 Hsim1) as Hsim2.
    pose proof Hh as (Ht & He & _). rewrite Ht, He. cbn [andb].
    destruct (check_tier2_hit k true it st st' ix2 gid gmid Hinv Hbne Hk Hsim2 Hh (Hseed gid g Hg Eg) Ehm Ha)
      as (r & ix3 & -> & Hd & Hsim3).
    exists r, ix3. split; [done|]. split; [done|]. by eapply Hres.
  - destruct (Hno Hn1) as (ix2 & -> & Hs2).
    pose proof (sim_same_maps _ _ _ Hs2 Hsim1) as Hsim2.
    assert (∃ ix3, (if tier2_enabled ctx && eligible ctx it
      then check_tier2 ctx (item_mid it) (to_index_item refs (eligible ctx it) it) ix2 else (None, ix2)) = (None, ix3)
      ∧ same_maps ix2 ix3) as (ix3 & -> & Hs3).
    { destruct (tier2_enabled ctx && eligible ctx it) eqn:Hte; [|by exists ix2].
      apply andb_true_iff in Hte as [Ht He]. by apply (check_tier2_none _ it st). }
    eexists _, _. split; [reflexivity|]. split.
    + eapply insert_unique_sim; try done. by eapply sim_same_maps.
    + split; [|done]. rewrite Eb. by apply list_lookup_insert_eq.
Qed.
End simulation.

Lemma stream_loop_snoc `{Platform} ctx refs l c ix rs ix1 r ix2 :
  stream_loop ctx refs l ix = (rs, ix1) → stream_step ctx refs c ix1 = (r, ix2) →
  stream_loop ctx refs (l ++ [c]) ix = (rs ++ [r], ix2).
Proof.
  revert ix rs. induction l as [|c0 l IH]; intros ix rs; simpl.
  - intros [= <- ->] ->. done.
  - destruct (stream_step ctx refs c0 ix) as [r0 ix0].
    destruct (stream_loop ctx refs l ix0) as [rs0 ix3] eqn:E. intros [= <- <-] Hs.
    by rewrite (IH _ _ E Hs).
Qed.

(** Results stay right while the groups grow. *)
Lemma result_ok_mono items refs k i r gs gs' b b' :
  (∀ gid j, mem gs gid j → mem gs' gid j) → (∀ gid h, seed gs gid h → seed gs' gid h) →
  (i < k)%nat → (∃ t, b' = <[k := t]> b) →
  result_ok refs items gs b i r → result_ok refs items gs' b' i r.
Proof.
  intros Hm Hs Hi [t ->] [Hb Hd]. split; [by rewrite list_lookup_insert_ne by lia|].
  intros orig t' b' ->. destruct (Hd _ _ _ eq_refl) as (gid & h & ht & ? & ? & ? & ?).
  exists gid, h, ht. auto.
Qed.

Lemma bind_step_mono `{Platform} ctx items k it st st' :
  binv ctx items k st → bind_step ctx k it st st' →
  (∀ gid j, mem (groups st) gid j → mem (groups st') gid j) ∧
  (∀ gid h, seed (groups st) gid h → seed (groups st') gid h) ∧
  ∃ t, item_bound_by st' = <[k := t]> (item_bound_by st).
Proof.
  intros Hinv [gid _ (g & Hg & Eg & _ & _ & _ & Eb) _ _|gid gmid _ _ (g & Hg & Eg & _ & _ & _ & Eb) _
              |_ _ Eg _ _ _ _ _ Eb]; rewrite Eg; (split; [|split; [|by eexists]]).
  - intros. apply mem_push; [done|by left].
  - intros. apply seed_push; [done| |done].
    by destruct (partition_nonempty _ _ _ _ (bi_part _ _ _ _ Hinv) Hg) as (? & ? & ->).
  - intros. apply mem_push; [done|by left].
  - intros. apply seed_push; [done| |done].
    by destruct (partition_nonempty _ _ _ _ (bi_part _ _ _ _ Hinv) Hg) as (? & ? & ->).
  - intros. apply mem_new. by left.
  - intros. apply seed_new. by left.
Qed.

(** C5 The streaming index implements the grouping, where the two are meant to agree:
    without the backfill pass, on 32-byte digests, when CRC-suspect items are treated
    alike (the readable-body guard is on, or such items are let through, or there are
    none), and when under body verification items with one bind hash have one body
    fingerprint.  Streaming the candidates in scan order and grouping them all at once
    then give the same answer: each item has the same provenance in both, it is unique
    in the stream exactly when it is the first of its group, and a duplicate names the
    first item of its group.  [stream_binds_crc_suspects] and
    [adopted_mid_fingerprints_differ] show that they differ otherwise. *)
Theorem stream_matches_grouping `{Platform} ctx refs order items out rs ix :
  tier1_backfill ctx = false → digests items → crc_consistent ctx items → body_determined ctx items →
  group_candidates_with_stats ctx order items = Ok out →
  stream_loop ctx refs items empty_index = (rs, ix) →
  length rs = length items ∧
  ∀ i r gid g, rs !! i = Some r → out_groups out !! gid = Some g → i ∈ g →
    out_bound_by out !! i = Some (result_bound_by r) ∧
    match r with
    | Unique => head g = Some i
    | DuplicateOf orig t b => ∃ h ht, head g = Some h ∧ h ≠ i ∧ items !! h = Some ht ∧
        orig = ref_of refs ht ∧ t = tier_for_bound b
    end.
Proof.
  intros Hbf Hd Hc Hb E Es.
  destruct (grouping_runs ctx order items (λ k st, bounds_nonempty st ∧ (k <= length items)%nat ∧
    ∃ rs ix, stream_loop ctx refs (take k items) empty_index = (rs, ix) ∧ length rs = k ∧
      sim ctx refs items st ix ∧
      ∀ i r, rs !! i = Some r → result_ok refs items (groups st) (item_bound_by st) i r))
    as (st & out' & _ & Hinv & (_ & _ & rs' & ix' & Es' & Hlen & _ & Hres) & E' & Hp & Ht & Hoff & _).
  - split; [intros g; done|]. split; [lia|]. exists [], empty_index. split; [done|]. split; [done|]. split.
    + split.
      * intros key. cbn [message_ids empty_index mid_to_group init_groups content_hashes hash_to_group].
        by rewrite !lookup_empty.
      * intros key. cbn [message_ids empty_index mid_to_group init_groups content_hashes hash_to_group].
        by rewrite !lookup_empty.
      * intros gid gm h it Hg. done.
    + intros i r Hi. by rewrite lookup_nil in Hi.
  - intros k it st st' Hk Hinv Hok Hstep _ (Hbne & _ & rs0 & ix0 & E0 & Hl0 & Hsim & Hr0).
    split; [by eapply bounds_nonempty_step|]. split; [apply lookup_lt_Some in Hk; lia|].
    destruct (stream_step_sim ctx refs items Hd Hc Hb k it st st' ix0 Hinv Hok Hbne Hk Hsim Hstep)
      as (r & ix1 & Er & Hsim' & Hok').
    exists (rs0 ++ [r]), ix1. rewrite (take_S_r _ _ _ Hk). split; [by eapply stream_loop_snoc|].
    split; [rewrite length_app; simpl; lia|]. split; [done|].
    destruct (bind_step_mono _ _ _ _ _ _ Hinv Hstep) as (Hm & Hs & Hb').
    intros i r' [Hi|[-> ->]]%lookup_snoc.
    + eapply (result_ok_mono _ _ k); [done|done|apply lookup_lt_Some in Hi; lia|done|by apply Hr0].
    + by rewrite Hl0.
  - assert (out' = out) as -> by congruence. destruct (Hoff Hbf) as [Eg Eb].
    rewrite firstn_all in Es'. assert (rs' = rs) as -> by congruence. split; [done|].
    intros i r gid g Hi Hg Hig. destruct (Hres _ _ Hi) as [Hby Hdup]. rewrite Eb. split; [done|].
    rewrite Eg in Hg, Hp. assert (mem (groups st) gid i) as Hmi by (by exists g).
    destruct r as [|orig t b].
    + destruct (Ht gid i) as (b & Hbi & Hiff); [by rewrite Eg|]. rewrite Eb in Hbi.
      destruct (proj1 Hiff) as [g' Hg'].
      { simpl in Hby. congruence. }
      rewrite Eg in Hg'. assert (g = i :: g') as -> by congruence. done.
    + destruct (Hdup _ _ _ eq_refl) as (gid' & h & ht & Hm & [g' Hs] & Hne & Hht & -> & ->).
      assert (gid' = gid) as -> by (by eapply partition_unique).
      assert (g = h :: g') as -> by congruence. exists h, ht. done.
Qed.
