(* ===== verification/GroupExamples.v ===== *)
(** * Grouping on concrete messages

    Witnesses for the grouping theorems, and three runs that show where the
    code departs from its documentation: the backfill pass joins incompatible
    Message-IDs through a third group, a CRC-suspect message is bound by the
    streaming index although the operator did not allow it, and body verification
    splits differently in the two paths. *)

From S2P Require Import Prelude UnionFind Text Recipient Grouping DedupIndex KeepGroup GroupInv Backfill GroupTheorems StreamGroup.
#[local] Open Scope Z_scope.

(** A build for a system with case-sensitive paths, on ASCII lower-case text. *)
#[local] Instance posix : Platform := {| windows := false; str_to_lowercase := id; path_file_name := Some |}.

Definition listed_order : hash_order := {| reorder := id; reorder_perm := λ l, reflexivity l |}.
Definition reversed_order : hash_order :=
  {| reorder := @reverse (list nat); reorder_perm := λ l, reverse_Permutation l |}.

Definition digest_of (b : byte) : bstring := replicate 32 b.
Definition body_fp (v : Z) : fingerprints :=
  {| fp_body := v; fp_header := 0; fp_recipients := 0; fp_attachments := 0 |}.

(** A message with a body preview in file [path]. *)
Definition message (path : string) (mid : option string) (hash : byte) (fp : Z)
    (reasons : list integrity_reason) : scan_item := {|
  locus := {| source_path := bytes_of path; source_pst := bytes_of path;
              locus_folder_path := []; locus_nid := 0; is_orphaned := false |};
  message_id_norm := bytes_of <$> mid; scan_content_hash := digest_of hash; scan_size := 100;
  integrity := with_degraded reasons false; scan_order := 0; submit_time := None;
  delivery_time := None; has_bcc := false; has_body_preview := true; subject_nonempty := true;
  sender_nonempty := true; attach_count := 0; display_to := None; display_cc := None;
  display_bcc := None; scan_strong_content_hash := None; scan_fps := body_fp fp;
  preview_bytes_over_budget := false |}.

(** The outcome's groups, and the stream's results as original NIDs. *)
Definition groups_of (r : total_res grouping_outcome) : list (list nat) :=
  match r with Ok o => out_groups o | _ => [] end.
Definition outcome_of (r : total_res grouping_outcome) : grouping_outcome :=
  match r with Ok o => o | _ => {| out_groups := []; out_bound_by := []; out_eligible := [];
                                   out_stats := default_stats |} end.

Lemma outcome_of_ok r : never_panics r → r = Ok (outcome_of r).
Proof. by destruct r as [|[]| |]. Qed.

(** Four messages: a seed, a join by hash, a join by Message-ID, a blocked join. *)
Definition mailbox : list scan_item := [
  message "a.pst" (Some "m1") Byte.x01 1 []; message "a.pst" None Byte.x01 1 [];
  message "b.pst" (Some "m1") Byte.x02 2 []; message "b.pst" (Some "m2") Byte.x01 1 [] ].

Example mailbox_groups :
  groups_of (group_candidates_with_stats default_context listed_order mailbox) = [[0; 1; 2]; [3]]%nat.
Proof. vm_compute. reflexivity. Qed.

Definition grouped (ctx : grouping_context) (items : list scan_item) : grouping_outcome :=
  outcome_of (group_candidates_with_stats ctx listed_order items).

(** Membership in a concrete group. *)
Ltac in_group g := exists g; eexists; split; [vm_compute; reflexivity|vm_compute; set_solver].

Lemma mailbox_no_nul ctx : no_nul ctx mailbox.
Proof.
  intros _ i it Hi. do 4 (destruct i as [|i]; [injection Hi as <-; vm_compute; set_solver|]). done.
Qed.

Lemma provenance_sound_witness :
  (MessageId = MessageId ∧ ∃ j key, j ∈ [0; 1; 2]%nat ∧ (j < 2)%nat ∧
     has_mid_key default_context mailbox 2 key ∧ has_mid_key default_context mailbox j key)
  ∨ (MessageId = bound_by_for_tier2 (Grouping.identity default_context) ∧ tier2_enabled default_context = true ∧
     ∃ key, has_hash_key default_context mailbox 2 key ∧ has_hash_key default_context mailbox 0 key).
Proof.
  apply (provenance_sound default_context listed_order mailbox (grouped default_context mailbox)
           0 0 [1; 2]%nat 2 MessageId); [reflexivity|vm_compute; reflexivity|vm_compute; reflexivity| |vm_compute; reflexivity].
  right. left.
Defined.

Lemma one_message_id_per_group_witness : bytes_of "m1" = bytes_of "m1".
Proof.
  apply (one_message_id_per_group default_context listed_order mailbox (grouped default_context mailbox) 0 2
           (message "a.pst" (Some "m1") Byte.x01 1 []) (message "b.pst" (Some "m1") Byte.x02 2 [])%string);
    [reflexivity|reflexivity|apply mailbox_no_nul|vm_compute; reflexivity| |reflexivity|reflexivity|reflexivity|reflexivity].
  exists 0%nat. split; exists [0; 1; 2]%nat; (split; [vm_compute; reflexivity|]); [left|right; right; left].
Defined.

Lemma tier2_off_groups_by_mid_witness :
  same_group (out_groups (grouped (with_tier2 false) mailbox)) 0 2 ↔
  ∃ key, has_mid_key (with_tier2 false) mailbox 0 key ∧ has_mid_key (with_tier2 false) mailbox 2 key.
Proof.
  apply (tier2_off_groups_by_mid (with_tier2 false) listed_order mailbox);
    [reflexivity|reflexivity|reflexivity|vm_compute; reflexivity|simpl; lia|simpl; lia|lia].
Defined.

Definition per_source_context : grouping_context := {|
  tier2_enabled := true; scope := PerSource; tier1_authority := true;
  require_readable_body := true; identity := IdOff; verify := VerifyOff;
  allow_degenerate_tier2 := false; allow_crc_suspect_tier2 := false;
  allow_cross_mid_tier2 := false; tier1_backfill := true; ignore_inline_attachments := false |}.

Lemma mailbox_digests : digests mailbox.
Proof.
  intros i it Hi. do 4 (destruct i as [|i]; [injection Hi as <-; by split|]). done.
Qed.

Lemma per_source_never_mixes_witness :
  path_key (message "a.pst" (Some "m1") Byte.x01 1 []) = path_key (message "a.pst" None Byte.x01 1 []).
Proof.
  apply (per_source_never_mixes per_source_context listed_order mailbox (grouped per_source_context mailbox) 0 1);
    [reflexivity|apply mailbox_no_nul|apply mailbox_digests|vm_compute; reflexivity| |reflexivity|reflexivity].
  exists 0%nat. split; exists [0; 1]%nat; (split; [vm_compute; reflexivity|]); [left|right; left].
Defined.

Lemma backfill_merges_components_witness :
  ∃ st out, group_loop per_source_context 0 mailbox (init_groups 4) = Ok st ∧
    group_candidates_with_stats per_source_context listed_order mailbox = Ok out ∧
    ∀ i j gi gj, mem (groups st) gi i → mem (groups st) gj j →
      same_group (out_groups out) i j ↔
      relations.rtsc (mergeable per_source_context mailbox (groups st) (group_bound_mid st)) gi gj.
Proof. apply (backfill_merges_components per_source_context listed_order mailbox). reflexivity. Defined.

Lemma mailbox_crc : crc_consistent default_context mailbox.
Proof. by left. Qed.

Definition no_refs : message_refs := ∅.

Lemma stream_matches_grouping_witness :
  length (stream_loop default_context no_refs mailbox empty_index).1 = 4%nat ∧
  ∀ i r gid g, (stream_loop default_context no_refs mailbox empty_index).1 !! i = Some r →
    out_groups (grouped default_context mailbox) !! gid = Some g → i ∈ g →
    out_bound_by (grouped default_context mailbox) !! i = Some (result_bound_by r) ∧
    match r with
    | Unique => head g = Some i
    | DuplicateOf orig t b => ∃ h ht, head g = Some h ∧ h ≠ i ∧ mailbox !! h = Some ht ∧
        orig = ref_of no_refs ht ∧ t = tier_for_bound b
    end.
Proof.
  apply (stream_matches_grouping default_context no_refs listed_order mailbox (grouped default_context mailbox)
           _ (stream_loop default_context no_refs mailbox empty_index).2);
    [reflexivity|apply mailbox_digests|apply mailbox_crc|intros Hv; discriminate Hv|vm_compute; reflexivity|].
  apply surjective_pairing.
Defined.

(** ** Departures from the documentation *)

Definition backfill_context : grouping_context := {|
  tier2_enabled := true; scope := Global; tier1_authority := true;
  require_readable_body := true; identity := IdOff; verify := VerifyOff;
  allow_degenerate_tier2 := false; allow_crc_suspect_tier2 := false;
  allow_cross_mid_tier2 := false; tier1_backfill := true; ignore_inline_attachments := false |}.

(** Two Message-IDs and, between them, a message without one whose body is unreadable. *)
Definition chain : list scan_item := [
  message "a.pst" (Some "m1") Byte.x01 1 []; message "a.pst" None Byte.x01 1 [BodyTruncated];
  message "a.pst" (Some "m2") Byte.x01 1 [] ].

(** The backfill pass is documented to merge groups with compatible
    Message-IDs, and cross-MID joins are blocked here; yet it ends with one group
    that holds both [m1] and [m2]: each is compatible with the group between
    them, and the union-find joins all three. *)
Theorem backfill_joins_incompatible_mids :
  block_cross_mid backfill_context = true ∧
  mid_join_compatible (Some (bytes_of "m1")) (Some (bytes_of "m2")) true = (false, None) ∧
  groups_of (group_candidates_with_stats default_context listed_order chain) = [[0]; [1]; [2]]%nat ∧
  groups_of (group_candidates_with_stats backfill_context listed_order chain) = [[0; 1; 2]]%nat ∧
  item_mid <$> chain = [Some (bytes_of "m1"); None; Some (bytes_of "m2")].
Proof. vm_compute. repeat split. Qed.

Definition degenerate_context : grouping_context := {|
  tier2_enabled := true; scope := Global; tier1_authority := true;
  require_readable_body := true; identity := IdOff; verify := VerifyOff;
  allow_degenerate_tier2 := true; allow_crc_suspect_tier2 := false;
  allow_cross_mid_tier2 := false; tier1_backfill := false; ignore_inline_attachments := false |}.

Definition suspects : list scan_item := [
  message "a.pst" None Byte.x01 1 [CrcSuspect]; message "a.pst" None Byte.x01 1 [CrcSuspect] ].

(** Under the flag that admits degenerate bodies, CRC-suspect messages stay
    ineligible and the keep set keeps them apart, but the streaming index binds
    the second as a duplicate of the first: it takes the absence of the
    readable-body guard as eligibility. *)
Theorem stream_binds_crc_suspects :
  allow_crc_suspect_tier2 degenerate_context = false ∧
  eligible degenerate_context <$> suspects = [false; false] ∧
  groups_of (group_candidates_with_stats degenerate_context listed_order suspects) = [[0]; [1]]%nat ∧
  map is_unique (stream_loop degenerate_context no_refs suspects empty_index).1 = [true; false].
Proof. vm_compute. repeat split. Qed.

Definition verify_body_context : grouping_context := {|
  tier2_enabled := true; scope := Global; tier1_authority := true;
  require_readable_body := true; identity := IdOff; verify := VerifyBody;
  allow_degenerate_tier2 := false; allow_crc_suspect_tier2 := false;
  allow_cross_mid_tier2 := false; tier1_backfill := false; ignore_inline_attachments := false |}.

(** One hash with two body fingerprints, then the second one's Message-ID again. *)
Definition divergent : list scan_item := [
  message "a.pst" None Byte.x01 1 []; message "a.pst" (Some "m1") Byte.x01 2 [];
  message "a.pst" (Some "m1") Byte.x02 2 [] ].

(** The same with equal bodies and differing recipients, which no v1 hash covers. *)
Definition recipients (v : Z) (item : scan_item) : scan_item :=
  item {{ scan_fps := {| fp_body := 1; fp_header := 0; fp_recipients := v; fp_attachments := 0 |} }}.
Definition divergent_recipients : list scan_item := [
  recipients 1 (message "a.pst" None Byte.x01 1 []);
  recipients 2 (message "a.pst" (Some "m1") Byte.x01 1 []);
  recipients 2 (message "a.pst" (Some "m1") Byte.x01 1 []) ].

(** The two paths compare a message bound by an adopted Message-ID with
    different messages: the stream registers the Message-ID with the joining
    message's fingerprints, the keep set with the group's first message.  The
    divergence counters differ by default, and under body verification a message
    can be a duplicate in the stream and unique in the keep set. *)
Theorem adopted_mid_fingerprints_differ :
  (map is_unique (stream_loop default_context no_refs divergent_recipients empty_index).1 = [true; false; false] ∧
   tier1_divergent_recipients (stats (stream_loop default_context no_refs divergent_recipients empty_index).2) = 0 ∧
   tier1_divergent_recipients (out_stats (grouped default_context divergent_recipients)) = 1) ∧
  (groups_of (group_candidates_with_stats verify_body_context listed_order divergent) = [[0; 1]; [2]]%nat ∧
   map is_unique (stream_loop verify_body_context no_refs divergent empty_index).1 = [true; false; false]).
Proof. vm_compute. repeat split. Qed.
