(* ===== verification/Rebuild.v ===== *)
(** * Rebuilding the duplicate report (pst-dedup-cli/src/scan.rs)

    [rebuild_dedup_results_with_ctx]: the surviving candidates in [scan_order],
    streamed through a fresh index, with the results in a map by file name and
    NID.  The map is complete when these keys are distinct, and a run shows that
    it is not when two source files share a name. *)

From stdpp Require Import sorting.
From S2P Require Import Prelude UnionFind Text Recipient Grouping DedupIndex KeepGroup GroupInv Backfill GroupTheorems StreamGroup GroupExamples.
#[local] Open Scope Z_scope.

(** [ordered.sort_by_key(|c| c.scan_order)], a stable sort. *)
Fixpoint insert_by_order (c : scan_item) (l : list scan_item) : list scan_item :=
  match l with
  | [] => [c]
  | d :: l => if scan_order c <=? scan_order d then c :: d :: l else d :: insert_by_order c l
  end.
Definition sort_by_order (cs : list scan_item) : list scan_item := foldr insert_by_order [] cs.

(** The key of a result: [(source_pst, nid)]. *)
Definition result_key (c : scan_item) : bstring * Z := (source_pst (locus c), locus_nid (locus c)).

(** [struct RebuildDedupOutcome] *)
Record rebuild_outcome := {
  results : gmap (bstring * Z) dedup_result;
  rb_unique_count : Z; rb_duplicate_count : Z; rb_tier1_hits : Z; rb_tier2_hits : Z;
  rb_total_savings : Z;
  rb_grouping_stats : grouping_stats }.

(** [results.insert(key, result)] for each candidate in turn *)
Definition collect_results (cs : list scan_item) (rs : list dedup_result) : gmap (bstring * Z) dedup_result :=
  foldl (λ m p, <[result_key p.1 := p.2]> m) ∅ (zip cs rs).

Section rebuild.
Context `{Platform}.

(** [rebuild_dedup_results_with_ctx] *)
Definition rebuild_dedup_results_with_ctx (candidates : list scan_item) (refs : message_refs)
    (ctx : grouping_context) : rebuild_outcome :=
  let ordered := sort_by_order candidates in
  let '(rs, ix) := stream_loop ctx refs ordered empty_index in
  {| results := collect_results ordered rs;
     rb_unique_count := unique_count ix; rb_duplicate_count := duplicate_count ix;
     rb_tier1_hits := tier1_hits ix; rb_tier2_hits := tier2_hits ix;
     rb_total_savings := total_savings ordered rs 0;
     rb_grouping_stats := stats ix |}.

(** [rebuild_dedup_results] *)
Definition rebuild_dedup_results (candidates : list scan_item) (refs : message_refs)
    (enable_tier2 : bool) : rebuild_outcome :=
  rebuild_dedup_results_with_ctx candidates refs (with_tier2 enable_tier2).
End rebuild.

(** ** Lemmas *)

Lemma insert_by_order_perm c l : insert_by_order c l ≡ₚ c :: l.
Proof.
  induction l as [|d l IH]; simpl; [done|]. destruct (scan_order c <=? scan_order d); [done|].
  rewrite IH. apply Permutation_swap.
Qed.
Lemma sort_by_order_perm cs : sort_by_order cs ≡ₚ cs.
Proof. induction cs as [|c cs IH]; simpl; [done|]. by rewrite insert_by_order_perm, IH. Qed.

Definition order_le (c d : scan_item) : Prop := scan_order c <= scan_order d.

Lemma insert_by_order_sorted c l :
  StronglySorted order_le l → StronglySorted order_le (insert_by_order c l).
Proof.
  induction 1 as [|d l Hs IH Hd]; simpl; [repeat constructor|].
  destruct (scan_order c <=? scan_order d) eqn:E.
  - apply Z.leb_le in E. constructor; [by constructor|]. constructor; [done|].
    eapply Forall_impl; [exact Hd|]. unfold order_le. intros. simpl in *. lia.
  - apply Z.leb_gt in E. constructor; [done|]. rewrite insert_by_order_perm.
    constructor; [unfold order_le; lia|done].
Qed.
Lemma sort_by_order_sorted cs : StronglySorted order_le (sort_by_order cs).
Proof. induction cs; simpl; [constructor|by apply insert_by_order_sorted]. Qed.

Lemma collect_results_lookup cs rs i c r :
  NoDup (map result_key cs) → length rs = length cs → cs !! i = Some c → rs !! i = Some r →
  collect_results cs rs !! result_key c = Some r.
Proof.
  unfold collect_results. generalize (∅ : gmap (bstring * Z) dedup_result) as m.
  assert (∀ cs rs (m : gmap (bstring * Z) dedup_result) k, k ∉ map result_key cs →
    foldl (λ m p, <[result_key p.1 := p.2]> m) m (zip cs rs) !! k = m !! k) as Hout.
  { clear. induction cs as [|c cs IH]; intros [|r rs] m k Hk; [done..|]. simpl in *.
    apply not_elem_of_cons in Hk as [? ?]. rewrite IH by done. by rewrite lookup_insert_ne. }
  revert rs i. induction cs as [|d cs IH]; intros [|r0 rs] [|i] m Hnd Hl Hc Hr; simpl in *; try done.
  - simplify_eq. apply NoDup_cons in Hnd as [? _]. rewrite Hout by done. apply lookup_insert_eq.
  - apply NoDup_cons in Hnd as [_ Hnd]. apply (IH rs i); [done|lia|done|done].
Qed.

(** C33 The rebuilt report is complete.  When no two candidates share file name
    and NID, the candidates are processed in an order sorted by [scan_order],
    every candidate has an entry, and the entry is the stream's result for it. *)
Theorem rebuild_results_complete `{Platform} candidates refs ctx :
  NoDup (map result_key candidates) →
  ∃ ordered rs ix, ordered ≡ₚ candidates ∧ StronglySorted order_le ordered ∧
    stream_loop ctx refs ordered empty_index = (rs, ix) ∧ length rs = length candidates ∧
    let out := rebuild_dedup_results_with_ctx candidates refs ctx in
    (∀ i c r, ordered !! i = Some c → rs !! i = Some r → results out !! result_key c = Some r) ∧
    (∀ c, c ∈ candidates → is_Some (results out !! result_key c)).
Proof.
  intros Hnd. set (ordered := sort_by_order candidates).
  destruct (stream_loop ctx refs ordered empty_index) as [rs ix] eqn:E.
  assert (∀ l ix, length (stream_loop ctx refs l ix).1 = length l) as Hlen.
  { clear. induction l as [|c l IH]; intros ix; [done|]. simpl.
    destruct (stream_step ctx refs c ix) as [r ix1]. specialize (IH ix1).
    destruct (stream_loop ctx refs l ix1). simpl in *. by rewrite IH. }
  assert (length rs = length ordered) as Hl by (by rewrite <- (Hlen ordered empty_index), E).
  assert (ordered ≡ₚ candidates) as Hp by apply sort_by_order_perm.
  exists ordered, rs, ix. split; [done|]. split; [apply sort_by_order_sorted|]. split; [done|].
  split; [by rewrite Hl, Hp|]. unfold rebuild_dedup_results_with_ctx. fold ordered. rewrite E.
  cbn [results]. assert (NoDup (map result_key ordered)) as Hnd' by (by rewrite Hp).
  split; [intros i c r; by apply collect_results_lookup|].
  intros c Hc. rewrite <- Hp in Hc. apply list_elem_of_lookup in Hc as [i Hi].
  destruct (lookup_lt_is_Some_2 rs i) as [r Hr]; [rewrite Hl; by eapply lookup_lt_Some|].
  exists r. by eapply collect_results_lookup.
Qed.

(** ** Examples *)

#[local] Instance posix : Platform := {| windows := false; str_to_lowercase := id; path_file_name := Some |}.

(** A message at [nid] of the file [dir/mail.pst]. *)
Definition located (dir : string) (nid : Z) (order : Z) : scan_item :=
  (message "mail.pst" (Some "m1") Byte.x01 1 []) {{ locus := {|
    source_path := bytes_of dir ++ bytes_of "/mail.pst"; source_pst := bytes_of "mail.pst";
    locus_folder_path := []; locus_nid := nid; is_orphaned := false |} }} {{ scan_order := order }}.

Lemma rebuild_results_complete_witness :
  ∃ ordered rs ix, ordered ≡ₚ [located "a" 37 1; located "a" 33 0] ∧ StronglySorted order_le ordered ∧
    stream_loop default_context no_refs ordered empty_index = (rs, ix) ∧
    length rs = 2%nat ∧
    let out := rebuild_dedup_results_with_ctx [located "a" 37 1; located "a" 33 0] no_refs default_context in
    (∀ i c r, ordered !! i = Some c → rs !! i = Some r → results out !! result_key c = Some r) ∧
    (∀ c, c ∈ [located "a" 37 1; located "a" 33 0] → is_Some (results out !! result_key c)).
Proof.
  apply (rebuild_results_complete [located "a" 37 1; located "a" 33 0] no_refs default_context).
  vm_compute. apply NoDup_cons. split; [|apply NoDup_singleton].
  intros E. apply list_elem_of_singleton in E. discriminate E.
Defined.

(** Results are keyed by file name and NID, not by path.  Two copies of one
    message in [a/mail.pst] and [b/mail.pst] with one NID: the counters say one
    unique and one duplicate, but the map has a single entry, which says
    duplicate, so that neither copy is reported unique. *)
Theorem rebuild_keys_collide :
  let cs := [located "a" 33 0; located "b" 33 1] in
  let out := rebuild_dedup_results_with_ctx cs no_refs default_context in
  map (λ c, source_path (locus c)) cs = [bytes_of "a/mail.pst"; bytes_of "b/mail.pst"] ∧
  rb_unique_count out = 1 ∧ rb_duplicate_count out = 1 ∧
  map (λ c, is_unique <$> (results out !! result_key c)) cs = [Some false; Some false].
Proof. vm_compute. repeat split. Qed.
