(* ===== verification/Rank.v ===== *)
(** * Winner selection (dedup-engine/src/keepset.rs, ranking ladder)

    The rank key of an item (fidelity, BCC, source, folder class, policy, path,
    NID), its order, the classification of folders, and [resolve_groups_with_grouping],
    which picks the best item of each group. *)

From S2P Require Import Prelude UnionFind Text Recipient Grouping DedupIndex KeepGroup.
#[local] Open Scope Z_scope.

Inductive keep_policy := FirstSeen | KeepLargest | PreferPath | EarliestDate.
Inductive fidelity_mode := Binary | Graded.

Inductive folder_class :=
| SentItems | Primary | Archive | JunkEmail | Drafts | Outbox | DeletedItems
| RecoverableDeletions | RecoverableHolds | RecoverablePurges | RecoverableVersions
| RecoverableOps | RecoverableOther.
#[export] Instance folder_class_eq_dec : EqDecision folder_class.
Proof. solve_decision. Defined.

(** [FolderClass::builtin_rank]: lower is better. *)
Definition builtin_rank (c : folder_class) : Z :=
  match c with
  | SentItems => 0 | Primary => 1 | Archive => 2 | JunkEmail => 3 | Drafts => 4 | Outbox => 5
  | DeletedItems => 6 | RecoverableDeletions => 7 | RecoverableHolds => 8 | RecoverablePurges => 9
  | RecoverableVersions => 10 | RecoverableOps => 11 | RecoverableOther => 12
  end.

Inductive folder_rank_mode := FolderOff | FolderBuiltin | FolderCustom (patterns : list bstring).

(** [struct RankContext] *)
Record rank_context := {
  policy : keep_policy;
  prefer_path : list bstring;
  prefer_bcc_copy : bool;
  source_rank_patterns : list bstring;
  folder_rank : folder_rank_mode;
  ctx_folder_class_first : bool;
  fidelity_mode_of : fidelity_mode }.

(** [struct RankKey] *)
Record rank_key := {
  fidelity : Z; bcc : Z; source : Z; folder : Z; policy_missing : Z; policy_value : Z;
  key_path : bstring; key_nid : Z; folder_class_first : bool }.

(** [Ordering::then] *)
Definition and_then (a b : comparison) : comparison := match a with Eq => b | c => c end.

(** [RankKey::cmp] *)
Definition rank_cmp (a b : rank_key) : comparison :=
  let mid := if folder_class_first a
             then and_then (folder a ?= folder b) (source a ?= source b)
             else and_then (source a ?= source b) (folder a ?= folder b) in
  and_then (fidelity a ?= fidelity b)
    (and_then (bcc a ?= bcc b)
      (and_then mid
        (and_then (policy_missing a ?= policy_missing b)
          (and_then (policy_value a ?= policy_value b)
            (and_then (str_cmp (key_path a) (key_path b)) (key_nid a ?= key_nid b)))))).

(** [reason_fidelity_tier] *)
Definition reason_fidelity_tier (r : integrity_reason) : Z :=
  match r with
  | AttachMetaFailed | AttachProbeTruncated | AttachPeerProbeCap | AttachProbeTimeout => 1
  | AttachStreamOpenFailed | AttachStreamReadFailed | AttachStreamCrc | AttachBlockNotFound
  | AttachDataTruncated | AttachMethodUnsupported | AttachCloudLink => 2
  | BodyTruncated | BodyUnavailable | DataTruncated | CrcMismatch | CrcSuspect | BlockNotFound => 3
  | OrphanedNode | InvalidStructure | MessageReadFailed | PropertyError | NodeNotFound => 4
  | OpenFailed | AnsiUnsupported | UnsupportedCrypt | FolderWalkFailed | PathNotFound | NotPst
  | ReadError => 4
  end.

Definition graded_fidelity_rank (item : scan_item) : Z :=
  let i := integrity item in
  if negb (degraded i) && negb (integrity_is_orphaned i) then 0
  else
    let worst := if integrity_is_orphaned i then 4 else 0 in
    let worst := foldl (λ w r, Z.max w (reason_fidelity_tier r)) worst (degraded_reasons i) in
    if worst =? 0 then 3 else worst.

(** [fidelity_rank_with_mode] *)
Definition fidelity_rank_with_mode (item : scan_item) (mode : fidelity_mode) : Z :=
  match mode with
  | Binary => if graded_fidelity_rank item =? 0 then 0 else 1
  | Graded => graded_fidelity_rank item
  end.

Inductive date_source := DateSubmit | DateDelivery | DateNone.
#[export] Instance date_source_eq_dec : EqDecision date_source.
Proof. solve_decision. Defined.

(** [resolve_item_date]: submit time, else delivery time; a FILETIME [<= 0] is missing. *)
Definition positive_time (t : option Z) : option Z := t ≫= λ t, if 0 <? t then Some t else None.
Definition resolve_item_date (item : scan_item) : option Z * date_source :=
  match positive_time (submit_time item) with
  | Some t => (Some t, DateSubmit)
  | None => match positive_time (delivery_time item) with
            | Some t => (Some t, DateDelivery)
            | None => (None, DateNone)
            end
  end.

(** ** Folder classes *)

(** [eq_ignore_ascii_case] *)
Definition seg_eq (a b : bstring) : bool := bool_decide (map ascii_lower a = map ascii_lower b).
Definition seg_is (seg : bstring) (name : string) : bool := seg_eq seg (bytes_of name).

Definition STAR : byte := Byte.x2a.
Definition SLASH : byte := Byte.x2f.

(** [segment_glob_match] *)
Definition segment_glob_match (segment pattern : bstring) : bool :=
  let seg := map ascii_lower segment in
  let pat := map ascii_lower pattern in
  if negb (bool_decide (STAR ∈ pat)) then bool_decide (seg = pat)
  else
    let leading := starts_with [STAR] pat in
    let trailing := ends_with [STAR] pat in
    let core := trim_matches STAR pat in
    if bool_decide (core = []) then true
    else if leading && trailing then contains core seg
    else if leading then ends_with core seg
    else if trailing then starts_with core seg
    else bool_decide (seg = pat).

Definition match_non_recoverable_segment (seg : bstring) : option folder_class :=
  if seg_is seg "Sent Items" || seg_is seg "Sent Mail" then Some SentItems
  else if seg_is seg "Deleted Items" then Some DeletedItems
  else if seg_is seg "Outbox" then Some Outbox
  else if seg_is seg "Drafts" then Some Drafts
  else if seg_is seg "Junk Email" || seg_is seg "Junk E-mail" || seg_is seg "Spam" then Some JunkEmail
  else if seg_is seg "Archive" || seg_is seg "Online Archive"
          || segment_glob_match seg (bytes_of "In-Place Archive*") then Some Archive
  else None.

Definition match_recoverable_segment (seg : bstring) : option folder_class :=
  if seg_is seg "Deletions" then Some RecoverableDeletions
  else if seg_is seg "DiscoveryHolds" || seg_is seg "SubstrateHolds" then Some RecoverableHolds
  else if seg_is seg "Purges" then Some RecoverablePurges
  else if seg_is seg "Versions" then Some RecoverableVersions
  else if seg_is seg "Audits" || seg_is seg "Calendar Logging" then Some RecoverableOps
  else None.

Definition min_rank_class (current : option folder_class) (candidate : folder_class) : folder_class :=
  match current with
  | None => candidate
  | Some c => if builtin_rank candidate <? builtin_rank c then candidate else c
  end.

(** [for seg in segs { if let Some(c) = f(seg) { best = Some(min_rank_class(best, c)) } }] *)
Definition best_match (f : bstring → option folder_class) (segs : list bstring)
    (best : option folder_class) : option folder_class :=
  foldl (λ best seg, match f seg with Some c => Some (min_rank_class best c) | None => best end) best segs.

(** The segments after the first one that is [Recoverable Items]. *)
Fixpoint after_recoverable (segs : list bstring) : option (list bstring) :=
  match segs with
  | [] => None
  | s :: segs => if seg_is s "Recoverable Items" then Some segs else after_recoverable segs
  end.

Definition classify_recoverable (segs : list bstring) : option folder_class :=
  after ← after_recoverable segs;
  if bool_decide (after = []) then Some RecoverableOther
  else Some (default RecoverableOther (best_match match_recoverable_segment after None)).

Section platform.
Context `{Platform}.

(** [folder_path.split('/').map(trim).filter(nonempty)] *)
Definition path_segments (path : bstring) : list bstring :=
  filter (λ s, s ≠ []) (map str_trim (split_on SLASH path)).

(** [classify_folder] *)
Definition classify_folder (path : bstring) : folder_class :=
  let segs := path_segments path in
  if bool_decide (segs = []) then Primary
  else
    let best := match classify_recoverable segs with
                | Some c => Some (min_rank_class None c) | None => None end in
    default Primary (best_match match_non_recoverable_segment segs best).

(** [path_matches_folder_pattern]: some window of consecutive segments matches. *)
Fixpoint window_matches (segs pats : list bstring) : bool :=
  match pats, segs with
  | [], _ => true
  | p :: pats, s :: segs => segment_glob_match s p && window_matches segs pats
  | _ :: _, [] => false
  end.
Definition path_matches_folder_pattern (segs : list bstring) (pattern : bstring) : bool :=
  let pats := path_segments pattern in
  if bool_decide (pats = []) then false
  else if (length segs <? length pats)%nat then false
  else existsb (λ start, window_matches (drop start segs) pats) (seq 0 (S (length segs - length pats))).

(** The first pattern that matches, by index. *)
Fixpoint first_index {A} (p : A → bool) (i : Z) (l : list A) : option Z :=
  match l with [] => None | a :: l => if p a then Some i else first_index p (i + 1) l end.

(** [folder_class_and_rank] *)
Definition folder_class_and_rank (path : bstring) (mode : folder_rank_mode) : folder_class * Z :=
  let class := classify_folder path in
  match mode with
  | FolderOff => (Primary, 0)
  | FolderBuiltin => (class, builtin_rank class)
  | FolderCustom patterns =>
      match first_index (path_matches_folder_pattern (path_segments path)) 0 patterns with
      | Some i => (class, wrap 32 (1 + wrap 32 i))
      | None => (class, 0)
      end
  end.

(** [source_rank_of]: the index of the first nonempty pattern that the path contains. *)
Definition source_rank_of (item : scan_item) (patterns : list bstring) : Z :=
  if bool_decide (patterns = []) then 0
  else
    let key := path_key item in
    let hit pat := negb (bool_decide (pat = [])) &&
                   contains (if windows then map ascii_lower pat else pat) key in
    match first_index hit 0 patterns with
    | Some i => wrap 32 i
    | None => wrap 32 (zlen patterns)
    end.

Definition PIPE : byte := Byte.x7c.
Definition prefer_path_policy_key (item : scan_item) (prefer : list bstring) : Z :=
  let hay := source_path (locus item) ++ [PIPE] ++ locus_folder_path (locus item) in
  let hit p := negb (bool_decide (p = [])) &&
               (if windows then contains (str_to_lowercase p) (str_to_lowercase hay) else contains p hay) in
  if existsb hit prefer then 0 else 1.

(** [rank_key] *)
Definition rank_key_of (ctx : rank_context) (item : scan_item) : rank_key :=
  let '(missing, value) :=
    match policy ctx with
    | FirstSeen => (0, swrap 64 (scan_order item))
    | KeepLargest => (0, - scan_size item)
    | PreferPath => (0, prefer_path_policy_key item (prefer_path ctx))
    | EarliestDate => match (resolve_item_date item).1 with Some ft => (0, ft) | None => (1, 0) end
    end in
  {| fidelity := fidelity_rank_with_mode item (fidelity_mode_of ctx);
     bcc := if prefer_bcc_copy ctx then (if has_bcc item then 0 else 1) else 0;
     source := source_rank_of item (source_rank_patterns ctx);
     folder := (folder_class_and_rank (locus_folder_path (locus item)) (folder_rank ctx)).2;
     policy_missing := missing; policy_value := value;
     key_path := path_key item; key_nid := locus_nid (locus item);
     folder_class_first := ctx_folder_class_first ctx |}.
End platform.

(** [decided_by_rung]: the first component in which two keys differ.  The flag
    selects between two equal pairs. *)
Definition decided_by_rung (self_key other_key : rank_key) (p : keep_policy) (self_is_winner : bool) : string :=
  let '(a, b) := if self_is_winner then (self_key, other_key) else (self_key, other_key) in
  if negb (fidelity a =? fidelity b) then "fidelity"
  else if negb (bcc a =? bcc b) then "bcc_completeness"
  else if folder_class_first a && negb (folder a =? folder b) then "folder_class"
  else if negb (source a =? source b) then "source_rank"
  else if negb (folder_class_first a) && negb (folder a =? folder b) then "folder_class"
  else if negb (policy_missing a =? policy_missing b) || negb (policy_value a =? policy_value b) then
    match p with
    | FirstSeen => "policy_first_seen" | KeepLargest => "policy_keep_largest"
    | PreferPath => "policy_prefer_path" | EarliestDate => "policy_earliest_date"
    end
  else if negb (bool_decide (key_path a = key_path b)) then "path_order"
  else if negb (key_nid a =? key_nid b) then "nid"
  else "path_order".

(** ** Resolving the groups *)

Inductive decision_role := RoleUnique | DupOf | MaterializeFailed.

(** The vectors that [resolve_groups_with_grouping] fills. *)
Record resolved := {
  provisional_winners : list (option nat);
  roles : list decision_role;
  winner_of : list (option nat);
  tier_of : list (option string) }.

(** [sort_by]: the stable sort by rank key. *)
Fixpoint insert_by_rank (x : rank_key * nat) (l : list (rank_key * nat)) : list (rank_key * nat) :=
  match l with
  | [] => [x]
  | y :: l => match rank_cmp x.1 y.1 with Gt => y :: insert_by_rank x l | _ => x :: y :: l end
  end.
Definition sort_by_rank (l : list (rank_key * nat)) : list (rank_key * nat) :=
  foldr insert_by_rank [] l.

(** [v[i] = x]: a panic out of range. *)
Definition set_at {A} (l : list A) (i : nat) (x : A) : total_res (list A) :=
  _ ← get_at l i; Ok (<[i := x]> l).

Section resolve.
Context `{Platform} (ctx : rank_context) (items : list scan_item) (by_ : list bound_by).

Definition ranked_pair (i : nat) : total_res (rank_key * nat) :=
  it ← get_at items i; Ok (rank_key_of ctx it, i).

(** The role of one member of a group with the given winner. *)
Definition assign_role (winner : nat) (r : resolved) (idx : nat) : total_res resolved :=
  let win := bool_decide (idx = winner) in
  rs ← set_at (roles r) idx (if win then RoleUnique else DupOf);
  ws ← set_at (winner_of r) idx (Some winner);
  ts ← set_at (tier_of r) idx (if win then None else by_ !! idx ≫= tier_csv);
  Ok {| provisional_winners := provisional_winners r; roles := rs; winner_of := ws; tier_of := ts |}.

(** One group: its best item wins, the others are duplicates of it. *)
Definition resolve_group (r : resolved) (group : list nat) : total_res resolved :=
  match group with
  | [] => Ok {| provisional_winners := provisional_winners r ++ [None]; roles := roles r;
                winner_of := winner_of r; tier_of := tier_of r |}
  | _ =>
      pairs ← rmap ranked_pair group;
      '(_, winner) ← get_at (sort_by_rank pairs) 0;
      mfold (assign_role winner) group
        {| provisional_winners := provisional_winners r ++ [Some winner]; roles := roles r;
           winner_of := winner_of r; tier_of := tier_of r |}
  end.

Definition resolve_all (groups : list (list nat)) : total_res resolved :=
  let n := length items in
  mfold resolve_group groups
    {| provisional_winners := []; roles := replicate n RoleUnique;
       winner_of := replicate n None; tier_of := replicate n None |}.
End resolve.

(** [resolve_groups_with_grouping] *)
Definition resolve_groups_with_grouping `{Platform} (rank_ctx : rank_context) (gctx : grouping_context)
    (order : hash_order) (items : list scan_item) : total_res (grouping_outcome * resolved) :=
  out ← group_candidates_with_stats gctx order items;
  r ← resolve_all rank_ctx items (out_bound_by out) (out_groups out);
  Ok (out, r).
