(* ===== verification/RankFacts.v ===== *)
(** * Ranking facts (keepset.rs)

    The rank order is a total order, [decided_by] names the component that
    decides, each group's winner is its minimum whatever the order of the group,
    and resolving never panics. *)

From Stdlib Require Import Sorted.
From S2P Require Import Prelude UnionFind Text Recipient Grouping DedupIndex KeepGroup GroupInv Backfill GroupTheorems Rank.
#[local] Open Scope Z_scope.

(** ** Comparison functions *)

Lemma ordering_proj {A B} (f : B → A) (c : A → A → comparison) :
  Ordering c → Ordering (λ x y, c (f x) (f y)).
Proof. intros [H1 H2]. split; [auto|]. intros x y z o. apply H2. Qed.

Lemma ordering_then {A} (c1 c2 : A → A → comparison) :
  Ordering c1 → Ordering c2 → Ordering (λ x y, and_then (c1 x y) (c2 x y)).
Proof.
  intros O1 O2. split.
  - intros a b. rewrite (ord_opp a b), (ord_opp (c := c2) a b). by destruct (c1 a b).
  - intros a b d o. destruct (c1 a b) eqn:Hab.
    + rewrite <- (ord_eq_l c1 a b d Hab). destruct (c1 a d); simpl; [apply ord_trans|congruence|congruence].
    + destruct (c1 b d) eqn:Hbd; simpl; intros <-.
      * assert (c1 d b = Eq) as E by (by rewrite ord_opp, Hbd).
        assert (c1 a d = Lt) as ->; [|done].
        assert (c1 d a = Gt) as Hda by (rewrite (ord_eq_l c1 d b a E), ord_opp, Hab; done).
        by rewrite ord_opp, Hda.
      * intros _. by rewrite (ord_trans a b d Lt Hab Hbd).
      * done.
    + destruct (c1 b d) eqn:Hbd; simpl; intros <-.
      * assert (c1 d b = Eq) as E by (by rewrite ord_opp, Hbd).
        assert (c1 a d = Gt) as ->; [|done].
        assert (c1 d a = Lt) as Hda by (rewrite (ord_eq_l c1 d b a E), ord_opp, Hab; done).
        by rewrite ord_opp, Hda.
      * done.
      * intros _. by rewrite (ord_trans a b d Gt Hab Hbd).
Qed.

(** ** The rank order *)

(** The components in the order of the ladder, with their names. *)
Definition ladder (flag : bool) (p : keep_policy) : list (string * (rank_key → rank_key → comparison)) :=
  let src := ("source_rank"%string, λ a b, source a ?= source b) in
  let fld := ("folder_class"%string, λ a b, folder a ?= folder b) in
  let pol := match p with
             | FirstSeen => "policy_first_seen"%string | KeepLargest => "policy_keep_largest"%string
             | PreferPath => "policy_prefer_path"%string | EarliestDate => "policy_earliest_date"%string
             end in
  [("fidelity"%string, λ a b, fidelity a ?= fidelity b);
   ("bcc_completeness"%string, λ a b, bcc a ?= bcc b)]
  ++ (if flag then [fld; src] else [src; fld])
  ++ [(pol, λ a b, policy_missing a ?= policy_missing b); (pol, λ a b, policy_value a ?= policy_value b);
      ("path_order"%string, λ a b, str_cmp (key_path a) (key_path b));
      ("nid"%string, λ a b, key_nid a ?= key_nid b)].

(** Lexicographic comparison along a ladder. *)
Definition ladder_cmp {A} (l : list (string * (A → A → comparison))) (a b : A) : comparison :=
  foldr (λ r acc, and_then (r.2 a b) acc) Eq l.

Lemma rank_cmp_ladder p a b : rank_cmp a b = ladder_cmp (ladder (folder_class_first a) p) a b.
Proof.
  unfold rank_cmp, ladder_cmp, ladder. destruct (folder_class_first a); simpl;
    repeat match goal with |- context [and_then ?c _] => is_var c || (let E := fresh in destruct c eqn:E); simpl end;
    try done; by destruct (key_nid a ?= key_nid b).
Qed.

Lemma ladder_ordering {A} (l : list (string * (A → A → comparison))) :
  Forall (λ r, Ordering r.2) l → Ordering (ladder_cmp l).
Proof.
  induction 1 as [|[s c] l Hc _ IH].
  - split; [done|]. unfold ladder_cmp. simpl. congruence.
  - by apply (ordering_then c (ladder_cmp l)).
Qed.

Lemma ladder_rungs flag p : Forall (λ r, Ordering r.2) (ladder flag p).
Proof.
  assert (∀ f : rank_key → Z, Ordering (λ a b, f a ?= f b)) as Hz by (intros f; apply (ordering_proj f Z.compare); apply _).
  assert (Ordering (λ a b, str_cmp (key_path a) (key_path b))) as Hs by (apply (ordering_proj key_path str_cmp); apply _).
  destruct flag; cbn [ladder app]; repeat (apply Forall_cons; split; [exact Hs || apply Hz|]); by apply Forall_nil.
Qed.

Lemma ladder_cmp_eq flag p a b :
  folder_class_first a = folder_class_first b → ladder_cmp (ladder flag p) a b = Eq ↔ a = b.
Proof.
  intros Hf. split; [|intros ->; apply ord_refl, ladder_ordering, ladder_rungs].
  assert (∀ x y, and_then x y = Eq ↔ x = Eq ∧ y = Eq) as Hthen by (intros [] []; simpl; naive_solver).
  destruct flag; cbn [ladder ladder_cmp foldr app snd]; rewrite !Hthen, !Z.compare_eq_iff, str_cmp_eq;
    destruct a, b; simpl in *; naive_solver.
Qed.

(** C32 Rank keys built under one ranking context are totally ordered: comparing
    in the other direction gives the opposite result, equal results compose
    (transitivity, also through ties), and only equal keys tie. *)
Theorem rank_order_total a b c :
  folder_class_first a = folder_class_first b → folder_class_first b = folder_class_first c →
  rank_cmp b a = CompOpp (rank_cmp a b) ∧ (rank_cmp a b = Eq ↔ a = b) ∧
  ∀ o, rank_cmp a b = o → rank_cmp b c = o → rank_cmp a c = o.
Proof.
  intros Hab Hbc.
  pose proof (ladder_ordering _ (ladder_rungs (folder_class_first a) FirstSeen)) as HO.
  rewrite !(rank_cmp_ladder FirstSeen), <- Hab. split; [apply ord_opp|].
  split; [by apply ladder_cmp_eq|]. intros o. apply ord_trans.
Qed.

(** The first rung of a ladder on which two keys differ, with its verdict. *)
Fixpoint deciding_rung {A} (l : list (string * (A → A → comparison))) (a b : A) : option (string * comparison) :=
  match l with
  | [] => None
  | (s, c) :: l => match c a b with Eq => deciding_rung l a b | o => Some (s, o) end
  end.

Lemma deciding_rung_cmp {A} (l : list (string * (A → A → comparison))) a b :
  ladder_cmp l a b = match deciding_rung l a b with Some (_, o) => o | None => Eq end.
Proof.
  induction l as [|[s c] l IH]; [done|]. unfold ladder_cmp in *. simpl. destruct (c a b); simpl; done.
Qed.

Lemma Z_compare_neqb x y : (x =? y) = match x ?= y with Eq => true | _ => false end.
Proof. by rewrite Z.eqb_compare. Qed.
Lemma str_cmp_neqb x y : bool_decide (x = y) = match str_cmp x y with Eq => true | _ => false end.
Proof.
  destruct (str_cmp x y) eqn:E; [apply bool_decide_true; by apply str_cmp_eq| |];
    apply bool_decide_false; intros ->; rewrite (ord_refl str_cmp) in E; done.
Qed.

(** The [decided_by] token of a decision is the name of the first rung of the
    ladder on which the two keys differ ([path_order] when they do not), and the
    verdict of that rung is the comparison of the keys. *)
Theorem decided_by_names_the_rung a b p self_is_winner :
  decided_by_rung a b p self_is_winner =
    match deciding_rung (ladder (folder_class_first a) p) a b with
    | Some (s, _) => s | None => "path_order"%string end ∧
  rank_cmp a b =
    match deciding_rung (ladder (folder_class_first a) p) a b with Some (_, o) => o | None => Eq end.
Proof.
  split; [|rewrite (rank_cmp_ladder p); apply deciding_rung_cmp].
  unfold decided_by_rung. destruct self_is_winner; rewrite !Z_compare_neqb, str_cmp_neqb;
  destruct (folder_class_first a); cbn [ladder deciding_rung app andb negb];
    destruct (fidelity a ?= fidelity b); try done; destruct (bcc a ?= bcc b); try done;
    destruct (folder a ?= folder b); try done; destruct (source a ?= source b); try done;
    destruct (policy_missing a ?= policy_missing b); try done;
    destruct (policy_value a ?= policy_value b); try done;
    destruct (str_cmp (key_path a) (key_path b)); try done; by destruct (key_nid a ?= key_nid b).
Qed.

(** ** The best item of a group *)

Lemma ord_le_trans {A} (c : A → A → comparison) `{!Ordering c} a b d :
  c a b ≠ Gt → c b d ≠ Gt → c a d ≠ Gt.
Proof.
  intros Hab Hbd Had. destruct (c b d) eqn:E; [| |done].
  - assert (c d b = Eq) as E' by (by rewrite ord_opp, E).
    rewrite ord_opp, <- (ord_eq_l c d b a E'), <- ord_opp in Hab. done.
  - assert (c d a = Lt) as Hda by (by rewrite ord_opp, Had).
    rewrite ord_opp, (ord_trans _ _ _ _ E Hda) in Hab. done.
Qed.

(** The keys of a group are built under one context. *)
Definition one_flag (flag : bool) (l : list (rank_key * nat)) : Prop :=
  ∀ x, x ∈ l → folder_class_first x.1 = flag.

Lemma rank_cmp_flag flag a b :
  folder_class_first a = flag → rank_cmp a b = ladder_cmp (ladder flag FirstSeen) a b.
Proof. intros <-. apply rank_cmp_ladder. Qed.

(** Keys, and item numbers where the keys are equal. *)
Definition pair_cmp (x y : rank_key * nat) : comparison :=
  and_then (rank_cmp x.1 y.1) (Nat.compare x.2 y.2).

Definition flag_cmp (flag : bool) (x y : rank_key * nat) : comparison :=
  and_then (ladder_cmp (ladder flag FirstSeen) x.1 y.1) (Nat.compare x.2 y.2).

#[export] Instance nat_compare_ordering : Ordering Nat.compare.
Proof.
  split; [apply Nat.compare_antisym|].
  intros a b d []; rewrite ?Nat.compare_eq_iff, ?Nat.compare_lt_iff, ?Nat.compare_gt_iff; lia.
Qed.

Lemma flag_cmp_ordering flag : Ordering (flag_cmp flag).
Proof.
  apply ordering_then.
  - apply (ordering_proj fst (ladder_cmp (ladder flag FirstSeen))), ladder_ordering, ladder_rungs.
  - apply (ordering_proj snd Nat.compare), _.
Qed.

Lemma pair_cmp_flag flag x y : folder_class_first x.1 = flag → pair_cmp x y = flag_cmp flag x y.
Proof. intros Hx. unfold pair_cmp. by rewrite (rank_cmp_flag flag). Qed.

Lemma insert_by_rank_perm x l : insert_by_rank x l ≡ₚ x :: l.
Proof.
  induction l as [|y l IH]; simpl; [done|]. destruct (rank_cmp x.1 y.1); try done.
  rewrite IH. apply Permutation_swap.
Qed.

Lemma sort_by_rank_perm l : sort_by_rank l ≡ₚ l.
Proof. induction l as [|x l IH]; simpl; [done|]. by rewrite insert_by_rank_perm, IH. Qed.

(** The head of the stable sort: no key is smaller, and the first of the equal ones. *)
Lemma sort_by_rank_head flag l h t :
  one_flag flag l → StronglySorted lt (map snd l) → sort_by_rank l = h :: t →
  ∀ y, y ∈ l → pair_cmp h y ≠ Gt.
Proof.
  pose proof (flag_cmp_ordering flag) as HO.
  revert h t. induction l as [|x l IH]; intros h t Hfl Hs E y Hy; [by apply elem_of_nil in Hy|].
  assert (one_flag flag l) as Hfl' by (intros z Hz; apply Hfl; by right).
  assert (folder_class_first x.1 = flag) as Hx by (apply Hfl; by left).
  simpl in Hs. apply StronglySorted_inv in Hs as [Hs Hlt]. rewrite Forall_forall in Hlt.
  simpl in E. destruct (sort_by_rank l) as [|h' t'] eqn:El.
  - simpl in E. injection E as <- <-.
    assert (l = []) as -> by (apply Permutation_nil_r; by rewrite <- (sort_by_rank_perm l), El).
    apply list_elem_of_singleton in Hy as ->. rewrite (pair_cmp_flag flag) by done.
    by rewrite (ord_refl _).
  - specialize (IH h' t' Hfl' Hs eq_refl).
    assert (h' ∈ l) as Hh' by (rewrite <- (sort_by_rank_perm l), El; by left).
    assert (folder_class_first h'.1 = flag) as Hhf by (by apply Hfl').
    assert (x.2 < h'.2)%nat as Hxh by (apply Hlt, list_elem_of_fmap; by exists h').
    assert (rank_cmp x.1 h'.1 ≠ Gt → pair_cmp x h' ≠ Gt) as Hle.
    { unfold pair_cmp. destruct (rank_cmp x.1 h'.1); try done. simpl. intros _ ?%Nat.compare_gt_iff. lia. }
    assert (rank_cmp x.1 h'.1 = Gt → pair_cmp x h' = Gt) as Hgt by (intros Eg; unfold pair_cmp; by rewrite Eg).
    rewrite (pair_cmp_flag flag) in Hle, Hgt by done.
    simpl in E. destruct (rank_cmp x.1 h'.1) eqn:Exh.
    1, 2: injection E as <- <-; apply elem_of_cons in Hy as [->|Hy];
      [rewrite (pair_cmp_flag flag) by done; by rewrite (ord_refl _)|];
      specialize (IH y Hy); rewrite (pair_cmp_flag flag) in IH |- * by done;
      by apply (ord_le_trans _ _ h'); [apply Hle|].
    injection E as <- <-. apply elem_of_cons in Hy as [->|Hy]; [|by apply IH].
    rewrite (pair_cmp_flag flag) by done. by rewrite ord_opp, Hgt.
Qed.

Section resolving.
Context `{Platform} (ctx : rank_context) (items : list scan_item) (by_ : list bound_by).
Abbreviation n := (length items).

(** The rank key of item number [i]. *)
Definition key_of (i : nat) : option rank_key := rank_key_of ctx <$> items !! i.

Lemma ranked_pairs g :
  (∀ i, i ∈ g → (i < n)%nat) →
  ∃ ps, rmap (ranked_pair ctx items) g = Ok ps ∧ map snd ps = g ∧
    Forall (λ p, key_of p.2 = Some p.1) ps.
Proof.
  induction g as [|i g IH]; intros Hlt; [by exists []|].
  destruct IH as (ps & E & Es & Hall); [intros; apply Hlt; by right|].
  destruct (lookup_of_lt items i) as [it Hit]; [apply Hlt; by left|].
  assert (ranked_pair ctx items i = Ok (rank_key_of ctx it, i)) as Ei.
  { unfold ranked_pair, get_at. by rewrite Hit. }
  exists ((rank_key_of ctx it, i) :: ps). rewrite rmap_cons, Ei, bind_ok, E, bind_ok.
  split; [done|]. split; [simpl; by rewrite Es|].
  constructor; [|done]. unfold key_of. simpl. by rewrite Hit.
Qed.

(** The winner of a group: its key is smaller than every other member's, or
    equal to it and the winner was scanned first. *)
Definition best_of (g : list nat) (w : nat) : Prop :=
  w ∈ g ∧ ∃ kw, key_of w = Some kw ∧
    ∀ i, i ∈ g → i ≠ w → ∃ ki, key_of i = Some ki ∧
      (rank_cmp kw ki = Lt ∨ (kw = ki ∧ (w < i)%nat)).

Lemma pick_winner g :
  g ≠ [] → StronglySorted lt g → (∀ i, i ∈ g → (i < n)%nat) →
  ∃ ps k w, rmap (ranked_pair ctx items) g = Ok ps ∧
    get_at (sort_by_rank ps) 0 = Ok (k, w) :> total_res _ ∧ best_of g w.
Proof.
  intros Hne Hsort Hlt. destruct (ranked_pairs g Hlt) as (ps & E & Es & Hall).
  rewrite Forall_forall in Hall.
  destruct (sort_by_rank ps) as [|[k w] t] eqn:Esort.
  { exfalso. apply Hne. assert (ps = []) as ->; [|by rewrite <- Es].
    apply Permutation_nil_r. by rewrite <- (sort_by_rank_perm ps), Esort. }
  exists ps, k, w. split; [done|]. rewrite Esort. split; [done|].
  assert ((k, w) ∈ ps) as Hin by (rewrite <- (sort_by_rank_perm ps), Esort; by left).
  assert (one_flag (ctx_folder_class_first ctx) ps) as Hfl.
  { intros [kx x] Hx. pose proof (Hall _ Hx) as Hkx. unfold key_of in Hkx. simpl in *.
    apply fmap_Some in Hkx as (it & _ & ->). unfold rank_key_of. by case_match. }
  split; [rewrite <- Es; apply list_elem_of_fmap; by exists (k, w)|].
  exists k. split; [by apply (Hall (k, w))|]. intros i Hi Hiw.
  rewrite <- Es in Hi. apply list_elem_of_fmap in Hi as ([ki i'] & -> & Hp). simpl in *.
  exists ki. split; [by apply (Hall (ki, i'))|].
  assert (pair_cmp (k, w) (ki, i') ≠ Gt) as Hc.
  { apply (sort_by_rank_head _ ps (k, w) t Hfl); [by rewrite Es|done|done]. }
  unfold pair_cmp in Hc. simpl in Hc.
  assert (folder_class_first k = folder_class_first ki) as Hff.
  { by rewrite (Hfl _ Hin : folder_class_first k = _), (Hfl _ Hp : folder_class_first ki = _). }
  destruct (rank_cmp k ki) eqn:Ec; [|by left|done]. right.
  rewrite (rank_cmp_ladder FirstSeen), ladder_cmp_eq in Ec by done. split; [done|].
  simpl in Hc. rewrite Nat.compare_gt_iff in Hc. lia.
Qed.

(** Vectors of one entry per item. *)
Definition sized (r : resolved) : Prop :=
  length (roles r) = n ∧ length (winner_of r) = n ∧ length (tier_of r) = n.

(** The entry of item [i] when [w] wins its group. *)
Definition decided (r : resolved) (w i : nat) : Prop :=
  roles r !! i = Some (if decide (i = w) then RoleUnique else DupOf) ∧
  winner_of r !! i = Some (Some w) ∧
  tier_of r !! i = Some (if decide (i = w) then None else by_ !! i ≫= tier_csv).

Definition same_entry (r r' : resolved) (i : nat) : Prop :=
  roles r' !! i = roles r !! i ∧ winner_of r' !! i = winner_of r !! i ∧ tier_of r' !! i = tier_of r !! i.

Lemma set_at_ok {A} (l : list A) i x : (i < length l)%nat → set_at l i x = Ok (<[i := x]> l).
Proof. intros [a Ha]%lookup_of_lt. unfold set_at, get_at. by rewrite Ha. Qed.

Lemma assign_role_ok w r i :
  sized r → (i < n)%nat →
  ∃ r', assign_role by_ w r i = Ok r' ∧ sized r' ∧ provisional_winners r' = provisional_winners r ∧
    decided r' w i ∧ ∀ j, j ≠ i → same_entry r r' j.
Proof.
  intros (L1 & L2 & L3) Hi. unfold assign_role.
  rewrite !set_at_ok by lia. rewrite !bind_ok. eexists. split; [reflexivity|].
  split; [unfold sized; cbn; by rewrite !length_insert|]. split; [done|]. split.
  - unfold decided. cbn. rewrite !list_lookup_insert_eq by lia.
    destruct (decide (i = w)); [by rewrite bool_decide_true|by rewrite bool_decide_false].
  - intros j Hj. unfold same_entry. cbn. by rewrite !list_lookup_insert_ne by congruence.
Qed.

Lemma assign_roles_ok w g r :
  sized r → (∀ i, i ∈ g → (i < n)%nat) →
  ∃ r', mfold (assign_role by_ w) g r = Ok r' ∧ sized r' ∧
    provisional_winners r' = provisional_winners r ∧
    (∀ i, i ∈ g → decided r' w i) ∧ ∀ j, (j ∉ g) → same_entry r r' j.
Proof.
  revert r. induction g as [|i g IH]; intros r Hr Hlt.
  - exists r. repeat (split; [done|]). split; [intros i Hi; by apply elem_of_nil in Hi|done].
  - destruct (assign_role_ok w r i Hr) as (r1 & E1 & Hr1 & Hp1 & Hd1 & Hs1); [apply Hlt; by left|].
    destruct (IH r1 Hr1) as (r2 & E2 & Hr2 & Hp2 & Hd2 & Hs2); [intros; apply Hlt; by right|].
    exists r2. simpl. rewrite E1. simpl. split; [exact E2|]. split; [done|]. split; [congruence|]. split.
    + intros j Hj. destruct (decide (j ∈ g)) as [?|Hn]; [by apply Hd2|].
      apply elem_of_cons in Hj as [->|?]; [|done]. destruct (Hs2 _ Hn) as (A & B & C).
      unfold decided. rewrite A, B, C. exact Hd1.
    + intros j [Hji Hjg]%not_elem_of_cons. destruct (Hs2 _ Hjg) as (A & B & C), (Hs1 _ Hji) as (A' & B' & C').
      unfold same_entry. by rewrite A, B, C.
Qed.

(** What has been resolved when the groups [gs] have been processed. *)
Definition resolved_groups (gs : list (list nat)) (r : resolved) : Prop :=
  sized r ∧ length (provisional_winners r) = length gs ∧
  ∀ gid g, gs !! gid = Some g →
    ∃ w, provisional_winners r !! gid = Some (Some w) ∧ best_of g w ∧ ∀ i, i ∈ g → decided r w i.

Definition disjoint_groups (gs : list (list nat)) : Prop :=
  ∀ gid gid' i, mem gs gid i → mem gs gid' i → gid = gid'.

Lemma resolve_group_ok gs g r :
  g ≠ [] → StronglySorted lt g → (∀ i, i ∈ g → (i < n)%nat) → (∀ gid i, mem gs gid i → i ∉ g) →
  resolved_groups gs r →
  ∃ r', resolve_group ctx items by_ r g = Ok r' ∧ resolved_groups (gs ++ [g]) r'.
Proof.
  intros Hne Hss Hlt Hdis (Hsz & Hlen & Hgs).
  destruct (pick_winner g Hne Hss Hlt) as (ps & k & w & E & Ew & Hw).
  destruct g as [|i0 g0] eqn:Eg; [done|]. rewrite <- Eg in *.
  set (r0 := {| provisional_winners := provisional_winners r ++ [Some w]; roles := roles r;
                winner_of := winner_of r; tier_of := tier_of r |}).
  destruct (assign_roles_ok w g r0) as (r' & E' & Hsz' & Hp' & Hd' & Hs'); [done|done|].
  exists r'. split.
  { unfold resolve_group. rewrite Eg at 1. rewrite E, bind_ok, Ew, bind_ok. exact E'. }
  split; [done|]. rewrite Hp'. cbn [r0 provisional_winners]. rewrite !length_app. split; [simpl; lia|].
  intros gid g' [Hg'|[Hge Hgs']]%lookup_app_Some.
  - destruct (Hgs _ _ Hg') as (w' & Hw' & Hb' & Hd). exists w'. split.
    { by apply lookup_app_l_Some. }
    split; [done|]. intros i Hi. destruct (Hs' i) as (A & B & C); [apply (Hdis gid); by exists g'|].
    unfold decided. rewrite A, B, C. apply (Hd i Hi).
  - destruct (gid - length gs)%nat eqn:Ez; simpl in Hgs'; [|done]. injection Hgs' as <-. exists w.
    assert (gid = length gs) as -> by lia. split; [|done].
    rewrite lookup_app_r by lia. by rewrite Hlen, Nat.sub_diag.
Qed.

Lemma resolve_all_ok gs :
  disjoint_groups gs → Forall (λ g, g ≠ [] ∧ StronglySorted lt g ∧ ∀ i, i ∈ g → (i < n)%nat) gs →
  ∃ r, resolve_all ctx items by_ gs = Ok r ∧ resolved_groups gs r.
Proof.
  intros Hdis Hall. unfold resolve_all.
  set (r0 := {| provisional_winners := []; roles := _; winner_of := _; tier_of := _ |}).
  assert (resolved_groups [] r0) as H0.
  { split; [unfold sized; cbn; by rewrite !length_replicate|]. split; [done|]. intros gid g. done. }
  clearbody r0. change gs with ([] ++ gs) in Hdis. change gs with ([] ++ gs) at 2.
  revert Hdis H0. generalize (@nil (list nat)) as done_. revert r0.
  induction Hall as [|g gs (Hne & Hss & Hlt) _ IH]; intros r done_ Hdis Hr.
  - exists r. by rewrite app_nil_r.
  - destruct (resolve_group_ok done_ g r) as (r1 & E1 & Hr1); [done..| |done|].
    + intros gid i Hm Hi. assert (gid = length done_) as ->.
      { apply (Hdis _ _ i); [destruct Hm as (g' & Hg' & ?); exists g'; by rewrite lookup_app_l_Some with (x := g')|].
        exists g. split; [by rewrite list_lookup_middle|done]. }
      destruct Hm as (g' & Hg' & _). apply lookup_lt_Some in Hg'. lia.
    + destruct (IH r1 (done_ ++ [g])) as (r2 & E2 & Hr2); [by rewrite <- app_assoc|done|].
      exists r2. rewrite <- app_assoc in Hr2. split; [|done]. cbn [mfold]. rewrite E1. exact E2.
Qed.
End resolving.

(** Grouping and ranking run, with what is known of their results. *)
Lemma resolve_runs `{Platform} rctx gctx order items :
  ∃ out r, resolve_groups_with_grouping rctx gctx order items = Ok (out, r) ∧
    partition (length items) (out_groups out) ∧ tags_ok (out_groups out) (out_bound_by out) ∧
    resolved_groups rctx items (out_bound_by out) (out_groups out) r.
Proof.
  destruct (grouping_runs_plain gctx order items) as (_ & out & _ & _ & E & Hp & Ht & _).
  destruct (resolve_all_ok rctx items (out_bound_by out) (out_groups out)) as (r & Er & Hr).
  - intros gid gid' i. by apply partition_unique with (1 := Hp).
  - rewrite Forall_lookup. intros gid g Hg. pose proof (pt_sorted _ _ Hp) as Hs.
    rewrite Forall_lookup in Hs. destruct (Hs _ _ Hg) as [? ?]. split; [done|]. split; [done|].
    intros i Hi. apply (partition_mem _ (out_groups out)); [done|]. by exists gid, g.
  - exists out, r. split; [|done]. unfold resolve_groups_with_grouping. by rewrite E, bind_ok, Er, bind_ok.
Qed.

(** C11 Resolving the groups always returns, one provisional winner per group.  The
    winner of a group is its member with the smallest rank key, the first scanned
    among equal keys; it alone has the role [Unique], every other member is a
    duplicate of it, with the tier of its own provenance. *)
Theorem winners_are_best `{Platform} rctx gctx order items :
  ∃ out r, resolve_groups_with_grouping rctx gctx order items = Ok (out, r) ∧
    length (provisional_winners r) = length (out_groups out) ∧
    ∀ gid g, out_groups out !! gid = Some g →
      ∃ w, provisional_winners r !! gid = Some (Some w) ∧ best_of rctx items g w ∧
        ∀ i, i ∈ g → decided (out_bound_by out) r w i.
Proof.
  destruct (resolve_runs rctx gctx order items) as (out & r & E & _ & _ & _ & Hlen & Hr).
  exists out, r. done.
Qed.

Definition example_key (folder_rank_ : Z) (p : string) : rank_key := {|
  fidelity := 0; bcc := 0; source := 0; folder := folder_rank_; policy_missing := 0; policy_value := 7;
  key_path := bytes_of p; key_nid := 33; folder_class_first := false |}.

Lemma rank_order_total_witness :
  rank_cmp (example_key 2 "b") (example_key 2 "a") = CompOpp (rank_cmp (example_key 2 "a") (example_key 2 "b")) ∧
  (rank_cmp (example_key 2 "a") (example_key 2 "b") = Eq ↔ example_key 2 "a" = example_key 2 "b") ∧
  ∀ o, rank_cmp (example_key 2 "a") (example_key 2 "b") = o →
       rank_cmp (example_key 2 "b") (example_key 6 "a") = o → rank_cmp (example_key 2 "a") (example_key 6 "a") = o.
Proof. apply rank_order_total; reflexivity. Defined.
