(* ===== verification/Integrity.v ===== *)
(** * Integrity reasons (dedup-engine/src/integrity.rs)

    The stable codes of the reasons and their parsing back, the reasons of read
    errors of pst-reader, and the preflight recommendation order. *)

From S2P Require Import Prelude Telemetry PstError UnionFind Text Recipient Grouping DedupIndex KeepGroup.

(** [IntegrityReason::as_str] *)
Definition reason_str (r : integrity_reason) : string :=
  match r with
  | OpenFailed => "OPEN_FAILED"
  | AnsiUnsupported => "ANSI_UNSUPPORTED"
  | UnsupportedCrypt => "UNSUPPORTED_CRYPT"
  | FolderWalkFailed => "FOLDER_WALK_FAILED"
  | CrcMismatch => "CRC_MISMATCH"
  | CrcSuspect => "CRC_SUSPECT"
  | BlockNotFound => "BLOCK_NOT_FOUND"
  | NodeNotFound => "NODE_NOT_FOUND"
  | DataTruncated => "DATA_TRUNCATED"
  | BodyTruncated => "BODY_TRUNCATED"
  | BodyUnavailable => "BODY_UNAVAILABLE"
  | OrphanedNode => "ORPHANED_NODE"
  | InvalidStructure => "INVALID_STRUCTURE"
  | PropertyError => "PROPERTY_ERROR"
  | MessageReadFailed => "MESSAGE_READ_FAILED"
  | AttachMetaFailed => "ATTACH_META_FAILED"
  | AttachStreamOpenFailed => "ATTACH_STREAM_OPEN_FAILED"
  | AttachStreamReadFailed => "ATTACH_STREAM_READ_FAILED"
  | AttachStreamCrc => "ATTACH_STREAM_CRC"
  | AttachBlockNotFound => "ATTACH_BLOCK_NOT_FOUND"
  | AttachDataTruncated => "ATTACH_DATA_TRUNCATED"
  | AttachMethodUnsupported => "ATTACH_METHOD_UNSUPPORTED"
  | AttachCloudLink => "ATTACH_CLOUD_LINK"
  | AttachProbeTruncated => "ATTACH_PROBE_TRUNCATED"
  | AttachProbeTimeout => "ATTACH_PROBE_TIMEOUT"
  | AttachPeerProbeCap => "ATTACH_PEER_PROBE_CAP"
  | PathNotFound => "PATH_NOT_FOUND"
  | NotPst => "NOT_PST"
  | ReadError => "READ_ERROR"
  end%string.

(** [IntegrityReason::deserialize]: [None] is the custom error. *)
Definition reason_parse (s : string) : option integrity_reason :=
  if decide (s = "OPEN_FAILED")%string then Some OpenFailed else
  if decide (s = "ANSI_UNSUPPORTED")%string then Some AnsiUnsupported else
  if decide (s = "UNSUPPORTED_CRYPT")%string then Some UnsupportedCrypt else
  if decide (s = "FOLDER_WALK_FAILED")%string then Some FolderWalkFailed else
  if decide (s = "CRC_MISMATCH")%string then Some CrcMismatch else
  if decide (s = "CRC_SUSPECT")%string then Some CrcSuspect else
  if decide (s = "BLOCK_NOT_FOUND")%string then Some BlockNotFound else
  if decide (s = "NODE_NOT_FOUND")%string then Some NodeNotFound else
  if decide (s = "DATA_TRUNCATED")%string then Some DataTruncated else
  if decide (s = "BODY_TRUNCATED")%string then Some BodyTruncated else
  if decide (s = "BODY_UNAVAILABLE")%string then Some BodyUnavailable else
  if decide (s = "ORPHANED_NODE")%string then Some OrphanedNode else
  if decide (s = "INVALID_STRUCTURE")%string then Some InvalidStructure else
  if decide (s = "PROPERTY_ERROR")%string then Some PropertyError else
  if decide (s = "MESSAGE_READ_FAILED")%string then Some MessageReadFailed else
  if decide (s = "ATTACH_META_FAILED")%string then Some AttachMetaFailed else
  if decide (s = "ATTACH_STREAM_OPEN_FAILED")%string then Some AttachStreamOpenFailed else
  if decide (s = "ATTACH_STREAM_READ_FAILED")%string then Some AttachStreamReadFailed else
  if decide (s = "ATTACH_STREAM_CRC")%string then Some AttachStreamCrc else
  if decide (s = "ATTACH_BLOCK_NOT_FOUND")%string then Some AttachBlockNotFound else
  if decide (s = "ATTACH_DATA_TRUNCATED")%string then Some AttachDataTruncated else
  if decide (s = "ATTACH_METHOD_UNSUPPORTED")%string then Some AttachMethodUnsupported else
  if decide (s = "ATTACH_CLOUD_LINK")%string then Some AttachCloudLink else
  if decide (s = "ATTACH_PROBE_TRUNCATED")%string then Some AttachProbeTruncated else
  if decide (s = "ATTACH_PROBE_TIMEOUT")%string then Some AttachProbeTimeout else
  if decide (s = "ATTACH_PEER_PROBE_CAP")%string then Some AttachPeerProbeCap else
  if decide (s = "PATH_NOT_FOUND")%string then Some PathNotFound else
  if decide (s = "NOT_PST")%string then Some NotPst else
  if decide (s = "READ_ERROR")%string then Some ReadError else
  None.

(** [IntegrityReason::is_attach_probe_fail] *)
Definition is_attach_probe_fail (r : integrity_reason) : bool :=
  match r with
  | AttachStreamOpenFailed | AttachStreamReadFailed | AttachStreamCrc | AttachBlockNotFound
  | AttachDataTruncated | AttachMethodUnsupported | AttachCloudLink | AttachProbeTimeout
  | AttachMetaFailed => true
  | _ => false
  end.

(** [reason_from_pst_error] *)
Definition reason_from_pst_error (e : pst_error) : integrity_reason :=
  match e with
  | AnsiPstNotSupported _ => AnsiUnsupported
  | UnsupportedCryptMethod _ => UnsupportedCrypt
  | PstError.CrcMismatch _ _ => CrcMismatch
  | PstError.BlockNotFound _ => BlockNotFound
  | PstError.NodeNotFound _ | SubnodeNotFound _ | NoSubnodeBTree _ => NodeNotFound
  | PstError.DataTruncated _ _ => DataTruncated
  | InvalidMagic _ | InvalidClientMagic _ | InvalidPageType _ _ | PageTypeMismatch _ _
  | InvalidBlockType _ _ | InvalidHnSignature _ | InvalidBthType _ | InvalidHid _ | InvalidUtf16
  | ResourceLimit _ | BtreeCycle _ => InvalidStructure
  | PropertyNotFound _ | PropertyTypeMismatch _ _ _ => PropertyError
  | Io => OpenFailed
  end.

(** [attach_reason_from_pst_error] *)
Definition attach_reason_from_pst_error (e : pst_error) : integrity_reason :=
  match e with
  | PstError.CrcMismatch _ _ => AttachStreamCrc
  | PstError.BlockNotFound _ => AttachBlockNotFound
  | PstError.DataTruncated _ _ => AttachDataTruncated
  | PstError.NodeNotFound _ | SubnodeNotFound _ | NoSubnodeBTree _ => AttachStreamOpenFailed
  | PropertyNotFound _ | PropertyTypeMismatch _ _ _ => AttachStreamOpenFailed
  | Io => AttachStreamOpenFailed
  | _ => AttachStreamOpenFailed
  end.

(** [is_body_truncation_or_crc] *)
Definition is_body_truncation_or_crc (e : pst_error) : bool :=
  match e with PstError.DataTruncated _ _ | PstError.CrcMismatch _ _ => true | _ => false end.

(** [ScanMode] and its words *)
Inductive scan_mode := BestEffort | Strict.
Definition scan_mode_str (m : scan_mode) : string :=
  match m with BestEffort => "best-effort" | Strict => "strict" end%string.
Definition scan_mode_parse (s : string) : option scan_mode :=
  if bool_decide (s = "best-effort" ∨ s = "best_effort")%string then Some BestEffort
  else if bool_decide (s = "strict")%string then Some Strict else None.

(** [PreflightRecommendation], ordered by severity *)
Inductive recommendation := RecOk | ReExportRecommended | NotExportReady.
Definition recommendation_rank (r : recommendation) : Z :=
  match r with RecOk => 0 | ReExportRecommended => 1 | NotExportReady => 2 end.
Definition recommendation_max (a b : recommendation) : recommendation :=
  if recommendation_rank b <=? recommendation_rank a then a else b.

(** ** The codes round-trip *)

Lemma reason_parse_str r : reason_parse (reason_str r) = Some r.
Proof. destruct r; vm_compute; reflexivity. Qed.

Lemma reason_str_parse s r : reason_parse s = Some r → s = reason_str r.
Proof.
  unfold reason_parse. intros Hr.
  repeat match type of Hr with
  | (if decide (s = ?c) then _ else _) = _ =>
      destruct (decide (s = c)) as [->|_]; [injection Hr as <-; reflexivity|]
  end. done.
Qed.

(** An attachment error is always one that counts as a probe failure. *)
Lemma attach_reason_is_probe_fail e : is_attach_probe_fail (attach_reason_from_pst_error e) = true.
Proof. by destruct e. Qed.
