(* ===== verification/Finalize.v ===== *)
(** * Materializing the winners (dedup-engine/src/keepset.rs)

    [finalize_with_materialize_opts] loads the winner of each group through a
    materializer, promotes the next peer when one fails to load, and with
    [promote_on_attach_fail] looks for a peer whose attachments are complete.
    The materializer and the receiver of the winners are parameters with a state
    of their own. *)

From S2P Require Import Prelude Telemetry PstError UnionFind Text Recipient Grouping DedupIndex KeepGroup Rank Integrity.
#[local] Open Scope Z_scope.

(** ** Messages *)

(** [CanonicalAttachment] and [NestedCanonicalMessage] *)
Inductive canonical_attachment := {
  at_filename : bstring; at_size : Z; at_mime : option bstring; at_data : option bstring;
  stream_available : bool; attach_nid : option Z; attach_method : option Z;
  is_cloud_link : bool; cloud_provider : option bstring; cloud_url : option bstring;
  cloud_permission_type : option Z; embedded_message : option nested_message;
  embedded_extract_limit : bool }
with nested_message := {
  nm_subject : option bstring; nm_sender : option bstring; nm_display_to : option bstring;
  nm_display_cc : option bstring; nm_display_bcc : option bstring;
  nm_recipients : list canonical_recipient; nm_message_id : option bstring;
  nm_message_class : option bstring; nm_message_flags : option Z; nm_submit_time : option Z;
  nm_body_plain : option bstring; nm_body_html : option bstring;
  nm_attachments : list canonical_attachment; nm_body_incomplete : bool;
  nm_body_unavailable : bool; nm_attachments_incomplete : bool; nm_source_msg_nid : option Z }.

(** [CanonicalMessage] *)
Record canonical_message := {
  cm_locus : message_locus; cm_message_id : option bstring; cm_subject : option bstring;
  cm_sender : option bstring; cm_display_to : option bstring; cm_display_cc : option bstring;
  cm_display_bcc : option bstring; cm_recipients : list canonical_recipient;
  cm_message_flags : option Z; cm_submit_time : option Z; cm_size : option Z;
  cm_message_class : option bstring; cm_body_plain : option bstring; cm_body_html : option bstring;
  cm_attachments : list canonical_attachment; cm_fidelity : recoverable_integrity;
  cm_message_id_norm : option bstring; cm_content_hash : bstring;
  cm_edrm_mih_hex : option bstring; body_incomplete : bool; body_unavailable : bool }.

Inductive promote_reason :=
| PromoteMaterializeFail | PromoteAttachIncomplete | PromoteModeCFallback.
Definition promote_reason_str (r : promote_reason) : string :=
  match r with
  | PromoteMaterializeFail => "promoted_after_materialize_fail"
  | PromoteAttachIncomplete => "promoted_after_attach_incomplete"
  | PromoteModeCFallback => "mode_c_fallback_all_peers_incomplete"
  end.

(** [SoftSkipAttachRecord] *)
Record soft_skip_record := {
  ss_source_path : bstring; ss_source_pst : bstring; ss_folder_path : bstring; ss_msg_nid : Z;
  ss_attach_nid : option Z; ss_attach_index : Z; ss_filename : bstring; ss_size : Z;
  ss_attach_method : Z; ss_reason_code : string; ss_peer_source_path : bstring; ss_peer_msg_nid : Z;
  ss_cloud_provider : bstring; ss_cloud_url : bstring }.

(** An attachment that Mode A counts as incomplete. *)
Definition attach_lacking (a : canonical_attachment) : bool :=
  negb (stream_available a) || is_cloud_link a.

(** [is_attach_incomplete] *)
Definition is_attach_incomplete (msg : canonical_message) : bool :=
  if existsb attach_lacking (cm_attachments msg) then true
  else existsb is_attach_probe_fail (degraded_reasons (cm_fidelity msg)).

(** [soft_skip_records_for_msg] *)
Definition soft_skip_reason (reasons : list integrity_reason) : string :=
  match List.find (λ r, bool_decide (r = AttachCloudLink)) reasons with
  | Some r => reason_str r
  | None => match List.find is_attach_probe_fail reasons with
            | Some r => reason_str r
            | None => "ATTACH_STREAM_OPEN_FAILED"
            end
  end.

Definition soft_skip_record_of (msg : canonical_message) (peer_path : bstring) (peer_nid : Z)
    (fail_reason : string) (ia : nat * canonical_attachment) : soft_skip_record :=
  let '(i, a) := ia in {|
  ss_source_path := source_path (cm_locus msg); ss_source_pst := source_pst (cm_locus msg);
  ss_folder_path := locus_folder_path (cm_locus msg); ss_msg_nid := locus_nid (cm_locus msg);
  ss_attach_nid := attach_nid a; ss_attach_index := wrap 32 (Z.of_nat i);
  ss_filename := at_filename a; ss_size := at_size a;
  ss_attach_method := default (-1) (attach_method a);
  ss_reason_code := if is_cloud_link a then "ATTACH_CLOUD_LINK"%string else fail_reason;
  ss_peer_source_path := peer_path; ss_peer_msg_nid := peer_nid;
  ss_cloud_provider := default [] (cloud_provider a); ss_cloud_url := default [] (cloud_url a) |}.

Definition soft_skip_records_for_msg (msg : canonical_message) (peer_path : bstring) (peer_nid : Z)
    : list soft_skip_record :=
  let fail_reason := soft_skip_reason (degraded_reasons (cm_fidelity msg)) in
  let incomplete := filter (λ ia, attach_lacking ia.2 = true)
                      (imap pair (cm_attachments msg)) in
  match incomplete with
  | [] => [ {| ss_source_path := source_path (cm_locus msg); ss_source_pst := source_pst (cm_locus msg);
               ss_folder_path := locus_folder_path (cm_locus msg); ss_msg_nid := locus_nid (cm_locus msg);
               ss_attach_nid := None; ss_attach_index := 0; ss_filename := []; ss_size := 0;
               ss_attach_method := -1; ss_reason_code := fail_reason;
               ss_peer_source_path := peer_path; ss_peer_msg_nid := peer_nid;
               ss_cloud_provider := []; ss_cloud_url := [] |} ]
  | _ => map (soft_skip_record_of msg peer_path peer_nid fail_reason) incomplete
  end.

(** [if cond && !reasons.contains(&r) { reasons.push(r) }] *)
Definition push_reason (cond : bool) (r : integrity_reason) (reasons : list integrity_reason)
    : list integrity_reason :=
  if cond && negb (bool_decide (r ∈ reasons)) then reasons ++ [r] else reasons.

(** [merge_soft_fidelity] *)
Definition merge_soft_fidelity (item : scan_item) (msg : canonical_message) : scan_item :=
  let reasons := degraded_reasons (integrity item) in
  let reasons := push_reason (body_unavailable msg) BodyUnavailable reasons in
  let reasons := push_reason (body_incomplete msg) BodyTruncated reasons in
  let reasons := foldl (λ rs r, push_reason true r rs) reasons (degraded_reasons (cm_fidelity msg)) in
  if negb (bool_decide (reasons = [])) || integrity_is_orphaned (cm_fidelity msg)
     || integrity_is_orphaned (integrity item)
  then item {{ integrity := with_degraded reasons
         (integrity_is_orphaned (integrity item) || integrity_is_orphaned (cm_fidelity msg)) }}
  else item.

(** ** The resolved keep set *)

Inductive family_policy := KeepAttachmentsWithParent | ParentsOnly.
Record keep_set_provenance := {
  scan_integrity_schema : bstring; prov_mode : bstring; input_files : list bstring }.

(** [ResolvedKeepSet].  [policy] and [prefer_path] mirror the rank context,
    [tier2_enabled] the grouping context; [vectors] holds the provisional
    winners, roles, winners and tiers. *)
Record resolved_keep_set := {
  rks_family_policy : family_policy;
  rks_rank_ctx : rank_context; rks_grouping_ctx : grouping_context;
  rks_items : list scan_item; rks_groups : list (list nat);
  vectors : resolved;
  rks_bound_by : list bound_by; rks_tier2_eligible : list bool;
  rks_grouping_stats : grouping_stats;
  promoted_from_failure : list bool; promote_reasons : list (option promote_reason);
  soft_skip_attach_records : list soft_skip_record; group_dropped : list bool;
  created_from : option keep_set_provenance }.

(** The value that [resolve_groups_with_grouping] returns. *)
Definition resolve_keep_set `{Platform} (family : family_policy) (rank_ctx : rank_context)
    (gctx : grouping_context) (created : option keep_set_provenance) (order : hash_order)
    (items : list scan_item) : total_res resolved_keep_set :=
  '(out, r) ← resolve_groups_with_grouping rank_ctx gctx order items;
  let n := length items in
  Ok {| rks_family_policy := family; rks_rank_ctx := rank_ctx; rks_grouping_ctx := gctx;
        rks_items := items; rks_groups := out_groups out; vectors := r;
        rks_bound_by := out_bound_by out; rks_tier2_eligible := out_eligible out;
        rks_grouping_stats := out_stats out;
        promoted_from_failure := replicate n false; promote_reasons := replicate n None;
        soft_skip_attach_records := []; group_dropped := replicate (length (out_groups out)) false;
        created_from := created |}.

(** ** The walk over the peers of a group *)

(** The mutable locals of one group. *)
Record walk_state := {
  wk_items : list scan_item;
  final_winner : option nat;
  failed : list nat;
  soft_skipped : list (nat * canonical_message);
  had_hard_fail : bool; had_soft_skip : bool; mode_c_fallback : bool;
  accepted_msg : option canonical_message;
  accepted_attempt : nat }.

Definition walk_start (items : list scan_item) : walk_state := {|
  wk_items := items; final_winner := None; failed := []; soft_skipped := [];
  had_hard_fail := false; had_soft_skip := false; mode_c_fallback := false;
  accepted_msg := None; accepted_attempt := 0 |}.

(** [final_winner = Some(idx); accepted_msg = Some(msg); accepted_attempt = attempt] *)
Definition accept (attempt idx : nat) (msg : canonical_message) (w : walk_state) : walk_state :=
  w {{ final_winner := Some idx; accepted_msg := Some msg; accepted_attempt := attempt }}.

(** [failed.push(idx)], and the stash of an incomplete peer *)
Definition note_failed (idx : nat) (w : walk_state) : walk_state :=
  w {{ failed ::= λ l, l ++ [idx]; had_hard_fail := true }}.
Definition skip_peer (idx : nat) (msg : canonical_message) (w : walk_state) : walk_state :=
  w {{ had_soft_skip := true; soft_skipped ::= λ l, l ++ [(idx, msg)] }}.
Definition set_item (idx : nat) (item : scan_item) (w : walk_state) : walk_state :=
  w {{ wk_items ::= insert idx item }}.

(** The last peer is incomplete: the highest-ranked incomplete peer is accepted. *)
Definition accept_incomplete (attempt idx : nat) (msg : canonical_message) (w : walk_state) : walk_state :=
  let w := w {{ mode_c_fallback := true }} in
  match soft_skipped w with
  | [] => accept attempt idx msg w
  | (first_idx, first_msg) :: rest =>
      accept (Nat.max attempt 1) first_idx first_msg (w {{ soft_skipped := rest ++ [(idx, msg)] }})
  end.

(** After the loop: no peer was accepted, but one was skipped. *)
Definition fall_back (w : walk_state) : walk_state :=
  match final_winner w, soft_skipped w with
  | None, (first_idx, first_msg) :: rest =>
      accept 1 first_idx first_msg (w {{ mode_c_fallback := true; soft_skipped := rest }})
  | _, _ => w
  end.

Inductive keep_set_error := KsIo | KsCsv (s : bstring) | KsJson (s : bstring) | KsOther (s : bstring).

(** [MD5] of the crate [md-5], and lowercase hexadecimal. *)
Class Md5 := md5 : bstring → bstring.
Definition hex_digit (d : Z) : byte := byte.of_Z (if d <? 10 then 48 + d else 87 + d).
Definition hex_encode (bytes : bstring) : bstring :=
  b ← bytes; [hex_digit (u8 b / 16); hex_digit (u8 b mod 16)].
Definition edrm_mih_hex `{Md5} (mid_norm : bstring) : bstring := hex_encode (md5 mid_norm).
(** [RecoverableScanItem::edrm_mih_hex] *)
Definition item_edrm_mih_hex `{Md5} (item : scan_item) : option bstring :=
  edrm_mih_hex <$> mid_present (message_id_norm item).

(** The message takes the integrity and the keys of its scan item. *)
Definition carry_keys `{Md5} (item : scan_item) (msg : canonical_message) : canonical_message :=
  msg {{ cm_fidelity := integrity item; cm_message_id_norm := message_id_norm item;
         cm_content_hash := scan_content_hash item; cm_edrm_mih_hex := item_edrm_mih_hex item }}.

Section finalize.
Context `{Platform, Md5} {M W : Type}.
Context (materialize : message_locus → M → (canonical_message + bstring) * M).
Context (on_winner : canonical_message → W → option keep_set_error * W).
Context (promote_on_attach_fail : bool).

(** The loop over the ranked peers from number [attempt] on; [total] is their number. *)
Fixpoint walk_peers (total attempt : nat) (ranked : list nat) (m : M) (w : walk_state)
    : total_res (M * walk_state) :=
  match ranked with
  | [] => Ok (m, w)
  | idx :: ranked =>
      item ← get_at (wk_items w) idx;
      match materialize (locus item) m with
      | (inl msg, m) =>
          let item := merge_soft_fidelity item msg in
          let w := set_item idx item w in
          let msg := carry_keys item msg in
          let incomplete := promote_on_attach_fail && is_attach_incomplete msg in
          let more_peers := (attempt + 1 <? total)%nat in
          if incomplete && more_peers then
            walk_peers total (S attempt) ranked m (skip_peer idx msg w)
          else if incomplete then Ok (m, accept_incomplete attempt idx msg w)
          else Ok (m, accept attempt idx msg w)
      | (inr _, m) =>
          walk_peers total (S attempt) ranked m (note_failed idx w)
      end
  end.

(** ** One group *)

Record final_state := {
  fin_resolved : resolved_keep_set; fin_mat : M; fin_sink : W; fin_count : Z }.

(** An error of [on_winner], with the state at that point. *)
Definition fin_res : Type := res (keep_set_error * final_state) final_state.
Definition of_total {A} (m : total_res A) : res (keep_set_error * final_state) A :=
  match m with Ok a => Ok a | Err e => match e with end | Panic => Panic | NoFuel => NoFuel end.

Definition set_role (idx : nat) (role : decision_role) (win : option nat) (tier : option string)
    (promoted : bool) (reason : option promote_reason) (r : resolved_keep_set)
    : total_res resolved_keep_set :=
  let v := vectors r in
  rs ← set_at (roles v) idx role;
  ws ← set_at (winner_of v) idx win;
  ts ← set_at (tier_of v) idx tier;
  ps ← set_at (promoted_from_failure r) idx promoted;
  qs ← set_at (promote_reasons r) idx reason;
  Ok (r {{ vectors := {| provisional_winners := provisional_winners v; roles := rs;
                         winner_of := ws; tier_of := ts |};
           promoted_from_failure := ps; promote_reasons := qs }}).

(** The final role of one member of a group with a winner. *)
Definition final_role (w : walk_state) (winner : nat) (promoted : bool) (reason : option promote_reason)
    (r : resolved_keep_set) (idx : nat) : total_res resolved_keep_set :=
  if bool_decide (idx ∈ failed w) then set_role idx MaterializeFailed (Some winner) None false None r
  else if bool_decide (idx = winner) then set_role idx RoleUnique (Some winner) None promoted reason r
  else set_role idx DupOf (Some winner) (rks_bound_by r !! idx ≫= tier_csv) false None r.

Definition promotion (w : walk_state) : bool * option promote_reason :=
  let promoted := (0 <? accepted_attempt w)%nat || had_hard_fail w || had_soft_skip w in
  (promoted,
   if mode_c_fallback w then Some PromoteModeCFallback
   else if promoted then
     if had_soft_skip w then Some PromoteAttachIncomplete else Some PromoteMaterializeFail
   else None).

(** [soft_skipped_msgs.drain(..)]: the records of the skipped peers but the winner. *)
Definition skip_records (w : walk_state) (winner : nat) (peer : scan_item) : list soft_skip_record :=
  im ← soft_skipped w;
  if bool_decide (im.1 = winner) then []
  else soft_skip_records_for_msg im.2 (source_path (locus peer)) (locus_nid (locus peer)).

(** The members in the order of their rank keys. *)
Definition rank_group (rank_ctx : rank_context) (items : list scan_item) (group : list nat)
    : total_res (list nat) :=
  pairs ← rmap (ranked_pair rank_ctx items) group; Ok (map snd (sort_by_rank pairs)).

(** [resolved.group_dropped[g_idx] = dropped] *)
Definition set_dropped (g_idx : nat) (dropped : bool) (r : resolved_keep_set) : total_res resolved_keep_set :=
  ds ← set_at (group_dropped r) g_idx dropped; Ok (r {{ group_dropped := ds }}).

(** The group's outcome once its peers have been walked. *)
Definition close_group (g_idx : nat) (group : list nat) (w : walk_state) (st : final_state) : fin_res :=
  let r := fin_resolved st in
  match final_winner w, accepted_msg w with
  | Some winner, Some msg =>
      let '(promoted, reason) := promotion w in
      peer ← of_total (get_at (rks_items r) winner);
      let r := r {{ soft_skip_attach_records ::= λ l, l ++ skip_records w winner peer }} in
      match on_winner msg (fin_sink st) with
      | (Some e, sink) =>
          Err (e, {| fin_resolved := r; fin_mat := fin_mat st; fin_sink := sink; fin_count := fin_count st |})
      | (None, sink) =>
          r ← of_total (set_dropped g_idx false r);
          r ← of_total (mfold (final_role w winner promoted reason) group r);
          Ok {| fin_resolved := r; fin_mat := fin_mat st; fin_sink := sink;
                fin_count := add_u64 1 (fin_count st) |}
      end
  | Some _, None => Err (KsOther (bytes_of "internal: accepted winner without message"), st)
  | None, _ =>
      r ← of_total (set_dropped g_idx true r);
      r ← of_total (mfold (λ r idx, set_role idx MaterializeFailed None None false None r) group r);
      Ok {| fin_resolved := r; fin_mat := fin_mat st; fin_sink := fin_sink st; fin_count := fin_count st |}
  end.

(** One iteration of the loop over the groups. *)
Definition finalize_group (st : final_state) (ig : nat * list nat) : fin_res :=
  let '(g_idx, group) := ig in
  let r := fin_resolved st in
  if bool_decide (group = []) then Ok st
  else
    ranked ← of_total (rank_group (rks_rank_ctx r) (rks_items r) group);
    '(m, w) ← of_total (walk_peers (length ranked) 0 ranked (fin_mat st) (walk_start (rks_items r)));
    let w := fall_back w in
    close_group g_idx group w
      {| fin_resolved := r {{ rks_items := wk_items w }}; fin_mat := m;
         fin_sink := fin_sink st; fin_count := fin_count st |}.

(** [finalize_with_materialize_opts], with the states of the materializer and of
    [on_winner]; the count is the returned number of winners. *)
Definition finalize_with_materialize_opts (r : resolved_keep_set) (m : M) (sink : W) : fin_res :=
  let r := r {{ soft_skip_attach_records := [] }} in
  mfold finalize_group (imap pair (rks_groups r))
    {| fin_resolved := r; fin_mat := m; fin_sink := sink; fin_count := 0 |}.
End finalize.
