(* ===== verification/FinalizeTheorems.v ===== *)
(** * Materialization facts (keepset.rs)

    The walk over the peers of a group is the trace of their outcomes with a
    simple choice: the first complete peer, else the first incomplete one.
    Finalizing never panics, and it settles every group accordingly. *)

From Stdlib Require Import Sorted.
From S2P Require Import Prelude Telemetry PstError UnionFind Text Recipient Grouping DedupIndex KeepGroup GroupInv Backfill GroupTheorems Rank RankFacts Integrity Finalize.
#[local] Open Scope Z_scope.

(** ** The reference: outcomes in rank order, and the choice *)

Inductive peer_outcome :=
| PeerFailed
| PeerIncomplete (msg : canonical_message)
| PeerComplete (msg : canonical_message).

Abbreviation outcomes := (list (nat * peer_outcome)).

Definition failed_of (outs : outcomes) : list nat :=
  omap (λ io, match io.2 with PeerFailed => Some io.1 | _ => None end) outs.
Definition incompletes (outs : outcomes) : list (nat * canonical_message) :=
  omap (λ io, match io.2 with PeerIncomplete msg => Some (io.1, msg) | _ => None end) outs.
Definition completes (outs : outcomes) : list (nat * canonical_message) :=
  omap (λ io, match io.2 with PeerComplete msg => Some (io.1, msg) | _ => None end) outs.

(** The first complete peer, else the first incomplete one. *)
Definition chosen (outs : outcomes) : option (nat * canonical_message) :=
  match head (completes outs) with Some c => Some c | None => head (incompletes outs) end.

(** How the choice is reported. *)
Definition reported (outs : outcomes) : bool * option promote_reason :=
  let promoted := (1 <? length outs)%nat in
  (promoted,
   if bool_decide (completes outs = []) then Some PromoteModeCFallback
   else if promoted then
     if bool_decide (incompletes outs = []) then Some PromoteMaterializeFail
     else Some PromoteAttachIncomplete
   else None).

(** The incomplete peers that were passed over. *)
Definition passed_over (outs : outcomes) : list (nat * canonical_message) :=
  if bool_decide (completes outs = []) then tail (incompletes outs) else incompletes outs.

Section walk.
Context `{Platform, Md5} {M W : Type}.
Context (materialize : message_locus → M → (canonical_message + bstring) * M).
Context (on_winner : canonical_message → W → option keep_set_error * W).
Context (flag : bool).

(** The outcomes of the peers up to the first complete one, with the states of
    the materializer and the items. *)
Fixpoint trace (ranked : list nat) (m : M) (items : list scan_item) : outcomes * M * list scan_item :=
  match ranked with
  | [] => ([], m, items)
  | idx :: ranked =>
      match items !! idx with
      | None => ([], m, items)
      | Some item =>
          match materialize (locus item) m with
          | (inr _, m) =>
              let '(outs, m, items) := trace ranked m items in ((idx, PeerFailed) :: outs, m, items)
          | (inl msg, m) =>
              let item := merge_soft_fidelity item msg in
              let msg := carry_keys item msg in
              let items := <[idx := item]> items in
              if flag && is_attach_incomplete msg
              then let '(outs, m, items) := trace ranked m items in
                   ((idx, PeerIncomplete msg) :: outs, m, items)
              else ([(idx, PeerComplete msg)], m, items)
          end
      end
  end.

(** The walk's state when the peers with the outcomes [outs] were passed. *)
Record passing (outs : outcomes) (items : list scan_item) (w : walk_state) : Prop := {
  ps_items : wk_items w = items;
  ps_winner : final_winner w = None;
  ps_msg : accepted_msg w = None;
  ps_failed : failed w = failed_of outs;
  ps_skipped : soft_skipped w = incompletes outs;
  ps_hard : had_hard_fail w = negb (bool_decide (failed_of outs = []));
  ps_soft : had_soft_skip w = negb (bool_decide (incompletes outs = []));
  ps_mode : mode_c_fallback w = false;
  ps_attempt : accepted_attempt w = 0%nat;
  ps_complete : completes outs = [] }.

(** The walk's state at its end. *)
Record walked (outs : outcomes) (items : list scan_item) (w : walk_state) : Prop := {
  wd_items : wk_items w = items;
  wd_winner : final_winner w = fst <$> chosen outs;
  wd_msg : accepted_msg w = snd <$> chosen outs;
  wd_failed : failed w = failed_of outs;
  wd_skipped : is_Some (chosen outs) → soft_skipped w = passed_over outs;
  wd_promotion : is_Some (chosen outs) → promotion w = reported outs }.

Lemma omap_nil_iff {A B} (f : A → option B) l : omap f l = [] ↔ ∀ x, x ∈ l → f x = None.
Proof.
  induction l as [|x l IH]; [split; [intros _ y Hy; by apply elem_of_nil in Hy|done]|].
  simpl. destruct (f x) eqn:E.
  - split; [done|]. intros Hf. specialize (Hf x ltac:(by left)). congruence.
  - rewrite IH. split; [intros Hf y [->|Hy]%elem_of_cons; auto|]. intros Hf y Hy. apply Hf. by right.
Qed.

Lemma failed_of_snoc outs i o :
  failed_of (outs ++ [(i, o)]) = failed_of outs ++ match o with PeerFailed => [i] | _ => [] end.
Proof. unfold failed_of. rewrite omap_app. simpl. by destruct o. Qed.
Lemma incompletes_snoc outs i o :
  incompletes (outs ++ [(i, o)]) = incompletes outs ++ match o with PeerIncomplete msg => [(i, msg)] | _ => [] end.
Proof. unfold incompletes. rewrite omap_app. simpl. by destruct o. Qed.
Lemma completes_snoc outs i o :
  completes (outs ++ [(i, o)]) = completes outs ++ match o with PeerComplete msg => [(i, msg)] | _ => [] end.
Proof. unfold completes. rewrite omap_app. simpl. by destruct o. Qed.

Lemma nil_snoc {A} (l : list A) x : bool_decide (l ++ [x] = []) = false.
Proof. apply bool_decide_false. by destruct l. Qed.

Lemma passing_start items : passing [] items (walk_start items).
Proof. by split. Qed.

Lemma passing_counts outs items w :
  passing outs items w →
  had_hard_fail w || had_soft_skip w = negb (bool_decide (outs = [])).
Proof.
  intros Hp. rewrite (ps_hard _ _ _ Hp), (ps_soft _ _ _ Hp).
  pose proof (ps_complete _ _ _ Hp) as Hc. destruct outs as [|[i []] outs]; simpl in *; try done.
  by rewrite orb_true_r.
Qed.

Lemma passing_fail outs items w idx :
  passing outs items w → passing (outs ++ [(idx, PeerFailed)]) items (note_failed idx w).
Proof.
  intros [? ? ? Hf Hs Hh Hso ? ? Hc].
  split; rewrite ?failed_of_snoc, ?incompletes_snoc, ?completes_snoc, ?app_nil_r, ?nil_snoc; try done.
  change (failed w ++ [idx] = failed_of outs ++ [idx]). by rewrite Hf.
Qed.

Lemma passing_skip outs items w idx item msg :
  passing outs items w →
  passing (outs ++ [(idx, PeerIncomplete msg)]) (<[idx := item]> items) (skip_peer idx msg (set_item idx item w)).
Proof.
  intros [Hi ? ? Hf Hs Hh Hso ? ? Hc].
  split; rewrite ?failed_of_snoc, ?incompletes_snoc, ?completes_snoc, ?app_nil_r, ?nil_snoc; try done.
  - change (<[idx := item]> (wk_items w) = <[idx := item]> items). by rewrite Hi.
  - change (soft_skipped w ++ [(idx, msg)] = incompletes outs ++ [(idx, msg)]). by rewrite Hs.
Qed.

(** What an acceptance reports. *)
Definition promoting (attempt : nat) (hard soft mode : bool) : bool * option promote_reason :=
  let promoted := (0 <? attempt)%nat || hard || soft in
  (promoted,
   if mode then Some PromoteModeCFallback
   else if promoted then
     if soft then Some PromoteAttachIncomplete else Some PromoteMaterializeFail
   else None).
Lemma promotion_accept k idx msg w :
  promotion (accept k idx msg w) = promoting k (had_hard_fail w) (had_soft_skip w) (mode_c_fallback w).
Proof. done. Qed.

(** The three ways in which a walk ends. *)
Lemma walked_complete outs items w idx item msg :
  passing outs items w →
  walked (outs ++ [(idx, PeerComplete msg)]) (<[idx := item]> items)
    (accept (length outs) idx msg (set_item idx item w)).
Proof.
  intros Hp. pose proof (passing_counts _ _ _ Hp) as Hcnt. destruct Hp as [Hi ? ? Hf Hs Hh Hso Hm ? Hc].
  split; unfold chosen, passed_over; rewrite ?failed_of_snoc, ?incompletes_snoc, ?completes_snoc, ?Hc, ?app_nil_r; try done.
  - change (<[idx := item]> (wk_items w) = <[idx := item]> items). by rewrite Hi.
  - intros _. rewrite promotion_accept.
    change (promoting (length outs) (had_hard_fail w) (had_soft_skip w) (mode_c_fallback w) =
            reported (outs ++ [(idx, PeerComplete msg)])). unfold promoting, reported.
    rewrite completes_snoc, Hc, incompletes_snoc, app_nil_r, length_app, Hm. cbn [length app].
    rewrite <- orb_assoc, Hcnt, (bool_decide_false ([_] = [])) by done.
    assert ((0 <? length outs)%nat || negb (bool_decide (outs = [])) = (1 <? length outs + 1)%nat) as ->.
    { destruct outs; [done|]. simpl. by rewrite Nat.add_comm. }
    rewrite Hso. by destruct (bool_decide (incompletes outs = [])).
Qed.

Lemma walked_incomplete outs items w idx item msg :
  passing outs items w →
  walked (outs ++ [(idx, PeerIncomplete msg)]) (<[idx := item]> items)
    (accept_incomplete (length outs) idx msg (set_item idx item w)).
Proof.
  intros Hp. pose proof (passing_counts _ _ _ Hp) as Hcnt. destruct Hp as [Hi ? ? Hf Hs Hh Hso Hm ? Hc].
  unfold accept_incomplete.
  match goal with |- context [soft_skipped ?s] => change (soft_skipped s) with (soft_skipped w) end.
  rewrite Hs.
  assert ((1 <? length outs + 1)%nat = negb (bool_decide (outs = []))) as Hlen.
  { destruct outs; [done|]. simpl. by rewrite Nat.add_comm. }
  destruct (incompletes outs) as [|[i1 m1] rest] eqn:Einc;
    split; unfold chosen, passed_over; rewrite ?failed_of_snoc, ?incompletes_snoc, ?completes_snoc, ?Hc, ?Einc, ?app_nil_r;
    try done; try (change (<[idx := item]> (wk_items w) = <[idx := item]> items); by rewrite Hi);
    intros _; rewrite promotion_accept.
  - change (promoting (length outs) (had_hard_fail w) (had_soft_skip w) true =
            reported (outs ++ [(idx, PeerIncomplete msg)])). unfold promoting, reported.
    rewrite completes_snoc, Hc, length_app. cbn [length app].
    rewrite <- orb_assoc, Hcnt, Hlen, (bool_decide_true (@nil (nat * canonical_message) = [])) by done. f_equal. by destruct outs.
  - change (promoting (Nat.max (length outs) 1) (had_hard_fail w) (had_soft_skip w) true =
            reported (outs ++ [(idx, PeerIncomplete msg)])). unfold promoting, reported.
    rewrite completes_snoc, Hc, length_app. cbn [length app].
    rewrite <- orb_assoc, Hcnt, Hlen, (bool_decide_true (@nil (nat * canonical_message) = [])) by done. f_equal. by destruct outs.
Qed.

Lemma walked_fall_back outs items w :
  passing outs items w → (1 < length outs)%nat ∨ incompletes outs = [] → walked outs items (fall_back w).
Proof.
  intros Hp Hlen. pose proof Hp as [Hi Hw Hmsg Hf Hs Hh Hso Hm Ha Hc]. unfold fall_back.
  rewrite Hw, Hs. destruct (incompletes outs) as [|[i1 m1] rest] eqn:Einc.
  - assert (chosen outs = None) as En by (unfold chosen; by rewrite Hc, Einc).
    split; rewrite ?En; try done; by intros [? ?].
  - split; unfold chosen, passed_over; rewrite ?Hc, ?Einc; try done.
    intros _. rewrite promotion_accept.
    change (promoting 1 (had_hard_fail w) (had_soft_skip w) true = reported outs).
    unfold promoting, reported. rewrite Hc, (bool_decide_true (@nil (nat * canonical_message) = [])) by done.
    destruct Hlen as [Hlen|]; [|done]. by rewrite (proj2 (Nat.ltb_lt _ _) Hlen).
Qed.

(** ** The walk is the trace *)

(** All members are item numbers. *)
Definition in_range (n : nat) (l : list nat) : Prop := ∀ i, i ∈ l → (i < n)%nat.

Lemma fall_back_walked outs items w : is_Some (chosen outs) → walked outs items w → walked outs items (fall_back w).
Proof.
  intros [c Hc] Hw. unfold fall_back. by rewrite (wd_winner _ _ _ Hw), Hc.
Qed.

Lemma in_range_cons n i l : in_range n (i :: l) ↔ (i < n)%nat ∧ in_range n l.
Proof.
  unfold in_range. split.
  - intros Hr. split; [apply Hr; by left|]. intros j Hj. apply Hr. by right.
  - intros [Hi Hr] j [->|Hj]%elem_of_cons; auto.
Qed.

Lemma walk_peers_trace total ranked m outs w :
  passing outs (wk_items w) w → in_range (length (wk_items w)) ranked →
  total = (length outs + length ranked)%nat → incompletes outs = [] ∨ (1 < total)%nat →
  ∃ outs' m' items' w', trace ranked m (wk_items w) = (outs', m', items') ∧
    walk_peers materialize flag total (length outs) ranked m w = Ok (m', w') ∧
    walked (outs ++ outs') items' (fall_back w').
Proof.
  revert m outs w. induction ranked as [|idx ranked IH]; intros m outs w Hp Hr Ht Hone.
  { exists [], m, (wk_items w), w. rewrite app_nil_r. split; [done|]. split; [done|].
    apply walked_fall_back; [done|]. simpl in Ht. destruct Hone as [?|?]; [by right|left; lia]. }
  apply in_range_cons in Hr as [Hi Hr]. destruct (lookup_lt_is_Some_2 _ _ Hi) as [item Hitem].
  cbn [trace walk_peers]. rewrite Hitem. unfold get_at. rewrite Hitem, bind_ok.
  assert (∀ o, length (outs ++ [(idx, o)]) = S (length outs)) as Hlen by (intros; rewrite length_app; simpl; lia).
  simpl in Ht. destruct (materialize (locus item) m) as [[msg|e] m1].
  - set (item' := merge_soft_fidelity item msg). set (msg' := carry_keys item' msg). cbv zeta.
    destruct (flag && is_attach_incomplete msg') eqn:Einc.
    + destruct (length outs + 1 <? total)%nat eqn:Emore; cbn [andb].
      * destruct (IH m1 (outs ++ [(idx, PeerIncomplete msg')]) (skip_peer idx msg' (set_item idx item' w)))
          as (outs' & m' & items' & w' & E1 & E2 & Hw).
        -- by apply (passing_skip outs (wk_items w)).
        -- change (wk_items _) with (<[idx := item']> (wk_items w)). by rewrite length_insert.
        -- rewrite Hlen. lia.
        -- right. apply Nat.ltb_lt in Emore. lia.
        -- change (wk_items (skip_peer _ _ _)) with (<[idx := item']> (wk_items w)) in E1.
           rewrite E1. rewrite Hlen in E2. rewrite <- (assoc_L (++)) in Hw.
           eexists _, _, _, _. split; [reflexivity|]. by split.
      * assert (ranked = []) as ->.
        { apply Nat.ltb_ge in Emore. destruct ranked; [done|]. simpl in Ht. lia. }
        eexists _, _, _, _. split; [reflexivity|]. split; [reflexivity|].
        apply fall_back_walked; [|by apply walked_incomplete].
        unfold chosen. rewrite completes_snoc, (ps_complete _ _ _ Hp), incompletes_snoc.
        by destruct (incompletes outs).
    + cbn [andb]. eexists _, _, _, _. split; [reflexivity|]. split; [reflexivity|].
      apply fall_back_walked; [|by apply walked_complete].
      unfold chosen. rewrite completes_snoc, (ps_complete _ _ _ Hp). done.
  - destruct (IH m1 (outs ++ [(idx, PeerFailed)]) (note_failed idx w))
      as (outs' & m' & items' & w' & E1 & E2 & Hw).
    + by apply (passing_fail outs (wk_items w)).
    + done.
    + rewrite Hlen. lia.
    + rewrite incompletes_snoc, app_nil_r. done.
    + change (wk_items (note_failed _ _)) with (wk_items w) in E1. rewrite E1.
      rewrite Hlen in E2. rewrite <- (assoc_L (++)) in Hw.
      eexists _, _, _, _. split; [reflexivity|]. by split.
Qed.

Lemma walk_group ranked m items :
  in_range (length items) ranked →
  ∃ outs m' items' w, trace ranked m items = (outs, m', items') ∧
    walk_peers materialize flag (length ranked) 0 ranked m (walk_start items) = Ok (m', w) ∧
    walked outs items' (fall_back w).
Proof.
  intros Hr. destruct (walk_peers_trace (length ranked) ranked m [] (walk_start items))
    as (outs & m' & items' & w & ? & ? & ?); [apply passing_start|done|done|by left|].
  by exists outs, m', items', w.
Qed.

(** *** What the trace visits *)

Lemma trace_items ranked m items outs m' items' :
  trace ranked m items = (outs, m', items') →
  length items' = length items ∧ (∀ i, (i ∉ ranked) → items' !! i = items !! i).
Proof.
  revert m items outs m' items'. induction ranked as [|idx ranked IH]; intros m items outs m' items'; simpl.
  { by intros [= <- <- <-]. }
  destruct (items !! idx) as [item|] eqn:Hitem; [|by intros [= <- <- <-]].
  assert (∀ it i, (i ∉ idx :: ranked) → <[idx := it]> items !! i = items !! i) as Hins.
  { intros it i [Hne _]%not_elem_of_cons. by apply list_lookup_insert_ne. }
  assert (∀ i, (i ∉ idx :: ranked) → i ∉ ranked) as Hsub by (by intros i [_ ?]%not_elem_of_cons).
  destruct (materialize (locus item) m) as [[msg|e] m1].
  - destruct (flag && _).
    + destruct (trace ranked m1 _) as [[outs1 m2] items2] eqn:E. intros [= <- <- <-].
      destruct (IH _ _ _ _ _ E) as [Hl Hsame]. rewrite length_insert in Hl. split; [done|].
      intros i Hi. rewrite Hsame by auto. by apply Hins.
    + intros [= <- <- <-]. rewrite length_insert. split; [done|]. apply Hins.
  - destruct (trace ranked m1 items) as [[outs1 m2] items2] eqn:E. intros [= <- <- <-].
    destruct (IH _ _ _ _ _ E) as [Hl Hsame]. split; [done|]. auto.
Qed.

(** The peers are tried in rank order, up to the first complete one. *)
Lemma trace_order ranked m items outs m' items' :
  in_range (length items) ranked → trace ranked m items = (outs, m', items') →
  map fst outs `prefix_of` ranked ∧ (completes outs = [] → map fst outs = ranked).
Proof.
  revert m items outs m' items'. induction ranked as [|idx ranked IH]; intros m items outs m' items' Hr; simpl.
  { by intros [= <- <- <-]. }
  apply in_range_cons in Hr as [Hi Hr]. destruct (lookup_lt_is_Some_2 _ _ Hi) as [item Hitem]. rewrite Hitem.
  assert (∀ (o : peer_outcome) (outs1 : outcomes), map fst outs1 `prefix_of` ranked → map fst ((idx, o) :: outs1) `prefix_of` idx :: ranked) as Hpre.
  { intros o outs1. simpl. apply prefix_cons. }
  destruct (materialize (locus item) m) as [[msg|e] m1].
  - destruct (flag && _).
    + destruct (trace ranked m1 _) as [[outs1 m2] items2] eqn:E. intros [= <- <- <-].
      apply IH in E as [E1 E2]; [|by rewrite length_insert]. split; [by apply Hpre|]. simpl. intros Hc. by rewrite E2.
    + intros [= <- <- <-]. split; [|done]. apply (Hpre (PeerComplete _) []), prefix_nil.
  - destruct (trace ranked m1 items) as [[outs1 m2] items2] eqn:E. intros [= <- <- <-].
    apply IH in E as [E1 E2]; [|done]. split; [by apply Hpre|]. simpl. intros Hc. by rewrite E2.
Qed.

(** The message of a peer that loaded has the integrity and keys of its item. *)
Definition carries (items : list scan_item) (idx : nat) (msg : canonical_message) : Prop :=
  ∃ item, items !! idx = Some item ∧ cm_fidelity msg = integrity item ∧
    cm_message_id_norm msg = message_id_norm item ∧ cm_content_hash msg = scan_content_hash item ∧
    cm_edrm_mih_hex msg = item_edrm_mih_hex item.

Lemma trace_carries ranked m items outs m' items' idx msg :
  NoDup ranked → trace ranked m items = (outs, m', items') →
  ((idx, PeerIncomplete msg) ∈ outs ∨ (idx, PeerComplete msg) ∈ outs) → carries items' idx msg.
Proof.
  revert m items outs m' items'. induction ranked as [|i ranked IH]; intros m items outs m' items' Hnd; simpl.
  { intros [= <- <- <-]. by intros [?%elem_of_nil|?%elem_of_nil]. }
  apply NoDup_cons in Hnd as [Hni Hnd].
  destruct (items !! i) as [item|] eqn:Hitem; [|intros [= <- <- <-]; by intros [?%elem_of_nil|?%elem_of_nil]].
  pose proof (lookup_lt_Some _ _ _ Hitem) as Hlt.
  destruct (materialize (locus item) m) as [[msg1|e] m1].
  - set (item' := merge_soft_fidelity item msg1).
    assert (∀ l, l !! i = Some item' → carries l i (carry_keys item' msg1)) as Hc by (intros l Hl; by exists item').
    destruct (flag && _).
    + destruct (trace ranked m1 _) as [[outs1 m2] items2] eqn:E. intros [= <- <- <-] Hin.
      assert ((idx = i ∧ msg = carry_keys item' msg1) ∨
              ((idx, PeerIncomplete msg) ∈ outs1 ∨ (idx, PeerComplete msg) ∈ outs1)) as [[-> ->]|Hin'].
      { destruct Hin as [[[= -> ->]|?]%elem_of_cons|[[=]|?]%elem_of_cons]; auto. }
      * apply Hc. destruct (trace_items _ _ _ _ _ _ E) as [_ Hsame]. rewrite Hsame by done.
        by apply list_lookup_insert_eq.
      * by eapply IH.
    + intros [= <- <- <-]. intros [[=]%list_elem_of_singleton|[= -> ->]%list_elem_of_singleton].
      apply Hc. by apply list_lookup_insert_eq.
  - destruct (trace ranked m1 items) as [[outs1 m2] items2] eqn:E. intros [= <- <- <-] Hin.
    eapply IH; [done|exact E|]. destruct Hin as [[[=]|?]%elem_of_cons|[[=]|?]%elem_of_cons]; auto.
Qed.
End walk.

(** * What finalizing guarantees (keepset.rs)

    Every group is settled by the first complete peer in rank order, else by the
    first incomplete one, else it is dropped; the count is the number of winners. *)

(** ** Writing roles *)

(** What the vectors say of item [i]. *)
Definition entry : Type := decision_role * option nat * option string * bool * option promote_reason.
Definition entry_of (r : resolved_keep_set) (i : nat) (e : entry) : Prop :=
  let '(role, win, tier, promoted, reason) := e in
  roles (vectors r) !! i = Some role ∧ winner_of (vectors r) !! i = Some win ∧
  tier_of (vectors r) !! i = Some tier ∧ promoted_from_failure r !! i = Some promoted ∧
  promote_reasons r !! i = Some reason.

(** One entry per item in each vector. *)
Definition full (n : nat) (r : resolved_keep_set) : Prop :=
  length (roles (vectors r)) = n ∧ length (winner_of (vectors r)) = n ∧
  length (tier_of (vectors r)) = n ∧ length (promoted_from_failure r) = n ∧
  length (promote_reasons r) = n.

(** The fields that writing roles leaves alone. *)
Record framed (r r' : resolved_keep_set) : Prop := {
  fr_ctx : rks_rank_ctx r' = rks_rank_ctx r;
  fr_items : rks_items r' = rks_items r;
  fr_groups : rks_groups r' = rks_groups r;
  fr_by : rks_bound_by r' = rks_bound_by r;
  fr_dropped : group_dropped r' = group_dropped r }.

#[export] Instance framed_refl : Reflexive framed.
Proof. by intros r; split. Qed.
#[export] Instance framed_trans : Transitive framed.
Proof. intros r1 r2 r3 [] []; split; congruence. Qed.

Lemma entry_of_same r r' i e :
  roles (vectors r') !! i = roles (vectors r) !! i →
  winner_of (vectors r') !! i = winner_of (vectors r) !! i →
  tier_of (vectors r') !! i = tier_of (vectors r) !! i →
  promoted_from_failure r' !! i = promoted_from_failure r !! i →
  promote_reasons r' !! i = promote_reasons r !! i → entry_of r i e → entry_of r' i e.
Proof. destruct e as [[[[? ?] ?] ?] ?]. simpl. intros -> -> -> -> ->. done. Qed.

Lemma set_role_ok n r i role win tier promoted reason :
  full n r → (i < n)%nat →
  ∃ r', set_role i role win tier promoted reason r = Ok r' ∧ full n r' ∧ framed r r' ∧
    entry_of r' i (role, win, tier, promoted, reason) ∧
    ∀ j e, j ≠ i → entry_of r j e → entry_of r' j e.
Proof.
  destruct r as [? ? ? ? ? [] ? ? ? ? ? ? ? ?]. unfold full. cbn.
  intros (L1 & L2 & L3 & L4 & L5) Hi. unfold set_role. cbn.
  rewrite !set_at_ok by lia. rewrite !bind_ok. eexists. split; [reflexivity|].
  unfold RecordSetters.constant. split; [cbn; by rewrite !length_insert|].
  split; [by split|]. split; [cbn; by rewrite !list_lookup_insert_eq by lia|].
  intros j e Hj. apply entry_of_same; cbn; by rewrite list_lookup_insert_ne by congruence.
Qed.

(** A loop that writes the entry [e i] for each member [i]. *)
Lemma set_roles_ok n (f : resolved_keep_set → nat → total_res resolved_keep_set) (by_ : list bound_by)
    (e : nat → entry) g r :
  (∀ r i, full n r → rks_bound_by r = by_ → (i < n)%nat →
     ∃ r', f r i = Ok r' ∧ full n r' ∧ framed r r' ∧ entry_of r' i (e i) ∧
       ∀ j e, j ≠ i → entry_of r j e → entry_of r' j e) →
  full n r → rks_bound_by r = by_ → in_range n g →
  ∃ r', mfold f g r = Ok r' ∧ full n r' ∧ framed r r' ∧
    (∀ i, i ∈ g → entry_of r' i (e i)) ∧ ∀ j e, (j ∉ g) → entry_of r j e → entry_of r' j e.
Proof.
  intros Hf. revert r. induction g as [|i g IH]; intros r Hr Hby Hlt.
  - exists r. do 3 (split; [done|]). split; [intros i Hi; by apply elem_of_nil in Hi|done].
  - apply in_range_cons in Hlt as [Hi Hlt].
    destruct (Hf r i Hr Hby Hi) as (r1 & E1 & Hr1 & Hfr1 & He1 & Hs1).
    destruct (IH r1 Hr1) as (r2 & E2 & Hr2 & Hfr2 & He2 & Hs2); [by rewrite (fr_by _ _ Hfr1)|done|].
    exists r2. simpl. rewrite E1. simpl. split; [exact E2|]. split; [done|].
    split; [by transitivity r1|]. split.
    + intros j Hj. destruct (decide (j ∈ g)) as [?|Hn]; [by apply He2|].
      apply elem_of_cons in Hj as [->|?]; [|done]. by apply Hs2.
    + intros j e' [Hji Hjg]%not_elem_of_cons Hej. apply Hs2; [done|]. by apply Hs1.
Qed.

(** The final entry of member [i] of a group with the given outcomes. *)
Definition settled_entry (by_ : list bound_by) (outs : outcomes) (i : nat) : entry :=
  match chosen outs with
  | Some (winner, _) =>
      if bool_decide (i ∈ failed_of outs) then (MaterializeFailed, Some winner, None, false, None)
      else if bool_decide (i = winner) then (RoleUnique, Some winner, None, (reported outs).1, (reported outs).2)
      else (DupOf, Some winner, by_ !! i ≫= tier_csv, false, None)
  | None => (MaterializeFailed, None, None, false, None)
  end.

Lemma final_roles_ok n by_ outs items w winner msg g r :
  walked outs items w → chosen outs = Some (winner, msg) → full n r → rks_bound_by r = by_ → in_range n g →
  ∃ r', mfold (final_role w winner (reported outs).1 (reported outs).2) g r = Ok r' ∧ full n r' ∧ framed r r' ∧
    (∀ i, i ∈ g → entry_of r' i (settled_entry by_ outs i)) ∧
    ∀ j e, (j ∉ g) → entry_of r j e → entry_of r' j e.
Proof.
  intros Hw Hc Hr Hby Hlt. apply (set_roles_ok n _ by_); [|done..].
  intros r0 i Hr0 Hby0 Hi. unfold final_role, settled_entry. rewrite Hc, (wd_failed _ _ _ Hw), Hby0.
  destruct (bool_decide (i ∈ failed_of outs)); [|destruct (bool_decide (i = winner))]; by apply set_role_ok.
Qed.

Lemma drop_roles_ok n by_ outs g r :
  chosen outs = None → full n r → rks_bound_by r = by_ → in_range n g →
  ∃ r', mfold (λ r idx, set_role idx MaterializeFailed None None false None r) g r = Ok r' ∧
    full n r' ∧ framed r r' ∧ (∀ i, i ∈ g → entry_of r' i (settled_entry by_ outs i)) ∧
    ∀ j e, (j ∉ g) → entry_of r j e → entry_of r' j e.
Proof.
  intros Hc Hr Hby Hlt. apply (set_roles_ok n _ by_); [|done..].
  intros r0 i Hr0 Hby0 Hi. unfold settled_entry. rewrite Hc. by apply set_role_ok.
Qed.

(** ** One group *)

Section groups.
Context `{Platform, Md5} {M W : Type}.
Context (materialize : message_locus → M → (canonical_message + bstring) * M).
Context (on_winner : canonical_message → W → option keep_set_error * W).
Context (flag : bool).

Lemma rank_group_ok rctx items g :
  in_range (length items) g → ∃ ranked, rank_group rctx items g = Ok ranked ∧ ranked ≡ₚ g.
Proof.
  intros Hlt. destruct (ranked_pairs rctx items g Hlt) as (ps & E & Es & _).
  unfold rank_group. rewrite E, bind_ok. eexists. split; [done|].
  rewrite <- Es. by rewrite sort_by_rank_perm.
Qed.

(** How group [g] was settled: the outcomes of its peers in rank order, traced from
    the items [items0], and the entries of its members. *)
Record settled (r : resolved_keep_set) (items0 : list scan_item) (gid : nat) (g ranked : list nat)
    (outs : outcomes) : Prop := {
  st_ranked : rank_group (rks_rank_ctx r) items0 g = Ok ranked;
  st_trace : ∃ m m' items', trace materialize flag ranked m items0 = (outs, m', items') ∧
    ∀ i, i ∈ g → rks_items r !! i = items' !! i;
  st_dropped : group_dropped r !! gid = Some (bool_decide (chosen outs = None));
  st_entries : ∀ i, i ∈ g → entry_of r i (settled_entry (rks_bound_by r) outs i) }.

(** The state between groups: the groups [gs] are settled. *)
Record between (r0 : resolved_keep_set) (done_ : nat) (st : @final_state M W) : Prop := {
  bw_ctx : rks_rank_ctx (fin_resolved st) = rks_rank_ctx r0;
  bw_groups : rks_groups (fin_resolved st) = rks_groups r0;
  bw_by : rks_bound_by (fin_resolved st) = rks_bound_by r0;
  bw_len : length (rks_items (fin_resolved st)) = length (rks_items r0);
  bw_full : full (length (rks_items r0)) (fin_resolved st);
  bw_dropped_len : length (group_dropped (fin_resolved st)) = length (rks_groups r0);
  bw_items : ∀ gid g i, (done_ <= gid)%nat → rks_groups r0 !! gid = Some g → i ∈ g →
    rks_items (fin_resolved st) !! i = rks_items r0 !! i;
  bw_settled : ∀ gid g, (gid < done_)%nat → rks_groups r0 !! gid = Some g →
    ∃ items0 ranked outs, settled (fin_resolved st) items0 gid g ranked outs ∧
      ∀ i, i ∈ g → items0 !! i = rks_items r0 !! i;
  bw_count : fin_count st =
    wrap 64 (zlen (filter (λ d, d = false) (take done_ (group_dropped (fin_resolved st))))) }.

(** *** Groups of the keep set *)

(** The groups are nonempty, in range and disjoint. *)
Record lawful (r0 : resolved_keep_set) : Prop := {
  lw_nonempty : ∀ gid g, rks_groups r0 !! gid = Some g → g ≠ [];
  lw_range : ∀ gid g, rks_groups r0 !! gid = Some g → in_range (length (rks_items r0)) g;
  lw_disjoint : disjoint_groups (rks_groups r0);
  lw_full : full (length (rks_items r0)) r0;
  lw_dropped : length (group_dropped r0) = length (rks_groups r0) }.

Lemma set_dropped_ok gid d r :
  (gid < length (group_dropped r))%nat →
  ∃ r', set_dropped gid d r = Ok r' ∧ group_dropped r' = <[gid := d]> (group_dropped r) ∧
    rks_rank_ctx r' = rks_rank_ctx r ∧ rks_items r' = rks_items r ∧ rks_groups r' = rks_groups r ∧
    rks_bound_by r' = rks_bound_by r ∧ vectors r' = vectors r ∧
    promoted_from_failure r' = promoted_from_failure r ∧ promote_reasons r' = promote_reasons r.
Proof.
  intros Hg. unfold set_dropped. rewrite set_at_ok by done. rewrite bind_ok.
  eexists. split; [reflexivity|]. by repeat split.
Qed.

(** The entries of [r'] are those of [r], and it has the same frame but for
    the skip records and the flags of dropped groups. *)
Definition same_entries (r r' : resolved_keep_set) : Prop :=
  vectors r' = vectors r ∧ promoted_from_failure r' = promoted_from_failure r ∧
  promote_reasons r' = promote_reasons r.

Lemma same_entries_full n r r' : same_entries r r' → full n r → full n r'.
Proof. intros (A & B & C). unfold full. by rewrite A, B, C. Qed.
Lemma same_entries_of r r' i e : same_entries r r' → entry_of r i e → entry_of r' i e.
Proof. intros (A & B & C). apply entry_of_same; by rewrite ?A, ?B, ?C. Qed.

Lemma take_insert_snoc {A} (l : list A) k x :
  (k < length l)%nat → take (S k) (<[k := x]> l) = take k l ++ [x].
Proof.
  intros Hk. rewrite (take_S_r _ _ x) by (by apply list_lookup_insert_eq).
  by rewrite take_insert_ge by lia.
Qed.

(** The new state once group [k] has its final entries. *)
Lemma between_step r0 k g st items0 ranked outs m m' items' (r : resolved_keep_set) mat sink :
  lawful r0 → between r0 k st → rks_groups r0 !! k = Some g →
  items0 = rks_items (fin_resolved st) → ranked ≡ₚ g →
  rank_group (rks_rank_ctx (fin_resolved st)) items0 g = Ok ranked →
  trace materialize flag ranked m items0 = (outs, m', items') →
  rks_rank_ctx r = rks_rank_ctx r0 → rks_items r = items' → rks_groups r = rks_groups r0 →
  rks_bound_by r = rks_bound_by r0 → full (length (rks_items r0)) r →
  group_dropped r = <[k := bool_decide (chosen outs = None)]> (group_dropped (fin_resolved st)) →
  (∀ i, i ∈ g → entry_of r i (settled_entry (rks_bound_by r0) outs i)) →
  (∀ j e, (j ∉ g) → entry_of (fin_resolved st) j e → entry_of r j e) →
  between r0 (S k) {| fin_resolved := r; fin_mat := mat; fin_sink := sink;
    fin_count := if bool_decide (chosen outs = None) then fin_count st else add_u64 1 (fin_count st) |}.
Proof.
  intros [Hne Hrg Hdis _ Hdl] Hb Hg -> Hperm Erank Etr Ec Ei Eg Eb Hfull Ed He Hs.
  destruct Hb as [Bc Bg Bb Bl _ Bdl Bi Bs Bn].
  destruct (trace_items _ _ _ _ _ _ _ _ Etr) as [Hlen Hsame].
  pose proof (lookup_lt_Some _ _ _ Hg) as Hk.
  assert (∀ gid g' i, gid ≠ k → rks_groups r0 !! gid = Some g' → i ∈ g' → i ∉ g) as Hout.
  { intros gid g' i Hne' Hg' Hi Hi'. apply Hne'. apply (Hdis _ _ i); [by exists g'|by exists g]. }
  split; cbn [fin_resolved fin_count fin_mat fin_sink]; [congruence|congruence|congruence|by rewrite Ei, Hlen|done| | | |].
  - by rewrite Ed, length_insert.
  - intros gid g' i Hge Hg' Hi. rewrite Ei, Hsame.
    + apply (Bi gid g'); [lia|done|done].
    + rewrite Hperm. apply (Hout gid g'); [lia|done|done].
  - intros gid g' Hlt Hg'. destruct (decide (gid = k)) as [->|Hnk].
    + assert (g' = g) as -> by congruence. exists (rks_items (fin_resolved st)), ranked, outs. split.
      * split.
        -- by rewrite Ec, <- Bc.
        -- exists m, m', items'. split; [done|]. by rewrite Ei.
        -- rewrite Ed. apply list_lookup_insert_eq. by rewrite Bdl.
        -- rewrite Eb. done.
      * intros i Hi. by apply (Bi k g).
    + destruct (Bs gid g') as (items1 & rk1 & outs1 & [Rr (m1 & m2 & items2 & Tr & Ti) Rd Re] & Hag); [lia|done|].
      exists items1, rk1, outs1. split; [|done]. split.
      * by rewrite Ec, <- Bc.
      * exists m1, m2, items2. split; [done|]. intros i Hi. rewrite Ei, Hsame; [by apply Ti|].
        rewrite Hperm. by apply (Hout gid g').
      * rewrite Ed, list_lookup_insert_ne by done. done.
      * intros i Hi. rewrite Eb, <- Bb. apply Hs; [by apply (Hout gid g')|]. by apply Re.
  - rewrite Ed, take_insert_snoc by (by rewrite Bdl). rewrite filter_app, zlen_app, Bn.
    destruct (bool_decide (chosen outs = None)); rewrite filter_cons; simpl.
    + unfold zlen at 3. simpl. by rewrite Z.add_0_r.
    + unfold zlen at 3. simpl. apply (add_u64_wrap 0).
Qed.

Lemma chosen_in outs winner msg :
  chosen outs = Some (winner, msg) →
  (winner, PeerIncomplete msg) ∈ outs ∨ (winner, PeerComplete msg) ∈ outs.
Proof.
  assert (∀ l : outcomes, head (incompletes l) = Some (winner, msg) → (winner, PeerIncomplete msg) ∈ l) as Hi.
  { induction l as [|[i [|msg'|msg']] l IH]; [done| | |]; simpl; intros Hh.
    - right. exact (IH Hh). - injection Hh as -> ->. by left. - right. exact (IH Hh). }
  assert (∀ l : outcomes, head (completes l) = Some (winner, msg) → (winner, PeerComplete msg) ∈ l) as Hc.
  { induction l as [|[i [|msg'|msg']] l IH]; [done| | |]; simpl; intros Hh.
    - right. exact (IH Hh). - right. exact (IH Hh). - injection Hh as -> ->. by left. }
  unfold chosen. destruct (head (completes outs)) as [c|] eqn:E.
  - intros [= ->]. right. by apply Hc.
  - intros ?. left. by apply Hi.
Qed.

Lemma chosen_ranked ranked m items outs m' items' winner msg :
  in_range (length items) ranked → trace materialize flag ranked m items = (outs, m', items') →
  chosen outs = Some (winner, msg) → winner ∈ ranked.
Proof.
  intros Hr Et Hc. destruct (trace_order _ _ _ _ _ _ _ _ Hr Et) as [[rest Hpre] _].
  rewrite Hpre. apply elem_of_app. left. apply list_elem_of_fmap.
  destruct (chosen_in _ _ _ Hc) as [Hin|Hin]; [by exists (winner, PeerIncomplete msg)|by exists (winner, PeerComplete msg)].
Qed.

(** [on_winner] failed on some message. *)
Definition sink_failed (e : keep_set_error) : Prop := ∃ msg s s', on_winner msg s = (Some e, s').

Lemma finalize_group_ok r0 k g st :
  lawful r0 → between r0 k st → rks_groups r0 !! k = Some g →
  (∃ st', finalize_group materialize on_winner flag st (k, g) = Ok st' ∧ between r0 (S k) st') ∨
  (∃ e st', finalize_group materialize on_winner flag st (k, g) = Err (e, st') ∧ sink_failed e).
Proof.
  intros Hlaw Hb Hg. pose proof Hlaw as [Hne Hrg Hdis _ Hdl].
  pose proof (bw_len _ _ _ Hb) as Hlen. pose proof (Hrg _ _ Hg) as Hr. rewrite <- Hlen in Hr.
  unfold finalize_group. rewrite bool_decide_false by (by eapply Hne).
  destruct (rank_group_ok (rks_rank_ctx (fin_resolved st)) _ _ Hr) as (ranked & Erk & Hperm).
  rewrite Erk. cbn [of_total]. rewrite bind_ok.
  assert (in_range (length (rks_items (fin_resolved st))) ranked) as Hrr.
  { intros i Hi. apply Hr. by rewrite <- Hperm. }
  destruct (walk_group materialize flag ranked (fin_mat st) _ Hrr) as (outs & m' & items' & w & Etr & Ew & Hw).
  rewrite Ew. cbn [of_total]. rewrite bind_ok. cbv beta iota zeta.
  rewrite (wd_items _ _ _ Hw). set (w' := fall_back w) in *. clearbody w'. clear Ew w.
  destruct (trace_items _ _ _ _ _ _ _ _ Etr) as [Hitems _].
  set (r1 := (fin_resolved st) {{ rks_items := items' }}).
  assert (same_entries (fin_resolved st) r1) as Hse by done.
  assert (k < length (group_dropped (fin_resolved st)))%nat as Hk.
  { rewrite (bw_dropped_len _ _ _ Hb). by eapply lookup_lt_Some. }
  assert (full (length (rks_items r0)) r1) as Hfull1.
  { eapply same_entries_full; [exact Hse|]. apply (bw_full _ _ _ Hb). }
  unfold close_group. cbn [fin_resolved fin_mat fin_sink fin_count].
  rewrite (wd_winner _ _ _ Hw), (wd_msg _ _ _ Hw).
  destruct (chosen outs) as [[winner msg]|] eqn:Ech; cbn [fmap option_fmap option_map fst snd].
  - rewrite (wd_promotion _ _ _ Hw) by (rewrite Ech; by eexists).
    assert (winner < length (rks_items r1))%nat as Hwin.
    { change (rks_items r1) with items'. rewrite Hitems. apply Hrr. by eapply chosen_ranked. }
    destruct (lookup_lt_is_Some_2 _ _ Hwin) as [peer Hpeer].
    rewrite (surjective_pairing (reported outs)). unfold get_at. rewrite Hpeer. cbn [of_total]. rewrite bind_ok.
    set (r2 := r1 {{ soft_skip_attach_records ::= _ }}).
    assert (same_entries r1 r2) as Hse2 by done.
    destruct (on_winner msg (fin_sink st)) as [[e|] sink] eqn:Eon.
    { right. eexists e, _. split; [reflexivity|]. by exists msg, (fin_sink st), sink. }
    left. destruct (set_dropped_ok k false r2 Hk) as (r3 & -> & Ed3 & Ec3 & Ei3 & Eg3 & Eb3 & Hse3).
    cbn [of_total]. rewrite bind_ok.
    destruct (final_roles_ok (length (rks_items r0)) (rks_bound_by r0) outs items' w' winner msg g r3)
      as (r4 & -> & Hf4 & Hfr4 & He4 & Hs4); [done|done| | |by apply (Hrg k)|].
    { eapply same_entries_full; [exact Hse3|]. by eapply same_entries_full. }
    { rewrite Eb3. apply (bw_by _ _ _ Hb). }
    cbn [of_total]. rewrite bind_ok. eexists. split; [reflexivity|].
    pose proof (between_step r0 k g st _ ranked outs _ m' items' r4 m' sink Hlaw Hb Hg eq_refl Hperm Erk Etr) as Hstep.
    rewrite Ech in Hstep. apply Hstep; clear Hstep; [| | | |done| |done|].
    + rewrite (fr_ctx _ _ Hfr4), Ec3. apply (bw_ctx _ _ _ Hb).
    + by rewrite (fr_items _ _ Hfr4), Ei3.
    + rewrite (fr_groups _ _ Hfr4), Eg3. apply (bw_groups _ _ _ Hb).
    + rewrite (fr_by _ _ Hfr4), Eb3. apply (bw_by _ _ _ Hb).
    + by rewrite (fr_dropped _ _ Hfr4), Ed3.
    + intros j e Hj Hje. apply Hs4; [done|]. by eapply same_entries_of.
  - left. destruct (set_dropped_ok k true r1 Hk) as (r3 & -> & Ed3 & Ec3 & Ei3 & Eg3 & Eb3 & Hse3).
    cbn [of_total]. rewrite bind_ok.
    destruct (drop_roles_ok (length (rks_items r0)) (rks_bound_by r0) outs g r3)
      as (r4 & -> & Hf4 & Hfr4 & He4 & Hs4); [done| | |by apply (Hrg k)|].
    { by eapply same_entries_full. }
    { rewrite Eb3. apply (bw_by _ _ _ Hb). }
    cbn [of_total]. rewrite bind_ok. eexists. split; [reflexivity|].
    pose proof (between_step r0 k g st _ ranked outs _ m' items' r4 m' (fin_sink st) Hlaw Hb Hg eq_refl Hperm Erk Etr) as Hstep.
    rewrite Ech in Hstep. apply Hstep; clear Hstep; [| | | |done| |done|].
    + rewrite (fr_ctx _ _ Hfr4), Ec3. apply (bw_ctx _ _ _ Hb).
    + by rewrite (fr_items _ _ Hfr4), Ei3.
    + rewrite (fr_groups _ _ Hfr4), Eg3. apply (bw_groups _ _ _ Hb).
    + rewrite (fr_by _ _ Hfr4), Eb3. apply (bw_by _ _ _ Hb).
    + by rewrite (fr_dropped _ _ Hfr4), Ed3.
    + intros j e Hj Hje. apply Hs4; [done|]. by eapply same_entries_of.
Qed.

Lemma finalize_loop_ok r0 gs k st :
  lawful r0 → between r0 k st → drop k (rks_groups r0) = gs →
  (∃ st', mfold (finalize_group materialize on_winner flag) (imap (λ i g, ((k + i)%nat, g)) gs) st = Ok st' ∧
     between r0 (k + length gs) st') ∨
  (∃ e st', mfold (finalize_group materialize on_winner flag) (imap (λ i g, ((k + i)%nat, g)) gs) st = Err (e, st') ∧
     sink_failed e).
Proof.
  intros Hlaw. revert k st. induction gs as [|g gs IH]; intros k st Hb Hd.
  - left. exists st. rewrite Nat.add_0_r. done.
  - assert (rks_groups r0 !! k = Some g) as Hg.
    { rewrite <- (Nat.add_0_r k), <- lookup_drop, Hd. done. }
    rewrite imap_cons, Nat.add_0_r. cbn [mfold].
    destruct (finalize_group_ok r0 k g st Hlaw Hb Hg) as [(st1 & E1 & Hb1)|(e & st1 & E1 & He)]; rewrite E1.
    + assert (imap ((λ i g0, ((k + i)%nat, g0)) ∘ S) gs = imap (λ i g0, ((S k + i)%nat, g0)) gs) as ->.
      { apply imap_ext. intros i x _. unfold compose. f_equal. lia. }
      cbn [length]. rewrite <- Nat.add_succ_comm. apply IH; [done|].
      rewrite <- Nat.add_1_r, <- drop_drop, Hd. done.
    + right. by exists e, st1.
Qed.

(** [finalize_with_materialize_opts] from any lawful keep set. *)
Lemma finalize_ok r m sink :
  lawful r →
  (∃ st, finalize_with_materialize_opts materialize on_winner flag r m sink = Ok st ∧
     between r (length (rks_groups r)) st) ∨
  (∃ e st, finalize_with_materialize_opts materialize on_winner flag r m sink = Err (e, st) ∧ sink_failed e).
Proof.
  intros Hlaw. unfold finalize_with_materialize_opts.
  set (r1 := r {{ soft_skip_attach_records := [] }}).
  assert (between r 0 {| fin_resolved := r1; fin_mat := m; fin_sink := sink; fin_count := 0 |}) as Hb.
  { destruct Hlaw as [_ _ _ Hf Hd]. split; try done. intros gid g Hlt. lia. }
  assert (imap pair (rks_groups r1) = imap (λ i g, ((0 + i)%nat, g)) (rks_groups r)) as -> by done.
  destruct (finalize_loop_ok r (rks_groups r) 0 _ Hlaw Hb eq_refl) as [H1|H1]; [by left|by right].
Qed.
End groups.

(** ** The keep set that grouping and ranking produce *)

Lemma resolve_keep_set_ok `{Platform} family rctx gctx created order items :
  ∃ r, resolve_keep_set family rctx gctx created order items = Ok r ∧ lawful r ∧
    rks_items r = items ∧ rks_rank_ctx r = rctx ∧ partition (length items) (rks_groups r) ∧
    tags_ok (rks_groups r) (rks_bound_by r) ∧
    resolved_groups rctx items (rks_bound_by r) (rks_groups r) (vectors r).
Proof.
  destruct (resolve_runs rctx gctx order items) as (out & v & E & Hp & Ht & Hr).
  unfold resolve_keep_set. rewrite E, bind_ok. eexists. split; [reflexivity|].
  cbn [rks_items rks_rank_ctx rks_groups rks_bound_by vectors]. split; [|done].
  pose proof Hr as ((L1 & L2 & L3) & _). split; cbn [rks_items rks_groups group_dropped].
  - intros gid g Hg ->. by destruct (partition_nonempty _ _ _ _ Hp Hg) as (? & ? & ?).
  - intros gid g Hg i Hi. apply (partition_mem _ (out_groups out)); [done|]. by exists gid, g.
  - intros gid gid' i. by apply partition_unique with (1 := Hp).
  - unfold full. cbn. by rewrite !length_replicate.
  - by rewrite length_replicate.
Qed.

(** ** Finalizing the resolved keep set *)

(** What finalizing makes of the keep set [r] of the scanned [items]: every group
    is settled, and the count is the number of groups that were not dropped; or
    [on_winner] failed. *)
Definition finalized `{Platform, Md5} {M W} (materialize : message_locus → M → (canonical_message + bstring) * M)
    (on_winner : canonical_message → W → option keep_set_error * W) (flag : bool)
    (r : resolved_keep_set) (f : @fin_res M W) : Prop :=
  match f with
  | Ok st =>
      rks_groups (fin_resolved st) = rks_groups r ∧
      fin_count st = wrap 64 (zlen (filter (λ d, d = false) (group_dropped (fin_resolved st)))) ∧
      ∀ gid g, rks_groups r !! gid = Some g →
        ∃ items0 ranked outs, settled materialize flag (fin_resolved st) items0 gid g ranked outs ∧
          ∀ i, i ∈ g → items0 !! i = rks_items r !! i
  | Err (e, _) => sink_failed on_winner e
  | Panic | NoFuel => False
  end.

(** C14 Finalizing a resolved keep set always returns, and it never reports an
    internal error: it stops only when [on_winner] fails.  Otherwise every group is
    settled: its peers are tried in the order of their rank keys up to the first
    complete one; that one, else the first incomplete one, becomes the winner, the
    peers that failed are [MaterializeFailed], all others are duplicates of the
    winner; a group none of whose peers loads is dropped.  The returned count is
    the number of groups that were not dropped. *)
Theorem finalize_settles `{Platform, Md5} {M W} family rctx gctx created order items
    (materialize : message_locus → M → (canonical_message + bstring) * M)
    (on_winner : canonical_message → W → option keep_set_error * W) flag m sink :
  ∃ r, resolve_keep_set family rctx gctx created order items = Ok r ∧ rks_items r = items ∧
    finalized materialize on_winner flag r
      (finalize_with_materialize_opts materialize on_winner flag r m sink).
Proof.
  destruct (resolve_keep_set_ok family rctx gctx created order items) as (r & E & Hlaw & Hi & _).
  exists r. split; [done|]. split; [done|].
  destruct (finalize_ok materialize on_winner flag r m sink Hlaw) as [(st & -> & Hb)|(e & st & -> & He)]; [|done].
  split; [apply (bw_groups _ _ _ _ _ Hb)|]. split.
  - rewrite (bw_count _ _ _ _ _ Hb), firstn_all2; [done|]. by rewrite (bw_dropped_len _ _ _ _ _ Hb).
  - intros gid g Hg. apply (bw_settled _ _ _ _ _ Hb); [by eapply lookup_lt_Some|done].
Qed.
