(* ===== verification/KeepSet.v ===== *)
(** * The keep set and the decision rows (keepset.rs)

    [ResolvedKeepSet::to_keep_set] collects the winners and the statistics,
    [decision_at] makes one row per scanned item. *)

From stdpp Require Import sorting.
From S2P Require Import Prelude Telemetry PstError UnionFind Text CivilDate Recipient Grouping DedupIndex KeepGroup Rank Integrity Finalize.
#[local] Open Scope Z_scope.

(** ** Words *)

Definition keep_policy_str (p : keep_policy) : string :=
  match p with
  | FirstSeen => "first_seen" | KeepLargest => "keep_largest"
  | PreferPath => "prefer_path" | EarliestDate => "earliest_date"
  end.
Definition folder_class_str (c : folder_class) : string :=
  match c with
  | SentItems => "sent_items" | Primary => "primary" | Archive => "archive"
  | JunkEmail => "junk_email" | Drafts => "drafts" | Outbox => "outbox"
  | DeletedItems => "deleted_items" | RecoverableDeletions => "recoverable_deletions"
  | RecoverableHolds => "recoverable_holds" | RecoverablePurges => "recoverable_purges"
  | RecoverableVersions => "recoverable_versions" | RecoverableOps => "recoverable_ops"
  | RecoverableOther => "recoverable_other"
  end.
Definition is_recoverable_items (c : folder_class) : bool :=
  match c with
  | RecoverableDeletions | RecoverableHolds | RecoverablePurges | RecoverableVersions
  | RecoverableOps | RecoverableOther => true
  | _ => false
  end.
Definition date_source_str (d : date_source) : string :=
  match d with DateSubmit => "submit" | DateDelivery => "delivery" | DateNone => "none" end.
Definition bound_by_str (b : bound_by) : string :=
  match b with
  | Seed => "seed" | MessageId => "message_id" | ContentHash => "content_hash"
  | StrongContentHash => "content_hash_strong"
  end.
Definition identity_str (l : identity_level) : string :=
  match l with
  | IdOff | IdV1 => "off" | IdBody => "body" | IdBodyRecip => "body-recip"
  | IdBodyRecipAttach => "body-recip-attach"
  end.
Definition identity_version (l : identity_level) : string :=
  match l with IdOff | IdV1 => "v1" | _ => "v2" end.
Definition scope_str (s : dedupe_scope) : string :=
  match s with Global => "global" | PerSource => "per-source" end.
Definition KEEP_SET_SCHEMA : string := "keep_set_v1".
Definition DUPLICATE_SOURCES_CAP : nat := 8.

(** ** Panicking searches *)

Fixpoint mfind {A} (p : A → total_res bool) (l : list A) : total_res (option A) :=
  match l with
  | [] => Ok None
  | a :: l => b ← p a; if b : bool then Ok (Some a) else mfind p l
  end.
Definition mexists {A} (p : A → total_res bool) (l : list A) : total_res bool :=
  o ← mfind p l; Ok (bool_decide (is_Some o)).

(** ** Duplicate sources *)

#[export] Instance decision_role_eq_dec : EqDecision decision_role.
Proof. solve_decision. Defined.

Section aggregate.
Context `{Platform}.

Definition source_basename (source_pst : bstring) : bstring :=
  default source_pst (path_file_name source_pst).

(** The names of the other sources, in the order met. *)
Fixpoint other_sources (items : list scan_item) (winner_base : bstring) (winner_idx : nat)
    (group : list nat) (names : list bstring) : total_res (list bstring) :=
  match group with
  | [] => Ok names
  | idx :: group =>
      if bool_decide (idx = winner_idx) then other_sources items winner_base winner_idx group names
      else
        it ← get_at items idx;
        let base := source_basename (source_pst (locus it)) in
        let names := if bool_decide (base = winner_base) || bool_decide (base ∈ names)
                     then names else names ++ [base] in
        other_sources items winner_base winner_idx group names
  end.

(** [duplicate_source_aggregate] *)
Definition duplicate_source_aggregate (items : list scan_item) (group : list nat) (winner_idx : nat)
    : total_res (Z * list bstring * bool) :=
  w ← get_at items winner_idx;
  names ← other_sources items (source_basename (source_pst (locus w))) winner_idx group [];
  let names := merge_sort str_le names in
  Ok (zlen names, take DUPLICATE_SOURCES_CAP names, (DUPLICATE_SOURCES_CAP <? length names)%nat).
End aggregate.

(** ** Statistics and entries *)

Record keep_set_stats := {
  recoverable : Z; unique : Z; duplicates : Z; tier1_dups : Z; tier2_dups : Z;
  degraded_winners : Z; materialize_failed : Z; promoted_count : Z;
  groups_dropped_materialize : Z; group_count : Z; groups_date_source_mixed : Z;
  winners_without_bcc_peer_had_bcc : Z; winners_from_recoverable_items : Z;
  ks_grouping : grouping_stats;
  promoted_after_attach_incomplete_count : Z;
  mode_c_fallback_all_peers_incomplete_count : Z }.

Record keep_entry := {
  ke_locus : message_locus; ke_message_id_norm : option bstring; ke_content_hash : bstring;
  ke_edrm_mih_hex : option bstring; ke_integrity : recoverable_integrity; ke_size : Z;
  ke_promoted : bool; ke_folder_class : option string; ke_decided_by : option string;
  ke_duplicate_source_count : Z; ke_duplicate_sources : list bstring;
  ke_duplicate_sources_truncated : bool }.

Record keep_set := {
  ks_schema : string; ks_policy : keep_policy; ks_family_policy : family_policy;
  ks_created_from : option keep_set_provenance; ks_identity_level : option string;
  ks_dedupe_scope : option string; ks_winners : list keep_entry; ks_stats : keep_set_stats }.

Section keep_set.
Context `{Platform, Md5} (rks : resolved_keep_set).

(** [group_containing] *)
Definition group_containing (i : nat) : list nat :=
  default [i] (List.find (λ g, bool_decide (i ∈ g)) (rks_groups rks)).

(** The best rank key of the others of a group. *)
Fixpoint best_rival (i : nat) (group : list nat) (best : option rank_key) : total_res (option rank_key) :=
  match group with
  | [] => Ok best
  | j :: group =>
      if bool_decide (j = i) then best_rival i group best
      else
        it ← get_at (rks_items rks) j;
        let k := rank_key_of (rks_rank_ctx rks) it in
        best_rival i group
          (Some match best with
                | None => k
                | Some prev => match rank_cmp k prev with Lt => k | _ => prev end
                end)
  end.

(** [decided_by_for] *)
Definition decided_by_for (i : nat) : total_res string :=
  role ← get_at (roles (vectors rks)) i;
  match (if bool_decide (role = RoleUnique) then promote_reasons rks !! i ≫= id else None) with
  | Some reason => Ok (promote_reason_str reason)
  | None =>
      let group := group_containing i in
      if bool_decide (length group = 1%nat) then Ok "sole_member"%string
      else
        it ← get_at (rks_items rks) i;
        let self_key := rank_key_of (rks_rank_ctx rks) it in
        let pol := policy (rks_rank_ctx rks) in
        match role with
        | RoleUnique =>
            best ← best_rival i group None;
            Ok (match best with
                | Some rival => decided_by_rung self_key rival pol true
                | None => "sole_member"%string
                end)
        | DupOf =>
            win ← get_at (winner_of (vectors rks)) i;
            match win with
            | Some wi => wit ← get_at (rks_items rks) wi;
                Ok (decided_by_rung self_key (rank_key_of (rks_rank_ctx rks) wit) pol false)
            | None => Ok "path_order"%string
            end
        | MaterializeFailed => Ok "path_order"%string
        end
  end.

(** The honesty counters of one group. *)
Definition saw_dates (group : list nat) : total_res (bool * bool) :=
  mfold (λ sd idx,
    it ← get_at (rks_items rks) idx;
    Ok match (resolve_item_date it).2 with
       | DateSubmit => (true, sd.2) | DateDelivery => (sd.1, true) | DateNone => sd
       end) group (false, false).

Definition role_is_unique (i : nat) : total_res bool :=
  role ← get_at (roles (vectors rks)) i; Ok (bool_decide (role = RoleUnique)).
Definition item_has_bcc (i : nat) : total_res bool := it ← get_at (rks_items rks) i; Ok (has_bcc it).

Definition group_honesty (s : keep_set_stats) (group : list nat) : total_res keep_set_stats :=
  if bool_decide (group = []) then Ok s
  else
    sd ← saw_dates group;
    let s := if sd.1 && sd.2 then s {{ groups_date_source_mixed ::= add_u64 1 }} else s in
    w ← mfind role_is_unique group;
    match w with
    | None => Ok s
    | Some wi =>
        it ← get_at (rks_items rks) wi;
        if has_bcc it then Ok s
        else
          peer ← mexists item_has_bcc group;
          Ok (if peer : bool then s {{ winners_without_bcc_peer_had_bcc ::= add_u64 1 }} else s)
    end.

(** The entry of winner [i]. *)
Definition keep_entry_of (i : nat) (item : scan_item) (promoted : bool) : total_res keep_entry :=
  let class := (folder_class_and_rank (locus_folder_path (locus item)) (folder_rank (rks_rank_ctx rks))).1 in
  '(count, sources, truncated) ← duplicate_source_aggregate (rks_items rks) (group_containing i) i;
  decided ← decided_by_for i;
  Ok {| ke_locus := locus item; ke_message_id_norm := message_id_norm item;
        ke_content_hash := scan_content_hash item; ke_edrm_mih_hex := item_edrm_mih_hex item;
        ke_integrity := integrity item; ke_size := scan_size item; ke_promoted := promoted;
        ke_folder_class := Some (folder_class_str class); ke_decided_by := Some decided;
        ke_duplicate_source_count := count; ke_duplicate_sources := sources;
        ke_duplicate_sources_truncated := truncated |}.

(** The counters of one winner. *)
Definition count_winner (item : scan_item) (promoted : bool) (reason : option promote_reason)
    (s : keep_set_stats) : keep_set_stats :=
  let s := s {{ unique ::= add_u64 1 }} in
  let s := if degraded (integrity item) then s {{ degraded_winners ::= add_u64 1 }} else s in
  let s := if promoted then s {{ promoted_count ::= add_u64 1 }} else s in
  let s := match reason with
           | Some PromoteAttachIncomplete => s {{ promoted_after_attach_incomplete_count ::= add_u64 1 }}
           | Some PromoteModeCFallback => s {{ mode_c_fallback_all_peers_incomplete_count ::= add_u64 1 }}
           | _ => s
           end in
  if is_recoverable_items (classify_folder (locus_folder_path (locus item)))
  then s {{ winners_from_recoverable_items ::= add_u64 1 }} else s.

(** The counters of one duplicate. *)
Definition count_duplicate (tier : option string) (s : keep_set_stats) : keep_set_stats :=
  let s := s {{ duplicates ::= add_u64 1 }} in
  match tier with
  | Some t =>
      if bool_decide (t = "message_id"%string) then s {{ tier1_dups ::= add_u64 1 }}
      else if bool_decide (t = "content_hash" ∨ t = "content_hash_strong")%string
      then s {{ tier2_dups ::= add_u64 1 }} else s
  | None => s
  end.

(** One iteration over the items. *)
Definition keep_item (ws : list keep_entry * keep_set_stats) (ii : nat * scan_item)
    : total_res (list keep_entry * keep_set_stats) :=
  let '(winners, s) := ws in
  let '(i, item) := ii in
  role ← get_at (roles (vectors rks)) i;
  match role with
  | RoleUnique =>
      promoted ← get_at (promoted_from_failure rks) i;
      let s := count_winner item promoted (promote_reasons rks !! i ≫= id) s in
      e ← keep_entry_of i item promoted;
      Ok (winners ++ [e], s)
  | DupOf =>
      tier ← get_at (tier_of (vectors rks)) i;
      Ok (winners, count_duplicate tier s)
  | MaterializeFailed => Ok (winners, s {{ materialize_failed ::= add_u64 1 }})
  end.

(** The order of the winners: path, then NID; the sort is stable. *)
Definition entry_cmp (a b : keep_entry) : comparison :=
  and_then (str_cmp (path_compare_key (source_path (ke_locus a))) (path_compare_key (source_path (ke_locus b))))
    (locus_nid (ke_locus a) ?= locus_nid (ke_locus b)).
Fixpoint insert_entry (e : keep_entry) (l : list keep_entry) : list keep_entry :=
  match l with
  | [] => [e]
  | d :: l => match entry_cmp e d with Gt => d :: insert_entry e l | _ => e :: d :: l end
  end.
Definition sort_entries (l : list keep_entry) : list keep_entry := foldr insert_entry [] l.

Definition initial_stats : keep_set_stats := {|
  recoverable := zlen (rks_items rks); unique := 0; duplicates := 0; tier1_dups := 0; tier2_dups := 0;
  degraded_winners := 0; materialize_failed := 0; promoted_count := 0;
  groups_dropped_materialize := zlen (filter (λ d, d = true) (group_dropped rks));
  group_count := zlen (rks_groups rks); groups_date_source_mixed := 0;
  winners_without_bcc_peer_had_bcc := 0; winners_from_recoverable_items := 0;
  ks_grouping := default_stats; promoted_after_attach_incomplete_count := 0;
  mode_c_fallback_all_peers_incomplete_count := 0 |}.

(** [ResolvedKeepSet::to_keep_set] *)
Definition to_keep_set : total_res keep_set :=
  s ← mfold group_honesty (rks_groups rks) initial_stats;
  '(winners, s) ← mfold keep_item (imap pair (rks_items rks)) ([], s);
  Ok {| ks_schema := KEEP_SET_SCHEMA; ks_policy := policy (rks_rank_ctx rks);
        ks_family_policy := rks_family_policy rks; ks_created_from := created_from rks;
        ks_identity_level := Some (identity_str (Grouping.identity (rks_grouping_ctx rks)));
        ks_dedupe_scope := Some (scope_str (scope (rks_grouping_ctx rks)));
        ks_winners := sort_entries winners;
        ks_stats := s {{ ks_grouping := rks_grouping_stats rks }} |}.

(** ** Decision rows *)

Record decision_record := {
  dr_source_path : bstring; dr_source_pst : bstring; dr_folder_path : bstring;
  dr_is_orphaned : bool; dr_nid : Z; dr_message_id_norm : option bstring;
  dr_content_hash_hex : bstring; dr_edrm_mih : option bstring; dr_role : decision_role;
  dr_tier : option string; dr_winner_source_pst : option bstring; dr_winner_folder : option bstring;
  dr_winner_nid : option Z; dr_policy : keep_policy; dr_family_policy : family_policy;
  dr_degraded : bool; dr_degraded_reasons : list string; dr_size : Z; dr_promoted : bool;
  dr_folder_class : string; dr_folder_class_rank : Z; dr_source_rank : Z; dr_has_bcc : bool;
  dr_date_filetime_utc : string; dr_date_source : string; dr_decided_by : string;
  dr_duplicate_source_count : Z; dr_duplicate_sources : bstring; dr_bound_by : string;
  dr_identity_version : string; dr_tier2_eligible : bool }.

(** The winner that a duplicate's row names. *)
Definition row_winner (role : decision_role) (i : nat) : total_res (option message_locus) :=
  match role with
  | DupOf =>
      win ← get_at (winner_of (vectors rks)) i;
      match win with
      | Some wi => w ← get_at (rks_items rks) wi; Ok (Some (locus w))
      | None => Ok None
      end
  | _ => Ok None
  end.

(** [decision_at] *)
Definition decision_at (i : nat) : total_res decision_record :=
  item ← get_at (rks_items rks) i;
  role ← get_at (roles (vectors rks)) i;
  win ← row_winner role i;
  let '(class, frank) := folder_class_and_rank (locus_folder_path (locus item)) (folder_rank (rks_rank_ctx rks)) in
  let '(date, dsrc) := resolve_item_date item in
  decided ← decided_by_for i;
  '(count, sources) ← (if bool_decide (role = RoleUnique) then
                         '(count, names, _) ← duplicate_source_aggregate (rks_items rks) (group_containing i) i;
                         Ok (count, join_with PIPE names)
                       else Ok (0, []));
  tier ← get_at (tier_of (vectors rks)) i;
  promoted ← get_at (promoted_from_failure rks) i;
  Ok {| dr_source_path := source_path (locus item); dr_source_pst := source_pst (locus item);
        dr_folder_path := locus_folder_path (locus item);
        dr_is_orphaned := is_orphaned (locus item) || integrity_is_orphaned (integrity item);
        dr_nid := locus_nid (locus item); dr_message_id_norm := message_id_norm item;
        dr_content_hash_hex := hex_encode (scan_content_hash item);
        dr_edrm_mih := item_edrm_mih_hex item; dr_role := role; dr_tier := tier;
        dr_winner_source_pst := source_pst <$> win; dr_winner_folder := locus_folder_path <$> win;
        dr_winner_nid := locus_nid <$> win; dr_policy := policy (rks_rank_ctx rks);
        dr_family_policy := rks_family_policy rks; dr_degraded := degraded (integrity item);
        dr_degraded_reasons := map reason_str (degraded_reasons (integrity item));
        dr_size := scan_size item; dr_promoted := promoted;
        dr_folder_class := folder_class_str class; dr_folder_class_rank := frank;
        dr_source_rank := source_rank_of item (source_rank_patterns (rks_rank_ctx rks));
        dr_has_bcc := has_bcc item; dr_date_filetime_utc := format_date_filetime_utc date;
        dr_date_source := date_source_str dsrc; dr_decided_by := decided;
        dr_duplicate_source_count := count; dr_duplicate_sources := sources;
        dr_bound_by := bound_by_str (default Seed (rks_bound_by rks !! i));
        dr_identity_version := identity_version (Grouping.identity (rks_grouping_ctx rks));
        dr_tier2_eligible := default true (rks_tier2_eligible rks !! i) |}.

(** [to_decisions] *)
Definition to_decisions : total_res (list decision_record) :=
  rmap decision_at (seq 0 (length (rks_items rks))).
End keep_set.

(** [build_keep_set_with_ctx] *)
Definition build_keep_set_with_ctx `{Platform, Md5} (family : family_policy) (rctx : rank_context)
    (enable_tier2 : bool) (order : hash_order) (items : list scan_item)
    : total_res (keep_set * list decision_record) :=
  r ← resolve_keep_set family rctx (with_tier2 enable_tier2) None order items;
  ks ← to_keep_set r; ds ← to_decisions r; Ok (ks, ds).
