(* ===== verification/KeepSetFacts.v ===== *)
(** * The keep set adds up (keepset.rs)

    Collecting the keep set and the decision rows never panics; after finalizing,
    the statistics account for every item and every group. *)

From Stdlib Require Import Sorted.
From S2P Require Import Prelude Telemetry PstError UnionFind Text CivilDate Recipient Grouping DedupIndex KeepGroup GroupInv Backfill GroupTheorems Rank RankFacts Integrity Finalize FinalizeTheorems KeepSet.
#[local] Open Scope Z_scope.

(** ** No panics *)

(** Vectors of one entry per item, with groups and winners in range. *)
Record sound (rks : resolved_keep_set) : Prop := {
  sd_full : full (length (rks_items rks)) rks;
  sd_groups : ∀ g, g ∈ rks_groups rks → in_range (length (rks_items rks)) g;
  sd_winners : ∀ i w, winner_of (vectors rks) !! i = Some (Some w) → (w < length (rks_items rks))%nat }.

(** Rows of a role, and of a tier among the duplicates. *)
Definition is_tier1 (x : decision_role * option string) : Prop := x = (DupOf, Some "message_id"%string).
Definition is_tier2 (x : decision_role * option string) : Prop :=
  x = (DupOf, Some "content_hash"%string) ∨ x = (DupOf, Some "content_hash_strong"%string).
#[export] Instance is_tier1_dec x : Decision (is_tier1 x).
Proof. unfold is_tier1. apply _. Defined.
#[export] Instance is_tier2_dec x : Decision (is_tier2 x).
Proof. unfold is_tier2. apply _. Defined.

Section collect.
Context `{Platform, Md5} (rks : resolved_keep_set) (Hs : sound rks).
Abbreviation n := (length (rks_items rks)).

Lemma item_at i : (i < n)%nat → ∃ it, rks_items rks !! i = Some it ∧ get_at (rks_items rks) i = Ok it :> total_res _.
Proof. apply get_at_lt. Qed.
Lemma role_at i : (i < n)%nat →
  ∃ role, roles (vectors rks) !! i = Some role ∧ get_at (roles (vectors rks)) i = Ok role :> total_res _.
Proof. intros Hi. apply get_at_lt. destruct (sd_full _ Hs) as (-> & _). done. Qed.
Lemma tier_at i : (i < n)%nat →
  ∃ t, tier_of (vectors rks) !! i = Some t ∧ get_at (tier_of (vectors rks)) i = Ok t :> total_res _.
Proof. intros Hi. apply get_at_lt. destruct (sd_full _ Hs) as (_ & _ & -> & _). done. Qed.
Lemma winner_at i : (i < n)%nat →
  ∃ w, winner_of (vectors rks) !! i = Some w ∧ get_at (winner_of (vectors rks)) i = Ok w :> total_res _.
Proof. intros Hi. apply get_at_lt. destruct (sd_full _ Hs) as (_ & -> & _). done. Qed.
Lemma promoted_at i : (i < n)%nat →
  ∃ b, promoted_from_failure rks !! i = Some b ∧ get_at (promoted_from_failure rks) i = Ok b :> total_res _.
Proof. intros Hi. apply get_at_lt. destruct (sd_full _ Hs) as (_ & _ & _ & -> & _). done. Qed.

Lemma group_containing_range i : (i < n)%nat → in_range n (group_containing rks i).
Proof.
  intros Hi. unfold group_containing. destruct (List.find _ _) as [g|] eqn:E; simpl.
  - apply find_some in E as [Hg _]. apply (sd_groups _ Hs). by apply list_elem_of_In.
  - intros j ->%list_elem_of_singleton. done.
Qed.

Lemma best_rival_ok i g best : in_range n g → ∃ b, best_rival rks i g best = Ok b.
Proof.
  revert best. induction g as [|j g IH]; intros best Hg; [by exists best|].
  apply in_range_cons in Hg as [Hj Hg]. cbn [best_rival]. case_bool_decide; [by apply IH|].
  destruct (item_at j Hj) as (it & _ & ->). rewrite bind_ok. by apply IH.
Qed.

Lemma decided_by_for_ok i : (i < n)%nat → ∃ s, decided_by_for rks i = Ok s.
Proof.
  intros Hi. unfold decided_by_for. destruct (role_at i Hi) as (role & _ & ->). rewrite bind_ok.
  destruct (if bool_decide (role = RoleUnique) then _ else _) as [reason|]; [by eexists|].
  case_bool_decide; [by eexists|]. destruct (item_at i Hi) as (it & _ & ->). rewrite bind_ok.
  destruct role.
  - destruct (best_rival_ok i (group_containing rks i) None) as [b ->]; [by apply group_containing_range|].
    rewrite bind_ok. by eexists.
  - destruct (winner_at i Hi) as (w & Hw & ->). rewrite bind_ok. destruct w as [w|]; [|by eexists].
    destruct (item_at w) as (wit & _ & ->); [by eapply (sd_winners _ Hs)|]. rewrite bind_ok. by eexists.
  - by eexists.
Qed.

Lemma other_sources_ok base i g names :
  in_range n g → ∃ l, other_sources (rks_items rks) base i g names = Ok l.
Proof.
  revert names. induction g as [|j g IH]; intros names Hg; [by exists names|].
  apply in_range_cons in Hg as [Hj Hg]. cbn [other_sources]. case_bool_decide; [by apply IH|].
  destruct (item_at j Hj) as (it & _ & ->). rewrite bind_ok. by apply IH.
Qed.

Lemma duplicate_source_aggregate_ok i :
  (i < n)%nat → ∃ a, duplicate_source_aggregate (rks_items rks) (group_containing rks i) i = Ok a.
Proof.
  intros Hi. unfold duplicate_source_aggregate. destruct (item_at i Hi) as (it & _ & ->). rewrite bind_ok.
  destruct (other_sources_ok (source_basename (source_pst (locus it))) i (group_containing rks i) [])
    as [l ->]; [by apply group_containing_range|]. rewrite bind_ok. by eexists.
Qed.

Lemma keep_entry_of_ok i it promoted : (i < n)%nat → ∃ e, keep_entry_of rks i it promoted = Ok e.
Proof.
  intros Hi. unfold keep_entry_of. destruct (duplicate_source_aggregate_ok i Hi) as [[[count names] trunc] ->].
  rewrite bind_ok. destruct (decided_by_for_ok i Hi) as [s ->]. rewrite bind_ok. by eexists.
Qed.

Lemma row_winner_ok role i : (i < n)%nat → ∃ w, row_winner rks role i = Ok w.
Proof.
  intros Hi. destruct role; try by eexists. cbn [row_winner].
  destruct (winner_at i Hi) as (w & Hw & ->). rewrite bind_ok. destruct w as [w|]; [|by eexists].
  destruct (item_at w) as (wit & _ & ->); [by eapply (sd_winners _ Hs)|]. rewrite bind_ok. by eexists.
Qed.

Lemma decision_at_ok i : (i < n)%nat → ∃ d, decision_at rks i = Ok d.
Proof.
  intros Hi. unfold decision_at. destruct (item_at i Hi) as (it & _ & ->). rewrite bind_ok.
  destruct (role_at i Hi) as (role & _ & ->). rewrite bind_ok.
  destruct (row_winner_ok role i Hi) as [w ->]. rewrite bind_ok.
  destruct (folder_class_and_rank _ _) as [class frank]. destruct (resolve_item_date it) as [date dsrc].
  destruct (decided_by_for_ok i Hi) as [s ->]. rewrite bind_ok.
  assert (∃ cs, (if bool_decide (role = RoleUnique) then
                   '(count, names, _) ← duplicate_source_aggregate (rks_items rks) (group_containing rks i) i;
                   Ok (count, join_with PIPE names)
                 else Ok (0, []) : total_res (Z * bstring)) = Ok cs) as [[count sources] ->].
  { case_bool_decide; [|by eexists]. destruct (duplicate_source_aggregate_ok i Hi) as [[[count names] trunc] ->].
    rewrite bind_ok. by eexists. }
  rewrite bind_ok. destruct (tier_at i Hi) as (t & _ & ->). rewrite bind_ok.
  destruct (promoted_at i Hi) as (b & _ & ->). rewrite bind_ok. by eexists.
Qed.

(** ** The counters *)

(** The counters that account for the items. *)
Definition tally (s : keep_set_stats) : Z * Z * Z * Z * Z :=
  (unique s, duplicates s, materialize_failed s, tier1_dups s, tier2_dups s).

(** The counters that the loops leave alone. *)
Definition totals (s : keep_set_stats) : Z * Z * Z :=
  (recoverable s, groups_dropped_materialize s, group_count s).

Lemma mfind_ok {A} (p : A → total_res bool) l :
  (∀ a, a ∈ l → ∃ b, p a = Ok b) → ∃ o, mfind p l = Ok o ∧ ∀ a, o = Some a → a ∈ l.
Proof.
  induction l as [|a l IH]; intros Hp; [by exists None|].
  destruct (Hp a ltac:(by left)) as [b Hb]. cbn [mfind]. rewrite Hb, bind_ok.
  destruct b; [exists (Some a); split; [done|intros ? [= ->]; by left]|].
  destruct IH as (o & -> & Ho); [intros; apply Hp; by right|]. exists o. split; [done|].
  intros x Hx. right. by apply Ho.
Qed.

Lemma group_honesty_ok s g :
  in_range n g → ∃ s', group_honesty rks s g = Ok s' ∧ tally s' = tally s ∧ totals s' = totals s.
Proof.
  intros Hg. unfold group_honesty. case_bool_decide; [by exists s|].
  assert (∃ sd, saw_dates rks g = Ok sd) as [sd ->].
  { unfold saw_dates. generalize (false, false) as sd. clear s H1.
    induction g as [|i g IH]; intros sd; [by exists sd|]. apply in_range_cons in Hg as [Hi Hg].
    cbn [mfold]. destruct (item_at i Hi) as (it & _ & ->). rewrite bind_ok. by apply IH. }
  rewrite bind_ok. set (s1 := if sd.1 && sd.2 then _ else s).
  assert (tally s1 = tally s ∧ totals s1 = totals s) as [<- <-] by (unfold s1; by destruct (sd.1 && sd.2)).
  clearbody s1. clear s sd.
  destruct (mfind_ok (role_is_unique rks) g) as (w & -> & Hw).
  { intros i Hi. unfold role_is_unique. destruct (role_at i) as (role & _ & ->); [by apply Hg|].
    rewrite bind_ok. by eexists. }
  rewrite bind_ok. destruct w as [w|]; [|by exists s1].
  destruct (item_at w) as (it & _ & ->); [by apply Hg, Hw|]. rewrite bind_ok. destruct (has_bcc it); [by exists s1|].
  unfold mexists. destruct (mfind_ok (item_has_bcc rks) g) as (o & -> & _).
  { intros i Hi. unfold item_has_bcc. destruct (item_at i) as (jt & _ & ->); [by apply Hg|].
    rewrite bind_ok. by eexists. }
  rewrite !bind_ok. case_bool_decide; by eexists.
Qed.

Abbreviation rows := (list (decision_role * option string)).
Definition counting (P : decision_role * option string → Prop) `{!∀ x, Decision (P x)} (l : rows) : Z :=
  zlen (filter P l).

Definition tally_of (l : rows) : Z * Z * Z * Z * Z :=
  (wrap 64 (counting (λ x, x.1 = RoleUnique) l), wrap 64 (counting (λ x, x.1 = DupOf) l),
   wrap 64 (counting (λ x, x.1 = MaterializeFailed) l),
   wrap 64 (counting is_tier1 l), wrap 64 (counting is_tier2 l)).

Lemma counting_snoc P `{!∀ x, Decision (P x)} l x :
  counting P (l ++ [x]) = counting P l + (if decide (P x) then 1 else 0).
Proof.
  unfold counting. rewrite filter_app, zlen_app. f_equal. rewrite filter_cons. by destruct (decide (P x)).
Qed.

Lemma wrap_succ x : add_u64 1 (wrap 64 x) = wrap 64 (x + 1).
Proof. apply (add_u64_wrap 0). Qed.

(** One row further in each counter. *)
Ltac tally_step :=
  unfold tally_of; rewrite !counting_snoc; cbn [fst snd];
  repeat match goal with |- context [decide ?P] =>
    first [rewrite (decide_False (P := P)) by (unfold is_tier1, is_tier2; naive_solver)
          |rewrite (decide_True (P := P)) by (unfold is_tier1, is_tier2; naive_solver)] end;
  rewrite ?Z.add_0_r, <- ?wrap_succ.

Lemma tally_winner it promoted reason s l tier :
  tally s = tally_of l → tally (count_winner it promoted reason s) = tally_of (l ++ [(RoleUnique, tier)]).
Proof.
  intros [= H1 H2 H3 H4 H5].
  assert (tally (count_winner it promoted reason s) =
    (add_u64 1 (unique s), duplicates s, materialize_failed s, tier1_dups s, tier2_dups s)) as ->.
  { unfold count_winner. destruct (degraded (integrity it)), promoted, reason as [[]|], (is_recoverable_items _); done. }
  tally_step. congruence.
Qed.

Lemma tally_duplicate s l tier :
  tally s = tally_of l → tally (count_duplicate tier s) = tally_of (l ++ [(DupOf, tier)]).
Proof.
  destruct s. unfold tally, tally_of, count_duplicate. cbn. intros [= -> -> -> -> ->].
  destruct tier as [t|]; [case_bool_decide as E1; [|case_bool_decide as E2]|]; cbn.
  - subst t. tally_step. done.
  - destruct E2 as [-> | ->]; tally_step; done.
  - tally_step. done.
  - tally_step. done.
Qed.

Lemma tally_failed s l tier :
  tally s = tally_of l →
  tally (s {{ materialize_failed ::= add_u64 1 }}) = tally_of (l ++ [(MaterializeFailed, tier)]).
Proof. destruct s. unfold tally, tally_of. cbn. intros [= -> -> -> -> ->]. by tally_step. Qed.

Definition rows_of : rows := zip (roles (vectors rks)) (tier_of (vectors rks)).

Lemma rows_lookup k role tier :
  roles (vectors rks) !! k = Some role → tier_of (vectors rks) !! k = Some tier →
  rows_of !! k = Some (role, tier).
Proof. intros H1 H2. unfold rows_of. rewrite lookup_zip_with, H1. simpl. by rewrite H2. Qed.

Lemma rows_length : length rows_of = n.
Proof. unfold rows_of. destruct (sd_full _ Hs) as (L1 & _ & L3 & _). rewrite length_zip_with. lia. Qed.

Lemma totals_winner it promoted reason s : totals (count_winner it promoted reason s) = totals s.
Proof.
  unfold count_winner. by destruct (degraded (integrity it)), promoted, reason as [[]|], (is_recoverable_items _).
Qed.
Lemma totals_duplicate tier s : totals (count_duplicate tier s) = totals s.
Proof. unfold count_duplicate. destruct tier as [t|]; [|done]. by repeat case_bool_decide. Qed.

Lemma keep_item_ok k it ws s :
  rks_items rks !! k = Some it → tally s = tally_of (take k rows_of) →
  zlen ws = counting (λ x, x.1 = RoleUnique) (take k rows_of) →
  ∃ ws' s', keep_item rks (ws, s) (k, it) = Ok (ws', s') ∧ tally s' = tally_of (take (S k) rows_of) ∧
    zlen ws' = counting (λ x, x.1 = RoleUnique) (take (S k) rows_of) ∧ totals s' = totals s.
Proof.
  intros Hit Ht Hw. pose proof (lookup_lt_Some _ _ _ Hit) as Hk.
  destruct (role_at k Hk) as (role & Hrole & Er). destruct (tier_at k Hk) as (tier & Htier & Et).
  assert (take (S k) rows_of = take k rows_of ++ [(role, tier)]) as ->.
  { apply take_S_r. by apply rows_lookup. }
  unfold keep_item. rewrite Er, bind_ok, counting_snoc. destruct role.
  - destruct (promoted_at k Hk) as (b & _ & ->). rewrite bind_ok. cbv zeta.
    destruct (keep_entry_of_ok k it b Hk) as [e ->]. rewrite bind_ok. eexists _, _.
    split; [reflexivity|]. split; [by apply tally_winner|]. split; [|apply totals_winner].
    rewrite decide_True by done. rewrite zlen_app, Hw. done.
  - rewrite Et, bind_ok. eexists _, _. split; [reflexivity|]. split; [by apply tally_duplicate|].
    split; [|apply totals_duplicate]. rewrite decide_False by done. lia.
  - eexists _, _. split; [reflexivity|]. split; [by apply tally_failed|]. split; [|done].
    rewrite decide_False by done. lia.
Qed.

Lemma keep_items_ok rest k ws s :
  drop k (rks_items rks) = rest → tally s = tally_of (take k rows_of) →
  zlen ws = counting (λ x, x.1 = RoleUnique) (take k rows_of) →
  ∃ ws' s', mfold (keep_item rks) (imap (λ i x, ((k + i)%nat, x)) rest) (ws, s) = Ok (ws', s') ∧
    tally s' = tally_of rows_of ∧ zlen ws' = counting (λ x, x.1 = RoleUnique) rows_of ∧ totals s' = totals s.
Proof.
  revert k ws s. induction rest as [|it rest IH]; intros k ws s Hd Ht Hw.
  - exists ws, s. split; [done|]. rewrite firstn_all2 in Ht, Hw; [done| |];
      rewrite rows_length; apply (f_equal length) in Hd; rewrite length_drop in Hd; simpl in Hd; lia.
  - assert (rks_items rks !! k = Some it) as Hit.
    { rewrite <- (Nat.add_0_r k), <- lookup_drop, Hd. done. }
    destruct (keep_item_ok k it ws s Hit Ht Hw) as (ws1 & s1 & E1 & Ht1 & Hw1 & Hto1).
    rewrite imap_cons, Nat.add_0_r. cbn [mfold]. rewrite E1.
    assert (imap ((λ i x, ((k + i)%nat, x)) ∘ S) rest = imap (λ i x, ((S k + i)%nat, x)) rest) as ->.
    { apply imap_ext. intros i x _. unfold compose. f_equal. lia. }
    destruct (IH (S k) ws1 s1) as (ws2 & s2 & E2 & Ht2 & Hw2 & Hto2); [|done|done|].
    { rewrite <- Nat.add_1_r, <- drop_drop, Hd. done. }
    exists ws2, s2. split; [exact E2|]. split; [done|]. split; [done|]. congruence.
Qed.

Lemma group_honesties_ok gs s :
  (∀ g, g ∈ gs → in_range n g) →
  ∃ s', mfold (group_honesty rks) gs s = Ok s' ∧ tally s' = tally s ∧ totals s' = totals s.
Proof.
  revert s. induction gs as [|g gs IH]; intros s Hg; [by exists s|].
  destruct (group_honesty_ok s g) as (s1 & E1 & H1 & H2); [apply Hg; by left|].
  destruct (IH s1) as (s2 & E2 & H3 & H4); [intros; apply Hg; by right|].
  exists s2. cbn [mfold]. rewrite E1. split; [exact E2|]. split; congruence.
Qed.

Lemma sort_entries_length l : length (sort_entries l) = length l.
Proof.
  assert (∀ e l, length (insert_entry e l) = S (length l)) as Hins.
  { intros e. induction l0 as [|d l0 IH]; [done|]. simpl. destruct (entry_cmp e d); simpl; auto. }
  induction l as [|e l IH]; [done|]. simpl. by rewrite Hins, IH.
Qed.

(** [to_keep_set] returns, and its counters are those of the rows. *)
Lemma to_keep_set_ok :
  ∃ ks, to_keep_set rks = Ok ks ∧ tally (ks_stats ks) = tally_of rows_of ∧
    totals (ks_stats ks) = (zlen (rks_items rks), zlen (filter (λ d, d = true) (group_dropped rks)),
                            zlen (rks_groups rks)) ∧
    zlen (ks_winners ks) = counting (λ x, x.1 = RoleUnique) rows_of.
Proof.
  unfold to_keep_set. destruct (group_honesties_ok (rks_groups rks) (initial_stats rks)) as (s1 & -> & Ht & Hto);
    [apply (sd_groups _ Hs)|]. rewrite bind_ok.
  destruct (keep_items_ok (rks_items rks) 0 [] s1) as (ws & s2 & E2 & Ht2 & Hw2 & Hto2); [done|by rewrite Ht|done|].
  assert (imap pair (rks_items rks) = imap (λ i x, ((0 + i)%nat, x)) (rks_items rks)) as -> by done.
  rewrite E2, bind_ok. eexists. split; [reflexivity|]. cbn [ks_stats ks_winners].
  split; [exact Ht2|]. split; [etransitivity; [exact Hto2|exact Hto]|].
  unfold zlen. rewrite sort_entries_length. exact Hw2.
Qed.

Lemma to_decisions_ok : ∃ ds, to_decisions rks = Ok ds ∧ length ds = n.
Proof.
  unfold to_decisions. assert (∀ l, in_range n l → ∃ ds, rmap (decision_at rks) l = Ok ds ∧ length ds = length l) as Hl.
  { induction l as [|i l IH]; intros Hr; [by exists []|]. apply in_range_cons in Hr as [Hi Hr].
    destruct (decision_at_ok i Hi) as [d Ed]. destruct (IH Hr) as (ds & Eds & Hlen).
    exists (d :: ds). rewrite rmap_cons, Ed, bind_ok, Eds, bind_ok. simpl. by rewrite Hlen. }
  destruct (Hl (seq 0 n)) as (ds & E & Hlen); [intros i Hi; apply elem_of_seq in Hi; lia|].
  exists ds. split; [done|]. by rewrite Hlen, length_seq.
Qed.
End collect.
