(* ===== verification/KeepSetTheorems.v ===== *)
(** * The finished keep set (keepset.rs)

    Grouping, ranking, materializing and collecting, one after the other: the
    whole pipeline returns, and its statistics account for every message. *)

From Stdlib Require Import Sorted.
From S2P Require Import Prelude Telemetry PstError UnionFind Text CivilDate Recipient Grouping DedupIndex KeepGroup GroupInv Backfill GroupTheorems GroupExamples Rank RankFacts Integrity Finalize FinalizeTheorems KeepSet KeepSetFacts.
#[local] Open Scope Z_scope.

(** ** Counting rows by item numbers *)

Lemma filter_seq_zip {A} (l : list A) (P : A → Prop) `{!∀ x, Decision (P x)} (Q : nat → Prop) `{!∀ i, Decision (Q i)} k :
  (∀ i x, l !! i = Some x → P x ↔ Q (k + i)%nat) →
  length (filter P l) = length (filter Q (seq k (length l))).
Proof.
  revert k. induction l as [|x l IH]; intros k HPQ; [done|]. cbn [length seq].
  rewrite !filter_cons. pose proof (HPQ 0%nat x eq_refl) as Hx. rewrite Nat.add_0_r in Hx.
  assert (length (filter P l) = length (filter Q (seq (S k) (length l)))) as E.
  { apply IH. intros i y Hy. rewrite Nat.add_succ_comm. by apply HPQ. }
  destruct (decide (P x)), (decide (Q k)); cbn [length]; congruence || tauto.
Qed.

Lemma filter_concat_length (P : nat → Prop) `{!∀ i, Decision (P i)} gs (ds : list bool) :
  Forall2 (λ g d, length (filter P g) = if d : bool then 0%nat else 1%nat) gs ds →
  length (filter P (concat gs)) = length (filter (λ d, d = false) ds).
Proof.
  induction 1 as [|g d gs ds Hgd _ IH]; [done|]. simpl. rewrite filter_app, length_app, IH, Hgd, filter_cons.
  by destruct d.
Qed.

Lemma filter_empty (P : nat → Prop) `{!∀ i, Decision (P i)} g : (∀ i, i ∈ g → ¬ P i) → filter P g = [].
Proof.
  induction g as [|i g IH]; intros HP; [done|]. rewrite filter_cons, decide_False by (apply HP; by left).
  apply IH. intros j Hj. apply HP. by right.
Qed.

Lemma filter_single (P : nat → Prop) `{!∀ i, Decision (P i)} g w :
  NoDup g → w ∈ g → (∀ i, i ∈ g → P i ↔ i = w) → length (filter P g) = 1%nat.
Proof.
  induction g as [|i g IH]; intros Hnd Hw HP; [by apply elem_of_nil in Hw|].
  apply NoDup_cons in Hnd as [Hi Hnd]. rewrite filter_cons. destruct (decide (P i)) as [Hp|Hp].
  - apply HP in Hp as ->; [|by left]. rewrite filter_empty; [done|]. intros j Hj Hp.
    apply HP in Hp as ->; [done|by right].
  - apply elem_of_cons in Hw as [->|Hw]; [destruct Hp; apply HP; [by left|done]|].
    apply IH; [done|done|]. intros j Hj. apply HP. by right.
Qed.

Lemma filter_bools (ds : list bool) :
  zlen (filter (λ d, d = false) ds) + zlen (filter (λ d, d = true) ds) = zlen ds.
Proof.
  induction ds as [|d ds IH]; [done|]. rewrite !filter_cons. unfold zlen in *.
  destruct d; cbn [decide length bool_eq_dec]; simpl; lia.
Qed.

Lemma sorted_distinct (g : list nat) : StronglySorted lt g → NoDup g.
Proof.
  induction 1 as [|i g _ IH Hi]; [constructor|]. apply NoDup_cons. split; [|done].
  rewrite Forall_forall in Hi. intros Hin%Hi. lia.
Qed.

(** ** The roles of a settled group *)

Lemma chosen_not_failed (outs : outcomes) winner msg :
  NoDup (map fst outs) → chosen outs = Some (winner, msg) → winner ∉ failed_of outs.
Proof.
  intros Hnd Hc Hf. unfold failed_of in Hf. apply list_elem_of_omap in Hf as ([j o] & Ho & Ej).
  destruct o; simplify_eq/=. apply list_elem_of_lookup in Ho as [a Ha].
  assert (∃ o, (winner, o) ∈ outs ∧ o ≠ PeerFailed) as (o & [b Hb]%list_elem_of_lookup & Hne).
  { destruct (chosen_in _ _ _ Hc) as [?|?]; eexists; split; done. }
  assert (a = b) as ->; [|congruence].
  apply (NoDup_lookup _ _ _ winner Hnd); rewrite list_lookup_fmap; [by rewrite Ha|by rewrite Hb].
Qed.

(** Item [i] has the role [role]. *)
Definition has_role (f : resolved_keep_set) (role : decision_role) (i : nat) : Prop := roles (vectors f) !! i = Some role.
#[export] Instance has_role_dec f role i : Decision (has_role f role i).
Proof. unfold has_role. apply _. Defined.

(** Item [i] is the first-seen item of its group, and not its winner. *)
Definition displaced_seed (f : resolved_keep_set) (i : nat) : Prop := has_role f DupOf i ∧ rks_bound_by f !! i = Some Seed.
#[export] Instance displaced_seed_dec f i : Decision (displaced_seed f i).
Proof. unfold displaced_seed. apply _. Defined.

Section accounts.
Context `{Platform, Md5} {M W : Type}.
Context (materialize : message_locus → M → (canonical_message + bstring) * M).
Context (r : resolved_keep_set) (st : @final_state M W) (flag : bool).
Context (Hlaw : lawful r) (Hpart : partition (length (rks_items r)) (rks_groups r)).
Context (Htags : tags_ok (rks_groups r) (rks_bound_by r)).
Context (Hb : between materialize flag r (length (rks_groups r)) st).
Abbreviation f := (fin_resolved st).
Abbreviation n := (length (rks_items r)).

Lemma group_distinct gid g : rks_groups r !! gid = Some g → NoDup g.
Proof.
  intros Hg. apply sorted_distinct. pose proof (pt_sorted _ _ Hpart) as Hs. rewrite Forall_lookup in Hs.
  by destruct (Hs _ _ Hg).
Qed.

(** The members of a group have the entries that its outcomes give. *)
Lemma group_settled gid g :
  rks_groups r !! gid = Some g →
  ∃ outs, group_dropped f !! gid = Some (bool_decide (chosen outs = None)) ∧
    (∀ w msg, chosen outs = Some (w, msg) → w ∈ g ∧ w ∉ failed_of outs) ∧
    ∀ i, i ∈ g → entry_of f i (settled_entry (rks_bound_by r) outs i).
Proof.
  intros Hg. destruct (bw_settled _ _ _ _ _ Hb gid g) as (items0 & ranked & outs & Hst & Hag);
    [by eapply lookup_lt_Some|done|].
  pose proof Hst as [Hr (m & m' & items' & Htr & _) Hd He].
  assert (in_range (length items0) g) as Hrg.
  { intros j Hj. apply (lookup_lt_is_Some_1 items0). rewrite Hag by done. apply lookup_lt_is_Some_2.
    by apply (lw_range _ Hlaw gid g). }
  destruct (rank_group_ok (rks_rank_ctx f) items0 g Hrg) as (ranked' & E & Hperm).
  assert (ranked' = ranked) as -> by congruence.
  assert (in_range (length items0) ranked) as Hrr by (intros j Hj; apply Hrg; by rewrite <- Hperm).
  assert (NoDup (map fst outs)) as Hnd.
  { destruct (trace_order _ _ _ _ _ _ _ _ Hrr Htr) as [[rest Hpre] _].
    assert (NoDup ranked) as Hndr by (rewrite Hperm; by eapply group_distinct).
    rewrite Hpre in Hndr. by apply NoDup_app in Hndr as [? _]. }
  exists outs. split; [done|]. split.
  - intros w msg Hc. split; [|by eapply chosen_not_failed]. rewrite <- Hperm. by eapply chosen_ranked.
  - intros i Hi. rewrite <- (bw_by _ _ _ _ _ Hb). by apply He.
Qed.

Lemma finalized_sound : sound f.
Proof.
  pose proof (bw_len _ _ _ _ _ Hb) as Hlen. split; rewrite Hlen.
  - apply (bw_full _ _ _ _ _ Hb).
  - rewrite (bw_groups _ _ _ _ _ Hb). intros g [gid Hg]%list_elem_of_lookup. by eapply lw_range.
  - intros i w Hw. assert (i < n)%nat as Hi.
    { destruct (bw_full _ _ _ _ _ Hb) as (_ & <- & _). by eapply lookup_lt_Some. }
    apply (partition_mem _ _ _ Hpart) in Hi as (gid & g & Hg & Hi).
    destruct (group_settled gid g Hg) as (outs & _ & Hch & He). specialize (He i Hi).
    unfold settled_entry, entry_of in He. destruct (chosen outs) as [[w' msg]|] eqn:Ec.
    + destruct (Hch _ _ eq_refl) as [Hw' _]. assert (w = w') as ->.
      { destruct (bool_decide (i ∈ _)); [|destruct (bool_decide (i = w'))];
          destruct He as (_ & E & _); congruence. }
      by apply (lw_range _ Hlaw gid g).
    + destruct He as (_ & E & _). congruence.
Qed.

(** In each group one item is unique, or none if the group was dropped. *)
Lemma unique_per_group gid g :
  rks_groups r !! gid = Some g →
  ∃ d, group_dropped f !! gid = Some d ∧ length (filter (has_role f RoleUnique) g) = if d : bool then 0%nat else 1%nat.
Proof.
  intros Hg. destruct (group_settled gid g Hg) as (outs & Hd & Hch & He).
  exists (bool_decide (chosen outs = None)). split; [done|].
  unfold settled_entry, entry_of in He. destruct (chosen outs) as [[w msg]|] eqn:Ec; simpl.
  - destruct (Hch _ _ eq_refl) as [Hw Hnf].
    apply (filter_single _ _ w (group_distinct _ _ Hg) Hw). intros i Hi. specialize (He i Hi). unfold has_role.
    destruct (bool_decide_reflect (i ∈ failed_of outs)) as [Hf|Hf].
    + destruct He as (-> & _). split; [done|]. by intros ->.
    + destruct (bool_decide_reflect (i = w)) as [E|Hne]; destruct He as (-> & _); [done|].
      split; [congruence|done].
  - rewrite filter_empty; [done|]. intros i Hi. unfold has_role. destruct (He i Hi) as (-> & _). done.
Qed.

Lemma counting_items (P : decision_role * option string → Prop) `{!∀ x, Decision (P x)}
    (Q : nat → Prop) `{!∀ i, Decision (Q i)} :
  (∀ i role tier, roles (vectors f) !! i = Some role → tier_of (vectors f) !! i = Some tier →
     P (role, tier) ↔ Q i) →
  counting P (rows_of f) = zlen (filter Q (seq 0 n)).
Proof.
  intros HPQ. unfold counting, zlen. f_equal.
  rewrite (filter_seq_zip _ P Q 0).
  - rewrite (rows_length _ finalized_sound), (bw_len _ _ _ _ _ Hb). done.
  - intros i [role tier] Hrow. unfold rows_of in Hrow. rewrite lookup_zip_with in Hrow. simpl.
    destruct (roles (vectors f) !! i) as [role'|] eqn:Er; [|done]. simpl in Hrow.
    destruct (tier_of (vectors f) !! i) as [tier'|] eqn:Et; [|done]. simplify_eq/=. by apply HPQ.
Qed.

(** One unique row for each group that was not dropped. *)
Lemma unique_rows :
  counting (λ x, x.1 = RoleUnique) (rows_of f) = zlen (filter (λ d, d = false) (group_dropped f)).
Proof.
  rewrite (counting_items _ (has_role f RoleUnique)).
  - unfold zlen. f_equal. rewrite <- (pt_perm _ _ Hpart). apply filter_concat_length.
    apply Forall2_same_length_lookup_2.
    + by rewrite (bw_dropped_len _ _ _ _ _ Hb).
    + intros gid g d Hg Hd. destruct (unique_per_group gid g Hg) as (d' & Hd' & ->). by simplify_eq.
  - intros i role tier Hr _. unfold has_role. rewrite Hr. cbn [fst]. split; [by intros ->|congruence].
Qed.

(** The tier of a duplicate is that of its provenance. *)
Lemma duplicate_tier i :
  has_role f DupOf i → ∃ b, rks_bound_by f !! i = Some b ∧ tier_of (vectors f) !! i = Some (tier_csv b).
Proof.
  intros Hrole. assert (i < n)%nat as Hi.
  { destruct (bw_full _ _ _ _ _ Hb) as (<- & _). by eapply lookup_lt_Some. }
  apply (partition_mem _ _ _ Hpart) in Hi as (gid & g & Hg & Hi).
  destruct (group_settled gid g Hg) as (outs & _ & _ & He). specialize (He i Hi).
  destruct (Htags gid i) as (b & Hbi & _); [by exists g|].
  exists b. rewrite (bw_by _ _ _ _ _ Hb). split; [done|].
  unfold has_role in Hrole. unfold settled_entry, entry_of in He.
  destruct (chosen outs) as [[w msg]|].
  - destruct (bool_decide (i ∈ _)); [|destruct (bool_decide (i = w))];
      destruct He as (E & _ & -> & _); try congruence. by rewrite Hbi.
  - destruct He as (E & _). congruence.
Qed.

Lemma duplicate_rows :
  counting is_tier1 (rows_of f) + counting is_tier2 (rows_of f) + zlen (filter (displaced_seed f) (seq 0 n)) =
  counting (λ x, x.1 = DupOf) (rows_of f).
Proof.
  rewrite <- (counting_items (λ x, x = (DupOf, None)) (displaced_seed f)).
  - assert (∀ x, x ∈ rows_of f → x.1 = DupOf → ∃ b, x.2 = tier_csv b) as Hrows.
    { intros [role tier] [i Hrow]%list_elem_of_lookup Hrole. simpl in Hrole. subst role.
      unfold rows_of in Hrow. rewrite lookup_zip_with in Hrow.
      destruct (roles (vectors f) !! i) as [role'|] eqn:Er; [|done]. simpl in Hrow.
      destruct (tier_of (vectors f) !! i) as [tier'|] eqn:Et; [|done]. simplify_eq/=.
      destruct (duplicate_tier i Er) as (b & _ & Etier). exists b. congruence. }
    unfold counting, zlen. revert Hrows. induction (rows_of f) as [|[role tier] l IH]; intros Hrows; [done|].
    specialize (IH ltac:(intros x Hx; apply Hrows; by right)).
    pose proof (Hrows _ ltac:(by left)) as Hb'. simpl in Hb'. rewrite !filter_cons. unfold is_tier1, is_tier2 in *.
    destruct role; [| |]; try (rewrite !decide_False by naive_solver; exact IH).
    destruct (Hb' eq_refl) as [b ->].
    destruct b; cbn [tier_csv fst];
      repeat match goal with |- context [decide ?P] =>
        first [rewrite (decide_False (P := P)) by naive_solver|rewrite (decide_True (P := P)) by naive_solver] end;
      cbn [length]; lia.
  - intros i role tier Hr Ht. unfold displaced_seed, has_role. split.
    + intros [= -> ->]. split; [done|]. destruct (duplicate_tier i Hr) as (b & -> & E).
      destruct b; simpl in E; congruence.
    + intros [Hd Hs]. destruct (duplicate_tier i Hd) as (b & Hb' & E). simplify_eq/=. done.
Qed.
End accounts.

Lemma counting_bounds P `{!∀ x, Decision (P x)} l : 0 <= counting P l <= zlen l.
Proof. unfold counting, zlen. pose proof (length_filter P l). lia. Qed.

Lemma counting_roles (l : list (decision_role * option string)) :
  counting (λ x, x.1 = RoleUnique) l + counting (λ x, x.1 = DupOf) l +
  counting (λ x, x.1 = MaterializeFailed) l = zlen l.
Proof.
  unfold counting, zlen. induction l as [|[role tier] l IH]; [done|]. rewrite !filter_cons.
  destruct role; cbn [fst decide decision_role_eq_dec]; simpl; lia.
Qed.

(** C15 The keep set and the decision rows of a finalized run are collected without
    a panic, and they account for everything.  There is a row for every scanned
    message; unique, duplicate and failed messages add up to all messages; the
    unique messages, the winners of the keep set and the returned count are one
    number, and with the dropped groups they add up to the groups.  The duplicates
    are those of the two tiers and the first-seen messages that lost their group
    to a better copy, which are in no tier. *)
Theorem keep_set_accounts `{Platform, Md5} {M W} family rctx gctx created order items
    (materialize : message_locus → M → (canonical_message + bstring) * M)
    (on_winner : canonical_message → W → option keep_set_error * W) flag m sink r st :
  resolve_keep_set family rctx gctx created order items = Ok r →
  finalize_with_materialize_opts materialize on_winner flag r m sink = Ok st →
  zlen items < 2 ^ 64 →
  ∃ ks ds, to_keep_set (fin_resolved st) = Ok ks ∧ to_decisions (fin_resolved st) = Ok ds ∧
    let s := ks_stats ks in
    recoverable s = zlen items ∧ zlen ds = zlen items ∧
    unique s + duplicates s + materialize_failed s = zlen items ∧
    group_count s = zlen (rks_groups r) ∧ unique s + groups_dropped_materialize s = group_count s ∧
    fin_count st = unique s ∧ zlen (ks_winners ks) = unique s ∧
    tier1_dups s + tier2_dups s +
      zlen (filter (displaced_seed (fin_resolved st)) (seq 0 (length items))) = duplicates s.
Proof.
  intros Hr Hf Hn. destruct (resolve_keep_set_ok family rctx gctx created order items)
    as (r' & E & Hlaw & Hi & _ & Hp & Ht & _).
  assert (r' = r) as -> by congruence. clear E. subst items.
  destruct (finalize_ok materialize on_winner flag r m sink Hlaw) as [(st' & E & Hb)|(e & st' & E & _)]; [|congruence].
  assert (st' = st) as -> by congruence. clear E.
  pose proof (finalized_sound _ _ _ _ Hlaw Hp Hb) as Hs.
  destruct (to_keep_set_ok _ Hs) as (ks & Eks & Htally & Htot & Hw).
  destruct (to_decisions_ok _ Hs) as (ds & Eds & Hds). exists ks, ds. split; [done|]. split; [done|]. cbv zeta.
  pose proof (bw_len _ _ _ _ _ Hb) as Hlen. pose proof (rows_length _ Hs) as Hrows.
  pose proof (unique_rows _ _ _ _ Hlaw Hp Hb) as Hu. pose proof (duplicate_rows _ _ _ _ Hlaw Hp Ht Hb) as Hd.
  pose proof (counting_roles (rows_of (fin_resolved st))) as Hsum.
  pose proof (filter_bools (group_dropped (fin_resolved st))) as Hfb.
  assert (∀ P `{!∀ x, Decision (P x)}, wrap 64 (counting P (rows_of (fin_resolved st))) = counting P (rows_of (fin_resolved st))) as Hwrap.
  { intros P ?. pose proof (counting_bounds P (rows_of (fin_resolved st))). unfold wrap. apply Z.mod_small.
    unfold zlen in *. lia. }
  unfold tally, tally_of in Htally. rewrite !Hwrap in Htally. unfold totals in Htot.
  pose proof (bw_dropped_len _ _ _ _ _ Hb) as Hdl. pose proof (bw_groups _ _ _ _ _ Hb) as Hg.
  assert (fin_count st = counting (λ x, x.1 = RoleUnique) (rows_of (fin_resolved st))) as Hc.
  { rewrite (bw_count _ _ _ _ _ Hb), firstn_all2 by lia. rewrite <- Hu. apply Hwrap. }
  injection Htally as -> -> -> -> ->. injection Htot as -> -> ->. rewrite Hg in *. unfold zlen in *. lia.
Qed.

(** * Keep sets of concrete messages

    A run with a failing peer and a lost attachment, as the witness of the
    accounting theorem, and two runs in which the rows of the keep set say
    something else than their documentation. *)

#[local] Instance posix : Platform := {| windows := false; str_to_lowercase := id; path_file_name := Some |}.
(** Any function will do for the digest. *)
#[local] Instance first_bytes : Md5 := take 16.

Definition plain_rank : rank_context := {|
  policy := FirstSeen; prefer_path := []; prefer_bcc_copy := false; source_rank_patterns := [];
  folder_rank := FolderOff; ctx_folder_class_first := false; fidelity_mode_of := Binary |}.

(** A message as a reader returns it. *)
Definition loaded (l : message_locus) (atts : list canonical_attachment) (reasons : list integrity_reason)
    : canonical_message := {|
  cm_locus := l; cm_message_id := None; cm_subject := None; cm_sender := None; cm_display_to := None;
  cm_display_cc := None; cm_display_bcc := None; cm_recipients := []; cm_message_flags := None;
  cm_submit_time := None; cm_size := None; cm_message_class := None; cm_body_plain := Some [];
  cm_body_html := None; cm_attachments := atts; cm_fidelity := with_degraded reasons false;
  cm_message_id_norm := None; cm_content_hash := []; cm_edrm_mih_hex := None;
  body_incomplete := false; body_unavailable := false |}.

Definition lost_attachment : canonical_attachment := {|
  at_filename := bytes_of "a.doc"; at_size := 10; at_mime := None; at_data := None;
  stream_available := false; attach_nid := Some 37; attach_method := Some 1; is_cloud_link := false;
  cloud_provider := None; cloud_url := None; cloud_permission_type := None; embedded_message := None;
  embedded_extract_limit := false |}.

(** A reader for which the files in [failing] do not open and the messages in
    [lossy] have lost an attachment; its state counts the loads. *)
Definition reader (failing lossy : list string) (l : message_locus) (loads : nat)
    : (canonical_message + bstring) * nat :=
  (if bool_decide (source_pst l ∈ map bytes_of failing) then inr (bytes_of "open failed")
   else inl (loaded l (if bool_decide (source_pst l ∈ map bytes_of lossy) then [lost_attachment] else []) []),
   S loads).
Definition collector (msg : canonical_message) (sink : list bstring) : option keep_set_error * list bstring :=
  (None, sink ++ [source_pst (cm_locus msg)]).



(** Two groups: three copies, of which the first does not open and the second has
    lost an attachment, and a single message that does not open. *)
Definition copies : list scan_item := [
  message "a.pst" (Some "m1") Byte.x01 1 []; message "b.pst" (Some "m1") Byte.x01 1 [];
  message "c.pst" (Some "m1") Byte.x01 1 []; message "a.pst" (Some "m2") Byte.x02 2 [] ].

Definition the_ok {E A} (m : res E A) (d : A) : A := match m with Ok a => a | _ => d end.
Definition empty_keep_set : resolved_keep_set := {|
  rks_family_policy := KeepAttachmentsWithParent; rks_rank_ctx := plain_rank;
  rks_grouping_ctx := default_context; rks_items := []; rks_groups := [];
  vectors := {| provisional_winners := []; roles := []; winner_of := []; tier_of := [] |};
  rks_bound_by := []; rks_tier2_eligible := []; rks_grouping_stats := default_stats;
  promoted_from_failure := []; promote_reasons := []; soft_skip_attach_records := [];
  group_dropped := []; created_from := None |}.

Definition resolve_plain (items : list scan_item) : total_res resolved_keep_set :=
  resolve_keep_set KeepAttachmentsWithParent plain_rank default_context None listed_order items.
Definition finalize_plain (mat : message_locus → nat → (canonical_message + bstring) * nat)
    (items : list scan_item) : fin_res :=
  finalize_with_materialize_opts mat collector true (the_ok (resolve_plain items) empty_keep_set) 0%nat [].

Definition copies_final : final_state :=
  the_ok (finalize_plain (reader ["a.pst"] ["b.pst"]) copies)
    {| fin_resolved := empty_keep_set; fin_mat := 0%nat; fin_sink := []; fin_count := 0 |}.

Example copies_roles :
  roles (vectors (fin_resolved copies_final)) = [MaterializeFailed; DupOf; RoleUnique; MaterializeFailed] ∧
  fin_sink copies_final = [bytes_of "c.pst"] ∧ fin_mat copies_final = 4%nat ∧ fin_count copies_final = 1.
Proof. vm_compute. repeat split. Qed.

Lemma keep_set_accounts_witness :
  ∃ ks ds, to_keep_set (fin_resolved copies_final) = Ok ks ∧ to_decisions (fin_resolved copies_final) = Ok ds ∧
    let s := ks_stats ks in
    recoverable s = 4 ∧ zlen ds = 4 ∧
    unique s + duplicates s + materialize_failed s = 4 ∧
    group_count s = 2 ∧ unique s + groups_dropped_materialize s = group_count s ∧
    fin_count copies_final = unique s ∧ zlen (ks_winners ks) = unique s ∧
    tier1_dups s + tier2_dups s +
      zlen (filter (displaced_seed (fin_resolved copies_final)) (seq 0 4)) = duplicates s.
Proof.
  apply (keep_set_accounts KeepAttachmentsWithParent plain_rank default_context None listed_order copies
    (reader ["a.pst"] ["b.pst"]%string) collector true 0%nat [] (the_ok (resolve_plain copies) empty_keep_set) copies_final);
    vm_compute; reflexivity.
Defined.

(** ** Rows against their documentation *)

(** Two copies, the second of which is better by path. *)
Definition two_copies : list scan_item := [
  message "b.pst" (Some "m1") Byte.x01 1 []; message "a.pst" (Some "m1") Byte.x01 1 [] ].

(** The first-seen copy of a group has no tier when it becomes a duplicate: its
    row says [dup_of] with an empty tier, and it is in neither tier's counter. *)
Theorem displaced_seed_has_no_tier :
  match build_keep_set_with_ctx KeepAttachmentsWithParent plain_rank true listed_order two_copies with
  | Ok (ks, ds) =>
      map (λ d, (dr_role d, dr_tier d, dr_bound_by d)) ds =
        [(DupOf, None, "seed"%string); (RoleUnique, None, "message_id"%string)] ∧
      duplicates (ks_stats ks) = 1 ∧ tier1_dups (ks_stats ks) = 0 ∧ tier2_dups (ks_stats ks) = 0
  | _ => False
  end.
Proof. vm_compute. repeat split. Qed.

(** A reader that finds the body of [a.pst] truncated. *)
Definition truncating_reader (l : message_locus) (loads : nat) : (canonical_message + bstring) * nat :=
  (inl (loaded l [] (if bool_decide (source_pst l = bytes_of "a.pst") then [BodyTruncated] else [])), S loads).

(** The copy in [a.pst] wins by path, is loaded with a truncated body and is kept.
    Its row then says that fidelity decided, although its fidelity is the worse. *)
Theorem decided_by_after_loading :
  let r := the_ok (resolve_plain two_copies) empty_keep_set in
  match finalize_with_materialize_opts truncating_reader collector false r 0%nat [] with
  | Ok st =>
      roles (vectors (fin_resolved st)) = [DupOf; RoleUnique] ∧
      decided_by_for r 1 = Ok "path_order"%string ∧
      decided_by_for (fin_resolved st) 1 = Ok "fidelity"%string ∧
      map (λ it, fidelity (rank_key_of plain_rank it)) (rks_items (fin_resolved st)) = [0; 1]
  | _ => False
  end.
Proof. vm_compute. repeat split. Qed.
