(* ===== verification/AuditLog.v ===== *)
(** * The audit log (matter-core/src/audit.rs)

    The append-only log of a matter and its hash chain: appending an event, walking the
    chain.  The table is the list of its rows in the order of their sequence numbers,
    the order in which both queries of the source read it. *)

From S2P Require Import Prelude Text Grouping Hasher HasherFacts.
#[local] Open Scope Z_scope.
#[local] Set Warnings "-register-all".

(** ** Data *)

Definition NEWLINE : byte := Byte.x0a.
Definition I64_MAX : Z := 2 ^ 63 - 1.
Definition GENESIS_PREV_HASH : bstring := replicate 64 Byte.x30.

(** [AuditHashFields], [AuditEvent] (the fields and their hash), [AuditEventInput] *)
Record audit_hash_fields := {
  seq : Z; ts : bstring; actor : bstring; action : bstring; entity : bstring; params_json : bstring; tool_version : bstring; prev_hash : bstring }.
Record audit_event := { fields : audit_hash_fields; entry_hash : bstring }.
Record audit_event_input := {
  in_actor : bstring; in_action : bstring; in_entity : bstring; in_params_json : bstring; in_tool_version : bstring }.

(** The reasons of [AuditChainBroken]. *)
Inductive audit_error :=
| SeqMismatch (seq expected : Z)
| PrevHashMismatch (seq : Z) (expected found : bstring)
| EntryHashMismatch (seq : Z) (expected stored : bstring).
Abbreviation audit_res := (res audit_error).

(** [hex_encode] of cas.rs *)
Definition hex_nibble (d : Z) : byte := byte.of_Z (if d <? 10 then 48 + d else 87 + d).
Definition hex_encode (bytes : list byte) : bstring := b ← bytes; [hex_nibble (Z.shiftr (u8 b) 4); hex_nibble (Z.land (u8 b) 15)].

(** [canonical_audit_preimage] *)
Definition canonical_audit_preimage (f : audit_hash_fields) : bstring :=
  bytes_of "seq=" ++ to_decimal (seq f) ++ [NEWLINE] ++ bytes_of "ts=" ++ ts f ++ [NEWLINE] ++ bytes_of "actor=" ++ actor f ++ [NEWLINE] ++
  bytes_of "action=" ++ action f ++ [NEWLINE] ++ bytes_of "entity=" ++ entity f ++ [NEWLINE] ++ bytes_of "params=" ++ params_json f ++ [NEWLINE] ++
  bytes_of "tool_version=" ++ tool_version f ++ [NEWLINE] ++ bytes_of "prev_hash=" ++ prev_hash f ++ [NEWLINE].

Section audit.
Context `{Sha256}.

(** [sha256_hex], [compute_entry_hash] *)
Definition sha256_hex (data : bstring) : bstring := hex_encode (sha256 data).
Definition compute_entry_hash (f : audit_hash_fields) : bstring := sha256_hex (canonical_audit_preimage f).

(** [latest_link], [append_event_in_txn] *)
Definition latest_link (log : list audit_event) : audit_res (Z * bstring) :=
  match last log with
  | Some e => if I64_MAX <=? seq (fields e) then Panic else Ok (seq (fields e) + 1, entry_hash e)
  | None => Ok (1, GENESIS_PREV_HASH)
  end.
Definition append_event (log : list audit_event) (input : audit_event_input) (now : bstring) : audit_res (audit_event * list audit_event) :=
  link ← latest_link log;
  let f := {| seq := link.1; ts := now; actor := in_actor input; action := in_action input; entity := in_entity input;
              params_json := in_params_json input; tool_version := in_tool_version input; prev_hash := link.2 |} in
  let e := {| fields := f; entry_hash := compute_entry_hash f |} in
  Ok (e, log ++ [e]).

(** [verify_audit_chain] *)
Fixpoint verify_rows (expected_seq : Z) (expected_prev : bstring) (rows : list audit_event) : audit_res unit :=
  match rows with
  | [] => Ok ()
  | e :: rows =>
      let f := fields e in
      if negb (seq f =? expected_seq) then Err (SeqMismatch (seq f) expected_seq) else
      if negb (bool_decide (prev_hash f = expected_prev)) then Err (PrevHashMismatch (seq f) expected_prev (prev_hash f)) else
      let computed := compute_entry_hash f in
      if negb (bool_decide (computed = entry_hash e)) then Err (EntryHashMismatch (seq f) computed (entry_hash e)) else
      if I64_MAX <=? expected_seq then Panic else verify_rows (expected_seq + 1) (entry_hash e) rows
  end.
Definition verify_audit_chain (log : list audit_event) : audit_res unit := verify_rows 1 GENESIS_PREV_HASH log.

(** * Lemmas *)

(** ** Hexadecimal *)

Definition nibble_value (b : byte) : Z := if u8 b <? 58 then u8 b - 48 else u8 b - 87.
Lemma hex_byte b :
  byte.of_Z (nibble_value (hex_nibble (Z.shiftr (u8 b) 4)) * 16 + nibble_value (hex_nibble (Z.land (u8 b) 15))) = b ∧
  hex_nibble (Z.shiftr (u8 b) 4) ≠ NEWLINE ∧ hex_nibble (Z.land (u8 b) 15) ≠ NEWLINE.
Proof using. destruct b; (split; [vm_compute; reflexivity|split; vm_compute; discriminate]). Qed.

Lemma hex_encode_cons b s : hex_encode (b :: s) = hex_nibble (Z.shiftr (u8 b) 4) :: hex_nibble (Z.land (u8 b) 15) :: hex_encode s.
Proof using. done. Qed.
Lemma hex_encode_inj a b : hex_encode a = hex_encode b → a = b.
Proof using.
  revert b. induction a as [|x a IH]; intros [|y b]; rewrite ?hex_encode_cons; try done. intros Heq.
  assert (Hx : x = y).
  { rewrite <-(proj1 (hex_byte x)), <-(proj1 (hex_byte y)). injection Heq as H1 H2 _. by rewrite H1, H2. }
  subst y. f_equal. apply IH. by injection Heq.
Qed.
Lemma hex_encode_line a : NEWLINE ∉ hex_encode a.
Proof using.
  induction a as [|b a IH]; [apply not_elem_of_nil|]. rewrite hex_encode_cons. destruct (hex_byte b) as (_ & H1 & H2).
  rewrite !not_elem_of_cons. split_and!; [congruence..|done].
Qed.

(** ** The preimage *)

(** No field has a line feed. *)
Definition one_line (f : audit_hash_fields) : Prop :=
  (NEWLINE ∉ ts f) ∧ (NEWLINE ∉ actor f) ∧ (NEWLINE ∉ action f) ∧ (NEWLINE ∉ entity f) ∧ (NEWLINE ∉ params_json f) ∧ (NEWLINE ∉ tool_version f) ∧ (NEWLINE ∉ prev_hash f).

Lemma decimal_line n : 0 <= n → NEWLINE ∉ to_decimal n.
Proof using.
  intros Hn Hin. destruct (to_decimal_spec n Hn) as (Hd & _ & _). rewrite Forall_forall in Hd. specialize (Hd _ Hin).
  unfold is_digit in Hd. vm_compute in Hd. destruct Hd as [Hd _]. by apply Hd.
Qed.

Lemma separators_app c a b : separators c (a ++ b) = (separators c a + separators c b)%nat.
Proof using. unfold separators. by rewrite filter_app, length_app. Qed.
Lemma separators_zero c s : separators c s = 0%nat → c ∉ s.
Proof using.
  intros Hs Hin. unfold separators in Hs. apply nil_length_inv in Hs. assert (Hf : c ∈ filter (λ b, b = c) s) by (by apply list_elem_of_filter).
  rewrite Hs in Hf. by apply elem_of_nil in Hf.
Qed.

(** The line feeds of a preimage are its eight and those of the fields. *)
Lemma preimage_lines f : 0 <= seq f →
  separators NEWLINE (canonical_audit_preimage f) =
  (8 + (separators NEWLINE (ts f) + separators NEWLINE (actor f) + separators NEWLINE (action f) + separators NEWLINE (entity f) +
        separators NEWLINE (params_json f) + separators NEWLINE (tool_version f) + separators NEWLINE (prev_hash f)))%nat.
Proof using.
  intros Hs. unfold canonical_audit_preimage. rewrite !separators_app, (separators_none NEWLINE (to_decimal (seq f))) by (by apply decimal_line).
  change (separators NEWLINE [NEWLINE]) with 1%nat.
  assert (Hl : ∀ s, s ∈ ["seq="; "ts="; "actor="; "action="; "entity="; "params="; "tool_version="; "prev_hash="]%string → separators NEWLINE (bytes_of s) = 0%nat).
  { intros s Hin. rewrite !elem_of_cons, elem_of_nil in Hin. destruct_or!; by subst s. }
  rewrite !Hl by (rewrite !elem_of_cons; tauto). lia.
Qed.

Lemma line_split a a' x x' : NEWLINE ∉ a → NEWLINE ∉ a' → a ++ [NEWLINE] ++ x = a' ++ [NEWLINE] ++ x' → a = a' ∧ x = x'.
Proof using.
  revert a'. induction a as [|b a IH]; intros [|b' a'] Ha Ha' Heq; cbn [app] in Heq; apply not_elem_of_cons in Ha as [Hb Ha] || idtac.
  - by injection Heq as ->.
  - injection Heq as <- _. by apply not_elem_of_cons in Ha' as [? _].
  - injection Heq as -> _. done.
  - apply not_elem_of_cons in Ha' as [_ Ha']. injection Heq as -> Heq. by destruct (IH a' Ha Ha' Heq) as [-> ->].
Qed.

(** A preimage of one-line fields has no other reading. *)
Lemma preimage_inj f g : 0 <= seq f → 0 <= seq g → one_line f → canonical_audit_preimage f = canonical_audit_preimage g → f = g.
Proof using.
  intros Hf Hg Hl Heq. pose proof (preimage_lines f Hf) as Cf. pose proof (preimage_lines g Hg) as Cg. rewrite <-Heq, Cf in Cg. destruct Hl as (L1 & L2 & L3 & L4 & L5 & L6 & L7).
  rewrite !separators_none in Cg by done.
  assert (Hzero : one_line g) by (unfold one_line; split_and!; apply separators_zero; lia). destruct Hzero as (M1 & M2 & M3 & M4 & M5 & M6 & M7).
  unfold canonical_audit_preimage in Heq.
  apply app_inv_head in Heq. apply line_split in Heq as [H1 Heq]; [|by apply decimal_line..].
  do 6 (apply app_inv_head in Heq; apply line_split in Heq as [? Heq]; [|done..]).
  apply app_inv_head, app_inv_tail in Heq. apply to_decimal_inj in H1; [|done..]. destruct f, g. cbn in *. congruence.
Qed.

(** ** The chain *)

Fixpoint chained (n : Z) (prev : bstring) (log : list audit_event) : Prop :=
  match log with
  | [] => True
  | e :: log => seq (fields e) = n ∧ prev_hash (fields e) = prev ∧ entry_hash e = compute_entry_hash (fields e) ∧ chained (n + 1) (entry_hash e) log
  end.

Lemma verify_rows_spec log : ∀ n prev, 0 < n <= I64_MAX → (verify_rows n prev log = Ok () ↔ chained n prev log ∧ n + zlen log <= I64_MAX).
Proof using.
  induction log as [|e log IH]; intros n prev Hn; cbn [verify_rows chained]; [change (zlen []) with 0; split; [intros _; split; [done|lia]|done]|].
  rewrite zlen_cons. pose proof (zlen_nonneg log). cbv zeta. destruct (seq (fields e) =? n) eqn:E1; bool_to_Z; cbn [negb]; [|split; [done|by intros [(? & _) _]]].
  case_bool_decide; cbn [negb]; [|split; [done|by intros [(_ & ? & _) _]]]. case_bool_decide; cbn [negb]; [|split; [done|intros [(_ & _ & ? & _) _]; congruence]].
  destruct (I64_MAX <=? n) eqn:E2; bool_to_Z; [split; [done|intros [_ ?]; lia]|]. rewrite IH by lia.
  split; [intros [? ?]; split; [by split_and!|lia]|intros [(_ & _ & _ & ?) ?]; split; [done|lia]].
Qed.

Lemma chained_app n prev log e :
  chained n prev (log ++ [e]) ↔ chained n prev log ∧ seq (fields e) = n + zlen log ∧
    prev_hash (fields e) = default prev (entry_hash <$> last log) ∧ entry_hash e = compute_entry_hash (fields e).
Proof using.
  revert n prev. induction log as [|x log IH]; intros n prev; cbn [app chained].
  - change (zlen []) with 0. rewrite Z.add_0_r. cbn [last fmap option_fmap option_map default]. tauto.
  - rewrite IH, zlen_cons. replace (n + 1 + zlen log) with (n + (1 + zlen log)) by lia.
    assert (Hlast : default (entry_hash x) (entry_hash <$> last log) = default prev (entry_hash <$> last (x :: log))).
    { destruct log as [|y log]; [done|]. change (last (x :: y :: log)) with (last (y :: log)). destruct (last (y :: log)) eqn:E; [done|].
      by apply last_None in E. }
    rewrite Hlast. tauto.
Qed.

(** Two rows of the logs whose preimages differ and have one digest. *)
Definition collision (log log' : list audit_event) : Prop :=
  ∃ e e', e ∈ log ∧ e' ∈ log' ∧ canonical_audit_preimage (fields e) ≠ canonical_audit_preimage (fields e') ∧
    sha256 (canonical_audit_preimage (fields e)) = sha256 (canonical_audit_preimage (fields e')).

(** Two chains with one head are one chain. *)
Lemma chained_agree log : ∀ log', 
  chained 1 GENESIS_PREV_HASH log → chained 1 GENESIS_PREV_HASH log' → log ≠ [] → log' ≠ [] → entry_hash <$> last log = entry_hash <$> last log' →
  Forall (λ e, one_line (fields e)) log → log = log' ∨ collision log log'.
Proof using.
  induction log as [|e log IH] using rev_ind; intros log' Hc Hc' Hne Hne' Hhead Hl; [done|].
  destruct (exists_last Hne') as (log2 & e' & ->). rewrite !last_snoc in Hhead. injection Hhead as Hhead.
  apply chained_app in Hc as (Hc & Hs & Hp & He), Hc' as (Hc' & Hs' & Hp' & He'). apply Forall_app in Hl as [Hl Hle]. apply Forall_cons in Hle as [Hle _].
  pose proof (zlen_nonneg log). pose proof (zlen_nonneg log2).
  assert (Hh : compute_entry_hash (fields e) = compute_entry_hash (fields e')) by congruence.
  apply hex_encode_inj in Hh. destruct (decide (canonical_audit_preimage (fields e) = canonical_audit_preimage (fields e'))) as [Hpre|Hpre].
  2: { right. exists e, e'. rewrite !elem_of_app, !list_elem_of_singleton. split_and!; [by right|by right|done|done]. }
  pose proof (preimage_inj (fields e) (fields e') ltac:(lia) ltac:(lia) Hle Hpre) as Hff.
  assert (e = e') as <- by (destruct e, e'; cbn in *; congruence).
  assert (Hz : zlen log = zlen log2) by lia. destruct (decide (log = [])) as [->|Hlog].
  { left. destruct log2; [done|]. rewrite zlen_cons in Hz. change (zlen []) with 0 in Hz. pose proof (zlen_nonneg log2). lia. }
  assert (Hlog2 : log2 ≠ []) by (intros ->; change (zlen []) with 0 in Hz; destruct log; [done|]; rewrite zlen_cons in Hz; pose proof (zlen_nonneg log); lia).
  assert (Hhead2 : entry_hash <$> last log = entry_hash <$> last log2).
  { rewrite Hp in Hp'. destruct (last log) as [x|] eqn:Ex; [|by apply last_None in Ex]. destruct (last log2) as [y|] eqn:Ey; [|by apply last_None in Ey].
    cbn in *. by rewrite Hp'. }
  destruct (IH log2 Hc Hc' Hlog Hlog2 Hhead2 Hl) as [->|(x & y & Hx & Hy & ? & ?)]; [by left|].
  right. exists x, y. rewrite !elem_of_app. split_and!; [by left|by left|done..].
Qed.

(** * Theorems *)

(** C8 The audit log is a chain and the chain is evidence.  A log that verifies still
    verifies after an event is appended (the numbers fit 64 bits), which gets the next
    number and the hash of the log's head; and a log of one-line fields is fixed by its
    head: any other log with the same last hash that verifies is the same, row by row
    and field by field, unless two of their rows are a collision of SHA-256.  With a
    line feed in a field it is not ([line_feed_moves_between_fields]). *)
Theorem audit_chain_evident log (Hv : verify_audit_chain log = Ok ()) :
  (∀ input now, zlen log + 2 <= I64_MAX →
     ∃ e, append_event log input now = Ok (e, log ++ [e]) ∧ verify_audit_chain (log ++ [e]) = Ok () ∧
       seq (fields e) = zlen log + 1 ∧ ts (fields e) = now ∧ actor (fields e) = in_actor input ∧ action (fields e) = in_action input ∧
       entity (fields e) = in_entity input ∧ params_json (fields e) = in_params_json input ∧ tool_version (fields e) = in_tool_version input) ∧
  (∀ log', verify_audit_chain log' = Ok () → log ≠ [] → log' ≠ [] → entry_hash <$> last log = entry_hash <$> last log' →
     Forall (λ e, one_line (fields e)) log → log = log' ∨ collision log log').
Proof using.
  unfold verify_audit_chain in *. apply verify_rows_spec in Hv as [Hc Hz]; [|done]. pose proof (zlen_nonneg log). split.
  - intros input now Hlen.
    assert (Hlink : latest_link log = Ok (zlen log + 1, default GENESIS_PREV_HASH (entry_hash <$> last log))).
    { unfold latest_link. destruct log as [|e log _] using rev_ind; [done|]. rewrite last_snoc. apply chained_app in Hc as (_ & Hs & _).
      rewrite zlen_app in *. change (zlen [e]) with 1 in *. rewrite Hs. rewrite (proj2 (Z.leb_gt _ _)) by lia. cbn. do 2 f_equal. lia. }
    unfold append_event. rewrite Hlink, bind_ok. eexists. split; [reflexivity|]. cbn [fields fst snd seq ts actor action entity params_json tool_version].
    split_and!; [|done..]. apply verify_rows_spec; [done|]. rewrite zlen_app. change (zlen [_]) with 1. split; [|lia].
    apply chained_app. cbn [fields seq prev_hash entry_hash fst snd]. split_and!; [done|lia|done|done].
  - intros log' Hv' Hne Hne' Hhead Hl. apply verify_rows_spec in Hv' as [Hc' _]; [|done]. by apply chained_agree.
Qed.
End audit.

(** ** Concrete logs *)

(** A toy digest: the sum of the bytes, weighted by their positions. *)
Definition toy_digest (s : bstring) : bstring :=
  let n := foldl (λ n b, (n * 257 + u8 b) mod 2 ^ 256) 7 s in le_split 32 n.
#[local] Instance toy_sha256 : Sha256.
Proof. refine {| sha256 := toy_digest |}. intros s. apply length_le_split. Defined.

Definition sample_input (entity params : bstring) : audit_event_input :=
  {| in_actor := bytes_of "system"; in_action := bytes_of "cull.start"; in_entity := entity; in_params_json := params;
     in_tool_version := bytes_of "0.1.0" |}.
Definition appended (log : list audit_event) (input : audit_event_input) : list audit_event :=
  match append_event log input (bytes_of "2026-07-19T12:00:00Z") with Ok (_, log) => log | _ => [] end.
Definition sample_log : list audit_event := appended (appended [] (sample_input (bytes_of "job:1") (bytes_of "{}"))) (sample_input (bytes_of "job:2") (bytes_of "{}")).

Lemma audit_chain_evident_witness :
  verify_audit_chain sample_log = Ok () ∧ Forall (λ e, one_line (fields e)) sample_log ∧
  ∃ e, append_event sample_log (sample_input (bytes_of "job:3") []) [] = Ok (e, sample_log ++ [e]) ∧
    verify_audit_chain (sample_log ++ [e]) = Ok () ∧ seq (fields e) = 3.
Proof.
  assert (Hv : verify_audit_chain sample_log = Ok ()) by (vm_compute; reflexivity).
  split; [exact Hv|]. split; [unfold one_line; apply (bool_decide_unpack _); vm_compute; exact I|].
  destruct (proj1 (audit_chain_evident sample_log Hv) (sample_input (bytes_of "job:3") []) []) as (e & Happ & Hok & Hs & _).
  - vm_compute. discriminate.
  - exists e. split_and!; [exact Happ|exact Hok|]. rewrite Hs. vm_compute. reflexivity.
Defined.

(** The preimage does not escape line feeds: in a log with an entity over two lines, the
    second line can be moved to the parameters without any collision, and the log still
    verifies with the same head. *)
Definition moved_fields (log : list audit_event) (entity params : bstring) : list audit_event :=
  map (λ e, {| fields := {| seq := seq (fields e); ts := ts (fields e); actor := actor (fields e); action := action (fields e); entity := entity;
                            params_json := params; tool_version := tool_version (fields e); prev_hash := prev_hash (fields e) |};
               entry_hash := entry_hash e |}) log.
Definition two_line_log : list audit_event :=
  appended [] (sample_input (bytes_of "path:a" ++ [NEWLINE] ++ bytes_of "params=b") (bytes_of "{}")).
Example line_feed_moves_between_fields :
  let tampered := moved_fields two_line_log (bytes_of "path:a") (bytes_of "b" ++ [NEWLINE] ++ bytes_of "params={}") in
  verify_audit_chain two_line_log = Ok () ∧ verify_audit_chain tampered = Ok () ∧ two_line_log ≠ tampered.
Proof. vm_compute. split_and!; [reflexivity|reflexivity|discriminate]. Qed.

(** Dropping the last rows of a log is not noticed. *)
Example truncation_verifies : verify_audit_chain sample_log = Ok () ∧ verify_audit_chain (take 1 sample_log) = Ok ().
Proof. vm_compute. by split. Qed.
