(* ===== verification/Cull.v ===== *)
(** * Culling (matter-cull/src: rules.rs, eval.rs, denist.rs, family.rs)

    The cull stage of a matter: the rules and their validation, the evaluation of one
    item, and the family pass, which carries a decision from parents to children
    until nothing changes.  Timestamps are parsed by chrono, a parameter. *)

From S2P Require Import Prelude Text Grouping.
#[local] Open Scope Z_scope.
#[local] Set Warnings "-register-all".

(** ** Data *)

Definition EXACT_DUPLICATE : bstring := bytes_of "exact_duplicate".
Definition DATE_OUT_OF_RANGE : bstring := bytes_of "date_out_of_range".
Definition DATE_MISSING : bstring := bytes_of "date_missing".
Definition CUSTODIAN : bstring := bytes_of "custodian".
Definition PATH : bstring := bytes_of "path".
Definition FILE_CATEGORY : bstring := bytes_of "file_category".
Definition MIME : bstring := bytes_of "mime".
Definition SIZE : bstring := bytes_of "size".
Definition EMPTY : bstring := bytes_of "empty".
Definition STATUS : bstring := bytes_of "status".
Definition NEAR_DUP_MEMBER : bstring := bytes_of "near_dup_member".
Definition DENIST : bstring := bytes_of "denist".
Definition FAMILY_WITH_CULLED_PARENT : bstring := bytes_of "family_with_culled_parent".

Definition INCLUDED : bstring := bytes_of "included".
Definition CULLED : bstring := bytes_of "culled".
Definition DUPLICATE : bstring := bytes_of "duplicate".
Definition PIVOT : bstring := bytes_of "pivot".
Definition MEMBER : bstring := bytes_of "member".

(** [FamilyPolicy], [DateField], [MissingDatePolicy], [ListMode] *)
Inductive family_policy := KeepChildrenWithIncludedParent | Independent | CullChildrenWithParent.
Inductive date_field := SentAt | ReceivedAt | CreatedAt | BestEffort.
Inductive missing_date_policy := MissingInclude | MissingCull.
Inductive list_mode := ListInclude | ListExclude.

(** [DateRule], [StringListRule] (also [PathContainsRule] and [MimePrefixesRule],
    which have the same fields), [SizeBytesRule], [EmptyRule], [StatusesRule],
    [NearDupRule] *)
Record date_rule := { dr_enabled : bool; dr_field : date_field; dr_start : option bstring; dr_end : option bstring;
                      dr_missing_policy : missing_date_policy }.
Record list_rule := { lr_enabled : bool; lr_mode : list_mode; lr_values : list bstring }.
Record size_bytes_rule := { sb_enabled : bool; sb_min : option Z; sb_max : option Z }.
Record empty_rule := { er_enabled : bool; zero_size : bool; no_text_and_no_native : bool }.
Record statuses_rule := { st_enabled : bool; st_include : list bstring }.
Record near_dup_rule := { nd_enabled : bool; cull_members : bool; keep_pivots_only : bool }.

(** [CullRules], without the fields that no rule reads. *)
Record cull_rules := {
  cr_version : Z;
  exclude_exact_duplicates : bool;
  cr_date : date_rule;
  cr_custodians : list_rule;
  path_contains : list_rule;
  file_categories : list_rule;
  mime_prefixes : list_rule;
  cr_size_bytes : size_bytes_rule;
  cr_empty : empty_rule;
  cr_statuses : statuses_rule;
  near_dup : near_dup_rule;
  thread_enabled : bool;
  denist_enabled : bool;
  cr_family_policy : family_policy }.

(** [CullRules::default] *)
Definition default_rules : cull_rules :=
  {| cr_version := 1; exclude_exact_duplicates := true;
     cr_date := {| dr_enabled := false; dr_field := BestEffort; dr_start := None; dr_end := None; dr_missing_policy := MissingInclude |};
     cr_custodians := {| lr_enabled := false; lr_mode := ListInclude; lr_values := [] |};
     path_contains := {| lr_enabled := false; lr_mode := ListExclude; lr_values := [] |};
     file_categories := {| lr_enabled := false; lr_mode := ListInclude; lr_values := [] |};
     mime_prefixes := {| lr_enabled := false; lr_mode := ListExclude; lr_values := [] |};
     cr_size_bytes := {| sb_enabled := false; sb_min := None; sb_max := None |};
     cr_empty := {| er_enabled := false; zero_size := true; no_text_and_no_native := false |};
     cr_statuses := {| st_enabled := true; st_include := map bytes_of ["extracted"; "partial"; "normalized"]%string |};
     near_dup := {| nd_enabled := false; cull_members := false; keep_pivots_only := false |};
     thread_enabled := false; denist_enabled := false; cr_family_policy := KeepChildrenWithIncludedParent |}.

(** [CullCandidate], the fields that the rules read. *)
Record cull_candidate := {
  cc_id : bstring;
  parent_item_id : option bstring;
  cc_dedup_role : option bstring;
  cc_near_dup_role : option bstring;
  cc_sent_at : option bstring;
  cc_received_at : option bstring;
  cc_created_at : option bstring;
  cc_modified_at : option bstring;
  cc_path : option bstring;
  cc_custodian : option bstring;
  cc_file_category : option bstring;
  cc_mime_type : option bstring;
  cc_size_bytes : option Z;
  cc_status : bstring;
  native_sha256 : option bstring;
  text_sha256 : option bstring }.

(** [ItemCullDecision], with its [included], [culled] and [is_culled]. *)
Record cull_decision := { cd_status : bstring; cd_reasons : list bstring }.
Definition included : cull_decision := {| cd_status := INCLUDED; cd_reasons := [] |}.
Definition culled (reasons : list bstring) : cull_decision := {| cd_status := CULLED; cd_reasons := reasons |}.
Definition is_culled (d : cull_decision) : bool := bool_decide (cd_status d = CULLED).

(** The cases of [CullError] that the rules raise, without their texts. *)
Inductive cull_error :=
| UnsupportedVersion (v : Z)
| ThreadNotImplemented
| BoundEmpty
| BoundNaive (t : bstring)
| BoundInvalid (t : bstring)
| DateStart (e : cull_error)
| DateEnd (e : cull_error)
| DatesReversed
| SizesReversed
| DenistHashFormat (md5_like sha1_like : Z)
| DenistNoDigest.
Abbreviation cull_res := (res cull_error).

(** ** Timestamps *)

(** chrono: the UTC instants of [DateTime::parse_from_rfc3339] and of
    [str::parse::<DateTime<FixedOffset>>]. *)
Class Chrono := { parse_from_rfc3339 : bstring → option Z; parse_fixed_offset : bstring → option Z }.

Definition to_ascii_lowercase (s : bstring) : bstring := map ascii_lower s.
Definition eq_ignore_ascii_case (a b : bstring) : bool := bool_decide (to_ascii_lowercase a = to_ascii_lowercase b).

(** The last position of one of two ASCII characters. *)
Fixpoint rfind_either (a b : byte) (s : bstring) : option nat :=
  match s with
  | [] => None
  | x :: s =>
      match rfind_either a b s with
      | Some i => Some (S i)
      | None => if bool_decide (x = a) || bool_decide (x = b) then Some 0%nat else None
      end
  end.

(** [is_naive_datetime] *)
Definition is_naive_datetime (s : bstring) : bool :=
  if ends_with [Byte.x5a] s || ends_with [Byte.x7a] s then false else
  match rfind_either Byte.x2b Byte.x2d s with
  | Some pos =>
      match (match find_byte Byte.x54 s with Some i => Some i | None => find_byte Byte.x74 s end) with
      | Some tpos => negb ((tpos <? pos)%nat && (4 <=? zlen (drop (pos + 1) s)))
      | None => true
      end
  | None => true
  end.

Section eval.
Context `{Chrono}.

(** [parse_bound_instant], [parse_item_instant] *)
Definition parse_bound_instant (s : bstring) : cull_res Z :=
  let t := str_trim s in
  if bool_decide (t = []) then Err BoundEmpty else
  if is_naive_datetime t then Err (BoundNaive t) else
  match parse_from_rfc3339 t with
  | Some dt => Ok dt
  | None => match parse_fixed_offset t with Some dt => Ok dt | None => Err (BoundInvalid t) end
  end.
Definition parse_item_instant (s : bstring) : option Z :=
  let t := str_trim s in
  if bool_decide (t = []) then None else
  match parse_from_rfc3339 t with
  | Some dt => Some dt
  | None => parse_from_rfc3339 (t ++ [Byte.x5a])
  end.

Definition map_err (f : cull_error → cull_error) {A} (r : cull_res A) : cull_res A :=
  match r with Err e => Err (f e) | _ => r end.
Definition check_bound (f : cull_error → cull_error) (b : option bstring) : cull_res unit :=
  match b with Some s => _ ← map_err f (parse_bound_instant s); Ok () | None => Ok () end.

(** [CullRules::validate] *)
Definition validate (r : cull_rules) : cull_res unit :=
  if negb (cr_version r =? 1) then Err (UnsupportedVersion (cr_version r)) else
  if thread_enabled r then Err ThreadNotImplemented else
  _ ← (if dr_enabled (cr_date r) then
         _ ← check_bound DateStart (dr_start (cr_date r));
         _ ← check_bound DateEnd (dr_end (cr_date r));
         match dr_start (cr_date r), dr_end (cr_date r) with
         | Some start, Some fin =>
             a ← parse_bound_instant start; b ← parse_bound_instant fin;
             if b <=? a then Err DatesReversed else Ok ()
         | _, _ => Ok ()
         end
       else Ok ());
  if sb_enabled (cr_size_bytes r) then
    match sb_min (cr_size_bytes r), sb_max (cr_size_bytes r) with
    | Some lo, Some hi => if hi <? lo then Err SizesReversed else Ok ()
    | _, _ => Ok ()
    end
  else Ok ().

(** ** One item *)

Abbreviation reasons := (list bstring) (only parsing).
Definition push_if (c : bool) (r : bstring) (rs : reasons) : reasons := if c then rs ++ [r] else rs.

(** [pick_date_field], [eval_date] *)
Definition or_else {A} (o o' : option A) : option A := match o with Some _ => o | None => o' end.
Definition pick_date_field (item : cull_candidate) (f : date_field) : option bstring :=
  match f with
  | SentAt => cc_sent_at item
  | ReceivedAt => cc_received_at item
  | CreatedAt => cc_created_at item
  | BestEffort => or_else (or_else (or_else (cc_sent_at item) (cc_received_at item)) (cc_created_at item)) (cc_modified_at item)
  end.

Definition eval_date (item : cull_candidate) (r : date_rule) (rs : reasons) : reasons :=
  let missing := push_if (match dr_missing_policy r with MissingInclude => false | MissingCull => true end) DATE_MISSING rs in
  match pick_date_field item (dr_field r) with
  | None => missing
  | Some raw =>
      match parse_item_instant raw with
      | None => missing
      | Some instant =>
          let before := match dr_start r with
                        | Some s => match parse_bound_instant s with Ok start => instant <? start | _ => false end
                        | None => false end in
          if before then rs ++ [DATE_OUT_OF_RANGE] else
          push_if (match dr_end r with
                   | Some s => match parse_bound_instant s with Ok fin => fin <=? instant | _ => false end
                   | None => false end) DATE_OUT_OF_RANGE rs
      end
  end.

(** [eval_string_list], [eval_path], [eval_mime] *)
Definition eval_string_list (value : option bstring) (r : list_rule) (code : bstring) (rs : reasons) : reasons :=
  let in_list := existsb (λ v, eq_ignore_ascii_case v (default [] value)) (lr_values r) in
  push_if (match lr_mode r with ListInclude => negb in_list | ListExclude => in_list end) code rs.
Definition eval_path (item : cull_candidate) (r : list_rule) (rs : reasons) : reasons :=
  let path := to_ascii_lowercase (default [] (cc_path item)) in
  let matched := existsb (λ p, contains (to_ascii_lowercase p) path) (lr_values r) in
  push_if (match lr_mode r with ListExclude => matched | ListInclude => negb matched end) PATH rs.
Definition eval_mime (item : cull_candidate) (r : list_rule) (rs : reasons) : reasons :=
  let mime := to_ascii_lowercase (default [] (cc_mime_type item)) in
  let matched := existsb (λ p, starts_with (to_ascii_lowercase p) mime) (lr_values r) in
  push_if (match lr_mode r with ListExclude => matched | ListInclude => negb matched end) MIME rs.

(** [eval_size], [eval_empty], [eval_near_dup] *)
Definition eval_size (item : cull_candidate) (r : size_bytes_rule) (rs : reasons) : reasons :=
  let beyond (bound : option Z) (p : Z → Z → bool) : bool :=
    match bound with Some b => match cc_size_bytes item with Some s => p s b | None => true end | None => false end in
  push_if (beyond (sb_min r) Z.ltb || beyond (sb_max r) Z.gtb) SIZE rs.
Definition eval_empty (item : cull_candidate) (r : empty_rule) (rs : reasons) : reasons :=
  if zero_size r && bool_decide (cc_size_bytes item = Some 0) then rs ++ [EMPTY] else
  push_if (no_text_and_no_native r && bool_decide (text_sha256 item = None) && bool_decide (native_sha256 item = None)) EMPTY rs.
Definition eval_near_dup (item : cull_candidate) (r : near_dup_rule) (rs : reasons) : reasons :=
  let rs := push_if (cull_members r && bool_decide (cc_near_dup_role item = Some MEMBER)) NEAR_DUP_MEMBER rs in
  push_if (keep_pivots_only r && negb (bool_decide (cc_near_dup_role item = Some PIVOT)) && negb (bool_decide (NEAR_DUP_MEMBER ∈ rs)))
    NEAR_DUP_MEMBER rs.

(** [is_hex], [u8::is_ascii_hexdigit] *)
Definition is_ascii_hexdigit (b : byte) : bool :=
  ((48 <=? u8 b) && (u8 b <=? 57)) || ((65 <=? u8 b) && (u8 b <=? 70)) || ((97 <=? u8 b) && (u8 b <=? 102)).
Definition is_hex (s : bstring) (len : Z) : bool := (zlen s =? len) && forallb is_ascii_hexdigit s.

(** [parse_sha256_list]: the digests, the lines that look like MD5 and like SHA-1. *)
Fixpoint take_while {A} (p : A → bool) (l : list A) : list A :=
  match l with x :: l => if p x then x :: take_while p l else [] | [] => [] end.
Definition denist_token (line : bstring) : bstring :=
  let s := str_trim line in
  let s := match find_byte Byte.x23 s with Some pos => str_trim (take pos s) | None => s end in
  let token := str_trim (concat (take_while (λ c, negb (is_whitespace c)) (drop_while is_whitespace (chars s)))) in
  let quote b := bool_decide (b = Byte.x22) || bool_decide (b = Byte.x27) || bool_decide (b = Byte.x2c) in
  drop_while_end quote (drop_while quote token).
Definition denist_line (acc : gset bstring * Z * Z) (line : bstring) : gset bstring * Z * Z :=
  let '(hashes, md5_like, sha1_like) := acc in
  let lower := to_ascii_lowercase (denist_token line) in
  if is_hex lower 64 then ({[ lower ]} ∪ hashes, md5_like, sha1_like)
  else if is_hex lower 32 then (hashes, md5_like + 1, sha1_like)
  else if is_hex lower 40 then (hashes, md5_like, sha1_like + 1) else acc.
Definition parse_sha256_list (text : bstring) : cull_res (gset bstring) :=
  let '(hashes, md5_like, sha1_like) := foldl denist_line (∅, 0, 0) (lines_by Byte.x0a Byte.x0d [] text) in
  if bool_decide (hashes = ∅) then
    if (0 <? md5_like) || (0 <? sha1_like) then Err (DenistHashFormat md5_like sha1_like) else Err DenistNoDigest
  else Ok hashes.

(** [matches_denist]; the list is the set of its lower-case digests. *)
Definition matches_denist (hashes : gset bstring) (native : option bstring) : bool :=
  match native with Some h => bool_decide (to_ascii_lowercase (str_trim h) ∈ hashes) | None => false end.

(** [evaluate_item] *)
Definition evaluate_item (item : cull_candidate) (r : cull_rules) (denist : option (gset bstring)) : cull_decision :=
  let rs := [] in
  let rs := push_if (st_enabled (cr_statuses r) && negb (existsb (λ s, eq_ignore_ascii_case s (cc_status item)) (st_include (cr_statuses r)))) STATUS rs in
  let rs := push_if (exclude_exact_duplicates r && bool_decide (cc_dedup_role item = Some DUPLICATE)) EXACT_DUPLICATE rs in
  let rs := if dr_enabled (cr_date r) then eval_date item (cr_date r) rs else rs in
  let rs := if lr_enabled (cr_custodians r) then eval_string_list (cc_custodian item) (cr_custodians r) CUSTODIAN rs else rs in
  let rs := if lr_enabled (path_contains r) then eval_path item (path_contains r) rs else rs in
  let rs := if lr_enabled (file_categories r) then eval_string_list (cc_file_category item) (file_categories r) FILE_CATEGORY rs else rs in
  let rs := if lr_enabled (mime_prefixes r) then eval_mime item (mime_prefixes r) rs else rs in
  let rs := if sb_enabled (cr_size_bytes r) then eval_size item (cr_size_bytes r) rs else rs in
  let rs := if er_enabled (cr_empty r) then eval_empty item (cr_empty r) rs else rs in
  let rs := if nd_enabled (near_dup r) then eval_near_dup item (near_dup r) rs else rs in
  let rs := push_if (denist_enabled r && match denist with Some l => matches_denist l (native_sha256 item) | None => false end) DENIST rs in
  if bool_decide (rs = []) then included else culled rs.
End eval.

(** ** The family pass *)

Abbreviation decisions := (gmap bstring cull_decision).

(** A pass of the loop over the candidates whose parent is in the set at its start;
    [step] gives the new decision and whether that counts as a change. *)
Definition family_round (good : cull_decision → bool) (step : option cull_decision → option cull_decision * bool)
    (candidates : list cull_candidate) (ds : decisions) : decisions * bool :=
  let ids : gset bstring := dom (filter (λ p : bstring * cull_decision, good p.2 = true) ds) in
  foldl (λ acc c,
      match parent_item_id c with
      | Some p =>
          if decide (p ∈ ids) then
            let '(d, changed) := step (acc.1 !! cc_id c) in
            (partial_alter (λ _, d) (cc_id c) acc.1, acc.2 || changed)
          else acc
      | None => acc
      end) (ds, false) candidates.
Fixpoint family_loop (fuel : nat) (good : cull_decision → bool) (step : option cull_decision → option cull_decision * bool)
    (candidates : list cull_candidate) (ds : decisions) : option decisions :=
  match fuel with
  | O => None
  | S fuel =>
      let '(ds, changed) := family_round good step candidates ds in
      if changed then family_loop fuel good step candidates ds else Some ds
  end.

(** The bodies of [keep_children_with_included_parent] and
    [cull_children_with_parent] for one child. *)
Definition keep_child (o : option cull_decision) : option cull_decision * bool :=
  if match o with Some d => negb (is_culled d) | None => false end then
    if match o with Some d => negb (bool_decide (cd_reasons d = [])) | None => false end then (Some included, true) else (o, false)
  else (Some included, true).
Definition cull_child (o : option cull_decision) : option cull_decision * bool :=
  let entry := default included o in
  let has := bool_decide (FAMILY_WITH_CULLED_PARENT ∈ cd_reasons entry) in
  let was_culled := is_culled entry && has in
  let rs := if has then cd_reasons entry else cd_reasons entry ++ [FAMILY_WITH_CULLED_PARENT] in
  let status := if bool_decide (cd_status entry = CULLED) then cd_status entry else CULLED in
  (Some {| cd_status := status; cd_reasons := rs |}, negb was_culled).

(** [keep_children_with_included_parent], [cull_children_with_parent] *)
Definition keep_children_with_included_parent (candidates : list cull_candidate) (ds : decisions) : option decisions :=
  family_loop (S (length candidates)) (λ d, negb (is_culled d)) keep_child candidates ds.
Definition cull_children_with_parent (candidates : list cull_candidate) (ds : decisions) : option decisions :=
  family_loop (S (length candidates)) is_culled cull_child candidates ds.

(** [apply_family_policy] *)
Definition apply_family_policy (candidates : list cull_candidate) (ds : decisions) (policy : family_policy) : option decisions :=
  match policy with
  | Independent => Some ds
  | KeepChildrenWithIncludedParent => keep_children_with_included_parent candidates ds
  | CullChildrenWithParent => cull_children_with_parent candidates ds
  end.

(** * Lemmas *)

(** ** A family pass reaches the descendants of the good decisions *)

Section pass.
Context (good : cull_decision → bool) (step : option cull_decision → option cull_decision * bool).
(** A step that changes nothing met a good decision; each step makes one; a second
    step changes nothing. *)
Context (unchanged : ∀ o, (step o).2 = false → (step o).1 = o).
Context (makes_good : ∀ o, ∃ d, (step o).1 = Some d ∧ good d = true).
Context (settles : ∀ o, (step (step o).1).2 = false).
Context (candidates : list cull_candidate) (ds0 : decisions).

Definition settle (o : option cull_decision) : option cull_decision := (step o).1.

(** The items that are good, or have a candidate parent that is reached. *)
Inductive reached : bstring → Prop :=
| reached_good id d : ds0 !! id = Some d → good d = true → reached id
| reached_child c p : c ∈ candidates → parent_item_id c = Some p → reached p → reached (cc_id c).
Definition heir (id : bstring) : Prop := ∃ c p, c ∈ candidates ∧ cc_id c = id ∧ parent_item_id c = Some p ∧ reached p.

(** Each decision is the first one, or that of an heir. *)
Definition on_the_way (ds : decisions) : Prop := ∀ id, ds !! id = ds0 !! id ∨ heir id ∧ ds !! id = settle (ds0 !! id).
Definition good_ids (ds : decisions) : gset bstring := dom (filter (λ p : bstring * cull_decision, good p.2 = true) ds).
Definition pending (ds : decisions) : nat := length (filter (λ c, (step (ds !! cc_id c)).2 = true) candidates).

Lemma good_ids_spec ds id : id ∈ good_ids ds ↔ ∃ d, ds !! id = Some d ∧ good d = true.
Proof using. unfold good_ids. rewrite elem_of_dom. split; [intros [d Hd%map_lookup_filter_Some]; by exists d|intros (d & ? & ?); exists d; by apply map_lookup_filter_Some]. Qed.

Lemma settle_again o : settle (settle o) = settle o.
Proof using unchanged settles. unfold settle. apply unchanged, settles. Qed.

Lemma good_reached ds id : on_the_way ds → id ∈ good_ids ds → reached id.
Proof using.
  intros Hway (d & Hd & Hg)%good_ids_spec. destruct (Hway id) as [Heq|[(c & p & Hc & <- & Hp & Hr) _]]; [|by eapply reached_child].
  rewrite Heq in Hd. by eapply reached_good.
Qed.

Definition round_step (ids : gset bstring) (acc : decisions * bool) (c : cull_candidate) : decisions * bool :=
  match parent_item_id c with
  | Some p =>
      if decide (p ∈ ids) then
        let '(d, changed) := step (acc.1 !! cc_id c) in (partial_alter (λ _, d) (cc_id c) acc.1, acc.2 || changed)
      else acc
  | None => acc
  end.
Lemma family_round_eq ds : family_round good step candidates ds = foldl (round_step (good_ids ds)) (ds, false) candidates.
Proof using. done. Qed.

(** One child: the way is kept; a change leaves less to do; no change leaves the map. *)
Lemma round_step_spec ids ds b c :
  (∀ p, p ∈ ids → reached p) → c ∈ candidates → on_the_way ds →
  ∃ ds' b', round_step ids (ds, b) c = (ds', b || b') ∧ on_the_way ds' ∧
    (if b' then (pending ds' < pending ds)%nat
     else ds' = ds ∧ ∀ p, parent_item_id c = Some p → p ∈ ids → (step (ds !! cc_id c)).2 = false).
Proof using unchanged makes_good settles.
  intros Hids Hc Hway. unfold round_step. destruct (parent_item_id c) as [p|] eqn:Hp; [|exists ds, false; rewrite orb_false_r; by split_and!].
  case_decide as Hin; [|exists ds, false; rewrite orb_false_r; split_and!; [done..|by intros ? [= <-]]]. cbn [fst snd].
  destruct (step (ds !! cc_id c)) as [d ch] eqn:Hs. eexists _, ch. split; [done|].
  assert (Hd : d = settle (ds !! cc_id c)) by (unfold settle; by rewrite Hs).
  assert (Hheir : heir (cc_id c)) by (exists c, p; split_and!; [done..|by apply Hids]).
  split.
  - intros id. destruct (decide (id = cc_id c)) as [->|Hne]; [|rewrite lookup_partial_alter_ne by done; apply Hway].
    rewrite lookup_partial_alter_eq. right. split; [done|]. rewrite Hd. destruct (Hway (cc_id c)) as [->|[_ ->]]; [done|apply settle_again].
  - destruct ch.
    + assert (Hle : ∀ l, (length (filter (λ c', (step (partial_alter (λ _, d) (cc_id c) ds !! cc_id c')).2 = true) l) <=
        length (filter (λ c', (step (ds !! cc_id c')).2 = true) l))%nat ∧
        (c ∈ l → length (filter (λ c', (step (partial_alter (λ _, d) (cc_id c) ds !! cc_id c')).2 = true) l) <
        length (filter (λ c', (step (ds !! cc_id c')).2 = true) l))%nat).
      { induction l as [|x l [IH1 IH2]]; [by split; [|set_solver]|]. rewrite !filter_cons.
        destruct (decide (cc_id x = cc_id c)) as [Hx|Hx].
        - rewrite Hx, lookup_partial_alter_eq, Hs. rewrite decide_False by (rewrite Hd; unfold settle; by rewrite settles).
          rewrite decide_True by done. cbn [length]. split; [lia|intros _; lia].
        - rewrite lookup_partial_alter_ne by done. split; [case_decide; cbn [length]; lia|].
          intros [->|Hin']%elem_of_cons; [done|]. specialize (IH2 Hin'). case_decide; cbn [length]; lia. }
      by apply Hle.
    + split; [|by intros ? _ _]. assert (d = ds !! cc_id c) as -> by (rewrite Hd; unfold settle; apply unchanged; by rewrite Hs).
      apply map_eq. intros id. destruct (decide (id = cc_id c)) as [->|Hne]; [by rewrite lookup_partial_alter_eq|by rewrite lookup_partial_alter_ne].
Qed.

Lemma round_spec ids l : ∀ ds b,
  (∀ p, p ∈ ids → reached p) → l ⊆ candidates → on_the_way ds →
  ∃ ds' b', foldl (round_step ids) (ds, b) l = (ds', b || b') ∧ on_the_way ds' ∧
    (if b' then (pending ds' < pending ds)%nat
     else ds' = ds ∧ ∀ c p, c ∈ l → parent_item_id c = Some p → p ∈ ids → (step (ds !! cc_id c)).2 = false).
Proof using unchanged makes_good settles.
  induction l as [|c l IH]; intros ds b Hids Hl Hway.
  { exists ds, false. rewrite orb_false_r. split_and!; [done..|]. intros c p Hc. set_solver. }
  destruct (round_step_spec ids ds b c Hids ltac:(set_solver) Hway) as (ds1 & b1 & Hs1 & Hway1 & H1). cbn [foldl]. rewrite Hs1.
  destruct (IH ds1 (b || b1) Hids ltac:(set_solver) Hway1) as (ds2 & b2 & Hs2 & Hway2 & H2).
  exists ds2, (b1 || b2). rewrite orb_assoc. split_and!; [done|done|]. destruct b1, b2; cbn [orb].
  - lia.
  - by destruct H2 as [-> _].
  - by destruct H1 as [-> _].
  - destruct H1 as [-> H1], H2 as [-> H2]. split; [done|]. intros x p [->|Hx]%elem_of_cons Hp Hin; [by eapply H1|by eapply H2].
Qed.

(** The loop ends with every heir settled and every other decision as it was. *)
Lemma family_loop_spec fuel : ∀ ds,
  on_the_way ds → (pending ds < fuel)%nat →
  ∃ ds', family_loop fuel good step candidates ds = Some ds' ∧
    (∀ id, heir id → ds' !! id = settle (ds0 !! id)) ∧ (∀ id, ¬ heir id → ds' !! id = ds0 !! id) ∧
    (∀ id, reached id ↔ ∃ d, ds' !! id = Some d ∧ good d = true).
Proof using unchanged makes_good settles.
  induction fuel as [|fuel IH]; intros ds Hway Hf; [lia|]. cbn [family_loop]. rewrite family_round_eq.
  destruct (round_spec (good_ids ds) candidates ds false) as (ds1 & b & -> & Hway1 & Hb); [by intros p; apply good_reached|done|done|].
  cbn [orb]. destruct b; [apply IH; [done|lia]|]. destruct Hb as [-> Hdone]. exists ds. split; [done|].
  assert (Hgood : ∀ id, (step (ds !! id)).2 = false → id ∈ good_ids ds).
  { intros id Hid. apply good_ids_spec. destruct (makes_good (ds !! id)) as (d & Hd & Hg). rewrite (unchanged _ Hid) in Hd. by exists d. }
  assert (Hreach : ∀ id, reached id → id ∈ good_ids ds).
  { induction 1 as [id d Hd Hg|c p Hc Hp _ IHp]; [|apply Hgood; by eapply Hdone].
    apply good_ids_spec. destruct (Hway id) as [->|[_ ->]]; [by exists d|apply makes_good]. }
  assert (Hsettled : ∀ id, heir id → ds !! id = settle (ds0 !! id)).
  { intros id (c & p & Hc & <- & Hp & Hr). destruct (Hway (cc_id c)) as [Heq|[_ ->]]; [|done].
    rewrite <-Heq. symmetry. apply unchanged. eapply Hdone; [done..|by apply Hreach]. }
  split_and!; [done| |].
  - intros id Hn. by destruct (Hway id) as [?|[? _]].
  - intros id. split; [intros Hr; by apply good_ids_spec, Hreach|]. intros Hg. by apply (good_reached ds id Hway), good_ids_spec.
Qed.

Lemma family_pass_spec :
  ∃ ds', family_loop (S (length candidates)) good step candidates ds0 = Some ds' ∧
    (∀ id, heir id → ds' !! id = settle (ds0 !! id)) ∧ (∀ id, ¬ heir id → ds' !! id = ds0 !! id) ∧
    (∀ id, reached id ↔ ∃ d, ds' !! id = Some d ∧ good d = true).
Proof using unchanged makes_good settles.
  apply family_loop_spec; [by left|]. unfold pending. pose proof (length_filter (λ c, (step (ds0 !! cc_id c)).2 = true) candidates). lia.
Qed.
End pass.

(** The decision of an heir of an included parent, and of a culled one. *)
Lemma keep_settled o : ∃ d, settle keep_child o = Some d ∧ is_culled d = false ∧ cd_reasons d = [].
Proof.
  unfold settle, keep_child. destruct o as [d|]; [|by exists included]. destruct (is_culled d) eqn:Hc; cbn [negb]; [by exists included|].
  case_bool_decide; cbn [negb fst]; [by exists d|by exists included].
Qed.
Lemma keep_laws :
  (∀ o, (keep_child o).2 = false → (keep_child o).1 = o) ∧ (∀ o, (keep_child (keep_child o).1).2 = false).
Proof.
  split; intros o; unfold keep_child; destruct o as [d|]; try done; destruct (is_culled d) eqn:Hc; cbn [negb fst snd]; try done;
    case_bool_decide; cbn [negb fst snd]; try done. rewrite Hc. cbn [negb]. by rewrite bool_decide_true.
Qed.

(** The mark of a child of a culled parent. *)
Definition mark (d : cull_decision) : cull_decision :=
  culled (if decide (FAMILY_WITH_CULLED_PARENT ∈ cd_reasons d) then cd_reasons d else cd_reasons d ++ [FAMILY_WITH_CULLED_PARENT]).
Lemma cull_settled o : settle cull_child o = Some (mark (default included o)).
Proof.
  unfold settle, cull_child, mark. cbn [fst]. f_equal. unfold culled. f_equal; [by case_bool_decide|].
  case_bool_decide; [by rewrite decide_True|by rewrite decide_False].
Qed.
Lemma mark_reasons d : FAMILY_WITH_CULLED_PARENT ∈ cd_reasons (mark d).
Proof. unfold mark. cbn [cd_reasons culled]. case_decide; [done|]. apply elem_of_app. right. by left. Qed.
Lemma cull_laws :
  (∀ o, (cull_child o).2 = false → (cull_child o).1 = o) ∧ (∀ o, (cull_child (cull_child o).1).2 = false).
Proof.
  split; intros o.
  - unfold cull_child. cbn [fst snd]. intros Hn. apply negb_false_iff, andb_true_iff in Hn as [Hc Hr]. apply bool_decide_eq_true in Hc, Hr.
    rewrite !bool_decide_true by done. destruct o as [d|]; [by destruct d|]. by vm_compute in Hc.
  - pose proof (cull_settled o) as Hs. unfold settle in Hs. rewrite Hs. unfold cull_child. cbn [default snd].
    rewrite (bool_decide_true (FAMILY_WITH_CULLED_PARENT ∈ _)) by apply mark_reasons. unfold is_culled. by rewrite bool_decide_true.
Qed.

(** ** The reasons of one item *)

Section reasons.
Context `{Chrono}.

Lemma push_if_app c r rs : push_if c r rs = rs ++ (if c then [r] else []).
Proof using. unfold push_if. destruct c; [done|by rewrite app_nil_r]. Qed.

(** What each rule adds. *)
Definition out_of_window (r : date_rule) (t : Z) : bool :=
  match dr_start r with Some s => match parse_bound_instant s with Ok b => t <? b | _ => false end | None => false end ||
  match dr_end r with Some s => match parse_bound_instant s with Ok b => b <=? t | _ => false end | None => false end.
Definition item_instant (item : cull_candidate) (r : date_rule) : option Z := pick_date_field item (dr_field r) ≫= parse_item_instant.
Definition date_reasons (item : cull_candidate) (r : date_rule) : list bstring :=
  match item_instant item r with
  | None => match dr_missing_policy r with MissingInclude => [] | MissingCull => [DATE_MISSING] end
  | Some t => if out_of_window r t then [DATE_OUT_OF_RANGE] else []
  end.

Lemma eval_date_app item r rs : eval_date item r rs = rs ++ date_reasons item r.
Proof using.
  assert (Hmissing : push_if (match dr_missing_policy r with MissingInclude => false | MissingCull => true end) DATE_MISSING rs =
    rs ++ match dr_missing_policy r with MissingInclude => [] | MissingCull => [DATE_MISSING] end) by (rewrite push_if_app; by destruct (dr_missing_policy r)).
  unfold eval_date, date_reasons, item_instant, out_of_window. cbv zeta.
  destruct (pick_date_field item (dr_field r)) as [raw|]; cbn [mbind option_bind]; [|done]. destruct (parse_item_instant raw) as [t|]; [|done].
  destruct (match dr_start r with Some _ => _ | None => _ end); cbn [orb]; [done|]. apply push_if_app.
Qed.

Definition listed_out (r : list_rule) (in_list : bool) : bool := match lr_mode r with ListInclude => negb in_list | ListExclude => in_list end.
Definition near_dup_out (item : cull_candidate) (r : near_dup_rule) : bool :=
  (cull_members r && bool_decide (cc_near_dup_role item = Some MEMBER)) || (keep_pivots_only r && negb (bool_decide (cc_near_dup_role item = Some PIVOT))).
Lemma eval_near_dup_app item r rs : NEAR_DUP_MEMBER ∉ rs → eval_near_dup item r rs = rs ++ if near_dup_out item r then [NEAR_DUP_MEMBER] else [].
Proof using.
  intros Hn. unfold eval_near_dup, near_dup_out. cbv zeta. destruct (cull_members r && _); cbn [push_if orb].
  - rewrite (bool_decide_true (NEAR_DUP_MEMBER ∈ _)) by (apply elem_of_app; right; by left). by rewrite andb_false_r.
  - rewrite (bool_decide_false (NEAR_DUP_MEMBER ∈ rs)) by done. cbn [negb]. rewrite andb_true_r. apply push_if_app.
Qed.

Definition empty_out (item : cull_candidate) (r : empty_rule) : bool :=
  (zero_size r && bool_decide (cc_size_bytes item = Some 0)) ||
  (no_text_and_no_native r && bool_decide (text_sha256 item = None) && bool_decide (native_sha256 item = None)).
Lemma eval_empty_app item r rs : eval_empty item r rs = rs ++ if empty_out item r then [EMPTY] else [].
Proof using. unfold eval_empty, empty_out. destruct (zero_size r && _); [done|]. cbn [orb]. apply push_if_app. Qed.

(** The conditions of the rules in the order of their evaluation. *)
Definition conditions (item : cull_candidate) (r : cull_rules) (denist : option (gset bstring)) : list (bool * bstring) :=
  let beyond bound (p : Z → Z → bool) := match bound with Some b => match cc_size_bytes item with Some s => p s b | None => true end | None => false end in
  [ (st_enabled (cr_statuses r) && negb (existsb (λ s, eq_ignore_ascii_case s (cc_status item)) (st_include (cr_statuses r))), STATUS);
    (exclude_exact_duplicates r && bool_decide (cc_dedup_role item = Some DUPLICATE), EXACT_DUPLICATE);
    (dr_enabled (cr_date r) && bool_decide (item_instant item (cr_date r) = None) &&
       match dr_missing_policy (cr_date r) with MissingInclude => false | MissingCull => true end, DATE_MISSING);
    (dr_enabled (cr_date r) && is_some_and (out_of_window (cr_date r)) (item_instant item (cr_date r)), DATE_OUT_OF_RANGE);
    (lr_enabled (cr_custodians r) && listed_out (cr_custodians r) (existsb (λ v, eq_ignore_ascii_case v (default [] (cc_custodian item))) (lr_values (cr_custodians r))), CUSTODIAN);
    (lr_enabled (path_contains r) && listed_out (path_contains r) (existsb (λ p, contains (to_ascii_lowercase p) (to_ascii_lowercase (default [] (cc_path item)))) (lr_values (path_contains r))), PATH);
    (lr_enabled (file_categories r) && listed_out (file_categories r) (existsb (λ v, eq_ignore_ascii_case v (default [] (cc_file_category item))) (lr_values (file_categories r))), FILE_CATEGORY);
    (lr_enabled (mime_prefixes r) && listed_out (mime_prefixes r) (existsb (λ p, starts_with (to_ascii_lowercase p) (to_ascii_lowercase (default [] (cc_mime_type item)))) (lr_values (mime_prefixes r))), MIME);
    (sb_enabled (cr_size_bytes r) && (beyond (sb_min (cr_size_bytes r)) Z.ltb || beyond (sb_max (cr_size_bytes r)) Z.gtb), SIZE);
    (er_enabled (cr_empty r) && empty_out item (cr_empty r), EMPTY);
    (nd_enabled (near_dup r) && near_dup_out item (near_dup r), NEAR_DUP_MEMBER);
    (denist_enabled r && match denist with Some l => matches_denist l (native_sha256 item) | None => false end, DENIST) ].
End reasons.

(** ** The hash list *)

(** The digests of a list are those of its lines, in lower case, and there is one; an
    item matches in any case of its own digest. *)
Definition line_digest (line : bstring) : option bstring :=
  let lower := to_ascii_lowercase (denist_token line) in if is_hex lower 64 then Some lower else None.
Lemma denist_lines_spec ls : ∀ hashes m s,
  (foldl denist_line (hashes, m, s) ls).1.1 = list_to_set (omap line_digest ls) ∪ hashes.
Proof.
  induction ls as [|l ls IH]; intros hashes m s.
  { symmetry. apply (left_id_L ∅ (∪)). }
  cbn [foldl omap list_omap]. unfold denist_line at 2, line_digest. cbv zeta. destruct (is_hex (to_ascii_lowercase (denist_token l)) 64).
  - rewrite IH. cbn [list_to_set foldr]. by rewrite (assoc_L (∪)), (comm_L (∪) (list_to_set _)).
  - by destruct (is_hex (to_ascii_lowercase (denist_token l)) 32), (is_hex (to_ascii_lowercase (denist_token l)) 40); rewrite IH.
Qed.
Lemma parse_sha256_list_ok text hashes :
  parse_sha256_list text = Ok hashes →
  hashes = list_to_set (omap line_digest (lines_by Byte.x0a Byte.x0d [] text)) ∧ hashes ≠ ∅ ∧
  (∀ h, h ∈ hashes → zlen h = 64 ∧ to_ascii_lowercase h = h).
Proof.
  unfold parse_sha256_list. pose proof (denist_lines_spec (lines_by Byte.x0a Byte.x0d [] text) ∅ 0 0) as Hl.
  destruct (foldl denist_line _ _) as [[hs m] s]. cbn [fst] in Hl. case_bool_decide; [by case_match|]. intros [= <-].
  rewrite (right_id_L ∅ (∪)) in Hl. split_and!; [done|done|]. rewrite Hl. intros h Hin. rewrite elem_of_list_to_set, list_elem_of_omap in Hin.
  destruct Hin as (l & _ & Hd). unfold line_digest in Hd. destruct (is_hex _ 64) eqn:Hx; [|done]. injection Hd as <-.
  apply andb_true_iff in Hx as [Hz _]. split; [by apply Z.eqb_eq|]. unfold to_ascii_lowercase. rewrite map_map. apply map_ext.
  intros b. destruct b; vm_compute; reflexivity.
Qed.

(** * Theorems *)

Section theorems.
Context `{Chrono}.

Lemma enabled_app (b c : bool) (l rs rs' : list bstring) :
  rs' = rs ++ (if c then l else []) → (if b then rs' else rs) = rs ++ (if b && c then l else []).
Proof using. intros ->. destruct b; [done|]. by rewrite app_nil_r. Qed.

Lemma decided_reasons rs : cd_reasons (if bool_decide (rs = []) then included else culled rs) = rs.
Proof using. by case_bool_decide as Hnil; [rewrite Hnil|]. Qed.

Lemma evaluate_reasons item r denist :
  cd_reasons (evaluate_item item r denist) = map snd (filter (λ p, p.1 = true) (conditions item r denist)).
Proof using.
  assert (Hlist : ∀ v (l : list_rule) code rs, (if lr_enabled l then eval_string_list v l code rs else rs) =
    rs ++ if lr_enabled l && listed_out l (existsb (λ x, eq_ignore_ascii_case x (default [] v)) (lr_values l)) then [code] else [])
    by (intros; apply enabled_app, push_if_app).
  assert (Hpath : ∀ l rs, (if lr_enabled l then eval_path item l rs else rs) =
    rs ++ if lr_enabled l && listed_out l (existsb (λ p, contains (to_ascii_lowercase p) (to_ascii_lowercase (default [] (cc_path item)))) (lr_values l)) then [PATH] else [])
    by (intros l rs; apply enabled_app; unfold eval_path, listed_out; cbv zeta; rewrite push_if_app; by destruct (lr_mode l)).
  assert (Hmime : ∀ l rs, (if lr_enabled l then eval_mime item l rs else rs) =
    rs ++ if lr_enabled l && listed_out l (existsb (λ p, starts_with (to_ascii_lowercase p) (to_ascii_lowercase (default [] (cc_mime_type item)))) (lr_values l)) then [MIME] else [])
    by (intros l rs; apply enabled_app; unfold eval_mime, listed_out; cbv zeta; rewrite push_if_app; by destruct (lr_mode l)).
  assert (Hdate : ∀ rs, (if dr_enabled (cr_date r) then eval_date item (cr_date r) rs else rs) = rs ++
    (if dr_enabled (cr_date r) && bool_decide (item_instant item (cr_date r) = None) &&
       match dr_missing_policy (cr_date r) with MissingInclude => false | MissingCull => true end then [DATE_MISSING] else []) ++
    (if dr_enabled (cr_date r) && is_some_and (out_of_window (cr_date r)) (item_instant item (cr_date r)) then [DATE_OUT_OF_RANGE] else [])).
  { intros rs. destruct (dr_enabled (cr_date r)); cbn [andb]; [|by rewrite app_nil_r]. rewrite eval_date_app. f_equal. unfold date_reasons.
    destruct (item_instant item (cr_date r)) as [t|]; cbn [is_some_and]; [by rewrite bool_decide_false|]. rewrite bool_decide_true by done.
    cbn [andb]. by destruct (dr_missing_policy (cr_date r)). }
  assert (Hfilter : ∀ (b : bool) (code : bstring) (l : list (bool * bstring)), map snd (filter (λ p : bool * bstring, p.1 = true) ((b, code) :: l)) = (if b then [code] else []) ++ map snd (filter (λ p : bool * bstring, p.1 = true) l)).
  { intros b code l. rewrite filter_cons. by destruct b. }
  unfold conditions. cbv zeta. rewrite !Hfilter. unfold evaluate_item. cbv zeta.
  rewrite Hdate, !Hlist, Hpath, Hmime.
  unfold eval_size. cbv zeta.
  erewrite (enabled_app (sb_enabled (cr_size_bytes r))) by apply push_if_app. erewrite (enabled_app (er_enabled (cr_empty r))) by apply eval_empty_app.
  erewrite (enabled_app (nd_enabled (near_dup r)) (near_dup_out item (near_dup r)) [NEAR_DUP_MEMBER]); [|apply eval_near_dup_app].
  - rewrite !push_if_app. cbn [app]. rewrite <-!(assoc_L (++)). change (map snd (filter _ [])) with (@nil bstring). rewrite app_nil_r.
    apply decided_reasons.
  - rewrite !push_if_app. rewrite !not_elem_of_app. repeat split; repeat case_match; try (by apply not_elem_of_nil); apply (bool_decide_unpack _); vm_compute; exact I.
Qed.

Lemma reason_codes item r denist : NoDup (map snd (conditions item r denist)).
Proof using. unfold conditions. cbn [map snd]. apply (bool_decide_unpack _). vm_compute. exact I. Qed.

Lemma valid_window r :
  validate r = Ok () → dr_enabled (cr_date r) = true →
  ∃ lo hi : option Z, (∀ s, dr_start (cr_date r) = Some s → ∃ b, parse_bound_instant s = Ok b ∧ lo = Some b) ∧ (dr_start (cr_date r) = None → lo = None) ∧
    (∀ s, dr_end (cr_date r) = Some s → ∃ b, parse_bound_instant s = Ok b ∧ hi = Some b) ∧ (dr_end (cr_date r) = None → hi = None) ∧
    (∀ a b, lo = Some a → hi = Some b → a < b).
Proof using.
  unfold validate. intros Hv He. case_match; [done|]. case_match; [done|]. rewrite He in Hv. apply bind_ok_inv in Hv as ([] & Hv & _).
  assert (Hbound : ∀ f o x, check_bound f o = Ok x → ∀ s, o = Some s → ∃ b, parse_bound_instant s = Ok b).
  { intros f o x Hc s ->. cbn [check_bound] in Hc. apply bind_ok_inv in Hc as (b & Hb & _). exists b. by destruct (parse_bound_instant s); cbn in Hb; simplify_eq/=. }
  apply bind_ok_inv in Hv as (? & Hlo & Hv). apply bind_ok_inv in Hv as (? & Hhi & Hv).
  pose proof (Hbound _ _ _ Hlo) as Hl. pose proof (Hbound _ _ _ Hhi) as Hh.
  exists (match dr_start (cr_date r) with Some s => match parse_bound_instant s with Ok b => Some b | _ => None end | None => None end),
    (match dr_end (cr_date r) with Some s => match parse_bound_instant s with Ok b => Some b | _ => None end | None => None end).
  split_and!.
  - intros s Hs. destruct (Hl s Hs) as [b Hb]. exists b. by rewrite Hs, Hb.
  - by intros ->.
  - intros s Hs. destruct (Hh s Hs) as [b Hb]. exists b. by rewrite Hs, Hb.
  - by intros ->.
  - intros a b. destruct (dr_start (cr_date r)) as [s|]; [|done]. destruct (dr_end (cr_date r)) as [t|]; [|done].
    destruct (Hl s eq_refl) as [a' Ha], (Hh t eq_refl) as [b' Hb]. rewrite Ha, Hb in *. rewrite !bind_ok in Hv.
    intros [= <-] [= <-]. destruct (b' <=? a') eqn:Hle; [done|]. lia.
Qed.

(** C39 Culling one item is exact.  The reasons are the codes of the rules that the item
    breaks, each once and in the order of the rules, and the item is culled if and only
    if there is one.  Under validated rules the date window is never skipped: both
    bounds parse, the start lies before the end, and an item whose date parses is out
    of range exactly when that date is before the start or not before the end. *)
Theorem evaluate_exact item r denist (Hvalid : validate r = Ok ()) :
  let d := evaluate_item item r denist in
  cd_reasons d = map snd (filter (λ p, p.1 = true) (conditions item r denist)) ∧ NoDup (cd_reasons d) ∧
  (is_culled d = true ↔ cd_reasons d ≠ []) ∧ cd_status d = (if is_culled d then CULLED else INCLUDED) ∧
  (dr_enabled (cr_date r) = true → ∃ lo hi,
     (∀ s, dr_start (cr_date r) = Some s → ∃ b, parse_bound_instant s = Ok b ∧ lo = Some b) ∧
     (∀ s, dr_end (cr_date r) = Some s → ∃ b, parse_bound_instant s = Ok b ∧ hi = Some b) ∧
     (∀ a b, lo = Some a → hi = Some b → a < b) ∧
     (DATE_OUT_OF_RANGE ∈ cd_reasons d ↔ ∃ t, item_instant item (cr_date r) = Some t ∧ ((∃ a, lo = Some a ∧ t < a) ∨ (∃ b, hi = Some b ∧ b <= t)))).
Proof using.
  intros d. pose proof (evaluate_reasons item r denist) as Hrs. fold d in Hrs.
  assert (Hcases : cd_reasons d = [] ∧ d = included ∨ cd_reasons d ≠ [] ∧ cd_status d = CULLED).
  { subst d. unfold evaluate_item. cbv zeta. case_bool_decide; [by left|by right]. }
  assert (Hstatus : is_culled included = false) by (vm_compute; reflexivity).
  split_and!; [done| | | |].
  - rewrite Hrs. eapply sublist_NoDup; [apply (reason_codes item r denist)|]. apply (fmap_sublist snd), sublist_filter.
  - destruct Hcases as [[-> ->]|[? Hc]]; [by rewrite Hstatus|]. unfold is_culled. rewrite Hc, bool_decide_true by done. done.
  - destruct Hcases as [[_ ->]|[? Hc]]; [by rewrite Hstatus|]. unfold is_culled. by rewrite Hc, bool_decide_true.
  - intros He. destruct (valid_window r Hvalid He) as (lo & hi & Hlo & Hlo' & Hhi & Hhi' & Hord). exists lo, hi. split_and!; [done..|].
    assert (Hout : DATE_OUT_OF_RANGE ∈ cd_reasons d ↔ is_some_and (out_of_window (cr_date r)) (item_instant item (cr_date r)) = true).
    { rewrite Hrs, list_elem_of_fmap. setoid_rewrite list_elem_of_filter. split.
      - intros ([b code] & Hcode & Hb & Hin). cbn [fst snd] in *. subst b code.
        unfold conditions in Hin. rewrite !elem_of_cons, elem_of_nil in Hin.
        destruct_or!; try done; apply pair_equal_spec in Hin as [Hb Hcode];
          first [exfalso; revert Hcode; vm_compute; discriminate|rewrite He in Hb; by rewrite Hb].
      - intros Hb. exists (true, DATE_OUT_OF_RANGE). split_and!; [done|done|]. unfold conditions. rewrite !elem_of_cons. do 3 right. left. by rewrite He, Hb. }
    rewrite Hout. destruct (item_instant item (cr_date r)) as [t|]; cbn [is_some_and]; [|split; [done|by intros (? & ? & _)]].
    unfold out_of_window. rewrite orb_true_iff. split.
    + intros Hc. exists t. split; [done|]. destruct Hc as [Hc|Hc].
      * left. destruct (dr_start (cr_date r)) as [s|]; [|done]. destruct (Hlo s eq_refl) as (b & Hb & ->). rewrite Hb in Hc. exists b. split; [done|lia].
      * right. destruct (dr_end (cr_date r)) as [s|]; [|done]. destruct (Hhi s eq_refl) as (b & Hb & ->). rewrite Hb in Hc. exists b. split; [done|lia].
    + intros (t' & [= <-] & [(a & -> & Ht)|(b & -> & Ht)]).
      * left. destruct (dr_start (cr_date r)) as [s|]; [|by specialize (Hlo' eq_refl)]. destruct (Hlo s eq_refl) as (b & Hb & [= <-]). rewrite Hb. lia.
      * right. destruct (dr_end (cr_date r)) as [s|]; [|by specialize (Hhi' eq_refl)]. destruct (Hhi s eq_refl) as (c & Hb & [= <-]). rewrite Hb. lia.
Qed.
End theorems.

(** C9 The family pass settles.  Whatever the parent links, cycles included, the loop
    ends and nobody outside the families is touched.  When children are kept with an
    included parent, exactly the items that were included or descend from one through
    candidates end included, and each such descendant has no reason left; when children
    are culled with a culled parent, exactly the culled items and their descendants end
    culled, and each descendant has the family reason once beside its own. *)
Theorem family_policy_settles candidates ds policy :
  ∃ ds', apply_family_policy candidates ds policy = Some ds' ∧
  match policy with
  | Independent => ds' = ds
  | KeepChildrenWithIncludedParent =>
      let good d := negb (is_culled d) in
      (∀ id, reached good candidates ds id ↔ ∃ d, ds' !! id = Some d ∧ is_culled d = false) ∧
      (∀ id, heir good candidates ds id → ∃ d, ds' !! id = Some d ∧ is_culled d = false ∧ cd_reasons d = []) ∧
      (∀ id, ¬ heir good candidates ds id → ds' !! id = ds !! id)
  | CullChildrenWithParent =>
      (∀ id, reached is_culled candidates ds id ↔ ∃ d, ds' !! id = Some d ∧ is_culled d = true) ∧
      (∀ id, heir is_culled candidates ds id → ds' !! id = Some (mark (default included (ds !! id)))) ∧
      (∀ id, ¬ heir is_culled candidates ds id → ds' !! id = ds !! id)
  end.
Proof.
  destruct policy; cbn [apply_family_policy]; [|by exists ds|].
  - destruct keep_laws as [H1 H3].
    assert (H2 : ∀ o, ∃ d, (keep_child o).1 = Some d ∧ negb (is_culled d) = true).
    { intros o. destruct (keep_settled o) as (d & Hd & Hc & _). exists d. split; [done|by rewrite Hc]. }
    destruct (family_pass_spec (λ d, negb (is_culled d)) keep_child H1 H2 H3 candidates ds) as (ds' & Hrun & Hheir & Hrest & Hreach).
    exists ds'. split; [done|]. cbv zeta. split_and!; [|intros id Hid; rewrite (Hheir id Hid); apply keep_settled|done].
    intros id. rewrite (Hreach id). by setoid_rewrite negb_true_iff.
  - destruct cull_laws as [H1 H3].
    assert (H2 : ∀ o, ∃ d, (cull_child o).1 = Some d ∧ is_culled d = true).
    { intros o. exists (mark (default included o)). split; [apply cull_settled|]. unfold is_culled. by rewrite bool_decide_true. }
    destruct (family_pass_spec is_culled cull_child H1 H2 H3 candidates ds) as (ds' & Hrun & Hheir & Hrest & Hreach).
    exists ds'. split; [done|]. split_and!; [done|intros id Hid; by rewrite (Hheir id Hid), cull_settled|done].
Qed.

(** ** Concrete runs *)

(** A clock that knows three timestamps. *)
#[local] Instance sample_chrono : Chrono := {|
  parse_from_rfc3339 s :=
    if bool_decide (s = bytes_of "2023-01-01T00:00:00Z") then Some 1672531200
    else if bool_decide (s = bytes_of "2023-02-01T00:00:00Z") then Some 1675209600
    else if bool_decide (s = bytes_of "2023-02-01T01:00:00+01:00") then Some 1675209600 else None;
  parse_fixed_offset s := None |}.

Definition february : cull_rules :=
  {| cr_version := 1; exclude_exact_duplicates := true;
     cr_date := {| dr_enabled := true; dr_field := SentAt; dr_start := Some (bytes_of "2023-01-01T00:00:00Z");
                   dr_end := Some (bytes_of "2023-02-01T01:00:00+01:00"); dr_missing_policy := MissingCull |};
     cr_custodians := cr_custodians default_rules; path_contains := path_contains default_rules;
     file_categories := file_categories default_rules; mime_prefixes := mime_prefixes default_rules;
     cr_size_bytes := cr_size_bytes default_rules; cr_empty := cr_empty default_rules; cr_statuses := cr_statuses default_rules;
     near_dup := near_dup default_rules; thread_enabled := false; denist_enabled := false; cr_family_policy := cr_family_policy default_rules |}.
Definition sample_item (id : string) (parent : option bstring) (sent : option bstring) (dedup : option bstring) : cull_candidate :=
  {| cc_id := bytes_of id; parent_item_id := parent; cc_dedup_role := dedup; cc_near_dup_role := None; cc_sent_at := sent; cc_received_at := None;
     cc_created_at := None; cc_modified_at := None; cc_path := None; cc_custodian := None; cc_file_category := None; cc_mime_type := None;
     cc_size_bytes := Some 10; cc_status := bytes_of "Extracted"; native_sha256 := None; text_sha256 := None |}.
Definition late_copy : cull_candidate := sample_item "a" None (Some (bytes_of " 2023-02-01T00:00:00Z ")) (Some DUPLICATE).

(** The end of the window is excluded, in whatever offset it is written. *)
Lemma evaluate_exact_witness :
  validate february = Ok () ∧ cd_reasons (evaluate_item late_copy february None) = [EXACT_DUPLICATE; DATE_OUT_OF_RANGE] ∧
  NoDup (cd_reasons (evaluate_item late_copy february None)).
Proof.
  assert (Hv : validate february = Ok ()) by (vm_compute; reflexivity).
  destruct (evaluate_exact late_copy february None Hv) as (Hrs & Hnd & _). split_and!; [done| |exact Hnd].
  rewrite Hrs. vm_compute. reflexivity.
Defined.

(** The comment on [apply_family_policy] says that the family reason is added to a child
    that is not already culled; the code adds it to a culled child too. *)
Example culled_child_gets_family_reason :
  (apply_family_policy [sample_item "c" (Some (bytes_of "p")) None None]
     {[ bytes_of "p" := culled [SIZE]; bytes_of "c" := culled [EMPTY] ]} CullChildrenWithParent ≫= λ ds, ds !! bytes_of "c") =
  Some (culled [EMPTY; FAMILY_WITH_CULLED_PARENT]).
Proof. vm_compute. reflexivity. Qed.
