(* ===== verification/LoadFile.v ===== *)
(** * Load files (matter-produce/src/dat.rs, matter-gap/src/dat_parse.rs, column_map.rs)

    A production writes its rows to a Concordance load file, with the columns of the
    field map of its profile (matter-core/src/production_profile.rs); the gap analysis
    parses such a file, or a CSV file, of the other side.  The CSV reader is a
    parameter. *)

From S2P Require Import Prelude Text Utf Folder NamedPropMap.
#[local] Open Scope Z_scope.
#[local] Set Warnings "-register-all".

(** ** Writing *)

Definition UTF8_BOM : list byte := [Byte.xef; Byte.xbb; Byte.xbf].
Definition DAT_QUALIFIER : Z := 0xFE.
Definition DAT_SEPARATOR : Z := 0xB6.
Definition DAT_NEWLINE : Z := 0xAE.
Definition LF : Z := 10.
Definition CR : Z := 13.

Definition DAT_FIELDS : list rstring := map lit
  ["BEGBATES"; "ENDBATES"; "CONTROL_NUMBER"; "ITEM_ID"; "PARENT_ITEM_ID"; "FAMILY_ID"; "CUSTODIAN"; "FILE_NAME"; "FILE_EXT";
   "FILE_CATEGORY"; "MIME_TYPE"; "FILE_SIZE"; "SHA256"; "DATE_SENT"; "DATE_RECEIVED"; "DATE_CREATED"; "FROM"; "TO"; "CC"; "BCC";
   "SUBJECT"; "NATIVE_PATH"; "TEXT_PATH"; "HAS_REDACTED_TEXT"; "WITHHELD"; "PROD_STATUS"]%string.

(** [LoadRow] *)
Record load_row := {
  lr_control_number : rstring; end_bates : rstring; lr_item_id : rstring; lr_parent_item_id : rstring; lr_family_id : rstring;
  lr_custodian : rstring; lr_file_name : rstring; lr_file_ext : rstring; lr_file_category : rstring; lr_mime_type : rstring;
  file_size : rstring; lr_sha256 : rstring; lr_date_sent : rstring; lr_date_received : rstring; lr_date_created : rstring;
  lr_from : rstring; lr_to : rstring; lr_cc : rstring; lr_bcc : rstring; lr_subject : rstring; native_path : rstring;
  text_path : rstring; has_redacted_text : rstring; withheld : rstring; prod_status : rstring }.

(** [end_bates_or_control], [field_values] *)
Definition end_bates_or_control (r : load_row) : rstring :=
  let t := trim (end_bates r) in if bool_decide (t = []) then lr_control_number r else t.
Definition field_values (r : load_row) : list rstring :=
  [ lr_control_number r; end_bates_or_control r; lr_control_number r; lr_item_id r; lr_parent_item_id r; lr_family_id r; lr_custodian r;
    lr_file_name r; lr_file_ext r; lr_file_category r; lr_mime_type r; file_size r; lr_sha256 r; lr_date_sent r; lr_date_received r;
    lr_date_created r; lr_from r; lr_to r; lr_cc r; lr_bcc r; lr_subject r; native_path r; text_path r; has_redacted_text r; withheld r;
    prod_status r ].

(** [to_ascii_uppercase], [to_ascii_lowercase] of the characters of a string *)
Definition to_ascii_uppercase (s : rstring) : rstring := map (λ c, if (97 <=? c) && (c <=? 122) then c - 32 else c) s.
Definition to_ascii_lowercase (s : rstring) : rstring := map (λ c, if (65 <=? c) && (c <=? 90) then c + 32 else c) s.

(** [value_for_source]: the value of the column with that canonical name. *)
Definition value_for_source (r : load_row) (source : rstring) : rstring :=
  let key := to_ascii_uppercase (trim source) in
  match find (λ p, bool_decide (p.1 = key)) (zip DAT_FIELDS (field_values r)) with Some p => p.2 | None => [] end.

(** [FieldMapEntry]; [mapped_headers], [mapped_values].  The dates of a row are formatted
    before it is written. *)
Record field_map_entry := {
  fm_source : rstring; fm_header : rstring; fm_include : bool; fm_date_format : option rstring; fm_timezone : option rstring }.
Definition mapped_headers (m : list field_map_entry) : list rstring := map fm_header (filter (λ e, fm_include e = true) m).
Definition mapped_values (r : load_row) (m : list field_map_entry) : list rstring :=
  map (λ e, value_for_source r (fm_source e)) (filter (λ e, fm_include e = true) m).

(** [encode_dat_field] *)
Fixpoint encode_dat_field (value : rstring) : rstring :=
  match value with
  | [] => []
  | c :: s =>
      if c =? CR then DAT_NEWLINE :: match s with
                                     | d :: s' => if d =? LF then encode_dat_field s' else encode_dat_field s
                                     | [] => []
                                     end
      else if c =? LF then DAT_NEWLINE :: encode_dat_field s
      else c :: encode_dat_field s
  end.

(** [write_dat_line], [write_load_dat_mapped] *)
Fixpoint write_dat_fields (first : bool) (fields : list rstring) : rstring :=
  match fields with
  | [] => []
  | field :: fields =>
      (if first then [] else [DAT_SEPARATOR]) ++ [DAT_QUALIFIER] ++ encode_dat_field field ++ [DAT_QUALIFIER] ++ write_dat_fields false fields
  end.
Definition write_dat_line (fields : list rstring) : rstring := write_dat_fields true fields ++ [LF].
Definition write_load_dat_mapped (rows : list load_row) (field_map : option (list field_map_entry)) : list byte :=
  UTF8_BOM ++ utf8
    (match field_map with
     | Some m => write_dat_line (mapped_headers m) ++ concat (map (λ r, write_dat_line (mapped_values r m)) rows)
     | None => write_dat_line DAT_FIELDS ++ concat (map (λ r, write_dat_line (field_values r)) rows)
     end).

(** The field maps of the built-in profiles: [identity_field_map], [us_date_field_map],
    [relativity_header_for], [relativity_alias_field_map].  The names of the sources are
    those of the writer, in its order. *)
Definition CANONICAL_DAT_SOURCES : list rstring := DAT_FIELDS.
Definition identity_field_map : list field_map_entry :=
  map (λ s, {| fm_source := s; fm_header := s; fm_include := true; fm_date_format := None; fm_timezone := None |}) CANONICAL_DAT_SOURCES.
Definition us_date_entry (s header : rstring) : field_map_entry :=
  let date := bool_decide (take 5 s = lit "DATE_") in
  {| fm_source := s; fm_header := header; fm_include := true;
     fm_date_format := if date then Some (lit "%m/%d/%Y") else None;
     fm_timezone := if date then Some (lit "America/New_York") else None |}.
Definition us_date_field_map : list field_map_entry := map (λ s, us_date_entry s s) CANONICAL_DAT_SOURCES.
Definition relativity_headers : list (rstring * rstring) := map (λ p, (lit p.1, lit p.2))
  [("BEGBATES", "Control Number"); ("ENDBATES", "End Control Number"); ("CONTROL_NUMBER", "Control Number Alt");
   ("ITEM_ID", "Item ID"); ("PARENT_ITEM_ID", "Parent Item ID"); ("FAMILY_ID", "Family ID"); ("CUSTODIAN", "Custodian");
   ("FILE_NAME", "File Name"); ("FILE_EXT", "File Extension"); ("FILE_CATEGORY", "File Type"); ("MIME_TYPE", "MIME Type");
   ("FILE_SIZE", "File Size"); ("SHA256", "SHA256 Hash"); ("DATE_SENT", "Date Sent"); ("DATE_RECEIVED", "Date Received");
   ("DATE_CREATED", "Date Created"); ("FROM", "From"); ("TO", "To"); ("CC", "CC"); ("BCC", "BCC"); ("SUBJECT", "Subject");
   ("NATIVE_PATH", "Native Path"); ("TEXT_PATH", "Extracted Text Path"); ("HAS_REDACTED_TEXT", "Has Redacted Text");
   ("WITHHELD", "Withheld"); ("PROD_STATUS", "Production Status")]%string.
Definition relativity_header_for (source : rstring) : rstring :=
  match find (λ p, bool_decide (p.1 = source)) relativity_headers with Some p => p.2 | None => source end.
Definition relativity_alias_field_map : list field_map_entry := map (λ s, us_date_entry s (relativity_header_for s)) CANONICAL_DAT_SOURCES.

(** ** The column map *)

(** [MappedField] *)
Inductive mapped_field :=
| ControlNumber | Sha256 | MessageId | ItemId | LogicalHash | Custodian | FileName | FileExt | FileCategory | MimeType
| DateSent | DateReceived | DateCreated.
#[export] Instance mapped_field_eq_dec : EqDecision mapped_field.
Proof. solve_decision. Defined.
Definition ALL_FIELDS : list mapped_field :=
  [ControlNumber; Sha256; MessageId; ItemId; LogicalHash; Custodian; FileName; FileExt; FileCategory; MimeType; DateSent; DateReceived; DateCreated].
#[export] Instance mapped_field_finite : finite.Finite mapped_field.
Proof. refine {| finite.enum := ALL_FIELDS |}; [apply (bool_decide_unpack _); vm_compute; exact I|intros []; apply (bool_decide_unpack _); vm_compute; exact I]. Defined.

(** The cases of [GapError] that parsing raises. *)
Inductive gap_error :=
| InvalidDatHeader (missing : list rstring)
| NoJoinKey
| UnknownTarget (target : rstring)
| EmptyColumnMap
| DatTooLarge (size cap : Z)
| DatTooManyRows (count cap : Z)
| NotUtf8
| DatEmpty
| CsvFailed.
Abbreviation gap_res := (res gap_error).

(** [MappedField::from_str] *)
Definition mapped_field_from_str (s : rstring) : gap_res mapped_field :=
  let key := map (λ c, if c =? 45 then 95 else c) (to_ascii_lowercase (trim s)) in
  let among names := bool_decide (key ∈ map lit names) in
  if among ["control_number"; "controlnumber"]%string then Ok ControlNumber else
  if among ["sha256"; "native_sha256"; "hash"]%string then Ok Sha256 else
  if among ["message_id"; "messageid"; "mid"]%string then Ok MessageId else
  if among ["item_id"; "itemid"]%string then Ok ItemId else
  if among ["logical_hash"; "logicalhash"]%string then Ok LogicalHash else
  if among ["custodian"]%string then Ok Custodian else
  if among ["file_name"; "filename"]%string then Ok FileName else
  if among ["file_ext"; "fileext"; "ext"]%string then Ok FileExt else
  if among ["file_category"; "filecategory"; "category"]%string then Ok FileCategory else
  if among ["mime_type"; "mimetype"; "mime"]%string then Ok MimeType else
  if among ["date_sent"; "datesent"; "sent_at"]%string then Ok DateSent else
  if among ["date_received"; "datereceived"; "received_at"]%string then Ok DateReceived else
  if among ["date_created"; "datecreated"; "created_at"]%string then Ok DateCreated else
  Err (UnknownTarget key).

(** [DatColumnMap], [default_produce_v1] *)
Abbreviation column_map := (gmap rstring mapped_field).
Definition default_pairs : list (rstring * mapped_field) :=
  [ (lit "CONTROL_NUMBER", ControlNumber); (lit "SHA256", Sha256); (lit "ITEM_ID", ItemId); (lit "CUSTODIAN", Custodian);
    (lit "FILE_NAME", FileName); (lit "FILE_EXT", FileExt); (lit "FILE_CATEGORY", FileCategory); (lit "MIME_TYPE", MimeType);
    (lit "DATE_SENT", DateSent); (lit "DATE_RECEIVED", DateReceived); (lit "DATE_CREATED", DateCreated);
    (lit "MESSAGE_ID", MessageId); (lit "LOGICAL_HASH", LogicalHash) ].
Definition default_produce_v1 : column_map := list_to_map default_pairs.

(** The order in which a hash map gives its entries. *)
Record entry_order := {
  entries_of {A} (m : gmap rstring A) : list (rstring * A);
  entries_perm {A} (m : gmap rstring A) : entries_of m ≡ₚ map_to_list m }.

(** [from_string_map] *)
Definition from_string_map (order : entry_order) (raw : gmap rstring rstring) : gap_res column_map :=
  m ← mfold (λ m p, field ← mapped_field_from_str p.2; Ok (<[p.1 := field]> m)) (entries_of order raw) ∅;
  if bool_decide (m = ∅) then Err EmptyColumnMap else Ok m.

(** [is_core_header] *)
Definition is_core_header (h : rstring) : bool :=
  bool_decide (to_ascii_uppercase h ∈ map lit ["CONTROL_NUMBER"; "SHA256"; "ITEM_ID"; "CUSTODIAN"; "FILE_NAME"]%string).

(** [resolve_indices]: the index of the last header of a name, exact or in another
    case. *)
Definition index_headers (f : rstring → rstring) (headers : list rstring) : gmap rstring nat :=
  foldl (λ m p, <[f p.2 := p.1]> m) ∅ (imap (λ i h, (i, h)) headers).
Definition resolve_entry (headers : list rstring) (acc : gmap mapped_field nat * list rstring) (p : rstring * mapped_field)
    : gmap mapped_field nat * list rstring :=
  match (match index_headers id headers !! p.1 with
         | Some i => Some i
         | None => index_headers to_ascii_uppercase headers !! to_ascii_uppercase p.1
         end) with
  | Some i => (<[p.2 := i]> acc.1, acc.2)
  | None => if is_core_header p.1 then (acc.1, acc.2 ++ [p.1]) else acc
  end.
Definition resolve_indices (order : entry_order) (m : column_map) (headers : list rstring) : gap_res (gmap mapped_field nat) :=
  let '(out, missing) := foldl (resolve_entry headers) (∅, []) (entries_of order m) in
  let core_missing := filter (λ h, is_core_header h = true) missing in
  if negb (bool_decide (core_missing = [])) then Err (InvalidDatHeader core_missing) else
  if negb (existsb (λ f, bool_decide (is_Some (out !! f))) [ControlNumber; Sha256; MessageId; ItemId; LogicalHash]) then Err NoJoinKey else
  Ok out.

(** ** Parsing *)

(** [GapExpectedDocInput], [ParsedDat], [DatFormat], [DatCaps] *)
Record gap_expected := {
  control_number : option rstring; sha256 : option rstring; message_id : option rstring; item_id : option rstring;
  logical_hash : option rstring; custodian : option rstring; file_name : option rstring; file_category : option rstring;
  mime_type : option rstring; file_ext : option rstring; date_sent : option rstring; date_received : option rstring;
  date_created : option rstring }.
Inductive dat_format := Concordance | Csv.
Record parsed_dat := { pd_headers : list rstring; pd_rows : list gap_expected; pd_format : dat_format }.
Record dat_caps := { max_bytes : Z; max_rows : Z }.

(** [str::from_utf8]: the decoding loses nothing exactly when the bytes are valid. *)
Definition from_utf8 (bytes : list byte) : option rstring :=
  let s := from_utf8_lossy bytes in if bool_decide (utf8 s = bytes) then Some s else None.

(** [strip_utf8_bom], [looks_like_concordance] *)
Definition strip_utf8_bom (bytes : list byte) : list byte := if starts_with UTF8_BOM bytes then drop 3 bytes else bytes.
Fixpoint has_window (a b : byte) (s : list byte) : bool :=
  match s with x :: (y :: _) as s' => (bool_decide (x = a) && bool_decide (y = b)) || has_window a b s' | _ => false end.
Definition looks_like_concordance (bytes : list byte) : bool :=
  let sample := take 4096 bytes in
  bool_decide (Byte.xfe ∈ sample) || bool_decide (Byte.xc3 ∈ sample) || has_window Byte.xc3 Byte.xbe sample.

(** [decode_dat_field], [str::split] of a character, [split_dat_line] *)
Definition decode_dat_field (raw : rstring) : rstring :=
  let s := trim raw in
  let s := match s with c :: s' => if c =? DAT_QUALIFIER then s' else s | [] => s end in
  let s := match reverse s with c :: s' => if c =? DAT_QUALIFIER then reverse s' else s | [] => s end in
  map (λ c, if c =? DAT_NEWLINE then LF else c) s.
Fixpoint split_char (sep : Z) (cur s : rstring) : list rstring :=
  match s with
  | [] => [cur]
  | c :: s => if c =? sep then cur :: split_char sep [] s else split_char sep (cur ++ [c]) s
  end.
Definition split_dat_line (line : rstring) : list rstring := map decode_dat_field (split_char DAT_SEPARATOR [] line).

Section parse.
(** [str::to_lowercase], and the CSV reader: the headers and the records, each of
    which may fail. *)
Context (to_lowercase : rstring → rstring) (csv : list byte → option (list rstring * list (option (list rstring)))).
Context (order : entry_order).

(** [row_from_fields] *)
Definition row_from_fields (fields : list rstring) (idx : gmap mapped_field nat) : gap_expected :=
  let get f := idx !! f ≫= λ i, fields !! i ≫= λ s, let t := trim s in if bool_decide (t = []) then None else Some t in
  {| control_number := get ControlNumber; sha256 := to_lowercase <$> get Sha256; message_id := get MessageId; item_id := get ItemId;
     logical_hash := to_lowercase <$> get LogicalHash; custodian := get Custodian; file_name := get FileName;
     file_category := get FileCategory; mime_type := get MimeType; file_ext := get FileExt; date_sent := get DateSent;
     date_received := get DateReceived; date_created := get DateCreated |}.

(** The loop over the rows of both formats. *)
Fixpoint read_rows {A} (fields : A → gap_res (list rstring)) (idx : gmap mapped_field nat) (cap : Z) (rows : list gap_expected) (lines : list A)
    : gap_res (list gap_expected) :=
  match lines with
  | [] => Ok rows
  | line :: lines =>
      if cap <=? zlen rows then Err (DatTooManyRows (zlen rows + 1) cap) else
      fs ← fields line;
      read_rows fields idx cap (rows ++ [row_from_fields fs idx]) lines
  end.

(** [parse_concordance], [parse_simple_csv], [parse_dat_bytes] *)
Definition parse_concordance (bytes : list byte) (m : column_map) (caps : dat_caps) : gap_res parsed_dat :=
  match from_utf8 bytes with
  | None => Err NotUtf8
  | Some text =>
      match filter (λ l, trim l ≠ []) (lines_by LF CR [] text) with
      | [] => Err DatEmpty
      | header_line :: lines =>
          let headers := split_dat_line header_line in
          idx ← resolve_indices order m headers;
          rows ← read_rows (λ l, Ok (split_dat_line l)) idx (max_rows caps) [] lines;
          Ok {| pd_headers := headers; pd_rows := rows; pd_format := Concordance |}
      end
  end.
Definition parse_simple_csv (bytes : list byte) (m : column_map) (caps : dat_caps) : gap_res parsed_dat :=
  match csv bytes with
  | None => Err CsvFailed
  | Some (headers, records) =>
      idx ← resolve_indices order m headers;
      rows ← read_rows (λ r, match r with Some fs => Ok fs | None => Err CsvFailed end) idx (max_rows caps) [] records;
      Ok {| pd_headers := headers; pd_rows := rows; pd_format := Csv |}
  end.
Definition parse_dat_bytes (bytes : list byte) (m : column_map) (caps : dat_caps) : gap_res parsed_dat :=
  if max_bytes caps <? zlen bytes then Err (DatTooLarge (zlen bytes) (max_bytes caps)) else
  let stripped := strip_utf8_bom bytes in
  if looks_like_concordance stripped then parse_concordance stripped m caps else parse_simple_csv stripped m caps.
End parse.

(** * Lemmas *)

(** ** Characters *)

(** Joining two groups of bits. *)
Lemma lor_shift a b k : 0 <= k → 0 <= b < 2 ^ k → Z.lor (Z.shiftl a k) b = a * 2 ^ k + b.
Proof.
  intros Hk Hb.
  assert (Hand : Z.land (Z.shiftl a k) b = 0).
  { apply Z.bits_inj'. intros n Hn. rewrite Z.land_spec, Z.bits_0, Z.shiftl_spec by done. destruct (decide (n < k)).
    - by rewrite Z.testbit_neg_r by lia.
    - destruct (decide (b = 0)) as [->|]; [by rewrite Z.bits_0, andb_false_r|].
      rewrite (Z.bits_above_log2 b n), andb_false_r; [done|lia|]. apply Z.log2_lt_pow2; [lia|]. apply Z.lt_le_trans with (2 ^ k); [lia|].
      apply Z.pow_le_mono_r; lia. }
  rewrite <-Z.shiftl_mul_pow2, <-(Z.add_lor_land _ b), Hand by done. lia.
Qed.

Lemma u8_of_Z z : 0 <= z < 256 → u8 (byte.of_Z z) = z.
Proof. intros. unfold u8. rewrite byte.unsigned_of_Z. apply Z.mod_small. lia. Qed.

(** A scalar value is decoded from its encoding. *)
Lemma from_utf8_lossy_char c r : scalar c = true → from_utf8_lossy (utf8_char c ++ r) = c :: from_utf8_lossy r.
Proof.
  unfold scalar. intros Hc. rewrite !andb_true_iff, negb_true_iff, andb_false_iff, !Z.leb_le, !Z.leb_gt in Hc. destruct Hc as [[H0 H1] Hs].
  pose proof (Z.mod_pos_bound c 64 ltac:(done)) as Hm. pose proof (Z.mod_pos_bound (c / 64) 64 ltac:(done)) as Hm2.
  pose proof (Z.mod_pos_bound (c / 4096) 64 ltac:(done)) as Hm3. pose proof (Z.div_mod c 64 ltac:(done)) as Hd1.
  pose proof (Z.div_mod (c / 64) 64 ltac:(done)) as Hd2. pose proof (Z.div_mod (c / 4096) 64 ltac:(done)) as Hd3.
  rewrite Z.div_div in Hd2, Hd3 by done. change (64 * 64) with 4096 in *. change (4096 * 64) with 262144 in *.
  assert (Hlow : ∀ x, 0 <= x < 64 → Z.land (128 + x) 63 = x).
  { intros x Hx. change 63 with (Z.ones 6). rewrite Z.land_ones by done. change (2 ^ 6) with 64. replace (128 + x) with (x + 2 * 64) by lia.
    rewrite Z.mod_add by done. by apply Z.mod_small. }
  unfold utf8_char. destruct (c <? 0x80) eqn:E1; bool_to_Z.
  { cbn [map app from_utf8_lossy]. rewrite u8_of_Z by lia. by rewrite (proj2 (Z.ltb_lt c 128)). }
  destruct (c <? 0x800) eqn:E2; bool_to_Z.
  { assert (2 <= c / 64 < 32) by (split; [apply Z.div_le_lower_bound|apply Z.div_lt_upper_bound]; lia).
    cbn [map app from_utf8_lossy]. rewrite !u8_of_Z by lia. unfold in_range. rewrite (proj2 (Z.ltb_ge _ 128)) by lia.
    rewrite (proj2 (Z.leb_le 0xC2 _)), (proj2 (Z.leb_le _ 0xDF)), (proj2 (Z.leb_le 0x80 _)), (proj2 (Z.leb_le _ 0xBF)) by lia. cbn [andb].
    rewrite Hlow by done. replace (Z.land (0xC0 + c / 64) 0x1F) with (c / 64).
    - rewrite lor_shift by done. f_equal. change (2 ^ 6) with 64. lia.
    - change 0x1F with (Z.ones 5). rewrite Z.land_ones by done. change (2 ^ 5) with 32. replace (0xC0 + c / 64) with (c / 64 + 6 * 32) by lia.
      rewrite Z.mod_add by done. symmetry. apply Z.mod_small. lia. }
  destruct (c <? 0x10000) eqn:E3; bool_to_Z.
  { assert (0 <= c / 4096 < 16) by (split; [apply Z.div_le_lower_bound|apply Z.div_lt_upper_bound]; lia).
    assert (Hsecond : (if 0xE0 + c / 4096 =? 0xE0 then 0xA0 else 0x80) <= 0x80 + c / 64 mod 64 <= (if 0xE0 + c / 4096 =? 0xED then 0x9F else 0xBF)).
    { repeat case_match; bool_to_Z; lia. }
    cbn [map app from_utf8_lossy]. rewrite !u8_of_Z by lia. unfold in_range. rewrite (proj2 (Z.ltb_ge _ 128)) by lia.
    rewrite (proj2 (Z.leb_gt _ 0xDF)) by lia. rewrite andb_false_r.
    rewrite (proj2 (Z.leb_le 0xE0 _)), (proj2 (Z.leb_le _ 0xEF)) by lia. cbn [andb].
    rewrite (proj2 (Z.leb_le _ _) (proj1 Hsecond)), (proj2 (Z.leb_le _ _) (proj2 Hsecond)). cbn [andb].
    rewrite (proj2 (Z.leb_le 0x80 _)), (proj2 (Z.leb_le _ 0xBF)) by lia. cbn [andb]. rewrite !Hlow by done.
    replace (Z.land (0xE0 + c / 4096) 0x0F) with (c / 4096).
    - rewrite (lor_shift (c / 64 mod 64)) by done. rewrite lor_shift by (change (2 ^ 6) with 64; change (2 ^ 12) with 4096; lia).
      f_equal. change (2 ^ 6) with 64. change (2 ^ 12) with 4096. lia.
    - change 0x0F with (Z.ones 4). rewrite Z.land_ones by done. change (2 ^ 4) with 16. replace (0xE0 + c / 4096) with (c / 4096 + 14 * 16) by lia.
      rewrite Z.mod_add by done. symmetry. apply Z.mod_small. lia. }
  assert (0 <= c / 262144 <= 4) by (split; [apply Z.div_le_lower_bound|apply Z.lt_succ_r, Z.div_lt_upper_bound]; lia).
  assert (Hsecond : (if 0xF0 + c / 262144 =? 0xF0 then 0x90 else 0x80) <= 0x80 + c / 4096 mod 64 <= (if 0xF0 + c / 262144 =? 0xF4 then 0x8F else 0xBF)).
  { repeat case_match; bool_to_Z; lia. }
  cbn [map app from_utf8_lossy]. rewrite !u8_of_Z by lia. unfold in_range. rewrite (proj2 (Z.ltb_ge _ 128)) by lia.
  rewrite (proj2 (Z.leb_gt _ 0xDF)) by lia. rewrite andb_false_r. rewrite (proj2 (Z.leb_gt _ 0xEF)) by lia. rewrite andb_false_r.
  rewrite (proj2 (Z.leb_le 0xF0 _)), (proj2 (Z.leb_le _ 0xF4)) by lia. cbn [andb].
  rewrite (proj2 (Z.leb_le _ _) (proj1 Hsecond)), (proj2 (Z.leb_le _ _) (proj2 Hsecond)). cbn [andb].
  rewrite !(proj2 (Z.leb_le 0x80 _)), !(proj2 (Z.leb_le _ 0xBF)) by lia. cbn [andb]. rewrite !Hlow by done.
  replace (Z.land (0xF0 + c / 262144) 0x07) with (c / 262144).
  - rewrite (lor_shift (c / 64 mod 64)) by done. rewrite (lor_shift (c / 4096 mod 64)) by (change (2 ^ 6) with 64; change (2 ^ 12) with 4096; lia).
    rewrite lor_shift by (change (2 ^ 6) with 64; change (2 ^ 12) with 4096; change (2 ^ 18) with 262144; lia).
    f_equal. change (2 ^ 6) with 64. change (2 ^ 12) with 4096. change (2 ^ 18) with 262144. lia.
  - change 0x07 with (Z.ones 3). rewrite Z.land_ones by done. change (2 ^ 3) with 8. replace (0xF0 + c / 262144) with (c / 262144 + 30 * 8) by lia.
    rewrite Z.mod_add by done. symmetry. apply Z.mod_small. lia.
Qed.

Lemma from_utf8_text s : Forall (λ c, scalar c = true) s → from_utf8 (utf8 s) = Some s.
Proof.
  intros Hs. assert (Hl : from_utf8_lossy (utf8 s) = s).
  { induction Hs as [|c s Hc _ IH]; [done|]. unfold utf8 in *. cbn [mbind list_bind]. rewrite from_utf8_lossy_char by done. by rewrite IH. }
  unfold from_utf8. rewrite Hl. by rewrite bool_decide_true.
Qed.

(** ** Fields *)

(** The line ends of a field as line feeds. *)
Fixpoint unify_newlines (value : rstring) : rstring :=
  match value with
  | [] => []
  | c :: s =>
      if c =? CR then LF :: match s with
                            | d :: s' => if d =? LF then unify_newlines s' else unify_newlines s
                            | [] => []
                            end
      else c :: unify_newlines s
  end.

(** Induction over the characters, a carriage return with its line feed as one. *)
Lemma newline_ind (P : rstring → Prop) :
  P [] → (∀ s, P s → P (CR :: LF :: s)) → (∀ s, (∀ s', s ≠ LF :: s') → P s → P (CR :: s)) → (∀ c s, c ≠ CR → P s → P (c :: s)) → ∀ s, P s.
Proof.
  intros H0 H1 H2 H3 s. remember (length s) as n eqn:Hn. revert s Hn. induction (lt_wf n) as [n _ IH]. intros s ->.
  destruct s as [|c s]; [done|]. destruct (decide (c = CR)) as [->|Hc]; [|apply H3; [done|by eapply IH; [cbn [length]|done]; lia]].
  destruct s as [|d s]; [by apply H2; [|]|]. destruct (decide (d = LF)) as [->|Hd].
  - apply H1. eapply IH; [|done]. cbn [length]. lia.
  - apply H2; [by intros s' [= ->]|]. eapply IH; [|done]. cbn [length]. lia.
Qed.

Lemma encode_cr s : (∀ s', s ≠ LF :: s') → encode_dat_field (CR :: s) = DAT_NEWLINE :: encode_dat_field s.
Proof. intros Hs. cbn [encode_dat_field]. destruct s as [|d s]; [done|]. cbn. destruct (d =? LF) eqn:E; [|done]. bool_to_Z. subst d. by destruct (Hs s). Qed.
Lemma unify_cr s : (∀ s', s ≠ LF :: s') → unify_newlines (CR :: s) = LF :: unify_newlines s.
Proof. intros Hs. cbn [unify_newlines]. destruct s as [|d s]; [done|]. cbn. destruct (d =? LF) eqn:E; [|done]. bool_to_Z. subst d. by destruct (Hs s). Qed.

Lemma encode_unified v : encode_dat_field v = map (λ c, if c =? LF then DAT_NEWLINE else c) (unify_newlines v).
Proof.
  induction v as [|s IH|s Hs IH|c s Hc IH] using newline_ind; [done| | |].
  - cbn. by rewrite IH.
  - rewrite encode_cr, unify_cr by done. cbn [map]. by rewrite IH.
  - cbn [encode_dat_field unify_newlines]. rewrite (proj2 (Z.eqb_neq _ _) Hc). cbn [map]. rewrite IH. by destruct (c =? LF).
Qed.

Lemma unified_elem v x : x ∈ unify_newlines v → x ≠ LF → x ∈ v.
Proof.
  induction v as [|s IH|s Hs IH|c s Hc IH] using newline_ind; [done| | |].
  - cbn. intros [->|Hx]%elem_of_cons ?; [done|]. do 2 right. by apply IH.
  - rewrite unify_cr by done. intros [->|Hx]%elem_of_cons ?; [done|]. right. by apply IH.
  - cbn [unify_newlines]. rewrite (proj2 (Z.eqb_neq _ _) Hc). intros [->|Hx]%elem_of_cons ?; [by left|]. right. by apply IH.
Qed.
Lemma unified_no_cr v : CR ∉ unify_newlines v.
Proof.
  induction v as [|s IH|s Hs IH|c s Hc IH] using newline_ind; [apply not_elem_of_nil| | |].
  - cbn. apply not_elem_of_cons. by split.
  - rewrite unify_cr by done. apply not_elem_of_cons. by split.
  - cbn [unify_newlines]. rewrite (proj2 (Z.eqb_neq _ _) Hc). apply not_elem_of_cons. split; [congruence|done].
Qed.

(** What an encoded field does not hold. *)
Lemma encoded_elem v x : x ∈ encode_dat_field v → x ≠ LF ∧ x ≠ CR ∧ (x = DAT_NEWLINE ∨ x ∈ v).
Proof.
  rewrite encode_unified, list_elem_of_fmap. intros (c & -> & Hc). destruct (c =? LF) eqn:E; bool_to_Z; [split_and!; [done|done|by left]|].
  split_and!; [done|intros ->; by apply (unified_no_cr v)|]. right. by apply unified_elem.
Qed.

(** A field that can be told from its neighbours and from its newlines. *)
Definition clean_field (v : rstring) : Prop := Forall (λ c, scalar c = true ∧ c ≠ DAT_SEPARATOR ∧ c ≠ DAT_NEWLINE) v.

Lemma trim_framed a b m : scalar_whitespace a = false → scalar_whitespace b = false → trim (a :: m ++ [b]) = a :: m ++ [b].
Proof.
  intros Ha Hb. unfold trim. rewrite drop_while_id by done. unfold drop_while_end. change (a :: m ++ [b]) with ((a :: m) ++ [b]).
  rewrite reverse_app. cbn [reverse]. change (reverse [b]) with [b]. cbn [app]. rewrite drop_while_id by done.
  change (b :: reverse (a :: m)) with (reverse [b] ++ reverse (a :: m)). by rewrite <-reverse_app, reverse_involutive.
Qed.

Lemma decode_encoded v : clean_field v → decode_dat_field (DAT_QUALIFIER :: encode_dat_field v ++ [DAT_QUALIFIER]) = unify_newlines v.
Proof.
  intros Hv. unfold decode_dat_field. rewrite trim_framed by (vm_compute; reflexivity). cbv zeta. rewrite Z.eqb_refl.
  rewrite reverse_app. change (reverse [DAT_QUALIFIER]) with [DAT_QUALIFIER]. cbn [app]. rewrite Z.eqb_refl, reverse_involutive.
  rewrite encode_unified, map_map. rewrite <-(map_id (unify_newlines v)) at 2. apply map_ext_in. intros c Hc%list_elem_of_In.
  destruct (c =? LF) eqn:E; bool_to_Z; [by subst c|]. rewrite (proj2 (Z.eqb_neq _ _)); [done|].
  pose proof (unified_elem v c Hc E) as Hin. unfold clean_field in Hv. rewrite Forall_forall in Hv. by apply Hv.
Qed.

(** ** Lines *)

Lemma split_char_app sep cur a s : sep ∉ a → split_char sep cur (a ++ s) = split_char sep (cur ++ a) s.
Proof.
  revert cur. induction a as [|c a IH]; intros cur Ha; [by rewrite app_nil_r|]. apply not_elem_of_cons in Ha as [Hc Ha].
  cbn [app split_char]. rewrite (proj2 (Z.eqb_neq _ _)) by congruence. rewrite IH by done. by rewrite <-(assoc_L (++)).
Qed.

Definition framed (v : rstring) : rstring := DAT_QUALIFIER :: encode_dat_field v ++ [DAT_QUALIFIER].

Lemma framed_elem v x : x ∈ framed v → x = DAT_QUALIFIER ∨ (x ≠ LF ∧ x ≠ CR ∧ (x = DAT_NEWLINE ∨ x ∈ v)).
Proof. unfold framed. intros [->|[Hx|Hx%list_elem_of_singleton]%elem_of_app]%elem_of_cons; [by left|right; by apply encoded_elem|by left]. Qed.
Lemma framed_no_sep v : clean_field v → DAT_SEPARATOR ∉ framed v.
Proof. intros Hv [?|(_ & _ & [?|Hx])]%framed_elem; [done|done|]. unfold clean_field in Hv. rewrite Forall_forall in Hv. by apply Hv in Hx as (_ & ? & _). Qed.

Lemma write_fields_framed fs : write_dat_fields true fs = match fs with [] => [] | v :: fs => framed v ++ write_dat_fields false fs end.
Proof. destruct fs as [|v fs]; [done|]. unfold framed. cbn [write_dat_fields app]. by rewrite <-(assoc_L (++)). Qed.
Lemma write_fields_next v fs : write_dat_fields false (v :: fs) = DAT_SEPARATOR :: framed v ++ write_dat_fields false fs.
Proof. unfold framed. cbn [write_dat_fields app]. by rewrite <-(assoc_L (++)). Qed.

Lemma split_fields fs : ∀ cur, Forall clean_field fs → split_char DAT_SEPARATOR cur (write_dat_fields false fs) = cur :: map framed fs.
Proof.
  induction fs as [|v fs IH]; intros cur Hfs; [done|]. apply Forall_cons in Hfs as [Hv Hfs]. rewrite write_fields_next. cbn [split_char].
  rewrite Z.eqb_refl. f_equal. rewrite split_char_app by (by apply framed_no_sep). cbn [app map]. by rewrite IH.
Qed.

Lemma split_line_written fs : fs ≠ [] → Forall clean_field fs → split_dat_line (write_dat_fields true fs) = map unify_newlines fs.
Proof.
  intros Hne Hfs. rewrite write_fields_framed. destruct fs as [|v fs]; [done|]. apply Forall_cons in Hfs as [Hv Hfs]. unfold split_dat_line.
  rewrite split_char_app by (by apply framed_no_sep). cbn [app]. rewrite split_fields by done. cbn [map]. f_equal; [by apply decode_encoded|].
  rewrite map_map. apply map_ext_in. intros x Hx%list_elem_of_In. rewrite Forall_forall in Hfs. by apply decode_encoded, Hfs.
Qed.

(** A written line has no line end inside and is not blank. *)
Lemma written_fields_elem fs x : ∀ first, x ∈ write_dat_fields first fs → x ≠ LF ∧ x ≠ CR.
Proof.
  assert (Hf : ∀ v, x ∈ framed v → x ≠ LF ∧ x ≠ CR) by (intros v [->|(? & ? & _)]%framed_elem; done).
  assert (Hnext : x ∈ write_dat_fields false fs → x ≠ LF ∧ x ≠ CR).
  { induction fs as [|v fs IH]; [by intros ?%elem_of_nil|]. rewrite write_fields_next. intros [->|[Hx|Hx]%elem_of_app]%elem_of_cons; [done|by eapply Hf|by apply IH]. }
  intros [|]; [|done]. rewrite write_fields_framed. destruct fs as [|v fs]; [by intros ?%elem_of_nil|]. intros [Hx|Hx]%elem_of_app; [by eapply Hf|].
  apply Hnext. rewrite write_fields_next. right. apply elem_of_app. by right.
Qed.

Lemma lines_by_app {A} `{EqDecision A} (lf cr : A) cur a s : lf ∉ a → lines_by lf cr cur (a ++ lf :: s) = strip_cr cr (cur ++ a) :: lines_by lf cr [] s.
Proof.
  revert cur. induction a as [|c a IH]; intros cur Ha; cbn [app lines_by]; [by rewrite decide_True, app_nil_r|].
  apply not_elem_of_cons in Ha as [Hc Ha]. rewrite decide_False by congruence. rewrite IH by done. by rewrite <-(assoc_L (++)).
Qed.
Lemma strip_cr_id {A} `{EqDecision A} (cr : A) l : cr ∉ l → strip_cr cr l = l.
Proof.
  intros Hl. unfold strip_cr. destruct (reverse l) as [|x r] eqn:E; [done|]. rewrite decide_False; [done|]. intros ->. apply Hl.
  rewrite <-(reverse_involutive l), E. apply elem_of_reverse. by left.
Qed.
Lemma lines_written (rows : list (list rstring)) : lines_by LF CR [] (concat (map write_dat_line rows)) = map (write_dat_fields true) rows.
Proof.
  induction rows as [|fs rows IH]; [done|]. cbn [map concat]. unfold write_dat_line at 1. rewrite <-(assoc_L (++)). cbn [app].
  rewrite lines_by_app by (intros Hx; by apply written_fields_elem in Hx as [? _]). rewrite IH. f_equal. apply strip_cr_id. intros Hx.
  by apply written_fields_elem in Hx as [_ ?].
Qed.

Lemma written_not_blank fs : fs ≠ [] → trim (write_dat_fields true fs) ≠ [].
Proof.
  intros Hne Ht. rewrite write_fields_framed in Ht. destruct fs as [|v fs]; [done|]. unfold framed, trim in Ht. cbn [app] in Ht.
  rewrite drop_while_id in Ht by (vm_compute; reflexivity). destruct (drop_while_end_prefix scalar_whitespace (DAT_QUALIFIER :: (encode_dat_field v ++ [DAT_QUALIFIER]) ++ write_dat_fields false fs)) as (k & Hk & Hall).
  rewrite Ht in Hk. cbn [app] in Hk. rewrite <-Hk in Hall. by vm_compute in Hall.
Qed.
Lemma filter_lines rows : Forall (λ fs, fs ≠ []) rows → filter (λ l : rstring, trim l ≠ []) (map (write_dat_fields true) rows) = map (write_dat_fields true) rows.
Proof.
  induction 1 as [|fs rows Hfs _ IH]; [done|]. cbn [map]. rewrite filter_cons, decide_True by (by apply written_not_blank). by rewrite IH.
Qed.

(** ** Columns *)

(** The last header of which a property holds. *)
Fixpoint last_index (p : rstring → bool) (i : nat) (headers : list rstring) : option nat :=
  match headers with
  | [] => None
  | h :: headers => match last_index p (S i) headers with Some j => Some j | None => if p h then Some i else None end
  end.

(** The column that a header of the map resolves to: the last one of that name, or else
    the last one of that name in another case. *)
Definition index_of (headers : list rstring) (h : rstring) : option nat :=
  match last_index (λ x, bool_decide (x = h)) 0 headers with
  | Some i => Some i
  | None => last_index (λ x, bool_decide (to_ascii_uppercase x = to_ascii_uppercase h)) 0 headers
  end.

Lemma index_headers_last f headers k : index_headers f headers !! k = last_index (λ x, bool_decide (f x = k)) 0 headers.
Proof.
  unfold index_headers.
  assert (H : ∀ i (m : gmap rstring nat), foldl (λ m p, <[f p.2 := p.1]> m) m (imap (λ j h, ((i + j)%nat, h)) headers) !! k =
    match last_index (λ x, bool_decide (f x = k)) i headers with Some j => Some j | None => m !! k end).
  { induction headers as [|h headers IH]; intros i m; [done|]. cbn [imap foldl last_index fst snd]. rewrite Nat.add_0_r.
    rewrite (imap_ext _ (λ j h, ((S i + j)%nat, h))) by (intros j x _; cbn; f_equal; lia). rewrite (IH (S i)).
    destruct (last_index _ (S i) headers); [done|]. case_bool_decide as Hk; [by rewrite Hk, lookup_insert_eq|by rewrite lookup_insert_ne]. }
  specialize (H 0%nat ∅). cbn [Nat.add] in H. rewrite H. by destruct (last_index _ 0 headers).
Qed.

Lemma index_of_found headers h :
  match index_headers id headers !! h with
  | Some i => Some i
  | None => index_headers to_ascii_uppercase headers !! to_ascii_uppercase h
  end = index_of headers h.
Proof. unfold index_of. by rewrite !index_headers_last. Qed.

Lemma resolve_fold headers l : ∀ out missing,
  NoDup (map snd l) →
  let r := foldl (resolve_entry headers) (out, missing) l in
  (∀ h f, (h, f) ∈ l → r.1 !! f = match index_of headers h with Some i => Some i | None => out !! f end) ∧
  (∀ f, f ∉ map snd l → r.1 !! f = out !! f) ∧
  r.2 = missing ++ filter (λ h, index_of headers h = None ∧ is_core_header h = true) (map fst l).
Proof.
  induction l as [|[h f] l IH]; intros out missing Hnd; [split_and!; [by intros ? ? ?%elem_of_nil|done|by rewrite app_nil_r]|].
  apply NoDup_cons in Hnd as [Hf Hnd]. cbn [map fst snd foldl]. unfold resolve_entry at 2 4 6. cbn [fst snd]. rewrite index_of_found.
  assert (Hstep : ∃ out1 missing1, (match index_of headers h with Some i => (<[f := i]> out, missing)
    | None => if is_core_header h then (out, missing ++ [h]) else (out, missing) end) = (out1, missing1) ∧
    out1 !! f = match index_of headers h with Some i => Some i | None => out !! f end ∧ (∀ g, g ≠ f → out1 !! g = out !! g) ∧
    missing1 = missing ++ filter (λ h, index_of headers h = None ∧ is_core_header h = true) [h]).
  { rewrite filter_cons, filter_nil. destruct (index_of headers h) as [i|] eqn:Hi.
    - eexists _, _. split; [done|]. rewrite decide_False by (by intros [? _]). rewrite app_nil_r. split_and!; [apply lookup_insert_eq|intros; by apply lookup_insert_ne|done].
    - destruct (is_core_header h) eqn:Hc; eexists _, _; (split; [done|]); (split_and!; [done|done|]).
      + by rewrite decide_True.
      + rewrite decide_False by (by intros [_ ?]). by rewrite app_nil_r. }
  destruct Hstep as (out1 & missing1 & -> & H1 & H2 & ->). specialize (IH out1 (missing ++ filter (λ h, index_of headers h = None ∧ is_core_header h = true) [h]) Hnd).
  cbv zeta in IH. destruct IH as (I1 & I2 & I3). split_and!.
  - intros h' f' [[= -> ->]|Hin]%elem_of_cons; [by rewrite (I2 f Hf), H1|]. rewrite (I1 h' f' Hin). destruct (index_of headers h'); [done|].
    apply H2. intros ->. apply Hf. by apply (list_elem_of_fmap_2 snd _ (h', f)).
  - intros g [Hg Hg']%not_elem_of_cons. by rewrite (I2 g Hg'), H2.
  - rewrite I3, <-(assoc_L (++)). f_equal. by rewrite <-filter_app.
Qed.

Section resolving.
Context (order : entry_order).

(** One header per field: what a hash map gives does not depend on its order. *)
Definition one_header (m : column_map) : Prop := ∀ h h' f, m !! h = Some f → m !! h' = Some f → h = h'.

(** The column of a field, the core headers that a file lacks, and whether a field that
    documents are joined by has a column. *)
Definition column_for (m : column_map) (headers : list rstring) (f : mapped_field) : option nat :=
  match filter (λ p, p.2 = f) (map_to_list m) with p :: _ => index_of headers p.1 | [] => None end.
Definition lacking (m : column_map) (headers : list rstring) : list rstring :=
  filter (λ h, index_of headers h = None ∧ is_core_header h = true) (map fst (entries_of order m)).
Definition joinable (m : column_map) (headers : list rstring) : bool :=
  existsb (λ f, bool_decide (is_Some (column_for m headers f))) [ControlNumber; Sha256; MessageId; ItemId; LogicalHash].

Lemma entries_elem (m : column_map) h f : (h, f) ∈ entries_of order m ↔ m !! h = Some f.
Proof using. by rewrite (entries_perm order), elem_of_map_to_list. Qed.

Lemma entries_one_field (m : column_map) : one_header m → NoDup (map snd (entries_of order m)).
Proof using.
  intros Hone. assert (Hnd : NoDup (map fst (entries_of order m))) by (rewrite (entries_perm order); apply NoDup_fst_map_to_list).
  assert (Hin : ∀ h f, (h, f) ∈ entries_of order m → m !! h = Some f) by (intros h f; apply entries_elem). revert Hnd Hin.
  induction (entries_of order m) as [|[h f] l IH]; intros Hnd Hin; [constructor|].
  apply NoDup_cons in Hnd as [Hh Hnd]. cbn [map snd fst] in *. apply NoDup_cons. split; [|apply IH; [done|set_solver]].
  intros ([h' f'] & -> & Hl)%list_elem_of_fmap. assert (h = h') as ->; [|by apply Hh, (list_elem_of_fmap_2 fst _ (h', f'))].
  eapply Hone; [apply Hin; by left|]. apply Hin. by right.
Qed.

Lemma column_for_entry (m : column_map) headers h f : one_header m → m !! h = Some f → column_for m headers f = index_of headers h.
Proof using.
  intros Hone Hm. unfold column_for. destruct (filter _ _) as [|[h' f'] l] eqn:E.
  - exfalso. assert (Hin : (h, f) ∈ filter (λ p : rstring * mapped_field, p.2 = f) (map_to_list m)) by (apply list_elem_of_filter; split; [done|by apply elem_of_map_to_list]).
    rewrite E in Hin. by apply elem_of_nil in Hin.
  - assert (Hin : (h', f') ∈ filter (λ p : rstring * mapped_field, p.2 = f) (map_to_list m)) by (rewrite E; by left).
    apply list_elem_of_filter in Hin as [Hf Hin%elem_of_map_to_list]. simpl in Hf. subst f'. cbn [fst]. by rewrite (Hone h' h f).
Qed.

Lemma column_for_none (m : column_map) headers f : (∀ h, m !! h ≠ Some f) → column_for m headers f = None.
Proof using.
  intros Hm. unfold column_for. destruct (filter _ _) as [|[h' f'] l] eqn:E; [done|exfalso].
  assert (Hin : (h', f') ∈ filter (λ p : rstring * mapped_field, p.2 = f) (map_to_list m)) by (rewrite E; by left).
  apply list_elem_of_filter in Hin as [Hf Hin%elem_of_map_to_list]. simpl in Hf. subst f'. by apply (Hm h').
Qed.

(** What resolving the columns gives, on every branch. *)
Lemma resolve_spec (m : column_map) headers :
  one_header m →
  match resolve_indices order m headers with
  | Ok idx => lacking m headers = [] ∧ joinable m headers = true ∧ ∀ f, idx !! f = column_for m headers f
  | Err (InvalidDatHeader missing) => missing = lacking m headers ∧ lacking m headers ≠ []
  | Err NoJoinKey => lacking m headers = [] ∧ joinable m headers = false
  | _ => False
  end.
Proof using.
  intros Hone. pose proof (resolve_fold headers _ ∅ [] (entries_one_field m Hone)) as Hfold. cbv zeta in Hfold. unfold resolve_indices.
  destruct (foldl (resolve_entry headers) (∅, []) (entries_of order m)) as [out missing]. cbn [fst snd] in Hfold.
  destruct Hfold as (Hin & Hnot & Hmissing). cbn [app] in Hmissing. fold (lacking m headers) in Hmissing.
  assert (Hout : ∀ f, out !! f = column_for m headers f).
  { intros f. destruct (decide (f ∈ map snd (entries_of order m))) as [Hf|Hf].
    - apply list_elem_of_fmap in Hf as ([h f'] & -> & Hl). cbn [snd]. rewrite (Hin h f' Hl), lookup_empty.
      apply entries_elem in Hl. rewrite (column_for_entry m headers h f') by done. by destruct (index_of headers h).
    - rewrite (Hnot f Hf), lookup_empty, column_for_none; [done|]. intros h Hh. apply Hf.
      apply entries_elem in Hh. by apply (list_elem_of_fmap_2 snd _ (h, f)). }
  assert (Hcore : filter (λ h, is_core_header h = true) missing = missing).
  { rewrite Hmissing. unfold lacking. rewrite list_filter_filter. apply list_filter_iff. tauto. }
  rewrite Hcore. case_bool_decide as Hm; cbn [negb]; [|by rewrite <-Hmissing].
  assert (Hj : existsb (λ f, bool_decide (is_Some (out !! f))) [ControlNumber; Sha256; MessageId; ItemId; LogicalHash] = joinable m headers).
  { unfold joinable. cbn [existsb]. by rewrite !Hout. }
  rewrite Hj. destruct (joinable m headers) eqn:Ej; cbn [negb]; (split; [congruence|]); done.
Qed.

End resolving.

Section round_trip.
Context (to_lowercase : rstring → rstring) (csv : list byte → option (list rstring * list (option (list rstring)))) (order : entry_order).

Lemma read_rows_lines idx cap lines : ∀ rows,
  zlen rows <= cap →
  read_rows to_lowercase (λ l, Ok (split_dat_line l)) idx cap rows lines =
  if zlen rows + zlen lines <=? cap then Ok (rows ++ map (λ l, row_from_fields to_lowercase (split_dat_line l) idx) lines)
  else Err (DatTooManyRows (cap + 1) cap).
Proof using.
  induction lines as [|l lines IH]; intros rows Hz; cbn [read_rows map].
  { change (zlen []) with 0. rewrite (proj2 (Z.leb_le _ _)) by lia. by rewrite app_nil_r. }
  rewrite zlen_cons. pose proof (zlen_nonneg lines). destruct (cap <=? zlen rows) eqn:E; bool_to_Z.
  - rewrite (proj2 (Z.leb_gt _ _)) by lia. by replace (zlen rows) with cap by lia.
  - rewrite bind_ok, IH by (rewrite zlen_app; change (zlen [_]) with 1; lia). rewrite zlen_app. change (zlen [_]) with 1.
    rewrite <-(assoc_L (++)). cbn [app]. by replace (zlen rows + 1 + zlen lines) with (zlen rows + (1 + zlen lines)) by lia.
Qed.

(** Whatever the columns, what was written is split into its fields, whose line ends are
    line feeds. *)
Lemma parse_written (headers : list rstring) (rows : list (list rstring)) (m : column_map) caps :
  headers ≠ [] → Forall (λ fs, fs ≠ []) rows → Forall (Forall clean_field) (headers :: rows) → 0 <= max_rows caps →
  let file := UTF8_BOM ++ utf8 (write_dat_line headers ++ concat (map write_dat_line rows)) in
  parse_dat_bytes to_lowercase csv order file m caps =
  if max_bytes caps <? zlen file then Err (DatTooLarge (zlen file) (max_bytes caps)) else
  idx ← resolve_indices order m (map unify_newlines headers);
  if zlen rows <=? max_rows caps
  then Ok {| pd_headers := map unify_newlines headers;
             pd_rows := map (λ fs, row_from_fields to_lowercase (map unify_newlines fs) idx) rows; pd_format := Concordance |}
  else Err (DatTooManyRows (max_rows caps + 1) (max_rows caps)).
Proof using.
  intros Hh Hne Hclean Hcap file. set (text := write_dat_line headers ++ concat (map write_dat_line rows)) in *.
  unfold parse_dat_bytes. case_match; [done|].
  assert (Hstrip : strip_utf8_bom file = utf8 text) by (unfold strip_utf8_bom, file; by rewrite starts_with_app). rewrite Hstrip.
  assert (Htext : text = DAT_QUALIFIER :: tail text).
  { unfold text, write_dat_line. rewrite write_fields_framed. by destruct headers. }
  assert (Hsniff : looks_like_concordance (utf8 text) = true).
  { rewrite Htext. unfold looks_like_concordance. cbv zeta. unfold utf8. cbn [mbind list_bind]. change (utf8_char DAT_QUALIFIER) with [Byte.xc3; Byte.xbe]. cbn [app take].
    rewrite (bool_decide_true (Byte.xc3 ∈ _)) by (by left). by rewrite orb_true_r. }
  rewrite Hsniff. unfold parse_concordance. rewrite from_utf8_text.
  2: { unfold text. change (write_dat_line headers ++ concat (map write_dat_line rows)) with (concat (map write_dat_line (headers :: rows))).
    clear -Hclean. apply Forall_concat, Forall_map. eapply Forall_impl; [exact Hclean|]. intros fs Hfs. unfold compose. apply Forall_forall. intros x Hx.
    unfold write_dat_line in Hx. apply elem_of_app in Hx as [Hx|Hx%list_elem_of_singleton]; [|by subst x].
    assert (Hf : ∀ v, clean_field v → x ∈ framed v → scalar x = true).
    { intros v Hv [->|(_ & _ & [->|Hv'])]%framed_elem; [done|done|]. unfold clean_field in Hv. rewrite Forall_forall in Hv. by apply Hv. }
    assert (Hnext : ∀ gs, Forall clean_field gs → x ∈ write_dat_fields false gs → scalar x = true).
    { induction 1 as [|v gs Hv _ IH]; [by intros ?%elem_of_nil|]. rewrite write_fields_next. intros [->|[Hx'|Hx']%elem_of_app]%elem_of_cons; [done|by eapply Hf|by apply IH]. }
    rewrite write_fields_framed in Hx. destruct Hfs as [|v gs Hv Hgs]; [by apply elem_of_nil in Hx|]. apply elem_of_app in Hx as [Hx|Hx]; [by eapply Hf|by eapply Hnext]. }
  unfold text. change (write_dat_line headers ++ concat (map write_dat_line rows)) with (concat (map write_dat_line (headers :: rows))).
  rewrite lines_written, filter_lines by (by constructor). cbn [map]. apply Forall_cons in Hclean as [Hhc Hrc]. rewrite split_line_written by done.
  destruct (resolve_indices order m (map unify_newlines headers)) as [idx|e| |]; [|done..]. rewrite !bind_ok.
  rewrite read_rows_lines by done. cbn [app]. change (zlen []) with 0. rewrite Z.add_0_l.
  assert (Hz : zlen (map (write_dat_fields true) rows) = zlen rows) by (unfold zlen; by rewrite length_map). rewrite Hz.
  case_match; [|done]. rewrite bind_ok. do 2 f_equal. rewrite map_map. apply map_ext_in. intros fs Hfs%list_elem_of_In.
  rewrite Forall_forall in Hne, Hrc. by rewrite split_line_written by auto.
Qed.
End round_trip.

(** * Theorems *)

Section theorems.
Context (to_lowercase : rstring → rstring) (csv : list byte → option (list rstring * list (option (list rstring)))) (order : entry_order).

(** The columns of a load file, and the values of a row: those of the profile's field
    map, or the canonical ones. *)
Definition columns (fm : option (list field_map_entry)) : list rstring :=
  match fm with Some m => mapped_headers m | None => DAT_FIELDS end.
Definition row_values (fm : option (list field_map_entry)) (r : load_row) : list rstring :=
  match fm with Some m => mapped_values r m | None => field_values r end.

(** What the parser keeps of a written value: the value of the field's column in a row. *)
Definition kept (v : rstring) : option rstring := let t := trim (unify_newlines v) in if bool_decide (t = []) then None else Some t.
Definition reread_row (m : column_map) (headers values : list rstring) : gap_expected :=
  let get f := column_for m headers f ≫= λ i, values !! i ≫= kept in
  {| control_number := get ControlNumber; sha256 := to_lowercase <$> get Sha256; message_id := get MessageId; item_id := get ItemId;
     logical_hash := to_lowercase <$> get LogicalHash; custodian := get Custodian; file_name := get FileName;
     file_category := get FileCategory; mime_type := get MimeType; file_ext := get FileExt; date_sent := get DateSent;
     date_received := get DateReceived; date_created := get DateCreated |}.

(** The row that the default column map finds under the canonical headers. *)
Definition canonical_row (r : load_row) : gap_expected :=
  {| control_number := kept (lr_control_number r); sha256 := to_lowercase <$> kept (lr_sha256 r); message_id := None;
     item_id := kept (lr_item_id r); logical_hash := None; custodian := kept (lr_custodian r); file_name := kept (lr_file_name r);
     file_category := kept (lr_file_category r); mime_type := kept (lr_mime_type r); file_ext := kept (lr_file_ext r);
     date_sent := kept (lr_date_sent r); date_received := kept (lr_date_received r); date_created := kept (lr_date_created r) |}.

Lemma reread_fields (m : column_map) headers values idx :
  (∀ f, idx !! f = column_for m headers f) → row_from_fields to_lowercase (map unify_newlines values) idx = reread_row m headers values.
Proof using.
  intros Hidx. unfold row_from_fields, reread_row. cbv zeta. rewrite !Hidx.
  assert (Hget : ∀ o : option nat, (o ≫= λ i, map unify_newlines values !! i ≫= λ s, if bool_decide (trim s = []) then None else Some (trim s)) =
    o ≫= λ i, values !! i ≫= kept).
  { intros [i|]; [|done]. cbn [mbind option_bind]. rewrite list_lookup_fmap. by destruct (values !! i). }
  by rewrite !Hget.
Qed.

Lemma source_value_clean r source : Forall clean_field (field_values r) → clean_field (value_for_source r source).
Proof using.
  intros Hr. unfold value_for_source. cbv zeta. destruct (find _ _) as [p|] eqn:E; [|constructor].
  apply find_some in E as [Hin _]. rewrite Forall_forall in Hr. apply Hr. destruct p as [h v]. apply (elem_of_zip_r h v DAT_FIELDS). by apply list_elem_of_In.
Qed.

Lemma row_values_clean fm r : Forall clean_field (field_values r) → Forall clean_field (row_values fm r).
Proof using.
  intros Hr. destruct fm as [m|]; [|done]. unfold row_values, mapped_values. apply Forall_map, Forall_forall. intros e _. by apply source_value_clean.
Qed.

Lemma row_values_columns fm r : columns fm ≠ [] → row_values fm r ≠ [].
Proof using. destruct fm as [m|]; [|done]. unfold columns, row_values, mapped_headers, mapped_values. by destruct (filter _ m). Qed.

(** A written file, read with any column map. *)
Lemma parse_load_file fm rows m caps :
  columns fm ≠ [] → Forall clean_field (columns fm) → Forall (λ r, Forall clean_field (field_values r)) rows → 0 <= max_rows caps → one_header m →
  let file := write_load_dat_mapped rows fm in
  let headers := map unify_newlines (columns fm) in
  parse_dat_bytes to_lowercase csv order file m caps =
  if max_bytes caps <? zlen file then Err (DatTooLarge (zlen file) (max_bytes caps)) else
  if negb (bool_decide (lacking order m headers = [])) then Err (InvalidDatHeader (lacking order m headers)) else
  if negb (joinable m headers) then Err NoJoinKey else
  if zlen rows <=? max_rows caps
  then Ok {| pd_headers := headers; pd_rows := map (λ r, reread_row m headers (row_values fm r)) rows; pd_format := Concordance |}
  else Err (DatTooManyRows (max_rows caps + 1) (max_rows caps)).
Proof using.
  intros Hcols Hhead Hrows Hcap Hone file headers.
  pose proof (parse_written to_lowercase csv order (columns fm) (map (row_values fm) rows) m caps) as Hparse. cbv zeta in Hparse.
  assert (Hfile : file = UTF8_BOM ++ utf8 (write_dat_line (columns fm) ++ concat (map write_dat_line (map (row_values fm) rows)))).
  { unfold file, write_load_dat_mapped. by destruct fm as [fm|]; rewrite map_map. }
  rewrite <-Hfile in Hparse. rewrite Hparse; clear Hparse; [|done| | |done].
  - case_match; [done|]. fold headers. pose proof (resolve_spec order m headers Hone) as Hres.
    assert (zlen (map (row_values fm) rows) = zlen rows) as -> by (unfold zlen; by rewrite length_map).
    destruct (resolve_indices order m headers) as [idx|[missing| | | | | | | |]| |]; try done.
    + destruct Hres as (-> & -> & Hidx). rewrite bind_ok. cbn [negb]. rewrite bool_decide_true by done. cbn [negb].
      case_match; [|done]. do 2 f_equal. rewrite map_map. apply map_ext. intros r. by apply reread_fields.
    + destruct Hres as [-> Hne]. by rewrite (bool_decide_false (lacking order m headers = [])).
    + destruct Hres as [-> ->]. by rewrite bool_decide_true.
  - apply Forall_map, Forall_forall. intros r _. by apply row_values_columns.
  - constructor; [done|]. apply Forall_map. eapply Forall_impl; [exact Hrows|]. intros r. apply row_values_clean.
Qed.

(** *** The built-in profiles under the default column map *)

Lemma default_one_header : one_header default_produce_v1.
Proof using.
  assert (Hm : map_to_list default_produce_v1 ≡ₚ default_pairs) by (apply map_to_list_to_map; apply (bool_decide_unpack _); vm_compute; exact I).
  assert (Hnd : NoDup (map snd (map_to_list default_produce_v1))) by (rewrite Hm; apply (bool_decide_unpack _); vm_compute; exact I).
  intros h h' f H1%elem_of_map_to_list H2%elem_of_map_to_list. apply list_elem_of_lookup in H1 as [i H1]. apply list_elem_of_lookup in H2 as [j H2].
  assert (i = j) as ->; [|congruence]. apply (NoDup_lookup _ i j f Hnd); by rewrite list_lookup_fmap, ?H1, ?H2.
Qed.

Lemma default_lacking headers : lacking order default_produce_v1 headers ≡ₚ
  filter (λ h, index_of headers h = None ∧ is_core_header h = true) (map fst default_pairs).
Proof using.
  unfold lacking. rewrite (entries_perm order). assert (Hm : map_to_list default_produce_v1 ≡ₚ default_pairs); [|by rewrite Hm].
  apply map_to_list_to_map. apply (bool_decide_unpack _). vm_compute. exact I.
Qed.

Definition canonical_profile (fm : option (list field_map_entry)) : Prop := fm ∈ [None; Some identity_field_map; Some us_date_field_map].

(** Each canonical source selects its own value. *)
Lemma canonical_values (vs : list rstring) :
  length vs = 26%nat →
  map (λ s, match find (λ p, bool_decide (p.1 = to_ascii_uppercase (trim s))) (zip DAT_FIELDS vs) with Some p => p.2 | None => [] end) DAT_FIELDS = vs.
Proof using.
  intros Hlen. do 26 (destruct vs as [|? vs]; [discriminate Hlen|]). destruct vs; [|discriminate Hlen]. vm_compute. reflexivity.
Qed.

Lemma mapped_canonical m r : map fm_source (filter (λ e, fm_include e = true) m) = DAT_FIELDS → row_values (Some m) r = field_values r.
Proof using.
  intros Hm. transitivity (map (value_for_source r) DAT_FIELDS); [by rewrite <-Hm, map_map|by apply canonical_values].
Qed.

Lemma canonical_columns fm : canonical_profile fm → columns fm = DAT_FIELDS ∧ ∀ r, row_values fm r = field_values r.
Proof using.
  intros [->|[->|[->|H]%elem_of_cons]%elem_of_cons]%elem_of_cons; [| | |by apply elem_of_nil in H];
    (split; [vm_compute; reflexivity|]); [done|intros r; apply mapped_canonical; vm_compute; reflexivity..].
Qed.

Lemma canonical_reread r : reread_row default_produce_v1 DAT_FIELDS (field_values r) = canonical_row r.
Proof using.
  assert (Hcol : ∀ h f i, default_produce_v1 !! h = Some f → index_of DAT_FIELDS h = i → column_for default_produce_v1 DAT_FIELDS f = i).
  { intros h f i Hh <-. by apply column_for_entry; [apply default_one_header|]. }
  unfold reread_row. cbv zeta.
  rewrite (Hcol (lit "CONTROL_NUMBER") ControlNumber (Some 2%nat)), (Hcol (lit "SHA256") Sha256 (Some 12%nat)), (Hcol (lit "ITEM_ID") ItemId (Some 3%nat)),
    (Hcol (lit "CUSTODIAN") Custodian (Some 6%nat)), (Hcol (lit "FILE_NAME") FileName (Some 7%nat)), (Hcol (lit "FILE_EXT") FileExt (Some 8%nat)),
    (Hcol (lit "FILE_CATEGORY") FileCategory (Some 9%nat)), (Hcol (lit "MIME_TYPE") MimeType (Some 10%nat)), (Hcol (lit "DATE_SENT") DateSent (Some 13%nat)),
    (Hcol (lit "DATE_RECEIVED") DateReceived (Some 14%nat)), (Hcol (lit "DATE_CREATED") DateCreated (Some 15%nat)), (Hcol (lit "MESSAGE_ID") MessageId None),
    (Hcol (lit "LOGICAL_HASH") LogicalHash None) by (vm_compute; reflexivity).
  reflexivity.
Qed.

(** C10 A load file comes back.  Whatever the field map of the production's profile, as
    long as it includes a column and neither a header nor a value contains the
    separator or the newline mark of the format, and whatever column map with one
    header per field and whatever the order of its hash map, the gap analysis decides
    on the written file as follows.  A file above the byte cap is refused; then one in
    which a core header of the column map has no column, and one without a column to
    join by; then one with more rows than the row cap; and otherwise every row comes
    back in order, each field with the value of the last column of its header, trimmed
    and with its line ends as line feeds, blank ones absent, hashes in lower case.  In
    particular, under the default column map, every row of a file with the canonical
    columns (no field map, or those of the default, strict and image profiles) comes
    back with all its fields, and a file of the Relativity profile is refused for its
    headers. *)
Theorem load_file_round_trip fm rows m caps
    (Hcols : columns fm ≠ []) (Hhead : Forall clean_field (columns fm))
    (Hrows : Forall (λ r, Forall clean_field (field_values r)) rows) (Hcap : 0 <= max_rows caps) (Hone : one_header m) :
  let file := write_load_dat_mapped rows fm in
  let headers := map unify_newlines (columns fm) in
  let parsed := parse_dat_bytes to_lowercase csv order file m caps in
  parsed =
    (if max_bytes caps <? zlen file then Err (DatTooLarge (zlen file) (max_bytes caps)) else
     if negb (bool_decide (lacking order m headers = [])) then Err (InvalidDatHeader (lacking order m headers)) else
     if negb (joinable m headers) then Err NoJoinKey else
     if zlen rows <=? max_rows caps
     then Ok {| pd_headers := headers; pd_rows := map (λ r, reread_row m headers (row_values fm r)) rows; pd_format := Concordance |}
     else Err (DatTooManyRows (max_rows caps + 1) (max_rows caps))) ∧
  (m = default_produce_v1 → zlen file <= max_bytes caps →
    (canonical_profile fm → zlen rows <= max_rows caps →
       parsed = Ok {| pd_headers := DAT_FIELDS; pd_rows := map canonical_row rows; pd_format := Concordance |}) ∧
    (fm = Some relativity_alias_field_map →
       ∃ missing, parsed = Err (InvalidDatHeader missing) ∧ missing ≡ₚ map lit ["CONTROL_NUMBER"; "SHA256"; "ITEM_ID"; "FILE_NAME"]%string)).
Proof using.
  intros file headers parsed. pose proof (parse_load_file fm rows m caps Hcols Hhead Hrows Hcap Hone) as Hp. cbv zeta in Hp.
  split; [exact Hp|]. intros -> Hfile. fold file headers parsed in Hp. rewrite (proj2 (Z.ltb_ge _ _) Hfile) in Hp.
  pose proof (default_lacking headers) as Hlack. split.
  - intros [Hc Hv]%canonical_columns Hz.
    assert (Hh : headers = DAT_FIELDS) by (unfold headers; rewrite Hc; vm_compute; reflexivity).
    rewrite Hh in Hp, Hlack. rewrite Hp. clear Hp.
    assert (lacking order default_produce_v1 DAT_FIELDS = []) as -> by (apply Permutation_nil_r; rewrite Hlack; vm_compute; constructor).
    rewrite bool_decide_true by done. assert (joinable default_produce_v1 DAT_FIELDS = true) as -> by (vm_compute; reflexivity). cbn [negb].
    rewrite (proj2 (Z.leb_le _ _) Hz). do 2 f_equal. apply map_ext. intros r. rewrite Hv. apply canonical_reread.
  - intros ->. rewrite Hp. assert (Hl : lacking order default_produce_v1 headers ≡ₚ map lit ["CONTROL_NUMBER"; "SHA256"; "ITEM_ID"; "FILE_NAME"]%string).
    { rewrite Hlack. vm_compute. reflexivity. }
    rewrite bool_decide_false by (intros Hn; rewrite Hn in Hl; by apply Permutation_nil_l in Hl). cbn [negb]. by eexists.
Qed.
End theorems.

(** ** Concrete files *)

Definition sorted_entries : entry_order.
Proof. refine {| entries_of A m := map_to_list m |}. intros A m. reflexivity. Defined.
Definition reversed_entries : entry_order.
Proof. refine {| entries_of A m := reverse (map_to_list m) |}. intros A m. apply reverse_Permutation. Defined.

Definition sample_row (name custodian : rstring) : load_row :=
  {| lr_control_number := lit "PROD0001"; end_bates := []; lr_item_id := lit "item_1"; lr_parent_item_id := []; lr_family_id := [];
     lr_custodian := custodian; lr_file_name := name; lr_file_ext := lit "pdf"; lr_file_category := lit "document"; lr_mime_type := [];
     file_size := lit "10"; lr_sha256 := lit "AABB"; lr_date_sent := []; lr_date_received := []; lr_date_created := []; lr_from := [];
     lr_to := []; lr_cc := []; lr_bcc := []; lr_subject := []; native_path := []; text_path := []; has_redacted_text := lit "N";
     withheld := lit "N"; prod_status := lit "ok" |}.
Definition sample_caps : dat_caps := {| max_bytes := 10000; max_rows := 10 |}.
Definition no_csv (bytes : list byte) : option (list rstring * list (option (list rstring))) := None.

(** A custodian over two lines with an accent; the columns of the Relativity profile as a
    user may map them. *)
Definition accented_row : load_row := sample_row (lit "a.pdf") ([0xE9] ++ lit "ve" ++ [13; 10] ++ lit "Ann ").
Definition alias_pairs : list (rstring * mapped_field) :=
  [(lit "Control Number Alt", ControlNumber); (lit "sha256 hash", Sha256); (lit "File Name", FileName)].
Definition alias_map : column_map := list_to_map alias_pairs.
Definition produced (fm : option (list field_map_entry)) : list byte := write_load_dat_mapped [accented_row] fm.
Definition parse_sample : list byte → column_map → gap_res parsed_dat :=
  λ file m, parse_dat_bytes to_ascii_lowercase no_csv sorted_entries file m sample_caps.

Lemma alias_one_header : one_header alias_map.
Proof.
  assert (Hall : Forall (λ p, Forall (λ q, p.2 = q.2 → p.1 = q.1) (map_to_list alias_map)) (map_to_list alias_map)).
  { apply (bool_decide_unpack _). vm_compute. exact I. }
  intros h h' f H1%elem_of_map_to_list H2%elem_of_map_to_list. rewrite Forall_forall in Hall. specialize (Hall _ H1).
  rewrite Forall_forall in Hall. by apply (Hall _ H2).
Qed.

Lemma load_file_round_trip_witness :
  parse_sample (produced (Some us_date_field_map)) default_produce_v1 =
    Ok {| pd_headers := DAT_FIELDS; pd_rows := [canonical_row to_ascii_lowercase accented_row]; pd_format := Concordance |} ∧
  (∃ missing, parse_sample (produced (Some relativity_alias_field_map)) default_produce_v1 = Err (InvalidDatHeader missing) ∧ length missing = 4%nat) ∧
  match parse_sample (produced (Some relativity_alias_field_map)) alias_map with
  | Ok p => map (λ r, (control_number r, sha256 r, file_name r, custodian r)) (pd_rows p)
  | _ => [] end = [(Some (lit "PROD0001"), Some (lit "aabb"), Some (lit "a.pdf"), None)].
Proof.
  assert (Hrow : Forall (λ r, Forall clean_field (field_values r)) [accented_row]) by (apply (bool_decide_unpack _); vm_compute; exact I).
  assert (Hcap : 0 <= max_rows sample_caps) by (vm_compute; discriminate).
  assert (Hus : columns (Some us_date_field_map) ≠ [] ∧ Forall clean_field (columns (Some us_date_field_map))).
  { split; [vm_compute; discriminate|apply (bool_decide_unpack _); vm_compute; exact I]. }
  assert (Hrel : columns (Some relativity_alias_field_map) ≠ [] ∧ Forall clean_field (columns (Some relativity_alias_field_map))).
  { split; [vm_compute; discriminate|apply (bool_decide_unpack _); vm_compute; exact I]. }
  destruct Hus as [Hus1 Hus2], Hrel as [Hrel1 Hrel2]. split; [|split].
  - destruct (load_file_round_trip to_ascii_lowercase no_csv sorted_entries (Some us_date_field_map) [accented_row] default_produce_v1 sample_caps
      Hus1 Hus2 Hrow Hcap default_one_header) as [_ Hd].
    destruct Hd as [Hd _]; [reflexivity|vm_compute; discriminate|]. apply Hd; [right; right; left|vm_compute; discriminate].
  - destruct (load_file_round_trip to_ascii_lowercase no_csv sorted_entries (Some relativity_alias_field_map) [accented_row] default_produce_v1 sample_caps
      Hrel1 Hrel2 Hrow Hcap default_one_header) as [_ Hd].
    destruct Hd as [_ Hd]; [reflexivity|vm_compute; discriminate|]. destruct (Hd eq_refl) as (missing & Hm & Hl).
    exists missing. split; [exact Hm|]. by rewrite Hl.
  - destruct (load_file_round_trip to_ascii_lowercase no_csv sorted_entries (Some relativity_alias_field_map) [accented_row] alias_map sample_caps
      Hrel1 Hrel2 Hrow Hcap alias_one_header) as [Heq _].
    unfold parse_sample, produced. rewrite Heq. vm_compute. reflexivity.
Defined.

(** A pilcrow in a value is not escaped: every later column of the row shifts, and the
    hash of the document is lost. *)
Example pilcrow_shifts_columns :
  match parse_dat_bytes to_ascii_lowercase no_csv sorted_entries
      (write_load_dat_mapped [sample_row (lit "a" ++ [DAT_SEPARATOR] ++ lit "b.pdf") (lit "Ann")] None) default_produce_v1 sample_caps with
  | Ok p => map (λ r, (file_name r, file_ext r, sha256 r)) (pd_rows p)
  | _ => []
  end = [(Some (lit "a"), Some (lit "b.pdf"), Some (lit "10"))].
Proof. vm_compute. reflexivity. Qed.

(** A CSV file with one accented letter is taken for Concordance, and refused whatever
    the CSV reader says. *)
Definition latin_csv : list byte :=
  utf8 (lit "CONTROL_NUMBER,SHA256,ITEM_ID,CUSTODIAN,FILE_NAME" ++ [LF] ++ lit "C1,aa,i1,Jos" ++ [0xE9] ++ lit ",a.pdf" ++ [LF]).
Example latin_csv_refused csv :
  match parse_dat_bytes to_ascii_lowercase csv sorted_entries latin_csv default_produce_v1 sample_caps with
  | Err (InvalidDatHeader missing) => length missing = 5%nat
  | _ => False
  end.
Proof. vm_compute. reflexivity. Qed.

(** Two headers that map to one field: the column that is read depends on the order of
    the hash map. *)
Definition two_hashes : column_map := {[ lit "NATIVE" := Sha256; lit "TEXT" := Sha256 ]}.
Example resolved_column_depends_on_order :
  match resolve_indices sorted_entries two_hashes [lit "NATIVE"; lit "TEXT"], resolve_indices reversed_entries two_hashes [lit "NATIVE"; lit "TEXT"] with
  | Ok a, Ok b => a !! Sha256 ≠ b !! Sha256
  | _, _ => False
  end.
Proof. vm_compute. discriminate. Qed.
